(* ===== verification/_CoqProject ===== *)
-Q . S2P
Prelude.v
Float64.v
Value.v
Table.v
TableHash.v
TableInv.v
TableSet.v
TableResize.v
TableRehash.v
TableSpec.v
TableIter.v
TableGc.v
Bytecode.v
PatClass.v
PatEngine.v
PatSpec.v
PatFind.v
Ir.v
IrSpec.v
IrInv.v
OptMem.v
Fold.v
IrEmit.v
FoldTerm.v
IntSem.v
FoldSound.v
Exec.v
Dce.v
DceSpec.v
Heap.v
HeapSpec.v
Intern.v
InternSpec.v
InternSweep.v
Collector.v
CollectorRefs.v
CollectorMark.v
CollectorProp.v
CollectorCycle.v
CollectorAtomic.v
CollectorWeak.v
CollectorSweep.v
CollectorStep.v
CollectorSpec.v
Sort.v
SortSpec.v
Strings.v
StringsIntern.v
Dump.v
DumpSpec.v
FloatText.v
StrScan.v
StrFmt.v
NumSpec.v
ScanSpec.v
FmtSpec.v
Lex.v
LexSpec.v
LexText.v
ParseState.v
ParseExpr.v
ParseScope.v
Parse.v
ParseCalm.v
ParseTerm.v
ParseGrammar.v
ParseIntern.v
VmState.v
VmValue.v
VmFrame.v
VmMeta.v
VmStep.v
Vm.v
VmSpec.v
VmCall.v
VmMetaCall.v
VmUpval.v
VmIndex.v
VmNum.v
VmRun.v
