(* ===== verification/Prelude.v ===== *)
(** * A verification development for luajit-rs

    luajit-rs is a Lua 5.1 implementation in Rust with LuaJIT's architecture:
    a compiler to register bytecode, an interpreter, a trace recorder whose
    SSA IR is optimised and then executed or assembled, NaN-boxed values, a
    hybrid table, an interner and an incremental tri-colour collector.  Paths
    below are relative to [src/crates/luajit-rs/src/].

    ** How the program is modelled

    Source functions are Rocq functions of the same name.  A [Z] holds a
    machine integer, in the range of its type; [uwrap] and [swrap] are the
    wrapping casts and operations.  Doubles are their 64 bits, with the
    kernel's [spec_float] operations behind them (Float64.v).  What panics, or
    uses a dangling pointer, is [None]; [let?] sequences such computations, so
    that a theorem that a function returns [Some] is the absence of panics.
    Loops without a structural measure take fuel, one unit per iteration (said
    at each definition); every theorem about such a function proves that the
    fuel the definition passes is enough.

    ** Files

    - Prelude.v: notations, casts, bounded indices ([znth], [zset]), list and
      arithmetic lemmas, tactics, enumerations with codes ([Enum]).
    - Float64.v: doubles; integers below 2^53 add and compare exactly.
      Value.v: [runtime/value.rs].  A value is its word; tags,
      constructors and accessors, number canonicalisation, hashing and
      equality.  Proved: constructors and accessors are inverse, each word has
      one basic type, [number] identifies exactly the doubles that are equal
      as keys, [as_int32_exact] is exact.
    - Table.v: [runtime/table.rs], the array part and the chained scatter hash
      with Brent's insertion; strings are read through the class [StrHeap].
      TableHash.v sees the nodes as a graph of disjoint chains, TableInv.v
      states the invariant and the abstract map, TableSet.v, TableResize.v and
      TableRehash.v carry it through insertion, resize and rehash, and
      TableSpec.v concludes: [set] refines map update, and the specialised
      accessors agree with it.  TableIter.v: [next] and [len].  TableGc.v: the
      hooks of the collector, over the class [GcView].
    - Bytecode.v: [compiler/bc.rs], the instruction word, its modes, jumps.
    - PatClass.v, PatEngine.v: [stdlib/pattern/], character classes and the
      backtracking matcher, its recursion limits and errors.  PatSpec.v: a
      reference semantics that lists the parses of a pattern in order of
      priority, and the refinement.  PatFind.v: find, gmatch and gsub.
    - Ir.v: [jit/ir.rs], the trace buffer with its constants and per-opcode
      chains.  IrSpec.v and IrInv.v: field packing, the well-formed buffer,
      constant interning.  OptMem.v: [jit/opt/opt_mem.rs].  Fold.v:
      [jit/opt/opt_fold.rs].  IrEmit.v: emission, rollback, CSE.  FoldTerm.v:
      termination of the rewriting, by a measure on instructions.  IntSem.v
      and FoldSound.v: an evaluation of integer instructions, and that folding
      preserves it.  Exec.v: the value arms of [jit/exec.rs] and
      [stdlib/bit.rs], compared with each other and with IntSem.v.  Dce.v and
      DceSpec.v: [jit/opt/opt_dce.rs].
    - Heap.v, HeapSpec.v: the objects, headers and pools of [runtime/gc.rs]
      ([gc_gen/header.rs] for the enumerations; [func.rs], [proto.rs],
      [cdata.rs], [userdata.rs], [state.rs] for the objects): the memory maps
      an address to a header and an object, a freed address is absent.
      HeapSpec.v proves the header algebra and the sweep loop for any
      invariant its caller supplies.
    - Intern.v: [runtime/string.rs].  InternSpec.v: hashing, the invariant of
      the open-addressing table, interning as a bijection of strings and ids.
      InternSweep.v: the string sweep.
    - Collector.v: the incremental collector of [runtime/gc.rs] and the
      allocation of [runtime/state.rs], on the whole heap.  The proof follows
      the cycle: CollectorRefs.v (references, heaps without dangling
      pointers), CollectorMark.v (the contract of the marking functions),
      CollectorProp.v (both propagation loops and the tri-colour invariant),
      CollectorCycle.v (roots, start of a cycle), CollectorAtomic.v and
      CollectorWeak.v (finalizers, weak tables), CollectorSweep.v (a live set
      closed under references survives every pool), CollectorStep.v (the
      atomic phase hands over such a set) and CollectorSpec.v: each step keeps
      the invariant and makes progress, a full collection ends, keeps what is
      strongly reachable with its contents, and leaves no reachable pointer
      dangling.  The heap the cycle starts on is assumed to have no dangling
      pointers; CollectorSpec.v ends with a heap for which the colour of the
      survivors breaks this assumption two cycles later.  What the program
      does between the steps of one cycle is not modelled, so the barriers are
      definitions only.
    - Sort.v, SortSpec.v: [stdlib/sort.rs], introsort with a comparator that
      calls into Lua.  Whatever it answers, the sort ends and permutes; when
      the answers are a strict weak order, the result is sorted.

    - Strings.v states as a class what dumping and lexing need of a string
      table, and StringsIntern.v derives it from the interner.
    - Dump.v, DumpSpec.v: [compiler/dump.rs] and
      [compiler/undump.rs].  Reading a dumped prototype gives it back, up to
      what the format drops: a template table, which is a finding.
    - FloatText.v: the conversions of Rust's standard library between doubles,
      integers and decimal text, rounded correctly.  StrScan.v:
      [util/strscan.rs].  StrFmt.v: [util/strfmt.rs], [tostring] and
      [string.format].  NumSpec.v, ScanSpec.v and FmtSpec.v: what is written is
      read back, both scanners agree, formatting does not panic.
    - Lex.v: [compiler/lex.rs].  LexSpec.v: the lexer ends, moves forward and
      does not panic.  LexText.v: quoted strings, words, integer literals and
      operators, as functions of the text, and the same over the interner.
    - ParseState.v, ParseExpr.v, ParseScope.v, Parse.v: [compiler/parse.rs]
      and [compiler/parse/funcstate.rs], the single-pass compiler, as a state
      monad with the source's outcomes: a value, a compile error, a panic.
      ParseState.v has the data, the constants, the jump lists, the registers
      and the emitter; ParseExpr.v the code of expressions; ParseScope.v the
      variables, upvalues, gotos and function prototypes; Parse.v the grammar,
      a knot ([rec_at]) over the record [Rec] of its recursive productions.
      ParseCalm.v: what only emits code reads no token.  ParseTerm.v and
      ParseGrammar.v: weakest preconditions over the tokens left, and that
      compiling any text ends.  ParseIntern.v: the compiler over the interner,
      with listings of small programs.
    - VmState.v, VmValue.v, VmFrame.v, VmMeta.v, VmStep.v, Vm.v: the
      interpreter, [vm/mod.rs], and the metamethods, [vm/meta.rs] and
      [runtime/meta.rs], with the parts of [runtime/state.rs] they run on, as a
      state monad over [Vm]: a thread ([LuaState]: its stack, its open
      upvalues, the heap) and the interpreter's registers ([Interp]).  Its
      outcomes are a value, a Lua error or a yield ([Fail]), an abort
      ([Stuck]: a panic, or a read or write outside the stack or through a
      register window that dangles), and no fuel.  VmValue.v compares and
      converts values; VmFrame.v has frames, calls of builtins, closures,
      upvalues, varargs and the slow return; VmMeta.v metamethods and the
      names in error messages; VmStep.v the instructions, an arm each, and
      [step]; Vm.v the loop [dispatch], the ways in for the host, resumption,
      and the loading of sources and dumps.  Builtins are a class parameter.
      VmSpec.v: the slots each stack operation writes, and that results do
      not depend on the fuel.  VmCall.v: a call
      followed by whatever leaves its links in place and a return resumes the
      caller with the results, and varargs are the arguments past the
      parameters.  VmMetaCall.v: the same for a metamethod in a
      continuation frame.  VmUpval.v: cells are shared while their slot lives and keep
      its value after.  VmIndex.v: the negative metamethod cache never lies,
      and chains of [__index] tables.  VmNum.v: the parser's folding, the
      instructions, the slow path and the folder of traces compute the same
      number, and a numeric for visits an arithmetic progression.  VmRun.v:
      the interpreter over the interner, with runs of small sources, and
      states on which the theorems' hypotheses hold.

    ** How the parts interact

    Value.v is the currency of all the others.  Table.v needs the bytes and
    ids of strings, which the class [StrHeap] promises and the interner's
    memory provides ([Collector.mem_strings]); the lexer and the bytecode
    files need the table of strings of Strings.v.  The lexer hands numbers to
    StrScan.v and reads back what StrFmt.v quotes.  The collector reads tables
    through TableGc.v's functions over [Collector.mem_view].  The folder emits
    into the buffer of Ir.v and is called back by [emitir]; DCE reads the
    buffer that emission built, its hypothesis being the invariant that
    IrInv.v proves of emission.  The interpreter runs what the parser
    produced: [load_text] compiles with Parse.v, registers the prototype and
    its constants, and [call] executes it over Table.v's tables, the strings
    of Strings.v and the decoding of Bytecode.v; StrFmt.v and StrScan.v
    convert its numbers and strings.

    ** Bounds and fuel

    Tables: probes and chain walks are bounded by the number of nodes, [len]'s
    doubling by 64 steps; set's retry loop needs two rounds.  Patterns: the
    matcher's fuel is a function of pattern and text length, which
    [pattern_api_total] shows enough.  The folder's fuel is the measure of the
    instruction in FoldTerm.v.  Probes of the interner take at most one step
    per slot, as the load factor keeps an empty slot.  Propagation takes one
    unit per gray or unmarked object, a cycle one per step: [steps_left] adds
    the objects to mark, the objects to sweep and eleven.  The lexer's loops
    take one unit per character and two more; printing an integer as many as
    it can have digits.  A loop of the grammar, and the depth of its
    recursion, are bounded by three times the characters left: every turn
    consumes a token or a token looked ahead.  The interpreter takes one unit
    per instruction, nested interpreters included; a program need not end, so
    no amount is enough for all, and [call_fuel] proves that any that gives a
    result gives the same one.  Its loops over slots and upvalues are bounded
    by their counts, [__index] chains by the source's own limit of 100, and
    the walk over vararg frames by the base, which falls.

    ** Not modelled

    The recorder, the machine-code back ends and the FFI run over raw machine
    state and foreign memory; the loop, narrowing, sinking and induction
    passes work with the recorder's snapshots; the rest of the standard
    library is argument checking around what is modelled, I/O and glue.  Of the
    modelled files: raw pointer mirrors, capacities and byte sizes of tables,
    the low-address block allocator with its free list, and the finaliser
    calls of the interpreter.

    The interpreter is modelled for one thread, without debug hooks, with the
    trace compiler off (the opcodes it patches in abort), without a C type
    table (pointer C data), and with the heap below the collector's
    threshold: its allocations do not collect, so the barriers are left out.
    Pointers into the stack are indices, so a growth of the stack leaves what
    the source re-anchors as it was; the register window of an instruction,
    which the source does not re-anchor, carries the length of the stack it
    was made for, and using it after a growth aborts.  The bytecode lies in a
    map from addresses to instructions; new objects take the addresses from
    [next_block] on.  Strings interned by a compilation that fails are
    forgotten, and the cache of [string.dump] is left out. *)

From Stdlib Require Import ZArith Lia Bool.
From stdpp Require Import base decidable list numbers option.

#[global] Open Scope Z_scope.

(** ** Notations

    [let?] sequences partial operations: the code's [?] operator and every
    access that can panic are partial in the model. *)

Declare Scope lj_scope.
Delimit Scope lj_scope with lj.

Notation "'let?' x := a 'in' b" :=
  (match a with Some x => b | None => None end)
  (at level 10, x name, a at level 100, b at level 200) : lj_scope.
Notation "'let?' ' p := a 'in' b" :=
  (match a with Some p => b | None => None end)
  (at level 10, p strict pattern, a at level 100, b at level 200) : lj_scope.
#[global] Open Scope lj_scope.

(** ** Fixed-width integers

    A [uN] value is a [Z] in [[0, 2^N)], an [iN] value a [Z] in
    [[-2^(N-1), 2^(N-1))]; [uwrap] and [swrap] are the [as] casts. *)

Definition uwrap (w x : Z) : Z := x mod 2 ^ w.

Definition swrap (w x : Z) : Z :=
  let r := x mod 2 ^ w in if r <? 2 ^ (w - 1) then r else r - 2 ^ w.

Definition urange (w x : Z) : Prop := 0 <= x < 2 ^ w.
Definition srange (w x : Z) : Prop := - 2 ^ (w - 1) <= x < 2 ^ (w - 1).

(** Rust's [!x] on an unsigned [w]-bit integer. *)
Definition unot (w x : Z) : Z := Z.lxor x (Z.ones w).

(** Rust's [rotate_left]. *)
Definition rotl (w x n : Z) : Z :=
  Z.lor (uwrap w (Z.shiftl x n)) (Z.shiftr x (w - n)).

Lemma uwrap_range w x : 0 <= w -> urange w (uwrap w x).
Proof. intros. apply Z.mod_pos_bound, Z.pow_pos_nonneg; lia. Qed.

Lemma uwrap_small w x : urange w x -> uwrap w x = x.
Proof. apply Z.mod_small. Qed.

Lemma pow2_split w : 0 < w -> 2 ^ w = 2 * 2 ^ (w - 1).
Proof. intros. rewrite <- Z.pow_succ_r by lia. f_equal. lia. Qed.

Lemma swrap_range w x : 0 < w -> srange w (swrap w x).
Proof.
  intros. unfold srange, swrap. pose proof (pow2_split w H).
  pose proof (Z.mod_pos_bound x (2 ^ w) ltac:(apply Z.pow_pos_nonneg; lia)).
  cbv zeta. destruct (Z.ltb_spec (x mod 2 ^ w) (2 ^ (w - 1))); lia.
Qed.

Lemma swrap_small w x : 0 < w -> srange w x -> swrap w x = x.
Proof.
  unfold srange, swrap. intros Hw Hx. pose proof (pow2_split w Hw).
  cbv zeta. destruct (Z.ltb_spec x 0).
  - assert (x mod 2 ^ w = x + 2 ^ w) as ->.
    { symmetry. apply Z.mod_unique with (-1); lia. }
    destruct (Z.ltb_spec (x + 2 ^ w) (2 ^ (w - 1))); lia.
  - rewrite Z.mod_small by lia.
    destruct (Z.ltb_spec x (2 ^ (w - 1))); lia.
Qed.

Lemma swrap_mod w x : 0 < w -> (swrap w x) mod 2 ^ w = x mod 2 ^ w.
Proof.
  intros. unfold swrap. cbv zeta.
  assert (0 < 2 ^ w) by (apply Z.pow_pos_nonneg; lia).
  destruct (_ <? _).
  - apply Z.mod_mod. lia.
  - rewrite <- (Z.mod_mod x (2 ^ w)) at 2 by lia.
    symmetry. apply Z_mod_plus_full with (b := -1) (a := x mod 2 ^ w) (c := 2 ^ w)
      || (replace (x mod 2 ^ w - 2 ^ w) with (x mod 2 ^ w + (-1) * 2 ^ w) by lia;
          rewrite Z_mod_plus_full; reflexivity).
Qed.

Lemma swrap_uwrap w x : 0 < w -> swrap w (uwrap w x) = swrap w x.
Proof.
  intros. unfold swrap, uwrap. rewrite Z.mod_mod; [done|].
  pose proof (Z.pow_pos_nonneg 2 w). lia.
Qed.

Lemma uwrap_swrap w x : 0 < w -> uwrap w (swrap w x) = uwrap w x.
Proof. apply swrap_mod. Qed.

(** ** Bit-level reasoning

    Total forms of the [testbit] specifications: the guard on the index is a
    boolean, so [zbits] can rewrite blindly and split on the guards. *)

Lemma tb_mod a n i : 0 <= n -> Z.testbit (a mod 2 ^ n) i = (i <? n) && Z.testbit a i.
Proof.
  intros. destruct (Z.ltb_spec i n); simpl.
  - destruct (Z.ltb_spec i 0).
    + by rewrite !Z.testbit_neg_r by lia.
    + apply Z.mod_pow2_bits_low; lia.
  - apply Z.mod_pow2_bits_high; lia.
Qed.

Lemma tb_shiftl a n i : 0 <= n -> Z.testbit (Z.shiftl a n) i = (n <=? i) && Z.testbit a (i - n).
Proof.
  intros. destruct (Z.leb_spec n i); simpl.
  - apply Z.shiftl_spec. lia.
  - destruct (Z.ltb_spec i 0).
    + by rewrite Z.testbit_neg_r by lia.
    + apply Z.shiftl_spec_low. lia.
Qed.

Lemma tb_shiftr a n i : 0 <= n -> Z.testbit (Z.shiftr a n) i = (0 <=? i) && Z.testbit a (i + n).
Proof.
  intros. destruct (Z.leb_spec 0 i); simpl.
  - apply Z.shiftr_spec. lia.
  - by rewrite Z.testbit_neg_r by lia.
Qed.

Lemma tb_ones n i : 0 <= n -> Z.testbit (Z.ones n) i = (0 <=? i) && (i <? n).
Proof. intros. apply Z.testbit_ones. lia. Qed.

Lemma tb_lnot a i : Z.testbit (Z.lnot a) i = (0 <=? i) && negb (Z.testbit a i).
Proof.
  destruct (Z.leb_spec 0 i); simpl.
  - apply Z.lnot_spec. lia.
  - by rewrite Z.testbit_neg_r by lia.
Qed.

Lemma tb_high a n i : 0 <= a < 2 ^ n -> n <= i -> Z.testbit a i = false.
Proof.
  intros [? ?] ?. destruct (Z.ltb_spec n 0).
  - rewrite Z.pow_neg_r in * by lia. lia.
  - rewrite <- (Z.mod_small a (2 ^ n)) by lia. rewrite tb_mod by lia.
    destruct (Z.ltb_spec i n); [lia|done].
Qed.

(** Turn the source's masks into [Z.ones] and shifts of it. *)
Ltac zmasks :=
  change 255 with (Z.ones 8) in *; change 65535 with (Z.ones 16) in *;
  change 16777215 with (Z.ones 24) in *;
  change 4294967295 with (Z.ones 32) in *.

Ltac zbits_guards :=
  repeat (match goal with
          | |- context [?a <=? ?b] => destruct (Z.leb_spec a b)
          | |- context [?a <? ?b] => destruct (Z.ltb_spec a b)
          end; try lia; cbn [xorb andb orb negb]; rewrite ?andb_true_l, ?andb_false_l, ?orb_false_r,
               ?orb_false_l, ?andb_true_r, ?andb_false_r, ?xorb_false_l,
               ?xorb_false_r, ?xorb_true_r, ?negb_involutive).

(** Close an index mismatch, or a bit above the bound of its word. *)
Ltac zbits_close :=
  try done;
  repeat match goal with
  | H : 0 <= ?a < 2 ^ ?n |- context [Z.testbit ?a ?i] =>
      rewrite (tb_high a n i H) by lia
  | |- context [Z.testbit ?a ?i] =>
      match goal with
      | |- context [Z.testbit a ?j] =>
          assert_fails (constr_eq i j); replace i with j by lia
      end
  end;
  rewrite ?orb_false_r, ?orb_false_l, ?xorb_false_l, ?xorb_false_r, ?orb_diag; try done.

Ltac zbits_rewrite :=
  repeat (rewrite ?Z.land_spec, ?Z.lor_spec, ?Z.lxor_spec;
          first [ rewrite tb_mod by lia | rewrite tb_shiftl by lia
                | rewrite tb_shiftr by lia | rewrite tb_ones by lia
                | rewrite tb_lnot | progress rewrite ?Z.land_spec, ?Z.lor_spec, ?Z.lxor_spec ]).

Ltac zbits :=
  apply Z.bits_inj'; intros ?i ?Hi; zbits_rewrite;
  rewrite ?Z.testbit_0_l; zbits_guards; zbits_close.

(** A word in range is its own reduction: what [zbits] needs to know about
    a bounded variable. *)
Ltac zbound x w := rewrite <- (Z.mod_small x (2 ^ w)) by lia.

Lemma unot_sub w x : 0 <= w -> urange w x -> unot w x = 2 ^ w - 1 - x.
Proof.
  unfold urange. intros Hw Hx.
  transitivity (Z.lnot x mod 2 ^ w).
  - unfold unot. symmetry. zbits.
  - symmetry. unfold Z.lnot. apply Z.mod_unique with (-1); lia.
Qed.

(** ** Lists *)

(** The source's indexing [v[i]] with a machine index: out of range panics. *)
Definition znth {A} (l : list A) (i : Z) : option A :=
  if i <? 0 then None else l !! Z.to_nat i.

Definition zlen {A} (l : list A) : Z := Z.of_nat (length l).

Lemma znth_Some_lt {A} (l : list A) i x : znth l i = Some x -> 0 <= i < zlen l.
Proof.
  unfold znth, zlen. destruct (Z.ltb_spec i 0); [done|].
  intros Hx%lookup_lt_Some. lia.
Qed.

Lemma znth_lt_Some {A} (l : list A) i : 0 <= i < zlen l -> exists x, znth l i = Some x.
Proof.
  unfold znth, zlen. destruct (Z.ltb_spec i 0); [lia|]. intros.
  destruct (lookup_lt_is_Some_2 l (Z.to_nat i)) as [x Hx]; [lia|eauto].
Qed.

(** The source's [v[i] = x]: out of range panics. *)
Definition zset {A} (l : list A) (i : Z) (x : A) : option (list A) :=
  if (0 <=? i) && (i <? zlen l) then Some (<[Z.to_nat i := x]> l) else None.

Lemma zset_Some {A} (l : list A) i x l' :
  zset l i x = Some l' <-> 0 <= i < zlen l /\ l' = <[Z.to_nat i := x]> l.
Proof.
  unfold zset. destruct (Z.leb_spec 0 i), (Z.ltb_spec i (zlen l)); cbn [andb];
    split; try (intros [= <-]; done); intros [? ?]; try lia. by subst.
Qed.

Lemma zset_lt {A} (l : list A) i x : 0 <= i < zlen l -> exists l', zset l i x = Some l'.
Proof. intros. exists (<[Z.to_nat i := x]> l). by apply zset_Some. Qed.

Lemma zlen_nonneg {A} (l : list A) : 0 <= zlen l.
Proof. unfold zlen. lia. Qed.

Lemma zlen_zset {A} (l : list A) i x l' : zset l i x = Some l' -> zlen l' = zlen l.
Proof. intros [_ ->]%zset_Some. unfold zlen. by rewrite length_insert. Qed.

Lemma znth_zset {A} (l : list A) i x l' j : zset l i x = Some l' ->
  znth l' j = if decide (j = i) then Some x else znth l j.
Proof.
  intros [Hi ->]%zset_Some. unfold znth. destruct (decide (j = i)) as [->|Hj].
  - destruct (Z.ltb_spec i 0); [lia|]. apply list_lookup_insert_eq. unfold zlen in Hi. lia.
  - destruct (Z.ltb_spec j 0); [done|]. apply list_lookup_insert_ne. lia.
Qed.

Lemma znth_None {A} (l : list A) i : znth l i = None <-> ~ 0 <= i < zlen l.
Proof.
  split.
  - intros E Hi. destruct (znth_lt_Some l i Hi). congruence.
  - intros Hi. destruct (znth l i) eqn:E; [|done]. by apply znth_Some_lt in E.
Qed.

Lemma znth_replicate {A} n (x : A) i : 0 <= i < n -> znth (replicate (Z.to_nat n) x) i = Some x.
Proof.
  intros. unfold znth. destruct (Z.ltb_spec i 0); [lia|].
  apply lookup_replicate. split; [done|lia].
Qed.

Lemma zlen_replicate {A} n (x : A) : 0 <= n -> zlen (replicate (Z.to_nat n) x) = n.
Proof. intros. unfold zlen. rewrite length_replicate. lia. Qed.

Lemma znth_app {A} (l k : list A) i :
  znth (l ++ k) i = if i <? zlen l then znth l i else znth k (i - zlen l).
Proof.
  unfold znth, zlen. destruct (Z.ltb_spec i 0), (Z.ltb_spec i (Z.of_nat (length l))); try done; try lia.
  - apply lookup_app_l. lia.
  - destruct (Z.ltb_spec (i - Z.of_nat (length l)) 0); [lia|].
    rewrite lookup_app_r by lia. f_equal. lia.
Qed.

Lemma znth_take {A} (l : list A) n i : 0 <= n ->
  znth (take (Z.to_nat n) l) i = if i <? n then znth l i else None.
Proof.
  intros. unfold znth. destruct (Z.ltb_spec i 0), (Z.ltb_spec i n); try done; try lia.
  - apply lookup_take_lt. lia.
  - apply lookup_take_ge. lia.
Qed.

Lemma zlen_take {A} (l : list A) n : 0 <= n <= zlen l -> zlen (take (Z.to_nat n) l) = n.
Proof. unfold zlen. intros. rewrite length_take. lia. Qed.

Lemma Forall_znth {A} (P : A -> Prop) l i x : Forall P l -> znth l i = Some x -> P x.
Proof.
  unfold znth. destruct (i <? 0); [done|]. intros. by eapply Forall_lookup_1.
Qed.

Lemma Forall_zset {A} (P : A -> Prop) l i x l' :
  Forall P l -> P x -> zset l i x = Some l' -> Forall P l'.
Proof. intros ? ? [_ ->]%zset_Some. by apply Forall_insert. Qed.

(** The number of leading zero bits of a [w]-bit word. *)
Definition leading_zeros (w x : Z) : Z := if x =? 0 then w else w - 1 - Z.log2 x.

(** ** Enumerations

    A C-like enum is a type with its list of constructors in declaration
    order; the discriminant of a constructor is its position. *)

Class Enum (A : Type) := {
  enum_all : list A;
  enum_code : A -> Z;
  enum_code_nth : forall a, znth enum_all (enum_code a) = Some a;
}.

#[global] Instance enum_eq_dec `{Enum A} : EqDecision A.
Proof.
  intros a b. destruct (decide (enum_code a = enum_code b)) as [E|E].
  - left. pose proof (enum_code_nth a) as Ha. rewrite E, enum_code_nth in Ha. by simplify_eq.
  - right. by intros ->.
Defined.

Definition enum_of_code `{Enum A} (z : Z) : option A := znth enum_all z.

Lemma enum_code_range `{Enum A} (a : A) : 0 <= enum_code a < zlen enum_all.
Proof. apply (znth_Some_lt _ _ _ (enum_code_nth a)). Qed.

(** Induction for loops that consume one or two elements per iteration. *)
Lemma list_ind2 {A} (P : list A -> Prop) :
  P [] -> (forall x, P [x]) ->
  (forall x y l, P l -> P (y :: l) -> P (x :: y :: l)) -> forall l, P l.
Proof.
  intros H0 H1 H2 l. assert (P l /\ forall x, P (x :: l)) as [? _]; [|done].
  induction l as [|y l [IH IH']]; [by auto|]. split; auto.
Qed.
