(* ===== verification/Float64.v ===== *)
(** * Doubles as the runtime stores them

    An [f64] is its 64 bits: [to_bits] and [from_bits] are the identity of the
    model.  [SF_of_bits] gives a bit pattern the IEEE 754 meaning of the
    Standard Library's [SpecFloat] (precision 53, maximal exponent 1024), so
    comparison and arithmetic are the specified ones; [as i32] and [as f64]
    are Rust's casts (truncating and saturating one way, exact the other). *)

From Stdlib Require Import ZArith Lia Bool SpecFloat.
From stdpp Require Import base decidable list numbers option.
From S2P Require Import Prelude.

(** ** Decoding and encoding *)

Abbreviation f64 := Z (only parsing).

Definition f64_sign (b : f64) : bool := 2 ^ 63 <=? b.
Definition f64_exp (b : f64) : Z := (b / 2 ^ 52) mod 2 ^ 11.
Definition f64_man (b : f64) : Z := b mod 2 ^ 52.

Definition f64_NAN : f64 := 0x7ff8000000000000.

Definition SF_of_bits (b : f64) : spec_float :=
  let s := f64_sign b in
  if f64_exp b =? 0x7ff then
    if f64_man b =? 0 then S754_infinity s else S754_nan
  else if f64_exp b =? 0 then
    match f64_man b with Zpos m => S754_finite s m (-1074) | _ => S754_zero s end
  else
    match f64_man b + 2 ^ 52 with
    | Zpos m => S754_finite s m (f64_exp b - 1075)
    | _ => S754_nan
    end.

Definition pack (s : bool) (e m : Z) : f64 := Z.b2z s * 2 ^ 63 + e * 2 ^ 52 + m.

(** Arithmetic results: every NaN is the canonical one. *)
Definition bits_of_SF (f : spec_float) : f64 :=
  match f with
  | S754_zero s => pack s 0 0
  | S754_infinity s => pack s 0x7ff 0
  | S754_nan => f64_NAN
  | S754_finite s m e =>
      if Zpos m <? 2 ^ 52 then pack s 0 (Zpos m)
      else pack s (e + 1075) (Zpos m - 2 ^ 52)
  end.

Definition f64_is_nan (b : f64) : bool :=
  match SF_of_bits b with S754_nan => true | _ => false end.

(** [a == b] on doubles: NaN differs from everything, the zeroes are equal. *)
Definition f64_eq (a b : f64) : bool := SFeqb (SF_of_bits a) (SF_of_bits b).
Definition f64_lt (a b : f64) : bool := SFltb (SF_of_bits a) (SF_of_bits b).
Definition f64_le (a b : f64) : bool := SFleb (SF_of_bits a) (SF_of_bits b).

Definition f64_add (a b : f64) : f64 := bits_of_SF (SFadd 53 1024 (SF_of_bits a) (SF_of_bits b)).
Definition f64_sub (a b : f64) : f64 := bits_of_SF (SFsub 53 1024 (SF_of_bits a) (SF_of_bits b)).
Definition f64_mul (a b : f64) : f64 := bits_of_SF (SFmul 53 1024 (SF_of_bits a) (SF_of_bits b)).
Definition f64_div (a b : f64) : f64 := bits_of_SF (SFdiv 53 1024 (SF_of_bits a) (SF_of_bits b)).
(** Negation only flips the sign bit, on NaN too. *)
Definition f64_neg (a : f64) : f64 := if f64_sign a then a - 2 ^ 63 else a + 2 ^ 63.
Definition f64_abs (a : f64) : f64 := if f64_sign a then a - 2 ^ 63 else a.

(** ** Conversions *)

(** [k as f64] for an integer of at most 53 bits, which is exact. *)
Definition f64_of_int (k : Z) : f64 :=
  if k =? 0 then 0 else
  let d := Z.log2 (Z.abs k) in
  pack (k <? 0) (d + 1023) (Z.abs k * 2 ^ (52 - d) - 2 ^ 52).

(** The integer part, [None] for infinities and NaN. *)
Definition SF_trunc (f : spec_float) : option Z :=
  match f with
  | S754_zero _ => Some 0
  | S754_finite s m e =>
      let a := if 0 <=? e then Zpos m * 2 ^ e else Zpos m / 2 ^ (- e) in
      Some (if s then - a else a)
  | _ => None
  end.

(** [n as i32]: truncation, saturating at the bounds, 0 for NaN. *)
Definition f64_to_i32 (b : f64) : Z :=
  match SF_trunc (SF_of_bits b) with
  | Some z => Z.max (- 2 ^ 31) (Z.min z (2 ^ 31 - 1))
  | None =>
      match SF_of_bits b with
      | S754_infinity true => - 2 ^ 31
      | S754_infinity false => 2 ^ 31 - 1
      | _ => 0
      end
  end.

Example f64_of_int_3 : f64_of_int 3 = 0x4008000000000000. Proof. reflexivity. Qed.
Example f64_of_int_m1 : f64_of_int (-1) = 0xbff0000000000000. Proof. reflexivity. Qed.
Example f64_to_i32_2_5 : f64_to_i32 0xc004000000000000 = -2. Proof. reflexivity. Qed.
Example f64_to_i32_inf : f64_to_i32 0x7ff0000000000000 = 2147483647. Proof. reflexivity. Qed.
Example f64_add_1_2 : f64_add (f64_of_int 1) (f64_of_int 2) = f64_of_int 3.
Proof. vm_compute. reflexivity. Qed.

(** ** The fields determine the bits *)

Lemma f64_fields b : urange 64 b ->
  0 <= f64_exp b < 2 ^ 11 /\ 0 <= f64_man b < 2 ^ 52 /\
  b = pack (f64_sign b) (f64_exp b) (f64_man b).
Proof.
  unfold urange, pack, f64_sign, f64_exp, f64_man. intros Hb.
  pose proof (Z.div_mod b (2 ^ 52) ltac:(lia)).
  pose proof (Z.mod_pos_bound b (2 ^ 52) ltac:(lia)).
  pose proof (Z.div_mod (b / 2 ^ 52) (2 ^ 11) ltac:(lia)).
  pose proof (Z.mod_pos_bound (b / 2 ^ 52) (2 ^ 11) ltac:(lia)).
  destruct (Z.leb_spec (2 ^ 63) b); cbn [Z.b2z]; lia.
Qed.

Lemma f64_pack s e m : 0 <= e < 2 ^ 11 -> 0 <= m < 2 ^ 52 ->
  urange 64 (pack s e m) /\
  f64_sign (pack s e m) = s /\ f64_exp (pack s e m) = e /\ f64_man (pack s e m) = m.
Proof.
  unfold urange, pack, f64_sign, f64_exp, f64_man. intros He Hm.
  assert ((Z.b2z s * 2 ^ 63 + e * 2 ^ 52 + m) / 2 ^ 52 = Z.b2z s * 2 ^ 11 + e) as ->.
  { symmetry. apply Z.div_unique with m; lia. }
  split; [destruct s; cbn [Z.b2z]; lia|]. split; [destruct s; cbn [Z.b2z]; lia|]. split.
  - symmetry. apply Z.mod_unique with (Z.b2z s); lia.
  - symmetry. apply Z.mod_unique with (Z.b2z s * 2 ^ 11 + e); lia.
Qed.

(** Decoding loses nothing but the payload of NaNs. *)
Lemma bits_of_SF_of_bits b : urange 64 b -> SF_of_bits b <> S754_nan ->
  bits_of_SF (SF_of_bits b) = b.
Proof.
  intros Hb. destruct (f64_fields b Hb) as (He & Hm & Eb). unfold SF_of_bits.
  destruct (Z.eqb_spec (f64_exp b) 0x7ff) as [E|E].
  - destruct (Z.eqb_spec (f64_man b) 0) as [E0|]; [|done]. intros _. cbn [bits_of_SF].
    rewrite E, E0 in Eb. by rewrite Eb at 2.
  - destruct (Z.eqb_spec (f64_exp b) 0) as [E0|E0].
    + rewrite E0 in Eb. destruct (f64_man b) as [|p|p] eqn:Em; intros _; cbn [bits_of_SF];
        [by rewrite Eb at 2| |lia].
      destruct (Z.ltb_spec (Zpos p) (2 ^ 52)); [by rewrite Eb at 2|lia].
    + destruct (f64_man b + 2 ^ 52) as [|p|p] eqn:Em; [done| |done]. intros _.
      cbn [bits_of_SF]. destruct (Z.ltb_spec (Zpos p) (2 ^ 52)); [lia|].
      rewrite Eb at 3. f_equal; lia.
Qed.

Lemma SF_of_bits_inj a b : urange 64 a -> urange 64 b ->
  SF_of_bits a = SF_of_bits b -> SF_of_bits a <> S754_nan -> a = b.
Proof.
  intros Ha Hb E Hn. rewrite <- (bits_of_SF_of_bits a Ha Hn), E.
  apply bits_of_SF_of_bits; congruence.
Qed.

Lemma f64_is_nan_spec b : f64_is_nan b = true <-> SF_of_bits b = S754_nan.
Proof. unfold f64_is_nan. destruct (SF_of_bits b); split; done. Qed.

(** The NaN patterns are those above the infinities. *)
Lemma f64_is_nan_fields b : urange 64 b ->
  f64_is_nan b = (f64_exp b =? 0x7ff) && negb (f64_man b =? 0).
Proof.
  intros Hb. destruct (f64_fields b Hb) as (He & Hm & _). unfold f64_is_nan, SF_of_bits.
  destruct (_ =? 0x7ff); [by destruct (_ =? 0)|].
  destruct (_ =? 0).
  - by destruct (f64_man b).
  - destruct (f64_man b + 2 ^ 52) eqn:?; [lia|done|lia].
Qed.

(** ** Equality *)

Lemma SFeqb_finite_l s m e f :
  SFeqb (S754_finite s m e) f = true -> f = S754_finite s m e.
Proof.
  unfold SFeqb, SFcompare. destruct f as [s'|s'| |s' m' e'], s; try done; try (destruct s'; done);
  destruct s'; try done; destruct (Z.compare_spec e e') as [->| |]; try done;
  destruct (Pos.compare_cont Eq m m') eqn:Em; cbn [CompOpp]; try done;
  apply Pos.compare_eq in Em; by subst.
Qed.

Lemma SFeqb_refl f : f <> S754_nan -> SFeqb f f = true.
Proof.
  destruct f as [s|s| |s m e]; try done; intros _; destruct s; try done;
  unfold SFeqb, SFcompare; rewrite Z.compare_refl;
  change (Pos.compare_cont Eq m m) with (Pos.compare m m); by rewrite Pos.compare_refl.
Qed.

(** ** Small integers are exact *)

Lemma f64_of_int_pack k : 0 < Z.abs k < 2 ^ 53 ->
  let d := Z.log2 (Z.abs k) in
  0 <= d < 53 /\ 2 ^ 52 <= Z.abs k * 2 ^ (52 - d) < 2 ^ 53 /\
  f64_of_int k = pack (k <? 0) (d + 1023) (Z.abs k * 2 ^ (52 - d) - 2 ^ 52).
Proof.
  intros Hk d. pose proof (Z.log2_spec (Z.abs k) ltac:(lia)) as [Hl Hu]. fold d in Hl, Hu.
  assert (0 <= d < 53).
  { split; [apply Z.log2_nonneg|]. apply Z.log2_lt_pow2; lia. }
  split; [done|]. split.
  - replace (2 ^ 52) with (2 ^ d * 2 ^ (52 - d)) by (rewrite <- Z.pow_add_r by lia; f_equal; lia).
    replace (2 ^ 53) with (2 ^ Z.succ d * 2 ^ (52 - d))
      by (rewrite <- Z.pow_add_r by lia; f_equal; lia).
    assert (0 < 2 ^ (52 - d)) by (apply Z.pow_pos_nonneg; lia). nia.
  - unfold f64_of_int. by destruct (Z.eqb_spec k 0); [lia|].
Qed.

Lemma SF_of_f64_of_int k : 0 < Z.abs k < 2 ^ 53 ->
  let d := Z.log2 (Z.abs k) in exists m,
  SF_of_bits (f64_of_int k) = S754_finite (k <? 0) m (d - 52) /\
  Zpos m = Z.abs k * 2 ^ (52 - d).
Proof.
  intros Hk d. destruct (f64_of_int_pack k Hk) as (Hd & Hm & ->). fold d in Hd, Hm |- *.
  destruct (f64_pack (k <? 0) (d + 1023) (Z.abs k * 2 ^ (52 - d) - 2 ^ 52))
    as (_ & Es & Ee & Em); [lia..|].
  unfold SF_of_bits. rewrite Es, Ee, Em.
  destruct (Z.eqb_spec (d + 1023) 0x7ff); [lia|]. destruct (Z.eqb_spec (d + 1023) 0); [lia|].
  replace (Z.abs k * 2 ^ (52 - d) - 2 ^ 52 + 2 ^ 52) with (Z.abs k * 2 ^ (52 - d)) by lia.
  destruct (Z.abs k * 2 ^ (52 - d)) as [|m|m] eqn:E; [lia| |lia].
  exists m. split; [f_equal; lia|done].
Qed.

Lemma f64_of_int_range k : Z.abs k < 2 ^ 53 -> urange 64 (f64_of_int k).
Proof.
  intros Hk. destruct (decide (k = 0)) as [->|]; [done|].
  destruct (f64_of_int_pack k) as (Hd & Hm & ->); [lia|]. apply f64_pack; lia.
Qed.

Lemma f64_to_i32_of_int k : srange 32 k -> f64_to_i32 (f64_of_int k) = k.
Proof.
  unfold srange. intros Hk. destruct (decide (k = 0)) as [->|]; [done|].
  destruct (SF_of_f64_of_int k) as (m & E & Em); [lia|].
  set (d := Z.log2 (Z.abs k)) in *. unfold f64_to_i32. rewrite E. cbn [SF_trunc].
  assert (0 <= d < 32).
  { split; [apply Z.log2_nonneg|]. apply Z.log2_lt_pow2; lia. }
  destruct (Z.leb_spec 0 (d - 52)); [lia|]. rewrite Em.
  replace (- (d - 52)) with (52 - d) by lia. rewrite Z.div_mul by (apply Z.pow_nonzero; lia).
  destruct (Z.ltb_spec k 0); lia.
Qed.

Lemma f64_to_i32_range b : srange 32 (f64_to_i32 b).
Proof.
  unfold srange, f64_to_i32. destruct (SF_trunc _); [lia|].
  destruct (SF_of_bits b) as [|[]| |]; lia.
Qed.

(** Bits that compare equal to a small integer are that integer's, the two
    zeroes apart. *)
Lemma f64_eq_of_int k b : Z.abs k < 2 ^ 53 -> urange 64 b ->
  f64_eq (f64_of_int k) b = true <-> b = f64_of_int k \/ k = 0 /\ b = 2 ^ 63.
Proof.
  intros Hk Hb. unfold f64_eq. destruct (decide (k = 0)) as [->|].
  - change (SF_of_bits (f64_of_int 0)) with (S754_zero false). split.
    + destruct (SF_of_bits b) as [s|[]| |[]] eqn:E; try done. intros _.
      pose proof (bits_of_SF_of_bits b Hb) as Hx. rewrite E in Hx. specialize (Hx ltac:(done)).
      subst b. destruct s; [right|left]; done.
    + intros [->|[_ ->]]; done.
  - destruct (SF_of_f64_of_int k) as (m & E & _); [lia|]. rewrite E. split.
    + intros H%SFeqb_finite_l. left. apply SF_of_bits_inj; rewrite ?H; [done| |congruence|done].
      apply f64_of_int_range; lia.
    + intros [->|[]]; [|lia]. rewrite E. by apply SFeqb_refl.
Qed.

(** ** Integers in doubles

    Below 2^53 the sum of two integers is exact, and doubles compare as the
    integers do. *)

(** *** The operations of SpecFloat on exact values *)

Lemma digits2_log2 p : Zpos (digits2_pos p) = Z.log2 (Zpos p) + 1.
Proof. induction p as [p IH|p IH|]; cbn [digits2_pos]; [..|done]; rewrite Pos2Z.inj_succ, IH; destruct p; cbn; lia. Qed.

Lemma iter_pos_add {A} (f : A -> A) n : forall x, SpecFloat.iter_pos f n x = Pos.iter f x n.
Proof.
  induction n as [n IH|n IH|]; intros x; cbn [SpecFloat.iter_pos Pos.iter]; [|by rewrite !IH|done].
  rewrite !IH. by rewrite <- !Pos.iter_swap.
Qed.

Lemma shr_1_exact m : shr_1 (Build_shr_record (2 * m) false false) = Build_shr_record m false false.
Proof. by destruct m as [|[]|[]]. Qed.
Lemma shr_exact m e n : 0 <= n -> shr (Build_shr_record (m * 2 ^ n) false false) e n = (Build_shr_record m false false, e + n).
Proof.
  intros Hn. destruct n as [|p|p]; [by rewrite Z.mul_1_r, Z.add_0_r| |lia]. unfold shr. f_equal. rewrite iter_pos_add.
  clear Hn. induction p as [|p IH] using Pos.peano_ind.
  - change (Pos.iter _ ?x 1) with (shr_1 x). rewrite Z.mul_comm. apply shr_1_exact.
  - rewrite Pos.iter_succ_r, <- IH. f_equal. rewrite Pos2Z.inj_succ, Z.pow_succ_r by lia.
    replace (m * (2 * 2 ^ Zpos p)) with (2 * (m * 2 ^ Zpos p)) by lia. apply shr_1_exact.
Qed.

Lemma shl_align_exact m e e' : e' <= e -> Zpos (fst (shl_align m e e')) = Zpos m * 2 ^ (e - e') /\ snd (shl_align m e e') = e'.
Proof.
  intros He. unfold shl_align. destruct (e' - e) as [|d|d] eqn:Ed; [|lia|].
  - assert (e = e') as -> by lia. cbn [fst snd]. rewrite Z.sub_diag. lia.
  - cbn [fst snd]. split; [|done]. replace (e - e') with (Zpos d) by lia. clear.
    induction d as [|d IH] using Pos.peano_ind; [cbn; lia|].
    rewrite Pos.iter_succ, Pos2Z.inj_succ, Z.pow_succ_r by lia. rewrite Pos2Z.inj_xO, IH. lia.
Qed.

(** The mantissa and the exponent of an integer. *)
Definition int_man (k : Z) : Z := k * 2 ^ (52 - Z.log2 k).
Definition int_exp (k : Z) : Z := Z.log2 k - 52.

Lemma fexp_int k : 0 < k < 2 ^ 53 -> fexp 53 1024 (Z.log2 k + 1) = int_exp k /\ 0 <= Z.log2 k < 53.
Proof.
  intros Hk. pose proof (Z.log2_nonneg k). assert (Z.log2 k < 53) by (apply Z.log2_lt_pow2; lia).
  unfold fexp, emin, int_exp. lia.
Qed.

Lemma log2_scaled k n : 0 < k -> 0 <= n -> Z.log2 (k * 2 ^ n) = Z.log2 k + n.
Proof. intros. rewrite Z.log2_mul_pow2; lia. Qed.

(** A mantissa that stands for [k]. *)
Lemma shr_fexp_exact k n e : 0 < k < 2 ^ 53 -> 0 <= n -> e = - n -> e <= int_exp k ->
  shr_fexp 53 1024 (k * 2 ^ n) e loc_Exact = (Build_shr_record (int_man k) false false, int_exp k).
Proof.
  intros Hk Hn -> Hle. destruct (fexp_int k Hk) as [Hf Hd]. unfold shr_fexp.
  assert (0 < 2 ^ n) by (apply Z.pow_pos_nonneg; lia).
  assert (Zdigits2 (k * 2 ^ n) + - n = Z.log2 k + 1) as ->.
  { destruct (k * 2 ^ n) as [|p|p] eqn:E; [nia| |nia]. cbn [Zdigits2]. rewrite digits2_log2, <- E, log2_scaled by lia. lia. }
  rewrite Hf. unfold shr_record_of_loc.
  replace (k * 2 ^ n) with (int_man k * 2 ^ (int_exp k - - n)).
  - rewrite shr_exact by lia. f_equal. lia.
  - unfold int_man, int_exp in *. rewrite <- Z.mul_assoc, <- Z.pow_add_r by lia. do 2 f_equal. lia.
Qed.

Lemma int_man_spec k : 0 < k < 2 ^ 53 -> 2 ^ 52 <= int_man k < 2 ^ 53.
Proof.
  intros Hk. destruct (f64_of_int_pack k) as (_ & Hm & _); [lia|]. by rewrite Z.abs_eq in Hm by lia.
Qed.

Lemma binary_round_aux_exact s k n : 0 < k < 2 ^ 53 -> 0 <= n -> - n <= int_exp k ->
  binary_round_aux 53 1024 s (k * 2 ^ n) (- n) loc_Exact = S754_finite s (Z.to_pos (int_man k)) (int_exp k).
Proof.
  intros Hk Hn Hle. unfold binary_round_aux. rewrite (shr_fexp_exact k n (- n)) by done. cbn [shr_m loc_of_shr_record round_nearest_even].
  destruct (fexp_int k Hk) as [_ Hd]. pose proof (int_man_spec k Hk).
  unfold int_man at 1. rewrite (shr_fexp_exact k (52 - Z.log2 k) (int_exp k)) by (unfold int_exp; lia). cbn [shr_m].
  destruct (int_man k) as [|p|p]; [lia| |lia]. rewrite (proj2 (Z.leb_le _ _)) by (unfold int_exp; lia). done.
Qed.

Lemma binary_round_exact s m k n : 0 < k < 2 ^ 53 -> 0 <= n -> Zpos m = k * 2 ^ n ->
  binary_round 53 1024 s m (- n) = S754_finite s (Z.to_pos (int_man k)) (int_exp k).
Proof.
  intros Hk Hn Em. unfold binary_round. destruct (fexp_int k Hk) as [Hf Hd].
  rewrite digits2_log2, Em, log2_scaled by lia. replace (Z.log2 k + n + 1 + - n) with (Z.log2 k + 1) by lia. rewrite Hf.
  destruct (Z.le_gt_cases (- n) (int_exp k)) as [Hle|Hgt].
  - assert (shl_align m (- n) (int_exp k) = (m, - n)) as ->.
    { unfold shl_align. destruct (int_exp k - - n) eqn:E; [done..|lia]. }
    rewrite Em. by apply binary_round_aux_exact.
  - destruct (shl_align_exact m (- n) (int_exp k)) as [E1 E2]; [lia|]. destruct (shl_align m (- n) (int_exp k)) as [mz ez]. cbn [fst snd] in *.
    subst ez. rewrite E1, Em, <- Z.mul_assoc, <- Z.pow_add_r by lia.
    replace (n + (- n - int_exp k)) with (- int_exp k) by lia.
    rewrite <- (Z.opp_involutive (int_exp k)) at 2. apply binary_round_aux_exact; [done|unfold int_exp; lia|lia].
Qed.

(** *** Integers *)

Lemma SF_of_int k : 0 < Z.abs k < 2 ^ 53 ->
  SF_of_bits (f64_of_int k) = S754_finite (k <? 0) (Z.to_pos (int_man (Z.abs k))) (int_exp (Z.abs k)).
Proof. intros Hk. destruct (SF_of_f64_of_int k Hk) as (m & -> & Em). unfold int_man, int_exp. by rewrite <- Em. Qed.

Lemma bits_of_int k : 0 < Z.abs k < 2 ^ 53 ->
  bits_of_SF (S754_finite (k <? 0) (Z.to_pos (int_man (Z.abs k))) (int_exp (Z.abs k))) = f64_of_int k.
Proof.
  intros Hk. rewrite <- SF_of_int by done. apply bits_of_SF_of_bits; [apply f64_of_int_range; lia|]. by rewrite SF_of_int.
Qed.

(** The aligned mantissa, with its sign. *)
Lemma aligned k e : 0 < Z.abs k < 2 ^ 53 -> e <= int_exp (Z.abs k) ->
  cond_Zopp (k <? 0) (Zpos (fst (shl_align (Z.to_pos (int_man (Z.abs k))) (int_exp (Z.abs k)) e))) = k * 2 ^ (- e).
Proof.
  intros Hk He. destruct (fexp_int (Z.abs k) Hk) as [_ Hd]. pose proof (int_man_spec (Z.abs k) Hk).
  destruct (shl_align_exact (Z.to_pos (int_man (Z.abs k))) (int_exp (Z.abs k)) e He) as [-> _].
  rewrite Z2Pos.id by lia. unfold int_man at 1. rewrite <- Z.mul_assoc, <- Z.pow_add_r by (unfold int_exp in *; lia).
  replace (52 - Z.log2 (Z.abs k) + (int_exp (Z.abs k) - e)) with (- e) by (unfold int_exp; lia).
  unfold cond_Zopp. destruct (Z.ltb_spec k 0); [rewrite Z.abs_neq by lia|rewrite Z.abs_eq by lia]; lia.
Qed.

Lemma f64_add_int a b : Z.abs a < 2 ^ 53 -> Z.abs b < 2 ^ 53 -> Z.abs (a + b) < 2 ^ 53 ->
  f64_add (f64_of_int a) (f64_of_int b) = f64_of_int (a + b).
Proof.
  intros Ha Hb Hab. unfold f64_add.
  destruct (decide (a = 0)) as [->|Na].
  { change (SF_of_bits (f64_of_int 0)) with (S754_zero false). destruct (decide (b = 0)) as [->|Nb]; [done|].
    rewrite SF_of_int by lia. cbn [SFadd]. apply bits_of_int. lia. }
  destruct (decide (b = 0)) as [->|Nb].
  { change (SF_of_bits (f64_of_int 0)) with (S754_zero false). rewrite Z.add_0_r, SF_of_int by lia. cbn [SFadd]. apply bits_of_int. lia. }
  rewrite !SF_of_int by lia. cbn [SFadd]. cbv zeta.
  set (e := Z.min (int_exp (Z.abs a)) (int_exp (Z.abs b))).
  rewrite !aligned by lia. rewrite <- Z.mul_add_distr_r.
  assert (He : e <= 0). { destruct (fexp_int (Z.abs a)) as [_ ?]; [lia|]. subst e. unfold int_exp. lia. }
  assert (0 < 2 ^ (- e)) by (apply Z.pow_pos_nonneg; lia).
  destruct (decide (a + b = 0)) as [->|Nab]; [done|]. rewrite <- (bits_of_int (a + b)) by lia. f_equal. unfold binary_normalize.
  destruct ((a + b) * 2 ^ (- e)) as [|p|p] eqn:E; [nia|rewrite (proj2 (Z.ltb_ge (a + b) 0)) by nia|rewrite (proj2 (Z.ltb_lt (a + b) 0)) by nia];
    rewrite <- (Z.opp_involutive e) at 1; apply binary_round_exact; try lia; nia.
Qed.

(** *** Comparison *)

Lemma int_compare a b : 0 < a < 2 ^ 53 -> 0 < b < 2 ^ 53 ->
  match int_exp a ?= int_exp b with Eq => Pos.compare_cont Eq (Z.to_pos (int_man a)) (Z.to_pos (int_man b)) | c => c end = (a ?= b).
Proof.
  intros Ha Hb. destruct (fexp_int a Ha) as [_ Da]. destruct (fexp_int b Hb) as [_ Db].
  pose proof (int_man_spec a Ha). pose proof (int_man_spec b Hb).
  change (Pos.compare_cont Eq ?x ?y) with (Pos.compare x y).
  rewrite Pos2Z.inj_compare, !Z2Pos.id by lia. unfold int_exp, int_man in *.
  destruct (Z.compare_spec (Z.log2 a - 52) (Z.log2 b - 52)) as [E|E|E]; symmetry.
  - assert (Z.log2 a = Z.log2 b) as E' by lia. rewrite E'. assert (0 < 2 ^ (52 - Z.log2 b)) by (apply Z.pow_pos_nonneg; lia).
    apply Zmult_compare_compat_r. lia.
  - apply Z.compare_lt_iff. apply Z.log2_lt_cancel. lia.
  - apply Z.compare_gt_iff. apply Z.log2_lt_cancel. lia.
Qed.

Lemma f64_le_int a b : Z.abs a < 2 ^ 53 -> Z.abs b < 2 ^ 53 -> f64_le (f64_of_int a) (f64_of_int b) = (a <=? b).
Proof.
  intros Ha Hb. unfold f64_le, SFleb.
  destruct (decide (a = 0)) as [->|Na]; destruct (decide (b = 0)) as [->|Nb]; [done|..].
  - change (SF_of_bits (f64_of_int 0)) with (S754_zero false). rewrite SF_of_int by lia. cbn [SFcompare].
    destruct (Z.ltb_spec b 0), (Z.leb_spec 0 b); try lia; done.
  - change (SF_of_bits (f64_of_int 0)) with (S754_zero false). rewrite SF_of_int by lia. cbn [SFcompare].
    destruct (Z.ltb_spec a 0), (Z.leb_spec a 0); try lia; done.
  - rewrite !SF_of_int by lia. cbn [SFcompare]. pose proof (int_compare (Z.abs a) (Z.abs b) ltac:(lia) ltac:(lia)) as Hc.
    destruct (Z.ltb_spec a 0), (Z.ltb_spec b 0).
    + assert (match int_exp (Z.abs a) ?= int_exp (Z.abs b) with
              | Eq => CompOpp (Pos.compare_cont Eq (Z.to_pos (int_man (Z.abs a))) (Z.to_pos (int_man (Z.abs b)))) | Lt => Gt | Gt => Lt end
            = CompOpp (Z.abs a ?= Z.abs b)) as -> by (rewrite <- Hc; by destruct (int_exp _ ?= _)).
      destruct (Z.compare_spec (Z.abs a) (Z.abs b)), (Z.leb_spec a b); cbn [CompOpp]; lia || done.
    + destruct (Z.leb_spec a b); [done|lia].
    + destruct (Z.leb_spec a b); [lia|done].
    + rewrite Hc. destruct (Z.compare_spec (Z.abs a) (Z.abs b)), (Z.leb_spec a b); lia || done.
Qed.
