(* ===== verification/Value.v ===== *)
(** * runtime/value.rs: NaN-boxed values

    A [LuaValue] is its 64-bit word.  Pointers are addresses ([GcPtr]); what
    a string object stores at its address, its interned id, is read through
    the [StrHeap] interface, which the string interner provides. *)

From Stdlib Require Import ZArith Lia Bool SpecFloat.
From stdpp Require Import base decidable list numbers option.
From S2P Require Import Prelude Float64.

Definition LuaValue := Z.
#[global] Instance LuaValue_eq_dec : EqDecision LuaValue := Z.eq_dec.
#[global] Instance LuaValue_inhabited : Inhabited LuaValue := populate (2 ^ 64 - 1).

(** ** Internal object tags *)

Definition LJ_TNIL : Z := unot 32 0.
Definition LJ_TFALSE : Z := unot 32 1.
Definition LJ_TTRUE : Z := unot 32 2.
Definition LJ_TLIGHTUD : Z := unot 32 3.
Definition LJ_TSTR : Z := unot 32 4.
Definition LJ_TUPVAL : Z := unot 32 5.
Definition LJ_TTHREAD : Z := unot 32 6.
Definition LJ_TPROTO : Z := unot 32 7.
Definition LJ_TFUNC : Z := unot 32 8.
Definition LJ_TTRACE : Z := unot 32 9.
Definition LJ_TCDATA : Z := unot 32 10.
Definition LJ_TTAB : Z := unot 32 11.
Definition LJ_TUDATA : Z := unot 32 12.
Definition LJ_TNUMX : Z := unot 32 13.
Definition LJ_TISNUM : Z := LJ_TNUMX.
Definition LJ_TISGCV : Z := LJ_TUDATA.
Definition LJ_TISTRUECOND : Z := LJ_TFALSE.
Definition LJ_GCVMASK : Z := Z.shiftl 1 47 - 1.

(** ** Encodings *)

Definition pri (itype : Z) : Z := unot 64 (uwrap 64 (Z.shiftl (unot 32 itype) 47)).
Definition gcv (itype payload : Z) : Z := Z.lor payload (uwrap 64 (Z.shiftl itype 47)).

Definition hashrot (lo hi : Z) : Z :=
  let lo := Z.lxor lo hi in
  let hi := rotl 32 hi 14 in
  let lo := uwrap 32 (lo - hi) in
  let hi := rotl 32 hi 5 in
  let hi := Z.lxor hi lo in
  uwrap 32 (hi - rotl 32 lo 13).

Definition NIL : LuaValue := pri LJ_TNIL.
Definition FALSE : LuaValue := pri LJ_TFALSE.
Definition TRUE : LuaValue := pri LJ_TTRUE.

Definition boolean (b : bool) : LuaValue := if b then TRUE else FALSE.

Definition number (n : f64) : LuaValue :=
  if f64_is_nan n then f64_NAN else if f64_eq n 0 then 0 else n.

(** The raw form keeps [-0.0] and NaN payloads. *)
Definition number_raw (n : f64) : LuaValue := n.

(** ** Pointers *)

Definition from_addr (addr : Z) : option Z :=
  if negb (addr =? 0) && (addr <? 0x100) then None
  else if addr =? 0 then None else Some addr.

Definition gcval (itype addr : Z) : LuaValue := gcv itype addr.
Definition string (p : Z) : LuaValue := gcv LJ_TSTR p.
Definition table (p : Z) : LuaValue := gcval LJ_TTAB p.
Definition func (p : Z) : LuaValue := gcval LJ_TFUNC p.
Definition thread (p : Z) : LuaValue := gcv LJ_TTHREAD p.
Definition cdata (p : Z) : LuaValue := gcval LJ_TCDATA p.
Definition userdata (p : Z) : LuaValue := gcval LJ_TUDATA p.
Definition table_marker : LuaValue := gcv LJ_TTAB 0.

(** ** Tags and predicates *)

Definition itype (v : LuaValue) : Z := uwrap 32 (Z.shiftr (swrap 64 v) 47).

Definition is_nil (v : LuaValue) : bool := itype v =? LJ_TNIL.
Definition is_false (v : LuaValue) : bool := itype v =? LJ_TFALSE.
Definition is_true (v : LuaValue) : bool := itype v =? LJ_TTRUE.
Definition is_bool (v : LuaValue) : bool := is_false v || is_true v.
Definition is_number (v : LuaValue) : bool := itype v <=? LJ_TISNUM.
Definition is_string (v : LuaValue) : bool := itype v =? LJ_TSTR.
Definition is_table (v : LuaValue) : bool := itype v =? LJ_TTAB.
Definition is_func (v : LuaValue) : bool := itype v =? LJ_TFUNC.
Definition is_thread (v : LuaValue) : bool := itype v =? LJ_TTHREAD.
Definition is_cdata (v : LuaValue) : bool := itype v =? LJ_TCDATA.
Definition is_userdata (v : LuaValue) : bool := itype v =? LJ_TUDATA.
Definition is_gcv (v : LuaValue) : bool := (LJ_TISGCV <=? itype v) && (itype v <=? LJ_TSTR).
Definition is_truthy (v : LuaValue) : bool := itype v <? LJ_TISTRUECOND.

Definition gc_addr (v : LuaValue) : Z := Z.land v LJ_GCVMASK.

Definition as_number (v : LuaValue) : option f64 := if is_number v then Some v else None.
Definition as_string (v : LuaValue) : option Z := if is_string v then from_addr (gc_addr v) else None.
Definition as_table (v : LuaValue) : option Z := if is_table v then from_addr (gc_addr v) else None.
Definition as_func (v : LuaValue) : option Z := if is_func v then from_addr (gc_addr v) else None.
Definition as_thread (v : LuaValue) : option Z := if is_thread v then from_addr (gc_addr v) else None.
Definition as_cdata (v : LuaValue) : option Z := if is_cdata v then from_addr (gc_addr v) else None.
Definition as_userdata (v : LuaValue) : option Z := if is_userdata v then from_addr (gc_addr v) else None.

Definition as_int32_exact (v : LuaValue) : option Z :=
  let? n := as_number v in
  let k := f64_to_i32 n in
  if f64_eq (f64_of_int k) n then Some k else None.

(** ** Hashing *)

(** The string objects reachable by address: their id and their bytes. *)
Class StrHeap := {
  str_sid : Z -> Z;
  str_bytes : Z -> list Z;
  str_sid_range : forall p, urange 32 (str_sid p);
}.

Definition hash_key `{StrHeap} (v : LuaValue) : option Z :=
  if is_string v then let? p := as_string v in Some (str_sid p)
  else if is_number v then
    Some (hashrot (uwrap 32 v) (uwrap 32 (Z.shiftl (uwrap 32 (Z.shiftr v 32)) 1)))
  else if is_bool v then Some (LJ_TFALSE - itype v)
  else
    let payload := Z.land v LJ_GCVMASK in
    Some (hashrot (uwrap 32 payload) (uwrap 32 (Z.shiftr payload 32))).

(** ** Arithmetic reading of the tag *)

(** Words at or above [TAGSPACE] are tagged; their tag is the 47-bit page
    they fall in. *)
Definition TAGSPACE : Z := 2 ^ 64 - 13 * 2 ^ 47.

Lemma itype_div v : urange 64 v ->
  itype v = if v <? 2 ^ 63 then v / 2 ^ 47 else v / 2 ^ 47 - 2 ^ 17 + 2 ^ 32.
Proof.
  unfold urange, itype, swrap, uwrap. intros Hv. cbv zeta.
  rewrite (Z.mod_small v) by lia. rewrite !Z.shiftr_div_pow2 by lia.
  assert (0 <= v / 2 ^ 47 < 2 ^ 17) as Hd.
  { split; [apply Z.div_pos; lia|apply Z.div_lt_upper_bound; lia]. }
  change (64 - 1) with 63. destruct (Z.ltb_spec v (2 ^ 63)).
  - apply Z.mod_small. lia.
  - replace (v - 2 ^ 64) with (v + (- 2 ^ 17) * 2 ^ 47) by lia. rewrite Z.div_add by lia.
    symmetry. apply Z.mod_unique with (-1); [|lia].
    assert (2 ^ 63 / 2 ^ 47 <= v / 2 ^ 47) by (apply Z.div_le_mono; lia). lia.
Qed.

(** The tag [~j] (for [j] below [2^16]) is the [j]-th page from the top. *)
Lemma itype_tag v j : urange 64 v -> 0 <= j < 2 ^ 16 ->
  itype v = unot 32 j <-> 2 ^ 64 - (j + 1) * 2 ^ 47 <= v < 2 ^ 64 - j * 2 ^ 47.
Proof.
  intros Hv Hj. rewrite (itype_div v Hv), unot_sub by (unfold urange; lia).
  unfold urange in Hv. pose proof (Z.div_mod v (2 ^ 47) ltac:(lia)).
  pose proof (Z.mod_pos_bound v (2 ^ 47) ltac:(lia)).
  destruct (Z.ltb_spec v (2 ^ 63)); lia.
Qed.

Lemma is_number_range v : urange 64 v -> is_number v = (v <? TAGSPACE).
Proof.
  intros Hv. unfold is_number, LJ_TISNUM, LJ_TNUMX, TAGSPACE.
  rewrite (itype_div v Hv), unot_sub by (unfold urange; lia).
  unfold urange in Hv. pose proof (Z.div_mod v (2 ^ 47) ltac:(lia)).
  pose proof (Z.mod_pos_bound v (2 ^ 47) ltac:(lia)).
  destruct (Z.ltb_spec v (2 ^ 63)); lia.
Qed.

Lemma tag_word j p : 0 <= j < 2 ^ 16 -> urange 47 p ->
  gcv (unot 32 j) p = 2 ^ 64 - (j + 1) * 2 ^ 47 + p.
Proof.
  unfold urange. intros Hj Hp. unfold gcv, uwrap.
  rewrite unot_sub by (unfold urange; lia). rewrite Z.shiftl_mul_pow2 by lia.
  assert (((2 ^ 32 - 1 - j) * 2 ^ 47) mod 2 ^ 64 = 2 ^ 64 - (j + 1) * 2 ^ 47) as ->.
  { symmetry. apply Z.mod_unique with (2 ^ 15 - 1); lia. }
  replace (2 ^ 64 - (j + 1) * 2 ^ 47) with (Z.shiftl (2 ^ 17 - (j + 1)) 47)
    by (rewrite Z.shiftl_mul_pow2; lia).
  set (h := 2 ^ 17 - (j + 1)).
  pose proof (Z.add_lor_land p (Z.shiftl h 47)).
  assert (Z.land p (Z.shiftl h 47) = 0) by zbits. lia.
Qed.

Lemma gc_addr_mod v : gc_addr v = v mod 2 ^ 47.
Proof.
  unfold gc_addr. change LJ_GCVMASK with (Z.ones 47). apply Z.land_ones. lia.
Qed.

Lemma gc_addr_tag j p : 0 <= j < 2 ^ 16 -> urange 47 p -> gc_addr (gcv (unot 32 j) p) = p.
Proof.
  intros Hj Hp. rewrite gc_addr_mod, tag_word by done. unfold urange in Hp.
  symmetry. apply Z.mod_unique with (2 ^ 17 - (j + 1)); lia.
Qed.

Lemma itype_gcv j p : 0 <= j < 2 ^ 16 -> urange 47 p -> itype (gcv (unot 32 j) p) = unot 32 j.
Proof.
  intros Hj Hp. pose proof (tag_word j p Hj Hp) as E. unfold urange in Hp.
  apply itype_tag; [|done|]; rewrite E; unfold urange; lia.
Qed.

Lemma unot_inj j j' : urange 32 j -> urange 32 j' -> unot 32 j = unot 32 j' -> j = j'.
Proof. intros. rewrite !unot_sub in * by (done || lia). lia. Qed.

(** ** What the constructors build *)

(** A pointer that can be dereferenced: it fits the payload and lies outside
    the null page. *)
Definition ptr_ok (p : Z) : Prop := 0x100 <= p < 2 ^ 47.

Lemma from_addr_ok p : ptr_ok p -> from_addr p = Some p.
Proof.
  unfold ptr_ok, from_addr. intros. destruct (Z.eqb_spec p 0); [lia|].
  destruct (Z.ltb_spec p 0x100); [lia|done].
Qed.

Lemma from_addr_Some p q : from_addr p = Some q -> q = p /\ (0 <= p -> 0x100 <= p).
Proof.
  unfold from_addr. destruct (Z.eqb_spec p 0); [done|]. destruct (Z.ltb_spec p 0x100); [done|].
  by intros [= ->].
Qed.

(** The object tags and the accessor of each. *)
Inductive GcTag := TagStr | TagThread | TagFunc | TagCdata | TagTab | TagUdata.

Definition tag_index (t : GcTag) : Z :=
  match t with
  | TagStr => 4 | TagThread => 6 | TagFunc => 8 | TagCdata => 10 | TagTab => 11 | TagUdata => 12
  end.

Definition tag_make (t : GcTag) : Z -> LuaValue :=
  match t with
  | TagStr => string | TagThread => thread | TagFunc => func | TagCdata => cdata
  | TagTab => table | TagUdata => userdata
  end.

Definition tag_read (t : GcTag) : LuaValue -> option Z :=
  match t with
  | TagStr => as_string | TagThread => as_thread | TagFunc => as_func | TagCdata => as_cdata
  | TagTab => as_table | TagUdata => as_userdata
  end.

#[global] Instance GcTag_eq_dec : EqDecision GcTag.
Proof. solve_decision. Defined.

Lemma tag_make_gcv t p : tag_make t p = gcv (unot 32 (tag_index t)) p.
Proof. by destruct t. Qed.

Lemma tag_read_itype t v :
  tag_read t v = if itype v =? unot 32 (tag_index t) then from_addr (gc_addr v) else None.
Proof. by destruct t. Qed.

Lemma tag_index_range t : 0 <= tag_index t < 2 ^ 16.
Proof. destruct t; cbn; lia. Qed.

Lemma tag_index_inj t t' : tag_index t = tag_index t' -> t = t'.
Proof. by destruct t, t'. Qed.

Lemma unot_tag_eqb t j : urange 32 j ->
  (unot 32 (tag_index t) =? unot 32 j) = (tag_index t =? j).
Proof.
  intros Hj. pose proof (tag_index_range t).
  destruct (Z.eqb_spec (tag_index t) j) as [->|Hn]; [apply Z.eqb_refl|].
  apply Z.eqb_neq. intros ?%unot_inj; [done| |done]. unfold urange; lia.
Qed.

Lemma tag_make_facts (t t' : GcTag) (p : Z) (Hp : ptr_ok p) :
  let v := tag_make t p in
  urange 64 v /\ tag_read t' v = (if decide (t = t') then Some p else None) /\
  is_number v = false /\ is_nil v = false /\ is_bool v = false /\
  is_gcv v = true /\ is_truthy v = true /\ gc_addr v = p.
Proof.
  intros v. assert (urange 47 p) as Hp' by (unfold ptr_ok, urange in *; lia).
  pose proof (tag_index_range t) as Ht. pose proof (tag_index_range t') as Ht'.
  assert (v = gcv (unot 32 (tag_index t)) p) as Ev by apply tag_make_gcv.
  pose proof (tag_word _ p Ht Hp') as Ew. pose proof (gc_addr_tag _ p Ht Hp') as Ea.
  pose proof (itype_gcv _ p Ht Hp') as Ei. rewrite <- Ev in *.
  assert (urange 64 v) as Hv by (unfold urange in *; lia).
  split; [done|]. split; [|split; [|split_and!]].
  - rewrite tag_read_itype, Ei, Ea, unot_tag_eqb by (unfold urange; lia).
    destruct (decide (t = t')) as [->|Hn].
    + rewrite Z.eqb_refl. by apply from_addr_ok.
    + destruct (Z.eqb_spec (tag_index t) (tag_index t')) as [E|]; [|done].
      by apply tag_index_inj in E.
  - rewrite is_number_range, Ew by done. unfold TAGSPACE, urange in *.
    apply Z.ltb_ge. destruct t; cbn; lia.
  - unfold is_nil. rewrite Ei. by destruct t.
  - unfold is_bool, is_false, is_true. rewrite Ei. by destruct t.
  - unfold is_gcv. rewrite Ei. by destruct t.
  - unfold is_truthy. rewrite Ei. by destruct t.
  - done.
Qed.

(** C37. Each object constructor produces a 64-bit word from which exactly its
    own accessor reads the pointer back: every other accessor, and the number,
    nil and boolean predicates, reject it, it is a collectable value and it is
    truthy. *)
Theorem gc_value_roundtrip (t t' : GcTag) (p : Z) (Hp : ptr_ok p) :
  let v := tag_make t p in
  urange 64 v /\ tag_read t' v = (if decide (t = t') then Some p else None) /\
  is_number v = false /\ is_nil v = false /\ is_bool v = false /\
  is_gcv v = true /\ is_truthy v = true /\ gc_addr v = p.
Proof. exact (tag_make_facts t t' p Hp). Qed.

Lemma gc_value_roundtrip_witness :
  ptr_ok 0x7f0012345678 /\ tag_read TagTab (table 0x7f0012345678) = Some 0x7f0012345678.
Proof.
  assert (ptr_ok 0x7f0012345678) as H by (split; [|]; lia). split; [exact H|].
  exact (proj1 (proj2 (gc_value_roundtrip TagTab TagTab 0x7f0012345678 H))).
Defined.

(** ** Numbers *)

Lemma SF_of_NAN : SF_of_bits f64_NAN = S754_nan. Proof. reflexivity. Qed.

Lemma f64_eq_zero b : urange 64 b -> f64_eq b 0 = true <-> b = 0 \/ b = 2 ^ 63.
Proof.
  intros Hb. unfold f64_eq. change (SF_of_bits 0) with (S754_zero false). split.
  - destruct (SF_of_bits b) as [s|[]| |[]] eqn:E; try done. intros _.
    pose proof (bits_of_SF_of_bits b Hb) as Hx. rewrite E in Hx. specialize (Hx ltac:(done)).
    subst b. destruct s; [right|left]; done.
  - by intros [-> | ->].
Qed.

Lemma f64_nan_bound b : urange 64 b -> f64_is_nan b = false -> b < TAGSPACE.
Proof.
  intros Hb Hn. rewrite f64_is_nan_fields in Hn by done.
  destruct (f64_fields b Hb) as (He & Hm & ->). unfold pack, TAGSPACE.
  destruct (Z.eqb_spec (f64_exp b) 0x7ff), (Z.eqb_spec (f64_man b) 0); try done;
    destruct (f64_sign b); cbn [Z.b2z]; lia.
Qed.

Lemma number_cases n : urange 64 n ->
  (SF_of_bits n = S754_nan /\ number n = f64_NAN) \/
  ((n = 0 \/ n = 2 ^ 63) /\ number n = 0) \/
  (SF_of_bits n <> S754_nan /\ n <> 0 /\ n <> 2 ^ 63 /\ number n = n).
Proof.
  intros Hn. unfold number. pose proof (f64_is_nan_spec n). pose proof (f64_eq_zero n Hn).
  destruct (f64_is_nan n); [left; tauto|].
  destruct (f64_eq n 0); [right; left; tauto|]. right; right.
  split_and!; try done; intros E; intuition congruence.
Qed.

Lemma number_ok n : urange 64 n -> urange 64 (number n) /\ is_number (number n) = true.
Proof.
  intros Hn. assert (urange 64 (number n)) as Hr.
  { destruct (number_cases n Hn) as [[_ ->]|[[_ ->]|(_ & _ & _ & ->)]]; done. }
  split; [done|]. rewrite is_number_range by done. apply Z.ltb_lt.
  destruct (number_cases n Hn) as [[_ ->]|[[_ ->]|(Hs & _ & _ & ->)]]; [done|done|].
  apply f64_nan_bound; [done|]. rewrite <- not_true_iff_false, f64_is_nan_spec. done.
Qed.

Lemma number_idem n : urange 64 n -> number (number n) = number n.
Proof.
  intros Hn. destruct (number_cases n Hn) as [[_ ->]|[[_ ->]|(_ & _ & _ & E)]]; [done|done|].
  by rewrite !E.
Qed.

Lemma f64_eq_same a : urange 64 a -> SF_of_bits a <> S754_nan -> f64_eq a a = true.
Proof. intros. by apply SFeqb_refl. Qed.

Lemma f64_eq_bits a b : urange 64 a -> urange 64 b -> f64_eq a b = true ->
  a = b \/ ((a = 0 \/ a = 2 ^ 63) /\ (b = 0 \/ b = 2 ^ 63)).
Proof.
  intros Ha Hb. unfold f64_eq. destruct (SF_of_bits a) as [s|s| |s m e] eqn:E.
  - intros H. right. split; apply f64_eq_zero; try done; unfold f64_eq;
      change (SF_of_bits 0) with (S754_zero false); [by rewrite E|].
    destruct (SF_of_bits b) as [?|[]| |[]], s; done.
  - intros H. left. apply SF_of_bits_inj; rewrite ?E; try done.
    destruct (SF_of_bits b) as [?|[]| |[]], s; done.
  - done.
  - intros H%SFeqb_finite_l. left. apply SF_of_bits_inj; rewrite ?E, ?H; done.
Qed.

(** C38. Table-key identity of numbers: [number] maps two doubles to the same
    word exactly when they compare equal (the two zeroes included) or are both
    NaN, and the word it builds is always a number, never a tagged value. *)
Theorem number_key_identity (a b : f64) (Ha : urange 64 a) (Hb : urange 64 b) :
  (number a = number b <-> f64_eq a b = true \/ (f64_is_nan a = true /\ f64_is_nan b = true)) /\
  is_number (number a) = true /\
  as_number (number a) = Some (number a) /\
  (f64_is_nan a = false -> f64_eq (number a) a = true).
Proof.
  destruct (number_ok a Ha) as [Hr Hnum].
  split; [|split; [done|split; [by unfold as_number; rewrite Hnum|]]].
  - rewrite !f64_is_nan_spec. split.
    + destruct (number_cases a Ha) as [[Na ->]|[[Za ->]|(Na & ? & ? & ->)]],
        (number_cases b Hb) as [[Nb ->]|[[Zb ->]|(Nb & ? & ? & ->)]]; intros E; try done;
        try (by right); try (subst; done); left.
      * by destruct Za as [-> | ->], Zb as [-> | ->].
      * subst b. by apply f64_eq_same.
    + intros [E|[En1 En2]].
      * destruct (f64_eq_bits a b Ha Hb E) as [->|[[-> | ->] [-> | ->]]]; done.
      * destruct (number_cases a Ha) as [[? ->]|[[[-> | ->] ?]|(? & ? & ? & ?)]]; try done.
        destruct (number_cases b Hb) as [[? ->]|[[[-> | ->] ?]|(? & ? & ? & ?)]]; done.
  - intros Hn. rewrite <- not_true_iff_false, f64_is_nan_spec in Hn.
    destruct (number_cases a Ha) as [[? ?]|[[[-> | ->] ->]|(? & ? & ? & ->)]]; try done.
    by apply f64_eq_same.
Qed.

Lemma number_key_identity_witness :
  number 0 = number (2 ^ 63) /\ number 0x7ff0000000000001 = number f64_NAN.
Proof.
  split.
  - refine (proj2 (proj1 (number_key_identity 0 (2 ^ 63) _ _)) (or_introl eq_refl)); split; done.
  - refine (proj2 (proj1 (number_key_identity 0x7ff0000000000001 f64_NAN _ _))
              (or_intror (conj eq_refl eq_refl))); split; done.
Defined.

(** ** Exact integers *)

Lemma f64_of_int_number k : srange 32 k ->
  is_number (f64_of_int k) = true /\ number (f64_of_int k) = f64_of_int k.
Proof.
  unfold srange. intros Hk. destruct (decide (k = 0)) as [->|]; [done|].
  pose proof (f64_of_int_range k ltac:(lia)) as Hr.
  destruct (SF_of_f64_of_int k) as (m & E & _); [lia|].
  assert (SF_of_bits (f64_of_int k) <> S754_nan) as Hn by congruence.
  split.
  - rewrite is_number_range by done. apply Z.ltb_lt, f64_nan_bound; [done|].
    by rewrite <- not_true_iff_false, f64_is_nan_spec.
  - destruct (number_cases _ Hr) as [[? ?]|[[[E0|E0] ?]|(? & ? & ? & ?)]]; try done;
      rewrite E0 in E; done.
Qed.

Lemma as_int32_exact_iff (v k : Z) (Hv : urange 64 v) :
  as_int32_exact v = Some k <->
  srange 32 k /\ (v = f64_of_int k \/ (k = 0 /\ v = 2 ^ 63)).
Proof.
  unfold as_int32_exact, as_number. split.
  - destruct (is_number v); [|done]. cbv zeta.
    pose proof (f64_to_i32_range v) as Hr. unfold srange in Hr.
    destruct (f64_eq _ v) eqn:E; [|done]. intros [= <-].
    split; [done|]. apply f64_eq_of_int in E; [done|lia|done].
  - intros [Hk [->|[-> ->]]]; [|done]. destruct (f64_of_int_number k Hk) as [-> _].
    cbv zeta. rewrite f64_to_i32_of_int by done. unfold srange in Hk.
    replace (f64_eq _ _) with true; [done|]. symmetry. apply f64_eq_of_int; [lia|done|by left].
Qed.

(** [as_int32_exact] returns exactly the 32-bit integers: the words it
    accepts are the canonical doubles of the [i32] values and the negative
    zero, which it reads as 0. *)
Theorem as_int32_exact_spec (v k : Z) (Hv : urange 64 v) :
  as_int32_exact v = Some k <->
  srange 32 k /\ (v = f64_of_int k \/ (k = 0 /\ v = 2 ^ 63)).
Proof. by apply as_int32_exact_iff. Qed.

Lemma as_int32_exact_spec_witness : as_int32_exact (f64_of_int (-7)) = Some (-7).
Proof.
  refine (proj2 (as_int32_exact_spec (f64_of_int (-7)) (-7) (conj _ _)) _); [done|done|].
  split; [split; done|left; reflexivity].
Defined.

Lemma f64_of_int_inj k k' : srange 32 k -> srange 32 k' ->
  f64_of_int k = f64_of_int k' -> k = k'.
Proof. intros Hk Hk' E. rewrite <- (f64_to_i32_of_int k), E by done. by apply f64_to_i32_of_int. Qed.

(** ** Well-formed values *)

(** The words the constructors build: any number, a canonical primitive, or
    an object tag over a pointer. *)
Definition value_ok (v : LuaValue) : Prop :=
  urange 64 v /\
  (is_number v = true \/ v = NIL \/ v = FALSE \/ v = TRUE \/
   exists t p, ptr_ok p /\ v = tag_make t p).

Lemma value_ok_range v : value_ok v -> urange 64 v.
Proof. by intros [? _]. Qed.

Lemma value_ok_prim : value_ok NIL /\ value_ok FALSE /\ value_ok TRUE.
Proof. split_and!; (split; [split; done|auto]). Qed.

Lemma value_ok_int k : srange 32 k -> value_ok (f64_of_int k).
Proof.
  intros Hk. destruct (f64_of_int_number k Hk). unfold srange in Hk.
  split; [apply f64_of_int_range; lia|by left].
Qed.

Lemma is_nil_range v : urange 64 v -> is_nil v = (2 ^ 64 - 2 ^ 47 <=? v).
Proof.
  intros Hv. unfold is_nil, LJ_TNIL. pose proof (itype_tag v 0 Hv ltac:(lia)).
  unfold urange in Hv. destruct (Z.eqb_spec (itype v) (unot 32 0)), (Z.leb_spec (2 ^ 64 - 2 ^ 47) v);
    intuition lia.
Qed.

Lemma is_nil_NIL v : value_ok v -> is_nil v = true <-> v = NIL.
Proof.
  intros [Hv Hc]. split; [|by intros ->]. intros Hn.
  destruct Hc as [Hc|[->|[->|[->|(t & p & Hp & ->)]]]]; try done.
  - rewrite is_nil_range in Hn by done. rewrite is_number_range in Hc by done.
    unfold TAGSPACE in Hc. lia.
  - destruct (tag_make_facts t t p Hp) as (_ & _ & _ & Hn' & _). congruence.
Qed.

Lemma is_nil_false v : value_ok v -> v <> NIL -> is_nil v = false.
Proof. intros Hv Hn. apply not_true_iff_false. by rewrite is_nil_NIL. Qed.

Section Hash.
Context `{StrHeap}.

Lemma hashrot_range lo hi : urange 32 (hashrot lo hi).
Proof. unfold hashrot. cbv zeta. by apply uwrap_range. Qed.

Lemma hash_key_range v h : urange 64 v -> hash_key v = Some h -> urange 32 h.
Proof.
  intros Hv. unfold hash_key. destruct (is_string v).
  - destruct (as_string v); [|done]. intros [= <-]. apply str_sid_range.
  - destruct (is_number v); [intros [= <-]; apply hashrot_range|].
    destruct (is_bool v) eqn:Hb; [|intros [= <-]; apply hashrot_range].
    intros [= <-]. unfold is_bool, is_false, is_true in Hb.
    apply orb_true_iff in Hb as [->%Z.eqb_eq| ->%Z.eqb_eq]; done.
Qed.

Lemma hash_key_total v : value_ok v -> is_Some (hash_key v).
Proof.
  intros [Hv Hc]. unfold hash_key. destruct (is_string v) eqn:Hs.
  - destruct Hc as [Hc|[->|[->|[->|(t & p & Hp & ->)]]]]; try done.
    + unfold is_string, is_number in *. apply Z.eqb_eq in Hs. by rewrite Hs in Hc.
    + destruct (tag_make_facts t TagStr p Hp) as (_ & Hr & _). cbn [tag_read] in Hr.
      unfold as_string in *. rewrite Hs in *. rewrite Hr. destruct (decide _) as [|Hn]; [done|].
      exfalso. apply Hn. unfold is_string, LJ_TSTR in Hs. apply Z.eqb_eq in Hs.
      rewrite tag_make_gcv in Hs. pose proof (tag_index_range t) as Ht. rewrite itype_gcv in Hs.
      * apply tag_index_inj. apply unot_inj in Hs; [done| |done]. unfold urange; lia.
      * done.
      * unfold ptr_ok, urange in *. lia.
  - repeat case_match; done.
Qed.
End Hash.

(** C35. Every well-formed value has exactly one of the basic types, is falsy
    exactly when it is [NIL] or [FALSE], hashes without a panic to a 32-bit
    word, and its [boolean] constructor is read back by [is_true]/[is_false]. *)
Theorem value_partition `{StrHeap} (v : LuaValue) (Hv : value_ok v) :
  (Z.b2z (is_nil v) + Z.b2z (is_bool v) + Z.b2z (is_number v) + Z.b2z (is_gcv v) = 1) /\
  (is_truthy v = false <-> v = NIL \/ v = FALSE) /\
  (exists h, hash_key v = Some h /\ urange 32 h) /\
  (forall b, v = boolean b -> is_true v = b /\ is_false v = negb b).
Proof.
  split; [|split; [|split]].
  - destruct Hv as [Hr [Hc|[->|[->|[->|(t & p & Hp & ->)]]]]]; try done.
    + rewrite Hc. unfold is_number in Hc. apply Z.leb_le in Hc.
      assert (itype v <= 2 ^ 32 - 14) as Hi by (etransitivity; [exact Hc|done]).
      assert (forall j, 0 <= j < 13 -> (itype v =? unot 32 j) = false) as Hj.
      { intros j Hj. apply Z.eqb_neq. rewrite unot_sub by (unfold urange; lia). lia. }
      unfold is_nil, is_bool, is_false, is_true, is_gcv, LJ_TNIL, LJ_TFALSE, LJ_TTRUE.
      rewrite !Hj by lia.
      replace (LJ_TISGCV <=? itype v) with false; [done|]. symmetry. apply Z.leb_gt.
      unfold LJ_TISGCV, LJ_TUDATA. rewrite unot_sub by (unfold urange; lia). lia.
    + destruct (tag_make_facts t t p Hp) as (_ & _ & -> & -> & -> & -> & _). done.
  - split; [|by intros [-> | ->]].
    destruct Hv as [Hr [Hc|[->|[->|[->|(t & p & Hp & ->)]]]]]; auto; try done.
    + unfold is_truthy, is_number in *. intros Hf%Z.ltb_ge. apply Z.leb_le in Hc.
      assert (LJ_TISNUM < LJ_TISTRUECOND) by done. lia.
    + destruct (tag_make_facts t t p Hp) as (_ & _ & _ & _ & _ & _ & -> & _). done.
  - destruct (hash_key_total v Hv) as [h E]. exists h. split; [done|].
    eapply hash_key_range; [by apply value_ok_range|done].
  - intros [] ->; done.
Qed.

Lemma value_partition_witness :
  let H := Build_StrHeap (fun _ => 0) (fun _ => []) (fun _ => conj (Z.le_refl 0) eq_refl) in
  exists h, hash_key (f64_of_int 3) = Some h /\ urange 32 h.
Proof.
  intros H. refine (proj1 (proj2 (proj2 (value_partition (f64_of_int 3) _)))).
  split; [split; done|left; reflexivity].
Defined.
