(* ===== verification/Table.v ===== *)
(** * runtime/table.rs: the hybrid array + hash table

    The data and the operations of [LuaTable].  Machine indices are [Z],
    every indexing that can panic is partial, and the loops over a hash chain
    take fuel one above the number of nodes.  The raw mirrors of the record
    ([aptr], [table_extra], [heap]) serve the machine code and the collector
    and are not part of the model; [barrier] only notifies the collector. *)

From Stdlib Require Import ZArith Lia Bool.
From stdpp Require Import base decidable list numbers option.
From S2P Require Import Prelude Float64 Value.

Definition LJ_MAX_ABITS : Z := 28.
Definition LJ_MAX_ASIZE : Z := Z.shiftl 1 (LJ_MAX_ABITS - 1) + 1.
Definition LJ_MAX_HBITS : Z := 26.
Definition NIL_NODE : Z := 4294967295.

Record Node := mkNode { val : LuaValue; key : LuaValue; next_ : Z }.
Definition EMPTY : Node := mkNode NIL NIL NIL_NODE.

Record LuaTable := mkTable {
  array : list LuaValue;
  node : list Node;
  asize : Z;
  hmask : Z;
  freetop : Z;
  nomm : Z;
  metatable : option Z;
}.

Definition with_array (t : LuaTable) (a : list LuaValue) : LuaTable :=
  mkTable a (node t) (asize t) (hmask t) (freetop t) (nomm t) (metatable t).
Definition with_node (t : LuaTable) (n : list Node) : LuaTable :=
  mkTable (array t) n (asize t) (hmask t) (freetop t) (nomm t) (metatable t).
Definition with_asize (t : LuaTable) (s : Z) : LuaTable :=
  mkTable (array t) (node t) s (hmask t) (freetop t) (nomm t) (metatable t).
Definition with_hmask (t : LuaTable) (m : Z) : LuaTable :=
  mkTable (array t) (node t) (asize t) m (freetop t) (nomm t) (metatable t).
Definition with_freetop (t : LuaTable) (f : Z) : LuaTable :=
  mkTable (array t) (node t) (asize t) (hmask t) f (nomm t) (metatable t).
Definition with_nomm (t : LuaTable) (m : Z) : LuaTable :=
  mkTable (array t) (node t) (asize t) (hmask t) (freetop t) m (metatable t).

(** ** Sizes *)

(** [31 - x.leading_zeros()], on [x <> 0]. *)
Definition fls (x : Z) : Z := 31 - leading_zeros 32 x.

Definition hsize2hbits (s : Z) : Z :=
  if s =? 0 then 0
  else if s =? 1 then 1
  else 1 + (31 - leading_zeros 32 (s - 1)).

Definition has_hpart (t : LuaTable) : bool := negb (hmask t =? 0).

Definition hbits (t : LuaTable) : Z := if hmask t =? 0 then 0 else fls (hmask t) + 1.

(** The [assert!]s of the source are the partiality of the model. *)
Definition new_hpart (t : LuaTable) (hbits : Z) : option LuaTable :=
  if hbits <=? LJ_MAX_HBITS then
    let hsize := Z.shiftl 1 hbits in
    Some (with_freetop (with_hmask (with_node t (replicate (Z.to_nat hsize) EMPTY)) (hsize - 1)) hsize)
  else None.

Definition new (asize hbits : Z) : option LuaTable :=
  if (asize <=? LJ_MAX_ASIZE) && (hbits <=? LJ_MAX_HBITS) then
    let t := mkTable (replicate (Z.to_nat asize) NIL) [] asize 0 0 (unot 8 0) None in
    if negb (hbits =? 0) then new_hpart t hbits else Some t
  else None.

(** ** Nodes *)

Definition node_slot (t : LuaTable) (idx : Z) : option Node :=
  if 0 <? hmask t then znth (node t) idx else Some EMPTY.

Definition node_slot_mut (t : LuaTable) (idx : Z) (f : Node -> Node) : option LuaTable :=
  let? nd := znth (node t) idx in
  let? ns := zset (node t) idx (f nd) in
  Some (with_node t ns).

Definition set_val (v : LuaValue) (n : Node) : Node := mkNode v (key n) (next_ n).
Definition set_key (k : LuaValue) (n : Node) : Node := mkNode (val n) k (next_ n).
Definition set_next (x : Z) (n : Node) : Node := mkNode (val n) (key n) x.

Definition chain_fuel (t : LuaTable) : nat := S (length (node t)).

Definition normalize_key (k : LuaValue) : LuaValue :=
  match as_number k with Some n => number n | None => k end.

(** Array index for a key that is a non-negative integer within range. *)
Definition array_key (k : LuaValue) : option Z :=
  let? k := as_int32_exact k in
  if (0 <=? k) && (uwrap 32 k <? LJ_MAX_ASIZE) then Some (uwrap 32 k) else None.

(** The guard [if let Some(i) = array_key(key) && i < self.asize]. *)
Definition array_index (t : LuaTable) (k : LuaValue) : option Z :=
  let? i := array_key k in if i <? asize t then Some i else None.

Section Table.
Context `{StrHeap}.

Definition hash_slot (t : LuaTable) (k : LuaValue) : option Z :=
  let? h := hash_key k in Some (Z.land h (hmask t)).

(** The chain walk every lookup starts with: the node holding [k], if any. *)
Fixpoint chain_find (fuel : nat) (t : LuaTable) (n : Z) (k : LuaValue) : option (option Z) :=
  match fuel with
  | O => None
  | S fuel =>
      let? nd := node_slot t n in
      if decide (key nd = k) then Some (Some n)
      else if next_ nd =? NIL_NODE then Some None
      else chain_find fuel t (next_ nd) k
  end.

(** ** Getters *)

Definition get (t : LuaTable) (k : LuaValue) : option LuaValue :=
  match array_index t k with
  | Some i => znth (array t) i
  | None =>
      if is_nil k || negb (has_hpart t) then Some NIL
      else
        let? n := hash_slot t k in
        let? r := chain_find (chain_fuel t) t n k in
        match r with
        | Some i => let? nd := node_slot t i in Some (val nd)
        | None => Some NIL
        end
  end.

Definition get_int (t : LuaTable) (k : Z) : option LuaValue :=
  if (0 <=? k) && (uwrap 32 k <? asize t) then znth (array t) (uwrap 64 k)
  else get t (number (f64_of_int k)).

Definition get_str (t : LuaTable) (k : LuaValue) : option LuaValue :=
  let? n := hash_slot t k in
  let? r := chain_find (chain_fuel t) t n k in
  match r with
  | Some i => let? nd := node_slot t i in Some (val nd)
  | None => Some NIL
  end.

(** ** Inserting a new key (Brent's variation) *)

(** Scan downward from [freetop] for a node with a nil key. *)
Fixpoint free_search (fuel : nat) (t : LuaTable) (freenode : Z) : option (option Z) :=
  match fuel with
  | O => None
  | S fuel =>
      if freenode =? 0 then Some None
      else
        let freenode := freenode - 1 in
        let? nd := node_slot t freenode in
        if is_nil (key nd) then Some (Some freenode) else free_search fuel t freenode
  end.

(** The predecessor of [n] in the chain that [pred] is on. *)
Fixpoint find_pred (fuel : nat) (t : LuaTable) (pred n : Z) : option Z :=
  match fuel with
  | O => None
  | S fuel =>
      let? nd := node_slot t pred in
      if next_ nd =? n then Some pred else find_pred fuel t (next_ nd) n
  end.

Definition move_colliding (t : LuaTable) (k : LuaValue) (n freenode collide : Z) :
    option (LuaTable * option Z) :=
  let? pred := find_pred (chain_fuel t) t collide n in
  let? nd := node_slot t n in
  let? t := node_slot_mut t pred (set_next freenode) in
  let? t := node_slot_mut t freenode (set_val (val nd)) in
  let? t := node_slot_mut t freenode (set_key (key nd)) in
  let? t := node_slot_mut t freenode (set_next (next_ nd)) in
  let? t := node_slot_mut t n (set_next NIL_NODE) in
  let? t := node_slot_mut t n (set_val NIL) in
  let? t := node_slot_mut t n (set_key (normalize_key k)) in
  Some (t, Some n).

Definition insert_after_main (t : LuaTable) (k : LuaValue) (n freenode : Z) :
    option (LuaTable * option Z) :=
  let? nd := node_slot t n in
  let? t := node_slot_mut t freenode (set_next (next_ nd)) in
  let? t := node_slot_mut t n (set_next freenode) in
  let? t := node_slot_mut t freenode (set_key (normalize_key k)) in
  Some (t, Some freenode).

(** [None] as second component: the table was rehashed, the caller retries.
    [rehash] is passed in, as it inserts again through [set]. *)
Definition try_new_key (rehash : LuaTable -> LuaValue -> option LuaTable)
    (t : LuaTable) (k : LuaValue) : option (LuaTable * option Z) :=
  let t := with_nomm t 0 in
  if negb (has_hpart t) then let? t := rehash t k in Some (t, None)
  else
    let? n := hash_slot t k in
    let? nd := node_slot t n in
    if is_nil (val nd) then
      let? t := node_slot_mut t n (set_key (normalize_key k)) in Some (t, Some n)
    else
      let? r := free_search (S (Z.to_nat (freetop t))) t (freetop t) in
      match r with
      | None => let? t := rehash t k in Some (t, None)
      | Some freenode =>
          let t := with_freetop t freenode in
          let? collide := hash_slot t (key nd) in
          if negb (collide =? n) then move_colliding t k n freenode collide
          else insert_after_main t k n freenode
      end.

(** ** Resizing *)

(** [(lo..hi)] as the list of its elements. *)
Definition zrange (lo hi : Z) : list Z := (fun i => lo + Z.of_nat i) <$> seq 0 (Z.to_nat (hi - lo)).

Fixpoint set_all (set : LuaTable -> LuaValue -> LuaValue -> option LuaTable)
    (t : LuaTable) (kvs : list (LuaValue * LuaValue)) : option LuaTable :=
  match kvs with
  | [] => Some t
  | (k, v) :: kvs => let? t := set t k v in set_all set t kvs
  end.

(** The array values at [lo..hi] that a shrinking array part drops. *)
Fixpoint dropped (a : list LuaValue) (ixs : list Z) : option (list (LuaValue * LuaValue)) :=
  match ixs with
  | [] => Some []
  | i :: ixs =>
      let? v := znth a i in
      let? r := dropped a ixs in
      Some (if negb (is_nil v) then (number (f64_of_int i), v) :: r else r)
  end.

Definition live_nodes (ns : list Node) : list (LuaValue * LuaValue) :=
  (fun nd => (key nd, val nd)) <$> filter (fun nd => is_nil (val nd) = false) ns.

Definition resize (set : LuaTable -> LuaValue -> LuaValue -> option LuaTable)
    (t : LuaTable) (new_asize hbits : Z) : option LuaTable :=
  if new_asize <=? LJ_MAX_ASIZE then
    let oldasize := asize t in
    let oldnode := node t in
    let oldhmask := hmask t in
    let t := with_node t [] in
    let t :=
      if oldasize <? new_asize
      then with_asize (with_array t (array t ++ replicate (Z.to_nat (new_asize - oldasize)) NIL)) new_asize
      else t in
    let? t :=
      if negb (hbits =? 0) then new_hpart t hbits
      else if negb (oldhmask =? 0) then Some (with_freetop (with_hmask t 0) 0)
      else Some t in
    let? t :=
      if new_asize <? oldasize then
        let t := with_asize t new_asize in
        let? d := dropped (array t) (zrange new_asize oldasize) in
        let t := with_array t (take (Z.to_nat new_asize) (array t)) in
        set_all set t d
      else Some t in
    if 0 <? oldhmask then set_all set t (live_nodes oldnode) else Some t
  else None.

(** ** Rehashing: the sizes from a histogram of the integer keys *)

Definition bin_add (bins : list Z) (b n : Z) : option (list Z) :=
  let? x := znth bins b in zset bins b (x + n).

(** The inner loop of [count_array]: the non-nil values at [i..=top]. *)
Fixpoint count_run (fuel : nat) (a : list LuaValue) (i top n : Z) : option (Z * Z) :=
  match fuel with
  | O => None
  | S fuel =>
      if i <=? top then
        let? v := znth a i in
        count_run fuel a (i + 1) top (if negb (is_nil v) then n + 1 else n)
      else Some (i, n)
  end.

Fixpoint count_array_loop (fuel : nat) (t : LuaTable) (bins : list Z) (b i na : Z) :
    option (list Z * Z) :=
  match fuel with
  | O => None
  | S fuel =>
      if b <? LJ_MAX_ABITS then
        let top := Z.shiftl 2 b in
        let clip := asize t <=? top in
        let top := if clip then asize t - 1 else top in
        if clip && (top <? i) then Some (bins, na)
        else
          let? ' (i, n) := count_run (S (Z.to_nat (top + 1 - i))) (array t) i top 0 in
          let? bins := bin_add bins b n in
          count_array_loop fuel t bins (b + 1) i (na + n)
      else Some (bins, na)
  end.

Definition count_array (t : LuaTable) (bins : list Z) : option (list Z * Z) :=
  if asize t =? 0 then Some (bins, 0)
  else count_array_loop (S (Z.to_nat LJ_MAX_ABITS)) t bins 0 0 0.

Definition count_int (k : LuaValue) (bins : list Z) : option (list Z * Z) :=
  match as_int32_exact k with
  | Some k =>
      if uwrap 32 k <? LJ_MAX_ASIZE then
        let idx := if 2 <? k then fls (uwrap 32 (k - 1)) else 0 in
        let? bins := bin_add bins idx 1 in Some (bins, 1)
      else Some (bins, 0)
  | None => Some (bins, 0)
  end.

Fixpoint count_nodes (ns : list Node) (bins : list Z) (na total : Z) : option (list Z * Z * Z) :=
  match ns with
  | [] => Some (bins, na, total)
  | nd :: ns =>
      if negb (is_nil (val nd)) then
        let? ' (bins, c) := count_int (key nd) bins in
        count_nodes ns bins (na + c) (total + 1)
      else count_nodes ns bins na total
  end.

(** Returns the bins, the updated [narray] and the number of live nodes. *)
Definition count_hash (t : LuaTable) (bins : list Z) (narray : Z) : option (list Z * Z * Z) :=
  let? ' (bins, na, total) := (if has_hpart t then count_nodes (node t) bins 0 0 else Some (bins, 0, 0)) in
  Some (bins, narray + na, total).

Fixpoint best_asize_loop (fuel : nat) (bins : list Z) (nn b sum na sz : Z) : option (Z * Z) :=
  match fuel with
  | O => None
  | S fuel =>
      if (Z.shiftl 1 b <? 2 * nn) && negb (sum =? nn) then
        let? x := znth bins b in
        if 0 <? x then
          let sum := sum + x in
          if Z.shiftl 1 b <? 2 * sum
          then best_asize_loop fuel bins nn (b + 1) sum sum (Z.shiftl 2 b + 1)
          else best_asize_loop fuel bins nn (b + 1) sum na sz
        else best_asize_loop fuel bins nn (b + 1) sum na sz
      else Some (na, sz)
  end.

(** Returns the number of keys the array part will hold, and its size. *)
Definition best_asize (bins : list Z) (narray : Z) : option (Z * Z) :=
  best_asize_loop (S (Z.to_nat LJ_MAX_ABITS)) bins narray 0 0 0 0.

Definition rehash_sizes (t : LuaTable) (ek : LuaValue) : option (Z * Z) :=
  let bins := replicate (Z.to_nat LJ_MAX_ABITS) 0 in
  let? ' (bins, a) := count_array t bins in
  let total := 1 + a in
  let? ' (bins, a, h) := count_hash t bins a in
  let total := total + h in
  let? ' (bins, c) := count_int ek bins in
  let a := a + c in
  let? ' (na, a) := best_asize bins a in
  let total := total - na in
  Some (a, hsize2hbits total).

Definition rehash (set : LuaTable -> LuaValue -> LuaValue -> option LuaTable)
    (t : LuaTable) (ek : LuaValue) : option LuaTable :=
  let? ' (a, hb) := rehash_sizes t ek in
  resize set t a hb.

(** ** Setters *)

(** One unit of fuel per iteration of the retry loop and per nested
    reinsertion. *)
Fixpoint set_loop (fuel : nat) (t : LuaTable) (k v : LuaValue) : option LuaTable :=
  match fuel with
  | O => None
  | S fuel =>
      let t := if is_string k then with_nomm t 0 else t in
      match array_index t k with
      | Some i => let? a := zset (array t) i v in Some (with_array t a)
      | None =>
          let? found :=
            if has_hpart t then
              let? n := hash_slot t k in chain_find (chain_fuel t) t n k
            else Some None in
          match found with
          | Some n => node_slot_mut t n (set_val v)
          | None =>
              let? ' (t, r) := try_new_key (rehash (set_loop fuel)) t k in
              match r with
              | Some slot => node_slot_mut t slot (set_val v)
              | None => set_loop fuel t k v
              end
          end
      end
  end.

(** Two iterations are enough (see [TableSet]): the insertion after a rehash
    does not rehash again, and neither do the reinsertions of the rehash. *)
Definition set (t : LuaTable) (k v : LuaValue) : option LuaTable := set_loop 2 t k v.

Definition reasize (t : LuaTable) (nasize : Z) : option LuaTable :=
  let hb := if 0 <? hmask t then fls (hmask t) + 1 else 0 in
  let a := Z.min (2 ^ Z.log2_up (nasize + 1)) LJ_MAX_ASIZE in
  resize (set_loop 2) t a hb.

Definition set_str (t : LuaTable) (k v : LuaValue) : option LuaTable :=
  let t := with_nomm t 0 in
  if negb (has_hpart t) then set t k v
  else
    let? n := hash_slot t k in
    let? r := chain_find (chain_fuel t) t n k in
    match r with
    | Some n => node_slot_mut t n (set_val v)
    | None => set t k v
    end.

Definition set_int (t : LuaTable) (k : Z) (v : LuaValue) : option LuaTable :=
  if (0 <? k) && (uwrap 32 k <? asize t) then
    let? a := zset (array t) (uwrap 64 k) v in Some (with_array t a)
  else if (0 <? k) && (uwrap 32 k <? LJ_MAX_ASIZE) then
    if negb (is_nil v) && (uwrap 32 k =? asize t) then
      let? t := reasize t (uwrap 32 k) in
      let? a := zset (array t) (uwrap 64 k) v in Some (with_array t a)
    else set t (number (f64_of_int k)) v
  else set t (number (f64_of_int k)) v.

(** ** Traversal *)

(** [None] of the inner option is the invalid key, [!0] in the source. *)
Definition key_index (t : LuaTable) (k : LuaValue) : option Z :=
  if is_nil k then Some 0
  else match array_index t k with
  | Some i => Some (i + 1)
  | None =>
      if has_hpart t then
        let? n := hash_slot t k in
        let? r := chain_find (chain_fuel t) t n k in
        match r with
        | Some n => Some (asize t + n + 1)
        | None => Some (unot 32 0)
        end
      else Some (unot 32 0)
  end.

Definition is_valid_key (t : LuaTable) (k : LuaValue) : option bool :=
  let? i := key_index t k in Some (negb (i =? unot 32 0)).

Fixpoint next_array (fuel : nat) (t : LuaTable) (idx : Z) : option (Z + LuaValue * LuaValue) :=
  match fuel with
  | O => None
  | S fuel =>
      if idx <? asize t then
        let? v := znth (array t) idx in
        if negb (is_nil v) then Some (inr (number (f64_of_int idx), v))
        else next_array fuel t (idx + 1)
      else Some (inl idx)
  end.

Fixpoint next_hash (fuel : nat) (t : LuaTable) (idx : Z) : option (option (LuaValue * LuaValue)) :=
  match fuel with
  | O => None
  | S fuel =>
      if has_hpart t && (idx <=? hmask t) then
        let? nd := node_slot t idx in
        if negb (is_nil (val nd)) then Some (Some (key nd, val nd))
        else next_hash fuel t (idx + 1)
      else Some None
  end.

Definition next (t : LuaTable) (k : LuaValue) : option (option (LuaValue * LuaValue)) :=
  let? ki := key_index t k in
  if ki =? unot 32 0 then Some None
  else
    let? r := next_array (S (Z.to_nat (asize t - ki))) t ki in
    match r with
    | inr kv => Some (Some kv)
    | inl idx => next_hash (S (Z.to_nat (hmask t + 1))) t (idx - asize t)
    end.

(** ** Length *)

(** Binary search for a border: [is_nil_at] reads slot [mid]. *)
Fixpoint bisect (fuel : nat) (nil_at : Z -> option bool) (lo hi : Z) : option Z :=
  match fuel with
  | O => None
  | S fuel =>
      if 1 <? hi - lo then
        let mid := (lo + hi) / 2 in
        let? b := nil_at mid in
        if b then bisect fuel nil_at lo mid else bisect fuel nil_at mid hi
      else Some lo
  end.

Definition int_nil_at (t : LuaTable) (i : Z) : option bool :=
  let? v := get_int t i in Some (is_nil v).

Definition array_nil_at (t : LuaTable) (i : Z) : option bool :=
  let? v := znth (array t) i in Some (is_nil v).

(** The linear scan of a table whose length does not fit the doubling. *)
Fixpoint scan_border (fuel : nat) (t : LuaTable) (i : Z) : option Z :=
  match fuel with
  | O => None
  | S fuel =>
      let? b := int_nil_at t i in
      if b then Some (i - 1) else scan_border fuel t (i + 1)
  end.

(** [fuel] bounds the doublings, of which 31 fit an [i32]. *)
Fixpoint len_hash_loop (fuel : nat) (t : LuaTable) (lo hi : Z) : option Z :=
  match fuel with
  | O => None
  | S fuel =>
      let? b := int_nil_at t hi in
      if b then bisect 33 (int_nil_at t) lo hi
      else if (0x7fffffff - 2) / 2 <? hi then scan_border (Z.to_nat (2 ^ 31)) t 1
      else len_hash_loop fuel t hi (hi * 2)
  end.

Definition len_hash (t : LuaTable) (hi : Z) : option Z := len_hash_loop 33 t hi (hi + 1).

Definition len (t : LuaTable) : option Z :=
  let hi := if asize t =? 0 then 0 else asize t - 1 in
  let? b := if 0 <? hi then array_nil_at t hi else Some false in
  if (0 <? hi) && b then bisect 33 (array_nil_at t) 0 hi
  else if negb (has_hpart t) then Some hi
  else len_hash t hi.

(** ** Copies *)

Definition dup (t : LuaTable) : LuaTable :=
  let unmark v := if is_table v then NIL else v in
  mkTable (unmark <$> array t)
    ((fun nd => set_val (unmark (val nd)) nd) <$> (if 0 <? hmask t then node t else []))
    (asize t) (hmask t) (freetop t) 0 None.

End Table.
