(* ===== verification/TableHash.v ===== *)
(** * The hash part as a graph

    The chained hash part of [LuaTable] with its nodes as a function of the
    index: what makes chains correct, and that each way of inserting a key
    (into a free main position, by moving a node that is off its main
    position, after the main position) keeps it. *)

From Stdlib Require Import ZArith Lia Bool.
From stdpp Require Import base decidable list numbers option functions.
From S2P Require Import Prelude Float64 Value Table.

(** Keys as the VM hands them to the table: not nil, [-0.0] normalized. *)
Definition key_ok (k : LuaValue) : Prop := value_ok k /\ k <> NIL /\ normalize_key k = k.

Section Graph.
Context (N : Z) (h : LuaValue -> Z).
Implicit Types nd : Z -> Node.

Definition inN (i : Z) : Prop := 0 <= i < N.

Inductive reach nd : Z -> Z -> Prop :=
| reach_refl i : reach nd i i
| reach_step i j : next_ (nd i) <> NIL_NODE -> reach nd (next_ (nd i)) j -> reach nd i j.

Record hash_inv nd (ft : Z) : Prop := {
  hi_next : forall i, inN i -> next_ (nd i) = NIL_NODE \/ inN (next_ (nd i));
  hi_key : forall i, inN i -> key (nd i) = NIL \/ key_ok (key (nd i));
  hi_val : forall i, inN i -> value_ok (val (nd i));
  (* a node without a key is not linked *)
  hi_nil : forall i, inN i -> key (nd i) = NIL ->
    val (nd i) = NIL /\ next_ (nd i) = NIL_NODE /\ forall j, inN j -> next_ (nd j) <> i;
  (* every key is on the chain of its main position *)
  hi_reach : forall i, inN i -> key (nd i) <> NIL -> reach nd (h (key (nd i))) i;
  (* if a main position is some key's, the key there is at home *)
  hi_main : forall i, inN i -> key (nd i) <> NIL ->
    key (nd (h (key (nd i)))) <> NIL /\ h (key (nd (h (key (nd i))))) = h (key (nd i));
  hi_uniq : forall i j, inN i -> inN j -> key (nd i) <> NIL -> key (nd i) = key (nd j) -> i = j;
  hi_indeg : forall i j, inN i -> inN j -> next_ (nd i) <> NIL_NODE ->
    next_ (nd i) = next_ (nd j) -> i = j;
  (* the free search has passed only used nodes *)
  hi_free : 0 <= ft <= N /\ forall i, ft <= i < N -> key (nd i) <> NIL;
  (* chains end *)
  hi_rank : exists rank : Z -> Z, forall i, inN i ->
    0 <= rank i /\ (next_ (nd i) <> NIL_NODE -> rank (next_ (nd i)) < rank i);
}.

Hypothesis h_range : forall k, inN (h k).
Hypothesis N_small : N < NIL_NODE.

Lemma inN_not_NIL i : inN i -> i <> NIL_NODE.
Proof. unfold inN. lia. Qed.
Hint Resolve inN_not_NIL h_range : core.

(** ** Chains are shorter than the table *)

Lemma elem_of_zrange lo hi i : i ∈ zrange lo hi <-> lo <= i < hi.
Proof.
  unfold zrange. rewrite list_elem_of_fmap. setoid_rewrite elem_of_seq. split.
  - intros (n & -> & Hn). lia.
  - intros Hi. exists (Z.to_nat (i - lo)). lia.
Qed.

Lemma NoDup_zrange lo hi : NoDup (zrange lo hi).
Proof. unfold zrange. apply NoDup_fmap; [intros ??; lia|apply NoDup_seq]. Qed.

Lemma filter_length_lt {A} (P Q : A -> Prop) `{forall y, Decision (P y)}
    `{forall y, Decision (Q y)} (l : list A) x :
  (forall y, y ∈ l -> P y -> Q y) -> x ∈ l -> Q x -> ~ P x ->
  (length (filter P l) < length (filter Q l))%nat.
Proof.
  intros HPQ Hx HQ HP. induction Hx as [x l|x y l Hx IH].
  - rewrite filter_cons_False, filter_cons_True by done. cbn.
    enough (length (filter P l) <= length (filter Q l))%nat by lia.
    clear -HPQ. induction l as [|y l IH]; [done|].
    assert (length (filter P l) <= length (filter Q l))%nat as Hl.
    { apply IH. intros z Hz. apply HPQ. apply elem_of_cons in Hz as [->|]; [by left|].
      right. by right. }
    rewrite !filter_cons. specialize (HPQ y ltac:(right; left)).
    destruct (decide (P y)), (decide (Q y)); cbn; try lia. naive_solver.
  - assert (length (filter P l) < length (filter Q l))%nat.
    { apply IH; [|done..]. intros z Hz. apply HPQ. by right. }
    rewrite !filter_cons. specialize (HPQ y ltac:(left)).
    destruct (decide (P y)), (decide (Q y)); cbn; try lia. naive_solver.
Qed.

Lemma filter_True_id {A} (l : list A) : filter (fun _ => True) l = l.
Proof. induction l as [|x l IH]; [done|]. by rewrite filter_cons_True, IH. Qed.

Lemma hash_inv_bounded_rank nd ft : hash_inv nd ft -> exists rank : Z -> nat, forall i, inN i ->
  (rank i < Z.to_nat N)%nat /\ (next_ (nd i) <> NIL_NODE -> (rank (next_ (nd i)) < rank i)%nat).
Proof.
  intros Hi. destruct (hi_rank _ _ Hi) as [rank Hr].
  exists (fun i => length (filter (fun j => rank j < rank i) (zrange 0 N))). intros i Hin. split.
  - replace (Z.to_nat N) with (length (filter (fun _ : Z => True) (zrange 0 N))).
    + apply filter_length_lt with i; [done|by apply elem_of_zrange|done|].
      lia.
    + rewrite filter_True_id. unfold zrange. rewrite length_fmap, length_seq. lia.
  - intros Hn. destruct (Hr i Hin) as [_ Hlt]. specialize (Hlt Hn).
    destruct (hi_next _ _ Hi i Hin) as [|Hj]; [done|].
    apply filter_length_lt with (next_ (nd i)).
    + lia.
    + by apply elem_of_zrange.
    + lia.
    + lia.
Qed.

(** ** Reachability under change *)

Lemma reach_mono nd nd' i j :
  (forall i, next_ (nd i) <> NIL_NODE -> inN i -> reach nd' i (next_ (nd i))) ->
  (forall i, inN i -> next_ (nd i) <> NIL_NODE -> inN (next_ (nd i))) ->
  inN i -> reach nd i j -> reach nd' i j.
Proof.
  intros Hs Hin Hi Hr. induction Hr as [|i j Hn Hr IH]; [constructor|].
  assert (forall a b c, reach nd' a b -> reach nd' b c -> reach nd' a c) as Htrans.
  { intros a b c Hab Hbc. induction Hab; [done|]. econstructor; eauto. }
  eapply Htrans; [by apply Hs|]. apply IH. by apply Hin.
Qed.

Lemma reach_one nd i j : next_ (nd i) = j -> j <> NIL_NODE -> reach nd i j.
Proof. intros <- ?. econstructor; [done|constructor]. Qed.

Lemma reach_in nd ft i j : hash_inv nd ft -> inN i -> reach nd i j -> inN j.
Proof.
  intros Hi Hin Hr. induction Hr as [|i j Hn Hr IH]; [done|]. apply IH.
  by destruct (hi_next _ _ Hi i Hin).
Qed.

Lemma reach_same_next nd nd' i j : (forall i, next_ (nd' i) = next_ (nd i)) ->
  reach nd i j -> reach nd' i j.
Proof.
  intros E Hr. induction Hr as [|i j Hn Hr IH]; [constructor|]. constructor 2; by rewrite E.
Qed.

(** ** Point updates *)

Lemma upd_eq nd n x : (<[n:=x]> nd : Z -> Node) n = x.
Proof. apply fn_lookup_insert. Qed.

Lemma upd_ne nd n x i : i <> n -> (<[n:=x]> nd : Z -> Node) i = nd i.
Proof. intros. by apply fn_lookup_insert_ne. Qed.

Lemma upd_case nd n x i : (<[n:=x]> nd : Z -> Node) i = if decide (i = n) then x else nd i.
Proof. destruct (decide (i = n)) as [->|]; [apply upd_eq|by apply upd_ne]. Qed.

Definition absent nd (k : LuaValue) : Prop := forall i, inN i -> key (nd i) <> k.

(** Writing the value of a used node. *)
Lemma hash_inv_set_val nd ft n v : hash_inv nd ft -> inN n -> key (nd n) <> NIL ->
  value_ok v -> hash_inv (<[n := set_val v (nd n)]> nd) ft.
Proof.
  intros Hi Hn Hk Hv.
  assert (forall i, key ((<[n := set_val v (nd n)]> nd : Z -> Node) i) = key (nd i)) as Ek.
  { intros i. rewrite upd_case. by case_decide; subst. }
  assert (forall i, next_ ((<[n := set_val v (nd n)]> nd : Z -> Node) i) = next_ (nd i)) as En.
  { intros i. rewrite upd_case. by case_decide; subst. }
  destruct Hi. split; repeat setoid_rewrite Ek; repeat setoid_rewrite En; try done.
  - intros i Hin. rewrite upd_case. case_decide; [done|auto].
  - intros i Hin Hki. rewrite upd_ne by congruence. by apply hi_nil0.
  - intros i Hin Hki. eapply reach_same_next; [done|auto].
Qed.

(** The main position holds no value: take it, dropping a dead key. *)
Lemma hash_inv_insert_main nd ft n k : hash_inv nd ft -> inN n -> h k = n ->
  val (nd n) = NIL -> key_ok k -> absent nd k ->
  hash_inv (<[n := set_key k (nd n)]> nd) ft.
Proof.
  intros Hi Hn Hh Hv Hk Ha.
  assert (k <> NIL) as Hk0 by apply Hk.
  assert (forall i, next_ ((<[n := set_key k (nd n)]> nd : Z -> Node) i) = next_ (nd i)) as En.
  { intros i. rewrite upd_case. by case_decide; subst. }
  destruct Hi. split; repeat setoid_rewrite En; try done.
  - intros i Hin. rewrite upd_case. case_decide; [by right|auto].
  - intros i Hin. rewrite upd_case. case_decide; [subst; by apply hi_val0|auto].
  - intros i Hin. rewrite upd_case. case_decide; [done|auto].
  - intros i Hin. rewrite (upd_case _ _ _ i). intros Hki.
    eapply reach_same_next; [done|]. case_decide as E; [|by apply hi_reach0].
    cbn [key set_key]. rewrite Hh, E. constructor.
  - intros i Hin. rewrite (upd_case _ _ _ i). intros Hki.
    destruct (decide (i = n)) as [->|].
    + cbn [key set_key]. rewrite Hh, upd_eq. done.
    + rewrite upd_case. case_decide as E; [cbn [key set_key]; by rewrite Hh, E|auto].
  - intros i j Hii Hij. rewrite (upd_case _ _ _ i), (upd_case _ _ _ j).
    destruct (decide (i = n)), (decide (j = n)); subst; cbn [key set_key]; intros Hki E; auto.
    + by destruct (Ha j).
    + by destruct (Ha i).
  - destruct hi_free0 as [? Hf]. split; [done|]. intros i Hif. rewrite upd_case.
    case_decide; [done|auto].
Qed.

(** The main position is taken by a key at home: chain a free node behind it. *)
Lemma hash_inv_insert_after nd ft n f k : hash_inv nd ft -> inN n -> inN f -> h k = n ->
  key (nd n) <> NIL -> h (key (nd n)) = n -> key (nd f) = NIL ->
  (forall i, f < i < N -> key (nd i) <> NIL) -> key_ok k -> absent nd k ->
  hash_inv (<[f := mkNode NIL k (next_ (nd n))]> (<[n := set_next f (nd n)]> nd)) f.
Proof.
  intros Hi Hn Hf Hh Hkn Hhn Hkf Hfree Hk Ha.
  assert (k <> NIL) as Hk0 by apply Hk.
  assert (n <> f) as Hnf by congruence.
  destruct (hi_nil _ _ Hi f Hf Hkf) as (Hvf & Hxf & Hpf).
  set (nd' := <[f := _]> _).
  assert (nd' f = mkNode NIL k (next_ (nd n))) as Ef by apply upd_eq.
  assert (nd' n = set_next f (nd n)) as En by (unfold nd'; rewrite upd_ne, upd_eq; done).
  assert (forall i, i <> f -> i <> n -> nd' i = nd i) as Eo
    by (intros; unfold nd'; by rewrite !upd_ne).
  assert (forall i, i <> f -> key (nd' i) = key (nd i)) as Ek.
  { intros i Hif. destruct (decide (i = n)) as [->|]; [by rewrite En|by rewrite Eo]. }
  assert (forall i j, inN i -> reach nd i j -> reach nd' i j) as Hreach.
  { intros i j Hin. apply reach_mono; [|intros ? Hx ?; by destruct (hi_next _ _ Hi _ Hx)|done].
    intros x Hx Hxin. destruct (decide (x = n)) as [->|].
    - econstructor; rewrite En; cbn [next_ set_next]; [auto|].
      apply reach_one; [by rewrite Ef|done].
    - assert (x <> f) by congruence. apply reach_one; [by rewrite Eo|done]. }
  destruct Hi. split.
  - intros i Hin. destruct (decide (i = f)) as [->|]; [rewrite Ef; cbn [next_]; auto|].
    destruct (decide (i = n)) as [->|]; [rewrite En; by right|rewrite Eo by done; auto].
  - intros i Hin. destruct (decide (i = f)) as [->|]; [rewrite Ef; by right|].
    rewrite Ek by done. auto.
  - intros i Hin. destruct (decide (i = f)) as [->|]; [rewrite Ef; apply value_ok_prim|].
    destruct (decide (i = n)) as [->|]; [rewrite En; cbn [val set_next]; auto|rewrite Eo by done; auto].
  - intros i Hin. destruct (decide (i = f)) as [->|]; [by rewrite Ef|].
    rewrite Ek by done. intros Hki. assert (i <> n) by congruence.
    destruct (hi_nil0 i Hin Hki) as (? & ? & Hp). rewrite Eo by done. split_and!; try done.
    intros j Hj. destruct (decide (j = f)) as [->|]; [rewrite Ef; cbn [next_]; auto|].
    destruct (decide (j = n)) as [->|]; [rewrite En; cbn [next_ set_next]; congruence|].
    rewrite Eo by done. auto.
  - intros i Hin. destruct (decide (i = f)) as [->|].
    + rewrite Ef. cbn [key]. intros _. rewrite Hh. apply reach_one; [by rewrite En|auto].
    + rewrite Ek by done. auto.
  - intros i Hin. destruct (decide (i = f)) as [->|].
    + rewrite Ef. cbn [key]. intros _. by rewrite Hh, Ek.
    + rewrite (Ek i) by done. intros Hki. destruct (hi_main0 i Hin Hki) as [Hm ?].
      rewrite Ek by congruence. done.
  - intros i j Hii Hij. destruct (decide (i = f)) as [->|], (decide (j = f)) as [->|]; try done.
    + rewrite Ef, Ek by done. cbn [key]. intros _ E. by destruct (Ha j).
    + rewrite Ef, Ek by done. cbn [key]. intros _ E. by destruct (Ha i).
    + rewrite !Ek by done. auto.
  - intros i j Hii Hij.
    destruct (decide (i = f)) as [->|], (decide (j = f)) as [->|]; try done;
    try destruct (decide (i = n)) as [->|]; try destruct (decide (j = n)) as [->|]; try done;
    rewrite ?Ef, ?En, ?(Eo i), ?(Eo j) by done; cbn [next_ set_next]; intros Hx E; auto;
    try (by destruct (Hpf n)); try (by destruct (Hpf j)); try (by destruct (Hpf i)).
    + exfalso. assert (n = j) by auto. done.
    + exfalso. assert (i = n) by auto. done.
  - split; [unfold inN in Hf; lia|]. intros i Hif. destruct (decide (i = f)) as [->|]; [by rewrite Ef|].
    rewrite Ek by done. apply Hfree. lia.
  - destruct hi_rank0 as [rank Hr].
    exists (fun i => if decide (i = f) then 2 * rank n else 2 * rank i + 1).
    intros i Hin. destruct (Hr n Hn) as [Hrn Hrnx]. destruct (Hr i Hin) as [Hri Hrix].
    destruct (decide (i = f)) as [->|].
    + rewrite Ef. cbn [next_]. split; [lia|]. intros Hx. rewrite decide_False by auto.
      specialize (Hrnx Hx). lia.
    + split; [lia|]. destruct (decide (i = n)) as [->|].
      * rewrite En. cbn [next_ set_next]. intros _. rewrite decide_True by done. lia.
      * rewrite Eo by done. intros Hx. rewrite decide_False by auto. specialize (Hrix Hx). lia.
Qed.

(** The main position is taken by a key that is not at home: move it to the
    free node [f], re-link its predecessor, take its place.  Paths follow the
    renaming of [n] to [f]. *)
Section Move.
Context (nd : Z -> Node) (ft n f pred : Z) (k : LuaValue).
Hypotheses (Hi : hash_inv nd ft) (Hn : inN n) (Hf : inN f) (Hp : inN pred).
Hypotheses (Hh : h k = n) (Hkn : key (nd n) <> NIL) (Hhn : h (key (nd n)) <> n).
Hypotheses (Hkf : key (nd f) = NIL) (Hpn : next_ (nd pred) = n).
Hypotheses (Hfree : forall i, f < i < N -> key (nd i) <> NIL).
Hypotheses (Hk : key_ok k) (Ha : absent nd k).

Definition moved : Z -> Node :=
  <[n := mkNode NIL k NIL_NODE]> (<[f := nd n]> (<[pred := set_next f (nd pred)]> nd)).

Lemma move_distinct : n <> f /\ pred <> n /\ pred <> f /\ k <> NIL.
Proof.
  destruct (hi_nil _ _ Hi f Hf Hkf) as (_ & Hxf & _). split_and!; [congruence| | |apply Hk].
  - intros ->. destruct (hi_rank _ _ Hi) as [rank Hr]. destruct (Hr n Hn) as [_ Hlt].
    rewrite Hpn in Hlt. specialize (Hlt (inN_not_NIL _ Hn)). lia.
  - intros ->. rewrite Hxf in Hpn. by apply (inN_not_NIL n).
Qed.

Lemma moved_n : moved n = mkNode NIL k NIL_NODE.
Proof. apply upd_eq. Qed.
Lemma moved_f : moved f = nd n.
Proof.
  destruct move_distinct as (? & ? & ? & ?). unfold moved. rewrite upd_ne by done. apply upd_eq.
Qed.
Lemma moved_pred : moved pred = set_next f (nd pred).
Proof.
  destruct move_distinct as (? & ? & ? & ?). unfold moved. rewrite !upd_ne by done. apply upd_eq.
Qed.
Lemma moved_other i : i <> n -> i <> f -> i <> pred -> moved i = nd i.
Proof. intros. unfold moved. by rewrite !upd_ne. Qed.

Lemma moved_key i : i <> n -> i <> f -> key (moved i) = key (nd i).
Proof.
  intros. destruct (decide (i = pred)) as [->|]; [by rewrite moved_pred|by rewrite moved_other].
Qed.
Lemma moved_val i : i <> n -> i <> f -> val (moved i) = val (nd i).
Proof.
  intros. destruct (decide (i = pred)) as [->|]; [by rewrite moved_pred|by rewrite moved_other].
Qed.

Definition ren (i : Z) : Z := if decide (i = n) then f else i.

Lemma ren_eq : ren n = f. Proof. unfold ren. by rewrite decide_True. Qed.
Lemma ren_ne i : i <> n -> ren i = i. Proof. intros. unfold ren. by rewrite decide_False. Qed.

(** The successor of a node is the renamed successor. *)
Lemma moved_next i : inN i -> next_ (nd i) <> NIL_NODE -> i <> f /\
  next_ (moved (ren i)) = ren (next_ (nd i)).
Proof.
  intros Hin Hx. destruct move_distinct as (Hnf & Hpn' & Hpf & _).
  destruct (hi_nil _ _ Hi f Hf Hkf) as (_ & Hxf & _).
  pose proof (inN_not_NIL n Hn).
  assert (i <> f) by congruence. split; [done|]. destruct (decide (i = n)) as [->|].
  - rewrite ren_eq, moved_f, ren_ne; [done|]. intros E. apply Hpn'.
    apply (hi_indeg _ _ Hi); try done; congruence.
  - rewrite (ren_ne i) by done. destruct (decide (i = pred)) as [->|Hip].
    + rewrite moved_pred, Hpn, ren_eq. done.
    + rewrite moved_other, ren_ne; try done. intros E. apply Hip.
      apply (hi_indeg _ _ Hi); try done; congruence.
Qed.

Lemma moved_reach i j : inN i -> reach nd i j -> reach moved (ren i) (ren j).
Proof.
  intros Hin Hr. induction Hr as [|i j Hx Hr IH]; [constructor|].
  destruct (moved_next i Hin Hx) as [Hif E].
  destruct (hi_next _ _ Hi i Hin) as [|Hxin]; [done|].
  constructor 2; rewrite E; [|auto].
  unfold ren. case_decide; auto.
Qed.

Lemma hash_inv_insert_move : hash_inv moved f.
Proof.
  destruct move_distinct as (Hnf & Hpn' & Hpf & Hk0).
  destruct (hi_nil _ _ Hi f Hf Hkf) as (Hvf & Hxf & Hff). pose proof (inN_not_NIL n Hn).
  assert (forall i, inN i -> key (nd i) <> NIL -> h (key (nd i)) <> n) as Hnomain.
  { intros i Hin Hki E. destruct (hi_main _ _ Hi i Hin Hki) as [_ Hm]. by rewrite E in Hm. }
  split.
  - intros i Hin. destruct (decide (i = n)) as [->|]; [rewrite moved_n; by left|].
    destruct (decide (i = f)) as [->|]; [rewrite moved_f; by apply (hi_next _ _ Hi)|].
    destruct (decide (i = pred)) as [->|]; [rewrite moved_pred; by right|].
    rewrite moved_other by done. by apply (hi_next _ _ Hi).
  - intros i Hin. destruct (decide (i = n)) as [->|]; [rewrite moved_n; by right|].
    destruct (decide (i = f)) as [->|]; [rewrite moved_f|rewrite moved_key by done];
      by apply (hi_key _ _ Hi).
  - intros i Hin. destruct (decide (i = n)) as [->|]; [rewrite moved_n; apply value_ok_prim|].
    destruct (decide (i = f)) as [->|]; [rewrite moved_f|rewrite moved_val by done];
      by apply (hi_val _ _ Hi).
  - intros i Hin. destruct (decide (i = n)) as [->|]; [by rewrite moved_n|].
    destruct (decide (i = f)) as [->|]; [by rewrite moved_f|]. rewrite moved_key by done.
    intros Hki. destruct (hi_nil _ _ Hi i Hin Hki) as (? & ? & Hpi).
    assert (i <> pred) by congruence. rewrite moved_other by done. split_and!; [done..|].
    intros j Hj. destruct (decide (j = n)) as [->|].
    { rewrite moved_n. cbn [next_]. apply not_eq_sym. auto. }
    destruct (decide (j = f)) as [->|]; [rewrite moved_f; auto|].
    destruct (decide (j = pred)) as [->|]; [by rewrite moved_pred|].
    rewrite moved_other by done. auto.
  - intros i Hin. destruct (decide (i = n)) as [->|].
    + rewrite moved_n. cbn [key]. intros _. rewrite Hh. constructor.
    + intros Hki. assert (exists j, inN j /\ key (nd j) <> NIL /\ key (moved i) = key (nd j) /\ ren j = i)
        as (j & Hj & Hkj & -> & <-).
      { destruct (decide (i = f)) as [->|].
        - exists n. by rewrite moved_f, ren_eq.
        - exists i. rewrite moved_key in Hki |- * by done. by rewrite ren_ne. }
      rewrite <- (ren_ne (h (key (nd j)))) by auto.
      apply moved_reach; [done|by apply (hi_reach _ _ Hi)].
  - intros i Hin. destruct (decide (i = n)) as [->|].
    + rewrite moved_n. cbn [key]. intros _. by rewrite Hh, moved_n.
    + intros Hki. assert (exists j, inN j /\ key (nd j) <> NIL /\ key (moved i) = key (nd j))
        as (j & Hj & Hkj & ->).
      { destruct (decide (i = f)) as [->|]; [exists n; by rewrite moved_f|].
        exists i. by rewrite moved_key in Hki |- * by done. }
      destruct (hi_main _ _ Hi j Hj Hkj) as [Hm ?].
      rewrite moved_key; [done|auto|congruence].
  - assert (forall i, inN i -> i <> n -> key (moved i) <> NIL ->
        exists j, inN j /\ key (nd j) <> NIL /\ key (moved i) = key (nd j) /\ ren j = i) as Hold.
    { intros i Hin Hin' Hki. destruct (decide (i = f)) as [->|].
      - exists n. by rewrite moved_f, ren_eq.
      - exists i. rewrite moved_key in Hki |- * by done. by rewrite ren_ne. }
    intros i j Hii Hij Hki E. destruct (decide (i = n)) as [->|], (decide (j = n)) as [->|]; try done.
    + destruct (Hold j) as (j' & ? & ? & E' & _); [done..|congruence|].
      rewrite moved_n, E' in E. by destruct (Ha j').
    + destruct (Hold i) as (j' & ? & ? & E' & _); [done..|].
      rewrite moved_n, E' in E. by destruct (Ha j').
    + destruct (Hold i) as (i' & ? & ? & Ei & <-); [done..|].
      destruct (Hold j) as (j' & ? & ? & Ej & <-); [done|done|congruence|].
      f_equal. apply (hi_uniq _ _ Hi); congruence.
  - assert (forall i, inN i -> next_ (moved i) <> NIL_NODE -> exists j, inN j /\
        next_ (nd j) <> NIL_NODE /\ ren j = i /\ next_ (moved i) = ren (next_ (nd j))) as Hold.
    { intros i Hin Hx. assert (i <> n) by (intros ->; by rewrite moved_n in Hx).
      destruct (decide (i = f)) as [->|].
      - rewrite moved_f in Hx. exists n. destruct (moved_next n Hn Hx). rewrite ren_eq in *. done.
      - assert (next_ (nd i) <> NIL_NODE) as Hx'.
        { destruct (decide (i = pred)) as [->|]; [rewrite Hpn; auto|by rewrite moved_other in Hx]. }
        exists i. destruct (moved_next i Hin Hx'). rewrite (ren_ne i) in * by done. done. }
    assert (forall a b, a <> f -> b <> f -> ren a = ren b -> a = b) as Hinj.
    { intros a b ? ?. unfold ren. repeat case_decide; congruence. }
    intros i j Hii Hij Hx E.
    destruct (Hold i) as (i' & ? & ? & <- & Ei); [done..|].
    destruct (Hold j) as (j' & ? & ? & <- & Ej); [done|congruence|].
    f_equal. apply (hi_indeg _ _ Hi); try done. apply Hinj; [auto..|congruence].
  - split; [unfold inN in Hf; lia|]. intros i Hif.
    destruct (decide (i = n)) as [->|]; [by rewrite moved_n|].
    destruct (decide (i = f)) as [->|]; [by rewrite moved_f|].
    rewrite moved_key by done. apply Hfree. lia.
  - destruct (hi_rank _ _ Hi) as [rank Hr].
    exists (fun i => if decide (i = f) then rank n else if decide (i = n) then 0 else rank i).
    intros i Hin. destruct (decide (i = f)) as [->|].
    + rewrite moved_f. destruct (Hr n Hn) as [? Hx]. split; [done|]. intros Hxn.
      rewrite decide_False by auto. case_decide as E; [|auto].
      specialize (Hx Hxn). rewrite E in Hx. lia.
    + destruct (decide (i = n)) as [->|]; [by rewrite moved_n|].
      destruct (Hr i Hin) as [? Hx]. split; [done|].
      destruct (decide (i = pred)) as [->|Hip].
      * rewrite moved_pred. cbn [next_ set_next]. intros _. rewrite decide_True by done.
        rewrite Hpn in Hx. auto.
      * rewrite moved_other by done. intros Hxi. rewrite decide_False by auto.
        rewrite decide_False; [auto|]. intros E. apply Hip. apply (hi_indeg _ _ Hi); try done; congruence.
Qed.
End Move.

(** Only the nodes in range matter. *)
Lemma hash_inv_ext nd nd' ft : (forall i, inN i -> nd' i = nd i) -> hash_inv nd ft -> hash_inv nd' ft.
Proof.
  intros E Hi.
  assert (forall i j, inN i -> reach nd i j -> reach nd' i j) as Hreach.
  { intros i j Hin. apply reach_mono; [|intros ? Hx ?; by destruct (hi_next _ _ Hi _ Hx)|done].
    intros x Hx Hxin. apply reach_one; [by rewrite E|done]. }
  destruct Hi. split; try done.
  - intros i Hin. rewrite E by done. auto.
  - intros i Hin. rewrite E by done. auto.
  - intros i Hin. rewrite E by done. auto.
  - intros i Hin. rewrite E by done. intros Hk. destruct (hi_nil0 i Hin Hk) as (? & ? & Hp).
    split_and!; [done..|]. intros j Hj. rewrite E by done. auto.
  - intros i Hin. rewrite E by done. auto.
  - intros i Hin. rewrite !E by auto. auto.
  - intros i j Hii Hij. rewrite !E by done. auto.
  - intros i j Hii Hij. rewrite !E by done. auto.
  - destruct hi_free0 as [? Hf]. split; [done|]. intros i Hif. rewrite E by (unfold inN; lia). auto.
  - destruct hi_rank0 as [rank Hr]. exists rank. intros i Hin. rewrite E by done. auto.
Qed.

(** How many nodes hold a key, dead or alive. *)
Definition nkeys nd : Z := zlen (filter (fun i => key (nd i) <> NIL) (zrange 0 N)).

Lemma filter_Forall_id {A} (P : A -> Prop) `{forall x, Decision (P x)} (l : list A) :
  Forall P l -> filter P l = l.
Proof. induction 1 as [|x l Hx Hl IH]; [done|]. by rewrite filter_cons_True, IH. Qed.

Lemma nkeys_room nd : nkeys nd < N -> 0 <= N -> exists i, inN i /\ key (nd i) = NIL.
Proof.
  intros Hlt HN. destruct (decide (Forall (fun i => key (nd i) <> NIL) (zrange 0 N))) as [Hf|Hf].
  - exfalso. unfold nkeys in Hlt. rewrite filter_Forall_id in Hlt by done.
    unfold zlen, zrange in Hlt. rewrite length_fmap, length_seq in Hlt. lia.
  - apply not_Forall_Exists in Hf; [|apply _]. apply Exists_exists in Hf as (i & Hi & E).
    exists i. apply list_elem_of_In, elem_of_zrange in Hi. split; [done|]. by apply dec_stable.
Qed.

Lemma nkeys_step nd nd' s : inN s ->
  (forall i, inN i -> i <> s -> key (nd' i) <> NIL -> key (nd i) <> NIL) ->
  nkeys nd' <= nkeys nd + 1.
Proof.
  intros Hs Hk. unfold nkeys, zlen.
  enough (filter (fun i => key (nd' i) <> NIL) (zrange 0 N) ⊆+
          s :: filter (fun i => key (nd i) <> NIL) (zrange 0 N)) as Hsub.
  { apply submseteq_length in Hsub. cbn [length] in Hsub. lia. }
  apply NoDup_submseteq; [apply list.NoDup_filter, NoDup_zrange|].
  intros i [Hki Hi]%list_elem_of_filter. apply elem_of_cons.
  destruct (decide (i = s)); [by left|right]. apply list_elem_of_filter. split; [|done].
  apply Hk; [by apply elem_of_zrange|done..].
Qed.

Lemma nkeys_ext nd nd' : (forall i, inN i -> key (nd' i) <> NIL -> key (nd i) <> NIL) ->
  nkeys nd' <= nkeys nd.
Proof.
  intros Hk. unfold nkeys, zlen.
  enough (filter (fun i => key (nd' i) <> NIL) (zrange 0 N) ⊆+
          filter (fun i => key (nd i) <> NIL) (zrange 0 N)) as Hsub.
  { apply submseteq_length in Hsub. lia. }
  apply NoDup_submseteq; [apply list.NoDup_filter, NoDup_zrange|].
  intros i [Hki Hi]%list_elem_of_filter. apply list_elem_of_filter. split; [|done].
  apply Hk; [by apply elem_of_zrange|done..].
Qed.

Lemma nkeys_empty : nkeys (fun _ => EMPTY) = 0.
Proof.
  unfold nkeys. replace (filter _ _) with (@nil Z); [done|].
  induction (zrange 0 N) as [|i l IH]; [done|].
  rewrite filter_cons_False; [done|]. intros Hk. by apply Hk.
Qed.

(** A fresh hash part. *)
Lemma hash_inv_empty : 0 <= N -> hash_inv (fun _ => EMPTY) N.
Proof.
  intros HN. split; try (intros; by left); try (intros i Hi Hk; by destruct Hk);
    try (intros i j Hi Hj Hk; by destruct Hk).
  - intros. apply value_ok_prim.
  - intros i Hi _. split_and!; [done..|]. intros. apply not_eq_sym. by apply inN_not_NIL.
  - split; [lia|]. intros. lia.
  - by exists (fun _ => 0).
Qed.

End Graph.
