(* ===== verification/TableInv.v ===== *)
(** * Table invariant and lookups

    [table_inv] ties a [LuaTable] to the hash graph of [TableHash]; under it
    every lookup of a well-formed key is total and reads the array slot or
    the value of the one node that holds the key. *)

From Stdlib Require Import ZArith Lia Bool.
From stdpp Require Import base decidable list numbers option functions.
From S2P Require Import Prelude Float64 Value Table TableHash.

(** ** Keys and array indices *)

Lemma key_ok_range k : key_ok k -> urange 64 k.
Proof. intros (? & _ & _). by apply value_ok_range. Qed.

Lemma key_ok_not_nil k : key_ok k -> is_nil k = false.
Proof. intros (? & ? & _). by apply is_nil_false. Qed.

Lemma key_ok_not_mzero k : key_ok k -> k <> 2 ^ 63.
Proof. intros (_ & _ & Hn) ->. vm_compute in Hn. done. Qed.

Lemma key_ok_of_int i : srange 32 i -> key_ok (number (f64_of_int i)).
Proof.
  intros Hi. destruct (f64_of_int_number i Hi) as [Hn ->].
  split_and!; [by apply value_ok_int|by intros E; rewrite E in Hn|].
  unfold normalize_key, as_number. rewrite Hn. by apply f64_of_int_number.
Qed.

Lemma LJ_MAX_ASIZE_val : LJ_MAX_ASIZE = 2 ^ 27 + 1. Proof. reflexivity. Qed.

Lemma key_int k i : key_ok k -> as_int32_exact k = Some i <-> srange 32 i /\ k = f64_of_int i.
Proof.
  intros Hk. rewrite as_int32_exact_iff by by apply key_ok_range.
  pose proof (key_ok_not_mzero k Hk). split; [by intros [? [->|[_ ?]]]|intros [? ->]; auto].
Qed.

Lemma array_key_spec k i : key_ok k ->
  array_key k = Some i <-> 0 <= i < LJ_MAX_ASIZE /\ k = f64_of_int i.
Proof.
  intros Hk. unfold array_key. rewrite LJ_MAX_ASIZE_val. split.
  - destruct (as_int32_exact k) as [j|] eqn:E; [|done]. apply key_int in E as [Hj ->]; [|done].
    unfold srange in Hj. destruct (Z.leb_spec 0 j); [|done]. cbn [andb].
    rewrite uwrap_small by (unfold urange; lia). destruct (Z.ltb_spec j (2 ^ 27 + 1)); [|done].
    intros [= <-]. split; [lia|done].
  - intros [Hi ->]. assert (as_int32_exact (f64_of_int i) = Some i) as ->.
    { apply key_int; [done|]. split; [unfold srange; lia|done]. }
    destruct (Z.leb_spec 0 i); [|lia]. rewrite uwrap_small by (unfold urange; lia).
    by destruct (Z.ltb_spec i (2 ^ 27 + 1)); [|lia].
Qed.

Lemma array_index_spec t k i : key_ok k ->
  array_index t k = Some i <-> 0 <= i < LJ_MAX_ASIZE /\ i < asize t /\ k = f64_of_int i.
Proof.
  intros Hk. unfold array_index. destruct (array_key k) as [j|] eqn:E.
  - apply array_key_spec in E as [Hj ->]; [|done]. destruct (Z.ltb_spec j (asize t)); split.
    + intros [= <-]. done.
    + intros (? & ? & E%f64_of_int_inj); [by subst| |];
        rewrite LJ_MAX_ASIZE_val in *; unfold srange; lia.
    + done.
    + intros (? & ? & E%f64_of_int_inj); [lia| |];
        rewrite LJ_MAX_ASIZE_val in *; unfold srange; lia.
  - split; [done|]. intros (? & ? & ->). exfalso.
    assert (array_key (f64_of_int i) = Some i) by by apply array_key_spec. congruence.
Qed.

Lemma array_index_asize t t' k : asize t' = asize t -> array_index t' k = array_index t k.
Proof. unfold array_index. by intros ->. Qed.

Section Inv.
Context `{StrHeap}.

(** ** The invariant *)

Definition slot (m : Z) (k : LuaValue) : Z := Z.land (default 0 (hash_key k)) m.

(** The list of nodes as a function. *)
Definition repr (M : Z) (ns : list Node) (nd : Z -> Node) : Prop :=
  zlen ns = M /\ forall i, inN M i -> znth ns i = Some (nd i).

Definition nodes (t : LuaTable) : Z -> Node := fun i => default EMPTY (znth (node t) i).

Record hpart_inv (t : LuaTable) (nd : Z -> Node) : Prop := {
  hp_size : exists b, 1 <= b <= LJ_MAX_HBITS /\ hmask t + 1 = 2 ^ b;
  hp_repr : repr (hmask t + 1) (node t) nd;
  hp_hash : hash_inv (hmask t + 1) (slot (hmask t)) nd (freetop t);
  hp_range : forall i, inN (hmask t + 1) i -> key (nd i) <> NIL -> array_index t (key (nd i)) = None;
}.

Record table_inv (t : LuaTable) : Prop := {
  ti_asize : zlen (array t) = asize t /\ asize t <= LJ_MAX_ASIZE;
  ti_vals : Forall value_ok (array t);
  ti_hash : hmask t = 0 \/ exists nd, hpart_inv t nd;
}.

Section Hpart.
Context (t : LuaTable) (nd : Z -> Node).
Hypothesis Hp : hpart_inv t nd.

Lemma hp_mask : exists b, 1 <= b <= 26 /\ hmask t = Z.ones b /\ hmask t + 1 = 2 ^ b /\ 2 ^ b <= 2 ^ 26.
Proof.
  destruct (hp_size _ _ Hp) as (b & Hb & E). unfold LJ_MAX_HBITS in Hb.
  exists b. rewrite Z.ones_equiv. split_and!; try lia. apply Z.pow_le_mono_r; lia.
Qed.

Lemma hp_bounds : 2 <= hmask t + 1 <= 2 ^ 26.
Proof.
  destruct hp_mask as (b & Hb & _ & -> & ?). split; [|done].
  change 2 with (2 ^ 1) at 1. apply Z.pow_le_mono_r; lia.
Qed.

Lemma hp_has : has_hpart t = true.
Proof. unfold has_hpart. pose proof hp_bounds. destruct (Z.eqb_spec (hmask t) 0); [lia|done]. Qed.

Lemma slot_range k : inN (hmask t + 1) (slot (hmask t) k).
Proof.
  destruct hp_mask as (b & Hb & E & E' & _). unfold slot, inN. rewrite E', E, Z.land_ones by lia.
  apply Z.mod_pos_bound, Z.pow_pos_nonneg; lia.
Qed.

Lemma hp_small : hmask t + 1 < NIL_NODE.
Proof. pose proof hp_bounds. unfold NIL_NODE. lia. Qed.

Lemma node_slot_nd i : inN (hmask t + 1) i -> node_slot t i = Some (nd i).
Proof.
  intros Hi. unfold node_slot. pose proof hp_bounds.
  destruct (Z.ltb_spec 0 (hmask t)); [|lia]. by apply (hp_repr _ _ Hp).
Qed.

Lemma hash_slot_ok k : key_ok k -> hash_slot t k = Some (slot (hmask t) k).
Proof.
  intros (Hk & _). unfold hash_slot, slot. by destruct (hash_key_total k Hk) as [h ->].
Qed.

(** ** The walks *)

Lemma rank_fuel : exists rank : Z -> nat, forall i, inN (hmask t + 1) i ->
  (rank i < chain_fuel t)%nat /\
  (next_ (nd i) <> NIL_NODE -> (rank (next_ (nd i)) < rank i)%nat /\ inN (hmask t + 1) (next_ (nd i))).
Proof.
  destruct (hash_inv_bounded_rank _ _ nd (freetop t) (hp_hash _ _ Hp)) as [rank Hr].
  exists rank. intros i Hi. destruct (Hr i Hi) as [? Hx]. split.
  - destruct (hp_repr _ _ Hp) as [E _]. unfold zlen in E. unfold chain_fuel. lia.
  - intros Hn. split; [auto|]. by destruct (hi_next _ _ _ _ (hp_hash _ _ Hp) i Hi).
Qed.

Lemma chain_find_spec k i : inN (hmask t + 1) i ->
  exists r, chain_find (chain_fuel t) t i k = Some r /\
  match r with
  | Some j => inN (hmask t + 1) j /\ key (nd j) = k
  | None => forall j, reach nd i j -> key (nd j) <> k
  end.
Proof.
  destruct rank_fuel as [rank Hr]. intros Hi. destruct (Hr i Hi) as [Hf _].
  revert i Hi Hf. generalize (chain_fuel t) as fuel.
  induction fuel as [|fuel IH]; intros i Hi Hf; [lia|]. cbn [chain_find].
  rewrite node_slot_nd by done. destruct (Hr i Hi) as [_ Hx].
  destruct (decide (key (nd i) = k)) as [E|E]; [by exists (Some i)|].
  destruct (Z.eqb_spec (next_ (nd i)) NIL_NODE) as [En|En].
  - exists None. split; [done|]. intros j Hj. by inversion Hj; subst.
  - destruct (Hx En) as [Hlt Hin]. destruct (IH (next_ (nd i))) as (r & -> & Hr'); [done|lia|].
    exists r. split; [done|]. destruct r; [done|].
    intros j Hj. inversion Hj; subst; [done|auto].
Qed.

Lemma find_pred_spec c n : inN (hmask t + 1) c -> inN (hmask t + 1) n -> reach nd c n -> c <> n ->
  exists p, find_pred (chain_fuel t) t c n = Some p /\ inN (hmask t + 1) p /\ next_ (nd p) = n.
Proof.
  destruct rank_fuel as [rank Hr]. intros Hc Hn. destruct (Hr c Hc) as [Hf _].
  revert c Hc Hf. generalize (chain_fuel t) as fuel.
  induction fuel as [|fuel IH]; intros c Hc Hf Hreach Hne; [lia|]. cbn [find_pred].
  rewrite node_slot_nd by done. destruct (Hr c Hc) as [_ Hx].
  destruct (Z.eqb_spec (next_ (nd c)) n) as [E|E]; [by exists c|].
  inversion Hreach as [|? ? Hnx Hreach']; subst; [done|].
  destruct (Hx Hnx) as [Hlt Hin]. apply IH; try done; lia.
Qed.

Lemma nd_key_nil i : inN (hmask t + 1) i -> is_nil (key (nd i)) = true <-> key (nd i) = NIL.
Proof.
  intros Hi. destruct (hi_key _ _ _ _ (hp_hash _ _ Hp) i Hi) as [->|Hk]; [done|].
  apply is_nil_NIL. apply Hk.
Qed.

Lemma nd_val_nil i : inN (hmask t + 1) i -> is_nil (val (nd i)) = true <-> val (nd i) = NIL.
Proof. intros Hi. apply is_nil_NIL. by apply (hi_val _ _ _ _ (hp_hash _ _ Hp)). Qed.

Lemma free_search_spec ft : 0 <= ft <= hmask t + 1 ->
  exists r, free_search (S (Z.to_nat ft)) t ft = Some r /\
  match r with
  | Some f => 0 <= f < ft /\ key (nd f) = NIL /\ forall i, f < i < ft -> key (nd i) <> NIL
  | None => forall i, 0 <= i < ft -> key (nd i) <> NIL
  end.
Proof.
  remember (S (Z.to_nat ft)) as fuel eqn:Ef. assert (ft < Z.of_nat fuel) as Hf by lia.
  clear Ef. revert ft Hf. induction fuel as [|fuel IH]; intros ft Hf Hft; [lia|].
  cbn [free_search]. destruct (Z.eqb_spec ft 0) as [->|].
  - exists None. split; [done|]. lia.
  - assert (inN (hmask t + 1) (ft - 1)) as Hin by (unfold inN; lia).
    rewrite node_slot_nd by done. pose proof (nd_key_nil _ Hin) as Hk.
    destruct (is_nil (key (nd (ft - 1)))).
    + exists (Some (ft - 1)). split; [done|]. split; [lia|]. split; [by apply Hk|]. lia.
    + assert (key (nd (ft - 1)) <> NIL) as Hk' by (intros E; by apply Hk in E).
      destruct (IH (ft - 1)) as (r & -> & Hr); [lia|lia|]. exists r. split; [done|].
      destruct r as [f|].
      * destruct Hr as (? & ? & Hr). split; [lia|]. split; [done|]. intros i Hi.
        destruct (decide (i = ft - 1)) as [->|]; [done|]. apply Hr. lia.
      * intros i Hi. destruct (decide (i = ft - 1)) as [->|]; [done|]. apply Hr. lia.
Qed.

(** ** What the hash part holds *)

Definition holds (k v : LuaValue) : Prop :=
  exists i, inN (hmask t + 1) i /\ key (nd i) = k /\ val (nd i) = v.

Lemma chain_find_slot k : key_ok k ->
  exists r, chain_find (chain_fuel t) t (slot (hmask t) k) k = Some r /\
  match r with
  | Some j => inN (hmask t + 1) j /\ key (nd j) = k
  | None => absent (hmask t + 1) nd k
  end.
Proof.
  intros Hk. destruct (chain_find_spec k _ (slot_range k)) as (r & -> & Hr).
  exists r. split; [done|]. destruct r; [done|]. intros i Hi E. apply (Hr i); [|done].
  rewrite <- E. apply (hi_reach _ _ _ _ (hp_hash _ _ Hp)); [done|].
  rewrite E. apply Hk.
Qed.

Lemma get_hash k : key_ok k -> array_index t k = None -> exists v, get t k = Some v /\
  value_ok v /\ forall w, w <> NIL -> v = w <-> holds k w.
Proof.
  intros Hk Ha. unfold get. rewrite Ha, key_ok_not_nil, hp_has by done. cbn [orb negb].
  rewrite hash_slot_ok by done. destruct (chain_find_slot k Hk) as ([j|] & -> & Hr).
  - destruct Hr as [Hj Ej]. rewrite node_slot_nd by done. exists (val (nd j)).
    split; [done|]. split; [by apply (hi_val _ _ _ _ (hp_hash _ _ Hp))|].
    intros w Hw. split; [intros <-; by exists j|].
    intros (i & Hi & Ei & <-). f_equal. f_equal.
    symmetry. apply (hi_uniq _ _ _ _ (hp_hash _ _ Hp)); [done..| |congruence].
    rewrite Ei. apply Hk.
  - exists NIL. split; [done|]. split; [apply value_ok_prim|]. intros w Hw. split; [done|].
    intros (i & Hi & Ei & _). by destruct (Hr i).
Qed.
End Hpart.

(** The key is looked up in the array part. *)
Lemma get_array t k i : table_inv t -> key_ok k -> array_index t k = Some i ->
  exists v, get t k = Some v /\ znth (array t) i = Some v /\ value_ok v.
Proof.
  intros Hi Hk E. unfold get. rewrite E. apply array_index_spec in E as (? & ? & _); [|done].
  destruct (ti_asize _ Hi) as [El _].
  destruct (znth_lt_Some (array t) i) as [v Ev]; [lia|]. exists v. split_and!; [done..|].
  by apply (Forall_znth _ _ _ _ (ti_vals _ Hi) Ev).
Qed.

Lemma get_no_hpart t k : hmask t = 0 -> array_index t k = None -> get t k = Some NIL.
Proof.
  intros E Ea. unfold get, has_hpart. rewrite Ea, E. by rewrite orb_true_r.
Qed.

Lemma get_total t k : table_inv t -> key_ok k -> exists v, get t k = Some v /\ value_ok v.
Proof.
  intros Hi Hk. destruct (array_index t k) as [i|] eqn:E.
  - destruct (get_array t k i Hi Hk E) as (v & ? & _ & ?). by exists v.
  - destruct (ti_hash _ Hi) as [E0|[nd Hp]].
    + exists NIL. split; [by apply get_no_hpart|apply value_ok_prim].
    + destruct (get_hash t nd Hp k Hk E) as (v & ? & ? & _). by exists v.
Qed.

(** Two tables with hash parts that hold the same live entry for [k]. *)
Lemma get_hash_ext t t' nd nd' k : hpart_inv t nd -> hpart_inv t' nd' -> key_ok k ->
  array_index t k = None -> array_index t' k = None ->
  (forall w, w <> NIL -> holds t nd k w <-> holds t' nd' k w) -> get t k = get t' k.
Proof.
  intros Hp Hp' Hk Ha Ha' E.
  destruct (get_hash t nd Hp k Hk Ha) as (v & -> & _ & Hv).
  destruct (get_hash t' nd' Hp' k Hk Ha') as (v' & -> & _ & Hv').
  f_equal. destruct (decide (v = NIL)) as [->|Hn].
  - destruct (decide (v' = NIL)) as [->|Hn']; [done|].
    apply (Hv v' Hn'), (E v' Hn'). by apply (Hv' v' Hn').
  - symmetry. apply (Hv' v Hn), (E v Hn). by apply (Hv v Hn).
Qed.

End Inv.
