(* ===== verification/TableSet.v ===== *)
(** * Setting a key

    [set] refines a map update.  First the insertion of a new key while the
    hash part has a free node, then [resize] (every live entry is reinserted
    with room to spare), then the retry after a rehash. *)

From Stdlib Require Import ZArith Lia Bool.
From stdpp Require Import base decidable list numbers option functions.
From S2P Require Import Prelude Float64 Value Table TableHash TableInv.

Section TableSet.
Context `{StrHeap}.

(** ** Node writes *)

Lemma node_slot_mut_repr t nd M i f : repr M (node t) nd -> inN M i ->
  exists ns, node_slot_mut t i f = Some (with_node t ns) /\ repr M ns (<[i := f (nd i)]> nd).
Proof.
  intros [El En] Hi. unfold node_slot_mut. rewrite En by done.
  destruct (zset_lt (node t) i (f (nd i))) as [ns E]; [unfold inN in Hi; lia|].
  rewrite E. exists ns. split; [done|]. split.
  - by rewrite (zlen_zset _ _ _ _ E).
  - intros j Hj. rewrite (znth_zset _ _ _ _ j E), upd_case. repeat case_decide; (done || auto).
Qed.

Lemma repr_ext M ns nd nd' : (forall i, inN M i -> nd' i = nd i) -> repr M ns nd -> repr M ns nd'.
Proof. intros E [? Hn]. split; [done|]. intros i Hi. rewrite E by done. auto. Qed.

(** What an update of the table at [k] means. *)
Definition updated (t t' : LuaTable) (k v : LuaValue) : Prop :=
  table_inv t' /\ asize t' = asize t /\ hmask t' = hmask t /\
  forall k', key_ok k' -> get t' k' = if decide (k' = k) then Some v else get t k'.

Lemma table_inv_hpart t nd : zlen (array t) = asize t /\ asize t <= LJ_MAX_ASIZE ->
  Forall value_ok (array t) -> hpart_inv t nd -> table_inv t.
Proof. intros. split; [done..|]. right. by exists nd. Qed.

(** Fields no lookup reads. *)
Lemma table_inv_nomm t m : table_inv t -> table_inv (with_nomm t m).
Proof.
  intros [? ? Hh]. split; [done..|]. destruct Hh as [?|[nd [? ? ? ?]]]; [by left|right].
  exists nd. by split.
Qed.

Lemma chain_find_same t t' fuel n k : node t' = node t -> hmask t' = hmask t ->
  chain_find fuel t' n k = chain_find fuel t n k.
Proof.
  intros En Em. revert n. induction fuel as [|fuel IH]; intros n; [done|]. cbn [chain_find].
  unfold node_slot. rewrite En, Em. destruct (if 0 <? hmask t then _ else _) as [nd|]; [|done].
  by rewrite IH.
Qed.

Lemma get_same t t' k : asize t' = asize t -> node t' = node t -> hmask t' = hmask t ->
  array t' = array t \/ array_index t k = None -> get t' k = get t k.
Proof.
  intros Es En Em Ea. unfold get, has_hpart, hash_slot, chain_fuel, node_slot.
  rewrite (array_index_asize t) by done. rewrite Em, En.
  destruct (array_index t k); [destruct Ea as [->|]; done|].
  case_match; [done|]. destruct (hash_key k); [|done]. by rewrite (chain_find_same t).
Qed.

(** ** Writing where the key is *)

Lemma set_array t k v i : table_inv t -> key_ok k -> value_ok v -> array_index t k = Some i ->
  exists a, zset (array t) i v = Some a /\ updated t (with_array t a) k v.
Proof.
  intros Hi Hk Hv Ha. pose proof Ha as (? & ? & Ek)%array_index_spec; [|done].
  destruct (ti_asize _ Hi) as [El Em].
  destruct (zset_lt (array t) i v) as [a E]; [lia|]. exists a. split; [done|].
  split; [|split_and!; [done..|]].
  - split.
    + cbn [array with_array asize]. by rewrite (zlen_zset _ _ _ _ E).
    + apply (Forall_zset _ _ _ _ _ (ti_vals _ Hi) Hv E).
    + destruct (ti_hash _ Hi) as [?|[nd [? ? ? ?]]]; [by left|right]. exists nd. by split.
  - intros k' Hk'. destruct (array_index t k') as [j|] eqn:Ej.
    + unfold get. rewrite (array_index_asize t), Ej by done. cbn [array with_array]. rewrite (znth_zset _ _ _ _ j E).
      apply array_index_spec in Ej as (? & ? & Ek'); [|done].
      destruct (decide (k' = k)) as [->|Hne].
      * rewrite decide_True; [done|].
        apply f64_of_int_inj; [..|congruence]; rewrite LJ_MAX_ASIZE_val in *; unfold srange; lia.
      * rewrite decide_False; [done|]. congruence.
    + destruct (decide (k' = k)); [congruence|]. apply get_same; auto.
Qed.

Lemma set_found t nd k v n : zlen (array t) = asize t /\ asize t <= LJ_MAX_ASIZE ->
  Forall value_ok (array t) -> hpart_inv t nd -> key_ok k -> value_ok v ->
  array_index t k = None -> inN (hmask t + 1) n -> key (nd n) = k ->
  exists ns, node_slot_mut t n (set_val v) = Some (with_node t ns) /\
    hpart_inv (with_node t ns) (<[n := set_val v (nd n)]> nd) /\
    updated t (with_node t ns) k v.
Proof.
  intros Hz Hf Hp Hk Hv Ha Hn Ek.
  destruct (node_slot_mut_repr t nd _ n (set_val v) (hp_repr _ _ Hp) Hn) as (ns & E & Hr).
  assert (k <> NIL) as Hk0 by apply Hk.
  set (nd' := <[n := set_val v (nd n)]> nd) in *.
  assert (forall i, key (nd' i) = key (nd i)) as Ekey.
  { intros i. unfold nd'. rewrite upd_case. by case_decide; subst. }
  assert (hpart_inv (with_node t ns) nd') as Hp'.
  { split; try apply Hp; [done| |].
    - apply hash_inv_set_val; [apply Hp|done|congruence|done].
    - intros i Hi. rewrite Ekey. by apply Hp. }
  exists ns. split; [done|]. split; [done|].
  split; [by apply (table_inv_hpart _ nd')|]. split_and!; [done..|]. intros k' Hk'.
  destruct (array_index t k') as [j|] eqn:Ej.
  { destruct (decide (k' = k)); [congruence|]. unfold get.
    rewrite (array_index_asize t) by done. by rewrite Ej. }
  destruct (decide (k' = k)) as [->|Hne].
  - destruct (get_hash _ _ Hp' k Hk Ha) as (w & -> & Hw & Hh). f_equal.
    assert (holds (with_node t ns) nd' k v) as Hv'.
    { exists n. rewrite Ekey. unfold nd'. by rewrite upd_eq. }
    destruct (decide (v = NIL)) as [->|]; [|by apply Hh].
    destruct (decide (w = NIL)) as [|Hwn]; [done|].
    destruct (proj1 (Hh w Hwn) eq_refl) as (i & Hi & Ei & <-). rewrite Ekey in Ei.
    assert (i = n) as ->.
    { apply (hi_uniq _ _ _ _ (hp_hash _ _ Hp)); try done; congruence. }
    unfold nd'. by rewrite upd_eq.
  - symmetry. apply (get_hash_ext _ _ _ _ _ Hp Hp'); [done..|]. intros w Hw.
    unfold holds. setoid_rewrite Ekey. split; intros (i & Hi & Ei & E');
      exists i; (split_and!; [done..|]); unfold nd' in *; rewrite upd_ne in *; try done; congruence.
Qed.

(** ** Inserting a new key *)

(** Resolve the index tests that the context settles. *)
Ltac decide_eqs :=
  repeat match goal with
  | |- context [decide (?a = ?b)] =>
      first [rewrite (decide_True (P := a = b)) by congruence
            |rewrite (decide_False (P := a = b)) by congruence]
  end.

(** One write to a node, its list of nodes represented by [Hr]. *)
Ltac node_write Hr :=
  match goal with
  | |- context [node_slot_mut ?t ?i ?f] =>
      match type of Hr with
      | repr ?M _ ?nd =>
          let Hr' := fresh in let ns := fresh "ns" in
          destruct (node_slot_mut_repr t nd M i f Hr ltac:(done)) as (ns & -> & Hr');
          clear Hr; rename Hr' into Hr
      end
  end.

Record inserted (t t' : LuaTable) (nd nd' : Z -> Node) (k : LuaValue) (s : Z) : Prop := {
  in_array : array t' = array t;
  in_asize : asize t' = asize t;
  in_hmask : hmask t' = hmask t;
  in_hpart : hpart_inv t' nd';
  in_slot : inN (hmask t + 1) s;
  in_key : key (nd' s) = k;
  in_holds : forall k' w, k' <> k -> k' <> NIL -> w <> NIL ->
    holds t nd k' w <-> holds t' nd' k' w;
  in_nkeys : nkeys (hmask t + 1) nd' <= nkeys (hmask t + 1) nd + 1;
}.

Section NewKey.
Context (t : LuaTable) (nd : Z -> Node) (k : LuaValue).
Hypotheses (Hp : hpart_inv t nd) (Hk : key_ok k) (Ha : array_index t k = None).
Hypothesis Habs : absent (hmask t + 1) nd k.
Let N := hmask t + 1.
Let n := slot (hmask t) k.

Lemma new_key_range_ok t' nd' : asize t' = asize t ->
  (forall i, inN N i -> key (nd' i) <> NIL -> key (nd' i) = k \/
     exists j, inN N j /\ key (nd j) = key (nd' i)) ->
  forall i, inN N i -> key (nd' i) <> NIL -> array_index t' (key (nd' i)) = None.
Proof.
  intros Es Hold i Hi Hki. rewrite (array_index_asize t) by done.
  destruct (Hold i Hi Hki) as [->|(j & Hj & E)]; [done|]. rewrite <- E in *. by apply Hp.
Qed.

(** [holds] along a correspondence of the live nodes of the two graphs. *)
Lemma holds_corr t' nd' (f g : Z -> Z) k' w : hmask t' = hmask t -> k' <> NIL -> w <> NIL ->
  (forall i, inN N i -> key (nd i) = k' -> val (nd i) <> NIL ->
     inN N (f i) /\ key (nd' (f i)) = k' /\ val (nd' (f i)) = val (nd i)) ->
  (forall i, inN N i -> key (nd' i) = k' -> val (nd' i) <> NIL ->
     inN N (g i) /\ key (nd (g i)) = k' /\ val (nd (g i)) = val (nd' i)) ->
  holds t nd k' w <-> holds t' nd' k' w.
Proof.
  intros Em Hk' Hw Hf Hg. unfold holds. rewrite Em. split.
  - intros (i & Hi & Ei & Ev). destruct (Hf i Hi Ei) as (? & ? & ?); [congruence|].
    exists (f i). split_and!; [done..|congruence].
  - intros (i & Hi & Ei & Ev). destruct (Hg i Hi Ei) as (? & ? & ?); [congruence|].
    exists (g i). split_and!; [done..|congruence].
Qed.

Lemma insert_main_ok : val (nd n) = NIL ->
  exists t' nd', node_slot_mut t n (set_key (normalize_key k)) = Some t' /\
    inserted t t' nd nd' k n.
Proof.
  intros Hv. pose proof (slot_range _ _ Hp k) as Hn. fold n in Hn.
  destruct Hk as (_ & Hk0 & Ek). rewrite Ek.
  destruct (node_slot_mut_repr t nd _ n (set_key k) (hp_repr _ _ Hp) Hn) as (ns & E & Hr).
  exists (with_node t ns), (<[n := set_key k (nd n)]> nd). split; [done|].
  assert (hpart_inv (with_node t ns) (<[n := set_key k (nd n)]> nd)) as Hp'.
  { split; [apply Hp|done| |].
    - cbn [hmask with_node freetop]. apply hash_inv_insert_main; try done;
        try apply (slot_range _ _ Hp). apply Hp.
    - apply new_key_range_ok; [done|]. intros i Hi. rewrite upd_case.
      case_decide; [by left|]. intros _. right. by exists i. }
  split; try done.
  - by rewrite upd_eq.
  - intros k' w Hne Hk' Hw. apply (holds_corr _ _ id id); try done; intros i Hi Ei Hvi.
    + unfold id. rewrite upd_ne; [done|]. intros ->. done.
    + unfold id. revert Ei Hvi. rewrite !upd_case. case_decide; [|done]. subst i. by intros <-.
  - apply (nkeys_step _ _ _ n); [done|]. intros i Hi Hin. by rewrite upd_ne.
Qed.

Section Taken.
Context (f : Z).
Hypotheses (Hf : inN N f) (Hkf : key (nd f) = NIL).
Hypothesis Hfree : forall i, f < i < N -> key (nd i) <> NIL.
Hypothesis Hvn : val (nd n) <> NIL.
Let t1 := with_freetop t f.

Lemma taken_key : key (nd n) <> NIL.
Proof.
  intros E. apply Hvn. apply (hi_nil _ _ _ _ (hp_hash _ _ Hp)); [|done].
  apply (slot_range _ _ Hp).
Qed.

Lemma insert_after_ok : slot (hmask t) (key (nd n)) = n ->
  exists t' nd', insert_after_main t1 k n f = Some (t', Some f) /\ inserted t t' nd nd' k f.
Proof.
  intros Hhome. pose proof (slot_range _ _ Hp k) as Hn. fold n in Hn.
  assert (k <> NIL) as Hk0 by apply Hk. pose proof Hk as (_ & _ & Ek).
  pose proof taken_key as Hkn. assert (n <> f) as Hnf by congruence.
  destruct (hi_nil _ _ _ _ (hp_hash _ _ Hp) f Hf Hkf) as (Hvf & _ & _).
  unfold insert_after_main. change (node_slot t1 n) with (node_slot t n).
  rewrite (node_slot_nd _ _ Hp), Ek by done.
  assert (repr N (node t1) nd) as Hr by apply (hp_repr _ _ Hp).
  do 3 node_write Hr. match type of Hr with repr _ ?m ?d => set (nd3 := d) in *; set (nsl := m) in * end.
  set (nd' := <[f := mkNode NIL k (next_ (nd n))]> (<[n := set_next f (nd n)]> nd)).
  assert (forall i, nd3 i = nd' i) as E.
  { intros i. unfold nd3, nd'. rewrite !upd_case.
    destruct (decide (i = f)) as [->|]; [|destruct (decide (i = n)) as [->|]];
      decide_eqs; unfold set_key, set_next, set_val; cbn; by rewrite ?Hvf. }
  assert (hash_inv N (slot (hmask t)) nd' f) as Hi'.
  { apply hash_inv_insert_after with (ft := freetop t); try done.
    - apply (slot_range _ _ Hp).
    - apply (hp_small _ _ Hp).
    - apply Hp. }
  exists (with_node t1 nsl), nd'. split; [done|].
  assert (nd' f = mkNode NIL k (next_ (nd n))) as Ef by (unfold nd'; apply upd_eq).
  assert (forall i, i <> f -> key (nd' i) = key (nd i) /\ val (nd' i) = val (nd i)) as Eo.
  { intros i Hif. unfold nd'. rewrite (upd_ne _ f) by done. rewrite upd_case. by case_decide; subst. }
  split; try done.
  - split; [apply Hp| |done|].
    + apply (repr_ext _ _ nd3); [done|exact Hr].
    + apply new_key_range_ok; [done|]. intros i Hi _.
      destruct (decide (i = f)) as [->|Hif]; [left; by rewrite Ef|].
      right. exists i. by destruct (Eo i Hif) as [-> _].
  - by rewrite Ef.
  - intros k' w Hne Hk' Hw. apply (holds_corr _ _ id id); try done; intros i Hi Ei Hvi; unfold id.
    + destruct (Eo i) as [-> ->]; [congruence|done].
    + destruct (decide (i = f)) as [->|Hif]; [by rewrite Ef in Hvi|].
      destruct (Eo i Hif) as [<- <-]. done.
  - apply (nkeys_step _ _ _ f); [done|]. intros i Hi Hif. by destruct (Eo i Hif) as [-> _].
Qed.

Lemma insert_move_ok : slot (hmask t) (key (nd n)) <> n ->
  exists t' nd', move_colliding t1 k n f (slot (hmask t) (key (nd n))) = Some (t', Some n) /\
    inserted t t' nd nd' k n.
Proof.
  intros Haway. pose proof (slot_range _ _ Hp k) as Hn. fold n in Hn.
  assert (k <> NIL) as Hk0 by apply Hk. pose proof Hk as (_ & _ & Ek).
  pose proof taken_key as Hkn.
  destruct (find_pred_spec _ _ Hp (slot (hmask t) (key (nd n))) n) as (p & Efp & Hpin & Hpn);
    [apply (slot_range _ _ Hp)|done|by apply (hi_reach _ _ _ _ (hp_hash _ _ Hp))|done|].
  assert (hash_inv N (slot (hmask t)) (moved nd n f p k) f) as Hi'.
  { apply (hash_inv_insert_move N (slot (hmask t))) with (ft := freetop t); try done.
    - apply (slot_range _ _ Hp).
    - apply (hp_small _ _ Hp).
    - apply Hp. }
  assert (n <> f /\ p <> n /\ p <> f /\ k <> NIL) as (Hnf & Hpn' & Hpf & _).
  { apply (move_distinct N (slot (hmask t)) (hp_small _ _ Hp) nd (freetop t)); try done. apply Hp. }
  assert (moved nd n f p k n = mkNode NIL k NIL_NODE) as En by apply upd_eq.
  assert (moved nd n f p k f = nd n) as Ef.
  { unfold moved. rewrite upd_ne by done. apply upd_eq. }
  assert (forall i, i <> n -> i <> f -> key (moved nd n f p k i) = key (nd i) /\
    val (moved nd n f p k i) = val (nd i)) as Eo.
  { intros i ? ?. unfold moved. rewrite (upd_ne _ n), (upd_ne _ f), upd_case by done.
    by case_decide; subst. }
  unfold move_colliding.
  assert (forall fuel c, find_pred fuel t1 c n = find_pred fuel t c n) as Es.
  { induction fuel as [|fuel IH]; intros c; [done|]. cbn [find_pred].
    change (node_slot t1 c) with (node_slot t c). destruct (node_slot t c); [|done]. by rewrite IH. }
  change (chain_fuel t1) with (chain_fuel t). rewrite Es, Efp.
  change (node_slot t1 n) with (node_slot t n). rewrite (node_slot_nd _ _ Hp), Ek by done.
  assert (repr N (node t1) nd) as Hr by apply (hp_repr _ _ Hp).
  do 7 node_write Hr. match type of Hr with repr _ ?m ?d => set (nd3 := d) in *; set (nsl := m) in * end.
  assert (forall i, nd3 i = moved nd n f p k i) as E.
  { intros i. unfold nd3, moved. rewrite !upd_case.
    destruct (decide (i = n)) as [->|]; [|destruct (decide (i = f)) as [->|];
      [|destruct (decide (i = p)) as [->|]]];
      decide_eqs; unfold set_key, set_next, set_val; cbn; by destruct (nd n). }
  exists (with_node t1 nsl), (moved nd n f p k). split; [done|].
  assert (forall i, inN N i -> i <> n -> key (moved nd n f p k i) <> NIL ->
    let j := if decide (i = f) then n else i in
    inN N j /\ key (nd j) = key (moved nd n f p k i) /\ val (nd j) = val (moved nd n f p k i)) as Hold.
  { intros i Hi Hin Hki. cbn. destruct (decide (i = f)) as [->|Hif]; [by rewrite Ef|].
    by destruct (Eo i Hin Hif) as [-> ->]. }
  split; try done.
  - split; [apply Hp| |done|].
    + apply (repr_ext _ _ nd3); [done|exact Hr].
    + apply new_key_range_ok; [done|]. intros i Hi Hki.
      destruct (decide (i = n)) as [->|Hin]; [left; by rewrite En|].
      right. eexists. destruct (Hold i Hi Hin Hki) as (? & ? & _). by split.
  - by rewrite En.
  - intros k' w Hne Hk' Hw.
    apply (holds_corr _ _ (fun i => if decide (i = n) then f else i)
                          (fun i => if decide (i = f) then n else i)); try done; intros i Hi Ei Hvi.
    + destruct (decide (i = n)) as [->|Hin]; [by rewrite Ef|].
      destruct (Eo i Hin) as [-> ->]; [congruence|done].
    + assert (i <> n) as Hin by (intros ->; by rewrite En in Ei).
      destruct (Hold i Hi Hin) as (? & ? & ?); [congruence|]. split_and!; [done|congruence..].
  - apply (nkeys_step _ _ _ f); [done|]. intros i Hi Hif.
    destruct (decide (i = n)) as [->|Hin]; [done|]. by destruct (Eo i Hin Hif) as [-> _].
Qed.
End Taken.
End NewKey.

Lemma try_new_key_spec t nd k rehash : hpart_inv t nd -> key_ok k -> array_index t k = None ->
  absent (hmask t + 1) nd k ->
  (exists t' nd' s, try_new_key rehash t k = Some (t', Some s) /\ inserted t t' nd nd' k s) \/
  ((forall i, inN (hmask t + 1) i -> key (nd i) <> NIL) /\
   try_new_key rehash t k = let? t' := rehash (with_nomm t 0) k in Some (t', None)).
Proof.
  intros Hp0 Hk Ha Habs. unfold try_new_key. set (t0 := with_nomm t 0).
  assert (hpart_inv t0 nd) as Hp by (destruct Hp0; by split). rewrite (hp_has _ _ Hp).
  cbn [negb]. rewrite hash_slot_ok by done. change (hmask t0) with (hmask t).
  pose proof (slot_range _ _ Hp k) as Hn.
  set (n := slot (hmask t) k) in *. rewrite (node_slot_nd _ _ Hp) by done.
  pose proof (nd_val_nil _ _ Hp n Hn) as Hvn. destruct (is_nil (val (nd n))) eqn:Ev.
  { left. destruct (insert_main_ok t0 nd k Hp Hk Ha Habs) as (t' & nd' & E & Hins);
      [by apply Hvn|]. change (hmask t0) with (hmask t) in E, Hins. fold n in E, Hins.
    rewrite E. exists t', nd', n. split; [done|]. by destruct Hins; split. }
  assert (val (nd n) <> NIL) as Hv by (intros E; by apply Hvn in E).
  destruct (hi_free _ _ _ _ (hp_hash _ _ Hp)) as [Hft Hused].
  destruct (free_search_spec _ _ Hp (freetop t0)) as ([f|] & -> & Hf); [done| |].
  - left. destruct Hf as (Hf0 & Hkf & Hff). change (hmask t0) with (hmask t) in *.
    assert (inN (hmask t + 1) f) as Hf by (unfold inN; lia).
    assert (forall i, f < i < hmask t + 1 -> key (nd i) <> NIL) as Hfree.
    { intros i Hi. destruct (decide (i < freetop t0)); [apply Hff|apply Hused]; lia. }
    assert (key_ok (key (nd n))) as Hkn.
    { destruct (hi_key _ _ _ _ (hp_hash _ _ Hp) n Hn) as [E|]; [|done].
      by destruct (taken_key t0 nd k Hp Hv). }
    assert (hash_slot (with_freetop t0 f) (key (nd n)) = Some (slot (hmask t) (key (nd n)))) as ->
      by apply (hash_slot_ok t _ Hkn).
    destruct (Z.eqb_spec (slot (hmask t) (key (nd n))) n) as [Hhome|Haway]; cbn [negb].
    + destruct (insert_after_ok t0 nd k Hp Hk Ha Habs f Hf Hkf Hfree Hv Hhome) as (t' & nd' & E & Hins).
      exists t', nd', f. split; [exact E|]. by destruct Hins; split.
    + destruct (insert_move_ok t0 nd k Hp Hk Ha Habs f Hf Hkf Hfree Hv Haway) as (t' & nd' & E & Hins).
      exists t', nd', n. split; [exact E|]. by destruct Hins; split.
  - right. split; [|done]. intros i Hi. unfold inN in Hi.
    change (freetop t0) with (freetop t) in *. change (hmask t0) with (hmask t) in *.
    destruct (decide (i < freetop t)); [apply Hf|apply Hused]; lia.
Qed.

(** ** Setting without a rehash *)

Lemma updated_nomm t t' k v m : updated (with_nomm t m) t' k v -> updated t t' k v.
Proof.
  intros (? & ? & ? & Hg). split_and!; [done..|]. intros k' Hk'. rewrite Hg by done.
  case_decide; [done|]. apply get_same; auto.
Qed.

(** The body of [set_loop] up to the rehash. *)
Lemma set_loop_array fuel t k v i : table_inv t -> key_ok k -> value_ok v ->
  array_index t k = Some i -> exists t', set_loop (S fuel) t k v = Some t' /\ updated t t' k v /\
  node t' = node t /\ freetop t' = freetop t.
Proof.
  intros Hi Hk Hv Ha. cbn [set_loop]. set (t0 := if is_string k then _ else _).
  assert (table_inv t0 /\ array_index t0 k = Some i /\ node t0 = node t /\ freetop t0 = freetop t /\
    (forall t', updated t0 t' k v -> updated t t' k v)) as (Hi0 & Ha0 & En & Ef & Hu).
  { unfold t0. destruct (is_string k); [|done].
    split_and!; [by apply table_inv_nomm|done..|by intros ?; apply updated_nomm]. }
  rewrite Ha0. destruct (set_array t0 k v i Hi0 Hk Hv Ha0) as (a & -> & Hup).
  eexists. split; [done|]. split; [by apply Hu|done].
Qed.

Lemma set_loop_found fuel t nd k v n : table_inv t -> hpart_inv t nd -> key_ok k -> value_ok v ->
  array_index t k = None -> inN (hmask t + 1) n -> key (nd n) = k ->
  exists t' nd', set_loop (S fuel) t k v = Some t' /\ updated t t' k v /\ hpart_inv t' nd' /\
    nkeys (hmask t + 1) nd' <= nkeys (hmask t + 1) nd.
Proof.
  intros Hi Hp Hk Hv Ha Hn Ek. cbn [set_loop]. set (t0 := if is_string k then _ else _).
  assert (table_inv t0 /\ hpart_inv t0 nd /\ array_index t0 k = None /\ hmask t0 = hmask t /\
    (forall t', updated t0 t' k v -> updated t t' k v)) as (Hi0 & Hp0 & Ha0 & Em & Hu).
  { unfold t0. destruct (is_string k); [|done].
    split_and!; [by apply table_inv_nomm|by destruct Hp|done..|by intros ?; apply updated_nomm]. }
  rewrite Ha0, (hp_has _ _ Hp0), hash_slot_ok by done.
  destruct (chain_find_slot _ _ Hp0 k Hk) as ([j|] & -> & Hj); rewrite Em in Hj.
  - destruct Hj as [Hj Ej].
    assert (j = n) as ->.
    { apply (hi_uniq _ _ _ _ (hp_hash _ _ Hp)); try done; [|congruence]. rewrite Ej. apply Hk. }
    destruct (set_found t0 nd k v n) as (ns & E & Hp' & Hup); try done; try apply Hi0;
      [by rewrite Em|].
    eexists _, _. split; [exact E|]. split; [by apply Hu|]. split; [exact Hp'|].
    apply nkeys_ext. intros i _. rewrite upd_case. by case_decide; subst.
  - by destruct (Hj n).
Qed.

Lemma inserted_updated t t' nd nd' k v s : table_inv t -> hpart_inv t nd -> key_ok k -> value_ok v ->
  array_index t k = None -> inserted t t' nd nd' k s ->
  exists t'' nd'', node_slot_mut t' s (set_val v) = Some t'' /\ updated t t'' k v /\
    hpart_inv t'' nd'' /\ nkeys (hmask t + 1) nd'' <= nkeys (hmask t + 1) nd + 1.
Proof.
  intros Hi Hp Hk Hv Ha [Ea Es Em Hp' Hs Ek Hh Hn].
  assert (table_inv t') as Hi'.
  { apply (table_inv_hpart t' nd'); [|rewrite Ea; apply Hi|done]. rewrite Ea, Es. apply Hi. }
  destruct (set_found t' nd' k v s) as (ns & E & Hp'' & Hi'' & Es'' & Em'' & Hg); try done;
    try apply Hi'; [by rewrite (array_index_asize t)|by rewrite Em|].
  eexists _, _. split; [exact E|]. split; [|split; [exact Hp''|]].
  - split_and!; [done|congruence..|]. intros k' Hk'. rewrite Hg by done. case_decide; [done|].
    destruct (array_index t k') as [i|] eqn:Ei.
    + unfold get. rewrite (array_index_asize t), Ei by done. by rewrite Ea.
    + symmetry. apply (get_hash_ext _ _ _ _ _ Hp Hp'); [done..| |].
      * by rewrite (array_index_asize t).
      * intros w Hw. apply Hh; [done|apply Hk'|done].
  - etransitivity; [|exact Hn]. apply nkeys_ext. intros i _. rewrite upd_case. by case_decide; subst.
Qed.

(** A set that finds room, or needs none, does not rehash. *)
Lemma set_loop_room fuel t nd k v : table_inv t -> hpart_inv t nd -> key_ok k -> value_ok v ->
  (array_index t k = None -> nkeys (hmask t + 1) nd < hmask t + 1) ->
  exists t' nd', set_loop (S fuel) t k v = Some t' /\ updated t t' k v /\ hpart_inv t' nd' /\
    nkeys (hmask t + 1) nd' <=
      nkeys (hmask t + 1) nd + (if array_index t k is Some _ then 0 else 1).
Proof.
  intros Hi Hp Hk Hv Hroom. destruct (array_index t k) as [i|] eqn:Ha.
  { destruct (set_loop_array fuel t k v i Hi Hk Hv Ha) as (t' & E & Hup & En & Ef).
    exists t', nd. split_and!; [done..| |lia]. destruct Hup as (Hi' & Es & Em & _).
    destruct Hp as [? ? ? Hr]. split; rewrite ?Em, ?En, ?Ef; try done.
    intros j. rewrite (array_index_asize t) by done. apply Hr. }
  destruct (chain_find_slot _ _ Hp k Hk) as ([j|] & Ec & Hj).
  { destruct Hj as [Hj Ej]. destruct (set_loop_found fuel t nd k v j) as (t' & nd' & ? & ? & ? & ?);
      try done. exists t', nd'. split_and!; [done..|lia]. }
  specialize (Hroom eq_refl). cbn [set_loop]. set (t0 := if is_string k then _ else _).
  assert (table_inv t0 /\ hpart_inv t0 nd /\ array_index t0 k = None /\ hmask t0 = hmask t /\
    node t0 = node t /\ (forall t', updated t0 t' k v -> updated t t' k v))
    as (Hi0 & Hp0 & Ha0 & Em & En & Hu).
  { unfold t0. destruct (is_string k); [|done].
    split_and!; [by apply table_inv_nomm|by destruct Hp|done..|by intros ?; apply updated_nomm]. }
  rewrite Ha0, (hp_has _ _ Hp0), hash_slot_ok by done.
  assert (chain_find (chain_fuel t0) t0 (slot (hmask t0) k) k = Some None) as ->.
  { rewrite (chain_find_same t) by done. unfold chain_fuel. by rewrite En, Em. }
  destruct (try_new_key_spec t0 nd k (rehash (set_loop fuel)) Hp0 Hk Ha0)
    as [(t' & nd' & s & -> & Hins)|[Hfull _]].
  - by rewrite Em.
  - destruct (inserted_updated t0 t' nd nd' k v s) as (t'' & nd'' & -> & Hup & Hp'' & Hn); try done.
    exists t'', nd''. rewrite Em in Hn. split_and!; [done|by apply Hu|done..].
  - rewrite Em in Hfull. destruct (nkeys_room (hmask t + 1) nd Hroom) as (i & Hi1 & Ei).
    + pose proof (hp_bounds _ _ Hp). lia.
    + by destruct (Hfull i).
Qed.

End TableSet.
