(* ===== verification/TableResize.v ===== *)
(** * Resizing

    [resize] to sizes that fit keeps every lookup: the live entries of the
    old table are reinserted into a fresh one without a further rehash. *)

From Stdlib Require Import ZArith Lia Bool.
From stdpp Require Import base decidable numbers option functions list.
From S2P Require Import Prelude Float64 Value Table TableHash TableInv TableSet.

Section Resize.
Context `{StrHeap}.

(** ** Room *)

(** Hash nodes that setting [k] may use. *)
Definition need (t : LuaTable) (k : LuaValue) : Z :=
  if array_index t k is Some _ then 0 else 1.

Fixpoint needs (t : LuaTable) (kvs : list (LuaValue * LuaValue)) : Z :=
  match kvs with [] => 0 | (k, _) :: kvs => need t k + needs t kvs end.

(** There is room for [n] more keys in the hash part. *)
Definition hroom (t : LuaTable) (n : Z) : Prop :=
  (hmask t = 0 /\ n <= 0) \/
  exists nd, hpart_inv t nd /\ nkeys (hmask t + 1) nd + n <= hmask t + 1.

Lemma need_asize t t' k : asize t' = asize t -> need t' k = need t k.
Proof. unfold need. intros E. by rewrite (array_index_asize t). Qed.

Lemma need_range t k : 0 <= need t k <= 1.
Proof. unfold need. destruct (array_index t k); lia. Qed.

Lemma needs_asize t t' kvs : asize t' = asize t -> needs t' kvs = needs t kvs.
Proof.
  intros E. induction kvs as [|[k v] kvs IH]; [done|]. cbn. by rewrite IH, (need_asize t).
Qed.

Lemma needs_nonneg t kvs : 0 <= needs t kvs.
Proof. induction kvs as [|[k v] kvs IH]; cbn; [lia|]. pose proof (need_range t k). lia. Qed.

Lemma needs_app t l k : needs t (l ++ k) = needs t l + needs t k.
Proof. induction l as [|[? ?] l IH]; cbn [needs app]; [lia|]. rewrite IH. lia. Qed.

Lemma set_loop_hroom fuel t k v n : table_inv t -> hroom t n -> need t k <= n ->
  key_ok k -> value_ok v ->
  exists t', set_loop (S fuel) t k v = Some t' /\ updated t t' k v /\ hroom t' (n - need t k).
Proof.
  intros Hi Hr Hn Hk Hv. unfold need in *. destruct Hr as [[Em Hn0]|(nd & Hp & Hnd)].
  - destruct (array_index t k) as [i|] eqn:Ha; [|lia].
    destruct (set_loop_array fuel t k v i Hi Hk Hv Ha) as (t' & ? & Hup & _).
    exists t'. split_and!; [done..|]. left. destruct Hup as (_ & _ & -> & _). lia.
  - destruct (set_loop_room fuel t nd k v Hi Hp Hk Hv) as (t' & nd' & ? & Hup & ? & Hle).
    + intros Ha. rewrite Ha in Hn. lia.
    + exists t'. split_and!; [done..|]. right. exists nd'. split; [done|].
      destruct Hup as (_ & _ & -> & _). destruct (array_index t k); lia.
Qed.

Definition entry_ok (kv : LuaValue * LuaValue) : Prop := key_ok kv.1 /\ value_ok kv.2.

Lemma set_all_spec fuel kvs t n : table_inv t -> hroom t n -> needs t kvs <= n ->
  Forall entry_ok kvs -> NoDup kvs.*1 ->
  exists t', set_all (set_loop (S fuel)) t kvs = Some t' /\ table_inv t' /\
    asize t' = asize t /\ hmask t' = hmask t /\ hroom t' (n - needs t kvs) /\
    (forall k v, (k, v) ∈ kvs -> get t' k = Some v) /\
    (forall k, key_ok k -> k ∉ kvs.*1 -> get t' k = get t k).
Proof.
  revert t n. induction kvs as [|[k v] kvs IH]; intros t n Hi Hr Hn Hok Hnd; cbn [needs] in *.
  - exists t. replace (n - 0) with n by lia. split_and!; try done. intros k v Hkv. by apply elem_of_nil in Hkv.
  - apply Forall_cons in Hok as [[Hk Hv] Hok]. apply NoDup_cons in Hnd as [Hni Hnd].
    cbn [fst snd set_all] in *. pose proof (needs_nonneg t kvs).
    destruct (set_loop_hroom fuel t k v n) as (t1 & -> & (Hi1 & Es & Em & Hg) & Hr1); try done; [lia|].
    destruct (IH t1 (n - need t k)) as (t' & -> & Hi' & Es' & Em' & Hr' & Hin & Hout); try done.
    { rewrite (needs_asize t) by done. lia. }
    exists t'. rewrite (needs_asize t) in Hr' by done.
    split_and!; [done|done|congruence|congruence| | |].
    + replace (n - (need t k + needs t kvs)) with (n - need t k - needs t kvs) by lia. done.
    + intros k' v' [[= -> ->]|Hin']%elem_of_cons; [|auto].
      rewrite Hout, Hg by done. by rewrite decide_True.
    + intros k' Hk' [Hne Hni']%not_elem_of_cons. rewrite Hout, Hg by done. by rewrite decide_False.
Qed.

Lemma set_all_app set t l k :
  set_all set t (l ++ k) = let? t := set_all set t l in set_all set t k.
Proof.
  revert t. induction l as [|[k' v'] l IH]; intros t; [done|]. cbn [set_all app].
  destruct (set t k' v'); [apply IH|done].
Qed.

(** ** The entries to reinsert *)

Lemma dropped_spec a lo hi : Forall value_ok a -> 0 <= lo -> hi <= zlen a -> hi <= LJ_MAX_ASIZE ->
  exists D, dropped a (zrange lo hi) = Some D /\ Forall entry_ok D /\ NoDup D.*1 /\
    forall k v, (k, v) ∈ D <->
      exists i, lo <= i < hi /\ znth a i = Some v /\ v <> NIL /\ k = f64_of_int i.
Proof.
  intros Hf Hlo Hhi Hmax. rewrite LJ_MAX_ASIZE_val in Hmax.
  assert (forall ixs, (forall i, i ∈ ixs -> lo <= i < hi) -> NoDup ixs ->
    exists D, dropped a ixs = Some D /\ Forall entry_ok D /\ NoDup D.*1 /\
    forall k v, (k, v) ∈ D <->
      exists i, i ∈ ixs /\ znth a i = Some v /\ v <> NIL /\ k = f64_of_int i) as Hgen.
  { induction ixs as [|i ixs IH]; intros Hix Hnd; cbn [dropped].
    - exists []. split; [done|]. split; [done|]. split; [constructor|]. intros k v. rewrite elem_of_nil. split; [done|].
      intros (i & Hi & _). by apply elem_of_nil in Hi.
    - apply NoDup_cons in Hnd as [Hni Hnd].
      destruct IH as (D & -> & Hok & Hnd' & Hin); [intros; apply Hix; by right|done|].
      destruct (Hix i ltac:(left)) as [? ?].
      destruct (znth_lt_Some a i) as [v Ev]; [lia|]. rewrite Ev.
      pose proof (Forall_znth _ _ _ _ Hf Ev) as Hv.
      pose proof (key_ok_of_int i ltac:(unfold srange; lia)) as Hki.
      destruct (f64_of_int_number i ltac:(unfold srange; lia)) as [_ Enum]. rewrite Enum in Hki |- *.
      destruct (is_nil v) eqn:Env; cbn [negb]; eexists; (split; [done|]).
      + apply is_nil_NIL in Env as ->; [|done]. split_and!; [done..|]. intros k' v'. rewrite Hin.
        split; intros (j & Hj & E & ? & ?); exists j; (split_and!; try done); [by right|].
        apply elem_of_cons in Hj as [->|]; [congruence|done].
      + assert (v <> NIL) by (intros ->; done). split_and!.
        * by constructor.
        * cbn. constructor; [|done]. intros [[k' v'] [E' Hin']]%list_elem_of_fmap. cbn in E'.
          apply Hin in Hin' as (j & Hj & _ & _ & Ek). rewrite Ek in E'.
          apply f64_of_int_inj in E' as ->; [done|unfold srange; lia|].
          destruct (Hix j ltac:(by right)). unfold srange; lia.
        * intros k' v'. rewrite elem_of_cons, Hin. split.
          -- intros [[= -> ->]|(j & Hj & ?)]; [exists i; split; [left|done]|].
             exists j. split; [by right|done].
          -- intros (j & [->|Hj]%elem_of_cons & E & ? & ->); [left; rewrite Ev in E; by injection E as ->|right].
             by exists j. }
  destruct (Hgen (zrange lo hi)) as (D & ? & ? & ? & Hin).
  - intros i. apply elem_of_zrange.
  - apply NoDup_zrange.
  - exists D. split_and!; [done..|]. intros k v. rewrite Hin. by setoid_rewrite elem_of_zrange.
Qed.

Lemma NoDup_fmap_filter {A B} (f : A -> B) (P : A -> Prop) `{forall x, Decision (P x)} (l : list A) :
  (forall i j x y, l !! i = Some x -> l !! j = Some y -> P x -> f x = f y -> i = j) ->
  NoDup (f <$> filter P l).
Proof.
  induction l as [|a l IH]; intros Hu; [constructor|].
  assert (NoDup (f <$> filter P l)) as Hl.
  { apply IH. intros i j x y Hi Hj Px E. specialize (Hu (S i) (S j) x y Hi Hj Px E). congruence. }
  rewrite filter_cons. case_decide as Ha; [|done]. cbn. constructor; [|done].
  intros (y & E & [_ Hy]%list_elem_of_filter)%list_elem_of_fmap.
  apply list_elem_of_lookup in Hy as [j Hj].
  specialize (Hu 0%nat (S j) a y eq_refl Hj Ha E). done.
Qed.

Lemma live_nodes_spec t nd : hpart_inv t nd ->
  Forall entry_ok (live_nodes (node t)) /\ NoDup (live_nodes (node t)).*1 /\
  forall k v, (k, v) ∈ live_nodes (node t) <-> holds t nd k v /\ v <> NIL.
Proof.
  intros Hp. destruct (hp_repr _ _ Hp) as [El En].
  assert (forall x, x ∈ node t -> exists i, inN (hmask t + 1) i /\ x = nd i) as Hel.
  { intros x [i Hx]%list_elem_of_lookup. exists (Z.of_nat i).
    pose proof (lookup_lt_Some _ _ _ Hx) as Hlt.
    assert (inN (hmask t + 1) (Z.of_nat i)) as Hi by (unfold inN; rewrite <- El; unfold zlen; lia).
    split; [done|]. specialize (En _ Hi). unfold znth in En.
    destruct (Z.ltb_spec (Z.of_nat i) 0); [lia|]. rewrite Nat2Z.id in En. congruence. }
  assert (forall i, inN (hmask t + 1) i -> nd i ∈ node t) as Hel'.
  { intros i Hi. specialize (En i Hi). unfold znth in En. destruct (i <? 0); [done|].
    by eapply list_elem_of_lookup_2. }
  assert (forall k v, (k, v) ∈ live_nodes (node t) <-> holds t nd k v /\ v <> NIL) as Hin.
  { intros k v. unfold live_nodes. rewrite list_elem_of_fmap. split.
    - intros (x & [= -> ->] & [Hx Hxn]%list_elem_of_filter).
      destruct (Hel x Hxn) as (i & Hi & ->). split; [by exists i|]. intros E. by rewrite E in Hx.
    - intros [(i & Hi & <- & <-) Hv]. exists (nd i). split; [done|].
      apply list_elem_of_filter. split; [|auto].
      apply is_nil_false; [by apply (hi_val _ _ _ _ (hp_hash _ _ Hp))|done]. }
  split; [|split; [|done]].
  - apply Forall_forall. intros [k v] Hkv. apply Hin in Hkv as [(i & Hi & <- & <-) Hv].
    split; cbn [fst snd]; [|by apply (hi_val _ _ _ _ (hp_hash _ _ Hp))].
    destruct (hi_key _ _ _ _ (hp_hash _ _ Hp) i Hi) as [E|]; [|done].
    by destruct (hi_nil _ _ _ _ (hp_hash _ _ Hp) i Hi E).
  - unfold live_nodes. rewrite <- list_fmap_compose.
    apply NoDup_fmap_filter. intros i j x y Hx Hy Px E. cbn in E.
    assert (forall i x, node t !! i = Some x -> inN (hmask t + 1) (Z.of_nat i) /\ x = nd (Z.of_nat i))
      as Hat.
    { intros i' x' Hx'. pose proof (lookup_lt_Some _ _ _ Hx') as Hlt.
      assert (inN (hmask t + 1) (Z.of_nat i')) as Hi by (unfold inN; rewrite <- El; unfold zlen; lia).
      split; [done|]. specialize (En _ Hi). unfold znth in En.
      destruct (Z.ltb_spec (Z.of_nat i') 0); [lia|]. rewrite Nat2Z.id in En. congruence. }
    destruct (Hat i x Hx) as [Hi ->]. destruct (Hat j y Hy) as [Hj ->].
    apply Nat2Z.inj, (hi_uniq _ _ _ _ (hp_hash _ _ Hp)); try done. intros E0.
    destruct (hi_nil _ _ _ _ (hp_hash _ _ Hp) _ Hi E0) as [E1 _]. by rewrite E1 in Px.
Qed.

(** The live entries of the hash part. *)
Definition hash_entries (t : LuaTable) : list (LuaValue * LuaValue) :=
  if 0 <? hmask t then live_nodes (node t) else [].

Lemma hash_entries_spec t : table_inv t ->
  Forall entry_ok (hash_entries t) /\ NoDup (hash_entries t).*1 /\ forall k v, key_ok k ->
    (k, v) ∈ hash_entries t <-> v <> NIL /\ array_index t k = None /\ get t k = Some v.
Proof.
  intros Hi. unfold hash_entries. destruct (ti_hash _ Hi) as [Em|[nd Hp]].
  - rewrite Em. cbn. split_and!; [done|constructor|]. intros k v Hk. rewrite elem_of_nil.
    split; [done|]. intros (Hv & Ha & Eg). rewrite get_no_hpart in Eg by done. congruence.
  - pose proof (hp_bounds _ _ Hp). destruct (Z.ltb_spec 0 (hmask t)); [|lia].
    destruct (live_nodes_spec t nd Hp) as (? & ? & Hin). split_and!; [done..|].
    intros k v Hk. rewrite Hin. split.
    + intros [Hh Hv]. assert (array_index t k = None) as Ha.
      { destruct Hh as (i & Hi1 & Ek & _). rewrite <- Ek. apply Hp; [done|]. rewrite Ek. apply Hk. }
      destruct (get_hash t nd Hp k Hk Ha) as (w & -> & _ & Hw). split_and!; [done..|].
      f_equal. by apply Hw.
    + intros (Hv & Ha & Eg). destruct (get_hash t nd Hp k Hk Ha) as (w & Ew & _ & Hw).
      split; [|done]. apply Hw; [done|]. congruence.
Qed.

(** ** The table the entries go into *)

Record fresh (t t0 : LuaTable) (na hb : Z) : Prop := {
  fr_asize : asize t0 = na;
  fr_len : zlen (array t0) = na;
  fr_array : forall i, 0 <= i < na ->
    znth (array t0) i = if i <? asize t then znth (array t) i else Some NIL;
  fr_hash : (hb = 0 /\ hmask t0 = 0) \/
    (hb <> 0 /\ hmask t0 + 1 = 2 ^ hb /\ hpart_inv t0 (fun _ => EMPTY));
}.

Definition grow_array (t : LuaTable) (na : Z) : LuaTable :=
  if asize t <? na
  then with_asize (with_array t (array t ++ replicate (Z.to_nat (na - asize t)) NIL)) na
  else t.

Lemma grow_array_spec t na : zlen (array t) = asize t ->
  asize (grow_array t na) = Z.max (asize t) na /\ zlen (array (grow_array t na)) = Z.max (asize t) na /\
  (forall i, 0 <= i < Z.max (asize t) na ->
    znth (array (grow_array t na)) i = if i <? asize t then znth (array t) i else Some NIL).
Proof.
  intros El. unfold grow_array. destruct (Z.ltb_spec (asize t) na); cbn [asize array with_asize with_array].
  - pose proof (zlen_nonneg (array t)). split; [lia|]. split.
    + unfold zlen in *. rewrite length_app, length_replicate. lia.
    + intros i Hi. rewrite znth_app, El. destruct (Z.ltb_spec i (asize t)); [done|].
      apply znth_replicate. lia.
  - split_and!; [lia..|]. intros i Hi. destruct (Z.ltb_spec i (asize t)); [done|lia].
Qed.

Lemma new_hpart_spec t hb : 1 <= hb <= LJ_MAX_HBITS -> exists t', new_hpart t hb = Some t' /\
  array t' = array t /\ asize t' = asize t /\ hmask t' + 1 = 2 ^ hb /\
  hpart_inv t' (fun _ => EMPTY).
Proof.
  intros Hb. unfold new_hpart. destruct (Z.leb_spec hb LJ_MAX_HBITS); [|lia].
  eexists. split; [done|]. rewrite Z.shiftl_1_l. cbn.
  assert (0 < 2 ^ hb) by (apply Z.pow_pos_nonneg; lia). split_and!; [done..|lia|].
  split; cbn [hmask node freetop with_freetop with_hmask with_node];
    replace (2 ^ hb - 1 + 1) with (2 ^ hb) by lia.
  - by exists hb.
  - split; [apply zlen_replicate; lia|]. intros i Hi. by apply znth_replicate.
  - apply hash_inv_empty; [|lia]. unfold LJ_MAX_HBITS in *.
    assert (2 ^ hb <= 2 ^ 26) by (apply Z.pow_le_mono_r; lia). unfold NIL_NODE. lia.
  - intros i _ Hi. by destruct Hi.
Qed.

(** A table and the entries that resizing it to [na], [hb] reinserts. *)
Definition entries (t : LuaTable) (na : Z) (E : list (LuaValue * LuaValue)) : Prop :=
  Forall entry_ok E /\ NoDup E.*1 /\
  forall k v, (k, v) ∈ E <-> v <> NIL /\ key_ok k /\ get t k = Some v /\
    (array_index t k = None \/ exists i, array_index t k = Some i /\ na <= i).

Lemma entries_app t na D L : table_inv t -> Forall entry_ok D -> Forall entry_ok L ->
  NoDup D.*1 -> NoDup L.*1 ->
  (forall k v, (k, v) ∈ D <->
     exists i, na <= i < asize t /\ 0 <= i /\ znth (array t) i = Some v /\ v <> NIL /\ k = f64_of_int i) ->
  (forall k v, key_ok k -> (k, v) ∈ L <-> v <> NIL /\ array_index t k = None /\ get t k = Some v) ->
  entries t na (D ++ L).
Proof.
  intros Hi HD HL HnD HnL ED EL. destruct (ti_asize _ Hi) as [El Emax].
  assert (forall k v, (k, v) ∈ D -> key_ok k) as HkD.
  { intros k v Hkv. rewrite Forall_forall in HD. by destruct (HD _ Hkv). }
  assert (forall k v, (k, v) ∈ L -> key_ok k) as HkL.
  { intros k v Hkv. rewrite Forall_forall in HL. by destruct (HL _ Hkv). }
  assert (forall k v i, key_ok k -> array_index t k = Some i -> get t k = Some v ->
    znth (array t) i = Some v) as Hget.
  { intros k v i Hk Ea Eg. destruct (get_array t k i Hi Hk Ea) as (w & Ew & ? & _). congruence. }
  split; [by apply Forall_app|]. split.
  - rewrite fmap_app. apply NoDup_app. split_and!; [done| |done].
    intros k ((k1 & v1) & -> & H1)%list_elem_of_fmap ((k2 & v2) & E & H2)%list_elem_of_fmap.
    cbn in E. subst k2. cbn in H2. pose proof (HkL _ _ H2) as Hk.
    apply EL in H2 as (_ & Ha & _); [|done]. apply ED in H1 as (i & ? & ? & _ & _ & Ek).
    assert (array_index t k1 = Some i) by (apply array_index_spec; [done|]; split_and!; (lia || done)).
    congruence.
  - intros k v. rewrite elem_of_app. split.
    + intros [Hin|Hin].
      * pose proof (HkD _ _ Hin) as Hk. apply ED in Hin as (i & ? & ? & Ev & ? & Ek).
        assert (array_index t k = Some i) as Ea by (apply array_index_spec; [done|]; split_and!; (lia || done)).
        split_and!; [done..| |right; exists i; split; [done|lia]].
        destruct (get_array t k i Hi Hk Ea) as (w & Ew & Ew' & _). congruence.
      * pose proof (HkL _ _ Hin) as Hk. apply EL in Hin as (? & ? & ?); [|done]. split_and!; auto.
    + intros (Hv & Hk & Eg & Ha). destruct (array_index t k) as [i|] eqn:Ea.
      * left. destruct Ha as [|(i' & [= <-] & Hni)]; [done|].
        pose proof Ea as (? & ? & ->)%array_index_spec; [|done]. apply ED. exists i.
        split_and!; try done; [lia|]. by apply (Hget (f64_of_int i)).
      * right. by apply EL.
Qed.

(** [resize] is the reinsertion of those entries. *)
Lemma resize_unfold set t na hb : table_inv t -> 0 <= na <= LJ_MAX_ASIZE ->
  0 <= hb <= LJ_MAX_HBITS ->
  exists t0 E, resize set t na hb = set_all set t0 E /\ fresh t t0 na hb /\ entries t na E.
Proof.
  intros Hi Hna Hhb. destruct (ti_asize _ Hi) as [El Emax]. unfold resize. cbv zeta.
  destruct (Z.leb_spec na LJ_MAX_ASIZE); [|lia].
  change (if asize t <? na then _ else _) with (grow_array (with_node t []) na).
  destruct (grow_array_spec (with_node t []) na El) as (Es1 & El1 & Ea1).
  cbn [asize array with_node] in Es1, El1, Ea1.
  set (t1 := grow_array (with_node t []) na) in *.
  assert (hmask t1 = hmask t) as Em1 by (unfold t1, grow_array; by destruct (_ <? _)).
  assert (exists t2, (if negb (hb =? 0) then new_hpart t1 hb
      else if negb (hmask t =? 0) then Some (with_freetop (with_hmask t1 0) 0) else Some t1) = Some t2 /\
    array t2 = array t1 /\ asize t2 = asize t1 /\
    ((hb = 0 /\ hmask t2 = 0) \/ (hb <> 0 /\ hmask t2 + 1 = 2 ^ hb /\ hpart_inv t2 (fun _ => EMPTY))))
    as (t2 & -> & Ea2 & Es2 & Hh2).
  { destruct (Z.eqb_spec hb 0) as [->|Hb]; cbn [negb].
    - destruct (Z.eqb_spec (hmask t) 0); cbn [negb]; eexists; (split; [done|]);
        (split; [done|]); (split; [done|]); left; (split; [done|]); [congruence|done].
    - destruct (new_hpart_spec t1 hb) as (t2 & ? & ? & ? & ? & ?); [lia|]. exists t2.
      split_and!; auto. }
  destruct (hash_entries_spec t Hi) as (HL & HnL & EL). set (L := hash_entries t) in *.
  destruct (Z.ltb_spec na (asize t)) as [Hlt|Hge].
  - change (array (with_asize t2 na)) with (array t2).
    destruct (dropped_spec (array t2) na (asize t)) as (D & -> & HD & HnD & ED).
    { rewrite Ea2. unfold t1, grow_array. cbn [asize with_node].
      destruct (Z.ltb_spec (asize t) na); [lia|]. apply Hi. }
    { lia. } { rewrite Ea2, El1. lia. } { done. }
    exists (with_array (with_asize t2 na) (take (Z.to_nat na) (array t2))), (D ++ L). split.
    { unfold L, hash_entries. destruct (0 <? hmask t); [by rewrite set_all_app|].
      rewrite app_nil_r. by destruct (set_all _ _ _). }
    split.
    + split; cbn [asize array hmask with_array with_asize].
      * done.
      * rewrite zlen_take; [done|]. rewrite Ea2, El1. lia.
      * intros i Hi'. rewrite znth_take by lia. destruct (Z.ltb_spec i na); [|lia].
        rewrite Ea2, Ea1 by lia. done.
      * destruct Hh2 as [?|(? & ? & [])]; [by left|right]. split_and!; [done..|]. by split.
    + apply entries_app; try done. intros k v. rewrite ED.
      assert (forall i, na <= i < asize t -> znth (array t2) i = znth (array t) i) as Ez.
      { intros i Hi'. rewrite Ea2, Ea1 by lia. by destruct (Z.ltb_spec i (asize t)); [|lia]. }
      split; intros (i & Hi' & Hx); exists i; rewrite Ez in * by lia; intuition lia.
  - exists t2, L. split; [unfold L, hash_entries; by destruct (0 <? hmask t)|]. split.
    + split; [lia|rewrite Ea2; lia| |done]. intros i Hi'. rewrite Ea2. apply Ea1. lia.
    + apply (entries_app t na [] L); try done; [constructor|]. intros k v. rewrite elem_of_nil.
      split; [done|]. intros (i & ? & _). lia.
Qed.

(** Looking up in the fresh table: what stays in the array part. *)
Lemma fresh_get t t0 na hb E k : table_inv t -> fresh t t0 na hb -> entries t na E ->
  key_ok k -> k ∉ E.*1 -> get t0 k = get t k.
Proof.
  intros Hi [Es El Ea Hh] (HE & _ & Hin) Hk Hni.
  destruct (get_total t k Hi Hk) as (v & Eg & Hv). rewrite Eg.
  assert (array_index t k = None \/ (exists i, array_index t k = Some i /\ na <= i) -> v = NIL) as Hnil.
  { intros Hor. destruct (decide (v = NIL)); [done|]. exfalso. apply Hni.
    apply list_elem_of_fmap. exists (k, v). split; [done|]. by apply Hin. }
  destruct (array_index t0 k) as [i|] eqn:Ea0.
  - unfold get. rewrite Ea0. pose proof Ea0 as (? & ? & Ek)%array_index_spec; [|done].
    rewrite Ea by lia. destruct (Z.ltb_spec i (asize t)).
    + assert (array_index t k = Some i) as Ea1 by (apply array_index_spec; [done|]; split_and!; (lia || done)).
      destruct (get_array t k i Hi Hk Ea1) as (w & Ew & -> & _). congruence.
    + f_equal. symmetry. apply Hnil. destruct (array_index t k) as [j|] eqn:Ej; [right|by left].
      apply array_index_spec in Ej as (? & ? & Ej); [|done].
      assert (i = j) as ->.
      { apply f64_of_int_inj; [..|congruence]; rewrite LJ_MAX_ASIZE_val in *; unfold srange; lia. }
      lia.
  - assert (v = NIL) as ->.
    { apply Hnil. destruct (array_index t k) as [j|] eqn:Ej; [right|by left]. exists j. split; [done|].
      apply array_index_spec in Ej as (? & ? & Ej); [|done].
      destruct (Z.le_gt_cases na j); [done|]. exfalso.
      assert (array_index t0 k = Some j) by (apply array_index_spec; [done|]; split_and!; (lia || done)).
      congruence. }
    destruct Hh as [[_ Em]|(_ & _ & Hp)]; [by apply get_no_hpart|].
    destruct (get_hash t0 _ Hp k Hk Ea0) as (w & -> & Hw & Hh). f_equal.
    destruct (decide (w = NIL)) as [|Hn]; [done|].
    destruct (proj1 (Hh w Hn) eq_refl) as (i & _ & Ek & _). cbn in Ek. subst k.
    by destruct Hk as (_ & [] & _).
Qed.

Lemma fresh_inv t t0 na hb : table_inv t -> 0 <= na <= LJ_MAX_ASIZE -> fresh t t0 na hb -> table_inv t0.
Proof.
  intros Hi Hna [Es El Ea Hh]. split.
  - split; [congruence|lia].
  - apply Forall_lookup_2. intros i x Hx. pose proof (lookup_lt_Some _ _ _ Hx).
    assert (znth (array t0) (Z.of_nat i) = Some x) as E.
    { unfold znth. destruct (Z.ltb_spec (Z.of_nat i) 0); [lia|]. by rewrite Nat2Z.id. }
    rewrite Ea in E by (unfold zlen in El; lia). destruct (Z.of_nat i <? asize t).
    + by apply (Forall_znth _ _ _ _ (ti_vals _ Hi) E).
    + injection E as <-. apply value_ok_prim.
  - destruct Hh as [[_ ?]|(_ & _ & ?)]; [by left|right; eauto].
Qed.

Definition capacity (hb : Z) : Z := if hb =? 0 then 0 else 2 ^ hb.

Lemma fresh_hroom t t0 na hb : fresh t t0 na hb -> hroom t0 (capacity hb).
Proof.
  intros [_ _ _ [[-> Em]|(Hb & Em & Hp)]]; [by left|]. unfold capacity.
  destruct (Z.eqb_spec hb 0); [done|]. right. exists (fun _ => EMPTY). split; [done|].
  rewrite nkeys_empty. lia.
Qed.

(** A resize to sizes that fit never fails and keeps every lookup. *)
Lemma resize_spec fuel t na hb : table_inv t -> 0 <= na <= LJ_MAX_ASIZE -> 0 <= hb <= LJ_MAX_HBITS ->
  (forall t0 E, fresh t t0 na hb -> entries t na E -> needs t0 E <= capacity hb) ->
  exists t' E, resize (set_loop (S fuel)) t na hb = Some t' /\ table_inv t' /\ asize t' = na /\
    entries t na E /\ hroom t' (capacity hb - needs t' E) /\
    (forall k, key_ok k -> get t' k = get t k).
Proof.
  intros Hi Hna Hhb Hfit.
  destruct (resize_unfold (set_loop (S fuel)) t na hb Hi Hna Hhb) as (t0 & E & -> & Hf & HE).
  destruct (set_all_spec fuel E t0 (capacity hb)) as (t' & -> & Hi' & Es & Em & Hr & Hin & Hout);
    [by apply (fresh_inv t _ na hb)|by apply (fresh_hroom t _ na)|by apply Hfit|apply HE|apply HE|].
  exists t', E. split_and!; try done.
  - rewrite Es. apply Hf.
  - by rewrite (needs_asize t0).
  - intros k Hk. destruct (decide (k ∈ E.*1)) as [Hk'|Hk'].
    + apply list_elem_of_fmap in Hk' as ((k1 & v) & -> & Hkv). cbn.
      rewrite (Hin _ _ Hkv). symmetry. by apply HE.
    + rewrite Hout by done. by apply (fresh_get t t0 na hb E).
Qed.

End Resize.
