(* ===== verification/TableRehash.v ===== *)
(** * Rehashing

    The sizes [rehash] computes from its histogram of integer keys fit: the
    array part stays within bounds and the hash part has a node for every
    entry that the new array part does not take, the extra key included. *)

From Stdlib Require Import ZArith Lia Bool.
From stdpp Require Import base decidable numbers option functions list.
From S2P Require Import Prelude Float64 Value Table TableHash TableInv TableSet TableResize.

(** ** Counting *)

Definition zcount {A} (P : A -> Prop) `{forall x, Decision (P x)} (l : list A) : Z := zlen (filter P l).

Lemma zcount_app {A} (P : A -> Prop) `{forall x, Decision (P x)} l k :
  zcount P (l ++ k) = zcount P l + zcount P k.
Proof. unfold zcount, zlen. rewrite filter_app, length_app. lia. Qed.

Lemma zcount_nonneg {A} (P : A -> Prop) `{forall x, Decision (P x)} l : 0 <= zcount P l.
Proof. apply zlen_nonneg. Qed.

Lemma zcount_ext {A} (P Q : A -> Prop) `{forall x, Decision (P x)} `{forall x, Decision (Q x)} l :
  (forall x, x ∈ l -> P x <-> Q x) -> zcount P l = zcount Q l.
Proof.
  unfold zcount, zlen. intros E. f_equal. f_equal.
  induction l as [|x l IH]; [done|]. rewrite !filter_cons.
  specialize (IH ltac:(intros; apply E; by right)). rewrite IH.
  pose proof (E x ltac:(left)). repeat case_decide; tauto.
Qed.

Lemma zcount_compl {A} (P : A -> Prop) `{forall x, Decision (P x)} l :
  zcount P l + zcount (fun x => ~ P x) l = zlen l.
Proof.
  induction l as [|x l IH]; [done|]. unfold zcount, zlen in *. rewrite !filter_cons.
  repeat case_decide; cbn [length]; try tauto; lia.
Qed.

Lemma zcount_all {A} (P : A -> Prop) `{forall x, Decision (P x)} l :
  (forall x, x ∈ l -> P x) -> zcount P l = zlen l.
Proof.
  intros Hall. unfold zcount. rewrite filter_Forall_id; [done|]. by apply Forall_forall.
Qed.

Lemma zcount_omap {A B} (f : A -> option B) (p : B -> bool) l :
  zcount (fun i => p i = true) (omap f l) =
  zcount (fun x => match f x with Some i => p i | None => false end = true) l.
Proof.
  unfold zcount, zlen. induction l as [|x l IH]; [done|]. rewrite filter_cons. cbn.
  destruct (f x) as [i|]; [|done]. rewrite filter_cons.
  destruct (decide (p i = true)); cbn [length]; lia.
Qed.

Lemma zlen_filter_le {A} (P : A -> Prop) `{forall x, Decision (P x)} l : zlen (filter P l) <= zlen l.
Proof. unfold zlen. pose proof (length_filter P l). lia. Qed.

Lemma zlen_omap_le {A B} (f : A -> option B) l : zlen (omap f l) <= zlen l.
Proof.
  unfold zlen. induction l as [|x l IH]; [done|]. cbn. destruct (f x); cbn [length]; lia.
Qed.

Lemma zrange_split lo mid hi : lo <= mid <= hi -> zrange lo hi = zrange lo mid ++ zrange mid hi.
Proof.
  intros. unfold zrange.
  replace (Z.to_nat (hi - lo)) with (Z.to_nat (mid - lo) + Z.to_nat (hi - mid))%nat by lia.
  rewrite seq_app, fmap_app. f_equal. cbn.
  replace (seq (Z.to_nat (mid - lo)) _) with
    ((fun i => (Z.to_nat (mid - lo) + i)%nat) <$> seq 0 (Z.to_nat (hi - mid))).
  - rewrite <- list_fmap_compose. apply list_fmap_ext. intros i x _. cbn. lia.
  - rewrite fmap_add_seq. f_equal. lia.
Qed.

Lemma zrange_cons lo hi : lo < hi -> zrange lo hi = lo :: zrange (lo + 1) hi.
Proof.
  intros. rewrite (zrange_split lo (lo + 1)) by lia. unfold zrange at 1.
  replace (Z.to_nat (lo + 1 - lo)) with 1%nat by lia. cbn. by rewrite Z.add_0_r.
Qed.

Lemma zrange_nil lo hi : hi <= lo -> zrange lo hi = [].
Proof. intros. unfold zrange. by replace (Z.to_nat (hi - lo)) with 0%nat by lia. Qed.

(** ** The histogram *)

(** The bin of an integer key: bin [b] holds [2^b < k <= 2^(b+1)], bin 0
    also holds 0 and 1. *)
Definition bin (k : Z) : Z := if 2 <? k then Z.log2 (k - 1) else 0.

Lemma bin_le k b : 0 <= b -> bin k <= b <-> k < 2 ^ (b + 1) + 1.
Proof.
  intros Hb. unfold bin. destruct (Z.ltb_spec 2 k).
  - rewrite <- Z.lt_succ_r. rewrite <- Z.log2_lt_pow2 by lia. unfold Z.succ. lia.
  - assert (2 ^ 1 <= 2 ^ (b + 1)) by (apply Z.pow_le_mono_r; lia). lia.
Qed.

Lemma bin_nonneg k : 0 <= bin k.
Proof. unfold bin. destruct (2 <? k); [apply Z.log2_nonneg|done]. Qed.

Definition hist (bins I : list Z) : Prop :=
  zlen bins = LJ_MAX_ABITS /\
  forall b, 0 <= b < LJ_MAX_ABITS -> znth bins b = Some (zcount (fun i => bin i = b) I).

Lemma hist_nil : hist (replicate (Z.to_nat LJ_MAX_ABITS) 0) [].
Proof. split; [done|]. intros b Hb. by apply znth_replicate. Qed.

Lemma hist_add bins I J b : hist bins I -> 0 <= b < LJ_MAX_ABITS ->
  (forall j, j ∈ J -> bin j = b) ->
  exists bins', bin_add bins b (zlen J) = Some bins' /\ hist bins' (I ++ J).
Proof.
  intros [El Eb] Hb HJ. unfold bin_add. rewrite Eb by done.
  destruct (zset_lt bins b (zcount (fun i => bin i = b) I + zlen J)) as [bins' E]; [lia|].
  exists bins'. split; [done|]. split; [by rewrite (zlen_zset _ _ _ _ E)|].
  intros c Hc. rewrite (znth_zset _ _ _ _ c E), zcount_app. case_decide as Ec.
  - subst c. f_equal. f_equal. symmetry. by apply zcount_all.
  - rewrite Eb by done. f_equal. assert (zcount (fun i => bin i = c) J = 0) as ->; [|lia].
    unfold zcount. assert (filter (fun i => bin i = c) J = []) as ->; [|done].
    clear -HJ Ec. induction J as [|j J IH]; [done|]. rewrite filter_cons_False.
    + apply IH. intros. apply HJ. by right.
    + rewrite (HJ j ltac:(left)). congruence.
Qed.

Section Rehash.
Context `{StrHeap}.

(** ** The counting loops *)

(** The non-nil slots of the array part among [lo..hi]. *)
Definition nonnil (a : list LuaValue) (i : Z) : Prop := is_nil (default NIL (znth a i)) = false.
#[local] Instance nonnil_dec a i : Decision (nonnil a i).
Proof. unfold nonnil. apply _. Defined.
Definition slots (a : list LuaValue) (lo hi : Z) : list Z := filter (nonnil a) (zrange lo hi).

Lemma slots_split a lo mid hi : lo <= mid <= hi -> slots a lo hi = slots a lo mid ++ slots a mid hi.
Proof. intros. unfold slots. by rewrite (zrange_split lo mid hi), filter_app. Qed.

Lemma elem_of_slots a lo hi i : i ∈ slots a lo hi <-> lo <= i < hi /\ nonnil a i.
Proof. unfold slots. rewrite list_elem_of_filter, elem_of_zrange. tauto. Qed.

Lemma count_run_spec a fuel i top n : 0 <= i <= top + 1 -> top < zlen a ->
  (Z.to_nat (top + 1 - i) < fuel)%nat ->
  count_run fuel a i top n = Some (top + 1, n + zlen (slots a i (top + 1))).
Proof.
  revert i n. induction fuel as [|fuel IH]; intros i n Hi Ht Hf; [lia|]. cbn [count_run].
  destruct (Z.leb_spec i top).
  - destruct (znth_lt_Some a i) as [v Ev]; [lia|]. rewrite Ev, IH by lia. f_equal. f_equal.
    unfold slots. rewrite (zrange_cons i) by lia. rewrite filter_cons.
    assert (nonnil a i <-> is_nil v = false) as Hn by (unfold nonnil; by rewrite Ev).
    destruct (is_nil v); cbn [negb];
      [rewrite decide_False by (by rewrite Hn)|rewrite decide_True by (by apply Hn)];
      unfold zlen; cbn [length]; lia.
  - unfold slots. rewrite zrange_nil by lia. rewrite filter_nil.
    change (zlen (@nil Z)) with 0. f_equal. f_equal; lia.
Qed.

Lemma shiftl_pow2 b : 0 <= b -> Z.shiftl 2 b = 2 ^ (b + 1).
Proof. intros. rewrite Z.shiftl_mul_pow2, Z.pow_add_r by lia. lia. Qed.

(** Where iteration [b] of [count_array] starts. *)
Definition bin_start (b : Z) : Z := if b =? 0 then 0 else 2 ^ b + 1.

Lemma bin_start_bin b i : 0 <= b -> bin_start b <= i < 2 ^ (b + 1) + 1 -> bin i = b.
Proof.
  unfold bin_start. intros Hb Hi.
  assert (bin i <= b) by (apply bin_le; lia). pose proof (bin_nonneg i).
  destruct (Z.eqb_spec b 0) as [->|]; [lia|].
  destruct (Z.le_gt_cases b (bin i)); [lia|]. exfalso.
  assert (i < 2 ^ (b - 1 + 1) + 1) by (apply bin_le; lia).
  replace (b - 1 + 1) with b in * by lia. lia.
Qed.

Lemma count_array_loop_spec t : zlen (array t) = asize t -> 0 < asize t <= LJ_MAX_ASIZE ->
  forall fuel b bins i, 0 <= b <= LJ_MAX_ABITS -> (Z.to_nat (LJ_MAX_ABITS - b) < fuel)%nat ->
  i = Z.min (bin_start b) (asize t) -> hist bins (slots (array t) 0 i) ->
  exists bins', count_array_loop fuel t bins b i (zlen (slots (array t) 0 i)) =
      Some (bins', zlen (slots (array t) 0 (asize t))) /\
    hist bins' (slots (array t) 0 (asize t)).
Proof.
  intros El Hs. rewrite LJ_MAX_ASIZE_val in Hs. induction fuel as [|fuel IH]; intros b bins i Hb Hf Ei Hh; [lia|].
  cbn [count_array_loop]. destruct (Z.ltb_spec b LJ_MAX_ABITS) as [Hlt|Hge].
  - rewrite shiftl_pow2 by lia. cbv zeta.
    assert (0 < 2 ^ b) by (apply Z.pow_pos_nonneg; lia).
    assert (2 ^ (b + 1) = 2 * 2 ^ b) as E2 by (rewrite Z.pow_add_r by lia; lia).
    assert (0 <= bin_start b <= 2 ^ b + 1 /\ bin_start b <= 2 ^ (b + 1)) as Hst
      by (unfold bin_start; destruct (b =? 0); lia).
    set (top := if asize t <=? 2 ^ (b + 1) then asize t - 1 else 2 ^ (b + 1)).
    assert (top = Z.min (2 ^ (b + 1)) (asize t - 1)) as Et
      by (unfold top; destruct (Z.leb_spec (asize t) (2 ^ (b + 1))); lia).
    destruct (_ && _) eqn:Ebr.
    + apply andb_true_iff in Ebr as [_ Ebr%Z.ltb_lt]. assert (i = asize t) as Ei' by lia.
      exists bins. by rewrite <- Ei'.
    + assert (i <= top).
      { apply andb_false_iff in Ebr as [Ebr%Z.leb_gt|Ebr%Z.ltb_ge]; lia. }
      rewrite count_run_spec by lia. rewrite Z.add_0_l.
      destruct (hist_add bins (slots (array t) 0 i) (slots (array t) i (top + 1)) b Hh)
        as (bins1 & -> & Hh1); [lia| |].
      { intros j [Hj _]%elem_of_slots. apply bin_start_bin; lia. }
      rewrite <- slots_split in Hh1 by lia.
      destruct (IH (b + 1) bins1 (top + 1)) as (bins' & E & Hh'); [lia|lia| |done|].
      { unfold bin_start. destruct (Z.eqb_spec (b + 1) 0); lia. }
      exists bins'. split; [|done]. rewrite <- E. f_equal.
      rewrite (slots_split _ 0 i (top + 1)) by lia. unfold zlen. rewrite length_app. lia.
  - assert (b = 28) as -> by (unfold LJ_MAX_ABITS in *; lia).
    assert (i = asize t) as -> by (change (bin_start 28) with (2 ^ 28 + 1) in Ei; lia).
    by exists bins.
Qed.

Lemma count_array_spec t : zlen (array t) = asize t -> asize t <= LJ_MAX_ASIZE ->
  exists bins, count_array t (replicate (Z.to_nat LJ_MAX_ABITS) 0) =
      Some (bins, zlen (slots (array t) 0 (asize t))) /\
    hist bins (slots (array t) 0 (asize t)).
Proof.
  intros El Hs. pose proof (zlen_nonneg (array t)). unfold count_array.
  destruct (Z.eqb_spec (asize t) 0) as [->|].
  - eexists. split; [done|]. apply hist_nil.
  - destruct (count_array_loop_spec t El ltac:(lia) (S (Z.to_nat LJ_MAX_ABITS)) 0
      (replicate (Z.to_nat LJ_MAX_ABITS) 0) 0) as (bins & E & Hh); [done|lia| |apply hist_nil|].
    + change (bin_start 0) with 0. lia.
    + exists bins. split; [exact E|done].
Qed.

(** Integer keys are counted exactly when they could live in the array. *)
Lemma count_int_spec k bins I : key_ok k -> hist bins I ->
  exists bins', count_int k bins = Some (bins', zlen (omap array_key [k])) /\
    hist bins' (I ++ omap array_key [k]).
Proof.
  intros Hk Hh. unfold count_int. cbn.
  destruct (as_int32_exact k) as [i|] eqn:Ei.
  - pose proof (proj1 (key_int k i Hk) Ei) as [Hi _]. unfold srange in Hi.
    assert (array_key k = if uwrap 32 i <? LJ_MAX_ASIZE then Some i else None) as ->.
    { unfold array_key. rewrite Ei. rewrite LJ_MAX_ASIZE_val.
      destruct (Z.leb_spec 0 i); cbn [andb].
      - rewrite uwrap_small by (unfold urange; lia). done.
      - destruct (Z.ltb_spec (uwrap 32 i) (2 ^ 27 + 1)) as [Hlt|]; [|done]. exfalso.
        assert (uwrap 32 i = i + 2 ^ 32) as E.
        { unfold uwrap. symmetry. apply Z.mod_unique with (-1); lia. }
        lia. }
    destruct (Z.ltb_spec (uwrap 32 i) LJ_MAX_ASIZE) as [Hlt|].
    + rewrite LJ_MAX_ASIZE_val in Hlt.
      assert (0 <= i < 2 ^ 27 + 1) as Hi'.
      { destruct (Z.le_gt_cases 0 i).
        - rewrite uwrap_small in Hlt by (unfold urange; lia). lia.
        - assert (uwrap 32 i = i + 2 ^ 32) as E.
          { unfold uwrap. symmetry. apply Z.mod_unique with (-1); lia. }
          lia. }
      assert ((if 2 <? i then fls (uwrap 32 (i - 1)) else 0) = bin i) as ->.
      { unfold bin, fls, leading_zeros. destruct (Z.ltb_spec 2 i); [|done].
        rewrite uwrap_small by (unfold urange; lia). destruct (Z.eqb_spec (i - 1) 0); lia. }
      destruct (hist_add bins I [i] (bin i) Hh) as (bins' & E & Hh').
      { assert (bin i <= 26) by (apply bin_le; lia). pose proof (bin_nonneg i).
        unfold LJ_MAX_ABITS. lia. }
      { intros j ->%list_elem_of_singleton. done. }
      change (zlen [i]) with 1 in E. rewrite E. by exists bins'.
    + exists bins. by rewrite app_nil_r.
  - assert (array_key k = None) as -> by (unfold array_key; by rewrite Ei).
    exists bins. by rewrite app_nil_r.
Qed.

Lemma live_nodes_cons nd ns :
  live_nodes (nd :: ns) =
  if is_nil (val nd) then live_nodes ns else (key nd, val nd) :: live_nodes ns.
Proof. unfold live_nodes. rewrite filter_cons. by destruct (is_nil (val nd)). Qed.

Lemma omap_cons_app {A B} (f : A -> option B) x l : omap f (x :: l) = omap f [x] ++ omap f l.
Proof. cbn. by destruct (f x). Qed.

Lemma zlen_cons {A} (x : A) l : zlen (x :: l) = 1 + zlen l.
Proof. unfold zlen. cbn [length]. lia. Qed.

Lemma zlen_app {A} (l k : list A) : zlen (l ++ k) = zlen l + zlen k.
Proof. unfold zlen. rewrite length_app. lia. Qed.

Lemma count_nodes_spec ns : forall bins I na total,
  Forall (fun nd => is_nil (val nd) = false -> key_ok (key nd)) ns -> hist bins I ->
  exists bins', count_nodes ns bins na total =
      Some (bins', na + zlen (omap array_key (live_nodes ns).*1), total + zlen (live_nodes ns)) /\
    hist bins' (I ++ omap array_key (live_nodes ns).*1).
Proof.
  induction ns as [|nd ns IH]; intros bins I na total Hok Hh.
  - change (live_nodes []) with (@nil (LuaValue * LuaValue)).
    change (omap array_key (fst <$> @nil (LuaValue * LuaValue))) with (@nil Z).
    change (zlen (@nil Z)) with 0. change (zlen (@nil (LuaValue * LuaValue))) with 0.
    exists bins. rewrite app_nil_r, !Z.add_0_r. done.
  - apply Forall_cons in Hok as [Hk Hok]. cbn [count_nodes]. rewrite live_nodes_cons.
    destruct (is_nil (val nd)) eqn:En; cbn [negb].
    + by apply IH.
    + destruct (count_int_spec (key nd) bins I (Hk eq_refl) Hh) as (bins1 & -> & Hh1).
      destruct (IH bins1 _ (na + zlen (omap array_key [key nd])) (total + 1) Hok Hh1)
        as (bins' & -> & Hh').
      exists bins'. rewrite fmap_cons. cbn [fst].
      rewrite (omap_cons_app _ (key nd) (_ <$> live_nodes ns)), app_assoc, zlen_app, zlen_cons.
      split; [|done]. f_equal. f_equal; [f_equal|]; lia.
Qed.

(** ** The best array size *)

Definition below (I : list Z) (n : Z) : Z := zcount (fun i => (i <? n) = true) I.

Lemma below_bin I b : 0 <= b -> below I (2 ^ (b + 1) + 1) = zcount (fun i => bin i <= b) I.
Proof. intros. apply zcount_ext. intros i _. rewrite Z.ltb_lt. symmetry. by apply bin_le. Qed.

Lemma zcount_bin_succ I b : 0 <= b -> 
  zcount (fun i => bin i < b) I + zcount (fun i => bin i = b) I = zcount (fun i => bin i < b + 1) I.
Proof.
  intros. unfold zcount. induction I as [|i I IH]; [done|]. rewrite !filter_cons.
  repeat case_decide; rewrite ?zlen_cons; lia.
Qed.

Lemma best_asize_loop_spec I bins : hist bins I ->
  (forall i, i ∈ I -> i < LJ_MAX_ASIZE) ->
  forall fuel b sum na sz, (Z.to_nat (LJ_MAX_ABITS - b) < fuel)%nat -> 0 <= b <= LJ_MAX_ABITS ->
  sum = zcount (fun i => bin i < b) I ->
  ((sz = 0 /\ na = 0) \/ (exists c, 0 <= c < LJ_MAX_ABITS - 1 /\ sz = 2 ^ (c + 1) + 1 /\ na = below I sz)) ->
  exists na' sz', best_asize_loop fuel bins (zlen I) b sum na sz = Some (na', sz') /\
  ((sz' = 0 /\ na' = 0) \/ (exists c, 0 <= c < LJ_MAX_ABITS - 1 /\ sz' = 2 ^ (c + 1) + 1 /\ na' = below I sz')).
Proof.
  intros [Elen Hb] HI. induction fuel as [|fuel IH]; intros b sum na sz Hf Hbr Hsum Hinv; [lia|].
  cbn [best_asize_loop]. destruct (_ && _) eqn:Econd; [|by exists na, sz].
  apply andb_true_iff in Econd as [_ Hne%negb_true_iff%Z.eqb_neq].
  assert (b < LJ_MAX_ABITS - 1) as Hlt.
  { destruct (Z.lt_ge_cases b (LJ_MAX_ABITS - 1)) as [|Hge]; [done|]. exfalso. apply Hne. rewrite Hsum.
    apply zcount_all. intros i Hi. apply HI in Hi. rewrite LJ_MAX_ASIZE_val in Hi.
    assert (bin i <= 26) by (apply bin_le; lia). unfold LJ_MAX_ABITS in Hge. lia. }
  rewrite Hb by lia. pose proof (zcount_bin_succ I b ltac:(lia)) as Hsucc.
  pose proof (zcount_nonneg (fun i => bin i = b) I).
  destruct (Z.ltb_spec 0 (zcount (fun i => bin i = b) I)).
  - destruct (_ <? _); apply IH; try lia; try done.
    right. exists b. split; [lia|]. rewrite shiftl_pow2 by lia. split; [done|].
    rewrite below_bin by lia. rewrite Hsum, Hsucc. apply zcount_ext. intros; lia.
  - apply IH; lia || done.
Qed.

Lemma best_asize_spec I bins : hist bins I -> (forall i, i ∈ I -> i < LJ_MAX_ASIZE) ->
  exists na sz, best_asize bins (zlen I) = Some (na, sz) /\ 0 <= sz <= LJ_MAX_ASIZE /\
    ((sz = 0 /\ na = 0) \/ na = below I sz).
Proof.
  intros Hh HI. pose proof (bin_nonneg) as Hbn.
  destruct (best_asize_loop_spec I bins Hh HI (S (Z.to_nat LJ_MAX_ABITS)) 0 0 0 0)
    as (na & sz & E & [[-> ->]|(c & Hc & Esz & Ena)]); try (unfold LJ_MAX_ABITS; lia); auto.
  { unfold zcount. replace (filter _ I) with (@nil Z); [done|].
    clear -Hbn. induction I as [|i I IH]; [done|]. rewrite filter_cons_False; [done|].
    specialize (Hbn i). lia. }
  - exists 0, 0. split; [exact E|]. split; [done|by left].
  - exists na, sz. split; [exact E|]. split; [|by right].
    rewrite LJ_MAX_ASIZE_val, Esz. unfold LJ_MAX_ABITS in Hc.
    assert (0 < 2 ^ (c + 1) <= 2 ^ 27) by (split; [apply Z.pow_pos_nonneg|apply Z.pow_le_mono_r]; lia).
    lia.
Qed.

(** ** The sizes fit *)

(** The number of entries with a non-nil value. *)
Definition live (t : LuaTable) : Z := zlen (slots (array t) 0 (asize t)) + zlen (hash_entries t).

Definition int_keys (t : LuaTable) (ek : LuaValue) : list Z :=
  slots (array t) 0 (asize t) ++ omap array_key (hash_entries t).*1 ++ omap array_key [ek].

Lemma array_key_bound l i : Forall key_ok l -> i ∈ omap array_key l -> i < LJ_MAX_ASIZE.
Proof.
  intros Hl (k & Hk & Ek)%list_elem_of_omap. rewrite Forall_forall in Hl.
  apply array_key_spec in Ek; [lia|auto].
Qed.

Lemma rehash_sizes_spec t ek : table_inv t -> key_ok ek -> exists na sz,
  rehash_sizes t ek = Some (sz, hsize2hbits (1 + live t - na)) /\ 0 <= sz <= LJ_MAX_ASIZE /\
  0 <= na <= below (int_keys t ek) sz.
Proof.
  intros Hi Hk. destruct (ti_asize _ Hi) as [El Emax]. unfold rehash_sizes.
  destruct (count_array_spec t El Emax) as (bins1 & -> & Hh1).
  assert (Forall key_ok (hash_entries t).*1) as HkL.
  { destruct (hash_entries_spec t Hi) as (HL & _). apply Forall_fmap. eapply Forall_impl; [exact HL|].
    by intros [? ?] [? _]. }
  assert (exists bins2, count_hash t bins1 (zlen (slots (array t) 0 (asize t))) =
      Some (bins2, zlen (slots (array t) 0 (asize t)) + zlen (omap array_key (hash_entries t).*1),
        zlen (hash_entries t)) /\
      hist bins2 (slots (array t) 0 (asize t) ++ omap array_key (hash_entries t).*1))
    as (bins2 & -> & Hh2).
  { unfold count_hash, hash_entries. destruct (ti_hash _ Hi) as [Em|[nd Hp]].
    - assert (has_hpart t = false) as -> by (unfold has_hpart; by rewrite Em). rewrite Em.
      exists bins1. cbn [Z.ltb Z.compare]. split; [done|]. by rewrite app_nil_r.
    - rewrite (hp_has _ _ Hp). pose proof (hp_bounds _ _ Hp).
      destruct (Z.ltb_spec 0 (hmask t)); [|lia].
      destruct (count_nodes_spec (node t) bins1 (slots (array t) 0 (asize t)) 0 0) as (bins2 & -> & Hh2);
        [|done|].
      + apply Forall_forall. intros x Hx Hv. destruct (live_nodes_spec t nd Hp) as (HL & _).
        rewrite Forall_forall in HL. destruct (HL (key x, val x)) as [? _]; [|done].
        apply list_elem_of_fmap. exists x. split; [done|]. by apply list_elem_of_filter.
      + by exists bins2. }
  destruct (count_int_spec ek bins2 _ Hk Hh2) as (bins3 & -> & Hh3).
  rewrite <- app_assoc in Hh3. fold (int_keys t ek) in Hh3.
  destruct (best_asize_spec (int_keys t ek) bins3 Hh3) as (na & sz & E & Hsz & Hna).
  - intros i. unfold int_keys. rewrite !elem_of_app, elem_of_slots.
    intros [[? _]|[Hx|Hx]]; [lia|by apply array_key_bound in Hx|].
    apply array_key_bound in Hx; [done|]. by constructor.
  - replace (zlen (int_keys t ek)) with (zlen (slots (array t) 0 (asize t)) +
      zlen (omap array_key (hash_entries t).*1) + zlen (omap array_key [ek])) in E
      by (unfold int_keys; rewrite !zlen_app; lia).
    rewrite E. exists na, sz. split; [|split; [done|]].
    + f_equal. f_equal. f_equal. unfold live. lia.
    + pose proof (zcount_nonneg (fun i => (i <? sz) = true) (int_keys t ek)). unfold below in *.
      destruct Hna as [[_ ->]| ->]; lia.
Qed.

Lemma hsize2hbits_spec s : 0 <= s <= 2 ^ 26 ->
  0 <= hsize2hbits s <= LJ_MAX_HBITS /\ s <= capacity (hsize2hbits s).
Proof.
  intros Hs. unfold hsize2hbits, capacity, leading_zeros, LJ_MAX_HBITS.
  destruct (Z.eqb_spec s 0) as [->|]; [done|]. destruct (Z.eqb_spec s 1) as [->|]; [done|].
  destruct (Z.eqb_spec (s - 1) 0); [lia|].
  replace (1 + (31 - (32 - 1 - Z.log2 (s - 1)))) with (Z.succ (Z.log2 (s - 1))) by lia.
  pose proof (Z.log2_spec (s - 1) ltac:(lia)). pose proof (Z.log2_nonneg (s - 1)).
  assert (Z.log2 (s - 1) < 26) by (apply Z.log2_lt_pow2; lia).
  destruct (Z.eqb_spec (Z.succ (Z.log2 (s - 1))) 0); lia.
Qed.

Definition taken (sz : Z) (k : LuaValue) : bool :=
  match array_key k with Some i => i <? sz | None => false end.

Lemma array_index_taken t k sz : asize t = sz -> array_index t k = None <-> taken sz k = false.
Proof.
  intros <-. unfold array_index, taken. destruct (array_key k) as [i|]; [|done].
  by destruct (i <? asize t).
Qed.

Lemma needs_zcount t E : needs t E = zcount (fun kv => taken (asize t) kv.1 = false) E.
Proof.
  induction E as [|[k v] E IH]; [done|]. cbn [needs]. rewrite IH. unfold zcount. rewrite filter_cons.
  cbn [fst]. unfold need. pose proof (array_index_taken t k _ eq_refl).
  case_decide; destruct (array_index t k); rewrite ?zlen_cons; try lia;
    exfalso; intuition congruence.
Qed.

Lemma need_below t k : need t k = 1 - below (omap array_key [k]) (asize t).
Proof.
  unfold need, array_index, below. cbn. destruct (array_key k) as [i|]; [|done].
  unfold zcount. rewrite filter_cons, filter_nil. by destruct (i <? asize t).
Qed.

Lemma entries_needs t t0 na E ek : table_inv t -> asize t0 = na -> entries t na E ->
  needs t0 E + need t0 ek <= 1 + live t - below (int_keys t ek) na.
Proof.
  intros Hi Es (HE & HnE & Hin). rewrite needs_zcount, need_below, Es.
  assert (zcount (fun kv : LuaValue * LuaValue => taken na kv.1 = false) E <=
    zcount (fun i => ~ (i <? na) = true) (slots (array t) 0 (asize t)) +
    zcount (fun kv : LuaValue * LuaValue => ~ taken na kv.1 = true) (hash_entries t)) as Hle.
  { set (A := filter (fun i => ~ (i <? na) = true) (slots (array t) 0 (asize t))).
    set (B := filter (fun kv : LuaValue * LuaValue => ~ taken na kv.1 = true) (hash_entries t)).
    assert (filter (fun kv : LuaValue * LuaValue => taken na kv.1 = false) E ⊆+
      ((fun i => (f64_of_int i, default NIL (znth (array t) i))) <$> A) ++ B) as Hsub.
    { apply NoDup_submseteq.
      - apply list.NoDup_filter. by apply (NoDup_fmap_1 fst).
      - intros [k v] [Ht Hkv]%list_elem_of_filter. cbn [fst] in Ht. apply elem_of_app.
        apply Hin in Hkv as (Hv & Hk & Eg & Hor). destruct (array_index t k) as [i|] eqn:Ea.
        + left. destruct Hor as [|(i' & [= <-] & Hni)]; [done|].
          destruct (get_array t k i Hi Hk Ea) as (w & Ew & Ez & Hw).
          apply array_index_spec in Ea as (? & ? & ->); [|done].
          apply list_elem_of_fmap. exists i. rewrite Ez. cbn. rewrite Eg in Ew. injection Ew as <-.
          split; [done|]. apply list_elem_of_filter. rewrite Z.ltb_lt. split; [lia|].
          apply elem_of_slots. split; [lia|]. unfold nonnil. rewrite Ez. by apply is_nil_false.
        + right. apply list_elem_of_filter. cbn [fst]. split; [congruence|].
          destruct (hash_entries_spec t Hi) as (_ & _ & HL). by apply HL. }
    apply submseteq_length in Hsub. rewrite length_app, length_fmap in Hsub.
    unfold zcount, zlen. fold A B. lia. }
  pose proof (zcount_compl (fun i => (i <? na) = true) (slots (array t) 0 (asize t))).
  pose proof (zcount_compl (fun kv : LuaValue * LuaValue => taken na kv.1 = true) (hash_entries t)).
  unfold below, int_keys, live in *. rewrite !zcount_app.
  rewrite (zcount_omap array_key (fun i => i <? na) (hash_entries t).*1).
  replace (zcount _ (hash_entries t).*1) with
    (zcount (fun kv : LuaValue * LuaValue => taken na kv.1 = true) (hash_entries t)); [lia|].
  unfold zcount, zlen. clear. induction (hash_entries t) as [|[k v] l IH]; [done|].
  rewrite fmap_cons, !filter_cons. cbn [fst]. fold (taken na k).
  repeat case_decide; cbn [length]; lia.
Qed.

(** Rehashing keeps every lookup and leaves room for the extra key, as long
    as all entries fit the largest hash part. *)
Lemma rehash_spec fuel t ek : table_inv t -> key_ok ek -> 1 + live t <= 2 ^ LJ_MAX_HBITS ->
  exists t', rehash (set_loop (S fuel)) t ek = Some t' /\ table_inv t' /\
    hroom t' (need t' ek) /\ forall k, key_ok k -> get t' k = get t k.
Proof.
  intros Hi Hk Hl. change (2 ^ LJ_MAX_HBITS) with (2 ^ 26) in Hl. unfold rehash.
  destruct (rehash_sizes_spec t ek Hi Hk) as (na & sz & -> & Hsz & Hna).
  assert (below (int_keys t ek) sz <= 1 + live t) as Hbl.
  { unfold below, zcount, int_keys, live. rewrite !filter_app, !zlen_app.
    pose proof (zlen_filter_le (fun i => (i <? sz) = true) (slots (array t) 0 (asize t))).
    pose proof (zlen_filter_le (fun i => (i <? sz) = true) (omap array_key (hash_entries t).*1)).
    pose proof (zlen_filter_le (fun i => (i <? sz) = true) (omap array_key [ek])).
    pose proof (zlen_omap_le array_key (hash_entries t).*1) as Ho1.
    pose proof (zlen_omap_le array_key [ek]) as Ho2. change (zlen [ek]) with 1 in Ho2.
    unfold zlen in Ho1 at 2. rewrite length_fmap in Ho1. fold (zlen (hash_entries t)) in Ho1. lia. }
  destruct (hsize2hbits_spec (1 + live t - na)) as [Hhb Hcap]; [lia|].
  destruct (resize_spec fuel t sz _ Hi Hsz Hhb) as (t' & E & -> & Hi' & Es & HE & Hr & Hg).
  - intros t0 E Hf HE. pose proof (entries_needs t t0 sz E ek Hi (fr_asize _ _ _ _ Hf) HE).
    pose proof (need_range t0 ek). lia.
  - exists t'. split_and!; try done.
    pose proof (entries_needs t t' sz E ek Hi Es HE).
    destruct Hr as [[Em Hr]|(nd & Hp & Hr)]; [left|right; exists nd]; (split; [done|]); lia.
Qed.

End Rehash.
