(* ===== verification/TableSpec.v ===== *)
(** * What the table promises

    The properties of [LuaTable] against its invariant: [set] is a map update
    and [get] reads it back, the specialised accessors agree with the general
    ones, [len] finds a border and [next] visits every entry once. *)

From Stdlib Require Import ZArith Lia Bool.
From stdpp Require Import base decidable numbers option functions list.
From S2P Require Import Prelude Float64 Value Table TableHash TableInv TableSet TableResize TableRehash.

(** A string heap for the witnesses: the id of a string is its address. *)
Definition demo_heap : StrHeap.
Proof.
  refine (Build_StrHeap (fun p => uwrap 32 p) (fun _ => []) _).
  intros p. apply uwrap_range. lia.
Defined.

Section Spec.
Context `{StrHeap}.

(** ** Creation *)

Lemma new_inv a hb : 0 <= a <= LJ_MAX_ASIZE -> 0 <= hb <= LJ_MAX_HBITS ->
  exists t, new a hb = Some t /\ table_inv t /\ live t = 0 /\
    forall k, key_ok k -> get t k = Some NIL.
Proof.
  intros Ha Hb. unfold new. destruct (Z.leb_spec a LJ_MAX_ASIZE); [|lia].
  destruct (Z.leb_spec hb LJ_MAX_HBITS); [|lia]. cbn [andb].
  set (t0 := mkTable _ _ _ _ _ _ _).
  assert (exists t, (if negb (hb =? 0) then new_hpart t0 hb else Some t0) = Some t /\
    array t = replicate (Z.to_nat a) NIL /\ asize t = a /\
    (hmask t = 0 \/ hpart_inv t (fun _ => EMPTY))) as (t & -> & Ea & Es & Hh).
  { destruct (Z.eqb_spec hb 0); cbn [negb].
    - exists t0. split_and!; auto.
    - destruct (new_hpart_spec t0 hb) as (t & -> & Ea & Es & _ & Hp); [lia|]. exists t.
      split_and!; auto. }
  assert (table_inv t) as Hi.
  { split; rewrite ?Ea, ?Es.
    - split; [apply zlen_replicate; lia|lia].
    - apply Forall_replicate, value_ok_prim.
    - destruct Hh; eauto. }
  assert (forall k, key_ok k -> get t k = Some NIL) as Hg.
  { intros k Hk. destruct (array_index t k) as [i|] eqn:Ei.
    - destruct (get_array t k i Hi Hk Ei) as (v & -> & Ev & _). rewrite Ea in Ev.
      apply array_index_spec in Ei as (? & ? & _); [|done].
      rewrite znth_replicate in Ev by lia. congruence.
    - destruct Hh as [Em|Hp]; [by apply get_no_hpart|].
      destruct (get_hash t _ Hp k Hk Ei) as (v & -> & _ & Hv). f_equal.
      destruct (decide (v = NIL)) as [|Hn]; [done|]. exfalso.
      destruct (proj1 (Hv v Hn) eq_refl) as (j & _ & E & _). cbn in E. subst k.
      by destruct Hk as (_ & [] & _). }
  exists t. split_and!; try done. unfold live.
  assert (slots (array t) 0 (asize t) = []) as ->.
  { destruct (slots _ _ _) as [|i l] eqn:E; [done|]. exfalso.
    assert (i ∈ slots (array t) 0 (asize t)) as Hin by (rewrite E; left).
    apply elem_of_slots in Hin as [Hii Hn]. unfold nonnil in Hn. rewrite Ea in Hn.
    by rewrite znth_replicate in Hn by lia. }
  assert (hash_entries t = []) as ->; [|done].
  destruct (hash_entries t) as [|[k v] l] eqn:E; [done|]. exfalso.
  destruct (hash_entries_spec t Hi) as (HL & _ & Hin). rewrite E in HL, Hin.
  apply Forall_cons in HL as [[Hk _] _]. cbn in Hk.
  destruct (proj1 (Hin k v Hk) ltac:(left)) as (Hv & _ & Eg).
  rewrite Hg in Eg by done. congruence.
Qed.

(** ** Set and get *)

Lemma live_nomm t m : live (with_nomm t m) = live t.
Proof. reflexivity. Qed.

(** After a rehash the retry finds room. *)
Lemma set_after_rehash fuel t k v : table_inv t -> key_ok k -> value_ok v ->
  1 + live t <= 2 ^ LJ_MAX_HBITS ->
  exists t' t'', rehash (set_loop (S fuel)) t k = Some t' /\ set_loop (S fuel) t' k v = Some t'' /\
    table_inv t'' /\
    forall k', key_ok k' -> get t'' k' = if decide (k' = k) then Some v else get t k'.
Proof.
  intros Hi Hk Hv Hl. destruct (rehash_spec fuel t k Hi Hk Hl) as (t' & E & Hi' & Hr & Hg).
  destruct (set_loop_hroom fuel t' k v _ Hi' Hr (Z.le_refl _) Hk Hv)
    as (t'' & E' & (Hi'' & _ & _ & Hg') & _).
  exists t', t''. split_and!; [done..|]. intros k' Hk'. rewrite Hg', Hg by done. done.
Qed.

Lemma set_loop_fits t k v : table_inv t -> key_ok k -> value_ok v ->
  1 + live t <= 2 ^ LJ_MAX_HBITS ->
  exists t', set t k v = Some t' /\ table_inv t' /\
    forall k', key_ok k' -> get t' k' = if decide (k' = k) then Some v else get t k'.
Proof.
  intros Hi Hk Hv Hfit.
  unfold set. destruct (array_index t k) as [i|] eqn:Ha.
  { destruct (set_loop_array 1 t k v i Hi Hk Hv Ha) as (t' & E & (? & _ & _ & ?) & _). by exists t'. }
  set (t0 := if is_string k then with_nomm t 0 else t).
  assert (set_loop 2 t k v = let? found := (if has_hpart t0 then
      let? n := hash_slot t0 k in chain_find (chain_fuel t0) t0 n k else Some None) in
    match found with
    | Some n => node_slot_mut t0 n (set_val v)
    | None =>
        let? ' (t, r) := try_new_key (rehash (set_loop 1)) t0 k in
        match r with Some slot => node_slot_mut t slot (set_val v) | None => set_loop 1 t k v end
    end) as Eset.
  { cbn [set_loop]. fold t0. rewrite (array_index_asize t) by (unfold t0; by destruct (is_string k)).
    by rewrite Ha. }
  assert (exists t' t'', rehash (set_loop 1) (with_nomm t0 0) k = Some t' /\
    set_loop 1 t' k v = Some t'' /\ table_inv t'' /\
    forall k', key_ok k' -> get t'' k' = if decide (k' = k) then Some v else get t k')
    as (t1 & t2 & E1 & E2 & Hi2 & Hg2).
  { assert (table_inv (with_nomm t0 0)) as Hi0.
    { apply table_inv_nomm. unfold t0. destruct (is_string k); [by apply table_inv_nomm|done]. }
    destruct (set_after_rehash 0 _ k v Hi0 Hk Hv) as (t1 & t2 & ? & ? & ? & Hg).
    { unfold t0. by destruct (is_string k). }
    exists t1, t2. split_and!; [done..|]. intros k' Hk'. rewrite Hg by done. case_decide; [done|].
    apply get_same; unfold t0; destruct (is_string k); auto. }
  destruct (ti_hash _ Hi) as [Em|[nd Hp]].
  - assert (has_hpart t0 = false) as Hn
      by (unfold t0, has_hpart; destruct (is_string k); cbn; by rewrite Em).
    rewrite Eset, Hn. unfold try_new_key. change (has_hpart (with_nomm t0 0)) with (has_hpart t0).
    rewrite Hn. cbn [negb]. rewrite E1, E2. by exists t2.
  - destruct (chain_find_slot _ _ Hp k Hk) as ([j|] & Ec & Hj).
    { destruct Hj as [Hj Ej].
      destruct (set_loop_found 1 t nd k v j) as (t' & nd' & E & (? & _ & _ & ?) & _); try done.
      by exists t'. }
    assert (table_inv t0 /\ hpart_inv t0 nd /\ array_index t0 k = None /\ hmask t0 = hmask t /\
      node t0 = node t /\ (forall t', updated t0 t' k v -> updated t t' k v))
      as (Hi0 & Hp0 & Ha0 & Em & En & Hu).
    { unfold t0. destruct (is_string k); [|done].
      split_and!; [by apply table_inv_nomm|by destruct Hp|done..|by intros ?; apply updated_nomm]. }
    rewrite Eset, (hp_has _ _ Hp0), hash_slot_ok by done.
    assert (chain_find (chain_fuel t0) t0 (slot (hmask t0) k) k = Some None) as ->.
    { rewrite (chain_find_same t) by done. unfold chain_fuel. by rewrite En, Em. }
    destruct (try_new_key_spec t0 nd k (rehash (set_loop 1)) Hp0 Hk Ha0)
      as [(t' & nd' & s & -> & Hins)|[_ ->]].
    + by rewrite Em.
    + destruct (inserted_updated t0 t' nd nd' k v s) as (t'' & nd'' & -> & Hup & _); try done.
      apply Hu in Hup as (? & _ & _ & ?). by exists t''.
    + rewrite E1, E2. by exists t2.
Qed.

(** C1. [set] refines a map update.  On every well-formed table, for every
    key the VM can present and every value, if the live entries and the new
    key fit the largest hash part then [set] terminates without a panic, the
    table stays well-formed, the key reads back the value and every other key
    reads what it read before, across node moves, rehashes and migrations
    between the array and the hash part. *)
Theorem set_refines (t : LuaTable) (k v : LuaValue)
    (Hi : table_inv t) (Hk : key_ok k) (Hv : value_ok v)
    (Hfit : 1 + live t <= 2 ^ LJ_MAX_HBITS) :
  exists t', set t k v = Some t' /\ table_inv t' /\
    forall k', key_ok k' -> get t' k' = if decide (k' = k) then Some v else get t k'.
Proof. by apply set_loop_fits. Qed.

(** ** The specialised accessors *)

Lemma int_key_index t i : srange 32 i ->
  array_index t (f64_of_int i) =
    if (0 <=? i) && (i <? LJ_MAX_ASIZE) && (i <? asize t) then Some i else None.
Proof.
  intros Hs. pose proof (key_ok_of_int i Hs) as Hk.
  destruct (f64_of_int_number i Hs) as [_ En]. rewrite En in Hk.
  destruct (_ && _) eqn:Ec.
  - apply array_index_spec; [done|]. rewrite !andb_true_iff, Z.leb_le, !Z.ltb_lt in Ec. intuition lia.
  - destruct (array_index t (f64_of_int i)) as [j|] eqn:Ej; [|done].
    apply array_index_spec in Ej as (? & ? & Ej); [|done].
    apply f64_of_int_inj in Ej as ->; [|done|rewrite LJ_MAX_ASIZE_val in *; unfold srange; lia].
    rewrite !andb_false_iff, Z.leb_gt, !Z.ltb_ge in Ec. intuition lia.
Qed.

Lemma get_int_get t i : table_inv t -> srange 32 i -> get_int t i = get t (f64_of_int i).
Proof.
  intros Hi Hs. destruct (ti_asize _ Hi) as [_ Emax]. destruct (f64_of_int_number i Hs) as [_ En].
  unfold get_int. rewrite En. destruct (Z.leb_spec 0 i); [|done]. cbn [andb].
  unfold srange in Hs. rewrite !uwrap_small by (unfold urange; lia).
  destruct (Z.ltb_spec i (asize t)); [|done].
  unfold get. rewrite int_key_index by done.
  destruct (Z.leb_spec 0 i); [|lia]. destruct (Z.ltb_spec i LJ_MAX_ASIZE); [|lia].
  by destruct (Z.ltb_spec i (asize t)); [|lia].
Qed.

Lemma string_not_int k : is_string k = true -> as_int32_exact k = None.
Proof.
  unfold is_string, as_int32_exact, as_number, is_number. intros E%Z.eqb_eq. by rewrite E.
Qed.

Lemma get_str_get t k : table_inv t -> key_ok k -> is_string k = true -> get_str t k = get t k.
Proof.
  intros Hi Hk Hs. unfold get_str, get, array_index, array_key.
  rewrite string_not_int, key_ok_not_nil by done. cbn [orb].
  destruct (ti_hash _ Hi) as [Em|[nd Hp]].
  - unfold has_hpart, hash_slot. destruct (hash_key_total k (proj1 Hk)) as [h ->]. rewrite Em.
    cbn [Z.eqb negb]. unfold chain_fuel. cbn [chain_find]. unfold node_slot. rewrite Em.
    cbn [Z.ltb Z.compare key EMPTY next_]. rewrite decide_False by (intros E; by destruct Hk as (_ & [] & _)).
    by rewrite Z.eqb_refl.
  - by rewrite (hp_has _ _ Hp).
Qed.

(** The push path of [set_int]: growing the array part by one element. *)
Lemma reasize_spec t i : table_inv t -> asize t = i -> 0 < i < LJ_MAX_ASIZE ->
  exists t', reasize t i = Some t' /\ table_inv t' /\ i < asize t' /\
    forall k, key_ok k -> get t' k = get t k.
Proof.
  intros Hi Es Hir. destruct (ti_asize _ Hi) as [El Emax]. rewrite LJ_MAX_ASIZE_val in *. unfold reasize.
  set (hb := if 0 <? hmask t then _ else _). rewrite LJ_MAX_ASIZE_val.
  set (a := Z.min (2 ^ Z.log2_up (i + 1)) (2 ^ 27 + 1)).
  assert (i < a <= 2 ^ 27 + 1) as Ha.
  { pose proof (Z.log2_up_spec (i + 1) ltac:(lia)). unfold a. lia. }
  assert (0 <= hb <= LJ_MAX_HBITS /\ zlen (hash_entries t) <= capacity hb) as [Hhb Hcap].
  { unfold hb, hash_entries, capacity. destruct (ti_hash _ Hi) as [Em|[nd Hp]].
    - rewrite Em. done.
    - destruct (hp_mask _ _ Hp) as (b & Hb & _ & E & _). pose proof (hp_bounds _ _ Hp).
      destruct (Z.ltb_spec 0 (hmask t)); [|lia].
      assert (fls (hmask t) + 1 = b) as ->.
      { unfold fls, leading_zeros. destruct (Z.eqb_spec (hmask t) 0); [lia|].
        replace (hmask t) with (Z.pred (2 ^ b)) by lia. rewrite Z.log2_pred_pow2 by lia. lia. }
      split; [unfold LJ_MAX_HBITS; lia|]. destruct (Z.eqb_spec b 0); [lia|].
      rewrite <- E. destruct (hp_repr _ _ Hp) as [<- _]. unfold live_nodes, zlen.
      rewrite length_fmap. pose proof (length_filter (fun nd => is_nil (val nd) = false) (node t)). lia. }
  destruct (resize_spec 1 t a hb Hi) as (t' & E & E1 & Hi' & Es' & _ & _ & Hg);
    [rewrite LJ_MAX_ASIZE_val; lia|done| |].
  { intros t0 E Hf (HE & HnE & Hin). etransitivity; [|exact Hcap].
    assert (E ⊆+ hash_entries t) as Hsub.
    { apply NoDup_submseteq; [by apply (NoDup_fmap_1 fst)|]. intros [k v] Hkv.
      apply Hin in Hkv as (? & Hk & ? & Hor). destruct (hash_entries_spec t Hi) as (_ & _ & HL).
      apply HL; [done|]. split_and!; [done| |done]. destruct Hor as [|(j & Ej & ?)]; [done|].
      apply array_index_spec in Ej as (? & ? & _); [lia|done]. }
    apply submseteq_length in Hsub.
    pose proof (zcount_compl (fun kv : LuaValue * LuaValue => taken (asize t0) kv.1 = false) E) as Hc.
    pose proof (zcount_nonneg (fun kv : LuaValue * LuaValue => ~ taken (asize t0) kv.1 = false) E).
    rewrite needs_zcount. unfold zlen in *. lia. }
  exists t'. split_and!; [exact E1|done|lia|done].
Qed.

(** C3. The accessors specialised to integer and string keys, the array push
    path included, read and write the same mapping as [get] and [set]. *)
Theorem accessors_agree (t : LuaTable) (i : Z) (s v : LuaValue)
    (Hi : table_inv t) (Hrange : srange 32 i)
    (Hs : key_ok s) (Hstr : is_string s = true) (Hv : value_ok v)
    (Hfit : 1 + live t <= 2 ^ LJ_MAX_HBITS) :
  let ki := number (f64_of_int i) in
  get_int t i = get t ki /\ get_str t s = get t s /\
  (exists t', set_int t i v = Some t' /\ table_inv t' /\
    forall k, key_ok k -> get t' k = if decide (k = ki) then Some v else get t k) /\
  (exists t', set_str t s v = Some t' /\ table_inv t' /\
    forall k, key_ok k -> get t' k = if decide (k = s) then Some v else get t k).
Proof.
  intros ki. pose proof (key_ok_of_int i Hrange) as Hki. fold ki in Hki.
  destruct (f64_of_int_number i Hrange) as [_ En]. split; [|split; [|split]].
  - unfold ki. rewrite En. by apply get_int_get.
  - by apply get_str_get.
  - pose proof (set_loop_fits t ki v Hi Hki Hv Hfit) as Hset. unfold set_int. fold ki.
    destruct (Z.ltb_spec 0 i); [|exact Hset]. cbn [andb]. unfold srange in Hrange.
    rewrite !uwrap_small by (unfold urange; lia). destruct (ti_asize _ Hi) as [El Emax].
    assert (forall t', table_inv t' -> i < asize t' -> array_index t' ki = Some i) as Hai.
    { intros t' Hi' Hlt. unfold ki. rewrite En, int_key_index by (unfold srange; lia).
      destruct (ti_asize _ Hi') as [_ ?]. destruct (Z.leb_spec 0 i); [|lia].
      destruct (Z.ltb_spec i LJ_MAX_ASIZE); [|lia]. by destruct (Z.ltb_spec i (asize t')); [|lia]. }
    destruct (Z.ltb_spec i (asize t)).
    + destruct (set_array t ki v i Hi Hki Hv) as (a & -> & ? & _ & _ & Hg); [by apply Hai|].
      by exists (with_array t a).
    + destruct (Z.ltb_spec i LJ_MAX_ASIZE); [|exact Hset].
      destruct (_ && _) eqn:Ec; [|exact Hset]. apply andb_true_iff in Ec as [_ Ec%Z.eqb_eq].
      destruct (reasize_spec t i Hi) as (t' & -> & Hi' & Hlt & Hg); [done|lia|].
      destruct (set_array t' ki v i Hi' Hki Hv) as (a & -> & Hi'' & _ & _ & Hg'); [by apply Hai|].
      exists (with_array t' a). split_and!; [done..|]. intros k Hk. rewrite Hg', Hg by done. done.
  - unfold set_str. set (t0 := with_nomm t 0).
    assert (table_inv t0) as Hi0 by by apply table_inv_nomm.
    assert (exists t', set t0 s v = Some t' /\ table_inv t' /\
      forall k, key_ok k -> get t' k = if decide (k = s) then Some v else get t k) as Hset.
    { destruct (set_loop_fits t0 s v Hi0 Hs Hv Hfit) as (t' & ? & ? & Hg). exists t'.
      split_and!; [done..|]. intros k Hk. rewrite Hg by done. case_decide; [done|]. apply get_same; auto. }
    destruct (ti_hash _ Hi0) as [Em|[nd Hp]].
    + assert (has_hpart t0 = false) as -> by (unfold has_hpart; by rewrite Em). exact Hset.
    + rewrite (hp_has _ _ Hp), hash_slot_ok by done. cbn [negb].
      destruct (chain_find_slot _ _ Hp s Hs) as ([j|] & -> & Hj); [|exact Hset].
      destruct Hj as [Hj Ej]. assert (array_index t0 s = None) as Ha.
      { unfold array_index, array_key. by rewrite string_not_int. }
      destruct (set_found t0 nd s v j) as (ns & -> & _ & Hi' & _ & _ & Hg); try done; try apply Hi0.
      eexists. split_and!; [done..|]. intros k Hk. rewrite Hg by done. case_decide; [done|].
      apply get_same; auto.
Qed.

End Spec.

(** ** Witnesses *)

(** Two array entries, no hash part. *)
Definition demo_table : LuaTable :=
  mkTable [NIL; f64_of_int 10; f64_of_int 20] [] 3 0 0 255 None.
Definition demo_key : LuaValue := string 4096.

Lemma srange_dec i : (- 2 ^ 31 <=? i) && (i <? 2 ^ 31) = true -> srange 32 i.
Proof. intros [?%Z.leb_le ?%Z.ltb_lt]%andb_true_iff. unfold srange. lia. Qed.

Lemma int_key_ok i : (- 2 ^ 31 <=? i) && (i <? 2 ^ 31) = true -> key_ok (f64_of_int i).
Proof.
  intros Hs%srange_dec.
  pose proof (key_ok_of_int i Hs) as Hk. by destruct (f64_of_int_number i Hs) as [_ <-].
Qed.

Lemma demo_inv : @table_inv demo_heap demo_table.
Proof.
  split; [split; [reflexivity|apply Z.leb_le; reflexivity]| |by left].
  repeat constructor; try (apply value_ok_prim); apply value_ok_int; split; done.
Qed.

Lemma demo_key_ok : key_ok demo_key.
Proof.
  split_and!; [|done|done]. split; [split; done|]. right; right; right; right.
  exists TagStr, 4096. split; [split; lia|done].
Qed.

Lemma set_refines_witness : exists t',
  @set demo_heap demo_table demo_key TRUE = Some t' /\ @table_inv demo_heap t' /\
  @get demo_heap t' demo_key = Some TRUE /\ @get demo_heap t' (f64_of_int 2) = Some (f64_of_int 20).
Proof.
  destruct (@set_refines demo_heap demo_table demo_key TRUE demo_inv demo_key_ok
    (proj2 (proj2 value_ok_prim)) ltac:(apply Z.leb_le; vm_compute; reflexivity)) as (t' & E & Hi & Hg).
  exists t'. split; [exact E|]. split; [exact Hi|]. split.
  - rewrite (Hg demo_key demo_key_ok). reflexivity.
  - rewrite (Hg (f64_of_int 2)); [reflexivity|].
    exact (int_key_ok 2 eq_refl).
Defined.

Lemma accessors_agree_witness : exists t',
  @set_int demo_heap demo_table 3 TRUE = Some t' /\ @table_inv demo_heap t' /\
  @get demo_heap t' (f64_of_int 3) = Some TRUE.
Proof.
  destruct (@accessors_agree demo_heap demo_table 3 demo_key TRUE demo_inv
    (srange_dec 3 eq_refl) demo_key_ok eq_refl
    (proj2 (proj2 value_ok_prim)) ltac:(apply Z.leb_le; vm_compute; reflexivity))
    as (_ & _ & (t' & E & Hi & Hg) & _).
  exists t'. split; [exact E|]. split; [exact Hi|].
  rewrite (Hg (f64_of_int 3)); [reflexivity|].
  exact (int_key_ok 3 eq_refl).
Defined.

(** ** The unnormalized negative zero *)

(** [get] and [set] compare the raw bits of a key and [set] stores the
    normalized one, so a table that holds key 0 in its hash part does not find
    it under the word of [-0.0] (which [number_raw] arithmetic produces), and
    setting under that word adds a second node with key 0. *)
Lemma mzero_duplicates_key :
  (let? t0 := new 0 1 in
   let? t1 := @set demo_heap t0 (number 0) TRUE in
   let? v0 := @get demo_heap t1 (number 0) in
   let? v1 := @get demo_heap t1 (number_raw (2 ^ 63)) in
   let? t2 := @set demo_heap t1 (number_raw (2 ^ 63)) FALSE in
   Some (v0, v1, hash_entries t2)) = Some (TRUE, NIL, [(number 0, TRUE); (number 0, FALSE)]).
Proof. vm_compute. reflexivity. Qed.
