(* ===== verification/TableIter.v ===== *)
(** * Length and traversal

    [len] terminates and returns a border; iterating [next] from nil lists
    every live entry once, array part first. *)

From Stdlib Require Import ZArith Lia Bool.
From stdpp Require Import base decidable numbers option functions list.
From S2P Require Import Prelude Float64 Value Table TableHash TableInv TableSet TableResize TableRehash TableSpec.

Section Len.
Context `{StrHeap}.

(** ** Binary search *)

(** With [n] units of fuel a gap of [2^(n-1)] closes. *)
Lemma bisect_spec (nil_at : Z -> option bool) fuel : forall lo hi,
  lo < hi -> hi - lo <= 2 ^ (Z.of_nat fuel) ->
  (forall i, lo < i < hi -> is_Some (nil_at i)) -> nil_at hi = Some true ->
  exists r, bisect (S fuel) nil_at lo hi = Some r /\ lo <= r < hi /\
    nil_at (r + 1) = Some true /\ (r = lo \/ nil_at r = Some false).
Proof.
  induction fuel as [|fuel IH]; intros lo hi Hlt Hgap Htot Hhi.
  - cbn [bisect]. change (2 ^ Z.of_nat 0) with 1 in Hgap. destruct (Z.ltb_spec 1 (hi - lo)); [lia|].
    exists lo. split; [done|]. split; [lia|]. replace (lo + 1) with hi by lia. auto.
  - remember (S fuel) as f eqn:Ef. cbn [bisect]. subst f.
    destruct (Z.ltb_spec 1 (hi - lo)) as [Hw|Hw].
    + replace (Z.of_nat (S fuel)) with (Z.succ (Z.of_nat fuel)) in Hgap by lia.
      rewrite Z.pow_succ_r in Hgap by lia.
      pose proof (Z.div_mod (lo + hi) 2 ltac:(lia)).
      pose proof (Z.mod_pos_bound (lo + hi) 2 ltac:(lia)).
      set (mid := (lo + hi) / 2) in *. assert (lo < mid < hi) as Hmid by lia. clearbody mid.
      destruct (Htot mid Hmid) as [b Eb]. rewrite Eb. destruct b.
      * destruct (IH lo mid) as (r & E & ? & ? & ?); [lia|nia| |done|].
        { intros i Hi. apply Htot. lia. }
        exists r. split_and!; try done; lia.
      * destruct (IH mid hi) as (r & E & ? & ? & Hor); [lia|nia| |done|].
        { intros i Hi. apply Htot. lia. }
        exists r. split_and!; try done; try lia. right. destruct Hor as [->|]; done.
    + exists lo. split; [done|]. split; [lia|]. replace (lo + 1) with hi by lia. auto.
Qed.

(** ** Some integer key is free *)

Section Tab.
Context (t : LuaTable).
Hypothesis Hi : table_inv t.

Lemma int_nil_at_spec i : srange 32 i -> exists v, get_int t i = Some v /\ value_ok v /\
  int_nil_at t i = Some (is_nil v).
Proof.
  intros Hs. pose proof (key_ok_of_int i Hs) as Hk. destruct (f64_of_int_number i Hs) as [_ En].
  rewrite En in Hk. destruct (get_total t _ Hi Hk) as (v & Ev & Hv).
  exists v. unfold int_nil_at. rewrite get_int_get by done. by rewrite Ev.
Qed.

Lemma int_nil_at_true i : srange 32 i -> int_nil_at t i = Some true <-> get_int t i = Some NIL.
Proof.
  intros Hs. destruct (int_nil_at_spec i Hs) as (v & -> & Hv & ->). split.
  - intros [= E]. apply is_nil_NIL in E as ->; done.
  - by intros [= ->].
Qed.

Lemma int_nil_at_false i : srange 32 i -> int_nil_at t i = Some false <-> get_int t i <> Some NIL.
Proof.
  intros Hs. destruct (int_nil_at_spec i Hs) as (v & -> & Hv & ->). split.
  - by intros [= E] [= ->].
  - intros Hn. f_equal. apply is_nil_false; [done|congruence].
Qed.

(** Beyond the array part there are more integer keys than nodes. *)
Lemma int_key_free : exists m, 1 <= m < 2 ^ 28 /\ get_int t m = Some NIL.
Proof.
  destruct (ti_asize _ Hi) as [El Emax]. rewrite LJ_MAX_ASIZE_val in Emax.
  pose proof (zlen_nonneg (array t)).
  set (a := Z.max 1 (asize t)).
  destruct (ti_hash _ Hi) as [Em|[nd Hp]].
  { exists a. split; [lia|]. rewrite get_int_get by (done || unfold srange; lia).
    apply get_no_hpart; [done|]. rewrite int_key_index by (unfold srange; lia).
    destruct (Z.ltb_spec a (asize t)); [lia|]. by rewrite andb_false_r. }
  pose proof (hp_bounds _ _ Hp) as HN. set (N := hmask t + 1) in *.
  destruct (decide (Forall (fun i => get_int t i <> Some NIL) (zrange a (a + N + 1)))) as [Hf|Hf].
  - exfalso. rewrite Forall_forall in Hf.
    assert (f64_of_int <$> zrange a (a + N + 1) ⊆+ (fun j => key (nd j)) <$> zrange 0 N) as Hsub.
    { apply NoDup_submseteq.
      - apply NoDup_fmap_2_strong; [|apply NoDup_zrange].
        intros x y Hx%elem_of_zrange Hy%elem_of_zrange. apply f64_of_int_inj; unfold srange; lia.
      - intros k (i & -> & Hin)%list_elem_of_fmap. pose proof (Hf i Hin) as Hn.
        apply elem_of_zrange in Hin.
        assert (srange 32 i) as Hs by (unfold srange; lia).
        rewrite get_int_get in Hn by done. pose proof (key_ok_of_int i Hs) as Hk.
        destruct (f64_of_int_number i Hs) as [_ En]. rewrite En in Hk.
        assert (array_index t (f64_of_int i) = None) as Ha.
        { rewrite int_key_index by done. destruct (Z.ltb_spec i (asize t)); [lia|].
          by rewrite andb_false_r. }
        destruct (get_hash t nd Hp _ Hk Ha) as (v & Ev & _ & Hv). rewrite Ev in Hn.
        destruct (proj1 (Hv v ltac:(congruence)) eq_refl) as (j & Hj & Ej & _).
        apply list_elem_of_fmap. exists j. split; [done|]. by apply elem_of_zrange. }
    apply submseteq_length in Hsub. rewrite !length_fmap in Hsub. unfold zrange in Hsub.
    rewrite !length_fmap, !length_seq in Hsub. lia.
  - apply not_Forall_Exists in Hf; [|apply _]. apply Exists_exists in Hf as (i & Hin & E).
    apply elem_of_zrange in Hin. exists i. split; [lia|]. by apply dec_stable.
Qed.

Lemma scan_border_spec m fuel : 1 <= m < 2 ^ 31 -> int_nil_at t m = Some true -> forall i, 1 <= i <= m ->
  m - i < Z.of_nat fuel -> (i = 1 \/ int_nil_at t (i - 1) = Some false) ->
  exists r, scan_border fuel t i = Some r /\ 0 <= r < m /\ int_nil_at t (r + 1) = Some true /\
    (r = 0 \/ int_nil_at t r = Some false).
Proof.
  intros Hm Em. induction fuel as [|fuel IH]; intros i Hir Hf Hprev; [lia|]. cbn [scan_border].
  destruct (int_nil_at_spec i) as (v & _ & _ & Ei); [unfold srange; lia|]. rewrite Ei.
  destruct (is_nil v) eqn:Ev.
  - exists (i - 1). split; [done|]. split; [lia|]. replace (i - 1 + 1) with i by lia.
    split; [done|]. destruct Hprev as [->|]; [by left|by right].
  - assert (i <> m) by (intros ->; congruence). apply IH; [lia..|].
    right. by replace (i + 1 - 1) with i by lia.
Qed.

Lemma len_hash_loop_spec fuel : forall lo hi, 0 <= lo < hi -> hi < 2 ^ 31 - 1 ->
  2 ^ (33 - Z.of_nat fuel) <= hi -> (fuel <= 33)%nat ->
  (lo = 0 \/ int_nil_at t lo = Some false) ->
  exists r, len_hash_loop fuel t lo hi = Some r /\ 0 <= r < 2 ^ 31 - 1 /\
    int_nil_at t (r + 1) = Some true /\ (r = 0 \/ int_nil_at t r = Some false).
Proof.
  induction fuel as [|fuel IH]; intros lo hi Hlo Hhi Hpow Hfu Hprev.
  { change (2 ^ (33 - Z.of_nat 0)) with (2 ^ 33) in Hpow. lia. }
  cbn [len_hash_loop]. destruct (int_nil_at_spec hi) as (v & _ & _ & Ehi); [unfold srange; lia|].
  rewrite Ehi. destruct (is_nil v).
  - destruct (bisect_spec (int_nil_at t) 32 lo hi) as (r & -> & ? & ? & Hor); [lia| | |done|].
    + change (2 ^ Z.of_nat 32) with (2 ^ 32). lia.
    + intros i Hir. destruct (int_nil_at_spec i) as (? & _ & _ & ->); [unfold srange; lia|done].
    + exists r. split_and!; try done; try lia. destruct Hor as [->|]; auto.
  - change ((0x7fffffff - 2) / 2) with 1073741822.
    destruct (Z.ltb_spec 1073741822 hi).
    + destruct int_key_free as (m & Hm & Em). apply int_nil_at_true in Em; [|unfold srange; lia].
      destruct (scan_border_spec m (Z.to_nat (2 ^ 31)) ltac:(lia) Em 1) as (r & -> & ? & ? & ?);
        [lia|lia|by left|]. exists r. split_and!; try done; lia.
    + apply IH; try done; try lia; [|by right].
      replace (33 - Z.of_nat fuel) with (Z.succ (33 - Z.of_nat (S fuel))) by lia.
      rewrite Z.pow_succ_r by lia. lia.
Qed.

(** C6. [len] terminates without a panic and returns a border: a length [n]
    such that [t[n+1]] is nil and [t[n]] is not, or [n] is 0. *)
Theorem len_border : exists n, len t = Some n /\ 0 <= n < 2 ^ 31 - 1 /\
  get_int t (n + 1) = Some NIL /\ (n = 0 \/ get_int t n <> Some NIL).
Proof.
  destruct (ti_asize _ Hi) as [El Emax]. rewrite LJ_MAX_ASIZE_val in Emax.
  pose proof (zlen_nonneg (array t)).
  enough (exists n, len t = Some n /\ 0 <= n < 2 ^ 31 - 1 /\ int_nil_at t (n + 1) = Some true /\
    (n = 0 \/ int_nil_at t n = Some false)) as (n & E & Hn & E1 & E2).
  { exists n. split; [done|]. split; [done|].
    rewrite int_nil_at_true in E1 by (unfold srange; lia).
    rewrite int_nil_at_false in E2 by (unfold srange; lia). done. }
  assert (forall i, 0 <= i < asize t -> array_nil_at t i = int_nil_at t i) as Harr.
  { intros i Hii. unfold array_nil_at, int_nil_at. unfold get_int.
    destruct (Z.leb_spec 0 i); [|lia]. rewrite !uwrap_small by (unfold urange; lia).
    by destruct (Z.ltb_spec i (asize t)); [|lia]. }
  unfold len. set (hi := if asize t =? 0 then 0 else asize t - 1).
  assert (hi = Z.max 0 (asize t - 1)) as Ehi by (unfold hi; destruct (Z.eqb_spec (asize t) 0); lia).
  assert (exists b, (if 0 <? hi then array_nil_at t hi else Some false) = Some b /\
    (0 < hi -> int_nil_at t hi = Some b)) as (b & -> & Hb).
  { destruct (Z.ltb_spec 0 hi); [|by exists false; split; [|lia]].
    rewrite Harr by lia. destruct (int_nil_at_spec hi) as (v & _ & _ & ->); [unfold srange; lia|].
    by exists (is_nil v). }
  destruct (_ && _) eqn:Ec.
  - apply andb_true_iff in Ec as [Hpos%Z.ltb_lt ->].
    destruct (bisect_spec (array_nil_at t) 32 0 hi) as (r & -> & ? & E1 & Hor); [lia| | | |].
    + change (2 ^ Z.of_nat 32) with (2 ^ 32). lia.
    + intros i Hii. rewrite Harr by lia.
      destruct (int_nil_at_spec i) as (? & _ & _ & ->); [unfold srange; lia|done].
    + rewrite Harr by lia. auto.
    + exists r. rewrite Harr in E1 by lia. split_and!; try done; try lia.
      destruct Hor as [->|Er]; [by left|right]. by rewrite Harr in Er by lia.
  - assert (hi = 0 \/ int_nil_at t hi = Some false) as Hprev.
    { destruct (Z.ltb_spec 0 hi); [|left; lia]. right. rewrite Hb by done.
      by destruct b. }
    destruct (has_hpart t) eqn:Ehp; cbn [negb].
    + unfold len_hash. apply len_hash_loop_spec; [lia|lia| |lia|done].
      change (2 ^ (33 - Z.of_nat 33)) with 1. lia.
    + exists hi. split_and!; try done; try lia.
      apply int_nil_at_true; [unfold srange; lia|]. rewrite get_int_get by (done || unfold srange; lia).
      apply get_no_hpart.
      * unfold has_hpart in Ehp. by destruct (Z.eqb_spec (hmask t) 0).
      * rewrite int_key_index by (unfold srange; lia).
        destruct (Z.ltb_spec (hi + 1) (asize t)); [lia|]. by rewrite andb_false_r.
Qed.

End Tab.
End Len.

Section Next.
Context `{StrHeap}.

(** Iterating [next] to the end, as [pairs] does. *)
Fixpoint traverse (fuel : nat) (t : LuaTable) (k : LuaValue) : option (list (LuaValue * LuaValue)) :=
  match fuel with
  | O => None
  | S fuel =>
      let? r := next t k in
      match r with
      | None => Some []
      | Some (k', v) => let? l := traverse fuel t k' in Some ((k', v) :: l)
      end
  end.

(** The entries at traversal index [p] and later. *)
Definition array_entries (t : LuaTable) (p : Z) : list (LuaValue * LuaValue) :=
  (fun i => (f64_of_int i, default NIL (znth (array t) i))) <$> slots (array t) p (asize t).
Definition node_entries (t : LuaTable) (p : Z) : list (LuaValue * LuaValue) :=
  if has_hpart t then live_nodes (drop (Z.to_nat p) (node t)) else [].
Definition entries_from (t : LuaTable) (p : Z) : list (LuaValue * LuaValue) :=
  array_entries t p ++ node_entries t (p - asize t).

Section Tab.
Context (t : LuaTable).
Hypothesis Hi : table_inv t.

Definition node_count : Z := if has_hpart t then hmask t + 1 else 0.

Lemma asize_bounds : 0 <= asize t <= 2 ^ 27 + 1.
Proof. destruct (ti_asize _ Hi) as [El Emax]. pose proof (zlen_nonneg (array t)). rewrite <- LJ_MAX_ASIZE_val. lia. Qed.

Lemma node_count_bounds : 0 <= node_count <= 2 ^ 26.
Proof.
  unfold node_count, has_hpart. destruct (ti_hash _ Hi) as [->|[nd Hp]]; [done|].
  pose proof (hp_bounds _ _ Hp). destruct (hmask t =? 0); cbn [negb]; lia.
Qed.

Lemma next_array_spec fuel : forall idx, 0 <= idx -> (Z.to_nat (asize t - idx) < fuel)%nat ->
  exists r, next_array fuel t idx = Some r /\
  match r with
  | inr (k, v) => exists q, idx <= q < asize t /\ key_index t k = Some (q + 1) /\
      array_entries t idx = (k, v) :: array_entries t (q + 1)
  | inl p => p = Z.max idx (asize t) /\ array_entries t idx = []
  end.
Proof.
  pose proof asize_bounds as Hb. destruct (ti_asize _ Hi) as [El _].
  induction fuel as [|fuel IH]; intros idx Hidx Hf; [lia|]. cbn [next_array].
  destruct (Z.ltb_spec idx (asize t)) as [Hlt|Hge].
  - destruct (znth_lt_Some (array t) idx) as [v Ev]; [lia|]. rewrite Ev.
    assert (array_entries t idx = (if is_nil v then [] else [(f64_of_int idx, v)]) ++
      array_entries t (idx + 1)) as Ee.
    { unfold array_entries, slots. rewrite (zrange_cons idx) by lia. rewrite filter_cons.
      assert (nonnil (array t) idx <-> is_nil v = false) as Hn by (unfold nonnil; by rewrite Ev).
      destruct (is_nil v); [rewrite decide_False by (by rewrite Hn)|rewrite decide_True by (by apply Hn)];
        [done|]. rewrite fmap_cons, Ev. done. }
    destruct (is_nil v); cbn [negb].
    + destruct (IH (idx + 1)) as (r & -> & Hr); [lia|lia|]. exists r. split; [done|]. rewrite Ee.
      destruct r as [p|[k w]]; [|].
      * destruct Hr as [-> Er]. split; [lia|done].
      * destruct Hr as (q & ? & ? & ?). exists q. split_and!; try done; lia.
    + assert (srange 32 idx) as Hs by (unfold srange; lia).
      destruct (f64_of_int_number idx Hs) as [_ En]. rewrite En.
      pose proof (key_ok_of_int idx Hs) as Hk. rewrite En in Hk.
      eexists. split; [done|]. cbv beta iota. exists idx. split; [lia|]. split; [|done].
      unfold key_index. rewrite key_ok_not_nil, int_key_index by done. rewrite LJ_MAX_ASIZE_val.
      destruct (Z.leb_spec 0 idx); [|lia]. destruct (Z.ltb_spec idx (2 ^ 27 + 1)); [|lia].
      by destruct (Z.ltb_spec idx (asize t)); [|lia].
  - exists (inl idx). split; [done|]. split; [lia|]. unfold array_entries, slots. by rewrite zrange_nil by lia.
Qed.

Lemma next_hash_spec fuel : forall idx, 0 <= idx -> (Z.to_nat (node_count - idx) < fuel)%nat ->
  exists r, next_hash fuel t idx = Some r /\
  match r with
  | Some (k, v) => exists q, idx <= q < node_count /\ key_index t k = Some (asize t + q + 1) /\
      node_entries t idx = (k, v) :: node_entries t (q + 1)
  | None => node_entries t idx = []
  end.
Proof.
  unfold node_count, node_entries.
  induction fuel as [|fuel IH]; intros idx Hidx Hf; [lia|]. cbn [next_hash].
  destruct (has_hpart t) eqn:Hh; [|by exists None]. cbn [andb].
  destruct (ti_hash _ Hi) as [Em|[nd Hp]]; [unfold has_hpart in Hh; by rewrite Em in Hh|].
  destruct (hp_repr _ _ Hp) as [Elen En].
  destruct (Z.leb_spec idx (hmask t)) as [Hle|Hgt].
  - assert (inN (hmask t + 1) idx) as Hin by (unfold inN; lia).
    rewrite (node_slot_nd _ _ Hp) by done.
    assert (live_nodes (drop (Z.to_nat idx) (node t)) =
      (if is_nil (val (nd idx)) then [] else [(key (nd idx), val (nd idx))]) ++
      live_nodes (drop (Z.to_nat (idx + 1)) (node t))) as Ee.
    { replace (Z.to_nat (idx + 1)) with (S (Z.to_nat idx)) by lia.
      rewrite (drop_S _ (nd idx)).
      - rewrite live_nodes_cons. by destruct (is_nil (val (nd idx))).
      - specialize (En idx Hin). unfold znth in En. by destruct (Z.ltb_spec idx 0). }
    destruct (is_nil (val (nd idx))) eqn:Ev; cbn [negb].
    + destruct (IH (idx + 1)) as (r & -> & Hr); [lia|lia|]. exists r. split; [done|]. rewrite Ee.
      destruct r as [[k w]|]; [|done]. destruct Hr as (q & ? & ? & ?). exists q. split_and!; try done; lia.
    + eexists. split; [done|]. cbv beta iota. exists idx. split; [lia|]. split; [|done].
      assert (key_ok (key (nd idx))) as Hk.
      { destruct (hi_key _ _ _ _ (hp_hash _ _ Hp) idx Hin) as [E|]; [|done].
        destruct (hi_nil _ _ _ _ (hp_hash _ _ Hp) idx Hin E) as [E' _]. by rewrite E' in Ev. }
      unfold key_index. rewrite key_ok_not_nil by done.
      assert (array_index t (key (nd idx)) = None) as -> by (apply Hp; [done|apply Hk]).
      rewrite Hh, hash_slot_ok by done.
      destruct (chain_find_slot _ _ Hp _ Hk) as ([j|] & -> & Hj).
      * destruct Hj as [Hj Ej]. f_equal.
        assert (j = idx) as ->; [|done].
        apply (hi_uniq _ _ _ _ (hp_hash _ _ Hp)); try done. rewrite Ej. apply Hk.
      * by destruct (Hj idx).
  - exists None. split; [done|]. rewrite drop_ge; [done|]. unfold zlen in Elen. lia.
Qed.

(** One step from a traversal index. *)
Lemma next_from_spec k p : key_index t k = Some p -> 0 <= p <= asize t + node_count ->
  (next t k = Some None /\ entries_from t p = []) \/
  exists k' v q, next t k = Some (Some (k', v)) /\ p <= q < asize t + node_count /\
    key_index t k' = Some (q + 1) /\ entries_from t p = (k', v) :: entries_from t (q + 1).
Proof.
  intros Ek Hp. pose proof asize_bounds. pose proof node_count_bounds. unfold next. rewrite Ek.
  change (unot 32 0) with 4294967295. destruct (Z.eqb_spec p 4294967295); [lia|].
  destruct (next_array_spec (S (Z.to_nat (asize t - p))) p) as ([idx|[k' v]] & -> & Hr); [lia|lia| |].
  - destruct Hr as [-> Er].
    destruct (next_hash_spec (S (Z.to_nat (hmask t + 1))) (Z.max p (asize t) - asize t))
      as (r & -> & Hr); [lia| |].
    { unfold node_count. destruct (has_hpart t) eqn:Hh; [|lia].
      destruct (ti_hash _ Hi) as [Em|[nd Hpp]]; [unfold has_hpart in Hh; by rewrite Em in Hh|].
      pose proof (hp_bounds _ _ Hpp). lia. }
    assert (entries_from t p = node_entries t (Z.max p (asize t) - asize t)) as Ef.
    { unfold entries_from. rewrite Er. cbn [app]. unfold node_entries. destruct (has_hpart t); [|done].
      f_equal. f_equal. lia. }
    rewrite Ef. destruct r as [[k' v]|]; [right|by left]. destruct Hr as (q & ? & ? & Eq).
    exists k', v, (asize t + q). split; [done|]. split; [lia|]. split; [done|]. rewrite Eq. f_equal.
    unfold entries_from, array_entries, slots. rewrite zrange_nil by lia. cbn. f_equal. lia.
  - destruct Hr as (q & ? & ? & Eq). right. exists k', v, q. split; [done|]. split; [lia|].
    split; [done|]. unfold entries_from. rewrite Eq. cbn [app]. f_equal. f_equal.
    unfold node_entries. destruct (has_hpart t); [|done]. f_equal. f_equal. lia.
Qed.

Lemma traverse_from n : forall k p, key_index t k = Some p -> 0 <= p <= asize t + node_count ->
  (length (entries_from t p) < n)%nat -> traverse n t k = Some (entries_from t p).
Proof.
  induction n as [|n IH]; intros k p Ek Hp Hn; [lia|]. cbn [traverse].
  destruct (next_from_spec k p Ek Hp) as [[-> ->]|(k' & v & q & -> & Hq & Ek' & Ee)]; [done|].
  rewrite Ee in Hn |- *. cbn [length] in Hn. rewrite (IH k' (q + 1)) by (done || lia). done.
Qed.

(** C5. Iterating [next] from nil terminates and lists exactly the live
    entries: every key that maps to a non-nil value appears once with its
    value, nothing else appears, and the array part comes first in order. *)
Theorem next_traverses :
  traverse (S (length (entries_from t 0))) t NIL = Some (entries_from t 0) /\
  NoDup (entries_from t 0).*1 /\
  (forall k v, key_ok k -> (k, v) ∈ entries_from t 0 <-> v <> NIL /\ get t k = Some v).
Proof.
  pose proof asize_bounds as Hb. pose proof node_count_bounds. destruct (ti_asize _ Hi) as [El Emax].
  split; [|].
  { apply traverse_from; [done|lia|lia]. }
  assert (forall k v, key_ok k -> (k, v) ∈ array_entries t 0 <->
    exists i, 0 <= i < asize t /\ znth (array t) i = Some v /\ v <> NIL /\ k = f64_of_int i) as HA.
  { intros k v Hk. unfold array_entries. rewrite list_elem_of_fmap. split.
    - intros (i & [= -> ->] & [Hir Hn]%elem_of_slots). exists i. split; [done|].
      destruct (znth_lt_Some (array t) i) as [w Ew]; [lia|]. unfold nonnil in Hn. rewrite Ew in Hn |- *.
      cbn in *. split_and!; try done. intros ->. done.
    - intros (i & Hir & Ev & Hv & ->). exists i. rewrite Ev. split; [done|]. apply elem_of_slots.
      split; [done|]. unfold nonnil. rewrite Ev. apply is_nil_false; [|done].
      by apply (Forall_znth _ _ _ _ (ti_vals _ Hi) Ev). }
  assert (node_entries t (0 - asize t) = hash_entries t) as Eh.
  { unfold node_entries, hash_entries, has_hpart.
    destruct (ti_hash _ Hi) as [->|[nd Hp]]; [done|]. pose proof (hp_bounds _ _ Hp).
    destruct (Z.eqb_spec (hmask t) 0); [lia|]. destruct (Z.ltb_spec 0 (hmask t)); [|lia]. cbn [negb].
    by replace (Z.to_nat (0 - asize t)) with 0%nat by lia. }
  unfold entries_from. rewrite Eh. destruct (hash_entries_spec t Hi) as (HL & HnL & EL).
  split.
  - rewrite fmap_app. apply NoDup_app. split_and!; [| |done].
    + unfold array_entries. rewrite <- list_fmap_compose. apply NoDup_fmap_2_strong.
      * intros x y [Hx _]%elem_of_slots [Hy _]%elem_of_slots E. cbn in E.
        apply f64_of_int_inj in E; [done|unfold srange; lia..].
      * apply list.NoDup_filter, NoDup_zrange.
    + intros k ((k1 & v1) & -> & H1)%list_elem_of_fmap ((k2 & v2) & E & H2)%list_elem_of_fmap.
      cbn in E. subst k2. rewrite Forall_forall in HL. pose proof (HL _ H2) as [Hk _]. cbn in Hk.
      apply EL in H2 as (_ & Ha & _); [|done]. cbn in H1. apply HA in H1 as (i & ? & _ & _ & ->); [|done].
      rewrite int_key_index in Ha by (unfold srange; lia). rewrite LJ_MAX_ASIZE_val in Ha.
      destruct (Z.leb_spec 0 i); [|lia]. destruct (Z.ltb_spec i (2 ^ 27 + 1)); [|lia].
      by destruct (Z.ltb_spec i (asize t)); [|lia].
  - intros k v Hk. rewrite elem_of_app, HA, EL by done. split.
    + intros [(i & Hir & Ev & Hv & ->)|(? & _ & ?)]; [|done]. split; [done|].
      assert (array_index t (f64_of_int i) = Some i) as Ea.
      { apply array_index_spec; [done|]. rewrite LJ_MAX_ASIZE_val. split_and!; try lia; done. }
      unfold get. by rewrite Ea.
    + intros [Hv Eg]. destruct (array_index t k) as [i|] eqn:Ea; [left|by right].
      destruct (get_array t k i Hi Hk Ea) as (w & Ew & Ez & _).
      apply array_index_spec in Ea as (? & ? & ->); [|done]. exists i.
      split_and!; try lia; congruence.
Qed.

End Tab.
End Next.

Lemma len_border_witness : exists n, @len demo_heap demo_table = Some n /\
  @get_int demo_heap demo_table (n + 1) = Some NIL.
Proof.
  destruct (@len_border demo_heap demo_table demo_inv) as (n & E & _ & En & _). by exists n.
Defined.

Lemma next_traverses_witness :
  @traverse demo_heap 3 demo_table NIL =
    Some [(f64_of_int 1, f64_of_int 10); (f64_of_int 2, f64_of_int 20)].
Proof. exact (proj1 (@next_traverses demo_heap demo_table demo_inv)). Defined.
