(* ===== verification/TableGc.v ===== *)
(** * The table under the collector

    What [gc_traverse] marks, how [clear_weak_entries] drops entries, and
    [dup], the copy of a template table.  The objects' mark bits and the
    tables behind metatable pointers are read through [GcView]. *)

From Stdlib Require Import ZArith Lia Bool.
From stdpp Require Import base decidable numbers option functions list.
From S2P Require Import Prelude Float64 Value Table TableHash TableInv TableSet TableResize TableRehash TableSpec TableIter.

Definition WEAKKEY : Z := 0x08.
Definition WEAKVAL : Z := 0x10.

(** The state of the heap that table code reads. *)
Class GcView := {
  is_marked : Z -> bool;
  is_dead : Z -> Z -> bool;
  is_finalized : Z -> bool;
  table_at : Z -> LuaTable;
}.

Section Gc.
Context `{StrHeap} `{GcView}.

(** [k] and [v] of the mode string. *)
Definition mode_bits (bytes : list Z) : Z :=
  foldl (fun mode c => if c =? 107 then Z.lor mode WEAKKEY
                       else if c =? 118 then Z.lor mode WEAKVAL else mode) 0 bytes.

(** "__mode" *)
Definition MODE_NAME : list Z := [95; 95; 109; 111; 100; 101].

Fixpoint scan_nodes (ns : list Node) (name : list Z) : option LuaValue :=
  match ns with
  | [] => None
  | nd :: ns =>
      if is_nil (val nd) then scan_nodes ns name
      else match as_string (key nd) with
      | Some s => if decide (str_bytes s = name) then Some (val nd) else scan_nodes ns name
      | None => scan_nodes ns name
      end
  end.

Definition scan_str_key (t : LuaTable) (name : list Z) : option LuaValue :=
  if negb (has_hpart t) then None else scan_nodes (node t) name.

Definition weak_mode (t : LuaTable) : Z :=
  match metatable t with
  | None => 0
  | Some mt =>
      match scan_str_key (table_at mt) MODE_NAME with
      | Some v => match as_string v with Some s => mode_bits (str_bytes s) | None => 0 end
      | None => 0
      end
  end.

(** The values marked, in order, and the weak mode returned. *)
Definition gc_traverse (t : LuaTable) : list LuaValue * Z :=
  let weak := weak_mode t in
  let mt := match metatable t with Some mt => [table mt] | None => [] end in
  let live := filter (fun nd => is_nil (val nd) = false) (node t) in
  if negb (weak =? 0) then
    (mt ++ (if Z.land weak WEAKVAL =? 0 then array t else []) ++
     (if has_hpart t then
        mjoin ((fun nd => (if Z.land weak WEAKKEY =? 0 then [key nd] else []) ++
                          (if Z.land weak WEAKVAL =? 0 then [val nd] else [])) <$> live)
      else []), weak)
  else
    (mt ++ array t ++ (if has_hpart t then mjoin ((fun nd => [key nd; val nd]) <$> live) else []), 0).

(** Whether the collector drops [v]; strings are kept, and marked (second
    component) on the way. *)
Definition may_clear (v : LuaValue) (is_val : bool) (cw : Z) : bool * list Z :=
  if itype v =? LJ_TSTR then (false, match as_string v with Some p => [p] | None => [] end)
  else
    (if itype v =? LJ_TTAB then match as_table v with Some p => negb (is_marked p) | None => false end
     else if itype v =? LJ_TFUNC then match as_func v with Some p => negb (is_marked p) | None => false end
     else if itype v =? LJ_TTHREAD then match as_thread v with Some p => negb (is_marked p) | None => false end
     else if itype v =? LJ_TUDATA then
       match as_userdata v with
       | Some p => if is_val then is_dead p cw || is_finalized p else is_dead p cw
       | None => false
       end
     else if itype v =? LJ_TCDATA then match as_cdata v with Some p => negb (is_marked p) | None => false end
     else false, []).

Definition clear_node (cw : Z) (nd : Node) : Node * list Z :=
  if is_nil (val nd) then (nd, [])
  else
    let '(bk, mk) := may_clear (key nd) false cw in
    if bk then (set_val NIL nd, mk)
    else
      let '(bv, mv) := may_clear (val nd) true cw in
      ((if bv then set_val NIL nd else nd), mk ++ mv).

Definition clear_slot (cw : Z) (v : LuaValue) : LuaValue * list Z :=
  let '(b, m) := may_clear v true cw in ((if b then NIL else v), m).

(** The table after the clearing, and the strings it marked. *)
Definition clear_weak_entries (t : LuaTable) (mode cw : Z) : LuaTable * list Z :=
  let a := if negb (Z.land mode WEAKVAL =? 0) then clear_slot cw <$> array t
           else (fun v => (v, [])) <$> array t in
  let n := if negb (Z.land mode (Z.lor WEAKKEY WEAKVAL) =? 0) then clear_node cw <$> node t
           else (fun nd => (nd, [])) <$> node t in
  (mkTable a.*1 n.*1 (asize t) (hmask t) (freetop t) (nomm t) (metatable t),
   mjoin a.*2 ++ mjoin n.*2).

(** ** Rewriting values in place *)

(** Both [dup] and [clear_weak_entries] map the values and keep the nodes. *)
Section MapVals.
Context (t : LuaTable) (fa : LuaValue -> LuaValue) (fn : LuaValue -> LuaValue -> LuaValue).
Context (m : Z) (mt : option Z) (ns : list Node).
Hypothesis Hi : table_inv t.
Hypothesis Hfa : fa NIL = NIL /\ forall v, value_ok v -> value_ok (fa v).
Hypothesis Hfn : (forall k, fn k NIL = NIL) /\ forall k v, value_ok v -> value_ok (fn k v).
Hypothesis Hns : hmask t <> 0 -> ns = (fun nd => set_val (fn (key nd) (val nd)) nd) <$> node t.

Definition mapped : LuaTable := mkTable (fa <$> array t) ns (asize t) (hmask t) (freetop t) m mt.

Lemma mapped_hpart nd : hpart_inv t nd ->
  hpart_inv mapped (fun i => set_val (fn (key (nd i)) (val (nd i))) (nd i)).
Proof.
  intros Hp. pose proof (hp_bounds _ _ Hp). destruct Hp as [Hs [El En] Hh Hr]. split; try done.
  - unfold mapped. cbn [node hmask]. rewrite Hns by lia. split; [unfold zlen in *; by rewrite length_fmap|].
    intros i Hi'. specialize (En i Hi'). unfold znth in *. destruct (i <? 0); [done|].
    by rewrite list_lookup_fmap, En.
  - cbn [hmask mapped freetop]. destruct Hh. split; cbn [key next_ val set_val]; try done.
    + intros i Hin. apply Hfn. auto.
    + intros i Hin Hk. destruct (hi_nil i Hin Hk) as (Ev & ? & ?). split; [|done].
      rewrite Ev. apply Hfn.
    + intros i Hin Hk. eapply reach_same_next; [|by apply hi_reach]. done.
Qed.

Lemma mapped_inv : table_inv mapped.
Proof.
  destruct Hi as [[El Em] Hv Hh]. split; cbn [array asize mapped].
  - unfold zlen in *. by rewrite length_fmap.
  - apply Forall_fmap. eapply Forall_impl; [exact Hv|]. intros v. apply Hfa.
  - destruct Hh as [?|[nd Hp]]; [by left|right]. eexists. by apply mapped_hpart.
Qed.

Lemma mapped_get k v : key_ok k -> get t k = Some v ->
  get mapped k = Some (match array_index t k with Some _ => fa v | None => fn k v end).
Proof.
  intros Hk Eg. destruct (array_index t k) as [i|] eqn:Ea.
  - unfold get in *. rewrite (array_index_asize t), Ea by done. rewrite Ea in Eg. cbn [array mapped].
    unfold znth in *. destruct (i <? 0); [done|]. by rewrite list_lookup_fmap, Eg.
  - destruct (ti_hash _ Hi) as [Em|[nd Hp]].
    + rewrite get_no_hpart in Eg |- * by done. injection Eg as <-. f_equal. symmetry. apply Hfn.
    + pose proof (mapped_hpart nd Hp) as Hp'.
      destruct (get_hash t nd Hp k Hk Ea) as (v' & Ev' & _ & Hv). rewrite Ev' in Eg. injection Eg as ->.
      destruct (get_hash mapped _ Hp' k Hk) as (w & -> & _ & Hw); [by rewrite (array_index_asize t)|].
      f_equal. destruct (decide (w = NIL)) as [->|Hwn].
      * destruct (decide (fn k v = NIL)) as [|Hn]; [done|].
        apply (Hw _ Hn). destruct (decide (v = NIL)) as [->|Hvn]; [by destruct Hn; apply Hfn|].
        destruct (proj1 (Hv v Hvn) eq_refl) as (i & ? & Ek & Eval). exists i. cbn. by rewrite Ek, Eval.
      * destruct (proj1 (Hw w Hwn) eq_refl) as (i & Hin & Ek & Ev). cbn in Ek, Ev.
        assert (v = val (nd i)) as ->; [|congruence].
        assert (val (nd i) <> NIL) as Hvn.
        { intros E0. rewrite E0 in Ev. apply Hwn. rewrite <- Ev. apply Hfn. }
        apply (Hv _ Hvn). by exists i.
Qed.
End MapVals.

(** [dup] copies a template: the copy is a well-formed table that reads
    like the original, except that table values (the markers of keys with
    runtime values) read nil; it has no metatable. *)
Theorem dup_spec (t : LuaTable) (Hi : table_inv t) :
  table_inv (dup t) /\ metatable (dup t) = None /\
  forall k v, key_ok k -> get t k = Some v ->
    get (dup t) k = Some (if is_table v then NIL else v).
Proof.
  set (fa := fun v => if is_table v then NIL else v).
  assert (fa NIL = NIL /\ forall v, value_ok v -> value_ok (fa v)) as Hfa.
  { split; [done|]. intros v Hv. unfold fa. destruct (is_table v); [apply value_ok_prim|done]. }
  set (fn := fun _ : LuaValue => fa).
  assert ((forall k, fn k NIL = NIL) /\ forall k v, value_ok v -> value_ok (fn k v)) as Hfn
    by (split; intros; by apply Hfa).
  set (ns := (fun nd => set_val (fa (val nd)) nd) <$> (if 0 <? hmask t then node t else [])).
  assert (hmask t <> 0 -> ns = (fun nd => set_val (fn (key nd) (val nd)) nd) <$> node t) as Hns.
  { intros Hm. unfold ns. destruct (ti_hash _ Hi) as [|[nd Hp]]; [done|].
    pose proof (hp_bounds _ _ Hp). by destruct (Z.ltb_spec 0 (hmask t)); [|lia]. }
  split; [|split; [done|]].
  - exact (mapped_inv t fa fn 0 None ns Hi Hfa Hfn Hns).
  - intros k v Hk Eg. pose proof (mapped_get t fa fn 0 None ns Hi Hfn Hns k v Hk Eg) as E.
    change (get (dup t) k) with (get (mapped t fa 0 None ns) k). rewrite E. by destruct (array_index t k).
Qed.

(** The atomic-phase clearing of a weak table only removes entries: the
    table stays well-formed, and a key reads nil afterwards exactly when the
    mode asks for it and the collector may clear its value or (outside the
    array part) the key; otherwise it reads what it read before. *)
Theorem clear_weak_entries_spec (t : LuaTable) (mode cw : Z) (Hi : table_inv t) :
  let t' := (clear_weak_entries t mode cw).1 in
  table_inv t' /\
  forall k v, key_ok k -> get t k = Some v ->
    get t' k = Some (
      match array_index t k with
      | Some _ => if negb (Z.land mode WEAKVAL =? 0) && (may_clear v true cw).1 then NIL else v
      | None => if negb (Z.land mode (Z.lor WEAKKEY WEAKVAL) =? 0) &&
                   ((may_clear k false cw).1 || (may_clear v true cw).1) then NIL else v
      end).
Proof.
  set (fa := fun v => if negb (Z.land mode WEAKVAL =? 0) && (may_clear v true cw).1 then NIL else v).
  set (fn := fun k v => if negb (Z.land mode (Z.lor WEAKKEY WEAKVAL) =? 0) &&
                   ((may_clear k false cw).1 || (may_clear v true cw).1) then NIL else v).
  assert (fa NIL = NIL /\ forall v, value_ok v -> value_ok (fa v)) as Hfa.
  { split; [unfold fa; by destruct (_ && _)|]. intros v Hv. unfold fa.
    destruct (_ && _); [apply value_ok_prim|done]. }
  assert ((forall k, fn k NIL = NIL) /\ forall k v, value_ok v -> value_ok (fn k v)) as Hfn.
  { split; intros; unfold fn; destruct (_ && _); auto; apply value_ok_prim. }
  set (ns := ((if negb (Z.land mode (Z.lor WEAKKEY WEAKVAL) =? 0) then clear_node cw <$> node t
           else (fun nd => (nd, [])) <$> node t)).*1).
  assert (hmask t <> 0 -> ns = (fun nd => set_val (fn (key nd) (val nd)) nd) <$> node t) as Hns.
  { intros Hm. destruct (ti_hash _ Hi) as [|[nd Hp]]; [done|]. unfold ns, fn.
    destruct (negb (Z.land mode (Z.lor WEAKKEY WEAKVAL) =? 0)); cbn [andb].
    - rewrite <- list_fmap_compose. apply list_fmap_ext. intros i x Hx. cbn.
      assert (is_nil (val x) = true -> val x = NIL) as Hxn.
      { intros E. apply is_nil_NIL; [|done]. destruct (hp_repr _ _ Hp) as [El En].
        pose proof (lookup_lt_Some _ _ _ Hx).
        assert (inN (hmask t + 1) (Z.of_nat i)) as Hin by (unfold inN, zlen in *; lia).
        pose proof (hi_val _ _ _ _ (hp_hash _ _ Hp) _ Hin) as Hv. specialize (En _ Hin).
        unfold znth in En. destruct (Z.ltb_spec (Z.of_nat i) 0); [lia|].
        rewrite Nat2Z.id, Hx in En. by injection En as ->. }
      unfold clear_node. destruct (is_nil (val x)) eqn:Exn.
      + rewrite (Hxn eq_refl). destruct x as [v k nx]; cbn in *. rewrite (Hxn eq_refl).
        unfold set_val. cbn. by destruct (_ || _).
      + destruct (may_clear (key x) false cw) as [[] mk]; [done|]. cbn.
        destruct (may_clear (val x) true cw) as [[] mv]; [done|]. cbn. by destruct x.
    - rewrite <- list_fmap_compose. apply list_fmap_ext. intros i [v k nx] Hx. done. }
  assert ((clear_weak_entries t mode cw).1 = mapped t fa (nomm t) (metatable t) ns) as ->.
  { unfold clear_weak_entries, mapped. cbn [fst]. f_equal. unfold fa, clear_slot.
    destruct (negb (Z.land mode WEAKVAL =? 0)); rewrite <- list_fmap_compose; apply list_fmap_ext;
      intros i x _; cbn; [by destruct (may_clear x true cw) as [[] ?]|done]. }
  split.
  - exact (mapped_inv t fa fn _ _ ns Hi Hfa Hfn Hns).
  - intros k v Hk Eg. by rewrite (mapped_get t fa fn _ _ ns Hi Hfn Hns k v Hk Eg).
Qed.

(** Traversing a strong table marks its metatable, every array slot and
    the key and value of every live node: no live entry is left unmarked. *)
Theorem gc_traverse_marks (t : LuaTable) (Hi : table_inv t) (Hw : weak_mode t = 0) :
  (gc_traverse t).2 = 0 /\
  (forall mt, metatable t = Some mt -> table mt ∈ (gc_traverse t).1) /\
  (forall k v, key_ok k -> v <> NIL -> get t k = Some v ->
     v ∈ (gc_traverse t).1 /\ (array_index t k = None -> k ∈ (gc_traverse t).1)).
Proof.
  unfold gc_traverse. rewrite Hw. cbn [Z.eqb negb fst snd]. split; [done|]. split.
  - intros mt ->. left.
  - intros k v Hk Hv Eg. destruct (array_index t k) as [i|] eqn:Ea.
    + split; [|done]. destruct (get_array t k i Hi Hk Ea) as (w & Ew & Ez & _).
      assert (w = v) as -> by congruence. rewrite !elem_of_app. right; left.
      unfold znth in Ez. destruct (i <? 0); [done|]. by eapply list_elem_of_lookup_2.
    + destruct (hash_entries_spec t Hi) as (_ & _ & EL).
      assert ((k, v) ∈ hash_entries t) as Hin by by apply EL.
      unfold hash_entries in Hin. destruct (Z.ltb_spec 0 (hmask t)); [|by apply elem_of_nil in Hin].
      assert (has_hpart t = true) as -> by (unfold has_hpart; by destruct (Z.eqb_spec (hmask t) 0); [lia|]).
      apply list_elem_of_fmap in Hin as (x & [= -> ->] & Hx).
      split; [|intros _]; rewrite !elem_of_app; right; right; apply list_elem_of_join;
        exists [key x; val x]; (split; [repeat constructor|]); apply list_elem_of_fmap; by exists x.
Qed.

End Gc.

Definition demo_view : GcView :=
  Build_GcView (fun _ => false) (fun _ _ => true) (fun _ => false) (fun _ => demo_table).

Lemma dup_spec_witness : @get demo_heap (dup demo_table) (f64_of_int 1) = Some (f64_of_int 10).
Proof.
  refine (proj2 (proj2 (@dup_spec demo_heap demo_table demo_inv)) (f64_of_int 1) (f64_of_int 10) _ eq_refl).
  exact (int_key_ok 1 eq_refl).
Defined.

(** A table whose one array value is an unmarked function. *)
Definition demo_weak : LuaTable := mkTable [func 4096] [] 1 0 0 255 None.

Lemma demo_weak_inv : @table_inv demo_heap demo_weak.
Proof.
  split; [split; [reflexivity|apply Z.leb_le; reflexivity]| |by left].
  constructor; [|constructor]. split; [split; done|]. right; right; right; right.
  exists TagFunc, 4096. split; [split; lia|done].
Qed.

Lemma clear_weak_entries_spec_witness :
  @get demo_heap (@clear_weak_entries demo_view demo_weak WEAKVAL 0).1 (f64_of_int 0) = Some NIL.
Proof.
  refine (proj2 (@clear_weak_entries_spec demo_heap demo_view demo_weak WEAKVAL 0 demo_weak_inv)
    (f64_of_int 0) (func 4096) _ eq_refl).
  exact (int_key_ok 0 eq_refl).
Defined.

Lemma gc_traverse_marks_witness :
  f64_of_int 10 ∈ (@gc_traverse demo_heap demo_view demo_table).1.
Proof.
  refine (proj1 (proj2 (proj2 (@gc_traverse_marks demo_heap demo_view demo_table demo_inv eq_refl))
    (f64_of_int 1) (f64_of_int 10) _ _ eq_refl)); [|done].
  exact (int_key_ok 1 eq_refl).
Defined.
