(* ===== verification/Bytecode.v ===== *)
(** * Bytecode instruction format ([compiler/bc.rs])

    The opcode enumeration, the instruction definition table [bcdef!] with
    its packed operand modes [BC_MODE], and the 32-bit instruction word with
    its [A]/[B]/[C]/[D]/[J] fields: extractors, setters and constructors. *)

From Stdlib Require Import ZArith Lia.
From stdpp Require Import base decidable list numbers option.
From S2P Require Import Prelude.

(** Operand modes of the instruction fields. *)
Module BCMode.
Inductive t : Set :=
  | None | Dst | Base | Var | Rbase | Uv | Lit | Lits | Pri | Num | Str | Tab
  | Func | Jump | Cdata.

Definition all : list t :=
  [None; Dst; Base; Var; Rbase; Uv; Lit; Lits; Pri; Num; Str; Tab; Func;
   Jump; Cdata].

Definition code (m : t) : Z :=
  match m with
  | None => 0 | Dst => 1 | Base => 2 | Var => 3 | Rbase => 4 | Uv => 5
  | Lit => 6 | Lits => 7 | Pri => 8 | Num => 9 | Str => 10 | Tab => 11
  | Func => 12 | Jump => 13 | Cdata => 14
  end.

#[global] Instance enum : Enum t.
Proof. refine {| enum_all := all; enum_code := code |}. by intros []. Defined.
End BCMode.

(** Opcodes, in discriminant order. *)
Module BCOp.
Inductive t : Set :=
  | ISLT | ISGE | ISLE | ISGT | ISEQV | ISNEV | ISEQS | ISNES | ISEQN | ISNEN
  | ISEQP | ISNEP | ISTC | ISFC | IST | ISF | ISTYPE | ISNUM | MOV | NOT
  | UNM | LEN | ADDVN | SUBVN | MULVN | DIVVN | MODVN | ADDNV | SUBNV | MULNV
  | DIVNV | MODNV | ADDVV | SUBVV | MULVV | DIVVV | MODVV | POW | CAT | KSTR
  | KCDATA | KSHORT | KNUM | KPRI | KNIL | UGET | USETV | USETS | USETN
  | USETP | UCLO | FNEW | TNEW | TDUP | GGET | GSET | TGETV | TGETS | TGETB
  | TGETR | TSETV | TSETS | TSETB | TSETM | TSETR | CALLM | CALL | CALLMT
  | CALLT | ITERC | ITERN | VARG | ISNEXT | RETM | RET | RET0 | RET1 | FORI
  | JFORI | FORL | IFORL | JFORL | ITERL | IITERL | JITERL | LOOP | ILOOP
  | JLOOP | JMP | BNOT | BAND | BOR | BXOR | BSHL | BSHR | BSAR | FUNCF
  | IFUNCF | JFUNCF | FUNCV | IFUNCV | JFUNCV | FUNCC | FUNCCW.

Definition all : list t :=
  [ISLT; ISGE; ISLE; ISGT; ISEQV; ISNEV; ISEQS; ISNES; ISEQN; ISNEN; ISEQP;
   ISNEP; ISTC; ISFC; IST; ISF; ISTYPE; ISNUM; MOV; NOT; UNM; LEN; ADDVN;
   SUBVN; MULVN; DIVVN; MODVN; ADDNV; SUBNV; MULNV; DIVNV; MODNV; ADDVV;
   SUBVV; MULVV; DIVVV; MODVV; POW; CAT; KSTR; KCDATA; KSHORT; KNUM; KPRI;
   KNIL; UGET; USETV; USETS; USETN; USETP; UCLO; FNEW; TNEW; TDUP; GGET;
   GSET; TGETV; TGETS; TGETB; TGETR; TSETV; TSETS; TSETB; TSETM; TSETR;
   CALLM; CALL; CALLMT; CALLT; ITERC; ITERN; VARG; ISNEXT; RETM; RET; RET0;
   RET1; FORI; JFORI; FORL; IFORL; JFORL; ITERL; IITERL; JITERL; LOOP; ILOOP;
   JLOOP; JMP; BNOT; BAND; BOR; BXOR; BSHL; BSHR; BSAR; FUNCF; IFUNCF;
   JFUNCF; FUNCV; IFUNCV; JFUNCV; FUNCC; FUNCCW].

Definition code (o : t) : Z :=
  match o with
  | ISLT => 0 | ISGE => 1 | ISLE => 2 | ISGT => 3 | ISEQV => 4 | ISNEV => 5
  | ISEQS => 6 | ISNES => 7 | ISEQN => 8 | ISNEN => 9 | ISEQP => 10
  | ISNEP => 11 | ISTC => 12 | ISFC => 13 | IST => 14 | ISF => 15
  | ISTYPE => 16 | ISNUM => 17 | MOV => 18 | NOT => 19 | UNM => 20
  | LEN => 21 | ADDVN => 22 | SUBVN => 23 | MULVN => 24 | DIVVN => 25
  | MODVN => 26 | ADDNV => 27 | SUBNV => 28 | MULNV => 29 | DIVNV => 30
  | MODNV => 31 | ADDVV => 32 | SUBVV => 33 | MULVV => 34 | DIVVV => 35
  | MODVV => 36 | POW => 37 | CAT => 38 | KSTR => 39 | KCDATA => 40
  | KSHORT => 41 | KNUM => 42 | KPRI => 43 | KNIL => 44 | UGET => 45
  | USETV => 46 | USETS => 47 | USETN => 48 | USETP => 49 | UCLO => 50
  | FNEW => 51 | TNEW => 52 | TDUP => 53 | GGET => 54 | GSET => 55
  | TGETV => 56 | TGETS => 57 | TGETB => 58 | TGETR => 59 | TSETV => 60
  | TSETS => 61 | TSETB => 62 | TSETM => 63 | TSETR => 64 | CALLM => 65
  | CALL => 66 | CALLMT => 67 | CALLT => 68 | ITERC => 69 | ITERN => 70
  | VARG => 71 | ISNEXT => 72 | RETM => 73 | RET => 74 | RET0 => 75
  | RET1 => 76 | FORI => 77 | JFORI => 78 | FORL => 79 | IFORL => 80
  | JFORL => 81 | ITERL => 82 | IITERL => 83 | JITERL => 84 | LOOP => 85
  | ILOOP => 86 | JLOOP => 87 | JMP => 88 | BNOT => 89 | BAND => 90
  | BOR => 91 | BXOR => 92 | BSHL => 93 | BSHR => 94 | BSAR => 95
  | FUNCF => 96 | IFUNCF => 97 | JFUNCF => 98 | FUNCV => 99 | IFUNCV => 100
  | JFUNCV => 101 | FUNCC => 102 | FUNCCW => 103
  end.

#[global] Instance enum : Enum t.
Proof. refine {| enum_all := all; enum_code := code |}. by intros []. Defined.
End BCOp.

(** The instruction definition table: name, modes of A, B and C/D. *)
Definition bcdef : list (BCOp.t * BCMode.t * BCMode.t * BCMode.t) :=
  let '(N, D, B, V, R) := (BCMode.None, BCMode.Dst, BCMode.Base, BCMode.Var, BCMode.Rbase) in
  [(BCOp.ISLT, V, N, V); (BCOp.ISGE, V, N, V); (BCOp.ISLE, V, N, V);
   (BCOp.ISGT, V, N, V); (BCOp.ISEQV, V, N, V); (BCOp.ISNEV, V, N, V);
   (BCOp.ISEQS, V, N, BCMode.Str); (BCOp.ISNES, V, N, BCMode.Str);
   (BCOp.ISEQN, V, N, BCMode.Num); (BCOp.ISNEN, V, N, BCMode.Num);
   (BCOp.ISEQP, V, N, BCMode.Pri); (BCOp.ISNEP, V, N, BCMode.Pri);
   (BCOp.ISTC, D, N, V); (BCOp.ISFC, D, N, V); (BCOp.IST, N, N, V);
   (BCOp.ISF, N, N, V); (BCOp.ISTYPE, V, N, BCMode.Lit);
   (BCOp.ISNUM, V, N, BCMode.Lit); (BCOp.MOV, D, N, V); (BCOp.NOT, D, N, V);
   (BCOp.UNM, D, N, V); (BCOp.LEN, D, N, V); (BCOp.ADDVN, D, V, BCMode.Num);
   (BCOp.SUBVN, D, V, BCMode.Num); (BCOp.MULVN, D, V, BCMode.Num);
   (BCOp.DIVVN, D, V, BCMode.Num); (BCOp.MODVN, D, V, BCMode.Num);
   (BCOp.ADDNV, D, V, BCMode.Num); (BCOp.SUBNV, D, V, BCMode.Num);
   (BCOp.MULNV, D, V, BCMode.Num); (BCOp.DIVNV, D, V, BCMode.Num);
   (BCOp.MODNV, D, V, BCMode.Num); (BCOp.ADDVV, D, V, V);
   (BCOp.SUBVV, D, V, V); (BCOp.MULVV, D, V, V); (BCOp.DIVVV, D, V, V);
   (BCOp.MODVV, D, V, V); (BCOp.POW, D, V, V); (BCOp.CAT, D, R, R);
   (BCOp.KSTR, D, N, BCMode.Str); (BCOp.KCDATA, D, N, BCMode.Cdata);
   (BCOp.KSHORT, D, N, BCMode.Lits); (BCOp.KNUM, D, N, BCMode.Num);
   (BCOp.KPRI, D, N, BCMode.Pri); (BCOp.KNIL, B, N, B);
   (BCOp.UGET, D, N, BCMode.Uv); (BCOp.USETV, BCMode.Uv, N, V);
   (BCOp.USETS, BCMode.Uv, N, BCMode.Str);
   (BCOp.USETN, BCMode.Uv, N, BCMode.Num);
   (BCOp.USETP, BCMode.Uv, N, BCMode.Pri); (BCOp.UCLO, R, N, BCMode.Jump);
   (BCOp.FNEW, D, N, BCMode.Func); (BCOp.TNEW, D, N, BCMode.Lit);
   (BCOp.TDUP, D, N, BCMode.Tab); (BCOp.GGET, D, N, BCMode.Str);
   (BCOp.GSET, V, N, BCMode.Str); (BCOp.TGETV, D, V, V);
   (BCOp.TGETS, D, V, BCMode.Str); (BCOp.TGETB, D, V, BCMode.Lit);
   (BCOp.TGETR, D, V, V); (BCOp.TSETV, V, V, V);
   (BCOp.TSETS, V, V, BCMode.Str); (BCOp.TSETB, V, V, BCMode.Lit);
   (BCOp.TSETM, B, N, BCMode.Num); (BCOp.TSETR, V, V, V);
   (BCOp.CALLM, B, BCMode.Lit, BCMode.Lit);
   (BCOp.CALL, B, BCMode.Lit, BCMode.Lit); (BCOp.CALLMT, B, N, BCMode.Lit);
   (BCOp.CALLT, B, N, BCMode.Lit); (BCOp.ITERC, B, BCMode.Lit, BCMode.Lit);
   (BCOp.ITERN, B, BCMode.Lit, BCMode.Lit);
   (BCOp.VARG, B, BCMode.Lit, BCMode.Lit); (BCOp.ISNEXT, B, N, BCMode.Jump);
   (BCOp.RETM, B, N, BCMode.Lit); (BCOp.RET, R, N, BCMode.Lit);
   (BCOp.RET0, R, N, BCMode.Lit); (BCOp.RET1, R, N, BCMode.Lit);
   (BCOp.FORI, B, N, BCMode.Jump); (BCOp.JFORI, B, N, BCMode.Jump);
   (BCOp.FORL, B, N, BCMode.Jump); (BCOp.IFORL, B, N, BCMode.Jump);
   (BCOp.JFORL, B, N, BCMode.Lit); (BCOp.ITERL, B, N, BCMode.Jump);
   (BCOp.IITERL, B, N, BCMode.Jump); (BCOp.JITERL, B, N, BCMode.Lit);
   (BCOp.LOOP, R, N, BCMode.Jump); (BCOp.ILOOP, R, N, BCMode.Jump);
   (BCOp.JLOOP, R, N, BCMode.Lit); (BCOp.JMP, R, N, BCMode.Jump);
   (BCOp.BNOT, D, N, V); (BCOp.BAND, D, V, V); (BCOp.BOR, D, V, V);
   (BCOp.BXOR, D, V, V); (BCOp.BSHL, D, V, V); (BCOp.BSHR, D, V, V);
   (BCOp.BSAR, D, V, V); (BCOp.FUNCF, R, N, N); (BCOp.IFUNCF, R, N, N);
   (BCOp.JFUNCF, R, N, BCMode.Lit); (BCOp.FUNCV, R, N, N);
   (BCOp.IFUNCV, R, N, N); (BCOp.JFUNCV, R, N, BCMode.Lit);
   (BCOp.FUNCC, R, N, N); (BCOp.FUNCCW, R, N, N)].

(** [BC_MODE]: the three modes packed into a [u16], at bits 0, 3 and 7. *)
Definition bc_mode_entry (d : BCOp.t * BCMode.t * BCMode.t * BCMode.t) : Z :=
  let '(_, ma, mb, mc) := d in
  Z.lor (Z.lor (BCMode.code ma) (uwrap 16 (Z.shiftl (BCMode.code mb) 3)))
        (uwrap 16 (Z.shiftl (BCMode.code mc) 7)).

Definition BC_MODE : list Z := map bc_mode_entry bcdef.

Definition BC_MAX : Z := zlen bcdef.

Definition BCBIAS_J : Z := 0x8000.
Definition NO_REG : Z := 0xff.
Definition NO_JMP : Z := unot 32 0.

(** [BCOp::from_u32]: the [transmute] of [op as u8]; a byte that is no
    discriminant is undefined behaviour, here no result. *)
Definition from_u32 (op : Z) : option BCOp.t := enum_of_code (uwrap 8 op).

(** [BCOp::offset]: opcode arithmetic on the discriminant. *)
Definition bcop_offset (o : BCOp.t) (delta : Z) : option BCOp.t :=
  from_u32 (uwrap 32 (swrap 32 (BCOp.code o + delta))).

Definition bc_op (i : Z) : option BCOp.t := from_u32 (Z.land i 0xff).
Definition bc_a (i : Z) : Z := Z.land (Z.shiftr i 8) 0xff.
Definition bc_b (i : Z) : Z := Z.shiftr i 24.
Definition bc_c (i : Z) : Z := Z.land (Z.shiftr i 16) 0xff.
Definition bc_d (i : Z) : Z := Z.shiftr i 16.
Definition bc_j (i : Z) : Z := bc_d i - BCBIAS_J.

Definition setbc_op (p x : Z) : Z :=
  Z.lor (Z.land p (unot 32 0xff)) (Z.land x 0xff).
Definition setbc_a (p x : Z) : Z :=
  Z.lor (Z.land p (unot 32 0xff00)) (uwrap 32 (Z.shiftl (Z.land x 0xff) 8)).
Definition setbc_b (p x : Z) : Z :=
  Z.lor (Z.land p 0x00ffffff) (uwrap 32 (Z.shiftl (Z.land x 0xff) 24)).
Definition setbc_c (p x : Z) : Z :=
  Z.lor (Z.land p (unot 32 0x00ff0000)) (uwrap 32 (Z.shiftl (Z.land x 0xff) 16)).
Definition setbc_d (p x : Z) : Z :=
  Z.lor (Z.land p 0xffff) (uwrap 32 (Z.shiftl (Z.land x 0xffff) 16)).
Definition setbc_j (p x : Z) : Z := setbc_d p (uwrap 32 (x + BCBIAS_J)).

Definition bcins_abc (o : BCOp.t) (a b c : Z) : Z :=
  Z.lor (Z.lor (Z.lor (BCOp.code o) (uwrap 32 (Z.shiftl a 8)))
               (uwrap 32 (Z.shiftl b 24)))
        (uwrap 32 (Z.shiftl c 16)).
Definition bcins_ad (o : BCOp.t) (a d : Z) : Z :=
  Z.lor (Z.lor (BCOp.code o) (uwrap 32 (Z.shiftl a 8))) (uwrap 32 (Z.shiftl d 16)).
Definition bcins_aj (o : BCOp.t) (a j : Z) : Z :=
  bcins_ad o a (uwrap 32 (j + BCBIAS_J)).

Definition bcmode_a (o : BCOp.t) : option Z :=
  let? m := znth BC_MODE (BCOp.code o) in Some (Z.land m 7).
Definition bcmode_b (o : BCOp.t) : option Z :=
  let? m := znth BC_MODE (BCOp.code o) in Some (Z.land (Z.shiftr m 3) 15).
Definition bcmode_c (o : BCOp.t) : option Z :=
  let? m := znth BC_MODE (BCOp.code o) in Some (Z.land (Z.shiftr m 7) 15).

Definition bc_isret (o : BCOp.t) : bool :=
  match o with BCOp.RETM | BCOp.RET | BCOp.RET0 | BCOp.RET1 => true | _ => false end.
Definition bc_isret_or_tail (o : BCOp.t) : bool :=
  match o with BCOp.CALLMT | BCOp.CALLT => true | _ => bc_isret o end.

(** ** Lemmas *)

Lemma code_u8 o : 0 <= BCOp.code o < 2 ^ 8.
Proof.
  pose proof (enum_code_range o) as H. cbn [enum_code BCOp.enum] in H.
  change (zlen _) with 104 in H. lia.
Qed.

Lemma from_u32_code o : from_u32 (BCOp.code o) = Some o.
Proof.
  unfold from_u32. rewrite uwrap_small by apply code_u8.
  exact (enum_code_nth o).
Qed.

(** Unfold the word operations and decide the equation bit by bit. *)
Ltac bcbits :=
  unfold bc_a, bc_b, bc_c, bc_d, setbc_op, setbc_a, setbc_b, setbc_c, setbc_d,
    bcins_abc, bcins_ad, unot, uwrap, urange in *;
  change 0xff00 with (Z.shiftl (Z.ones 8) 8);
  change 0x00ff0000 with (Z.shiftl (Z.ones 8) 16);
  zmasks; zbits.

Lemma land_op_abc o a b c : Z.land (bcins_abc o a b c) 0xff = BCOp.code o.
Proof. pose proof (code_u8 o). bcbits. Qed.
Lemma land_op_ad o a d : Z.land (bcins_ad o a d) 0xff = BCOp.code o.
Proof. pose proof (code_u8 o). bcbits. Qed.
Lemma bc_d_ad o a d : urange 8 a -> urange 16 d -> bc_d (bcins_ad o a d) = d.
Proof. pose proof (code_u8 o). intros. bcbits. Qed.
Lemma bc_a_ad o a d : urange 8 a -> bc_a (bcins_ad o a d) = a.
Proof. pose proof (code_u8 o). intros. bcbits. Qed.
Lemma bc_abc_fields o a b c :
  urange 8 a -> urange 8 b -> urange 8 c ->
  bc_a (bcins_abc o a b c) = a /\ bc_b (bcins_abc o a b c) = b /\
  bc_c (bcins_abc o a b c) = c.
Proof. pose proof (code_u8 o). intros. repeat split; bcbits. Qed.

Lemma setbc_d_fields p x : urange 32 p ->
  Z.land (setbc_d p x) 0xff = Z.land p 0xff /\ bc_a (setbc_d p x) = bc_a p /\
  bc_d (setbc_d p x) = Z.land x 0xffff.
Proof. intros. repeat split; bcbits. Qed.

Lemma bc_op_ad o a d : bc_op (bcins_ad o a d) = Some o.
Proof. unfold bc_op. rewrite land_op_ad. apply from_u32_code. Qed.

Lemma land_range x n : 0 <= n -> urange n (Z.land x (Z.ones n)).
Proof. intros. rewrite Z.land_ones by done. apply Z.mod_pos_bound. lia. Qed.

(** A jump offset survives the bias exactly on [[-0x8000, 0x7fff]]. *)
Lemma jump_bias_range j : -0x8000 <= j <= 0x7fff -> urange 16 (j + BCBIAS_J).
Proof. unfold urange, BCBIAS_J. lia. Qed.

Lemma bcdef_index n d : znth bcdef n = Some d -> BCOp.code (d.1.1.1) = n.
Proof.
  intros H. pose proof (znth_Some_lt _ _ _ H) as B. change (zlen bcdef) with 104 in B.
  assert (forallb (fun k => match znth bcdef (Z.of_nat k) with
            | Some d => BCOp.code (d.1.1.1) =? Z.of_nat k | None => false end)
            (seq 0 104) = true) as F by (vm_compute; reflexivity).
  rewrite forallb_forall in F. specialize (F (Z.to_nat n)).
  rewrite Z2Nat.id in F by lia. rewrite H in F.
  apply Z.eqb_eq, F, in_seq. lia.
Qed.

(** ** Properties *)

(** Encoding an instruction and decoding it again gives back the opcode
    and every operand: for byte operands the [ABC] word has exactly the fields
    it was built from, and for a byte [A] and a 16-bit [D] so has the [AD]
    word; neither overflows 32 bits. *)
Theorem bcins_decode o a b c d :
  urange 8 a -> urange 8 b -> urange 8 c -> urange 16 d ->
  (bc_op (bcins_abc o a b c) = Some o /\ bc_a (bcins_abc o a b c) = a /\
   bc_b (bcins_abc o a b c) = b /\ bc_c (bcins_abc o a b c) = c /\
   urange 32 (bcins_abc o a b c)) /\
  (bc_op (bcins_ad o a d) = Some o /\ bc_a (bcins_ad o a d) = a /\
   bc_d (bcins_ad o a d) = d /\ urange 32 (bcins_ad o a d)).
Proof.
  intros Ha Hb Hc Hd. pose proof (code_u8 o) as Ho.
  pose proof (bc_abc_fields o a b c Ha Hb Hc) as (? & ? & ?).
  split; [split_and!; try done|split_and!].
  - unfold bc_op. rewrite land_op_abc. apply from_u32_code.
  - assert (bcins_abc o a b c = bcins_abc o a b c mod 2 ^ 32) as -> by bcbits.
    by apply uwrap_range.
  - apply bc_op_ad.
  - by apply bc_a_ad.
  - by apply bc_d_ad.
  - assert (bcins_ad o a d = bcins_ad o a d mod 2 ^ 32) as -> by bcbits.
    by apply uwrap_range.
Qed.

Lemma bcins_decode_witness :
  urange 8 7 /\ bc_c (bcins_abc BCOp.ADDVV 7 200 255) = 255 /\
  bc_d (bcins_ad BCOp.KSHORT 7 65535) = 65535.
Proof.
  split; [unfold urange; lia|].
  pose proof (bcins_decode BCOp.ADDVV 7 200 255 0) as H.
  pose proof (bcins_decode BCOp.KSHORT 7 0 0 65535) as H'.
  unfold urange in *. split; [apply H; lia|apply H'; lia].
Defined.

(** The field setters used to patch emitted code are lenses: each writes
    its own field (truncated to the field's width) and leaves the opcode and
    the other operands as they were. *)
Theorem setbc_lens p x : urange 32 p ->
  (bc_op (setbc_op p x) = from_u32 (Z.land x 0xff) /\
   bc_a (setbc_op p x) = bc_a p /\ bc_d (setbc_op p x) = bc_d p) /\
  (bc_a (setbc_a p x) = Z.land x 0xff /\
   bc_op (setbc_a p x) = bc_op p /\ bc_d (setbc_a p x) = bc_d p) /\
  (bc_b (setbc_b p x) = Z.land x 0xff /\ bc_op (setbc_b p x) = bc_op p /\
   bc_a (setbc_b p x) = bc_a p /\ bc_c (setbc_b p x) = bc_c p) /\
  (bc_c (setbc_c p x) = Z.land x 0xff /\ bc_op (setbc_c p x) = bc_op p /\
   bc_a (setbc_c p x) = bc_a p /\ bc_b (setbc_c p x) = bc_b p) /\
  (bc_d (setbc_d p x) = Z.land x 0xffff /\
   bc_op (setbc_d p x) = bc_op p /\ bc_a (setbc_d p x) = bc_a p).
Proof.
  intros Hp. unfold bc_op.
  repeat split; try apply (f_equal from_u32); bcbits.
Qed.

Lemma setbc_lens_witness :
  bc_a (setbc_d (bcins_ad BCOp.JMP 3 9) 70000) = bc_a (bcins_ad BCOp.JMP 3 9).
Proof. apply (setbc_lens (bcins_ad BCOp.JMP 3 9) 70000). vm_compute; split; congruence. Defined.

(** Jump targets: within [[-0x8000, 0x7fff]] the biased encoding is
    exact, both when a jump is emitted and when it is patched later, and
    patching keeps the opcode and the [A] operand. *)
Theorem bc_jump_roundtrip o a j j' :
  urange 8 a -> -0x8000 <= j <= 0x7fff -> -0x8000 <= j' <= 0x7fff ->
  bc_j (bcins_aj o a j) = j /\
  let p := setbc_j (bcins_aj o a j) j' in
  bc_j p = j' /\ bc_op p = Some o /\ bc_a p = a.
Proof.
  intros Ha Hj%jump_bias_range Hj'%jump_bias_range.
  assert (forall k, urange 16 (k + BCBIAS_J) -> uwrap 32 (k + BCBIAS_J) = k + BCBIAS_J) as Hw.
  { intros k Hk. apply uwrap_small. unfold urange in *. lia. }
  unfold bcins_aj, bc_j, setbc_j. rewrite !Hw by done. cbv zeta.
  destruct (bcins_decode o a 0 0 (j + BCBIAS_J)) as [_ (Ho & Ha' & Hd & Hr)];
    try done; try (unfold urange; lia).
  destruct (setbc_d_fields _ (j' + BCBIAS_J) Hr) as (Ho2 & Ha2 & Hd2).
  rewrite Hd, Hd2, Ha2, Ha'. change 0xffff with (Z.ones 16).
  rewrite Z.land_ones by lia. unfold bc_op in *. rewrite Ho2, Ho.
  unfold urange in *. rewrite Z.mod_small by lia. split_and!; try done; lia.
Qed.

Lemma bc_jump_roundtrip_witness :
  bc_j (bcins_aj BCOp.LOOP 5 (-32768)) = -32768 /\
  bc_j (setbc_j (bcins_aj BCOp.LOOP 5 (-32768)) 32767) = 32767.
Proof.
  pose proof (bc_jump_roundtrip BCOp.LOOP 5 (-32768) 32767) as H.
  unfold urange in H. destruct H as (? & ? & _); [lia..|]. by split.
Defined.

(** The packed mode table is faithful: for every opcode, the three
    accessors return the modes its row of [bcdef!] declares, so no mode
    spills into the bits of another. *)
Theorem bc_mode_table o :
  exists ma mb mc, znth bcdef (BCOp.code o) = Some (o, ma, mb, mc) /\
    bcmode_a o = Some (BCMode.code ma) /\ bcmode_b o = Some (BCMode.code mb) /\
    bcmode_c o = Some (BCMode.code mc).
Proof. destruct o; vm_compute; do 3 eexists; split_and!; reflexivity. Qed.
