(* ===== verification/PatClass.v ===== *)
(** * Character classes of Lua patterns ([stdlib/pattern/class.rs])

    Class letters, sets and the width of one pattern element. Bytes are [Z]
    values, positions in the pattern are [nat] indices, an index out of range
    (a panic in the source) is [None]. A loop over [pat[i..]] is a recursion
    on the suffix of the pattern that starts at [i]. *)

From Stdlib Require Import ZArith Lia Ascii.
From stdpp Require Import base decidable list numbers option.
From S2P Require Import Prelude.

(** The byte literal [b'c']. *)
Definition chr (c : ascii) : Z := Z.of_N (N_of_ascii c).

Declare Scope byte_lit_scope.
Delimit Scope byte_lit_scope with byte_lit.
Notation "'#' c" := (chr c%char) (at level 1, c at level 0, format "'#' c").

(** ** ASCII predicates of [u8] *)
Definition in_range (lo hi c : Z) : bool := (lo <=? c) && (c <=? hi).

Definition is_ascii_lowercase (c : Z) : bool := in_range 97 122 c.
Definition is_ascii_uppercase (c : Z) : bool := in_range 65 90 c.
Definition is_ascii_alphabetic (c : Z) : bool :=
  is_ascii_lowercase c || is_ascii_uppercase c.
Definition is_ascii_digit (c : Z) : bool := in_range 48 57 c.
Definition is_ascii_alphanumeric (c : Z) : bool :=
  is_ascii_alphabetic c || is_ascii_digit c.
Definition is_ascii_control (c : Z) : bool := in_range 0 31 c || (c =? 127).
Definition is_ascii_graphic (c : Z) : bool := in_range 33 126 c.
Definition is_ascii_punctuation (c : Z) : bool :=
  in_range 33 47 c || in_range 58 64 c || in_range 91 96 c || in_range 123 126 c.
Definition is_ascii_whitespace (c : Z) : bool :=
  (c =? 32) || (c =? 9) || (c =? 10) || (c =? 12) || (c =? 13).
Definition is_ascii_hexdigit (c : Z) : bool :=
  is_ascii_digit c || in_range 97 102 c || in_range 65 70 c.
Definition to_ascii_lowercase (c : Z) : Z :=
  if is_ascii_uppercase c then c + 32 else c.

(** ** Classes *)

Definition match_class (c cl : Z) : bool :=
  if cl =? #"a" then is_ascii_alphabetic c
  else if cl =? #"c" then is_ascii_control c
  else if cl =? #"d" then is_ascii_digit c
  else if cl =? #"g" then is_ascii_graphic c
  else if cl =? #"l" then is_ascii_lowercase c
  else if cl =? #"p" then is_ascii_punctuation c
  else if cl =? #"s" then is_ascii_whitespace c
  else if cl =? #"u" then is_ascii_uppercase c
  else if cl =? #"w" then is_ascii_alphanumeric c
  else if cl =? #"x" then is_ascii_hexdigit c
  else if cl =? #"z" then c =? 0
  else c =? cl.

Definition class_letters : list Z :=
  [#"a"; #"c"; #"d"; #"g"; #"l"; #"p"; #"s"; #"u"; #"w"; #"x"; #"z";
   #"A"; #"C"; #"D"; #"G"; #"L"; #"P"; #"S"; #"U"; #"W"; #"X"; #"Z"].

Definition is_class_letter (cl : Z) : bool := existsb (Z.eqb cl) class_letters.

(** The test of [%cl] that [singlematch] and [matchset] share. *)
Definition match_escape (c cl : Z) : bool :=
  if is_ascii_uppercase cl && is_class_letter cl
  then negb (match_class c (to_ascii_lowercase cl))
  else match_class c cl.

(** ** Sets *)

(** The main loop of [matchset] on the suffix [pat[i..]]. *)
Fixpoint matchset_loop (c : Z) (s : list Z) (matched : bool) : bool :=
  match s with
  | [] => matched
  | p :: s1 =>
      if p =? #"]" then matched
      else match s1 with
           | [] => matched || (c =? p)
           | q :: s2 =>
               if p =? #"%" then matchset_loop c s2 (matched || match_escape c q)
               else match s2 with
                    | r :: s3 =>
                        if (q =? #"-") && negb (r =? #"]")
                        then matchset_loop c s3 (matched || ((p <=? c) && (c <=? r)))
                        else matchset_loop c s1 (matched || (c =? p))
                    | [] => matchset_loop c s1 (matched || (c =? p))
                    end
           end
  end.

(** [matchset]: [pp] points to the [[]. *)
Definition matchset (c : Z) (pat : list Z) (pp : nat) : bool :=
  let s := drop (pp + 1) pat in
  let '(negated, s) :=
    match s with p :: s' => if p =? #"^" then (true, s') else (false, s) | [] => (false, s) end in
  let '(matched, s) :=
    match s with p :: s' => if p =? #"]" then (c =? #"]", s') else (false, s) | [] => (false, s) end in
  let matched := matchset_loop c s matched in
  if negated then negb matched else matched.

Definition singlematch (c : Z) (pat : list Z) (pp : nat) : option bool :=
  let? p := pat !! pp in
  if p =? #"." then Some true
  else if p =? #"%" then let? cl := pat !! (pp + 1)%nat in Some (match_escape c cl)
  else if p =? #"[" then Some (matchset c pat pp)
  else Some (c =? p).

(** ** Element width *)

(** The [while] loop of [element_end]: the index of the closing [\]]. *)
Fixpoint set_end_loop (s : list Z) (i : nat) : nat :=
  match s with
  | [] => i
  | p :: s1 =>
      if p =? #"]" then i
      else match s1 with
           | [] => S i
           | _ :: s2 => if p =? #"%" then set_end_loop s2 (S (S i)) else set_end_loop s1 (S i)
           end
  end.

(** Skip an optional byte [b] at the head of the suffix. *)
Definition skip_byte (b : Z) (s : list Z) (i : nat) : list Z * nat :=
  match s with p :: s' => if p =? b then (s', S i) else (s, i) | [] => (s, i) end.

Definition element_end (pat : list Z) (pp : nat) : option nat :=
  let? p := pat !! pp in
  if p =? #"%" then Some (pp + 2)%nat
  else if p =? #"[" then
    let '(s, i) := skip_byte #"^" (drop (pp + 1) pat) (pp + 1) in
    let '(s, i) := skip_byte #"]" s i in
    Some (set_end_loop s i + 1)%nat
  else Some (pp + 1)%nat.
