(* ===== verification/PatEngine.v ===== *)
(** * The Lua pattern matcher ([stdlib/pattern/engine.rs])

    The backtracking matcher with its mutable match state, pattern
    validation, searching, global substitution and the plain-text fast
    paths. [None] is a panic; the recursion of [match_impl] is bounded by the
    source's own nesting limit, so the only fuel is [MAXCCALLS + 1]. *)

From Stdlib Require Import ZArith Lia Ascii String DecimalString.
From stdpp Require Import base decidable list numbers option.
From S2P Require Import Prelude PatClass.
#[local] Open Scope nat_scope.

Definition LUA_MAXCAPTURES : nat := 32.
Definition MAXCCALLS : nat := 200.

(** The error messages of the engine. *)
Inductive PatError : Set :=
  | EndsWithPercent      (* malformed pattern (ends with '%') *)
  | MissingArgsToB       (* malformed pattern (missing arguments to '%b') *)
  | MissingSetAfterF     (* missing '[' after '%f' in pattern *)
  | MissingBracket       (* malformed pattern (missing ']') *)
  | PatternTooComplex    (* pattern too complex *)
  | InvalidCapture       (* invalid pattern capture *)
  | InvalidCaptureIndex (n : nat) (* invalid capture index %n *)
  | UnfinishedCapture    (* unfinished capture *)
  | InvalidPercentUse.   (* invalid use of '%' in replacement string *)

(** [is_plain_pattern]: none of the special bytes (note that [)] is not one). *)
Definition special_bytes : list Z :=
  [#"%"; #"."; #"["; #"*"; #"+"; #"-"; #"?"; #"^"; #"$"; #"("].
Definition is_special (c : Z) : bool := existsb (Z.eqb c) special_bytes.
Definition is_plain_pattern (pat : list Z) : bool := negb (existsb is_special pat).

Definition is_suffix_char (c : Z) : bool :=
  (c =? #"*")%Z || (c =? #"+")%Z || (c =? #"-")%Z || (c =? #"?")%Z.

(** ** Validation *)

(** The loop of [validate_set]; [Ok] carries the index past the bracket. *)
Fixpoint validate_set_loop (s : list Z) (j : nat) : nat + PatError :=
  match s with
  | [] => inr MissingBracket
  | p :: s1 =>
      if (p =? #"]")%Z then inl (S j)
      else if (p =? #"%")%Z then
        match s1 with
        | [] => inr EndsWithPercent
        | _ :: s2 => validate_set_loop s2 (S (S j))
        end
      else validate_set_loop s1 (S j)
  end.

Definition validate_set (pat : list Z) (i : nat) : nat + PatError :=
  let '(s, j) := skip_byte #"^" (drop (i + 1) pat) (i + 1) in
  let '(s, j) := skip_byte #"]" s j in
  validate_set_loop s j.

(** One element of the validation loop: the index after it. *)
Definition validate_elem (pat : list Z) (i : nat) : nat + PatError :=
  match pat !! i with
  | None => inl i
  | Some p =>
      if (p =? #"%")%Z then
        match pat !! (i + 1) with
        | None => inr EndsWithPercent
        | Some q =>
            if (q =? #"b")%Z then
              if i + 3 <? length pat then inl (i + 4) else inr MissingArgsToB
            else if (q =? #"f")%Z then
              match pat !! (i + 2) with
              | Some r => if (r =? #"[")%Z then validate_set pat (i + 2) else inr MissingSetAfterF
              | None => inr MissingSetAfterF
              end
            else inl (i + 2)
        end
      else if (p =? #"[")%Z then validate_set pat i
      else inl (i + 1)
  end.

(** Skip an optional repetition suffix. *)
Definition skip_suffix (pat : list Z) (i : nat) : nat :=
  match pat !! i with Some c => if is_suffix_char c then i + 1 else i | None => i end.

(** The [while i < pat.len()] loop; every element is at least one byte wide,
    so [length pat + 1 - i] iterations are enough. *)
Fixpoint validate_loop (fuel : nat) (pat : list Z) (i : nat) : unit + PatError :=
  if i <? length pat then
    match fuel with
    | 0 => inl ()
    | S fuel =>
        match validate_elem pat i with
        | inr e => inr e
        | inl i' => validate_loop fuel pat (skip_suffix pat i')
        end
    end
  else inl ().

(** The position after an optional leading [^] anchor. *)
Definition pp_start (pat : list Z) : nat :=
  match pat with c :: _ => if (c =? #"^")%Z then 1 else 0 | [] => 0 end.

Definition validate_pattern (pat : list Z) : unit + PatError :=
  validate_loop (S (length pat)) pat (pp_start pat).

(** ** Match state *)

Inductive CapKind : Set := KUnfinished | KPosition | KClosed.
Inductive CaptureLen : Set := Len (n : nat) | LPosition | LUnfinished.

Record Capture : Set := mkCapture { cstart : nat; clen : CaptureLen; ckind : CapKind }.

(** The mutable part of [MatchState]; text and pattern are parameters. *)
Record MatchState : Set := mkMS {
  captures : list Capture;
  num_captures : nat;
  depth : nat;
  error : option PatError;
}.

Definition new_ms : MatchState :=
  mkMS (replicate LUA_MAXCAPTURES (mkCapture 0 LUnfinished KUnfinished)) 0 0 None.

Definition reset (ms : MatchState) : MatchState := mkMS (captures ms) 0 0 None.

Definition with_error (e : PatError) (ms : MatchState) : MatchState :=
  mkMS (captures ms) (num_captures ms) (depth ms) (Some e).
Definition with_depth (d : nat) (ms : MatchState) : MatchState :=
  mkMS (captures ms) (num_captures ms) d (error ms).
Definition with_num (n : nat) (ms : MatchState) : MatchState :=
  mkMS (captures ms) n (depth ms) (error ms).
Definition with_capture (n : nat) (c : Capture) (ms : MatchState) : MatchState :=
  mkMS (<[n := c]> (captures ms)) (num_captures ms) (depth ms) (error ms).

(** The result of a matching function: the end of the match, if any, and the
    state it leaves; [None] when the source panics. *)
Abbreviation MatchResult := (option (option nat * MatchState)).

(** Length of the longest prefix satisfying a (partial) test. *)
Fixpoint run_len (f : Z -> option bool) (s : list Z) : option nat :=
  match s with
  | [] => Some 0
  | c :: s' =>
      let? b := f c in
      if b then let? n := run_len f s' in Some (S n) else Some 0
  end.

(** [count_max_repetition]: the repetition count with a specialised loop per
    kind of element. *)
Definition count_max_repetition (text : list Z) (si : nat) (pat : list Z) (pp : nat)
  : option nat :=
  if length text <=? si then Some 0
  else
    let s := drop si text in
    let? p := pat !! pp in
    if (p =? #".")%Z then Some (length text - si)
    else
      match (if (p =? #"%")%Z then pat !! (pp + 1) else None) with
      | Some cl =>
          if is_class_letter cl then
            let invert := is_ascii_uppercase cl in
            let class := to_ascii_lowercase cl in
            run_len (fun c => Some (negb (Bool.eqb (match_class c class) invert))) s
          else run_len (fun c => Some (c =? cl)%Z) s
      | None =>
          if (p =? #"[")%Z then run_len (fun c => singlematch c pat pp) s
          else run_len (fun c => Some (c =? p)%Z) s
      end.

(** The scan of [match_balanced] over [text[i..]] with the nesting depth. *)
Fixpoint balance_loop (open close : Z) (s : list Z) (i : nat) (d : Z) : nat * Z :=
  match s with
  | [] => (i, d)
  | c :: s' =>
      if (0 <? d)%Z then
        balance_loop open close s' (S i)
          (if (c =? close)%Z then d - 1 else if (c =? open)%Z then d + 1 else d)%Z
      else (i, d)
  end.

(** The last unfinished capture below [n] ([match_close_capture]'s search). *)
Fixpoint last_unfinished (caps : list Capture) (n : nat) : option (option nat) :=
  match n with
  | 0 => Some None
  | S n' =>
      let? c := caps !! n' in
      match clen c with LUnfinished => Some (Some n') | _ => last_unfinished caps n' end
  end.

(** The byte comparison of [match_backref]. *)
Fixpoint bytes_equal (text : list Z) (a b n : nat) : option bool :=
  match n with
  | 0 => Some true
  | S n' =>
      let? x := text !! a in
      let? y := text !! b in
      if (x =? y)%Z then bytes_equal text (S a) (S b) n' else Some false
  end.

Section Engine.
Context (text pat : list Z).

Section Step.
(** [match_impl] one nesting level deeper. *)
Variable rec : MatchState -> nat -> nat -> MatchResult.

(** The loop of [match_greedy], from [count] repetitions down to [min]. *)
Fixpoint greedy_loop (ms : MatchState) (si rp min count : nat) : MatchResult :=
  if count <? min then Some (None, ms)
  else
    let? ' r := rec ms (si + count) rp in
    match r with
    | (Some e, ms') => Some (Some e, ms')
    | (None, ms') =>
        match count with
        | 0 => Some (None, ms')
        | S count' => greedy_loop ms' si rp min count'
        end
    end.

Definition match_greedy (ms : MatchState) (si pp rp min : nat) : MatchResult :=
  let? count := count_max_repetition text si pat pp in
  greedy_loop ms si rp min count.

(** [match_lazy]'s loop; [s] is [text[i..]]. *)
Fixpoint lazy_loop (ms : MatchState) (s : list Z) (i pp rp : nat) : MatchResult :=
  let? ' r := rec ms i rp in
  match r with
  | (Some e, ms') => Some (Some e, ms')
  | (None, ms') =>
      match s with
      | [] => Some (None, ms')
      | c :: s' =>
          let? b := singlematch c pat pp in
          if b then lazy_loop ms' s' (S i) pp rp else Some (None, ms')
      end
  end.

Definition match_lazy (ms : MatchState) (si pp rp : nat) : MatchResult :=
  lazy_loop ms (drop si text) si pp rp.

Definition match_optional (ms : MatchState) (si pp rp : nat) : MatchResult :=
  match text !! si with
  | None => rec ms si rp
  | Some c =>
      let? b := singlematch c pat pp in
      if b then
        let? ' r := rec ms (si + 1) rp in
        match r with
        | (Some e, ms') => Some (Some e, ms')
        | (None, ms') => rec ms' si rp
        end
      else rec ms si rp
  end.

(** Undo a capture slot when the continuation fails. *)
Definition undo (f : MatchState -> MatchState) (r : option nat * MatchState)
  : option nat * MatchState :=
  match r with (Some e, ms) => (Some e, ms) | (None, ms) => (None, f ms) end.

Definition match_open_capture (ms : MatchState) (si pp : nat) : MatchResult :=
  let n := num_captures ms in
  if LUA_MAXCAPTURES <=? n then Some (None, ms)
  else
    let ms := with_num (n + 1) (with_capture n (mkCapture si LUnfinished KUnfinished) ms) in
    let? r := rec ms si pp in Some (undo (with_num n) r).

Definition match_position_capture (ms : MatchState) (si pp : nat) : MatchResult :=
  let n := num_captures ms in
  if LUA_MAXCAPTURES <=? n then Some (None, ms)
  else
    let ms := with_num (n + 1) (with_capture n (mkCapture si LPosition KPosition) ms) in
    let? r := rec ms si pp in Some (undo (with_num n) r).

Definition match_close_capture (ms : MatchState) (si pp : nat) : MatchResult :=
  let? found := last_unfinished (captures ms) (num_captures ms) in
  match found with
  | None => Some (None, with_error InvalidCapture ms)
  | Some n =>
      let? c := captures ms !! n in
      if si <? cstart c then None (* usize underflow *)
      else
        let ms := with_capture n (mkCapture (cstart c) (Len (si - cstart c)) KClosed) ms in
        let? r := rec ms si pp in
        Some (undo (fun ms' => match captures ms' !! n with
                | Some c' => with_capture n (mkCapture (cstart c') LUnfinished KUnfinished) ms'
                | None => ms' end) r)
  end.

Definition match_balanced (ms : MatchState) (si pp : nat) : MatchResult :=
  match pat !! (pp + 2), pat !! (pp + 3) with
  | Some open, Some close =>
      match text !! si with
      | Some c =>
          if (c =? open)%Z then
            let '(i, d) := balance_loop open close (drop (si + 1) text) (si + 1) 1 in
            if (d =? 0)%Z then rec ms i (pp + 4) else Some (None, ms)
          else Some (None, ms)
      | None => Some (None, ms)
      end
  | _, _ => Some (None, ms)
  end.

Definition match_frontier (ms : MatchState) (si pp : nat) : MatchResult :=
  match pat !! (pp + 2) with
  | None => Some (None, ms)
  | Some p =>
      if (p =? #"[")%Z then
        let? set_end := element_end pat (pp + 2) in
        let? prev := (match si with 0 => Some 0%Z | S i => text !! i end) in
        let curr := (match text !! si with Some c => c | None => 0%Z end) in
        let? pm := singlematch prev pat (pp + 2) in
        let? cm := singlematch curr pat (pp + 2) in
        if negb pm && cm then rec ms si set_end else Some (None, ms)
      else Some (None, ms)
  end.

Definition match_backref (ms : MatchState) (si pp : nat) : MatchResult :=
  let? d := pat !! (pp + 1) in
  let n := Z.to_nat (d - #"0") in
  if (n =? 0) || (num_captures ms <? n) then
    Some (None, with_error (InvalidCaptureIndex n) ms)
  else
    let? c := captures ms !! (n - 1) in
    match clen c with
    | Len l =>
        if length text <? si + l then Some (None, ms)
        else
          let? eq := bytes_equal text si (cstart c) l in
          if eq then rec ms (si + l) (pp + 2) else Some (None, ms)
    | _ => Some (None, with_error (InvalidCaptureIndex n) ms)
    end.

(** The special pattern items; [None] is the fall-through to the normal
    element. *)
Definition match_special (ms : MatchState) (si pp : nat) (p : Z) : option MatchResult :=
  if (p =? #"(")%Z then
    Some (match pat !! (pp + 1) with
          | Some q => if (q =? #")")%Z then match_position_capture ms si (pp + 2)
                      else match_open_capture ms si (pp + 1)
          | None => match_open_capture ms si (pp + 1)
          end)
  else if (p =? #")")%Z then Some (match_close_capture ms si (pp + 1))
  else if (p =? #"$")%Z && (length pat <=? pp + 1) then
    Some (Some (if si =? length text then Some si else None, ms))
  else if (p =? #"%")%Z then
    match pat !! (pp + 1) with
    | Some q =>
        if (q =? #"b")%Z then Some (match_balanced ms si pp)
        else if (q =? #"f")%Z then Some (match_frontier ms si pp)
        else if is_ascii_digit q then Some (match_backref ms si pp)
        else None
    | None => None
    end
  else None.

(** [match_inner]; [s] is [text[si..]]. *)
Fixpoint match_inner (ms : MatchState) (s : list Z) (si pp : nat) : MatchResult :=
  match pat !! pp with
  | None => Some (Some si, ms)
  | Some p =>
      match match_special ms si pp p with
      | Some r => r
      | None =>
          let? ep := element_end pat pp in
          let single :=
            match s with
            | [] => Some (None, ms)
            | c :: s' =>
                let? b := singlematch c pat pp in
                if b then match_inner ms s' (si + 1) ep else Some (None, ms)
            end in
          match pat !! ep with
          | Some q =>
              if (q =? #"*")%Z then match_greedy ms si pp (ep + 1) 0
              else if (q =? #"+")%Z then match_greedy ms si pp (ep + 1) 1
              else if (q =? #"-")%Z then match_lazy ms si pp (ep + 1)
              else if (q =? #"?")%Z then match_optional ms si pp (ep + 1)
              else single
          | None => single
          end
      end
  end.
End Step.

(** [match_impl]: [gas] is one more than the nesting levels still allowed;
    the nesting check of the source fails before it is exhausted. *)
Fixpoint match_impl (gas : nat) (ms : MatchState) (si pp : nat) : MatchResult :=
  match error ms with
  | Some _ => Some (None, ms)
  | None =>
      if MAXCCALLS <? depth ms + 1 then
        Some (None, with_error PatternTooComplex ms)
      else
        match gas with
        | 0 => None
        | S gas =>
            let? ' r := match_inner (match_impl gas) (with_depth (depth ms + 1) ms)
                          (drop si text) si pp in
            let '(res, ms') := r in
            Some (res, with_depth (depth ms' - 1) ms')
        end
  end.

End Engine.

(** ** Captures of a finished match *)

Inductive CaptureValue : Set := Substring (s e : nat) | Position (p : nat).

Record MatchInfo : Set := mkMatchInfo
  { mstart : nat; mend : nat; mcaptures : list CaptureValue }.

Definition is_unfinished (c : Capture) : bool :=
  match clen c with LUnfinished => true | _ => false end.

(** The captures in use: [ms.captures[..ms.num_captures]]. *)
Definition live_captures (ms : MatchState) : list Capture :=
  take (num_captures ms) (captures ms).

Definition check_captures (ms : MatchState) : unit + PatError :=
  if existsb is_unfinished (live_captures ms) then inr UnfinishedCapture else inl ().

Definition capture_value (c : Capture) : list CaptureValue :=
  match clen c with
  | LPosition => [Position (cstart c + 1)]
  | Len l => [Substring (cstart c) (cstart c + l)]
  | LUnfinished => []
  end.

Definition extract_captures (ms : MatchState) : list CaptureValue :=
  flat_map capture_value (live_captures ms).

(** ** Plain search *)

(** [haystack.starts_with(needle)]. *)
Fixpoint starts_with (needle haystack : list Z) : bool :=
  match needle, haystack with
  | [], _ => true
  | n :: needle, h :: haystack => (n =? h)%Z && starts_with needle haystack
  | _ :: _, [] => false
  end.

(** [find_bytes_in_slice]: both the single-byte scan and the general loop
    stop at the first index where the needle starts. *)
Fixpoint find_from (needle haystack : list Z) (i : nat) : option nat :=
  match haystack with
  | [] => None
  | _ :: rest => if starts_with needle haystack then Some i else find_from needle rest (S i)
  end.

Definition find_bytes_in_slice (haystack needle : list Z) : option nat :=
  match needle with
  | [] => Some 0
  | _ => if length haystack <? length needle then None else find_from needle haystack 0
  end.

(** ** Searching *)

Abbreviation FindResult :=
  (option (option (nat * nat * list CaptureValue) + PatError)).

Definition gas0 : nat := S MAXCCALLS.

(** The search loop of [find_impl]; [fuel] bounds the remaining start
    positions. *)
Fixpoint find_loop (fuel : nat) (text pat : list Z) (pp0 : nat) (anchored : bool)
  (ms : MatchState) (si : nat) : FindResult :=
  match fuel with
  | 0 => None
  | S fuel =>
      let? ' r := match_impl text pat gas0 (reset ms) si pp0 in
      match r with
      | (Some e, ms') =>
          match check_captures ms' with
          | inr err => Some (inr err)
          | inl _ => Some (inl (Some (si, e, extract_captures ms')))
          end
      | (None, ms') =>
          match error ms' with
          | Some err => Some (inr err)
          | None =>
              if anchored || (length text <=? si) then Some (inl None)
              else find_loop fuel text pat pp0 anchored ms' (si + 1)
          end
      end
  end.

(** The general path of [find_impl], after the plain fast path. *)
Definition find_general (text pat : list Z) (init : nat) (should_validate : bool)
  : FindResult :=
  match (if should_validate then validate_pattern pat else inl ()) with
  | inr e => Some (inr e)
  | inl _ =>
      find_loop (S (length text - init)) text pat (pp_start pat)
        (pp_start pat =? 1) new_ms init
  end.

Definition find_impl (text pat : list Z) (init : nat) (should_validate : bool)
  : FindResult :=
  if length text <? init then Some (inl None)
  else if is_plain_pattern pat then
    match find_bytes_in_slice (drop init text) pat with
    | Some pos => Some (inl (Some (init + pos, init + pos + length pat, [])))
    | None => Some (inl None)
    end
  else find_general text pat init should_validate.

Definition find (text pat : list Z) (init : nat) : FindResult :=
  find_impl text pat init true.
Definition find_assume_valid (text pat : list Z) (init : nat) : FindResult :=
  find_impl text pat init false.

(** [max] limit of the global operations. *)
Definition reached (max : option nat) (count : nat) : bool :=
  match max with Some m => m <=? count | None => false end.

Fixpoint find_all_plain_loop (fuel : nat) (text pat : list Z) (max : option nat)
  (acc : list MatchInfo) (pos : nat) : option (list MatchInfo) :=
  if (length text <? pos) || reached max (length acc) then Some acc
  else
    match fuel with
    | 0 => None
    | S fuel =>
        match find_bytes_in_slice (drop pos text) pat with
        | Some found =>
            find_all_plain_loop fuel text pat max
              (acc ++ [mkMatchInfo (pos + found) (pos + found + length pat) []])
              (pos + found + length pat)
        | None => Some acc
        end
    end.

Definition find_all_matches_plain (text pat : list Z) (init : nat) (max : option nat)
  : option (list MatchInfo + PatError) :=
  let? r := find_all_plain_loop (length text + 2) text pat max [] init in Some (inl r).

(** The loop of [find_all_matches]. Every iteration either advances [si] or
    clears [last_was_nonempty], so [2 * length text + 3] of them are enough. *)
Fixpoint find_all_loop (fuel : nat) (text pat : list Z) (max : option nat) (pp0 : nat)
  (anchored : bool) (ms : MatchState) (acc : list MatchInfo) (si : nat) (last : bool)
  : option (list MatchInfo + PatError) :=
  if (length text <? si) || reached max (length acc) then Some (inl acc)
  else
    match fuel with
    | 0 => None
    | S fuel =>
        let? ' r := match_impl text pat gas0 (reset ms) si pp0 in
        match r with
        | (Some e, ms') =>
            match check_captures ms' with
            | inr err => Some (inr err)
            | inl _ =>
                if (e =? si) && last then
                  find_all_loop fuel text pat max pp0 anchored ms' acc
                    (if si <? length text then si + 1 else si) false
                else
                  let acc := acc ++ [mkMatchInfo si e (extract_captures ms')] in
                  if e =? si then
                    if si <? length text
                    then find_all_loop fuel text pat max pp0 anchored ms' acc (si + 1) false
                    else Some (inl acc)
                  else find_all_loop fuel text pat max pp0 anchored ms' acc e true
            end
        | (None, ms') =>
            match error ms' with
            | Some err => Some (inr err)
            | None =>
                if anchored || (length text <=? si) then Some (inl acc)
                else find_all_loop fuel text pat max pp0 anchored ms' acc (si + 1) false
            end
        end
    end.

Definition find_all_matches (text pat : list Z) (init : nat) (max : option nat)
  : option (list MatchInfo + PatError) :=
  if is_plain_pattern pat && negb (bool_decide (pat = [])) then
    find_all_matches_plain text pat init max
  else
    match validate_pattern pat with
    | inr e => Some (inr e)
    | inl _ =>
        find_all_loop (2 * length text + 3) text pat max (pp_start pat)
          (pp_start pat =? 1) new_ms [] init false
    end.

(** ** Substitution *)

(** [&text[a..b]]. *)
Definition slice (text : list Z) (a b : nat) : option (list Z) :=
  if (a <=? b) && (b <=? length text) then Some (take (b - a) (drop a text)) else None.

(** [format!("{}", n)] as bytes. *)
Definition decimal (n : nat) : list Z :=
  map chr (list_ascii_of_string (NilZero.string_of_uint (Nat.to_uint n))).

(** [%n] in a replacement, for the captures of a match. *)
Definition subst_capture (full text : list Z) (caps : list Capture) (n : nat)
  : option (list Z + PatError) :=
  if n =? 0 then Some (inl full)
  else if n <=? length caps then
    let? c := caps !! (n - 1) in
    match clen c with
    | Len l => let? t := slice text (cstart c) (cstart c + l) in Some (inl t)
    | LPosition => Some (inl (decimal (cstart c + 1)))
    | LUnfinished => Some (inl [])
    end
  else if (length caps =? 0) && (n =? 1) then Some (inl full)
  else Some (inr (InvalidCaptureIndex n)).

(** Both substitution routines walk the replacement the same way; they differ
    in what [%0] .. [%9] stand for. The run of bytes up to the next [%] is
    copied byte by byte. *)
Fixpoint subst_loop (digit : nat -> option (list Z + PatError)) (repl acc : list Z)
  : option (list Z + PatError) :=
  match repl with
  | [] => Some (inl acc)
  | c :: rest =>
      if (c =? #"%")%Z then
        match rest with
        | [] => subst_loop digit rest (acc ++ [#"%"])
        | next :: rest' =>
            if (next =? #"%")%Z then subst_loop digit rest' (acc ++ [#"%"])
            else if is_ascii_digit next then
              let? r := digit (Z.to_nat (next - #"0")) in
              match r with
              | inl t => subst_loop digit rest' (acc ++ t)
              | inr e => Some (inr e)
              end
            else Some (inr InvalidPercentUse)
        end
      else subst_loop digit rest (acc ++ [c])
  end.

Definition substitute_captures_bytes (repl full text : list Z) (ms : MatchState)
  : option (list Z + PatError) :=
  subst_loop (subst_capture full text (live_captures ms)) repl [].

Definition subst_plain_digit (full : list Z) (n : nat) : option (list Z + PatError) :=
  match n with
  | 0 | 1 => Some (inl full)
  | _ => Some (inr (InvalidCaptureIndex n))
  end.

Definition substitute_plain_bytes (result repl full : list Z)
  : option (list Z + PatError) :=
  subst_loop (subst_plain_digit full) repl result.

Abbreviation GsubResult := (option (list Z * nat + PatError)).

Definition has_percent (repl : list Z) : bool := existsb (Z.eqb #"%") repl.

Fixpoint gsub_plain_loop (fuel : nat) (text pat repl : list Z) (max : option nat)
  (result : list Z) (count pos : nat) : GsubResult :=
  let stop := (let? t := slice text pos (length text) in Some (inl (result ++ t, count))) in
  if (length text <? pos) || reached max count then stop
  else
    match fuel with
    | 0 => None
    | S fuel =>
        match find_bytes_in_slice (drop pos text) pat with
        | Some found =>
            let? pre := slice text pos (pos + found) in
            let result := result ++ pre in
            let? r :=
              (if has_percent repl then
                 let? matched := slice text (pos + found) (pos + found + length pat) in
                 substitute_plain_bytes result repl matched
               else Some (inl (result ++ repl))) in
            match r with
            | inr e => Some (inr e)
            | inl result =>
                gsub_plain_loop fuel text pat repl max result (count + 1)
                  (pos + (found + length pat))
            end
        | None => stop
        end
    end.

Definition gsub_plain (text pat repl : list Z) (max : option nat) : GsubResult :=
  gsub_plain_loop (length text + 2) text pat repl max [] 0 0.

(** The result buffer and cursors of [gsub]'s loop. *)
Record GsubState : Set := mkGsub {
  gresult : list Z; gcount : nat; gsi : nat; glast : bool; gend : nat }.

(** Copy the byte at [si] and step over it (an empty match never consumes). *)
Definition copy_byte (text : list Z) (st : GsubState) : GsubState :=
  match text !! gsi st with
  | Some c => mkGsub (gresult st ++ [c]) (gcount st) (gsi st + 1) false (gsi st + 1)
  | None => mkGsub (gresult st) (gcount st) (gsi st + 1) false (gend st)
  end.

(** One successful match of [gsub]: text since the last match, then the
    replacement. *)
Definition gsub_match (text repl : list Z) (ms : MatchState) (st : GsubState) (e : nat)
  : option (GsubState + PatError) :=
  if (e =? gsi st) && glast st then Some (inl (copy_byte text st))
  else
    let? pre := slice text (gend st) (gsi st) in
    let result := gresult st ++ pre in
    let? r :=
      (if has_percent repl then
         let? full := slice text (gsi st) e in
         substitute_captures_bytes repl full text ms
       else Some (inl repl)) in
    match r with
    | inr err => Some (inr err)
    | inl t =>
        let st' := mkGsub (result ++ t) (gcount st + 1) (gsi st) false e in
        Some (inl (if e =? gsi st then copy_byte text st'
                   else mkGsub (gresult st') (gcount st') e true e))
    end.

Fixpoint gsub_loop (fuel : nat) (text pat repl : list Z) (max : option nat) (pp0 : nat)
  (anchored : bool) (ms : MatchState) (st : GsubState) : GsubResult :=
  let stop := (let? t := slice text (gend st) (length text) in
               Some (inl (gresult st ++ t, gcount st))) in
  if (length text <? gsi st) || reached max (gcount st) then stop
  else
    match fuel with
    | 0 => None
    | S fuel =>
        let? ' r := match_impl text pat gas0 (reset ms) (gsi st) pp0 in
        match r with
        | (Some e, ms') =>
            match check_captures ms' with
            | inr err => Some (inr err)
            | inl _ =>
                let? s := gsub_match text repl ms' st e in
                match s with
                | inr err => Some (inr err)
                | inl st' => gsub_loop fuel text pat repl max pp0 anchored ms' st'
                end
            end
        | (None, ms') =>
            match error ms' with
            | Some err => Some (inr err)
            | None =>
                if anchored || (length text <=? gsi st) then stop
                else gsub_loop fuel text pat repl max pp0 anchored ms'
                       (mkGsub (gresult st) (gcount st) (gsi st + 1) false (gend st))
            end
        end
    end.

Definition gsub (text pat repl : list Z) (max : option nat) : GsubResult :=
  if is_plain_pattern pat && negb (bool_decide (pat = [])) then
    gsub_plain text pat repl max
  else
    match validate_pattern pat with
    | inr e => Some (inr e)
    | inl _ =>
        gsub_loop (length text + 2) text pat repl max (pp_start pat)
          (pp_start pat =? 1) new_ms (mkGsub [] 0 0 false 0)
    end.
