(* ===== verification/PatSpec.v ===== *)
(** * Specification and correctness of the pattern matcher

    [parses] is the reference semantics of a Lua pattern: the list of all the
    ways a pattern suffix can match from a text position, in the order in
    which backtracking must prefer them. The matcher of [PatEngine], with its
    mutable captures, undo steps, nesting counter and specialised loops, is
    shown to return the head of that list; validated patterns never make it
    panic. *)

From Stdlib Require Import ZArith Lia Ascii.
From stdpp Require Import base decidable list numbers option.
From S2P Require Import Prelude PatClass PatEngine.
#[local] Open Scope nat_scope.

(** ** Reference semantics *)

(** Length of the longest prefix whose bytes satisfy [f]. *)
Fixpoint run_while (f : Z -> bool) (s : list Z) : nat :=
  match s with c :: s' => if f c then S (run_while f s') else 0 | [] => 0 end.

Definition last_open (cs : list Capture) : option nat :=
  match last_unfinished cs (length cs) with Some o => o | None => None end.

Definition close_capture (si n : nat) (cs : list Capture) : list Capture :=
  match cs !! n with
  | Some c => <[n := mkCapture (cstart c) (Len (si - cstart c)) KClosed]> cs
  | None => cs
  end.

(** The extent of a balanced match [%bxy] starting at [si]. *)
Definition balanced (text : list Z) (open close : Z) (si : nat) : option nat :=
  match text !! si with
  | Some c =>
      if (c =? open)%Z then
        let '(i, d) := balance_loop open close (drop (S si) text) (S si) 1 in
        if (d =? 0)%Z then Some i else None
      else None
  | None => None
  end.

Section Spec.
Context (text pat : list Z).

(** Does the element at [pp] accept the byte [c]? *)
Definition accepts (pp : nat) (c : Z) : bool := default false (singlematch c pat pp).

Definition next (pp : nat) : nat := default (S pp) (element_end pat pp).

(** How many bytes from [si] the element at [pp] accepts in a row. *)
Definition run (pp si : nat) : nat := run_while (accepts pp) (drop si text).

(** [%f[set]] holds between the byte before [si] and the one at [si]. *)
Definition frontier (pp si : nat) : bool :=
  negb (accepts pp (match si with 0 => 0%Z | S i => default 0%Z (text !! i) end))
  && accepts pp (default 0%Z (text !! si)).

(** The text captured by capture [n], when it is closed. *)
Definition captured (cs : list Capture) (n : nat) : option (list Z) :=
  match n with
  | 0 => None
  | S n =>
      match cs !! n with
      | Some c => match clen c with Len l => Some (take l (drop (cstart c) text)) | _ => None end
      | None => None
      end
  end.

(** The repetition counts to try, in order, for a run of [n] bytes. *)
Definition attempts (q : option Z) (n : nat) : option (list nat) :=
  match q with
  | None => None
  | Some q =>
      if (q =? #"*")%Z then Some (rev (seq 0 (S n)))
      else if (q =? #"+")%Z then Some (rev (seq 1 n))
      else if (q =? #"-")%Z then Some (seq 0 (S n))
      else if (q =? #"?")%Z then Some (match n with 0 => [0] | _ => [1; 0] end)
      else None
  end.

Fixpoint parses (fuel pp si : nat) (cs : list Capture) : list (nat * list Capture) :=
  match fuel with
  | 0 => []
  | S fuel =>
      match pat !! pp with
      | None => [(si, cs)]
      | Some p =>
          let q := pat !! (pp + 1) in
          if (p =? #"(")%Z then
            if LUA_MAXCAPTURES <=? length cs then []
            else if bool_decide (q = Some #")") then
              parses fuel (pp + 2) si (cs ++ [mkCapture si LPosition KPosition])
            else parses fuel (pp + 1) si (cs ++ [mkCapture si LUnfinished KUnfinished])
          else if (p =? #")")%Z then
            match last_open cs with
            | Some n => parses fuel (pp + 1) si (close_capture si n cs)
            | None => []
            end
          else if (p =? #"$")%Z && (length pat <=? pp + 1) then
            if si =? length text then [(si, cs)] else []
          else if (p =? #"%")%Z && bool_decide (q = Some #"b") then
            match pat !! (pp + 2), pat !! (pp + 3) with
            | Some open, Some close =>
                match balanced text open close si with
                | Some i => parses fuel (pp + 4) i cs
                | None => []
                end
            | _, _ => []
            end
          else if (p =? #"%")%Z && bool_decide (q = Some #"f") then
            if bool_decide (pat !! (pp + 2) = Some #"[") && frontier (pp + 2) si
            then parses fuel (next (pp + 2)) si cs else []
          else if (p =? #"%")%Z && is_ascii_digit (default 0%Z q) then
            match captured cs (Z.to_nat (default 0%Z q - #"0")) with
            | Some t =>
                if bool_decide (take (length t) (drop si text) = t)
                then parses fuel (pp + 2) (si + length t) cs else []
            | None => []
            end
          else
            match attempts (pat !! next pp) (run pp si) with
            | Some ks => flat_map (fun k => parses fuel (next pp + 1) (si + k) cs) ks
            | None =>
                match run pp si with
                | 0 => []
                | S _ => parses fuel (next pp) (si + 1) cs
                end
            end
      end
  end.

(** Every way the pattern from [pp] on matches from [si]. *)
Definition all_parses (pp si : nat) (cs : list Capture) : list (nat * list Capture) :=
  parses (S (length pat - pp)) pp si cs.
End Spec.

(** ** Auxiliary lemmas *)

Lemma set_end_loop_ge s i : i <= set_end_loop s i.
Proof.
  revert i. induction s as [|x|x y s IH1 IH2] using list_ind2; intros i; simpl.
  - lia.
  - destruct (_ =? _)%Z; lia.
  - destruct (x =? _)%Z; [lia|]. destruct (x =? _)%Z; [specialize (IH1 (S (S i)))|
      specialize (IH2 (S i)); simpl in IH2]; lia.
Qed.

Lemma skip_byte_ge b s i : i <= (skip_byte b s i).2.
Proof. unfold skip_byte. destruct s; simpl; [lia|]. destruct (_ =? _)%Z; simpl; lia. Qed.

Lemma element_end_gt pat pp ep : element_end pat pp = Some ep -> pp < ep.
Proof.
  unfold element_end. destruct (pat !! pp) as [p|]; [|done].
  destruct (p =? _)%Z; [intros [= <-]; lia|]. destruct (p =? _)%Z; [|intros [= <-]; lia].
  pose proof (skip_byte_ge #"^" (drop (pp + 1) pat) (pp + 1)).
  destruct (skip_byte #"^" _ _) as [s i]. pose proof (skip_byte_ge #"]" s i).
  destruct (skip_byte #"]" s i) as [s' i']. pose proof (set_end_loop_ge s' i').
  simpl in *. intros [= <-]. lia.
Qed.

Lemma next_gt pat pp : pp < next pat pp.
Proof.
  unfold next. destruct (element_end pat pp) eqn:E; simpl; [|lia].
  by eapply element_end_gt.
Qed.

(** The validator and the matcher agree on where a set ends. *)
Lemma validate_set_loop_end s j i : validate_set_loop s j = inl i ->
  set_end_loop s j + 1 = i.
Proof.
  revert j i. induction s as [|x|x y s IH1 IH2] using list_ind2; intros j i; simpl.
  - done.
  - destruct (x =? #"]")%Z; [intros [= <-]; lia|]. by destruct (x =? _)%Z.
  - destruct (x =? #"]")%Z; [intros [= <-]; lia|]. destruct (x =? _)%Z; [apply IH1|].
    intros H. by apply IH2 in H.
Qed.

Lemma validate_set_end pat pp i : pat !! pp = Some #"[" ->
  validate_set pat pp = inl i -> element_end pat pp = Some i.
Proof.
  unfold validate_set, element_end. intros ->. simpl.
  destruct (skip_byte #"^" _ _) as [s j]. destruct (skip_byte #"]" s j) as [s' j'].
  intros <-%validate_set_loop_end. done.
Qed.

(** ** Validated positions *)

(** [good pat i]: validation succeeds from index [i] on. *)
Inductive good (pat : list Z) : nat -> Prop :=
  | good_end i : length pat <= i -> good pat i
  | good_step i i' : i < length pat -> validate_elem pat i = inl i' ->
      good pat (skip_suffix pat i') -> good pat i.

Lemma validate_set_gt pat i j : validate_set pat i = inl j -> i < j.
Proof.
  unfold validate_set. pose proof (skip_byte_ge #"^" (drop (i + 1) pat) (i + 1)).
  destruct (skip_byte #"^" _ _) as [s k]. pose proof (skip_byte_ge #"]" s k).
  destruct (skip_byte #"]" s k) as [s' k']. pose proof (set_end_loop_ge s' k').
  simpl in *. intros <-%validate_set_loop_end. lia.
Qed.

Lemma validate_elem_gt pat i i' : i < length pat -> validate_elem pat i = inl i' -> i < i'.
Proof.
  intros Hi. unfold validate_elem.
  destruct (lookup_lt_is_Some_2 pat i Hi) as [p ->].
  repeat case_match; intros; simplify_eq; try lia; try (by apply validate_set_gt);
    match goal with H : validate_set _ _ = _ |- _ => apply validate_set_gt in H end; lia.
Qed.

Lemma skip_suffix_ge pat i : i <= skip_suffix pat i.
Proof. unfold skip_suffix. repeat case_match; lia. Qed.

Lemma validate_loop_good fuel pat i :
  length pat - i < fuel -> validate_loop fuel pat i = inl () -> good pat i.
Proof.
  revert i. induction fuel as [|fuel IH]; intros i Hf; simpl; [lia|].
  destruct (Nat.ltb_spec i (length pat)) as [Hi|Hi]; [|intros; by constructor].
  destruct (validate_elem pat i) as [i'|] eqn:E; [|done]. intros H.
  eapply good_step; [done..|]. apply IH; [|done].
  pose proof (validate_elem_gt _ _ _ Hi E). pose proof (skip_suffix_ge pat i'). lia.
Qed.

Lemma validate_pattern_good pat : validate_pattern pat = inl () -> good pat (pp_start pat).
Proof. apply validate_loop_good. lia. Qed.

Definition at_suffix (pat : list Z) (i : nat) : Prop :=
  exists c, pat !! i = Some c /\ is_suffix_char c = true.

Lemma skip_suffix_cases pat i :
  (at_suffix pat i /\ skip_suffix pat i = i + 1) \/
  (~ at_suffix pat i /\ skip_suffix pat i = i).
Proof.
  unfold skip_suffix, at_suffix. destruct (pat !! i) as [c|].
  - destruct (is_suffix_char c) eqn:E; [left|right]; (split; [|done]).
    + eauto.
    + intros (? & [= <-] & ?). congruence.
  - right. split; [|done]. by intros (? & ? & ?).
Qed.

Lemma suffix_elem pat i : at_suffix pat i -> validate_elem pat i = inl (i + 1).
Proof.
  intros (c & Hc & Hs). unfold validate_elem. rewrite Hc.
  unfold is_suffix_char in Hs.
  destruct (Z.eqb_spec c #"%"); [by subst|]. destruct (Z.eqb_spec c #"["); [by subst|]. done.
Qed.

Lemma at_suffix_lt pat i : at_suffix pat i -> i < length pat.
Proof. intros (c & Hc & _). by eapply lookup_lt_Some. Qed.

(** A repetition suffix can always also be read as a literal element. *)
Lemma good_after_suffix pat i : good pat i -> at_suffix pat i -> good pat (i + 1).
Proof.
  induction 1 as [i Hi|i i' Hi He Hg IH]; intros Hs.
  - constructor. lia.
  - rewrite suffix_elem in He by done. simplify_eq.
    destruct (skip_suffix_cases pat (i + 1)) as [[Hs' Hk]|[_ Hk]]; rewrite Hk in *; [|done].
    eapply good_step; [by apply at_suffix_lt|by apply suffix_elem|].
    destruct (skip_suffix_cases pat (i + 1 + 1)) as [[Hs'' ->]|[_ ->]]; [|done].
    by apply IH.
Qed.

Lemma good_next pat i i' : i < length pat -> good pat i -> validate_elem pat i = inl i' ->
  good pat i' /\ (at_suffix pat i' -> good pat (i' + 1)).
Proof.
  intros Hi Hg He. inversion Hg as [|j k Hj He' Hg']; [lia|]. subst.
  rewrite He in He'. injection He' as <-.
  destruct (skip_suffix_cases pat i') as [[Hs Hk]|[Hs Hk]]; rewrite Hk in Hg'; [|done].
  split; [|done]. eapply good_step; [by apply at_suffix_lt|by apply suffix_elem|].
  destruct (skip_suffix_cases pat (i' + 1)) as [[Hs' ->]|[_ ->]]; [|done].
  by apply good_after_suffix.
Qed.

(** At a validated position an element is always readable. *)
Lemma good_elem pat i : i < length pat -> good pat i -> exists i', validate_elem pat i = inl i'.
Proof. intros ? Hg. inversion Hg; [lia|eauto]. Qed.

(** ** The specialised repetition counter *)

Lemma run_len_while (f : Z -> option bool) (g : Z -> bool) s :
  (forall c, f c = Some (g c)) -> run_len f s = Some (run_while g s).
Proof.
  intros H. induction s as [|c s IH]; simpl; [done|]. rewrite H.
  destruct (g c); [by rewrite IH|done].
Qed.

Lemma run_while_ext f g s : (forall c, f c = g c) -> run_while f s = run_while g s.
Proof. intros H. induction s as [|c s IH]; simpl; [done|]. by rewrite H, IH. Qed.

Lemma run_while_all f s : (forall c, f c = true) -> run_while f s = length s.
Proof. intros H. induction s as [|c s IH]; simpl; [done|]. by rewrite H, IH. Qed.

Lemma run_while_le f s : run_while f s <= length s.
Proof. induction s as [|c s IH]; simpl; [done|]. destruct (f c); lia. Qed.

(** The class-letter loop compares with the inverted class instead of
    negating it. *)
Lemma class_run_test c cl : is_class_letter cl = true ->
  negb (Bool.eqb (match_class c (to_ascii_lowercase cl)) (is_ascii_uppercase cl))
  = match_escape c cl.
Proof.
  intros H. unfold match_escape, to_ascii_lowercase. rewrite H, andb_true_r.
  destruct (is_ascii_uppercase cl); by destruct (match_class _ _).
Qed.

Lemma literal_escape c cl : is_class_letter cl = false -> match_escape c cl = (c =? cl)%Z.
Proof.
  intros H. unfold match_escape. rewrite H, andb_false_r. unfold match_class.
  unfold is_class_letter, class_letters in H. cbn [existsb] in H.
  repeat (apply orb_false_iff in H as [?H H]).
  by repeat match goal with E : (cl =? _)%Z = false |- _ => rewrite E; clear E end.
Qed.

(** An element that can be read, at [pp]. *)
Definition readable (pat : list Z) (pp : nat) : Prop :=
  exists p, pat !! pp = Some p /\ (p = #"%" -> is_Some (pat !! (pp + 1))).

Lemma singlematch_readable pat pp c : readable pat pp ->
  singlematch c pat pp = Some (accepts pat pp c).
Proof.
  unfold accepts. intros (p & Hp & Hq). unfold singlematch. rewrite Hp.
  destruct (Z.eqb_spec p #"."); [done|]. destruct (Z.eqb_spec p #"%"); [|by destruct (p =? _)%Z].
  destruct (Hq e) as [q ->]. done.
Qed.

Lemma count_max_repetition_run text si pat pp : readable pat pp ->
  count_max_repetition text si pat pp = Some (run text pat pp si).
Proof.
  intros Hr. pose proof (fun c => singlematch_readable pat pp c Hr) as Hs.
  destruct Hr as (p & Hp & Hq). unfold count_max_repetition, run.
  destruct (Nat.leb_spec (length text) si) as [Hl|Hl]; [by rewrite drop_ge|].
  rewrite Hp. unfold singlematch in Hs. rewrite Hp in Hs.
  destruct (Z.eqb_spec p #".") as [->|].
  { rewrite run_while_all, length_drop; [done|]. intros c. specialize (Hs c). simpl in Hs.
    congruence. }
  destruct (Z.eqb_spec p #"%") as [->|].
  - destruct (Hq eq_refl) as [cl Hcl]. rewrite Hcl in *.
    destruct (is_class_letter cl) eqn:El; apply run_len_while; intros c;
      specialize (Hs c); simplify_eq; rewrite <- Hs.
    + by rewrite class_run_test.
    + by rewrite literal_escape.
  - destruct (Z.eqb_spec p #"[") as [->|]; apply run_len_while; intros c; specialize (Hs c).
    + unfold singlematch. rewrite Hp. done.
    + congruence.
Qed.

(** ** Fuel of the reference semantics *)

Section Fuel.
Context (text pat : list Z).

Lemma flat_map_ext_in {A B} (f g : A -> list B) l :
  (forall a, f a = g a) -> flat_map f l = flat_map g l.
Proof. intros H. induction l; simpl; [done|]. by rewrite H, IHl. Qed.

Lemma parses_fuel f1 f2 pp si cs :
  length pat - pp < f1 -> length pat - pp < f2 ->
  parses text pat f1 pp si cs = parses text pat f2 pp si cs.
Proof.
  revert f2 pp si cs. induction f1 as [|f1 IH]; intros [|f2] pp si cs H1 H2; try lia.
  simpl. destruct (pat !! pp) as [p|] eqn:Hp; [|done].
  apply lookup_lt_Some in Hp. pose proof (next_gt pat pp). pose proof (next_gt pat (pp + 2)).
  assert (forall pp' si' cs', pp < pp' ->
    parses text pat f1 pp' si' cs' = parses text pat f2 pp' si' cs') as E.
  { intros. apply IH; lia. }
  repeat case_match; try done; try (apply E; lia).
  apply flat_map_ext_in. intros. apply E. lia.
Qed.

(** One unfolding of [all_parses]. *)
Lemma all_parses_fuel f pp si cs : length pat - pp < f ->
  parses text pat f pp si cs = all_parses text pat pp si cs.
Proof. intros. apply parses_fuel; lia. Qed.
End Fuel.

(** ** Match states *)

Section Refine.
Context (text pat : list Z).

(** A capture lies in the text before the current position. *)
Definition cap_ok (si : nat) (c : Capture) : Prop :=
  cstart c <= si /\ (forall l, clen c = Len l -> cstart c + l <= si) /\
  (clen c = LUnfinished -> ckind c = KUnfinished).

(** A live state: no error, [cs] are its captures, [d] its nesting depth. *)
Record state_ok (d si : nat) (cs : list Capture) (ms : MatchState) : Prop := {
  so_error : error ms = None;
  so_depth : depth ms = d;
  so_len : length (captures ms) = LUA_MAXCAPTURES;
  so_num : num_captures ms = length cs;
  so_live : live_captures ms = cs;
  so_caps : Forall (cap_ok si) cs;
}.

(** What a matching function must do on a live state, given the parses [L]
    still to explore: return their head, or report that there are none and
    restore the captures, unless an error stopped it. *)
Definition outcome (d : nat) (si : nat) (cs : list Capture)
    (L : list (nat * list Capture)) (res : MatchResult) : Prop :=
  exists r ms', res = Some (r, ms') /\ depth ms' = d /\
    match r with
    | Some e => si <= e <= length text /\ state_ok d e (live_captures ms') ms' /\
        head L = Some (e, live_captures ms')
    | None => error ms' = None -> L = [] /\ state_ok d si cs ms'
    end.

Lemma cap_ok_mono si si' c : si <= si' -> cap_ok si c -> cap_ok si' c.
Proof.
  intros ? (? & Hl & ?). split_and!; [lia| |done]. intros l E. specialize (Hl l E). lia.
Qed.

Lemma state_ok_mono d si si' cs ms : si <= si' -> state_ok d si cs ms -> state_ok d si' cs ms.
Proof.
  intros ? [? ? ? ? ? Hc]. constructor; try done.
  eapply Forall_impl; [|exact Hc]. intros. by eapply cap_ok_mono.
Qed.

Lemma state_ok_num d si cs ms : state_ok d si cs ms -> length cs <= LUA_MAXCAPTURES.
Proof.
  intros [_ _ Hl Hn Hv _]. rewrite <- Hv. unfold live_captures. rewrite length_take. lia.
Qed.

Lemma state_ok_lookup d si cs ms n : state_ok d si cs ms -> n < length cs ->
  captures ms !! n = cs !! n.
Proof.
  intros Hs Hn. destruct Hs as [_ _ _ Hnum Hl _]. rewrite <- Hl. unfold live_captures.
  rewrite lookup_take_lt by lia. done.
Qed.

Lemma state_ok_with_depth d d' si cs ms : state_ok d si cs ms -> state_ok d' si cs (with_depth d' ms).
Proof. intros []. by constructor. Qed.

(** Opening a capture appends a slot; failing later pops it again. *)
Lemma state_ok_push d si cs ms c : state_ok d si cs ms -> length cs < LUA_MAXCAPTURES ->
  cap_ok si c ->
  state_ok d si (cs ++ [c]) (with_num (num_captures ms + 1) (with_capture (num_captures ms) c ms)).
Proof.
  intros [? ? Hlen Hnum Hlive Hcaps] Hlt Hc. constructor; simpl; try done.
  - by rewrite length_insert.
  - rewrite length_app. simpl. lia.
  - unfold live_captures in *. simpl.
    rewrite Nat.add_1_r. erewrite take_S_r by (apply list_lookup_insert_eq; lia).
    rewrite take_insert_ge by lia. by rewrite Hlive.
  - apply Forall_app. split; [done|]. by constructor.
Qed.

Lemma state_ok_pop d si cs ms c : state_ok d si (cs ++ [c]) ms ->
  state_ok d si cs (with_num (length cs) ms).
Proof.
  intros [? ? Hlen Hnum Hlive Hcaps]. constructor; simpl; try done.
  - unfold live_captures in *. simpl. rewrite length_app in Hnum. simpl in Hnum.
    rewrite Hnum in Hlive.
    assert (take (length cs) (take (length cs + 1) (captures ms)) = cs) as E.
    { rewrite Hlive. by rewrite take_app_length. }
    rewrite take_take in E. by rewrite Nat.min_l in E by lia.
  - by apply Forall_app in Hcaps as [? _].
Qed.

(** Overwriting a capture in use. *)
Lemma state_ok_set d si cs ms n c : state_ok d si cs ms -> n < length cs -> cap_ok si c ->
  state_ok d si (<[n := c]> cs) (with_capture n c ms).
Proof.
  intros [? ? Hlen Hnum Hlive Hcaps] Hn Hc. constructor; simpl; try done.
  - by rewrite length_insert.
  - by rewrite length_insert.
  - unfold live_captures in *. simpl. rewrite take_insert_lt by lia. by rewrite Hlive.
  - by apply Forall_insert.
Qed.

(** ** Alternatives *)

Lemma outcome_weaken d si si' cs L res :
  si <= si' -> Forall (cap_ok si) cs -> outcome d si' cs L res -> outcome d si cs L res.
Proof.
  intros Hsi Hc (r & ms' & -> & Hd & H). exists r, ms'. split_and!; [done..|].
  destruct r as [e|].
  - destruct H as (? & ? & ?). split_and!; [lia|lia|done..].
  - intros He. destruct (H He) as [? []]. split; [done|]. by constructor.
Qed.

Lemma outcome_fail d si cs ms : state_ok d si cs ms -> outcome d si cs [] (Some (None, ms)).
Proof. intros Hs. exists None, ms. split_and!; [done|apply Hs|]. done. Qed.

Lemma outcome_stop d si cs ms : state_ok d si cs ms -> si <= length text ->
  outcome d si cs [(si, cs)] (Some (Some si, ms)).
Proof.
  intros Hs ?. exists (Some si), ms. rewrite (so_live _ _ _ _ Hs).
  split_and!; [done|apply Hs|lia|done..].
Qed.

Lemma outcome_error d si cs L ms e : depth ms = d ->
  outcome d si cs L (Some (None, with_error e ms)).
Proof. intros. exists None, (with_error e ms). by split_and!. Qed.

(** Once an error is recorded, it stays. *)
Definition stuck (d : nat) (res : MatchResult) : Prop :=
  exists ms', res = Some (None, ms') /\ error ms' <> None /\ depth ms' = d.

Lemma stuck_outcome d si cs L res : stuck d res -> outcome d si cs L res.
Proof. intros (ms' & -> & ? & ?). exists None, ms'. by split_and!. Qed.

(** Try one alternative, then the others. *)
Lemma outcome_alt d si cs L1 L2 res (k : MatchState -> MatchResult) :
  outcome d si cs L1 res ->
  (forall ms, state_ok d si cs ms -> outcome d si cs L2 (k ms)) ->
  (forall ms, error ms <> None -> depth ms = d -> stuck d (k ms)) ->
  outcome d si cs (L1 ++ L2)
    (let? ' r := res in
     match r with (Some e, ms') => Some (Some e, ms') | (None, ms') => k ms' end).
Proof.
  intros (r & ms' & -> & Hd & H) Hk Hs. destruct r as [e|].
  - destruct H as (? & ? & HL). exists (Some e), ms'. split_and!; try done; try lia.
    by destruct L1.
  - destruct (error ms') eqn:E.
    + apply stuck_outcome, Hs; [congruence|done].
    + destruct (H eq_refl) as [-> Hok]. by apply Hk.
Qed.

Section Step.
Context (d : nat) (rec : MatchState -> nat -> nat -> MatchResult).
Hypothesis Hrec : forall si pp cs ms, state_ok d si cs ms -> si <= length text ->
  good pat pp -> outcome d si cs (all_parses text pat pp si cs) (rec ms si pp).
Hypothesis Herr : forall ms si pp, error ms <> None -> rec ms si pp = Some (None, ms).

Lemma rec_stuck ms si pp : error ms <> None -> depth ms = d -> stuck d (rec ms si pp).
Proof. intros. exists ms. by rewrite Herr. Qed.

Lemma greedy_stuck count ms si rp min : error ms <> None -> depth ms = d ->
  stuck d (greedy_loop rec ms si rp min count).
Proof.
  induction count as [|count IH]; intros He Hd; simpl;
    (destruct (_ <? _); [by exists ms|]); rewrite Herr by done; [by exists ms|auto].
Qed.

Lemma greedy_loop_ok count ms si rp min cs :
  state_ok d si cs ms -> si + count <= length text -> good pat rp ->
  outcome d si cs
    (flat_map (fun k => all_parses text pat rp (si + k) cs) (rev (seq min (S count - min))))
    (greedy_loop rec ms si rp min count).
Proof.
  intros Hs Hl Hg. revert ms Hs. induction count as [|count IH]; intros ms Hs; simpl.
  - destruct (Nat.ltb_spec 0 min) as [Hm|Hm].
    + destruct min; [lia|]. by apply outcome_fail.
    + replace min with 0 by lia. simpl. apply outcome_alt.
      * eapply (outcome_weaken _ _ (si + 0)); [lia|apply Hs|]. apply Hrec; [|lia|done].
        by eapply state_ok_mono; [|done]; lia.
      * by apply outcome_fail.
      * intros ms' ? ?. by exists ms'.
  - destruct (Nat.ltb_spec (S count) min) as [Hm|Hm].
    + replace (S (S count) - min) with 0 by lia. by apply outcome_fail.
    + replace (S (S count) - min) with (S (S count - min)) by lia.
      rewrite seq_S, rev_app_distr. cbn [rev app flat_map].
      replace (min + (S count - min)) with (S count) by lia.
      apply outcome_alt.
      * eapply (outcome_weaken _ _ (si + S count)); [lia|apply Hs|]. apply Hrec; [|lia|done].
        by eapply state_ok_mono; [|done]; lia.
      * intros. apply IH; [lia|done].
      * intros. by apply greedy_stuck.
Qed.

Lemma flat_map_map {A B C} (f : B -> list C) (g : A -> B) l :
  flat_map f (map g l) = flat_map (fun a => f (g a)) l.
Proof. induction l; simpl; [done|]. by rewrite IHl. Qed.

Lemma lazy_stuck pp s i rp ms : readable pat pp -> error ms <> None -> depth ms = d ->
  stuck d (lazy_loop pat rec ms s i pp rp).
Proof.
  intros Hr He Hd. revert i. induction s as [|c s IH]; intros i; simpl; rewrite Herr by done.
  - by exists ms.
  - rewrite singlematch_readable by done. destruct (accepts _ _ _); [apply IH|by exists ms].
Qed.

Lemma lazy_loop_ok pp s i rp cs ms : readable pat pp -> s = drop i text ->
  state_ok d i cs ms -> i <= length text -> good pat rp ->
  outcome d i cs
    (flat_map (fun k => all_parses text pat rp (i + k) cs)
       (seq 0 (S (run_while (accepts pat pp) s))))
    (lazy_loop pat rec ms s i pp rp).
Proof.
  intros Hr Es Hs Hl Hg. revert i Es ms Hs Hl. induction s as [|c s IH]; intros i Es ms Hs Hl.
  - cbn [run_while seq flat_map lazy_loop]. apply outcome_alt.
    + rewrite Nat.add_0_r. by apply Hrec.
    + by apply outcome_fail.
    + intros ms' ? ?. by exists ms'.
  - assert (i < length text).
    { destruct (Nat.lt_ge_cases i (length text)); [done|]. by rewrite drop_ge in Es. }
    destruct (lookup_lt_is_Some_2 text i) as [c' Hc']; [done|].
    rewrite (drop_S _ _ _ Hc') in Es. injection Es as <- Es.
    cbn [run_while lazy_loop]. rewrite singlematch_readable by done.
    cbn [seq flat_map]. rewrite Nat.add_0_r. apply outcome_alt.
    + by apply Hrec.
    + intros ms' Hs'. destruct (accepts pat pp c); [|by apply outcome_fail].
      rewrite <- seq_shift, flat_map_map.
      rewrite (flat_map_ext_in _ (fun k => all_parses text pat rp (S i + k) cs))
        by (intros; f_equal; lia).
      eapply (outcome_weaken _ _ (S i)); [lia|apply Hs|].
      apply IH; [done|by eapply state_ok_mono; [|done]; lia|lia].
    + intros ms' ? ?. destruct (accepts pat pp c); [by apply lazy_stuck|by exists ms'].
Qed.

Lemma rec_ahead si si' pp cs ms : state_ok d si cs ms -> si <= si' -> si' <= length text ->
  good pat pp -> outcome d si cs (all_parses text pat pp si' cs) (rec ms si' pp).
Proof.
  intros Hs ? ? ?. apply (outcome_weaken _ _ si'); [done|apply Hs|].
  apply Hrec; try done. by eapply state_ok_mono.
Qed.

Lemma run_pos pp si c : text !! si = Some c ->
  run text pat pp si = if accepts pat pp c then S (run text pat pp (si + 1)) else 0.
Proof.
  intros Hc. unfold run. rewrite (drop_S _ _ _ Hc). cbn [run_while].
  by rewrite Nat.add_1_r.
Qed.

Lemma run_end pp si : text !! si = None -> run text pat pp si = 0.
Proof. intros H%lookup_ge_None. unfold run. by rewrite drop_ge. Qed.

Lemma run_le pp si : si <= length text -> si + run text pat pp si <= length text.
Proof.
  intros. unfold run. pose proof (run_while_le (accepts pat pp) (drop si text)) as H'.
  rewrite length_drop in H'. lia.
Qed.

Lemma match_optional_ok si pp rp cs ms : readable pat pp -> state_ok d si cs ms ->
  si <= length text -> good pat rp ->
  outcome d si cs
    (flat_map (fun k => all_parses text pat rp (si + k) cs)
       (match run text pat pp si with 0 => [0] | _ => [1; 0] end))
    (match_optional text pat rec ms si pp rp).
Proof.
  intros Hr Hs Hl Hg. unfold match_optional.
  destruct (text !! si) as [c|] eqn:Hc.
  - rewrite singlematch_readable by done. rewrite (run_pos _ _ _ Hc).
    assert (si < length text) by (by eapply lookup_lt_Some).
    destruct (accepts pat pp c); cbn [flat_map]; rewrite Nat.add_0_r, app_nil_r.
    + apply outcome_alt; [apply rec_ahead; try done; lia|by intros; apply Hrec|].
      intros. by apply rec_stuck.
    + by apply Hrec.
  - rewrite (run_end _ _ Hc). cbn [flat_map]. rewrite Nat.add_0_r, app_nil_r. by apply Hrec.
Qed.

(** A capture operation: explore with the modified captures [cs'], undo on
    failure. *)
Lemma outcome_undo si cs cs' L res f :
  outcome d si cs' L res ->
  (forall ms, state_ok d si cs' ms -> state_ok d si cs (f ms)) ->
  (forall ms, depth (f ms) = depth ms /\ error (f ms) = error ms) ->
  outcome d si cs L (let? r := res in Some (undo f r)).
Proof.
  intros (r & ms' & -> & Hd & H) Hf Hk. destruct r as [e|]; simpl.
  - by exists (Some e), ms'.
  - destruct (Hk ms') as [Hd' He']. exists None, (f ms'). split_and!; [done|congruence|].
    rewrite He'. intros He. destruct (H He). auto.
Qed.

Lemma match_open_ok pos si pp cs ms c : c = mkCapture si (if pos : bool then LPosition else LUnfinished)
    (if pos : bool then KPosition else KUnfinished) ->
  state_ok d si cs ms -> si <= length text -> good pat pp ->
  outcome d si cs
    (if LUA_MAXCAPTURES <=? length cs then [] else all_parses text pat pp si (cs ++ [c]))
    (if pos then match_position_capture rec ms si pp else match_open_capture rec ms si pp).
Proof.
  intros Ec Hs Hl Hg. pose proof (so_num _ _ _ _ Hs) as Hn.
  assert (outcome d si cs
    (if LUA_MAXCAPTURES <=? length cs then [] else all_parses text pat pp si (cs ++ [c]))
    (if LUA_MAXCAPTURES <=? num_captures ms then Some (None, ms)
     else let? r := rec (with_num (num_captures ms + 1) (with_capture (num_captures ms) c ms)) si pp
          in Some (undo (with_num (num_captures ms)) r))) as H; [|by destruct pos; subst c].
  rewrite Hn. destruct (Nat.leb_spec LUA_MAXCAPTURES (length cs)); [by apply outcome_fail|].
  apply (outcome_undo _ _ (cs ++ [c])).
  - apply Hrec; [|done..]. rewrite <- Hn. apply state_ok_push; [done|lia|].
    subst c. destruct pos; repeat split; simpl; try done; lia.
  - intros. by eapply state_ok_pop.
  - done.
Qed.

Lemma last_unfinished_take caps n : n <= length caps ->
  exists o, last_unfinished caps n = Some o /\ last_unfinished (take n caps) n = Some o /\
    match o with Some i => i < n /\ exists c, caps !! i = Some c /\ clen c = LUnfinished
               | None => True end.
Proof.
  intros Hn. assert (forall m, m <= n -> exists o, last_unfinished caps m = Some o /\
    last_unfinished (take n caps) m = Some o /\
    match o with Some i => i < m /\ exists c, caps !! i = Some c /\ clen c = LUnfinished
               | None => True end) as H; [|by apply H].
  induction m as [|m IH]; intros Hm; simpl; [by exists None|].
  destruct (lookup_lt_is_Some_2 caps m) as [c Hc]; [lia|].
  rewrite lookup_take_lt, Hc by lia. destruct (clen c) eqn:E.
  1,2: destruct IH as (o & ? & ? & Ho); [lia|]; exists o; split_and!; [done..|];
    destruct o; [destruct Ho; split; [lia|done]|done].
  exists (Some m). split_and!; try done; [lia|eauto].
Qed.

Lemma match_close_ok si pp cs ms : state_ok d si cs ms -> si <= length text -> good pat pp ->
  outcome d si cs
    (match last_open cs with
     | Some n => all_parses text pat pp si (close_capture si n cs) | None => [] end)
    (match_close_capture rec ms si pp).
Proof.
  intros Hs Hl Hg. unfold match_close_capture, last_open.
  pose proof Hs as [He Hd Hlen Hnum Hlive Hcaps].
  destruct (last_unfinished_take (captures ms) (num_captures ms)) as (o & -> & E & Ho).
  { pose proof (state_ok_num _ _ _ _ Hs). lia. }
  replace (take (num_captures ms) (captures ms)) with cs in E by done.
  rewrite <- Hnum, E. destruct o as [n|]; [|by apply outcome_error].
  destruct Ho as [Hn (c & Hc & Hu)]. rewrite Hc.
  rewrite (state_ok_lookup _ _ _ _ _ Hs) in Hc by lia.
  assert (cap_ok si c) as (Hcs & _ & Hk) by (by eapply Forall_lookup_1).
  destruct (Nat.ltb_spec si (cstart c)); [lia|].
  unfold close_capture. rewrite Hc.
  eapply outcome_undo.
  - apply Hrec; [|done..]. apply state_ok_set; [done|lia|].
    split_and!; simpl; [lia| |done]. intros l [= <-]. lia.
  - intros ms' Hs'. rewrite (state_ok_lookup _ _ _ _ _ Hs') by (rewrite length_insert; lia).
    rewrite list_lookup_insert_eq by lia. simpl.
    replace cs with (<[n := mkCapture (cstart c) LUnfinished KUnfinished]>
      (<[n := mkCapture (cstart c) (Len (si - cstart c)) KClosed]> cs)).
    + apply state_ok_set; [done|rewrite length_insert; lia|].
      split_and!; simpl; [lia|done|done].
    + rewrite list_insert_insert_eq. apply list_insert_id. rewrite Hc. f_equal.
      destruct c as [s l k]. simpl in *. rewrite Hu, (Hk Hu). done.
  - intros ms'. by destruct (captures ms' !! n).
Qed.

Lemma balance_loop_le open close s i b : i <= (balance_loop open close s i b).1 <= i + length s.
Proof.
  revert i b. induction s as [|c s IH]; intros i b; simpl; [lia|].
  destruct (0 <? b)%Z; [|simpl; lia].
  specialize (IH (S i) (if (c =? close)%Z then b - 1 else if (c =? open)%Z then b + 1 else b)%Z).
  lia.
Qed.

Lemma match_balanced_ok si pp cs ms o c : pat !! (pp + 2) = Some o -> pat !! (pp + 3) = Some c ->
  state_ok d si cs ms -> si <= length text -> good pat (pp + 4) ->
  outcome d si cs
    (match balanced text o c si with
     | Some i => all_parses text pat (pp + 4) i cs | None => [] end)
    (match_balanced text pat rec ms si pp).
Proof.
  intros Ho Hc Hs Hl Hg. unfold match_balanced, balanced. rewrite Ho, Hc.
  destruct (text !! si) as [x|] eqn:Hx; [|by apply outcome_fail].
  apply lookup_lt_Some in Hx. destruct (x =? o)%Z; [|by apply outcome_fail].
  rewrite Nat.add_1_r. pose proof (balance_loop_le o c (drop (S si) text) (S si) 1) as Hb.
  rewrite length_drop in Hb.
  destruct (balance_loop _ _ _ _ _) as [i b]. simpl in Hb.
  destruct (b =? 0)%Z; [|by apply outcome_fail]. apply rec_ahead; try done; lia.
Qed.

Lemma match_frontier_ok si pp cs ms e : pat !! (pp + 2) = Some #"[" ->
  element_end pat (pp + 2) = Some e ->
  state_ok d si cs ms -> si <= length text -> good pat e ->
  outcome d si cs
    (if frontier text pat (pp + 2) si then all_parses text pat (next pat (pp + 2)) si cs else [])
    (match_frontier text pat rec ms si pp).
Proof.
  intros Hp He Hs Hl Hg. unfold match_frontier, frontier, next. rewrite Hp, He. simpl.
  assert (readable pat (pp + 2)) as Hr by (by exists #"[").
  destruct si as [|i].
  - rewrite !singlematch_readable by done.
    assert (default 0%Z (text !! 0) = match text !! 0 with Some c => c | None => 0%Z end)
      as -> by (by destruct (text !! 0)).
    destruct (_ && _); [by apply Hrec|by apply outcome_fail].
  - destruct (lookup_lt_is_Some_2 text i) as [x Hx]; [lia|]. rewrite Hx. simpl default.
    rewrite !singlematch_readable by done.
    assert (default 0%Z (text !! S i) = match text !! S i with Some c => c | None => 0%Z end)
      as -> by (by destruct (text !! S i)).
    destruct (_ && _); [by apply Hrec|by apply outcome_fail].
Qed.

Lemma bytes_equal_spec a b n : a + n <= length text -> b + n <= length text ->
  bytes_equal text a b n = Some (bool_decide (take n (drop a text) = take n (drop b text))).
Proof.
  revert a b. induction n as [|n IH]; intros a b Ha Hb; cbn [bytes_equal];
    [by rewrite bool_decide_true|].
  destruct (lookup_lt_is_Some_2 text a) as [x Hx]; [lia|].
  destruct (lookup_lt_is_Some_2 text b) as [y Hy]; [lia|].
  rewrite Hx, Hy, (drop_S _ _ _ Hx), (drop_S _ _ _ Hy). cbn [take].
  destruct (Z.eqb_spec x y) as [->|Hn].
  - rewrite IH by lia. f_equal. apply bool_decide_ext.
    split; [by intros ->|by intros [= ->]].
  - symmetry. f_equal. apply bool_decide_false. by intros [= ].
Qed.

Lemma match_backref_ok si pp cs ms q : pat !! (pp + 1) = Some q ->
  state_ok d si cs ms -> si <= length text -> good pat (pp + 2) ->
  outcome d si cs
    (match captured text cs (Z.to_nat (q - #"0")) with
     | Some t => if bool_decide (take (length t) (drop si text) = t)
                 then all_parses text pat (pp + 2) (si + length t) cs else []
     | None => [] end)
    (match_backref text pat rec ms si pp).
Proof.
  intros Hq Hs Hl Hg. unfold match_backref. rewrite Hq.
  pose proof Hs as [He Hd Hlen Hnum Hlive Hcaps].
  destruct (Z.to_nat (q - #"0")) as [|n]; [by apply outcome_error|]. simpl.
  destruct (Nat.ltb_spec (num_captures ms) (S n)) as [Hn|Hn]; [by apply outcome_error|].
  rewrite Nat.sub_0_r. rewrite (state_ok_lookup _ _ _ _ _ Hs) by lia.
  destruct (lookup_lt_is_Some_2 cs n) as [c Hc]; [lia|]. rewrite Hc.
  destruct (clen c) as [l| |] eqn:El; [|by apply outcome_error..].
  assert (cap_ok si c) as (Hcs & Hcl & _) by (by eapply Forall_lookup_1). specialize (Hcl l El).
  rewrite length_take, length_drop, Nat.min_l by lia.
  destruct (Nat.ltb_spec (length text) (si + l)) as [Hlt|Hle].
  - rewrite bool_decide_false; [by apply outcome_fail|].
    intros E%(f_equal length). rewrite !length_take, !length_drop in E. lia.
  - rewrite bytes_equal_spec by lia.
    destruct (bool_decide _); [apply rec_ahead; try done; lia|by apply outcome_fail].
Qed.

(** The element at a validated position that is no special item. *)
Lemma normal_elem pp p : pat !! pp = Some p -> good pat pp ->
  (p = #"%" -> exists q, pat !! (pp + 1) = Some q /\ q <> #"b" /\ q <> #"f") ->
  readable pat pp /\ exists ep, element_end pat pp = Some ep /\ good pat ep /\
    (at_suffix pat ep -> good pat (ep + 1)).
Proof.
  intros Hp Hg Hq. pose proof (lookup_lt_Some _ _ _ Hp) as Hlt.
  split; [exists p; split; [done|]; intros E; destruct (Hq E) as (? & -> & _); eauto|].
  destruct (good_elem pat pp Hlt Hg) as [i' Hi']. exists i'.
  split; [|by eapply good_next].
  unfold validate_elem in Hi'. unfold element_end. rewrite Hp in *.
  destruct (Z.eqb_spec p #"%") as [->|].
  - destruct (Hq eq_refl) as (q & Eq & Hb & Hf). rewrite Eq in Hi'.
    destruct (Z.eqb_spec q #"b"); [done|]. destruct (Z.eqb_spec q #"f"); [done|]. congruence.
  - destruct (Z.eqb_spec p #"[") as [->|]; [|congruence].
    apply validate_set_end in Hi'; [|done]. unfold element_end in Hi'. rewrite Hp in Hi'. done.
Qed.

(** The repetition of one normal element. *)
Lemma repetition_ok si pp cs ms ep c : readable pat pp -> element_end pat pp = Some ep ->
  pat !! ep = Some c -> (at_suffix pat ep -> good pat (ep + 1)) ->
  state_ok d si cs ms -> si <= length text ->
  forall ks, attempts (Some c) (run text pat pp si) = Some ks ->
  outcome d si cs (flat_map (fun k => all_parses text pat (ep + 1) (si + k) cs) ks)
    (if (c =? #"*")%Z then match_greedy text pat rec ms si pp (ep + 1) 0
     else if (c =? #"+")%Z then match_greedy text pat rec ms si pp (ep + 1) 1
     else if (c =? #"-")%Z then match_lazy text pat rec ms si pp (ep + 1)
     else match_optional text pat rec ms si pp (ep + 1)).
Proof.
  intros Hr He Hc Hg Hs Hl ks. pose proof (run_le pp si Hl) as Hrun. unfold attempts.
  assert (is_suffix_char c = true -> good pat (ep + 1)) as Hg'.
  { intros E. apply Hg. by exists c. }
  destruct (Z.eqb_spec c #"*") as [->|].
  { intros [= <-]. unfold match_greedy. rewrite count_max_repetition_run by done.
    specialize (Hg' eq_refl). pose proof (greedy_loop_ok (run text pat pp si) ms si (ep + 1) 0 cs) as G.
    rewrite Nat.sub_0_r in G. by apply G. }
  destruct (Z.eqb_spec c #"+") as [->|].
  { intros [= <-]. unfold match_greedy. rewrite count_max_repetition_run by done.
    specialize (Hg' eq_refl). pose proof (greedy_loop_ok (run text pat pp si) ms si (ep + 1) 1 cs) as G.
    rewrite Nat.sub_succ, Nat.sub_0_r in G. by apply G. }
  destruct (Z.eqb_spec c #"-") as [->|].
  { intros [= <-]. unfold match_lazy. specialize (Hg' eq_refl). by apply lazy_loop_ok. }
  destruct (Z.eqb_spec c #"?") as [->|]; [|done].
  intros [= <-]. specialize (Hg' eq_refl). by apply match_optional_ok.
Qed.

Lemma attempts_none c n : attempts (Some c) n = None <-> is_suffix_char c = false.
Proof.
  unfold attempts, is_suffix_char.
  destruct (c =? #"*")%Z; [done|]. destruct (c =? #"+")%Z; [done|].
  destruct (c =? #"-")%Z; [done|]. by destruct (c =? #"?")%Z.
Qed.

(** The part of [match_inner] after the special items. *)
Lemma normal_ok si pp cs ms p ep s :
  pat !! pp = Some p -> readable pat pp -> element_end pat pp = Some ep ->
  good pat ep -> (at_suffix pat ep -> good pat (ep + 1)) ->
  s = drop si text -> state_ok d si cs ms -> si <= length text ->
  (forall c s', s = c :: s' -> si < length text ->
     outcome d (si + 1) cs (all_parses text pat ep (si + 1) cs)
       (match_inner text pat rec ms s' (si + 1) ep)) ->
  outcome d si cs
    (match attempts (pat !! ep) (run text pat pp si) with
     | Some ks => flat_map (fun k => all_parses text pat (ep + 1) (si + k) cs) ks
     | None => match run text pat pp si with
               | 0 => [] | S _ => all_parses text pat ep (si + 1) cs end
     end)
    (let single :=
       match s with
       | [] => Some (None, ms)
       | c :: s' =>
           let? b := singlematch c pat pp in
           if b then match_inner text pat rec ms s' (si + 1) ep else Some (None, ms)
       end in
     match pat !! ep with
     | Some q =>
         if (q =? #"*")%Z then match_greedy text pat rec ms si pp (ep + 1) 0
         else if (q =? #"+")%Z then match_greedy text pat rec ms si pp (ep + 1) 1
         else if (q =? #"-")%Z then match_lazy text pat rec ms si pp (ep + 1)
         else if (q =? #"?")%Z then match_optional text pat rec ms si pp (ep + 1)
         else single
     | None => single
     end).
Proof.
  intros Hp Hr He Hg Hg' Es Hs Hl IH. cbv zeta.
  set (single := match s with [] => _ | _ => _ end).
  assert (outcome d si cs
    (match run text pat pp si with 0 => [] | S _ => all_parses text pat ep (si + 1) cs end)
    single) as Hsingle.
  { subst single. destruct s as [|c s'].
    - rewrite run_end; [by apply outcome_fail|]. apply lookup_ge_None.
      apply (f_equal length) in Es. rewrite length_drop in Es. simpl in Es. lia.
    - assert (text !! si = Some c) as Hc.
      { rewrite <- (Nat.add_0_r si), <- lookup_drop, <- Es. done. }
      rewrite singlematch_readable by done. rewrite (run_pos _ _ _ Hc).
      destruct (accepts pat pp c); [|by apply outcome_fail].
      pose proof (lookup_lt_Some _ _ _ Hc).
      eapply (outcome_weaken _ _ (si + 1)); [lia|apply Hs|]. by eapply IH. }
  destruct (pat !! ep) as [q|] eqn:Hq; [|done].
  destruct (attempts (Some q) _) as [ks|] eqn:Ea.
  - pose proof (repetition_ok si pp cs ms ep q Hr He Hq Hg' Hs Hl ks Ea) as R.
    unfold attempts in Ea.
    destruct (q =? #"*")%Z; [done|]. destruct (q =? #"+")%Z; [done|].
    destruct (q =? #"-")%Z; [done|]. by destruct (q =? #"?")%Z.
  - unfold attempts in Ea.
    destruct (q =? #"*")%Z; [done|]. destruct (q =? #"+")%Z; [done|].
    destruct (q =? #"-")%Z; [done|]. by destruct (q =? #"?")%Z.
Qed.

(** What [parses] does with a special item, case by case as [match_special]. *)
Lemma special_ok si pp cs ms p : pat !! pp = Some p -> good pat pp ->
  state_ok d si cs ms -> si <= length text ->
  forall res, match_special text pat rec ms si pp p = Some res ->
  outcome d si cs (all_parses text pat pp si cs) res.
Proof.
  intros Hp Hg Hs Hl res. pose proof (lookup_lt_Some _ _ _ Hp) as Hlt.
  destruct (good_elem pat pp Hlt Hg) as [i' Hi'].
  pose proof (good_next _ _ _ Hlt Hg Hi') as [Hg' _].
  unfold validate_elem in Hi'. rewrite Hp in Hi'.
  unfold match_special, all_parses. cbn [parses]. rewrite Hp.
  destruct (Z.eqb_spec p #"(") as [->|_].
  { injection Hi' as <-. intros [= <-].
    destruct (pat !! (pp + 1)) as [q|] eqn:Hq.
    - destruct (Z.eqb_spec q #")") as [->|Hn].
      + rewrite bool_decide_true by done. rewrite all_parses_fuel by lia.
        eapply (match_open_ok true); [done..|].
        replace (pp + 2) with (pp + 1 + 1) by lia.
        eapply (proj1 (good_next pat (pp + 1) (pp + 1 + 1) ltac:(by eapply lookup_lt_Some) Hg'
          ltac:(unfold validate_elem; by rewrite Hq))).
      + rewrite bool_decide_false by congruence. rewrite all_parses_fuel by lia.
        by eapply (match_open_ok false).
    - rewrite bool_decide_false by done. rewrite all_parses_fuel by lia.
      by eapply (match_open_ok false). }
  destruct (Z.eqb_spec p #")") as [->|_].
  { injection Hi' as <-. intros [= <-].
    pose proof (match_close_ok si (pp + 1) cs ms Hs Hl Hg') as M.
    destruct (last_open cs); [|done]. by rewrite all_parses_fuel by lia. }
  destruct (Z.eqb_spec p #"$") as [->|_]; simpl andb.
  { destruct (length pat <=? pp + 1); [|done]. intros [= <-].
    destruct (si =? length text); [by apply outcome_stop|by apply outcome_fail]. }
  destruct (Z.eqb_spec p #"%") as [->|]; [|done]. simpl andb.
  destruct (pat !! (pp + 1)) as [q|] eqn:Hq; [|done].
  destruct (Z.eqb_spec q #"b") as [->|Hb].
  { rewrite bool_decide_true by done. intros [= <-].
    destruct (Nat.ltb_spec (pp + 3) (length pat)) as [H3|]; [|done]. injection Hi' as <-.
    destruct (lookup_lt_is_Some_2 pat (pp + 2)) as [o Ho]; [lia|].
    destruct (lookup_lt_is_Some_2 pat (pp + 3)) as [c Hc]; [lia|].
    pose proof (match_balanced_ok si pp cs ms o c Ho Hc Hs Hl Hg') as M. rewrite Ho, Hc.
    destruct (balanced text o c si); [|done]. by rewrite all_parses_fuel by lia. }
  rewrite bool_decide_false by congruence.
  destruct (Z.eqb_spec q #"f") as [->|Hf].
  { rewrite bool_decide_true by done. intros [= <-].
    destruct (pat !! (pp + 2)) as [r|] eqn:Hr; [|done].
    destruct (Z.eqb_spec r #"[") as [->|]; [|done].
    rewrite bool_decide_true by done. apply validate_set_end in Hi'; [|done].
    pose proof (next_gt pat (pp + 2)). simpl andb.
    rewrite all_parses_fuel by lia. by eapply match_frontier_ok. }
  rewrite bool_decide_false by congruence. simpl default.
  destruct (is_ascii_digit q); [|done]. simpl andb. intros [= <-]. injection Hi' as <-.
  pose proof (match_backref_ok si pp cs ms q Hq Hs Hl Hg') as M.
  destruct (captured _ _ _); [|done]. by rewrite all_parses_fuel by lia.
Qed.

(** ... and with a normal element. *)
Lemma all_parses_normal si pp cs ms p : pat !! pp = Some p ->
  match_special text pat rec ms si pp p = None ->
  all_parses text pat pp si cs =
    (match attempts (pat !! next pat pp) (run text pat pp si) with
     | Some ks => flat_map (fun k => all_parses text pat (next pat pp + 1) (si + k) cs) ks
     | None => match run text pat pp si with
               | 0 => [] | S _ => all_parses text pat (next pat pp) (si + 1) cs end
     end) /\
  (p = #"%" -> good pat pp -> exists q, pat !! (pp + 1) = Some q /\ q <> #"b" /\ q <> #"f").
Proof.
  intros Hp Hm. pose proof (lookup_lt_Some _ _ _ Hp) as Hlt. pose proof (next_gt pat pp).
  assert (forall q c, bool_decide (Some q = Some c) = (q =? c)%Z) as Eb.
  { intros q c. destruct (Z.eqb_spec q c); [by apply bool_decide_true; f_equal|].
    apply bool_decide_false. congruence. }
  unfold match_special in Hm. split.
  - unfold all_parses at 1. cbn [parses]. rewrite Hp.
    destruct (p =? #"(")%Z; [done|]. destruct (p =? #")")%Z; [done|].
    destruct (_ && (length pat <=? pp + 1)); [done|].
    transitivity
      (match attempts (pat !! next pat pp) (run text pat pp si) with
       | Some ks => flat_map (fun k => parses text pat (length pat - pp) (next pat pp + 1) (si + k) cs) ks
       | None => match run text pat pp si with
                 | 0 => [] | S _ => parses text pat (length pat - pp) (next pat pp) (si + 1) cs end
       end).
    + destruct (p =? #"%")%Z; simpl andb; [|done].
      destruct (pat !! (pp + 1)) as [q|]; [|done]. rewrite !Eb.
      destruct (q =? #"b")%Z; [done|]. destruct (q =? #"f")%Z; [done|].
      simpl default. by destruct (is_ascii_digit q).
    + destruct (attempts _ _).
      * apply flat_map_ext_in. intros. apply all_parses_fuel. lia.
      * destruct (run _ _ _ _); [done|]. apply all_parses_fuel. lia.
  - intros -> Hg. destruct (good_elem pat pp Hlt Hg) as [i' Hi'].
    unfold validate_elem in Hi'. rewrite Hp in Hi'. simpl in Hi'.
    destruct (pat !! (pp + 1)) as [q|]; [|done]. exists q. split; [done|].
    change (#"%" =? #"(")%Z with false in Hm. change (#"%" =? #")")%Z with false in Hm.
    change (#"%" =? #"$")%Z with false in Hm. simpl in Hm.
    split; intros ->; done.
Qed.

Lemma match_inner_ok s si pp cs ms : s = drop si text ->
  state_ok d si cs ms -> si <= length text -> good pat pp ->
  outcome d si cs (all_parses text pat pp si cs) (match_inner text pat rec ms s si pp).
Proof.
  revert si pp. induction s as [|c s IH]; intros si pp Es Hs Hl Hg;
    (destruct (pat !! pp) as [p|] eqn:Hp;
     [|unfold all_parses; cbn [parses match_inner]; rewrite Hp; by apply outcome_stop]);
    cbn [match_inner]; rewrite Hp;
    (destruct (match_special text pat rec ms si pp p) as [res|] eqn:Hm;
     [by eapply special_ok|]);
    destruct (all_parses_normal si pp cs ms p Hp Hm) as [-> Hq];
    destruct (normal_elem pp p Hp Hg (fun E => Hq E Hg)) as (Hr & ep & He & Hge & Hgs);
    rewrite He; unfold next; rewrite He; simpl default.
  - apply (normal_ok si pp cs ms p ep []); try done.
  - apply (normal_ok si pp cs ms p ep (c :: s)); try done.
    intros c' s' [= <- <-] Hlt. apply IH; try done; [|by eapply state_ok_mono; [|done]; lia|lia].
    destruct (lookup_lt_is_Some_2 text si Hlt) as [x Hx]. rewrite (drop_S _ _ _ Hx) in Es.
    injection Es as _ ->. by rewrite Nat.add_1_r.
Qed.
End Step.

Lemma match_impl_stuck gas ms si pp : error ms <> None ->
  match_impl text pat gas ms si pp = Some (None, ms).
Proof. intros. destruct gas; simpl; by destruct (error ms). Qed.

(** The matcher refines the reference semantics, at any nesting depth that
    leaves the gas ahead of the source's own limit. *)
Lemma match_impl_ok gas d si pp cs ms : MAXCCALLS < gas + d ->
  state_ok d si cs ms -> si <= length text -> good pat pp ->
  outcome d si cs (all_parses text pat pp si cs) (match_impl text pat gas ms si pp).
Proof.
  revert d si pp cs ms. induction gas as [|gas IH]; intros d si pp cs ms Hgas Hs Hl Hg;
    cbn [match_impl]; rewrite (so_error _ _ _ _ Hs), (so_depth _ _ _ _ Hs);
    (destruct (Nat.ltb_spec MAXCCALLS (d + 1)); [by apply outcome_error, Hs|]); [lia|].
  destruct (match_inner_ok (d + 1) (match_impl text pat gas)) with
    (s := drop si text) (si := si) (pp := pp) (cs := cs) (ms := with_depth (d + 1) ms)
    as (r & ms' & -> & Hd & H'); try done.
  - intros. apply IH; try done. lia.
  - intros. by apply match_impl_stuck.
  - by eapply state_ok_with_depth.
  - exists r, (with_depth (depth ms' - 1) ms'). rewrite Hd, Nat.add_sub.
    split_and!; [done..|]. destruct r as [e|].
    + destruct H' as (? & ? & ?). split_and!; try lia; [|done].
      by eapply state_ok_with_depth.
    + simpl. intros E. destruct (H' E). split; [done|]. by eapply state_ok_with_depth.
Qed.
End Refine.
