(* ===== verification/PatFind.v ===== *)
(** * Searching and substituting with patterns

    What [find], [find_all_matches] and [gsub] compute, from the
    specification of the matcher: none of them ever panics, [find] returns
    the leftmost match with the preferred captures, the plain-text fast path
    agrees with the general matcher, and substituting the whole match for
    itself is the identity. *)

From Stdlib Require Import ZArith Lia Ascii String.
From stdpp Require Import base decidable list numbers option.
From S2P Require Import Prelude PatClass PatEngine PatSpec.
#[local] Open Scope nat_scope.

(** ** One match attempt *)

Lemma state_ok_reset si ms : length (captures ms) = LUA_MAXCAPTURES ->
  state_ok 0 si [] (reset ms).
Proof. intros. constructor; simpl; try done. Qed.

(** The outcome of one attempt of a search loop, on a reused match state. *)
Lemma attempt_ok text pat si ms : validate_pattern pat = inl () ->
  si <= length text -> length (captures ms) = LUA_MAXCAPTURES ->
  outcome text 0 si [] (all_parses text pat (pp_start pat) si [])
    (match_impl text pat gas0 (reset ms) si (pp_start pat)).
Proof.
  intros Hv Hl Hc. apply match_impl_ok; [unfold gas0; lia|by apply state_ok_reset|done|].
  by apply validate_pattern_good.
Qed.

(** [capture_value] of every live capture is in bounds. *)
Definition value_ok (n : nat) (v : CaptureValue) : Prop :=
  match v with Substring s e => s <= e <= n | Position p => 1 <= p <= n + 1 end.

Lemma capture_values_ok n cs : Forall (cap_ok n) cs ->
  Forall (value_ok n) (flat_map capture_value cs).
Proof.
  induction 1 as [|c cs (Hs & Hl & _) _ IH]; simpl; [done|]. apply Forall_app. split; [|done].
  unfold capture_value. destruct (clen c) as [l| |] eqn:E; repeat constructor; simpl; try lia.
  specialize (Hl l eq_refl). lia.
Qed.

(** ** [find] *)

(** What a search from [init] may return, in terms of the parses. *)
Definition find_spec (text pat : list Z) (anchored : bool) (init : nat)
    (r : option (nat * nat * list CaptureValue)) : Prop :=
  match r with
  | Some (s, e, caps) =>
      init <= s /\ s <= e <= length text /\ (anchored = true -> s = init) /\
      (forall s', init <= s' < s -> all_parses text pat (pp_start pat) s' [] = []) /\
      exists cs, head (all_parses text pat (pp_start pat) s []) = Some (e, cs) /\
        caps = flat_map capture_value cs /\ Forall (value_ok e) caps /\
        existsb is_unfinished cs = false
  | None =>
      forall s', init <= s' <= length text -> (anchored = true -> s' = init) ->
        all_parses text pat (pp_start pat) s' [] = []
  end.

Lemma find_loop_ok fuel text pat anchored ms si : validate_pattern pat = inl () ->
  si <= length text -> length text - si < fuel -> length (captures ms) = LUA_MAXCAPTURES ->
  exists res, find_loop fuel text pat (pp_start pat) anchored ms si = Some res /\
    forall r, res = inl r -> find_spec text pat anchored si r.
Proof.
  intros Hv. revert si ms. induction fuel as [|fuel IH]; intros si ms Hl Hf Hc; [lia|].
  cbn [find_loop].
  destruct (attempt_ok text pat si ms Hv Hl Hc) as (r & ms' & -> & _ & H).
  destruct r as [e|].
  - destruct H as (He & Hs & Hh). unfold check_captures.
    destruct (existsb _ _) eqn:Eu; [by eexists; split; [done|]|].
    eexists. split; [done|]. intros r [= <-]. unfold find_spec. split_and!; try lia.
    exists (live_captures ms'). split_and!; [done..| |done].
    apply capture_values_ok. apply Hs.
  - destruct (error ms') eqn:Ee; [by eexists; split; [done|]|].
    destruct (H eq_refl) as [Hp Hs]. destruct anchored; simpl.
    { eexists. split; [done|]. intros r [= <-] s' ? Ha. by rewrite (Ha eq_refl). }
    destruct (Nat.leb_spec (length text) si).
    { eexists. split; [done|]. intros r [= <-] s' ? Ha. by replace s' with si by lia. }
    destruct (IH (si + 1) ms') as (res & -> & Hres); [lia|lia|apply Hs|].
    eexists. split; [done|]. intros r E. specialize (Hres r E). unfold find_spec in *.
    destruct r as [[[s e] caps]|].
    + destruct Hres as (? & ? & _ & Hbefore & ?). split_and!; try lia; try done.
      intros s' ?. destruct (decide (s' = si)) as [->|]; [done|]. apply Hbefore. lia.
    + intros s' ? _. destruct (decide (s' = si)) as [->|]; [done|]. apply Hres; [lia|done].
Qed.

Lemma find_general_ok text pat init : init <= length text ->
  exists res, find_general text pat init true = Some res /\
    forall r, res = inl r ->
      find_spec text pat (pp_start pat =? 1) init r.
Proof.
  intros Hl. unfold find_general.
  destruct (validate_pattern pat) as [[]|e] eqn:Hv; [|by eexists].
  apply find_loop_ok; [done|done|lia|done].
Qed.

(** ** The plain fast path *)

(** A pattern the fast path handles and whose bytes all stand for themselves:
    [is_plain_pattern] lets [)] through, which the matcher rejects. *)
Definition literal_pattern (pat : list Z) : bool :=
  is_plain_pattern pat && negb (existsb (Z.eqb #")") pat).

Lemma existsb_lookup {A} (f : A -> bool) l i x :
  existsb f l = false -> l !! i = Some x -> f x = false.
Proof.
  intros H Hx. destruct (f x) eqn:E; [|done].
  assert (existsb f l = true) as H'; [|congruence].
  apply existsb_exists. exists x. split; [|done].
  apply list_elem_of_In, list_elem_of_lookup. eauto.
Qed.

Lemma literal_byte pat i p : literal_pattern pat = true -> pat !! i = Some p ->
  ((p =? #"(") = false /\ (p =? #")") = false /\ (p =? #"$") = false /\ (p =? #"%") = false /\
   (p =? #"[") = false /\ (p =? #".") = false /\ (p =? #"^") = false /\
   (p =? #"*") = false /\ (p =? #"+") = false /\ (p =? #"-") = false /\ (p =? #"?") = false)%Z.
Proof.
  unfold literal_pattern, is_plain_pattern. intros [H1 H2]%andb_true_iff Hp.
  apply negb_true_iff in H1, H2.
  pose proof (existsb_lookup _ _ _ _ H1 Hp) as Hs. pose proof (existsb_lookup _ _ _ _ H2 Hp) as Hc.
  unfold is_special, special_bytes in Hs. cbn [existsb] in Hs.
  repeat (apply orb_false_iff in Hs as [? Hs]). rewrite Z.eqb_sym in Hc. by split_and!.
Qed.

Lemma literal_elem pat i p : literal_pattern pat = true -> pat !! i = Some p ->
  validate_elem pat i = inl (i + 1) /\ element_end pat i = Some (i + 1) /\
  is_suffix_char p = false /\ (forall c, singlematch c pat i = Some (c =? p)%Z).
Proof.
  intros Hl Hp. destruct (literal_byte pat i p Hl Hp) as (?&?&?&Hpc&Hb&Hd&?&?&?&?&?).
  unfold validate_elem, element_end, is_suffix_char, singlematch. rewrite Hp, Hpc, Hb, Hd.
  split_and!; try done. by repeat (apply orb_false_iff; split).
Qed.

Lemma literal_skip pat i : literal_pattern pat = true -> skip_suffix pat i = i.
Proof.
  intros Hl. unfold skip_suffix. destruct (pat !! i) as [c|] eqn:E; [|done].
  by destruct (literal_elem pat i c Hl E) as (_ & _ & -> & _).
Qed.

Lemma literal_valid pat : literal_pattern pat = true ->
  pp_start pat = 0 /\ validate_pattern pat = inl ().
Proof.
  intros Hl. assert (pp_start pat = 0) as E.
  { unfold pp_start. destruct pat as [|c pat]; [done|].
    by destruct (literal_byte (c :: pat) 0 c Hl eq_refl) as (?&?&?&?&?&?&->&_). }
  split; [done|]. unfold validate_pattern. generalize (pp_start pat).
  generalize (S (length pat)) as fuel. induction fuel as [|fuel IH]; intros i; simpl.
  - by destruct (i <? length pat).
  - destruct (Nat.ltb_spec i (length pat)) as [Hi|]; [|done].
    destruct (lookup_lt_is_Some_2 pat i Hi) as [p Hp].
    destruct (literal_elem pat i p Hl Hp) as (-> & _). rewrite literal_skip by done. apply IH.
Qed.

Lemma literal_inner text pat rec ms s si pp : literal_pattern pat = true -> pp <= length pat ->
  match_inner text pat rec ms s si pp =
    Some (if starts_with (drop pp pat) s then Some (si + (length pat - pp)) else None, ms).
Proof.
  intros Hl. revert si pp. induction s as [|c s IH]; intros si pp Hpp;
    (destruct (pat !! pp) as [p|] eqn:Hp;
     [|cbn [match_inner]; rewrite Hp; apply lookup_ge_None in Hp; rewrite drop_ge by done;
       simpl; by replace (si + (length pat - pp)) with si by lia]);
    destruct (literal_elem pat pp p Hl Hp) as (_ & He & _ & Hsm);
    destruct (literal_byte pat pp p Hl Hp) as (H1 & H2 & H3 & H4 & _);
    cbn [match_inner]; unfold match_special; rewrite Hp, H1, H2, H3, H4, He; cbn [andb];
    rewrite (drop_S _ _ _ Hp).
  - cbn [starts_with]. destruct (pat !! (pp + 1)) as [q|] eqn:Hq; [|done].
    by destruct (literal_byte pat _ q Hl Hq) as (_&_&_&_&_&_&_&->&->&->&->).
  - pose proof (lookup_lt_Some _ _ _ Hp). cbn [starts_with].
    replace (p =? c)%Z with (c =? p)%Z by apply Z.eqb_sym.
    assert ((let? b := singlematch c pat pp in
             if b then match_inner text pat rec ms s (si + 1) (pp + 1) else Some (None, ms)) =
            Some (if (c =? p)%Z && starts_with (drop (S pp) pat) s
                  then Some (si + (length pat - pp)) else None, ms)) as E.
    { rewrite Hsm. destruct (c =? p)%Z; [|done]. rewrite IH by lia.
      replace (pp + 1) with (S pp) by lia. cbn [andb].
      by replace (si + 1 + (length pat - S pp)) with (si + (length pat - pp)) by lia. }
    destruct (pat !! (pp + 1)) as [q|] eqn:Hq; [|done].
    by destruct (literal_byte pat _ q Hl Hq) as (_&_&_&_&_&_&_&->&->&->&->).
Qed.

Lemma literal_match text pat ms si : literal_pattern pat = true ->
  error ms = None -> depth ms = 0 ->
  match_impl text pat gas0 ms si 0 =
    Some (if starts_with pat (drop si text) then Some (si + length pat) else None, ms).
Proof.
  intros Hl He Hd. unfold gas0. cbn [match_impl]. rewrite He, Hd. cbn [Nat.ltb Nat.leb].
  rewrite literal_inner by (done || lia). rewrite drop_0, Nat.sub_0_r.
  destruct ms. simpl in *. by subst.
Qed.

Lemma find_from_shift needle s i :
  find_from needle s i = option_map (Nat.add i) (find_from needle s 0).
Proof.
  revert i. induction s as [|c s IH]; intros i; [done|]. cbn [find_from].
  destruct (starts_with needle (c :: s)); [simpl; by rewrite Nat.add_0_r|].
  rewrite IH, (IH 1). destruct (find_from needle s 0); simpl; [f_equal; lia|done].
Qed.

Lemma starts_with_length needle s : starts_with needle s = true -> length needle <= length s.
Proof.
  revert s. induction needle as [|n needle IH]; intros [|c s]; simpl; try done; [lia|].
  intros [_ H%IH]%andb_true_iff. lia.
Qed.

Lemma find_from_short needle s i : length s < length needle -> find_from needle s i = None.
Proof.
  revert i. induction s as [|c s IH]; intros i Hl; [done|]. cbn [find_from].
  destruct (starts_with needle (c :: s)) eqn:E; [|apply IH; simpl in *; lia].
  apply starts_with_length in E. simpl in *. lia.
Qed.

Lemma find_bytes_from s needle : needle <> [] ->
  find_bytes_in_slice s needle = find_from needle s 0.
Proof.
  intros Hn. unfold find_bytes_in_slice. destruct needle as [|n needle]; [done|].
  destruct (Nat.ltb_spec (length s) (length (n :: needle))); [|done].
  by rewrite find_from_short.
Qed.

Lemma literal_find_loop fuel text pat ms si : literal_pattern pat = true -> pat <> [] ->
  si <= length text -> length text - si < fuel ->
  find_loop fuel text pat 0 false ms si =
    Some (inl (match find_from pat (drop si text) 0 with
               | Some k => Some (si + k, si + k + length pat, [])
               | None => None end)).
Proof.
  intros Hl Hn. revert si ms. induction fuel as [|fuel IH]; intros si ms Hsi Hf; [lia|].
  cbn [find_loop]. rewrite literal_match by done.
  destruct (text !! si) as [c|] eqn:Hc.
  - rewrite (drop_S _ _ _ Hc). cbn [find_from].
    destruct (starts_with pat (c :: _)) eqn:Es; [simpl; by rewrite Nat.add_0_r|].
    cbn [error reset orb]. pose proof (lookup_lt_Some _ _ _ Hc).
    destruct (Nat.leb_spec (length text) si); [lia|].
    rewrite IH by lia. rewrite (find_from_shift _ _ 1), Nat.add_1_r.
    destruct (find_from pat (drop (S si) text) 0); simpl; [|done].
    by replace (si + S n) with (S (si + n)) by lia.
  - apply lookup_ge_None in Hc. rewrite drop_ge by done.
    destruct pat as [|p pat]; [done|]. simpl.
    destruct (Nat.leb_spec (length text) si); [done|lia].
Qed.

(** ** Substitution *)

Lemma slice_ok text a b : a <= b <= length text ->
  slice text a b = Some (take (b - a) (drop a text)).
Proof.
  intros ?. unfold slice. destruct (Nat.leb_spec a b); [|lia].
  destruct (Nat.leb_spec b (length text)); [done|lia].
Qed.

Lemma subst_loop_total digit repl acc : (forall n, digit n <> None) ->
  subst_loop digit repl acc <> None.
Proof.
  intros Hd. revert acc. induction repl as [|c|c n repl IH1 IH2] using list_ind2; intros acc.
  - done.
  - simpl. by destruct (c =? _)%Z.
  - cbn [subst_loop]. destruct (c =? _)%Z; [|apply IH2].
    destruct (n =? _)%Z; [apply IH1|]. destruct (is_ascii_digit n); [|done].
    destruct (digit _) as [[|]|] eqn:E; [apply IH1|done|by apply Hd in E].
Qed.

Lemma subst_capture_total full text cs n : Forall (cap_ok (length text)) cs ->
  subst_capture full text cs n <> None.
Proof.
  intros Hc. unfold subst_capture. destruct (Nat.eqb_spec n 0); [done|].
  destruct (Nat.leb_spec n (length cs)); [|by destruct (_ && _)].
  destruct (lookup_lt_is_Some_2 cs (n - 1)) as [c Hn]; [lia|]. rewrite Hn.
  eapply Forall_lookup_1 in Hc as (Hs & Hl & _); [|done].
  destruct (clen c) as [l| |]; [|done..]. specialize (Hl l eq_refl).
  by rewrite slice_ok by lia.
Qed.

Lemma subst_plain_total full n : subst_plain_digit full n <> None.
Proof. by destruct n as [|[|]]. Qed.

(** What replaces one match [s..e] with captures [cs]. *)
Definition replacement (text repl : list Z) (s e : nat) (cs : list Capture)
  : option (list Z + PatError) :=
  if has_percent repl
  then subst_loop (subst_capture (take (e - s) (drop s text)) text cs) repl []
  else Some (inl repl).

(** [text[pos..upto]] with each of the ordered matches [(s, e, t)] replaced
    by [t]. *)
Fixpoint spliced (text : list Z) (pos upto : nat) (ms : list (nat * nat * list Z)) : list Z :=
  match ms with
  | [] => take (upto - pos) (drop pos text)
  | (s, e, t) :: ms => take (s - pos) (drop pos text) ++ t ++ spliced text e upto ms
  end.

(** No match starts strictly between [a] and [b]. *)
Definition no_match (text pat : list Z) (a b : nat) : Prop :=
  forall s, a < s < b -> all_parses text pat (pp_start pat) s [] = [].

(** The matches of a global substitution: left to right and disjoint, with no
    match skipped in between, each the preferred parse at its start, with its
    replacement. *)
Fixpoint gmatches_ok (text pat repl : list Z) (pos : nat) (ms : list (nat * nat * list Z)) : Prop :=
  match ms with
  | [] => True
  | (s, e, t) :: ms =>
      pos <= s <= e /\ e <= length text /\ no_match text pat pos s /\
      (exists cs, head (all_parses text pat (pp_start pat) s []) = Some (e, cs) /\
         replacement text repl s e cs = Some (inl t)) /\
      gmatches_ok text pat repl e ms
  end.

Fixpoint last_end (pos : nat) (ms : list (nat * nat * list Z)) : nat :=
  match ms with [] => pos | (_, e, _) :: ms => last_end e ms end.

Lemma gmatches_snoc text pat repl pos ms s e t :
  gmatches_ok text pat repl pos ms -> last_end pos ms <= s <= e -> e <= length text ->
  no_match text pat (last_end pos ms) s ->
  (exists cs, head (all_parses text pat (pp_start pat) s []) = Some (e, cs) /\
     replacement text repl s e cs = Some (inl t)) ->
  gmatches_ok text pat repl pos (ms ++ [(s, e, t)]) /\ last_end pos (ms ++ [(s, e, t)]) = e.
Proof.
  revert pos. induction ms as [|[[s' e'] t'] ms IH]; intros pos; simpl.
  - intros _ ? ? ? ?. tauto.
  - intros (? & ? & ? & ? & ?) ? ? ? ?. destruct (IH e') as [? ?]; [done..|]. tauto.
Qed.

Lemma take_drop_split (l : list Z) a b c : a <= b <= c ->
  take (c - a) (drop a l) = take (b - a) (drop a l) ++ take (c - b) (drop b l).
Proof.
  intros ?. replace (c - a) with ((b - a) + (c - b)) by lia.
  rewrite <- (take_drop (b - a) (take (b - a + (c - b)) (drop a l))).
  rewrite take_take, Nat.min_l by lia. f_equal.
  rewrite skipn_firstn_comm, drop_drop. f_equal; [lia|]. f_equal. lia.
Qed.

(** Text between matches is copied. *)
Lemma spliced_extend text pos ms a b : last_end pos ms <= a <= b ->
  spliced text pos b ms = spliced text pos a ms ++ take (b - a) (drop a text).
Proof.
  revert pos. induction ms as [|[[s e] t] ms IH]; intros pos; simpl.
  - intros. apply take_drop_split. lia.
  - intros ?. rewrite IH by done. by rewrite !app_assoc.
Qed.

Lemma spliced_snoc text pos ms s e t upto : last_end pos ms <= s -> e <= upto ->
  spliced text pos upto (ms ++ [(s, e, t)]) =
    spliced text pos s ms ++ t ++ take (upto - e) (drop e text).
Proof.
  revert pos. induction ms as [|[[s' e'] t'] ms IH]; intros pos; simpl; [done|].
  intros. rewrite IH by done. by rewrite !app_assoc.
Qed.

(** Loop invariant of [gsub]: [ms] are the matches replaced so far. *)
Record gsub_inv (text pat repl : list Z) (max : option nat) (st : GsubState)
    (ms : list (nat * nat * list Z)) : Prop := {
  gi_matches : gmatches_ok text pat repl 0 ms;
  gi_result : gresult st = spliced text 0 (gend st) ms;
  gi_count : gcount st = length ms;
  gi_bounds : last_end 0 ms <= gend st <= length text /\ gend st <= gsi st;
  gi_last : glast st = true -> gend st = gsi st /\ last_end 0 ms = gsi st;
  gi_gap : no_match text pat (last_end 0 ms) (gsi st);
  gi_max : match max with Some m => length ms <= m | None => True end;
}.

(** What a finished substitution is: [n] disjoint matches replaced in order. *)
Definition gsub_spec (text pat repl : list Z) (max : option nat) (r : list Z) (n : nat) : Prop :=
  exists ms, gmatches_ok text pat repl 0 ms /\ r = spliced text 0 (length text) ms /\
    n = length ms /\ match max with Some m => n <= m | None => True end /\
    (max = None -> pp_start pat = 0 ->
     no_match text pat (last_end 0 ms) (S (length text))).

Lemma copy_byte_inv text pat repl max st ms : gsub_inv text pat repl max st ms ->
  gend st = gsi st -> no_match text pat (last_end 0 ms) (gsi st + 1) ->
  gsub_inv text pat repl max (copy_byte text st) ms /\
    gsi (copy_byte text st) = gsi st + 1.
Proof.
  intros [Hm Hr Hn [Hb1 Hb2] Hl Hgap Hx] He Hgap'. unfold copy_byte.
  destruct (text !! gsi st) as [c|] eqn:Hc; (split; [|done]); constructor; simpl; try done; try lia.
  - rewrite (spliced_extend _ _ _ (gend st)) by lia. rewrite Hr. f_equal.
    replace (gsi st + 1 - gend st) with 1 by lia. by rewrite He, (drop_S _ _ _ Hc).
  - apply lookup_lt_Some in Hc. lia.
Qed.

Lemma replacement_subst text repl s e ms' : s <= e <= length text ->
  Forall (cap_ok (length text)) (live_captures ms') ->
  exists r, replacement text repl s e (live_captures ms') = Some r /\
  (if has_percent repl then
     let? full := slice text s e in substitute_captures_bytes repl full text ms'
   else Some (inl repl)) = Some r.
Proof.
  intros Hse Hc. unfold replacement. rewrite slice_ok by done.
  destruct (has_percent repl); [|by eexists].
  unfold substitute_captures_bytes.
  destruct (subst_loop _ repl []) as [r|] eqn:E; [by exists r|].
  exfalso. revert E. apply subst_loop_total. intros. by apply subst_capture_total.
Qed.

Lemma gsub_match_ok text pat repl max st ms ms' e :
  gsub_inv text pat repl max st ms -> reached max (gcount st) = false ->
  gsi st <= e <= length text -> Forall (cap_ok (length text)) (live_captures ms') ->
  head (all_parses text pat (pp_start pat) (gsi st) []) = Some (e, live_captures ms') ->
  exists res, gsub_match text repl ms' st e = Some res /\
    forall st', res = inl st' -> gsi st < gsi st' /\ exists l, gsub_inv text pat repl max st' l.
Proof.
  intros Hinv Hmax He Hc Hh. pose proof Hinv as [Hm Hr Hn [Hb1 Hb2] Hl Hgap Hx]. unfold gsub_match.
  destruct ((e =? gsi st) && glast st) eqn:E0.
  { apply andb_true_iff in E0 as [_ El]. eexists. split; [done|]. intros st' [= <-].
    destruct (Hl El) as [Hge Hle].
    destruct (copy_byte_inv _ _ _ _ _ _ Hinv Hge) as [? ->]; [|split; [lia|eauto]].
    intros s ?. lia. }
  rewrite slice_ok by lia.
  destruct (replacement_subst text repl (gsi st) e ms') as (r & Hrep & ->); [lia|done|].
  destruct r as [t|err]; [|by eexists]. eexists. split; [done|]. intros st' [= <-].
  destruct (gmatches_snoc text pat repl 0 ms (gsi st) e t) as [Hm' Hle]; [done|lia|lia|done|eauto|].
  assert (forall k l, (l = true -> e = k) -> e <= k -> k <= e + 1 -> gsub_inv text pat repl max
    (mkGsub ((gresult st ++ take (gsi st - gend st) (drop (gend st) text)) ++ t)
       (gcount st + 1) k l e) (ms ++ [(gsi st, e, t)])) as Hnew.
  { intros k l Hlast Hk Hk'. constructor; simpl; try done.
    - rewrite spliced_snoc by lia. rewrite Nat.sub_diag. rewrite firstn_O, app_nil_r.
      rewrite (spliced_extend _ _ _ (gend st)) by lia. by rewrite Hr.
    - rewrite length_app. simpl. lia.
    - rewrite Hle. lia.
    - rewrite Hle. intros E. by rewrite (Hlast E).
    - rewrite Hle. intros s ?. lia.
    - destruct max as [m|]; [|done]. simpl in Hmax. apply Nat.leb_gt in Hmax.
      rewrite length_app. simpl. lia. }
  destruct (Nat.eqb_spec e (gsi st)) as [->|Hne].
  - destruct (copy_byte_inv _ _ _ _ _ _ (Hnew (gsi st) false ltac:(done) ltac:(lia) ltac:(lia)))
      as [? ->]; [done|simpl; rewrite Hle; intros s ?; lia|]. split; [simpl; lia|eauto].
  - simpl. split; [lia|]. eexists. apply Hnew; [done|lia..].
Qed.

Lemma gsub_stop text pat repl max st ms : gsub_inv text pat repl max st ms ->
  (max = None -> pp_start pat = 0 -> no_match text pat (last_end 0 ms) (S (length text))) ->
  exists r, (let? t := slice text (gend st) (length text) in
             Some (inl (gresult st ++ t, gcount st))) = Some (inl (r, gcount st)
               : list Z * nat + PatError) /\
    gsub_spec text pat repl max r (gcount st).
Proof.
  intros [Hm Hr Hn [Hb1 Hb2] Hl Hgap Hx] Hend. rewrite slice_ok by lia. eexists. split; [done|].
  exists ms. split_and!; [done| |done|by rewrite Hn|done].
  rewrite Hr. by rewrite <- spliced_extend by lia.
Qed.

Lemma gsub_loop_ok fuel text pat repl max anchored ms st l : validate_pattern pat = inl () ->
  anchored = (pp_start pat =? 1) ->
  length (captures ms) = LUA_MAXCAPTURES -> gsub_inv text pat repl max st l ->
  length text + 1 - gsi st < fuel ->
  exists res, gsub_loop fuel text pat repl max (pp_start pat) anchored ms st = Some res /\
    forall r n, res = inl (r, n) -> gsub_spec text pat repl max r n.
Proof.
  intros Hv Ha. revert ms st l. induction fuel as [|fuel IH]; intros ms st l Hc Hinv Hf; [lia|].
  assert ((max = None -> pp_start pat = 0 ->
     no_match text pat (last_end 0 l) (S (length text))) -> exists res : list Z * nat + PatError,
     (let? t := slice text (gend st) (length text) in
      Some (inl (gresult st ++ t, gcount st))) = Some res /\
     forall r n, res = inl (r, n) -> gsub_spec text pat repl max r n) as Hstop.
  { intros Hend. destruct (gsub_stop _ _ _ _ _ _ Hinv Hend) as (r & E & Hs). eexists. split; [exact E|].
    by intros ? ? [= <- <-]. }
  cbn [gsub_loop]. destruct ((length text <? gsi st) || reached max (gcount st)) eqn:E0.
  { apply Hstop. intros -> _ s ?. rewrite orb_false_r in E0. apply Nat.ltb_lt in E0.
    apply (gi_gap _ _ _ _ _ _ Hinv). lia. }
  apply orb_false_iff in E0 as [Hsi%Nat.ltb_ge Hmax].
  destruct (attempt_ok text pat (gsi st) ms Hv Hsi Hc) as (r & ms' & -> & _ & H).
  destruct r as [e|].
  - destruct H as (He & Hs & Hh). unfold check_captures.
    destruct (existsb _ _) eqn:Eu; [by eexists|].
    destruct (gsub_match_ok text pat repl max st l ms' e) as (res & -> & Hres); try done.
    { eapply Forall_impl; [|apply Hs]. intros. eapply cap_ok_mono; [|done]. lia. }
    destruct res as [st'|err]; [|by eexists].
    destruct (Hres st' eq_refl) as [? [l' Hinv']].
    eapply IH; [apply Hs|done|lia].
  - destruct (error ms') eqn:Ee; [by eexists|]. destruct (H eq_refl) as [Hnone Hs].
    assert (no_match text pat (last_end 0 l) (gsi st + 1)) as Hgap.
    { intros s ?. destruct (decide (s = gsi st)) as [->|]; [done|].
      apply (gi_gap _ _ _ _ _ _ Hinv). lia. }
    destruct (_ || _) eqn:E0.
    + apply Hstop. intros _ Hp s ?. rewrite Ha, Hp in E0. apply Nat.leb_le in E0.
      apply Hgap. lia.
    + eapply IH; [apply Hs| |simpl; lia].
      destruct Hinv as [? ? ? [? ?] ? ? ?]. constructor; simpl; try done. lia.
Qed.

(** ** The plain substitution loop *)

Lemma find_from_spec needle s : needle <> [] ->
  match find_from needle s 0 with
  | Some k => starts_with needle (drop k s) = true /\
      forall j, j < k -> starts_with needle (drop j s) = false
  | None => forall j, starts_with needle (drop j s) = false
  end.
Proof.
  intros Hn. induction s as [|c s IH]; cbn [find_from].
  - intros j. rewrite drop_nil. by destruct needle.
  - destruct (starts_with needle (c :: s)) eqn:E; [split; [done|lia]|].
    rewrite find_from_shift. destruct (find_from needle s 0) as [k|]; simpl.
    + destruct IH as [? Hj]. split; [done|]. intros [|j] ?; [done|]. apply Hj. lia.
    + intros [|j]; [exact E|apply IH].
Qed.

Lemma literal_parses text pat s : literal_pattern pat = true -> s <= length text ->
  if starts_with pat (drop s text)
  then head (all_parses text pat (pp_start pat) s []) = Some (s + length pat, [])
  else all_parses text pat (pp_start pat) s [] = [].
Proof.
  intros Hl Hs. destruct (literal_valid pat Hl) as [Hp Hv].
  destruct (attempt_ok text pat s new_ms Hv Hs eq_refl) as (r & ms' & E & _ & H).
  rewrite Hp in *. rewrite literal_match in E by done. injection E as <- <-.
  destruct (starts_with _ _); [by apply H|]. by apply H.
Qed.

Lemma subst_loop_ext d1 d2 repl acc : (forall n, d1 n = d2 n) ->
  subst_loop d1 repl acc = subst_loop d2 repl acc.
Proof.
  intros Hd. revert acc. induction repl as [|c|c n repl IH1 IH2] using list_ind2; intros acc.
  - done.
  - done.
  - cbn [subst_loop]. rewrite Hd. destruct (c =? _)%Z; [|apply IH2].
    destruct (n =? _)%Z; [apply IH1|]. destruct (is_ascii_digit n); [|done].
    destruct (d2 _) as [[|]|]; [apply IH1|done..].
Qed.

Lemma subst_loop_byte digit c repl acc : (c =? #"%")%Z = false ->
  subst_loop digit (c :: repl) acc = subst_loop digit repl (acc ++ [c]).
Proof. intros E. simpl. by rewrite E. Qed.

Definition prepend (acc : list Z) (r : option (list Z + PatError)) :=
  match r with Some (inl t) => Some (inl (acc ++ t)) | r => r end.

Lemma prepend_prepend a b r : prepend a (prepend b r) = prepend (a ++ b) r.
Proof. destruct r as [[|]|]; simpl; try done. by rewrite app_assoc. Qed.

(** The accumulator of [subst_loop] is only appended to. *)
Lemma subst_loop_app digit repl acc :
  subst_loop digit repl acc = prepend acc (subst_loop digit repl []).
Proof.
  revert acc. induction repl as [|c|c n repl IH1 IH2] using list_ind2; intros acc.
  - simpl. by rewrite app_nil_r.
  - simpl. by destruct (c =? _)%Z.
  - destruct (c =? #"%")%Z eqn:E.
    + cbn [subst_loop]. rewrite E. destruct (n =? _)%Z.
      { rewrite IH1, (IH1 ([] ++ _)). by rewrite prepend_prepend. }
      destruct (is_ascii_digit n); [|done]. destruct (digit _) as [[t|]|]; [|done..].
      rewrite IH1, (IH1 ([] ++ t)). by rewrite prepend_prepend.
    + rewrite (subst_loop_byte _ _ _ acc), (subst_loop_byte _ _ _ []) by done.
      rewrite (IH2 (acc ++ [c])), (IH2 ([] ++ [c])). by rewrite prepend_prepend.
Qed.

(** Without captures, [%n] means the same in both substitution routines. *)
Lemma plain_digit_eq full text n : subst_plain_digit full n = subst_capture full text [] n.
Proof. by destruct n as [|[|n]]. Qed.

Lemma plain_replacement text repl s e result : s <= e <= length text ->
  (if has_percent repl then
     let? matched := slice text s e in substitute_plain_bytes result repl matched
   else Some (inl (result ++ repl))) =
  match replacement text repl s e [] with
  | Some (inl t) => Some (inl (result ++ t)) | Some (inr err) => Some (inr err) | None => None end.
Proof.
  intros Hse. unfold replacement. destruct (has_percent repl); [|done].
  rewrite slice_ok by done. unfold substitute_plain_bytes. rewrite subst_loop_app.
  rewrite (subst_loop_ext _ (subst_capture (take (e - s) (drop s text)) text [])).
  { by destruct (subst_loop _ _ _) as [[|]|]. }
  intros. apply plain_digit_eq.
Qed.

Lemma find_bytes_bounds pat s k : pat <> [] ->
  find_bytes_in_slice s pat = Some k -> k + length pat <= length s.
Proof.
  intros Hn Hk. rewrite find_bytes_from in Hk by done. pose proof (find_from_spec pat s Hn) as H.
  rewrite Hk in H. destruct H as [Hs%starts_with_length _]. rewrite length_drop in Hs.
  destruct pat; [done|]. simpl in *. lia.
Qed.

Lemma gsub_plain_total fuel text pat repl max result count pos : pat <> [] ->
  pos <= length text -> length text + 1 - pos < fuel ->
  gsub_plain_loop fuel text pat repl max result count pos <> None.
Proof.
  intros Hn. revert result count pos. induction fuel as [|fuel IH]; intros result count pos Hp Hf; [lia|].
  cbn [gsub_plain_loop]. rewrite (slice_ok text pos (length text)) by lia.
  destruct (_ || _); [done|]. destruct (find_bytes_in_slice _ _) as [k|] eqn:Ek; [|done].
  apply find_bytes_bounds in Ek; [|done]. rewrite length_drop in Ek.
  assert (0 < length pat) by (destruct pat; [done|simpl; lia]).
  rewrite slice_ok by lia. rewrite plain_replacement by lia.
  destruct (replacement _ _ _ _ _) as [[t|]|] eqn:Er; [apply IH; lia|done|].
  exfalso. unfold replacement in Er. destruct (has_percent repl); [|done]. revert Er.
  apply subst_loop_total. intros. rewrite <- plain_digit_eq. apply subst_plain_total.
Qed.

Lemma gsub_plain_ok fuel text pat repl max ms result pos : literal_pattern pat = true ->
  pat <> [] -> pos <= length text -> length text + 1 - pos < fuel ->
  gmatches_ok text pat repl 0 ms -> result = spliced text 0 pos ms -> last_end 0 ms = pos ->
  (pos = 0 -> ms = []) ->
  match max with Some m => length ms <= m | None => True end ->
  forall r n, gsub_plain_loop fuel text pat repl max result (length ms) pos = Some (inl (r, n)) ->
  gsub_spec text pat repl max r n.
Proof.
  intros Hl Hn. revert ms result pos.
  induction fuel as [|fuel IH]; intros ms result pos Hp Hf Hm Hr He H0 Hx r n; [lia|].
  cbn [gsub_plain_loop]. rewrite (slice_ok text pos (length text)) by lia.
  pose proof (find_from_spec pat (drop pos text) Hn) as Hfind.
  rewrite <- find_bytes_from in Hfind by done.
  assert (forall s, s <= length text -> starts_with pat (drop s text) = false ->
    all_parses text pat (pp_start pat) s [] = []) as Hnone.
  { intros s Hs Es. pose proof (literal_parses text pat s Hl Hs) as L. by rewrite Es in L. }
  assert ((max = None -> find_bytes_in_slice (drop pos text) pat = None) ->
    gsub_spec text pat repl max (result ++ take (length text - pos) (drop pos text)) (length ms)) as Hend.
  { intros Hnf. exists ms. split_and!; [done| |done|done|].
    - rewrite Hr. by rewrite <- spliced_extend by lia.
    - intros Hmax _ s ?. rewrite (Hnf Hmax) in Hfind. apply Hnone; [lia|].
      specialize (Hfind (s - pos)). rewrite drop_drop in Hfind.
      by replace (pos + (s - pos)) with s in Hfind by lia. }
  destruct ((length text <? pos) || reached max (length ms)) eqn:E0.
  { intros [= <- <-]. apply Hend. intros ->. rewrite orb_false_r in E0.
    apply Nat.ltb_lt in E0. lia. }
  destruct (find_bytes_in_slice _ _) as [k|] eqn:Ek; [|by intros [= <- <-]; apply Hend].
  destruct Hfind as [Hk Hbefore]. rewrite drop_drop in Hk.
  apply find_bytes_bounds in Ek; [|done]. rewrite length_drop in Ek.
  assert (0 < length pat) by (destruct pat; [done|simpl; lia]).
  rewrite slice_ok by lia. rewrite plain_replacement by lia.
  destruct (replacement _ _ _ _ _) as [[t|]|] eqn:Er; [|done..].
  pose proof (literal_parses text pat (pos + k) Hl ltac:(lia)) as Hpar. rewrite Hk in Hpar.
  destruct (gmatches_snoc text pat repl 0 ms (pos + k) (pos + k + length pat) t) as [Hm' Hle'];
    [done|lia|lia| |eauto|].
  { intros s ?. apply Hnone; [lia|]. specialize (Hbefore (s - pos)). rewrite drop_drop in Hbefore.
    replace (pos + (s - pos)) with s in Hbefore by lia. apply Hbefore. lia. }
  replace (length ms + 1) with (length (ms ++ [(pos + k, pos + k + length pat, t)]))
    by (rewrite length_app; simpl; lia).
  apply orb_false_iff in E0 as [_ Hmax].
  apply IH; try done; try lia.
  - rewrite spliced_snoc by lia. replace (pos + (k + length pat) - (pos + k + length pat)) with 0 by lia.
    rewrite firstn_O, app_nil_r, (spliced_extend _ _ _ pos) by lia. rewrite Hr.
    by replace (pos + k - pos) with k by lia.
  - destruct max as [m|]; [|done]. simpl in Hmax. apply Nat.leb_gt in Hmax.
    rewrite length_app. simpl. lia.
Qed.

Lemma find_all_loop_total fuel text pat max anchored ms acc si last : validate_pattern pat = inl () ->
  length (captures ms) = LUA_MAXCAPTURES ->
  2 * (length text + 1 - si) + (if last : bool then 1 else 0) < fuel ->
  find_all_loop fuel text pat max (pp_start pat) anchored ms acc si last <> None.
Proof.
  intros Hv. revert ms acc si last. induction fuel as [|fuel IH]; intros ms acc si last Hc Hf; [lia|].
  cbn [find_all_loop]. destruct ((length text <? si) || _) eqn:E0; [done|].
  apply orb_false_iff in E0 as [Hsi%Nat.ltb_ge _].
  destruct (attempt_ok text pat si ms Hv Hsi Hc) as (r & ms' & -> & _ & H).
  destruct r as [e|].
  - destruct H as (He & Hs & _). pose proof (so_len _ _ _ _ Hs).
    destruct (check_captures ms'); [|done].
    destruct (Nat.eqb_spec e si) as [->|Hne]; destruct last; cbn [andb];
      try destruct (Nat.ltb_spec si (length text)); try done; apply IH; try done; lia.
  - destruct (error ms'); [done|]. destruct (H eq_refl) as [_ Hs]. pose proof (so_len _ _ _ _ Hs).
    destruct (_ || _) eqn:Eb; [done|]. apply orb_false_iff in Eb as [_ ?%Nat.leb_gt].
    apply IH; [done|]. destruct last; lia.
Qed.

Lemma find_all_plain_total fuel text pat max acc pos : pat <> [] ->
  length text + 1 - pos < fuel -> find_all_plain_loop fuel text pat max acc pos <> None.
Proof.
  intros Hn. revert acc pos. induction fuel as [|fuel IH]; intros acc pos Hf; [lia|].
  cbn [find_all_plain_loop]. destruct ((length text <? pos) || _) eqn:E0; [done|].
  apply orb_false_iff in E0 as [Hp%Nat.ltb_ge _].
  destruct (find_bytes_in_slice _ _) as [k|] eqn:Ek; [|done].
  apply find_bytes_bounds in Ek; [|done]. rewrite length_drop in Ek.
  assert (0 < length pat) by (destruct pat; [done|simpl; lia]). apply IH. lia.
Qed.

Lemma gsub_start text pat repl max : gsub_inv text pat repl max (mkGsub [] 0 0 false 0) [].
Proof. constructor; simpl; try done; try lia. intros s ?. lia. by destruct max; [lia|]. Qed.

Lemma gsub_general text pat repl max : validate_pattern pat = inl () ->
  exists res, gsub_loop (length text + 2) text pat repl max (pp_start pat)
      (pp_start pat =? 1) new_ms (mkGsub [] 0 0 false 0) = Some res /\
    forall r n, res = inl (r, n) -> gsub_spec text pat repl max r n.
Proof.
  intros Hv. eapply gsub_loop_ok; [done|done|done|apply gsub_start|simpl; lia].
Qed.

(** The patterns whose plain fast path reads every byte literally: all but the
    plain ones that contain [)]. *)
Definition regular_pattern (pat : list Z) : bool :=
  negb (is_plain_pattern pat) || bool_decide (pat = []) || literal_pattern pat.

Lemma gsub_ok text pat repl max r n : regular_pattern pat = true ->
  gsub text pat repl max = Some (inl (r, n)) -> gsub_spec text pat repl max r n.
Proof.
  unfold regular_pattern, gsub. intros Hreg.
  destruct (is_plain_pattern pat && negb (bool_decide (pat = []))) eqn:E.
  - apply andb_true_iff in E as [E1 E2]. rewrite E1 in Hreg.
    apply negb_true_iff in E2. rewrite E2 in Hreg. simpl in Hreg.
    apply bool_decide_eq_false in E2. unfold gsub_plain.
    apply (gsub_plain_ok _ _ _ _ _ []); try done; try lia. by destruct max; [simpl; lia|].
  - destruct (validate_pattern pat) as [[]|] eqn:Hv; [|done].
    destruct (gsub_general text pat repl max Hv) as (res & -> & H).
    intros [= ->]. by apply H.
Qed.

Lemma spliced_self text pos upto ms :
  pos <= upto -> last_end pos ms <= upto ->
  Forall (fun m => m.2 = take (m.1.2 - m.1.1) (drop m.1.1 text)) ms ->
  (exists pat repl, gmatches_ok text pat repl pos ms) ->
  spliced text pos upto ms = take (upto - pos) (drop pos text).
Proof.
  revert pos. induction ms as [|[[s e] t] ms IH]; intros pos Hp Hl Hf (pat & repl & Hm); [done|].
  destruct Hm as (? & ? & _ & _ & Hm). inversion Hf as [|? ? Ht Hf']; subst. simpl in *. subst.
  assert (forall pos' l, gmatches_ok text pat repl pos' l -> pos' <= last_end pos' l) as Hge.
  { intros pos' l. revert pos'. induction l as [|[[? ?] ?] l IHl]; intros pos'; simpl; [lia|].
    intros (? & _ & _ & _ & Hg). specialize (IHl _ Hg). lia. }
  specialize (Hge e ms Hm). rewrite IH; try done; [|lia|by exists pat, repl].
  rewrite (take_drop_split text pos s upto) by lia. f_equal.
  symmetry. apply take_drop_split. lia.
Qed.

(** ** Properties *)

(** Byte strings for the concrete instances below. *)
Definition bytes (s : string) : list Z := map chr (list_ascii_of_string s).

(** C19. The matcher refines the reference semantics: on a validated pattern
    and from any position of the text, [match_impl] always returns (it neither
    panics nor runs out of the nesting budget it is given), a reported match
    is the preferred parse with exactly its captures, and a failure without an
    error means that no parse exists. *)
Theorem match_impl_refines text pat si ms :
  validate_pattern pat = inl () -> si <= length text ->
  length (captures ms) = LUA_MAXCAPTURES ->
  exists r ms', match_impl text pat gas0 (reset ms) si (pp_start pat) = Some (r, ms') /\
    match r with
    | Some e => si <= e <= length text /\ error ms' = None /\
        head (all_parses text pat (pp_start pat) si []) = Some (e, live_captures ms')
    | None => error ms' = None ->
        all_parses text pat (pp_start pat) si [] = [] /\ live_captures ms' = []
    end.
Proof.
  intros Hv Hl Hc. destruct (attempt_ok text pat si ms Hv Hl Hc) as (r & ms' & E & _ & H).
  exists r, ms'. split; [done|]. destruct r as [e|].
  - destruct H as (? & Hs & ?). split_and!; try done; try lia. apply Hs.
  - intros He. destruct (H He) as [? Hs]. split; [done|apply Hs].
Qed.

Lemma match_impl_refines_witness :
  exists ms', match_impl (bytes "aXbXc") (bytes "(.-)X") gas0 (reset new_ms) 0 0
      = Some (Some 2, ms') /\
    head (all_parses (bytes "aXbXc") (bytes "(.-)X") 0 0 []) = Some (2, live_captures ms').
Proof.
  destruct (match_impl_refines (bytes "aXbXc") (bytes "(.-)X") 0 new_ms) as (r & ms' & E & H);
    [vm_compute; reflexivity|apply Nat.le_0_l|reflexivity|].
  assert (option_map fst (Some (r, ms')) = Some (Some 2)) as E2
    by (rewrite <- E; vm_compute; reflexivity).
  injection E2 as ->. exists ms'. split; [exact E|apply H].
Defined.

(** C21. No input makes a search or a substitution panic or loop: [find],
    [find_all_matches] and [gsub] always return a result or an error. *)
Theorem pattern_api_total text pat repl init max :
  find text pat init <> None /\ find_all_matches text pat init max <> None /\
  gsub text pat repl max <> None.
Proof.
  split_and!.
  - unfold find, find_impl. destruct (Nat.ltb_spec (length text) init) as [|Hl]; [done|].
    destruct (is_plain_pattern pat); [by destruct (find_bytes_in_slice _ _)|].
    by destruct (find_general_ok text pat init Hl) as (res & -> & _).
  - unfold find_all_matches. destruct (_ && _) eqn:E.
    + apply andb_true_iff in E as [_ E%negb_true_iff%bool_decide_eq_false].
      unfold find_all_matches_plain.
      destruct (find_all_plain_loop _ _ _ _ _ _) eqn:El; [done|].
      by apply find_all_plain_total in El; [|done|lia].
    + destruct (validate_pattern pat) as [[]|] eqn:Hv; [|done].
      apply find_all_loop_total; [done|done|lia].
  - unfold gsub. destruct (_ && _) eqn:E.
    + apply andb_true_iff in E as [_ E%negb_true_iff%bool_decide_eq_false].
      apply gsub_plain_total; [done|lia|lia].
    + destruct (validate_pattern pat) as [[]|] eqn:Hv; [|done].
      by destruct (gsub_general text pat repl max Hv) as (res & -> & _).
Qed.

(** C22. A search that does not take the plain fast path returns the leftmost
    match: no earlier start (from [init] on) has any parse, the end and the
    captures are those of the preferred parse at that start, every capture
    lies inside the matched text, and an anchored pattern only matches at
    [init]; when it reports no match there is none. *)
Theorem find_leftmost text pat init r :
  is_plain_pattern pat = false -> init <= length text ->
  find text pat init = Some (inl r) ->
  find_spec text pat (pp_start pat =? 1) init r.
Proof.
  intros Hp Hl. unfold find, find_impl. rewrite Hp.
  destruct (Nat.ltb_spec (length text) init); [lia|].
  destruct (find_general_ok text pat init Hl) as (res & -> & H'). intros [= ->]. by apply H'.
Qed.

Lemma find_leftmost_witness :
  exists cs, head (all_parses (bytes "x = 10") (bytes "(%w+)%s*=%s*(%d+)") 0 0 []) = Some (6, cs) /\
    flat_map capture_value cs = [Substring 0 1; Substring 4 6].
Proof.
  pose proof (find_leftmost (bytes "x = 10") (bytes "(%w+)%s*=%s*(%d+)") 0
    (Some (0, 6, [Substring 0 1; Substring 4 6]))) as H.
  destruct H as (_ & _ & _ & _ & cs & H1 & H2 & _);
    [vm_compute; reflexivity|apply Nat.le_0_l|vm_compute; reflexivity|].
  exists cs. split; [exact H1|symmetry; exact H2].
Defined.

(** The plain fast path of [find] is only an optimisation: for a pattern
    whose bytes all stand for themselves it returns exactly what validation
    and the backtracking matcher return. *)
Theorem find_plain_equiv text pat init v :
  literal_pattern pat = true -> init <= length text ->
  find_impl text pat init v = find_general text pat init v.
Proof.
  intros Hlit Hl. destruct (literal_valid pat Hlit) as [Hp Hv].
  unfold find_impl, find_general. rewrite Hv, Hp.
  assert (is_plain_pattern pat = true) as ->.
  { unfold literal_pattern in Hlit. by apply andb_true_iff in Hlit as [? _]. }
  destruct (Nat.ltb_spec (length text) init); [lia|].
  replace (if v then inl () else inl ()) with (inl () : unit + PatError) by (by destruct v).
  destruct (decide (pat = [])) as [->|Hn].
  - cbn [find_loop]. rewrite literal_match by done. cbn [starts_with length].
    simpl. by rewrite ?Nat.add_0_r.
  - rewrite literal_find_loop by (done || lia). rewrite find_bytes_from by done.
    by destruct (find_from _ _ _).
Qed.

Lemma find_plain_equiv_witness :
  find_general (bytes "a needle here") (bytes "needle") 1 true = Some (inl (Some (2, 8, []))).
Proof.
  rewrite <- (find_plain_equiv (bytes "a needle here") (bytes "needle") 1 true);
    [vm_compute; reflexivity..|].
  vm_compute. repeat constructor.
Defined.

(** What a substitution computes: the result is the text with a list of
    disjoint matches, in order and none skipped, each replaced by its
    expansion of the replacement; the count is their number and respects the
    limit. *)
Theorem gsub_splices text pat repl max r n :
  regular_pattern pat = true -> gsub text pat repl max = Some (inl (r, n)) ->
  exists ms, gmatches_ok text pat repl 0 ms /\ r = spliced text 0 (length text) ms /\
    n = length ms /\ match max with Some m => n <= m | None => True end /\
    (max = None -> pp_start pat = 0 ->
     no_match text pat (last_end 0 ms) (S (length text))).
Proof. apply gsub_ok. Qed.

Lemma gsub_splices_witness :
  gsub (bytes "one two") (bytes "(%w)(%w*)") (bytes "%2%1") None
    = Some (inl (bytes "neo wot", 2)) /\
  exists ms, length ms = 2 /\ spliced (bytes "one two") 0 7 ms = bytes "neo wot".
Proof.
  assert (gsub (bytes "one two") (bytes "(%w)(%w*)") (bytes "%2%1") None
    = Some (inl (bytes "neo wot", 2))) as E by (vm_compute; reflexivity).
  split; [exact E|].
  destruct (gsub_splices (bytes "one two") (bytes "(%w)(%w*)") (bytes "%2%1") None _ _
              eq_refl E)
    as (ms & _ & H1 & H2 & _).
  exists ms. split; [symmetry; exact H2|symmetry; exact H1].
Defined.

(** Substituting every match by itself ([%0]) returns the text. *)
Theorem gsub_identity text pat max r n :
  regular_pattern pat = true ->
  gsub text pat (bytes "%0") max = Some (inl (r, n)) -> r = text.
Proof.
  intros Hreg Hg. destruct (gsub_ok _ _ _ _ _ _ Hreg Hg) as (ms & Hm & -> & _).
  assert (last_end 0 ms <= length text /\
    Forall (fun m => m.2 = take (m.1.2 - m.1.1) (drop m.1.1 text)) ms) as [Hle Hf].
  { clear Hg. assert (0 <= length text) as H0 by lia. revert Hm H0. generalize 0 as pos.
    induction ms as [|[[s e] t] ms IH]; intros pos; simpl; [done|].
    intros (? & ? & _ & (cs & _ & Hr) & Hm) ?. destruct (IH e Hm) as [? ?]; [done|].
    split; [done|]. constructor; [|done]. simpl. unfold replacement in Hr. simpl in Hr.
    by injection Hr as <-. }
  rewrite spliced_self; [|lia|done|done|by exists pat, (bytes "%0")].
  by rewrite drop_0, Nat.sub_0_r, firstn_all.
Qed.

Lemma gsub_identity_witness :
  exists n, gsub (bytes "a.b.c") (bytes "%w*") (bytes "%0") None = Some (inl (bytes "a.b.c", n)).
Proof.
  destruct (gsub (bytes "a.b.c") (bytes "%w*") (bytes "%0") None) as [[[r n]|]|] eqn:E;
    [|vm_compute in E; discriminate E..].
  exists n. rewrite (gsub_identity (bytes "a.b.c") (bytes "%w*") None r n eq_refl E). reflexivity.
Defined.

(** The specialised repetition counter agrees with the single-character
    matcher: at a readable element it returns the length of the longest run of
    bytes that [singlematch] accepts. *)
Theorem count_max_repetition_equiv text si pat pp :
  readable pat pp ->
  count_max_repetition text si pat pp
    = run_len (fun c => singlematch c pat pp) (drop si text).
Proof.
  intros Hr. rewrite count_max_repetition_run by done. symmetry. apply run_len_while.
  intros c. by apply singlematch_readable.
Qed.

Lemma count_max_repetition_equiv_witness :
  run_len (fun c => singlematch c (bytes "%D") 0) (drop 1 (bytes "1ab2")) = Some 2.
Proof.
  rewrite <- (count_max_repetition_equiv (bytes "1ab2") 1 (bytes "%D") 0);
    [vm_compute; reflexivity|].
  exists (chr "%"). split; [reflexivity|]. intros _. eexists. reflexivity.
Defined.

(** ** Divergences from Lua *)

(** An anchored pattern keeps matching after the first substitution: the loop
    only leaves on [anchored] when a match fails. *)
Lemma gsub_anchored_repeats :
  gsub (bytes "aaa") (bytes "^a") (bytes "x") None = Some (inl (bytes "xxx", 3)).
Proof. vm_compute. reflexivity. Qed.

(** [find_all_matches] reports an empty match right after a non-empty one at
    the end of the text; [gsub] skips it. *)
Lemma find_all_trailing_empty :
  find_all_matches (bytes "abc") (bytes "%a*") 0 None
    = Some (inl [mkMatchInfo 0 3 []; mkMatchInfo 3 3 []]) /\
  gsub (bytes "abc") (bytes "%a*") (bytes "x") None = Some (inl (bytes "x", 1)).
Proof. split; vm_compute; reflexivity. Qed.

(** [matchset] and [element_end] disagree on the end of [[a-%\]b\]]: the range
    [a-%] swallows the escape, so [b] is not in the set. *)
Lemma set_range_swallows_escape :
  matchset (chr "b") (bytes "[a-%]b]") 0 = false /\
  element_end (bytes "[a-%]b]") 0 = Some 7.
Proof. split; reflexivity. Qed.

(** [%s] does not match the vertical tab, which C's [isspace] accepts. *)
Lemma space_class_without_vt : match_class 11 (chr "s") = false.
Proof. reflexivity. Qed.
