(* ===== verification/Ir.v ===== *)
(** * jit/ir.rs: the SSA IR of a trace

    Opcodes and their modes, types, tagged references, the 8-byte instruction
    record and [IrBuf], the buffer of the trace being recorded: constants grow
    down from [REF_BIAS - 1], instructions up from [REF_BIAS]; every opcode has
    a chain of its instructions through [prev], which interning and common
    subexpression elimination search. *)

From Stdlib Require Import ZArith Lia Bool.
From stdpp Require Import base decidable numbers option list.
From S2P Require Import Prelude Float64.

(** ** Opcodes *)

(** Operand modes and mode bits. *)
Definition IRM_REF : Z := 0.
Definition IRM_LIT : Z := 1.
Definition IRM_CST : Z := 2.
Definition IRM_NONE : Z := 3.
Definition IRM_C : Z := 0x10.
Definition IRM_N : Z := 0x00.
Definition IRM_A : Z := 0x20.
Definition IRM_L : Z := 0x40.
Definition IRM_S : Z := 0x60.
Definition IRM_W : Z := 0x80.

Inductive irm_flag_name := FN | FC | FR | FA | FL | FS | FNW | FCW | FAW | FLW.

Definition irm_flag (f : irm_flag_name) : Z :=
  match f with
  | FN => IRM_N | FC => IRM_C | FR => IRM_N | FA => IRM_A | FL => IRM_L | FS => IRM_S
  | FNW => Z.lor IRM_N IRM_W | FCW => Z.lor IRM_C IRM_W
  | FAW => Z.lor IRM_A IRM_W | FLW => Z.lor IRM_L IRM_W
  end.

Inductive irm_mode_name := Mref | Mlit | Mcst | Mnone.

Definition irm_mode (m : irm_mode_name) : Z :=
  match m with Mref => IRM_REF | Mlit => IRM_LIT | Mcst => IRM_CST | Mnone => IRM_NONE end.

Module IROp.
Inductive t : Set :=
  | LT | GE | LE | GT | ULT | UGE | ULE | UGT | EQ | NE | ABC | RETF | NOP | BASE |
  PVAL | GCSTEP | HIOP | LOOP | USE | PHI | RENAME | PROF | KPRI | KINT | KGC | KPTR
  | KKPTR | KNULL | KNUM | KINT64 | KSLOT | BNOT | BSWAP | BAND | BOR | BXOR | BSHL
  | BSHR | BSAR | BROL | BROR | ADD | SUB | MUL | DIV | MOD | POW | NEG | ABS |
  LDEXP | MIN | MAX | FPMATH | ADDOV | SUBOV | MULOV | AREF | HREFK | HREF | NEWREF
  | UREFO | UREFC | FREF | TMPREF | STRREF | LREF | ALOAD | HLOAD | ULOAD | FLOAD |
  XLOAD | SLOAD | VLOAD | ALEN | ASTORE | HSTORE | USTORE | FSTORE | XSTORE | SNEW |
  XSNEW | TNEW | TDUP | CNEW | CNEWI | BUFHDR | BUFPUT | BUFSTR | TBAR | OBAR | XBAR
  | CONV | TOBIT | TOSTR | STRTO | CALLN | CALLA | CALLL | CALLS | CALLXS | CARG.

Definition all : list t :=
  [LT; GE; LE; GT; ULT; UGE; ULE; UGT; EQ; NE; ABC; RETF; NOP; BASE; PVAL; GCSTEP;
   HIOP; LOOP; USE; PHI; RENAME; PROF; KPRI; KINT; KGC; KPTR; KKPTR; KNULL; KNUM;
   KINT64; KSLOT; BNOT; BSWAP; BAND; BOR; BXOR; BSHL; BSHR; BSAR; BROL; BROR; ADD;
   SUB; MUL; DIV; MOD; POW; NEG; ABS; LDEXP; MIN; MAX; FPMATH; ADDOV; SUBOV; MULOV;
   AREF; HREFK; HREF; NEWREF; UREFO; UREFC; FREF; TMPREF; STRREF; LREF; ALOAD;
   HLOAD; ULOAD; FLOAD; XLOAD; SLOAD; VLOAD; ALEN; ASTORE; HSTORE; USTORE; FSTORE;
   XSTORE; SNEW; XSNEW; TNEW; TDUP; CNEW; CNEWI; BUFHDR; BUFPUT; BUFSTR; TBAR; OBAR;
   XBAR; CONV; TOBIT; TOSTR; STRTO; CALLN; CALLA; CALLL; CALLS; CALLXS; CARG].

Definition code (o : t) : Z :=
  match o with
  | LT => 0 | GE => 1 | LE => 2 | GT => 3 | ULT => 4 | UGE => 5 | ULE => 6 |
  UGT => 7 | EQ => 8 | NE => 9 | ABC => 10 | RETF => 11 | NOP => 12 | BASE => 13 |
  PVAL => 14 | GCSTEP => 15 | HIOP => 16 | LOOP => 17 | USE => 18 | PHI => 19 |
  RENAME => 20 | PROF => 21 | KPRI => 22 | KINT => 23 | KGC => 24 | KPTR => 25 |
  KKPTR => 26 | KNULL => 27 | KNUM => 28 | KINT64 => 29 | KSLOT => 30 | BNOT => 31 |
  BSWAP => 32 | BAND => 33 | BOR => 34 | BXOR => 35 | BSHL => 36 | BSHR => 37 |
  BSAR => 38 | BROL => 39 | BROR => 40 | ADD => 41 | SUB => 42 | MUL => 43 |
  DIV => 44 | MOD => 45 | POW => 46 | NEG => 47 | ABS => 48 | LDEXP => 49 |
  MIN => 50 | MAX => 51 | FPMATH => 52 | ADDOV => 53 | SUBOV => 54 | MULOV => 55 |
  AREF => 56 | HREFK => 57 | HREF => 58 | NEWREF => 59 | UREFO => 60 | UREFC => 61 |
  FREF => 62 | TMPREF => 63 | STRREF => 64 | LREF => 65 | ALOAD => 66 | HLOAD => 67
  | ULOAD => 68 | FLOAD => 69 | XLOAD => 70 | SLOAD => 71 | VLOAD => 72 | ALEN => 73
  | ASTORE => 74 | HSTORE => 75 | USTORE => 76 | FSTORE => 77 | XSTORE => 78 |
  SNEW => 79 | XSNEW => 80 | TNEW => 81 | TDUP => 82 | CNEW => 83 | CNEWI => 84 |
  BUFHDR => 85 | BUFPUT => 86 | BUFSTR => 87 | TBAR => 88 | OBAR => 89 | XBAR => 90
  | CONV => 91 | TOBIT => 92 | TOSTR => 93 | STRTO => 94 | CALLN => 95 | CALLA => 96
  | CALLL => 97 | CALLS => 98 | CALLXS => 99 | CARG => 100
  end.

#[global] Instance enum : Enum t.
Proof. refine {| enum_all := all; enum_code := code |}. by intros []. Defined.
End IROp.

(** The opcode table: flags and operand modes. *)
Definition irdef : list (IROp.t * irm_flag_name * irm_mode_name * irm_mode_name) :=
  [(IROp.LT, FN, Mref, Mref); (IROp.GE, FN, Mref, Mref); (IROp.LE, FN, Mref, Mref);
   (IROp.GT, FN, Mref, Mref); (IROp.ULT, FN, Mref, Mref);
   (IROp.UGE, FN, Mref, Mref); (IROp.ULE, FN, Mref, Mref);
   (IROp.UGT, FN, Mref, Mref); (IROp.EQ, FC, Mref, Mref); (IROp.NE, FC, Mref, Mref);
   (IROp.ABC, FN, Mref, Mref); (IROp.RETF, FS, Mref, Mref);
   (IROp.NOP, FN, Mnone, Mnone); (IROp.BASE, FN, Mlit, Mlit);
   (IROp.PVAL, FN, Mlit, Mnone); (IROp.GCSTEP, FS, Mnone, Mnone);
   (IROp.HIOP, FS, Mref, Mref); (IROp.LOOP, FS, Mnone, Mnone);
   (IROp.USE, FS, Mref, Mnone); (IROp.PHI, FS, Mref, Mref);
   (IROp.RENAME, FS, Mref, Mlit); (IROp.PROF, FS, Mnone, Mnone);
   (IROp.KPRI, FN, Mnone, Mnone); (IROp.KINT, FN, Mcst, Mnone);
   (IROp.KGC, FN, Mcst, Mnone); (IROp.KPTR, FN, Mcst, Mnone);
   (IROp.KKPTR, FN, Mcst, Mnone); (IROp.KNULL, FN, Mcst, Mnone);
   (IROp.KNUM, FN, Mcst, Mnone); (IROp.KINT64, FN, Mcst, Mnone);
   (IROp.KSLOT, FN, Mref, Mlit); (IROp.BNOT, FN, Mref, Mnone);
   (IROp.BSWAP, FN, Mref, Mnone); (IROp.BAND, FC, Mref, Mref);
   (IROp.BOR, FC, Mref, Mref); (IROp.BXOR, FC, Mref, Mref);
   (IROp.BSHL, FN, Mref, Mref); (IROp.BSHR, FN, Mref, Mref);
   (IROp.BSAR, FN, Mref, Mref); (IROp.BROL, FN, Mref, Mref);
   (IROp.BROR, FN, Mref, Mref); (IROp.ADD, FC, Mref, Mref);
   (IROp.SUB, FN, Mref, Mref); (IROp.MUL, FC, Mref, Mref);
   (IROp.DIV, FN, Mref, Mref); (IROp.MOD, FN, Mref, Mref);
   (IROp.POW, FN, Mref, Mref); (IROp.NEG, FN, Mref, Mref);
   (IROp.ABS, FN, Mref, Mref); (IROp.LDEXP, FN, Mref, Mref);
   (IROp.MIN, FN, Mref, Mref); (IROp.MAX, FN, Mref, Mref);
   (IROp.FPMATH, FN, Mref, Mlit); (IROp.ADDOV, FCW, Mref, Mref);
   (IROp.SUBOV, FNW, Mref, Mref); (IROp.MULOV, FCW, Mref, Mref);
   (IROp.AREF, FR, Mref, Mref); (IROp.HREFK, FR, Mref, Mref);
   (IROp.HREF, FL, Mref, Mref); (IROp.NEWREF, FS, Mref, Mref);
   (IROp.UREFO, FLW, Mref, Mlit); (IROp.UREFC, FLW, Mref, Mlit);
   (IROp.FREF, FR, Mref, Mlit); (IROp.TMPREF, FS, Mref, Mlit);
   (IROp.STRREF, FN, Mref, Mref); (IROp.LREF, FL, Mnone, Mnone);
   (IROp.ALOAD, FL, Mref, Mnone); (IROp.HLOAD, FL, Mref, Mnone);
   (IROp.ULOAD, FL, Mref, Mnone); (IROp.FLOAD, FL, Mref, Mlit);
   (IROp.XLOAD, FL, Mref, Mlit); (IROp.SLOAD, FL, Mlit, Mlit);
   (IROp.VLOAD, FL, Mref, Mlit); (IROp.ALEN, FL, Mref, Mref);
   (IROp.ASTORE, FS, Mref, Mref); (IROp.HSTORE, FS, Mref, Mref);
   (IROp.USTORE, FS, Mref, Mref); (IROp.FSTORE, FS, Mref, Mref);
   (IROp.XSTORE, FS, Mref, Mref); (IROp.SNEW, FN, Mref, Mref);
   (IROp.XSNEW, FA, Mref, Mref); (IROp.TNEW, FAW, Mlit, Mlit);
   (IROp.TDUP, FAW, Mref, Mnone); (IROp.CNEW, FAW, Mref, Mref);
   (IROp.CNEWI, FNW, Mref, Mref); (IROp.BUFHDR, FL, Mref, Mlit);
   (IROp.BUFPUT, FLW, Mref, Mref); (IROp.BUFSTR, FAW, Mref, Mref);
   (IROp.TBAR, FS, Mref, Mnone); (IROp.OBAR, FS, Mref, Mref);
   (IROp.XBAR, FS, Mnone, Mnone); (IROp.CONV, FN, Mref, Mlit);
   (IROp.TOBIT, FN, Mref, Mref); (IROp.TOSTR, FN, Mref, Mlit);
   (IROp.STRTO, FN, Mref, Mnone); (IROp.CALLN, FNW, Mref, Mlit);
   (IROp.CALLA, FAW, Mref, Mlit); (IROp.CALLL, FLW, Mref, Mlit);
   (IROp.CALLS, FS, Mref, Mlit); (IROp.CALLXS, FS, Mref, Mref);
   (IROp.CARG, FN, Mref, Mref)].

Definition irm_entry (d : IROp.t * irm_flag_name * irm_mode_name * irm_mode_name) : Z :=
  let '(_, f, m1, m2) := d in
  Z.lxor (Z.lor (Z.lor (irm_mode m1) (Z.shiftl (irm_mode m2) 2)) (irm_flag f)) IRM_W.

(** [(m1 | m2<<2 | flags) ^ IRM_W], the XOR making W a non-weak bit. *)
Definition IR_MODE : list Z := irm_entry <$> irdef.
Definition IR_MAX : Z := zlen irdef.

Definition irm_op1 (m : Z) : Z := Z.land m 3.
Definition irm_op2 (m : Z) : Z := Z.land (Z.shiftr m 2) 3.
Definition irm_iscomm (m : Z) : bool := negb (Z.land m IRM_C =? 0).
Definition irm_kind (m : Z) : Z := Z.land m IRM_S.

(** The transmute of the source is defined on the codes of the enumeration. *)
Definition from_u8 (op : Z) : option IROp.t := enum_of_code op.

(** [IR_MODE[op as usize]]. *)
Definition ir_mode (o : IROp.t) : option Z := znth IR_MODE (enum_code o).

(** ** Types *)

Definition IRT_NIL : Z := 0.
Definition IRT_FALSE : Z := 1.
Definition IRT_TRUE : Z := 2.
Definition IRT_LIGHTUD : Z := 3.
Definition IRT_STR : Z := 4.
Definition IRT_P32 : Z := 5.
Definition IRT_THREAD : Z := 6.
Definition IRT_PROTO : Z := 7.
Definition IRT_FUNC : Z := 8.
Definition IRT_P64 : Z := 9.
Definition IRT_CDATA : Z := 10.
Definition IRT_TAB : Z := 11.
Definition IRT_UDATA : Z := 12.
Definition IRT_FLOAT : Z := 13.
Definition IRT_NUM : Z := 14.
Definition IRT_I8 : Z := 15.
Definition IRT_U8 : Z := 16.
Definition IRT_I16 : Z := 17.
Definition IRT_U16 : Z := 18.
Definition IRT_INT : Z := 19.
Definition IRT_U32 : Z := 20.
Definition IRT_I64 : Z := 21.
Definition IRT_U64 : Z := 22.
Definition IRT_SOFTFP : Z := 23.
Definition IRT_PTR : Z := IRT_P64.
Definition IRT_PGC : Z := IRT_P64.
Definition IRT_MARK : Z := 0x20.
Definition IRT_ISPHI : Z := 0x40.
Definition IRT_GUARD : Z := 0x80.
Definition IRT_TYPE : Z := 0x1f.

Definition irt_type (t : Z) : Z := Z.land t IRT_TYPE.
Definition irt_isnum (t : Z) : bool := irt_type t =? IRT_NUM.
Definition irt_isint (t : Z) : bool := irt_type t =? IRT_INT.
Definition irt_ispri (t : Z) : bool := irt_type t <=? IRT_TRUE.
Definition irt_isguard (t : Z) : bool := negb (Z.land t IRT_GUARD =? 0).
Definition irt_isphi (t : Z) : bool := negb (Z.land t IRT_ISPHI =? 0).
Definition irt_isgcv (t : Z) : bool := (IRT_STR <=? irt_type t) && (irt_type t <=? IRT_UDATA).
Definition irt_isinteger (t : Z) : bool := (IRT_I8 <=? irt_type t) && (irt_type t <=? IRT_INT).
Definition irt_sametype (t1 t2 : Z) : bool := Z.land (Z.lxor t1 t2) IRT_TYPE =? 0.

Definition irt (o : IROp.t) (t : Z) : Z := Z.lor (Z.shiftl (enum_code o) 8) t.
Definition irti (o : IROp.t) : Z := irt o IRT_INT.
Definition irtn (o : IROp.t) : Z := irt o IRT_NUM.
Definition irtg (o : IROp.t) (t : Z) : Z := irt o (Z.lor IRT_GUARD t).
Definition irtgi (o : IROp.t) : Z := irt o (Z.lor IRT_GUARD IRT_INT).

(** ** References *)

Definition REF_BIAS : Z := 0x8000.
Definition REF_TRUE : Z := REF_BIAS - 3.
Definition REF_FALSE : Z := REF_BIAS - 2.
Definition REF_NIL : Z := REF_BIAS - 1.
Definition REF_BASE : Z := REF_BIAS.
Definition REF_FIRST : Z := REF_BIAS + 1.
Definition REF_DROP : Z := 0xffff.

Definition irref_isk (r : Z) : bool := r <? REF_BIAS.

Definition TREF_REFMASK : Z := 0x0000ffff.
Definition TREF_FRAME : Z := 0x00010000.
Definition TREF_CONT : Z := 0x00020000.
Definition TREF_KEYINDEX : Z := 0x00100000.

(** [irt << 24 | flags | ref]. *)
Definition tref (r t : Z) : Z := uwrap 32 (r + uwrap 32 (Z.shiftl t 24)).
Definition tref_ref (tr : Z) : Z := Z.land tr TREF_REFMASK.
Definition tref_t (tr : Z) : Z := uwrap 8 (Z.shiftr tr 24).
Definition tref_type (tr : Z) : Z := Z.land (uwrap 8 (Z.shiftr tr 24)) IRT_TYPE.
Definition tref_isk (tr : Z) : bool := irref_isk (tref_ref tr).
Definition tref_isnum (tr : Z) : bool := tref_type tr =? IRT_NUM.
Definition tref_isnil (tr : Z) : bool := tref_type tr =? IRT_NIL.
Definition tref_isint (tr : Z) : bool := tref_type tr =? IRT_INT.
Definition tref_isnum_or_int (tr : Z) : bool :=
  let t := tref_type tr in (t =? IRT_NUM) || (t =? IRT_INT).
Definition num_isint (n : f64) : bool := f64_eq (f64_of_int (f64_to_i32 n)) n.
Definition tref_istab (tr : Z) : bool := tref_type tr =? IRT_TAB.
Definition tref_isstr (tr : Z) : bool := tref_type tr =? IRT_STR.
Definition tref_pri (t : Z) : Z := tref (REF_NIL - t) t.
Definition TREF_NIL : Z := (REF_NIL - IRT_NIL) + Z.shiftl IRT_NIL 24.
Definition TREF_FALSE : Z := (REF_NIL - IRT_FALSE) + Z.shiftl IRT_FALSE 24.
Definition TREF_TRUE : Z := (REF_NIL - IRT_TRUE) + Z.shiftl IRT_TRUE 24.

(** ** Instructions *)

Record IRIns := mkIns { op1 : Z; op2 : Z; ot : Z; prev : Z }.

#[global] Instance IRIns_eq_dec : EqDecision IRIns.
Proof. solve_decision. Defined.

Definition ins_new (ot op1 op2 : Z) : IRIns := mkIns (uwrap 16 op1) (uwrap 16 op2) ot 0.

Definition ins_op (i : IRIns) : option IROp.t := from_u8 (uwrap 8 (Z.shiftr (ot i) 8)).
Definition set_op (o : IROp.t) (i : IRIns) : IRIns :=
  mkIns (op1 i) (op2 i) (Z.lor (Z.land (ot i) 0x00ff) (Z.shiftl (enum_code o) 8)) (prev i).
Definition ins_t (i : IRIns) : Z := uwrap 8 (ot i).
Definition set_t (t : Z) (i : IRIns) : IRIns :=
  mkIns (op1 i) (op2 i) (Z.lor (Z.land (ot i) 0xff00) t) (prev i).
Definition set_op1 (r : Z) (i : IRIns) : IRIns := mkIns r (op2 i) (ot i) (prev i).
Definition set_op2 (r : Z) (i : IRIns) : IRIns := mkIns (op1 i) r (ot i) (prev i).
Definition set_prev (r : Z) (i : IRIns) : IRIns := mkIns (op1 i) (op2 i) (ot i) r.

(** op1 and op2 as one 32 bit key. *)
Definition op12 (i : IRIns) : Z := Z.lor (op1 i) (Z.shiftl (op2 i) 16).
(** The payload of a KINT. *)
Definition ins_i (i : IRIns) : Z := swrap 32 (op12 i).
Definition set_i (k : Z) (i : IRIns) : IRIns :=
  mkIns (uwrap 16 (uwrap 32 k)) (uwrap 16 (Z.shiftr (uwrap 32 k) 16)) (ot i) (prev i).
Definition is_guard (i : IRIns) : bool := irt_isguard (ins_t i).
(** A store or an op with a non-weak guard has a side effect. *)
Definition sideeff (i : IRIns) : option bool :=
  let? o := ins_op i in
  let? m := ir_mode o in
  Some (IRM_S <=? Z.land (Z.lor (ins_t i) (unot 8 IRT_GUARD)) m).
Definition is_marked (i : IRIns) : bool := negb (Z.land (ins_t i) IRT_MARK =? 0).
Definition with_ot (o : Z) (i : IRIns) : IRIns := mkIns (op1 i) (op2 i) o (prev i).
Definition set_mark (i : IRIns) : IRIns := with_ot (Z.lor (ot i) IRT_MARK) i.
Definition clear_mark (i : IRIns) : IRIns := with_ot (Z.land (ot i) (unot 16 IRT_MARK)) i.
Definition set_phi (i : IRIns) : IRIns := with_ot (Z.lor (ot i) IRT_ISPHI) i.
Definition clear_phi (i : IRIns) : IRIns := with_ot (Z.land (ot i) (unot 16 IRT_ISPHI)) i.
Definition set_nop (_ : IRIns) : IRIns := mkIns 0 0 (irt IROp.NOP IRT_NIL) 0.

(** ** The buffer *)

Record IrBuf := mkBuf {
  ins : list IRIns;
  kk : list IRIns;
  k64s : list Z;
  chain : list Z;
  guardemit : Z;
}.

Definition with_ins (b : IrBuf) (l : list IRIns) : IrBuf :=
  mkBuf l (kk b) (k64s b) (chain b) (guardemit b).
Definition with_chain (b : IrBuf) (c : list Z) : IrBuf :=
  mkBuf (ins b) (kk b) (k64s b) c (guardemit b).

(** The constants nil, false, true at the fixed refs, and BASE. *)
Definition buf_new (parent exitno : Z) : IrBuf :=
  mkBuf [ins_new (irt IROp.BASE IRT_PGC) parent exitno]
    ((fun t => ins_new (irt IROp.KPRI t) 0 0) <$> [IRT_NIL; IRT_FALSE; IRT_TRUE])
    [0; 0; 0] (replicate (Z.to_nat IR_MAX) 0) 0.

Definition nins (b : IrBuf) : Z := REF_BIAS + zlen (ins b).
Definition nk (b : IrBuf) : Z := REF_BIAS - zlen (kk b).

Definition ir (b : IrBuf) (r : Z) : option IRIns :=
  if REF_BIAS <=? r then znth (ins b) (r - REF_BIAS) else znth (kk b) (REF_BIAS - 1 - r).

Definition ir_mut (b : IrBuf) (r : Z) (f : IRIns -> IRIns) : option IrBuf :=
  let? i := ir b r in
  if REF_BIAS <=? r then
    let? l := zset (ins b) (r - REF_BIAS) (f i) in Some (with_ins b l)
  else
    let? l := zset (kk b) (REF_BIAS - 1 - r) (f i) in
    Some (mkBuf (ins b) l (k64s b) (chain b) (guardemit b)).

Definition k64_val (b : IrBuf) (r : Z) : option Z := znth (k64s b) (REF_BIAS - 1 - r).
Definition knum_val (b : IrBuf) (r : Z) : option f64 := k64_val b r.

Definition const_iter (b : IrBuf) : list IRIns := kk b.

Definition kgc_values (b : IrBuf) : list Z :=
  (zip (kk b) (k64s b)) ≫= fun '(i, bits) =>
    if decide (ins_op i = Some IROp.KGC) then [bits] else [].

Definition push_k (b : IrBuf) (i : IRIns) (payload : Z) : IrBuf * Z :=
  let b' := mkBuf (ins b) (kk b ++ [i]) (k64s b ++ [payload]) (chain b) (guardemit b) in
  (b', nk b').

Definition chain_at (b : IrBuf) (o : IROp.t) : option Z := znth (chain b) (enum_code o).
Definition set_chain (b : IrBuf) (o : IROp.t) (r : Z) : option IrBuf :=
  let? c := zset (chain b) (enum_code o) (uwrap 16 r) in Some (with_chain b c).

(** The search of a chain of constants, for the payload [hit] accepts. *)
Fixpoint k_find (fuel : nat) (b : IrBuf) (hit : Z -> option bool) (r : Z) : option (option Z) :=
  match fuel with
  | O => None
  | S fuel =>
      if r =? 0 then Some None
      else
        let? h := hit r in
        if h then Some (Some r)
        else let? i := ir b r in k_find fuel b hit (prev i)
  end.

(** Append a constant at the head of its chain. *)
Definition k_push (b : IrBuf) (o : IROp.t) (i : IRIns) (payload : Z) : option (IrBuf * Z) :=
  let? c := chain_at b o in
  let '(b, r) := push_k b (set_prev c i) payload in
  let? b := set_chain b o r in
  Some (b, r).

Definition k_fuel (b : IrBuf) : nat := S (length (kk b)).

Definition kint (b : IrBuf) (kv : Z) : option (IrBuf * Z) :=
  let? c := chain_at b IROp.KINT in
  let? r := k_find (k_fuel b) b (fun r => let? i := ir b r in Some (ins_i i =? kv)) c in
  match r with
  | Some r => Some (b, tref r IRT_INT)
  | None =>
      let i := set_i kv (ins_new (irt IROp.KINT IRT_INT) 0 0) in
      let? ' (b, r) := k_push b IROp.KINT i 0 in
      Some (b, tref r IRT_INT)
  end.

Definition k64 (b : IrBuf) (o : IROp.t) (u : Z) : option (IrBuf * Z) :=
  let t := if decide (o = IROp.KNUM) then IRT_NUM else IRT_I64 in
  let? c := chain_at b o in
  let? r := k_find (k_fuel b) b (fun r => let? v := k64_val b r in Some (v =? u)) c in
  match r with
  | Some r => Some (b, tref r t)
  | None =>
      let? ' (b, r) := k_push b o (ins_new (irt o t) 0 0) u in
      Some (b, tref r t)
  end.

Definition knum (b : IrBuf) (n : f64) : option (IrBuf * Z) := k64 b IROp.KNUM n.
Definition knum_u64 (b : IrBuf) (u : Z) : option (IrBuf * Z) := k64 b IROp.KNUM u.
Definition kint64 (b : IrBuf) (u : Z) : option (IrBuf * Z) := k64 b IROp.KINT64 u.
Definition knum_one (b : IrBuf) : option (IrBuf * Z) := knum b (f64_of_int 1).

Definition kgc (b : IrBuf) (bits t : Z) : option (IrBuf * Z) :=
  let? c := chain_at b IROp.KGC in
  let? r := k_find (k_fuel b) b (fun r => let? v := k64_val b r in Some (v =? bits)) c in
  match r with
  | Some r => Some (b, tref r t)
  | None =>
      let? ' (b, r) := k_push b IROp.KGC (ins_new (irt IROp.KGC t) 0 0) bits in
      Some (b, tref r t)
  end.

(** Emit without any optimization. *)
Definition emit_ins (b : IrBuf) (fins : IRIns) : option (IrBuf * Z) :=
  let? o := ins_op fins in
  let r := nins b in
  let? c := chain_at b o in
  let i := set_prev c fins in
  let? b := set_chain b o r in
  Some (mkBuf (ins b ++ [i]) (kk b) (k64s b) (chain b) (Z.lor (guardemit b) (ins_t i)),
        tref r (ins_t i)).

Fixpoint rollback_loop (fuel : nat) (b : IrBuf) (r : Z) : option IrBuf :=
  match fuel with
  | O => None
  | S fuel =>
      if r <? nins b then
        let? i := last (ins b) in
        let b := with_ins b (take (length (ins b) - 1) (ins b)) in
        let? o := ins_op i in
        let? c := zset (chain b) (enum_code o) (prev i) in
        rollback_loop fuel (with_chain b c) r
      else Some b
  end.

(** Undo every instruction emitted at or above [r]. *)
Definition rollback (b : IrBuf) (r : Z) : option IrBuf := rollback_loop (S (length (ins b))) b r.
