(* ===== verification/IrSpec.v ===== *)
(** * The IR buffer: encodings, interning, rollback *)

From Stdlib Require Import ZArith Lia Bool.
From stdpp Require Import base decidable numbers option list.
From S2P Require Import Prelude Float64 Ir.

(** ** Encodings *)

Lemma irop_code_range (o : IROp.t) : 0 <= enum_code o < 2 ^ 8.
Proof. destruct o; cbn; lia. Qed.

Lemma irt_low o t : urange 8 t -> uwrap 8 (irt o t) = t.
Proof.
  unfold urange. intros Ht. unfold uwrap, irt. pose proof (irop_code_range o). zbound t 8. zbits.
Qed.

Lemma irt_high o t : urange 8 t -> uwrap 8 (Z.shiftr (irt o t) 8) = enum_code o.
Proof.
  unfold urange. intros Ht. unfold uwrap, irt. pose proof (irop_code_range o) as Hc.
  set (c := enum_code o) in *. clearbody c. zbits.
Qed.

Lemma from_u8_code (o : IROp.t) : from_u8 (enum_code o) = Some o.
Proof. apply enum_code_nth. Qed.

Lemma ins_op_irt o t a b p : urange 8 t -> ins_op (mkIns a b (irt o t) p) = Some o.
Proof. intros Ht. unfold ins_op. cbn [ot]. rewrite irt_high by done. apply from_u8_code. Qed.

Lemma ins_t_irt o t a b p : urange 8 t -> ins_t (mkIns a b (irt o t) p) = t.
Proof. intros Ht. unfold ins_t. cbn [ot]. by apply irt_low. Qed.

Lemma set_op_op o i : ins_op (set_op o i) = Some o.
Proof.
  unfold ins_op, set_op. cbn [ot]. rewrite <- from_u8_code. f_equal. unfold uwrap.
  pose proof (irop_code_range o) as Hc. set (c := enum_code o) in *. clearbody c.
  change 0x00ff with (Z.ones 8). zbits.
Qed.

Lemma set_op_t o i : ins_t (set_op o i) = ins_t i.
Proof.
  unfold ins_t, set_op, uwrap. cbn [ot].
  pose proof (irop_code_range o) as Hc. set (c := enum_code o) in *. clearbody c.
  change 0x00ff with (Z.ones 8). zbits.
Qed.

Lemma tref_ref_tref r t : urange 16 r -> urange 8 t -> tref_ref (tref r t) = r.
Proof.
  unfold urange. intros Hr Ht. unfold tref_ref, tref. change TREF_REFMASK with (Z.ones 16).
  rewrite Z.land_ones by lia. unfold uwrap. rewrite Z.shiftl_mul_pow2 by lia.
  rewrite (Z.mod_small (t * 2 ^ 24)) by lia. rewrite (Z.mod_small (r + _)) by lia.
  symmetry. apply Z.mod_unique with (t * 2 ^ 8); lia.
Qed.

Lemma tref_t_tref r t : urange 16 r -> urange 8 t -> tref_t (tref r t) = t.
Proof.
  unfold urange. intros Hr Ht. unfold tref_t, tref, uwrap. rewrite Z.shiftl_mul_pow2 by lia.
  rewrite (Z.mod_small (t * 2 ^ 24)) by lia. rewrite (Z.mod_small (r + _)) by lia.
  rewrite Z.shiftr_div_pow2 by lia.
  assert ((r + t * 2 ^ 24) / 2 ^ 24 = t) as -> by (symmetry; apply Z.div_unique with r; lia).
  apply Z.mod_small. lia.
Qed.

Lemma op12_i k i : srange 32 k -> ins_i (set_i k i) = k.
Proof.
  intros Hk. unfold ins_i, op12, set_i. cbn [op1 op2].
  assert (Z.lor (uwrap 16 (uwrap 32 k)) (Z.shiftl (uwrap 16 (Z.shiftr (uwrap 32 k) 16)) 16) = uwrap 32 k) as ->.
  { pose proof (uwrap_range 32 k ltac:(lia)) as Hw. set (u := uwrap 32 k) in *. clearbody u.
    unfold urange, uwrap in *. zbits. }
  rewrite swrap_uwrap by lia. by apply swrap_small.
Qed.

(** ** Mark bits *)

Lemma marked_set_mark i : is_marked (set_mark i) = true.
Proof.
  unfold is_marked, ins_t, set_mark, with_ot, uwrap. cbn [ot]. apply negb_true_iff, Z.eqb_neq. intros E.
  apply (f_equal (fun z => Z.testbit z 5)) in E. revert E.
  rewrite Z.land_spec, tb_mod, Z.lor_spec by lia. change (Z.testbit IRT_MARK 5) with true.
  rewrite orb_true_r. done.
Qed.

Lemma marked_clear_mark i : is_marked (clear_mark i) = false.
Proof.
  unfold is_marked, ins_t, clear_mark, with_ot, uwrap. cbn [ot]. apply negb_false_iff, Z.eqb_eq.
  change (unot 16 IRT_MARK) with 0xffdf. change IRT_MARK with (Z.shiftl 1 5).
  apply Z.bits_inj'. intros n Hn. rewrite Z.land_spec, Z.testbit_0_l.
  destruct (decide (n = 5)) as [->|Hn5].
  - rewrite tb_mod, Z.land_spec by lia. change (Z.testbit 0xffdf 5) with false.
    by rewrite !andb_false_r.
  - rewrite Z.shiftl_1_l, Z.pow2_bits_false by lia. by rewrite andb_false_r.
Qed.

Lemma ot_op_land m i : (forall n, 8 <= n < 16 -> Z.testbit m n = true) ->
  ins_op (with_ot (Z.land (ot i) m) i) = ins_op i.
Proof.
  intros Hm. unfold ins_op, with_ot. cbn [ot]. f_equal. unfold uwrap.
  apply Z.bits_inj'. intros n Hn. rewrite !tb_mod, !tb_shiftr, Z.land_spec by lia.
  destruct (Z.ltb_spec n 8); [|done]. destruct (Z.leb_spec 0 n); [|done]. cbn [andb].
  rewrite (Hm (n + 8)) by lia. by rewrite andb_true_r.
Qed.

Lemma ot_op_lor m i : (forall n, 8 <= n < 16 -> Z.testbit m n = false) ->
  ins_op (with_ot (Z.lor (ot i) m) i) = ins_op i.
Proof.
  intros Hm. unfold ins_op, with_ot. cbn [ot]. f_equal. unfold uwrap.
  apply Z.bits_inj'. intros n Hn. rewrite !tb_mod, !tb_shiftr, Z.lor_spec by lia.
  destruct (Z.ltb_spec n 8); [|done]. destruct (Z.leb_spec 0 n); [|done]. cbn [andb].
  rewrite (Hm (n + 8)) by lia. by rewrite orb_false_r.
Qed.

(** The bits 8 to 15 one by one. *)
Ltac octet :=
  let n := fresh in let H := fresh in
  intros n H;
  assert (n = 8 \/ n = 9 \/ n = 10 \/ n = 11 \/ n = 12 \/ n = 13 \/ n = 14 \/ n = 15) by lia;
  by intuition subst.

Lemma clear_mark_op i : ins_op (clear_mark i) = ins_op i.
Proof. apply ot_op_land. octet. Qed.

Lemma set_mark_op i : ins_op (set_mark i) = ins_op i.
Proof. apply ot_op_lor. octet. Qed.

(** The packed words of the IR are lossless: opcode and type share [ot],
    a tagged reference keeps its reference and its type, a KINT its 32-bit
    payload; and marking, like switching the opcode, leaves the rest alone. *)
Theorem ir_packing (o o' : IROp.t) (t r k a b : Z)
    (Ht : urange 8 t) (Hr : urange 16 r) (Hk : srange 32 k) :
  let i := ins_new (irt o t) a b in
  ins_op i = Some o /\ ins_t i = t /\
  ins_op (set_op o' i) = Some o' /\ ins_t (set_op o' i) = t /\
  ins_i (set_i k i) = k /\ ins_op (set_i k i) = Some o /\
  tref_ref (tref r t) = r /\ tref_t (tref r t) = t /\
  is_marked (set_mark i) = true /\ is_marked (clear_mark i) = false /\
  ins_op (clear_mark i) = Some o.
Proof.
  intros i.
  assert (Hop : ins_op i = Some o) by (by apply ins_op_irt).
  assert (Hit : ins_t i = t) by (by apply ins_t_irt).
  split; [exact Hop|]. split; [exact Hit|].
  split; [apply set_op_op|]. split; [by rewrite set_op_t|].
  split; [by apply op12_i|]. split; [exact Hop|].
  split; [by apply tref_ref_tref|]. split; [by apply tref_t_tref|].
  split; [apply marked_set_mark|]. split; [apply marked_clear_mark|].
  by rewrite clear_mark_op.
Qed.

Lemma ir_packing_witness :
  ins_op (set_op IROp.SUB (ins_new (irt IROp.ADD IRT_INT) 1 2)) = Some IROp.SUB /\
  ins_i (set_i (-5) (ins_new (irt IROp.ADD IRT_INT) 1 2)) = -5.
Proof.
  assert (Ht : urange 8 IRT_INT) by (unfold urange; cbv; split; congruence).
  assert (Hr : urange 16 0x8001) by (unfold urange; cbv; split; congruence).
  assert (Hk : srange 32 (-5)) by (unfold srange; cbv; split; congruence).
  destruct (ir_packing IROp.ADD IROp.SUB IRT_INT 0x8001 (-5) 1 2 Ht Hr Hk)
    as (_ & _ & E1 & _ & E2 & _).
  split; [exact E1|exact E2].
Defined.
