(* ===== verification/IrInv.v ===== *)
(** * The IR buffer: the opcode chains and interning

    The invariant of [IrBuf]: for every constant opcode its chain visits
    exactly the constants of that opcode, latest first, and no payload twice;
    for every opcode of the instruction area its chain visits exactly that
    opcode's instructions.  Interning is total, denotes its payload and keeps
    the invariant; emission extends the buffer; rollback truncates it. *)

From Stdlib Require Import ZArith Lia Bool.
From stdpp Require Import base decidable numbers option list.
From S2P Require Import Prelude Float64 Ir IrSpec.

(** ** References as positions *)

Definition kref (j : nat) : Z := REF_BIAS - 1 - Z.of_nat j.
Definition iref (j : nat) : Z := REF_BIAS + Z.of_nat j.

Lemma ir_kref b j : ir b (kref j) = kk b !! j.
Proof.
  unfold ir, kref, znth. destruct (Z.leb_spec REF_BIAS (REF_BIAS - 1 - Z.of_nat j)); [lia|].
  destruct (Z.ltb_spec (REF_BIAS - 1 - (REF_BIAS - 1 - Z.of_nat j)) 0); [lia|]. f_equal. lia.
Qed.

Lemma ir_iref b j : ir b (iref j) = ins b !! j.
Proof.
  unfold ir, iref, znth. destruct (Z.leb_spec REF_BIAS (REF_BIAS + Z.of_nat j)); [|lia].
  destruct (Z.ltb_spec (REF_BIAS + Z.of_nat j - REF_BIAS) 0); [lia|]. f_equal. lia.
Qed.

Lemma k64_val_kref b j : k64_val b (kref j) = k64s b !! j.
Proof.
  unfold k64_val, kref, znth. destruct (Z.ltb_spec (REF_BIAS - 1 - (REF_BIAS - 1 - Z.of_nat j)) 0); [lia|].
  f_equal. lia.
Qed.

Lemma nk_kref b : nk b = kref (length (kk b)) + 1.
Proof. unfold nk, kref, zlen. lia. Qed.

(** Every reference into the buffer is a position. *)
Lemma ref_cases b r : nk b <= r < nins b ->
  (exists j, r = kref j /\ (j < length (kk b))%nat) \/
  (exists j, r = iref j /\ (j < length (ins b))%nat).
Proof.
  unfold nk, nins, zlen. intros Hr. destruct (Z.ltb_spec r REF_BIAS).
  - left. exists (Z.to_nat (REF_BIAS - 1 - r)). unfold kref. lia.
  - right. exists (Z.to_nat (r - REF_BIAS)). unfold iref. lia.
Qed.

Lemma ir_valid b r : nk b <= r < nins b -> exists i, ir b r = Some i.
Proof.
  intros [(j & -> & Hj)|(j & -> & Hj)]%ref_cases; rewrite ?ir_kref, ?ir_iref;
    by apply lookup_lt_is_Some_2.
Qed.

Lemma ir_Some_valid b r i : ir b r = Some i -> nk b <= r < nins b.
Proof.
  unfold ir, nk, nins. destruct (Z.leb_spec REF_BIAS r); intros Hi%znth_Some_lt;
    pose proof (zlen_nonneg (kk b)); pose proof (zlen_nonneg (ins b)); lia.
Qed.

(** ** Chains *)

(** The reference of the latest of the first [n] entries with opcode [o]. *)
Fixpoint latest (f : nat -> Z) (o : IROp.t) (l : list IRIns) (n : nat) : Z :=
  match n with
  | O => 0
  | S n =>
      match l !! n with
      | Some i => if decide (ins_op i = Some o) then f n else latest f o l n
      | None => latest f o l n
      end
  end.

Lemma latest_app f o l k n : (n <= length l)%nat -> latest f o (l ++ k) n = latest f o l n.
Proof.
  induction n as [|n IH]; intros Hn; [done|]. cbn [latest].
  rewrite lookup_app_l by lia. rewrite IH by lia. done.
Qed.

Lemma latest_take f o l m n : (n <= m)%nat -> latest f o (take m l) n = latest f o l n.
Proof.
  induction n as [|n IH]; intros Hn; [done|]. cbn [latest].
  rewrite lookup_take_lt by lia. rewrite IH by lia. done.
Qed.

Lemma latest_snoc f o l i :
  latest f o (l ++ [i]) (S (length l)) =
  if decide (ins_op i = Some o) then f (length l) else latest f o l (length l).
Proof.
  cbn [latest]. rewrite list_lookup_middle by done.
  destruct (decide _); [done|]. by apply latest_app.
Qed.

Definition cst_op (o : IROp.t) : bool :=
  match o with IROp.KINT | IROp.KGC | IROp.KNUM | IROp.KINT64 => true | _ => false end.

(** Opcodes whose instructions are not all on their chain: the BASE seed, the
    NOPs, and ASTORE, whose dead instances are overwritten in place. *)
Definition unchained (o : IROp.t) : bool :=
  match o with IROp.BASE | IROp.NOP | IROp.ASTORE => true | _ => false end.

Definition ins_chained (o : IROp.t) : bool := negb (cst_op o) && negb (unchained o).

(** What a constant is interned by. *)
Definition payload (b : IrBuf) (o : IROp.t) (j : nat) : option Z :=
  if decide (o = IROp.KINT) then ins_i <$> kk b !! j else k64s b !! j.

Record ir_wf (b : IrBuf) : Prop := {
  wf_chain : zlen (chain b) = IR_MAX;
  wf_k64 : length (k64s b) = length (kk b);
  wf_nk : zlen (kk b) < 0x8000;
  wf_nins : zlen (ins b) <= 0x7fff;
  wf_base : exists i, ins b !! 0%nat = Some i /\ ins_op i = Some IROp.BASE;
  wf_ops : forall j i, ins b !! j = Some i ->
    (exists o, ins_op i = Some o /\ cst_op o = false) /\ urange 16 (op1 i) /\ urange 16 (op2 i);
  wf_kchain : forall o, cst_op o = true ->
    chain_at b o = Some (latest kref o (kk b) (length (kk b)));
  wf_kprev : forall o j i, cst_op o = true -> kk b !! j = Some i -> ins_op i = Some o ->
    prev i = latest kref o (kk b) j;
  wf_kuniq : forall o j j' i i', cst_op o = true -> kk b !! j = Some i -> kk b !! j' = Some i' ->
    ins_op i = Some o -> ins_op i' = Some o -> payload b o j = payload b o j' -> j = j';
  wf_ichain : forall o, ins_chained o = true ->
    chain_at b o = Some (latest iref o (ins b) (length (ins b)));
  wf_iprev : forall o j i, ins_chained o = true -> ins b !! j = Some i -> ins_op i = Some o ->
    prev i = latest iref o (ins b) j;
}.

Lemma chain_at_Some b o : ir_wf b -> exists c, chain_at b o = Some c.
Proof.
  intros Hwf. apply znth_lt_Some. rewrite (wf_chain _ Hwf).
  destruct o; vm_compute; split; congruence.
Qed.

Lemma enum_code_inj (o o' : IROp.t) : enum_code o = enum_code o' -> o = o'.
Proof.
  intros E. pose proof (enum_code_nth o) as H. rewrite E, enum_code_nth in H. congruence.
Qed.

Lemma chain_at_set b o r b' o' : set_chain b o r = Some b' ->
  chain_at b' o' = if decide (o' = o) then Some (uwrap 16 r) else chain_at b o'.
Proof.
  unfold set_chain. destruct (zset _ _ _) as [c|] eqn:E; [|done]. intros [= <-].
  unfold chain_at, with_chain. cbn [chain]. rewrite (znth_zset _ _ _ _ _ E).
  destruct (decide (o' = o)) as [->|Hne]; [by rewrite decide_True|].
  rewrite decide_False; [done|]. intros ?%enum_code_inj. done.
Qed.

Lemma set_chain_Some b o r : ir_wf b -> exists c,
  set_chain b o r = Some (with_chain b c) /\ zlen c = IR_MAX.
Proof.
  intros Hwf. destruct (chain_at_Some b o Hwf) as [x Hx]. apply znth_Some_lt in Hx.
  destruct (zset_lt (chain b) (enum_code o) (uwrap 16 r) Hx) as [c Hc].
  exists c. unfold set_chain. rewrite Hc. split; [done|].
  rewrite (zlen_zset _ _ _ _ Hc). apply (wf_chain _ Hwf).
Qed.

(** ** Searching and extending a chain of constants *)

Lemma kref_pos b j : ir_wf b -> (j < length (kk b))%nat -> kref j <> 0.
Proof. intros Hwf Hj. pose proof (wf_nk _ Hwf). unfold kref, zlen, REF_BIAS in *. lia. Qed.

(** [hit] decides the property [h] on the constants of opcode [o]. *)
Definition hits (b : IrBuf) (o : IROp.t) (hit : Z -> option bool) (h : nat -> bool) : Prop :=
  forall j i, kk b !! j = Some i -> ins_op i = Some o -> hit (kref j) = Some (h j).

Lemma k_find_spec b o hit h n fuel : ir_wf b -> cst_op o = true -> hits b o hit h ->
  (n <= length (kk b))%nat -> (n < fuel)%nat ->
  exists r, k_find fuel b hit (latest kref o (kk b) n) = Some r /\
    match r with
    | Some r => exists j i, r = kref j /\ (j < n)%nat /\ kk b !! j = Some i /\
                            ins_op i = Some o /\ h j = true
    | None => forall j i, (j < n)%nat -> kk b !! j = Some i -> ins_op i = Some o -> h j = false
    end.
Proof.
  intros Hwf Ho Hh. revert fuel. induction n as [|n IH]; intros fuel Hn Hf.
  - destruct fuel as [|fuel]; [lia|]. exists None. cbn. split; [done|]. intros; lia.
  - cbn [latest]. destruct (lookup_lt_is_Some_2 (kk b) n) as [i Hi]; [lia|]. rewrite Hi.
    destruct (decide (ins_op i = Some o)) as [Hio|Hio].
    + destruct fuel as [|fuel]; [lia|]. cbn [k_find].
      rewrite (proj2 (Z.eqb_neq _ _)) by (apply (kref_pos b); [done|lia]).
      rewrite (Hh n i Hi Hio). cbn. destruct (h n) eqn:Hhn.
      * exists (Some (kref n)). split; [done|]. exists n, i. auto with lia.
      * rewrite ir_kref, Hi. cbn. rewrite (wf_kprev _ Hwf o n i Ho Hi Hio).
        destruct (IH fuel ltac:(lia) ltac:(lia)) as (r & Hr & Hs). exists r. split; [done|].
        destruct r as [r|].
        -- destruct Hs as (j & i' & ? & ? & ?). exists j, i'. auto with lia.
        -- intros j i' Hj Hi' Hio'. destruct (decide (j = n)) as [->|]; [done|].
           apply (Hs j i'); auto with lia.
    + destruct (IH fuel ltac:(lia) ltac:(lia)) as (r & Hr & Hs). exists r. split; [done|].
      destruct r as [r|].
      * destruct Hs as (j & i' & ? & ? & ?). exists j, i'. auto with lia.
      * intros j i' Hj Hi' Hio'. destruct (decide (j = n)) as [->|]; [congruence|].
        apply (Hs j i'); auto with lia.
Qed.

(** [b'] has the instructions of [b] and at most [n] more constants. *)
Record kext (n : Z) (b b' : IrBuf) : Prop := {
  kext_ins : ins b' = ins b;
  kext_kk : kk b `prefix_of` kk b';
  kext_k64 : k64s b `prefix_of` k64s b';
  kext_len : zlen (kk b') <= zlen (kk b) + n;
  kext_chain : forall o, cst_op o = false -> chain_at b' o = chain_at b o;
  kext_guard : guardemit b' = guardemit b;
}.

Lemma kext_refl n b : 0 <= n -> kext n b b.
Proof. intros. by split; [..|lia| |]. Qed.

Lemma kext_trans n m b1 b2 b3 : kext n b1 b2 -> kext m b2 b3 -> kext (n + m) b1 b3.
Proof.
  intros [? ? ? ? Hc ?] [? ? ? ? Hc' ?]. split; try congruence; try by etrans.
  - lia.
  - intros o Ho. by rewrite Hc', Hc.
Qed.

Lemma set_prev_op c i : ins_op (set_prev c i) = ins_op i.
Proof. done. Qed.

Lemma lookup_snoc_inv {A} (l : list A) x j y : (l ++ [x]) !! j = Some y ->
  (j < length l)%nat /\ l !! j = Some y \/ j = length l /\ y = x.
Proof.
  intros H. destruct (decide (j < length l)%nat).
  - left. split; [done|]. by rewrite lookup_app_l in H by lia.
  - right. apply lookup_app_Some in H as [H|[? H]].
    + apply lookup_lt_Some in H. lia.
    + apply list_lookup_singleton_Some in H as [? ->]. split; [lia|done].
Qed.

Lemma set_chain_pushed b o i p r : ir_wf b -> exists c,
  set_chain (mkBuf (ins b) (kk b ++ [i]) (k64s b ++ [p]) (chain b) (guardemit b)) o r =
    Some (mkBuf (ins b) (kk b ++ [i]) (k64s b ++ [p]) c (guardemit b)) /\ zlen c = IR_MAX /\
  forall o', znth c (enum_code o') = if decide (o' = o) then Some (uwrap 16 r) else chain_at b o'.
Proof.
  intros Hwf. destruct (set_chain_Some b o r Hwf) as (c & Hc & Hlen). exists c.
  pose proof (fun o' => chain_at_set _ _ _ _ o' Hc) as Hat.
  unfold set_chain, with_chain in *. cbn [ins kk k64s chain guardemit] in *.
  destruct (zset _ _ _) as [c'|]; [|done]. cbn in *. injection Hc as ->. done.
Qed.

Definition kpay (o : IROp.t) (i : IRIns) (p : Z) : Z := if decide (o = IROp.KINT) then ins_i i else p.

Lemma payload_snoc b o i p c g j : length (k64s b) = length (kk b) ->
  payload (mkBuf (ins b) (kk b ++ [i]) (k64s b ++ [p]) c g) o j =
  if decide (j = length (kk b)) then Some (kpay o i p) else payload b o j.
Proof.
  intros Hlen. unfold payload, kpay. cbn [kk k64s].
  destruct (decide (j = length (kk b))) as [->|Hj].
  - rewrite list_lookup_middle by done. rewrite list_lookup_middle by done. by destruct (decide _).
  - destruct (decide (j < length (kk b))%nat).
    + by rewrite !lookup_app_l by lia.
    + rewrite !lookup_ge_None_2; rewrite ?length_app; cbn [length]; try lia. done.
Qed.

Lemma payload_lt b o j v : ir_wf b -> payload b o j = Some v -> (j < length (kk b))%nat.
Proof.
  intros Hwf. unfold payload. destruct (decide _).
  - intros (i & Hi & _)%fmap_Some. by apply lookup_lt_Some in Hi.
  - intros Hi%lookup_lt_Some. by rewrite (wf_k64 _ Hwf) in Hi.
Qed.

(** A new constant, of a payload no constant of its opcode has. *)
Lemma k_push_spec b o i p : ir_wf b -> cst_op o = true -> ins_op i = Some o ->
  zlen (kk b) < 0x7fff ->
  (forall j i', kk b !! j = Some i' -> ins_op i' = Some o -> payload b o j <> Some (kpay o i p)) ->
  exists b' c, k_push b o i p = Some (b', kref (length (kk b))) /\ ir_wf b' /\ kext 1 b b' /\
    kk b' = kk b ++ [set_prev c i] /\ k64s b' = k64s b ++ [p] /\ chain_at b o = Some c.
Proof.
  intros Hwf Ho Hi Hroom Hnew. pose proof (wf_kchain _ Hwf o Ho) as Hc.
  set (c0 := latest _ _ _ _) in Hc.
  destruct (set_chain_pushed b o (set_prev c0 i) p (kref (length (kk b))) Hwf) as (c & Hset & Hlen & Hat).
  set (b' := mkBuf (ins b) (kk b ++ [set_prev c0 i]) (k64s b ++ [p]) c (guardemit b)) in *.
  exists b', c0.
  assert (Hu : uwrap 16 (kref (length (kk b))) = kref (length (kk b))).
  { unfold uwrap, kref, zlen, REF_BIAS in *. rewrite Z.mod_small by lia. done. }
  rewrite Hu in Hat. pose proof (wf_k64 _ Hwf) as Hk64.
  assert (Hne : forall o', ins_chained o' = true -> o' <> o) by (by intros ? ? ->; destruct o).
  split.
  { unfold k_push. rewrite Hc. cbn. unfold push_k, nk. cbn [kk].
    replace (REF_BIAS - zlen (kk b ++ [set_prev c0 i])) with (kref (length (kk b)))
      by (unfold kref, zlen; rewrite length_app; cbn [length]; lia).
    rewrite Hset. done. }
  split; [|split; [|done]].
  - split; unfold b'; cbn [ins kk k64s chain guardemit].
    + done.
    + rewrite !length_app. cbn [length]. lia.
    + unfold zlen in *. rewrite length_app. cbn [length]. lia.
    + apply (wf_nins _ Hwf).
    + apply (wf_base _ Hwf).
    + apply (wf_ops _ Hwf).
    + intros o' Ho'. unfold chain_at. cbn [chain]. rewrite Hat, length_app, Nat.add_1_r, latest_snoc.
      rewrite set_prev_op, Hi. destruct (decide (o' = o)) as [->|].
      * by rewrite decide_True.
      * rewrite decide_False by congruence. by apply wf_kchain.
    + intros o' j i' Ho' [(Hj & Hi')|(-> & ->)]%lookup_snoc_inv Hop.
      * rewrite latest_app by lia. by apply (wf_kprev _ Hwf).
      * rewrite latest_app by lia. rewrite set_prev_op in Hop. cbn [prev set_prev].
        assert (o' = o) as -> by congruence. done.
    + intros o' j j' i1 i2 Ho' H1 H2 Hop1 Hop2.
      rewrite !payload_snoc by done.
      apply lookup_snoc_inv in H1 as [(Hj & H1)|(-> & ->)], H2 as [(Hj' & H2)|(-> & ->)].
      * rewrite !decide_False by lia. by apply (wf_kuniq _ Hwf o' j j' i1 i2).
      * rewrite decide_False by lia. rewrite decide_True by done. rewrite set_prev_op in Hop2.
        assert (o' = o) as -> by congruence. intros E. by destruct (Hnew j i1 H1 Hop1).
      * rewrite decide_True by done. rewrite decide_False by lia. rewrite set_prev_op in Hop1.
        assert (o' = o) as -> by congruence. intros E. symmetry in E. by destruct (Hnew j' i2 H2 Hop2).
      * done.
    + intros o' Ho'. unfold chain_at. cbn [chain]. rewrite Hat, decide_False by auto.
      by apply (wf_ichain _ Hwf).
    + apply (wf_iprev _ Hwf).
  - split; unfold b'; cbn [ins kk k64s chain guardemit]; try done.
    + by eexists.
    + by eexists.
    + unfold zlen. rewrite length_app. cbn [length]. lia.
    + intros o' Ho'. unfold chain_at at 1. cbn [chain]. rewrite Hat, decide_False; [done|].
      intros ->. congruence.
Qed.

(** ** Interning *)

(** [r] is the constant of opcode [o] with payload [v]. *)
Definition denotes (b : IrBuf) (o : IROp.t) (r v : Z) : Prop :=
  exists j i, r = kref j /\ kk b !! j = Some i /\ ins_op i = Some o /\ payload b o j = Some v.

Lemma denotes_unique b o r r' v : ir_wf b -> cst_op o = true ->
  denotes b o r v -> denotes b o r' v -> r = r'.
Proof.
  intros Hwf Ho (j & i & -> & Hi & Hop & Hp) (j' & i' & -> & Hi' & Hop' & Hp').
  f_equal. apply (wf_kuniq _ Hwf o j j' i i'); congruence.
Qed.

Lemma denotes_valid b o r v : denotes b o r v -> nk b <= r < REF_BIAS.
Proof.
  intros (j & i & -> & Hi%lookup_lt_Some & _). unfold nk, kref, zlen. lia.
Qed.

(** The constant [r] of [b'] was there or has been appended to [b]. *)
Definition interned (b b' : IrBuf) (o : IROp.t) (i : IRIns) (r v : Z) : Prop :=
  ir_wf b' /\ kext 1 b b' /\ denotes b' o r v /\
  ((b' = b /\ denotes b o r v) \/ (exists c, kk b' = kk b ++ [set_prev c i])).

Lemma k_search b o v hit : ir_wf b -> cst_op o = true ->
  hits b o hit (fun j => bool_decide (payload b o j = Some v)) ->
  exists r, (let? c := chain_at b o in k_find (k_fuel b) b hit c) = Some r /\
    match r with Some r => denotes b o r v | None => forall r, ~ denotes b o r v end.
Proof.
  intros Hwf Ho Hh. rewrite (wf_kchain _ Hwf o Ho).
  destruct (k_find_spec b o hit _ (length (kk b)) (k_fuel b) Hwf Ho Hh) as (r & E & Hr);
    [done|unfold k_fuel; lia|]. exists r. split; [exact E|]. destruct r as [r|].
  - destruct Hr as (j & i' & -> & Hj & Hi' & Hop & Hp%bool_decide_eq_true). exists j, i'. auto.
  - intros r (j & i' & -> & Hj & Hop & Hp).
    specialize (Hr j i' (lookup_lt_Some _ _ _ Hj) Hj Hop). by apply bool_decide_eq_false in Hr.
Qed.

(** The common body of the interning functions. *)
Lemma intern_gen b o i p t hit : ir_wf b -> cst_op o = true -> ins_op i = Some o ->
  hits b o hit (fun j => bool_decide (payload b o j = Some (kpay o i p))) ->
  let body :=
    let? c := chain_at b o in
    let? r := k_find (k_fuel b) b hit c in
    match r with
    | Some r => Some (b, tref r t)
    | None => let? ' (b, r) := k_push b o i p in Some (b, tref r t)
    end in
  (forall r, denotes b o r (kpay o i p) -> body = Some (b, tref r t)) /\
  (zlen (kk b) < 0x7fff ->
   exists b' r, body = Some (b', tref r t) /\ interned b b' o i r (kpay o i p)).
Proof.
  intros Hwf Ho Hi Hh body.
  destruct (k_search b o (kpay o i p) hit Hwf Ho Hh) as (r & E & Hr).
  assert (body = match r with
    | Some r => Some (b, tref r t)
    | None => let? ' (b, r) := k_push b o i p in Some (b, tref r t)
    end) as ->.
  { unfold body. destruct (chain_at b o) as [c|]; [|done]. change (k_find (k_fuel b) b hit c = Some r) in E.
    by rewrite E. }
  clear E. destruct r as [r|]; split.
  - intros r' Hr'. by rewrite (denotes_unique b o r r' _ Hwf Ho Hr Hr').
  - intros _. exists b, r. split; [done|]. split; [done|]. split; [by apply kext_refl|]. auto.
  - intros r Hr'. by destruct (Hr r).
  - intros Hroom.
    destruct (k_push_spec b o i p Hwf Ho Hi Hroom) as (b' & c & -> & Hwf' & Hext & Hkk & Hk64 & _).
    { intros j i' Hj Hop Hp. apply (Hr (kref j)). by exists j, i'. }
    exists b', (kref (length (kk b))). split; [done|]. split; [done|]. split; [done|]. split.
    + exists (length (kk b)), (set_prev c i). split; [done|]. rewrite Hkk, list_lookup_middle by done.
      split; [done|]. split; [done|]. unfold payload, kpay.
      rewrite Hkk, Hk64. destruct (decide _).
      * by rewrite list_lookup_middle.
      * rewrite list_lookup_middle; [done|]. by rewrite (wf_k64 _ Hwf).
    + right. eauto.
Qed.

Definition kint_ins (k : Z) : IRIns := set_i k (ins_new (irt IROp.KINT IRT_INT) 0 0).
Definition k64_ins (o : IROp.t) : IRIns :=
  ins_new (irt o (if decide (o = IROp.KNUM) then IRT_NUM else IRT_I64)) 0 0.

Lemma ins_op_kint_ins k : ins_op (kint_ins k) = Some IROp.KINT.
Proof. done. Qed.

Lemma kint_hits b k : srange 32 k ->
  hits b IROp.KINT (fun r => let? i := ir b r in Some (ins_i i =? k))
    (fun j => bool_decide (payload b IROp.KINT j = Some (kpay IROp.KINT (kint_ins k) 0))).
Proof.
  intros Hk j i Hi Hop. rewrite ir_kref, Hi. cbn. f_equal. unfold payload, kpay.
  rewrite !(decide_True (P := IROp.KINT = IROp.KINT)) by done. rewrite Hi. cbn.
  unfold kint_ins. rewrite op12_i by done.
  destruct (Z.eqb_spec (ins_i i) k); symmetry; [apply bool_decide_eq_true|apply bool_decide_eq_false];
    congruence.
Qed.

Lemma k64_hits b o i u : ir_wf b -> cst_op o = true -> o <> IROp.KINT ->
  hits b o (fun r => let? v := k64_val b r in Some (v =? u))
    (fun j => bool_decide (payload b o j = Some (kpay o i u))).
Proof.
  intros Hwf Ho Hne j i' Hi Hop. rewrite k64_val_kref.
  destruct (lookup_lt_is_Some_2 (k64s b) j) as [v Hv].
  { rewrite (wf_k64 _ Hwf). by apply lookup_lt_Some in Hi. }
  rewrite Hv. cbn. f_equal. unfold payload, kpay. rewrite !decide_False by done. rewrite Hv.
  destruct (Z.eqb_spec v u); symmetry; [apply bool_decide_eq_true|apply bool_decide_eq_false];
    congruence.
Qed.

Lemma kpay_kint k : srange 32 k -> kpay IROp.KINT (kint_ins k) 0 = k.
Proof. intros. unfold kpay, kint_ins. cbn [decide]. rewrite decide_True by done. by apply op12_i. Qed.

Lemma kint_found b r k : ir_wf b -> srange 32 k -> denotes b IROp.KINT r k ->
  kint b k = Some (b, tref r IRT_INT).
Proof.
  intros Hwf Hk Hr. eapply (intern_gen b IROp.KINT (kint_ins k) 0 IRT_INT); try done.
  - by apply kint_hits.
  - by rewrite kpay_kint.
Qed.

Lemma kint_interned b k : ir_wf b -> zlen (kk b) < 0x7fff -> srange 32 k ->
  exists b' r, kint b k = Some (b', tref r IRT_INT) /\ interned b b' IROp.KINT (kint_ins k) r k.
Proof.
  intros Hwf Hroom Hk.
  destruct (proj2 (intern_gen b IROp.KINT (kint_ins k) 0 IRT_INT _ Hwf eq_refl eq_refl
    (kint_hits b k Hk)) Hroom) as (b' & r & E & Hr).
  rewrite kpay_kint in Hr by done. by exists b', r.
Qed.

Definition k64_type (o : IROp.t) : Z := if decide (o = IROp.KNUM) then IRT_NUM else IRT_I64.

Lemma k64_found b r o u : ir_wf b -> o = IROp.KNUM \/ o = IROp.KINT64 -> denotes b o r u ->
  k64 b o u = Some (b, tref r (k64_type o)).
Proof.
  intros Hwf Ho Hr.
  refine (proj1 (intern_gen b o (k64_ins o) u (k64_type o) _ Hwf _ _ _) r _);
    [by destruct Ho; subst|by destruct Ho; subst|apply k64_hits; by destruct Ho; subst|].
  unfold kpay. by rewrite decide_False by (destruct Ho; congruence).
Qed.

Lemma k64_interned b o u : ir_wf b -> zlen (kk b) < 0x7fff -> o = IROp.KNUM \/ o = IROp.KINT64 ->
  exists b' r, k64 b o u = Some (b', tref r (k64_type o)) /\ interned b b' o (k64_ins o) r u.
Proof.
  intros Hwf Hroom Ho. assert (kpay o (k64_ins o) u = u) as Hp.
  { unfold kpay. by rewrite decide_False by (destruct Ho; congruence). }
  assert (cst_op o = true /\ ins_op (k64_ins o) = Some o /\ o <> IROp.KINT) as (H1 & H2 & H3)
    by (by destruct Ho; subst).
  destruct (proj2 (intern_gen b o (k64_ins o) u (k64_type o) _ Hwf H1 H2
    (k64_hits b o _ u Hwf H1 H3)) Hroom) as (b' & r & E & Hr).
  rewrite Hp in Hr. by exists b', r.
Qed.

Lemma kgc_found b r u t : ir_wf b -> urange 8 t -> denotes b IROp.KGC r u ->
  kgc b u t = Some (b, tref r t).
Proof.
  intros Hwf Ht Hr.
  refine (proj1 (intern_gen b IROp.KGC (ins_new (irt IROp.KGC t) 0 0) u t _ Hwf _ _ _) r Hr);
    [done|by apply ins_op_irt|by apply k64_hits].
Qed.

Lemma kgc_interned b u t : ir_wf b -> zlen (kk b) < 0x7fff -> urange 8 t ->
  exists b' r, kgc b u t = Some (b', tref r t) /\
    interned b b' IROp.KGC (ins_new (irt IROp.KGC t) 0 0) r u.
Proof.
  intros Hwf Hroom Ht.
  refine (proj2 (intern_gen b IROp.KGC (ins_new (irt IROp.KGC t) 0 0) u t _ Hwf _ _ _) Hroom);
    [done|by apply ins_op_irt|by apply k64_hits].
Qed.

(** The reference of a constant survives its tag. *)
Lemma denotes_tref b o r v t : ir_wf b -> urange 8 t -> denotes b o r v ->
  tref_ref (tref r t) = r /\ urange 16 r.
Proof.
  intros Hwf Ht Hr%denotes_valid. pose proof (wf_nk _ Hwf).
  assert (urange 16 r) by (unfold urange, nk, REF_BIAS in *; lia).
  split; [by apply tref_ref_tref|done].
Qed.

(** ** Freshly seeded buffers *)

Lemma buf_new_wf parent exitno : ir_wf (buf_new parent exitno).
Proof.
  split; try done.
  - by eexists.
  - intros [|j] i; [|done]. intros [= <-]. split; [by eexists|].
    by split; apply uwrap_range.
  - intros o Ho. destruct o; try done.
  - intros o [|[|[|j]]] i Ho; cbn; try done; intros [= <-] [= <-]; done.
  - intros o [|[|[|j]]] j' i i' Ho; cbn; try done; intros [= <-] _ [= <-]; done.
  - intros o Ho. destruct o; done.
  - intros o [|j] i Ho; [|done]. intros [= <-] [= <-]. done.
Qed.

(** C40. Interning is total and canonical: [kint], [k64] and [kgc] return the
    tagged reference of a constant with exactly the asked opcode and payload;
    they return the constant that is there when there is one, leaving the
    buffer as it was, and otherwise append one; every earlier reference keeps
    its instruction and its payload; interning again returns the same
    reference; and no payload ever has two references, so the optimizer may
    compare constants by reference. *)
Theorem interning (b : IrBuf) (k u t : Z) (o : IROp.t)
    (Hwf : ir_wf b) (Hroom : nk b > 1) (Hk : srange 32 k) (Ht : urange 8 t)
    (Ho : o = IROp.KNUM \/ o = IROp.KINT64) :
  (exists b' r, kint b k = Some (b', tref r IRT_INT) /\ tref_ref (tref r IRT_INT) = r /\
     interned b b' IROp.KINT (kint_ins k) r k /\ kint b' k = Some (b', tref r IRT_INT)) /\
  (exists b' r, k64 b o u = Some (b', tref r (k64_type o)) /\
     interned b b' o (k64_ins o) r u /\ k64 b' o u = Some (b', tref r (k64_type o))) /\
  (exists b' r, kgc b u t = Some (b', tref r t) /\ tref_ref (tref r t) = r /\
     interned b b' IROp.KGC (ins_new (irt IROp.KGC t) 0 0) r u /\
     kgc b' u t = Some (b', tref r t)) /\
  (forall o r r' v, cst_op o = true -> denotes b o r v -> denotes b o r' v -> r = r').
Proof.
  assert (Hr : zlen (kk b) < 0x7fff) by (unfold nk, REF_BIAS in Hroom; lia).
  split; [|split; [|split]].
  - destruct (kint_interned b k Hwf Hr Hk) as (b' & r & E & Hi). exists b', r.
    pose proof Hi as (Hwf' & _ & Hd & _). split; [done|].
    split; [by eapply denotes_tref|]. split; [done|]. by apply kint_found.
  - destruct (k64_interned b o u Hwf Hr Ho) as (b' & r & E & Hi). exists b', r.
    pose proof Hi as (Hwf' & _ & Hd & _). split; [done|]. split; [done|]. by apply k64_found.
  - destruct (kgc_interned b u t Hwf Hr Ht) as (b' & r & E & Hi). exists b', r.
    pose proof Hi as (Hwf' & _ & Hd & _). split; [done|].
    split; [by eapply denotes_tref|]. split; [done|]. by apply kgc_found.
  - intros. by eapply denotes_unique.
Qed.

Lemma interning_witness : exists b' r,
  kint (buf_new 0 0) 42 = Some (b', tref r IRT_INT) /\ tref_ref (tref r IRT_INT) = r.
Proof.
  assert (Hk : srange 32 42) by (unfold srange; cbv; split; congruence).
  assert (Ht : urange 8 IRT_STR) by (unfold urange; cbv; split; congruence).
  destruct (interning (buf_new 0 0) 42 7 IRT_STR IROp.KNUM (buf_new_wf 0 0) eq_refl Hk Ht
    (or_introl eq_refl)) as [(b' & r & E & Er & _) _].
  exists b', r. split; [exact E|exact Er].
Defined.
