(* ===== verification/OptMem.v ===== *)
(** * jit/opt/opt_mem.rs: store-to-load forwarding, dead store elimination

    Backward scans of the instruction buffer from its top down to
    [REF_FIRST], one unit of fuel per instruction. *)

From Stdlib Require Import ZArith Lia Bool.
From stdpp Require Import base decidable numbers option list.
From S2P Require Import Prelude Float64 Ir.

Record FwdStore := mkFwd { store_ins : Z; fwd_val : Z }.

Definition scan_fuel (b : IrBuf) : nat := S (length (ins b)).

(** [None] inside is the scan's own [None]. *)
Fixpoint scan_store (fuel : nat) (b : IrBuf) (tab key r : Z) : option (option FwdStore) :=
  match fuel with
  | O => None
  | S fuel =>
      if REF_FIRST <=? r then
        let? i := ir b r in
        let? o := ins_op i in
        match o with
        | IROp.ASTORE =>
            if op1 i =? tab then
              let? carg := ir b (op2 i) in
              if op1 carg =? key then Some (Some (mkFwd r (op2 carg)))
              else scan_store fuel b tab key (r - 1)
            else scan_store fuel b tab key (r - 1)
        | IROp.HSTORE => if op1 i =? tab then Some None else scan_store fuel b tab key (r - 1)
        | IROp.LOOP => Some None
        | IROp.CALLL => if op1 i =? tab then Some None else scan_store fuel b tab key (r - 1)
        | _ => scan_store fuel b tab key (r - 1)
        end
      else Some None
  end.

Definition find_matching_store (b : IrBuf) (tab key : Z) : option (option FwdStore) :=
  scan_store (scan_fuel b) b tab key (nins b - 1).

Fixpoint scan_fstore (fuel : nat) (b : IrBuf) (obj fid r : Z) : option (option FwdStore) :=
  match fuel with
  | O => None
  | S fuel =>
      if REF_FIRST <=? r then
        let? i := ir b r in
        let? o := ins_op i in
        match o with
        | IROp.FSTORE =>
            if op1 i =? obj then
              let? carg := ir b (op2 i) in
              if op1 carg =? fid then Some (Some (mkFwd r (op2 carg)))
              else scan_fstore fuel b obj fid (r - 1)
            else scan_fstore fuel b obj fid (r - 1)
        | IROp.LOOP => Some None
        | IROp.CALLL => if op1 i =? obj then Some None else scan_fstore fuel b obj fid (r - 1)
        | _ => scan_fstore fuel b obj fid (r - 1)
        end
      else Some None
  end.

Definition find_matching_fstore (b : IrBuf) (obj fid : Z) : option (option FwdStore) :=
  scan_fstore (scan_fuel b) b obj fid (nins b - 1).

Definition fwd_aload (b : IrBuf) (fins : IRIns) : option (option Z) :=
  let? r := find_matching_store b (op1 fins) (op2 fins) in Some (fwd_val <$> r).

Definition fwd_fload (b : IrBuf) (fins : IRIns) : option (option Z) :=
  let? r := find_matching_fstore b (op1 fins) (op2 fins) in Some (fwd_val <$> r).

Definition try_fwd (b : IrBuf) (fins : IRIns) : option (option Z) :=
  let? o := ins_op fins in
  match o with
  | IROp.ALOAD => fwd_aload b fins
  | IROp.FLOAD => fwd_fload b fins
  | _ => Some None
  end.

(** Whether a load of ([tab], [key]) occurs at [r] or above. *)
Fixpoint load_intervenes (fuel : nat) (b : IrBuf) (tab key r : Z) : option bool :=
  match fuel with
  | O => None
  | S fuel =>
      if r <? nins b then
        let? i := ir b r in
        if bool_decide (ins_op i = Some IROp.ALOAD) && (op1 i =? tab) && (op2 i =? key)
        then Some true
        else load_intervenes fuel b tab key (r + 1)
      else Some false
  end.

Definition dse_astore (b : IrBuf) (fins : IRIns) : option (IrBuf * bool) :=
  let? carg := ir b (op2 fins) in
  let tab := op1 fins in
  let key := op1 carg in
  let? r := find_matching_store b tab key in
  match r with
  | Some fwd =>
      let? l := load_intervenes (scan_fuel b) b tab key (store_ins fwd + 1) in
      if (l : bool) then Some (b, false)
      else let? b := ir_mut b (store_ins fwd) set_nop in Some (b, true)
  | None => Some (b, false)
  end.

Definition try_dse (b : IrBuf) (fins : IRIns) : option (IrBuf * bool) :=
  let? o := ins_op fins in
  match o with
  | IROp.ASTORE => dse_astore b fins
  | _ => Some (b, false)
  end.
