(* ===== verification/Fold.v ===== *)
(** * jit/opt/opt_fold.rs: FOLD and CSE

    One definition per opcode group of [fold_step], composed by [fold_step]
    and the retry loop [opt_fold].  The instruction the source modifies in
    place is returned along with the step; [Err] is a trace error, [None] a
    panic or, in the loop, exhausted fuel. *)

From Stdlib Require Import ZArith Lia Bool SpecFloat.
From stdpp Require Import base decidable numbers option list.
From S2P Require Import Prelude Float64 Ir OptMem.

Inductive TraceError : Set :=
  | RECERR | TRACEUV | TRACEOV | STACKOV | SNAPOV | BLACKL | RETRY | NYIBC | LLEAVE | LINNER
  | LUNROLL | BADTYPE | CJITOFF | CUNROLL | DOWNREC | NYIFFU | NYIRETL | STORENN | NOMM | IDXLOOP
  | NYITMIX | GFAIL | PHIOV | TYPEINS | MCODEAL | MCODEOV | MCODELM | SPILLOV | BADRA | NYIIR
  | NYIPHI | NYICOAL.

Inductive Result (A : Type) : Type := Ok (a : A) | Err (e : TraceError).
Arguments Ok {A} _.
Arguments Err {A} _.

(** Terminal outcomes of one rule-matching pass. *)
Inductive Step : Set := Retry | Ref (r : Z) | TRef (tr : Z) | Drop | Cse.

Definition Pass : Type := option (Result (IrBuf * IRIns * Step)).
Definition done_ (b : IrBuf) (f : IRIns) (s : Step) : Pass := Some (Ok (b, f, s)).

(** ** Constant arithmetic *)

(** [powf] of the platform's math library, whose result Rust leaves
    unspecified. *)
Class Libm := { powf : f64 -> f64 -> f64 }.

Definition SF_floor (f : spec_float) : spec_float :=
  match f with
  | S754_finite s m e =>
      if 0 <=? e then f
      else
        let z := (if s then - Zpos m else Zpos m) / 2 ^ (- e) in
        if z =? 0 then S754_zero s else SF_of_bits (f64_of_int z)
  | _ => f
  end.

Definition f64_floor (x : f64) : f64 := bits_of_SF (SF_floor (SF_of_bits x)).

Section Fold.
Context `{Libm}.

Fixpoint pow_even (fuel : nat) (x : f64) (n : Z) : option (f64 * Z) :=
  match fuel with
  | O => None
  | S fuel => if Z.land n 1 =? 0 then pow_even fuel (f64_mul x x) (Z.shiftr n 1) else Some (x, n)
  end.

Fixpoint pow_rest (fuel : nat) (x z : f64) (n : Z) : option f64 :=
  match fuel with
  | O => None
  | S fuel =>
      if n =? 0 then Some z
      else
        let x := f64_mul x x in
        pow_rest fuel x (if negb (Z.land n 1 =? 0) then f64_mul z x else z) (Z.shiftr n 1)
  end.

(** [x ^ y] with the small-integer fast path; the exponent of the loops has
    at most 17 bits. *)
Definition vm_pow (x y : f64) : option f64 :=
  let k := f64_to_i32 y in
  if f64_eq (f64_of_int k) y && (Z.abs k <=? 65536) then
    if 1 <=? k then
      let? ' (x, n) := pow_even 18 x k in
      pow_rest 18 x x (Z.shiftr n 1)
    else if k =? 0 then Some (f64_of_int 1)
    else Some (f64_div (f64_of_int 1) (powf x (f64_neg (f64_of_int k))))
  else Some (powf x y).

Definition fold_numarith (x y : f64) (o : IROp.t) : option f64 :=
  match o with
  | IROp.ADD => Some (f64_add x y)
  | IROp.SUB => Some (f64_sub x y)
  | IROp.MUL => Some (f64_mul x y)
  | IROp.DIV => Some (f64_div x y)
  | IROp.MOD => Some (f64_sub x (f64_mul (f64_floor (f64_div x y)) y))
  | IROp.POW => vm_pow x y
  | IROp.NEG => Some (f64_neg x)
  | IROp.ABS => Some (f64_abs x)
  | IROp.MIN => Some (if f64_lt x y then x else y)
  | IROp.MAX => Some (if f64_lt y x then x else y)
  | _ => Some x
  end.

(** The U* variants are the IEEE unordered comparisons. *)
Definition fold_numcmp (a b : f64) (o : IROp.t) : option bool :=
  match o with
  | IROp.EQ => Some (f64_eq a b)
  | IROp.NE => Some (negb (f64_eq a b))
  | IROp.LT => Some (f64_lt a b)
  | IROp.GE => Some (f64_le b a)
  | IROp.LE => Some (f64_le a b)
  | IROp.GT => Some (f64_lt b a)
  | IROp.ULT => Some (negb (f64_le b a))
  | IROp.UGE => Some (negb (f64_lt a b))
  | IROp.ULE => Some (negb (f64_lt b a))
  | IROp.UGT => Some (negb (f64_le a b))
  | _ => None
  end.

(** Rust's truncating remainder, and rotations, on [i32]. *)
Definition wrapping_rem (a b : Z) : Z := swrap 32 (Z.rem a b).

Definition kfold_intop (k1 k2 : Z) (o : IROp.t) : option Z :=
  let sh := Z.land (uwrap 32 k2) 31 in
  match o with
  | IROp.ADD => Some (swrap 32 (k1 + k2))
  | IROp.SUB => Some (swrap 32 (k1 - k2))
  | IROp.MUL => Some (swrap 32 (k1 * k2))
  | IROp.MOD =>
      if k2 =? 0 then None
      else
        let r := wrapping_rem k1 k2 in
        Some (if negb (r =? 0) && (Z.lxor r k2 <? 0) then swrap 32 (r + k2) else r)
  | IROp.NEG => Some (swrap 32 (uwrap 32 (- uwrap 32 k1)))
  | IROp.BAND => Some (Z.land k1 k2)
  | IROp.BOR => Some (Z.lor k1 k2)
  | IROp.BXOR => Some (Z.lxor k1 k2)
  | IROp.BSHL => Some (swrap 32 (Z.shiftl k1 sh))
  | IROp.BSHR => Some (swrap 32 (Z.shiftr (uwrap 32 k1) sh))
  | IROp.BSAR => Some (Z.shiftr k1 sh)
  | IROp.BROL => Some (swrap 32 (rotl 32 (uwrap 32 k1) sh))
  | IROp.BROR => Some (swrap 32 (rotl 32 (uwrap 32 k1) (Z.land (32 - sh) 31)))
  | IROp.MIN => Some (Z.min k1 k2)
  | IROp.MAX => Some (Z.max k1 k2)
  | _ => None
  end.

(** [u32::swap_bytes]. *)
Definition swap_bytes (x : Z) : Z :=
  Z.lor (Z.lor (Z.shiftl (Z.land x 0xff) 24) (Z.shiftl (Z.land (Z.shiftr x 8) 0xff) 16))
        (Z.lor (Z.shiftl (Z.land (Z.shiftr x 16) 0xff) 8) (Z.shiftr x 24)).

(** ** Operands *)

Definition opnd_op (f : option IRIns) : option IROp.t := f ≫= ins_op.
(** [lop == Some(o)]. *)
Definition is_op (f : option IRIns) (o : IROp.t) : bool := bool_decide (opnd_op f = Some o).
Definition opnd_i (f : option IRIns) : option Z := ins_i <$> f.

(** ** CSE and the small helpers *)

Fixpoint cse_find (fuel : nat) (b : IrBuf) (key lim r : Z) : option (option Z) :=
  match fuel with
  | O => None
  | S fuel =>
      if lim <? r then
        let? i := ir b r in
        if op12 i =? key then Some (Some (tref r (ins_t i)))
        else cse_find fuel b key lim (prev i)
      else Some None
  end.

Definition opt_cse (b : IrBuf) (fins : IRIns) : option (IrBuf * Z) :=
  let lim := Z.max (op1 fins) (op2 fins) in
  let? o := ins_op fins in
  let? c := chain_at b o in
  let? r := cse_find (S (length (ins b) + length (kk b))) b (op12 fins) lim c in
  match r with
  | Some tr => Some (b, tr)
  | None => emit_ins b fins
  end.

Definition condfold (b : IrBuf) (f : IRIns) (cond : bool) : Pass :=
  if cond then done_ b f Drop else Some (Err GFAIL).

Definition comm_swap (b : IrBuf) (f : IRIns) : Pass :=
  if op1 f <? op2 f then done_ b (set_op1 (op2 f) (set_op2 (op1 f) f)) Retry
  else done_ b f Cse.

Definition comm_swap_comp (b : IrBuf) (f : IRIns) : Pass :=
  if op1 f <? op2 f then
    let f := set_op1 (op2 f) (set_op2 (op1 f) f) in
    let? o := ins_op f in
    if bool_decide (o = IROp.EQ) || bool_decide (o = IROp.NE) then done_ b f Retry
    else
      let? o' := from_u8 (Z.lxor (enum_code o) 3) in
      done_ b (set_op o' f) Retry
  else done_ b f Cse.

(** [Ok(Step::TRef(buf.kint(k)))] and [buf.knum(n)]. *)
Definition ret_kint (b : IrBuf) (f : IRIns) (k : Z) : Pass :=
  let? ' (b, tr) := kint b k in done_ b f (TRef tr).
Definition ret_knum (b : IrBuf) (f : IRIns) (n : f64) : Pass :=
  let? ' (b, tr) := knum b n in done_ b f (TRef tr).

(** [fins.op2 = tref_ref(buf.kint(k)) as IRRef1]. *)
Definition kint_op2 (b : IrBuf) (f : IRIns) (k : Z) : option (IrBuf * IRIns) :=
  let? ' (b, tr) := kint b k in Some (b, set_op2 (uwrap 16 (tref_ref tr)) f).
Definition knum_op2 (b : IrBuf) (f : IRIns) (n : f64) : option (IrBuf * IRIns) :=
  let? ' (b, tr) := knum b n in Some (b, set_op2 (uwrap 16 (tref_ref tr)) f).

(** Both operands FP constants: fold them. *)
Definition kfold_num (b : IrBuf) (f : IRIns) (o : IROp.t) : Pass :=
  let? x := knum_val b (op1 f) in
  let? y := knum_val b (op2 f) in
  let? z := fold_numarith x y o in
  ret_knum b f z.

(** Both operands integer constants. *)
Definition kfold_int (b : IrBuf) (f : IRIns) (l r : option IRIns) (o : IROp.t) : Pass :=
  let? x := opnd_i l in
  let? y := opnd_i r in
  let? z := kfold_intop x y o in
  ret_kint b f z.

(** The φ barrier of the source's macro, and an operand's first operand. *)
Definition phi_of (f : option IRIns) : bool :=
  match f with Some i => irt_isphi (ins_t i) | None => false end.
Definition opnd_op1 (f : option IRIns) : option Z := op1 <$> f.

(** ** The rules *)

Definition fold_add (b : IrBuf) (f : IRIns) (l r : option IRIns) : Pass :=
  if is_op l IROp.KNUM && is_op r IROp.KNUM then kfold_num b f IROp.ADD
  else if is_op l IROp.KINT && is_op r IROp.KINT then kfold_int b f l r IROp.ADD
  else if is_op l IROp.NEG then
    if phi_of l then done_ b f Cse
    else
      let? a := opnd_op1 l in
      done_ b (set_op2 a (set_op1 (op2 f) (set_op IROp.SUB f))) Retry
  else if is_op r IROp.NEG then
    if phi_of r then done_ b f Cse
    else
      let? a := opnd_op1 r in
      done_ b (set_op2 a (set_op IROp.SUB f)) Retry
  else if irt_isint (ins_t f) && is_op r IROp.KINT && bool_decide (opnd_i r = Some 0)
  then done_ b f (Ref (op1 f))
  else comm_swap b f.

Definition fold_sub (b : IrBuf) (f : IRIns) (l r : option IRIns) : Pass :=
  if is_op l IROp.KNUM && is_op r IROp.KNUM then kfold_num b f IROp.SUB
  else if is_op l IROp.KINT && is_op r IROp.KINT then kfold_int b f l r IROp.SUB
  else if is_op l IROp.NEG && is_op r IROp.KNUM then
    if phi_of l then done_ b f Cse
    else
      let? k := knum_val b (op2 f) in
      let? a := opnd_op1 l in
      let f := set_op2 a f in
      let? ' (b, tr) := knum b (f64_neg k) in
      done_ b (set_op1 (uwrap 16 (tref_ref tr)) f) Retry
  else
    let? zero :=
      if is_op r IROp.KNUM then let? u := k64_val b (op2 f) in Some (u =? 0) else Some false in
    if (zero : bool) then done_ b f (Ref (op1 f))
    else if is_op r IROp.NEG then
      if phi_of r then done_ b f Cse
      else
        let? a := opnd_op1 r in
        done_ b (set_op2 a (set_op IROp.ADD f)) Retry
    else if is_op r IROp.KINT then
      let? k := opnd_i r in
      if k =? 0 then done_ b f (Ref (op1 f))
      else
        let? ' (b, f) := kint_op2 b (set_op IROp.ADD f) (swrap 32 (uwrap 32 (- uwrap 32 k))) in
        done_ b f Retry
    else if is_op l IROp.KINT && bool_decide (opnd_i l = Some 0) then
      done_ b (set_op1 (op2 f) (set_op IROp.NEG f)) Retry
    else done_ b f Cse.

Definition fold_mul (b : IrBuf) (f : IRIns) (l r : option IRIns) : Pass :=
  if is_op l IROp.KNUM && is_op r IROp.KNUM then kfold_num b f IROp.MUL
  else if is_op l IROp.KINT && is_op r IROp.KINT then kfold_int b f l r IROp.MUL
  else
    let? n := if is_op r IROp.KNUM then let? n := knum_val b (op2 f) in Some (Some n) else Some None in
    match n with
    | Some n =>
        if f64_eq n (f64_of_int 1) then done_ b f (Ref (op1 f))
        else if f64_eq n (f64_of_int 2) then
          done_ b (set_op2 (op1 f) (set_op IROp.ADD f)) Retry
        else comm_swap b f
    | None =>
        if is_op r IROp.KINT then
          let? k := opnd_i r in
          if k =? 0 then done_ b f (Ref (op2 f))
          else if k =? 1 then done_ b f (Ref (op1 f))
          else if (0 <? k) && (Z.land k (k - 1) =? 0) then
            let? ' (b, f) := kint_op2 b (set_op IROp.BSHL f) (31 - leading_zeros 32 k) in
            done_ b f Retry
          else comm_swap b f
        else comm_swap b f
    end.

Definition fold_div (b : IrBuf) (f : IRIns) (l r : option IRIns) : Pass :=
  if is_op l IROp.KNUM && is_op r IROp.KNUM then kfold_num b f IROp.DIV
  else if is_op r IROp.KNUM then
    let? n := knum_val b (op2 f) in
    if f64_eq n (f64_of_int 1) then done_ b f (Ref (op1 f))
    else
      let? u := k64_val b (op2 f) in
      let ex := Z.land (Z.shiftr u 52) 0x7ff in
      if (Z.land u 0x000fffffffffffff =? 0) && (uwrap 32 (ex - 1) <? 0x7fd) then
        let recip := Z.lor (Z.land u (Z.shiftl 1 63)) (Z.shiftl (0x7fe - ex) 52) in
        let? ' (b, tr) := knum_u64 b recip in
        done_ b (set_op2 (uwrap 16 (tref_ref tr)) (set_op IROp.MUL f)) Retry
      else done_ b f Cse
  else done_ b f Cse.

Definition fold_mod (b : IrBuf) (f : IRIns) (l r : option IRIns) : Pass :=
  if is_op l IROp.KNUM && is_op r IROp.KNUM then kfold_num b f IROp.MOD
  else if is_op l IROp.KINT && is_op r IROp.KINT && negb (bool_decide (opnd_i r = Some 0))
  then kfold_int b f l r IROp.MOD
  else if is_op r IROp.KINT then
    let? k := opnd_i r in
    if (0 <? k) && (Z.land k (k - 1) =? 0) then
      let? ' (b, f) := kint_op2 b (set_op IROp.BAND f) (k - 1) in
      done_ b f Retry
    else done_ b f Cse
  else done_ b f Cse.

(** [emitir] routes the nested multiplication of [x ^ 2] through FOLD. *)
Definition fold_pow (emitir : IrBuf -> Z -> Z -> Z -> option (Result (IrBuf * Z)))
    (b : IrBuf) (f : IRIns) (l r : option IRIns) : Pass :=
  if is_op l IROp.KNUM && is_op r IROp.KNUM then kfold_num b f IROp.POW
  else if is_op r IROp.KNUM then
    let? k := knum_val b (op2 f) in
    if f64_eq k 0 then let? ' (b, tr) := knum_one b in done_ b f (TRef tr)
    else if f64_eq k (f64_of_int 1) then done_ b f (Ref (op1 f))
    else if f64_eq k (f64_of_int 2) then
      let? res := emitir b (irtn IROp.MUL) (op1 f) (op1 f) in
      match res with
      | Ok (b, tr) => done_ b f (TRef tr)
      | Err e => Some (Err e)
      end
    else done_ b f Cse
  else done_ b f Cse.

Definition fold_neg (b : IrBuf) (f : IRIns) (l : option IRIns) : Pass :=
  if is_op l IROp.KNUM then let? x := knum_val b (op1 f) in ret_knum b f (f64_neg x)
  else if is_op l IROp.KINT then
    let? x := opnd_i l in
    let? z := kfold_intop x 0 IROp.NEG in
    ret_kint b f z
  else if is_op l IROp.NEG then
    if phi_of l then done_ b f Cse else let? a := opnd_op1 l in done_ b f (Ref a)
  else done_ b f Cse.

Definition fold_abs (b : IrBuf) (f : IRIns) (l : option IRIns) : Pass :=
  if is_op l IROp.KNUM then let? x := knum_val b (op1 f) in ret_knum b f (f64_abs x)
  else done_ b f Cse.

Definition fold_minmax (b : IrBuf) (f : IRIns) (l r : option IRIns) (o : IROp.t) : Pass :=
  if is_op l IROp.KNUM && is_op r IROp.KNUM then kfold_num b f o
  else if is_op l IROp.KINT && is_op r IROp.KINT then kfold_int b f l r o
  else if op1 f =? op2 f then done_ b f (Ref (op1 f))
  else done_ b f Cse.

Definition fold_ov (b : IrBuf) (f : IRIns) (l r : option IRIns) (o : IROp.t) : Pass :=
  let mulov := bool_decide (o = IROp.MULOV) in
  let tail := if negb (bool_decide (o = IROp.SUBOV)) then comm_swap b f else done_ b f Cse in
  if is_op l IROp.KINT && is_op r IROp.KINT then
    let? x := opnd_i l in
    let? y := opnd_i r in
    let k := match o with
             | IROp.ADDOV => x + y
             | IROp.SUBOV => x - y
             | _ => x * y
             end in
    if negb (swrap 32 k =? k) then Some (Err GFAIL) else ret_kint b f (swrap 32 k)
  else if is_op r IROp.KINT then
    let? k := opnd_i r in
    if negb mulov && (k =? 0) then done_ b f (Ref (op1 f))
    else if mulov then
      if k =? 0 then done_ b f (Ref (op2 f))
      else if k =? 1 then done_ b f (Ref (op1 f))
      else if k =? 2 then done_ b (set_op2 (op1 f) (set_op IROp.ADDOV f)) Retry
      else tail
    else tail
  else tail.

Definition fold_bnot (b : IrBuf) (f : IRIns) (l : option IRIns) : Pass :=
  if is_op l IROp.KINT then let? x := opnd_i l in ret_kint b f (Z.lnot x)
  else if is_op l IROp.BNOT then
    if phi_of l then done_ b f Cse else let? a := opnd_op1 l in done_ b f (Ref a)
  else done_ b f Cse.

Definition fold_bswap (b : IrBuf) (f : IRIns) (l : option IRIns) : Pass :=
  if is_op l IROp.KINT then
    let? x := opnd_i l in ret_kint b f (swrap 32 (swap_bytes (uwrap 32 x)))
  else if is_op l IROp.BSWAP then
    if phi_of l then done_ b f Cse else let? a := opnd_op1 l in done_ b f (Ref a)
  else done_ b f Cse.

Definition fold_bit (b : IrBuf) (f : IRIns) (l r : option IRIns) (o : IROp.t) : Pass :=
  if is_op l IROp.KINT && is_op r IROp.KINT then kfold_int b f l r o
  else match o with
  | IROp.BAND | IROp.BOR => if op1 f =? op2 f then done_ b f (Ref (op1 f)) else comm_swap b f
  | IROp.BXOR => if op1 f =? op2 f then ret_kint b f 0 else comm_swap b f
  | _ => done_ b f Cse
  end.

Definition fold_eq (b : IrBuf) (f : IRIns) (l r : option IRIns) (o : IROp.t) : Pass :=
  if is_op l IROp.KNUM && is_op r IROp.KNUM then
    let? x := knum_val b (op1 f) in
    let? y := knum_val b (op2 f) in
    let? c := fold_numcmp x y o in
    condfold b f c
  else if (is_op l IROp.KINT && is_op r IROp.KINT) || (is_op l IROp.KGC && is_op r IROp.KGC) then
    condfold b f (Bool.eqb (op1 f =? op2 f) (bool_decide (o = IROp.EQ)))
  else if (op1 f =? op2 f) && negb (irt_isnum (ins_t f)) then condfold b f (bool_decide (o = IROp.EQ))
  else comm_swap_comp b f.

Definition int_cmp (o : IROp.t) (a b : Z) : bool :=
  match o with
  | IROp.LT => a <? b
  | IROp.GE => b <=? a
  | IROp.LE => a <=? b
  | IROp.GT => b <? a
  | IROp.ULT => uwrap 32 a <? uwrap 32 b
  | IROp.UGE => uwrap 32 b <=? uwrap 32 a
  | IROp.ULE => uwrap 32 a <=? uwrap 32 b
  | _ => uwrap 32 b <? uwrap 32 a
  end.

(** The bit ops whose results the range guards are dropped for. *)
Definition int_result_op (f : option IRIns) : bool :=
  existsb (is_op f) [IROp.BAND; IROp.BOR; IROp.BXOR; IROp.BSHL; IROp.BSHR; IROp.BSAR; IROp.BNOT].

Definition fold_comp (b : IrBuf) (f : IRIns) (l r : option IRIns) (o : IROp.t) : Pass :=
  if is_op l IROp.KNUM && is_op r IROp.KNUM then
    let? x := knum_val b (op1 f) in
    let? y := knum_val b (op2 f) in
    let? c := fold_numcmp x y o in
    condfold b f c
  else if is_op l IROp.KINT && is_op r IROp.KINT then
    let? x := opnd_i l in
    let? y := opnd_i r in
    condfold b f (int_cmp o x y)
  else if bool_decide (o = IROp.UGE) && is_op r IROp.KINT && bool_decide (opnd_i r = Some 0)
  then done_ b f Drop
  else
    let? drop :=
      if irt_isnum (ins_t f) && is_op r IROp.KNUM && int_result_op l then
        let? k := knum_val b (op2 f) in
        Some ((bool_decide (o = IROp.GE) && f64_le k (f64_of_int (-2147483648))) ||
              (bool_decide (o = IROp.LE) && f64_le (f64_of_int 2147483647) k))
      else Some false in
    if (drop : bool) then done_ b f Drop
    else if (op1 f =? op2 f) && negb (irt_isnum (ins_t f)) then
      condfold b f (negb (Z.land (Z.lxor (enum_code o) (Z.shiftr (enum_code o) 1)) 1 =? 0))
    else comm_swap_comp b f.

(** Number-typed bit ops go straight to CSE. *)
Definition is_bitop (o : IROp.t) : bool :=
  match o with
  | IROp.BNOT | IROp.BSWAP | IROp.BAND | IROp.BOR | IROp.BXOR | IROp.BSHL | IROp.BSHR
  | IROp.BSAR | IROp.BROL | IROp.BROR | IROp.TOBIT => true
  | _ => false
  end.

(** One pass over the rules, most specific first. *)
Definition fold_step (emitir : IrBuf -> Z -> Z -> Z -> option (Result (IrBuf * Z)))
    (b : IrBuf) (f : IRIns) : Pass :=
  let? o := ins_op f in
  if irt_isnum (ins_t f) && is_bitop o then done_ b f Cse
  else
    let? l := if nk b <=? op1 f then let? i := ir b (op1 f) in Some (Some i) else Some None in
    let? r := if nk b <=? op2 f then let? i := ir b (op2 f) in Some (Some i) else Some None in
    match o with
    | IROp.ADD => fold_add b f l r
    | IROp.SUB => fold_sub b f l r
    | IROp.MUL => fold_mul b f l r
    | IROp.DIV => fold_div b f l r
    | IROp.MOD => fold_mod b f l r
    | IROp.POW => fold_pow emitir b f l r
    | IROp.NEG => fold_neg b f l
    | IROp.ABS => fold_abs b f l
    | IROp.MIN | IROp.MAX => fold_minmax b f l r o
    | IROp.ADDOV | IROp.SUBOV | IROp.MULOV => fold_ov b f l r o
    | IROp.BNOT => fold_bnot b f l
    | IROp.BSWAP => fold_bswap b f l
    | IROp.BAND | IROp.BOR | IROp.BXOR | IROp.BSHL | IROp.BSHR | IROp.BSAR | IROp.BROL
    | IROp.BROR => fold_bit b f l r o
    | IROp.EQ | IROp.NE => fold_eq b f l r o
    | IROp.LT | IROp.GE | IROp.LE | IROp.GT | IROp.ULT | IROp.UGE | IROp.ULE | IROp.UGT =>
        fold_comp b f l r o
    | _ => done_ b f Cse
    end.

(** One unit of fuel per pass and per nested emission. *)
Fixpoint opt_fold (fuel : nat) (b : IrBuf) (fins : IRIns) : option (Result (IrBuf * Z)) :=
  match fuel with
  | O => None
  | S fuel =>
      let? o := ins_op fins in
      let? m := ir_mode o in
      let kind := irm_kind m in
      let emit b := let? ' (b, tr) := emit_ins b fins in Some (Ok (b, tr)) in
      if negb (kind =? IRM_N) then
        if kind =? IRM_L then
          let? v := try_fwd b fins in
          match v with
          | Some v => let? i := ir b v in Some (Ok (b, tref v (ins_t i)))
          | None => emit b
          end
        else if kind =? IRM_S then let? ' (b, _) := try_dse b fins in emit b
        else emit b
      else if existsb (fun k => bool_decide (o = k)) [IROp.KGC; IROp.KINT64; IROp.KNUM] then emit b
      else
        let? res := fold_step (fun b ot x y => opt_fold fuel b (ins_new ot x y)) b fins in
        match res with
        | Err e => Some (Err e)
        | Ok (b, fins, Retry) => opt_fold fuel b fins
        | Ok (b, _, Ref r) => let? i := ir b r in Some (Ok (b, tref r (ins_t i)))
        | Ok (b, _, TRef tr) => Some (Ok (b, tr))
        | Ok (b, _, Drop) => Some (Ok (b, REF_DROP))
        | Ok (b, fins, Cse) => let? ' (b, tr) := opt_cse b fins in Some (Ok (b, tr))
        end
  end.

(** The recorder's emission entry point. *)
Definition emitir (fuel : nat) (b : IrBuf) (ot x y : Z) : option (Result (IrBuf * Z)) :=
  opt_fold fuel b (ins_new ot x y).

End Fold.
