(* ===== verification/IrEmit.v ===== *)
(** * Emission, rollback and common subexpressions

    [emit_ins] extends a well-formed buffer, [rollback] truncates it and
    relinks every chain, and [opt_cse] finds the latest equal instruction
    above its operands exactly when there is one. *)

From Stdlib Require Import ZArith Lia Bool.
From stdpp Require Import base decidable numbers option list.
From S2P Require Import Prelude Float64 Ir IrSpec IrInv OptMem Fold.

Lemma iref_u16 b j : ir_wf b -> (j < length (ins b))%nat -> uwrap 16 (iref j) = iref j.
Proof.
  intros Hwf Hj. pose proof (wf_nins _ Hwf). unfold uwrap, iref, zlen, REF_BIAS in *.
  rewrite Z.mod_small by lia. done.
Qed.

(** ** Emission *)

Lemma emit_ins_spec b f o : ir_wf b -> zlen (ins b) < 0x7fff ->
  ins_op f = Some o -> cst_op o = false -> urange 16 (op1 f) -> urange 16 (op2 f) ->
  exists b' c, emit_ins b f = Some (b', tref (iref (length (ins b))) (ins_t f)) /\ ir_wf b' /\
    ins b' = ins b ++ [set_prev c f] /\ kk b' = kk b /\ k64s b' = k64s b.
Proof.
  intros Hwf Hroom Hop Hcst H1 H2. destruct (chain_at_Some b o Hwf) as [c Hc].
  destruct (set_chain_Some b o (nins b) Hwf) as (c' & Hset & Hlen).
  pose proof (fun o' => chain_at_set _ _ _ _ o' Hset) as Hat.
  assert (Hu : uwrap 16 (nins b) = iref (length (ins b))).
  { unfold uwrap, nins, iref, zlen, REF_BIAS in *. rewrite Z.mod_small by lia. done. }
  rewrite Hu in Hat.
  eexists _, c. split.
  { unfold emit_ins. rewrite Hop. cbn. rewrite Hc. cbn. rewrite Hset. cbn.
    unfold nins, iref, zlen. done. }
  split; [|done]. pose proof (wf_base _ Hwf) as (ib & Hb & Hbop).
  assert (Hpos : (0 < length (ins b))%nat) by (by apply lookup_lt_Some in Hb).
  split; cbn [ins kk k64s chain guardemit].
  - done.
  - apply (wf_k64 _ Hwf).
  - apply (wf_nk _ Hwf).
  - unfold zlen in *. rewrite length_app. cbn [length]. lia.
  - exists ib. by rewrite lookup_app_l by lia.
  - intros j i [(Hj & Hi)|(-> & ->)]%lookup_snoc_inv; [by apply (wf_ops _ Hwf j)|].
    split; [by eexists|done].
  - intros o' Ho'. unfold chain_at. cbn [chain]. unfold chain_at in Hat. cbn [chain with_chain] in Hat.
    rewrite Hat, decide_False by congruence. by apply (wf_kchain _ Hwf).
  - apply (wf_kprev _ Hwf).
  - apply (wf_kuniq _ Hwf).
  - intros o' Ho'. unfold chain_at in *. cbn [chain with_chain] in *.
    rewrite Hat, length_app, Nat.add_1_r, latest_snoc, set_prev_op, Hop.
    destruct (decide (o' = o)) as [->|]; [by rewrite decide_True|].
    rewrite decide_False by congruence. by apply (wf_ichain _ Hwf).
  - intros o' j i Ho' [(Hj & Hi)|(-> & ->)]%lookup_snoc_inv Hio;
      rewrite latest_app by lia; [by apply (wf_iprev _ Hwf)|].
    rewrite set_prev_op in Hio. cbn [prev set_prev]. pose proof (wf_ichain _ Hwf o' Ho').
    assert (o' = o) as -> by congruence. congruence.
Qed.

(** ** Rollback *)

Lemma last_snoc_inv {A} (l : list A) : (0 < length l)%nat -> exists k x, l = k ++ [x].
Proof.
  destruct l as [|y l] using rev_ind; cbn; [lia|]. eauto.
Qed.

(** Popping one instruction above BASE. *)
Lemma pop_wf b l i o c g : ir_wf b -> ins b = l ++ [i] -> (0 < length l)%nat -> ins_op i = Some o ->
  zset (chain b) (enum_code o) (prev i) = Some c ->
  ir_wf (mkBuf l (kk b) (k64s b) c g).
Proof.
  intros Hwf Hins Hl Hop Hc. pose proof (zlen_zset _ _ _ _ Hc) as Hlen.
  assert (Hi : ins b !! length l = Some i) by (by rewrite Hins, list_lookup_middle).
  assert (Hpre : forall j i', l !! j = Some i' -> ins b !! j = Some i').
  { intros j i' Hj. rewrite Hins. by apply lookup_app_l_Some. }
  assert (Hll : forall o' j, (j <= length l)%nat -> latest iref o' (ins b) j = latest iref o' l j).
  { intros. rewrite Hins. by apply latest_app. }
  assert (Hat : forall o', znth c (enum_code o') = if decide (o' = o) then Some (prev i) else chain_at b o').
  { intros o'. rewrite (znth_zset _ _ _ _ _ Hc). destruct (decide (o' = o)) as [->|Hne].
    - by rewrite decide_True.
    - rewrite decide_False; [done|]. by intros ?%enum_code_inj. }
  destruct (wf_ops _ Hwf _ _ Hi) as ((o0 & Ho0 & Hcst) & _). rewrite Hop in Ho0. injection Ho0 as <-.
  split; cbn [ins kk k64s chain guardemit].
  - rewrite Hlen. apply (wf_chain _ Hwf).
  - apply (wf_k64 _ Hwf).
  - apply (wf_nk _ Hwf).
  - pose proof (wf_nins _ Hwf) as Hn. rewrite Hins in Hn. unfold zlen in *. rewrite length_app in Hn. lia.
  - destruct (wf_base _ Hwf) as (ib & Hb & Hbop). exists ib. split; [|done].
    rewrite Hins, lookup_app_l in Hb by lia. done.
  - intros j i' Hj. apply (wf_ops _ Hwf j). auto.
  - intros o' Ho'. unfold chain_at. cbn [chain]. rewrite Hat, decide_False by congruence.
    by apply (wf_kchain _ Hwf).
  - apply (wf_kprev _ Hwf).
  - apply (wf_kuniq _ Hwf).
  - intros o' Ho'. unfold chain_at. cbn [chain]. rewrite Hat. rewrite <- Hll by lia.
    destruct (decide (o' = o)) as [->|Hne].
    + f_equal. by apply (wf_iprev _ Hwf).
    + rewrite (wf_ichain _ Hwf) by done. f_equal. rewrite Hins, length_app, Nat.add_1_r.
      rewrite latest_snoc, decide_False by congruence. by rewrite latest_app.
  - intros o' j i' Ho' Hj Hio'. rewrite <- Hll by (apply lookup_lt_Some in Hj; lia).
    apply (wf_iprev _ Hwf); auto.
Qed.

Lemma rollback_loop_wf b fuel n : ir_wf b -> (0 < n <= length (ins b))%nat ->
  (length (ins b) - n < fuel)%nat ->
  exists b', rollback_loop fuel b (iref n) = Some b' /\ ir_wf b' /\
    ins b' = take n (ins b) /\ kk b' = kk b /\ k64s b' = k64s b.
Proof.
  revert b. induction fuel as [|fuel IH]; intros b Hwf Hn Hf; [lia|]. cbn [rollback_loop].
  unfold nins, iref, zlen. destruct (Z.ltb_spec (REF_BIAS + Z.of_nat n) (REF_BIAS + Z.of_nat (length (ins b)))).
  - destruct (last_snoc_inv (ins b)) as (l & i & Hins); [lia|].
    pose proof (f_equal length Hins) as Hlen. rewrite length_app in Hlen. cbn [length] in Hlen.
    assert (last (ins b) = Some i) as -> by (by rewrite Hins, last_snoc). cbn [option_bind mbind].
    assert (take (length (ins b) - 1) (ins b) = l) as Ht.
    { rewrite Hins. rewrite length_app. cbn [length]. rewrite Nat.add_sub. by rewrite take_app_length. }
    assert (Hi : ins b !! length l = Some i) by (by rewrite Hins, list_lookup_middle).
    destruct (wf_ops _ Hwf _ _ Hi) as ((o & Ho & Hcst) & _). rewrite Ho. cbv beta iota zeta.
    destruct (chain_at_Some b o Hwf) as [c0 Hc0]. apply znth_Some_lt in Hc0.
    destruct (zset_lt (chain b) (enum_code o) (prev i) Hc0) as [c Hc].
    cbn [chain with_ins]. rewrite Hc. cbv beta iota. unfold with_chain, with_ins. cbn [ins kk k64s chain guardemit].
    rewrite Ht.
    destruct (IH (mkBuf l (kk b) (k64s b) c (guardemit b))) as (b' & E & Hwf' & Hins' & Hkk & Hk64).
    + eapply pop_wf; try done. lia.
    + cbn [ins]. lia.
    + cbn [ins]. lia.
    + exists b'. split; [exact E|]. split; [done|]. cbn in Hins', Hkk, Hk64. split; [|done].
      rewrite Hins', Hins. rewrite take_app_le by lia. done.
  - exists b. split; [done|]. split; [done|]. split; [|done]. rewrite take_ge by lia. done.
Qed.

(** Rollback undoes emission: whatever has been emitted and interned since
    [b], as long as the instructions of [b] are still there, rolling back to
    [nins b] restores its instructions and, for every opcode of the
    instruction area, the head of its chain; the constants interned since stay
    and the buffer is well formed, so recording can go on from there. *)
Theorem rollback_restores (b b1 : IrBuf) (Hwf : ir_wf b) (Hwf1 : ir_wf b1)
    (Hpre : ins b `prefix_of` ins b1) :
  exists b2, rollback b1 (nins b) = Some b2 /\ ins b2 = ins b /\ nins b2 = nins b /\ ir_wf b2 /\
    (forall o, ins_chained o = true -> chain_at b2 o = chain_at b o) /\
    kk b2 = kk b1 /\ k64s b2 = k64s b1.
Proof.
  destruct Hpre as [l Hl]. pose proof (wf_base _ Hwf) as (ib & Hb & _). apply lookup_lt_Some in Hb.
  pose proof (f_equal length Hl) as Hlen. rewrite length_app in Hlen.
  destruct (rollback_loop_wf b1 (S (length (ins b1))) (length (ins b)) Hwf1) as (b2 & E & Hwf2 & Hins & Hkk);
    [lia|lia|]. exists b2. split; [exact E|].
  assert (Hi : ins b2 = ins b) by (by rewrite Hins, Hl, take_app_length).
  split; [done|]. split; [unfold nins; by rewrite Hi|]. split; [done|]. split; [|done].
  intros o Ho. rewrite (wf_ichain _ Hwf), (wf_ichain _ Hwf2) by done. by rewrite Hi.
Qed.

Lemma emit_ins_wf b f b' tr : ir_wf b -> emit_ins b f = Some (b', tr) ->
  zlen (ins b) < 0x7fff -> (forall o, ins_op f = Some o -> cst_op o = false) ->
  urange 16 (op1 f) -> urange 16 (op2 f) -> ir_wf b'.
Proof.
  intros Hwf E Hroom Hop H1 H2.
  assert (exists o, ins_op f = Some o) as [o Ho].
  { unfold emit_ins in E. destruct (ins_op f); [eauto|done]. }
  destruct (emit_ins_spec b f o) as (b2 & c & E2 & Hwf2 & _); auto. by simplify_eq.
Qed.

(** Two integer loads, their sum, and a constant. *)
Definition demo_step1 : option (IrBuf * Z) :=
  emit_ins (buf_new 0 0) (ins_new (irtg IROp.SLOAD IRT_INT) 1 0).
Definition demo_buf1 : IrBuf := default (buf_new 0 0) (fst <$> demo_step1).
Definition demo_step2 : option (IrBuf * Z) :=
  emit_ins demo_buf1 (ins_new (irtg IROp.SLOAD IRT_INT) 2 0).
Definition demo_buf2 : IrBuf := default (buf_new 0 0) (fst <$> demo_step2).
Definition demo_step3 : option (IrBuf * Z) :=
  emit_ins demo_buf2 (ins_new (irti IROp.ADD) (REF_BIAS + 1) (REF_BIAS + 2)).
Definition demo_buf : IrBuf := default (buf_new 0 0) (fst <$> demo_step3).

(** The side conditions of [emit_ins_wf] at a literal instruction. *)
Ltac emit_side :=
  match goal with
  | |- urange _ _ => unfold urange; vm_compute; split; congruence
  | |- forall o, _ => intros o E; vm_compute in E; injection E as <-; reflexivity
  | |- _ => vm_compute; reflexivity
  end.

Lemma demo_buf_wf : ir_wf demo_buf.
Proof.
  assert (ir_wf demo_buf1).
  { apply (emit_ins_wf (buf_new 0 0) (ins_new (irtg IROp.SLOAD IRT_INT) 1 0) demo_buf1
      (tref 0x8001 (Z.lor IRT_GUARD IRT_INT)) (buf_new_wf 0 0)); emit_side. }
  assert (ir_wf demo_buf2).
  { eapply (emit_ins_wf demo_buf1 (ins_new (irtg IROp.SLOAD IRT_INT) 2 0) demo_buf2
      (tref 0x8002 (Z.lor IRT_GUARD IRT_INT))); [done|..]; emit_side. }
  apply (emit_ins_wf demo_buf2 (ins_new (irti IROp.ADD) (REF_BIAS + 1) (REF_BIAS + 2)) demo_buf
      (tref 0x8003 IRT_INT)); [done|..]; emit_side.
Qed.

Lemma rollback_restores_witness :
  exists b2, rollback demo_buf 0x8001 = Some b2 /\ ins b2 = ins (buf_new 0 0).
Proof.
  assert (Hpre : ins (buf_new 0 0) `prefix_of` ins demo_buf).
  { eexists (drop 1 (ins demo_buf)). vm_compute. reflexivity. }
  destruct (rollback_restores (buf_new 0 0) demo_buf (buf_new_wf 0 0) demo_buf_wf Hpre)
    as (b2 & E & Hi & _).
  exists b2. split; [exact E|exact Hi].
Defined.

(** ** Common subexpressions *)

Lemma op12_inj i i' : urange 16 (op1 i) -> urange 16 (op2 i) ->
  urange 16 (op1 i') -> urange 16 (op2 i') -> op12 i = op12 i' -> op1 i = op1 i' /\ op2 i = op2 i'.
Proof.
  unfold urange, op12. intros. set (a := op1 i) in *. set (c := op2 i) in *.
  set (d := op1 i') in *. set (e := op2 i') in *. clearbody a c d e.
  assert (Hs : forall x y, 0 <= x < 2 ^ 16 -> Z.lor x (Z.shiftl y 16) = x + y * 2 ^ 16).
  { intros x y Hx. rewrite <- Z.shiftl_mul_pow2 by lia.
    assert (Z.land x (Z.shiftl y 16) = 0) as Hl by zbits.
    by rewrite <- Z.lxor_lor, Z.add_nocarry_lxor by done. }
  rewrite !Hs in * by lia. lia.
Qed.

(** The latest instruction of the chain with the key of [f] above [lim]. *)
Lemma cse_find_spec b o key lim n fuel : ir_wf b -> ins_chained o = true -> 0 <= lim ->
  (n <= length (ins b))%nat -> (n < fuel)%nat ->
  exists r, cse_find fuel b key lim (latest iref o (ins b) n) = Some r /\
    match r with
    | Some tr => exists j i, tr = tref (iref j) (ins_t i) /\ (j < n)%nat /\ lim < iref j /\
        ins b !! j = Some i /\ ins_op i = Some o /\ op12 i = key
    | None => forall j i, (j < n)%nat -> lim < iref j -> ins b !! j = Some i ->
        ins_op i = Some o -> op12 i <> key
    end.
Proof.
  intros Hwf Ho Hlim. revert fuel. induction n as [|n IH]; intros fuel Hn Hf.
  - destruct fuel as [|fuel]; [lia|]. exists None. cbn [cse_find latest].
    destruct (Z.ltb_spec lim 0); [lia|]. split; [done|]. intros; lia.
  - cbn [latest]. destruct (lookup_lt_is_Some_2 (ins b) n) as [i Hi]; [lia|]. rewrite Hi.
    destruct (decide (ins_op i = Some o)) as [Hio|Hio].
    + destruct fuel as [|fuel]; [lia|]. cbn [cse_find].
      destruct (Z.ltb_spec lim (iref n)).
      * rewrite ir_iref, Hi. destruct (Z.eqb_spec (op12 i) key).
        -- eexists. split; [done|]. exists n, i. auto 10 with lia.
        -- rewrite (wf_iprev _ Hwf o n i Ho Hi Hio).
           destruct (IH fuel ltac:(lia) ltac:(lia)) as (r & Hr & Hs). exists r. split; [done|].
           destruct r as [r|].
           ++ destruct Hs as (j & i' & ? & ? & ?). exists j, i'. auto with lia.
           ++ intros j i' Hj Hl Hi' Hio'. destruct (decide (j = n)) as [->|]; [congruence|].
              apply (Hs j i'); auto with lia.
      * exists None. split; [done|]. intros j i' Hj Hl. unfold iref in *. lia.
    + destruct (IH fuel ltac:(lia) ltac:(lia)) as (r & Hr & Hs). exists r. split; [done|].
      destruct r as [r|].
      * destruct Hs as (j & i' & ? & ? & ?). exists j, i'. auto with lia.
      * intros j i' Hj Hl Hi' Hio'. destruct (decide (j = n)) as [->|]; [congruence|].
        apply (Hs j i'); auto with lia.
Qed.

(** The instruction of [b] equal to [f] that CSE may use. *)
Definition cse_hit (b : IrBuf) (f : IRIns) (o : IROp.t) (j : nat) (i : IRIns) : Prop :=
  ins b !! j = Some i /\ ins_op i = Some o /\ op1 i = op1 f /\ op2 i = op2 f /\
  Z.max (op1 f) (op2 f) < iref j.

Lemma opt_cse_spec b f o : ir_wf b -> zlen (ins b) < 0x7fff ->
  ins_op f = Some o -> ins_chained o = true -> urange 16 (op1 f) -> urange 16 (op2 f) ->
  (exists j i, opt_cse b f = Some (b, tref (iref j) (ins_t i)) /\ cse_hit b f o j i) \/
  (opt_cse b f = emit_ins b f /\ forall j i, ~ cse_hit b f o j i).
Proof.
  intros Hwf Hroom Hop Ho H1 H2.
  destruct (cse_find_spec b o (op12 f) (Z.max (op1 f) (op2 f)) (length (ins b))
    (S (length (ins b) + length (kk b))) Hwf Ho) as (r & E & Hr); [unfold urange in *; lia|lia|lia|].
  assert (opt_cse b f = match r with Some tr => Some (b, tr) | None => emit_ins b f end) as Hcse.
  { unfold opt_cse. rewrite Hop. cbv beta iota zeta. rewrite (wf_ichain _ Hwf) by done.
    cbv beta iota. by rewrite E. }
  rewrite Hcse. destruct r as [tr|].
  - left. destruct Hr as (j & i & -> & Hj & Hlim & Hi & Hio & H12). exists j, i. split; [done|].
    destruct (wf_ops _ Hwf _ _ Hi) as (_ & Hu1 & Hu2).
    destruct (op12_inj i f) as [E1 E2]; try done.
  - right. split; [done|]. intros j i (Hi & Hio & E1 & E2 & Hlim).
    apply (Hr j i); auto; [by apply lookup_lt_Some in Hi|]. unfold op12. by rewrite E1, E2.
Qed.


