(* ===== verification/FoldTerm.v ===== *)
(** * FOLD terminates

    Every rule of [fold_step] that asks for another pass lowers a measure, so
    the retry loop of [opt_fold] ends; a folded instruction adds at most four
    constants and one instruction and keeps the buffer well formed. *)

From Stdlib Require Import ZArith Lia Bool.
From stdpp Require Import base decidable numbers option list.
From S2P Require Import Prelude Float64 Ir IrSpec IrInv OptMem Fold IrEmit.

(** ** Instructions FOLD has rules for *)

Definition unary (o : IROp.t) : bool :=
  match o with IROp.NEG | IROp.ABS | IROp.BNOT | IROp.BSWAP => true | _ => false end.

(** The involutions the rules look through. *)
Definition involution (o : IROp.t) : bool :=
  match o with IROp.NEG | IROp.BNOT | IROp.BSWAP => true | _ => false end.

Definition arith (o : IROp.t) : bool :=
  match o with
  | IROp.ADD | IROp.SUB | IROp.MUL | IROp.DIV | IROp.MOD | IROp.POW | IROp.NEG | IROp.ABS
  | IROp.MIN | IROp.MAX | IROp.ADDOV | IROp.SUBOV | IROp.MULOV | IROp.BNOT | IROp.BSWAP
  | IROp.BAND | IROp.BOR | IROp.BXOR | IROp.BSHL | IROp.BSHR | IROp.BSAR | IROp.BROL | IROp.BROR
  | IROp.EQ | IROp.NE | IROp.LT | IROp.GE | IROp.LE | IROp.GT | IROp.ULT | IROp.UGE | IROp.ULE
  | IROp.UGT => true
  | _ => false
  end.

(** The opcodes [opt_fold] sends to the rules and to CSE. *)
Definition foldable (o : IROp.t) : bool :=
  ins_chained o && bool_decide ((irm_kind <$> ir_mode o) = Some IRM_N).

Lemma arith_foldable o : arith o = true -> foldable o = true.
Proof. destruct o; try done; intros _; vm_compute; reflexivity. Qed.

Record valid (b : IrBuf) (f : IRIns) (o : IROp.t) : Prop := {
  valid_op : ins_op f = Some o;
  valid_foldable : foldable o = true;
  valid_op1 : 0 <= op1 f < nins b;
  valid_op2 : 0 <= op2 f < nins b;
  valid_ref1 : arith o = true -> nk b <= op1 f;
  valid_ref2 : arith o = true -> unary o = false -> nk b <= op2 f;
}.

(** Operands of an involution precede it; the constant area has none. *)
Record fold_wf (b : IrBuf) : Prop := {
  fw_ir : ir_wf b;
  fw_inv : forall r i o, ir b r = Some i -> ins_op i = Some o -> involution o = true ->
    REF_BIAS <= r /\ nk b <= op1 i < r;
}.

(** ** Extensions *)

Lemma kext_nins n b b' : kext n b b' -> nins b' = nins b.
Proof. intros H. unfold nins. by rewrite (kext_ins _ _ _ H). Qed.

Lemma kext_nk n b b' : kext n b b' -> nk b' <= nk b.
Proof.
  intros H. unfold nk, zlen. pose proof (prefix_length _ _ (kext_kk _ _ _ H)). lia.
Qed.

Lemma kext_ir n b b' r i : kext n b b' -> ir b r = Some i -> ir b' r = Some i.
Proof.
  intros H Hi. pose proof (ir_Some_valid _ _ _ Hi) as Hv.
  destruct (ref_cases b r Hv) as [(j & -> & Hj)|(j & -> & Hj)].
  - rewrite ir_kref in *. by eapply prefix_lookup_Some; [|apply (kext_kk _ _ _ H)].
  - rewrite ir_iref in *. by rewrite (kext_ins _ _ _ H).
Qed.

Lemma kext_k64_val n b b' r u : kext n b b' -> k64_val b r = Some u -> k64_val b' r = Some u.
Proof.
  unfold k64_val. intros H Hu. pose proof (znth_Some_lt _ _ _ Hu) as Hr. unfold znth in *.
  destruct (Z.ltb_spec (REF_BIAS - 1 - r) 0); [done|].
  by eapply prefix_lookup_Some; [|apply (kext_k64 _ _ _ H)].
Qed.

Lemma interned_fold_wf b b' o i r v : fold_wf b -> cst_op o = true -> ins_op i = Some o ->
  interned b b' o i r v -> fold_wf b'.
Proof.
  intros [Hwf Hinv] Ho Hi (Hwf' & Hext & _ & Hor). split; [done|].
  pose proof (kext_nk _ _ _ Hext) as Hnk.
  intros r0 i0 o0 Hr0 Hop0 Hio0. destruct Hor as [[-> _]|[c Hkk]]; [by apply (Hinv r0 i0 o0)|].
  destruct (ref_cases b' r0 (ir_Some_valid _ _ _ Hr0)) as [(j & -> & Hj)|(j & -> & Hj)].
  - rewrite ir_kref, Hkk in Hr0. apply lookup_snoc_inv in Hr0 as [(Hj' & H)|(-> & ->)].
    + destruct (Hinv (kref j) i0 o0) as [? ?]; try done; [by rewrite ir_kref|]. lia.
    + rewrite set_prev_op in Hop0. exfalso. assert (o0 = o) as -> by congruence. by destruct o.
  - rewrite ir_iref, (kext_ins _ _ _ Hext) in Hr0.
    destruct (Hinv (iref j) i0 o0) as [? ?]; try done; [by rewrite ir_iref|]. lia.
Qed.

(** ** The measure *)

Definition weight (r : Z) : Z := if REF_BIAS <=? r then r - REF_BIAS + 1 else 0.

Definition major (o : IROp.t) : Z :=
  match o with
  | IROp.DIV | IROp.POW => 3
  | IROp.MUL | IROp.MULOV => 2
  | IROp.MOD => 1
  | _ => 0
  end.

Definition minor (o : IROp.t) : Z := match o with IROp.SUB => 1 | _ => 0 end.

Definition opnd_weight (o : IROp.t) (f : IRIns) : Z :=
  weight (op1 f) + if unary o then 0 else weight (op2 f).

Definition wbound (b : IrBuf) : Z := 2 * zlen (ins b) + 1.

Definition measure (b : IrBuf) (o : IROp.t) (f : IRIns) : Z :=
  major o * (4 * wbound b) + 4 * opnd_weight o f + 2 * minor o + (if op1 f <? op2 f then 1 else 0).

(** The constants the remaining passes may intern, the last one apart. *)
Definition cpot (o : IROp.t) (f : IRIns) : Z :=
  match o with
  | IROp.ADD => (if irref_isk (op1 f) then 0 else 1) + (if irref_isk (op2 f) then 0 else 1)
  | IROp.SUB => if irref_isk (op1 f) then 1 else 2
  | IROp.MUL | IROp.POW => 2
  | IROp.DIV => 3
  | IROp.MOD => 1
  | _ => 0
  end.

Lemma weight_range b r : r < nins b -> 0 <= weight r <= zlen (ins b).
Proof.
  unfold weight, nins. intros. pose proof (zlen_nonneg (ins b)).
  destruct (Z.leb_spec REF_BIAS r); lia.
Qed.

Lemma weight_lt r a : REF_BIAS <= r -> a < r -> weight a < weight r.
Proof. unfold weight. intros. destruct (Z.leb_spec REF_BIAS r), (Z.leb_spec REF_BIAS a); lia. Qed.

Lemma weight_const r : irref_isk r = true -> weight r = 0.
Proof. unfold irref_isk, weight. intros H%Z.ltb_lt. destruct (Z.leb_spec REF_BIAS r); lia. Qed.

Lemma opnd_weight_range b o f : op1 f < nins b -> op2 f < nins b ->
  0 <= opnd_weight o f < wbound b.
Proof.
  intros H1%weight_range H2%weight_range. unfold opnd_weight, wbound. destruct (unary o); lia.
Qed.

Lemma measure_nonneg b o f : op1 f < nins b -> op2 f < nins b -> 0 <= measure b o f.
Proof.
  intros H1 H2. pose proof (opnd_weight_range b o f H1 H2). unfold measure.
  pose proof (zlen_nonneg (ins b)). assert (0 <= wbound b) by (unfold wbound; lia).
  assert (0 <= major o * (4 * wbound b)) by (destruct o; cbn; lia).
  assert (0 <= minor o) by (destruct o; cbn; lia). destruct (_ <? _); lia.
Qed.

(** A pass that lowers the opcode's class. *)
Lemma measure_major b o f o' f' : op1 f < nins b -> op2 f < nins b ->
  op1 f' < nins b -> op2 f' < nins b -> major o' < major o -> minor o' = 0 ->
  measure b o' f' < measure b o f.
Proof.
  intros H1 H2 H1' H2' Hm Hmin. pose proof (opnd_weight_range b o f H1 H2).
  pose proof (opnd_weight_range b o' f' H1' H2'). unfold measure. rewrite Hmin.
  pose proof (zlen_nonneg (ins b)). assert (0 < wbound b) by (unfold wbound; lia).
  assert (0 <= minor o) by (destruct o; cbn; lia).
  assert (major o' * (4 * wbound b) + 4 * wbound b <= major o * (4 * wbound b)) by nia.
  destruct (op1 f <? op2 f), (op1 f' <? op2 f'); lia.
Qed.

(** A pass that stays in the class and lowers the operands' weight. *)
Lemma measure_weight b o f o' f' : major o' = major o -> 0 <= minor o' <= 1 ->
  opnd_weight o' f' < opnd_weight o f -> measure b o' f' < measure b o f.
Proof.
  intros Hm Hmin Hw. unfold measure. rewrite Hm.
  assert (0 <= minor o) by (destruct o; cbn; lia).
  destruct (op1 f <? op2 f), (op1 f' <? op2 f'); lia.
Qed.

(** ** Outcomes of one pass *)

(** [b'] continues [b] with at most one instruction and [n] constants. *)
Record ext (n : Z) (b b' : IrBuf) : Prop := {
  ext_ins : ins b `prefix_of` ins b';
  ext_kk : kk b `prefix_of` kk b';
  ext_k64 : k64s b `prefix_of` k64s b';
  ext_ins_len : zlen (ins b') <= zlen (ins b) + 1;
  ext_kk_len : zlen (kk b') <= zlen (kk b) + n;
}.

Lemma kext_ext n b b' : kext n b b' -> ext n b b'.
Proof. intros [Hi ? ? ? _ _]. split; try done; rewrite Hi; [done|lia]. Qed.

Lemma ext_refl n b : 0 <= n -> ext n b b.
Proof. intros. split; try done; lia. Qed.

Lemma kext_ext_trans n m k b1 b2 b3 : kext n b1 b2 -> ext m b2 b3 -> n + m <= k -> ext k b1 b3.
Proof.
  intros [Hi ? ? ? _ _] [? ? ? ? ?] ?. rewrite Hi in *. split; try (by etrans); try done; lia.
Qed.

Definition step_ok (b : IrBuf) (o : IROp.t) (f : IRIns) (p : Pass) : Prop :=
  p = Some (Err GFAIL) \/
  exists b' f' s, p = Some (Ok (b', f', s)) /\ fold_wf b' /\
    match s with
    | Retry => exists n o', 0 <= n /\ kext n b b' /\ valid b' f' o' /\ arith o' = true /\
        measure b o' f' < measure b o f /\ n + cpot o' f' <= cpot o f
    | Ref r => b' = b /\ nk b <= r < nins b
    | TRef tr => ext (cpot o f + 1) b b' /\ (tr = REF_DROP \/ nk b' <= tref_ref tr < nins b')
    | Drop => b' = b
    | Cse => b' = b /\ f' = f
    end.

Lemma cpot_range o f : 0 <= cpot o f <= 3.
Proof. destruct o; cbn; try lia; destruct (irref_isk (op1 f)), (irref_isk (op2 f)); lia. Qed.

Lemma srange_ins_i i : srange 32 (ins_i i).
Proof. unfold ins_i. apply swrap_range. lia. Qed.

Lemma denotes_ir b o r v : denotes b o r v -> exists i, ir b r = Some i /\ ins_op i = Some o.
Proof. intros (j & i & -> & Hi & Hop & _). exists i. by rewrite ir_kref. Qed.

Lemma nk_nins b : nk b <= REF_BIAS <= nins b.
Proof. unfold nk, nins. pose proof (zlen_nonneg (kk b)). pose proof (zlen_nonneg (ins b)). lia. Qed.

Section Rules.
Context (b : IrBuf) (o : IROp.t) (f : IRIns).
Context (Hwf : fold_wf b) (Hroom : zlen (kk b) + cpot o f < 0x7fff) (Hv : valid b f o).

Lemma step_err : step_ok b o f (Some (Err GFAIL)).
Proof. by left. Qed.

Lemma step_cse : step_ok b o f (done_ b f Cse).
Proof. right. by exists b, f, Cse. Qed.

Lemma step_drop : step_ok b o f (done_ b f Drop).
Proof. right. by exists b, f, Drop. Qed.

Lemma step_cond c : step_ok b o f (condfold b f c).
Proof. destruct c; [apply step_drop|apply step_err]. Qed.

Lemma step_ref r : nk b <= r < nins b -> step_ok b o f (done_ b f (Ref r)).
Proof. intros. right. by exists b, f, (Ref r). Qed.

Lemma kk_room : zlen (kk b) < 0x7fff.
Proof. pose proof (cpot_range o f). lia. Qed.

(** The constant a rule interns, tagged. *)
Lemma interned_tref b' o' i r v t : urange 8 t -> cst_op o' = true -> ins_op i = Some o' ->
  interned b b' o' i r v ->
  fold_wf b' /\ kext 1 b b' /\ tref_ref (tref r t) = r /\ uwrap 16 r = r /\
  nk b' <= r < REF_BIAS /\ (exists i, ir b' r = Some i /\ ins_op i = Some o').
Proof.
  intros Ht Ho Hi Hint. pose proof Hint as (Hwf' & Hext & Hden & _).
  destruct (denotes_tref b' o' r v t Hwf' Ht Hden) as [E Hu].
  split; [by apply (interned_fold_wf b b' o' i r v)|]. split; [done|]. split; [done|].
  split; [by apply uwrap_small|]. split; [by eapply denotes_valid|]. by eapply denotes_ir.
Qed.

Lemma int_type_u8 : urange 8 IRT_INT.
Proof. unfold urange. cbv. split; congruence. Qed.

Lemma num_type_u8 : urange 8 IRT_NUM.
Proof. unfold urange. cbv. split; congruence. Qed.

Lemma kint_step k : srange 32 k -> exists b' r, kint b k = Some (b', tref r IRT_INT) /\
  fold_wf b' /\ kext 1 b b' /\ tref_ref (tref r IRT_INT) = r /\ uwrap 16 r = r /\
  nk b' <= r < REF_BIAS /\ (exists i, ir b' r = Some i /\ ins_op i = Some IROp.KINT).
Proof.
  intros Hk. destruct (kint_interned b k (fw_ir _ Hwf) kk_room Hk) as (b' & r & E & Hi).
  exists b', r. split; [done|]. by eapply interned_tref; [apply int_type_u8| | |done].
Qed.

Lemma knum_step n : exists b' r, knum b n = Some (b', tref r IRT_NUM) /\
  fold_wf b' /\ kext 1 b b' /\ tref_ref (tref r IRT_NUM) = r /\ uwrap 16 r = r /\
  nk b' <= r < REF_BIAS /\ (exists i, ir b' r = Some i /\ ins_op i = Some IROp.KNUM).
Proof.
  destruct (k64_interned b IROp.KNUM n (fw_ir _ Hwf) kk_room) as (b' & r & E & Hi); [by left|].
  exists b', r. split; [done|]. by eapply interned_tref; [apply num_type_u8| | |done].
Qed.

Lemma step_kint k : srange 32 k -> step_ok b o f (ret_kint b f k).
Proof.
  intros Hk. destruct (kint_step k Hk) as (b' & r & E & Hwf' & Hext & Er & _ & Hr & _).
  right. unfold ret_kint. rewrite E. exists b', f, (TRef (tref r IRT_INT)).
  split; [done|]. split; [done|]. split.
  - pose proof (cpot_range o f). apply kext_ext in Hext as []. split; try done. lia.
  - right. rewrite Er. pose proof (nk_nins b'). lia.
Qed.

Lemma step_knum n : step_ok b o f (ret_knum b f n).
Proof.
  destruct (knum_step n) as (b' & r & E & Hwf' & Hext & Er & _ & Hr & _).
  right. unfold ret_knum. rewrite E. exists b', f, (TRef (tref r IRT_NUM)).
  split; [done|]. split; [done|]. split.
  - pose proof (cpot_range o f). apply kext_ext in Hext as []. split; try done. lia.
  - right. rewrite Er. pose proof (nk_nins b'). lia.
Qed.

Lemma step_retry b' f' n o' : 0 <= n -> fold_wf b' -> kext n b b' -> valid b' f' o' ->
  arith o' = true -> measure b o' f' < measure b o f -> n + cpot o' f' <= cpot o f ->
  step_ok b o f (done_ b' f' Retry).
Proof. intros. right. exists b', f', Retry. split; [done|]. split; [done|]. by exists n, o'. Qed.

End Rules.

(** ** Operands *)

Lemma is_op_Some i o : is_op (Some i) o = true <-> ins_op i = Some o.
Proof. unfold is_op, opnd_op. cbn. apply bool_decide_eq_true. Qed.

Lemma const_operand b r i o : ir_wf b -> ir b r = Some i -> ins_op i = Some o -> cst_op o = true ->
  irref_isk r = true /\ exists u, k64_val b r = Some u.
Proof.
  intros Hwf Hr Hop Ho. destruct (ref_cases b r (ir_Some_valid _ _ _ Hr)) as [(j & -> & Hj)|(j & -> & Hj)].
  - split; [unfold irref_isk, kref; apply Z.ltb_lt; lia|]. rewrite k64_val_kref.
    apply lookup_lt_is_Some_2. by rewrite (wf_k64 _ Hwf).
  - rewrite ir_iref in Hr. destruct (wf_ops _ Hwf _ _ Hr) as ((o' & Hop' & Hc) & _). congruence.
Qed.

Lemma valid_bin b f o : ir_wf b -> ins_op f = Some o -> arith o = true ->
  nk b <= op1 f < nins b -> nk b <= op2 f < nins b -> valid b f o.
Proof.
  intros Hwf Hop Ho H1 H2. pose proof (wf_nk _ Hwf). unfold nk, REF_BIAS in *.
  split; auto; try lia; unfold nk, REF_BIAS; try lia. by apply arith_foldable.
Qed.

(** Ground range facts of a 32-bit pattern, by its sign. *)
Lemma srange_sign x : srange 32 x <-> Z.shiftr x 31 = 0 \/ Z.shiftr x 31 = -1.
Proof.
  unfold srange. rewrite Z.shiftr_div_pow2 by lia. change (2 ^ (32 - 1)) with (2 ^ 31). split; intros H.
  - destruct (Z.ltb_spec x 0).
    + right. symmetry. apply Z.div_unique with (x + 2 ^ 31); lia.
    + left. apply Z.div_small. lia.
  - pose proof (Z.div_mod x (2 ^ 31)). pose proof (Z.mod_pos_bound x (2 ^ 31)). lia.
Qed.

Lemma srange_land x y : srange 32 x -> srange 32 y -> srange 32 (Z.land x y).
Proof.
  rewrite !srange_sign, Z.shiftr_land. by intros [-> | ->] [-> | ->]; cbn; auto.
Qed.

Lemma srange_lor x y : srange 32 x -> srange 32 y -> srange 32 (Z.lor x y).
Proof.
  rewrite !srange_sign, Z.shiftr_lor. by intros [-> | ->] [-> | ->]; cbn; auto.
Qed.

Lemma srange_lxor x y : srange 32 x -> srange 32 y -> srange 32 (Z.lxor x y).
Proof.
  rewrite !srange_sign, Z.shiftr_lxor. by intros [-> | ->] [-> | ->]; cbn; auto.
Qed.

Lemma srange_lnot x : srange 32 x -> srange 32 (Z.lnot x).
Proof. unfold srange, Z.lnot. lia. Qed.

Lemma srange_shiftr x n : 0 <= n -> srange 32 x -> srange 32 (Z.shiftr x n).
Proof.
  intros Hn. rewrite !srange_sign, Z.shiftr_shiftr by lia.
  replace (n + 31) with (31 + n) by lia. rewrite <- Z.shiftr_shiftr by lia.
  intros [-> | ->]; [left; by rewrite Z.shiftr_0_l|right].
  rewrite Z.shiftr_div_pow2 by lia. pose proof (Z.pow_pos_nonneg 2 n).
  symmetry. apply Z.div_unique with (2 ^ n - 1); lia.
Qed.

Lemma kfold_intop_range x y o z : srange 32 x -> srange 32 y -> kfold_intop x y o = Some z ->
  srange 32 z.
Proof.
  intros Hx Hy. assert (Hsh : 0 <= Z.land (uwrap 32 y) 31).
  { apply Z.land_nonneg. lia. }
  pose proof (fun x => swrap_range 32 x ltac:(lia)) as Hsw.
  destruct o; cbn [kfold_intop]; try done; try (by intros [= <-]).
  - intros [= <-]. by apply srange_land.
  - intros [= <-]. by apply srange_lor.
  - intros [= <-]. by apply srange_lxor.
  - intros [= <-]. by apply srange_shiftr.
  - destruct (_ =? 0); [done|]. intros [= <-]. unfold wrapping_rem. by destruct (_ && _).
  - intros [= <-]. unfold srange in *. lia.
  - intros [= <-]. unfold srange in *. lia.
Qed.

(** ** Powers *)

Section Pow.
Context `{Libm}.

Lemma pow_even_total fuel x n : 1 <= n < 2 ^ Z.of_nat fuel ->
  exists x' n', pow_even fuel x n = Some (x', n') /\ 1 <= n' <= n.
Proof.
  revert x n. induction fuel as [|fuel IH]; intros x n Hn; [cbn in Hn; lia|]. cbn [pow_even].
  change (Z.land n 1) with (Z.land n (Z.ones 1)). rewrite Z.land_ones by lia.
  destruct (Z.eqb_spec (n mod 2 ^ 1) 0) as [E|E]; [|exists x, n; split; [done|lia]].
  rewrite Z.shiftr_div_pow2 by lia. change (2 ^ 1) with 2 in *. pose proof (Z.div_mod n 2).
  rewrite Nat2Z.inj_succ, Z.pow_succ_r in Hn by lia.
  destruct (IH (f64_mul x x) (n / 2)) as (x' & n' & E' & Hn'); [lia|]. exists x', n'. split; [done|lia].
Qed.

Lemma pow_rest_total fuel x z n : 0 <= n < 2 ^ (Z.of_nat fuel - 1) -> (0 < fuel)%nat ->
  is_Some (pow_rest fuel x z n).
Proof.
  revert x z n. induction fuel as [|fuel IH]; intros x z n Hn Hf; [lia|]. cbn [pow_rest].
  destruct (Z.eqb_spec n 0); [by eexists|]. rewrite Z.shiftr_div_pow2 by lia.
  change (2 ^ 1) with 2. pose proof (Z.div_mod n 2). pose proof (Z.mod_pos_bound n 2).
  rewrite Nat2Z.inj_succ in Hn. replace (Z.succ (Z.of_nat fuel) - 1) with (Z.of_nat fuel) in Hn by lia.
  destruct fuel as [|fuel]; [cbn in Hn; lia|].
  apply IH; [|lia]. rewrite Nat2Z.inj_succ, Z.pow_succ_r in Hn by lia.
  rewrite Nat2Z.inj_succ. replace (Z.succ (Z.of_nat fuel) - 1) with (Z.of_nat fuel) by lia. lia.
Qed.

(** The squaring loops of the power run at most 18 times. *)
Lemma vm_pow_total x y : is_Some (vm_pow x y).
Proof.
  unfold vm_pow. destruct (_ && _) eqn:E; [|by eexists].
  apply andb_true_iff in E as [_ E%Z.leb_le]. destruct (Z.leb_spec 1 (f64_to_i32 y)).
  - destruct (pow_even_total 18 x (f64_to_i32 y)) as (x' & n' & -> & Hn); [lia|].
    apply pow_rest_total; [|lia]. rewrite Z.shiftr_div_pow2 by lia.
    change (2 ^ 1) with 2. pose proof (Z.div_mod n' 2). pose proof (Z.mod_pos_bound n' 2).
    change (2 ^ (Z.of_nat 18 - 1)) with 131072. lia.
  - destruct (_ =? 0); by eexists.
Qed.

Lemma fold_numarith_total x y o' : is_Some (fold_numarith x y o').
Proof. destruct o'; cbn; try (by eexists); apply vm_pow_total. Qed.

End Pow.

(** ** The rules, opcode by opcode *)

(** Split on the condition of the next rule. *)
Ltac rule :=
  lazymatch goal with
  | |- step_ok _ _ _ (if ?c then _ else _) => let E := fresh "E" in destruct c eqn:E
  end;
  repeat match goal with
  | H : _ && _ = true |- _ => apply andb_true_iff in H as [? ?]
  | H : is_op (Some _) _ = true |- _ => apply is_op_Some in H
  end.

(** The operands of a retried instruction, its measure and its constants. *)
Ltac ops := cbn [op1 op2 set_op1 set_op2 set_op set_prev].

Section Binary.
Context `{Libm} (b : IrBuf) (f il ir_ : IRIns) (o : IROp.t).
Context (Hwf : fold_wf b) (Hroom : zlen (kk b) + cpot o f < 0x7fff) (Hv : valid b f o).
Context (Hb : arith o = true) (Hun : unary o = false).
Context (Hl : ir b (op1 f) = Some il) (Hr : ir b (op2 f) = Some ir_).

Let r1 : nk b <= op1 f < nins b := ir_Some_valid _ _ _ Hl.
Let r2 : nk b <= op2 f < nins b := ir_Some_valid _ _ _ Hr.

(** A retry that interns nothing. *)
Lemma retry0 f' o' : ins_op f' = Some o' -> arith o' = true ->
  nk b <= op1 f' < nins b -> nk b <= op2 f' < nins b ->
  measure b o' f' < measure b o f -> cpot o' f' <= cpot o f ->
  step_ok b o f (done_ b f' Retry).
Proof.
  intros. eapply (step_retry _ _ _ _ _ 0 o'); try done; try lia; [by apply kext_refl|].
  by apply valid_bin; [apply Hwf|..].
Qed.

(** A retry with the operand [a] of an involution in the place of it. *)
Lemma inv_operand r i o' : ir b r = Some i -> ins_op i = Some o' -> involution o' = true ->
  nk b <= op1 i < nins b /\ weight (op1 i) < weight r /\ irref_isk r = false.
Proof.
  intros Hi Hop Hinv. destruct (fw_inv _ Hwf _ _ _ Hi Hop Hinv) as (Hbias & Hlt).
  pose proof (ir_Some_valid _ _ _ Hi). split; [lia|]. split; [apply weight_lt; lia|].
  unfold irref_isk. by apply Z.ltb_ge.
Qed.

Lemma step_swap : minor o = 0 ->
  (forall f', op1 f' = op2 f -> op2 f' = op1 f -> cpot o f' <= cpot o f) ->
  step_ok b o f (comm_swap b f).
Proof.
  intros Hmin Hc. unfold comm_swap. rule; [|by apply step_cse].
  apply Z.ltb_lt in E. apply retry0 with o; try done; ops; try lia.
  - apply Hv.
  - unfold measure, opnd_weight. rewrite Hun. ops.
    destruct (Z.ltb_spec (op2 f) (op1 f)), (Z.ltb_spec (op1 f) (op2 f)); lia.
  - by apply Hc.
Qed.

Lemma kfold_num_ok o' : ins_op il = Some IROp.KNUM -> ins_op ir_ = Some IROp.KNUM ->
  step_ok b o f (kfold_num b f o').
Proof.
  intros Hil Hir. unfold kfold_num, knum_val.
  destruct (const_operand b _ _ _ (fw_ir _ Hwf) Hl Hil eq_refl) as [_ [x ->]].
  destruct (const_operand b _ _ _ (fw_ir _ Hwf) Hr Hir eq_refl) as [_ [y ->]].
  destruct (fold_numarith_total x y o') as [z ->]. by apply step_knum.
Qed.

Lemma kfold_int_ok o' : (forall x y, y = ins_i ir_ -> is_Some (kfold_intop x y o')) ->
  step_ok b o f (kfold_int b f (Some il) (Some ir_) o').
Proof.
  intros Htot. unfold kfold_int. cbn [opnd_i fmap option_fmap option_map].
  destruct (Htot (ins_i il) (ins_i ir_) eq_refl) as [z Hz]. rewrite Hz.
  apply step_kint; [done..|]. eapply kfold_intop_range; [| |exact Hz]; apply srange_ins_i.
Qed.

(** The second operand replaced by an interned constant. *)
Lemma retry_kint_op2 g o' k : ins_op g = Some o' -> arith o' = true -> op1 g = op1 f ->
  srange 32 k ->
  o' = IROp.ADD /\ (if irref_isk (op1 f) then 1 else 2) <= cpot o f \/
    (o' = IROp.BSHL \/ o' = IROp.BAND) /\ 1 <= cpot o f ->
  (forall f', op1 f' = op1 f -> irref_isk (op2 f') = true -> op2 f' < nins b ->
     measure b o' f' < measure b o f) ->
  step_ok b o f (let? ' (b', f') := kint_op2 b g k in done_ b' f' Retry).
Proof.
  intros Hg Ho' Hg1 Hk Hc Hm. unfold kint_op2.
  destruct (kint_step b o f Hwf Hroom k Hk) as (b' & r & -> & Hwf' & Hext & -> & -> & Hrr & _).
  pose proof (kext_nk _ _ _ Hext). pose proof (kext_nins _ _ _ Hext). pose proof (nk_nins b').
  assert (Hrk : irref_isk r = true) by (apply Z.ltb_lt; lia).
  apply (step_retry _ _ _ _ _ 1 o'); try done.
  - apply valid_bin; ops; first [done|apply Hwf'|lia|rewrite Hg1; lia].
  - apply Hm; ops; first [done|lia].
  - destruct Hc as [[-> Hc]|[[-> | ->] Hc]]; cbn [cpot]; ops; rewrite ?Hrk, ?Hg1; try lia.
    destruct (irref_isk (op1 f)); lia.
Qed.
End Binary.

Section ArithRules.
Context `{Libm} (b : IrBuf) (f il ir_ : IRIns).
Context (Hwf : fold_wf b) (Hl : ir b (op1 f) = Some il) (Hr : ir b (op2 f) = Some ir_).

Let r1 : nk b <= op1 f < nins b := ir_Some_valid _ _ _ Hl.
Let r2 : nk b <= op2 f < nins b := ir_Some_valid _ _ _ Hr.

(** The weights of the operands of an instruction that keeps two. *)
Ltac weights := unfold opnd_weight; cbn [unary]; ops; lia.

Lemma fold_add_ok : valid b f IROp.ADD -> zlen (kk b) + cpot IROp.ADD f < 0x7fff ->
  step_ok b IROp.ADD f (fold_add b f (Some il) (Some ir_)).
Proof.
  intros Hv Hroom. unfold fold_add.
  rule; [by eapply kfold_num_ok|]. rule; [by eapply kfold_int_ok|].
  rule.
  { rule; [by apply step_cse|]. cbn [opnd_op1 fmap option_fmap option_map].
    destruct (inv_operand b Hwf _ _ _ Hl ltac:(eassumption) eq_refl) as (Ha & Hw & Hk).
    eapply retry0 with (o' := IROp.SUB); try done; ops; try lia; [apply set_op_op|..].
    - apply measure_weight; [done|cbn; lia|]. weights.
    - cbn [cpot]. ops. rewrite Hk. destruct (irref_isk (op2 f)); lia. }
  rule.
  { rule; [by apply step_cse|]. cbn [opnd_op1 fmap option_fmap option_map].
    destruct (inv_operand b Hwf _ _ _ Hr ltac:(eassumption) eq_refl) as (Ha & Hw & Hk).
    eapply retry0 with (o' := IROp.SUB); try done; ops; try lia; [apply set_op_op|..].
    - apply measure_weight; [done|cbn; lia|]. weights.
    - cbn [cpot]. ops. rewrite Hk. destruct (irref_isk (op1 f)); lia. }
  rule; [by apply step_ref|].
  eapply step_swap; try done.
  intros f' E1' E2'. cbn [cpot]. rewrite E1', E2'. lia.
Qed.

(** An interned FP constant as the operand of a retried instruction. *)
Lemma retry_knum g o0 n : zlen (kk b) + cpot o0 f < 0x7fff ->
  (forall b' r, fold_wf b' -> kext 1 b b' -> nk b' <= r < REF_BIAS ->
     exists o', valid b' (g r) o' /\ arith o' = true /\ measure b o' (g r) < measure b o0 f /\
       1 + cpot o' (g r) <= cpot o0 f) ->
  step_ok b o0 f (let? ' (b', tr) := knum b n in done_ b' (g (uwrap 16 (tref_ref tr))) Retry).
Proof.
  intros Hroom Hg. destruct (knum_step b o0 f Hwf Hroom n) as (b' & r & -> & Hwf' & Hext & -> & -> & Hrr & _).
  destruct (Hg b' r Hwf' Hext Hrr) as (o' & Hv' & Ha & Hm & Hc).
  apply (step_retry _ _ _ _ _ 1 o'); try done; lia.
Qed.

Lemma fold_sub_ok : valid b f IROp.SUB -> zlen (kk b) + cpot IROp.SUB f < 0x7fff ->
  step_ok b IROp.SUB f (fold_sub b f (Some il) (Some ir_)).
Proof.
  intros Hv Hroom. unfold fold_sub.
  rule; [by eapply kfold_num_ok|]. rule; [by eapply kfold_int_ok|].
  rule.
  { rule; [by apply step_cse|].
    destruct (const_operand b _ _ _ (fw_ir _ Hwf) Hr ltac:(eassumption) eq_refl) as [Hk2 [u Hu]].
    unfold knum_val. rewrite Hu. cbn [opnd_op1 fmap option_fmap option_map].
    destruct (inv_operand b Hwf _ _ _ Hl ltac:(eassumption) eq_refl) as (Ha & Hw & Hk).
    apply (retry_knum (fun r => set_op1 r (set_op2 (op1 il) f))); [done|].
    intros b' r Hwf' Hext Hrr. pose proof (kext_nk _ _ _ Hext). pose proof (kext_nins _ _ _ Hext).
    pose proof (nk_nins b'). assert (Hrk : irref_isk r = true) by (apply Z.ltb_lt; lia).
    exists IROp.SUB. split; [apply valid_bin; ops; try done; try lia; [apply Hwf'|apply Hv]|].
    split; [done|]. split.
    - unfold measure, opnd_weight. cbn [unary]. ops.
      rewrite (weight_const r), (weight_const (op2 f)) by done.
      destruct (r <? op1 il), (op1 f <? op2 f); lia.
    - cbn [cpot]. ops. by rewrite Hrk, Hk. }
  assert (Hz : exists z, (if is_op (Some ir_) IROp.KNUM then
      let? u := k64_val b (op2 f) in Some (u =? 0) else Some false) = Some z).
  { destruct (is_op (Some ir_) IROp.KNUM) eqn:E'; [|by eexists]. apply is_op_Some in E'.
    destruct (const_operand b _ _ _ (fw_ir _ Hwf) Hr E' eq_refl) as [_ [u ->]]. by eexists. }
  destruct Hz as [z ->]. rule; [by apply step_ref|].
  rule.
  { rule; [by apply step_cse|]. cbn [opnd_op1 fmap option_fmap option_map].
    destruct (inv_operand b Hwf _ _ _ Hr ltac:(eassumption) eq_refl) as (Ha & Hw & Hk).
    eapply retry0 with (o' := IROp.ADD); try done; ops; try lia; [apply set_op_op|..].
    - apply measure_weight; [done|cbn; lia|]. weights.
    - cbn [cpot]. ops. destruct (irref_isk (op1 f)), (irref_isk (op1 ir_)); lia. }
  rule.
  { cbn [opnd_i fmap option_fmap option_map]. rule; [by apply step_ref|].
    destruct (const_operand b _ _ _ (fw_ir _ Hwf) Hr ltac:(eassumption) eq_refl) as [Hk2 _].
    eapply retry_kint_op2 with (o' := IROp.ADD); try done.
    - apply set_op_op.
    - apply swrap_range. lia.
    - left. split; [done|]. cbn [cpot]. destruct (irref_isk (op1 f)); lia.
    - intros f' E1' Hk' H2. unfold measure, opnd_weight. cbn [unary minor major].
      rewrite E1', (weight_const (op2 f')), (weight_const (op2 f)) by done.
      destruct (_ <? _), (_ <? _); lia. }
  rule; [|by apply step_cse].
  destruct (const_operand b _ _ _ (fw_ir _ Hwf) Hl ltac:(eassumption) eq_refl) as [Hk1 _].
  eapply retry0 with (o' := IROp.NEG); try done; ops; try lia; [apply set_op_op|..].
  - unfold measure, opnd_weight. cbn [unary minor major]. ops. rewrite (weight_const (op1 f)) by done.
    destruct (_ <? _), (_ <? _); lia.
  - cbn [cpot]. destruct (irref_isk (op1 f)); lia.
Qed.

Lemma fold_mul_ok : valid b f IROp.MUL -> zlen (kk b) + cpot IROp.MUL f < 0x7fff ->
  step_ok b IROp.MUL f (fold_mul b f (Some il) (Some ir_)).
Proof.
  intros Hv Hroom. unfold fold_mul.
  rule; [by eapply kfold_num_ok|]. rule; [by eapply kfold_int_ok|].
  assert (Hswap : step_ok b IROp.MUL f (comm_swap b f)) by (by eapply step_swap).
  destruct (is_op (Some ir_) IROp.KNUM) eqn:E'.
  - apply is_op_Some in E'. unfold knum_val.
    destruct (const_operand b _ _ _ (fw_ir _ Hwf) Hr E' eq_refl) as [Hk2 [u ->]].
    rule; [by apply step_ref|]. rule; [|done].
    eapply retry0 with (o' := IROp.ADD); try done; ops; try lia; [apply set_op_op|..].
    + apply measure_major; ops; try lia; done.
    + cbn [cpot]. ops. destruct (irref_isk (op1 f)); lia.
  - rule; [|done]. cbn [opnd_i fmap option_fmap option_map].
    rule; [by apply step_ref|]. rule; [by apply step_ref|]. rule; [|done].
    eapply retry_kint_op2 with (o' := IROp.BSHL); try done.
    + apply set_op_op.
    + assert (Hpos : 0 < ins_i ir_) by lia. unfold leading_zeros.
      rewrite (proj2 (Z.eqb_neq _ _)) by lia. pose proof (srange_ins_i ir_). unfold srange in *.
      pose proof (Z.log2_nonneg (ins_i ir_)).
      assert (Z.log2 (ins_i ir_) < 31) by (apply Z.log2_lt_pow2; lia). lia.
    + right. split; [by left|]. cbn. lia.
    + intros f' E1' Hk' H2. apply measure_major; try done; lia.
Qed.

Lemma fold_div_ok : valid b f IROp.DIV -> zlen (kk b) + cpot IROp.DIV f < 0x7fff ->
  step_ok b IROp.DIV f (fold_div b f (Some il) (Some ir_)).
Proof.
  intros Hv Hroom. unfold fold_div.
  rule; [by eapply kfold_num_ok|]. rule; [|by apply step_cse].
  destruct (const_operand b _ _ _ (fw_ir _ Hwf) Hr ltac:(eassumption) eq_refl) as [Hk2 [u Hu]].
  unfold knum_val. rewrite !Hu. rule; [by apply step_ref|]. cbv zeta. rule; [|by apply step_cse].
  apply (retry_knum (fun r => set_op2 r (set_op IROp.MUL f))); [done|].
  intros b' r Hwf' Hext Hrr. pose proof (kext_nk _ _ _ Hext). pose proof (kext_nins _ _ _ Hext).
  pose proof (nk_nins b'). exists IROp.MUL.
  split; [apply valid_bin; ops; try done; try lia; [apply Hwf'|apply set_op_op]|].
  split; [done|]. split; [|done].
  apply measure_major; ops; try done; lia.
Qed.

Lemma fold_mod_ok : valid b f IROp.MOD -> zlen (kk b) + cpot IROp.MOD f < 0x7fff ->
  step_ok b IROp.MOD f (fold_mod b f (Some il) (Some ir_)).
Proof.
  intros Hv Hroom. unfold fold_mod.
  rule; [by eapply kfold_num_ok|]. rule.
  { eapply kfold_int_ok; try done. intros x y ->. cbn [kfold_intop].
    destruct (Z.eqb_spec (ins_i ir_) 0) as [E0|]; [|by eexists].
    cbn [opnd_i fmap option_fmap option_map] in *. rewrite E0 in *. by rewrite bool_decide_eq_true_2 in * . }
  rule; [|by apply step_cse]. cbn [opnd_i fmap option_fmap option_map]. rule; [|by apply step_cse].
  eapply retry_kint_op2 with (o' := IROp.BAND); try done.
  - apply set_op_op.
  - pose proof (srange_ins_i ir_). unfold srange in *. lia.
  - right. split; [by right|]. cbn. lia.
  - intros f' E1' Hk' H2'. apply measure_major; try done; lia.
Qed.
End ArithRules.

Section OtherRules.
Context `{Libm} (b : IrBuf) (f il ir_ : IRIns) (o : IROp.t).
Context (Hwf : fold_wf b) (Hl : ir b (op1 f) = Some il) (Hr : ir b (op2 f) = Some ir_).
Context (Hv : valid b f o) (Hroom : zlen (kk b) + cpot o f < 0x7fff).

Let r1 : nk b <= op1 f < nins b := ir_Some_valid _ _ _ Hl.
Let r2 : nk b <= op2 f < nins b := ir_Some_valid _ _ _ Hr.

(** Swaps of opcodes that intern nothing. *)
Lemma step_swap0 : arith o = true -> unary o = false -> minor o = 0 ->
  (forall g, cpot o g = 0) -> step_ok b o f (comm_swap b f).
Proof.
  intros Ha Hun Hmin Hc. eapply step_swap; try done. intros f' _ _. rewrite !Hc. done.
Qed.

Lemma step_swap_comp : arith o = true -> unary o = false -> major o = 0 -> minor o = 0 ->
  (forall g, cpot o g = 0) ->
  (o <> IROp.EQ -> o <> IROp.NE -> exists o', from_u8 (Z.lxor (enum_code o) 3) = Some o' /\
     arith o' = true /\ unary o' = false /\ major o' = 0 /\ minor o' = 0 /\ forall g, cpot o' g = 0) ->
  step_ok b o f (comm_swap_comp b f).
Proof.
  intros Ha Hun Hmaj Hmin Hc Hflip. unfold comm_swap_comp. rule; [|by apply step_cse].
  apply Z.ltb_lt in E. change (ins_op (set_op1 _ _)) with (ins_op f). rewrite (valid_op _ _ _ Hv).
  assert (Hm : forall o' g, unary o' = false -> major o' = 0 -> minor o' = 0 ->
    op1 g = op2 f -> op2 g = op1 f -> measure b o' g < measure b o f).
  { intros o' g Hu' Hmaj' Hmin' E1 E2. unfold measure, opnd_weight.
    rewrite Hun, Hu', Hmaj, Hmaj', Hmin, Hmin', E1, E2.
    destruct (Z.ltb_spec (op2 f) (op1 f)), (Z.ltb_spec (op1 f) (op2 f)); lia. }
  rule.
  - eapply retry0 with (o' := o); try done; ops; try done.
    + apply Hv.
    + by apply Hm.
    + by rewrite !Hc.
  - apply orb_false_iff in E0 as [E1%bool_decide_eq_false E2%bool_decide_eq_false].
    destruct (Hflip E1 E2) as (o' & -> & Ha' & Hu' & Hmaj' & Hmin' & Hc').
    eapply retry0 with (o' := o'); try done; ops; try done.
    + apply set_op_op.
    + by apply Hm.
    + by rewrite Hc, Hc'.
Qed.

Lemma fold_minmax_ok : o = IROp.MIN \/ o = IROp.MAX ->
  step_ok b o f (fold_minmax b f (Some il) (Some ir_) o).
Proof.
  intros Ho. unfold fold_minmax.
  rule; [by eapply kfold_num_ok|].
  rule; [eapply kfold_int_ok; try done; by destruct Ho; subst|].
  rule; [by apply step_ref|by apply step_cse].
Qed.

Lemma fold_ov_ok : o = IROp.ADDOV \/ o = IROp.SUBOV \/ o = IROp.MULOV ->
  step_ok b o f (fold_ov b f (Some il) (Some ir_) o).
Proof.
  intros Ho. unfold fold_ov.
  assert (Htail : step_ok b o f
    (if negb (bool_decide (o = IROp.SUBOV)) then comm_swap b f else done_ b f Cse)).
  { rule; [|by apply step_cse]. apply step_swap0; by destruct Ho as [-> |[-> | ->]]. }
  cbv zeta. cbn [opnd_i fmap option_fmap option_map]. rule.
  { rule; [apply step_err|]. apply step_kint; [done..|]. apply swrap_range. lia. }
  rule; [|done]. rule; [by apply step_ref|].
  destruct (decide (o = IROp.MULOV)) as [->|Hm];
    [rewrite bool_decide_eq_true_2 by done|by rewrite bool_decide_eq_false_2].
  rule; [by apply step_ref|]. rule; [by apply step_ref|]. rule; [|done].
  eapply retry0 with (o' := IROp.ADDOV); try done; ops; try done.
  - apply set_op_op.
  - apply measure_major; ops; try lia; done.
Qed.

Lemma fold_bit_ok :
  match o with
  | IROp.BAND | IROp.BOR | IROp.BXOR | IROp.BSHL | IROp.BSHR | IROp.BSAR | IROp.BROL | IROp.BROR => True
  | _ => False
  end -> step_ok b o f (fold_bit b f (Some il) (Some ir_) o).
Proof.
  intros Ho. unfold fold_bit.
  rule; [eapply kfold_int_ok; try done; by destruct o|].
  pose proof step_swap0 as Hsw.
  destruct o; try done; try (by apply step_cse); rule;
    first [by apply step_ref|by apply Hsw|apply step_kint; try done; unfold srange; lia].
Qed.

Lemma fold_numcmp_total x y :
  match o with
  | IROp.EQ | IROp.NE | IROp.LT | IROp.GE | IROp.LE | IROp.GT | IROp.ULT | IROp.UGE | IROp.ULE
  | IROp.UGT => is_Some (fold_numcmp x y o)
  | _ => True
  end.
Proof. destruct o; try done; by eexists. Qed.

Lemma fold_eq_ok : o = IROp.EQ \/ o = IROp.NE -> step_ok b o f (fold_eq b f (Some il) (Some ir_) o).
Proof.
  intros Ho. unfold fold_eq. rule.
  { unfold knum_val.
    destruct (const_operand b _ _ _ (fw_ir _ Hwf) Hl ltac:(eassumption) eq_refl) as [_ [x ->]].
    destruct (const_operand b _ _ _ (fw_ir _ Hwf) Hr ltac:(eassumption) eq_refl) as [_ [y ->]].
    destruct Ho as [-> | ->]; by apply step_cond. }
  rule; [by apply step_cond|]. rule; [by apply step_cond|].
  apply step_swap_comp; by destruct Ho as [-> | ->].
Qed.

Lemma fold_comp_ok :
  match o with
  | IROp.LT | IROp.GE | IROp.LE | IROp.GT | IROp.ULT | IROp.UGE | IROp.ULE | IROp.UGT => True
  | _ => False
  end -> step_ok b o f (fold_comp b f (Some il) (Some ir_) o).
Proof.
  intros Ho. unfold fold_comp. rule.
  { unfold knum_val.
    destruct (const_operand b _ _ _ (fw_ir _ Hwf) Hl ltac:(eassumption) eq_refl) as [_ [x ->]].
    destruct (const_operand b _ _ _ (fw_ir _ Hwf) Hr ltac:(eassumption) eq_refl) as [_ [y ->]].
    destruct o; try done; by apply step_cond. }
  cbn [opnd_i fmap option_fmap option_map]. rule; [by apply step_cond|].
  rule; [by apply step_drop|].
  assert (Hd : exists d, (if irt_isnum (ins_t f) && is_op (Some ir_) IROp.KNUM && int_result_op (Some il)
      then let? k := knum_val b (op2 f) in
           Some ((bool_decide (o = IROp.GE) && f64_le k (f64_of_int (-2147483648))) ||
              (bool_decide (o = IROp.LE) && f64_le (f64_of_int 2147483647) k))
      else Some false) = Some d).
  { destruct (irt_isnum (ins_t f) && is_op (Some ir_) IROp.KNUM && int_result_op (Some il)) eqn:E';
      [|by exists false]. apply andb_true_iff in E' as [E' _].
    apply andb_true_iff in E' as [_ E']. apply is_op_Some in E'. unfold knum_val.
    destruct (const_operand b _ _ _ (fw_ir _ Hwf) Hr E' eq_refl) as [_ [x ->]]. by eexists. }
  destruct Hd as [d ->]. rule; [by apply step_drop|]. rule; [by apply step_cond|].
  apply step_swap_comp; try (by destruct o).
  intros _ _. destruct o; try done; (eexists; split; [reflexivity|]; done).
Qed.
End OtherRules.

Section Unary.
Context (b : IrBuf) (f il : IRIns) (o : IROp.t).
Context (Hwf : fold_wf b) (Hl : ir b (op1 f) = Some il).
Context (Hv : valid b f o) (Hroom : zlen (kk b) + cpot o f < 0x7fff).

(** An involution of an involution. *)
Lemma step_involution o' : involution o' = true -> ins_op il = Some o' ->
  step_ok b o f (if phi_of (Some il) then done_ b f Cse
                 else let? a := opnd_op1 (Some il) in done_ b f (Ref a)).
Proof.
  intros Ho' Hop. rule; [by apply step_cse|]. cbn [opnd_op1 fmap option_fmap option_map].
  destruct (fw_inv _ Hwf _ _ _ Hl Hop Ho') as (Hbias & Hlt). pose proof (ir_Some_valid _ _ _ Hl).
  apply step_ref; [done|lia].
Qed.

Lemma fold_neg_ok : step_ok b o f (fold_neg b f (Some il)).
Proof.
  unfold fold_neg. rule.
  { unfold knum_val.
    destruct (const_operand b _ _ _ (fw_ir _ Hwf) Hl ltac:(eassumption) eq_refl) as [_ [x ->]].
    by apply step_knum. }
  rule; [apply step_kint; try done; apply swrap_range; lia|].
  rule; [by apply (step_involution IROp.NEG)|by apply step_cse].
Qed.

Lemma fold_abs_ok : step_ok b o f (fold_abs b f (Some il)).
Proof.
  unfold fold_abs. rule; [|by apply step_cse]. unfold knum_val.
  destruct (const_operand b _ _ _ (fw_ir _ Hwf) Hl ltac:(eassumption) eq_refl) as [_ [x ->]].
  by apply step_knum.
Qed.

Lemma fold_bnot_ok : step_ok b o f (fold_bnot b f (Some il)).
Proof.
  unfold fold_bnot. rule; [apply step_kint; try done; apply srange_lnot, srange_ins_i|].
  rule; [by apply (step_involution IROp.BNOT)|by apply step_cse].
Qed.

Lemma fold_bswap_ok : step_ok b o f (fold_bswap b f (Some il)).
Proof.
  unfold fold_bswap. rule; [apply step_kint; try done; apply swrap_range; lia|].
  rule; [by apply (step_involution IROp.BSWAP)|by apply step_cse].
Qed.
End Unary.

(** ** One pass, and the loop *)

(** The outcome of an emission that adds at most [n] constants. *)
Definition res_ok (n : Z) (b : IrBuf) (res : option (Result (IrBuf * Z))) : Prop :=
  res = Some (Err GFAIL) \/
  exists b' tr, res = Some (Ok (b', tr)) /\ fold_wf b' /\ ext n b b' /\
    (tr = REF_DROP \/ nk b' <= tref_ref tr < nins b').

Section Loop.
Context `{Libm}.

Lemma fold_pow_ok em b f il ir_ : fold_wf b -> ir b (op1 f) = Some il -> ir b (op2 f) = Some ir_ ->
  valid b f IROp.POW -> zlen (kk b) + cpot IROp.POW f < 0x7fff ->
  res_ok 3 b (em b (irtn IROp.MUL) (op1 f) (op1 f)) ->
  step_ok b IROp.POW f (fold_pow em b f (Some il) (Some ir_)).
Proof.
  intros Hwf Hl Hr Hv Hroom Hem. unfold fold_pow.
  rule; [by eapply kfold_num_ok|]. rule; [|by apply step_cse]. unfold knum_val.
  destruct (const_operand b _ _ _ (fw_ir _ Hwf) Hr ltac:(eassumption) eq_refl) as [_ [x ->]].
  rule; [by apply step_knum|]. rule; [apply step_ref; [done|]; by apply ir_Some_valid in Hl|].
  rule; [|by apply step_cse].
  destruct Hem as [->|(b' & tr & -> & Hwf' & Hext & Htr)]; [by apply step_err|].
  right. by exists b', f, (TRef tr).
Qed.

Lemma fold_step_ok em b f o : fold_wf b -> valid b f o -> zlen (kk b) + cpot o f < 0x7fff ->
  (o = IROp.POW -> res_ok 3 b (em b (irtn IROp.MUL) (op1 f) (op1 f))) ->
  step_ok b o f (fold_step em b f).
Proof.
  intros Hwf Hv Hroom Hem. unfold fold_step. rewrite (valid_op _ _ _ Hv).
  destruct (irt_isnum _ && is_bitop o); [by apply step_cse|].
  assert (Hop : forall r, 0 <= r < nins b -> exists l,
    (if nk b <=? r then let? i := ir b r in Some (Some i) else Some None) = Some l /\
    (nk b <= r -> exists i, l = Some i /\ ir b r = Some i)).
  { intros r Hr. destruct (Z.leb_spec (nk b) r) as [Hle|Hlt].
    - destruct (ir_valid b r) as [i Hi]; [lia|]. rewrite Hi. exists (Some i). eauto.
    - exists None. split; [done|lia]. }
  destruct (Hop _ (valid_op1 _ _ _ Hv)) as (l & -> & Hl). cbv beta iota.
  destruct (Hop _ (valid_op2 _ _ _ Hv)) as (r & -> & Hr). cbv beta iota. clear Hop.
  destruct (arith o) eqn:Ha; [|destruct o; try done; by apply step_cse].
  destruct (Hl (valid_ref1 _ _ _ Hv Ha)) as (il & -> & Hil). clear Hl.
  destruct (unary o) eqn:Hun.
  { destruct o; try done;
      [by apply fold_bnot_ok|by apply fold_bswap_ok|by apply fold_neg_ok|by apply fold_abs_ok]. }
  destruct (Hr (valid_ref2 _ _ _ Hv Ha Hun)) as (ir_ & -> & Hir). clear Hr.
  destruct o; try done;
    first [by apply fold_add_ok|by apply fold_sub_ok|by apply fold_mul_ok|by apply fold_div_ok
          |by apply fold_mod_ok|by apply fold_pow_ok; auto
          |apply fold_minmax_ok; auto; done|apply fold_ov_ok; auto; done
          |by apply fold_bit_ok|apply fold_eq_ok; auto; done|by apply fold_comp_ok].
Qed.
End Loop.

(** ** Emission of a valid instruction *)

Lemma valid_cst b f o : valid b f o -> ins_chained o = true /\ cst_op o = false.
Proof.
  intros Hv. pose proof (valid_foldable _ _ _ Hv) as Hf. unfold foldable in Hf.
  apply andb_true_iff in Hf as [Hc _]. split; [done|]. unfold ins_chained in Hc.
  by destruct (cst_op o).
Qed.

Lemma valid_u16 b f o : ir_wf b -> valid b f o -> urange 16 (op1 f) /\ urange 16 (op2 f).
Proof.
  intros Hwf Hv. pose proof (wf_nins _ Hwf). pose proof (valid_op1 _ _ _ Hv).
  pose proof (valid_op2 _ _ _ Hv). unfold urange, nins, REF_BIAS in *. lia.
Qed.

Lemma ins_t_u8 i : urange 8 (ins_t i).
Proof. apply uwrap_range. lia. Qed.

Lemma tref_ins b r i : ir_wf b -> ir b r = Some i -> tref_ref (tref r (ins_t i)) = r.
Proof.
  intros Hwf Hi%ir_Some_valid. apply tref_ref_tref; [|apply ins_t_u8].
  pose proof (wf_nins _ Hwf). pose proof (wf_nk _ Hwf). unfold urange, nins, nk, REF_BIAS in *. lia.
Qed.

Lemma emit_fold_wf b f o b' tr : fold_wf b -> valid b f o -> zlen (ins b) < 0x7fff ->
  emit_ins b f = Some (b', tr) ->
  fold_wf b' /\ ext 0 b b' /\ tref_ref tr = nins b /\ nins b' = nins b + 1 /\ kk b' = kk b /\
  exists c, ins b' = ins b ++ [set_prev c f].
Proof.
  intros [Hwf Hinv] Hv Hroom E. destruct (valid_cst _ _ _ Hv) as [Hch Hcst].
  destruct (valid_u16 _ _ _ Hwf Hv) as [H1 H2].
  destruct (emit_ins_spec b f o Hwf Hroom (valid_op _ _ _ Hv) Hcst H1 H2)
    as (b2 & c & E2 & Hwf' & Hins & Hkk & Hk64).
  rewrite E2 in E. injection E as <- <-.
  assert (Hn : nins b2 = nins b + 1).
  { unfold nins, zlen. rewrite Hins, length_app. cbn [length]. lia. }
  assert (Hk : nk b2 = nk b) by (unfold nk; by rewrite Hkk).
  split; [split; [done|]|].
  - intros r i o' Hi Hop Hio. rewrite Hk.
    destruct (ref_cases b2 r (ir_Some_valid _ _ _ Hi)) as [(j & -> & Hj)|(j & -> & Hj)].
    + rewrite ir_kref, Hkk in Hi. destruct (Hinv (kref j) i o'); try done. by rewrite ir_kref.
    + rewrite ir_iref, Hins in Hi. apply lookup_snoc_inv in Hi as [(Hj' & Hi)|(-> & ->)].
      * destruct (Hinv (iref j) i o'); try done. by rewrite ir_iref.
      * split; [unfold iref; lia|]. cbn [op1 set_prev].
        pose proof (valid_op1 _ _ _ Hv). pose proof (valid_op _ _ _ Hv) as Hvo.
        rewrite set_prev_op, Hvo in Hop. injection Hop as <-.
        assert (arith o = true) as Ha by (by destruct o).
        pose proof (valid_ref1 _ _ _ Hv Ha). unfold iref, nins, zlen in *. lia.
  - split; [|split; [|split; [done|split; [done|by exists c]]]].
    + split; rewrite ?Hins, ?Hkk, ?Hk64; try done; try lia; [by eexists|].
      unfold zlen. rewrite length_app. cbn [length]. lia.
    + apply tref_ref_tref; [|apply ins_t_u8]. unfold urange, nins, iref, zlen, REF_BIAS in *. lia.
Qed.

Lemma emit_total b f o : fold_wf b -> valid b f o -> zlen (ins b) < 0x7fff ->
  exists b' tr, emit_ins b f = Some (b', tr).
Proof.
  intros [Hwf Hinv] Hv Hroom. destruct (valid_cst _ _ _ Hv) as [Hch Hcst].
  destruct (valid_u16 _ _ _ Hwf Hv) as [H1 H2].
  destruct (emit_ins_spec b f o Hwf Hroom (valid_op _ _ _ Hv) Hcst H1 H2) as (b2 & c & E2 & _).
  eauto.
Qed.

Lemma cse_res_ok b f o n : fold_wf b -> valid b f o -> zlen (ins b) < 0x7fff -> 0 <= n ->
  res_ok n b (let? ' (b, tr) := opt_cse b f in Some (Ok (b, tr))).
Proof.
  intros Hwf Hv Hroom Hn. right. destruct (valid_cst _ _ _ Hv) as [Hch Hcst].
  destruct (valid_u16 _ _ _ (fw_ir _ Hwf) Hv) as [H1 H2].
  destruct (opt_cse_spec b f o (fw_ir _ Hwf) Hroom (valid_op _ _ _ Hv) Hch H1 H2)
    as [(j & i & E & Hi & _)|[E _]]; rewrite E.
  - eexists b, _. split; [done|]. split; [done|]. split; [by apply ext_refl|]. right.
    assert (Hir : ir b (iref j) = Some i) by (by rewrite ir_iref).
    rewrite (tref_ins b) by (done || apply Hwf). by eapply ir_Some_valid.
  - destruct (emit_total b f o Hwf Hv Hroom) as (b' & tr & E').
    destruct (emit_fold_wf b f o b' tr Hwf Hv Hroom E') as (Hwf' & [] & Htr & Hn' & Hkk & _).
    rewrite E'. exists b', tr. split; [done|]. split; [done|]. split; [split; try done; lia|].
    right. rewrite Htr, Hn'. pose proof (nk_nins b). pose proof (nk_nins b'). lia.
Qed.

Section Loop.
Context `{Libm}.

Lemma opt_fold_ok fuel b f o : fold_wf b -> valid b f o -> zlen (ins b) < 0x7fff ->
  zlen (kk b) + cpot o f < 0x7fff -> measure b o f < Z.of_nat fuel ->
  res_ok (cpot o f + 1) b (opt_fold fuel b f).
Proof.
  revert b f o. induction fuel as [|fuel IH]; intros b f o Hwf Hv Hins Hroom Hm.
  { pose proof (measure_nonneg b o f). pose proof (valid_op1 _ _ _ Hv). pose proof (valid_op2 _ _ _ Hv).
    lia. }
  cbn [opt_fold]. rewrite (valid_op _ _ _ Hv). destruct (valid_cst _ _ _ Hv) as [Hch Hcst].
  pose proof (valid_foldable _ _ _ Hv) as Hf. unfold foldable in Hf.
  apply andb_true_iff in Hf as [_ Hkind%bool_decide_eq_true].
  destruct (ir_mode o) as [m|]; [|done]. cbn in Hkind. injection Hkind as Hkind.
  cbv beta iota zeta. rewrite Hkind. cbn [Z.eqb IRM_N negb].
  assert (existsb (fun k => bool_decide (o = k)) [IROp.KGC; IROp.KINT64; IROp.KNUM] = false) as ->.
  { by destruct o. }
  pose proof (cpot_range o f) as Hcr.
  assert (Hstep : step_ok b o f (fold_step (fun b ot x y => opt_fold fuel b (ins_new ot x y)) b f)).
  { apply fold_step_ok; try done. intros ->.
    destruct (valid_u16 _ _ _ (fw_ir _ Hwf) Hv) as [H1 H2].
    pose proof (valid_op1 _ _ _ Hv). pose proof (valid_op2 _ _ _ Hv).
    pose proof (valid_ref1 _ _ _ Hv eq_refl).
    change 3 with (cpot IROp.MUL (ins_new (irtn IROp.MUL) (op1 f) (op1 f)) + 1).
    assert (op1 (ins_new (irtn IROp.MUL) (op1 f) (op1 f)) = op1 f) as E1 by (by apply uwrap_small).
    assert (op2 (ins_new (irtn IROp.MUL) (op1 f) (op1 f)) = op1 f) as E2 by (by apply uwrap_small).
    apply IH; try done.
    - apply valid_bin; rewrite ?E1, ?E2; first [done|apply Hwf|lia].
    - enough (measure b IROp.MUL (ins_new (irtn IROp.MUL) (op1 f) (op1 f)) < measure b IROp.POW f) by lia.
      apply measure_major; rewrite ?E1, ?E2; try done; lia. }
  destruct Hstep as [->|(b' & f' & s & -> & Hwf' & Hs)]; [by left|].
  destruct s as [|r|tr| |].
  - destruct Hs as (n & o' & Hn & Hext & Hv' & Ha & Hm' & Hc).
    assert (Hins' : ins b' = ins b) by apply Hext.
    assert (measure b' o' f' = measure b o' f') as Hmb by (unfold measure, wbound; by rewrite Hins').
    pose proof (kext_len _ _ _ Hext).
    destruct (IH b' f' o') as [E|(b2 & tr & E & Hwf2 & Hext2 & Htr)]; try done; try lia.
    + by rewrite Hins'.
    + by left.
    + right. exists b2, tr. split; [done|]. split; [done|]. split; [|done].
      eapply kext_ext_trans; [done..|]. lia.
  - destruct Hs as [-> Hr]. destruct (ir_valid b r Hr) as [i Hi]. rewrite Hi. right.
    exists b, (tref r (ins_t i)). split; [done|]. split; [done|]. split; [apply ext_refl; lia|].
    right. by rewrite (tref_ins b) by (done || apply Hwf).
  - destruct Hs as [Hext Htr]. right. by exists b', tr.
  - subst b'. right. exists b, REF_DROP. split; [done|]. split; [done|].
    split; [apply ext_refl; lia|by left].
  - destruct Hs as [-> ->]. eapply cse_res_ok; try done. lia.
Qed.

(** Enough fuel for any instruction on a buffer of [n] instructions. *)
Definition fold_fuel (b : IrBuf) : nat := Z.to_nat (16 * wbound b).

Lemma fold_fuel_enough b o f : op1 f < nins b -> op2 f < nins b ->
  measure b o f < Z.of_nat (fold_fuel b).
Proof.
  intros H1 H2. pose proof (opnd_weight_range b o f H1 H2). unfold measure, fold_fuel.
  pose proof (zlen_nonneg (ins b)). assert (0 < wbound b) by (unfold wbound; lia).
  assert (major o * (4 * wbound b) <= 3 * (4 * wbound b)) by (destruct o; cbn; lia).
  assert (minor o <= 1) by (destruct o; cbn; lia). rewrite Z2Nat.id by lia.
  destruct (_ <? _); lia.
Qed.

End Loop.

Definition no_involution (i : IRIns) : bool :=
  match ins_op i with Some o => negb (involution o) | None => true end.

Lemma fold_wf_check b : ir_wf b -> forallb no_involution (kk b ++ ins b) = true -> fold_wf b.
Proof.
  intros Hwf Hall. split; [done|]. intros r i o Hi Hop Hinv. exfalso.
  rewrite forallb_forall in Hall. specialize (Hall i). unfold no_involution in Hall.
  rewrite Hop, Hinv in Hall. cut (false = true); [done|]. apply Hall. apply list_elem_of_In, elem_of_app.
  destruct (ref_cases b r (ir_Some_valid _ _ _ Hi)) as [(j & -> & _)|(j & -> & _)].
  - left. rewrite ir_kref in Hi. by eapply list_elem_of_lookup_2.
  - right. rewrite ir_iref in Hi. by eapply list_elem_of_lookup_2.
Qed.

Lemma demo_fold_wf : fold_wf demo_buf.
Proof. apply fold_wf_check; [apply demo_buf_wf|vm_compute; reflexivity]. Qed.

#[local] Instance demo_libm : Libm := {| powf := fun x _ => x |}.

