(* ===== verification/IntSem.v ===== *)
(** * Integer arithmetic of the IR

    The value of an integer instruction, as the executor computes it from the
    constant folder's [kfold_intop] (jit/exec.rs), and the identities the
    rewrite rules of FOLD rely on. *)

From Stdlib Require Import ZArith Lia Bool.
From stdpp Require Import base decidable numbers option list.
From S2P Require Import Prelude Float64 Ir IrSpec IrInv OptMem Fold IrEmit FoldTerm.

(** ** Wrap-around *)

Lemma swrap_eq k x y : x = y + k * 2 ^ 32 -> swrap 32 x = swrap 32 y.
Proof.
  intros ->. rewrite <- (swrap_uwrap 32 (y + _)), <- (swrap_uwrap 32 y) by lia.
  f_equal. unfold uwrap. by rewrite Z.mod_add.
Qed.

(** A wrapped value is the value up to a multiple of the modulus. *)
Lemma swrap_off x : exists k, swrap 32 x = x + k * 2 ^ 32.
Proof.
  exists ((swrap 32 x - x) / 2 ^ 32). pose proof (swrap_mod 32 x ltac:(lia)) as E.
  pose proof (Z.div_mod (swrap 32 x) (2 ^ 32)). pose proof (Z.div_mod x (2 ^ 32)).
  assert (swrap 32 x - x = (swrap 32 x / 2 ^ 32 - x / 2 ^ 32) * 2 ^ 32) as -> by lia.
  rewrite Z.div_mul by lia. lia.
Qed.

Lemma uwrap_off x : exists k, uwrap 32 x = x + k * 2 ^ 32.
Proof.
  exists (- (x / 2 ^ 32)). unfold uwrap. pose proof (Z.div_mod x (2 ^ 32)). lia.
Qed.

Lemma neg_intop x y : kfold_intop x y IROp.NEG = Some (swrap 32 (- x)).
Proof.
  cbn [kfold_intop]. f_equal. rewrite swrap_uwrap by lia.
  destruct (uwrap_off x) as [k ->]. apply (swrap_eq (- k)). lia.
Qed.

Lemma swrap_add_neg x y : swrap 32 (swrap 32 (- x) + y) = swrap 32 (y - x).
Proof. destruct (swrap_off (- x)) as [k ->]. apply (swrap_eq k). lia. Qed.

Lemma swrap_sub_neg x y : swrap 32 (y - swrap 32 (- x)) = swrap 32 (y + x).
Proof. destruct (swrap_off (- x)) as [k ->]. apply (swrap_eq (- k)). lia. Qed.

(** [-k] as the source writes it, in two's complement. *)
Lemma wrapping_neg k : swrap 32 (uwrap 32 (- uwrap 32 k)) = swrap 32 (- k).
Proof.
  rewrite swrap_uwrap by lia. destruct (uwrap_off k) as [j ->]. apply (swrap_eq (- j)). lia.
Qed.

Lemma swrap_add_wneg x k : swrap 32 (x + swrap 32 (- k)) = swrap 32 (x - k).
Proof. destruct (swrap_off (- k)) as [j ->]. apply (swrap_eq j). lia. Qed.

(** ** Powers of two *)

Lemma pow2_of_land k : 0 < k -> Z.land k (k - 1) = 0 -> k = 2 ^ Z.log2 k.
Proof.
  intros Hk Hl. pose proof (Z.log2_spec k Hk) as [Hlo Hhi].
  destruct (Z.eq_dec k (2 ^ Z.log2 k)) as [E|Hne]; [done|exfalso].
  pose proof (Z.log2_nonneg k).
  assert (Z.testbit (Z.land k (k - 1)) (Z.log2 k) = true) as Hb; [|by rewrite Hl, Z.testbit_0_l in Hb].
  rewrite Z.land_spec, Z.bit_log2 by done. cbn [andb].
  assert (Z.log2 (k - 1) = Z.log2 k) as <-; [apply Z.log2_unique; lia|].
  apply Z.bit_log2. lia.
Qed.

Lemma log2_srange k : 0 < k -> srange 32 k -> 0 <= Z.log2 k < 31.
Proof.
  unfold srange. intros Hk Hs. split; [apply Z.log2_nonneg|]. apply Z.log2_lt_pow2; lia.
Qed.

Lemma shift_count n : 0 <= n < 31 -> Z.land (uwrap 32 n) 31 = n.
Proof.
  intros Hn. change 31 with (Z.ones 5). rewrite Z.land_ones by lia. unfold uwrap.
  rewrite (Z.mod_small n) by lia. apply Z.mod_small. lia.
Qed.

(** [x * 2^n] as a shift. *)
Lemma mul_pow2 x k : 0 < k -> srange 32 k -> Z.land k (k - 1) = 0 ->
  kfold_intop x k IROp.MUL = kfold_intop x (31 - leading_zeros 32 k) IROp.BSHL.
Proof.
  intros Hk Hs Hl. cbn [kfold_intop]. unfold leading_zeros. rewrite (proj2 (Z.eqb_neq k 0)) by lia.
  replace (31 - (32 - 1 - Z.log2 k)) with (Z.log2 k) by lia.
  pose proof (log2_srange k Hk Hs). rewrite shift_count by done. rewrite Z.shiftl_mul_pow2 by lia.
  do 2 f_equal. rewrite (pow2_of_land k) at 1; done.
Qed.

(** The integer MOD is Lua's modulo: the remainder of the floored quotient. *)
Lemma lxor_neg r k : Z.lxor r k < 0 <-> (r < 0 <-> 0 <= k).
Proof. pose proof (Z.lxor_nonneg r k). lia. Qed.

Lemma mod_intop x k : srange 32 x -> srange 32 k -> k <> 0 ->
  kfold_intop x k IROp.MOD = Some (x mod k).
Proof.
  unfold srange. intros Hx Hk Hk0. cbn [kfold_intop]. rewrite (proj2 (Z.eqb_neq k 0)) by done.
  unfold wrapping_rem. f_equal. change (2 ^ (32 - 1)) with (2 ^ 31) in *.
  pose proof (Z.quot_rem x k Hk0) as Hq. pose proof (Z.rem_bound_abs x k Hk0) as Hb.
  pose proof (Z.rem_sign_mul x k Hk0) as Hsg.
  set (r := Z.rem x k) in *. set (q := Z.quot x k) in *. clearbody r q.
  assert (Hr : swrap 32 r = r) by (apply swrap_small; [lia|unfold srange; lia]). rewrite !Hr.
  destruct (Z.eqb_spec r 0) as [->|Hr0]; cbn [negb andb].
  { apply Z.mod_unique with q; lia. }
  destruct (Z.ltb_spec (Z.lxor r k) 0) as [Hl|Hl].
  - rewrite lxor_neg in Hl. rewrite swrap_small; [|lia|unfold srange; lia].
    apply Z.mod_unique with (q - 1); [lia|]. lia.
  - assert (~ Z.lxor r k < 0) as Hl' by lia. rewrite lxor_neg in Hl'.
    apply Z.mod_unique with q; [lia|]. lia.
Qed.

Lemma mod_pow2 x k : srange 32 x -> 0 < k -> srange 32 k -> Z.land k (k - 1) = 0 ->
  kfold_intop x k IROp.MOD = kfold_intop x (k - 1) IROp.BAND.
Proof.
  intros Hx Hk Hs Hl. rewrite mod_intop by (done || lia). cbn [kfold_intop]. f_equal.
  pose proof (log2_srange k Hk Hs). rewrite (pow2_of_land k Hk Hl) at 1 2.
  replace (2 ^ Z.log2 k - 1) with (Z.ones (Z.log2 k)) by (rewrite Z.ones_equiv; lia).
  symmetry. apply Z.land_ones. lia.
Qed.

(** ** Bit operations *)

Lemma swap_bytes_involutive x : urange 32 x -> swap_bytes (swap_bytes x) = x.
Proof.
  unfold urange, swap_bytes. intros Hx. zmasks. zbits.
Qed.

Lemma swap_bytes_range x : urange 32 x -> urange 32 (swap_bytes x).
Proof.
  intros Hx. assert (swap_bytes x = swap_bytes x mod 2 ^ 32) as ->.
  { unfold urange, swap_bytes in *. zmasks. zbits. }
  apply Z.mod_pos_bound. lia.
Qed.

Definition bswap32 (x : Z) : Z := swrap 32 (swap_bytes (uwrap 32 x)).

Lemma bswap32_involutive x : srange 32 x -> bswap32 (bswap32 x) = x.
Proof.
  intros Hx. unfold bswap32. rewrite uwrap_swrap by lia.
  pose proof (uwrap_range 32 x ltac:(lia)) as Hu.
  rewrite (uwrap_small 32 (swap_bytes _)) by (by apply swap_bytes_range).
  rewrite swap_bytes_involutive by done. rewrite swrap_uwrap by lia. by apply swrap_small.
Qed.

(** ** The value of an integer instruction

    [None] is a failing guard: an overflowing checked operation, a false
    comparison; and the division by zero the executor cannot perform. *)

Definition checked (k : Z) : option Z := if swrap 32 k =? k then Some k else None.
Definition guard (c : bool) : option Z := if c then Some 0 else None.

Definition int_sem (o : IROp.t) (x y : Z) : option Z :=
  match o with
  | IROp.BNOT => Some (Z.lnot x)
  | IROp.BSWAP => Some (bswap32 x)
  | IROp.ADDOV => checked (x + y)
  | IROp.SUBOV => checked (x - y)
  | IROp.MULOV => checked (x * y)
  | IROp.EQ => guard (x =? y)
  | IROp.NE => guard (negb (x =? y))
  | IROp.LT | IROp.GE | IROp.LE | IROp.GT | IROp.ULT | IROp.UGE | IROp.ULE | IROp.UGT =>
      guard (int_cmp o x y)
  | _ => kfold_intop x y o
  end.

(** Integer operations with a value, and with a guard only. *)
Definition int_value_op (o : IROp.t) : bool :=
  match o with
  | IROp.ADD | IROp.SUB | IROp.MUL | IROp.MOD | IROp.NEG | IROp.MIN | IROp.MAX
  | IROp.ADDOV | IROp.SUBOV | IROp.MULOV | IROp.BNOT | IROp.BSWAP
  | IROp.BAND | IROp.BOR | IROp.BXOR | IROp.BSHL | IROp.BSHR | IROp.BSAR | IROp.BROL | IROp.BROR => true
  | _ => false
  end.

Definition int_guard_op (o : IROp.t) : bool :=
  match o with
  | IROp.EQ | IROp.NE | IROp.LT | IROp.GE | IROp.LE | IROp.GT
  | IROp.ULT | IROp.UGE | IROp.ULE | IROp.UGT => true
  | _ => false
  end.

Definition int_op (o : IROp.t) : bool := int_value_op o || int_guard_op o.

Lemma int_op_arith o : int_op o = true -> arith o = true.
Proof. by destruct o. Qed.

Lemma checked_range k z : checked k = Some z -> srange 32 z.
Proof.
  unfold checked. destruct (Z.eqb_spec (swrap 32 k) k) as [E|]; [|done]. intros [= <-].
  rewrite <- E. apply swrap_range. lia.
Qed.

Lemma int_sem_range o x y z : int_value_op o = true -> srange 32 x -> srange 32 y ->
  int_sem o x y = Some z -> srange 32 z.
Proof.
  intros Ho Hx Hy. pose proof (kfold_intop_range x y o z Hx Hy).
  destruct o; try done; cbn [int_sem]; auto.
  - intros [= <-]. by apply srange_lnot.
  - intros [= <-]. apply swrap_range. lia.
  - apply checked_range.
  - apply checked_range.
  - apply checked_range.
Qed.

(** Mirroring a comparison: the opcode's code xor 3 swaps its operands. *)
Lemma cmp_mirror o x y : int_guard_op o = true -> o <> IROp.EQ -> o <> IROp.NE ->
  exists o', from_u8 (Z.lxor (enum_code o) 3) = Some o' /\ int_guard_op o' = true /\
    int_sem o' y x = int_sem o x y.
Proof.
  intros Ho H1 H2. destruct o; try done; (eexists; split; [reflexivity|]; split; done).
Qed.

(** A comparison of a value with itself, by the two low bits of the code. *)
Lemma cmp_refl o x : int_guard_op o = true -> o <> IROp.EQ -> o <> IROp.NE ->
  int_sem o x x = guard (negb (Z.land (Z.lxor (enum_code o) (Z.shiftr (enum_code o) 1)) 1 =? 0)).
Proof.
  intros Ho H1 H2. destruct o; try done; cbn; rewrite ?Z.ltb_irrefl, ?Z.leb_refl; done.
Qed.
