(* ===== verification/FoldSound.v ===== *)
(** * FOLD preserves integer execution

    Integer instructions over integer operands: a value for every reference
    ([models]), the value of an instruction under it ([isem]), and the theorem
    that what [opt_fold] returns has the value of the instruction it was
    given, fails when and only when that instruction's guard fails, and drops
    only guards that hold. *)

From Stdlib Require Import ZArith Lia Bool.
From stdpp Require Import base decidable numbers option list.
From S2P Require Import Prelude Float64 Ir IrSpec IrInv OptMem Fold IrEmit FoldTerm IntSem.

(** ** Values *)

(** The value of an operand: a KINT payload, or what execution stored. *)
Definition rval (b : IrBuf) (env : Z -> Z) (r : Z) : option Z :=
  if irref_isk r then
    let? i := ir b r in
    if is_op (Some i) IROp.KINT then Some (ins_i i) else None
  else Some (swrap 32 (env r)).

Definition isem (b : IrBuf) (env : Z -> Z) (f : IRIns) : option Z :=
  let? o := ins_op f in
  let? x := rval b env (op1 f) in
  if unary o then int_sem o x 0
  else
    let? y := rval b env (op2 f) in
    int_sem o x y.

(** References to integers. *)
Definition int_refb (b : IrBuf) (r : Z) : bool :=
  match ir b r with
  | Some i => irt_isint (ins_t i) && (negb (irref_isk r) || is_op (Some i) IROp.KINT)
  | None => false
  end.

(** An instruction computes an integer exactly when its operands are integers,
    which precede it; a KINT is an integer. *)
Record typed (b : IrBuf) : Prop := {
  ty_ins : forall j i o, ins b !! j = Some i -> ins_op i = Some o -> int_op o = true ->
    nk b <= op1 i < iref j /\ (unary o = false -> nk b <= op2 i < iref j) /\
    irt_isint (ins_t i) = int_refb b (op1 i) && (unary o || int_refb b (op2 i));
  ty_kint : forall j i, kk b !! j = Some i -> ins_op i = Some IROp.KINT -> irt_isint (ins_t i) = true;
}.

(** The environment is one the integer instructions of the buffer produce. *)
Definition models (b : IrBuf) (env : Z -> Z) : Prop :=
  forall j i o, ins b !! j = Some i -> ins_op i = Some o -> int_op o = true ->
    irt_isint (ins_t i) = true ->
    exists v, isem b env i = Some v /\ (int_value_op o = true -> v = swrap 32 (env (iref j))).

Record int_valid (b : IrBuf) (f : IRIns) (o : IROp.t) : Prop := {
  iv_valid : valid b f o;
  iv_op : int_op o = true;
  iv_type : irt_isint (ins_t f) = true;
  iv_ref1 : int_refb b (op1 f) = true;
  iv_ref2 : unary o = true \/ int_refb b (op2 f) = true;
}.

(** ** Operands *)

Lemma int_refb_ir b r : int_refb b r = true -> exists i, ir b r = Some i /\
  irt_isint (ins_t i) = true /\ (irref_isk r = true -> ins_op i = Some IROp.KINT).
Proof.
  unfold int_refb. destruct (ir b r) as [i|]; [|done]. intros [Ht Hk]%andb_true_iff.
  exists i. split; [done|]. split; [done|]. intros Hr. rewrite Hr in Hk. by apply is_op_Some.
Qed.

Lemma rval_int b env r : int_refb b r = true -> exists v, rval b env r = Some v /\ srange 32 v.
Proof.
  intros (i & Hi & Ht & Hk)%int_refb_ir. unfold rval. destruct (irref_isk r) eqn:E.
  - rewrite Hi. rewrite (proj2 (is_op_Some i IROp.KINT)) by auto.
    eexists. split; [done|]. apply srange_ins_i.
  - eexists. split; [done|]. apply swrap_range. lia.
Qed.

Lemma rval_kint b env r i : ir_wf b -> ir b r = Some i -> ins_op i = Some IROp.KINT ->
  rval b env r = Some (ins_i i).
Proof.
  intros Hwf Hi Hop. destruct (const_operand b r i _ Hwf Hi Hop eq_refl) as [Hk _].
  unfold rval. rewrite Hk, Hi. by rewrite (proj2 (is_op_Some i IROp.KINT)).
Qed.

(** Two integer constants are equal exactly when their references are. *)
Lemma kint_refs b r r' i i' : ir_wf b -> ir b r = Some i -> ir b r' = Some i' ->
  ins_op i = Some IROp.KINT -> ins_op i' = Some IROp.KINT -> (r =? r') = (ins_i i =? ins_i i').
Proof.
  intros Hwf Hi Hi' Hop Hop'.
  assert (Hpos : forall r i, ir b r = Some i -> ins_op i = Some IROp.KINT ->
    denotes b IROp.KINT r (ins_i i)).
  { intros q x Hx Hx'. destruct (ref_cases b q (ir_Some_valid _ _ _ Hx)) as [(j & -> & Hj)|(j & -> & Hj)].
    - rewrite ir_kref in Hx. exists j, x. split; [done|]. split; [done|]. split; [done|].
      unfold payload. rewrite decide_True by done. by rewrite Hx.
    - rewrite ir_iref in Hx. destruct (wf_ops _ Hwf _ _ Hx) as ((o & Ho & Hc) & _).
      assert (o = IROp.KINT) as -> by congruence. done. }
  destruct (Z.eqb_spec r r') as [->|Hne], (Z.eqb_spec (ins_i i) (ins_i i')) as [E|E]; try done.
  - congruence.
  - destruct Hne. apply (denotes_unique b IROp.KINT r r' (ins_i i)); [done|done|by apply Hpos|].
    rewrite E. by apply Hpos.
Qed.

(** ** Extensions by constants *)

Lemma kext_int_refb n b b' r : kext n b b' -> nk b <= r < nins b -> int_refb b' r = int_refb b r.
Proof.
  intros Hext Hr. destruct (ir_valid b r Hr) as [i Hi]. unfold int_refb.
  by rewrite Hi, (kext_ir _ _ _ _ _ Hext Hi).
Qed.

Lemma int_refb_valid b r : int_refb b r = true -> nk b <= r < nins b.
Proof. intros (i & Hi & _)%int_refb_ir. by eapply ir_Some_valid. Qed.

Lemma kext_rval n b b' env r : kext n b b' -> nk b <= r < nins b -> rval b' env r = rval b env r.
Proof.
  intros Hext Hr. destruct (ir_valid b r Hr) as [i Hi]. unfold rval.
  by rewrite Hi, (kext_ir _ _ _ _ _ Hext Hi).
Qed.

Lemma kext_isem n b b' env f o : kext n b b' -> ins_op f = Some o -> nk b <= op1 f < nins b ->
  (unary o = false -> nk b <= op2 f < nins b) -> isem b' env f = isem b env f.
Proof.
  intros Hext Ho H1 H2. unfold isem. rewrite Ho. rewrite (kext_rval _ _ _ _ _ Hext) by done.
  destruct (unary o); [done|]. rewrite (kext_rval _ _ _ _ _ Hext) by auto. done.
Qed.

Lemma iref_lt_nins b j i : ins b !! j = Some i -> iref j < nins b.
Proof. intros H%lookup_lt_Some. unfold iref, nins, zlen. lia. Qed.

Lemma kext_ty_ins n b b' : kext n b b' -> typed b ->
  forall j i o, ins b' !! j = Some i -> ins_op i = Some o -> int_op o = true ->
    nk b' <= op1 i < iref j /\ (unary o = false -> nk b' <= op2 i < iref j) /\
    irt_isint (ins_t i) = int_refb b' (op1 i) && (unary o || int_refb b' (op2 i)).
Proof.
  intros Hext Ht j i o Hi Ho Hio. rewrite (kext_ins _ _ _ Hext) in Hi.
  destruct (ty_ins _ Ht j i o Hi Ho Hio) as (H1 & H2 & E). pose proof (kext_nk _ _ _ Hext).
  pose proof (iref_lt_nins _ _ _ Hi).
  split; [lia|]. split; [intros Hu; specialize (H2 Hu); lia|].
  rewrite E. rewrite (kext_int_refb _ _ _ _ Hext) by lia.
  destruct (unary o) eqn:Hu; [done|]. rewrite (kext_int_refb _ _ _ (op2 i) Hext); [done|].
  specialize (H2 eq_refl). lia.
Qed.

Lemma interned_typed b b' k r : typed b -> interned b b' IROp.KINT (kint_ins k) r k -> typed b'.
Proof.
  intros Ht (_ & Hext & _ & Hor). split; [by eapply kext_ty_ins|].
  intros j i Hi Hop. destruct Hor as [[-> _]|[c Hkk]]; [by eapply ty_kint|].
  rewrite Hkk in Hi. apply lookup_snoc_inv in Hi as [(_ & Hi)|(-> & ->)]; [by eapply ty_kint|].
  reflexivity.
Qed.

Lemma kext_models n b b' env : kext n b b' -> typed b -> models b' env <-> models b env.
Proof.
  intros Hext Ht. unfold models. rewrite (kext_ins _ _ _ Hext).
  assert (H : forall j i o, ins b !! j = Some i -> ins_op i = Some o -> int_op o = true ->
    isem b' env i = isem b env i).
  { intros j i o Hi Ho Hio. destruct (ty_ins _ Ht j i o Hi Ho Hio) as (H1 & H2 & _).
    pose proof (iref_lt_nins _ _ _ Hi). eapply kext_isem; [done..|lia|]. intros Hu. specialize (H2 Hu). lia. }
  split; intros Hm j i o Hi Ho Hio Hit; destruct (Hm j i o Hi Ho Hio Hit) as (v & E & Hv); exists v;
    (split; [|done]).
  - by rewrite <- (H j i o).
  - by rewrite (H j i o).
Qed.

(** ** Sound passes *)

Definition sound (b : IrBuf) (o : IROp.t) (f : IRIns) (p : Pass) : Prop :=
  match p with
  | Some (Ok (b', f', Retry)) => exists o' n, kext n b b' /\ typed b' /\ int_valid b' f' o' /\
      int_value_op o' = int_value_op o /\
      forall env, models b env -> isem b' env f' = isem b env f
  | Some (Ok (b', _, Ref r)) => int_value_op o = true /\ int_refb b r = true /\
      forall env, models b env -> isem b env f = rval b env r
  | Some (Ok (b', _, TRef tr)) => exists n, kext n b b' /\ typed b' /\ int_value_op o = true /\
      int_refb b' (tref_ref tr) = true /\
      forall env, models b env -> isem b env f = rval b' env (tref_ref tr)
  | Some (Ok (b', _, Drop)) => int_value_op o = false /\
      forall env, models b env -> is_Some (isem b env f)
  | Some (Err _) => forall env, models b env -> isem b env f = None
  | _ => True
  end.

Section Sound.
Context (b : IrBuf) (o : IROp.t) (f : IRIns).
Context (Hwf : fold_wf b) (Hty : typed b) (Hiv : int_valid b f o).
Context (Hroom : zlen (kk b) + cpot o f < 0x7fff).

Let Hv : valid b f o := iv_valid _ _ _ Hiv.

Lemma sound_cse : sound b o f (done_ b f Cse).
Proof. exact I. Qed.

(** The operands' values. *)
Lemma isem_binary env : unary o = false -> exists x y,
  rval b env (op1 f) = Some x /\ rval b env (op2 f) = Some y /\ srange 32 x /\ srange 32 y /\
  isem b env f = int_sem o x y.
Proof.
  intros Hu. destruct (rval_int b env _ (iv_ref1 _ _ _ Hiv)) as (x & Hx & Hxr).
  destruct (iv_ref2 _ _ _ Hiv) as [|H2]; [congruence|].
  destruct (rval_int b env _ H2) as (y & Hy & Hyr). exists x, y.
  unfold isem. rewrite (valid_op _ _ _ Hv), Hx, Hu, Hy. done.
Qed.

Lemma isem_unary env : unary o = true -> exists x,
  rval b env (op1 f) = Some x /\ srange 32 x /\ isem b env f = int_sem o x 0.
Proof.
  intros Hu. destruct (rval_int b env _ (iv_ref1 _ _ _ Hiv)) as (x & Hx & Hxr). exists x.
  unfold isem. rewrite (valid_op _ _ _ Hv), Hx, Hu. done.
Qed.

(** Rules that return an operand. *)
Lemma sound_ref r : int_value_op o = true -> int_refb b r = true ->
  (forall env, models b env -> isem b env f = rval b env r) -> sound b o f (done_ b f (Ref r)).
Proof. done. Qed.

(** Rules that return an interned constant. *)
Lemma kint_int k : srange 32 k -> exists b' r, kint b k = Some (b', tref r IRT_INT) /\
  kext 1 b b' /\ typed b' /\ fold_wf b' /\ tref_ref (tref r IRT_INT) = r /\ uwrap 16 r = r /\
  int_refb b' r = true /\ (forall env, rval b' env r = Some k) /\ nk b' <= r < REF_BIAS.
Proof.
  intros Hk. pose proof (kk_room b o f Hroom) as Hr.
  destruct (kint_interned b k (fw_ir _ Hwf) Hr Hk) as (b' & r & E & Hi). exists b', r.
  pose proof (interned_typed _ _ _ _ Hty Hi) as Hty'. pose proof Hi as (_ & _ & Hden & _).
  eapply interned_tref in Hi as (Hwf' & Hext & Er & Eu & Hrr & i & Hir & Hop);
    [|done|apply int_type_u8|done|apply ins_op_kint_ins].
  destruct (const_operand b' r i _ (fw_ir _ Hwf') Hir Hop eq_refl) as [Hk' _].
  assert (Hval : ins_i i = k).
  { destruct Hden as (j & i' & -> & Hj & _ & Hp). rewrite ir_kref in Hir.
    unfold payload in Hp. rewrite decide_True, Hir in Hp by done. cbn in Hp. congruence. }
  assert (Hint : irt_isint (ins_t i) = true).
  { destruct Hden as (j & i' & -> & Hj & _). rewrite ir_kref in Hir. by eapply ty_kint. }
  split; [done|]. split; [done|]. split; [done|]. split; [done|]. split; [done|]. split; [done|].
  split; [|split; [|done]].
  - unfold int_refb. rewrite Hir, Hint, Hk'. cbn. by apply is_op_Some.
  - intros env. rewrite (rval_kint b' env r i) by (done || apply Hwf'). by rewrite Hval.
Qed.

Lemma sound_kint k : int_value_op o = true -> srange 32 k ->
  (forall env, models b env -> isem b env f = Some k) -> sound b o f (ret_kint b f k).
Proof.
  intros Ho Hk Hs. destruct (kint_int k Hk) as (b' & r & E & Hext & Hty' & _ & Er & _ & Hint & Hval & _).
  unfold ret_kint. rewrite E. exists 1. rewrite Er. split; [done|]. split; [done|]. split; [done|].
  split; [done|]. intros env Hm. by rewrite Hval, Hs.
Qed.

(** Rules that try again with other operands. *)
Lemma sound_retry f' o' : int_valid b f' o' -> int_value_op o' = int_value_op o ->
  (forall env, models b env -> isem b env f' = isem b env f) -> sound b o f (done_ b f' Retry).
Proof. intros. exists o', 0. split; [by apply kext_refl|]. auto. Qed.

Lemma sound_cond c : int_value_op o = false ->
  (forall env, models b env -> isem b env f = guard c) -> sound b o f (condfold b f c).
Proof.
  intros Ho Hs. destruct c; [|exact Hs]. split; [done|]. intros env Hm. rewrite (Hs env Hm). by eexists.
Qed.

End Sound.

Lemma int_valid_bin b f o : ir_wf b -> ins_op f = Some o -> int_op o = true -> unary o = false ->
  irt_isint (ins_t f) = true -> int_refb b (op1 f) = true -> int_refb b (op2 f) = true ->
  int_valid b f o.
Proof.
  intros Hwf Ho Hio Hu Ht H1 H2. split; auto. apply valid_bin; try done.
  - by apply int_op_arith.
  - by apply int_refb_valid.
  - by apply int_refb_valid.
Qed.

Lemma isem_bin_at b env f o x y : ins_op f = Some o -> unary o = false ->
  rval b env (op1 f) = Some x -> rval b env (op2 f) = Some y -> isem b env f = int_sem o x y.
Proof. intros Ho Hu Hx Hy. unfold isem. by rewrite Ho, Hx, Hu, Hy. Qed.

Lemma isem_un_at b env f o x : ins_op f = Some o -> unary o = true ->
  rval b env (op1 f) = Some x -> isem b env f = int_sem o x 0.
Proof. intros Ho Hu Hx. unfold isem. by rewrite Ho, Hx, Hu. Qed.

(** An integer operand that is an involution of an integer. *)
Lemma inv_sem b r i o : fold_wf b -> typed b -> ir b r = Some i -> int_refb b r = true ->
  ins_op i = Some o -> involution o = true ->
  int_refb b (op1 i) = true /\
  forall env, models b env -> exists a, rval b env (op1 i) = Some a /\ srange 32 a /\
    rval b env r = int_sem o a 0.
Proof.
  intros Hwf Hty Hi Hint Hop Hinv. destruct (fw_inv _ Hwf r i o Hi Hop Hinv) as (Hb & Hlt).
  destruct (ref_cases b r (ir_Some_valid _ _ _ Hi)) as [(j & -> & Hj)|(j & -> & Hj)];
    [unfold kref in Hb; lia|].
  pose proof Hi as Hij. rewrite ir_iref in Hij.
  assert (Hio : int_op o = true) by (by destruct o). assert (Hu : unary o = true) by (by destruct o).
  assert (Hvo : int_value_op o = true) by (by destruct o).
  destruct (ty_ins _ Hty j i o Hij Hop Hio) as (_ & _ & E). rewrite Hu in E. cbn [orb] in E.
  rewrite andb_true_r in E. destruct (int_refb_ir _ _ Hint) as (i' & Hi' & Hit & _).
  assert (i' = i) as -> by congruence. rewrite Hit in E. split; [done|].
  intros env Hm. destruct (rval_int b env (op1 i)) as (a & Ha & Har); [done|]. exists a.
  split; [done|]. split; [done|].
  destruct (Hm j i o Hij Hop Hio Hit) as (v & Hv & Hval).
  rewrite (isem_un_at b env i o a) in Hv by done. rewrite Hv, (Hval Hvo).
  unfold rval, irref_isk. destruct (Z.ltb_spec (iref j) REF_BIAS); [unfold iref in *; lia|done].
Qed.

(** Integer operands are no other constants than KINT. *)
Lemma int_not_const b r i o : fold_wf b -> ir b r = Some i -> int_refb b r = true ->
  cst_op o = true -> o <> IROp.KINT -> is_op (Some i) o = false.
Proof.
  intros Hwf Hi Hint Ho Hne. destruct (is_op (Some i) o) eqn:E; [|done]. apply is_op_Some in E.
  destruct (const_operand b r i o (fw_ir _ Hwf) Hi E Ho) as [Hk _].
  destruct (int_refb_ir _ _ Hint) as (i' & Hi' & _ & Hkint). specialize (Hkint Hk). congruence.
Qed.

(** ** The rules on integers *)

Ltac srule :=
  lazymatch goal with
  | |- sound _ _ _ (if ?c then _ else _) => let E := fresh "E" in destruct c eqn:E
  end;
  repeat match goal with
  | H : _ && _ = true |- _ => apply andb_true_iff in H as [? ?]
  | H : is_op (Some _) _ = true |- _ => apply is_op_Some in H
  end.

Section BinarySound.
Context `{Libm} (b : IrBuf) (f il ir_ : IRIns) (o : IROp.t).
Context (Hwf : fold_wf b) (Hty : typed b) (Hiv : int_valid b f o) (Hun : unary o = false).
Context (Hl : ir b (op1 f) = Some il) (Hr : ir b (op2 f) = Some ir_).
Context (Hroom : zlen (kk b) + cpot o f < 0x7fff).

Let H1 : int_refb b (op1 f) = true := iv_ref1 _ _ _ Hiv.

Lemma bin_ref2 : int_refb b (op2 f) = true.
Proof. destruct (iv_ref2 _ _ _ Hiv); [congruence|done]. Qed.
Let H2 : int_refb b (op2 f) = true := bin_ref2.

Lemma bin_isint : irt_isint (ins_t f) = true.
Proof. apply (iv_type _ _ _ Hiv). Qed.

Lemma bin_isnum : irt_isnum (ins_t f) = false.
Proof.
  pose proof bin_isint as E. unfold irt_isint, irt_isnum in *. apply Z.eqb_eq in E. by rewrite E.
Qed.

Lemma l_not_const o' : cst_op o' = true -> o' <> IROp.KINT -> is_op (Some il) o' = false.
Proof. intros. by eapply int_not_const. Qed.

Lemma r_not_const o' : cst_op o' = true -> o' <> IROp.KINT -> is_op (Some ir_) o' = false.
Proof. intros. by eapply int_not_const. Qed.

(** The semantics of the instruction from the constant operands. *)
Lemma bin_sem_consts env : ins_op il = Some IROp.KINT -> ins_op ir_ = Some IROp.KINT ->
  isem b env f = int_sem o (ins_i il) (ins_i ir_).
Proof.
  intros E1 E2. apply isem_bin_at; try done; [apply Hiv|..]; apply rval_kint; try done; apply Hwf.
Qed.

Lemma bin_sem_const env : ins_op ir_ = Some IROp.KINT -> exists x,
  rval b env (op1 f) = Some x /\ srange 32 x /\ isem b env f = int_sem o x (ins_i ir_).
Proof.
  intros E2. destruct (rval_int b env _ H1) as (x & Hx & Hxr). exists x. split; [done|]. split; [done|].
  apply isem_bin_at; try done; [apply Hiv|]. apply rval_kint; try done. apply Hwf.
Qed.

(** Both operands constant. *)
Lemma sound_kfold_int : int_value_op o = true -> ins_op il = Some IROp.KINT ->
  ins_op ir_ = Some IROp.KINT -> (forall x y, int_sem o x y = kfold_intop x y o) ->
  sound b o f (kfold_int b f (Some il) (Some ir_) o).
Proof.
  intros Ho E1 E2 Hs. unfold kfold_int. cbn [opnd_i fmap option_fmap option_map].
  destruct (kfold_intop (ins_i il) (ins_i ir_) o) as [z|] eqn:Ez; [|exact I].
  apply sound_kint; try done.
  - eapply kfold_intop_range; [| |exact Ez]; apply srange_ins_i.
  - intros env _. rewrite bin_sem_consts by done. by rewrite Hs.
Qed.

(** The same operation on the operands the other way round. *)
Lemma int_valid_swap o' g : ins_op g = Some o' -> int_op o' = true -> unary o' = false ->
  irt_isint (ins_t g) = irt_isint (ins_t f) -> op1 g = op2 f -> op2 g = op1 f -> int_valid b g o'.
Proof.
  intros Ho' Hio' Hu' Ht E1 E2. apply int_valid_bin; try done.
  - apply Hwf.
  - by rewrite Ht, bin_isint.
  - by rewrite E1.
  - by rewrite E2.
Qed.

Lemma isem_swap o' g env : ins_op g = Some o' -> unary o' = false ->
  (forall x y, int_sem o' y x = int_sem o x y) -> op1 g = op2 f -> op2 g = op1 f ->
  isem b env g = isem b env f.
Proof.
  intros Ho' Hu' Hs E1 E2. destruct (isem_binary b o f Hiv env Hun) as (x & y & Hx & Hy & _ & _ & ->).
  rewrite (isem_bin_at b env g o' y x); try done; [by rewrite E1|by rewrite E2].
Qed.

Lemma sound_swap : (forall x y, int_sem o y x = int_sem o x y) -> sound b o f (comm_swap b f).
Proof.
  intros Hs. unfold comm_swap. srule; [|exact I]. apply sound_retry with o; try done.
  - apply int_valid_swap; try done; [apply Hiv|]. by apply Hiv.
  - intros env _. by eapply isem_swap; [apply Hiv|..].
Qed.

Lemma sound_swap_comp : int_guard_op o = true -> sound b o f (comm_swap_comp b f).
Proof.
  intros Ho. unfold comm_swap_comp. srule; [|exact I].
  change (ins_op (set_op1 _ _)) with (ins_op f). rewrite (valid_op _ _ _ (iv_valid _ _ _ Hiv)).
  srule.
  - apply sound_retry with o; try done.
    + apply int_valid_swap; try done; [apply Hiv|]. by apply Hiv.
    + intros env _. eapply isem_swap; [apply Hiv|done| |done|done]. intros x y.
      apply orb_true_iff in E0 as [E0|E0]; apply bool_decide_eq_true in E0; rewrite E0; cbn [int_sem];
        by rewrite Z.eqb_sym.
  - apply orb_false_iff in E0 as [N1%bool_decide_eq_false N2%bool_decide_eq_false].
    destruct (cmp_mirror o 0 0 Ho N1 N2) as (o' & E' & Ho' & _). rewrite E'.
    assert (Hs : forall x y, int_sem o' y x = int_sem o x y).
    { intros x y. destruct (cmp_mirror o x y Ho N1 N2) as (o2 & E2 & _ & <-). congruence. }
    apply sound_retry with o'; try done.
    + apply int_valid_swap; try done; [apply set_op_op|by destruct o'|by destruct o'|].
      change (ins_t (set_op o' (set_op1 (op2 f) (set_op2 (op1 f) f)))) with
        (ins_t (set_op o' f)). by rewrite set_op_t.
    + revert Ho Ho'. clear. by destruct o', o.
    + intros env _. eapply isem_swap; [apply set_op_op|by destruct o'|done|done|done].
Qed.
End BinarySound.

Section ArithSound.
Context `{Libm} (b : IrBuf) (f il ir_ : IRIns).
Context (Hwf : fold_wf b) (Hty : typed b).
Context (Hl : ir b (op1 f) = Some il) (Hr : ir b (op2 f) = Some ir_).

(** A rule that replaces the second operand by an interned integer. *)
Lemma sound_kint_op2 o o' k : zlen (kk b) + cpot o f < 0x7fff -> int_valid b f o -> unary o = false ->
  int_op o' = true -> unary o' = false -> int_value_op o' = int_value_op o -> srange 32 k ->
  (forall env x, rval b env (op1 f) = Some x -> srange 32 x -> isem b env f = int_sem o' x k) ->
  sound b o f (let? ' (b', f') := kint_op2 b (set_op o' f) k in done_ b' f' Retry).
Proof.
  intros Hroom Hiv Hu Hio' Hu' Hvo Hk Hs. unfold kint_op2.
  destruct (kint_int b o f Hwf Hty Hroom k Hk)
    as (b' & r & -> & Hext & Hty' & Hwf' & -> & -> & Hint & Hval & Hrr).
  pose proof (int_refb_valid _ _ (iv_ref1 _ _ _ Hiv)) as Hv1.
  exists o', 1. split; [done|]. split; [done|]. split; [|split; [done|]].
  - apply int_valid_bin; ops; try done.
    + apply Hwf'.
    + apply set_op_op.
    + change (ins_t (set_op2 r (set_op o' f))) with (ins_t (set_op o' f)).
      rewrite set_op_t. apply (iv_type _ _ _ Hiv).
    + rewrite (kext_int_refb _ _ _ _ Hext) by done. apply (iv_ref1 _ _ _ Hiv).
  - intros env Hm. destruct (rval_int b env _ (iv_ref1 _ _ _ Hiv)) as (x & Hx & Hxr).
    rewrite (Hs env x) by done. apply isem_bin_at; try done.
    + apply set_op_op.
    + ops. by rewrite (kext_rval _ _ _ _ _ Hext).
Qed.

(** The operands of a retried instruction of another opcode. *)
Lemma int_valid_set o' g : ins_op g = Some o' -> int_op o' = true -> unary o' = false ->
  irt_isint (ins_t f) = true -> ins_t g = ins_t (set_op o' f) ->
  int_refb b (op1 g) = true -> int_refb b (op2 g) = true -> int_valid b g o'.
Proof.
  intros Ho Hio Hu Ht Hg H1 H2. apply int_valid_bin; try done; [apply Hwf|].
  by rewrite Hg, set_op_t.
Qed.

Lemma fold_add_sound : int_valid b f IROp.ADD -> zlen (kk b) + cpot IROp.ADD f < 0x7fff ->
  sound b IROp.ADD f (fold_add b f (Some il) (Some ir_)).
Proof.
  intros Hiv Hroom. pose proof (iv_ref1 _ _ _ Hiv) as H1. pose proof (bin_ref2 b f _ Hiv eq_refl) as H2.
  unfold fold_add. rewrite (l_not_const b f il IROp.ADD) by done. cbn [andb].
  srule; [by eapply sound_kfold_int|].
  srule.
  { srule; [exact I|]. cbn [opnd_op1 fmap option_fmap option_map].
    destruct (inv_sem b _ _ _ Hwf Hty Hl H1 ltac:(eassumption) eq_refl) as (Ha & Hs).
    apply sound_retry with IROp.SUB; try done.
    - apply (int_valid_set IROp.SUB); try done; [apply set_op_op|apply (iv_type _ _ _ Hiv)].
    - intros env Hm. destruct (Hs env Hm) as (a & Hav & Har & Hlv).
      destruct (isem_binary b IROp.ADD f Hiv env eq_refl) as (x & y & Hx & Hy & _ & _ & ->).
      rewrite (isem_bin_at b env _ IROp.SUB y a); try done; [|apply set_op_op].
      cbn [int_sem] in *. rewrite Hx, neg_intop in Hlv. injection Hlv as ->.
      cbn [kfold_intop]. by rewrite swrap_add_neg. }
  srule.
  { srule; [exact I|]. cbn [opnd_op1 fmap option_fmap option_map].
    destruct (inv_sem b _ _ _ Hwf Hty Hr H2 ltac:(eassumption) eq_refl) as (Ha & Hs).
    apply sound_retry with IROp.SUB; try done.
    - apply (int_valid_set IROp.SUB); try done; [apply set_op_op|apply (iv_type _ _ _ Hiv)].
    - intros env Hm. destruct (Hs env Hm) as (a & Hav & Har & Hlv).
      destruct (isem_binary b IROp.ADD f Hiv env eq_refl) as (x & y & Hx & Hy & _ & _ & ->).
      rewrite (isem_bin_at b env _ IROp.SUB x a); try done; [|apply set_op_op].
      cbn [int_sem] in *. rewrite Hy, neg_intop in Hlv. injection Hlv as ->.
      cbn [kfold_intop]. by rewrite (Z.add_comm x), swrap_add_neg. }
  srule.
  { apply sound_ref; try done. intros env _.
    destruct (bin_sem_const b f ir_ IROp.ADD Hwf Hiv eq_refl Hr env) as (x & Hx & Hxr & ->); [done|].
    match goal with H : bool_decide _ = true |- _ => apply bool_decide_eq_true in H; injection H as -> end.
    rewrite Hx. cbn [int_sem kfold_intop]. rewrite Z.add_0_r. by rewrite swrap_small. }
  eapply sound_swap; try done. intros x y. cbn [int_sem kfold_intop]. by rewrite Z.add_comm.
Qed.

Lemma fold_sub_sound : int_valid b f IROp.SUB -> zlen (kk b) + cpot IROp.SUB f < 0x7fff ->
  sound b IROp.SUB f (fold_sub b f (Some il) (Some ir_)).
Proof.
  intros Hiv Hroom. pose proof (iv_ref1 _ _ _ Hiv) as H1. pose proof (bin_ref2 b f _ Hiv eq_refl) as H2.
  unfold fold_sub. rewrite (l_not_const b f il IROp.SUB) by done.
  rewrite !(r_not_const b f ir_ IROp.SUB) by done. cbn [andb]. rewrite andb_false_r.
  srule; [by eapply sound_kfold_int|]. srule.
  { srule; [exact I|]. cbn [opnd_op1 fmap option_fmap option_map].
    destruct (inv_sem b _ _ _ Hwf Hty Hr H2 ltac:(eassumption) eq_refl) as (Ha & Hs).
    apply sound_retry with IROp.ADD; try done.
    - apply (int_valid_set IROp.ADD); try done; [apply set_op_op|apply (iv_type _ _ _ Hiv)].
    - intros env Hm. destruct (Hs env Hm) as (a & Hav & Har & Hlv).
      destruct (isem_binary b IROp.SUB f Hiv env eq_refl) as (x & y & Hx & Hy & _ & _ & ->).
      rewrite (isem_bin_at b env _ IROp.ADD x a); try done; [|apply set_op_op].
      cbn [int_sem] in *. rewrite Hy, neg_intop in Hlv. injection Hlv as ->.
      cbn [kfold_intop]. by rewrite swrap_sub_neg. }
  srule.
  { cbn [opnd_i fmap option_fmap option_map]. srule.
    - apply sound_ref; try done. intros env _.
      destruct (bin_sem_const b f ir_ IROp.SUB Hwf Hiv eq_refl Hr env) as (x & Hx & Hxr & ->); [done|].
      rewrite Hx. cbn [int_sem kfold_intop]. replace (x - ins_i ir_) with x by lia. by rewrite swrap_small.
    - apply sound_kint_op2; try done; [apply swrap_range; lia|]. intros env x Hx Hxr.
      destruct (bin_sem_const b f ir_ IROp.SUB Hwf Hiv eq_refl Hr env) as (x' & Hx' & _ & ->); [done|].
      assert (x' = x) as -> by congruence. cbn [int_sem kfold_intop].
      by rewrite wrapping_neg, swrap_add_wneg. }
  srule; [|exact I]. apply sound_retry with IROp.NEG; try done.
  - pose proof (int_refb_valid _ _ H2). pose proof (nk_nins b).
    split; try done; ops; [|rewrite <- (iv_type _ _ _ Hiv); change (ins_t (set_op1 _ _)) with
      (ins_t (set_op IROp.NEG f)); by rewrite set_op_t|by left].
    apply valid_bin; ops; try done; [apply Hwf|apply set_op_op].
  - intros env Hm. destruct (isem_binary b IROp.SUB f Hiv env eq_refl) as (x & y & Hx & Hy & _ & _ & ->).
    rewrite (isem_un_at b env _ IROp.NEG y); [|apply set_op_op|done|done].
    rewrite (rval_kint b env _ il) in Hx by (done || apply Hwf). injection Hx as <-.
    match goal with H : bool_decide _ = true |- _ => apply bool_decide_eq_true in H; injection H as -> end.
    cbn [int_sem]. rewrite neg_intop. done.
Qed.

Lemma fold_mul_sound : int_valid b f IROp.MUL -> zlen (kk b) + cpot IROp.MUL f < 0x7fff ->
  sound b IROp.MUL f (fold_mul b f (Some il) (Some ir_)).
Proof.
  intros Hiv Hroom. pose proof (iv_ref1 _ _ _ Hiv) as H1. pose proof (bin_ref2 b f _ Hiv eq_refl) as H2.
  unfold fold_mul. rewrite (l_not_const b f il IROp.MUL) by done.
  rewrite !(r_not_const b f ir_ IROp.MUL) by done. cbn [andb].
  assert (Hswap : sound b IROp.MUL f (comm_swap b f)).
  { eapply sound_swap; try done. intros x y. cbn [int_sem kfold_intop]. by rewrite Z.mul_comm. }
  srule; [by eapply sound_kfold_int|]. srule; [|done].
  assert (Hc : forall env, exists x, rval b env (op1 f) = Some x /\ srange 32 x /\
    isem b env f = int_sem IROp.MUL x (ins_i ir_)).
  { intros env. by apply bin_sem_const. }
  cbn [opnd_i fmap option_fmap option_map]. srule.
  { apply sound_ref; try done. intros env _. destruct (Hc env) as (x & Hx & Hxr & ->).
    rewrite (rval_kint b env _ ir_) by (done || apply Hwf). cbn [int_sem kfold_intop].
    replace (x * ins_i ir_) with (ins_i ir_) by lia. rewrite swrap_small; [done|lia|apply srange_ins_i]. }
  srule.
  { apply sound_ref; try done. intros env _. destruct (Hc env) as (x & Hx & Hxr & ->). rewrite Hx.
    cbn [int_sem kfold_intop]. replace (x * ins_i ir_) with x by lia. by rewrite swrap_small. }
  srule; [|done].
  assert (0 < ins_i ir_) by lia. assert (Z.land (ins_i ir_) (ins_i ir_ - 1) = 0) by lia.
  apply sound_kint_op2; try done.
  - pose proof (log2_srange (ins_i ir_) ltac:(lia) (srange_ins_i ir_)). unfold leading_zeros, srange.
    rewrite (proj2 (Z.eqb_neq _ 0)) by lia. lia.
  - intros env x Hx Hxr. destruct (Hc env) as (x' & Hx' & _ & ->). assert (x' = x) as -> by congruence.
    cbn [int_sem]. apply mul_pow2; try done. apply srange_ins_i.
Qed.

Lemma fold_mod_sound : int_valid b f IROp.MOD -> zlen (kk b) + cpot IROp.MOD f < 0x7fff ->
  sound b IROp.MOD f (fold_mod b f (Some il) (Some ir_)).
Proof.
  intros Hiv Hroom. pose proof (iv_ref1 _ _ _ Hiv) as H1. pose proof (bin_ref2 b f _ Hiv eq_refl) as H2.
  unfold fold_mod. rewrite (l_not_const b f il IROp.MOD) by done. cbn [andb].
  srule; [by eapply sound_kfold_int|]. srule; [|exact I].
  cbn [opnd_i fmap option_fmap option_map]. srule; [|exact I].
  assert (0 < ins_i ir_) by lia. assert (Z.land (ins_i ir_) (ins_i ir_ - 1) = 0) by lia.
  pose proof (srange_ins_i ir_) as Hsr.
  apply sound_kint_op2; try done; [unfold srange in *; lia|].
  intros env x Hx Hxr.
  destruct (bin_sem_const b f ir_ IROp.MOD Hwf Hiv eq_refl Hr env) as (x' & Hx' & _ & ->); [done|].
  assert (x' = x) as -> by congruence. cbn [int_sem]. by apply mod_pow2.
Qed.
End ArithSound.

Section OtherSound.
Context `{Libm} (b : IrBuf) (f il ir_ : IRIns).
Context (Hwf : fold_wf b) (Hty : typed b).
Context (Hl : ir b (op1 f) = Some il) (Hr : ir b (op2 f) = Some ir_).

(** Both operands are the same reference. *)
Lemma same_operand o env : int_valid b f o -> unary o = false -> op1 f = op2 f ->
  exists x, rval b env (op1 f) = Some x /\ srange 32 x /\ isem b env f = int_sem o x x.
Proof.
  intros Hiv Hu E. destruct (isem_binary b o f Hiv env Hu) as (x & y & Hx & Hy & Hxr & _ & ->).
  exists x. rewrite <- E in Hy. split; [done|]. split; [done|]. congruence.
Qed.

Lemma fold_minmax_sound o : o = IROp.MIN \/ o = IROp.MAX -> int_valid b f o ->
  zlen (kk b) + cpot o f < 0x7fff -> sound b o f (fold_minmax b f (Some il) (Some ir_) o).
Proof.
  intros Ho Hiv Hroom. assert (Hu : unary o = false) by (by destruct Ho as [-> | ->]).
  unfold fold_minmax. rewrite (l_not_const b f il o) by done. cbn [andb].
  srule; [eapply sound_kfold_int; try done; by destruct Ho as [-> | ->]|].
  srule; [|exact I]. apply Z.eqb_eq in E0.
  apply sound_ref; [by destruct Ho as [-> | ->]|apply (iv_ref1 _ _ _ Hiv)|]. intros env _.
  destruct (same_operand o env Hiv Hu E0) as (x & Hx & _ & ->). rewrite Hx.
  destruct Ho as [-> | ->]; cbn [int_sem kfold_intop]; f_equal; lia.
Qed.

Lemma checked_srange x : srange 32 x -> checked x = Some x.
Proof. intros. unfold checked. rewrite swrap_small by (done || lia). by rewrite Z.eqb_refl. Qed.

Lemma fold_ov_sound o : o = IROp.ADDOV \/ o = IROp.SUBOV \/ o = IROp.MULOV -> int_valid b f o ->
  zlen (kk b) + cpot o f < 0x7fff -> sound b o f (fold_ov b f (Some il) (Some ir_) o).
Proof.
  intros Ho Hiv Hroom. assert (Hu : unary o = false) by (by destruct Ho as [-> |[-> | ->]]).
  assert (Hvo : int_value_op o = true) by (by destruct Ho as [-> |[-> | ->]]).
  pose proof (iv_ref1 _ _ _ Hiv) as H1. pose proof (bin_ref2 b f _ Hiv Hu) as H2.
  unfold fold_ov. cbv zeta.
  assert (Htail : sound b o f
    (if negb (bool_decide (o = IROp.SUBOV)) then comm_swap b f else done_ b f Cse)).
  { srule; [|exact I]. eapply sound_swap; try done. apply negb_true_iff, bool_decide_eq_false in E.
    intros x y. destruct Ho as [-> |[-> | ->]]; cbn [int_sem]; try done;
      first [by rewrite (Z.add_comm y)|by rewrite (Z.mul_comm y)]. }
  cbn [opnd_i fmap option_fmap option_map]. srule.
  { set (k := match o with IROp.ADDOV => _ | IROp.SUBOV => _ | _ => _ end).
    assert (Hs : forall env, isem b env f = checked k).
    { intros env. rewrite (bin_sem_consts b f il ir_ o) by done. by destruct Ho as [-> |[-> | ->]]. }
    srule.
    - intros env _. rewrite Hs. unfold checked. by apply negb_true_iff in E as ->.
    - apply sound_kint; try done; [apply swrap_range; lia|]. intros env _. rewrite Hs.
      unfold checked. apply negb_false_iff in E. rewrite E. apply Z.eqb_eq in E. by rewrite E. }
  srule; [|done].
  assert (Hc : forall env, exists x, rval b env (op1 f) = Some x /\ srange 32 x /\
    isem b env f = int_sem o x (ins_i ir_)).
  { intros env. by apply bin_sem_const. }
  srule.
  { apply sound_ref; try done. intros env _. destruct (Hc env) as (x & Hx & Hxr & ->). rewrite Hx.
    rewrite <- (checked_srange x) by done. assert (ins_i ir_ = 0) as -> by lia.
    assert (o <> IROp.MULOV) as Hm by (intros ->; done).
    destruct Ho as [-> |[-> | ->]]; cbn [int_sem]; try done; f_equal; lia. }
  destruct (decide (o = IROp.MULOV)) as [->|Hm];
    [rewrite bool_decide_eq_true_2 by done|by rewrite bool_decide_eq_false_2].
  srule.
  { apply sound_ref; try done. intros env _. destruct (Hc env) as (x & Hx & Hxr & ->).
    rewrite (rval_kint b env _ ir_) by (done || apply Hwf). cbn [int_sem].
    rewrite <- (checked_srange (ins_i ir_)) by apply srange_ins_i. f_equal. lia. }
  srule.
  { apply sound_ref; try done. intros env _. destruct (Hc env) as (x & Hx & Hxr & ->). rewrite Hx.
    cbn [int_sem]. rewrite <- (checked_srange x) by done. f_equal. lia. }
  srule; [|done]. apply sound_retry with IROp.ADDOV; try done.
  - apply (int_valid_set b f Hwf IROp.ADDOV); try done; [apply set_op_op|apply (iv_type _ _ _ Hiv)].
  - intros env _. destruct (Hc env) as (x & Hx & Hxr & ->).
    rewrite (isem_bin_at b env _ IROp.ADDOV x x); try done; [|apply set_op_op].
    cbn [int_sem]. f_equal. lia.
Qed.

Lemma fold_bit_sound o : int_valid b f o ->
  match o with
  | IROp.BAND | IROp.BOR | IROp.BXOR | IROp.BSHL | IROp.BSHR | IROp.BSAR | IROp.BROL | IROp.BROR => True
  | _ => False
  end -> zlen (kk b) + cpot o f < 0x7fff -> sound b o f (fold_bit b f (Some il) (Some ir_) o).
Proof.
  intros Hiv Ho Hroom. assert (Hu : unary o = false) by (by destruct o).
  pose proof (iv_ref1 _ _ _ Hiv) as H1. unfold fold_bit.
  srule; [eapply sound_kfold_int; try done; by destruct o|].
  destruct o; try done; srule; try (apply Z.eqb_eq in E0).
  - apply sound_ref; try done. intros env _.
    destruct (same_operand _ env Hiv Hu E0) as (x & Hx & _ & ->). rewrite Hx.
    cbn [int_sem kfold_intop]. by rewrite Z.land_diag.
  - eapply sound_swap; try done. intros x y. cbn [int_sem kfold_intop]. by rewrite Z.land_comm.
  - apply sound_ref; try done. intros env _.
    destruct (same_operand _ env Hiv Hu E0) as (x & Hx & _ & ->). rewrite Hx.
    cbn [int_sem kfold_intop]. by rewrite Z.lor_diag.
  - eapply sound_swap; try done. intros x y. cbn [int_sem kfold_intop]. by rewrite Z.lor_comm.
  - apply sound_kint; try done. intros env _.
    destruct (same_operand _ env Hiv Hu E0) as (x & Hx & _ & ->).
    cbn [int_sem kfold_intop]. by rewrite Z.lxor_nilpotent.
  - eapply sound_swap; try done. intros x y. cbn [int_sem kfold_intop]. by rewrite Z.lxor_comm.
Qed.

Lemma fold_eq_sound o : o = IROp.EQ \/ o = IROp.NE -> int_valid b f o ->
  sound b o f (fold_eq b f (Some il) (Some ir_) o).
Proof.
  intros Ho Hiv. assert (Hu : unary o = false) by (by destruct Ho as [-> | ->]).
  assert (Hvo : int_value_op o = false) by (by destruct Ho as [-> | ->]).
  pose proof (iv_ref1 _ _ _ Hiv) as H1. unfold fold_eq. rewrite (l_not_const b f il o) by done.
  rewrite (int_not_const b _ il IROp.KGC Hwf Hl) by done. cbn [andb]. rewrite orb_false_r.
  assert (Hg : forall c, guard (Bool.eqb c (bool_decide (o = IROp.EQ))) =
    guard (if decide (o = IROp.EQ) then c else negb c)).
  { intros c. destruct (decide (o = IROp.EQ)); [rewrite bool_decide_eq_true_2 by done|
      rewrite bool_decide_eq_false_2 by done]; by destruct c. }
  srule.
  { apply sound_cond; [done|]. intros env _. rewrite (bin_sem_consts b f il ir_ o) by done.
    rewrite Hg. rewrite (kint_refs b _ _ il ir_) by (done || apply Hwf).
    destruct Ho as [-> | ->]; cbn [int_sem]; [by rewrite decide_True|by rewrite decide_False]. }
  srule.
  { apply sound_cond; [done|]. intros env _.
    match goal with H : (op1 f =? op2 f) = true |- _ => apply Z.eqb_eq in H as E' end.
    destruct (same_operand o env Hiv Hu E') as (x & Hx & _ & ->).
    destruct Ho as [-> | ->]; cbn [int_sem]; by rewrite Z.eqb_refl. }
  eapply sound_swap_comp; try done. by destruct Ho as [-> | ->].
Qed.

Lemma fold_comp_sound o : int_valid b f o ->
  match o with
  | IROp.LT | IROp.GE | IROp.LE | IROp.GT | IROp.ULT | IROp.UGE | IROp.ULE | IROp.UGT => True
  | _ => False
  end -> sound b o f (fold_comp b f (Some il) (Some ir_) o).
Proof.
  intros Hiv Ho. assert (Hu : unary o = false) by (by destruct o).
  assert (Hvo : int_value_op o = false) by (by destruct o).
  unfold fold_comp. rewrite (l_not_const b f il o) by done.
  rewrite (bin_isnum b f o Hiv). cbn [andb negb opnd_i fmap option_fmap option_map].
  srule.
  { apply sound_cond; [done|]. intros env _. rewrite (bin_sem_consts b f il ir_ o) by done. by destruct o. }
  srule.
  { split; [done|]. intros env _.
    match goal with H : bool_decide (o = _) = true |- _ => apply bool_decide_eq_true in H as -> end.
    destruct (bin_sem_const b f ir_ IROp.UGE Hwf Hiv eq_refl Hr env) as (x & Hx & _ & ->); [done|].
    match goal with H : bool_decide _ = true |- _ => apply bool_decide_eq_true in H; injection H as -> end.
    cbn [int_sem int_cmp]. pose proof (uwrap_range 32 x ltac:(lia)) as Hx0. unfold urange in Hx0.
    change (uwrap 32 0) with 0. destruct (Z.leb_spec 0 (uwrap 32 x)); [by eexists|lia]. }
  srule.
  { match goal with H : (op1 f =? op2 f) = true |- _ => apply Z.eqb_eq in H as E' end.
    apply sound_cond; [done|]. intros env _.
    destruct (same_operand o env Hiv Hu E') as (x & Hx & _ & ->).
    by apply cmp_refl; destruct o. }
  eapply sound_swap_comp; try done. by destruct o.
Qed.
End OtherSound.

Section UnarySound.
Context (b : IrBuf) (f il : IRIns).
Context (Hwf : fold_wf b) (Hty : typed b) (Hl : ir b (op1 f) = Some il).

(** An involution of an involution is its operand. *)
Lemma sound_involution o : int_valid b f o -> involution o = true -> ins_op il = Some o ->
  (forall a z z', srange 32 a -> int_sem o a 0 = Some z -> int_sem o z 0 = Some z' -> z' = a) ->
  sound b o f (if phi_of (Some il) then done_ b f Cse
               else let? a := opnd_op1 (Some il) in done_ b f (Ref a)).
Proof.
  intros Hiv Hinv Hop Hs. srule; [exact I|]. cbn [opnd_op1 fmap option_fmap option_map].
  pose proof (iv_ref1 _ _ _ Hiv) as H1.
  destruct (inv_sem b _ _ _ Hwf Hty Hl H1 Hop Hinv) as (Ha & Hsem).
  apply sound_ref; [by destruct o|done|]. intros env Hm.
  destruct (Hsem env Hm) as (a & Hav & Har & Hlv). rewrite Hav.
  destruct (isem_unary b o f Hiv env) as (x & Hx & Hxr & ->); [by destruct o|].
  rewrite Hx in Hlv. symmetry in Hlv.
  assert (exists z, int_sem o x 0 = Some z) as [z Hz].
  { destruct o; try done; cbn [int_sem kfold_intop]; eauto. }
  rewrite Hz. f_equal. by eapply Hs.
Qed.

Lemma isem_un_const o env : int_valid b f o -> unary o = true -> ins_op il = Some IROp.KINT ->
  isem b env f = int_sem o (ins_i il) 0.
Proof.
  intros Hiv Hu Hop. apply isem_un_at; try done; [apply Hiv|]. apply rval_kint; try done. apply Hwf.
Qed.

Lemma unary_not_knum o : int_valid b f o -> is_op (Some il) IROp.KNUM = false.
Proof. intros Hiv. eapply int_not_const; try done. apply (iv_ref1 _ _ _ Hiv). Qed.

Lemma fold_neg_sound : int_valid b f IROp.NEG -> zlen (kk b) + cpot IROp.NEG f < 0x7fff ->
  sound b IROp.NEG f (fold_neg b f (Some il)).
Proof.
  intros Hiv Hroom. unfold fold_neg. rewrite (unary_not_knum IROp.NEG) by done.
  srule.
  { apply sound_kint; try done; [apply swrap_range; lia|]. intros env _. by rewrite (isem_un_const IROp.NEG). }
  srule; [|exact I]. apply sound_involution; try done.
  intros a z z' Ha. cbn [int_sem]. rewrite !neg_intop. intros [= <-] [= <-].
  destruct (swrap_off (- a)) as [k ->]. rewrite (swrap_eq (- k) _ a) by lia. by apply swrap_small.
Qed.

Lemma fold_bnot_sound : int_valid b f IROp.BNOT -> zlen (kk b) + cpot IROp.BNOT f < 0x7fff ->
  sound b IROp.BNOT f (fold_bnot b f (Some il)).
Proof.
  intros Hiv Hroom. unfold fold_bnot. srule.
  { apply sound_kint; try done; [apply srange_lnot, srange_ins_i|]. intros env _. by rewrite (isem_un_const IROp.BNOT). }
  srule; [|exact I]. apply sound_involution; try done.
  intros a z z' Ha. cbn [int_sem]. intros [= <-] [= <-]. apply Z.lnot_involutive.
Qed.

Lemma fold_bswap_sound : int_valid b f IROp.BSWAP -> zlen (kk b) + cpot IROp.BSWAP f < 0x7fff ->
  sound b IROp.BSWAP f (fold_bswap b f (Some il)).
Proof.
  intros Hiv Hroom. unfold fold_bswap. srule.
  { apply sound_kint; try done; [apply swrap_range; lia|]. intros env _. by rewrite (isem_un_const IROp.BSWAP). }
  srule; [|exact I]. apply sound_involution; try done.
  intros a z z' Ha. cbn [int_sem]. intros [= <-] [= <-]. by apply bswap32_involutive.
Qed.
End UnarySound.

(** ** One pass *)

Lemma fold_step_sound `{Libm} em b f o : fold_wf b -> typed b -> int_valid b f o ->
  zlen (kk b) + cpot o f < 0x7fff -> sound b o f (fold_step em b f).
Proof.
  intros Hwf Hty Hiv Hroom. pose proof (iv_valid _ _ _ Hiv) as Hv. unfold fold_step.
  rewrite (valid_op _ _ _ Hv), (bin_isnum b f o Hiv). cbn [andb].
  pose proof (int_refb_valid _ _ (iv_ref1 _ _ _ Hiv)) as H1.
  destruct (ir_valid b (op1 f) H1) as [il Hl]. rewrite Hl.
  rewrite (proj2 (Z.leb_le _ _)) by lia. cbv beta iota.
  pose proof (iv_op _ _ _ Hiv) as Hio.
  assert (Hr : exists r, (if nk b <=? op2 f then let? i := ir b (op2 f) in Some (Some i) else Some None) =
    Some r /\ (unary o = false -> exists ir_, r = Some ir_ /\ ir b (op2 f) = Some ir_)).
  { destruct (iv_ref2 _ _ _ Hiv) as [Hu|H2%int_refb_valid].
    - destruct (Z.leb_spec (nk b) (op2 f)).
      + destruct (ir_valid b (op2 f)) as [i Hi]; [pose proof (valid_op2 _ _ _ Hv); lia|]. rewrite Hi.
        exists (Some i). split; [done|congruence].
      + exists None. split; [done|congruence].
    - destruct (ir_valid b (op2 f) H2) as [i Hi]. rewrite Hi, (proj2 (Z.leb_le _ _)) by lia. eauto. }
  destruct Hr as (r & -> & Hr). cbv beta iota.
  destruct (unary o) eqn:Hu.
  { destruct o; try done; [by apply fold_bnot_sound|by apply fold_bswap_sound|by apply fold_neg_sound]. }
  destruct (Hr eq_refl) as (ir_ & -> & Hir).
  destruct o; try done;
    first [by apply fold_add_sound|by apply fold_sub_sound|by apply fold_mul_sound|by apply fold_mod_sound
          |apply fold_minmax_sound; auto; done|apply fold_ov_sound; auto; done
          |by apply fold_bit_sound|apply fold_eq_sound; auto; done|by apply fold_comp_sound].
Qed.

(** ** Emission *)

Lemma rval_agree b env env' r n : (forall r, r < n -> env' r = env r) -> r < n ->
  rval b env' r = rval b env r.
Proof. intros He Hr. unfold rval. by rewrite He. Qed.

Lemma isem_same b env f g : ins_op f = ins_op g -> op1 f = op1 g -> op2 f = op2 g ->
  isem b env f = isem b env g.
Proof. intros E E1 E2. unfold isem. by rewrite E, E1, E2. Qed.

Section Emit.
Context (b b' : IrBuf) (f : IRIns) (o : IROp.t) (c : Z).
Context (Hty : typed b) (Hiv : int_valid b f o).
Context (Hins : ins b' = ins b ++ [set_prev c f]) (Hkk : kk b' = kk b).

Lemma emitted_ir r : nk b <= r < nins b -> ir b' r = ir b r.
Proof.
  intros [(j & -> & Hj)|(j & -> & Hj)]%ref_cases; rewrite ?ir_kref, ?ir_iref; [by rewrite Hkk|].
  by rewrite Hins, lookup_app_l.
Qed.

Lemma emitted_int_refb r : nk b <= r < nins b -> int_refb b' r = int_refb b r.
Proof. intros Hr. unfold int_refb. by rewrite emitted_ir. Qed.

Lemma emitted_isem env g o' : ins_op g = Some o' -> nk b <= op1 g < nins b ->
  (unary o' = false -> nk b <= op2 g < nins b) -> isem b' env g = isem b env g.
Proof.
  intros Ho H1 H2. unfold isem. rewrite Ho. unfold rval at 1. rewrite emitted_ir by done.
  fold (rval b env (op1 g)). destruct (unary o'); [done|]. unfold rval at 2. rewrite emitted_ir by auto. done.
Qed.

Lemma iv_operands : nk b <= op1 f < nins b /\ (unary o = false -> nk b <= op2 f < nins b).
Proof.
  split; [by apply int_refb_valid, (iv_ref1 _ _ _ Hiv)|]. intros Hu.
  destruct (iv_ref2 _ _ _ Hiv); [congruence|by apply int_refb_valid].
Qed.

Lemma emitted_nk : nk b' = nk b.
Proof. unfold nk. by rewrite Hkk. Qed.

Lemma emitted_typed : typed b'.
Proof.
  destruct iv_operands as [O1 O2]. split.
  - intros j i o' Hi Ho Hio. rewrite emitted_nk. rewrite Hins in Hi.
    apply lookup_snoc_inv in Hi as [(Hj & Hi)|(-> & ->)].
    + destruct (ty_ins _ Hty j i o' Hi Ho Hio) as (H1 & H2 & E). pose proof (iref_lt_nins _ _ _ Hi).
      split; [done|]. split; [done|]. rewrite E, emitted_int_refb by lia.
      destruct (unary o') eqn:Hu; [done|]. specialize (H2 eq_refl). by rewrite emitted_int_refb by lia.
    + rewrite set_prev_op, (valid_op _ _ _ (iv_valid _ _ _ Hiv)) in Ho. injection Ho as <-.
      change (iref (length (ins b))) with (nins b). ops. split; [done|]. split; [done|].
      change (ins_t (set_prev c f)) with (ins_t f). rewrite (iv_type _ _ _ Hiv), emitted_int_refb by done.
      rewrite (iv_ref1 _ _ _ Hiv). cbn [andb]. destruct (unary o) eqn:Hu; [done|].
      rewrite emitted_int_refb by auto. destruct (iv_ref2 _ _ _ Hiv) as [|H2]; [congruence|]. by rewrite H2.
  - intros j i Hi. rewrite Hkk in Hi. by apply (ty_kint _ Hty j).
Qed.

Lemma emitted_models env : models b' env <->
  models b env /\ exists v, isem b env f = Some v /\
    (int_value_op o = true -> v = swrap 32 (env (nins b))).
Proof.
  destruct iv_operands as [O1 O2].
  assert (Hold : forall j i o', ins b !! j = Some i -> ins_op i = Some o' -> int_op o' = true ->
    isem b' env i = isem b env i).
  { intros j i o' Hi Ho Hio. destruct (ty_ins _ Hty j i o' Hi Ho Hio) as (H1 & H2 & _).
    pose proof (iref_lt_nins _ _ _ Hi). eapply emitted_isem; [done|lia|].
    intros Hu. specialize (H2 Hu). lia. }
  assert (Hnew : isem b' env (set_prev c f) = isem b env f).
  { rewrite (isem_same _ _ (set_prev c f) f) by done.
    eapply emitted_isem; [apply (valid_op _ _ _ (iv_valid _ _ _ Hiv))|done|done]. }
  split.
  - intros Hm. split.
    + intros j i o' Hi Ho Hio Hit. rewrite <- (Hold j i o') by done. eapply Hm; try done.
      rewrite Hins. by apply lookup_app_l_Some.
    + rewrite <- Hnew. eapply (Hm (length (ins b)) (set_prev c f) o).
      * rewrite Hins. by rewrite list_lookup_middle.
      * apply (valid_op _ _ _ (iv_valid _ _ _ Hiv)).
      * apply (iv_op _ _ _ Hiv).
      * apply (iv_type _ _ _ Hiv).
  - intros [Hm (v & Hv & Hval)] j i o' Hi Ho Hio Hit. rewrite Hins in Hi.
    apply lookup_snoc_inv in Hi as [(Hj & Hi)|(-> & ->)].
    + rewrite (Hold j i o') by done. by eapply Hm.
    + rewrite Hnew. exists v. split; [done|]. intros Hvo. apply Hval.
      rewrite set_prev_op, (valid_op _ _ _ (iv_valid _ _ _ Hiv)) in Ho. by injection Ho as <-.
Qed.
End Emit.

(** An environment that agrees below the buffer's end models it as well. *)
Lemma models_agree b env env' : typed b -> (forall r, r < nins b -> env' r = env r) ->
  models b env -> models b env'.
Proof.
  intros Hty He Hm j i o Hi Ho Hio Hit. destruct (Hm j i o Hi Ho Hio Hit) as (v & Hv & Hval).
  destruct (ty_ins _ Hty j i o Hi Ho Hio) as (H1 & H2 & _). pose proof (iref_lt_nins _ _ _ Hi).
  exists v. split; [|by rewrite He]. rewrite <- Hv. unfold isem. rewrite Ho.
  rewrite (rval_agree b env env' (op1 i) (nins b)) by (done || lia).
  destruct (unary o) eqn:Hu; [done|]. specialize (H2 eq_refl).
  by rewrite (rval_agree b env env' (op2 i) (nins b)) by (done || lia).
Qed.

(** ** The loop *)

(** What [opt_fold] answers for the integer instruction [f] over [b]. *)
Definition res_sound (b : IrBuf) (o : IROp.t) (f : IRIns) (res : option (Result (IrBuf * Z))) : Prop :=
  match res with
  | Some (Err _) => forall env, models b env -> isem b env f = None
  | Some (Ok (b', tr)) =>
      typed b' /\ (int_value_op o = true -> int_refb b' (tref_ref tr) = true) /\
      (forall env, models b' env -> models b env /\
         exists v, isem b env f = Some v /\
           (int_value_op o = true -> rval b' env (tref_ref tr) = Some v)) /\
      (forall env v, models b env -> isem b env f = Some v ->
         exists env', models b' env' /\ forall r, r < nins b -> env' r = env r)
  | None => False
  end.

(** The result for an instruction of the same value over more constants. *)
Lemma res_sound_kext n b b' o o' f f' res : kext n b b' -> typed b ->
  int_value_op o' = int_value_op o -> (forall env, models b env -> isem b' env f' = isem b env f) ->
  res_sound b' o' f' res -> res_sound b o f res.
Proof.
  intros Hext Hty Hvo Hs. destruct res as [[[b2 tr]|e]|]; [|intros Hr env Hm|done]; cbn [res_sound].
  - intros (Hty' & Hint & Hm1 & Hm2). rewrite <- Hvo. split; [done|]. split; [done|]. split.
    + intros env Hm. destruct (Hm1 env Hm) as (Hmb & v & Hv & Hval).
      apply (kext_models n b b' env Hext Hty) in Hmb. split; [done|]. exists v.
      rewrite <- Hs by done. done.
    + intros env v Hm Hv. rewrite <- Hs in Hv by done.
      destruct (Hm2 env v) as (env' & Hm' & Ha); [by apply (kext_models n b b' env Hext Hty)|done|].
      exists env'. split; [done|]. intros r Hr. apply Ha. by rewrite (kext_nins _ _ _ Hext).
  - rewrite <- Hs by done. apply Hr. by apply (kext_models n b b' env Hext Hty).
Qed.

(** A result that is a reference of the buffer, extended by constants. *)
Lemma res_sound_ref n b b' o f tr : kext n b b' -> typed b -> typed b' ->
  int_refb b' (tref_ref tr) = true ->
  (forall env, models b env -> isem b env f = rval b' env (tref_ref tr)) ->
  res_sound b o f (Some (Ok (b', tr))).
Proof.
  intros Hext Hty Hty' Hint Hs. split; [done|]. split; [done|]. split.
  - intros env Hm. apply (kext_models n b b' env Hext Hty) in Hm. split; [done|].
    destruct (rval_int b' env _ Hint) as (v & Hv & _). exists v. rewrite Hs by done. done.
  - intros env v Hm Hv. exists env. split; [by apply (kext_models n b b' env Hext Hty)|done].
Qed.

Lemma cse_sound b o f : fold_wf b -> typed b -> int_valid b f o -> zlen (ins b) < 0x7fff ->
  res_sound b o f (let? ' (b, tr) := opt_cse b f in Some (Ok (b, tr))).
Proof.
  intros Hwf Hty Hiv Hroom. pose proof (iv_valid _ _ _ Hiv) as Hv.
  destruct (valid_cst _ _ _ Hv) as [Hch Hcst]. destruct (valid_u16 _ _ _ (fw_ir _ Hwf) Hv) as [H1 H2].
  destruct (opt_cse_spec b f o (fw_ir _ Hwf) Hroom (valid_op _ _ _ Hv) Hch H1 H2)
    as [(j & i & E & Hi & Hop & E1 & E2 & _)|[E _]]; rewrite E.
  - assert (Hir : ir b (iref j) = Some i) by (by rewrite ir_iref).
    pose proof (iv_op _ _ _ Hiv) as Hio.
    destruct (ty_ins _ Hty j i o Hi Hop Hio) as (_ & _ & Hit).
    rewrite E1, E2, (iv_ref1 _ _ _ Hiv) in Hit.
    assert (unary o || int_refb b (op2 f) = true) as Hu.
    { apply orb_true_iff. apply (iv_ref2 _ _ _ Hiv). }
    rewrite Hu in Hit. cbn [andb] in Hit.
    assert (Hs : forall env, isem b env f = isem b env i).
    { intros env. apply isem_same; [|done|done]. by rewrite Hop, (valid_op _ _ _ Hv). }
    assert (Hk : irref_isk (iref j) = false) by (apply Z.ltb_ge; unfold iref; lia).
    pose proof (tref_ins b (iref j) i (fw_ir _ Hwf) Hir) as Etr.
    split; [done|]. rewrite Etr. split; [intros _; unfold int_refb; by rewrite Hir, Hit, Hk|]. split.
    + intros env Hm. split; [done|]. destruct (Hm j i o Hi Hop Hio Hit) as (v & Hval & Hvv).
      exists v. rewrite Hs. split; [done|]. intros Hvo. unfold rval. rewrite Hk. f_equal. symmetry. auto.
    + intros env v Hm _. by exists env.
  - destruct (emit_total b f o Hwf Hv Hroom) as (b' & tr & E').
    destruct (emit_fold_wf b f o b' tr Hwf Hv Hroom E') as (Hwf' & _ & Htr & Hn' & Hkk & c & Hins).
    rewrite E'. cbn [res_sound]. rewrite Htr.
    assert (Hk : irref_isk (nins b) = false).
    { apply Z.ltb_ge. pose proof (nk_nins b). lia. }
    assert (Hir : ir b' (nins b) = Some (set_prev c f)).
    { change (nins b) with (iref (length (ins b))). rewrite ir_iref, Hins. by rewrite list_lookup_middle. }
    split; [by apply (emitted_typed b b' f o c)|].
    split; [intros _; unfold int_refb; rewrite Hir, Hk;
            change (ins_t (set_prev c f)) with (ins_t f); by rewrite (iv_type _ _ _ Hiv)|]. split.
    + intros env Hm. apply (emitted_models b b' f o c Hty Hiv Hins Hkk) in Hm as [Hm (v & Hval & Hvv)].
      split; [done|]. exists v. split; [done|]. intros Hvo. unfold rval. rewrite Hk. f_equal. symmetry. auto.
    + intros env v Hm Hval. exists (fun r => if r =? nins b then v else env r).
      assert (Ha : forall r, r < nins b -> (if r =? nins b then v else env r) = env r).
      { intros r Hr. by rewrite (proj2 (Z.eqb_neq _ _)) by lia. }
      split; [|done]. apply (emitted_models b b' f o c Hty Hiv Hins Hkk).
      split; [by eapply (models_agree b env)|]. exists v.
      destruct (iv_operands b f o Hiv) as [O1 O2]. split.
      * rewrite <- Hval. unfold isem. rewrite (valid_op _ _ _ Hv).
        rewrite (rval_agree b env _ (op1 f) (nins b) Ha) by lia.
        destruct (unary o) eqn:Hu; [done|]. specialize (O2 eq_refl).
        by rewrite (rval_agree b env _ (op2 f) (nins b) Ha) by lia.
      * intros Hvo. rewrite Z.eqb_refl. symmetry. apply swrap_small; [lia|].
        destruct (unary o) eqn:Hu.
        -- destruct (isem_unary b o f Hiv env Hu) as (x & _ & Hxr & Es). rewrite Es in Hval.
           eapply int_sem_range; [done|exact Hxr| |exact Hval]. unfold srange. lia.
        -- destruct (isem_binary b o f Hiv env Hu) as (x & y & _ & _ & Hxr & Hyr & Es). rewrite Es in Hval.
           eapply int_sem_range; [done|exact Hxr|exact Hyr|exact Hval].
Qed.

Section Loop.
Context `{Libm}.

Lemma opt_fold_sound fuel b f o : fold_wf b -> typed b -> int_valid b f o ->
  zlen (ins b) < 0x7fff -> zlen (kk b) + cpot o f < 0x7fff -> measure b o f < Z.of_nat fuel ->
  res_sound b o f (opt_fold fuel b f).
Proof.
  revert b f o. induction fuel as [|fuel IH]; intros b f o Hwf Hty Hiv Hins Hroom Hm.
  all: pose proof (iv_valid _ _ _ Hiv) as Hv.
  { pose proof (measure_nonneg b o f). pose proof (valid_op1 _ _ _ Hv). pose proof (valid_op2 _ _ _ Hv).
    lia. }
  cbn [opt_fold]. rewrite (valid_op _ _ _ Hv). destruct (valid_cst _ _ _ Hv) as [Hch Hcst].
  pose proof (valid_foldable _ _ _ Hv) as Hf. unfold foldable in Hf.
  apply andb_true_iff in Hf as [_ Hkind%bool_decide_eq_true].
  destruct (ir_mode o) as [m|]; [|done]. cbn in Hkind. injection Hkind as Hkind.
  cbv beta iota zeta. rewrite Hkind. cbn [Z.eqb IRM_N negb].
  assert (existsb (fun k => bool_decide (o = k)) [IROp.KGC; IROp.KINT64; IROp.KNUM] = false) as ->.
  { by destruct o. }
  set (em := fun b ot x y => opt_fold fuel b (ins_new ot x y)).
  assert (Hpow : o <> IROp.POW) by (intros ->; by pose proof (iv_op _ _ _ Hiv)).
  assert (Hstep : step_ok b o f (fold_step em b f)) by (apply fold_step_ok; done).
  pose proof (fold_step_sound em b f o Hwf Hty Hiv Hroom) as Hsound.
  destruct Hstep as [Es|(b' & f' & s & Es & Hwf' & Hs)]; rewrite Es in *; [exact Hsound|].
  destruct s as [|r|tr| |]; cbn [sound] in Hsound.
  - destruct Hs as (n & o' & Hn & Hext & Hv' & Ha & Hm' & Hc).
    destruct Hsound as (o2 & n2 & Hext2 & Hty' & Hiv' & Hvo & Hsem).
    assert (o2 = o') as ->.
    { pose proof (valid_op _ _ _ Hv'). pose proof (valid_op _ _ _ (iv_valid _ _ _ Hiv')). congruence. }
    pose proof (kext_ins _ _ _ Hext) as Hins'. pose proof (kext_len _ _ _ Hext).
    assert (measure b' o' f' = measure b o' f') as Hmb by (unfold measure, wbound; by rewrite Hins').
    eapply res_sound_kext; [exact Hext|done..|]. apply IH; try done; [by rewrite Hins'|lia|lia].
  - destruct Hs as [-> Hr]. destruct Hsound as (Hvo & Hint & Hsem).
    destruct (ir_valid b r Hr) as [i Hi]. rewrite Hi.
    apply (res_sound_ref 0 b b o f); [by apply kext_refl|done|done|..];
      by rewrite (tref_ins b r i (fw_ir _ Hwf) Hi).
  - destruct Hsound as (n & Hext & Hty' & Hvo & Hint & Hsem). by eapply res_sound_ref.
  - subst b'. destruct Hsound as (Hvo & Hsem). split; [done|]. split; [congruence|]. split.
    + intros env Hme. split; [done|]. destruct (Hsem env Hme) as [v Hval]. exists v. split; [done|congruence].
    + intros env v Hme _. by exists env.
  - destruct Hs as [-> ->]. by apply cse_sound.
Qed.

(** C8. FOLD preserves integer execution.  For an integer arithmetic, bit or
    comparison instruction over integer operands, on a well-formed and typed
    buffer with room for one instruction and four constants, [opt_fold]
    returns; and for every assignment of values that the instructions of the
    resulting buffer produce, the reference it returned holds exactly the
    value of the instruction it was given, a dropped guard holds, and an
    emitted, replaced or mirrored guard holds exactly when the original does;
    it reports GFAIL only when the original's guard fails under every
    assignment.  Conversely no execution is lost: wherever the original
    instruction succeeds, the new buffer has an execution that agrees with it
    on all earlier references. *)
Theorem fold_preserves_integers (b : IrBuf) (f : IRIns) (o : IROp.t)
    (Hwf : fold_wf b) (Hty : typed b) (Hiv : int_valid b f o)
    (Hins : nins b < REF_DROP) (Hk : nk b > 4) :
  res_sound b o f (opt_fold (fold_fuel b) b f).
Proof.
  pose proof (cpot_range o f). pose proof (iv_valid _ _ _ Hiv) as Hv.
  unfold nins, nk, REF_BIAS, REF_DROP in *.
  apply opt_fold_sound; try done; try lia.
  pose proof (valid_op1 _ _ _ Hv). pose proof (valid_op2 _ _ _ Hv). apply fold_fuel_enough; lia.
Qed.
End Loop.

(** ** A multiplication by eight *)

Definition demo_kbuf : IrBuf := default demo_buf (fst <$> kint demo_buf 8).
Definition demo_mul : IRIns := ins_new (irti IROp.MUL) 0x8001 0x7ffc.

Lemma demo_kbuf_interned : interned demo_buf demo_kbuf IROp.KINT (kint_ins 8) 0x7ffc 8.
Proof.
  assert (Hk : srange 32 8) by (unfold srange; lia).
  destruct (kint_interned demo_buf 8 demo_buf_wf ltac:(vm_compute; reflexivity) Hk) as (b' & r & E & Hi).
  assert (E' : kint demo_buf 8 = Some (demo_kbuf, tref 0x7ffc IRT_INT)) by (vm_compute; reflexivity).
  rewrite E' in E. injection E as -> Er.
  assert (r = 0x7ffc) as ->; [|done].
  pose proof Hi as (Hwf & _ & Hd & _). destruct (denotes_tref _ _ _ _ IRT_INT Hwf int_type_u8 Hd) as [Et _].
  rewrite <- Er in Et. rewrite <- Et. vm_compute. reflexivity.
Qed.

Lemma demo_kbuf_wf : fold_wf demo_kbuf.
Proof.
  apply (interned_fold_wf demo_buf demo_kbuf IROp.KINT (kint_ins 8) 0x7ffc 8);
    [apply demo_fold_wf|done|apply ins_op_kint_ins|apply demo_kbuf_interned].
Qed.

Lemma demo_kbuf_typed : typed demo_kbuf.
Proof.
  split.
  - intros [|[|[|[|j]]]] i o Hi Ho Hio; vm_compute in Hi; try discriminate Hi; injection Hi as <-;
      vm_compute in Ho; injection Ho as <-; try discriminate Hio.
    split; [vm_compute; split; congruence|]. split; [intros _; vm_compute; split; congruence|].
    vm_compute. reflexivity.
  - intros [|[|[|[|j]]]] i Hi Ho; vm_compute in Hi; try discriminate Hi; injection Hi as <-;
      vm_compute in Ho; try discriminate Ho. vm_compute. reflexivity.
Qed.

Lemma demo_mul_valid : int_valid demo_kbuf demo_mul IROp.MUL.
Proof.
  apply int_valid_bin; try (vm_compute; reflexivity). apply (fw_ir _ demo_kbuf_wf).
Qed.

#[local] Existing Instance demo_libm.

(** The multiplication becomes a shift by three. *)
Lemma fold_preserves_integers_witness :
  res_sound demo_kbuf IROp.MUL demo_mul (opt_fold (fold_fuel demo_kbuf) demo_kbuf demo_mul) /\
  (let? res := opt_fold (fold_fuel demo_kbuf) demo_kbuf demo_mul in
   match res with
   | Ok (b', tr) =>
       let? i := ir b' (tref_ref tr) in
       let? k := ir b' (op2 i) in
       Some (ins_op i, op1 i, ins_i k)
   | Err _ => None
   end) = Some (Some IROp.BSHL, 0x8001, 3).
Proof.
  split; [|vm_compute; reflexivity].
  exact (fold_preserves_integers demo_kbuf demo_mul IROp.MUL demo_kbuf_wf demo_kbuf_typed demo_mul_valid
    eq_refl eq_refl).
Defined.
