(* ===== verification/Exec.v ===== *)
(** * jit/exec.rs: the value arms of the trace interpreter; stdlib/bit.rs

    [exec_ins] is the part of [run_ir]'s match that computes a value from its
    operands' bits or decides a guard: bit operations, arithmetic,
    comparisons and conversions.  The arms that touch the Lua heap or stack
    (loads, stores, allocations, calls) are not here.  The interpreter's
    [bit.*] functions on number arguments are the reference of the bit ops. *)

From Stdlib Require Import ZArith Lia Bool SpecFloat.
From stdpp Require Import base decidable numbers option list.
From S2P Require Import Prelude Float64 Value Ir IrSpec IrInv OptMem Fold IrEmit FoldTerm IntSem.

(** ** Casts and rounding *)

(** [n as u32]: truncation, saturating at the bounds, 0 for NaN. *)
Definition f64_to_u32 (b : f64) : Z :=
  match SF_trunc (SF_of_bits b) with
  | Some z => Z.max 0 (Z.min z (2 ^ 32 - 1))
  | None => match SF_of_bits b with S754_infinity false => 2 ^ 32 - 1 | _ => 0 end
  end.

Definition f64_ceil (x : f64) : f64 := bits_of_SF (SFopp (SF_floor (SFopp (SF_of_bits x)))).
Definition f64_trunc (x : f64) : f64 := if f64_sign x then f64_ceil x else f64_floor x.
Definition f64_sqrt (x : f64) : f64 := bits_of_SF (SFsqrt 53 1024 (SF_of_bits x)).

Example f64_ceil_2_5 : f64_ceil 0x4004000000000000 = f64_of_int 3. Proof. vm_compute. reflexivity. Qed.
Example f64_trunc_m2_5 : f64_trunc 0xc004000000000000 = f64_of_int (-2). Proof. vm_compute. reflexivity. Qed.
Example f64_sqrt_9 : f64_sqrt (f64_of_int 9) = f64_of_int 3. Proof. vm_compute. reflexivity. Qed.

(** ** stdlib/bit.rs, the 32-bit mode *)

(** The bias is 2^52 + 2^51. *)
Definition num2bit (n : f64) : Z := swrap 32 (uwrap 32 (f64_add n 0x4338000000000000)).

Example num2bit_m1 : num2bit (f64_of_int (-1)) = -1. Proof. vm_compute. reflexivity. Qed.
Example num2bit_wraps : num2bit (f64_of_int (2 ^ 32 + 7)) = 7. Proof. vm_compute. reflexivity. Qed.

Definition ret (v : Z) : f64 := f64_of_int v.

Definition tobit (a : f64) : f64 := ret (num2bit a).

(** The folds of band, bor and bxor over at least one argument. *)
Definition bit_fold (op : Z -> Z -> Z) (args : list f64) : option f64 :=
  match args with
  | [] => None
  | a :: args => Some (ret (fold_left (fun acc x => op acc (num2bit x)) args (num2bit a)))
  end.

Definition band : list f64 -> option f64 := bit_fold Z.land.
Definition bor : list f64 -> option f64 := bit_fold Z.lor.
Definition bxor : list f64 -> option f64 := bit_fold Z.lxor.
Definition bnot (a : f64) : f64 := ret (Z.lnot (num2bit a)).
Definition bswap (a : f64) : f64 := ret (bswap32 (num2bit a)).

Definition bit_shift (op : Z -> Z -> Z) (a n : f64) : f64 :=
  ret (op (num2bit a) (Z.land (uwrap 32 (num2bit n)) 31)).

Definition lshift : f64 -> f64 -> f64 := bit_shift (fun x n => swrap 32 (Z.shiftl x n)).
Definition rshift : f64 -> f64 -> f64 := bit_shift (fun x n => swrap 32 (Z.shiftr (uwrap 32 x) n)).
Definition arshift : f64 -> f64 -> f64 := bit_shift Z.shiftr.
Definition rol : f64 -> f64 -> f64 := bit_shift (fun x n => swrap 32 (rotl 32 (uwrap 32 x) n)).
Definition ror : f64 -> f64 -> f64 :=
  bit_shift (fun x n => swrap 32 (rotl 32 (uwrap 32 x) (Z.land (32 - n) 31))).

(** ** The arms *)

(** What an arm does: store a value, only pass its guard, or leave the trace. *)
Inductive ExecOut : Set := Stored (v : f64) | Passed | Exit.

Definition guard_out (c : bool) : ExecOut := if c then Passed else Exit.

Definition exec_bit (o : IROp.t) (a b : f64) : option f64 :=
  let x := f64_to_i32 a in
  let y := f64_to_i32 b in
  let sh := Z.land (f64_to_u32 b) 31 in
  match o with
  | IROp.BNOT => Some (f64_of_int (Z.lnot x))
  | IROp.BAND => Some (f64_of_int (Z.land x y))
  | IROp.BOR => Some (f64_of_int (Z.lor x y))
  | IROp.BXOR => Some (f64_of_int (Z.lxor x y))
  | IROp.BSHL => Some (f64_of_int (swrap 32 (Z.shiftl x sh)))
  | IROp.BSHR => Some (f64_of_int (Z.shiftr (uwrap 32 x) sh))
  | IROp.BROL => Some (f64_of_int (swrap 32 (rotl 32 (uwrap 32 x) sh)))
  | IROp.BROR => Some (f64_of_int (swrap 32 (rotl 32 (uwrap 32 x) (Z.land (32 - sh) 31))))
  | IROp.BSAR => Some (f64_of_int (Z.shiftr x sh))
  | _ => None
  end.

Definition IRFPM_FLOOR : Z := 0.
Definition IRFPM_CEIL : Z := 1.
Definition IRFPM_TRUNC : Z := 2.
Definition IRFPM_SQRT : Z := 3.

Definition exec_fpmath (lit : Z) (x : f64) : option f64 :=
  if lit =? IRFPM_FLOOR then Some (f64_floor x)
  else if lit =? IRFPM_CEIL then Some (f64_ceil x)
  else if lit =? IRFPM_TRUNC then Some (f64_trunc x)
  else if lit =? IRFPM_SQRT then Some (f64_sqrt x)
  else None.

Section Exec.
Context `{Libm}.

Definition exec_arith (t : Z) (o : IROp.t) (a b : f64) : option f64 :=
  if irt_isint t then
    let? z := kfold_intop (f64_to_i32 a) (f64_to_i32 b) o in Some (f64_of_int z)
  else fold_numarith a b o.

Definition exec_comp (t : Z) (o : IROp.t) (a b : f64) : option bool :=
  if irt_isnum t then fold_numcmp a b o
  else if irt_isint t then Some (int_cmp o (f64_to_i32 a) (f64_to_i32 b))
  else None.

Definition exec_eq (t : Z) (o : IROp.t) (a b : f64) : bool :=
  let e := if irt_isnum t then f64_eq a b else a =? b in
  if bool_decide (o = IROp.EQ) then e else negb e.

(** [op2] is the target type. *)
Definition exec_conv (i : IRIns) (a : f64) : ExecOut :=
  let tgt := uwrap 8 (op2 i) in
  if irt_isnum tgt then Stored a
  else if irt_isint tgt && is_guard i then
    if num_isint a then Stored (f64_of_int (f64_to_i32 a)) else Exit
  else Stored (f64_of_int (f64_to_i32 a)).

(** The arm of [i] on its operands' bits; [None] is [unreachable!], or an arm
    that is not one of these. *)
Definition exec_ins (i : IRIns) (a b : f64) : option ExecOut :=
  let? o := ins_op i in
  match o with
  | IROp.TOBIT => Some (Stored (f64_of_int (num2bit a)))
  | IROp.BSWAP => Some (Stored (f64_of_int (bswap32 (f64_to_i32 a))))
  | IROp.BAND | IROp.BOR | IROp.BXOR | IROp.BSHL | IROp.BSHR | IROp.BSAR | IROp.BROL | IROp.BROR
  | IROp.BNOT => let? v := exec_bit o a b in Some (Stored v)
  | IROp.ADD | IROp.SUB | IROp.MUL | IROp.DIV | IROp.POW | IROp.MIN | IROp.MAX | IROp.MOD =>
      let? v := exec_arith (ins_t i) o a b in Some (Stored v)
  | IROp.NEG => Some (Stored (f64_neg a))
  | IROp.ABS => Some (Stored (f64_abs a))
  | IROp.FPMATH => let? v := exec_fpmath (op2 i) a in Some (Stored v)
  | IROp.LT | IROp.GE | IROp.LE | IROp.GT | IROp.ULT | IROp.UGE | IROp.ULE | IROp.UGT =>
      let? c := exec_comp (ins_t i) o a b in Some (guard_out c)
  | IROp.EQ | IROp.NE => Some (guard_out (exec_eq (ins_t i) o a b))
  | IROp.CONV => Some (exec_conv i a)
  | _ => None
  end.

End Exec.

(** The bits of a constant, and of any operand: [env] is what the arms stored. *)
Definition const_bits (b : IrBuf) (r : Z) : option Z :=
  let? i := ir b r in
  let? o := ins_op i in
  match o with
  | IROp.KNUM | IROp.KGC | IROp.KINT64 => k64_val b r
  | IROp.KPRI =>
      Some (if irt_type (ins_t i) =? IRT_NIL then NIL
            else if irt_type (ins_t i) =? IRT_FALSE then FALSE else TRUE)
  | IROp.KINT => Some (f64_of_int (ins_i i))
  | _ => None
  end.

Definition read_ref (b : IrBuf) (env : Z -> Z) (r : Z) : option Z :=
  if REF_BIAS <=? r then Some (env r) else const_bits b r.

(** ** Integers in the executor *)

Lemma SF_trunc_of_int k : Z.abs k < 2 ^ 53 -> SF_trunc (SF_of_bits (f64_of_int k)) = Some k.
Proof.
  intros Hk. destruct (decide (k = 0)) as [->|]; [done|].
  destruct (SF_of_f64_of_int k) as (m & E & Em); [lia|].
  set (d := Z.log2 (Z.abs k)) in *. rewrite E. cbn [SF_trunc].
  assert (0 <= d < 53).
  { split; [apply Z.log2_nonneg|]. apply Z.log2_lt_pow2; lia. }
  f_equal. destruct (Z.leb_spec 0 (d - 52)).
  - assert (d = 52) as E52 by lia. rewrite E52 in *. cbn in Em |- *. destruct (Z.ltb_spec k 0); lia.
  - rewrite Em. replace (- (d - 52)) with (52 - d) by lia.
    rewrite Z.div_mul by (apply Z.pow_nonzero; lia). destruct (Z.ltb_spec k 0); lia.
Qed.

Lemma f64_to_u32_of_int k : srange 32 k -> 0 <= k -> f64_to_u32 (f64_of_int k) = k.
Proof.
  unfold srange. intros Hk Hnn. unfold f64_to_u32. rewrite SF_trunc_of_int by lia. lia.
Qed.

(** The shift count of the source's two spellings. *)
Lemma shift_count_eq y : srange 32 y -> 0 <= y ->
  Z.land (f64_to_u32 (f64_of_int y)) 31 = Z.land (uwrap 32 y) 31.
Proof.
  intros Hy Hnn. rewrite f64_to_u32_of_int by done. unfold uwrap, srange in *.
  by rewrite Z.mod_small by lia.
Qed.

Lemma int_bits_eqb x y : srange 32 x -> srange 32 y -> (f64_of_int x =? f64_of_int y) = (x =? y).
Proof.
  intros Hx Hy. destruct (Z.eqb_spec x y) as [->|Hne]; [apply Z.eqb_refl|].
  apply Z.eqb_neq. intros E. apply Hne. rewrite <- (f64_to_i32_of_int x), <- (f64_to_i32_of_int y) by done.
  by rewrite E.
Qed.

(** Operations the executor computes on integers as the folder does. *)
Definition exec_int_op (o : IROp.t) : bool :=
  match o with
  | IROp.ADD | IROp.SUB | IROp.MUL | IROp.MIN | IROp.MAX | IROp.MOD | IROp.BNOT | IROp.BSWAP
  | IROp.BAND | IROp.BOR | IROp.BXOR | IROp.BSHL | IROp.BSHR | IROp.BSAR | IROp.BROL | IROp.BROR
  | IROp.EQ | IROp.NE | IROp.LT | IROp.GE | IROp.LE | IROp.GT
  | IROp.ULT | IROp.UGE | IROp.ULE | IROp.UGT => true
  | _ => false
  end.

Definition shift_op (o : IROp.t) : bool :=
  match o with
  | IROp.BSHL | IROp.BSHR | IROp.BSAR | IROp.BROL | IROp.BROR => true
  | _ => false
  end.

(** A logical right shift of a negative number by a multiple of 32 leaves the
    range of an i32, which only the folder wraps. *)
Definition bshr_fits (x y : Z) : Prop := 0 <= x \/ Z.land (uwrap 32 y) 31 <> 0.

Lemma bshr_small x y : srange 32 x -> bshr_fits x y ->
  swrap 32 (Z.shiftr (uwrap 32 x) (Z.land (uwrap 32 y) 31)) =
  Z.shiftr (uwrap 32 x) (Z.land (uwrap 32 y) 31).
Proof.
  intros Hx Hf. apply swrap_small; [lia|]. pose proof (uwrap_range 32 x ltac:(lia)) as Hu.
  assert (Hsh : 0 <= Z.land (uwrap 32 y) 31) by (apply Z.land_nonneg; lia).
  unfold srange, urange in *. rewrite Z.shiftr_div_pow2 by done.
  assert (0 < 2 ^ Z.land (uwrap 32 y) 31) by (apply Z.pow_pos_nonneg; lia).
  split; [assert (0 <= uwrap 32 x / 2 ^ Z.land (uwrap 32 y) 31) by (apply Z.div_pos; lia); lia|].
  destruct Hf as [Hnn|Hne].
  - assert (uwrap 32 x = x) as -> by (unfold uwrap; apply Z.mod_small; lia).
    apply Z.le_lt_trans with x; [apply Z.div_le_upper_bound; nia|lia].
  - apply Z.div_lt_upper_bound; [done|]. assert (2 <= 2 ^ Z.land (uwrap 32 y) 31); [|lia].
    change 2 with (2 ^ 1) at 1. apply Z.pow_le_mono_r; lia.
Qed.

Lemma exec_bit_int o x y : srange 32 x -> srange 32 y -> (shift_op o = true -> 0 <= y) ->
  (o = IROp.BSHR -> bshr_fits x y) ->
  match o with
  | IROp.BNOT | IROp.BAND | IROp.BOR | IROp.BXOR | IROp.BSHL | IROp.BSHR | IROp.BSAR | IROp.BROL | IROp.BROR =>
      exists v, int_sem o x y = Some v /\ exec_bit o (f64_of_int x) (f64_of_int y) = Some (f64_of_int v)
  | _ => True
  end.
Proof.
  intros Hx Hy Hs Hb. unfold exec_bit. rewrite !f64_to_i32_of_int by done.
  destruct o; try done; cbn [int_sem kfold_intop]; (eexists; split; [reflexivity|]);
    rewrite ?shift_count_eq by auto; try done.
  by rewrite bshr_small by auto.
Qed.

Section ExecSpec.
Context `{Libm}.


End ExecSpec.

#[local] Existing Instance demo_libm.


(** ** Against the interpreter's bit library *)

Lemma num2bit_range n : srange 32 (num2bit n).
Proof. apply swrap_range. lia. Qed.

(** The IR the recorder emits for a fold: one TOBIT per argument and a chain
    of the operation. *)
Definition exec_fold (o : IROp.t) (args : list f64) : option f64 :=
  match args with
  | [] => None
  | a :: args =>
      fold_left (fun acc x => let? acc := acc in exec_bit o acc (tobit x)) args (Some (tobit a))
  end.

Lemma exec_fold_ok o op args :
  (forall x y, srange 32 x -> srange 32 y ->
     srange 32 (op x y) /\ exec_bit o (f64_of_int x) (f64_of_int y) = Some (f64_of_int (op x y))) ->
  exec_fold o args = bit_fold op args.
Proof.
  intros Hop. destruct args as [|a args]; [done|]. unfold exec_fold, bit_fold, tobit, ret.
  pose proof (num2bit_range a) as Ha. set (x := num2bit a) in *. clearbody x. clear a.
  revert x Ha. induction args as [|a args IH]; intros x Hx; cbn [fold_left]; [done|].
  destruct (Hop x (num2bit a) Hx (num2bit_range a)) as [Hr ->]. by apply IH.
Qed.

Lemma exec_bit_op o x y : srange 32 x -> srange 32 y ->
  match o with
  | IROp.BAND => exec_bit o (f64_of_int x) (f64_of_int y) = Some (f64_of_int (Z.land x y))
  | IROp.BOR => exec_bit o (f64_of_int x) (f64_of_int y) = Some (f64_of_int (Z.lor x y))
  | IROp.BXOR => exec_bit o (f64_of_int x) (f64_of_int y) = Some (f64_of_int (Z.lxor x y))
  | _ => True
  end.
Proof. intros. unfold exec_bit. rewrite !f64_to_i32_of_int by done. by destruct o. Qed.

(** Recorded bit operations agree with the interpreter's library: the IR
    the recorder emits for [bit.band], [bit.bor] and [bit.bxor] over any
    number of arguments, for [bit.bnot] and [bit.bswap], executes to exactly
    the library's result, and so do the shifts and rotations, for shift counts
    that are not negative as 32-bit integers and, for [bit.rshift], results
    that are not negative. *)
Theorem exec_bit_matches_library (args : list f64) (a n : f64)
    (Hn : 0 <= num2bit n) (Hf : bshr_fits (num2bit a) (num2bit n)) :
  exec_fold IROp.BAND args = band args /\ exec_fold IROp.BOR args = bor args /\
  exec_fold IROp.BXOR args = bxor args /\
  exec_bit IROp.BNOT (tobit a) 0 = Some (bnot a) /\
  f64_of_int (bswap32 (f64_to_i32 (tobit a))) = bswap a /\
  exec_bit IROp.BSHL (tobit a) (tobit n) = Some (lshift a n) /\
  exec_bit IROp.BSHR (tobit a) (tobit n) = Some (rshift a n) /\
  exec_bit IROp.BSAR (tobit a) (tobit n) = Some (arshift a n) /\
  exec_bit IROp.BROL (tobit a) (tobit n) = Some (rol a n) /\
  exec_bit IROp.BROR (tobit a) (tobit n) = Some (ror a n).
Proof.
  pose proof (num2bit_range a) as Ha. pose proof (num2bit_range n) as Hnr.
  split; [apply exec_fold_ok; intros; split; [by apply srange_land|by apply (exec_bit_op IROp.BAND)]|].
  split; [apply exec_fold_ok; intros; split; [by apply srange_lor|by apply (exec_bit_op IROp.BOR)]|].
  split; [apply exec_fold_ok; intros; split; [by apply srange_lxor|by apply (exec_bit_op IROp.BXOR)]|].
  unfold bnot, bswap, lshift, rshift, arshift, rol, ror, bit_shift, tobit, ret.
  set (x := num2bit a) in *. set (y := num2bit n) in *. clearbody x y.
  unfold exec_bit. cbv zeta. rewrite !f64_to_i32_of_int, shift_count_eq by done.
  rewrite (bshr_small x y) by done. repeat split.
Qed.

Lemma exec_bit_matches_library_witness :
  exec_bit IROp.BSHL (tobit (f64_of_int 3)) (tobit (f64_of_int 4)) = Some (f64_of_int 48) /\
  exec_fold IROp.BXOR [f64_of_int 5; f64_of_int (-1); f64_of_int 6] = Some (f64_of_int (-4)).
Proof.
  assert (Hn : 0 <= num2bit (f64_of_int 4)) by (vm_compute; congruence).
  assert (Hf : bshr_fits (num2bit (f64_of_int 3)) (num2bit (f64_of_int 4))).
  { left. vm_compute. congruence. }
  pose proof (exec_bit_matches_library [f64_of_int 5; f64_of_int (-1); f64_of_int 6]
    (f64_of_int 3) (f64_of_int 4) Hn Hf) as (_ & _ & E1 & _ & _ & E2 & _).
  rewrite E1, E2. split; vm_compute; reflexivity.
Defined.

(** Outside those ranges the executor and the library differ: a negative shift
    count is taken as 0 by one and modulo 32 by the other, and a logical right
    shift by 0 of a negative number is unsigned in one and signed in the
    other. *)
Lemma exec_shift_diverges :
  exec_bit IROp.BSHL (tobit (f64_of_int 1)) (tobit (f64_of_int (-1))) = Some (f64_of_int 1) /\
  lshift (f64_of_int 1) (f64_of_int (-1)) = f64_of_int (-2147483648) /\
  exec_bit IROp.BSHR (tobit (f64_of_int (-1))) (tobit (f64_of_int 0)) = Some (f64_of_int 4294967295) /\
  rshift (f64_of_int (-1)) (f64_of_int 0) = f64_of_int (-1).
Proof. repeat split; vm_compute; reflexivity. Qed.

(** Integer negation is a sign flip of the double in the executor and
    two's complement in the folder. *)
Lemma exec_neg_diverges `{Libm} :
  exec_ins (ins_new (irti IROp.NEG) 0 0) (f64_of_int 0) 0 = Some (Stored 0x8000000000000000) /\
  int_sem IROp.NEG 0 0 = Some 0 /\
  exec_ins (ins_new (irti IROp.NEG) 0 0) (f64_of_int (-2147483648)) 0 = Some (Stored (f64_of_int 2147483648)) /\
  int_sem IROp.NEG (-2147483648) 0 = Some (-2147483648).
Proof. repeat split; vm_compute; reflexivity. Qed.
