(* ===== verification/Dce.v ===== *)
(** * jit/opt/opt_dce.rs: dead code elimination

    The two phases of [opt_dce] over the trace's IR and snapshot map, and
    their specification: the instructions reachable from the snapshots and
    from the side effects are kept verbatim, all others become NOPs, and the
    opcode chains are left with live instructions only. *)

From Stdlib Require Import ZArith Lia Bool.
From stdpp Require Import base decidable numbers option list.
From S2P Require Import Prelude Float64 Ir IrSpec IrInv OptMem Fold IrEmit.

(** ** The pass *)

(** The part of [GCtrace] the pass works on. *)
Record GCtrace := mkTrace { tr_ir : IrBuf; snapmap : list Z }.

Definition snap_ref (sn : Z) : Z := Z.land sn 0xffff.

Definition IRCALL_USET : Z := 10.

Definition is_uset (i : IRIns) : option bool :=
  let? o := ins_op i in Some (bool_decide (o = IROp.CALLL) && (op2 i =? IRCALL_USET)).

Definition is_bufop (i : IRIns) : option bool :=
  let? o := ins_op i in
  Some (match o with IROp.BUFHDR | IROp.BUFPUT | IROp.BUFSTR => true | _ => false end).

Fixpoint dce_marksnap (b : IrBuf) (map : list Z) : option IrBuf :=
  match map with
  | [] => Some b
  | sn :: map =>
      let r := snap_ref sn in
      if REF_FIRST <=? r then
        let? b := ir_mut b r set_mark in dce_marksnap b map
      else dce_marksnap b map
  end.

(** Marking the operand [r] of a live instruction. *)
Definition mark_operand (b : IrBuf) (r : Z) : option IrBuf :=
  if REF_FIRST <=? r then ir_mut b r set_mark else Some b.

(** [!ir.sideeff() && !is_uset(&ir) && !is_bufop(&ir)]. *)
Definition removable (i : IRIns) : option bool :=
  let? s := sideeff i in
  let? u := is_uset i in
  let? p := is_bufop i in
  Some (negb s && negb u && negb p).

(** The loop from [r] down, one unit of fuel per instruction; [pchain] holds
    per opcode the instruction whose [prev] links to the next lower one. *)
Fixpoint propagate_loop (fuel : nat) (b : IrBuf) (pchain : list Z) (r : Z) : option IrBuf :=
  match fuel with
  | O => None
  | S fuel =>
      if REF_FIRST <=? r then
        let? i := ir b r in
        let? o := ins_op i in
        let op := enum_code o in
        if is_marked i then
          let? b := ir_mut b r clear_mark in
          let? pchain := zset pchain op (uwrap 16 r) in
          let? b := mark_operand b (op1 i) in
          let? b := mark_operand b (op2 i) in
          propagate_loop fuel b pchain (r - 1)
        else
          let? dead := removable i in
          if (dead : bool) then
            let? p := znth pchain op in
            let? b :=
              if p =? 0 then let? c := zset (chain b) op (prev i) in Some (with_chain b c)
              else ir_mut b p (set_prev (prev i)) in
            let? b := ir_mut b r set_nop in
            propagate_loop fuel b pchain (r - 1)
          else
            let? b := mark_operand b (op1 i) in
            let? b := mark_operand b (op2 i) in
            propagate_loop fuel b pchain (r - 1)
      else Some b
  end.

Definition dce_propagate (b : IrBuf) : option IrBuf :=
  propagate_loop (S (length (ins b))) b (replicate (Z.to_nat IR_MAX) 0) (nins b - 1).

Definition opt_dce (t : GCtrace) : option GCtrace :=
  let? b := dce_marksnap (tr_ir t) (snapmap t) in
  let? b := dce_propagate b in
  Some (mkTrace b (snapmap t)).

(** ** Liveness *)

Definition keeps (i : IRIns) : bool :=
  match removable i with Some d => negb d | None => false end.

(** The references DCE must keep: the snapshots', the side effects, and the
    operands of both. *)
Inductive live (b : IrBuf) (map : list Z) : nat -> Prop :=
  | live_snap j sn : sn ∈ map -> snap_ref sn = iref j -> (0 < j)%nat -> live b map j
  | live_effect j i : ins b !! j = Some i -> (0 < j)%nat -> keeps i = true -> live b map j
  | live_op1 j j' i : live b map j' -> ins b !! j' = Some i -> op1 i = iref j -> (0 < j)%nat ->
      live b map j
  | live_op2 j j' i : live b map j' -> ins b !! j' = Some i -> op2 i = iref j -> (0 < j)%nat ->
      live b map j.

(** The pass's input: nothing marked, instruction operands precede their use,
    the snapshots refer to the buffer. *)
Record dce_ok (t : GCtrace) : Prop := {
  dce_wf : ir_wf (tr_ir t);
  dce_unmarked : forall j i, ins (tr_ir t) !! j = Some i -> is_marked i = false;
  dce_ot : forall j i, ins (tr_ir t) !! j = Some i -> urange 16 (ot i);
  dce_operands : forall j i, ins (tr_ir t) !! j = Some i -> (0 < j)%nat ->
    (op1 i < iref j \/ op1 i < REF_FIRST) /\ (op2 i < iref j \/ op2 i < REF_FIRST);
  dce_snaps : forall sn, sn ∈ snapmap t -> snap_ref sn < nins (tr_ir t);
}.

(** Equality up to the chain link. *)
Definition same_ins (i i' : IRIns) : Prop := op1 i' = op1 i /\ op2 i' = op2 i /\ ot i' = ot i.
