(* ===== verification/DceSpec.v ===== *)
(** * The dead-code pass: what it keeps

    [opt_dce] of Dce.v marks what the snapshots use, propagates the marks
    backwards and turns every unmarked instruction without side effect into
    a NOP. The instructions it leaves are exactly those the abstract
    liveness relation [live] names. *)

From Stdlib Require Import ZArith Lia Bool.
From stdpp Require Import base decidable numbers option list.
From S2P Require Import Prelude Float64 Ir IrSpec IrInv OptMem Fold IrEmit Dce.

(** ** Marks *)

Lemma set_mark_idemp i : set_mark (set_mark i) = set_mark i.
Proof. unfold set_mark, with_ot. cbn. f_equal. rewrite <- Z.lor_assoc. by rewrite Z.lor_diag. Qed.

(** The mark bit is clear in an unmarked instruction. *)
Lemma unmarked_bit i : is_marked i = false -> Z.land (ot i) IRT_MARK = 0.
Proof.
  unfold is_marked, ins_t, uwrap. intros H%negb_false_iff%Z.eqb_eq. rewrite <- H.
  change IRT_MARK with (Z.land (Z.ones 8) IRT_MARK).
  rewrite <- (Z.land_ones (ot i) 8) by lia.
  rewrite <- !Z.land_assoc, !(Z.land_assoc (Z.ones 8)), Z.land_diag. done.
Qed.

Lemma clear_set_mark i : urange 16 (ot i) -> is_marked i = false -> clear_mark (set_mark i) = i.
Proof.
  intros Hot H%unmarked_bit. destruct i as [a b o p]. unfold clear_mark, set_mark, with_ot. cbn in *.
  f_equal. change (unot 16 IRT_MARK) with (Z.ldiff (Z.ones 16) IRT_MARK).
  apply Z.bits_inj'. intros n Hn. apply (f_equal (fun z => Z.testbit z n)) in H.
  rewrite Z.land_spec, Z.testbit_0_l in H.
  rewrite Z.land_spec, Z.lor_spec, Z.ldiff_spec, tb_ones by lia.
  assert (n < 16 \/ (Z.testbit o n) = false) as [Hlt|Ho].
  { destruct (Z.ltb_spec n 16); [by left|right]. by apply (tb_high o 16). }
  - destruct (Z.leb_spec 0 n); [|lia]. destruct (Z.ltb_spec n 16); [|lia].
    destruct (Z.testbit o n), (Z.testbit IRT_MARK n); done.
  - rewrite Ho in *. destruct (Z.testbit IRT_MARK n); cbn; by rewrite ?andb_false_r.
Qed.

Lemma ir_mut_iref b j i f : ins b !! j = Some i ->
  ir_mut b (iref j) f = Some (with_ins b (<[j := f i]> (ins b))).
Proof.
  intros Hi. unfold ir_mut. rewrite ir_iref, Hi.
  assert ((REF_BIAS <=? iref j) = true) as -> by (apply Z.leb_le; unfold iref; lia).
  unfold zset. pose proof (lookup_lt_Some _ _ _ Hi).
  replace (iref j - REF_BIAS) with (Z.of_nat j) by (unfold iref; lia). rewrite Nat2Z.id.
  destruct (Z.leb_spec 0 (Z.of_nat j)); [|lia].
  destruct (Z.ltb_spec (Z.of_nat j) (zlen (ins b))); [done|unfold zlen in *; lia].
Qed.

Lemma iref_inj j j' : iref j = iref j' -> j = j'.
Proof. unfold iref. lia. Qed.

(** A reference at or above REF_FIRST is a position above BASE. *)
Lemma ref_first r : REF_FIRST <= r -> exists j, r = iref j /\ (0 < j)%nat.
Proof. unfold REF_FIRST, iref. intros. exists (Z.to_nat (r - REF_BIAS)). lia. Qed.

Section Spec.
Context (b0 : IrBuf) (map : list Z).
Context (Hok : dce_ok (mkTrace b0 map)).

Let Hwf : ir_wf b0 := dce_wf _ Hok.

(** The buffer when the positions [k] and up have been processed: those are
    kept or dead, the others as they were, and marked as [M] says. *)
Record st (M : nat -> Prop) (b : IrBuf) (k : nat) : Prop := {
  st_len : length (ins b) = length (ins b0);
  st_kk : kk b = kk b0;
  st_k64 : k64s b = k64s b0;
  st_zero : ins b !! 0%nat = ins b0 !! 0%nat;
  st_done : forall j i, (k <= j)%nat -> ins b0 !! j = Some i ->
    live b0 map j /\ (exists i', ins b !! j = Some i' /\ same_ins i i') \/
    ~ live b0 map j /\ ins b !! j = Some (set_nop i);
  st_todo : forall j i, (0 < j < k)%nat -> ins b0 !! j = Some i ->
    exists m : bool, ins b !! j = Some (if m then set_mark i else i) /\ (m = true <-> M j);
}.

Lemma st_iff M M' b k : (forall j, (0 < j)%nat -> M j <-> M' j) -> st M b k -> st M' b k.
Proof.
  intros HM [? ? ? ? ? Ht]. split; try done. intros j i Hj Hi. destruct (Ht j i Hj Hi) as (m & E & Hm).
  exists m. split; [done|]. rewrite Hm. apply HM. lia.
Qed.

(** Marking a position not yet processed. *)
Lemma mark_st M b k r : st M b k -> (r < iref k \/ r < REF_FIRST) -> (k <= length (ins b0))%nat ->
  exists l, mark_operand b r = Some (with_ins b l) /\
    st (fun j => M j \/ r = iref j) (with_ins b l) k /\
    (forall j i, ins b !! j = Some i -> exists i', l !! j = Some i' /\ prev i' = prev i).
Proof.
  intros Hst Hr Hk. unfold mark_operand. destruct (Z.leb_spec REF_FIRST r).
  - destruct (ref_first r) as (j & -> & Hj); [done|].
    assert (Hjk : (j < k)%nat) by (unfold iref, REF_FIRST in *; lia).
    destruct (lookup_lt_is_Some_2 (ins b0) j) as [i Hi]; [lia|].
    destruct (st_todo _ _ _ Hst j i) as (m & E & Hm); [lia|done|].
    rewrite (ir_mut_iref b j _ set_mark E). eexists. split; [done|].
    pose proof (lookup_lt_Some _ _ _ E) as Hlt.
    assert (set_mark (if m then set_mark i else i) = set_mark i) as ->.
    { destruct m; [apply set_mark_idemp|done]. }
    split; [split; cbn [ins with_ins kk k64s]|].
    + rewrite length_insert. apply Hst.
    + apply Hst.
    + apply Hst.
    + rewrite list_lookup_insert_ne by lia. apply Hst.
    + intros j' i' Hj' Hi'. rewrite list_lookup_insert_ne by lia. by apply (st_done _ _ _ Hst).
    + intros j' i' Hj' Hi'. destruct (decide (j' = j)) as [->|Hne].
      * exists true. rewrite list_lookup_insert_eq by done. assert (i' = i) as -> by congruence.
        split; [done|]. split; [by right|done].
      * rewrite list_lookup_insert_ne by done. destruct (st_todo _ _ _ Hst j' i') as (m' & E' & Hm');
          [done|done|]. exists m'. split; [done|]. rewrite Hm'. split; [by left|].
        intros [|E2%iref_inj]; [done|congruence].
    + intros j' i' Hj'. destruct (decide (j' = j)) as [->|Hne].
      * rewrite list_lookup_insert_eq by done. eexists. split; [done|].
        rewrite E in Hj'. injection Hj' as <-. by destruct m.
      * rewrite list_lookup_insert_ne by done. by exists i'.
  - exists (ins b). split; [by destruct b|]. split.
    + assert (with_ins b (ins b) = b) as -> by (by destruct b).
      eapply st_iff; [|done]. intros j Hj. split; [by left|].
      intros [| ->]; [done|]. unfold iref, REF_FIRST in *. lia.
    + intros j i' Hj'. by exists i'.
Qed.

(** ** Liveness by position *)

Lemma live_pos j : live b0 map j -> (0 < j)%nat.
Proof. by destruct 1. Qed.

(** Marked before the position [k] is reached. *)
Definition mk (k j : nat) : Prop :=
  (exists sn, sn ∈ map /\ snap_ref sn = iref j) \/
  exists j' i, (k <= j')%nat /\ live b0 map j' /\ ins b0 !! j' = Some i /\
    (op1 i = iref j \/ op2 i = iref j).

Lemma live_iff j i : (0 < j)%nat -> ins b0 !! j = Some i ->
  live b0 map j <-> keeps i = true \/ mk (S j) j.
Proof.
  intros Hj Hi. split.
  - destruct 1 as [j sn Hs E _|j i' Hi' _ Hk|j j' i' Hl Hi' E _|j j' i' Hl Hi' E _].
    + right. left. eauto.
    + left. congruence.
    + right. right. exists j', i'. pose proof (live_pos _ Hl).
      destruct (dce_operands _ Hok j' i' Hi') as [[?|?] _]; [done| |]; unfold iref, REF_FIRST in *;
        repeat split; auto; lia.
    + right. right. exists j', i'. pose proof (live_pos _ Hl).
      destruct (dce_operands _ Hok j' i' Hi') as [_ [?|?]]; [done| |]; unfold iref, REF_FIRST in *;
        repeat split; auto; lia.
  - intros [Hk|[(sn & Hs & E)|(j' & i' & Hj' & Hl & Hi' & [E|E])]].
    + by eapply live_effect.
    + by eapply live_snap.
    + by eapply live_op1.
    + by eapply live_op2.
Qed.

Lemma mk_live k j i : live b0 map k -> ins b0 !! k = Some i ->
  mk k j <-> (mk (S k) j \/ op1 i = iref j) \/ op2 i = iref j.
Proof.
  intros Hl Hi. split.
  - intros [Hs|(j' & i' & Hj' & Hl' & Hi' & E)]; [by left; left; left|].
    destruct (decide (j' = k)) as [->|Hne].
    + assert (i' = i) as -> by congruence. destruct E; auto.
    + left. left. right. exists j', i'. repeat split; auto. lia.
  - intros [[[Hs|(j' & i' & Hj' & H)]|E]|E]; [by left|right; exists j', i'; auto with lia|..];
      right; exists k, i; auto.
Qed.

Lemma mk_dead k j : ~ live b0 map k -> mk k j <-> mk (S k) j.
Proof.
  intros Hl. split; (intros [Hs|(j' & i' & Hj' & Hl' & H)]; [by left|right; exists j', i']).
  - destruct (decide (j' = k)) as [->|]; [done|]. auto with lia.
  - auto with lia.
Qed.

(** ** Chains as paths *)

Fixpoint seg (b : IrBuf) (x : Z) (l : list nat) (y : Z) : Prop :=
  match l with
  | [] => x = y
  | j :: l => x = iref j /\ exists i, ins b !! j = Some i /\ seg b (prev i) l y
  end.

Lemma seg_app b x l1 l2 y : seg b x (l1 ++ l2) y <-> exists z, seg b x l1 z /\ seg b z l2 y.
Proof.
  revert x. induction l1 as [|j l1 IH]; intros x; cbn [app seg].
  - split; [by exists x|]. by intros (z & -> & ?).
  - split.
    + intros (-> & i & Hi & (z & H1 & H2)%IH). exists z. eauto.
    + intros (z & (-> & i & Hi & H1) & H2). split; [done|]. exists i. split; [done|]. apply IH. eauto.
Qed.

Lemma seg_snoc b x l j y : seg b x (l ++ [j]) y <->
  seg b x l (iref j) /\ exists i, ins b !! j = Some i /\ prev i = y.
Proof.
  rewrite seg_app. cbn [seg]. split.
  - intros (z & H & -> & i & Hi & E). eauto.
  - intros (H & i & Hi & E). exists (iref j). eauto.
Qed.

(** A path survives changes that keep the links of its nodes. *)
Lemma seg_frame b b' x l y : (forall j i, j ∈ l -> ins b !! j = Some i ->
    exists i', ins b' !! j = Some i' /\ prev i' = prev i) ->
  seg b x l y -> seg b' x l y.
Proof.
  revert x. induction l as [|j l IH]; intros x Hf; [done|]. cbn [seg].
  intros (-> & i & Hi & H). split; [done|].
  destruct (Hf j i) as (i' & Hi' & E); [by left|done|]. exists i'. split; [done|]. rewrite E.
  apply IH; [|done]. intros j' i1 Hj'. apply Hf. by right.
Qed.

(** The instructions of opcode [o] at and above [k] that the pass keeps. *)
Definition kept (o : IROp.t) (k j : nat) : Prop :=
  (k <= j)%nat /\ live b0 map j /\ exists i, ins b0 !! j = Some i /\ ins_op i = Some o.

Lemma kept_mono o k k' j : (k' <= k)%nat -> kept o k j -> kept o k' j.
Proof. intros Hk (? & ? & ?). split; [lia|done]. Qed.

Definition plink (l : list nat) : Z := match last l with Some j => iref j | None => 0 end.

(** The chain of [o]: the marked instructions [l1], whose last one is the
    place a dead instruction is unlinked from, then unmarked ones [l2], then
    the instructions not processed yet. *)
Definition chain_inv (b : IrBuf) (pchain : list Z) (k : nat) (o : IROp.t) : Prop :=
  exists l1 l2 h, chain_at b o = Some h /\ znth pchain (enum_code o) = Some (plink l1) /\
    seg b h (l1 ++ l2) (latest iref o (ins b0) k) /\ Forall (kept o k) (l1 ++ l2) /\ NoDup (l1 ++ l2).

Record cinv (b : IrBuf) (pchain : list Z) (k : nat) : Prop := {
  ci_len : zlen pchain = IR_MAX;
  ci_clen : zlen (chain b) = IR_MAX;
  ci_p : forall o, exists p, znth pchain (enum_code o) = Some p /\
    (p = 0 \/ exists j, p = iref j /\ kept o k j);
  ci_chain : forall o, ins_chained o = true -> chain_inv b pchain k o;
}.

(** Changes that keep the links of the processed part keep the chains. *)
Lemma cinv_frame b b' pchain k : chain b' = chain b ->
  (forall j i, (k <= j)%nat -> live b0 map j -> ins b !! j = Some i ->
     exists i', ins b' !! j = Some i' /\ prev i' = prev i) ->
  cinv b pchain k -> cinv b' pchain k.
Proof.
  intros Hc Hf [? ? ? Hch]. split; rewrite ?Hc; try done.
  intros o Ho. destruct (Hch o Ho) as (l1 & l2 & h & H1 & H2 & H3 & H4 & H5). exists l1, l2, h.
  unfold chain_at in *. rewrite Hc. split; [done|]. split; [done|]. split; [|done].
  eapply seg_frame; [|done]. intros j i Hj. rewrite Forall_forall in H4.
  destruct (H4 _ Hj) as (? & ? & _). by apply Hf.
Qed.

Lemma latest_S o k i : ins b0 !! k = Some i ->
  latest iref o (ins b0) (S k) = if decide (ins_op i = Some o) then iref k else latest iref o (ins b0) k.
Proof. intros Hi. cbn [latest]. by rewrite Hi. Qed.

Lemma plink_snoc l j : plink (l ++ [j]) = iref j.
Proof. unfold plink. by rewrite last_snoc. Qed.

(** *** One instruction *)

Section Step.
Context (k : nat) (i : IRIns) (o : IROp.t).
Context (Hi : ins b0 !! k = Some i) (Hop : ins_op i = Some o).

Lemma ins_unchained_other b pchain o' : o' <> o -> chain_inv b pchain (S k) o' -> chain_inv b pchain k o'.
Proof.
  intros Hne (l1 & l2 & h & H1 & H2 & H3 & H4 & H5). exists l1, l2, h.
  rewrite (latest_S o' k i Hi) in H3. rewrite decide_False in H3 by congruence.
  repeat split; try done. eapply Forall_impl; [done|]. intros j. apply kept_mono. lia.
Qed.

(** The chain as it reaches the instruction. *)
Lemma chain_at_k b pchain : chain_inv b pchain (S k) o -> exists l1 l2 h,
  chain_at b o = Some h /\ znth pchain (enum_code o) = Some (plink l1) /\
  seg b h (l1 ++ l2) (iref k) /\ Forall (kept o (S k)) (l1 ++ l2) /\ NoDup (l1 ++ l2) /\
  k ∉ l1 ++ l2.
Proof.
  intros (l1 & l2 & h & H1 & H2 & H3 & H4 & H5). exists l1, l2, h.
  rewrite (latest_S o k i Hi) in H3. rewrite decide_True in H3 by done.
  repeat split; try done. intros Hk. rewrite Forall_forall in H4.
  destruct (H4 _ Hk) as (? & _). lia.
Qed.

Lemma prev_latest : ins_chained o = true -> prev i = latest iref o (ins b0) k.
Proof. intros Ho. by apply (wf_iprev _ Hwf). Qed.

Lemma ci_p_mono b pchain : cinv b pchain (S k) -> forall o', exists p,
  znth pchain (enum_code o') = Some p /\ (p = 0 \/ exists j, p = iref j /\ kept o' k j).
Proof.
  intros Hc o'. destruct (ci_p _ _ _ Hc o') as (p & Hp & Hor); exists p; (split; [done|]).
  destruct Hor as [->|(j & -> & Hj)].
  - by left.
  - right. exists j. split; [done|]. eapply kept_mono; [|done]. lia.
Qed.

Lemma cinv_unmarked b pchain : live b0 map k ->
  (exists i', ins b !! k = Some i' /\ prev i' = prev i) -> cinv b pchain (S k) -> cinv b pchain k.
Proof.
  intros Hl (i' & Hi' & Hp) Hc. split; try apply Hc; [by apply ci_p_mono with b|].
  intros o' Ho'. destruct (decide (o' = o)) as [->|Hne];
    [|by apply ins_unchained_other, (ci_chain _ _ _ Hc)].
  destruct (chain_at_k b pchain) as (l1 & l2 & h & H1 & H2 & H3 & H4 & H5 & H6);
    [by apply (ci_chain _ _ _ Hc)|].
  exists l1, (l2 ++ [k]), h. rewrite app_assoc. split; [done|]. split; [done|]. split; [|split].
  - apply seg_snoc. split; [done|]. exists i'. split; [done|]. rewrite Hp. by apply prev_latest.
  - apply Forall_app. split; [eapply Forall_impl; [done|]; intros j; apply kept_mono; lia|].
    constructor; [|done]. split; [lia|]. split; [done|]. by exists i.
  - apply NoDup_app. split; [done|]. split; [|apply NoDup_singleton].
    intros j Hj ->%list_elem_of_singleton. done.
Qed.

Lemma cinv_marked b pchain pchain' : live b0 map k -> zset pchain (enum_code o) (iref k) = Some pchain' ->
  (exists i', ins b !! k = Some i' /\ prev i' = prev i) -> cinv b pchain (S k) -> cinv b pchain' k.
Proof.
  intros Hl Hz (i' & Hi' & Hp) Hc.
  assert (Hat : forall o', znth pchain' (enum_code o') =
    if decide (o' = o) then Some (iref k) else znth pchain (enum_code o')).
  { intros o'. rewrite (znth_zset _ _ _ _ _ Hz). destruct (decide (o' = o)) as [->|Hne].
    - by rewrite decide_True.
    - rewrite decide_False; [done|]. by intros ?%enum_code_inj. }
  assert (Hkept : kept o k k) by (split; [lia|]; split; [done|by exists i]).
  split; [|apply Hc| |].
  - rewrite (zlen_zset _ _ _ _ Hz). apply Hc.
  - intros o'. rewrite Hat. destruct (decide (o' = o)) as [->|].
    + eexists. split; [done|]. right. by exists k.
    + by apply ci_p_mono with b.
  - intros o' Ho'. destruct (decide (o' = o)) as [->|Hne].
    + destruct (chain_at_k b pchain) as (l1 & l2 & h & H1 & H2 & H3 & H4 & H5 & H6);
        [by apply (ci_chain _ _ _ Hc)|].
      exists ((l1 ++ l2) ++ [k]), [], h. rewrite app_nil_r, plink_snoc, Hat, decide_True by done.
      split; [done|]. split; [done|]. split; [|split].
      * apply seg_snoc. split; [done|]. exists i'. split; [done|]. rewrite Hp. by apply prev_latest.
      * apply Forall_app. split; [eapply Forall_impl; [done|]; intros j; apply kept_mono; lia|].
        by constructor.
      * apply NoDup_app. split; [done|]. split; [|apply NoDup_singleton].
        intros j Hj ->%list_elem_of_singleton. done.
    + destruct (ins_unchained_other b pchain o' Hne) as (l1 & l2 & h & H);
        [by apply (ci_chain _ _ _ Hc)|]. exists l1, l2, h. by rewrite Hat, decide_False.
Qed.

(** A dead instruction with nothing marked above it: the chain head moves. *)
Lemma cinv_dead_head b pchain c : znth pchain (enum_code o) = Some 0 ->
  zset (chain b) (enum_code o) (prev i) = Some c -> cinv b pchain (S k) ->
  cinv (with_chain b c) pchain k.
Proof.
  intros Hp Hz Hc.
  assert (Hat : forall o', chain_at (with_chain b c) o' =
    if decide (o' = o) then Some (prev i) else chain_at b o').
  { intros o'. unfold chain_at. cbn [chain with_chain]. rewrite (znth_zset _ _ _ _ _ Hz).
    destruct (decide (o' = o)) as [->|Hne]; [by rewrite decide_True|].
    rewrite decide_False; [done|]. by intros ?%enum_code_inj. }
  split; [apply Hc| |by apply ci_p_mono with b|].
  - cbn [chain with_chain]. rewrite (zlen_zset _ _ _ _ Hz). apply Hc.
  - intros o' Ho'. destruct (decide (o' = o)) as [->|Hne].
    + exists [], [], (prev i). rewrite Hat, decide_True by done. split; [done|]. split; [done|].
      split; [by apply prev_latest|]. split; [constructor|constructor].
    + destruct (ins_unchained_other b pchain o' Hne) as (l1 & l2 & h & H1 & H);
        [by apply (ci_chain _ _ _ Hc)|]. exists l1, l2, h. rewrite Hat, decide_False by done.
      destruct H as (H2 & H3 & H). split; [done|]. split; [done|]. split; [|done].
      eapply seg_frame; [|done]. intros j i1 _ Hj. by exists i1.
Qed.

(** A dead instruction below a marked one: that one's link moves. *)
Lemma cinv_dead_link b pchain jp ip : znth pchain (enum_code o) = Some (iref jp) ->
  ins b !! jp = Some ip -> kept o (S k) jp -> cinv b pchain (S k) ->
  cinv (with_ins b (<[jp := set_prev (prev i) ip]> (ins b))) pchain k.
Proof.
  intros Hp Hjp Hkept Hc. pose proof (lookup_lt_Some _ _ _ Hjp) as Hlt.
  split; [apply Hc|apply Hc|by apply ci_p_mono with b|].
  intros o' Ho'. destruct (decide (o' = o)) as [->|Hne].
  - destruct (chain_at_k b pchain) as (l1 & l2 & h & H1 & H2 & H3 & H4 & H5 & H6);
      [by apply (ci_chain _ _ _ Hc)|].
    assert (plink l1 = iref jp) as Hpl by congruence. unfold plink in Hpl.
    destruct (last l1) as [j|] eqn:El; [|unfold iref, REF_BIAS in Hpl; lia].
    apply iref_inj in Hpl as ->. apply last_Some in El as [l1' ->].
    exists (l1' ++ [jp]), [], h. rewrite app_nil_r. rewrite <- (app_assoc l1') in H3, H4, H5.
    split; [done|]. split; [by rewrite plink_snoc|]. split; [|split].
    + apply seg_app in H3 as (z & H3 & Hz). cbn [app seg] in Hz. destruct Hz as (-> & _).
      apply seg_snoc. split.
      * eapply seg_frame; [|done]. intros j i1 Hj Hi1. cbn [ins with_ins].
        rewrite list_lookup_insert_ne; [by exists i1|]. intros <-.
        apply NoDup_app in H5 as (_ & H5 & _). apply (H5 jp Hj). by left.
      * eexists. cbn [ins with_ins]. rewrite list_lookup_insert_eq by done. split; [done|].
        by apply prev_latest.
    + rewrite app_assoc in H4. apply Forall_app in H4 as [H4 _].
      eapply Forall_impl; [done|]. intros j. apply kept_mono. lia.
    + rewrite app_assoc in H5. by apply NoDup_app in H5 as (H5 & _).
  - destruct (ins_unchained_other b pchain o' Hne) as (l1 & l2 & h & H1 & H2 & H3 & H4 & H5);
      [by apply (ci_chain _ _ _ Hc)|]. exists l1, l2, h. split; [done|]. split; [done|].
    split; [|done]. eapply seg_frame; [|done]. intros j i1 Hj Hi1. cbn [ins with_ins].
    destruct (decide (j = jp)) as [->|]; [|rewrite list_lookup_insert_ne by done; by exists i1].
    exfalso. rewrite Forall_forall in H4. destruct (H4 _ Hj) as (_ & _ & ia & Ha & Hoa).
    destruct Hkept as (_ & _ & ib & Hb & Hob). congruence.
Qed.
End Step.

(** *** The loop *)

Lemma removable_total i o : ins_op i = Some o -> exists d, removable i = Some d /\ keeps i = negb d.
Proof.
  intros Ho. assert (exists d, removable i = Some d) as [d Hd].
  { unfold removable, sideeff, is_uset, is_bufop. rewrite Ho.
    assert (is_Some (ir_mode o)) as [m ->] by (destruct o; by eexists). eauto. }
  exists d. split; [done|]. unfold keeps. by rewrite Hd.
Qed.

Lemma st_keep M b k i x : st M b (S k) -> ins b0 !! k = Some i -> live b0 map k ->
  ins b !! k = Some x -> st M (with_ins b (<[k := i]> (ins b))) k.
Proof.
  intros Hst Hi Hl Hx. pose proof (lookup_lt_Some _ _ _ Hx). pose proof (live_pos _ Hl).
  split; cbn [ins with_ins kk k64s]; try apply Hst.
  - rewrite length_insert. apply Hst.
  - rewrite list_lookup_insert_ne by lia. apply Hst.
  - intros j i' Hj Hi'. destruct (decide (j = k)) as [->|Hne].
    + left. split; [done|]. rewrite list_lookup_insert_eq by done. exists i. split; [done|].
      assert (i' = i) as -> by congruence. done.
    + rewrite list_lookup_insert_ne by done. apply (st_done _ _ _ Hst); [lia|done].
  - intros j i' Hj Hi'. rewrite list_lookup_insert_ne by lia. apply (st_todo _ _ _ Hst); [lia|done].
Qed.

Lemma st_kill M b k i x : st M b (S k) -> ins b0 !! k = Some i -> ~ live b0 map k ->
  (0 < k)%nat -> ins b !! k = Some x -> st M (with_ins b (<[k := set_nop x]> (ins b))) k.
Proof.
  intros Hst Hi Hl Hk Hx. pose proof (lookup_lt_Some _ _ _ Hx).
  split; cbn [ins with_ins kk k64s]; try apply Hst.
  - rewrite length_insert. apply Hst.
  - rewrite list_lookup_insert_ne by lia. apply Hst.
  - intros j i' Hj Hi'. destruct (decide (j = k)) as [->|Hne].
    + right. split; [done|]. by rewrite list_lookup_insert_eq.
    + rewrite list_lookup_insert_ne by done. apply (st_done _ _ _ Hst); [lia|done].
  - intros j i' Hj Hi'. rewrite list_lookup_insert_ne by lia. apply (st_todo _ _ _ Hst); [lia|done].
Qed.

(** Relinking a kept instruction. *)
Lemma st_link M b k jp ip p : st M b k -> (k <= jp)%nat -> live b0 map jp -> ins b !! jp = Some ip ->
  st M (with_ins b (<[jp := set_prev p ip]> (ins b))) k.
Proof.
  intros Hst Hk Hl Hjp. pose proof (lookup_lt_Some _ _ _ Hjp). pose proof (live_pos _ Hl).
  split; cbn [ins with_ins kk k64s]; try apply Hst.
  - rewrite length_insert. apply Hst.
  - rewrite list_lookup_insert_ne by lia. apply Hst.
  - intros j i' Hj Hi'. destruct (decide (j = jp)) as [->|Hne].
    + left. split; [done|]. rewrite list_lookup_insert_eq by done. eexists. split; [done|].
      destruct (st_done _ _ _ Hst jp i' Hj Hi') as [(_ & ip' & Hip' & Hs)|[]]; [|done].
      assert (ip' = ip) as -> by congruence. exact Hs.
    + rewrite list_lookup_insert_ne by done. by apply (st_done _ _ _ Hst).
  - intros j i' Hj Hi'. rewrite list_lookup_insert_ne by lia. by apply (st_todo _ _ _ Hst).
Qed.

(** Marking both operands of the live instruction at [k]. *)
Lemma mark_both b pchain k i : st (mk (S k)) b k -> cinv b pchain k -> live b0 map k ->
  ins b0 !! k = Some i -> exists b1 b2, mark_operand b (op1 i) = Some b1 /\
    mark_operand b1 (op2 i) = Some b2 /\ st (mk k) b2 k /\ cinv b2 pchain k.
Proof.
  intros Hst Hc Hl Hi. pose proof (lookup_lt_Some _ _ _ Hi). pose proof (live_pos _ Hl).
  destruct (dce_operands _ Hok k i Hi) as [O1 O2]; [done|].
  destruct (mark_st _ b k (op1 i) Hst O1) as (l1 & E1 & Hst1 & Hf1); [lia|].
  destruct (mark_st _ _ k (op2 i) Hst1 O2) as (l2 & E2 & Hst2 & Hf2); [lia|].
  exists (with_ins b l1), (with_ins (with_ins b l1) l2). split; [done|]. split; [done|]. split.
  - eapply st_iff; [|exact Hst2]. intros j Hj. by rewrite (mk_live k j i Hl Hi).
  - apply (cinv_frame (with_ins b l1)); [done| |apply (cinv_frame b); [done| |exact Hc]].
    + intros j i' _ _ Hj. by apply Hf2.
    + intros j i' _ _ Hj. by apply Hf1.
Qed.

Lemma propagate_ok k fuel b pchain : (0 < k <= length (ins b0))%nat -> (k <= fuel)%nat ->
  st (mk k) b k -> cinv b pchain k ->
  exists b' pchain', propagate_loop fuel b pchain (iref k - 1) = Some b' /\
    st (mk 1) b' 1 /\ cinv b' pchain' 1.
Proof.
  revert fuel b pchain. induction k as [|k IH]; intros fuel b pchain Hk Hf Hst Hc; [lia|].
  destruct fuel as [|fuel]; [lia|]. cbn [propagate_loop].
  replace (iref (S k) - 1) with (iref k) by (unfold iref; lia).
  destruct (Z.leb_spec REF_FIRST (iref k)) as [Hge|Hlt]; cycle 1.
  { assert (k = 0%nat) as -> by (unfold REF_FIRST, iref in *; lia). eauto. }
  assert (Hkpos : (0 < k)%nat) by (unfold REF_FIRST, iref in *; lia).
  destruct (lookup_lt_is_Some_2 (ins b0) k) as [i Hi]; [lia|].
  destruct (wf_ops _ Hwf _ _ Hi) as ((o & Hop & _) & _).
  destruct (st_todo _ _ _ Hst k i) as (m & Hx & Hm); [lia|done|].
  rewrite ir_iref, Hx. pose proof (lookup_lt_Some _ _ _ Hx) as Hlt.
  destruct (removable_total i o Hop) as (d & Hd & Hkeep).
  pose proof (live_iff k i Hkpos Hi) as Hlive. rewrite Hkeep in Hlive. destruct m.
  - (* marked *)
    assert (Hl : live b0 map k) by (apply Hlive; right; by apply Hm).
    rewrite set_mark_op, Hop. cbv beta iota zeta. rewrite marked_set_mark.
    rewrite (ir_mut_iref b k _ clear_mark Hx), clear_set_mark by (by eapply (dce_ot _ Hok) || by eapply (dce_unmarked _ Hok)).
    cbv beta iota. rewrite (iref_u16 b0) by (done || lia).
    destruct (ci_p _ _ _ Hc o) as (p & Hp & _). apply znth_Some_lt in Hp.
    destruct (zset_lt pchain (enum_code o) (iref k) Hp) as [pchain' Hz]. rewrite Hz. cbv beta iota.
    set (b1 := with_ins b (<[k:=i]> (ins b))).
    assert (Hst1 : st (mk (S k)) b1 k) by (by eapply st_keep).
    assert (Hc1 : cinv b1 pchain' k).
    { eapply cinv_marked; [done|exact Hop|done|exact Hz| |].
      - exists i. cbn [ins with_ins b1]. by rewrite list_lookup_insert_eq.
      - eapply cinv_frame; [| |exact Hc]; [done|]. intros j i' Hj _ Hij. exists i'.
        cbn [ins with_ins b1]. rewrite list_lookup_insert_ne by lia. done. }
    change (op1 (set_mark i)) with (op1 i). change (op2 (set_mark i)) with (op2 i).
    destruct (mark_both b1 pchain' k i Hst1 Hc1 Hl Hi) as (b2 & b3 & -> & E3 & Hst3 & Hc3).
    cbv beta iota. rewrite E3. apply IH; try done; lia.
  - rewrite Hop. cbv beta iota zeta. rewrite (dce_unmarked _ Hok k i Hi), Hd. destruct d.
    + (* dead *)
      assert (Hl : ~ live b0 map k).
      { rewrite Hlive. intros [|Hmk]; [done|]. apply Hm in Hmk. done. }
      destruct (ci_p _ _ _ Hc o) as (p & Hp & Hor). rewrite Hp. destruct Hor as [->|(jp & -> & Hkept)].
      * cbn [Z.eqb]. destruct (ci_p _ _ _ Hc o) as (p' & Hp' & _). apply znth_Some_lt in Hp'.
        rewrite (ci_len _ _ _ Hc), <- (ci_clen _ _ _ Hc) in Hp'.
        destruct (zset_lt (chain b) (enum_code o) (prev i) Hp') as [c Hz]. rewrite Hz.
        rewrite (ir_mut_iref (with_chain b c) k i set_nop Hx). cbv beta iota.
        assert (Hst1 : st (mk k) (with_ins (with_chain b c) (<[k:=set_nop i]> (ins b))) k).
        { eapply st_iff; [intros j _; symmetry; by apply mk_dead|].
          destruct (st_kill _ b k i i Hst Hi Hl Hkpos Hx). by split. }
        eapply IH; [lia|lia|exact Hst1|].
        eapply cinv_frame; [| |eapply cinv_dead_head; [exact Hi|exact Hop|exact Hp|exact Hz|exact Hc]]; [done|].
        intros j i' Hj Hlj Hij. exists i'. cbn [ins with_ins with_chain] in *.
        rewrite list_lookup_insert_ne; [done|]. by intros <-.
      * destruct Hkept as (Hjk & Hlp & ip0 & Hip0 & Hopp).
        destruct (st_done _ _ _ Hst jp ip0) as [(_ & ip & Hip & Hsame)|[]]; [done|done| |done].
        assert ((iref jp =? 0) = false) as -> by (apply Z.eqb_neq; unfold iref, REF_BIAS; lia).
        rewrite (ir_mut_iref b jp ip _ Hip). cbv beta iota.
        set (b1 := with_ins b (<[jp:=set_prev (prev i) ip]> (ins b))).
        assert (Hx1 : ins b1 !! k = Some i).
        { cbn [ins with_ins b1]. by rewrite list_lookup_insert_ne by lia. }
        rewrite (ir_mut_iref b1 k i set_nop Hx1). cbv beta iota.
        assert (Hst1 : st (mk (S k)) b1 (S k)) by (by eapply st_link).
        eapply IH; [lia|lia| |].
        -- eapply st_iff; [intros j _; symmetry; by apply mk_dead|]. by eapply (st_kill _ b1 k i i).
        -- eapply (cinv_frame b1); [done| |].
           ++ intros j i' Hj Hlj Hij. exists i'. cbn [ins with_ins].
              rewrite list_lookup_insert_ne; [done|]. by intros <-.
           ++ eapply cinv_dead_link; [exact Hi|exact Hop|exact Hp|exact Hip| |exact Hc].
              split; [lia|]. split; [done|by exists ip0].
    + (* a side effect *)
      assert (Hl : live b0 map k) by (apply Hlive; by left).
      assert (Hst1 : st (mk (S k)) b k).
      { pose proof (st_keep _ b k i i Hst Hi Hl Hx) as H. rewrite list_insert_id in H by done.
        by destruct b. }
      assert (Hc1 : cinv b pchain k) by (eapply cinv_unmarked; [done|exact Hop|done|by exists i|done]).
      destruct (mark_both b pchain k i Hst1 Hc1 Hl Hi) as (b2 & b3 & -> & E3 & Hst3 & Hc3).
      cbv beta iota. rewrite E3. apply IH; try done; lia.
Qed.

(** ** The snapshot phase *)

Lemma marksnap_ok l M b pchain : st M b (length (ins b0)) -> cinv b pchain (length (ins b0)) ->
  (forall sn, sn ∈ l -> snap_ref sn < nins b0) ->
  exists b', dce_marksnap b l = Some b' /\
    st (fun j => M j \/ exists sn, sn ∈ l /\ snap_ref sn = iref j) b' (length (ins b0)) /\
    cinv b' pchain (length (ins b0)).
Proof.
  revert M b. induction l as [|sn l IH]; intros M b Hst Hc Hl.
  - exists b. split; [done|]. split; [|done]. eapply st_iff; [|exact Hst]. intros j _. split; [by left|].
    intros [|(sn & Hsn%elem_of_nil & _)]; done.
  - assert (Hr : snap_ref sn < iref (length (ins b0)) \/ snap_ref sn < REF_FIRST).
    { left. apply Hl. by left. }
    destruct (mark_st M b _ _ Hst Hr ltac:(done)) as (l' & E & Hst' & Hf).
    assert (dce_marksnap b (sn :: l) = let? b := mark_operand b (snap_ref sn) in dce_marksnap b l) as ->.
    { cbn [dce_marksnap]. unfold mark_operand. by destruct (_ <=? _). }
    rewrite E. destruct (IH _ (with_ins b l') Hst') as (b' & E' & Hst2 & Hc2).
    + eapply cinv_frame; [| |exact Hc]; [done|]. intros j i _ _ Hj. by apply Hf.
    + intros sn' Hsn'. apply Hl. by right.
    + exists b'. split; [done|]. split; [|done]. eapply st_iff; [|exact Hst2]. intros j Hj. split.
      * intros [[|E2]|(sn' & Hsn' & E2)]; [by left|right; exists sn; split; [by left|done]|].
        right. exists sn'. split; [by right|done].
      * intros [|(sn' & [->|Hsn']%elem_of_cons & E2)]; [by left; left|by left; right|].
        right. by exists sn'.
Qed.

Lemma st_init : st (fun _ => False) b0 (length (ins b0)).
Proof.
  split; try done.
  - intros j i Hj Hi%lookup_lt_Some. lia.
  - intros j i _ Hi. by exists false.
Qed.

Lemma cinv_init : cinv b0 (replicate (Z.to_nat IR_MAX) 0) (length (ins b0)).
Proof.
  assert (Hz : forall o : IROp.t, znth (replicate (Z.to_nat IR_MAX) 0) (enum_code o) = Some 0).
  { intros o. apply znth_replicate. destruct o; vm_compute; split; congruence. }
  split.
  - done.
  - apply (wf_chain _ Hwf).
  - intros o. exists 0. auto.
  - intros o Ho. exists [], [], (latest iref o (ins b0) (length (ins b0))).
    split; [by apply (wf_ichain _ Hwf)|]. split; [apply Hz|]. split; [done|].
    split; constructor.
Qed.

Lemma dce_all : exists b', opt_dce (mkTrace b0 map) = Some (mkTrace b' map) /\
  st (mk 1) b' 1 /\ exists pchain, cinv b' pchain 1.
Proof.
  destruct (marksnap_ok map _ b0 _ st_init cinv_init (dce_snaps _ Hok)) as (b1 & E1 & Hst1 & Hc1).
  assert (Hst : st (mk (length (ins b0))) b1 (length (ins b0))).
  { eapply st_iff; [|exact Hst1]. intros j _. split.
    - intros [[]|H]. by left.
    - intros [H|(j' & i & Hj' & _ & Hi & _)]; [by right|]. apply lookup_lt_Some in Hi. lia. }
  destruct (wf_base _ Hwf) as (ib & Hb & _). apply lookup_lt_Some in Hb.
  destruct (propagate_ok (length (ins b0)) (S (length (ins b1))) b1
    (replicate (Z.to_nat IR_MAX) 0)) as (b' & pchain & E2 & Hst2 & Hc2);
    [lia|rewrite (st_len _ _ _ Hst1); lia|exact Hst|exact Hc1|].
  exists b'. split; [|split; [done|by exists pchain]].
  unfold opt_dce. cbn [tr_ir snapmap]. rewrite E1. cbv beta iota. unfold dce_propagate.
  replace (nins b1 - 1) with (iref (length (ins b0)) - 1).
  - by rewrite E2.
  - unfold nins, iref, zlen. by rewrite (st_len _ _ _ Hst1).
Qed.
End Spec.

(** C12. Dead code elimination: on a well-formed unmarked trace the pass returns
    without a panic; it keeps, operands, opcode and type unchanged, exactly
    the instructions the snapshots, the stores and guards, the upvalue writes
    and the buffer operations reach through operands, and turns every other
    one into a NOP; constants and snapshots stay; nothing is left marked; and
    each opcode's chain then visits only kept instructions of that opcode,
    none twice, and ends. *)
Theorem opt_dce_spec (t : GCtrace) (Hok : dce_ok t) :
  exists t', opt_dce t = Some t' /\ snapmap t' = snapmap t /\
    kk (tr_ir t') = kk (tr_ir t) /\ k64s (tr_ir t') = k64s (tr_ir t) /\
    nins (tr_ir t') = nins (tr_ir t) /\
    (forall j i, (0 < j)%nat -> ins (tr_ir t) !! j = Some i ->
       live (tr_ir t) (snapmap t) j /\
         (exists i', ins (tr_ir t') !! j = Some i' /\ same_ins i i') \/
       ~ live (tr_ir t) (snapmap t) j /\ ins (tr_ir t') !! j = Some (set_nop i)) /\
    (forall o, ins_chained o = true -> exists h l, chain_at (tr_ir t') o = Some h /\
       seg (tr_ir t') h l 0 /\ NoDup l /\
       Forall (fun j => live (tr_ir t) (snapmap t) j /\
         exists i, ins (tr_ir t) !! j = Some i /\ ins_op i = Some o) l).
Proof.
  destruct t as [b0 map]. destruct (dce_all b0 map Hok) as (b' & E & Hst & pchain & Hc).
  exists (mkTrace b' map). cbn [tr_ir snapmap]. split; [done|]. split; [done|].
  split; [apply Hst|]. split; [apply Hst|].
  split; [unfold nins, zlen; by rewrite (st_len _ _ _ _ _ Hst)|]. split.
  - intros j i Hj Hi. by apply (st_done _ _ _ _ _ Hst).
  - intros o Ho. destruct (ci_chain _ _ _ _ _ Hc o Ho) as (l1 & l2 & h & H1 & _ & H3 & H4 & H5).
    exists h, (l1 ++ l2). split; [done|]. split; [|split; [done|]].
    + destruct (wf_base _ (dce_wf _ Hok)) as (ib & Hb & Hbo). cbn [tr_ir] in Hb. cbn [latest] in H3.
      rewrite Hb, decide_False in H3; [done|]. rewrite Hbo. by intros [= <-].
    + eapply Forall_impl; [exact H4|]. by intros j (_ & Hl & Hi).
Qed.

(** The demonstration buffer of IrEmit with an instruction nothing uses. *)
Definition demo_trace : GCtrace :=
  mkTrace (default demo_buf (fst <$> emit_ins demo_buf (ins_new (irti IROp.SUB) 0x8001 0x8002)))
    [0x01008003; 0x02007fff].

Lemma demo_trace_ok : dce_ok demo_trace.
Proof.
  split.
  - apply (emit_ins_wf demo_buf (ins_new (irti IROp.SUB) 0x8001 0x8002) _ (tref 0x8004 IRT_INT) demo_buf_wf);
      emit_side.
  - intros [|[|[|[|[|j]]]]] i Hi; vm_compute in Hi; try discriminate Hi; injection Hi as <-; reflexivity.
  - intros [|[|[|[|[|j]]]]] i Hi; vm_compute in Hi; try discriminate Hi; injection Hi as <-;
      unfold urange; vm_compute; split; congruence.
  - intros [|[|[|[|[|j]]]]] i Hi Hj; vm_compute in Hi; try discriminate Hi; injection Hi as <-;
      [lia|..]; split; first [left; vm_compute; reflexivity|right; vm_compute; reflexivity].
  - intros sn Hsn. apply elem_of_cons in Hsn as [->|[->|H%elem_of_nil]%elem_of_cons];
      [vm_compute; reflexivity..|done].
Qed.

Lemma opt_dce_spec_witness :
  (exists t', opt_dce demo_trace = Some t' /\ nins (tr_ir t') = nins (tr_ir demo_trace)) /\
  (let? t' := opt_dce demo_trace in ins_op <$> ins (tr_ir t') !! 4%nat) = Some (Some IROp.NOP).
Proof.
  split; [|vm_compute; reflexivity].
  destruct (opt_dce_spec demo_trace demo_trace_ok) as (t' & E & _ & _ & _ & H & _). by exists t'.
Defined.
