(* ===== verification/Heap.v ===== *)
(** * runtime/gc.rs, runtime/*.rs: objects, headers and pools

    The memory of the collector: every object with its header, by address.
    An address that is not in the memory is a freed or never allocated block;
    reading it, or reading an object of another kind, is the undefined
    behaviour of a dangling pointer, and is partial here.  A slot pointer of
    an open upvalue is the owning thread and the slot's index. *)

From Stdlib Require Import ZArith Lia Bool.
From stdpp Require Import base decidable numbers option gmap list.
From S2P Require Import Prelude Float64 Value Table.

(** ** Headers *)

Module GcObjectKind.
Inductive t : Set := String | Table | Func | Upval | Thread | Proto | CData | UserData.

Definition all : list t := [String; Table; Func; Upval; Thread; Proto; CData; UserData].

Definition code (k : t) : Z :=
  match k with
  | String => 0 | Table => 1 | Func => 2 | Upval => 3 | Thread => 4 | Proto => 5 | CData => 6
  | UserData => 7
  end.

#[global] Instance enum : Enum t.
Proof. refine {| enum_all := all; enum_code := code |}. by intros []. Defined.
End GcObjectKind.

Definition kind_from_u8 (v : Z) : option GcObjectKind.t := enum_of_code v.

Inductive Age : Set := New | Survival | Old0 | Old1 | Old | Touched1 | Touched2.

Definition age_code (a : Age) : Z :=
  match a with
  | New => 0 | Survival => 1 | Old0 => 2 | Old1 => 3 | Old => 4 | Touched1 => 5 | Touched2 => 6
  end.

Definition age_is_old (a : Age) : bool :=
  match a with Old | Touched1 | Touched2 => true | _ => false end.

Record GcHeader := mkHeader { marked : bool; bits : Z; kind : Z; alloc_size : Z }.

#[global] Instance GcHeader_eq_dec : EqDecision GcHeader.
Proof. solve_decision. Defined.

Definition BIT_WHITE0 : Z := 8.
Definition BIT_WHITE1 : Z := 16.
Definition BIT_BLACK : Z := 32.
Definition BIT_FINALIZED : Z := 64.
Definition COLOR_MASK : Z := Z.lor (Z.lor BIT_WHITE0 BIT_WHITE1) BIT_BLACK.
Definition AGE_MASK : Z := 7.

Definition header_new (current_white : Z) (k : GcObjectKind.t) (size : Z) : GcHeader :=
  mkHeader false (if current_white =? 0 then BIT_WHITE0 else BIT_WHITE1) (enum_code k) size.

(** [wb], and [marked.set]. *)
Definition wb (h : GcHeader) (v : Z) : GcHeader := mkHeader (marked h) v (kind h) (alloc_size h).
Definition mark_set (h : GcHeader) (m : bool) : GcHeader := mkHeader m (bits h) (kind h) (alloc_size h).

Definition has_bit (h : GcHeader) (b : Z) : bool := negb (Z.land (bits h) b =? 0).
(** [b & !mask]. *)
Definition clear_bits (b mask : Z) : Z := Z.land b (unot 8 mask).

Definition is_black (h : GcHeader) : bool := has_bit h BIT_BLACK.
Definition change_white (h : GcHeader) : GcHeader :=
  if has_bit h BIT_WHITE0 then wb h (Z.lor (clear_bits (bits h) COLOR_MASK) BIT_WHITE1)
  else wb h (Z.lor (clear_bits (bits h) COLOR_MASK) BIT_WHITE0).
Definition nw2black (h : GcHeader) : GcHeader :=
  wb h (Z.lor (clear_bits (bits h) COLOR_MASK) BIT_BLACK).
Definition make_gray (h : GcHeader) : GcHeader := wb h (clear_bits (bits h) COLOR_MASK).
Definition hdr_is_dead (h : GcHeader) (current_white : Z) : bool :=
  if current_white =? 0 then has_bit h BIT_WHITE1 else has_bit h BIT_WHITE0.
Definition otherwhite (current_white : Z) : Z := if current_white =? 0 then BIT_WHITE1 else BIT_WHITE0.
Definition hdr_is_finalized (h : GcHeader) : bool := has_bit h BIT_FINALIZED.
Definition set_finalized (h : GcHeader) : GcHeader := wb h (Z.lor (bits h) BIT_FINALIZED).
Definition make_undead (h : GcHeader) : GcHeader := wb h (clear_bits (bits h) COLOR_MASK).
Definition make_dead_next (h : GcHeader) (current_white : Z) : GcHeader :=
  wb h (Z.lor (Z.lor (clear_bits (bits h) COLOR_MASK) BIT_FINALIZED)
          (if current_white =? 0 then BIT_WHITE0 else BIT_WHITE1)).

Definition age (h : GcHeader) : Age :=
  match Z.land (bits h) AGE_MASK with
  | 0 => New | 1 => Survival | 2 => Old0 | 3 => Old1 | 4 => Old | 5 => Touched1 | 6 => Touched2
  | _ => Old
  end.
Definition set_age (h : GcHeader) (a : Age) : GcHeader :=
  wb h (Z.lor (clear_bits (bits h) AGE_MASK) (age_code a)).
Definition is_old (h : GcHeader) : bool := age_is_old (age h).
Definition kind_tag (h : GcHeader) : GcObjectKind.t :=
  match kind_from_u8 (kind h) with Some k => k | None => GcObjectKind.Table end.

(** ** Objects *)

Definition INLINE_CAP : nat := 40.

Inductive Repr : Set := Inline (len : Z) (buf : list Z) | HeapBytes (b : list Z).

Record LuaString := mkString { sid : Z; hash : Z; repr : Repr }.

Definition string_new (bytes : list Z) (sid hash : Z) : LuaString :=
  mkString sid hash
    (if Nat.leb (length bytes) INLINE_CAP
     then Inline (Z.of_nat (length bytes)) (bytes ++ replicate (INLINE_CAP - length bytes) 0)
     else HeapBytes bytes).

Definition as_bytes (s : LuaString) : list Z :=
  match repr s with
  | Inline len buf => take (Z.to_nat len) buf
  | HeapBytes b => b
  end.

(** Where an upvalue's value lives: a stack slot, or its own [tv]. *)
Inductive ValPtr : Set := Dangling | OnStack (th : Z) (slot : nat) | InTv.

#[global] Instance ValPtr_eq_dec : EqDecision ValPtr.
Proof. solve_decision. Defined.

Record Upval := mkUpval { uv_v : ValPtr; uv_tv : LuaValue; immutable : bool }.

Inductive GcFunc : Set :=
  | FLua (proto env : Z) (upvals : list Z)
  | FC (env : Z) (upvals : list LuaValue).

(** The collectable constants of a prototype; the compiler's boxed children
    and C data hold nothing the collector follows. *)
Inductive KGc : Set :=
  | KStr (id : Z) | KProto | KProtoRef (p : Z) | KTable (t : LuaTable) | KTableRef (t : Z) | KCData.

Record Proto := mkProto { kgc : list KGc; source : option Z }.

Record CData := mkCData { ctypeid : Z; base : option Z }.

Record GcUserData := mkUserData { ud_metatable : option Z }.

(** The fields of a thread the collector reads; [call_cl] is the closure of
    [Suspend::Call]. *)
Record LuaState := mkState {
  stack : list LuaValue;
  frame_top : nat;
  top : nat;
  openuv : list Z;
  errval : LuaValue;
  hook : LuaValue;
  call_cl : option Z;
}.

Inductive GcObj : Set :=
  | OString (s : LuaString) | OTable (t : LuaTable) | OFunc (f : GcFunc) | OUpval (u : Upval)
  | OThread (l : LuaState) | OProto (p : Proto) | OCData (c : CData) | OUserData (u : GcUserData).

Definition obj_kind (o : GcObj) : GcObjectKind.t :=
  match o with
  | OString _ => GcObjectKind.String | OTable _ => GcObjectKind.Table | OFunc _ => GcObjectKind.Func
  | OUpval _ => GcObjectKind.Upval | OThread _ => GcObjectKind.Thread | OProto _ => GcObjectKind.Proto
  | OCData _ => GcObjectKind.CData | OUserData _ => GcObjectKind.UserData
  end.

(** ** Memory *)

Abbreviation Mem := (@gmap Z Z.eq_dec Z_countable (GcHeader * GcObj)).

(** [gc_header] of a [GcPtr] to an object of kind [k]. *)
Definition header_at (m : Mem) (k : GcObjectKind.t) (p : Z) : option GcHeader :=
  let? ' (h, o) := m !! p in if decide (obj_kind o = k) then Some h else None.
Definition header_mut (m : Mem) (k : GcObjectKind.t) (p : Z) (f : GcHeader -> GcHeader) : option Mem :=
  let? ' (h, o) := m !! p in
  if decide (obj_kind o = k) then Some (<[p := (f h, o)]> m) else None.

Definition string_at (m : Mem) (p : Z) : option LuaString :=
  match m !! p with Some (_, OString s) => Some s | _ => None end.
Definition table_at (m : Mem) (p : Z) : option LuaTable :=
  match m !! p with Some (_, OTable t) => Some t | _ => None end.
Definition func_at (m : Mem) (p : Z) : option GcFunc :=
  match m !! p with Some (_, OFunc f) => Some f | _ => None end.
Definition upval_at (m : Mem) (p : Z) : option Upval :=
  match m !! p with Some (_, OUpval u) => Some u | _ => None end.
Definition thread_at (m : Mem) (p : Z) : option LuaState :=
  match m !! p with Some (_, OThread l) => Some l | _ => None end.
Definition proto_at (m : Mem) (p : Z) : option Proto :=
  match m !! p with Some (_, OProto x) => Some x | _ => None end.
Definition cdata_at (m : Mem) (p : Z) : option CData :=
  match m !! p with Some (_, OCData c) => Some c | _ => None end.
Definition userdata_at (m : Mem) (p : Z) : option GcUserData :=
  match m !! p with Some (_, OUserData u) => Some u | _ => None end.

(** [as_mut]: the object is replaced, its header kept. *)
Definition obj_set (m : Mem) (p : Z) (o : GcObj) : option Mem :=
  let? ' (h, o') := m !! p in
  if decide (obj_kind o' = obj_kind o) then Some (<[p := (h, o)]> m) else None.

Definition ptr_is_marked (m : Mem) (k : GcObjectKind.t) (p : Z) : option bool :=
  let? h := header_at m k p in Some (marked h).

(** Set the mark, in the flag and in the colour. *)
Definition ptr_set_marked (m : Mem) (k : GcObjectKind.t) (p : Z) : option Mem :=
  header_mut m k p (fun h => nw2black (mark_set h true)).

(** ** Upvalues *)

Definition uv_get (m : Mem) (u : Upval) : option LuaValue :=
  match uv_v u with
  | Dangling => None
  | OnStack th i => let? l := thread_at m th in stack l !! i
  | InTv => Some (uv_tv u)
  end.

(** [Upval::set] on the upvalue at [p]. *)
Definition uv_set (m : Mem) (p : Z) (v : LuaValue) : option Mem :=
  let? u := upval_at m p in
  match uv_v u with
  | Dangling => None
  | OnStack th i =>
      let? l := thread_at m th in
      if decide (i < length (stack l))%nat
      then obj_set m th (OThread (mkState (<[i := v]> (stack l)) (frame_top l) (top l) (openuv l)
                                    (errval l) (hook l) (call_cl l)))
      else None
  | InTv => obj_set m p (OUpval (mkUpval InTv v (immutable u)))
  end.

Definition is_open (u : Upval) : bool := negb (bool_decide (uv_v u = InTv)).

Definition uv_close (m : Mem) (p : Z) : option Mem :=
  let? u := upval_at m p in
  if is_open u then
    let? v := uv_get m u in obj_set m p (OUpval (mkUpval InTv v (immutable u)))
  else Some m.

(** ** Pools *)

Definition ADDR_MAX : Z := Z.shiftl 1 47.

Record Pool := mkPool {
  objects : list Z;
  live : Z;
  pkind : GcObjectKind.t;
  pool_white : Z;
}.

Definition pool_new (k : GcObjectKind.t) : Pool := mkPool [] 0 k 0.

(** The block at [p] comes from the free list or the system; [size] is the
    size of the type. *)
Definition pool_alloc (size : Z) (m : Mem) (pl : Pool) (p : Z) (o : GcObj) : option (Mem * Pool) :=
  if decide (obj_kind o = pkind pl /\ m !! p = None) then
    Some (<[p := (header_new (pool_white pl) (pkind pl) size, o)]> m,
          mkPool (objects pl ++ [p]) (live pl + 1) (pkind pl) (pool_white pl))
  else None.

(** [reset_marked]: the flag of every object of the pool. *)
Fixpoint reset_marked (m : Mem) (k : GcObjectKind.t) (ps : list Z) : option Mem :=
  match ps with
  | [] => Some m
  | p :: ps =>
      let? m := header_mut m k p (fun h => if marked h then mark_set h false else h) in
      reset_marked m k ps
  end.

Definition swap_remove {A} (l : list A) (i : nat) : option (list A) :=
  let? x := last l in
  if decide (i < length l)%nat then
    Some (take (length l - 1) (<[i := x]> l))
  else None.

(** Drop the object at [p] and return its block. *)
Definition retire (m : Mem) (k : GcObjectKind.t) (p : Z) : option Mem :=
  let? _ := header_at m k p in Some (delete p m).

(** One unit of fuel per object scanned: [n] is what is left of the limit.
    [on_free] may change the memory and the state [A] its closure captures. *)
Section Sweep.
Context {A : Type} (on_free : A -> Mem -> Z -> option (A * Mem)) (cw : Z) (k : GcObjectKind.t).

Fixpoint sweep_loop (fuel : nat) (a : A) (m : Mem) (os : list Z) (i n : nat) :
    option (A * Mem * list Z * nat) :=
  match fuel with
  | O => None
  | S fuel =>
      if decide (i < length os)%nat then
        match n with
        | O => Some (a, m, os, i)
        | S n =>
            let? p := os !! i in
            if (p <=? 0x1000) || (ADDR_MAX <=? p) then
              let? os := swap_remove os i in
              sweep_loop fuel a m os i n
            else
              let? h := header_at m k p in
              let was_marked := marked h in
              if was_marked || (negb (hdr_is_dead h cw) && negb (is_black h)) then
                let? m :=
                  header_mut m k p (fun h => mark_set (if was_marked then change_white h else h) false) in
                sweep_loop fuel a m os (S i) n
              else
                let? ' (a, m) := on_free a m p in
                let? m := retire m k p in
                let? os := swap_remove os i in
                sweep_loop fuel a m os i n
        end
      else Some (a, m, os, i)
  end.
End Sweep.

Definition sweep_limited {A} (on_free : A -> Mem -> Z -> option (A * Mem)) (a : A) (m : Mem) (pl : Pool)
    (cw : Z) (limit start : nat) : option (A * Mem * Pool * (bool * nat)) :=
  let? ' (a, m, os, i) :=
    sweep_loop on_free cw (pkind pl) (S (length (objects pl))) a m (objects pl) start limit in
  Some (a, m, mkPool os (Z.of_nat (length os)) (pkind pl) (pool_white pl),
        (bool_decide (length os <= i)%nat, i)).

(** Without a limit: no more objects are scanned than there are. *)
Definition sweep_tricolor {A} (on_free : A -> Mem -> Z -> option (A * Mem)) (a : A) (m : Mem) (pl : Pool)
    (cw : Z) : option (A * Mem * Pool) :=
  let? ' (a, m, pl, _) := sweep_limited on_free a m pl cw (length (objects pl)) 0 in Some (a, m, pl).

Definition update_current_white (pl : Pool) (cw : Z) : Pool :=
  mkPool (objects pl) (live pl) (pkind pl) cw.
