(* ===== verification/HeapSpec.v ===== *)
(** * Laws of the object memory, the headers and the pool sweep *)

From Stdlib Require Import ZArith Lia Bool.
From stdpp Require Import base decidable numbers option gmap list.
From S2P Require Import Prelude Float64 Value Table Heap.

(** ** Header bits *)

#[global] Instance Age_eq_dec : EqDecision Age.
Proof. solve_decision. Defined.

Definition hdr_ok (h : GcHeader) : Prop := urange 8 (bits h).

(** The two white bits, the black bit, the finalized bit and the age. *)
Definition colour (h : GcHeader) : bool * bool * bool * bool * Age :=
  (has_bit h BIT_WHITE0, has_bit h BIT_WHITE1, is_black h, hdr_is_finalized h, age h).

(** What an operation on headers does to the fields of the flag byte. *)
Definition acts (f : GcHeader -> GcHeader)
    (g : bool * bool * bool * bool * Age -> bool * bool * bool * bool * Age) : Prop :=
  forall h, hdr_ok h -> hdr_ok (f h) /\ colour (f h) = g (colour h).

(** A fact about the flag byte, checked on its 256 values. *)
Lemma byte_forall (P : Z -> bool) :
  forallb P (Z.of_nat <$> seq 0 256) = true -> forall b, urange 8 b -> P b = true.
Proof.
  intros HP b Hb. rewrite forallb_forall in HP. apply HP. apply list_elem_of_In, list_elem_of_fmap.
  unfold urange in Hb. exists (Z.to_nat b). split; [lia|]. apply elem_of_seq. lia.
Qed.

Lemma acts_check f g :
  (forall m k s, forallb (fun b => let h := mkHeader m b k s in
     (0 <=? bits (f h)) && (bits (f h) <? 256) && bool_decide (colour (f h) = g (colour h)))
     (Z.of_nat <$> seq 0 256) = true) -> acts f g.
Proof.
  intros HP [m b k s] Hb. pose proof (byte_forall _ (HP m k s) b Hb) as H. cbv beta zeta in H.
  rewrite !andb_true_iff, bool_decide_eq_true, Z.leb_le, Z.ltb_lt in H.
  destruct H as [[? ?] ?]. split; [|done]. unfold hdr_ok, urange. lia.
Qed.

Lemma nw2black_acts : acts nw2black (fun '(_, _, _, f, a) => (false, false, true, f, a)).
Proof. apply acts_check. intros m k s. vm_compute. reflexivity. Qed.

Lemma change_white_acts :
  acts change_white (fun '(w0, w1, _, f, a) => (negb w0, w0, false, f, a)).
Proof. apply acts_check. intros m k s. vm_compute. reflexivity. Qed.

Lemma make_gray_acts : acts make_gray (fun '(_, _, _, f, a) => (false, false, false, f, a)).
Proof. apply acts_check. intros m k s. vm_compute. reflexivity. Qed.

Lemma make_undead_acts : acts make_undead (fun '(_, _, _, f, a) => (false, false, false, f, a)).
Proof. exact make_gray_acts. Qed.

Lemma set_finalized_acts : acts set_finalized (fun '(w0, w1, b, _, a) => (w0, w1, b, true, a)).
Proof. apply acts_check. intros m k s. vm_compute. reflexivity. Qed.

Lemma make_dead_next_acts cw :
  acts (fun h => make_dead_next h cw) (fun '(_, _, _, _, a) => (cw =? 0, negb (cw =? 0), false, true, a)).
Proof.
  unfold make_dead_next. destruct (cw =? 0); apply acts_check; intros m k s; vm_compute; reflexivity.
Qed.

Lemma set_age_acts x : acts (fun h => set_age h x) (fun '(w0, w1, b, f, _) => (w0, w1, b, f, x)).
Proof. destruct x; apply acts_check; intros m k s; vm_compute; reflexivity. Qed.

Lemma mark_set_acts m : acts (fun h => mark_set h m) (fun c => c).
Proof. done. Qed.

(** Header flags do not interfere: each colour operation sets exactly the
    colour its name says, keeps the age and (but for [make_dead_next]) the
    finalized bit; setting the age keeps the colour; a new object is not dead
    in its own cycle and dead in the next, one that is made to die next is
    dead in the next cycle only, a black one is never dead, and flipping the
    white of a marked (black) object always gives white 0. *)
Theorem header_flags (h : GcHeader) (cw : Z) (a : Age) (Hh : hdr_ok h) (Hcw : cw = 0 \/ cw = 1) :
  (hdr_is_dead (nw2black h) cw = false /\ is_black (nw2black h) = true /\ age (nw2black h) = age h) /\
  (hdr_is_dead (make_gray h) cw = false /\ is_black (make_gray h) = false /\ age (make_gray h) = age h) /\
  (is_black h = true -> hdr_is_dead h 0 = false -> hdr_is_dead h 1 = false ->
     colour (change_white h) = (true, false, false, hdr_is_finalized h, age h)) /\
  (hdr_is_dead (make_dead_next h cw) cw = false /\ hdr_is_dead (make_dead_next h cw) (1 - cw) = true /\
     hdr_is_finalized (make_dead_next h cw) = true) /\
  (hdr_is_finalized (set_finalized (make_undead h)) = true /\
     hdr_is_dead (set_finalized (make_undead h)) cw = false) /\
  (age (set_age h a) = a /\ hdr_is_dead (set_age h a) cw = hdr_is_dead h cw /\
     is_black (set_age h a) = is_black h) /\
  (forall k s, hdr_is_dead (header_new cw k s) cw = false /\
     hdr_is_dead (header_new cw k s) (1 - cw) = true /\ kind_tag (header_new cw k s) = k).
Proof.
  unfold hdr_is_dead.
  destruct (nw2black_acts h Hh) as [_ E1]. destruct (make_gray_acts h Hh) as [Hg E2].
  destruct (change_white_acts h Hh) as [_ E3]. destruct (make_dead_next_acts cw h Hh) as [_ E4].
  destruct (set_finalized_acts _ Hg) as [_ E5]. destruct (set_age_acts a h Hh) as [_ E6].
  unfold make_undead. change (wb h (clear_bits (bits h) COLOR_MASK)) with (make_gray h).
  unfold colour in *. rewrite E3. injection E1 as -> -> -> ? ->. injection E2 as E2a E2b -> ? ->.
  injection E4 as -> -> ? -> ?. injection E5 as -> -> ? -> ?. injection E6 as -> -> -> ? ->.
  rewrite E2a, E2b. change (0 =? 0) with true. change (1 =? 0) with false. cbv iota.
  split; [by destruct (cw =? 0)|]. split; [by destruct (cw =? 0)|].
  split; [by intros _ _ ->|]. split; [by destruct Hcw as [-> | ->]|].
  split; [by destruct (cw =? 0)|]. split; [by destruct (cw =? 0)|].
  intros k s. destruct Hcw as [-> | ->]; by destruct k.
Qed.

Lemma header_flags_witness :
  is_black (nw2black (header_new 0 GcObjectKind.Table 64)) = true /\
  hdr_is_dead (header_new 0 GcObjectKind.Table 64) 1 = true.
Proof.
  assert (Hh : hdr_ok (header_new 0 GcObjectKind.Table 64)) by (vm_compute; split; [discriminate|reflexivity]).
  destruct (header_flags _ 0 New Hh (or_introl eq_refl)) as ((_ & E & _) & _ & _ & _ & _ & _ & E').
  split; [exact E|exact (proj1 (proj2 (E' GcObjectKind.Table 64)))].
Defined.

(** ** Memory *)

Lemma header_at_Some m k p h : header_at m k p = Some h <-> exists o, m !! p = Some (h, o) /\ obj_kind o = k.
Proof.
  unfold header_at. destruct (m !! p) as [[h' o]|]; [|split; [done|by intros (? & ? & ?)]].
  destruct (decide (obj_kind o = k)) as [E|E]; (split; [intros [= <-]; eauto|intros (? & [= <- <-] & ?)]); done.
Qed.

Lemma header_mut_Some m k p h o f : m !! p = Some (h, o) -> obj_kind o = k ->
  header_mut m k p f = Some (<[p := (f h, o)]> m).
Proof. intros E Ek. unfold header_mut. rewrite E, decide_True by done. done. Qed.

Lemma header_mut_inv m k p f m' : header_mut m k p f = Some m' ->
  exists h o, m !! p = Some (h, o) /\ obj_kind o = k /\ m' = <[p := (f h, o)]> m.
Proof.
  unfold header_mut. destruct (m !! p) as [[h o]|]; [|done].
  destruct (decide (obj_kind o = k)); [|done]. intros [= <-]. eauto.
Qed.

Lemma string_at_Some m p s : string_at m p = Some s <-> exists h, m !! p = Some (h, OString s).
Proof.
  unfold string_at. split.
  - destruct (m !! p) as [[h []]|]; try done. intros [= ->]. eauto.
  - by intros (h & ->).
Qed.

(** [m'] is [m] with other headers: the objects are the same. *)
Definition same_objs (m m' : Mem) : Prop := forall p, snd <$> m' !! p = snd <$> m !! p.

Lemma same_objs_refl m : same_objs m m.
Proof. done. Qed.

Lemma same_objs_trans m1 m2 m3 : same_objs m1 m2 -> same_objs m2 m3 -> same_objs m1 m3.
Proof. intros H1 H2 p. by rewrite H2, H1. Qed.

Lemma same_objs_insert m p h h' o : m !! p = Some (h, o) -> same_objs m (<[p := (h', o)]> m).
Proof.
  intros E q. destruct (decide (p = q)) as [->|]; [by rewrite lookup_insert_eq, E|].
  by rewrite lookup_insert_ne.
Qed.

Lemma same_objs_mut m k p f m' : header_mut m k p f = Some m' -> same_objs m m'.
Proof. intros (h & o & E & _ & ->)%header_mut_inv. by eapply same_objs_insert. Qed.

Lemma same_objs_lookup m m' p h o : same_objs m m' -> m !! p = Some (h, o) ->
  exists h', m' !! p = Some (h', o).
Proof.
  intros Hs E. specialize (Hs p). rewrite E in Hs. destruct (m' !! p) as [[h' o']|]; [|done].
  injection Hs as ->. eauto.
Qed.

Lemma same_objs_sym m m' : same_objs m m' -> same_objs m' m.
Proof. intros H p. by rewrite H. Qed.

Lemma same_objs_string m m' p : same_objs m m' -> string_at m' p = string_at m p.
Proof.
  intros Hs. specialize (Hs p). unfold string_at.
  destruct (m !! p) as [[h o]|], (m' !! p) as [[h' o']|]; try done. by injection Hs as ->.
Qed.

(** ** The sweep of a pool *)

Lemma swap_remove_spec {A} (done : list A) x rest : exists rest',
  swap_remove (done ++ x :: rest) (length done) = Some (done ++ rest') /\ rest' ≡ₚ rest.
Proof.
  unfold swap_remove. destruct (rest) as [|y rest0] using rev_ind.
  - exists []. rewrite last_snoc, decide_True by (rewrite length_app; cbn; lia).
    split; [|done]. f_equal. rewrite insert_app_r_alt, Nat.sub_diag by lia. cbn.
    rewrite length_app. cbn. rewrite take_app_le by lia. rewrite app_nil_r. apply take_ge. lia.
  - clear IHrest0. exists (y :: rest0).
    rewrite app_comm_cons, app_assoc, last_snoc, decide_True by (rewrite !length_app; cbn; lia).
    split; [|by rewrite Permutation_app_comm]. f_equal.
    rewrite <- app_assoc, insert_app_r_alt, Nat.sub_diag by lia. cbn.
    rewrite !length_app. cbn. rewrite !length_app. cbn.
    replace (length done + S (length rest0 + 1) - 1)%nat with (length (done ++ y :: rest0))%nat
      by (rewrite length_app; cbn; lia).
    rewrite app_comm_cons, app_assoc. by rewrite take_app_length.
Qed.

(** An object the sweep keeps. *)
Definition survives (cw : Z) (h : GcHeader) : bool :=
  marked h || (negb (hdr_is_dead h cw) && negb (is_black h)).

Definition swept (h : GcHeader) : GcHeader :=
  mark_set (if marked h then change_white h else h) false.

Section SweepInv.
Context {A : Type} (on_free : A -> Mem -> Z -> option (A * Mem)) (cw : Z) (k : GcObjectKind.t).

(** [I a m done rest]: [done] are the kept objects, [rest] those not scanned. *)
Context (I : A -> Mem -> list Z -> list Z -> Prop).
Hypothesis I_perm : forall a m d r r', r ≡ₚ r' -> I a m d r -> I a m d r'.
Hypothesis I_addr : forall a m d p r, I a m d (p :: r) -> 0x1000 < p < ADDR_MAX.
Hypothesis I_step : forall a m d p r, I a m d (p :: r) ->
  exists h o, m !! p = Some (h, o) /\ obj_kind o = k /\
  if survives cw h then I a (<[p := (swept h, o)]> m) (d ++ [p]) r
  else exists a' m', on_free a m p = Some (a', m') /\ (exists h' o', m' !! p = Some (h', o') /\ obj_kind o' = k) /\
       I a' (delete p m') d r.

Lemma sweep_loop_spec fuel a m d r n : (length r < fuel)%nat -> I a m d r ->
  exists a' m' d' r', sweep_loop on_free cw k fuel a m (d ++ r) (length d) n = Some (a', m', d' ++ r', length d') /\
    I a' m' d' r' /\ (length r' = length r - Nat.min n (length r))%nat.
Proof.
  revert a m d r n. induction fuel as [|fuel IH]; intros a m d r n Hf HI; [lia|]. cbn [sweep_loop].
  destruct r as [|p r].
  { rewrite decide_False by (rewrite length_app; cbn; lia). exists a, m, d, []. repeat split; done || (cbn; lia). }
  rewrite decide_True by (rewrite length_app; cbn; lia).
  destruct n as [|n]; [exists a, m, d, (p :: r); repeat split; done || (cbn; lia)|].
  rewrite list_lookup_middle by done.
  pose proof (I_addr _ _ _ _ _ HI) as Ha.
  destruct (Z.leb_spec p 0x1000); [lia|]. destruct (Z.leb_spec ADDR_MAX p); [lia|]. cbn [orb].
  destruct (I_step _ _ _ _ _ HI) as (h & o & E & Ek & Hc).
  assert (header_at m k p = Some h) as -> by (apply header_at_Some; eauto). cbv zeta.
  change (marked h || negb (hdr_is_dead h cw) && negb (is_black h)) with (survives cw h).
  destruct (survives cw h).
  - rewrite (header_mut_Some _ _ _ _ _ _ E Ek).
    destruct (IH a (<[p := (swept h, o)]> m) (d ++ [p]) r n) as (a' & m' & d' & r' & Hs & HI' & Hl);
      [cbn in Hf; lia|done|].
    exists a', m', d', r'. rewrite length_app in Hs. cbn [length] in Hs. rewrite Nat.add_1_r, <- app_assoc in Hs.
    split; [exact Hs|]. split; [done|]. cbn. lia.
  - destruct Hc as (a1 & m1 & -> & (h1 & o1 & E1 & Ek1) & HI1). unfold retire.
    assert (header_at m1 k p = Some h1) as -> by (apply header_at_Some; eauto).
    destruct (swap_remove_spec d p r) as (r1 & -> & Hp).
    destruct (IH a1 (delete p m1) d r1 n) as (a' & m' & d' & r' & Hs & HI' & Hl).
    { cbn in Hf. rewrite (Permutation_length Hp). lia. }
    { by eapply I_perm. }
    exists a', m', d', r'. split; [exact Hs|]. split; [done|]. rewrite (Permutation_length Hp) in Hl. cbn. lia.
Qed.

Lemma sweep_limited_spec a m pl limit d r : pkind pl = k -> objects pl = d ++ r -> I a m d r ->
  exists a' m' d' r', sweep_limited on_free a m pl cw limit (length d) =
      Some (a', m', mkPool (d' ++ r') (zlen (d' ++ r')) k (pool_white pl),
            (bool_decide (r' = []), length d')) /\
    I a' m' d' r' /\ (length r' = length r - Nat.min limit (length r))%nat.
Proof.
  intros Hk Ho HI. unfold sweep_limited. rewrite Hk, Ho.
  destruct (sweep_loop_spec (S (length (d ++ r))) a m d r limit) as (a' & m' & d' & r' & Hs & HI' & Hl);
    [rewrite length_app; lia|done|].
  rewrite Hs. exists a', m', d', r'. split; [|done]. repeat f_equal.
  apply bool_decide_ext. rewrite length_app. destruct r'; cbn; split; try done; lia.
Qed.

Lemma sweep_tricolor_spec a m pl : pkind pl = k -> I a m [] (objects pl) ->
  exists a' m' d', sweep_tricolor on_free a m pl cw =
      Some (a', m', mkPool d' (zlen d') k (pool_white pl)) /\ I a' m' d' [].
Proof.
  intros Hk HI. unfold sweep_tricolor.
  destruct (sweep_limited_spec a m pl (length (objects pl)) [] (objects pl) Hk eq_refl HI)
    as (a' & m' & d' & r' & Hs & HI' & Hl).
  cbn [length] in Hs. rewrite Hs. destruct r' as [|x r']; [|cbn in Hl; lia].
  exists a', m', d'. rewrite app_nil_r. done.
Qed.
End SweepInv.
