(* ===== verification/Intern.v ===== *)
(** * runtime/string.rs: string hashing and interning

    The FNV-1a hash with its unrolled loop and its continuation, and the
    open-addressing table of the interner.  Strings live in the memory of
    Heap.v; a probe takes one unit of fuel per slot. *)

From Stdlib Require Import ZArith Lia Bool.
From stdpp Require Import base decidable numbers option gmap list.
From S2P Require Import Prelude Float64 Value Table Heap.

(** ** Hashing *)

Definition FNV_OFFSET : Z := 0xcbf29ce484222325.
Definition FNV_PRIME : Z := 0x00000100000001b3.

Definition fnv_step (h b : Z) : Z := uwrap 64 (Z.lxor h b * FNV_PRIME).

Definition fnv_8 (h b0 b1 b2 b3 b4 b5 b6 b7 : Z) : Z :=
  let h := fnv_step h b0 in
  let h := fnv_step h b1 in
  let h := fnv_step h b2 in
  let h := fnv_step h b3 in
  let h := fnv_step h b4 in
  let h := fnv_step h b5 in
  let h := fnv_step h b6 in
  fnv_step h b7.

Fixpoint fnv1a_cont (state : Z) (s : list Z) {struct s} : Z :=
  match s with
  | b0 :: b1 :: b2 :: b3 :: b4 :: b5 :: b6 :: b7 :: s =>
      fnv1a_cont (fnv_8 state b0 b1 b2 b3 b4 b5 b6 b7) s
  | _ => foldl fnv_step state s
  end.

Definition fnv1a_state (s : list Z) : Z := fnv1a_cont FNV_OFFSET s.

Definition fnv1a_fold (state : Z) : Z := Z.lxor (uwrap 32 state) (uwrap 32 (Z.shiftr state 32)).

(** ** The interner *)

Inductive Slot : Set := Empty | Tombstone | Occupied (p : Z).

#[global] Instance Slot_eq_dec : EqDecision Slot.
Proof. solve_decision. Defined.

Record Interner := mkInterner {
  slots : list Slot;
  nuse : Z;
  ndead : Z;
  by_id : list (option Z);
  free_ids : list Z;
  spool : Pool;
  str_total : Z;
  empty_sid : Z;
}.

Definition MAX_LOAD_NUM : Z := 7.
Definition MAX_LOAD_DEN : Z := 10.

(** [size_of::<T>()], which depends on the target. *)
Class Layout := { type_size : GcObjectKind.t -> Z }.

Definition with_slots (it : Interner) (s : list Slot) (nuse ndead : Z) : Interner :=
  mkInterner s nuse ndead (by_id it) (free_ids it) (spool it) (str_total it) (empty_sid it).

Definition should_grow (it : Interner) : bool :=
  zlen (slots it) * MAX_LOAD_NUM <=? (nuse it + ndead it) * MAX_LOAD_DEN.

Definition mask (l : list Slot) : Z := zlen l - 1.

Section Intern.
Context `{Layout}.

Definition str_gc_size (s : LuaString) : Z :=
  type_size GcObjectKind.String +
  match repr s with Inline _ _ => 0 | HeapBytes b => zlen b end.

(** The probe of a lookup: the string found, or the slot to insert at. *)
Inductive Probe : Set := Found (p : Z) | Insert (slot : Z).

Fixpoint probe (fuel : nat) (m : Mem) (l : list Slot) (s : list Z) (hash idx : Z)
    (first_dead : option Z) : option Probe :=
  match fuel with
  | O => None
  | S fuel =>
      let? sl := znth l idx in
      match sl with
      | Empty => Some (Insert (match first_dead with Some d => d | None => idx end))
      | Tombstone =>
          probe fuel m l s hash (Z.land (idx + 1) (mask l))
            (match first_dead with Some d => Some d | None => Some idx end)
      | Occupied p =>
          let? ls := string_at m p in
          if (Heap.hash ls =? hash) && bool_decide (as_bytes ls = s) then Some (Found p)
          else probe fuel m l s hash (Z.land (idx + 1) (mask l)) first_dead
      end
  end.

Fixpoint free_slot (fuel : nat) (empty : Slot -> bool) (l : list Slot) (idx : Z) : option Z :=
  match fuel with
  | O => None
  | S fuel =>
      let? sl := znth l idx in
      if empty sl then Some idx else free_slot fuel empty l (Z.land (idx + 1) (mask l))
  end.

Definition is_empty (sl : Slot) : bool := match sl with Empty => true | _ => false end.
Definition is_vacant (sl : Slot) : bool := match sl with Occupied _ => false | _ => true end.

(** Reinsertion of the occupied slots into the doubled array. *)
Fixpoint grow_loop (m : Mem) (old new : list Slot) : option (list Slot) :=
  match old with
  | [] => Some new
  | Occupied p :: old =>
      let? ls := string_at m p in
      let? idx := free_slot (S (length new)) is_empty new (Z.land (Heap.hash ls) (mask new)) in
      let? new := zset new idx (Occupied p) in
      grow_loop m old new
  | _ :: old => grow_loop m old new
  end.

Definition grow (m : Mem) (it : Interner) : option Interner :=
  let? l := grow_loop m (slots it) (replicate (length (slots it) * 2) Empty) in
  Some (with_slots it l (nuse it) 0).

(** The id of a new string: a recycled one, or the next. *)
Definition new_sid (it : Interner) : Z * Interner :=
  match free_ids it with
  | id :: rest =>
      (id, mkInterner (slots it) (nuse it) (ndead it) (by_id it) rest (spool it) (str_total it) (empty_sid it))
  | [] =>
      (uwrap 32 (zlen (by_id it)),
       mkInterner (slots it) (nuse it) (ndead it) (by_id it ++ [None]) [] (spool it) (str_total it)
         (empty_sid it))
  end.

(** [p] is the block the pool hands out. *)
Definition insert_new (m : Mem) (it : Interner) (s : list Z) (hash slot p : Z) :
    option (Mem * Interner * Z) :=
  let? ' (it, slot) :=
    if should_grow it then
      let? it := grow m it in
      let? slot := free_slot (S (length (slots it))) is_vacant (slots it) (Z.land hash (mask (slots it))) in
      Some (it, slot)
    else Some (it, slot) in
  let '(id, it) := new_sid it in
  let ls := string_new s id hash in
  let? ' (m, pl) := pool_alloc (type_size GcObjectKind.String) m (spool it) p (OString ls) in
  let? ids := zset (by_id it) id (Some p) in
  let? sl := znth (slots it) slot in
  let ndead' := if decide (sl = Tombstone) then ndead it - 1 else ndead it in
  let? l := zset (slots it) slot (Occupied p) in
  Some (m, mkInterner l (nuse it + 1) ndead' ids (free_ids it) pl (str_total it + str_gc_size ls)
             (empty_sid it), id).

Definition intern_with_hash (m : Mem) (it : Interner) (s : list Z) (hash p : Z) :
    option (Mem * Interner * Z) :=
  let? r := probe (S (length (slots it))) m (slots it) s hash (Z.land hash (mask (slots it))) None in
  match r with
  | Found q =>
      let? ls := string_at m q in
      let? m := ptr_set_marked m GcObjectKind.String q in
      Some (m, it, sid ls)
  | Insert slot => insert_new m it s hash slot p
  end.

Definition intern (m : Mem) (it : Interner) (s : list Z) (p : Z) : option (Mem * Interner * Z) :=
  intern_with_hash m it s (fnv1a_fold (fnv1a_state s)) p.

Definition interner_new (m : Mem) (p : Z) : option (Mem * Interner) :=
  let it := mkInterner (replicate 512 Empty) 0 0 [] [] (pool_new GcObjectKind.String) 0 0 in
  let? ' (m, it, id) := intern m it [] p in
  Some (m, mkInterner (slots it) (nuse it) (ndead it) (by_id it) (free_ids it) (spool it) (str_total it) id).

(** ** Lookup by id *)

Definition try_lookup (it : Interner) (id : Z) : option Z := mjoin (znth (by_id it) id).

Definition lookup_ptr (it : Interner) (id : Z) : option Z :=
  match try_lookup it id with
  | Some p => Some p
  | None => try_lookup it (empty_sid it)
  end.

Definition lookup_str (m : Mem) (it : Interner) (id : Z) : option LuaString :=
  let? p := lookup_ptr it id in string_at m p.

Definition get_bytes (m : Mem) (it : Interner) (id : Z) : option (list Z) :=
  let? s := lookup_str m it id in Some (as_bytes s).

(** ** Sweep *)

(** The empty strings are pinned. *)
Fixpoint pin_empty (m : Mem) (l : list Slot) : option Mem :=
  match l with
  | [] => Some m
  | Occupied p :: l =>
      let? ls := string_at m p in
      let? m := if decide (as_bytes ls = []) then ptr_set_marked m GcObjectKind.String p else Some m in
      pin_empty m l
  | _ :: l => pin_empty m l
  end.

(** The slot of a dying string becomes a tombstone. *)
Fixpoint drop_slot (fuel : nat) (m : Mem) (it : Interner) (s : list Z) (hash idx : Z) : option Interner :=
  match fuel with
  | O => None
  | S fuel =>
      let? sl := znth (slots it) idx in
      match sl with
      | Occupied p =>
          let? ls := string_at m p in
          if (Heap.hash ls =? hash) && bool_decide (as_bytes ls = s) then
            let? l := zset (slots it) idx Tombstone in
            Some (with_slots it l (nuse it - 1) (ndead it + 1))
          else drop_slot fuel m it s hash (Z.land (idx + 1) (mask (slots it)))
      | Tombstone => drop_slot fuel m it s hash (Z.land (idx + 1) (mask (slots it)))
      | Empty => Some it
      end
  end.

Definition drop_string (it : Interner) (m : Mem) (p : Z) : option (Interner * Mem) :=
  let? ls := string_at m p in
  let? it := drop_slot (S (length (slots it))) m it (as_bytes ls) (Heap.hash ls)
               (Z.land (Heap.hash ls) (mask (slots it))) in
  let? ids := zset (by_id it) (sid ls) None in
  Some (mkInterner (slots it) (nuse it) (ndead it) ids (free_ids it) (spool it) (str_total it) (empty_sid it), m).

Definition total_bytes (m : Mem) (ps : list Z) : option Z :=
  foldr (fun p acc => let? n := acc in let? ls := string_at m p in Some (str_gc_size ls + n)) (Some 0) ps.

Definition sweep_strings (m : Mem) (it : Interner) (cw : Z) : option (Mem * Interner) :=
  let? m := pin_empty m (slots it) in
  let? ' (it', m, pl) := sweep_tricolor drop_string it m (spool it) cw in
  let? n := total_bytes m (objects pl) in
  Some (m, mkInterner (slots it') (nuse it') (ndead it') (by_id it') (free_ids it') pl n (empty_sid it')).

End Intern.
