(* ===== verification/InternSpec.v ===== *)
(** * The interner keeps one string per byte sequence

    The unrolled and continued hash is the plain FNV-1a fold, the probe
    sequence finds every string it holds, and interning, growing and sweeping
    keep the table well-formed. *)

From Stdlib Require Import ZArith Lia Bool.
From stdpp Require Import base decidable numbers option gmap list.
From S2P Require Import Prelude Float64 Value Table Heap HeapSpec Intern.

(** ** Hashing *)

Lemma fnv1a_cont_foldl n s st : (length s < n)%nat -> fnv1a_cont st s = foldl fnv_step st s.
Proof.
  revert s st. induction n as [|n IH]; intros s st Hl; [lia|].
  do 8 (destruct s as [|? s]; [done|]). cbn [fnv1a_cont foldl]. apply IH. cbn in Hl. lia.
Qed.

(** Continuing a hash hashes the concatenation: the state after [a],
    continued with [b], is the state of [a ++ b], whatever the split of the
    unrolled loop, and it is the plain byte-by-byte FNV-1a fold. *)
Theorem fnv_incremental (a b : list Z) :
  fnv1a_cont (fnv1a_state a) b = fnv1a_state (a ++ b) /\
  fnv1a_state a = foldl fnv_step FNV_OFFSET a.
Proof.
  unfold fnv1a_state. rewrite !(fnv1a_cont_foldl _ _ _ (Nat.lt_succ_diag_r _)), foldl_app. done.
Qed.

Definition str_hash (s : list Z) : Z := fnv1a_fold (fnv1a_state s).

Lemma lxor_range w a b : 0 <= w -> urange w a -> urange w b -> urange w (Z.lxor a b).
Proof.
  intros Hw Ha Hb. assert (Z.lxor a b = Z.lxor a b mod 2 ^ w) as ->.
  { symmetry. rewrite <- (uwrap_small w a Ha), <- (uwrap_small w b Hb). unfold uwrap. zbits. }
  by apply uwrap_range.
Qed.

Lemma str_hash_range s : urange 32 (str_hash s).
Proof. apply lxor_range; [lia|apply uwrap_range; lia|apply uwrap_range; lia]. Qed.

Lemma as_bytes_new s id h : as_bytes (string_new s id h) = s.
Proof.
  unfold as_bytes, string_new. cbn [repr]. destruct (Nat.leb (length s) INLINE_CAP); [|done].
  rewrite Nat2Z.id, take_app_le by done. by apply take_ge.
Qed.

(** ** Counting slots *)

Definition nonempty (sl : Slot) : bool := negb (is_empty sl).
Definition is_occ (sl : Slot) : bool := negb (is_vacant sl).
Definition is_tomb (sl : Slot) : bool := is_vacant sl && negb (is_empty sl).

Definition cnt (P : Slot -> bool) (l : list Slot) : Z :=
  foldr (fun x n => Z.b2z (P x) + n) 0 l.

Lemma cnt_range P l : 0 <= cnt P l <= zlen l.
Proof.
  unfold zlen. induction l as [|x l IH]; [done|]. cbn [cnt foldr length]. fold (cnt P l).
  destruct (P x); cbn [Z.b2z]; lia.
Qed.

Lemma cnt_app P l l' : cnt P (l ++ l') = cnt P l + cnt P l'.
Proof. induction l as [|x l IH]; [done|]. cbn. fold (cnt P (l ++ l')) (cnt P l). lia. Qed.

Lemma cnt_zset P l i x y l' : znth l i = Some y -> zset l i x = Some l' ->
  cnt P l' = cnt P l + Z.b2z (P x) - Z.b2z (P y).
Proof.
  intros Hy [Hi ->]%zset_Some. unfold znth in Hy. destruct (i <? 0); [done|].
  rewrite <- (take_drop_middle _ _ _ Hy), insert_app_r_alt.
  - rewrite length_take_le by (apply lookup_lt_Some in Hy; lia). rewrite Nat.sub_diag, !cnt_app. cbn. lia.
  - rewrite length_take. lia.
Qed.

Lemma cnt_exists P l : cnt P l < zlen l -> exists i x, znth l i = Some x /\ P x = false.
Proof.
  unfold zlen. induction l as [|x l IH]; [cbn; lia|]. cbn [cnt foldr length]. fold (cnt P l). intros Hc.
  destruct (P x) eqn:E; [|by exists 0, x]. cbn [Z.b2z] in Hc.
  destruct IH as (i & y & Hi & Hy); [lia|]. exists (i + 1), y. split; [|done].
  pose proof (znth_Some_lt _ _ _ Hi). unfold znth in *.
  destruct (Z.ltb_spec i 0), (Z.ltb_spec (i + 1) 0); try lia.
  replace (Z.to_nat (i + 1)) with (S (Z.to_nat i)) by lia. done.
Qed.

Lemma cnt_nonempty l : cnt nonempty l = cnt is_occ l + cnt is_tomb l.
Proof.
  induction l as [|x l IH]; [done|]. cbn [cnt foldr]. fold (cnt nonempty l) (cnt is_occ l) (cnt is_tomb l).
  rewrite IH. destruct x; cbn; lia.
Qed.

Lemma cnt_empty P n : P Empty = false -> cnt P (replicate n Empty) = 0.
Proof.
  intros HP. induction n as [|n IH]; [done|]. cbn [replicate cnt foldr]. fold (cnt P (replicate n Empty)).
  rewrite HP. cbn. lia.
Qed.

Lemma empty_exists l : cnt is_occ l + cnt is_tomb l < zlen l -> exists i, znth l i = Some Empty.
Proof.
  rewrite <- cnt_nonempty. intros (i & x & Hi & Hx)%cnt_exists. exists i. by destruct x.
Qed.

(** ** Probe sequences *)

(** Position [d] of the probe sequence of hash [h]. *)
Definition pos (l : list Slot) (h d : Z) : Z := (h + d) mod zlen l.

Definition pow2_len (l : list Slot) : Prop := exists k, 9 <= k /\ zlen l = 2 ^ k.

Lemma pow2_len_pos l : pow2_len l -> 512 <= zlen l.
Proof.
  intros (k & Hk & ->). change 512 with (2 ^ 9). apply Z.pow_le_mono_r; lia.
Qed.

Lemma land_mask l x : pow2_len l -> Z.land x (mask l) = x mod zlen l.
Proof.
  intros (k & Hk & E). unfold mask. rewrite E.
  replace (2 ^ k - 1) with (Z.ones k) by (rewrite Z.ones_equiv; lia). apply Z.land_ones. lia.
Qed.

Lemma pos_0 l h : pow2_len l -> Z.land h (mask l) = pos l h 0.
Proof. intros. rewrite land_mask by done. unfold pos. by rewrite Z.add_0_r. Qed.

Lemma pos_next l h d : pow2_len l -> Z.land (pos l h d + 1) (mask l) = pos l h (d + 1).
Proof.
  intros Hl. rewrite land_mask by done. pose proof (pow2_len_pos l Hl). unfold pos.
  rewrite Z.add_mod_idemp_l by lia. f_equal. lia.
Qed.

Lemma pos_nth l h d : pow2_len l -> exists sl, znth l (pos l h d) = Some sl.
Proof. intros Hl%pow2_len_pos. apply znth_lt_Some, Z.mod_pos_bound. lia. Qed.

(** Every index is on every probe sequence. *)
Lemma pos_onto l h i : pow2_len l -> 0 <= i < zlen l -> exists d, 0 <= d < zlen l /\ i = pos l h d.
Proof.
  intros Hl%pow2_len_pos Hi. exists ((i - h) mod zlen l). split; [apply Z.mod_pos_bound; lia|].
  unfold pos. rewrite Z.add_mod_idemp_r by lia. replace (h + (i - h)) with i by lia.
  symmetry. by apply Z.mod_small.
Qed.

(** The first [d] positions of the sequence are not empty. *)
Definition path (l : list Slot) (h d : Z) : Prop :=
  forall d', 0 <= d' < d -> exists sl, znth l (pos l h d') = Some sl /\ sl <> Empty.

Lemma path_mono l l' h d : zlen l' = zlen l ->
  (forall i sl, znth l i = Some sl -> sl <> Empty -> exists sl', znth l' i = Some sl' /\ sl' <> Empty) ->
  path l h d -> path l' h d.
Proof.
  intros El Hm Hp d' Hd. destruct (Hp d' Hd) as (sl & E & Hn). unfold pos. rewrite El. by eapply Hm.
Qed.

Lemma path_snoc l h d sl : path l h d -> znth l (pos l h d) = Some sl -> sl <> Empty -> path l h (d + 1).
Proof.
  intros Hp E Hn d' Hd. destruct (decide (d' = d)) as [->|]; [eauto|]. apply Hp. lia.
Qed.

Lemma path_le l h d d' : path l h d -> d' <= d -> path l h d'.
Proof. intros Hp Hle x Hx. apply Hp. lia. Qed.

(** ** Well-formed tables *)

Definition holds (m : Mem) (l : list Slot) (i p : Z) (ls : LuaString) : Prop :=
  znth l i = Some (Occupied p) /\ string_at m p = Some ls.

Record table_ok (m : Mem) (l : list Slot) : Prop := {
  to_size : pow2_len l;
  to_str : forall i p, znth l i = Some (Occupied p) -> exists ls, string_at m p = Some ls;
  to_path : forall i p ls, holds m l i p ls ->
    Heap.hash ls = str_hash (as_bytes ls) /\
    exists d, 0 <= d < zlen l /\ i = pos l (Heap.hash ls) d /\ path l (Heap.hash ls) d;
  to_inj : forall i j p q lp lq, holds m l i p lp -> holds m l j q lq -> as_bytes lp = as_bytes lq -> i = j;
}.

Definition absent (m : Mem) (l : list Slot) (s : list Z) : Prop :=
  forall i p ls, holds m l i p ls -> as_bytes ls <> s.

(** A string is before the first empty slot of its sequence. *)
Lemma absent_at_empty m l s d : table_ok m l -> 0 <= d ->
  (forall d', 0 <= d' < d -> forall p ls, holds m l (pos l (str_hash s) d') p ls -> as_bytes ls <> s) ->
  znth l (pos l (str_hash s) d) = Some Empty -> absent m l s.
Proof.
  intros Ht Hd Hno He i p ls Hh Es. destruct (to_path _ _ Ht i p ls Hh) as (Eh & dp & Hdp & Ei & Hp).
  rewrite Eh, Es in *. destruct (Z.lt_trichotomy dp d) as [Hlt|[->|Hgt]].
  - apply (Hno dp ltac:(lia) p ls); [by rewrite <- Ei|done].
  - destruct Hh as [Hh _]. rewrite Ei in Hh. congruence.
  - destruct (Hp d ltac:(lia)) as (sl & E & Hn). congruence.
Qed.

Definition probe_result (m : Mem) (l : list Slot) (s : list Z) (r : option Probe) : Prop :=
  (exists i p ls, r = Some (Found p) /\ holds m l i p ls /\ as_bytes ls = s) \/
  (exists d sl, r = Some (Insert (pos l (str_hash s) d)) /\ 0 <= d < zlen l /\ path l (str_hash s) d /\
     znth l (pos l (str_hash s) d) = Some sl /\ is_vacant sl = true /\ absent m l s).

Lemma probe_spec m l s fuel d fd : table_ok m l -> (exists i, znth l i = Some Empty) ->
  0 <= d < zlen l -> zlen l - d < Z.of_nat fuel -> path l (str_hash s) d ->
  (forall d', 0 <= d' < d -> forall p ls, holds m l (pos l (str_hash s) d') p ls -> as_bytes ls <> s) ->
  match fd with
  | None => True
  | Some x => exists d0, 0 <= d0 < d /\ x = pos l (str_hash s) d0 /\ znth l x = Some Tombstone
  end ->
  probe_result m l s (probe fuel m l s (str_hash s) (pos l (str_hash s) d) fd).
Proof.
  intros Ht (e & He). revert d fd.
  induction fuel as [|fuel IH]; intros d fd Hd Hf Hp Hno Hfd; [lia|].
  pose proof (to_size _ _ Ht) as Hl. cbn [probe].
  destruct (pos_nth l (str_hash s) d Hl) as (sl & E). rewrite E.
  assert (Hnext : sl <> Empty -> (forall p ls, sl = Occupied p -> string_at m p = Some ls -> as_bytes ls <> s) ->
    d + 1 < zlen l /\ path l (str_hash s) (d + 1) /\
    forall d', 0 <= d' < d + 1 -> forall p ls, holds m l (pos l (str_hash s) d') p ls -> as_bytes ls <> s).
  { intros Hn Hs. assert (Hp' : path l (str_hash s) (d + 1)) by (by eapply path_snoc). split; [|split; [done|]].
    - destruct (Z.ltb_spec (d + 1) (zlen l)); [done|].
      destruct (pos_onto l (str_hash s) e Hl (znth_Some_lt _ _ _ He)) as (de & Hde & ->).
      destruct (Hp' de ltac:(lia)) as (x & Ex & Hx). congruence.
    - intros d' Hd' p ls Hh. destruct (decide (d' = d)) as [->|]; [|by apply (Hno d' ltac:(lia) p)].
      destruct Hh as [E1 E2]. rewrite E in E1. injection E1 as ->. by eapply Hs. }
  destruct sl as [| |p].
  - right. pose proof (absent_at_empty m l s d Ht ltac:(lia) Hno E) as Ha.
    destruct fd as [x|]; [|by exists d, Empty].
    destruct Hfd as (d0 & Hd0 & -> & Et). exists d0, Tombstone. repeat split; try done; try lia.
    eapply path_le; [exact Hp|lia].
  - destruct Hnext as (Hlt & Hp' & Hno'); [done|done|]. rewrite pos_next by done.
    apply IH; [lia|lia|done|done|]. destruct fd as [x|].
    + destruct Hfd as (d0 & Hd0 & ? & ?). exists d0. split; [lia|done].
    + exists d. split; [lia|done].
  - destruct (to_str _ _ Ht _ _ E) as (ls & Els). rewrite Els.
    assert (Hh : holds m l (pos l (str_hash s) d) p ls) by done.
    destruct (to_path _ _ Ht _ _ _ Hh) as (Eh & _).
    destruct (Z.eqb_spec (Heap.hash ls) (str_hash s)); [destruct (decide (as_bytes ls = s)) as [Es|Es]|].
    + rewrite bool_decide_eq_true_2 by done. left. eauto 6.
    + rewrite bool_decide_eq_false_2 by done. cbn [andb].
      destruct Hnext as (Hlt & Hp' & Hno'); [done|congruence|]. rewrite pos_next by done.
      apply IH; [lia|lia|done|done|].
      destruct fd as [x|]; [|done]. destruct Hfd as (d0 & Hd0 & ? & ?). exists d0. split; [lia|done].
    + cbn [andb]. destruct Hnext as (Hlt & Hp' & Hno'); [done|congruence|]. rewrite pos_next by done.
      apply IH; [lia|lia|done|done|].
      destruct fd as [x|]; [|done]. destruct Hfd as (d0 & Hd0 & ? & ?). exists d0. split; [lia|done].
Qed.

Lemma free_slot_spec P l h fuel d : pow2_len l -> (exists i x, znth l i = Some x /\ P x = true) ->
  0 <= d < zlen l -> zlen l - d < Z.of_nat fuel ->
  (forall d', 0 <= d' < d -> exists x, znth l (pos l h d') = Some x /\ P x = false) ->
  exists d0 x, free_slot fuel P l (pos l h d) = Some (pos l h d0) /\ 0 <= d0 < zlen l /\
    znth l (pos l h d0) = Some x /\ P x = true /\
    (forall d', 0 <= d' < d0 -> exists x, znth l (pos l h d') = Some x /\ P x = false).
Proof.
  intros Hl (e & y & He & Hy). revert d. induction fuel as [|fuel IH]; intros d Hd Hf Hno; [lia|].
  cbn [free_slot]. destruct (pos_nth l h d Hl) as (x & E). rewrite E.
  destruct (P x) eqn:EP; [by exists d, x|]. rewrite pos_next by done.
  assert (Hno' : forall d', 0 <= d' < d + 1 -> exists x, znth l (pos l h d') = Some x /\ P x = false).
  { intros d' Hd'. destruct (decide (d' = d)) as [->|]; [eauto|]. apply Hno. lia. }
  destruct (Z.ltb_spec (d + 1) (zlen l)); [apply IH; [lia|lia|done]|].
  destruct (pos_onto l h e Hl (znth_Some_lt _ _ _ He)) as (de & Hde & ->).
  destruct (Hno' de ltac:(lia)) as (z & Ez & Hz). congruence.
Qed.

(** ** Filling and clearing a slot *)

Definition same_strings (m m' : Mem) (l : list Slot) : Prop :=
  forall i p, znth l i = Some (Occupied p) -> string_at m' p = string_at m p.

Lemma table_ok_mem m m' l : table_ok m l -> same_strings m m' l -> table_ok m' l.
Proof.
  intros [Hsz Hstr Hpath Hinj] Hs.
  assert (Hh : forall i p ls, holds m' l i p ls <-> holds m l i p ls).
  { intros i p ls. unfold holds. split; intros [E ?]; split; try done.
    - by rewrite <- (Hs _ _ E).
    - by rewrite (Hs _ _ E). }
  split; [done| | |].
  - intros i p E. rewrite (Hs _ _ E). by eapply Hstr.
  - intros i p ls H%Hh. by eapply Hpath.
  - intros i j p q lp lq Hp%Hh Hq%Hh. by eapply Hinj.
Qed.

Lemma holds_zset m l i x l' j p ls : zset l i x = Some l' -> holds m l' j p ls ->
  (j = i /\ x = Occupied p /\ string_at m p = Some ls) \/ (j <> i /\ holds m l j p ls).
Proof.
  intros Hz [E Hs]. rewrite (znth_zset _ _ _ _ _ Hz) in E.
  destruct (decide (j = i)); [left|right]; [|done]. by injection E as ->.
Qed.

Lemma table_ok_insert m l s p ls d sl l' : table_ok m l -> absent m l s ->
  string_at m p = Some ls -> as_bytes ls = s -> Heap.hash ls = str_hash s ->
  0 <= d < zlen l -> path l (str_hash s) d -> znth l (pos l (str_hash s) d) = Some sl ->
  is_vacant sl = true ->
  zset l (pos l (str_hash s) d) (Occupied p) = Some l' -> table_ok m l'.
Proof.
  intros [Hsz Hstr Hpath Hinj] Ha Hp Hb Hh Hd Hpa Esl Hv Hz.
  pose proof (zlen_zset _ _ _ _ Hz) as El.
  assert (Hm : forall i x, znth l i = Some x -> x <> Empty -> exists x', znth l' i = Some x' /\ x' <> Empty).
  { intros i x E Hn. rewrite (znth_zset _ _ _ _ _ Hz). destruct (decide (i = _)); eauto. }
  assert (Epos : forall h e, pos l' h e = pos l h e) by (intros; unfold pos; by rewrite El).
  split.
  - destruct Hsz as (k & ? & ?). exists k. by rewrite El.
  - intros i q E. rewrite (znth_zset _ _ _ _ _ Hz) in E. destruct (decide (i = _)); [|by eapply Hstr].
    injection E as <-. eauto.
  - intros i q lq H. destruct (holds_zset _ _ _ _ _ _ _ _ Hz H) as [(-> & [= <-] & Eq)|[Hne Ho]].
    + rewrite Hp in Eq. injection Eq as <-. rewrite Hb. split; [done|]. exists d.
      rewrite Hh, El, Epos. split; [done|split; [done|]]. by eapply path_mono.
    + destruct (Hpath _ _ _ Ho) as (? & e & ? & ? & ?). split; [done|]. exists e.
      rewrite El, Epos. split; [done|split; [done|]]. by eapply path_mono.
  - intros i j q r lq lr Hq Hr Eb.
    destruct (holds_zset _ _ _ _ _ _ _ _ Hz Hq) as [(-> & [= <-] & Eq)|[Hni Hq']],
      (holds_zset _ _ _ _ _ _ _ _ Hz Hr) as [(-> & [= <-] & Er)|[Hnj Hr']]; try done.
    + rewrite Hp in Eq. injection Eq as <-. destruct (Ha _ _ _ Hr'). congruence.
    + rewrite Hp in Er. injection Er as <-. destruct (Ha _ _ _ Hq'). congruence.
    + by eapply Hinj.
Qed.

Lemma table_ok_tomb m l i l' : table_ok m l -> zset l i Tombstone = Some l' -> table_ok m l'.
Proof.
  intros [Hsz Hstr Hpath Hinj] Hz. pose proof (zlen_zset _ _ _ _ Hz) as El.
  assert (Hh : forall j p ls, holds m l' j p ls -> holds m l j p ls).
  { intros j p ls H. destruct (holds_zset _ _ _ _ _ _ _ _ Hz H) as [(_ & ? & _)|[_ ?]]; done. }
  split.
  - destruct Hsz as (k & ? & ?). exists k. by rewrite El.
  - intros j q E. rewrite (znth_zset _ _ _ _ _ Hz) in E. destruct (decide (j = i)); [done|]. by eapply Hstr.
  - intros j q lq H%Hh. destruct (Hpath _ _ _ H) as (? & e & ? & ? & Hp). split; [done|]. exists e.
    unfold pos. rewrite El. split; [done|split; [done|]]. eapply path_mono; [done| |exact Hp].
    intros x sl E Hn. rewrite (znth_zset _ _ _ _ _ Hz). destruct (decide (x = i)); eauto.
  - intros j j' q r lq lr Hq%Hh Hr%Hh. by eapply Hinj.
Qed.

(** ** Growing *)

Definition occs (l : list Slot) : list Z :=
  omap (fun sl => match sl with Occupied p => Some p | _ => None end) l.

Lemma elem_of_occs l p : p ∈ occs l <-> exists i, znth l i = Some (Occupied p).
Proof.
  unfold occs. rewrite list_elem_of_omap. split.
  - intros (sl & Hin & E). destruct sl; try done. injection E as ->.
    apply list_elem_of_lookup in Hin as [i Hi]. exists (Z.of_nat i). unfold znth.
    destruct (Z.ltb_spec (Z.of_nat i) 0); [lia|]. by rewrite Nat2Z.id.
  - intros (i & Hi). exists (Occupied p). split; [|done]. unfold znth in Hi.
    destruct (i <? 0); [done|]. by eapply list_elem_of_lookup_2.
Qed.

Lemma cnt_occs l : cnt is_occ l = zlen (occs l).
Proof.
  unfold zlen. induction l as [|x l IH]; [done|]. cbn [cnt foldr]. fold (cnt is_occ l). rewrite IH.
  assert (occs (x :: l) = match x with Occupied p => p :: occs l | _ => occs l end) as -> by (by destruct x).
  destruct x; cbn [is_occ is_vacant negb Z.b2z length]; lia.
Qed.

Definition str_ok (m : Mem) (p : Z) (ls : LuaString) : Prop :=
  string_at m p = Some ls /\ Heap.hash ls = str_hash (as_bytes ls).

Lemma grow_loop_spec m old : forall new, table_ok m new -> cnt is_tomb new = 0 ->
  cnt is_occ new + zlen (occs old) < zlen new ->
  (forall p, p ∈ occs old -> exists ls, str_ok m p ls /\ absent m new (as_bytes ls)) ->
  NoDup (occs old) ->
  (forall p q lp lq, p ∈ occs old -> q ∈ occs old ->
     string_at m p = Some lp -> string_at m q = Some lq -> as_bytes lp = as_bytes lq -> p = q) ->
  exists new', grow_loop m old new = Some new' /\ table_ok m new' /\ zlen new' = zlen new /\
    cnt is_tomb new' = 0 /\ cnt is_occ new' = cnt is_occ new + zlen (occs old) /\
    (forall p, p ∈ occs new' <-> p ∈ occs new \/ p ∈ occs old).
Proof.
  induction old as [|x old IH]; intros new Ht Htomb Hc Habs Hnd Hd.
  { exists new. change (occs []) with (@nil Z) in *. change (zlen (@nil Z)) with 0 in *.
    do 4 (split; [done|]). split; [lia|]. intros p. split; [by left|].
    intros [?|Hn]; [done|]. by apply elem_of_nil in Hn. }
  destruct x as [| |p]; [apply IH; try done..|]. cbn [grow_loop].
  change (occs (Occupied p :: old)) with (p :: occs old) in *.
  apply NoDup_cons in Hnd as [Hnin Hnd].
  destruct (Habs p ltac:(by left)) as (ls & [Els Eh] & Ha). rewrite Els, Eh.
  pose proof (to_size _ _ Ht) as Hl. rewrite pos_0 by done.
  assert (El : zlen (p :: occs old) = zlen (occs old) + 1) by (unfold zlen; cbn; lia).
  pose proof (zlen_nonneg (occs old)) as Hnn. pose proof (pow2_len_pos _ Hl) as H512.
  destruct (empty_exists new) as (e & He); [lia|].
  destruct (free_slot_spec is_empty new (str_hash (as_bytes ls)) (S (length new)) 0 Hl)
    as (d & sl & -> & Hdr & Esl & Hem & Hbefore); [by exists e, Empty|lia|unfold zlen; lia|intros; lia|].
  destruct sl; try done.
  destruct (zset_lt new (pos new (str_hash (as_bytes ls)) d) (Occupied p)) as (new1 & Hz);
    [by eapply znth_Some_lt|]. rewrite Hz.
  assert (Ht1 : table_ok m new1).
  { eapply (table_ok_insert m new (as_bytes ls) p ls d Empty new1); try done.
    intros d' Hd'. destruct (Hbefore d' Hd') as (y & ? & ?). exists y. split; [done|]. by destruct y. }
  pose proof (zlen_zset _ _ _ _ Hz) as El1.
  pose proof (cnt_zset is_occ _ _ _ _ _ Esl Hz) as Eo. pose proof (cnt_zset is_tomb _ _ _ _ _ Esl Hz) as Et.
  cbn [is_occ is_tomb is_vacant is_empty negb andb Z.b2z] in Eo, Et.
  assert (Hocc : forall q, q ∈ occs new1 <-> q ∈ occs new \/ q = p).
  { intros q. rewrite !elem_of_occs. split.
    - intros (i & Hi). rewrite (znth_zset _ _ _ _ _ Hz) in Hi. destruct (decide (i = _)).
      + right. by injection Hi as <-.
      + left. eauto.
    - intros [(i & Hi)| ->].
      + exists i. rewrite (znth_zset _ _ _ _ _ Hz). destruct (decide (i = _)) as [->|]; [congruence|done].
      + eexists. rewrite (znth_zset _ _ _ _ _ Hz). by rewrite decide_True. }
  destruct (IH new1 Ht1) as (new' & -> & Ht' & El' & Et' & Eo' & Hocc').
  - lia.
  - lia.
  - intros q Hq. destruct (Habs q ltac:(by right)) as (lq & Hsq & Haq). exists lq. split; [done|].
    intros i r lr Hr Er. destruct (holds_zset _ _ _ _ _ _ _ _ Hz Hr) as [(-> & [= <-] & E)|[_ Hr']].
    + destruct Hsq as [Hsq _]. destruct Hnin.
      rewrite (Hd p q lr lq); [done|by left|by right|done..].
    + by eapply Haq.
  - done.
  - intros q r lq lr Hq Hr. apply Hd; by right.
  - exists new'. split; [done|]. split; [done|]. split; [lia|]. split; [done|]. split; [lia|].
    intros q. rewrite Hocc', Hocc, elem_of_cons. tauto.
Qed.

Lemma occs_NoDup l :
  (forall i j p, l !! i = Some (Occupied p) -> l !! j = Some (Occupied p) -> i = j) -> NoDup (occs l).
Proof.
  induction l as [|x l IH]; intros Hi; [constructor|].
  assert (NoDup (occs l)) as Hl.
  { apply IH. intros i j p E1 E2. assert (S i = S j) as [= ->]; [|done]. by eapply (Hi (S i) (S j)). }
  destruct x as [| |p]; [done|done|]. change (NoDup (p :: occs l)). constructor; [|done].
  unfold occs. intros (sl & Hin & E)%list_elem_of_omap. destruct sl as [| |q]; try done. injection E as ->.
  apply list_elem_of_lookup in Hin as [j Hj]. by assert (0%nat = S j) by (by eapply (Hi 0%nat (S j))).
Qed.

Lemma znth_nat {A} (l : list A) i : znth l (Z.of_nat i) = l !! i.
Proof. unfold znth. destruct (Z.ltb_spec (Z.of_nat i) 0); [lia|]. by rewrite Nat2Z.id. Qed.

Lemma table_occs_NoDup m l : table_ok m l -> NoDup (occs l).
Proof.
  intros Ht. apply occs_NoDup. intros i j p Ei Ej. rewrite <- znth_nat in Ei, Ej.
  destruct (to_str _ _ Ht _ _ Ei) as (ls & Els).
  assert (Z.of_nat i = Z.of_nat j); [|lia]. by eapply (to_inj _ _ Ht _ _ p p ls ls).
Qed.

Lemma table_ok_empty m k : 9 <= k -> table_ok m (replicate (Z.to_nat (2 ^ k)) Empty).
Proof.
  intros Hk. assert (0 < 2 ^ k) by (apply Z.pow_pos_nonneg; lia).
  assert (Hno : forall i p, znth (replicate (Z.to_nat (2 ^ k)) Empty) i <> Some (Occupied p)).
  { intros i p E. pose proof (znth_Some_lt _ _ _ E) as Hi. rewrite zlen_replicate in Hi by lia.
    by rewrite znth_replicate in E by lia. }
  split.
  - exists k. rewrite zlen_replicate by lia. done.
  - intros i p E. by apply Hno in E.
  - intros i p ls [E _]. by apply Hno in E.
  - intros i j p q lp lq [E _]. by apply Hno in E.
Qed.

(** ** The interner's invariant *)

Record intern_ok (m : Mem) (it : Interner) : Prop := {
  io_tab : table_ok m (slots it);
  io_use : nuse it = cnt is_occ (slots it);
  io_dead : ndead it = cnt is_tomb (slots it);
  io_load : (nuse it + ndead it) * 10 < zlen (slots it) * 7 + 10;
  io_ids : forall id p, try_lookup it id = Some p <->
    exists i ls, holds m (slots it) i p ls /\ sid ls = id;
  io_pool : forall p, p ∈ objects (spool it) <-> p ∈ occs (slots it);
  io_nodup : NoDup (objects (spool it));
  io_addr : forall p, p ∈ objects (spool it) -> 0x1000 < p < ADDR_MAX;
  io_kind : pkind (spool it) = GcObjectKind.String;
  io_free : free_ids it = [];
}.

(** The bytes of an id. *)
Definition interned (m : Mem) (it : Interner) (id : Z) (s : list Z) : Prop :=
  exists p ls, try_lookup it id = Some p /\ string_at m p = Some ls /\ as_bytes ls = s.

Lemma interned_holds m it id s : intern_ok m it ->
  interned m it id s <-> exists i p ls, holds m (slots it) i p ls /\ sid ls = id /\ as_bytes ls = s.
Proof.
  intros Hok. split.
  - intros (p & ls & (i & ls' & Hh & Ei)%(io_ids _ _ Hok) & Hs & Hb).
    exists i, p, ls'. assert (ls' = ls) as -> by (destruct Hh; congruence). done.
  - intros (i & p & ls & Hh & Ei & Hb). exists p, ls. split; [|by destruct Hh].
    apply (io_ids _ _ Hok). eauto.
Qed.

Lemma interned_inj m it id id' s : intern_ok m it ->
  interned m it id s -> interned m it id' s -> id = id'.
Proof.
  intros Hok (i & p & lp & Hp & <- & Eb)%(interned_holds _ _ _ _ Hok)
    (j & q & lq & Hq & <- & Eb')%(interned_holds _ _ _ _ Hok).
  assert (i = j) as -> by (eapply (to_inj _ _ (io_tab _ _ Hok)); [done|done|congruence]).
  destruct Hp as [E1 E2], Hq as [E3 E4]. congruence.
Qed.

Lemma same_objs_holds m m' l i p ls : same_objs m m' -> holds m' l i p ls <-> holds m l i p ls.
Proof. intros Hs. unfold holds. by rewrite (same_objs_string _ _ _ Hs). Qed.

(** Only the strings matter. *)
Lemma intern_ok_mem m m' it : (forall p, string_at m' p = string_at m p) -> intern_ok m it -> intern_ok m' it.
Proof.
  intros Hs [Ht Hu Hd Hl Hi Hp Hn Ha Hk Hf]. split; try done.
  - eapply table_ok_mem; [done|]. intros i p _. by apply Hs.
  - intros id p. rewrite Hi. unfold holds. by setoid_rewrite Hs.
Qed.

Lemma intern_ok_headers m m' it : same_objs m m' -> intern_ok m it -> intern_ok m' it.
Proof. intros Hs. apply intern_ok_mem. intros p. by apply same_objs_string. Qed.

Section InternOk.
Context `{Layout}.

Lemma grow_spec m it : intern_ok m it -> exists it', grow m it = Some it' /\ intern_ok m it' /\
  (nuse it' + ndead it') * 10 < zlen (slots it') * 7 /\ by_id it' = by_id it /\ empty_sid it' = empty_sid it.
Proof.
  intros Hok. pose proof (io_tab _ _ Hok) as Ht. pose proof (to_size _ _ Ht) as Hl.
  pose proof (pow2_len_pos _ Hl) as H512. destruct Hl as (k & Hk & Ek).
  assert (Elen : (length (slots it) * 2)%nat = Z.to_nat (2 ^ (k + 1))).
  { rewrite Z.pow_add_r by lia. unfold zlen in Ek. lia. }
  unfold grow. rewrite Elen. pose proof (io_load _ _ Hok) as Hload.
  pose proof (io_use _ _ Hok) as Hu. pose proof (io_dead _ _ Hok) as Hd. rewrite cnt_occs in Hu.
  pose proof (cnt_range is_tomb (slots it)) as Hct.
  assert (Enew : zlen (replicate (Z.to_nat (2 ^ (k + 1))) Empty) = 2 * zlen (slots it)).
  { rewrite zlen_replicate, Z.pow_add_r by lia. lia. }
  destruct (grow_loop_spec m (slots it) (replicate (Z.to_nat (2 ^ (k + 1))) Empty))
    as (l & -> & Ht' & El & Etb & Eoc & Hocc).
  - apply table_ok_empty. lia.
  - by apply cnt_empty.
  - rewrite cnt_empty, Enew by done. lia.
  - intros p (i & Hi)%elem_of_occs. destruct (to_str _ _ Ht _ _ Hi) as (ls & Els). exists ls.
    split; [split; [done|]; by apply (to_path _ _ Ht i p)|].
    intros j q lq [E _]. pose proof (znth_Some_lt _ _ _ E) as Hj. rewrite zlen_replicate in Hj by lia.
    by rewrite znth_replicate in E by lia.
  - by eapply table_occs_NoDup.
  - intros p q lp lq (i & Hi)%elem_of_occs (j & Hj)%elem_of_occs Hp Hq Eb.
    assert (i = j) as -> by (by eapply (to_inj _ _ Ht i j p q lp lq)). congruence.
  - eexists. split; [done|]. rewrite cnt_empty in Eoc by done. rewrite Enew in El.
    assert (Hocc' : forall p, p ∈ occs l <-> p ∈ occs (slots it)).
    { intros p. rewrite Hocc. split; [|by right]. intros [(i & Hi)%elem_of_occs|?]; [|done].
      pose proof (znth_Some_lt _ _ _ Hi) as Hj. rewrite zlen_replicate in Hj by lia.
      by rewrite znth_replicate in Hi by lia. }
    split; [|cbn [with_slots nuse ndead slots by_id empty_sid]; split; [lia|done]].
    split; cbn [with_slots nuse ndead slots by_id spool free_ids try_lookup]; try apply Hok; try done.
    + lia.
    + lia.
    + intros id p. change (try_lookup (with_slots it l (nuse it) 0) id) with (try_lookup it id).
      rewrite (io_ids _ _ Hok). split; intros (i & ls & [E1 E2] & E3).
      * assert (p ∈ occs l) as (j & Hj)%elem_of_occs by (apply Hocc', elem_of_occs; eauto).
        exists j, ls. done.
      * assert (p ∈ occs (slots it)) as (j & Hj)%elem_of_occs by (apply Hocc', elem_of_occs; eauto).
        exists j, ls. done.
    + intros p. rewrite Hocc'. apply Hok.
Qed.

(** The room an id table of [u32] ids has. *)
Definition room (it : Interner) : Prop := zlen (by_id it) < 2 ^ 32 - 1.

Definition grown (m m' : Mem) (p : Z) : Prop := forall q, q <> p -> m' !! q = m !! q.

(** The last part of [insert_new]: the string is put at a vacant slot. *)
Definition place (m : Mem) (it : Interner) (s : list Z) (hash slot p : Z) : option (Mem * Interner * Z) :=
  let '(id, it) := new_sid it in
  let ls := string_new s id hash in
  let? ' (m, pl) := pool_alloc (type_size GcObjectKind.String) m (spool it) p (OString ls) in
  let? ids := zset (by_id it) id (Some p) in
  let? sl := znth (slots it) slot in
  let ndead' := if decide (sl = Tombstone) then ndead it - 1 else ndead it in
  let? l := zset (slots it) slot (Occupied p) in
  Some (m, mkInterner l (nuse it + 1) ndead' ids (free_ids it) pl (str_total it + str_gc_size ls)
             (empty_sid it), id).

Lemma fresh_occ m l p i q : table_ok m l -> m !! p = None -> znth l i = Some (Occupied q) -> q <> p.
Proof.
  intros Ht Hp E ->. destruct (to_str _ _ Ht _ _ E) as (ls & (h & Eh)%string_at_Some). congruence.
Qed.

Lemma place_spec m it s d sl p : intern_ok m it -> room it -> m !! p = None -> 0x1000 < p < ADDR_MAX ->
  (nuse it + ndead it) * 10 < zlen (slots it) * 7 ->
  0 <= d < zlen (slots it) -> path (slots it) (str_hash s) d ->
  znth (slots it) (pos (slots it) (str_hash s) d) = Some sl -> is_vacant sl = true ->
  absent m (slots it) s ->
  exists m' it' id, place m it s (str_hash s) (pos (slots it) (str_hash s) d) p = Some (m', it', id) /\
    intern_ok m' it' /\ interned m' it' id s /\
    m' = <[p := (header_new (pool_white (spool it)) GcObjectKind.String (type_size GcObjectKind.String),
                 OString (string_new s id (str_hash s)))]> m /\
    spool it' = mkPool (objects (spool it) ++ [p]) (live (spool it) + 1) GcObjectKind.String (pool_white (spool it)) /\
    (forall id' s', interned m' it' id' s' <-> interned m it id' s' \/ (id' = id /\ s' = s)) /\
    zlen (by_id it') = zlen (by_id it) + 1.
Proof.
  intros Hok Hroom Hp Hpa Hload Hd Hpath Esl Hv Habs.
  pose proof (io_tab _ _ Hok) as Ht. unfold place, new_sid. rewrite (io_free _ _ Hok). cbn [spool].
  set (id := uwrap 32 (zlen (by_id it))).
  assert (id = zlen (by_id it)) as Eid.
  { apply uwrap_small. unfold room, urange in *. pose proof (zlen_nonneg (by_id it)). lia. }
  set (ls := string_new s id (str_hash s)).
  unfold pool_alloc. rewrite decide_True by (split; [by rewrite (io_kind _ _ Hok)|done]).
  rewrite (io_kind _ _ Hok). cbn [by_id slots nuse ndead free_ids str_total empty_sid].
  set (m' := <[p := _]> m).
  destruct (zset_lt (by_id it ++ [None]) id (Some p)) as (ids & Hids).
  { rewrite Eid. unfold zlen. rewrite length_app. cbn. lia. }
  rewrite Hids, Esl.
  destruct (zset_lt (slots it) (pos (slots it) (str_hash s) d) (Occupied p)) as (l & Hz);
    [by eapply znth_Some_lt|]. rewrite Hz.
  assert (Els : string_at m' p = Some ls).
  { unfold string_at, m'. by rewrite lookup_insert_eq. }
  assert (Hsame : same_strings m m' (slots it)).
  { intros i q E. pose proof (fresh_occ _ _ _ _ _ Ht Hp E). unfold string_at, m'.
    by rewrite lookup_insert_ne. }
  assert (Hh : forall i q lq, holds m' (slots it) i q lq <-> holds m (slots it) i q lq).
  { intros i q lq. unfold holds. split; intros [E1 E2]; (split; [done|]).
    - by rewrite <- (Hsame _ _ E1).
    - by rewrite (Hsame _ _ E1). }
  assert (Ht' : table_ok m' l).
  { eapply (table_ok_insert m' (slots it) s p ls d sl l); try done.
    - by eapply table_ok_mem.
    - intros i q lq Hq%Hh. by eapply Habs.
    - apply as_bytes_new. }
  pose proof (cnt_zset is_occ _ _ _ _ _ Esl Hz) as Eo. pose proof (cnt_zset is_tomb _ _ _ _ _ Esl Hz) as Et.
  pose proof (zlen_zset _ _ _ _ Hz) as El.
  pose proof (io_use _ _ Hok) as Hu. pose proof (io_dead _ _ Hok) as Hdd.
  assert (Hids' : forall id' q, mjoin (znth ids id') = Some q <->
    (id' = id /\ q = p) \/ (id' <> id /\ try_lookup it id' = Some q)).
  { intros id' q. rewrite (znth_zset _ _ _ _ _ Hids). destruct (decide (id' = id)) as [->|Hne].
    - cbn. split; [intros [= <-]; by left|]. intros [[_ ->]|[? _]]; done.
    - rewrite znth_app. unfold try_lookup. destruct (Z.ltb_spec id' (zlen (by_id it))).
      + split; [by right|]. intros [[? _]|[_ ?]]; done.
      + assert (znth (by_id it) id' = None) as -> by (apply znth_None; lia).
        assert (znth [@None Z] (id' - zlen (by_id it)) = None) as -> by (apply znth_None; change (zlen [@None Z]) with 1; lia).
        cbn. split; [done|]. intros [[? _]|[_ ?]]; done. }
  assert (Hocc : forall i q lq, holds m' l i q lq <->
    (i = pos (slots it) (str_hash s) d /\ q = p /\ lq = ls) \/ holds m (slots it) i q lq).
  { intros i q lq. split.
    - intros H1. destruct (holds_zset _ _ _ _ _ _ _ _ Hz H1) as [(-> & [= <-] & E)|[_ H2]].
      + left. split; [done|split; [done|congruence]].
      + right. by apply Hh.
    - intros [(-> & -> & ->)|Hq].
      + split; [|done]. rewrite (znth_zset _ _ _ _ _ Hz). by rewrite decide_True.
      + apply Hh in Hq as [E1 E2]. split; [|done]. rewrite (znth_zset _ _ _ _ _ Hz).
        destruct (decide (i = _)) as [->|]; [|done]. rewrite Esl in E1. injection E1 as ->. done. }
  assert (Hsid : forall i q lq, holds m (slots it) i q lq -> sid lq <> id /\ q <> p).
  { intros i q lq Hq. split; [|destruct Hq; by apply (fresh_occ m (slots it) p i)]. intros E.
    assert (try_lookup it (sid lq) = Some q) as Hl by (apply (io_ids _ _ Hok); eauto).
    rewrite E in Hl. unfold try_lookup in Hl. rewrite Eid in Hl.
    assert (znth (by_id it) (zlen (by_id it)) = None) as E0 by (apply znth_None; lia). by rewrite E0 in Hl. }
  eexists _, _, _. split; [reflexivity|].
  match goal with |- intern_ok _ ?x /\ _ => set (it' := x) end.
  assert (Hok' : intern_ok m' it').
  { split; cbn [it' slots nuse ndead spool objects pkind free_ids].
    - done.
    - destruct sl; cbn [is_occ is_vacant negb Z.b2z] in Eo; try done; lia.
    - destruct sl; cbn [is_tomb is_vacant is_empty negb andb Z.b2z] in Et; try done;
        [rewrite decide_False by done|rewrite decide_True by done]; lia.
    - rewrite El. destruct sl; try done; [rewrite decide_False by done|rewrite decide_True by done]; lia.
    - intros id' q. change (try_lookup it' id') with (mjoin (znth ids id')). rewrite Hids'.
      split.
      + intros [[-> ->]|[Hne (i & lq & Hq & Ei)%(io_ids _ _ Hok)]].
        * exists (pos (slots it) (str_hash s) d), ls. split; [|done]. apply Hocc. by left.
        * exists i, lq. split; [|done]. apply Hocc. by right.
      + intros (i & lq & [(-> & -> & ->)|Hq]%Hocc & Ei); [left; done|right].
        destruct (Hsid _ _ _ Hq). split; [congruence|]. apply (io_ids _ _ Hok). eauto.
    - intros q. rewrite elem_of_app, list_elem_of_singleton, (io_pool _ _ Hok), !elem_of_occs. split.
      + intros [(i & Hi)| ->].
        * exists i. rewrite (znth_zset _ _ _ _ _ Hz). destruct (decide (i = _)) as [->|]; [|done].
          rewrite Esl in Hi. injection Hi as ->. done.
        * eexists. rewrite (znth_zset _ _ _ _ _ Hz). by rewrite decide_True.
      + intros (i & Hi). rewrite (znth_zset _ _ _ _ _ Hz) in Hi. destruct (decide (i = _)); [|left; eauto].
        right. congruence.
    - apply NoDup_app. split; [apply Hok|]. split; [|apply NoDup_singleton].
      intros q Hq%(io_pool _ _ Hok)%elem_of_occs. destruct Hq as (i & Hi).
      intros ->%list_elem_of_singleton. by eapply (fresh_occ m (slots it) p i p).
    - intros q [Hq| ->%list_elem_of_singleton]%elem_of_app; [by apply Hok|done].
    - done.
    - done. }
  assert (Hint : forall id' s', interned m' it' id' s' <-> interned m it id' s' \/ (id' = id /\ s' = s)).
  { intros id' s'. rewrite (interned_holds m' it') by done. rewrite (interned_holds m it) by done. split.
    - intros (i & q & lq & [(-> & -> & ->)|Hq]%Hocc & Ei & Eb); [right|left; eauto 6].
      split; [done|]. rewrite <- Eb. apply as_bytes_new.
    - intros [(i & q & lq & Hq & Ei & Eb)|[-> ->]].
      + exists i, q, lq. split; [|done]. apply Hocc. by right.
      + eexists _, p, ls. split; [apply Hocc; by left|]. split; [done|apply as_bytes_new]. }
  split; [done|]. split; [apply Hint; by right|]. do 3 (split; [done|]).
  cbn [it' by_id]. rewrite (zlen_zset _ _ _ _ Hids). unfold zlen. rewrite length_app. cbn. lia.
Qed.

Lemma interned_mem m it it' id s : (forall id p, try_lookup it' id = Some p <-> try_lookup it id = Some p) ->
  interned m it' id s <-> interned m it id s.
Proof. intros Hl. unfold interned. split; intros (p & ls & Hp & ?); exists p, ls; (split; [by apply Hl|done]). Qed.

(** What an interning does to the memory: a header is marked, or a new object
    appears at [p]. *)
Definition intern_step (m : Mem) (it : Interner) (p : Z) (m' : Mem) (it' : Interner) : Prop :=
  (exists q h o, m !! q = Some (h, o) /\ obj_kind o = GcObjectKind.String /\
     m' = <[q := (nw2black (mark_set h true), o)]> m /\ it' = it) \/
  (exists ls, m' = <[p := (header_new (pool_white (spool it)) GcObjectKind.String (type_size GcObjectKind.String),
                           OString ls)]> m /\ m !! p = None /\
     objects (spool it') = objects (spool it) ++ [p] /\ pool_white (spool it') = pool_white (spool it)).

Lemma intern_spec m it s p : intern_ok m it -> room it -> m !! p = None -> 0x1000 < p < ADDR_MAX ->
  exists m' it' id, intern m it s p = Some (m', it', id) /\ intern_ok m' it' /\ intern_step m it p m' it' /\
    (forall id' s', interned m' it' id' s' <-> interned m it id' s' \/ (id' = id /\ s' = s)) /\
    (forall id', interned m it id' s -> id' = id) /\
    zlen (by_id it) <= zlen (by_id it') <= zlen (by_id it) + 1.
Proof.
  intros Hok Hroom Hp Hpa. pose proof (io_tab _ _ Hok) as Ht. pose proof (to_size _ _ Ht) as Hl.
  pose proof (pow2_len_pos _ Hl) as H512. unfold intern, intern_with_hash.
  change (fnv1a_fold (fnv1a_state s)) with (str_hash s). rewrite pos_0 by done.
  assert (He : exists i, znth (slots it) i = Some Empty).
  { apply empty_exists. rewrite <- (io_use _ _ Hok), <- (io_dead _ _ Hok). pose proof (io_load _ _ Hok). lia. }
  destruct (probe_spec m (slots it) s (S (length (slots it))) 0 None Ht He) as
    [(i & q & lq & -> & Hq & Eb)|(d & sl & -> & Hd & Hpath & Esl & Hv & Habs)];
    [lia|unfold zlen; lia|intros ? ?; lia|intros ? ?; lia|done| |].
  - destruct Hq as [Ei Eq]. rewrite Eq. pose proof Eq as (h & Eh)%string_at_Some.
    unfold ptr_set_marked. rewrite (header_mut_Some _ _ _ _ _ _ Eh eq_refl).
    exists (<[q := (nw2black (mark_set h true), OString lq)]> m), it, (sid lq). split; [done|].
    assert (Hs : same_objs m (<[q := (nw2black (mark_set h true), OString lq)]> m)) by (by eapply same_objs_insert).
    assert (Hown : interned m it (sid lq) s).
    { exists q, lq. split; [|done]. apply (io_ids _ _ Hok). exists i, lq. done. }
    split; [by eapply intern_ok_headers|]. split; [left; eauto 8|]. split.
    + intros id' s'. unfold interned. setoid_rewrite (same_objs_string _ _ _ Hs).
      fold (interned m it id' s'). split; [by left|]. intros [?|[-> ->]]; done.
    + split; [|lia]. intros id' Hi. by eapply interned_inj.
  - assert (Hnew : forall id', ~ interned m it id' s).
    { intros id' (j & r & lr & Hr & _ & Eb)%(interned_holds _ _ _ _ Hok). by eapply Habs. }
    assert (Hplace : exists it1 d1 sl1, intern_ok m it1 /\ by_id it1 = by_id it /\ spool it1 = spool it /\
      (nuse it1 + ndead it1) * 10 < zlen (slots it1) * 7 /\ 0 <= d1 < zlen (slots it1) /\
      path (slots it1) (str_hash s) d1 /\ znth (slots it1) (pos (slots it1) (str_hash s) d1) = Some sl1 /\
      is_vacant sl1 = true /\
      insert_new m it s (str_hash s) (pos (slots it) (str_hash s) d) p =
        place m it1 s (str_hash s) (pos (slots it1) (str_hash s) d1) p).
    { unfold insert_new, should_grow, MAX_LOAD_NUM, MAX_LOAD_DEN.
      destruct (Z.leb_spec (zlen (slots it) * 7) ((nuse it + ndead it) * 10)) as [Hg|Hg].
      - destruct (grow_spec m it Hok) as (it1 & Eg & Hok1 & Hload1 & Eids & _). rewrite Eg.
        pose proof (to_size _ _ (io_tab _ _ Hok1)) as Hl1. pose proof (pow2_len_pos _ Hl1) as H1.
        destruct (empty_exists (slots it1)) as (e & Ee).
        { rewrite <- (io_use _ _ Hok1), <- (io_dead _ _ Hok1). pose proof (io_load _ _ Hok1). lia. }
        rewrite pos_0 by done.
        destruct (free_slot_spec is_vacant (slots it1) (str_hash s) (S (length (slots it1))) 0 Hl1)
          as (d1 & sl1 & Ef & Hd1 & Esl1 & Hv1 & Hb1);
          [by exists e, Empty|lia|unfold zlen; lia|intros; lia|]. rewrite Ef.
        exists it1, d1, sl1. split; [done|]. split; [done|].
        split; [unfold grow in Eg; destruct (grow_loop _ _ _); [|done]; by injection Eg as <-|].
        repeat split; try done; try lia.
        intros d' Hd'. destruct (Hb1 d' Hd') as (x & Ex & Hx). exists x. split; [done|]. by intros ->.
      - exists it, d, sl. do 7 (split; [done || lia|]). split; [done|]. reflexivity. }
    destruct Hplace as (it1 & d1 & sl1 & Hok1 & Eids & Epool & Hload1 & Hd1 & Hpath1 & Esl1 & Hv1 & ->).
    assert (Hsame : forall id' s', interned m it1 id' s' <-> interned m it id' s').
    { intros. apply interned_mem. intros. unfold try_lookup. by rewrite Eids. }
    destruct (place_spec m it1 s d1 sl1 p Hok1) as (m' & it' & id & -> & Hok' & Hi & Em & Ep & Hint & Hlen); try done.
    { unfold room. by rewrite Eids. }
    { intros j q lq Hq Eb. apply (Hnew (sid lq)), Hsame, (interned_holds _ _ _ _ Hok1). eauto 6. }
    exists m', it', id. split; [done|]. split; [done|]. split.
    { right. eexists. rewrite <- Epool. split; [exact Em|]. by rewrite Ep. }
    split; [|split; [by intros id' ?%Hnew|rewrite Hlen, Eids; lia]]. intros id' s'. by rewrite Hint, Hsame.
Qed.

(** C17. Interning on a well-formed interner terminates without panic, across
    collisions, tombstones and growth: the id returned reads back as the
    bytes, equal bytes always get the same id, every other id keeps its
    bytes, and the invariant of the table is preserved. *)
Theorem intern_refines (m : Mem) (it : Interner) (s : list Z) (p : Z) (Hok : intern_ok m it)
    (Hroom : room it) (Hp : m !! p = None) (Haddr : 0x1000 < p < ADDR_MAX) :
  exists m' it' id, intern m it s p = Some (m', it', id) /\ intern_ok m' it' /\
    get_bytes m' it' id = Some s /\
    (forall id', interned m it id' s -> id' = id) /\
    (forall id' s', interned m' it' id' s' <-> interned m it id' s' \/ (id' = id /\ s' = s)).
Proof.
  destruct (intern_spec m it s p Hok Hroom Hp Haddr) as (m' & it' & id & E & Hok' & _ & Hint & Hu & _).
  exists m', it', id. split; [done|]. split; [done|]. split; [|done].
  destruct (proj2 (Hint id s)) as (q & ls & El & Es & Eb); [by right|].
  unfold get_bytes, lookup_str, lookup_ptr. by rewrite El, Es, Eb.
Qed.

Lemma interner_new_ok m p : m !! p = None -> 0x1000 < p < ADDR_MAX ->
  exists m' it, interner_new m p = Some (m', it) /\ intern_ok m' it /\ room it /\
    (forall q, q <> p -> m' !! q = m !! q).
Proof.
  intros Hp Ha. unfold interner_new.
  set (it0 := mkInterner (replicate 512 Empty) 0 0 [] [] (pool_new GcObjectKind.String) 0 0).
  pose proof (table_ok_empty m 9 ltac:(lia)) as Ht. change (Z.to_nat (2 ^ 9)) with 512%nat in Ht.
  assert (Hno : forall i q, znth (replicate 512 Empty) i <> Some (Occupied q)).
  { intros i q E. pose proof (znth_Some_lt _ _ _ E) as Hi. change 512%nat with (Z.to_nat 512) in *.
    rewrite zlen_replicate in Hi by lia. by rewrite znth_replicate in E by lia. }
  assert (Hok : intern_ok m it0).
  { split; cbn [it0 slots nuse ndead spool free_ids pool_new objects pkind]; try done.
    - intros id q. unfold try_lookup, it0. cbn [by_id].
      assert (znth (@nil (option Z)) id = None) as -> by (apply znth_None; change (zlen (@nil (option Z))) with 0; lia).
      split; [done|]. intros (i & ls & [E _] & _). by apply Hno in E.
    - constructor.
    - intros q ?%elem_of_nil. done. }
  destruct (intern_spec m it0 [] p Hok) as (m' & it' & id & -> & Hok' & Hst & Hint & _ & Hlen); [done|done|done|].
  eexists _, _. split; [reflexivity|].
  assert (forall q, q <> p -> m' !! q = m !! q) as Hm.
  { intros q Hq. destruct Hst as [(r & h & o & _ & _ & _ & ->)|(ls & -> & _)]; [|by rewrite lookup_insert_ne].
    destruct (proj2 (Hint id [])) as (r' & ls & El & _); [by right|]. unfold try_lookup, it0 in El. cbn [by_id] in El.
    assert (znth (@nil (option Z)) id = None) as E0
      by (apply znth_None; change (zlen (@nil (option Z))) with 0; lia). by rewrite E0 in El. }
  split; [|split; [|done]].
  - destruct Hok'. split; cbn; try done.
  - unfold room. cbn [by_id]. change (zlen (by_id it0)) with 0 in Hlen. lia.
Qed.
End InternOk.

#[local] Instance demo_layout : Layout := {| type_size := fun _ => 56 |}.

Lemma intern_refines_witness :
  exists m it m' it' id, interner_new ∅ 0x2000 = Some (m, it) /\
    intern m it [97; 98] 0x3000 = Some (m', it', id) /\ get_bytes m' it' id = Some [97; 98].
Proof.
  assert (H2000 : 0x1000 < 0x2000 < ADDR_MAX) by (vm_compute; split; reflexivity).
  assert (H3000 : 0x1000 < 0x3000 < ADDR_MAX) by (vm_compute; split; reflexivity).
  destruct (interner_new_ok ∅ 0x2000 (lookup_empty (M:=gmap Z) 0x2000) H2000) as (m & it & En & Hok & Hroom & Hm).
  destruct (intern_refines m it [97; 98] 0x3000 Hok Hroom (Hm 0x3000 ltac:(discriminate)) H3000)
    as (m' & it' & id & Ei & _ & Eb & _).
  exists m, it, m', it', id. split; [exact En|split; [exact Ei|exact Eb]].
Defined.
