(* ===== verification/InternSweep.v ===== *)
(** * The sweep of the interner

    The sweep frees the strings that are neither marked nor of a live colour,
    keeps the empty string, and leaves a well-formed table: every surviving
    string is still found under its id, and by a probe for its bytes. *)

From Stdlib Require Import ZArith Lia Bool.
From stdpp Require Import base decidable numbers option gmap list.
From S2P Require Import Prelude Float64 Value Table Heap HeapSpec Intern InternSpec.

Section Sweep.
Context `{Layout}.

(** ** Dropping one string *)

Lemma drop_slot_spec m it i p ls fuel d :
  table_ok m (slots it) -> holds m (slots it) i p ls ->
  let h := str_hash (as_bytes ls) in
  0 <= d -> i = pos (slots it) h d ->
  forall d0, 0 <= d0 <= d -> path (slots it) h d -> d < zlen (slots it) -> zlen (slots it) - d0 < Z.of_nat fuel ->
  exists l, zset (slots it) i Tombstone = Some l /\
    drop_slot fuel m it (as_bytes ls) h (pos (slots it) h d0) =
    Some (with_slots it l (nuse it - 1) (ndead it + 1)).
Proof.
  intros Ht Hh h Hd Ei. induction fuel as [|fuel IH]; intros d0 Hd0 Hp Hlt Hf; [lia|].
  pose proof (to_size _ _ Ht) as Hl. cbn [drop_slot].
  destruct (decide (d0 = d)) as [->|Hne].
  - rewrite <- Ei. destruct Hh as [E1 E2]. rewrite E1, E2.
    destruct (to_path _ _ Ht _ _ _ (conj E1 E2)) as [Eh _].
    rewrite Eh. subst h. rewrite Z.eqb_refl, bool_decide_eq_true_2 by done. cbn [andb].
    destruct (zset_lt (slots it) i Tombstone) as (l & ->); [by eapply znth_Some_lt|]. by exists l.
  - destruct (Hp d0 ltac:(lia)) as (sl & E & Hn). rewrite E. rewrite pos_next by done.
    destruct sl as [| |q]; [done|apply IH; (done || lia)|].
    destruct (to_str _ _ Ht _ _ E) as (lq & Eq). rewrite Eq.
    destruct ((Heap.hash lq =? h) && bool_decide (as_bytes lq = as_bytes ls)) eqn:Em;
      [|apply IH; (done || lia)].
    apply andb_true_iff in Em as [_ Eb%bool_decide_eq_true].
    assert (pos (slots it) h d0 = i) as Epos by (by eapply (to_inj _ _ Ht _ _ q p lq ls)).
    rewrite Epos. destruct (zset_lt (slots it) i Tombstone) as (l & ->); [|by exists l].
    destruct Hh as [E1 _]. by eapply znth_Some_lt.
Qed.

(** The table without the pool: [ps] are the strings it holds. *)
Record core_ok (m : Mem) (it : Interner) (ps : list Z) : Prop := {
  co_tab : table_ok m (slots it);
  co_use : nuse it = cnt is_occ (slots it);
  co_dead : ndead it = cnt is_tomb (slots it);
  co_load : (nuse it + ndead it) * 10 < zlen (slots it) * 7 + 10;
  co_ids : forall id p, try_lookup it id = Some p <->
    exists i ls, holds m (slots it) i p ls /\ sid ls = id;
  co_occ : forall p, p ∈ ps <-> p ∈ occs (slots it);
  co_free : free_ids it = [];
}.

Lemma drop_string_spec m it ps ps' p : core_ok m it ps -> p ∈ ps ->
  (forall q, q ∈ ps' <-> q ∈ ps /\ q <> p) ->
  exists it', drop_string it m p = Some (it', m) /\ core_ok (delete p m) it' ps' /\
    spool it' = spool it /\ empty_sid it' = empty_sid it /\
    (forall id q, try_lookup it' id = Some q <-> try_lookup it id = Some q /\ q <> p).
Proof.
  intros [Ht Hu Hd Hload Hids Hocc Hfree] Hp Hps.
  destruct (proj1 (elem_of_occs _ _) (proj1 (Hocc p) Hp)) as (i & Ei).
  destruct (to_str _ _ Ht _ _ Ei) as (ls & Els). assert (Hh : holds m (slots it) i p ls) by done.
  destruct (to_path _ _ Ht _ _ _ Hh) as (Eh & d & Hdr & Ed & Hpath). rewrite Eh in Ed, Hpath.
  pose proof (to_size _ _ Ht) as Hl. unfold drop_string. rewrite Els, Eh, pos_0 by done.
  destruct (drop_slot_spec m it i p ls (S (length (slots it))) d Ht Hh ltac:(lia) Ed 0) as (l & Hz & ->);
    [lia|done|lia|unfold zlen; lia|].
  assert (Hlk : try_lookup it (sid ls) = Some p) by (apply Hids; eauto).
  assert (Hid : 0 <= sid ls < zlen (by_id it)).
  { unfold try_lookup in Hlk. destruct (znth (by_id it) (sid ls)) eqn:E; [|done]. by eapply znth_Some_lt. }
  cbn [with_slots by_id spool nuse ndead slots free_ids str_total empty_sid].
  destruct (zset_lt (by_id it) (sid ls) None Hid) as (ids & Hzi). rewrite Hzi.
  eexists. split; [reflexivity|]. match goal with |- core_ok _ ?x _ /\ _ => set (it' := x) end.
  pose proof (cnt_zset is_occ _ _ _ _ _ Ei Hz) as Eo. pose proof (cnt_zset is_tomb _ _ _ _ _ Ei Hz) as Et.
  cbn [is_occ is_tomb is_vacant is_empty negb andb Z.b2z] in Eo, Et.
  pose proof (zlen_zset _ _ _ _ Hz) as El.
  assert (Huniq : forall j q lq, holds m (slots it) j q lq -> q = p -> j = i).
  { intros j q lq Hq ->. destruct Hq as [E1 E2]. rewrite Els in E2. injection E2 as <-.
    by eapply (to_inj _ _ Ht j i p p ls ls). }
  assert (Hh' : forall j q lq, holds m l j q lq <-> holds m (slots it) j q lq /\ q <> p).
  { intros j q lq. split.
    - intros Hq. destruct (holds_zset _ _ _ _ _ _ _ _ Hz Hq) as [(_ & ? & _)|[Hne Hq']]; [done|].
      split; [done|]. intros Eqp. by apply Hne, (Huniq j q lq).
    - intros [[E1 E2] Hne]. split; [|done]. rewrite (znth_zset _ _ _ _ _ Hz).
      destruct (decide (j = i)) as [->|]; [|done]. rewrite Ei in E1. by injection E1 as ->. }
  assert (Hmem : same_strings m (delete p m) l).
  { intros j q E. assert (exists lq, holds m l j q lq) as (lq & Hq).
    { destruct (to_str _ _ (table_ok_tomb _ _ _ _ Ht Hz) _ _ E) as (lq & ?). by exists lq. }
    apply Hh' in Hq as [_ Hne]. unfold string_at. by rewrite lookup_delete_ne. }
  assert (Hh2 : forall j q lq, holds (delete p m) l j q lq <-> holds m (slots it) j q lq /\ q <> p).
  { intros j q lq. rewrite <- Hh'. unfold holds.
    split; intros [E1 E2]; (split; [done|]); [by rewrite <- (Hmem _ _ E1)|by rewrite (Hmem _ _ E1)]. }
  assert (Hids2 : forall id q, try_lookup it' id = Some q <-> try_lookup it id = Some q /\ q <> p).
  { intros id q. unfold try_lookup, it'. cbn [by_id]. rewrite (znth_zset _ _ _ _ _ Hzi).
    destruct (decide (id = sid ls)) as [->|Hne].
    - cbn. split; [done|]. intros [E1 Hne]. unfold try_lookup in Hlk. rewrite Hlk in E1. by injection E1 as ->.
    - split; [|tauto]. intros E1. split; [done|]. intros ->. apply Hne.
      fold (try_lookup it id) in E1. apply Hids in E1 as (j & lq & [E2 E3] & <-). congruence. }
  split; [|done]. split; cbn [it' slots nuse ndead free_ids].
  - eapply table_ok_mem; [by eapply table_ok_tomb|done].
  - lia.
  - lia.
  - lia.
  - intros id q. rewrite Hids2, Hids. split.
    + intros [(j & lq & Hq & Es) Hne]. exists j, lq. by rewrite Hh2.
    + intros (j & lq & [Hq Hne]%Hh2 & Es). eauto 6.
  - intros q. rewrite Hps, Hocc, !elem_of_occs. split.
    + intros [(j & E) Hne]. exists j. rewrite (znth_zset _ _ _ _ _ Hz).
      destruct (decide (j = i)) as [->|]; [|done]. rewrite Ei in E. by injection E as ->.
    + intros (j & E). rewrite (znth_zset _ _ _ _ _ Hz) in E. destruct (decide (j = i)) as [|Hne]; [done|].
      split; [by exists j|]. intros ->. destruct (to_str _ _ Ht _ _ E) as (lq & Eq). by apply Hne, (Huniq j p lq).
  - done.
Qed.

(** ** Pinning *)

Definition pinned (h : GcHeader) (o : GcObj) : GcHeader :=
  match o with
  | OString s => if decide (as_bytes s = []) then nw2black (mark_set h true) else h
  | _ => h
  end.

Lemma pinned_idem h o : pinned (pinned h o) o = pinned h o \/ exists s, o = OString s /\ as_bytes s = [].
Proof. destruct o; try by left. cbn. destruct (decide (as_bytes s = [])); [right; eauto|left]. done. Qed.

Lemma pin_empty_spec l m : (forall p, p ∈ occs l -> exists s, string_at m p = Some s) -> NoDup (occs l) ->
  exists m', pin_empty m l = Some m' /\ same_objs m m' /\
    (forall p h o, p ∈ occs l -> m !! p = Some (h, o) -> m' !! p = Some (pinned h o, o)) /\
    (forall p, p ∉ occs l -> m' !! p = m !! p).
Proof.
  revert m. induction l as [|x l IH]; intros m Hs Hnd.
  { exists m. split; [done|]. split; [done|]. split; [|done]. intros p h o Hp. by apply elem_of_nil in Hp. }
  destruct x as [| |p]; [apply IH; done..|]. change (occs (Occupied p :: l)) with (p :: occs l) in *.
  apply NoDup_cons in Hnd as [Hnin Hnd]. cbn [pin_empty].
  destruct (Hs p ltac:(by left)) as (s & Es). rewrite Es. pose proof Es as (h & Eh)%string_at_Some.
  assert (exists m1, (if decide (as_bytes s = []) then ptr_set_marked m GcObjectKind.String p else Some m) = Some m1 /\
    m1 = <[p := (pinned h (OString s), OString s)]> m) as (m1 & -> & Em1).
  { unfold ptr_set_marked, pinned. destruct (decide (as_bytes s = [])).
    - rewrite (header_mut_Some _ _ _ _ _ _ Eh eq_refl). eauto.
    - exists m. split; [done|]. by rewrite insert_id. }
  assert (Hsame : same_objs m m1) by (subst; by eapply same_objs_insert).
  destruct (IH m1) as (m' & -> & Hs' & Hin & Hout).
  { intros q Hq. rewrite (same_objs_string _ _ _ Hsame). apply Hs. by right. }
  { done. }
  exists m'. split; [done|]. split; [by eapply same_objs_trans|]. split.
  - intros q h' o [->|Hq]%elem_of_cons E.
    + rewrite Hout by done. rewrite E in Eh. injection Eh as -> ->. subst. by rewrite lookup_insert_eq.
    + apply Hin; [done|]. subst. rewrite lookup_insert_ne by (intros ->; done). done.
  - intros q [Hne Hq]%not_elem_of_cons. rewrite Hout by done. subst. by rewrite lookup_insert_ne.
Qed.

(** ** The whole sweep *)

(** Whether the sweep keeps the string of header [h]: the empty one is pinned. *)
Definition keeps_string (cw : Z) (h : GcHeader) (s : LuaString) : bool :=
  survives cw (pinned h (OString s)).

Section Loop.
Context (m1 : Mem) (it0 : Interner) (cw : Z).

(** The sweep so far: [d] are kept, [r] not scanned yet. *)
Record sweep_inv (it : Interner) (m : Mem) (d r : list Z) : Prop := {
  si_core : core_ok m it (d ++ r);
  si_nodup : NoDup (d ++ r);
  si_addr : forall p, p ∈ d ++ r -> 0x1000 < p < ADDR_MAX;
  si_rest : forall p, p ∈ r -> m !! p = m1 !! p;
  si_done : forall p, p ∈ d -> exists h o, m1 !! p = Some (h, o) /\ survives cw h = true /\ m !! p = Some (swept h, o);
  si_out : forall p, p ∉ objects (spool it0) -> m !! p = m1 !! p;
  si_sub : forall p, p ∈ d ++ r -> p ∈ objects (spool it0);
  si_freed : forall p, p ∈ objects (spool it0) -> p ∉ d ++ r ->
    m !! p = None /\ exists h o, m1 !! p = Some (h, o) /\ survives cw h = false;
  si_ids : forall id p, try_lookup it id = Some p <-> try_lookup it0 id = Some p /\ p ∈ d ++ r;
  si_empty : empty_sid it = empty_sid it0;
}.

Lemma core_ok_headers m m' it ps : same_objs m m' -> core_ok m it ps -> core_ok m' it ps.
Proof.
  intros Hs [Ht Hu Hd Hl Hi Hp Hf]. split; try done.
  - eapply table_ok_mem; [done|]. intros i p _. by apply same_objs_string.
  - intros id p. rewrite Hi. setoid_rewrite (same_objs_holds m m'); done.
Qed.

Lemma core_ok_perm m it ps ps' : ps ≡ₚ ps' -> core_ok m it ps -> core_ok m it ps'.
Proof. intros Hp [Ht Hu Hd Hl Hi Ho Hf]. split; try done. intros p. by rewrite <- Hp. Qed.

Lemma sweep_inv_perm it m d r r' : r ≡ₚ r' -> sweep_inv it m d r -> sweep_inv it m d r'.
Proof.
  intros Hp [Hc Hn Ha Hr Hd Ho Hs Hf Hi He].
  assert (Hp' : d ++ r ≡ₚ d ++ r') by (by rewrite Hp).
  split; try done.
  - by eapply core_ok_perm.
  - by rewrite <- Hp'.
  - intros p. rewrite <- Hp'. apply Ha.
  - intros p. rewrite <- Hp. apply Hr.
  - intros p. rewrite <- Hp'. apply Hs.
  - intros p. rewrite <- Hp'. apply Hf.
  - intros id p. rewrite <- Hp'. apply Hi.
Qed.

Lemma core_string m it ps p : core_ok m it ps -> p ∈ ps -> exists h s, m !! p = Some (h, OString s).
Proof.
  intros Hc Hp. destruct (proj1 (elem_of_occs _ _) (proj1 (co_occ _ _ _ Hc p) Hp)) as (i & Ei).
  destruct (to_str _ _ (co_tab _ _ _ Hc) _ _ Ei) as (s & (h & E)%string_at_Some). eauto.
Qed.

Lemma elem_of_middle (d r : list Z) p : p ∉ d -> p ∉ r ->
  forall q, q ∈ d ++ r <-> q ∈ d ++ p :: r /\ q <> p.
Proof.
  intros Hd Hr q. rewrite !elem_of_app, elem_of_cons. split.
  - intros [Hq|Hq]; (split; [tauto|by intros ->]).
  - tauto.
Qed.

Lemma sweep_inv_step it m d p r : sweep_inv it m d (p :: r) ->
  exists h o, m !! p = Some (h, o) /\ obj_kind o = GcObjectKind.String /\
  if survives cw h then sweep_inv it (<[p := (swept h, o)]> m) (d ++ [p]) r
  else exists it' m', drop_string it m p = Some (it', m') /\
       (exists h' o', m' !! p = Some (h', o') /\ obj_kind o' = GcObjectKind.String) /\
       sweep_inv it' (delete p m') d r.
Proof.
  intros [Hc Hn Ha Hr Hd Ho Hs Hf Hi He].
  assert (Hpin : p ∈ d ++ p :: r) by (apply elem_of_app; right; by left).
  destruct (core_string m it _ p Hc Hpin) as (h & s & E). exists h, (OString s). split; [done|]. split; [done|].
  assert (Em1 : m1 !! p = Some (h, OString s)) by (by rewrite <- Hr by (by left)).
  assert (Hnp : (p ∉ d) /\ (p ∉ r) /\ NoDup (d ++ r)).
  { apply NoDup_app in Hn as (Hnd & Hdr & [Hpr Hnr]%NoDup_cons).
    split; [|split; [done|]].
    - intros Hpd. by apply (Hdr p Hpd); left.
    - apply NoDup_app. split; [done|]. split; [|done]. intros q Hq ?. apply (Hdr q Hq). by right. }
  destruct Hnp as (Hpd & Hpr & Hnd').
  destruct (survives cw h) eqn:Es.
  - assert (Eapp : (d ++ [p]) ++ r = d ++ p :: r) by (by rewrite <- app_assoc).
    split; rewrite ?Eapp; try done.
    + eapply core_ok_headers; [|done]. by eapply same_objs_insert.
    + intros q Hq. rewrite lookup_insert_ne by (by intros ->). apply Hr. by right.
    + intros q [Hq| ->%list_elem_of_singleton]%elem_of_app.
      * rewrite lookup_insert_ne by (by intros ->). by apply Hd.
      * rewrite lookup_insert_eq. eauto 6.
    + intros q Hq. rewrite lookup_insert_ne; [by apply Ho|]. intros ->. by apply Hq, Hs.
    + intros q Hq Hq'. rewrite lookup_insert_ne; [by apply Hf|]. by intros ->.
  - destruct (drop_string_spec m it (d ++ p :: r) (d ++ r) p Hc Hpin) as (it' & -> & Hc' & Hsp & Hem & Hids).
    { by apply elem_of_middle. }
    exists it', m. split; [done|]. split; [by exists h, (OString s)|].
    assert (Hsub : forall q, q ∈ d ++ r <-> q ∈ d ++ p :: r /\ q <> p).
    { by apply elem_of_middle. }
    split; try done.
    + intros q [Hq _]%Hsub. by apply Ha.
    + intros q Hq. rewrite lookup_delete_ne by (by intros ->). apply Hr. by right.
    + intros q Hq. rewrite lookup_delete_ne by (by intros ->). by apply Hd.
    + intros q Hq. rewrite lookup_delete_ne; [by apply Ho|]. intros ->. by apply Hq, Hs.
    + intros q [Hq _]%Hsub. by apply Hs.
    + intros q Hq Hq'. destruct (decide (q = p)) as [->|Hne].
      * rewrite lookup_delete_eq. split; [done|]. eauto.
      * rewrite lookup_delete_ne by done. apply Hf; [done|]. intros ?. by apply Hq', Hsub.
    + intros id q. rewrite Hids, Hi, Hsub. tauto.
    + by rewrite Hem.
Qed.
End Loop.

Lemma total_bytes_Some m ps : (forall p, p ∈ ps -> exists s, string_at m p = Some s) ->
  exists n, total_bytes m ps = Some n.
Proof.
  unfold total_bytes. induction ps as [|p ps IH]; intros Hs; [by eexists|]. cbn [foldr].
  destruct IH as (n & ->); [intros q Hq; apply Hs; by right|].
  destruct (Hs p) as (s & ->); [by left|]. by eexists.
Qed.

Lemma sweep_strings_spec m it cw : intern_ok m it ->
  exists m' it', sweep_strings m it cw = Some (m', it') /\ intern_ok m' it' /\
    pool_white (spool it') = pool_white (spool it) /\
    (forall p, p ∉ objects (spool it) -> m' !! p = m !! p) /\
    (forall p h s, p ∈ objects (spool it) -> m !! p = Some (h, OString s) ->
       if keeps_string cw h s
       then p ∈ objects (spool it') /\ m' !! p = Some (swept (pinned h (OString s)), OString s)
       else (p ∉ objects (spool it')) /\ m' !! p = None) /\
    (forall p, p ∈ objects (spool it') -> p ∈ objects (spool it)) /\
    (forall id p, try_lookup it' id = Some p <-> try_lookup it id = Some p /\ p ∈ objects (spool it')).
Proof.
  intros Hok. unfold sweep_strings.
  assert (Hstr : forall p, p ∈ objects (spool it) -> exists s, string_at m p = Some s).
  { intros p (i & Hi)%(io_pool _ _ Hok)%elem_of_occs. by eapply (to_str _ _ (io_tab _ _ Hok)). }
  destruct (pin_empty_spec (slots it) m) as (m1 & -> & Hs1 & Hin & Hout).
  { intros p Hp. apply Hstr. by apply (io_pool _ _ Hok). }
  { by apply (table_occs_NoDup m), Hok. }
  pose proof (intern_ok_headers _ _ _ Hs1 Hok) as Hok1.
  destruct (sweep_tricolor_spec drop_string cw GcObjectKind.String (sweep_inv m1 it cw)
    (sweep_inv_perm m1 it cw)) with (a := it) (m := m1) (pl := spool it) as (it' & m' & d & -> & HI).
  { intros a m0 d p r HI. apply (si_addr _ _ _ _ _ _ _ HI). apply elem_of_app. right. by left. }
  { intros a m0 d p r HI. exact (sweep_inv_step m1 it cw a m0 d p r HI). }
  { apply Hok. }
  { split; rewrite ?app_nil_l; try apply Hok1.
    - split; try apply Hok1. 
    - done.
    - intros p Hp. by apply elem_of_nil in Hp.
    - done.
    - done.
    - done.
    - intros id p. split; [|tauto]. intros E. split; [done|].
      apply (io_ids _ _ Hok1) in E as (i & ls & [E _] & _). apply (io_pool _ _ Hok1), elem_of_occs. eauto.
    - done. }
  destruct HI as [Hc Hn Ha Hr Hd Ho Hs Hf Hi He]. rewrite app_nil_r in *. cbn [objects].
  destruct (total_bytes_Some m' d) as (n & ->).
  { intros p Hp. destruct (core_string m' it' d p Hc Hp) as (h & s & E). exists s. apply string_at_Some. eauto. }
  eexists m', _. split; [reflexivity|].
  split.
  { destruct Hc as [Ht Hu Hdd Hl Hids Hocc Hfree]. split; cbn; try done. }
  split; [done|]. cbn [spool objects]. split.
  { intros p Hp. rewrite Ho by done. apply Hout. by rewrite <- (io_pool _ _ Hok). }
  split; [|split; [done|done]].
  intros p h s Hp E. assert (E1 : m1 !! p = Some (pinned h (OString s), OString s)).
  { apply Hin; [by apply (io_pool _ _ Hok)|done]. }
  unfold keeps_string. destruct (decide (p ∈ d)) as [Hpd|Hpd].
  - destruct (Hd p Hpd) as (h' & o & E' & Es & Em). rewrite E1 in E'.
    assert (pinned h (OString s) = h' /\ o = OString s) as [-> ->] by (split; congruence). by rewrite Es.
  - destruct (Hf p Hp) as (En & h' & o & E' & Es); [done|]. rewrite E1 in E'.
    assert (pinned h (OString s) = h' /\ o = OString s) as [-> ->] by (split; congruence). by rewrite Es.
Qed.

(** The sweep of a well-formed interner terminates without panic and
    leaves a well-formed interner.  A string that is marked, of a live colour
    or empty keeps its id, its address and its bytes, and loses its mark;
    every other string is freed and its id is a hole for ever; no other
    object is touched. *)
Theorem sweep_keeps (m : Mem) (it : Interner) (cw : Z) (Hok : intern_ok m it) :
  exists m' it', sweep_strings m it cw = Some (m', it') /\ intern_ok m' it' /\ free_ids it' = [] /\
    (forall id p h s, try_lookup it id = Some p -> m !! p = Some (h, OString s) ->
       if keeps_string cw h s
       then try_lookup it' id = Some p /\ get_bytes m' it' id = Some (as_bytes s) /\
            exists h', m' !! p = Some (h', OString s) /\ marked h' = false
       else try_lookup it' id = None /\ m' !! p = None) /\
    (forall id p, try_lookup it' id = Some p -> try_lookup it id = Some p) /\
    (forall p, p ∉ objects (spool it) -> m' !! p = m !! p).
Proof.
  destruct (sweep_strings_spec m it cw Hok) as (m' & it' & E & Hok' & _ & Ho & Hs & _ & Hi).
  exists m', it'. split; [done|]. split; [done|]. split; [apply Hok'|].
  split; [|split; [intros id p E1; by apply Hi in E1 as [E1 _]|done]].
  intros id p h s El Em.
  assert (Hp : p ∈ objects (spool it)).
  { apply (io_ids _ _ Hok) in El as (i & ls & [E1 _] & _). apply (io_pool _ _ Hok), elem_of_occs. eauto. }
  specialize (Hs p h s Hp Em). destruct (keeps_string cw h s); destruct Hs as [Hp' Em'].
  - assert (El' : try_lookup it' id = Some p) by (by apply Hi). split; [done|]. split; [|by eexists].
    unfold get_bytes, lookup_str, lookup_ptr, string_at. by rewrite El', Em'.
  - split; [|done]. destruct (try_lookup it' id) as [q|] eqn:El'; [|done].
    apply Hi in El' as [Eq Hq]. congruence.
Qed.
End Sweep.

#[local] Instance demo_layout : Layout := {| type_size := fun _ => 56 |}.

Lemma sweep_keeps_witness :
  exists m it m' it', interner_new ∅ 0x2000 = Some (m, it) /\ sweep_strings m it 1 = Some (m', it') /\
    get_bytes m' it' (empty_sid it) = Some [].
Proof.
  destruct (interner_new_ok ∅ 0x2000 (lookup_empty (M:=gmap Z) 0x2000)
              ltac:(vm_compute; split; reflexivity)) as (m & it & En & Hok & _).
  destruct (sweep_keeps m it 1 Hok) as (m' & it' & Es & _ & _ & Hk & _).
  exists m, it, m', it'. split; [exact En|]. split; [exact Es|].
  vm_compute in En. injection En as <- <-.
  exact (proj1 (proj2 (Hk 0 0x2000 _ _ eq_refl eq_refl))).
Defined.
