(* ===== verification/Collector.v ===== *)
(** * runtime/gc.rs: the incremental collector

    The marker, the steps of the state machine, the barriers and the start of
    a cycle, over the memory of Heap.v.  [None] is a panic or the use of a
    dangling pointer.  A [Vec] used as a stack ([gc_gray], [gc_grayagain], the
    marker's [gray]) is a list whose head is the last element. *)

From Stdlib Require Import ZArith Lia Bool.
From stdpp Require Import base decidable numbers option gmap list.
From S2P Require Import Prelude Float64 Value Table TableGc Heap Intern.

(** ** Reading tables in the memory *)

Definition no_table : LuaTable := mkTable [] [] 0 0 0 0 None.

Definition mem_strings (m : Mem) : StrHeap.
Proof.
  refine {|
    str_sid := fun p => match string_at m p with Some s => uwrap 32 (sid s) | None => 0 end;
    str_bytes := fun p => match string_at m p with Some s => as_bytes s | None => [] end |}.
  intros p. destruct (string_at m p); [apply uwrap_range; lia|]. unfold urange. lia.
Defined.

Definition mem_view (m : Mem) : GcView := {|
  TableGc.is_marked := fun p => match m !! p with Some (h, _) => marked h | None => false end;
  TableGc.is_dead := fun p cw => match m !! p with Some (h, _) => hdr_is_dead h cw | None => false end;
  TableGc.is_finalized := fun p => match m !! p with Some (h, _) => hdr_is_finalized h | None => false end;
  TableGc.table_at := fun p => match table_at m p with Some t => t | None => no_table end;
|}.

(** The string keys [scan_str_key] compares can be read. *)
Definition key_readable (m : Mem) (nd : Node) : bool :=
  is_nil (val nd) ||
  match as_string (key nd) with
  | Some s => match string_at m s with Some _ => true | None => false end
  | None => true
  end.

(** [scan_str_key], of the table at [mt]. *)
Definition scan_key_at (m : Mem) (mt : Z) (name : list Z) : option (option LuaValue) :=
  let? t := table_at m mt in
  if forallb (key_readable m) (node t) then Some (@scan_str_key (mem_strings m) t name) else None.

(** [gc_traverse]: the values marked, and the weak mode. *)
Definition traverse_at (m : Mem) (t : LuaTable) : option (list LuaValue * Z) :=
  let? _ :=
    match metatable t with
    | None => Some tt
    | Some mt =>
        let? v := scan_key_at m mt MODE_NAME in
        match v ≫= as_string with
        | Some s => let? _ := string_at m s in Some tt
        | None => Some tt
        end
    end in
  Some (@gc_traverse (mem_strings m) (mem_view m) t).

(** ** State *)

Inductive GcState : Set := Pause | Propagate | Atomic | Sweep | Finalize.

#[global] Instance GcState_eq_dec : EqDecision GcState.
Proof. solve_decision. Defined.

Inductive Gray : Set := GTab (p : Z) | GFunc (p : Z) | GProto (p : Z) | GThread (p : Z) | GUserData (p : Z).

Inductive Finalizable : Set := FUData (p : Z) | FCLib (p : Z).

Definition GC_PAUSE : Z := 200.
Definition GC_THRESHOLD_MIN : Z := 64 * 1024.
Definition GC_STEP_SIZE : Z := 1024.
Definition GC_SWEEP_COST : Z := 400.
Definition GC_SWEEP_MAX : nat := 40.
(** [CTypeID::Clib as u32]. *)
Definition CTID_CLIB : Z := 25.

(** [pool k] is the pool of the objects of kind [k] ([heap.tables] is
    [pool Table], and so on); the strings' is in the interner. *)
Record GcHeap := mkHeap {
  mem : Mem;
  strings : Interner;
  pool : GcObjectKind.t -> Pool;
  gc_state : GcState;
  gc_gray : list Gray;
  gc_grayagain : list Gray;
  gc_weak : list (Z * Z);
  mmudata : list Finalizable;
  gc_sweep_pool : Z;
  gc_sweep_pos : nat;
  current_white : Z;
  total : Z;
  threshold : Z;
  table_extra : Z;
  debt : Z;
  stepmul : Z;
  estimate : Z;
}.

Definition with_mem (h : GcHeap) (m : Mem) : GcHeap :=
  mkHeap m (strings h) (pool h) (gc_state h) (gc_gray h) (gc_grayagain h) (gc_weak h) (mmudata h)
    (gc_sweep_pool h) (gc_sweep_pos h) (current_white h) (total h) (threshold h) (table_extra h)
    (debt h) (stepmul h) (estimate h).
Definition with_state (h : GcHeap) (s : GcState) : GcHeap :=
  mkHeap (mem h) (strings h) (pool h) s (gc_gray h) (gc_grayagain h) (gc_weak h) (mmudata h)
    (gc_sweep_pool h) (gc_sweep_pos h) (current_white h) (total h) (threshold h) (table_extra h)
    (debt h) (stepmul h) (estimate h).
Definition with_grays (h : GcHeap) (g ga : list Gray) (w : list (Z * Z)) : GcHeap :=
  mkHeap (mem h) (strings h) (pool h) (gc_state h) g ga w (mmudata h)
    (gc_sweep_pool h) (gc_sweep_pos h) (current_white h) (total h) (threshold h) (table_extra h)
    (debt h) (stepmul h) (estimate h).
Definition with_mmudata (h : GcHeap) (f : list Finalizable) : GcHeap :=
  mkHeap (mem h) (strings h) (pool h) (gc_state h) (gc_gray h) (gc_grayagain h) (gc_weak h) f
    (gc_sweep_pool h) (gc_sweep_pos h) (current_white h) (total h) (threshold h) (table_extra h)
    (debt h) (stepmul h) (estimate h).
Definition with_sweep (h : GcHeap) (p : Z) (pos : nat) : GcHeap :=
  mkHeap (mem h) (strings h) (pool h) (gc_state h) (gc_gray h) (gc_grayagain h) (gc_weak h) (mmudata h)
    p pos (current_white h) (total h) (threshold h) (table_extra h) (debt h) (stepmul h) (estimate h).
Definition with_pools (h : GcHeap) (s : Interner) (p : GcObjectKind.t -> Pool) (cw : Z) : GcHeap :=
  mkHeap (mem h) s p (gc_state h) (gc_gray h) (gc_grayagain h) (gc_weak h) (mmudata h)
    (gc_sweep_pool h) (gc_sweep_pos h) cw (total h) (threshold h) (table_extra h)
    (debt h) (stepmul h) (estimate h).
Definition with_pace (h : GcHeap) (total threshold table_extra debt estimate : Z) : GcHeap :=
  mkHeap (mem h) (strings h) (pool h) (gc_state h) (gc_gray h) (gc_grayagain h) (gc_weak h) (mmudata h)
    (gc_sweep_pool h) (gc_sweep_pos h) (current_white h) total threshold table_extra debt (stepmul h) estimate.

Definition set_pool (pl : GcObjectKind.t -> Pool) (k : GcObjectKind.t) (x : Pool) : GcObjectKind.t -> Pool :=
  fun k' => if decide (k' = k) then x else pl k'.

(** ** Marking *)

(** The marker: [again] is the heap's [gc_grayagain], which it reaches through
    the heap pointer. *)
Record Marker := mkMarker {
  mk_mem : Mem;
  gray : list Gray;
  again : list Gray;
  weak : list (Z * Z);
}.

Definition mk_with (mk : Marker) (m : Mem) (g : list Gray) : Marker := mkMarker m g (again mk) (weak mk).

(** [p.set_marked()]. *)
Definition mark_only (mk : Marker) (k : GcObjectKind.t) (p : Z) : option Marker :=
  let? m := ptr_set_marked (mk_mem mk) k p in Some (mk_with mk m (gray mk)).

(** [if !p.is_marked() { p.set_marked(); self.gray.push(g) }]. *)
Definition mark_gray (mk : Marker) (k : GcObjectKind.t) (p : Z) (g : Gray) : option Marker :=
  let? b := ptr_is_marked (mk_mem mk) k p in
  if (b : bool) then Some mk
  else let? m := ptr_set_marked (mk_mem mk) k p in Some (mk_with mk m (g :: gray mk)).

Definition mark_table (mk : Marker) (t : Z) : option Marker := mark_gray mk GcObjectKind.Table t (GTab t).
Definition mark_proto (mk : Marker) (p : Z) : option Marker := mark_gray mk GcObjectKind.Proto p (GProto p).

(** The chain of aliases of a cdata, one unit of fuel per object marked. *)
Fixpoint mark_cdata (fuel : nat) (m : Mem) (p : Z) : option Mem :=
  match fuel with
  | O => None
  | S fuel =>
      let? b := ptr_is_marked m GcObjectKind.CData p in
      if (b : bool) then Some m
      else
        let? m := ptr_set_marked m GcObjectKind.CData p in
        let? c := cdata_at m p in
        match base c with
        | Some q => mark_cdata fuel m q
        | None => Some m
        end
  end.

Definition mark_fuel (m : Mem) : nat := S (size m).

Definition mark_userdata (mk : Marker) (p : Z) : option Marker :=
  let? b := ptr_is_marked (mk_mem mk) GcObjectKind.UserData p in
  if (b : bool) then Some mk
  else
    let? mk := mark_only mk GcObjectKind.UserData p in
    let? u := userdata_at (mk_mem mk) p in
    match ud_metatable u with
    | Some mt => mark_table mk mt
    | None => Some mk
    end.

Definition mark_value (mk : Marker) (v : LuaValue) : option Marker :=
  let t := itype v in
  let on (p : option Z) (f : Z -> option Marker) := match p with Some p => f p | None => Some mk end in
  if t =? LJ_TSTR then on (as_string v) (fun p => mark_only mk GcObjectKind.String p)
  else if t =? LJ_TTAB then on (as_table v) (fun p => mark_gray mk GcObjectKind.Table p (GTab p))
  else if t =? LJ_TFUNC then on (as_func v) (fun p => mark_gray mk GcObjectKind.Func p (GFunc p))
  else if t =? LJ_TTHREAD then on (as_thread v) (fun p => mark_gray mk GcObjectKind.Thread p (GThread p))
  else if t =? LJ_TUDATA then on (as_userdata v) (mark_userdata mk)
  else if t =? LJ_TCDATA then
    on (as_cdata v) (fun p =>
      let? m := mark_cdata (mark_fuel (mk_mem mk)) (mk_mem mk) p in Some (mk_with mk m (gray mk)))
  else Some mk.

(** A loop over [l]. *)
Definition each {A} (f : Marker -> A -> option Marker) (l : list A) (mk : Marker) : option Marker :=
  foldl (fun acc x => let? mk := acc in f mk x) (Some mk) l.

Definition mark_thread (mk : Marker) (th : Z) : option Marker :=
  let? mk := mark_only mk GcObjectKind.Thread th in
  Some (mk_with mk (mk_mem mk) (GThread th :: gray mk)).

Definition mark_upval (mk : Marker) (uv : Z) : option Marker :=
  let? b := ptr_is_marked (mk_mem mk) GcObjectKind.Upval uv in
  if (b : bool) then Some mk
  else
    let? mk := mark_only mk GcObjectKind.Upval uv in
    let? u := upval_at (mk_mem mk) uv in
    let? v := uv_get (mk_mem mk) u in
    mark_value mk v.

(** [self.strings.try_lookup(sid)], marked if it is there. *)
Definition mark_sid (it : Interner) (mk : Marker) (id : Z) : option Marker :=
  match try_lookup it id with
  | Some p => mark_only mk GcObjectKind.String p
  | None => Some mk
  end.

Definition mark_kgc (it : Interner) (mk : Marker) (k : KGc) : option Marker :=
  match k with
  | KStr id => mark_sid it mk id
  | KProtoRef p => mark_proto mk p
  | KTable t => let? ' (vs, _) := traverse_at (mk_mem mk) t in each mark_value vs mk
  | KTableRef t => mark_table mk t
  | KProto | KCData => Some mk
  end.

Definition collect_weak (mk : Marker) (t mode : Z) : Marker :=
  if negb (mode =? 0) && negb (existsb (fun '(p, _) => p =? t) (weak mk))
  then mkMarker (mk_mem mk) (gray mk) (again mk) (weak mk ++ [(t, mode)])
  else mk.

(** The stale slots of a thread, cleared in the atomic phase. *)
Definition clear_stale (l : LuaState) : LuaState :=
  let from := Nat.max (top l) (frame_top l) in
  mkState (take from (stack l) ++ replicate (length (stack l) - from) NIL) (frame_top l) (top l)
    (openuv l) (errval l) (hook l) (call_cl l).

Definition scan_thread (atomic : bool) (mk : Marker) (th : Z) : option Marker :=
  let? l := thread_at (mk_mem mk) th in
  let mark_to := Nat.max (top l) (frame_top l) in
  if decide (mark_to <= length (stack l))%nat then
    let? mk := each mark_value (take mark_to (stack l)) mk in
    let? mk := mark_value mk (errval l) in
    let? mk := mark_value mk (hook l) in
    let? mk := each mark_upval (openuv l) mk in
    let? mk := match call_cl l with Some cl => mark_only mk GcObjectKind.Func cl | None => Some mk end in
    let? m := if atomic then obj_set (mk_mem mk) th (OThread (clear_stale l)) else Some (mk_mem mk) in
    let? m := header_mut m GcObjectKind.Thread th make_gray in
    Some (mkMarker m (gray mk) (GThread th :: again mk) (weak mk))
  else None.

(** The arm of a popped gray object. *)
Definition scan (it : Interner) (atomic : bool) (mk : Marker) (g : Gray) : option Marker :=
  match g with
  | GTab t =>
      let? tb := table_at (mk_mem mk) t in
      let? ' (vs, mode) := traverse_at (mk_mem mk) tb in
      let? mk := each mark_value vs mk in
      Some (collect_weak mk t mode)
  | GFunc f =>
      let? fn := func_at (mk_mem mk) f in
      match fn with
      | FLua proto env upvals =>
          let? mk := mark_table mk env in
          let? mk := mark_proto mk proto in
          each mark_upval upvals mk
      | FC env upvals =>
          let? mk := mark_table mk env in
          each mark_value upvals mk
      end
  | GProto p =>
      let? pt := proto_at (mk_mem mk) p in
      let? mk := match source pt with Some id => mark_sid it mk id | None => Some mk end in
      each (mark_kgc it) (kgc pt) mk
  | GThread th => scan_thread atomic mk th
  | GUserData _ => Some mk
  end.

(** One unit of fuel per object popped. *)
Fixpoint propagate (fuel : nat) (it : Interner) (atomic : bool) (mk : Marker) : option Marker :=
  match fuel with
  | O => None
  | S fuel =>
      match gray mk with
      | [] => Some mk
      | g :: gs =>
          let? mk := scan it atomic (mk_with mk (mk_mem mk) gs) g in
          propagate fuel it atomic mk
      end
  end.

Definition propagate_fuel (mk : Marker) : nat := S (length (gray mk) + size (mk_mem mk)).

(** [propagate_step] marks the object again, as a barrier may have made it
    gray. *)
Definition remark (mk : Marker) (g : Gray) : option Marker :=
  match g with
  | GTab p => mark_only mk GcObjectKind.Table p
  | GFunc p => mark_only mk GcObjectKind.Func p
  | GProto p => mark_only mk GcObjectKind.Proto p
  | GThread p => mark_only mk GcObjectKind.Thread p
  | GUserData _ => Some mk
  end.

Fixpoint propagate_step (work : nat) (it : Interner) (mk : Marker) : option (Marker * bool) :=
  match work with
  | O => Some (mk, bool_decide (gray mk = []))
  | S work =>
      match gray mk with
      | [] => Some (mk, true)
      | g :: gs =>
          let? mk := remark (mk_with mk (mk_mem mk) gs) g in
          let? mk := scan it false mk g in
          propagate_step work it mk
      end
  end.

(** ** Barriers *)

(** What a value refers to. *)
Definition value_ref (v : LuaValue) : option (GcObjectKind.t * Z) :=
  let t := itype v in
  if t =? LJ_TSTR then (fun p => (GcObjectKind.String, p)) <$> as_string v
  else if t =? LJ_TTAB then (fun p => (GcObjectKind.Table, p)) <$> as_table v
  else if t =? LJ_TFUNC then (fun p => (GcObjectKind.Func, p)) <$> as_func v
  else if t =? LJ_TTHREAD then (fun p => (GcObjectKind.Thread, p)) <$> as_thread v
  else if t =? LJ_TUDATA then (fun p => (GcObjectKind.UserData, p)) <$> as_userdata v
  else if t =? LJ_TCDATA then (fun p => (GcObjectKind.CData, p)) <$> as_cdata v
  else None.

(** The list the barriers push to. *)
Definition push_gray (h : GcHeap) (g : Gray) : GcHeap :=
  if decide (gc_state h = Propagate) then with_grays h (g :: gc_gray h) (gc_grayagain h) (gc_weak h)
  else with_grays h (gc_gray h) (g :: gc_grayagain h) (gc_weak h).

Definition barrier_active (h : GcHeap) : bool :=
  negb (bool_decide (gc_state h = Pause) || bool_decide (gc_state h = Finalize)).

Definition barrier_mark (h : GcHeap) (k : GcObjectKind.t) (p : Z) (g : Gray) : option GcHeap :=
  let? b := ptr_is_marked (mem h) k p in
  if (b : bool) then Some h
  else let? m := ptr_set_marked (mem h) k p in Some (push_gray (with_mem h m) g).

Definition barrier_fwd (h : GcHeap) (v : LuaValue) : option GcHeap :=
  if negb (barrier_active h) then Some h
  else
    let t := itype v in
    let on (p : option Z) (f : Z -> option GcHeap) := match p with Some p => f p | None => Some h end in
    if t =? LJ_TSTR then
      on (as_string v) (fun p =>
        let? m := ptr_set_marked (mem h) GcObjectKind.String p in Some (with_mem h m))
    else if t =? LJ_TTAB then on (as_table v) (fun p => barrier_mark h GcObjectKind.Table p (GTab p))
    else if t =? LJ_TFUNC then on (as_func v) (fun p => barrier_mark h GcObjectKind.Func p (GFunc p))
    else if t =? LJ_TTHREAD then on (as_thread v) (fun p => barrier_mark h GcObjectKind.Thread p (GThread p))
    else if t =? LJ_TUDATA then
      on (as_userdata v) (fun p =>
        let? b := ptr_is_marked (mem h) GcObjectKind.UserData p in
        if (b : bool) then Some h
        else
          let? m := ptr_set_marked (mem h) GcObjectKind.UserData p in
          let? u := userdata_at m p in
          match ud_metatable u with
          | Some mt => barrier_mark (with_mem h m) GcObjectKind.Table mt (GTab mt)
          | None => Some (with_mem h m)
          end)
    else Some h.

Definition barrier_back (h : GcHeap) (t : Z) : option GcHeap :=
  if negb (barrier_active h) then Some h
  else
    let? hd := header_at (mem h) GcObjectKind.Table t in
    if is_black hd then
      let? m := header_mut (mem h) GcObjectKind.Table t make_gray in
      Some (push_gray (with_mem h m) (GTab t))
    else Some h.

(** ** The atomic phase *)

Definition GC_NAME : list Z := [95; 95; 103; 99].

Definition has_gc_meta (m : Mem) (mt : option Z) : option bool :=
  match mt with
  | None => Some false
  | Some mt => let? v := scan_key_at m mt GC_NAME in Some (match v with Some _ => true | None => false end)
  end.

Definition separate (k : GcObjectKind.t) (wants : Mem -> Z -> option bool) (f : Z -> Finalizable) :
    list Z -> Mem -> option (Mem * list Finalizable) :=
  fix go ps m :=
    match ps with
    | [] => Some (m, [])
    | p :: ps =>
        let? h := header_at m k p in
        let? w := if negb (marked h) && negb (hdr_is_finalized h) then wants m p else Some false in
        let? m :=
          if (w : bool) then header_mut m k p (fun h => set_finalized (make_undead h)) else Some m in
        let? ' (m, out) := go ps m in
        Some (m, if (w : bool) then f p :: out else out)
    end.

Definition separate_finalizable (h : GcHeap) : option (Mem * list Finalizable) :=
  let? ' (m, us) :=
    separate GcObjectKind.UserData
      (fun m p => let? u := userdata_at m p in has_gc_meta m (ud_metatable u)) FUData
      (objects (pool h GcObjectKind.UserData)) (mem h) in
  let? ' (m, cs) :=
    separate GcObjectKind.CData
      (fun m p => let? c := cdata_at m p in Some (ctypeid c =? CTID_CLIB)) FCLib
      (objects (pool h GcObjectKind.CData)) m in
  Some (m, us ++ cs).

Definition finalizable_metatable (m : Mem) (f : Finalizable) : option (option Z) :=
  match f with
  | FUData p => let? u := userdata_at m p in Some (ud_metatable u)
  | FCLib _ => Some None
  end.

(** The entries [clear_weak_entries] looks at can be read. *)
Definition val_readable (m : Mem) (v : LuaValue) : bool :=
  match value_ref v with
  | Some (k, p) => match header_at m k p with Some _ => true | None => false end
  | None => true
  end.

Definition entries_readable (m : Mem) (t : LuaTable) : bool :=
  forallb (val_readable m) (array t) &&
  forallb (fun nd => is_nil (val nd) || (val_readable m (key nd) && val_readable m (val nd))) (node t).

Definition clear_table (cw : Z) (m : Mem) (t mode : Z) : option Mem :=
  let? tb := table_at m t in
  if entries_readable m tb then
    let '(tb, strs) := @clear_weak_entries (mem_view m) tb mode cw in
    let? m := obj_set m t (OTable tb) in
    foldl (fun acc p => let? m := acc in ptr_set_marked m GcObjectKind.String p) (Some m) strs
  else None.

Definition clear_weak (h : GcHeap) : option GcHeap :=
  let? m :=
    foldl (fun acc '(t, mode) => let? m := acc in clear_table (current_white h) m t mode)
      (Some (mem h)) (gc_weak h) in
  Some (with_grays (with_mem h m) (gc_gray h) (gc_grayagain h) []).

Definition atomic_propagate (h : GcHeap) : option GcHeap :=
  let mk := mkMarker (mem h) (gc_gray h ++ gc_grayagain h) [] [] in
  let? mk :=
    if decide (gray mk = []) then Some mk else propagate (propagate_fuel mk) (strings h) true mk in
  Some (with_grays (with_mem h (mk_mem mk)) [] [] (gc_weak h ++ weak mk)).

Definition atomic_finalize (h : GcHeap) : option GcHeap :=
  let? ' (m, mmu) := separate_finalizable h in
  let h := with_mem h m in
  if decide (mmu = []) then Some h
  else
    let? mk :=
      each (fun mk f =>
              let? mt := finalizable_metatable (mk_mem mk) f in
              match mt with Some mt => mark_table mk mt | None => Some mk end)
        mmu (mkMarker m [] [] []) in
    let? mk := propagate (propagate_fuel mk) (strings h) true mk in
    Some (with_mmudata (with_grays (with_mem h (mk_mem mk)) [] [] (gc_weak h ++ weak mk)) (mmudata h ++ mmu)).

Definition gc_atomic (h : GcHeap) : option GcHeap :=
  let? h := atomic_propagate h in
  let? h := atomic_finalize h in
  let? h := clear_weak h in
  let h := with_pace h (total h) (threshold h) (table_extra h) (debt h) (total h + str_total (strings h)) in
  Some (with_sweep (with_state h Sweep) 0 0).

(** ** The sweep *)

Definition no_free (_ : unit) (m : Mem) (_ : Z) : option (unit * Mem) := Some (tt, m).

(** A dying thread closes its open upvalues. *)
Definition close_openuv (_ : unit) (m : Mem) (th : Z) : option (unit * Mem) :=
  let? l := thread_at m th in
  let? m := foldl (fun acc uv => let? m := acc in uv_close m uv) (Some m) (openuv l) in
  Some (tt, m).

Definition sweep_pool (h : GcHeap) (k : GcObjectKind.t) (on_free : unit -> Mem -> Z -> option (unit * Mem)) :
    option (GcHeap * bool) :=
  let? ' (_, m, pl, (d, pos)) :=
    sweep_limited on_free tt (mem h) (pool h k) (current_white h) GC_SWEEP_MAX (gc_sweep_pos h) in
  Some (with_sweep (with_pools (with_mem h m) (strings h) (set_pool (pool h) k pl) (current_white h))
          (gc_sweep_pool h) pos, d).

Section Collector.
(** The sizes the allocator and the containers report. *)
Context `{Layout} (obj_size : GcObj -> Z).

Definition sweep_one_pool (h : GcHeap) : option (GcHeap * bool) :=
  let step (r : option (GcHeap * bool)) :=
    let? ' (h, d) := r in
    Some (if (d : bool) then with_sweep h (gc_sweep_pool h + 1) 0 else h, false) in
  match gc_sweep_pool h with
  | 0 =>
      step (let? ' (m, s) := sweep_strings (mem h) (strings h) (current_white h) in
            Some (with_pools (with_mem h m) s (pool h) (current_white h), true))
  | 1 => step (sweep_pool h GcObjectKind.Table no_free)
  | 2 => step (sweep_pool h GcObjectKind.Func no_free)
  | 3 => step (sweep_pool h GcObjectKind.Thread close_openuv)
  | 4 => step (sweep_pool h GcObjectKind.Upval no_free)
  | 5 => step (sweep_pool h GcObjectKind.Proto no_free)
  | 6 => step (sweep_pool h GcObjectKind.UserData no_free)
  | _ => Some (h, true)
  end.

Definition pool_size (m : Mem) (pl : Pool) : option Z :=
  foldr (fun p acc => let? n := acc in let? ' (_, o) := m !! p in Some (obj_size o + n)) (Some 0) (objects pl).

Definition total_live (h : GcHeap) : option Z :=
  let? t := pool_size (mem h) (pool h GcObjectKind.Table) in
  let? f := pool_size (mem h) (pool h GcObjectKind.Func) in
  let? p := pool_size (mem h) (pool h GcObjectKind.Proto) in
  let? th := pool_size (mem h) (pool h GcObjectKind.Thread) in
  let? cd := pool_size (mem h) (pool h GcObjectKind.CData) in
  Some (t + f + Heap.live (pool h GcObjectKind.Upval) * type_size GcObjectKind.Upval + p + th + cd +
        Heap.live (pool h GcObjectKind.UserData) * type_size GcObjectKind.UserData).

Definition gc_sweep (h : GcHeap) : option (GcHeap * (Z * bool)) :=
  let? ' (h, done) := sweep_one_pool h in
  if (done : bool) then
    let? total := total_live h in
    let est := total + str_total (strings h) in
    if decide (mmudata h = []) then
      Some (with_state (with_pace h total (Z.max (est * GC_PAUSE / 100) GC_THRESHOLD_MIN) 0 0 est) Pause,
            (0, true))
    else Some (with_state (with_pace h total (threshold h) (table_extra h) (debt h) est) Finalize, (0, false))
  else Some (h, (GC_SWEEP_COST, false)).

Definition gc_propagate (h : GcHeap) : option GcHeap :=
  let? ' (mk, done) :=
    propagate_step 32 (strings h) (mkMarker (mem h) (gc_gray h) (gc_grayagain h) []) in
  let h := with_grays (with_mem h (mk_mem mk)) (gray mk) (again mk) (gc_weak h ++ weak mk) in
  Some (if (done : bool) && bool_decide (gray mk = []) then with_state h Atomic else h).

Definition gc_onestep (h : GcHeap) : option (GcHeap * (Z * bool)) :=
  match gc_state h with
  | Pause => Some (h, (0, true))
  | Propagate => let? h := gc_propagate h in Some (h, (GC_STEP_SIZE, false))
  | Atomic => let? h := gc_atomic h in Some (h, (GC_STEP_SIZE, false))
  | Sweep => gc_sweep h
  | Finalize => Some (h, (0, true))
  end.

(** The loop of [gc_step]; [None] as budget is a full cycle. *)
Fixpoint step_loop (fuel : nat) (h : GcHeap) (budget : option Z) : option (GcHeap * bool) :=
  match fuel with
  | O => None
  | S fuel =>
      let? ' (h, (cost, done)) := gc_onestep h in
      if (done : bool) then Some (h, true)
      else
        match budget with
        | None => step_loop fuel h None
        | Some b =>
            let b := Z.max 0 (b - cost) in
            if b =? 0 then Some (h, false) else step_loop fuel h (Some b)
        end
  end.

Definition USIZE_MAX : Z := 2 ^ 64 - 1.

Definition gc_step (fuel : nat) (h : GcHeap) (size : Z) : option (GcHeap * bool) :=
  let full := USIZE_MAX / 2 <=? size in
  let d := if threshold h <? total h then debt h + (total h - threshold h) else debt h in
  let h :=
    if full then with_pace h (total h) (threshold h) (table_extra h) d (estimate h)
    else with_pace h (total h) (threshold h) 0 (d + table_extra h) (estimate h) in
  let lim := Z.max 1 (GC_STEP_SIZE / 100) * stepmul h in
  let? ' (h, done) := step_loop fuel h (if full then None else Some lim) in
  if (done : bool) then Some (h, true)
  else if debt h <? GC_STEP_SIZE then
    Some (with_pace h (total h) (total h + GC_STEP_SIZE) (table_extra h) (debt h) (estimate h), false)
  else Some (with_pace h (total h) (total h) (table_extra h) (debt h - GC_STEP_SIZE) (estimate h), false).

(** ** The start of a cycle *)

(** The roots: callbacks are flagged freed or not; a trace is its start
    prototype and its constants. *)
Record GlobalState := mkGlobal {
  heap : GcHeap;
  globals : Z;
  registry : Z;
  basemt : list (option Z);
  mmname : list LuaValue;
  ctype_mts : list (option Z);
  io_file_cache : list (option LuaValue);
  main_thread : Z;
  cur_l : option Z;
  callbacks : list (bool * LuaValue);
  callback_thread : option Z;
  traces : list (Z * list LuaValue);
  rec_trace : option (Z * list LuaValue);
}.

Definition with_heap (g : GlobalState) (h : GcHeap) : GlobalState :=
  mkGlobal h (globals g) (registry g) (basemt g) (mmname g) (ctype_mts g) (io_file_cache g) (main_thread g)
    (cur_l g) (callbacks g) (callback_thread g) (traces g) (rec_trace g).

(** [iter().flatten()]. *)
Definition each_some {A} (f : Marker -> A -> option Marker) : list (option A) -> Marker -> option Marker :=
  each (fun mk o => match o with Some x => f mk x | None => Some mk end).

Definition mark_trace (mk : Marker) (t : Z * list LuaValue) : option Marker :=
  let? mk := mark_proto mk t.1 in each mark_value t.2 mk.

Definition mark_roots (g : GlobalState) (mk : Marker) : option Marker :=
  let? mk := mark_table mk (globals g) in
  let? mk := mark_table mk (registry g) in
  let? mk := each_some mark_table (basemt g) mk in
  let? mk := each mark_value (mmname g) mk in
  let? mk := each_some mark_table (ctype_mts g) mk in
  let? mk := each_some mark_value (io_file_cache g) mk in
  let? mk := mark_thread mk (main_thread g) in
  let? mk := each_some mark_thread [cur_l g] mk in
  let? mk := each (fun mk '(freed, v) => if (freed : bool) then Some mk else mark_value mk v) (callbacks g) mk in
  let? mk := each_some mark_thread [callback_thread g] mk in
  let? mk := each mark_trace (traces g) mk in
  each_some mark_trace [rec_trace g] mk.

(** The pools whose marks are reset. *)
Definition reset_pools (h : GcHeap) (ks : list GcObjectKind.t) (m : Mem) : option Mem :=
  foldl (fun acc k => let? m := acc in reset_marked m k (objects (pool h k))) (Some m) ks.

Definition start_gc_cycle (g : GlobalState) : option GlobalState :=
  let h := heap g in
  let cw := Z.lxor (current_white h) 1 in
  let it := strings h in
  let it := mkInterner (slots it) (nuse it) (ndead it) (by_id it) (free_ids it)
              (update_current_white (spool it) cw) (str_total it) (empty_sid it) in
  let h := with_pools h it (fun k => update_current_white (pool h k) cw) cw in
  let? m :=
    reset_pools h [GcObjectKind.Table; GcObjectKind.Func; GcObjectKind.Thread; GcObjectKind.Upval;
                   GcObjectKind.Proto; GcObjectKind.UserData; GcObjectKind.CData] (mem h) in
  let? mk := mark_roots g (mkMarker m [] (gc_grayagain h) []) in
  Some (with_heap g (with_state (with_grays (with_mem h (mk_mem mk)) (gray mk) (again mk) (gc_weak h)) Propagate)).

(** [while !gc_step(..) {}]. *)
Fixpoint run_cycle (fuel : nat) (h : GcHeap) : option GcHeap :=
  match fuel with
  | O => None
  | S fuel =>
      let? ' (h, done) := gc_step fuel h USIZE_MAX in
      if (done : bool) then Some h else run_cycle fuel h
  end.

Definition full_gc (fuel : nat) (g : GlobalState) : option GlobalState :=
  if decide (gc_state (heap g) = Finalize) then Some g
  else
    let? h := run_cycle fuel (heap g) in
    let? g := start_gc_cycle (with_heap g h) in
    let? h := run_cycle fuel (heap g) in
    Some (with_heap g (with_grays h [] [] (gc_weak h))).

(** ** Allocation *)

(** [GcHeap::alloc_*]: a step of the collector when the threshold is passed,
    then the object. [k] is not [String]. *)
Definition alloc (fuel : nat) (h : GcHeap) (k : GcObjectKind.t) (p : Z) (o : GcObj) : option GcHeap :=
  let size := obj_size o in
  let? h := if threshold h <? total h + size then let? ' (h, _) := gc_step fuel h size in Some h else Some h in
  let h := with_pace h (total h + size) (threshold h) (table_extra h) (debt h) (estimate h) in
  let? ' (m, pl) := pool_alloc (type_size k) (mem h) (pool h k) p o in
  Some (with_pools (with_mem h m) (strings h) (set_pool (pool h) k pl) (current_white h)).

Definition should_collect (h : GcHeap) : bool :=
  threshold h <=? total h + str_total (strings h) + table_extra h.

End Collector.
