(* ===== verification/CollectorRefs.v ===== *)
(** * References and dangling pointers

    The references of an object, heaps without dangling pointers, and memories
    that differ only in headers and in the stale stack slots of threads. *)

From Stdlib Require Import ZArith Lia Bool.
From stdpp Require Import base decidable numbers option gmap list.
From S2P Require Import Prelude Float64 Value Table TableGc Heap HeapSpec Intern Collector.

(** ** References *)

Abbreviation Ref := (GcObjectKind.t * Z)%type.

Definition vrefs (vs : list LuaValue) : list Ref := omap value_ref vs.

Definition mt_refs (mt : option Z) : list Ref :=
  match mt with Some mt => [(GcObjectKind.Table, mt)] | None => [] end.

(** The references of a table that a traversal with weak mode [mode] marks;
    with mode 0, all of them. *)
Definition node_values (mode : Z) (nd : Node) : list LuaValue :=
  if is_nil (val nd) then []
  else (if Z.land mode WEAKKEY =? 0 then [key nd] else []) ++
       (if Z.land mode WEAKVAL =? 0 then [val nd] else []).

Definition table_values (mode : Z) (t : LuaTable) : list LuaValue :=
  (if Z.land mode WEAKVAL =? 0 then array t else []) ++ mjoin (node_values mode <$> node t).

Definition table_refs (mode : Z) (t : LuaTable) : list Ref :=
  mt_refs (metatable t) ++ vrefs (table_values mode t).

Definition sid_refs (it : Interner) (id : Z) : list Ref :=
  match try_lookup it id with Some p => [(GcObjectKind.String, p)] | None => [] end.

Definition kgc_refs (it : Interner) (k : KGc) : list Ref :=
  match k with
  | KStr id => sid_refs it id
  | KProtoRef p => [(GcObjectKind.Proto, p)]
  | KTable t => table_refs 0 t
  | KTableRef t => [(GcObjectKind.Table, t)]
  | KProto | KCData => []
  end.

Definition mark_to (l : LuaState) : nat := Nat.max (top l) (frame_top l).

Definition thread_values (l : LuaState) : list LuaValue :=
  take (mark_to l) (stack l) ++ [errval l; hook l].

Definition obj_refs (m : Mem) (it : Interner) (o : GcObj) : list Ref :=
  match o with
  | OString _ => []
  | OTable t => table_refs 0 t
  | OFunc (FLua p env uvs) =>
      (GcObjectKind.Table, env) :: (GcObjectKind.Proto, p) :: (pair GcObjectKind.Upval <$> uvs)
  | OFunc (FC env vs) => (GcObjectKind.Table, env) :: vrefs vs
  | OUpval u => match uv_get m u with Some v => vrefs [v] | None => [] end
  | OThread l => vrefs (thread_values l) ++ (pair GcObjectKind.Upval <$> openuv l)
  | OProto p =>
      match source p with Some id => sid_refs it id | None => [] end ++ (kgc p ≫= kgc_refs it)
  | OCData c => match base c with Some b => [(GcObjectKind.CData, b)] | None => [] end
  | OUserData u => mt_refs (ud_metatable u)
  end.

(** ** Heaps without dangling pointers *)

Definition present (m : Mem) (r : Ref) : Prop := exists h o, m !! r.2 = Some (h, o) /\ obj_kind o = r.1.

Definition tab_shape (t : LuaTable) : Prop :=
  has_hpart t = false -> Forall (fun nd => is_nil (val nd) = true) (node t).

(** What the collector relies on in the object at [p]: an open upvalue is in
    the list of the thread whose stack it points into, below what is marked;
    the closure of a suspended call is on its thread's stack; template tables
    have no metatable. *)
Definition obj_ok (m : Mem) (p : Z) (o : GcObj) : Prop :=
  match o with
  | OTable t => tab_shape t
  | OUpval u =>
      match uv_v u with
      | Dangling => False
      | OnStack th i => exists h l, m !! th = Some (h, OThread l) /\ p ∈ openuv l /\
          (i < mark_to l <= length (stack l))%nat
      | InTv => True
      end
  | OThread l =>
      (mark_to l <= length (stack l))%nat /\
      (forall c, call_cl l = Some c -> (GcObjectKind.Func, c) ∈ vrefs (thread_values l)) /\
      (forall q, q ∈ openuv l -> exists h u, m !! q = Some (h, OUpval u) /\
         (uv_v u = InTv \/ exists i, uv_v u = OnStack p i))
  | OProto pt => forall t, KTable t ∈ kgc pt -> tab_shape t /\ metatable t = None
  | _ => True
  end.

Definition heap_ok (m : Mem) (it : Interner) : Prop :=
  forall p h o, m !! p = Some (h, o) ->
    0x1000 < p < ADDR_MAX /\ obj_ok m p o /\ Forall (present m) (obj_refs m it o).

(** ** Memories that differ in headers and stale stack slots *)

Definition obj_sim (o o' : GcObj) : Prop :=
  o' = o \/ exists l, o = OThread l /\ o' = OThread (clear_stale l).

Definition sim (m m' : Mem) : Prop :=
  forall p, match m !! p, m' !! p with
            | Some (_, o), Some (_, o') => obj_sim o o'
            | None, None => True
            | _, _ => False
            end.

Lemma clear_stale_idem l : clear_stale (clear_stale l) = clear_stale l.
Proof.
  unfold clear_stale. cbn [stack top frame_top openuv errval hook call_cl]. f_equal.
  rewrite length_app, length_take, length_replicate.
  destruct (decide (Nat.max (top l) (frame_top l) <= length (stack l))%nat).
  - rewrite take_app_le by (rewrite length_take; lia). rewrite take_take, Nat.min_id. do 2 f_equal. lia.
  - rewrite take_ge by (rewrite length_app, length_take, length_replicate; lia).
    rewrite <- app_nil_r. f_equal. replace (_ - _)%nat with 0%nat by lia. done.
Qed.

Lemma obj_sim_trans o1 o2 o3 : obj_sim o1 o2 -> obj_sim o2 o3 -> obj_sim o1 o3.
Proof.
  intros [->|(l & -> & ->)] H; [done|]. right. exists l. split; [done|].
  destruct H as [->|(l' & [= <-] & ->)]; [done|]. by rewrite clear_stale_idem.
Qed.

Lemma obj_sim_kind o o' : obj_sim o o' -> obj_kind o' = obj_kind o.
Proof. by intros [->|(l & -> & ->)]. Qed.

Lemma sim_refl m : sim m m.
Proof. intros p. destruct (m !! p) as [[h o]|]; [by left|done]. Qed.

Lemma sim_trans m1 m2 m3 : sim m1 m2 -> sim m2 m3 -> sim m1 m3.
Proof.
  intros H1 H2 p. specialize (H1 p). specialize (H2 p).
  destruct (m1 !! p) as [[]|], (m2 !! p) as [[]|], (m3 !! p) as [[]|]; try done. by eapply obj_sim_trans.
Qed.

Lemma sim_insert m p h o h' o' : m !! p = Some (h, o) -> obj_sim o o' -> sim m (<[p := (h', o')]> m).
Proof.
  intros E Ho q. destruct (decide (p = q)) as [<-|].
  - by rewrite lookup_insert_eq, E.
  - rewrite lookup_insert_ne by done. apply sim_refl.
Qed.

Lemma sim_lookup m m' p h o : sim m m' -> m !! p = Some (h, o) ->
  exists h' o', m' !! p = Some (h', o') /\ obj_sim o o'.
Proof. intros Hs E. specialize (Hs p). rewrite E in Hs. destruct (m' !! p) as [[h' o']|]; [eauto|done]. Qed.

Lemma sim_lookup_back m m' p h' o' : sim m m' -> m' !! p = Some (h', o') ->
  exists h o, m !! p = Some (h, o) /\ obj_sim o o'.
Proof. intros Hs E. specialize (Hs p). rewrite E in Hs. destruct (m !! p) as [[h o]|]; [eauto|done]. Qed.

Lemma sim_present m m' r : sim m m' -> present m r -> present m' r.
Proof.
  intros Hs (h & o & E & Ek). destruct (sim_lookup _ _ _ _ _ Hs E) as (h' & o' & E' & Ho).
  exists h', o'. by rewrite (obj_sim_kind _ _ Ho).
Qed.

Lemma sim_present_back m m' r : sim m m' -> present m' r -> present m r.
Proof.
  intros Hs (h & o & E & Ek). destruct (sim_lookup_back _ _ _ _ _ Hs E) as (h' & o' & E' & Ho).
  exists h', o'. by rewrite <- (obj_sim_kind _ _ Ho).
Qed.

(** Reading an object that is not a thread. *)
Ltac sim_read Hs p :=
  specialize (Hs p); repeat case_match; try done;
  destruct Hs as [?|(? & ? & ?)]; congruence.

Lemma sim_table m m' p : sim m m' -> Heap.table_at m' p = Heap.table_at m p.
Proof. intros Hs. unfold Heap.table_at. sim_read Hs p. Qed.
Lemma sim_string m m' p : sim m m' -> string_at m' p = string_at m p.
Proof. intros Hs. unfold string_at. sim_read Hs p. Qed.
Lemma sim_func m m' p : sim m m' -> func_at m' p = func_at m p.
Proof. intros Hs. unfold func_at. sim_read Hs p. Qed.
Lemma sim_proto m m' p : sim m m' -> proto_at m' p = proto_at m p.
Proof. intros Hs. unfold proto_at. sim_read Hs p. Qed.

Lemma thread_values_stale l : (mark_to l <= length (stack l))%nat ->
  thread_values (clear_stale l) = thread_values l.
Proof.
  intros Hl. unfold thread_values, mark_to, clear_stale. cbn [stack top frame_top errval hook].
  rewrite take_app_le by (rewrite length_take; unfold mark_to in Hl; lia). by rewrite take_take, Nat.min_id.
Qed.

Lemma length_stale l : length (stack (clear_stale l)) = length (stack l).
Proof.
  unfold clear_stale. cbn [stack]. rewrite length_app, length_take, length_replicate. lia.
Qed.

Lemma stack_stale l i : (i < mark_to l)%nat -> stack (clear_stale l) !! i = stack l !! i.
Proof.
  intros Hi. unfold clear_stale, mark_to in *. cbn [stack].
  destruct (decide (i < length (stack l))%nat).
  - rewrite lookup_app_l by (rewrite length_take; lia). by apply lookup_take_lt.
  - rewrite take_ge by lia. rewrite lookup_app_r by lia.
    replace (length (stack l) - _)%nat with 0%nat by lia. cbn. rewrite !lookup_ge_None_2 by (cbn; lia). done.
Qed.

(** An upvalue of a well-formed heap can be read. *)
Lemma uv_get_ok m p u : obj_ok m p (OUpval u) -> exists v, uv_get m u = Some v.
Proof.
  cbn. unfold uv_get, thread_at. destruct (uv_v u) as [|th i|]; [done| |eauto].
  intros (h & l & -> & _ & Hi). apply lookup_lt_is_Some_2. lia.
Qed.

Lemma sim_uv_get m m' p u : sim m m' -> obj_ok m p (OUpval u) -> uv_get m' u = uv_get m u.
Proof.
  intros Hs. cbn. unfold uv_get, thread_at. destruct (uv_v u) as [|th i|]; [done| |done].
  intros (h & l & E & _ & Hi). rewrite E. destruct (sim_lookup _ _ _ _ _ Hs E) as (h' & o' & -> & [->|(l' & [= <-] & ->)]);
    [done|]. apply stack_stale. lia.
Qed.

Lemma sim_refs m m' it p o o' : sim m m' -> obj_ok m p o -> obj_sim o o' ->
  obj_refs m' it o' = obj_refs m it o.
Proof.
  intros Hs Hok [->|(l & -> & ->)].
  - destruct o as [| |[]|u| | | |]; try done. cbn [obj_refs]. by rewrite (sim_uv_get _ _ _ _ Hs Hok).
  - cbn [obj_refs]. rewrite thread_values_stale by apply Hok. done.
Qed.

Lemma sim_obj_ok m m' p o o' : sim m m' -> obj_ok m p o -> obj_sim o o' -> obj_ok m' p o'.
Proof.
  intros Hs Hok Ho.
  assert (Hok' : obj_ok m' p o).
  { destruct o as [|t|f|u|l|pt|c|u]; try done; cbn in *.
    - destruct (uv_v u) as [|th i|]; try done. destruct Hok as (h & l & E & Hi & Hl).
      destruct (sim_lookup _ _ _ _ _ Hs E) as (h' & o1 & E' & [->|(l' & [= <-] & ->)]); [by exists h', l|].
      exists h', (clear_stale l). rewrite length_stale. done.
    - destruct Hok as (Hl & Hc & Hu). do 2 (split; [done|]). intros q Hq.
      destruct (Hu q Hq) as (h & u & E & Hv).
      destruct (sim_lookup _ _ _ _ _ Hs E) as (h' & o1 & E' & [->|(l' & [= <-] & ->)]). eauto. }
  destruct Ho as [->|(l & -> & ->)]; [done|]. destruct Hok as (Hl & Hc & _), Hok' as (_ & _ & Hu).
  split; [by rewrite length_stale|]. split; [|exact Hu].
  intros c Ec. rewrite thread_values_stale by done. by apply Hc.
Qed.

Lemma sim_heap_ok m m' it : sim m m' -> heap_ok m it -> heap_ok m' it.
Proof.
  intros Hs Hh p h' o' E'. destruct (sim_lookup_back _ _ _ _ _ Hs E') as (h & o & E & Ho).
  destruct (Hh p h o E) as (Ha & Hok & Hr). split; [done|]. split; [by eapply sim_obj_ok|].
  rewrite (sim_refs _ _ _ _ _ _ Hs Hok Ho). eapply Forall_impl; [exact Hr|]. intros r. by apply sim_present.
Qed.

(** ** Traversing a table *)

Lemma sim_key_readable m m' nd : sim m m' -> key_readable m' nd = key_readable m nd.
Proof.
  intros Hs. unfold key_readable. destruct (is_nil (val nd)); [done|]. destruct (as_string (key nd)); [|done].
  by rewrite (sim_string _ _ _ Hs).
Qed.

Lemma scan_nodes_ext (SH SH' : StrHeap) ns name : (forall p, @str_bytes SH' p = @str_bytes SH p) ->
  @scan_nodes SH' ns name = @scan_nodes SH ns name.
Proof.
  intros He. induction ns as [|nd ns IH]; [done|]. cbn [scan_nodes].
  destruct (is_nil (val nd)); [done|]. destruct (as_string (key nd)) as [p|]; [|done]. by rewrite He, IH.
Qed.

Lemma scan_str_key_ext (SH SH' : StrHeap) t name : (forall p, @str_bytes SH' p = @str_bytes SH p) ->
  @scan_str_key SH' t name = @scan_str_key SH t name.
Proof. intros He. unfold scan_str_key. destruct (negb (has_hpart t)); [done|]. by apply scan_nodes_ext. Qed.

Lemma mem_strings_bytes m m' p : sim m m' -> @str_bytes (mem_strings m') p = @str_bytes (mem_strings m) p.
Proof. intros Hs. cbn. by rewrite (sim_string _ _ _ Hs). Qed.

Lemma sim_scan_key m m' mt name : sim m m' -> scan_key_at m' mt name = scan_key_at m mt name.
Proof.
  intros Hs. unfold scan_key_at. rewrite (sim_table _ _ _ Hs). destruct (Heap.table_at m mt) as [t|]; [|done].
  assert (forallb (key_readable m') (node t) = forallb (key_readable m) (node t)) as ->.
  { induction (node t) as [|nd ns IH]; [done|]. cbn [forallb]. by rewrite (sim_key_readable _ _ _ Hs), IH. }
  rewrite (scan_str_key_ext (mem_strings m) (mem_strings m')); [done|]. intros. by apply mem_strings_bytes.
Qed.

Lemma sim_traverse m m' t : sim m m' -> traverse_at m' t = traverse_at m t.
Proof.
  intros Hs.
  assert (Hw : @weak_mode (mem_strings m') (mem_view m') t = @weak_mode (mem_strings m) (mem_view m) t).
  { unfold weak_mode. destruct (metatable t) as [mt|]; [|done]. cbn [TableGc.table_at mem_view].
    rewrite (sim_table _ _ _ Hs).
    rewrite (scan_str_key_ext (mem_strings m) (mem_strings m')) by (intros; by apply mem_strings_bytes).
    destruct (scan_str_key _ _) as [v|]; [|done]. destruct (as_string v); [|done].
    by rewrite (mem_strings_bytes _ _ _ Hs). }
  unfold traverse_at, gc_traverse. rewrite Hw. destruct (metatable t) as [mt|]; [|done].
  rewrite (sim_scan_key _ _ _ _ Hs). destruct (scan_key_at m mt MODE_NAME) as [v|]; [|done].
  destruct (v ≫= as_string); [|done]. by rewrite (sim_string _ _ _ Hs).
Qed.

Lemma vrefs_app vs vs' : vrefs (vs ++ vs') = vrefs vs ++ vrefs vs'.
Proof. apply omap_app. Qed.

Lemma vrefs_cons v vs : vrefs (v :: vs) = vrefs [v] ++ vrefs vs.
Proof. apply (vrefs_app [v]). Qed.

Lemma value_ref_table p : 0x1000 < p < ADDR_MAX -> value_ref (table p) = Some (GcObjectKind.Table, p).
Proof.
  intros Hp. assert (Ho : ptr_ok p) by (unfold ptr_ok; change ADDR_MAX with (2 ^ 47) in Hp; lia).
  destruct (tag_make_facts TagTab TagTab p Ho) as (_ & E & _). cbn [tag_read tag_make] in E.
  assert (itype (table p) = LJ_TTAB) as Et by (apply itype_gcv; unfold ptr_ok, urange in *; lia).
  unfold value_ref. rewrite Et. change (as_table (table p) = Some p) in E. by rewrite E.
Qed.

Lemma as_string_ref v p : as_string v = Some p -> value_ref v = Some (GcObjectKind.String, p).
Proof.
  intros E. unfold value_ref. assert ((itype v =? LJ_TSTR) = true) as -> by
    (unfold as_string, is_string in E; by destruct (itype v =? LJ_TSTR)). by rewrite E.
Qed.

Lemma live_values mode ns :
  mjoin (node_values mode <$> ns) =
  mjoin ((fun nd => (if Z.land mode WEAKKEY =? 0 then [key nd] else []) ++
                    (if Z.land mode WEAKVAL =? 0 then [val nd] else []))
           <$> filter (fun nd => is_nil (val nd) = false) ns).
Proof.
  induction ns as [|nd ns IH]; [done|]. rewrite filter_cons, fmap_cons.
  change (mjoin (node_values mode nd :: (node_values mode <$> ns)))
    with (node_values mode nd ++ mjoin (node_values mode <$> ns)).
  rewrite IH. unfold node_values. destruct (is_nil (val nd)); [by rewrite decide_False|by rewrite decide_True].
Qed.

Lemma dead_values mode ns : Forall (fun nd => is_nil (val nd) = true) ns -> mjoin (node_values mode <$> ns) = [].
Proof. induction 1 as [|nd ns Hn _ IH]; [done|]. cbn. unfold node_values at 1. by rewrite Hn. Qed.

Lemma Forall_vrefs_in (P : Ref -> Prop) vs v r : Forall P (vrefs vs) -> v ∈ vs -> value_ref v = Some r -> P r.
Proof. rewrite Forall_forall. intros HP Hv E. apply HP, list_elem_of_omap. eauto. Qed.

Lemma node_refs_in (P : Ref -> Prop) t nd v : Forall P (table_refs 0 t) -> nd ∈ node t ->
  is_nil (val nd) = false -> v = key nd \/ v = val nd -> forall r, value_ref v = Some r -> P r.
Proof.
  intros HP Hn Hv Hk r. apply Forall_app in HP as [_ HP]. apply (Forall_vrefs_in _ _ _ _ HP).
  unfold table_values. apply elem_of_app. right. apply list_elem_of_join.
  exists (node_values 0 nd). split; [|apply list_elem_of_fmap; eauto].
  unfold node_values. rewrite Hv. cbn. destruct Hk as [-> | ->]; set_solver.
Qed.

(** Reading a string key of a table whose references are present. *)
Lemma scan_key_ok m mt t name : Heap.table_at m mt = Some t -> Forall (present m) (table_refs 0 t) ->
  exists v : option LuaValue, scan_key_at m mt name = Some v /\
    forall s, v ≫= as_string = Some s -> exists str, string_at m s = Some str.
Proof.
  intros Et Hr. unfold scan_key_at. rewrite Et.
  assert (Hstr : forall v s nd, nd ∈ node t -> is_nil (val nd) = false -> v = key nd \/ v = val nd ->
            as_string v = Some s -> exists str, string_at m s = Some str).
  { intros v s nd Hn Hv Hk Es%as_string_ref.
    destruct (node_refs_in _ _ _ _ Hr Hn Hv Hk _ Es) as (h & o & E & Ek). cbn in E, Ek.
    destruct o; try done. eexists. apply string_at_Some. eauto. }
  assert (forallb (key_readable m) (node t) = true) as ->.
  { apply forallb_forall. intros nd Hn%list_elem_of_In. unfold key_readable.
    destruct (is_nil (val nd)) eqn:Hv; [done|]. destruct (as_string (key nd)) as [s|] eqn:Es; [|done].
    by destruct (Hstr _ _ nd Hn Hv (or_introl eq_refl) Es) as (str & ->). }
  eexists. split; [done|]. unfold scan_str_key. destruct (negb (has_hpart t)); [done|].
  clear Hr Et. induction (node t) as [|nd ns IH]; [done|]. cbn [scan_nodes].
  specialize (IH ltac:(intros v s nd' ?; apply Hstr; by right)).
  destruct (is_nil (val nd)) eqn:Hv; [done|]. destruct (as_string (key nd)) as [p|]; [|done].
  destruct (decide _); [|done]. cbn. intros s Es. eapply (Hstr _ s nd); [by left|done|by right|done].
Qed.

(** A traversal succeeds, and marks the references its mode says. *)
Lemma traverse_ok m it t : heap_ok m it -> tab_shape t -> Forall (present m) (table_refs 0 t) ->
  exists vs mode, traverse_at m t = Some (vs, mode) /\ vrefs vs = table_refs mode t /\
    (metatable t = None -> mode = 0).
Proof.
  intros Hh Hs Hr. unfold traverse_at.
  assert (Hmt : match metatable t with
          | None => Some tt
          | Some mt =>
              let? v := scan_key_at m mt MODE_NAME in
              match v ≫= as_string with
              | Some s => let? _ := string_at m s in Some tt
              | None => Some tt
              end
          end = Some tt).
  { destruct (metatable t) as [mt|] eqn:Emt; [|done]. unfold table_refs in Hr. rewrite Emt in Hr.
    apply Forall_app in Hr as [(h & o & E & Ek)%Forall_inv _]. cbn in E, Ek. destruct o as [|t'| | | | | |]; try done.
    destruct (scan_key_ok m mt t' MODE_NAME) as (v & -> & Hv).
    { unfold Heap.table_at. by rewrite E. }
    { apply (Hh _ _ _ E). }
    destruct (v ≫= as_string) as [s|]; [|done]. by destruct (Hv s eq_refl) as (str & ->). }
  rewrite Hmt. exists (@gc_traverse (mem_strings m) (mem_view m) t).1, (@gc_traverse (mem_strings m) (mem_view m) t).2.
  split; [by destruct (gc_traverse t)|]. clear Hmt.
  assert (Em : vrefs (match metatable t with Some mt => [table mt] | None => [] end) = mt_refs (metatable t)).
  { destruct (metatable t) as [mt|] eqn:Emt; [|done]. unfold table_refs in Hr. rewrite Emt in Hr.
    apply Forall_app in Hr as [(h & o & E & _)%Forall_inv _]. unfold vrefs. cbn [omap list_omap].
    rewrite value_ref_table; [done|]. apply (Hh _ _ _ E). }
  assert (Hn : forall mode, (if has_hpart t then
        mjoin ((fun nd => (if Z.land mode WEAKKEY =? 0 then [key nd] else []) ++
                    (if Z.land mode WEAKVAL =? 0 then [val nd] else []))
           <$> filter (fun nd => is_nil (val nd) = false) (node t)) else []) =
      mjoin (node_values mode <$> node t)).
  { intros mode. destruct (has_hpart t) eqn:Eh; [by rewrite live_values|].
    by rewrite dead_values by (by apply Hs). }
  unfold gc_traverse. split.
  - destruct (negb (_ =? 0)) eqn:Ew; cbn [fst snd]; rewrite vrefs_app, Em; unfold table_refs; f_equal;
      unfold table_values; [by rewrite <- Hn|]. by rewrite <- Hn.
  - intros Emt. unfold weak_mode. by rewrite Emt.
Qed.

(** What a weak traversal skips is still a value of the table. *)
Lemma table_values_sub mode t v : v ∈ table_values mode t -> v ∈ table_values 0 t.
Proof.
  unfold table_values. rewrite !elem_of_app, !list_elem_of_join. intros [Hv|(vs & Hv & Hvs)].
  - left. change (Z.land 0 WEAKVAL =? 0) with true. by destruct (_ =? 0); [|apply elem_of_nil in Hv].
  - right. apply list_elem_of_fmap in Hvs as (nd & -> & Hn). exists (node_values 0 nd).
    split; [|apply list_elem_of_fmap; eauto]. unfold node_values in *. destruct (is_nil (val nd)); [done|].
    change (Z.land 0 WEAKVAL =? 0) with true. change (Z.land 0 WEAKKEY =? 0) with true.
    repeat destruct (_ =? 0); rewrite ?elem_of_app, ?elem_of_nil in *; tauto.
Qed.
