(* ===== verification/CollectorMark.v ===== *)
(** * What marking does

    The contract of every marking function: on a heap without dangling
    pointers it does not fail, it only sets marks, and everything it marks is
    pending or has its own references marked. *)

From Stdlib Require Import ZArith Lia Bool.
From stdpp Require Import base decidable numbers option gmap list.
From S2P Require Import Prelude Float64 Value Table TableGc Heap HeapSpec Intern Collector CollectorRefs.

(** ** Marked and pending objects *)

Definition gray_ref (g : Gray) : Ref :=
  match g with
  | GTab p => (GcObjectKind.Table, p) | GFunc p => (GcObjectKind.Func, p)
  | GProto p => (GcObjectKind.Proto, p) | GThread p => (GcObjectKind.Thread, p)
  | GUserData p => (GcObjectKind.UserData, p)
  end.

(** Userdata are never pushed. *)
Definition gray_ok (m : Mem) (g : Gray) : Prop :=
  present m (gray_ref g) /\ (gray_ref g).1 <> GcObjectKind.UserData.

(** The sweep keeps what is marked, and all C data. *)
Definition kept (m : Mem) (r : Ref) : Prop :=
  exists h o, m !! r.2 = Some (h, o) /\ obj_kind o = r.1 /\ (marked h = true \/ r.1 = GcObjectKind.CData).

(** The references of the object [o] at [p] are marked: of a table in the weak
    list [w], only those of a recorded mode; the value of an open upvalue may
    instead be left to the marked thread it belongs to. *)
Definition scanned (m : Mem) (it : Interner) (w : list (Z * Z)) (p : Z) (o : GcObj) : Prop :=
  match o with
  | OTable t => exists mode, (mode = 0 \/ (p, mode) ∈ w) /\ Forall (kept m) (table_refs mode t)
  | OUpval u =>
      Forall (kept m) (obj_refs m it o) \/
      exists th i, uv_v u = OnStack th i /\ kept m (GcObjectKind.Thread, th)
  | _ => Forall (kept m) (obj_refs m it o)
  end.

(** Objects that are marked without being pushed. *)
Definition immediate (k : GcObjectKind.t) : Prop :=
  k <> GcObjectKind.Table /\ k <> GcObjectKind.Thread.

Lemma kept_present m r : kept m r -> present m r.
Proof. intros (h & o & E & Ek & _). by exists h, o. Qed.

(** More marks on the same objects. *)
Definition more_marks (m m' : Mem) : Prop :=
  forall p h o h' o', m !! p = Some (h, o) -> m' !! p = Some (h', o') -> marked h = true -> marked h' = true.

Lemma more_marks_refl m : more_marks m m.
Proof. intros p h o h' o' E E'. congruence. Qed.

Lemma ref_kept_mono m m' r : sim m m' -> more_marks m m' -> kept m r -> kept m' r.
Proof.
  intros Hs Hm (h & o & E & Ek & Hk). destruct (sim_lookup _ _ _ _ _ Hs E) as (h' & o' & E' & Ho).
  exists h', o'. rewrite (obj_sim_kind _ _ Ho). split; [done|]. split; [done|].
  destruct Hk as [Hk|]; [left; by eapply Hm|by right].
Qed.

Lemma Forall_kept_mono m m' rs : sim m m' -> more_marks m m' -> Forall (kept m) rs -> Forall (kept m') rs.
Proof. intros Hs Hm Hf. eapply Forall_impl; [exact Hf|]. intros r. by apply ref_kept_mono. Qed.

Lemma scanned_mono m m' it w w' p o o' : sim m m' -> more_marks m m' -> (forall x, x ∈ w -> x ∈ w') ->
  obj_ok m p o -> obj_sim o o' -> scanned m it w p o -> scanned m' it w' p o'.
Proof.
  intros Hs Hm Hw Hok Ho. pose proof (sim_refs _ _ it _ _ _ Hs Hok Ho) as Hr.
  assert (Hf : Forall (kept m) (obj_refs m it o) -> Forall (kept m') (obj_refs m' it o'))
    by (rewrite Hr; by apply Forall_kept_mono).
  destruct Ho as [->|(l & -> & ->)]; [|done].
  destruct o as [| t | | u | | | |]; try done; cbn [scanned].
  - intros (mode & Hmode & Hk). exists mode. split; [|by eapply Forall_kept_mono].
    destruct Hmode; [by left|right; auto].
  - intros [Hk|(th & i & Eu & Hk)]; [left; auto|right]. exists th, i. split; [done|]. by eapply ref_kept_mono.
Qed.

(** ** Counting what is left to mark *)

Definition unmarked (m : Mem) : nat := size (filter (fun x => marked x.2.1 = false) m).
Definition pot (mk : Marker) : nat := length (gray mk) + unmarked (mk_mem mk).

Lemma unmarked_insert m p h o h' o' : m !! p = Some (h, o) -> marked h' = true ->
  unmarked (<[p := (h', o')]> m) = (unmarked m - if marked h then 0 else 1)%nat.
Proof.
  intros E Hm. unfold unmarked. rewrite map_filter_insert_False by (cbn; by rewrite Hm).
  rewrite map_filter_delete. destruct (marked h) eqn:Eh.
  - rewrite delete_id; [lia|]. apply map_lookup_filter_None. right. intros x. rewrite E. intros [= <-]. cbn. by rewrite Eh.
  - rewrite map_size_delete_Some; [lia|]. exists (h, o). by apply map_lookup_filter_Some.
Qed.

Lemma unmarked_pos m p h o : m !! p = Some (h, o) -> marked h = false -> (0 < unmarked m)%nat.
Proof.
  intros E Hm. unfold unmarked. apply Nat.neq_0_lt_0. rewrite map_size_ne_0_lookup.
  exists p. exists (h, o). by apply map_lookup_filter_Some.
Qed.

Lemma unmarked_le m : (unmarked m <= size m)%nat.
Proof. unfold unmarked. apply map_subseteq_size, map_filter_subseteq. Qed.

(** ** The step contract *)

Section Mark.
Context (it : Interner).

Record mstep (mk mk' : Marker) : Prop := {
  ms_sim : sim (mk_mem mk) (mk_mem mk');
  ms_marks : more_marks (mk_mem mk) (mk_mem mk');
  ms_black : forall p h o h' o', mk_mem mk !! p = Some (h, o) -> mk_mem mk' !! p = Some (h', o') ->
    is_black h = true -> obj_kind o = GcObjectKind.Table -> is_black h' = true;
  ms_same : forall p h o h' o', mk_mem mk !! p = Some (h, o) -> mk_mem mk' !! p = Some (h', o') ->
    marked h' = false -> obj_kind o <> GcObjectKind.Thread -> h' = h;
  ms_gray : exists g, gray mk' = g ++ gray mk /\ Forall (gray_ok (mk_mem mk)) g;
  ms_again : exists a, again mk' = a ++ again mk /\ Forall (gray_ok (mk_mem mk)) a;
  ms_weak : exists w, weak mk' = weak mk ++ w;
  ms_new : forall p h o h' o', mk_mem mk !! p = Some (h, o) -> mk_mem mk' !! p = Some (h', o') ->
    marked h = false -> marked h' = true ->
    (obj_kind o = GcObjectKind.Table -> is_black h' = true) /\
    ((obj_kind o, p) ∈ gray_ref <$> gray mk' \/
     immediate (obj_kind o) /\ scanned (mk_mem mk') it (weak mk') p o');
}.

Lemma mstep_refl mk : mstep mk mk.
Proof.
  split.
  - apply sim_refl.
  - intros p h o h' o' E E'. congruence.
  - intros p h o h' o' E E'. congruence.
  - intros p h o h' o' E E'. congruence.
  - by exists [].
  - by exists [].
  - exists []. by rewrite app_nil_r.
  - intros p h o h' o' E E'. congruence.
Qed.

Lemma gray_ok_sim m m' g : sim m m' -> Forall (gray_ok m) g -> Forall (gray_ok m') g.
Proof. intros Hs Hf. eapply Forall_impl; [exact Hf|]. intros x [? ?]. split; [by eapply sim_present|done]. Qed.

Lemma gray_ok_back m m' g : sim m m' -> Forall (gray_ok m') g -> Forall (gray_ok m) g.
Proof. intros Hs Hf. eapply Forall_impl; [exact Hf|]. intros x [? ?]. split; [by eapply sim_present_back|done]. Qed.

Lemma mstep_trans mk1 mk2 mk3 : heap_ok (mk_mem mk1) it -> mstep mk1 mk2 -> mstep mk2 mk3 -> mstep mk1 mk3.
Proof.
  intros Hh H1 H2. pose proof (ms_sim _ _ H1) as S1. pose proof (ms_sim _ _ H2) as S2.
  assert (Hh2 : heap_ok (mk_mem mk2) it) by (by eapply sim_heap_ok).
  split.
  - by eapply sim_trans.
  - intros p h o h' o' E E' Hm. destruct (sim_lookup _ _ _ _ _ S1 E) as (h2 & o2 & E2 & _).
    eapply (ms_marks _ _ H2); [done..|]. by eapply (ms_marks _ _ H1).
  - intros p h o h' o' E E' Hb Hk. destruct (sim_lookup _ _ _ _ _ S1 E) as (h2 & o2 & E2 & Ho).
    eapply (ms_black _ _ H2); [done..| |by rewrite (obj_sim_kind _ _ Ho)]. by eapply (ms_black _ _ H1).
  - intros p h o h' o' E E' Hm Hk. destruct (sim_lookup _ _ _ _ _ S1 E) as (h2 & o2 & E2 & Ho).
    assert (h' = h2) as -> by (eapply (ms_same _ _ H2); [done..|by rewrite (obj_sim_kind _ _ Ho)]).
    by eapply (ms_same _ _ H1).
  - destruct (ms_gray _ _ H1) as (g1 & E1 & P1), (ms_gray _ _ H2) as (g2 & E2 & P2).
    exists (g2 ++ g1). rewrite E2, E1, app_assoc. split; [done|].
    apply Forall_app. split; [by eapply gray_ok_back|done].
  - destruct (ms_again _ _ H1) as (g1 & E1 & P1), (ms_again _ _ H2) as (g2 & E2 & P2).
    exists (g2 ++ g1). rewrite E2, E1, app_assoc. split; [done|].
    apply Forall_app. split; [by eapply gray_ok_back|done].
  - destruct (ms_weak _ _ H1) as (w1 & E1), (ms_weak _ _ H2) as (w2 & E2).
    exists (w1 ++ w2). by rewrite E2, E1, app_assoc.
  - intros p h o h' o' E E' Hm Hm'. destruct (sim_lookup _ _ _ _ _ S1 E) as (h2 & o2 & E2 & Ho).
    rewrite <- (obj_sim_kind _ _ Ho).
    destruct (marked h2) eqn:Hm2; [|by eapply (ms_new _ _ H2)].
    destruct (ms_new _ _ H1 _ _ _ _ _ E E2 Hm Hm2) as [Hb Hn]. rewrite <- (obj_sim_kind _ _ Ho) in Hb, Hn.
    destruct (ms_gray _ _ H2) as (g2 & Eg & _), (ms_weak _ _ H2) as (w2 & Ew).
    split; [intros Hk; exact (ms_black _ _ H2 _ _ _ _ _ E2 E' (Hb Hk) Hk)|].
    destruct Hn as [Hn|[Hi Hn]].
    + left. rewrite Eg, fmap_app. apply elem_of_app. by right.
    + right. split; [done|]. specialize (S2 p) as Ho2. rewrite E2, E' in Ho2.
      eapply scanned_mono; [exact S2|apply H2| | |exact Ho2|exact Hn].
      { intros x. rewrite Ew, elem_of_app. by left. }
      { by destruct (Hh2 _ _ _ E2) as (_ & Hok & _). }
Qed.

Definition keeps (mk mk' : Marker) : Prop := again mk' = again mk /\ weak mk' = weak mk.

Lemma keeps_trans mk1 mk2 mk3 : keeps mk1 mk2 -> keeps mk2 mk3 -> keeps mk1 mk3.
Proof. intros [? ?] [? ?]. split; congruence. Qed.

(** [f] marks the references [rs] and leaves the other lists; with [b] it also pushes no more than it
    marks. *)
Definition marks (b : bool) (f : Marker -> option Marker) (rs : list Ref) : Prop :=
  forall mk, heap_ok (mk_mem mk) it -> Forall (present (mk_mem mk)) rs ->
    exists mk', f mk = Some mk' /\ mstep mk mk' /\ (b = true -> (pot mk' <= pot mk)%nat) /\
      keeps mk mk' /\ Forall (kept (mk_mem mk')) rs.

Lemma mstep_present mk mk' rs : mstep mk mk' -> Forall (present (mk_mem mk)) rs -> Forall (present (mk_mem mk')) rs.
Proof. intros Hs Hf. eapply Forall_impl; [exact Hf|]. intros r. apply sim_present, Hs. Qed.

Lemma mstep_kept mk mk' rs : mstep mk mk' -> Forall (kept (mk_mem mk)) rs -> Forall (kept (mk_mem mk')) rs.
Proof. intros Hs. apply Forall_kept_mono; apply Hs. Qed.

Lemma mstep_heap_ok mk mk' : mstep mk mk' -> heap_ok (mk_mem mk) it -> heap_ok (mk_mem mk') it.
Proof. intros Hs. apply sim_heap_ok, Hs. Qed.

Lemma marks_seq b f g rs rs' : marks b f rs -> marks b g rs' ->
  marks b (fun mk => let? mk := f mk in g mk) (rs ++ rs').
Proof.
  intros Hf Hg mk Hh Hp. apply Forall_app in Hp as [Hp Hp'].
  destruct (Hf mk Hh Hp) as (mk1 & -> & S1 & P1 & L1 & K1).
  destruct (Hg mk1) as (mk2 & -> & S2 & P2 & L2 & K2); [by eapply mstep_heap_ok|by eapply mstep_present|].
  exists mk2. split; [done|]. split; [by eapply mstep_trans|]. split.
  - intros Hb. specialize (P1 Hb). specialize (P2 Hb). lia.
  - split; [by eapply keeps_trans|]. apply Forall_app. split; [by eapply mstep_kept|done].
Qed.

Lemma marks_skip b : marks b Some [].
Proof.
  intros mk Hh _. exists mk. split; [done|]. split; [apply mstep_refl|].
  split; [done|]. split; [done|constructor].
Qed.

Lemma marks_ext b f g rs : (forall mk, f mk = g mk) -> marks b f rs -> marks b g rs.
Proof. intros He Hf mk. rewrite <- He. apply Hf. Qed.

Lemma each_cons {A} (f : Marker -> A -> option Marker) x l mk :
  each f (x :: l) mk = (let? mk := f mk x in each f l mk).
Proof.
  unfold each. cbn [foldl]. destruct (f mk x) as [mk'|]; [done|]. induction l as [|y l IH]; [done|exact IH].
Qed.

Lemma marks_each b {A} (f : Marker -> A -> option Marker) (R : A -> list Ref) l :
  (forall x, x ∈ l -> marks b (fun mk => f mk x) (R x)) -> marks b (each f l) (l ≫= R).
Proof.
  induction l as [|x l IH]; intros Hl; [apply marks_skip|].
  apply (marks_ext _ (fun mk => let? mk := f mk x in each f l mk)); [intros; by rewrite each_cons|].
  apply marks_seq; [apply Hl; by left|]. apply IH. intros y Hy. apply Hl. by right.
Qed.

(** ** One mark *)

Definition mark_header (h : GcHeader) : GcHeader := nw2black (mark_set h true).

Lemma mark_header_marked h : marked (mark_header h) = true.
Proof. done. Qed.

Lemma mark_header_black h : is_black (mark_header h) = true.
Proof.
  unfold is_black, has_bit, mark_header, nw2black, wb, mark_set. cbn [bits].
  apply negb_true_iff, Z.eqb_neq. intros E. apply (f_equal (fun x => Z.testbit x 5)) in E.
  rewrite Z.land_spec, Z.lor_spec in E. change (Z.testbit BIT_BLACK 5) with true in E.
  rewrite orb_true_r in E. done.
Qed.

Lemma ptr_set_marked_ok m k p h o : m !! p = Some (h, o) -> obj_kind o = k ->
  ptr_set_marked m k p = Some (<[p := (mark_header h, o)]> m).
Proof. intros E Ek. unfold ptr_set_marked. by rewrite (header_mut_Some _ _ _ _ _ _ E Ek). Qed.

Lemma ptr_is_marked_ok m k p h o : m !! p = Some (h, o) -> obj_kind o = k ->
  ptr_is_marked m k p = Some (marked h).
Proof.
  intros E Ek. unfold ptr_is_marked. assert (header_at m k p = Some h) as -> by (apply header_at_Some; eauto). done.
Qed.

(** Setting the mark of [p], pushing [g], then the step to [mk2], in which [p]
    is pending or scanned. *)
Lemma mark_then mk p h o g mk2 :
  heap_ok (mk_mem mk) it -> mk_mem mk !! p = Some (h, o) ->
  (g = [] \/ marked h = false /\ exists x, g = [x] /\ gray_ref x = (obj_kind o, p) /\
     obj_kind o <> GcObjectKind.UserData) ->
  let mk1 := mk_with mk (<[p := (mark_header h, o)]> (mk_mem mk)) (g ++ gray mk) in
  mstep mk1 mk2 ->
  (marked h = false ->
     (obj_kind o, p) ∈ gray_ref <$> gray mk2 \/
     immediate (obj_kind o) /\ scanned (mk_mem mk2) it (weak mk2) p o) ->
  mstep mk mk2 /\ ((pot mk2 <= pot mk1)%nat -> (pot mk2 <= pot mk)%nat) /\ kept (mk_mem mk2) (obj_kind o, p).
Proof.
  intros Hh E Hg mk1 H2 Hend.
  assert (E1 : mk_mem mk1 !! p = Some (mark_header h, o)) by (cbn; by rewrite lookup_insert_eq).
  assert (S1 : sim (mk_mem mk) (mk_mem mk1)) by (eapply sim_insert; [done|by left]).
  pose proof (ms_sim _ _ H2) as S2.
  assert (Hother : forall q, q <> p -> mk_mem mk1 !! q = mk_mem mk !! q)
    by (intros q Hq; cbn; by rewrite lookup_insert_ne by done).
  split; [|split].
  - split.
    + by eapply sim_trans.
    + intros q hq oq h' o' Eq E' Hm. destruct (decide (q = p)) as [->|Hne].
      * eapply (ms_marks _ _ H2); [exact E1|done|done].
      * rewrite <- (Hother q Hne) in Eq. by eapply (ms_marks _ _ H2).
    + intros q hq oq h' o' Eq E' Hb Hk. destruct (decide (q = p)) as [->|Hne].
      * assert (oq = o) as -> by congruence. eapply (ms_black _ _ H2); [exact E1|done|apply mark_header_black|done].
      * rewrite <- (Hother q Hne) in Eq. by eapply (ms_black _ _ H2).
    + intros q hq oq h' o' Eq E' Hm Hk. destruct (decide (q = p)) as [->|Hne].
      * exfalso. pose proof (ms_marks _ _ H2 _ _ _ _ _ E1 E' (mark_header_marked h)). congruence.
      * rewrite <- (Hother q Hne) in Eq. by eapply (ms_same _ _ H2).
    + destruct (ms_gray _ _ H2) as (g2 & Eg & Pg). exists (g2 ++ g). rewrite Eg. cbn [mk1 gray mk_with].
      rewrite app_assoc. split; [done|]. apply Forall_app. split; [by eapply gray_ok_back|].
      destruct Hg as [->|(_ & x & -> & Ex & Hx)]; [constructor|]. constructor; [|constructor].
      unfold gray_ok. rewrite Ex. split; [by exists h, o|done].
    + destruct (ms_again _ _ H2) as (a & Ea & Pa). exists a. split; [exact Ea|by eapply gray_ok_back].
    + destruct (ms_weak _ _ H2) as (w & Ew). by exists w.
    + intros q hq oq h' o' Eq E' Hm Hm'. destruct (decide (q = p)) as [->|Hne].
      * rewrite E in Eq. injection Eq as <- <-. split.
        { intros Hk. eapply (ms_black _ _ H2); [exact E1|done|apply mark_header_black|done]. }
        destruct (Hend Hm) as [?|[Hi Hs]]; [by left|right]. split; [done|].
        specialize (S2 p). rewrite E1, E' in S2. destruct S2 as [->|(l & -> & ->)]; [done|]. by destruct Hi.
      * rewrite <- (Hother q Hne) in Eq. by eapply (ms_new _ _ H2).
  - intros Hp. enough (pot mk1 <= pot mk)%nat by lia. unfold pot. cbn [mk1 gray mk_mem mk_with].
    rewrite (unmarked_insert _ _ _ _ _ _ E) by apply mark_header_marked. rewrite length_app.
    destruct Hg as [->|(Hm & x & -> & _)]; cbn [length]; [destruct (marked h); lia|].
    pose proof (unmarked_pos _ _ _ _ E Hm). rewrite Hm. lia.
  - destruct (sim_lookup _ _ _ _ _ S2 E1) as (h2 & o2 & E2 & Ho). exists h2, o2. cbn [fst snd].
    split; [done|]. split; [by rewrite (obj_sim_kind _ _ Ho)|]. left. by eapply (ms_marks _ _ H2).
Qed.

(** Nothing but the mark. *)
Lemma mark_then_now mk p h o g :
  heap_ok (mk_mem mk) it -> mk_mem mk !! p = Some (h, o) ->
  (g = [] \/ marked h = false /\ exists x, g = [x] /\ gray_ref x = (obj_kind o, p) /\
     obj_kind o <> GcObjectKind.UserData) ->
  let mk1 := mk_with mk (<[p := (mark_header h, o)]> (mk_mem mk)) (g ++ gray mk) in
  (marked h = false ->
     (obj_kind o, p) ∈ gray_ref <$> gray mk1 \/
     immediate (obj_kind o) /\ scanned (mk_mem mk1) it (weak mk1) p o) ->
  mstep mk mk1 /\ (pot mk1 <= pot mk)%nat /\ kept (mk_mem mk1) (obj_kind o, p).
Proof.
  intros Hh E Hg mk1 Hend. destruct (mark_then mk p h o g mk1 Hh E Hg) as (S & P & K); [apply mstep_refl|done|].
  split; [done|]. split; [by apply P|done].
Qed.

Lemma present_inv m k p : present m (k, p) -> exists h o, m !! p = Some (h, o) /\ obj_kind o = k.
Proof. intros (h & o & ? & ?). by exists h, o. Qed.

Lemma marks_gray b k p x : gray_ref x = (k, p) -> k <> GcObjectKind.UserData -> marks b (fun mk => mark_gray mk k p x) [(k, p)].
Proof.
  intros Ex Hk mk Hh (h & o & E & Ek)%Forall_inv. cbn [fst snd] in E, Ek. unfold mark_gray.
  rewrite (ptr_is_marked_ok _ _ _ _ _ E Ek). destruct (marked h) eqn:Hm.
  - exists mk. split; [done|]. split; [apply mstep_refl|].
    split; [done|]. split; [done|]. constructor; [|constructor]. exists h, o. auto.
  - rewrite (ptr_set_marked_ok _ _ _ _ _ E Ek).
    destruct (mark_then_now mk p h o [x] Hh E) as (S & P & K).
    + right. split; [done|]. exists x. rewrite Ek. by repeat split.
    + intros _. left. cbn. rewrite Ex, Ek. by left.
    + eexists. split; [reflexivity|]. split; [done|]. split; [done|].
    split; [done|]. constructor; [by rewrite Ek in K|constructor].
Qed.

Lemma marks_table b t : marks b (fun mk => mark_table mk t) [(GcObjectKind.Table, t)].
Proof. by apply marks_gray. Qed.

Lemma marks_proto b p : marks b (fun mk => mark_proto mk p) [(GcObjectKind.Proto, p)].
Proof. by apply marks_gray. Qed.

Lemma marks_string b p : marks b (fun mk => mark_only mk GcObjectKind.String p) [(GcObjectKind.String, p)].
Proof.
  intros mk Hh (h & o & E & Ek)%Forall_inv. cbn [fst snd] in E, Ek. unfold mark_only.
  rewrite (ptr_set_marked_ok _ _ _ _ _ E Ek).
  destruct (mark_then_now mk p h o [] Hh E) as (S & P & K); [by left|..].
  - intros _. right. destruct o; try done. split; [by split|constructor].
  - eexists. split; [reflexivity|]. split; [done|]. split; [done|].
    split; [done|]. constructor; [by rewrite Ek in K|constructor].
Qed.

Lemma marks_userdata b p : marks b (fun mk => mark_userdata mk p) [(GcObjectKind.UserData, p)].
Proof.
  intros mk Hh (h & o & E & Ek)%Forall_inv. cbn [fst snd] in E, Ek. unfold mark_userdata, mark_only.
  rewrite (ptr_is_marked_ok _ _ _ _ _ E Ek). destruct (marked h) eqn:Hm.
  { exists mk. split; [done|]. split; [apply mstep_refl|].
    split; [done|]. split; [done|]. constructor; [|constructor]. exists h, o. auto. }
  rewrite (ptr_set_marked_ok _ _ _ _ _ E Ek). cbn [mk_mem mk_with]. unfold userdata_at. rewrite lookup_insert_eq.
  destruct o as [| | | | | | |u]; try done. pose proof (Hh _ _ _ E) as (_ & _ & Hr). cbn [obj_refs] in Hr.
  set (mk1 := mk_with mk _ _).
  assert (S1 : sim (mk_mem mk) (mk_mem mk1)) by (eapply sim_insert; [done|by left]).
  assert (exists mk2, match ud_metatable u with Some mt => mark_table mk1 mt | None => Some mk1 end = Some mk2 /\
            mstep mk1 mk2 /\ (pot mk2 <= pot mk1)%nat /\ keeps mk1 mk2 /\
            Forall (kept (mk_mem mk2)) (mt_refs (ud_metatable u)))
    as (mk2 & Er & S2 & P2 & L2 & K2).
  { destruct (ud_metatable u) as [mt|].
    - destruct (marks_table true mt mk1) as (mk2 & ? & ? & ? & ? & ?); [by eapply sim_heap_ok| |eauto 8].
      eapply Forall_impl; [exact Hr|]. intros r. by apply sim_present.
    - exists mk1. split; [done|]. split; [apply mstep_refl|]. split; [done|]. split; [done|constructor]. }
  exists mk2. split; [exact Er|].
  destruct (mark_then mk p h (OUserData u) [] mk2 Hh E) as (S & P & K); [by left|done| |].
  { intros _. right. split; [by split|exact K2]. }
  split; [done|]. split; [intros _; by apply P|]. split; [exact L2|]. constructor; [exact K|constructor].
Qed.

Lemma present_cdata m b : present m (GcObjectKind.CData, b) -> kept m (GcObjectKind.CData, b).
Proof. intros (h & o & E & Ek). exists h, o. auto. Qed.

Lemma mark_cdata_ok fuel : forall mk p, heap_ok (mk_mem mk) it -> present (mk_mem mk) (GcObjectKind.CData, p) ->
  (unmarked (mk_mem mk) < fuel)%nat ->
  exists m', mark_cdata fuel (mk_mem mk) p = Some m' /\
    mstep mk (mk_with mk m' (gray mk)) /\ (pot (mk_with mk m' (gray mk)) <= pot mk)%nat.
Proof.
  induction fuel as [|fuel IH]; intros mk p Hh (h & o & E & Ek) Hf; [lia|]. cbn [fst snd] in E, Ek. cbn [mark_cdata].
  rewrite (ptr_is_marked_ok _ _ _ _ _ E Ek). destruct (marked h) eqn:Hm.
  { exists (mk_mem mk). assert (mk_with mk (mk_mem mk) (gray mk) = mk) as -> by (by destruct mk).
    split; [done|]. split; [apply mstep_refl|done]. }
  rewrite (ptr_set_marked_ok _ _ _ _ _ E Ek). unfold cdata_at. rewrite lookup_insert_eq.
  destruct o as [| | | | | |c|]; try done. pose proof (Hh _ _ _ E) as (_ & _ & Hr). cbn [obj_refs] in Hr.
  set (mk1 := mk_with mk (<[p := (mark_header h, OCData c)]> (mk_mem mk)) ([] ++ gray mk)).
  assert (S1 : sim (mk_mem mk) (mk_mem mk1)) by (eapply sim_insert; [done|by left]).
  cbv beta iota. change (<[p := _]> (mk_mem mk)) with (mk_mem mk1).
  assert (exists m', match base c with Some q => mark_cdata fuel (mk_mem mk1) q | None => Some (mk_mem mk1) end = Some m' /\
            mstep mk1 (mk_with mk1 m' (gray mk1)) /\ (pot (mk_with mk1 m' (gray mk1)) <= pot mk1)%nat)
    as (m' & -> & S2 & P2).
  { destruct (base c) as [q|].
    - apply IH; [by eapply sim_heap_ok|by eapply sim_present, (Forall_inv Hr)|].
      cbn [mk1 mk_mem mk_with]. rewrite (unmarked_insert _ _ _ _ _ _ E) by apply mark_header_marked.
      pose proof (unmarked_pos _ _ _ _ E Hm). rewrite Hm. lia.
    - exists (mk_mem mk1). split; [done|]. split; [apply mstep_refl|done]. }
  exists m'. split; [done|].
  destruct (mark_then mk p h (OCData c) [] (mk_with mk1 m' (gray mk1)) Hh E) as (S & P & K); [by left|done| |].
  { intros _. right. split; [by split|]. cbn [scanned obj_refs].
    pose proof (sim_trans _ _ _ S1 (ms_sim _ _ S2)) as S3. destruct (base c); [|constructor].
    constructor; [|constructor]. by eapply present_cdata, sim_present, (Forall_inv Hr). }
  split; [exact S|by apply P].
Qed.

Lemma marks_cdata b p : marks b
  (fun mk => let? m := mark_cdata (mark_fuel (mk_mem mk)) (mk_mem mk) p in Some (mk_with mk m (gray mk)))
  [(GcObjectKind.CData, p)].
Proof.
  intros mk Hh Hp%Forall_inv. destruct (mark_cdata_ok (mark_fuel (mk_mem mk)) mk p Hh Hp) as (m' & -> & S & P).
  { unfold mark_fuel. pose proof (unmarked_le (mk_mem mk)). lia. }
  eexists. split; [reflexivity|]. split; [done|]. split; [done|]. split; [done|]. constructor; [|constructor].
  eapply present_cdata, sim_present; [apply S|done].
Qed.

Lemma marks_value b v : marks b (fun mk => mark_value mk v) (vrefs [v]).
Proof.
  assert (Hon : forall k (a : option Z) f, (forall p, marks b (fun mk => f mk p) [(k, p)]) ->
    marks b (fun mk => match a with Some p => f mk p | None => Some mk end)
      (from_option (fun r => [r]) [] ((fun p => (k, p)) <$> a))).
  { intros k [p|] f Hf; [apply Hf|apply marks_skip]. }
  assert (E : vrefs [v] = from_option (fun r => [r]) [] (value_ref v)) by (unfold vrefs; cbn; by destruct (value_ref v)).
  rewrite E. unfold value_ref, mark_value.
  destruct (itype v =? LJ_TSTR); [apply (Hon _ _ (fun mk p => mark_only mk GcObjectKind.String p)), marks_string|].
  destruct (itype v =? LJ_TTAB);
    [apply (Hon _ _ (fun mk p => mark_gray mk GcObjectKind.Table p (GTab p))); intros; by apply marks_gray|].
  destruct (itype v =? LJ_TFUNC);
    [apply (Hon _ _ (fun mk p => mark_gray mk GcObjectKind.Func p (GFunc p))); intros; by apply marks_gray|].
  destruct (itype v =? LJ_TTHREAD);
    [apply (Hon _ _ (fun mk p => mark_gray mk GcObjectKind.Thread p (GThread p))); intros; by apply marks_gray|].
  destruct (itype v =? LJ_TUDATA); [apply (Hon _ _ mark_userdata), marks_userdata|].
  destruct (itype v =? LJ_TCDATA); [|apply marks_skip].
  apply (Hon _ _ (fun mk p => let? m := mark_cdata (mark_fuel (mk_mem mk)) (mk_mem mk) p in Some (mk_with mk m (gray mk)))).
  apply marks_cdata.
Qed.

Lemma marks_values b vs : marks b (each mark_value vs) (vrefs vs).
Proof.
  assert (vrefs vs = vs ≫= (fun v => vrefs [v])) as ->.
  { induction vs as [|v vs IH]; [done|]. rewrite vrefs_cons, IH. done. }
  apply marks_each. intros v _. apply marks_value.
Qed.

Lemma marks_upval b uv : marks b (fun mk => mark_upval mk uv) [(GcObjectKind.Upval, uv)].
Proof.
  intros mk Hh (h & o & E & Ek)%Forall_inv. cbn [fst snd] in E, Ek. unfold mark_upval, mark_only.
  rewrite (ptr_is_marked_ok _ _ _ _ _ E Ek). destruct (marked h) eqn:Hm.
  { exists mk. split; [done|]. split; [apply mstep_refl|].
    split; [done|]. split; [done|]. constructor; [|constructor]. exists h, o. auto. }
  rewrite (ptr_set_marked_ok _ _ _ _ _ E Ek). cbn [mk_mem mk_with]. unfold upval_at. rewrite lookup_insert_eq.
  destruct o as [| | |u| | | |]; try done. pose proof (Hh _ _ _ E) as (_ & Hok & Hr). cbn [obj_refs] in Hr.
  set (mk1 := mk_with mk _ _).
  assert (S1 : sim (mk_mem mk) (mk_mem mk1)) by (eapply sim_insert; [done|by left]).
  change (<[uv := _]> (mk_mem mk)) with (mk_mem mk1).
  destruct (uv_get_ok _ _ _ Hok) as (v & Ev). rewrite (sim_uv_get _ _ _ _ S1 Hok), Ev. rewrite Ev in Hr.
  destruct (marks_value true v mk1) as (mk2 & -> & S2 & P2 & L2 & K2).
  { by eapply sim_heap_ok. }
  { eapply Forall_impl; [exact Hr|]. intros r. by apply sim_present. }
  exists mk2. split; [done|].
  destruct (mark_then mk uv h (OUpval u) [] mk2 Hh E) as (S & P & K); [by left|done| |].
  { intros _. right. split; [by split|]. left. cbn [obj_refs].
    by rewrite (sim_uv_get _ _ _ _ (sim_trans _ _ _ S1 (ms_sim _ _ S2)) Hok), Ev. }
  split; [done|]. split; [intros _; by apply P, P2|]. split; [exact L2|]. constructor; [exact K|constructor].
Qed.

Lemma marks_thread th : marks false (fun mk => mark_thread mk th) [(GcObjectKind.Thread, th)].
Proof.
  intros mk Hh (h & o & E & Ek)%Forall_inv. cbn [fst snd] in E, Ek. unfold mark_thread, mark_only.
  rewrite (ptr_set_marked_ok _ _ _ _ _ E Ek). cbn [mk_mem mk_with gray].
  eexists. split; [reflexivity|].
  set (mk2 := mk_with _ _ _).
  assert (S1 : mstep (mk_with mk (<[th := (mark_header h, o)]> (mk_mem mk)) ([] ++ gray mk)) mk2).
  { split; cbn [mk2 mk_mem mk_with gray again weak].
    - apply sim_refl.
    - intros q hq oq h' o' Eq Eq'. congruence.
    - intros q hq oq h' o' Eq Eq'. congruence.
    - intros q hq oq h' o' Eq Eq'. congruence.
    - exists [GThread th]. split; [done|]. constructor; [|constructor]. split; [|done].
      exists (mark_header h), o. cbn. by rewrite lookup_insert_eq.
    - by exists [].
    - exists []. by rewrite app_nil_r.
    - intros q hq oq h' o' Eq Eq' Hm Hm'. congruence. }
  destruct (mark_then mk th h o [] mk2 Hh E) as (S & _ & K); [by left|done| |].
  { intros _. left. rewrite Ek. by left. }
  split; [done|]. split; [done|].
    split; [done|]. constructor; [by rewrite Ek in K|constructor].
Qed.

Lemma marks_sid b id : marks b (fun mk => mark_sid it mk id) (sid_refs it id).
Proof. unfold mark_sid, sid_refs. destruct (try_lookup it id); [apply marks_string|apply marks_skip]. Qed.

Lemma marks_kgc b k : (forall t, k = KTable t -> tab_shape t /\ metatable t = None) ->
  marks b (fun mk => mark_kgc it mk k) (kgc_refs it k).
Proof.
  intros Hk. destruct k as [id| |p|t|t|]; cbn [mark_kgc kgc_refs].
  - apply marks_sid.
  - apply marks_skip.
  - apply marks_proto.
  - intros mk Hh Hp. destruct (Hk t eq_refl) as [Hs Hmt].
    destruct (traverse_ok _ it t Hh Hs Hp) as (vs & mode & -> & Ev & Hm). rewrite (Hm Hmt) in Ev.
    rewrite <- Ev in *. by apply marks_values.
  - apply marks_table.
  - apply marks_skip.
Qed.
End Mark.
