(* ===== verification/CollectorProp.v ===== *)
(** * Propagation

    Scanning a popped object marks its references, and the two propagation
    loops keep the tri-colour invariant: every marked object is pending or
    scanned. *)

From Stdlib Require Import ZArith Lia Bool.
From stdpp Require Import base decidable numbers option gmap list.
From S2P Require Import Prelude Float64 Value Table TableGc Heap HeapSpec Intern Collector CollectorRefs.
From S2P Require Import CollectorMark.

Section Propagation.
Context (it : Interner).

(** ** Scanning *)

(** The recorded modes are those a traversal gives. *)
Definition weak_ok (mk : Marker) : Prop :=
  forall p mode, (p, mode) ∈ weak mk -> mode <> 0 /\
    exists t vs, Heap.table_at (mk_mem mk) p = Some t /\ traverse_at (mk_mem mk) t = Some (vs, mode).

Lemma weak_ok_sim mk mk' : sim (mk_mem mk) (mk_mem mk') -> weak mk' = weak mk -> weak_ok mk -> weak_ok mk'.
Proof.
  intros Hs Ew Hw p mode Hp. rewrite Ew in Hp. destruct (Hw p mode Hp) as (Hm & t & vs & Et & Ev).
  split; [done|]. exists t, vs. by rewrite (sim_table _ _ _ Hs), (sim_traverse _ _ _ Hs).
Qed.

(** What scanning [x] achieves. *)
Record scan_post (x : Gray) (mk mk' : Marker) : Prop := {
  sp_step : mstep it mk mk';
  sp_pot : (pot mk' <= pot mk)%nat;
  sp_weak : weak_ok mk';
  sp_scanned : forall h o, mk_mem mk' !! (gray_ref x).2 = Some (h, o) -> obj_kind o = (gray_ref x).1 ->
    scanned (mk_mem mk') it (weak mk') (gray_ref x).2 o;
  sp_again : (gray_ref x).1 = GcObjectKind.Thread -> x ∈ again mk';
}.

(** The references of the object are marked: for all kinds but tables and
    upvalues this is the scan. *)
Lemma scan_post_refs f x mk h o : weak_ok mk -> heap_ok (mk_mem mk) it ->
  mk_mem mk !! (gray_ref x).2 = Some (h, o) ->
  match o with OTable _ | OUpval _ | OThread _ => False | _ => True end -> obj_kind o = (gray_ref x).1 ->
  marks it true f (obj_refs (mk_mem mk) it o) -> exists mk', f mk = Some mk' /\ scan_post x mk mk'.
Proof.
  intros Hw Hh E Ho Ek Hf. destruct (Hh _ _ _ E) as (_ & Hok & Hr).
  destruct (Hf mk Hh Hr) as (mk' & -> & S & P & [La Lw] & K). exists mk'. split; [done|]. split.
  - done.
  - by apply P.
  - eapply weak_ok_sim; [apply S|done|done].
  - intros h' o' E' _. pose proof (ms_sim _ _ _ S) as Hs. specialize (Hs (gray_ref x).2) as Hso. rewrite E, E' in Hso.
    rewrite <- (sim_refs _ _ it _ _ _ Hs Hok Hso) in K.
    destruct Hso as [->|(l & -> & _)]; [|done]. by destruct o.
  - intros Et. rewrite Et in Ek. by destruct o.
Qed.

(** Recording a table's mode. *)
Lemma collect_weak_spec mk t mode tb vs : weak_ok mk -> Heap.table_at (mk_mem mk) t = Some tb ->
  traverse_at (mk_mem mk) tb = Some (vs, mode) ->
  exists w, collect_weak mk t mode = mkMarker (mk_mem mk) (gray mk) (again mk) (weak mk ++ w) /\
    weak_ok (collect_weak mk t mode) /\ (mode = 0 \/ (t, mode) ∈ weak mk ++ w).
Proof.
  intros Hw Et Ev. unfold collect_weak.
  assert (Hsame : mk = mkMarker (mk_mem mk) (gray mk) (again mk) (weak mk ++ [])) by (rewrite app_nil_r; by destruct mk).
  destruct (Z.eqb_spec mode 0) as [->|Hm]; cbn [negb andb]; [by exists []; auto|].
  destruct (existsb _ (weak mk)) eqn:Ex; cbn [negb].
  - exists []. split; [done|]. split; [done|]. right. rewrite app_nil_r.
    apply existsb_exists in Ex as ([p mode'] & Hp%list_elem_of_In & ->%Z.eqb_eq).
    destruct (Hw t mode' Hp) as (_ & tb' & vs' & Et' & Ev'). by simplify_eq.
  - exists [(t, mode)]. split; [done|]. split; [|right; set_solver].
    intros p mode' [Hp|Hp]%elem_of_app; [by apply Hw|]. apply list_elem_of_singleton in Hp as [= -> ->]. eauto.
Qed.

Lemma mstep_weak mk w : mstep it mk (mkMarker (mk_mem mk) (gray mk) (again mk) (weak mk ++ w)).
Proof.
  split; cbn [mk_mem gray again weak].
  - apply sim_refl.
  - intros p h o h' o' E E'. congruence.
  - intros p h o h' o' E E'. congruence.
  - intros p h o h' o' E E'. congruence.
  - by exists [].
  - by exists [].
  - by exists w.
  - intros p h o h' o' E E'. congruence.
Qed.

Lemma scan_table t mk : weak_ok mk -> heap_ok (mk_mem mk) it -> present (mk_mem mk) (GcObjectKind.Table, t) ->
  forall atomic, exists mk', scan it atomic mk (GTab t) = Some mk' /\ scan_post (GTab t) mk mk'.
Proof.
  intros Hw Hh (h & o & E & Ek) atomic. cbn [fst snd] in E, Ek. destruct o as [|tb| | | | | |]; try done.
  cbn [scan]. assert (Et : Heap.table_at (mk_mem mk) t = Some tb) by (unfold Heap.table_at; by rewrite E).
  rewrite Et. destruct (Hh _ _ _ E) as (_ & Hs & Hr). cbn [obj_ok obj_refs] in Hs, Hr.
  destruct (traverse_ok _ it tb Hh Hs Hr) as (vs & mode & Ev & Erefs & _). rewrite Ev.
  destruct (marks_values it true vs mk Hh) as (mk1 & -> & S & P & [La Lw] & K).
  { rewrite Erefs. unfold table_refs in *. apply Forall_app in Hr as [Hr1 Hr2]. apply Forall_app. split; [done|].
    apply Forall_forall. intros r Hin. unfold vrefs in Hin. apply list_elem_of_omap in Hin as (v & Hv & Ev').
    eapply (Forall_vrefs_in _ _ _ _ Hr2); [|done]. by eapply table_values_sub. }
  pose proof (ms_sim _ _ _ S) as Hsim.
  destruct (collect_weak_spec mk1 t mode tb vs) as (w & Ec & Hw' & Hmode).
  { by eapply weak_ok_sim. }
  { by rewrite (sim_table _ _ _ Hsim). }
  { by rewrite (sim_traverse _ _ _ Hsim). }
  eexists. split; [reflexivity|]. split.
  - eapply mstep_trans; [done|exact S|]. rewrite Ec. apply mstep_weak.
  - rewrite Ec. by apply P.
  - done.
  - rewrite Ec. cbn [mk_mem weak gray_ref fst snd]. intros h' o' E' _.
    destruct (sim_lookup _ _ _ _ _ Hsim E) as (h1 & o1 & E1 & Ho). rewrite E1 in E'. injection E' as <- <-.
    destruct Ho as [->|(l & ? & _)]; [|done]. exists mode. split; [done|by rewrite <- Erefs].
  - done.
Qed.

Lemma upval_refs (uvs : list Z) : uvs ≫= (fun uv => [(GcObjectKind.Upval, uv)]) = pair GcObjectKind.Upval <$> uvs.
Proof. induction uvs as [|uv uvs IH]; [done|]. cbn. by f_equal. Qed.

Lemma marks_upvals b (uvs : list Z) : marks it b (each mark_upval uvs) (pair GcObjectKind.Upval <$> uvs).
Proof. rewrite <- upval_refs. apply marks_each. intros uv _. apply marks_upval. Qed.

Lemma scan_func f mk : weak_ok mk -> heap_ok (mk_mem mk) it -> present (mk_mem mk) (GcObjectKind.Func, f) ->
  forall atomic, exists mk', scan it atomic mk (GFunc f) = Some mk' /\ scan_post (GFunc f) mk mk'.
Proof.
  intros Hw Hh (h & o & E & Ek) atomic. cbn [fst snd] in E, Ek. destruct o as [| |fn| | | | |]; try done.
  cbn [scan]. unfold func_at. rewrite E. destruct fn as [p env uvs|env vs].
  - apply (scan_post_refs (fun mk => let? mk := mark_table mk env in let? mk := mark_proto mk p in each mark_upval uvs mk)
             (GFunc f) mk h _ Hw Hh E); [done|done|].
    apply (marks_seq _ _ _ _ [_]); [apply marks_table|].
    apply (marks_seq _ _ _ _ [_]); [apply marks_proto|apply marks_upvals].
  - apply (scan_post_refs (fun mk => let? mk := mark_table mk env in each mark_value vs mk) (GFunc f) mk h _ Hw Hh E);
      [done|done|].
    apply (marks_seq _ _ _ _ [_]); [apply marks_table|apply marks_values].
Qed.

Lemma scan_proto p mk : weak_ok mk -> heap_ok (mk_mem mk) it -> present (mk_mem mk) (GcObjectKind.Proto, p) ->
  forall atomic, exists mk', scan it atomic mk (GProto p) = Some mk' /\ scan_post (GProto p) mk mk'.
Proof.
  intros Hw Hh (h & o & E & Ek) atomic. cbn [fst snd] in E, Ek. destruct o as [| | | | |pt| |]; try done.
  cbn [scan]. unfold proto_at. rewrite E. destruct (Hh _ _ _ E) as (_ & Hok & _).
  apply (scan_post_refs (fun mk => let? mk := match source pt with Some id => mark_sid it mk id | None => Some mk end in
             each (mark_kgc it) (kgc pt) mk) (GProto p) mk h _ Hw Hh E); [done|done|].
  apply marks_seq.
  - destruct (source pt); [apply marks_sid|apply marks_skip].
  - apply marks_each. intros k Hk. apply marks_kgc. intros t ->. by apply Hok.
Qed.

(** The end of a thread's scan: stale slots cleared or not, gray, and queued
    again. *)
Lemma thread_finish mk th h o o' : mk_mem mk !! th = Some (h, o) -> obj_kind o = GcObjectKind.Thread -> obj_sim o o' ->
  let mk' := mkMarker (<[th := (make_gray h, o')]> (mk_mem mk)) (gray mk) (GThread th :: again mk) (weak mk) in
  mstep it mk mk' /\ pot mk' = pot mk.
Proof.
  intros E Ek Ho mk'.
  assert (Hother : forall q, q <> th -> mk_mem mk' !! q = mk_mem mk !! q)
    by (intros q Hq; cbn; by rewrite lookup_insert_ne by done).
  assert (Eth : mk_mem mk' !! th = Some (make_gray h, o')) by (cbn; by rewrite lookup_insert_eq).
  split; [split|].
  - by eapply sim_insert.
  - intros q hq oq h' o1 Eq E' Hm. destruct (decide (q = th)) as [->|Hne].
    + rewrite E in Eq. rewrite Eth in E'. by simplify_eq.
    + rewrite (Hother q Hne) in E'. by simplify_eq.
  - intros q hq oq h' o1 Eq E' Hb Hk. destruct (decide (q = th)) as [->|Hne].
    + congruence.
    + rewrite (Hother q Hne) in E'. by simplify_eq.
  - intros q hq oq h' o1 Eq E' Hm Hk. destruct (decide (q = th)) as [->|Hne]; [congruence|].
    rewrite (Hother q Hne) in E'. by simplify_eq.
  - by exists [].
  - exists [GThread th]. split; [done|]. constructor; [|constructor]. split; [by exists h, o|done].
  - exists []. by rewrite app_nil_r.
  - intros q hq oq h' o1 Eq E' Hm Hm'. exfalso. destruct (decide (q = th)) as [->|Hne].
    + rewrite E in Eq. rewrite Eth in E'. simplify_eq. cbn in Hm'. congruence.
    + rewrite (Hother q Hne) in E'. simplify_eq. congruence.
  - unfold pot. cbn [mk' gray mk_mem]. f_equal. unfold unmarked.
    destruct (marked h) eqn:Hm.
    + rewrite map_filter_insert_False by (cbn; by rewrite Hm). rewrite map_filter_delete, delete_id; [done|].
      apply map_lookup_filter_None. right. intros x. rewrite E. intros [= <-]. cbn. by rewrite Hm.
    + rewrite map_filter_insert_True by done.
      rewrite map_size_insert_Some; [done|]. exists (h, o). by apply map_lookup_filter_Some.
Qed.

Lemma scan_thread_ok th mk : weak_ok mk -> heap_ok (mk_mem mk) it -> present (mk_mem mk) (GcObjectKind.Thread, th) ->
  forall atomic, exists mk', scan_thread atomic mk th = Some mk' /\ scan_post (GThread th) mk mk'.
Proof.
  intros Hw Hh (h & o & E & Ek) atomic. cbn [fst snd] in E, Ek. destruct o as [| | | |l| | |]; try done.
  destruct (Hh _ _ _ E) as (_ & Hok & Hr). pose proof Hok as (Hto & Hcl & _).
  unfold scan_thread, thread_at. rewrite E. unfold mark_to in Hto. rewrite decide_True by done.
  change (Nat.max (top l) (frame_top l)) with (mark_to l).
  assert (HF : marks it true (fun mk =>
      let? mk := each mark_value (take (mark_to l) (stack l)) mk in
      let? mk := mark_value mk (errval l) in
      let? mk := mark_value mk (hook l) in each mark_upval (openuv l) mk) (obj_refs (mk_mem mk) it (OThread l))).
  { cbn [obj_refs]. unfold thread_values. rewrite vrefs_app, (vrefs_cons (errval l)), <- !app_assoc.
    apply marks_seq; [apply marks_values|]. apply marks_seq; [apply marks_value|].
    apply marks_seq; [apply marks_value|apply marks_upvals]. }
  destruct (HF mk Hh Hr) as (mk1 & E1 & S1 & P1 & L1 & K1). specialize (P1 eq_refl).
  repeat match type of E1 with
  | match ?a with _ => _ end = _ => let Ea := fresh in destruct a as [?|] eqn:Ea; [|done]; rewrite ?Ea
  end. rewrite E1. clear HF.
  pose proof (mstep_heap_ok _ _ _ S1 Hh) as Hh1. pose proof (ms_sim _ _ _ S1) as Hsim1.
  assert (exists mk2, match call_cl l with Some cl => mark_only mk1 GcObjectKind.Func cl | None => Some mk1 end = Some mk2 /\
            mstep it mk1 mk2 /\ (pot mk2 <= pot mk1)%nat /\ keeps mk1 mk2) as (mk2 & -> & S2 & P2 & L2).
  { destruct (call_cl l) as [c|]; [|exists mk1; split; [done|split; [apply mstep_refl|done]]].
    pose proof (Hcl c eq_refl) as Hc. rewrite Forall_forall in K1.
    destruct (K1 (GcObjectKind.Func, c)) as (hc & oc & Ec & Ekc & [Hmc|?]);
      [cbn [obj_refs]; apply elem_of_app; by left| |done].
    cbn [fst snd] in Ec, Ekc. unfold mark_only. rewrite (ptr_set_marked_ok _ _ _ _ _ Ec Ekc).
    destruct (mark_then_now it mk1 c hc oc [] Hh1 Ec) as (S & P & _); [by left|congruence|].
    eexists. split; [reflexivity|]. split; [done|]. by split. }
  pose proof (mstep_heap_ok _ _ _ S2 Hh1) as Hh2.
  pose proof (sim_trans _ _ _ Hsim1 (ms_sim _ _ _ S2)) as Hsim2.
  destruct (sim_lookup _ _ _ _ _ Hsim2 E) as (h2 & o2 & E2 & Ho2).
  pose proof (obj_sim_kind _ _ Ho2) as Ek2. cbn [obj_kind] in Ek2.
  assert (exists o3, obj_sim o2 o3 /\ obj_sim (OThread l) o3 /\
    (let? m := if atomic then obj_set (mk_mem mk2) th (OThread (clear_stale l)) else Some (mk_mem mk2) in
     header_mut m GcObjectKind.Thread th make_gray) = Some (<[th := (make_gray h2, o3)]> (mk_mem mk2)))
    as (o3 & Ho3 & Ho3' & Em).
  { destruct atomic.
    - exists (OThread (clear_stale l)). split; [|split; [by right; eauto|]].
      { destruct Ho2 as [->|(l' & [= <-] & ->)]; [right; eauto|by left]. }
      unfold obj_set. rewrite E2, decide_True by done.
      rewrite (header_mut_Some _ _ _ h2 (OThread (clear_stale l))); [by rewrite insert_insert_eq| |done].
      by rewrite lookup_insert_eq.
    - exists o2. split; [by left|]. split; [done|]. by rewrite (header_mut_Some _ _ _ _ _ _ E2 Ek2). }
  destruct (thread_finish mk2 th h2 o2 o3 E2 Ek2 Ho3) as [S3 P3].
  eexists. split.
  { destruct (if atomic then _ else _); [|done]. rewrite Em. reflexivity. }
  assert (S : mstep it mk (mkMarker (<[th := (make_gray h2, o3)]> (mk_mem mk2)) (gray mk2) (GThread th :: again mk2) (weak mk2))).
  { eapply mstep_trans; [done|exact S1|]. eapply mstep_trans; [done|exact S2|exact S3]. }
  split.
  - exact S.
  - rewrite P3. lia.
  - eapply weak_ok_sim; [apply S| |done]. destruct L1, L2. cbn [weak]. congruence.
  - intros h' o' E' _. cbn [mk_mem gray_ref fst snd] in E'. rewrite lookup_insert_eq in E'. injection E' as <- <-.
    assert (Forall (kept (<[th:=(make_gray h2, o3)]> (mk_mem mk2))) (obj_refs (mk_mem mk) it (OThread l))) as K3.
    { eapply mstep_kept in K1; [|exact S2]. by eapply mstep_kept in K1; [|exact S3]. }
    rewrite <- (sim_refs _ _ it _ _ _ (ms_sim _ _ _ S) Hok Ho3') in K3.
    destruct Ho3' as [->|(l' & _ & ->)]; exact K3.
  - intros _. by left.
Qed.

Lemma scan_ok x mk : weak_ok mk -> heap_ok (mk_mem mk) it -> gray_ok (mk_mem mk) x ->
  forall atomic, exists mk', scan it atomic mk x = Some mk' /\ scan_post x mk mk'.
Proof.
  intros Hw Hh [Hp Hu] atomic. destruct x as [t|f|p|th|u]; [by apply scan_table|by apply scan_func|by apply scan_proto| |done].
  by apply scan_thread_ok.
Qed.

(** ** The tri-colour invariant *)

Definition tri (m : Mem) (W : list (Z * Z)) (pend : list Gray) : Prop :=
  forall p h o, m !! p = Some (h, o) -> marked h = true ->
    (obj_kind o, p) ∈ gray_ref <$> pend \/ scanned m it W p o.

(** [mk1] is [mk] up to the header of the object of [x]. *)
Record popped (x : Gray) (mk mk1 : Marker) : Prop := {
  po_other : forall q, q <> (gray_ref x).2 -> mk_mem mk1 !! q = mk_mem mk !! q;
  po_sim : sim (mk_mem mk) (mk_mem mk1);
  po_marks : more_marks (mk_mem mk) (mk_mem mk1);
  po_gray : gray mk1 = gray mk;
  po_keeps : keeps mk mk1;
  po_pot : (pot mk1 <= pot mk)%nat;
}.

Lemma popped_refl x mk : popped x mk mk.
Proof. split; try done; [apply sim_refl|]. intros p h o h' o' E E'. congruence. Qed.

Lemma scanned_weak m w w' p o : obj_ok m p o -> (forall x, x ∈ w -> x ∈ w') -> scanned m it w p o -> scanned m it w' p o.
Proof.
  intros Hok Hw. apply scanned_mono; [apply sim_refl| |done|done|by left]. intros q h o1 h' o' E E'. congruence.
Qed.

Lemma tri_scan W0 x mk mk1 mk2 pend pend' :
  heap_ok (mk_mem mk) it -> popped x mk mk1 -> scan_post x mk1 mk2 -> gray_ok (mk_mem mk) x ->
  tri (mk_mem mk) (W0 ++ weak mk) pend ->
  (forall y, y ∈ pend -> y = x \/ y ∈ pend') -> (forall y, y ∈ gray mk2 -> y ∈ pend') ->
  tri (mk_mem mk2) (W0 ++ weak mk2) pend'.
Proof.
  intros Hh Hpo Hsp [(hx & ox & Ex & Ekx) _] Ht Hpend Hgray p h2 o2 E2 Hm2.
  pose proof (sp_step _ _ _ Hsp) as S. pose proof (ms_sim _ _ _ S) as Hs. pose proof (po_keeps _ _ _ Hpo) as [_ Lw].
  assert (Hh1 : heap_ok (mk_mem mk1) it) by (eapply sim_heap_ok; [apply Hpo|done]).
  assert (Hh2 : heap_ok (mk_mem mk2) it) by (by eapply mstep_heap_ok).
  destruct (Hh2 _ _ _ E2) as (_ & Hok2 & _).
  assert (Hsub : forall y, y ∈ weak mk2 -> y ∈ W0 ++ weak mk2) by (intros; apply elem_of_app; by right).
  assert (Hsimx : sim (mk_mem mk) (mk_mem mk2)) by (eapply sim_trans; [apply Hpo|done]).
  destruct (decide (p = (gray_ref x).2)) as [->|Hne].
  { right. eapply scanned_weak; [done|exact Hsub|]. apply (sp_scanned _ _ _ Hsp _ _ E2).
    destruct (sim_lookup _ _ _ _ _ Hsimx Ex) as (h' & o' & E' & Ho'). rewrite E2 in E'. simplify_eq.
    by rewrite (obj_sim_kind _ _ Ho'). }
  destruct (sim_lookup_back _ _ _ _ _ Hs E2) as (h1 & o1 & E1 & Ho). pose proof (po_other _ _ _ Hpo p Hne) as E0.
  rewrite E1 in E0. symmetry in E0. rewrite (obj_sim_kind _ _ Ho).
  destruct (ms_weak _ _ _ S) as (w & Ew). rewrite Lw in Ew.
  destruct (marked h1) eqn:Hm1.
  - destruct (Ht _ _ _ E0 Hm1) as [(y & Ey & Hy)%list_elem_of_fmap|Hsc].
    + left. apply list_elem_of_fmap. exists y. split; [done|]. destruct (Hpend y Hy) as [->|]; [|done].
      by rewrite <- Ey in Hne.
    + right. destruct (Hh _ _ _ E0) as (_ & Hok & _). eapply scanned_mono; [| | |exact Hok|exact Ho|exact Hsc].
      * done.
      * intros q hq oq h' o' Eq Eq' Hmq. destruct (sim_lookup _ _ _ _ _ (po_sim _ _ _ Hpo) Eq) as (h3 & o3 & E3 & _).
        eapply (ms_marks _ _ _ S); [exact E3|exact Eq'|]. by eapply (po_marks _ _ _ Hpo).
      * intros y. rewrite Ew, !elem_of_app. tauto.
  - destruct (ms_new _ _ _ S _ _ _ _ _ E1 E2 Hm1 Hm2) as [_ [(y & Ey & Hy)%list_elem_of_fmap|[_ Hsc]]].
    + left. apply list_elem_of_fmap. exists y. split; [done|by apply Hgray].
    + right. by eapply scanned_weak.
Qed.

(** Marking functions keep it. *)
Lemma tri_mstep W0 mk mk' pend pend' : heap_ok (mk_mem mk) it -> mstep it mk mk' ->
  tri (mk_mem mk) (W0 ++ weak mk) pend -> (forall y, y ∈ pend -> y ∈ pend') -> (forall y, y ∈ gray mk' -> y ∈ pend') ->
  tri (mk_mem mk') (W0 ++ weak mk') pend'.
Proof.
  intros Hh S Ht Hpend Hgray p h2 o2 E2 Hm2. pose proof (ms_sim _ _ _ S) as Hs.
  destruct (ms_weak _ _ _ S) as (w & Ew).
  destruct (sim_lookup_back _ _ _ _ _ Hs E2) as (h1 & o1 & E1 & Ho). rewrite (obj_sim_kind _ _ Ho).
  destruct (marked h1) eqn:Hm1.
  - destruct (Ht _ _ _ E1 Hm1) as [(y & Ey & Hy)%list_elem_of_fmap|Hsc].
    + left. apply list_elem_of_fmap. eauto.
    + right. destruct (Hh _ _ _ E1) as (_ & Hok & _).
      eapply scanned_mono; [exact Hs|apply S| |exact Hok|exact Ho|exact Hsc].
      intros y. rewrite Ew, !elem_of_app. tauto.
  - destruct (ms_new _ _ _ S _ _ _ _ _ E1 E2 Hm1 Hm2) as [_ [(y & Ey & Hy)%list_elem_of_fmap|[_ Hsc]]].
    + left. apply list_elem_of_fmap. eauto.
    + right. destruct (mstep_heap_ok _ _ _ S Hh _ _ _ E2) as (_ & Hok & _).
      eapply scanned_weak; [exact Hok| |exact Hsc]. intros y Hy. apply elem_of_app. by right.
Qed.

(** ** The atomic loop *)

Lemma pop_mk mk x gs : gray mk = x :: gs -> heap_ok (mk_mem mk) it -> weak_ok mk ->
  let mk0 := mk_with mk (mk_mem mk) gs in heap_ok (mk_mem mk0) it /\ weak_ok mk0 /\ (S (pot mk0) = pot mk)%nat.
Proof.
  intros Eg Hh Hw mk0. split; [done|]. split; [done|]. unfold pot. cbn [mk0 gray mk_mem mk_with]. by rewrite Eg.
Qed.

Lemma propagate_marks_ok W0 fuel : forall mk, heap_ok (mk_mem mk) it -> weak_ok mk ->
  Forall (gray_ok (mk_mem mk)) (gray mk) -> (pot mk < fuel)%nat -> tri (mk_mem mk) (W0 ++ weak mk) (gray mk) ->
  exists mk', propagate fuel it true mk = Some mk' /\ sim (mk_mem mk) (mk_mem mk') /\
    more_marks (mk_mem mk) (mk_mem mk') /\ weak_ok mk' /\ tri (mk_mem mk') (W0 ++ weak mk') [] /\
    (forall x, x ∈ gray mk -> exists h o, mk_mem mk' !! (gray_ref x).2 = Some (h, o) /\
       scanned (mk_mem mk') it (W0 ++ weak mk') (gray_ref x).2 o) /\
    (exists w, weak mk' = weak mk ++ w) /\
    (forall p h o h' o', mk_mem mk !! p = Some (h, o) -> mk_mem mk' !! p = Some (h', o') ->
       marked h' = false -> obj_kind o <> GcObjectKind.Thread -> h' = h).
Proof.
  induction fuel as [|fuel IH]; intros mk Hh Hw Hg Hf Ht; [lia|]. cbn [propagate].
  destruct (gray mk) as [|x gs] eqn:Eg.
  { exists mk. split; [done|]. split; [apply sim_refl|]. split; [apply more_marks_refl|].
    split; [done|]. split; [done|]. split; [by intros x ?%elem_of_nil|]. split; [exists []; by rewrite app_nil_r|].
    intros p h o h' o' E E'. congruence. }
  destruct (pop_mk mk x gs Eg Hh Hw) as (Hh0 & Hw0 & Hp0). set (mk0 := mk_with mk (mk_mem mk) gs) in *.
  apply Forall_cons in Hg as [Hx Hgs].
  destruct (scan_ok x mk0 Hw0 Hh0 Hx true) as (mk1 & -> & Hsp). pose proof (sp_step _ _ _ Hsp) as S.
  destruct (ms_gray _ _ _ S) as (g & Eg1 & Hg1). cbn [gray mk0 mk_with] in Eg1.
  pose proof (ms_sim _ _ _ S) as Hs. cbn [mk0 mk_mem mk_with] in Hs.
  destruct (IH mk1) as (mk' & -> & Hs' & Hm' & Hw' & Ht' & Hsc' & (w' & Ew') & Hsame').
  { by eapply mstep_heap_ok. }
  { apply Hsp. }
  { rewrite Eg1. apply Forall_app. split; by eapply gray_ok_sim. }
  { pose proof (sp_pot _ _ _ Hsp). lia. }
  { eapply (tri_scan W0 x mk0 mk0 mk1 (x :: gs) (gray mk1)); [done|apply popped_refl|done|done|done| |done].
    intros y [->|Hy]%elem_of_cons; [by left|right]. rewrite Eg1. apply elem_of_app. by right. }
  destruct (ms_weak _ _ _ S) as (w & Ew). cbn [mk0 weak mk_with] in Ew.
  exists mk'. split; [done|]. split; [by eapply sim_trans|]. split; [|split; [done|split; [done|split; [|split]]]].
  - intros p h o h' o' E E' Hm. destruct (sim_lookup _ _ _ _ _ Hs E) as (h1 & o1 & E1 & _).
    eapply Hm'; [exact E1|exact E'|]. by eapply (ms_marks _ _ _ S).
  - intros y [->|Hy]%elem_of_cons; [|apply Hsc'; rewrite Eg1; apply elem_of_app; by right].
    destruct Hx as [(hx & ox & Ex & Ekx) _]. destruct (sim_lookup _ _ _ _ _ Hs Ex) as (h1 & o1 & E1 & Ho1).
    destruct (sim_lookup _ _ _ _ _ Hs' E1) as (h2 & o2 & E2 & Ho2). exists h2, o2. split; [done|].
    pose proof (mstep_heap_ok _ _ _ S Hh) as Hh1. destruct (Hh1 _ _ _ E1) as (_ & Hok1 & _).
    eapply scanned_mono; [exact Hs'|exact Hm'| |exact Hok1|exact Ho2|].
    { intros z Hz. rewrite Ew', !elem_of_app. by right; left. }
    apply (sp_scanned _ _ _ Hsp _ _ E1). by rewrite (obj_sim_kind _ _ Ho1).
  - exists (w ++ w'). by rewrite Ew', Ew, app_assoc.
  - intros p h o h' o' E E' Hm Hk. destruct (sim_lookup _ _ _ _ _ Hs E) as (h1 & o1 & E1 & Ho).
    assert (h' = h1) as -> by (eapply Hsame'; [exact E1|exact E'|done|by rewrite (obj_sim_kind _ _ Ho)]).
    by eapply (ms_same _ _ _ S).
Qed.

(** ** The incremental loop *)

Record prop_ok (W0 : list (Z * Z)) (mk : Marker) : Prop := {
  pr_heap : heap_ok (mk_mem mk) it;
  pr_weak : weak_ok mk;
  pr_gray : Forall (gray_ok (mk_mem mk)) (gray mk);
  pr_again : Forall (gray_ok (mk_mem mk)) (again mk);
  pr_tri : tri (mk_mem mk) (W0 ++ weak mk) (gray mk ++ again mk);
  pr_thread : forall p h l, mk_mem mk !! p = Some (h, OThread l) -> marked h = true ->
    (GcObjectKind.Thread, p) ∈ gray_ref <$> (gray mk ++ again mk);
  pr_black : forall p h t, mk_mem mk !! p = Some (h, OTable t) -> marked h = true ->
    is_black h = true \/ (GcObjectKind.Table, p) ∈ gray_ref <$> (gray mk ++ again mk);
}.

Lemma remark_ok mk x : gray_ok (mk_mem mk) x ->
  exists mk1 h o, remark mk x = Some mk1 /\ popped x mk mk1 /\
    mk_mem mk1 !! (gray_ref x).2 = Some (mark_header h, o) /\ mk_mem mk !! (gray_ref x).2 = Some (h, o).
Proof.
  intros [(h & o & E & Ek) Hu].
  assert (remark mk x = mark_only mk (gray_ref x).1 (gray_ref x).2) as -> by (by destruct x).
  unfold mark_only. rewrite (ptr_set_marked_ok _ _ _ _ _ E Ek). do 3 eexists. split; [reflexivity|].
  split; [|split; [cbn [mk_mem mk_with]; by rewrite lookup_insert_eq|done]].
  split; cbn [mk_mem mk_with gray again weak]; try done.
  - intros q Hq. by rewrite lookup_insert_ne.
  - by eapply sim_insert; [|left].
  - intros q hq oq h' o' Eq E' Hm. destruct (decide (q = (gray_ref x).2)) as [->|Hne].
    + rewrite lookup_insert_eq in E'. by injection E' as <- <-.
    + rewrite lookup_insert_ne in E' by done. congruence.
  - unfold pot. cbn [mk_mem mk_with gray]. rewrite (unmarked_insert _ _ _ _ _ _ E) by apply mark_header_marked.
    destruct (marked h); lia.
Qed.

Lemma pending_ref x p k (g : list Gray) : gray_ref x = (k, p) -> x ∈ g -> (k, p) ∈ gray_ref <$> g.
Proof. intros <- Hx. apply list_elem_of_fmap. eauto. Qed.

(** One iteration. *)
Lemma prop_iter W0 mk x gs : prop_ok W0 mk -> gray mk = x :: gs ->
  exists mk1 mk2, remark (mk_with mk (mk_mem mk) gs) x = Some mk1 /\ scan it false mk1 x = Some mk2 /\
    prop_ok W0 mk2 /\ sim (mk_mem mk) (mk_mem mk2) /\ more_marks (mk_mem mk) (mk_mem mk2) /\ (pot mk2 < pot mk)%nat /\
    (exists w, weak mk2 = weak mk ++ w).
Proof.
  intros [Hh Hw Hg Ha Ht Hthr Hblk] Eg. rewrite Eg in *. apply Forall_cons in Hg as [Hx Hgs].
  destruct (pop_mk mk x gs Eg Hh Hw) as (Hh0 & Hw0 & Hp0). set (mk0 := mk_with mk (mk_mem mk) gs) in *.
  destruct (remark_ok mk0 x Hx) as (mk1 & hx & ox & -> & Hpo & Ex1 & Ex0). pose proof (po_sim _ _ _ Hpo) as Hs0.
  assert (Hh1 : heap_ok (mk_mem mk1) it) by (by eapply sim_heap_ok).
  assert (Hx1 : gray_ok (mk_mem mk1) x) by (destruct Hx; split; [by eapply sim_present|done]).
  assert (Hw1 : weak_ok mk1) by (eapply weak_ok_sim; [exact Hs0|apply Hpo|done]).
  destruct (scan_ok x mk1 Hw1 Hh1 Hx1 false) as (mk2 & Esc & Hsp). pose proof (sp_step _ _ _ Hsp) as S.
  pose proof (ms_sim _ _ _ S) as Hs1. assert (Hs : sim (mk_mem mk) (mk_mem mk2)) by (by eapply sim_trans).
  destruct (ms_gray _ _ _ S) as (g & Eg2 & Hg2), (ms_again _ _ _ S) as (a & Ea2 & Ha2).
  rewrite (po_gray _ _ _ Hpo) in Eg2. destruct (po_keeps _ _ _ Hpo) as [La Lw]. rewrite La in Ea2.
  cbn [mk0 gray again mk_with] in Eg2, Ea2.
  assert (Hpend : forall y, y ∈ (x :: gs) ++ again mk -> y = x \/ y ∈ gray mk2 ++ again mk2).
  { intros y. rewrite Eg2, Ea2, !elem_of_app, elem_of_cons. tauto. }
  assert (Hpend' : forall r, r ∈ gray_ref <$> ((x :: gs) ++ again mk) ->
            r = gray_ref x \/ r ∈ gray_ref <$> (gray mk2 ++ again mk2)).
  { intros r (y & -> & [->|Hy]%Hpend)%list_elem_of_fmap; [by left|right].
    apply list_elem_of_fmap. eauto. }
  assert (Hmarks : more_marks (mk_mem mk) (mk_mem mk2)).
  { intros q h o h' o' E E' Hm. destruct (sim_lookup _ _ _ _ _ Hs0 E) as (h1 & o1 & E1 & _).
    eapply (ms_marks _ _ _ S); [exact E1|exact E'|]. by eapply (po_marks _ _ _ Hpo). }
  (* the earlier header of an object other than [x]'s *)
  assert (Hback : forall p h2 o2, mk_mem mk2 !! p = Some (h2, o2) -> marked h2 = true ->
            p = (gray_ref x).2 \/
            (p <> (gray_ref x).2 /\ exists h1 o1, mk_mem mk !! p = Some (h1, o1) /\ mk_mem mk1 !! p = Some (h1, o1) /\
               marked h1 = true /\ obj_sim o1 o2) \/
            (obj_kind o2 = GcObjectKind.Table -> is_black h2 = true) /\
            ((obj_kind o2, p) ∈ gray_ref <$> gray mk2 \/ immediate (obj_kind o2))).
  { intros p h2 o2 E2 Hm2. destruct (decide (p = (gray_ref x).2)) as [|Hne]; [by left|right].
    destruct (sim_lookup_back _ _ _ _ _ Hs1 E2) as (h1 & o1 & E1 & Ho). pose proof (po_other _ _ _ Hpo p Hne) as E0.
    rewrite E1 in E0. symmetry in E0. destruct (marked h1) eqn:Hm1; [left; split; [done|]; exists h1, o1; eauto|right].
    destruct (ms_new _ _ _ S _ _ _ _ _ E1 E2 Hm1 Hm2) as [Hb Hn]. rewrite (obj_sim_kind _ _ Ho). tauto. }
  exists mk1, mk2. split; [done|]. split; [done|]. split; [|split; [done|split; [done|split]]].
  - split.
    + by eapply mstep_heap_ok.
    + apply Hsp.
    + rewrite Eg2. apply Forall_app. split; [exact (gray_ok_sim _ _ _ Hs1 Hg2)|exact (gray_ok_sim _ _ _ Hs Hgs)].
    + rewrite Ea2. apply Forall_app. split; [exact (gray_ok_sim _ _ _ Hs1 Ha2)|exact (gray_ok_sim _ _ _ Hs Ha)].
    + eapply (tri_scan W0 x mk0 mk1 mk2 ((x :: gs) ++ again mk)); [done..|exact Hpend|].
      intros y Hy. apply elem_of_app. by left.
    + intros p h2 l2 E2 Hm2. destruct (Hback _ _ _ E2 Hm2) as [->|[(Hne & h1 & o1 & E0 & _ & Hm1 & Ho)|[_ [Hn|[_ ?]]]]].
      * assert ((gray_ref x).1 = GcObjectKind.Thread) as Ek.
        { destruct (sim_lookup _ _ _ _ _ Hs Ex0) as (h' & o' & E' & Ho'). rewrite E2 in E'. simplify_eq.
          destruct Hx as [(hy & oy & Ey & <-) _]. cbn [mk0 mk_mem mk_with] in Ex0. rewrite Ey in Ex0. simplify_eq.
          by rewrite <- (obj_sim_kind _ _ Ho'). }
        eapply pending_ref; [by rewrite (surjective_pairing (gray_ref x)), Ek|]. apply elem_of_app. right.
        by apply (sp_again _ _ _ Hsp).
      * pose proof (obj_sim_kind _ _ Ho) as Ek. destruct o1 as [| | | |l1| | |]; try done.
        destruct (Hpend' _ (Hthr _ _ _ E0 Hm1)) as [Er|]; [|done]. by rewrite <- Er in Hne.
      * rewrite fmap_app, elem_of_app. by left.
      * done.
    + intros p h2 t2 E2 Hm2. destruct (Hback _ _ _ E2 Hm2) as [->|[(Hne & h1 & o1 & E0 & E1 & Hm1 & Ho)|[Hb _]]].
      * left. destruct (sim_lookup_back _ _ _ _ _ Hs1 E2) as (h' & o' & E' & Ho'). rewrite Ex1 in E'. simplify_eq.
        eapply (ms_black _ _ _ S); [exact Ex1|exact E2|apply mark_header_black|by rewrite <- (obj_sim_kind _ _ Ho')].
      * pose proof (obj_sim_kind _ _ Ho) as Ek. destruct o1 as [|t1| | | | | |]; try done.
        destruct (Hblk _ _ _ E0 Hm1) as [Hb|Hp].
        { left. eapply (ms_black _ _ _ S); [exact E1|exact E2|done|done]. }
        destruct (Hpend' _ Hp) as [Er|]; [by rewrite <- Er in Hne|by right].
      * left. by apply Hb.
  - pose proof (sp_pot _ _ _ Hsp). pose proof (po_pot _ _ _ Hpo). lia.
  - destruct (ms_weak _ _ _ S) as (w & Ew). exists w. by rewrite Ew, Lw.
Qed.

Lemma propagate_step_ok W0 n : forall mk, prop_ok W0 mk ->
  exists mk' done, propagate_step n it mk = Some (mk', done) /\ prop_ok W0 mk' /\
    sim (mk_mem mk) (mk_mem mk') /\ more_marks (mk_mem mk) (mk_mem mk') /\
    (done = true <-> gray mk' = []) /\ (gray mk' = [] \/ (pot mk' + n <= pot mk)%nat) /\ (pot mk' <= pot mk)%nat /\
    (exists w, weak mk' = weak mk ++ w).
Proof.
  induction n as [|n IH]; intros mk Hk; cbn [propagate_step].
  { eexists _, _. split; [reflexivity|]. split; [done|]. split; [apply sim_refl|]. split; [apply more_marks_refl|].
    split; [apply bool_decide_eq_true|]. split; [right; lia|]. split; [done|]. exists []. by rewrite app_nil_r. }
  destruct (gray mk) as [|x gs] eqn:Eg.
  { eexists _, _. split; [reflexivity|]. split; [done|]. split; [apply sim_refl|]. split; [apply more_marks_refl|].
    split; [done|]. split; [by left|]. split; [done|]. exists []. by rewrite app_nil_r. }
  destruct (prop_iter W0 mk x gs Hk Eg) as (mk1 & mk2 & -> & -> & Hk2 & Hs & Hm & Hp & w & Ew).
  destruct (IH mk2 Hk2) as (mk' & d & -> & Hk' & Hs' & Hm' & Hd & Hn & Hp' & w' & Ew').
  exists mk', d. split; [done|]. split; [done|]. split; [by eapply sim_trans|]. split; [|split; [done|]].
  { intros p h o h' o' E E' Hmk. destruct (sim_lookup _ _ _ _ _ Hs E) as (h1 & o1 & E1 & _).
    eapply Hm'; [exact E1|exact E'|]. by eapply Hm. }
  split; [destruct Hn; [by left|right; lia]|]. split; [lia|]. exists (w ++ w'). by rewrite Ew', Ew, app_assoc.
Qed.
End Propagation.
