(* ===== verification/CollectorCycle.v ===== *)
(** * Starting and propagating a cycle

    The pools against the memory, the roots, and the invariant of the
    Propagate and Atomic states: the tri-colour invariant on a heap without
    dangling pointers, with the roots marked. *)

From Stdlib Require Import ZArith Lia Bool.
From stdpp Require Import base decidable numbers option gmap list.
From S2P Require Import Prelude Float64 Value Table TableGc Heap HeapSpec Intern InternSpec Collector.
From S2P Require Import CollectorRefs CollectorMark CollectorProp.

(** ** Pools *)

Definition pool_of (h : GcHeap) (k : GcObjectKind.t) : Pool :=
  match k with GcObjectKind.String => spool (strings h) | _ => pool h k end.

(** The pools list exactly the allocated objects. *)
Record pools_ok (h : GcHeap) : Prop := {
  po_in : forall p hd o, mem h !! p = Some (hd, o) -> p ∈ objects (pool_of h (obj_kind o));
  po_mem : forall k p, p ∈ objects (pool_of h k) -> present (mem h) (k, p);
  po_nodup : forall k, NoDup (objects (pool_of h k));
  po_kind : forall k, pkind (pool_of h k) = k;
  po_intern : intern_ok (mem h) (strings h);
}.

#[global] Instance GcObjectKind_eq_dec : EqDecision GcObjectKind.t.
Proof. solve_decision. Defined.

Lemma sim_strings m m' p : sim m m' -> string_at m' p = string_at m p.
Proof. apply sim_string. Qed.

Lemma pools_ok_sim h m : sim (mem h) m -> pools_ok h -> pools_ok (with_mem h m).
Proof.
  intros Hs [Hi Hm Hn Hk Ho]. split; cbn [mem strings with_mem].
  - intros p hd o E. destruct (sim_lookup_back _ _ _ _ _ Hs E) as (hd' & o' & E' & Hso).
    rewrite (obj_sim_kind _ _ Hso). exact (Hi _ _ _ E').
  - intros k p Hp. eapply sim_present; [exact Hs|]. by apply Hm.
  - apply Hn.
  - apply Hk.
  - eapply intern_ok_mem; [|exact Ho]. intros p. by apply sim_string.
Qed.

Lemma pools_ok_ext h h' : mem h' = mem h -> strings h' = strings h -> pool h' = pool h -> pools_ok h -> pools_ok h'.
Proof.
  intros Em Es Ep [Hi Hm Hn Hk Ho].
  assert (Epo : forall k, pool_of h' k = pool_of h k) by (intros []; cbn; by rewrite ?Es, ?Ep).
  split; intros; rewrite ?Epo, ?Es, ?Em in *; eauto.
Qed.

(** ** Resetting the marks *)

(** Unmarking [p]. *)
Definition unmark (h : GcHeader) : GcHeader := if marked h then mark_set h false else h.

Lemma reset_marked_spec k ps : forall m, (forall p, p ∈ ps -> present m (k, p)) -> NoDup ps ->
  exists m', reset_marked m k ps = Some m' /\ same_objs m m' /\
    (forall p, p ∉ ps -> m' !! p = m !! p) /\
    (forall p h o, p ∈ ps -> m !! p = Some (h, o) -> m' !! p = Some (unmark h, o)).
Proof.
  induction ps as [|p ps IH]; intros m Hp Hn; cbn [reset_marked].
  { exists m. split; [done|]. split; [done|]. split; [done|]. by intros p h o ?%elem_of_nil. }
  apply NoDup_cons in Hn as [Hnp Hn]. destruct (Hp p) as (h & o & E & Ek); [by left|]. cbn [fst snd] in E, Ek.
  rewrite (header_mut_Some _ _ _ _ _ _ E Ek). change (if marked h then mark_set h false else h) with (unmark h).
  destruct (IH (<[p := (unmark h, o)]> m)) as (m' & -> & Hs & Hout & Hin); [|done|].
  { intros q Hq. destruct (Hp q) as (hq & oq & Eq & Ekq); [by right|]. exists hq, oq. cbn [fst snd] in *.
    rewrite lookup_insert_ne; [done|]. by intros ->. }
  exists m'. split; [done|]. split; [eapply same_objs_trans; [by eapply same_objs_insert|exact Hs]|]. split.
  - intros q [Hne Hq]%not_elem_of_cons. rewrite Hout by done. by rewrite lookup_insert_ne.
  - intros q hq oq [->|Hq]%elem_of_cons Eq.
    + rewrite Hout by done. rewrite lookup_insert_eq. congruence.
    + eapply Hin; [done|]. rewrite lookup_insert_ne; [done|]. by intros ->.
Qed.

Lemma same_objs_sim m m' : same_objs m m' -> sim m m'.
Proof.
  intros Hs p. specialize (Hs p). destruct (m !! p) as [[h o]|], (m' !! p) as [[h' o']|]; try done.
  injection Hs as ->. by left.
Qed.

(** Nothing gets marked. *)
Definition fewer_marks (m m' : Mem) : Prop :=
  forall p h o h' o', m !! p = Some (h, o) -> m' !! p = Some (h', o') -> marked h = false -> marked h' = false.

Lemma reset_pools_spec h ks : forall m, pools_ok h -> same_objs (mem h) m -> (GcObjectKind.String ∉ ks) ->
  exists m', reset_pools h ks m = Some m' /\ same_objs m m' /\ fewer_marks m m' /\
    (forall p hd o, m' !! p = Some (hd, o) -> obj_kind o ∈ ks -> marked hd = false).
Proof.
  unfold reset_pools. induction ks as [|k ks IH]; intros m Hok Hs Hks; cbn [foldl].
  { exists m. split; [done|]. split; [done|]. split; [intros p hd o h' o' E E'; congruence|].
    by intros p hd o _ ?%elem_of_nil. }
  apply not_elem_of_cons in Hks as [Hk Hks].
  assert (Epool : pool h k = pool_of h k) by (by destruct k).
  destruct (reset_marked_spec k (objects (pool h k)) m) as (m1 & E1 & Hs1 & Hout & Hin).
  { intros p Hp. rewrite Epool in Hp. eapply sim_present; [by apply same_objs_sim|]. by apply po_mem. }
  { rewrite Epool. by apply po_nodup. }
  assert (Hf1 : fewer_marks m m1).
  { intros p hd o h' o' E E' Hm. destruct (decide (p ∈ objects (pool h k))) as [Hp|Hp].
    - rewrite (Hin _ _ _ Hp E) in E'. injection E' as <- <-. unfold unmark. by rewrite Hm.
    - rewrite Hout in E' by done. congruence. }
  rewrite E1. destruct (IH m1) as (m' & E' & Hs' & Hf' & Hm'); [done|by eapply same_objs_trans|done|].
  exists m'. split; [exact E'|]. split; [by eapply same_objs_trans|]. split.
  - intros p hd o h' o' E Ep Hm. destruct (same_objs_lookup _ _ _ _ _ Hs1 E) as (h1 & Em1).
    eapply Hf'; [exact Em1|exact Ep|]. by eapply Hf1.
  - intros p hd o Ep [Ek|Hk']%elem_of_cons; [|by eapply Hm'].
    pose proof (same_objs_sym _ _ Hs') as Hs''. destruct (same_objs_lookup _ _ _ _ _ Hs'' Ep) as (h1 & Em1).
    eapply Hf'; [exact Em1|exact Ep|].
    pose proof (same_objs_sym _ _ (same_objs_trans _ _ _ Hs Hs1)) as Hs0.
    destruct (same_objs_lookup _ _ _ _ _ Hs0 Em1) as (h0 & Em0).
    pose proof (po_in _ Hok _ _ _ Em0) as Hp. rewrite Ek, <- Epool in Hp.
    destruct (same_objs_lookup _ _ _ _ _ Hs Em0) as (hm & Em). pose proof (Hin _ _ _ Hp Em) as Em1'.
    rewrite Em1 in Em1'. injection Em1' as ->. unfold unmark. by destruct (marked hm) eqn:?.
Qed.

(** ** Roots *)

Definition trace_refs (t : Z * list LuaValue) : list Ref := (GcObjectKind.Proto, t.1) :: vrefs t.2.

Definition roots (g : GlobalState) : list Ref :=
  [(GcObjectKind.Table, globals g)] ++ [(GcObjectKind.Table, registry g)] ++ (basemt g ≫= mt_refs) ++
  vrefs (mmname g) ++ (ctype_mts g ≫= mt_refs) ++
  (io_file_cache g ≫= fun o => match o with Some v => vrefs [v] | None => [] end) ++
  [(GcObjectKind.Thread, main_thread g)] ++
  ([cur_l g] ≫= fun o => match o with Some th => [(GcObjectKind.Thread, th)] | None => [] end) ++
  (callbacks g ≫= fun '(freed, v) => if (freed : bool) then [] else vrefs [v]) ++
  ([callback_thread g] ≫= fun o => match o with Some th => [(GcObjectKind.Thread, th)] | None => [] end) ++
  (traces g ≫= trace_refs) ++
  ([rec_trace g] ≫= fun o => match o with Some t => trace_refs t | None => [] end).

Section Cycle.
Context (it : Interner).

Lemma marks_b f rs : marks it true f rs -> marks it false f rs.
Proof.
  intros Hf mk Hh Hp. destruct (Hf mk Hh Hp) as (mk' & E & S & _ & L & K). exists mk'. done.
Qed.

Lemma marks_each_some b {A} (f : Marker -> A -> option Marker) (R : A -> list Ref) (l : list (option A)) :
  (forall x, marks it b (fun mk => f mk x) (R x)) ->
  marks it b (each_some f l) (l ≫= fun o => match o with Some x => R x | None => [] end).
Proof. intros Hf. apply marks_each. intros [x|] _; [apply Hf|apply marks_skip]. Qed.

Lemma marks_trace b t : marks it b (fun mk => mark_trace mk t) (trace_refs t).
Proof.
  unfold mark_trace, trace_refs. apply (marks_seq _ _ _ _ [_]); [apply marks_proto|apply marks_values].
Qed.

Lemma marks_roots g : marks it false (mark_roots g) (roots g).
Proof.
  unfold mark_roots, roots.
  apply marks_seq; [apply marks_table|]. apply marks_seq; [apply marks_table|].
  apply marks_seq; [apply (marks_each_some _ _ (fun t => [(GcObjectKind.Table, t)])), marks_table|].
  apply marks_seq; [apply marks_values|].
  apply marks_seq; [apply (marks_each_some _ _ (fun t => [(GcObjectKind.Table, t)])), marks_table|].
  apply marks_seq; [apply (marks_each_some _ _ (fun v => vrefs [v])), marks_value|].
  apply marks_seq; [apply marks_thread|].
  apply marks_seq; [apply (marks_each_some _ _ (fun t => [(GcObjectKind.Thread, t)])), marks_thread|].
  apply marks_seq.
  { apply marks_each. intros [[] v] _; [apply marks_skip|apply marks_value]. }
  apply marks_seq; [apply (marks_each_some _ _ (fun t => [(GcObjectKind.Thread, t)])), marks_thread|].
  apply marks_seq; [apply marks_each; intros t _; apply marks_trace|].
  apply marks_each_some, marks_trace.
Qed.

(** A marking step keeps the invariant. *)
Lemma prop_ok_mstep W0 mk mk' : prop_ok it W0 mk -> mstep it mk mk' -> keeps mk mk' -> prop_ok it W0 mk'.
Proof.
  intros [Hh Hw Hg Ha Ht Hthr Hblk] S [La Lw]. pose proof (ms_sim _ _ _ S) as Hs.
  destruct (ms_gray _ _ _ S) as (g & Eg & Hg').
  assert (Hpend : forall r, r ∈ gray_ref <$> (gray mk ++ again mk) -> r ∈ gray_ref <$> (gray mk' ++ again mk')).
  { intros r. rewrite Eg, La, !fmap_app, !elem_of_app. tauto. }
  assert (Hback : forall p h2 o2, mk_mem mk' !! p = Some (h2, o2) -> marked h2 = true ->
    (exists h1 o1, mk_mem mk !! p = Some (h1, o1) /\ marked h1 = true /\ obj_sim o1 o2) \/
    (obj_kind o2 = GcObjectKind.Table -> is_black h2 = true) /\
    ((obj_kind o2, p) ∈ gray_ref <$> gray mk' \/ immediate (obj_kind o2))).
  { intros p h2 o2 E2 Hm2. destruct (sim_lookup_back _ _ _ _ _ Hs E2) as (h1 & o1 & E1 & Ho).
    destruct (marked h1) eqn:Hm1; [left; exists h1, o1; done|right]. rewrite (obj_sim_kind _ _ Ho).
    destruct (ms_new _ _ _ S _ _ _ _ _ E1 E2 Hm1 Hm2). tauto. }
  split.
  - by eapply mstep_heap_ok.
  - by eapply weak_ok_sim.
  - rewrite Eg. apply Forall_app. split; by eapply gray_ok_sim.
  - rewrite La. by eapply gray_ok_sim.
  - eapply tri_mstep; [exact Hh|exact S|exact Ht|..]; intros y; rewrite ?Eg, ?La, !elem_of_app; tauto.
  - intros p h2 l2 E2 Hm2. destruct (Hback _ _ _ E2 Hm2) as [(h1 & o1 & E1 & Hm1 & Ho)|[_ [Hn|[_ Hn]]]].
    + pose proof (obj_sim_kind _ _ Ho) as Ek. destruct o1 as [| | | |l1| | |]; try done. apply Hpend. by eapply Hthr.
    + rewrite fmap_app, elem_of_app. by left.
    + done.
  - intros p h2 t2 E2 Hm2. destruct (sim_lookup_back _ _ _ _ _ Hs E2) as (h1 & o1 & E1 & Ho).
    pose proof (obj_sim_kind _ _ Ho) as Ek. destruct o1 as [|t1| | | | | |]; try done.
    destruct (marked h1) eqn:Hm1.
    + destruct (Hblk _ _ _ E1 Hm1) as [Hb|Hp]; [|right; by apply Hpend].
      left. eapply (ms_black _ _ _ S); [exact E1|exact E2|done|done].
    + left. by apply (ms_new _ _ _ S _ _ _ _ _ E1 E2 Hm1 Hm2).
Qed.
End Cycle.

(** ** The states of a cycle *)

(** No cycle is running. *)
Record ready (g : GlobalState) : Prop := {
  rd_state : gc_state (heap g) = Pause;
  rd_heap : heap_ok (mem (heap g)) (strings (heap g));
  rd_pools : pools_ok (heap g);
  rd_roots : Forall (present (mem (heap g))) (roots g);
  rd_again : Forall (gray_ok (mem (heap g))) (gc_grayagain (heap g));
  rd_weak : gc_weak (heap g) = [];
  rd_mmu : mmudata (heap g) = [];
}.

(** The marker a step of the collector works with. *)
Definition marker (h : GcHeap) : Marker := mkMarker (mem h) (gc_gray h) (gc_grayagain h) [].

(** [Propagate] and [Atomic], with the roots [R]. *)
Record marking (R : list Ref) (h : GcHeap) : Prop := {
  mg_pools : pools_ok h;
  mg_prop : prop_ok (strings h) (gc_weak h) (marker h);
  mg_roots : Forall (kept (mem h)) R;
  mg_weak : forall p mode, (p, mode) ∈ gc_weak h -> present (mem h) (GcObjectKind.Table, p);
  mg_white : forall k, pool_white (pool_of h k) = current_white h;
  mg_mmu : mmudata h = [];
}.

(** The recorded weak modes are the ones of the tables: so it is as long as
    nothing writes to them. *)
Definition modes_ok (h : GcHeap) : Prop := weak_ok (mkMarker (mem h) [] [] (gc_weak h)).

Lemma start_gc_cycle_ok g : ready g ->
  exists g', start_gc_cycle g = Some g' /\ gc_state (heap g') = Propagate /\ marking (roots g) (heap g') /\
    modes_ok (heap g') /\ sim (mem (heap g)) (mem (heap g')) /\ g' = with_heap g (heap g') /\
    by_id (strings (heap g')) = by_id (strings (heap g)) /\
    current_white (heap g') = Z.lxor (current_white (heap g)) 1.
Proof.
  intros [Hst Hh Hpl Hr Ha Hw Hmu]. unfold start_gc_cycle. cbv zeta.
  set (cw := Z.lxor (current_white (heap g)) 1).
  set (it := strings (heap g)).
  set (it' := mkInterner (slots it) (nuse it) (ndead it) (by_id it) (free_ids it)
                (update_current_white (spool it) cw) (str_total it) (empty_sid it)).
  set (h := with_pools (heap g) it' (fun k => update_current_white (pool (heap g) k) cw) cw).
  assert (Hpl' : pools_ok h).
  { destruct Hpl as [Hi Hm Hn Hk Ho]. split; cbn [h mem strings with_pools].
    - intros p hd o E. specialize (Hi p hd o E). by destruct o.
    - intros k p Hp. apply Hm. by destruct k.
    - intros k. specialize (Hn k). by destruct k.
    - intros k. specialize (Hk k). by destruct k.
    - destruct Ho. by split. }
  assert (Hh' : heap_ok (mem h) it') by exact Hh.
  destruct (reset_pools_spec h
    [GcObjectKind.Table; GcObjectKind.Func; GcObjectKind.Thread; GcObjectKind.Upval;
     GcObjectKind.Proto; GcObjectKind.UserData; GcObjectKind.CData] (mem h) Hpl')
    as (m & Em & Hs & _ & Hm); [done|by intros Hin%list_elem_of_In; cbn in Hin; intuition discriminate|].
  rewrite Em. cbn [h gc_grayagain with_pools] in *.
  pose proof (same_objs_sim _ _ Hs) as Hsim.
  assert (Hnone : forall p hd o, m !! p = Some (hd, o) -> marked hd = true -> exists s, o = OString s).
  { intros p hd o E Hmk. destruct o as [s| | | | | | |]; [eauto|..];
      (assert (marked hd = false) by (eapply Hm; [exact E|apply list_elem_of_In; cbn; tauto]); congruence). }
  set (mk0 := mkMarker m [] (gc_grayagain (heap g)) []).
  assert (Hp0 : prop_ok it' [] mk0).
  { split; cbn [mk0 mk_mem gray again weak].
    - by eapply sim_heap_ok.
    - by intros p mode ?%elem_of_nil.
    - constructor.
    - by eapply gray_ok_sim.
    - intros p hd o E Hmk. destruct (Hnone _ _ _ E Hmk) as (s & ->). right. constructor.
    - intros p hd l E Hmk. by destruct (Hnone _ _ _ E Hmk).
    - intros p hd t E Hmk. by destruct (Hnone _ _ _ E Hmk). }
  destruct (marks_roots it' g mk0) as (mk & -> & S & _ & L & K).
  { apply Hp0. }
  { eapply Forall_impl; [exact Hr|]. intros r. by apply sim_present. }
  pose proof (prop_ok_mstep _ _ _ _ Hp0 S L) as Hp. pose proof (ms_sim _ _ _ S) as HsS.
  eexists. split; [reflexivity|]. cbn [heap with_heap with_state gc_state]. split; [done|].
  assert (Hs' : sim (mem (heap g)) (mk_mem mk)) by (eapply sim_trans; [exact Hsim|exact HsS]).
  destruct L as [La Lw]. cbn [mk0 again weak] in La, Lw.
  cbn [with_heap with_state with_grays with_mem heap mem strings gc_weak gc_gray gc_grayagain current_white].
  assert (gc_weak h = []) as -> by exact Hw. split; [split|].
  - apply (pools_ok_ext (with_mem h (mk_mem mk))); [done..|]. by apply (pools_ok_sim h).
  - unfold marker. cbn [with_heap with_state with_grays with_mem heap mem strings gc_weak gc_gray gc_grayagain].
    replace (mkMarker (mk_mem mk) (gray mk) (again mk) []) with mk; [exact Hp|].
    clear -Lw. destruct mk. cbn in Lw. by subst.
  - exact K.
  - by intros p mode ?%elem_of_nil.
  - intros k. by destruct k.
  - done.
  - split; [by intros p mode ?%elem_of_nil|]. done.
Qed.

(** ** Propagation steps *)

Lemma marking_sim R h h' : marking R h -> sim (mem h) (mem h') -> more_marks (mem h) (mem h') ->
  strings h' = strings h -> pool h' = pool h -> current_white h' = current_white h -> mmudata h' = mmudata h ->
  prop_ok (strings h') (gc_weak h') (marker h') ->
  (forall p mode, (p, mode) ∈ gc_weak h' -> present (mem h') (GcObjectKind.Table, p)) -> marking R h'.
Proof.
  intros [Hpl _ Hr _ Hwh Hmu] Hs Hm Es Ep Ec Emu Hp Hw.
  assert (Epo : forall k, pool_of h' k = pool_of h k) by (intros []; cbn; by rewrite ?Es, ?Ep).
  split; try done.
  - apply (pools_ok_ext (with_mem h (mem h'))); [done..|]. by apply pools_ok_sim.
  - by eapply Forall_kept_mono.
  - intros k. by rewrite Epo, Ec.
  - congruence.
Qed.

Lemma marking_state R h s : marking R h -> marking R (with_state h s).
Proof. intros [Hpl Hp Hr Hw Hwh Hmu]. split; try done. by apply (pools_ok_ext h). Qed.

Lemma weak_present h w : weak_ok (mkMarker (mem h) [] [] w) -> forall p mode, (p, mode) ∈ w ->
  present (mem h) (GcObjectKind.Table, p).
Proof.
  intros Hw p mode Hp. destruct (Hw p mode Hp) as (_ & t & vs & Et & _). cbn [mk_mem] in Et. unfold Heap.table_at in Et.
  destruct (mem h !! p) as [[hd []]|] eqn:E; try done. by eexists _, _.
Qed.

Lemma gc_propagate_ok R h : marking R h ->
  exists h', gc_propagate h = Some h' /\ marking R h' /\ (modes_ok h -> modes_ok h') /\
    sim (mem h) (mem h') /\ more_marks (mem h) (mem h') /\ (strings h' = strings h /\ pool h' = pool h) /\
    (gc_state h' = Atomic \/ gc_state h' = gc_state h /\ (pot (marker h') + 32 <= pot (marker h))%nat).
Proof.
  intros Hmk. pose proof Hmk as [Hpl Hp Hr Hw Hwh Hmu]. unfold gc_propagate. fold (marker h).
  destruct (propagate_step_ok (strings h) (gc_weak h) 32 (marker h) Hp)
    as (mk & done & -> & Hp' & Hs & Hm & Hd & Hpot & _ & w & Ew).
  cbn [marker mk_mem weak app] in Hs, Hm, Ew. subst w.
  set (h1 := with_grays _ _ _ _).
  assert (Hweak : forall p mode, (p, mode) ∈ gc_weak h ++ weak mk -> present (mk_mem mk) (GcObjectKind.Table, p)).
  { intros p mode [Hin|Hin]%elem_of_app; [by eapply sim_present, Hw|].
    apply (weak_present h1 (weak mk)) with (mode := mode); [|done]. exact (pr_weak _ _ _ Hp'). }
  assert (Hmk1 : marking R h1).
  { eapply marking_sim; [exact Hmk|exact Hs|exact Hm|done..| |exact Hweak].
    destruct Hp' as [P1 P2 P3 P4 P5 P6 P7]. split; try done; unfold marker; cbn [mk_mem gray again weak h1 mem with_grays
      gc_gray gc_grayagain gc_weak]; [by intros p mode ?%elem_of_nil|by rewrite app_nil_r]. }
  assert (Hmodes : modes_ok h -> modes_ok h1).
  { intros Ho p mode [Hin|Hin]%elem_of_app.
    - eapply (weak_ok_sim (mkMarker (mem h) [] [] (gc_weak h)) (mkMarker (mk_mem mk) [] [] (gc_weak h))); [exact Hs|done|exact Ho|done].
    - by apply (pr_weak _ _ _ Hp'). }
  eexists. split; [reflexivity|]. destruct (done && bool_decide (gray mk = [])) eqn:Ed.
  - split; [|split; [exact Hmodes|split; [done|split; [done|split; [done|by left]]]]].
    by apply marking_state.
  - split; [done|]. split; [exact Hmodes|]. split; [done|]. split; [done|]. split; [done|]. right. split; [done|].
    destruct Hpot as [Eg|Hpot]; [|exact Hpot]. exfalso. apply andb_false_iff in Ed as [Ed|Ed].
    + apply not_true_iff_false in Ed. by rewrite Hd in Ed.
    + by apply bool_decide_eq_false in Ed.
Qed.
