(* ===== verification/CollectorAtomic.v ===== *)
(** * The atomic phase

    At its end every marked object has all its references marked: the last
    propagation leaves nothing pending, finalizable objects are set apart with
    their metatables marked, and weak tables lose the entries that are not. *)

From Stdlib Require Import ZArith Lia Bool.
From stdpp Require Import base decidable numbers option gmap list.
From S2P Require Import Prelude Float64 Value Table TableGc Heap HeapSpec Intern InternSpec Collector.
From S2P Require Import CollectorRefs CollectorMark CollectorProp CollectorCycle.

(** Unmarked headers are not touched. *)
Definition same_white (m m' : Mem) : Prop :=
  forall p h o h' o', m !! p = Some (h, o) -> m' !! p = Some (h', o') ->
    marked h' = false -> obj_kind o <> GcObjectKind.Thread -> h' = h.

(** ** The last propagation *)

(** Nothing is pending. *)
Record traced (R : list Ref) (h : GcHeap) : Prop := {
  tr_pools : pools_ok h;
  tr_heap : heap_ok (mem h) (strings h);
  tr_tri : tri (strings h) (mem h) (gc_weak h) [];
  tr_roots : Forall (kept (mem h)) R;
  tr_weak : forall p mode, (p, mode) ∈ gc_weak h -> present (mem h) (GcObjectKind.Table, p);
  tr_white : forall k, pool_white (pool_of h k) = current_white h;
}.

Lemma atomic_propagate_ok R h : marking R h ->
  exists h', atomic_propagate h = Some h' /\ traced R h' /\ (modes_ok h -> modes_ok h') /\
    sim (mem h) (mem h') /\ more_marks (mem h) (mem h') /\
    h' = with_grays (with_mem h (mem h')) [] [] (gc_weak h').
Proof.
  intros [Hpl [Hh _ Hg Ha Ht _ _] Hr Hw Hwh Hmu]. cbn [marker mk_mem gray again weak] in *. unfold atomic_propagate.
  set (mk := mkMarker (mem h) (gc_gray h ++ gc_grayagain h) [] []).
  assert (exists mk', (if decide (gray mk = []) then Some mk else propagate (propagate_fuel mk) (strings h) true mk) = Some mk' /\
    sim (mem h) (mk_mem mk') /\ more_marks (mem h) (mk_mem mk') /\ weak_ok mk' /\
    tri (strings h) (mk_mem mk') (gc_weak h ++ weak mk') []) as (mk' & -> & Hs & Hm & Hw' & Ht').
  { destruct (decide (gray mk = [])) as [Eg|Eg].
    - exists mk. split; [done|]. split; [apply sim_refl|]. split; [apply more_marks_refl|].
      split; [by intros p mode ?%elem_of_nil|]. cbn [mk gray] in Eg. by rewrite Eg in Ht.
    - destruct (propagate_marks_ok (strings h) (gc_weak h) (propagate_fuel mk) mk)
        as (mk' & ? & ? & ? & ? & ? & _); [done|by intros p mode ?%elem_of_nil| | |done|eauto 7].
      + by apply Forall_app.
      + unfold propagate_fuel, pot. pose proof (unmarked_le (mk_mem mk)). lia. }
  eexists. split; [reflexivity|]. split; [|split; [|split; [done|split; [done|done]]]].
  - split; cbn [mem strings gc_weak current_white with_mem with_grays].
    + apply (pools_ok_ext (with_mem h (mk_mem mk'))); [done..|]. by apply pools_ok_sim.
    + by eapply sim_heap_ok.
    + done.
    + by eapply Forall_kept_mono.
    + intros p mode [Hin|Hin]%elem_of_app; [by eapply sim_present, Hw|].
      destruct (Hw' p mode Hin) as (_ & t & vs & Et & _). unfold Heap.table_at in Et.
      destruct (mk_mem mk' !! p) as [[hd []]|] eqn:E; try done. by eexists _, _.
    + intros k. rewrite <- (Hwh k). by destruct k.
  - intros Ho p mode [Hin|Hin]%elem_of_app; [|by apply Hw'].
    by eapply (weak_ok_sim (mkMarker (mem h) [] [] (gc_weak h)) (mkMarker (mk_mem mk') [] [] (gc_weak h))).
Qed.

(** ** Objects to finalize *)

(** Neither white nor black: what [make_undead] leaves. *)
Definition undead (h : GcHeader) : bool :=
  negb (has_bit h BIT_WHITE0) && negb (has_bit h BIT_WHITE1) && negb (has_bit h BIT_BLACK).

Lemma undead_finalized h : undead (set_finalized (make_undead h)) = true.
Proof.
  unfold undead, set_finalized, make_undead, has_bit, wb, clear_bits. cbn [bits].
  assert (forall b c, Z.land (unot 8 COLOR_MASK) c = 0 -> Z.land BIT_FINALIZED c = 0 ->
            Z.land (Z.lor (Z.land b (unot 8 COLOR_MASK)) BIT_FINALIZED) c = 0) as E.
  { intros b c E1 E2. by rewrite Z.land_lor_distr_l, <- Z.land_assoc, E1, E2, Z.land_0_r. }
  by rewrite !E by done.
Qed.

Lemma undead_survives cw h : undead h = true -> survives cw h = true.
Proof.
  unfold undead, survives, hdr_is_dead, is_black. rewrite !andb_true_iff, !negb_true_iff. intros [[-> ->] ->].
  destruct (cw =? 0); by rewrite orb_true_r.
Qed.

Definition fin_ref (f : Finalizable) : Ref :=
  match f with FUData p => (GcObjectKind.UserData, p) | FCLib p => (GcObjectKind.CData, p) end.

(** The same objects with the same marks. *)
Definition same_marks (m m' : Mem) : Prop :=
  forall p, match m !! p, m' !! p with
            | Some (h, o), Some (h', o') => o' = o /\ marked h' = marked h
            | None, None => True
            | _, _ => False
            end.

Lemma same_marks_refl m : same_marks m m.
Proof. intros p. by destruct (m !! p) as [[]|]. Qed.

Lemma same_marks_trans m1 m2 m3 : same_marks m1 m2 -> same_marks m2 m3 -> same_marks m1 m3.
Proof.
  intros H1 H2 p. specialize (H1 p). specialize (H2 p).
  destruct (m1 !! p) as [[]|], (m2 !! p) as [[]|], (m3 !! p) as [[]|]; try done. intuition congruence.
Qed.

Lemma same_marks_sim m m' : same_marks m m' -> sim m m'.
Proof.
  intros Hs p. specialize (Hs p). destruct (m !! p) as [[]|], (m' !! p) as [[]|]; try done.
  destruct Hs as [-> _]. by left.
Qed.

Lemma same_marks_more m m' : same_marks m m' -> more_marks m m'.
Proof. intros Hs p h o h' o' E E' Hm. specialize (Hs p). rewrite E, E' in Hs. destruct Hs. congruence. Qed.

Lemma same_marks_back m m' : same_marks m m' -> same_marks m' m.
Proof.
  intros Hs p. specialize (Hs p). destruct (m !! p) as [[]|], (m' !! p) as [[]|]; try done. intuition congruence.
Qed.

Lemma tri_same_marks it m m' W pend : heap_ok m it -> same_marks m m' -> tri it m W pend -> tri it m' W pend.
Proof.
  intros Hh Hs Ht p h o E Hm. pose proof (Hs p) as Hp. rewrite E in Hp.
  destruct (m !! p) as [[h0 o0]|] eqn:E0; [|done]. destruct Hp as [-> Hm0].
  destruct (Ht _ _ _ E0 ltac:(congruence)) as [?|Hsc]; [by left|right]. destruct (Hh _ _ _ E0) as (_ & Hok & _).
  eapply scanned_mono; [by apply same_marks_sim|by apply same_marks_more|done|exact Hok|by left|exact Hsc].
Qed.

Lemma separate_ok k wants f ps : forall m, (forall p, p ∈ ps -> present m (k, p)) -> NoDup ps ->
  (forall m' p, same_marks m m' -> p ∈ ps -> exists b, wants m' p = Some b) ->
  exists m' out, separate k wants f ps m = Some (m', out) /\ same_marks m m' /\
    (forall p, p ∉ ps -> m' !! p = m !! p) /\
    (forall x, x ∈ out -> exists p h o, p ∈ ps /\ x = f p /\ m' !! p = Some (h, o) /\ undead h = true).
Proof.
  induction ps as [|p ps IH]; intros m Hp Hn Hw; cbn [separate].
  { exists m, []. split; [done|]. split; [apply same_marks_refl|]. split; [done|]. by intros x ?%elem_of_nil. }
  apply NoDup_cons in Hn as [Hnp Hn]. destruct (Hp p) as (h & o & E & Ek); [by left|]. cbn [fst snd] in E, Ek.
  assert (header_at m k p = Some h) as -> by (apply header_at_Some; eauto).
  assert (exists w : bool, (if negb (marked h) && negb (hdr_is_finalized h) then wants m p else Some false) = Some w)
    as (w & ->).
  { destruct (_ && _); [|by eexists]. apply Hw; [apply same_marks_refl|by left]. }
  set (h1 := if w then set_finalized (make_undead h) else h).
  assert ((if w then header_mut m k p (fun h => set_finalized (make_undead h)) else Some m) = Some (<[p := (h1, o)]> m)) as ->.
  { destruct w; [by rewrite (header_mut_Some _ _ _ _ _ _ E Ek)|]. by rewrite insert_id. }
  assert (Hs1 : same_marks m (<[p := (h1, o)]> m)).
  { intros q. destruct (decide (p = q)) as [<-|Hne].
    - rewrite E, lookup_insert_eq. split; [done|]. subst h1. by destruct w.
    - rewrite lookup_insert_ne by done. by destruct (m !! q) as [[]|]. }
  destruct (IH (<[p := (h1, o)]> m)) as (m' & out & -> & Hs' & Hout & Hfin); [|done| |].
  { intros q Hq. destruct (Hp q) as (hq & oq & Eq & Ekq); [by right|]. exists hq, oq. cbn [fst snd] in *.
    rewrite lookup_insert_ne; [done|]. by intros ->. }
  { intros m' q Hm' Hq. apply Hw; [by eapply same_marks_trans|by right]. }
  eexists m', _. split; [reflexivity|]. split; [by eapply same_marks_trans|]. split.
  { intros q [Hne Hq]%not_elem_of_cons. rewrite Hout by done. by rewrite lookup_insert_ne. }
  assert (Htail : forall x, x ∈ out -> exists q hq oq, q ∈ p :: ps /\ x = f q /\ m' !! q = Some (hq, oq) /\ undead hq = true).
  { intros x (q & hq & oq & Hq & Hx)%Hfin. exists q, hq, oq. split; [by right|done]. }
  destruct w; [|exact Htail]. intros x [->|Hx]%elem_of_cons; [|by apply Htail].
  exists p, h1, o. split; [by left|]. split; [done|]. rewrite Hout by done. rewrite lookup_insert_eq.
  split; [done|apply undead_finalized].
Qed.

Lemma has_gc_meta_ok m it mt : heap_ok m it -> Forall (present m) (mt_refs mt) -> exists b, has_gc_meta m mt = Some b.
Proof.
  intros Hh Hr. destruct mt as [mt|]; [|by eexists]. cbn [has_gc_meta].
  destruct (Forall_inv Hr) as (h & o & E & Ek). cbn [fst snd] in E, Ek. destruct o as [|t| | | | | |]; try done.
  destruct (scan_key_ok m mt t GC_NAME) as (v & -> & _); [|apply (Hh _ _ _ E)|by eexists].
  unfold Heap.table_at. by rewrite E.
Qed.

Lemma separate_finalizable_ok R h : traced R h ->
  exists m' out, separate_finalizable h = Some (m', out) /\ same_marks (mem h) m' /\
    (forall x, x ∈ out -> exists hd o, m' !! (fin_ref x).2 = Some (hd, o) /\ obj_kind o = (fin_ref x).1 /\ undead hd = true).
Proof.
  intros [Hpl Hh _ _ _ _]. unfold separate_finalizable.
  destruct (separate_ok GcObjectKind.UserData
    (fun m p => let? u := userdata_at m p in has_gc_meta m (ud_metatable u)) FUData
    (objects (pool h GcObjectKind.UserData)) (mem h)) as (m1 & us & -> & Hs1 & Hout1 & Hus).
  { intros p Hp. by apply (po_mem _ Hpl GcObjectKind.UserData). }
  { apply (po_nodup _ Hpl GcObjectKind.UserData). }
  { intros m' p Hm' Hp. pose proof (same_marks_sim _ _ Hm') as Hsim.
    pose proof (sim_heap_ok _ _ _ Hsim Hh) as Hh'.
    destruct (sim_present _ _ _ Hsim (po_mem _ Hpl GcObjectKind.UserData p Hp)) as (hd & o & E & Ek).
    cbn [fst snd] in E, Ek. destruct o as [| | | | | | |u]; try done. unfold userdata_at. rewrite E.
    eapply has_gc_meta_ok; [done|]. apply (Hh' _ _ _ E). }
  destruct (separate_ok GcObjectKind.CData
    (fun m p => let? c := cdata_at m p in Some (ctypeid c =? CTID_CLIB)) FCLib
    (objects (pool h GcObjectKind.CData)) m1) as (m2 & cs & -> & Hs2 & Hout2 & Hcs).
  { intros p Hp. eapply sim_present; [by apply same_marks_sim|]. by apply (po_mem _ Hpl GcObjectKind.CData). }
  { apply (po_nodup _ Hpl GcObjectKind.CData). }
  { intros m' p Hm' Hp.
    destruct (sim_present (mem h) m' (GcObjectKind.CData, p)) as (hd & o & E & Ek).
    { apply same_marks_sim. by eapply same_marks_trans. }
    { by apply (po_mem _ Hpl GcObjectKind.CData). }
    cbn [fst snd] in E, Ek. destruct o; try done. unfold cdata_at. rewrite E. by eexists. }
  assert (Hs : same_marks (mem h) m2) by (by eapply same_marks_trans).
  assert (Hkind : forall k p hd o, p ∈ objects (pool_of h k) -> m2 !! p = Some (hd, o) -> obj_kind o = k).
  { intros k p hd o (h0 & o0 & E0 & Ek0)%(po_mem _ Hpl) E. cbn [fst snd] in E0, Ek0.
    specialize (Hs p). rewrite E0, E in Hs. by destruct Hs as [-> _]. }
  eexists _, _. split; [reflexivity|]. split; [done|].
  intros x [Hx|Hx]%elem_of_app.
  - apply Hus in Hx as (p & hd & o & Hp & -> & E & Hu). cbn [fin_ref fst snd].
    assert (E2 : m2 !! p = Some (hd, o)).
    { rewrite Hout2; [done|]. intros Hp2.
      pose proof (Hkind GcObjectKind.CData p) as H1. pose proof (Hkind GcObjectKind.UserData p) as H2.
      destruct (po_mem _ Hpl GcObjectKind.CData p Hp2) as (h0 & o0 & E0 & Ek0).
      destruct (po_mem _ Hpl GcObjectKind.UserData p Hp) as (h0' & o0' & E0' & Ek0'). cbn [fst snd] in *. congruence. }
    exists hd, o. split; [done|]. split; [|done]. by apply (Hkind GcObjectKind.UserData p hd).
  - apply Hcs in Hx as (p & hd & o & Hp & -> & E & Hu). exists hd, o. split; [done|]. split; [|done].
    by apply (Hkind GcObjectKind.CData p hd).
Qed.

(** The finalizer's metatable is marked and its object survives. *)
Definition fin_ok (m : Mem) (x : Finalizable) : Prop :=
  exists h o, m !! (fin_ref x).2 = Some (h, o) /\ obj_kind o = (fin_ref x).1 /\ (marked h = true \/ undead h = true) /\
    match o with OUserData u => Forall (kept m) (mt_refs (ud_metatable u)) | _ => True end.

Definition mark_finalizable (mk : Marker) (f : Finalizable) : option Marker :=
  let? mt := finalizable_metatable (mk_mem mk) f in
  match mt with Some mt => mark_table mk mt | None => Some mk end.

Lemma mark_finalizables_ok it l : forall mk, heap_ok (mk_mem mk) it ->
  Forall (fun x => present (mk_mem mk) (fin_ref x)) l ->
  exists mk', each mark_finalizable l mk = Some mk' /\ mstep it mk mk' /\ keeps mk mk' /\
    (forall p h u, FUData p ∈ l -> mk_mem mk' !! p = Some (h, OUserData u) ->
       Forall (kept (mk_mem mk')) (mt_refs (ud_metatable u))).
Proof.
  induction l as [|x l IH]; intros mk Hh Hl.
  { exists mk. split; [done|]. split; [apply mstep_refl|]. split; [done|]. by intros p h u ?%elem_of_nil. }
  rewrite each_cons. apply Forall_cons in Hl as [(h & o & E & Ek) Hl]. cbn [fst snd] in E, Ek.
  assert (exists mk1, mark_finalizable mk x = Some mk1 /\ mstep it mk mk1 /\ keeps mk mk1 /\
    (forall p u, x = FUData p -> o = OUserData u -> Forall (kept (mk_mem mk1)) (mt_refs (ud_metatable u))))
    as (mk1 & -> & S1 & L1 & K1).
  { unfold mark_finalizable. destruct x as [p|p]; cbn [fin_ref fst snd finalizable_metatable] in *.
    - destruct o as [| | | | | | |u]; try done. unfold userdata_at. rewrite E.
      destruct (Hh _ _ _ E) as (_ & _ & Hr). cbn [obj_refs] in Hr. destruct (ud_metatable u) as [mt|] eqn:Emt.
      + destruct (marks_table it true mt mk Hh Hr) as (mk1 & -> & S & _ & L & K). exists mk1.
        split; [done|]. split; [done|]. split; [done|]. intros p' u' _ [= <-]. rewrite Emt. exact K.
      + exists mk. split; [done|]. split; [apply mstep_refl|]. split; [done|]. intros p' u' _ [= <-]. rewrite Emt. constructor.
    - exists mk. split; [done|]. split; [apply mstep_refl|]. split; [done|]. by intros p' u' [=]. }
  pose proof (ms_sim _ _ _ S1) as Hs1.
  destruct (IH mk1) as (mk' & -> & S2 & L2 & K2).
  { by eapply mstep_heap_ok. }
  { eapply Forall_impl; [exact Hl|]. intros y. by apply sim_present. }
  exists mk'. split; [done|]. split; [by eapply mstep_trans|]. split; [by eapply keeps_trans|].
  intros p h' u [Ex|Hp]%elem_of_cons E'; [|by eapply K2]. subst x. cbn [fin_ref fst snd] in E.
  destruct (sim_lookup_back _ _ _ _ _ (sim_trans _ _ _ Hs1 (ms_sim _ _ _ S2)) E') as (h0 & o0 & E0 & [<-|(l' & -> & ?)]); [|done].
  rewrite E0 in E. injection E as <- <-. eapply mstep_kept; [exact S2|]. by eapply K1.
Qed.

Lemma fin_ok_sim it m m' x : sim m m' -> more_marks m m' -> same_white m m' -> heap_ok m it -> fin_ok m x -> fin_ok m' x.
Proof.
  intros Hs Hm Hw Hh (h & o & E & Ek & Hu & Hk).
  destruct (sim_lookup _ _ _ _ _ Hs E) as (h' & o' & E' & Ho). exists h', o'.
  assert (Hnt : obj_kind o <> GcObjectKind.Thread) by (rewrite Ek; by destruct x).
  split; [done|]. split; [by rewrite (obj_sim_kind _ _ Ho)|]. split.
  - destruct (marked h') eqn:Hm'; [by left|right]. destruct Hu as [Hu|Hu].
    + pose proof (Hm _ _ _ _ _ E E' Hu). congruence.
    + by rewrite (Hw _ _ _ _ _ E E' Hm' Hnt).
  - destruct Ho as [->|(l & -> & ->)]; [|done]. destruct o; try done. by eapply Forall_kept_mono.
Qed.

Lemma modes_sim h h' : sim (mem h) (mem h') -> gc_weak h' = gc_weak h -> modes_ok h -> modes_ok h'.
Proof. intros Hs Ew. by apply weak_ok_sim. Qed.

Lemma atomic_finalize_ok R h : traced R h -> mmudata h = [] -> gc_grayagain h = [] ->
  exists h', atomic_finalize h = Some h' /\ traced R h' /\ Forall (fin_ok (mem h')) (mmudata h') /\
    (modes_ok h -> modes_ok h') /\ sim (mem h) (mem h') /\ more_marks (mem h) (mem h') /\
    gc_grayagain h' = [] /\ strings h' = strings h /\ pool h' = pool h /\ current_white h' = current_white h.
Proof.
  intros Htr Hmu Hga. unfold atomic_finalize.
  destruct (separate_finalizable_ok R h Htr) as (m1 & mmu & -> & Hs1 & Hfin). destruct Htr as [Hpl Hh Ht Hr Hw Hwh].
  pose proof (same_marks_sim _ _ Hs1) as Hsim1. pose proof (same_marks_more _ _ Hs1) as Hmore1.
  assert (Hh1 : heap_ok m1 (strings h)) by (by eapply sim_heap_ok).
  assert (Ht1 : tri (strings h) m1 (gc_weak h) []) by exact (tri_same_marks _ _ _ _ _ Hh Hs1 Ht).
  destruct (decide (mmu = [])) as [->|Hne].
  { eexists. split; [reflexivity|]. split; [|split; [|split; [|split; [done|split; [done|done]]]]].
    - split; cbn [with_mem mem strings gc_weak current_white]; try done.
      + apply (pools_ok_sim h); done.
      + by eapply Forall_kept_mono.
      + intros p mode Hin. by eapply sim_present, Hw.
    - cbn [with_mem mmudata]. rewrite Hmu. constructor.
    - by apply modes_sim. }
  set (mk0 := mkMarker m1 [] [] []).
  destruct (mark_finalizables_ok (strings h) mmu mk0) as (mk1 & Ef & S1 & [La Lw] & K1).
  { done. }
  { apply Forall_forall. intros x Hx. destruct (Hfin x Hx) as (hd & o & ? & ? & _). by exists hd, o. }
  unfold mark_finalizable in Ef. rewrite Ef. cbn [mk0 again weak] in La, Lw.
  pose proof (ms_sim _ _ _ S1) as Hsim2. cbn [mk0 mk_mem] in Hsim2.
  pose proof (mstep_heap_ok _ _ _ S1 Hh1) as Hh2.
  destruct (propagate_marks_ok (strings h) (gc_weak h) (propagate_fuel mk1) mk1) as
    (mk2 & Ep & Hsim3 & Hm3 & Hw3 & Ht3 & _ & _ & Hsame3).
  { done. }
  { intros p mode Hin. rewrite Lw in Hin. by apply elem_of_nil in Hin. }
  { destruct (ms_gray _ _ _ S1) as (g & -> & Hg). cbn [mk0 gray]. rewrite app_nil_r. by eapply gray_ok_sim. }
  { unfold propagate_fuel, pot. pose proof (unmarked_le (mk_mem mk1)). lia. }
  { eapply (tri_mstep (strings h) (gc_weak h) mk0 mk1 []); [exact Hh1|exact S1| |by intros y ?%elem_of_nil|done].
    cbn [mk0 weak]. by rewrite app_nil_r. }
  cbv beta iota. change (strings (with_mem h m1)) with (strings h). rewrite Ep.
  assert (Hsim : sim (mem h) (mk_mem mk2)) by (eapply sim_trans; [exact Hsim1|by eapply sim_trans]).
  assert (Hmore : more_marks (mem h) (mk_mem mk2)).
  { intros p hd o h' o' E E' Hm. destruct (sim_lookup _ _ _ _ _ Hsim1 E) as (ha & oa & Ea & _).
    destruct (sim_lookup _ _ _ _ _ Hsim2 Ea) as (hb & ob & Eb & _).
    eapply Hm3; [exact Eb|exact E'|]. eapply (ms_marks _ _ _ S1); [exact Ea|exact Eb|]. by eapply Hmore1. }
  eexists. split; [reflexivity|].
  cbn [with_mmudata with_grays with_mem mem strings pool current_white gc_grayagain mmudata].
  split; [|split; [|split; [|split; [done|split; [done|done]]]]].
  - split; cbn [with_mmudata with_grays with_mem mem strings gc_weak current_white].
    + apply (pools_ok_ext (with_mem h (mk_mem mk2))); [done..|]. by apply pools_ok_sim.
    + by eapply sim_heap_ok.
    + done.
    + by eapply Forall_kept_mono.
    + intros p mode [Hin|Hin]%elem_of_app; [by eapply sim_present, Hw|].
      destruct (Hw3 p mode Hin) as (_ & t & vs & Et & _). unfold Heap.table_at in Et.
      destruct (mk_mem mk2 !! p) as [[hd []]|] eqn:E; try done. by eexists _, _.
    + intros k. rewrite <- (Hwh k). by destruct k.
  - rewrite Hmu. cbn [app]. apply Forall_forall. intros x Hx.
    eapply fin_ok_sim; [exact Hsim3|exact Hm3|exact Hsame3|exact Hh2|].
    destruct (Hfin x Hx) as (hd & o & E & Ek & Hu). destruct (sim_lookup _ _ _ _ _ Hsim2 E) as (h1 & o1 & E1 & Ho1).
    exists h1, o1. split; [done|]. split; [by rewrite (obj_sim_kind _ _ Ho1)|]. split.
    + destruct (marked h1) eqn:Hm1; [by left|right].
      rewrite (ms_same _ _ _ S1 _ _ _ _ _ E E1 Hm1); [done|]. rewrite Ek. by destruct x.
    + destruct o1 as [| | | | | | |u]; try done. pose proof (obj_sim_kind _ _ Ho1) as Ek1.
      destruct x as [p|p]; [|cbn in Ek, Ek1; congruence]. by eapply (K1 p h1 u).
  - intros Ho p mode [Hin|Hin]%elem_of_app; [|by apply Hw3].
    eapply (weak_ok_sim (mkMarker (mem h) [] [] (gc_weak h)) (mkMarker (mk_mem mk2) [] [] (gc_weak h))); done.
Qed.
