(* ===== verification/CollectorWeak.v ===== *)
(** * Clearing weak tables

    After the clearing every reference that a marked table still holds is
    marked; strong tables are not touched. *)

From Stdlib Require Import ZArith Lia Bool.
From stdpp Require Import base decidable numbers option gmap list.
From S2P Require Import Prelude Float64 Value Table TableGc Heap HeapSpec Intern InternSpec Collector.
From S2P Require Import CollectorRefs CollectorMark CollectorProp CollectorCycle CollectorAtomic.

(** ** One value, one table *)

Lemma value_ref_NIL : value_ref NIL = None.
Proof. reflexivity. Qed.

(** A value that is not cleared is kept, or is a string about to be marked. *)
Lemma may_clear_kept m v is_val cw k p strs : value_ref v = Some (k, p) -> present m (k, p) ->
  k <> GcObjectKind.UserData -> @may_clear (mem_view m) v is_val cw = (false, strs) ->
  kept m (k, p) \/ k = GcObjectKind.String /\ p ∈ strs.
Proof.
  intros Ev (h & o & E & Ek) Hu. cbn [fst snd] in E, Ek. unfold may_clear, value_ref in *.
  assert (Hkept : TableGc.is_marked (GcView := mem_view m) p = true -> kept m (k, p)).
  { cbn. rewrite E. intros Hm. exists h, o. auto. }
  destruct (itype v =? LJ_TSTR).
  { destruct (as_string v) as [q|]; [|done]. injection Ev as <- <-. intros [= <-]. right. split; [done|by left]. }
  assert (Hcase : forall (a : option Z) k', (fun p => (k', p)) <$> a = Some (k, p) ->
    (match a with Some p => negb (TableGc.is_marked (GcView := mem_view m) p) | None => false end, @nil Z) = (false, strs) ->
    kept m (k, p)).
  { intros [q|] k' Ea Ec; [|done]. injection Ea as -> ->. injection Ec as Hm%negb_false_iff _. by apply Hkept. }
  destruct (itype v =? LJ_TTAB); [intros Ec; left; exact (Hcase _ _ Ev Ec)|].
  destruct (itype v =? LJ_TFUNC); [intros Ec; left; exact (Hcase _ _ Ev Ec)|].
  destruct (itype v =? LJ_TTHREAD); [intros Ec; left; exact (Hcase _ _ Ev Ec)|].
  destruct (itype v =? LJ_TUDATA).
  { destruct (as_userdata v); [|done]. by injection Ev as <- <-. }
  destruct (itype v =? LJ_TCDATA); [intros Ec; left; exact (Hcase _ _ Ev Ec)|done].
Qed.

(** The strings marked on the way are values of the table. *)
Lemma may_clear_strs m v is_val cw b strs p : @may_clear (mem_view m) v is_val cw = (b, strs) -> p ∈ strs ->
  value_ref v = Some (GcObjectKind.String, p).
Proof.
  intros E%(f_equal snd) Hp. cbn [snd] in E. subst strs. revert Hp. unfold may_clear, value_ref.
  destruct (itype v =? LJ_TSTR); cbn [snd]; [|by intros ?%elem_of_nil].
  destruct (as_string v) as [q|]; [|by intros ?%elem_of_nil]. by intros ->%list_elem_of_singleton.
Qed.

(** What the clearing of a node leaves, at a live value. *)
Lemma clear_node_spec m cw nd nd' strs : @clear_node (mem_view m) cw nd = (nd', strs) ->
  key nd' = key nd /\ (nd' = nd \/ is_nil (val nd') = true) /\
  (forall p, p ∈ strs -> exists v, (v = key nd \/ v = val nd) /\ is_nil (val nd) = false /\
     value_ref v = Some (GcObjectKind.String, p)) /\
  (is_nil (val nd') = false -> forall v k p, v = key nd \/ v = val nd -> value_ref v = Some (k, p) -> present m (k, p) ->
     k <> GcObjectKind.UserData -> kept m (k, p) \/ k = GcObjectKind.String /\ p ∈ strs).
Proof.
  unfold clear_node. destruct (is_nil (val nd)) eqn:Hn.
  { intros [= <- <-]. split; [done|]. split; [by left|]. split; [by intros p ?%elem_of_nil|]. congruence. }
  destruct (may_clear (key nd) false cw) as [bk mk] eqn:Ek. destruct bk.
  { intros [= <- <-]. split; [done|]. split; [by right|]. split; [|done].
    intros p Hp. exists (key nd). split; [by left|]. split; [done|]. by eapply may_clear_strs. }
  destruct (may_clear (val nd) true cw) as [bv mv] eqn:Ev. intros [= <- <-].
  split; [by destruct bv|]. split; [destruct bv; [by right|by left]|]. split.
  - intros p [Hp|Hp]%elem_of_app.
    + exists (key nd). split; [by left|]. split; [done|]. by eapply may_clear_strs.
    + exists (val nd). split; [by right|]. split; [done|]. by eapply may_clear_strs.
  - intros Hl v k p Hv Er Hp Hu. destruct bv; [done|].
    destruct Hv as [-> | ->].
    + destruct (may_clear_kept _ _ _ _ _ _ _ Er Hp Hu Ek) as [?|[? ?]]; [by left|right].
      split; [done|]. apply elem_of_app. by left.
    + destruct (may_clear_kept _ _ _ _ _ _ _ Er Hp Hu Ev) as [?|[? ?]]; [by left|right].
      split; [done|]. apply elem_of_app. by right.
Qed.

Lemma clear_slot_spec m cw v v' strs : @clear_slot (mem_view m) cw v = (v', strs) ->
  (v' = v \/ v' = NIL) /\
  (forall p, p ∈ strs -> value_ref v = Some (GcObjectKind.String, p)) /\
  (forall k p, v' = v -> value_ref v = Some (k, p) -> present m (k, p) -> k <> GcObjectKind.UserData ->
     kept m (k, p) \/ k = GcObjectKind.String /\ p ∈ strs).
Proof.
  unfold clear_slot. destruct (may_clear v true cw) as [b mv] eqn:Ev. intros [= <- <-].
  split; [destruct b; auto|]. split; [intros p Hp; by eapply may_clear_strs|].
  intros k p Hv Er Hp Hu. destruct b; [subst v; by rewrite value_ref_NIL in Er|]. by eapply may_clear_kept.
Qed.

(** The references of a table, entry by entry. *)
Lemma elem_table_refs mode t r : r ∈ table_refs mode t <->
  r ∈ mt_refs (metatable t) \/
  (Z.land mode WEAKVAL = 0 /\ exists v, v ∈ array t /\ value_ref v = Some r) \/
  (exists nd v, nd ∈ node t /\ is_nil (val nd) = false /\ value_ref v = Some r /\
     (v = key nd /\ Z.land mode WEAKKEY = 0 \/ v = val nd /\ Z.land mode WEAKVAL = 0)).
Proof.
  unfold table_refs. rewrite elem_of_app. apply or_iff_compat_l. unfold vrefs. rewrite list_elem_of_omap.
  unfold table_values. setoid_rewrite elem_of_app. setoid_rewrite list_elem_of_join.
  setoid_rewrite list_elem_of_fmap. split.
  - intros (v & [Hv|(l & Hv & nd & -> & Hn)] & Er).
    + left. destruct (Z.eqb_spec (Z.land mode WEAKVAL) 0); [eauto|by apply elem_of_nil in Hv].
    + right. unfold node_values in Hv. destruct (is_nil (val nd)) eqn:Hnil; [by apply elem_of_nil in Hv|].
      exists nd, v. do 3 (split; [done|]). apply elem_of_app in Hv as [Hv|Hv].
      * left. destruct (Z.eqb_spec (Z.land mode WEAKKEY) 0); [|by apply elem_of_nil in Hv].
        by apply list_elem_of_singleton in Hv.
      * right. destruct (Z.eqb_spec (Z.land mode WEAKVAL) 0); [|by apply elem_of_nil in Hv].
        by apply list_elem_of_singleton in Hv.
  - intros [[Hm (v & Hv & Er)]|(nd & v & Hn & Hnil & Er & Hv)]; exists v; (split; [|done]).
    + left. by rewrite Hm.
    + right. exists (node_values mode nd). split; [|eauto]. unfold node_values. rewrite Hnil. apply elem_of_app.
      destruct Hv as [[-> ->]|[-> ->]]; [left|right]; by left.
Qed.

(** ** Clearing a table *)

(** The entries a cleared table has left were there before. *)
Definition shrinks (t t' : LuaTable) : Prop :=
  metatable t' = metatable t /\ (tab_shape t -> tab_shape t') /\
  forall mode r, r ∈ table_refs mode t' -> r ∈ table_refs mode t.

Lemma shrinks_refl t : shrinks t t.
Proof. done. Qed.

Lemma shrinks_trans t1 t2 t3 : shrinks t1 t2 -> shrinks t2 t3 -> shrinks t1 t3.
Proof.
  intros (E1 & S1 & R1) (E2 & S2 & R2). split; [congruence|]. split; [auto|]. intros mode r Hr. by apply R1, R2.
Qed.

Lemma elem_fst {A B} (l : list (A * B)) x : x ∈ l.*1 -> exists y, (x, y) ∈ l.
Proof. intros ([a b] & -> & Hx)%list_elem_of_fmap. eauto. Qed.

Lemma elem_snd_join {A B} (l : list (A * list B)) y : y ∈ mjoin l.*2 -> exists x ys, (x, ys) ∈ l /\ y ∈ ys.
Proof.
  intros (ys & Hy & Hys)%list_elem_of_join. apply list_elem_of_fmap in Hys as ([x ys'] & -> & Hx). eauto.
Qed.

Section Clear.
Context (m : Mem) (cw mode : Z) (t t' : LuaTable) (strs : list Z).
Hypothesis Hclear : @clear_weak_entries (mem_view m) t mode cw = (t', strs).

(** Slots and nodes of the cleared table, one by one. *)
Lemma cleared_slot v' : v' ∈ array t' -> exists v sl, v ∈ array t /\
  (v' = v /\ Z.land mode WEAKVAL = 0 \/
   @clear_slot (mem_view m) cw v = (v', sl) /\ forall p, p ∈ sl -> p ∈ strs).
Proof.
  unfold clear_weak_entries in Hclear. injection Hclear as <- <-. cbn [array].
  destruct (Z.eqb_spec (Z.land mode WEAKVAL) 0) as [Hz|Hz]; cbn [negb]; intros (y & Hy)%elem_fst.
  - apply list_elem_of_fmap in Hy as (v & [= -> _] & Hv). exists v, []. auto.
  - assert (Hy' := Hy). apply list_elem_of_fmap in Hy as (v & E & Hv). exists v, y. split; [done|]. right. split; [done|].
    intros p Hp. apply elem_of_app. left. apply list_elem_of_join. exists y. split; [done|].
    apply list_elem_of_fmap. by exists (v', y).
Qed.

Lemma cleared_node nd' : nd' ∈ node t' -> exists nd sl, nd ∈ node t /\
  (nd' = nd /\ Z.land mode (Z.lor WEAKKEY WEAKVAL) = 0 \/
   @clear_node (mem_view m) cw nd = (nd', sl) /\ forall p, p ∈ sl -> p ∈ strs).
Proof.
  unfold clear_weak_entries in Hclear. injection Hclear as <- <-. cbn [node].
  destruct (Z.eqb_spec (Z.land mode (Z.lor WEAKKEY WEAKVAL)) 0) as [Hz|Hz]; cbn [negb]; intros (y & Hy)%elem_fst.
  - apply list_elem_of_fmap in Hy as (v & [= -> _] & Hv). exists v, []. auto.
  - assert (Hy' := Hy). apply list_elem_of_fmap in Hy as (v & E & Hv). exists v, y. split; [done|]. right. split; [done|].
    intros p Hp. apply elem_of_app. right. apply list_elem_of_join. exists y. split; [done|].
    apply list_elem_of_fmap. by exists (nd', y).
Qed.

Lemma cleared_mt : metatable t' = metatable t.
Proof. unfold clear_weak_entries in Hclear. by injection Hclear as <- <-. Qed.

Lemma cleared_shrinks : shrinks t t'.
Proof.
  split; [apply cleared_mt|]. split.
  - intros Hs Hh. assert (Hh' : has_hpart t = false).
    { unfold clear_weak_entries in Hclear. by injection Hclear as <- <-. }
    specialize (Hs Hh'). rewrite Forall_forall in *. intros nd' Hn.
    destruct (cleared_node nd' Hn) as (nd & sl & Hnd & [[-> _]|[Hc _]]); [by apply Hs|].
    destruct (clear_node_spec _ _ _ _ _ Hc) as (_ & [->|?] & _); [by apply Hs|done].
  - intros md r. rewrite !elem_table_refs, cleared_mt. intros [Hm|[[Hz (v & Hv & Er)]|(nd' & v & Hn & Hl & Er & Hv)]].
    + by left.
    + right. left. split; [done|]. destruct (cleared_slot v Hv) as (v0 & sl & Hv0 & [[-> _]|[Hc _]]); [eauto|].
      destruct (clear_slot_spec _ _ _ _ _ Hc) as ([->| ->] & _); [eauto|by rewrite value_ref_NIL in Er].
    + right. right. destruct (cleared_node nd' Hn) as (nd & sl & Hnd & [[-> _]|[Hc _]]); [eauto 8|].
      destruct (clear_node_spec _ _ _ _ _ Hc) as (_ & [->|Hd] & _); [eauto 8|congruence].
Qed.

Lemma cleared_strs p : p ∈ strs -> (GcObjectKind.String, p) ∈ table_refs 0 t.
Proof.
  intros Hp. unfold clear_weak_entries in Hclear. injection Hclear as _ <-. rewrite elem_table_refs.
  apply elem_of_app in Hp as [Hp|Hp]; apply elem_snd_join in Hp as (x & ys & Hx & Hp).
  - right. left. split; [done|]. destruct (negb _); apply list_elem_of_fmap in Hx as (v & E & Hv).
    + exists v. split; [done|]. symmetry in E. destruct (clear_slot_spec _ _ _ _ _ E) as (_ & Hs & _). by apply Hs.
    + injection E as -> ->. by apply elem_of_nil in Hp.
  - right. right. destruct (negb _); apply list_elem_of_fmap in Hx as (nd & E & Hn).
    + symmetry in E. destruct (clear_node_spec _ _ _ _ _ E) as (_ & _ & Hs & _).
      destruct (Hs p Hp) as (v & Hv & Hl & Er). exists nd, v. do 3 (split; [done|]).
      destruct Hv as [-> | ->]; [by left|by right].
    + injection E as -> ->. by apply elem_of_nil in Hp.
Qed.

(** All that is left is kept, once the strings are marked. *)
Lemma cleared_kept : Forall (present m) (table_refs 0 t) -> Forall (kept m) (table_refs mode t) ->
  Forall (fun r => r.1 <> GcObjectKind.UserData) (table_refs 0 t) ->
  forall r, r ∈ table_refs 0 t' -> kept m r \/ exists p, r = (GcObjectKind.String, p) /\ p ∈ strs.
Proof.
  rewrite !Forall_forall. intros Hp Hk Hu [k p] Hr. pose proof cleared_shrinks as (_ & _ & Hsub).
  pose proof (Hp _ (Hsub _ _ Hr)) as Hpr. pose proof (Hu _ (Hsub _ _ Hr)) as Hur. cbn [fst] in Hur.
  assert (Hgoal : kept m (k, p) \/ k = GcObjectKind.String /\ p ∈ strs -> kept m (k, p) \/ exists q, (k, p) = (GcObjectKind.String, q) /\ q ∈ strs).
  { intros [?|[-> ?]]; [by left|right; eauto]. }
  apply Hgoal. clear Hgoal. rewrite elem_table_refs, cleared_mt in Hr.
  destruct Hr as [Hm|[[_ (v & Hv & Er)]|(nd' & v & Hn & Hl & Er & Hv)]].
  - left. apply Hk, elem_table_refs. by left.
  - destruct (cleared_slot v Hv) as (v0 & sl & Hv0 & [[-> Hz]|[Hc Hsl]]).
    + left. apply Hk, elem_table_refs. right. left. eauto.
    + destruct (clear_slot_spec _ _ _ _ _ Hc) as ([->| ->] & _ & Hs); [|by rewrite value_ref_NIL in Er].
      destruct (Hs k p eq_refl Er Hpr Hur) as [?|[-> ?]]; [by left|right; auto].
  - destruct (cleared_node nd' Hn) as (nd & sl & Hnd & [[-> Hz]|[Hc Hsl]]).
    + left. apply Hk, elem_table_refs. right. right. exists nd, v. do 3 (split; [done|]).
      apply (f_equal (fun x => (Z.land x WEAKKEY, Z.land x WEAKVAL))) in Hz. rewrite <- !Z.land_assoc in Hz.
      injection Hz as Hz1 Hz2. change (Z.land (Z.lor WEAKKEY WEAKVAL) WEAKKEY) with WEAKKEY in Hz1.
      change (Z.land (Z.lor WEAKKEY WEAKVAL) WEAKVAL) with WEAKVAL in Hz2.
      destruct Hv as [[-> _]|[-> _]]; auto.
    + destruct (clear_node_spec _ _ _ _ _ Hc) as (Ekey & [->|Hd] & _ & Hs); [|congruence].
      destruct (Hs Hl v k p) as [?|[-> ?]]; [by destruct Hv as [[-> _]|[-> _]]; auto|done|done|done|by left|right; auto].
Qed.
End Clear.

(** ** Clearing the tables of the weak list *)

Definition obj_cleared (o o' : GcObj) : Prop :=
  o' = o \/ exists t t', o = OTable t /\ o' = OTable t' /\ shrinks t t'.

(** Tables lose entries, strings are marked. *)
Definition cleared (m m' : Mem) : Prop :=
  forall p, match m !! p, m' !! p with
            | Some (h, o), Some (h', o') =>
                obj_cleared o o' /\ (marked h = true -> marked h' = true) /\ (marked h' = false -> h' = h) /\
                (marked h = false -> marked h' = true -> obj_kind o = GcObjectKind.String)
            | None, None => True
            | _, _ => False
            end.

Lemma obj_cleared_kind o o' : obj_cleared o o' -> obj_kind o' = obj_kind o.
Proof. by intros [->|(t & t' & -> & -> & _)]. Qed.

Lemma obj_cleared_trans o1 o2 o3 : obj_cleared o1 o2 -> obj_cleared o2 o3 -> obj_cleared o1 o3.
Proof.
  intros [->|(t & t' & -> & -> & H1)] H2; [done|]. right. destruct H2 as [->|(t1 & t2 & [= <-] & -> & H2)].
  - eauto 6.
  - exists t, t2. split; [done|]. split; [done|]. by eapply shrinks_trans.
Qed.

Lemma cleared_refl m : cleared m m.
Proof.
  intros p. destruct (m !! p) as [[h o]|]; [|done]. split; [by left|]. split; [done|]. split; [done|]. congruence.
Qed.

Lemma cleared_trans m1 m2 m3 : cleared m1 m2 -> cleared m2 m3 -> cleared m1 m3.
Proof.
  intros H1 H2 p. specialize (H1 p). specialize (H2 p).
  destruct (m1 !! p) as [[h1 o1]|], (m2 !! p) as [[h2 o2]|], (m3 !! p) as [[h3 o3]|]; try done.
  destruct H1 as (O1 & A1 & B1 & C1), H2 as (O2 & A2 & B2 & C2). split; [by eapply obj_cleared_trans|].
  split; [auto|]. rewrite (obj_cleared_kind _ _ O1) in C2. split.
  - intros Hm. specialize (B2 Hm). subst h3. auto.
  - intros Hm1 Hm3. destruct (marked h2) eqn:Hm2; auto.
Qed.

Lemma cleared_lookup m m' p h o : cleared m m' -> m !! p = Some (h, o) ->
  exists h' o', m' !! p = Some (h', o') /\ obj_cleared o o' /\ (marked h = true -> marked h' = true).
Proof.
  intros Hc E. specialize (Hc p). rewrite E in Hc. destruct (m' !! p) as [[h' o']|]; [|done].
  destruct Hc as (? & ? & _). eauto.
Qed.

Lemma cleared_lookup_back m m' p h' o' : cleared m m' -> m' !! p = Some (h', o') ->
  exists h o, m !! p = Some (h, o) /\ obj_cleared o o' /\ (marked h' = false -> h' = h) /\
    (marked h = false -> marked h' = true -> obj_kind o = GcObjectKind.String).
Proof.
  intros Hc E. specialize (Hc p). rewrite E in Hc. destruct (m !! p) as [[h o]|]; [|done].
  destruct Hc as (? & ? & ? & ?). eauto 7.
Qed.

Lemma cleared_present m m' r : cleared m m' -> present m r -> present m' r.
Proof.
  intros Hc (h & o & E & Ek). destruct (cleared_lookup _ _ _ _ _ Hc E) as (h' & o' & E' & Ho & _).
  exists h', o'. by rewrite (obj_cleared_kind _ _ Ho).
Qed.

Lemma cleared_keeps m m' r : cleared m m' -> kept m r -> kept m' r.
Proof.
  intros Hc (h & o & E & Ek & Hk). destruct (cleared_lookup _ _ _ _ _ Hc E) as (h' & o' & E' & Ho & Hm).
  exists h', o'. rewrite (obj_cleared_kind _ _ Ho). intuition.
Qed.

Lemma cleared_string m m' p : cleared m m' -> string_at m' p = string_at m p.
Proof.
  intros Hc. specialize (Hc p). unfold string_at. destruct (m !! p) as [[h o]|], (m' !! p) as [[h' o']|]; try done.
  destruct Hc as ([->|(t & t' & -> & -> & _)] & _); done.
Qed.

Lemma cleared_uv_get m m' u : cleared m m' -> uv_get m' u = uv_get m u.
Proof.
  intros Hc. unfold uv_get, thread_at. destruct (uv_v u) as [|th i|]; [done| |done]. specialize (Hc th).
  destruct (m !! th) as [[h o]|], (m' !! th) as [[h' o']|]; try done.
  destruct Hc as ([->|(t & t' & -> & -> & _)] & _); done.
Qed.

Lemma cleared_refs m m' it o o' r : cleared m m' -> obj_cleared o o' -> r ∈ obj_refs m' it o' -> r ∈ obj_refs m it o.
Proof.
  intros Hc [->|(t & t' & -> & -> & _ & _ & Hr)]; [|apply Hr].
  destruct o as [| |[]|u| | | |]; try done. cbn [obj_refs]. by rewrite (cleared_uv_get _ _ _ Hc).
Qed.

Lemma cleared_obj_ok m m' p o o' : cleared m m' -> obj_cleared o o' -> obj_ok m p o -> obj_ok m' p o'.
Proof.
  intros Hc [->|(t & t' & -> & -> & _ & Hs & _)] Hok; [|by apply Hs].
  destruct o as [|t|f|u|l|pt|c|u]; try done; cbn [obj_ok] in *.
  - destruct (uv_v u) as [|th i|]; try done. destruct Hok as (h & l & E & Hi).
    destruct (cleared_lookup _ _ _ _ _ Hc E) as (h' & o' & E' & [->|(t & t' & ? & _)] & _); [eauto|done].
  - destruct Hok as (? & ? & Hu). do 2 (split; [done|]). intros q Hq. destruct (Hu q Hq) as (h & u & E & Hv).
    destruct (cleared_lookup _ _ _ _ _ Hc E) as (h' & o' & E' & [->|(t & t' & ? & _)] & _); [eauto|done].
Qed.

Lemma cleared_heap_ok m m' it : cleared m m' -> heap_ok m it -> heap_ok m' it.
Proof.
  intros Hc Hh p h' o' E'. destruct (cleared_lookup_back _ _ _ _ _ Hc E') as (h & o & E & Ho & _).
  destruct (Hh _ _ _ E) as (Ha & Hok & Hr). split; [done|]. split; [by eapply cleared_obj_ok|].
  rewrite Forall_forall in *. intros r Hin. eapply cleared_present; [done|]. eapply Hr, cleared_refs; done.
Qed.

(** Marking the strings that were met. *)
Lemma mark_strs_ok strs : forall m, (forall p, p ∈ strs -> present m (GcObjectKind.String, p)) ->
  exists m', foldl (fun acc p => let? m := acc in ptr_set_marked m GcObjectKind.String p) (Some m) strs = Some m' /\
    cleared m m' /\ (forall p, p ∈ strs -> kept m' (GcObjectKind.String, p)) /\ same_objs m m'.
Proof.
  induction strs as [|p strs IH]; intros m Hp; cbn [foldl].
  { exists m. split; [done|]. split; [apply cleared_refl|]. split; [by intros p ?%elem_of_nil|done]. }
  destruct (Hp p) as (h & o & E & Ek); [by left|]. cbn [fst snd] in E, Ek. rewrite (ptr_set_marked_ok _ _ _ _ _ E Ek).
  assert (Hc : cleared m (<[p := (mark_header h, o)]> m)).
  { intros q. destruct (decide (p = q)) as [<-|Hne].
    - rewrite E, lookup_insert_eq. split; [by left|]. by repeat split.
    - rewrite lookup_insert_ne by done. apply cleared_refl. }
  destruct (IH (<[p := (mark_header h, o)]> m)) as (m' & -> & Hc' & Hk & Hs).
  { intros q Hq. eapply cleared_present; [exact Hc|]. apply Hp. by right. }
  exists m'. split; [done|]. split; [by eapply cleared_trans|].
  split; [|eapply same_objs_trans; [by eapply same_objs_insert|exact Hs]].
  intros q [->|Hq]%elem_of_cons; [|by apply Hk]. eapply cleared_keeps; [exact Hc'|].
  exists (mark_header h), o. cbn [fst snd]. rewrite lookup_insert_eq. auto.
Qed.

(** The references a value may have are readable. *)
Lemma val_readable_ok m v : (forall r, value_ref v = Some r -> present m r) -> val_readable m v = true.
Proof.
  intros Hp. unfold val_readable. destruct (value_ref v) as [[k p]|]; [|done].
  destruct (Hp _ eq_refl) as (h & o & E & Ek).
  assert (header_at m k p = Some h) as -> by (apply header_at_Some; eauto). done.
Qed.

Lemma entries_readable_ok m t : Forall (present m) (table_refs 0 t) -> entries_readable m t = true.
Proof.
  rewrite Forall_forall. intros Hp. unfold entries_readable. apply andb_true_iff. split; apply forallb_forall.
  - intros v Hv%list_elem_of_In. apply val_readable_ok. intros r Er. apply Hp, elem_table_refs. right. left. eauto.
  - intros nd Hn%list_elem_of_In. destruct (is_nil (val nd)) eqn:Hl; [done|]. cbn [orb]. apply andb_true_iff.
    split; apply val_readable_ok; intros r Er; apply Hp, elem_table_refs; right; right; exists nd; eauto 8.
Qed.

Definition no_userdata (t : LuaTable) : Prop := Forall (fun r => r.1 <> GcObjectKind.UserData) (table_refs 0 t).

Lemma clear_table_ok cw m it t mode W tb : heap_ok m it -> Heap.table_at m t = Some tb -> no_userdata tb ->
  tri it m ((t, mode) :: W) [] ->
  exists m', clear_table cw m t mode = Some m' /\ cleared m m' /\ tri it m' W [] /\
    (forall p, p <> t -> snd <$> m' !! p = snd <$> m !! p).
Proof.
  intros Hh Et Hu Ht. unfold clear_table. rewrite Et. unfold Heap.table_at in Et.
  destruct (m !! t) as [[h []]|] eqn:E; try done. injection Et as ->.
  destruct (Hh _ _ _ E) as (_ & Hs & Hr). cbn [obj_refs obj_ok] in Hs, Hr. rewrite entries_readable_ok by done.
  destruct (clear_weak_entries tb mode cw) as [tb' strs] eqn:Ec.
  unfold obj_set. rewrite E, decide_True by done.
  assert (Hc1 : cleared m (<[t := (h, OTable tb')]> m)).
  { intros q. destruct (decide (t = q)) as [<-|Hne].
    - rewrite E, lookup_insert_eq. split; [|repeat split; congruence]. right. exists tb, tb'.
      do 2 (split; [done|]). by eapply cleared_shrinks.
    - rewrite lookup_insert_ne by done. apply cleared_refl. }
  destruct (mark_strs_ok strs (<[t := (h, OTable tb')]> m)) as (m' & -> & Hc2 & Hk & Hs2).
  { intros p Hp. eapply cleared_present; [exact Hc1|]. rewrite Forall_forall in Hr. apply Hr. by eapply cleared_strs. }
  pose proof (cleared_trans _ _ _ Hc1 Hc2) as Hc. exists m'. split; [done|]. split; [done|]. split.
  - intros p h' o' E' Hm'. right. destruct (cleared_lookup_back _ _ _ _ _ Hc E') as (h0 & o0 & E0 & Ho & _ & Hstr).
    destruct (marked h0) eqn:Hm0; [|].
    2: { specialize (Hstr eq_refl Hm'). destruct o0; try done. destruct Ho as [->|(? & ? & ? & _)]; [constructor|done]. }
    destruct (Ht _ _ _ E0 Hm0) as [Hp|Hsc]; [by apply elem_of_nil in Hp|].
    assert (Hmono : Forall (kept m) (obj_refs m it o0) -> Forall (kept m') (obj_refs m' it o')).
    { rewrite !Forall_forall. intros Hf r Hin. eapply cleared_keeps; [exact Hc|]. eapply Hf, cleared_refs; done. }
    assert (Htab : forall t0, o0 = OTable t0 -> exists t1, o' = OTable t1 /\ shrinks t0 t1).
    { intros t0 ->. destruct Ho as [->|(t0' & t1 & [= <-] & -> & Hsh)]; [|eauto]. by exists t0. }
    destruct o0 as [|t0| |u| | | |];
      try (by destruct Ho as [->|(? & ? & ? & _)]; [exact (Hmono Hsc)|]).
    + destruct (Htab t0 eq_refl) as (t1 & -> & Hsh). destruct Hsc as (md & Hmd & Hkept).
      assert (Hold : md = 0 \/ (p, md) ∈ W -> scanned m' it W p (OTable t1)).
      { intros Hin. exists md. split; [done|]. rewrite Forall_forall in *. intros r Hr1.
        eapply cleared_keeps; [exact Hc|]. by apply Hkept, Hsh. }
      destruct Hmd as [|[[= -> ->]|?]%elem_of_cons]; [by apply Hold; left| |by apply Hold; right].
      rewrite E in E0. injection E0 as <- <-. pose proof (Hs2 t) as Ht1. rewrite E', lookup_insert_eq in Ht1.
      injection Ht1 as ->. exists 0. split; [by left|]. apply Forall_forall. intros r Hin.
      destruct (cleared_kept m cw mode tb tb' strs Ec Hr Hkept Hu r Hin) as [?|(q & -> & Hq)];
        [by eapply cleared_keeps|by apply Hk].
    + destruct Ho as [->|(? & ? & ? & _)]; [|done].
      destruct Hsc as [Hf|(th & i & Eu & Hkt)]; [left; exact (Hmono Hf)|right].
      exists th, i. split; [done|]. by eapply cleared_keeps.
  - intros p Hp. specialize (Hs2 p). by rewrite lookup_insert_ne in Hs2.
Qed.

Lemma clear_weak_fold cw it w : forall m, heap_ok m it -> tri it m w [] ->
  (forall t mode, (t, mode) ∈ w -> exists tb, Heap.table_at m t = Some tb /\ no_userdata tb) ->
  exists m', foldl (fun acc '(t, mode) => let? m := acc in clear_table cw m t mode) (Some m) w = Some m' /\
    cleared m m' /\ tri it m' [] [] /\ (forall p, p ∉ w.*1 -> snd <$> m' !! p = snd <$> m !! p).
Proof.
  induction w as [|[t mode] w IH]; intros m Hh Ht Hw; cbn [foldl].
  { exists m. split; [done|]. split; [apply cleared_refl|done]. }
  destruct (Hw t mode) as (tb & Etb & Hu); [by left|].
  destruct (clear_table_ok cw m it t mode w tb Hh Etb Hu Ht) as (m1 & -> & Hc1 & Ht1 & Hf1).
  destruct (IH m1) as (m' & -> & Hc & Ht' & Hf); [by eapply cleared_heap_ok|done| |].
  { intros t' mode' Hin. destruct (Hw t' mode') as (tb0 & E0 & Hu0); [by right|]. unfold Heap.table_at in *.
    destruct (m !! t') as [[h0 []]|] eqn:Em; try done. injection E0 as ->.
    destruct (cleared_lookup _ _ _ _ _ Hc1 Em) as (h1 & o1 & -> & [->|(t0 & t1 & [= <-] & -> & _ & _ & Hsub)] & _).
    - eauto.
    - exists t1. split; [done|]. unfold no_userdata in *. rewrite Forall_forall in *. intros r Hr. by apply Hu0, Hsub. }
  exists m'. split; [done|]. split; [by eapply cleared_trans|]. split; [done|].
  intros p Hp. rewrite fmap_cons, not_elem_of_cons in Hp. cbn [fst] in Hp. destruct Hp as [Hp1 Hp2]. by rewrite Hf, Hf1.
Qed.
