(* ===== verification/CollectorSweep.v ===== *)
(** * The sweep

    A set of live objects closed under references, containing the roots, that
    every step of the sweep leaves allocated and unchanged. *)

From Stdlib Require Import ZArith Lia Bool.
From stdpp Require Import base decidable numbers option gmap list.
From S2P Require Import Prelude Float64 Value Table TableGc Heap HeapSpec Intern InternSpec InternSweep Collector.
From S2P Require Import CollectorRefs CollectorMark CollectorProp CollectorCycle CollectorAtomic.

(** ** Live sets *)

(** [L] is closed under references, and none of them dangles. *)
Definition live_ok (m : Mem) (it : Interner) (L : Z -> Prop) : Prop :=
  forall p, L p -> exists h o, m !! p = Some (h, o) /\ obj_ok m p o /\
    Forall (fun r => L r.2 /\ present m r) (obj_refs m it o).

(** The live objects of [m0] are those of [m], where upvalues may have been
    closed with their values. *)
Definition same_object (m0 m : Mem) (o o' : GcObj) : Prop :=
  match o, o' with
  | OUpval u, OUpval u' => uv_get m u' = uv_get m0 u /\ immutable u' = immutable u
  | _, _ => o' = o
  end.

Definition keeps_live (L : Z -> Prop) (m0 m : Mem) : Prop :=
  forall p h o, L p -> m0 !! p = Some (h, o) -> exists h' o', m !! p = Some (h', o') /\ same_object m0 m o o'.

(** Where the sweep is: pools in order, [CData] never. *)
Definition pool_index (k : GcObjectKind.t) : Z :=
  match k with
  | GcObjectKind.String => 0 | GcObjectKind.Table => 1 | GcObjectKind.Func => 2 | GcObjectKind.Thread => 3
  | GcObjectKind.Upval => 4 | GcObjectKind.Proto => 5 | GcObjectKind.UserData => 6 | GcObjectKind.CData => 7
  end.

Lemma pool_index_inj k k' : pool_index k = pool_index k' -> k = k'.
Proof. by destruct k, k'. Qed.

(** The object at [p] of kind [k] is yet to be scanned. *)
Definition todo (objs : GcObjectKind.t -> list Z) (gsp : Z) (pos : nat) (k : GcObjectKind.t) (p : Z) : Prop :=
  gsp < pool_index k \/ gsp = pool_index k /\ p ∈ drop pos (objs k).

Record sweep_core (L : Z -> Prop) (R : list Ref) (m0 : Mem) (cw : Z) (it : Interner) (m : Mem)
    (objs : GcObjectKind.t -> list Z) (gsp : Z) (pos : nat) : Prop := {
  sc_in : forall p h o, m !! p = Some (h, o) -> p ∈ objs (obj_kind o);
  sc_mem : forall k p, p ∈ objs k -> present m (k, p);
  sc_nodup : forall k, NoDup (objs k);
  sc_intern : intern_ok m it;
  sc_addr : forall p h o, m !! p = Some (h, o) -> 0x1000 < p < ADDR_MAX;
  sc_live : live_ok m it L;
  sc_roots : Forall (fun r => L r.2 /\ present m r) R;
  (** live objects survive *)
  sc_surv : forall p h o, L p -> m !! p = Some (h, o) -> obj_kind o <> GcObjectKind.CData ->
    todo objs gsp pos (obj_kind o) p -> survives cw h = true;
  (** until the threads are swept, their open upvalues can be closed *)
  sc_thread : gsp <= 3 -> forall th h l uv, m !! th = Some (h, OThread l) -> uv ∈ openuv l ->
    exists hu u, m !! uv = Some (hu, OUpval u) /\
      (uv_v u = InTv \/ exists i, uv_v u = OnStack th i /\ (i < length (stack l))%nat);
  sc_keep : keeps_live L m0 m;
}.

Lemma sweep_core_ext L R m0 cw it m objs objs' gsp pos : (forall k, objs' k = objs k) ->
  sweep_core L R m0 cw it m objs gsp pos -> sweep_core L R m0 cw it m objs' gsp pos.
Proof.
  intros He [Hin Hme Hn Hi Ha Hl Hr Hs Ht Hkp]. split; try done.
  - intros p h o E. rewrite He. by eapply Hin.
  - intros k p. rewrite He. apply Hme.
  - intros k. rewrite He. apply Hn.
  - intros p h o HL E Hcd Htd. eapply Hs; [done..|]. unfold todo in *. by rewrite He in Htd.
Qed.

(** ** Changing headers of the memory *)

Lemma live_ok_same_objs m m' it L : same_objs m m' -> live_ok m it L -> live_ok m' it L.
Proof.
  intros Hs Hl p Hp. destruct (Hl p Hp) as (h & o & E & Hok & Hr).
  pose proof (same_objs_sim _ _ Hs) as Hsim. destruct (same_objs_lookup _ _ _ _ _ Hs E) as (h' & E').
  exists h', o. split; [done|]. split; [eapply sim_obj_ok; [exact Hsim|exact Hok|by left]|].
  rewrite (sim_refs _ _ it _ _ _ Hsim Hok (or_introl eq_refl)).
  eapply Forall_impl; [exact Hr|]. intros r [? ?]. split; [done|by eapply sim_present].
Qed.

Lemma same_objs_uv_get m m' u : same_objs m m' -> uv_get m' u = uv_get m u.
Proof.
  intros Hs. unfold uv_get, thread_at. destruct (uv_v u) as [|th i|]; [done| |done]. specialize (Hs th).
  destruct (m !! th) as [[? []]|], (m' !! th) as [[? []]|]; by simplify_eq/=.
Qed.

Lemma keeps_live_same_objs L m0 m m' : same_objs m m' -> keeps_live L m0 m -> keeps_live L m0 m'.
Proof.
  intros Hs Hk p h o HL E. destruct (Hk p h o HL E) as (h1 & o1 & E1 & Ho).
  destruct (same_objs_lookup _ _ _ _ _ Hs E1) as (h2 & E2). exists h2, o1. split; [done|].
  destruct o, o1; try done. cbn in *. by rewrite (same_objs_uv_get _ _ _ Hs).
Qed.

Lemma keeps_live_refl L m : keeps_live L m m.
Proof. intros p h o _ E. exists h, o. split; [done|]. by destruct o. Qed.

Lemma roots_same_objs m m' (L : Z -> Prop) R : same_objs m m' ->
  Forall (fun r => L r.2 /\ present m r) R -> Forall (fun r => L r.2 /\ present m' r) R.
Proof.
  intros Hs Hr. eapply Forall_impl; [exact Hr|]. intros r [? ?]. split; [done|].
  by eapply sim_present; [apply same_objs_sim|].
Qed.

Definition upd (objs : GcObjectKind.t -> list Z) (k : GcObjectKind.t) (l : list Z) : GcObjectKind.t -> list Z :=
  fun k' => if decide (k' = k) then l else objs k'.

Lemma objs_upd_eq objs k l : upd objs k l k = l.
Proof. unfold upd. by rewrite decide_True. Qed.

Lemma objs_upd_ne objs k l k' : k' <> k -> upd objs k l k' = objs k'.
Proof. intros. unfold upd. by rewrite decide_False. Qed.

Section Pool.
Context (L : Z -> Prop) (R : list Ref) (m0 : Mem) (cw : Z) (it : Interner) (objs : GcObjectKind.t -> list Z) (k : GcObjectKind.t).
Hypothesis Hk : k <> GcObjectKind.String /\ k <> GcObjectKind.CData.

(** The invariant while the pool [k] is swept. *)
Definition pool_inv (_ : unit) (m : Mem) (d r : list Z) : Prop :=
  sweep_core L R m0 cw it m (upd objs k (d ++ r)) (pool_index k) (length d).

Lemma todo_upd d r k' p : todo (upd objs k (d ++ r)) (pool_index k) (length d) k' p <->
  pool_index k < pool_index k' \/ k' = k /\ p ∈ r.
Proof.
  unfold todo. split; (intros [?|[E Hp]]; [by left|right]).
  - apply pool_index_inj in E. subst k'. split; [done|]. by rewrite objs_upd_eq, drop_app_length in Hp.
  - subst k'. split; [done|]. by rewrite objs_upd_eq, drop_app_length.
Qed.

Lemma pool_inv_perm a m d r r' : r ≡ₚ r' -> pool_inv a m d r -> pool_inv a m d r'.
Proof.
  intros Hp [Hin Hme Hn Hi Ha Hl Hr Hs Ht Hkp]. split; try done.
  - intros p h o E. specialize (Hin p h o E). unfold upd in *. destruct (decide _); [|done]. by rewrite <- Hp.
  - intros k' p. specialize (Hme k' p). unfold upd in *. destruct (decide _); [|done]. by rewrite <- Hp.
  - intros k'. specialize (Hn k'). unfold upd in *. destruct (decide _); [|done]. by rewrite <- Hp.
  - intros p h o HL E Hcd Htd. eapply Hs; [done..|]. rewrite todo_upd in *. by rewrite Hp.
Qed.

Lemma pool_inv_head a m d p r : pool_inv a m d (p :: r) ->
  exists h o, m !! p = Some (h, o) /\ obj_kind o = k /\ 0x1000 < p < ADDR_MAX /\
    (p ∉ d ++ r) /\ (L p -> survives cw h = true).
Proof.
  intros [Hin Hme Hn Hi Ha Hl Hr Hs Ht Hkp].
  destruct (Hme k p) as (h & o & E & Ek); [rewrite objs_upd_eq; apply elem_of_app; right; by left|]. cbn [fst snd] in E, Ek.
  exists h, o. split; [done|]. split; [done|]. split; [by eapply Ha|]. split.
  - specialize (Hn k). rewrite objs_upd_eq in Hn. apply NoDup_app in Hn as (_ & Hd & Hn%NoDup_cons).
    rewrite elem_of_app. intros [Hp|Hp]; [|by destruct Hn]. apply (Hd p Hp). by left.
  - intros HL. eapply Hs; [done|exact E|by rewrite Ek; apply Hk|]. rewrite Ek, todo_upd. right. split; [done|by left].
Qed.

(** A survivor. *)
Lemma pool_inv_keep a m d p r h o : pool_inv a m d (p :: r) -> m !! p = Some (h, o) ->
  pool_inv a (<[p := (swept h, o)]> m) (d ++ [p]) r.
Proof.
  intros HI E. destruct (pool_inv_head _ _ _ _ _ HI) as (h0 & o0 & E0 & Ek & _ & Hnp & _).
  rewrite E in E0. injection E0 as <- <-. pose proof (same_objs_insert m p h (swept h) o E) as Hso.
  destruct HI as [Hin Hme Hn Hi Ha Hl Hr Hs Ht Hkp].
  assert (Eapp : (d ++ [p]) ++ r = d ++ p :: r) by (by rewrite <- app_assoc). unfold pool_inv. rewrite Eapp.
  assert (Hback : forall q hq oq, <[p := (swept h, o)]> m !! q = Some (hq, oq) ->
    (q = p /\ oq = o /\ hq = swept h) \/ (q <> p /\ m !! q = Some (hq, oq))).
  { intros q hq oq Eq. destruct (decide (p = q)) as [<-|Hne]; [left|right].
    - rewrite lookup_insert_eq in Eq. by injection Eq as <- <-.
    - rewrite lookup_insert_ne in Eq by done. done. }
  split.
  - intros q hq oq [(-> & -> & _)|[_ Eq]]%Hback; by eapply Hin.
  - intros k' q Hq. eapply sim_present; [by apply same_objs_sim|by apply Hme].
  - done.
  - by eapply intern_ok_headers.
  - intros q hq oq [(-> & _)|[_ Eq]]%Hback; by eapply Ha.
  - by eapply live_ok_same_objs.
  - by eapply roots_same_objs.
  - intros q hq oq HL Eq Hcd Htd. rewrite <- Eapp, todo_upd in Htd.
    destruct (Hback _ _ _ Eq) as [(-> & -> & _)|[Hne Eq']].
    + exfalso. rewrite Ek in Htd. destruct Htd as [?|[_ Hp]]; [lia|]. apply Hnp, elem_of_app. by right.
    + eapply Hs; [done|exact Eq'|done|]. rewrite todo_upd. destruct Htd as [?|[? ?]]; [by left|right].
      split; [done|by right].
  - intros Hle th hth l uv Eth Huv.
    assert (exists hth', m !! th = Some (hth', OThread l)) as (hth' & Eth').
    { destruct (Hback _ _ _ Eth) as [(-> & <- & _)|[_ ?]]; eauto. }
    destruct (Ht Hle th hth' l uv Eth' Huv) as (hu & u & Eu & Hv).
    destruct (same_objs_lookup _ _ _ _ _ Hso Eu) as (hu' & Eu'). eauto.
  - by eapply keeps_live_same_objs.
Qed.

(** Freeing what is not live: [m1] is [m] with the upvalues that may point to
    it closed. *)
Lemma pool_inv_free a m m1 d p r h o : pool_inv a m d (p :: r) -> m !! p = Some (h, o) -> ~ L p ->
  sweep_core L R m0 cw it m1 (upd objs k (d ++ p :: r)) (pool_index k) (length d) ->
  (forall q hq u i, L q -> m1 !! q = Some (hq, OUpval u) -> uv_v u <> OnStack p i) ->
  (exists h1, m1 !! p = Some (h1, o)) ->
  pool_inv a (delete p m1) d r.
Proof.
  intros HI E HL HC Huvs [h1 E1]. destruct (pool_inv_head _ _ _ _ _ HI) as (h0 & o0 & E0 & Ek & _ & Hnp & _).
  rewrite E in E0. injection E0 as <- <-. clear HI. destruct HC as [Hin Hme Hn Hi Ha Hl Hr Hs Ht Hkp].
  assert (Hpres : forall q, L q.2 -> present m1 q -> present (delete p m1) q).
  { intros q HLq (hq & oq & Eq & Ekq). exists hq, oq. rewrite lookup_delete_ne; [done|]. by intros ->. }
  split.
  - intros q hq oq [Hne Eq]%lookup_delete_Some. specialize (Hin q hq oq Eq). unfold upd in *.
    destruct (decide _); [|done]. rewrite elem_of_app, elem_of_cons in Hin. rewrite elem_of_app.
    destruct Hin as [?|[->|?]]; [by left|done|by right].
  - intros k' q Hq. assert (Hne : q <> p).
    { intros ->. destruct (decide (k' = k)) as [->|Hne]; [by rewrite objs_upd_eq in Hq|].
      rewrite objs_upd_ne in Hq by done. destruct (Hme k' p) as (hq & oq & Eq & Ekq); [by rewrite objs_upd_ne|].
      cbn [fst snd] in Eq, Ekq. congruence. }
    assert (Hq' : q ∈ upd objs k (d ++ p :: r) k').
    { unfold upd in *. destruct (decide _); [|done]. rewrite elem_of_app in *. rewrite elem_of_cons. tauto. }
    destruct (Hme k' q Hq') as (hq & oq & Eq & Ekq). exists hq, oq. by rewrite lookup_delete_ne.
  - intros k'. specialize (Hn k'). unfold upd in *. destruct (decide _); [|done].
    apply NoDup_app in Hn as (Hn1 & Hn2 & [_ Hn3]%NoDup_cons). apply NoDup_app. split; [done|]. split; [|done].
    intros x Hx Hx'. apply (Hn2 x Hx). by right.
  - eapply intern_ok_mem; [|exact Hi]. intros q. unfold string_at. destruct (decide (p = q)) as [<-|Hne].
    + rewrite lookup_delete_eq, E1. destruct o; try done. by destruct Hk.
    + by rewrite lookup_delete_ne.
  - intros q hq oq [_ Eq]%lookup_delete_Some. by eapply Ha.
  - intros q HLq. destruct (Hl q HLq) as (hq & oq & Eq & Hok & Hrq). exists hq, oq.
    split; [rewrite lookup_delete_ne; [done|by intros ->]|].
    assert (Hth : forall hth l, m1 !! p = Some (hth, OThread l) -> forall u i, oq = OUpval u -> uv_v u = OnStack p i -> False).
    { intros hth l _ u i -> Eu. by eapply Huvs. }
    assert (Hget : forall u, oq = OUpval u -> uv_get (delete p m1) u = uv_get m1 u).
    { intros u ->. unfold uv_get, thread_at. destruct (uv_v u) as [|th i|] eqn:Eu; [done| |done].
      rewrite lookup_delete_ne; [done|]. intros <-. by eapply Huvs. }
    split.
    + destruct oq as [|t|f|u|l|pt|c|u]; try exact Hok.
      * cbn [obj_ok] in *. destruct (uv_v u) as [|th i|] eqn:Eu; try done.
        destruct Hok as (hth & l & Eth & ?). exists hth, l. rewrite lookup_delete_ne; [done|].
        intros <-. by eapply Huvs.
      * destruct Hok as (? & ? & Hu). split; [done|]. split; [done|]. intros uv Huv.
        destruct (Hu uv Huv) as (hu & u & Eu & Hv). exists hu, u. rewrite lookup_delete_ne; [done|].
        intros <-. apply HL. rewrite Forall_forall in Hrq.
        destruct (Hrq (GcObjectKind.Upval, p)) as [? _]; [|done].
        cbn [obj_refs]. apply elem_of_app. right. apply list_elem_of_fmap. eauto.
    + assert (obj_refs (delete p m1) it oq = obj_refs m1 it oq) as ->.
      { destruct oq as [| |[]|u| | | |]; try done. cbn [obj_refs]. by rewrite Hget. }
      eapply Forall_impl; [exact Hrq|]. intros x [? ?]. split; [done|by apply Hpres].
  - eapply Forall_impl; [exact Hr|]. intros x [? ?]. split; [done|by apply Hpres].
  - intros q hq oq HLq [_ Eq]%lookup_delete_Some Hcd Htd. eapply Hs; [done|exact Eq|done|].
    rewrite todo_upd in *. destruct Htd as [?|[? ?]]; [by left|right]. split; [done|by right].
  - intros Hle th hth l uv [Hne Eth]%lookup_delete_Some Huv.
    destruct (Ht Hle th hth l uv Eth Huv) as (hu & u & Eu & Hv). exists hu, u.
    rewrite lookup_delete_ne; [done|]. intros <-. rewrite E1 in Eu. injection Eu as -> ->.
    cbn in Ek. subst k. cbn in Hle. lia.
  - intros q hq oq HLq Eq. destruct (Hkp q hq oq HLq Eq) as (h' & o' & E' & Ho). exists h', o'.
    split; [rewrite lookup_delete_ne; [done|by intros ->]|].
    destruct oq as [| | |u| | | |], o' as [| | |u'| | | |]; try done. destruct Ho as [Hg ?]. split; [|done].
    rewrite <- Hg. unfold uv_get, thread_at. destruct (uv_v u') as [|th i|] eqn:Eu; [done| |done].
    rewrite lookup_delete_ne; [done|]. intros <-. by eapply Huvs.
Qed.
End Pool.

(** ** Closing the upvalues of a dying thread *)

(** The upvalues [uvs], open on [th] or closed, are closed with their values. *)
Definition uv_closed (th : Z) (l : LuaState) (uvs : list Z) (m m' : Mem) : Prop :=
  (forall q, q ∉ uvs -> m' !! q = m !! q) /\
  (forall q, q ∈ uvs -> exists h u u', m !! q = Some (h, OUpval u) /\ m' !! q = Some (h, OUpval u') /\
     uv_v u' = InTv /\ uv_get m u = Some (uv_tv u') /\ immutable u' = immutable u).

Lemma close_openuv_fold th ht l uvs : forall m, m !! th = Some (ht, OThread l) ->
  (forall uv, uv ∈ uvs -> exists h u, m !! uv = Some (h, OUpval u) /\
     (uv_v u = InTv \/ exists i, uv_v u = OnStack th i /\ (i < length (stack l))%nat)) ->
  exists m', foldl (fun acc uv => let? m := acc in uv_close m uv) (Some m) uvs = Some m' /\ uv_closed th l uvs m m'.
Proof.
  induction uvs as [|uv uvs IH]; intros m Eth Huv; cbn [foldl].
  { exists m. split; [done|]. split; [done|]. by intros q ?%elem_of_nil. }
  destruct (Huv uv) as (h & u & E & Hv); [by left|].
  assert (Hne : uv <> th) by (intros ->; congruence).
  assert (exists v, uv_get m u = Some v) as (v & Ev).
  { unfold uv_get, thread_at. destruct Hv as [->|(i & -> & Hi)]; [by eexists|]. rewrite Eth. by apply lookup_lt_is_Some_2. }
  assert (exists u', uv_close m uv = Some (<[uv := (h, OUpval u')]> m) /\ uv_v u' = InTv /\ uv_tv u' = v /\
    immutable u' = immutable u) as (u' & -> & Eu' & Etv & Eim).
  { unfold uv_close, upval_at, is_open. rewrite E. destruct Hv as [Ei|(i & Ei & Hi)].
    - exists u. rewrite bool_decide_eq_true_2 by done. cbn [negb]. rewrite insert_id by done.
      unfold uv_get in Ev. rewrite Ei in Ev. by injection Ev as ->.
    - exists (mkUpval InTv v (immutable u)). rewrite bool_decide_eq_false_2 by (by rewrite Ei). cbn [negb].
      rewrite Ev. unfold obj_set. rewrite E, decide_True by done. done. }
  destruct (IH (<[uv := (h, OUpval u')]> m)) as (m' & -> & Hout & Hin).
  { by rewrite lookup_insert_ne. }
  { intros q Hq. destruct (decide (uv = q)) as [<-|Hq']; [|rewrite lookup_insert_ne by done; apply Huv; by right].
    exists h, u'. rewrite lookup_insert_eq. auto. }
  exists m'. split; [done|]. split.
  - intros q [Hq1 Hq2]%not_elem_of_cons. rewrite Hout by done. by rewrite lookup_insert_ne.
  - intros q Hq. destruct (decide (q ∈ uvs)) as [Hq'|Hq'].
    + destruct (Hin q Hq') as (hq & uq & uq' & Eq & Eq' & Hc & Hg & Him). destruct (decide (uv = q)) as [<-|Hqne].
      * rewrite lookup_insert_eq in Eq. injection Eq as <- <-. exists h, u, uq'. do 3 (split; [done|]).
        unfold uv_get in Hg at 1. rewrite Eu' in Hg. injection Hg as <-. split; [by rewrite Ev, Etv|congruence].
      * rewrite lookup_insert_ne in Eq by done. exists hq, uq, uq'. do 3 (split; [done|]). split; [|done]. rewrite <- Hg.
        unfold uv_get, thread_at. destruct (uv_v uq) as [|t i|]; [done| |done].
        destruct (decide (uv = t)) as [<-|]; [|by rewrite lookup_insert_ne].
        by rewrite lookup_insert_eq, E.
    + apply elem_of_cons in Hq as [->|?]; [|done]. exists h, u, u'. split; [done|].
      rewrite Hout by done. rewrite lookup_insert_eq. split; [done|]. split; [done|]. by rewrite Ev, Etv.
Qed.

Lemma uv_closed_back th l uvs m m' q h o : uv_closed th l uvs m m' -> m' !! q = Some (h, o) ->
  (q ∉ uvs) /\ m !! q = Some (h, o) \/
  q ∈ uvs /\ exists u u', m !! q = Some (h, OUpval u) /\ o = OUpval u' /\ uv_v u' = InTv.
Proof.
  intros [Hout Hin] E. destruct (decide (q ∈ uvs)) as [Hq|Hq].
  - right. split; [done|]. destruct (Hin q Hq) as (h' & u & u' & Em & Em' & ? & _). rewrite E in Em'.
    injection Em' as <- ->. eauto 8.
  - left. rewrite Hout in E by done. done.
Qed.

Lemma uv_closed_present th l uvs m m' r : uv_closed th l uvs m m' -> present m r -> present m' r.
Proof.
  intros [Hout Hin] (h & o & E & Ek). destruct (decide (r.2 ∈ uvs)) as [Hq|Hq].
  - destruct (Hin _ Hq) as (h' & u & u' & Em & Em' & _). rewrite E in Em. injection Em as <- ->.
    exists h, (OUpval u'). done.
  - exists h, o. by rewrite Hout.
Qed.

Lemma uv_closed_thread th l uvs m m' q ht lt : uv_closed th l uvs m m' ->
  m' !! q = Some (ht, OThread lt) <-> m !! q = Some (ht, OThread lt).
Proof.
  intros [Hout Hin]. destruct (decide (q ∈ uvs)) as [Hq|Hq]; [|by rewrite Hout].
  destruct (Hin _ Hq) as (h' & u & u' & -> & -> & _). done.
Qed.

Lemma uv_closed_get th l uvs m m' u : uv_closed th l uvs m m' -> uv_get m' u = uv_get m u.
Proof.
  intros Hc. unfold uv_get, thread_at. destruct (uv_v u) as [|t i|]; [done| |done].
  destruct (decide (t ∈ uvs)) as [Ht|Ht].
  - destruct Hc as [_ Hin]. destruct (Hin t Ht) as (h & v & v' & -> & -> & _). done.
  - by rewrite (proj1 Hc t Ht).
Qed.

Lemma uv_closed_core L R m0 cw it objs gsp pos th ht l m m' : sweep_core L R m0 cw it m objs gsp pos ->
  m !! th = Some (ht, OThread l) -> uv_closed th l (openuv l) m m' ->
  sweep_core L R m0 cw it m' objs gsp pos.
Proof.
  intros [Hin Hme Hn Hi Ha Hl Hr Hs Ht Hkp] Eth Hc.
  assert (Hkind : forall q h o, m' !! q = Some (h, o) -> exists o0, m !! q = Some (h, o0) /\ obj_kind o0 = obj_kind o).
  { intros q h o E. destruct (uv_closed_back _ _ _ _ _ _ _ _ Hc E) as [[_ ?]|(_ & u & u' & ? & -> & _)]; eauto. }
  split.
  - intros p h o E. destruct (Hkind _ _ _ E) as (o0 & E0 & <-). by eapply Hin.
  - intros k p Hp. eapply uv_closed_present; [exact Hc|]. by apply Hme.
  - done.
  - eapply intern_ok_mem; [|exact Hi]. intros p. unfold string_at. destruct (decide (p ∈ openuv l)) as [Hp|Hp].
    + destruct Hc as [_ Hcin]. by destruct (Hcin p Hp) as (h & u & u' & -> & -> & _).
    + by rewrite (proj1 Hc p Hp).
  - intros p h o E. destruct (Hkind _ _ _ E) as (o0 & E0 & _). by eapply Ha.
  - intros p HL. destruct (Hl p HL) as (h & o & E & Hok & Hrr).
    assert (Hpres : Forall (fun r => L r.2 /\ present m' r) (obj_refs m it o)).
    { eapply Forall_impl; [exact Hrr|]. intros r [? ?]. split; [done|by eapply uv_closed_present]. }
    destruct (decide (p ∈ openuv l)) as [Hp|Hp].
    + destruct (proj2 Hc p Hp) as (h' & u & u' & E0 & E' & Ei & Eg & _). rewrite E in E0. injection E0 as <- ->.
      exists h, (OUpval u'). split; [done|]. split; [cbn; by rewrite Ei|]. cbn [obj_refs] in *.
      unfold uv_get at 1. rewrite Ei. by rewrite Eg in Hpres.
    + exists h, o. rewrite (proj1 Hc p Hp). split; [done|]. split.
      * destruct o as [|t|f|u|l0|pt|c|u]; try exact Hok; cbn [obj_ok] in *.
        -- destruct (uv_v u) as [|t i|]; try done. destruct Hok as (hth & l0 & E0 & ?). exists hth, l0.
           by rewrite (uv_closed_thread _ _ _ _ _ _ _ _ Hc).
        -- destruct Hok as (? & ? & Hu). do 2 (split; [done|]). intros uv Huv. destruct (Hu uv Huv) as (hu & u & Eu & Hv).
           destruct (decide (uv ∈ openuv l)) as [Hq|Hq].
           ++ destruct (proj2 Hc uv Hq) as (h' & u0 & u' & E0 & E' & Ei & _). exists h', u'. auto.
           ++ exists hu, u. by rewrite (proj1 Hc uv Hq).
      * assert (obj_refs m' it o = obj_refs m it o) as ->; [|done].
        destruct o as [| |[]|u| | | |]; try done. cbn [obj_refs]. by rewrite (uv_closed_get _ _ _ _ _ _ Hc).
  - eapply Forall_impl; [exact Hr|]. intros r [? ?]. split; [done|by eapply uv_closed_present].
  - intros p h o HL E Hcd Htd. destruct (Hkind _ _ _ E) as (o0 & E0 & Ek). rewrite <- Ek in *. by eapply Hs.
  - intros Hle t h lt uv Et Huv. apply (uv_closed_thread _ _ _ _ _ _ _ _ Hc) in Et.
    destruct (Ht Hle t h lt uv Et Huv) as (hu & u & Eu & Hv).
    destruct (decide (uv ∈ openuv l)) as [Hq|Hq].
    + destruct (proj2 Hc uv Hq) as (h' & u0 & u' & E0 & E' & Ei & _). exists h', u'. auto.
    + exists hu, u. by rewrite (proj1 Hc uv Hq).
  - intros p h o HL E. destruct (Hkp p h o HL E) as (h1 & o1 & E1 & Ho).
    destruct (decide (p ∈ openuv l)) as [Hq|Hq].
    + destruct (proj2 Hc p Hq) as (h' & u0 & u' & E0 & E' & Ei & Eg & Eim). rewrite E1 in E0. injection E0 as <- ->.
      exists h1, (OUpval u'). split; [done|]. destruct o; try done. cbn in *.
      unfold uv_get at 1. rewrite Ei, Eim, <- Eg. destruct Ho as [-> ->]. done.
    + exists h1, o1. rewrite (proj1 Hc p Hq). split; [done|]. destruct o, o1; try done. cbn in *.
      by rewrite (uv_closed_get _ _ _ _ _ _ Hc).
Qed.

(** ** One step over a pool *)

Lemma split_at {A} (l : list A) n : (n <= length l)%nat -> exists d r, l = d ++ r /\ length d = n.
Proof. intros Hn. exists (take n l), (drop n l). split; [by rewrite take_drop|]. rewrite length_take. lia. Qed.

(** The closure of a sweep frees what it is given, and closes the upvalues on
    it. *)
Definition frees (L : Z -> Prop) (R : list Ref) (m0 : Mem) (cw : Z) (it : Interner) (objs : GcObjectKind.t -> list Z)
    (k : GcObjectKind.t) (on_free : unit -> Mem -> Z -> option (unit * Mem)) : Prop :=
  forall a m d p r h o, pool_inv L R m0 cw it objs k a m d (p :: r) -> m !! p = Some (h, o) -> ~ L p ->
    exists m1, on_free a m p = Some (tt, m1) /\
      sweep_core L R m0 cw it m1 (upd objs k (d ++ p :: r)) (pool_index k) (length d) /\
      (forall q hq u i, L q -> m1 !! q = Some (hq, OUpval u) -> uv_v u <> OnStack p i) /\
      (exists h1, m1 !! p = Some (h1, o)).

Lemma frees_none L R m0 cw it objs k : k <> GcObjectKind.Thread -> k <> GcObjectKind.String /\ k <> GcObjectKind.CData ->
  frees L R m0 cw it objs k no_free.
Proof.
  intros Hkt Hk a m d p r h o HI E HL. destruct (pool_inv_head _ _ _ _ _ _ _ Hk _ _ _ _ _ HI) as (h0 & o0 & E0 & Ek & _).
  rewrite E in E0. injection E0 as <- <-. exists m. split; [done|]. split; [exact HI|]. split; [|eauto].
  intros q hq u i HLq Eq Eu. destruct (sc_live _ _ _ _ _ _ _ _ _ HI q HLq) as (h' & o' & Eq' & Hok & _).
  rewrite Eq in Eq'. injection Eq' as <- <-. cbn [obj_ok] in Hok. rewrite Eu in Hok.
  destruct Hok as (ht & l & Et & _). rewrite E in Et. injection Et as _ ->. by cbn in Ek; congruence.
Qed.

Lemma frees_thread L R m0 cw it objs : frees L R m0 cw it objs GcObjectKind.Thread close_openuv.
Proof.
  assert (Hk : GcObjectKind.Thread <> GcObjectKind.String /\ GcObjectKind.Thread <> GcObjectKind.CData) by done.
  intros a m d p r h o HI E HL. destruct (pool_inv_head _ _ _ _ _ _ _ Hk _ _ _ _ _ HI) as (h0 & o0 & E0 & Ek & _).
  rewrite E in E0. injection E0 as <- <-. destruct o as [| | | |l| | |]; try done.
  unfold close_openuv, thread_at. rewrite E.
  destruct (close_openuv_fold p h l (openuv l) m E) as (m1 & -> & Hc).
  { intros uv Huv. apply (sc_thread _ _ _ _ _ _ _ _ _ HI) with (h := h) (l := l); [cbn; lia|done|done]. }
  exists m1. split; [done|]. split; [by eapply uv_closed_core|]. split.
  - intros q hq u i HLq Eq Eu. destruct (uv_closed_back _ _ _ _ _ _ _ _ Hc Eq) as [[Hq Eq']|(_ & u0 & u' & _ & [= ->] & Ei)];
      [|congruence].
    destruct (sc_live _ _ _ _ _ _ _ _ _ HI q HLq) as (h' & o' & Eq2 & Hok & _). rewrite Eq' in Eq2. injection Eq2 as <- <-.
    cbn [obj_ok] in Hok. rewrite Eu in Hok. destruct Hok as (ht & l' & Et & Hin & _). rewrite E in Et. by injection Et as _ ->.
  - exists h. by apply (uv_closed_thread _ _ _ _ _ _ _ _ Hc).
Qed.

Lemma sweep_pool_core L R m0 cw it objs k on_free m pl pos : k <> GcObjectKind.String /\ k <> GcObjectKind.CData ->
  frees L R m0 cw it objs k on_free -> pkind pl = k -> objects pl = objs k -> (pos <= length (objs k))%nat ->
  sweep_core L R m0 cw it m objs (pool_index k) pos ->
  exists m' d r, sweep_limited on_free tt m pl cw GC_SWEEP_MAX pos =
      Some (tt, m', mkPool (d ++ r) (zlen (d ++ r)) k (pool_white pl), (bool_decide (r = []), length d)) /\
    sweep_core L R m0 cw it m' (upd objs k (d ++ r)) (pool_index k) (length d) /\
    (length r = length (drop pos (objs k)) - Nat.min GC_SWEEP_MAX (length (drop pos (objs k))))%nat.
Proof.
  intros Hk Hfree Epk Eo Hpos Hcore. destruct (split_at (objs k) pos Hpos) as (d0 & r0 & Ed & <-).
  destruct (sweep_limited_spec on_free cw k (pool_inv L R m0 cw it objs k) (pool_inv_perm L R m0 cw it objs k))
    with (a := tt) (m := m) (pl := pl) (limit := GC_SWEEP_MAX) (d := d0) (r := r0)
    as (a' & m' & d & r & E & HI & Hlen).
  - intros a m1 d p r HI. by destruct (pool_inv_head _ _ _ _ _ _ _ Hk _ _ _ _ _ HI) as (h & o & _ & _ & Ha & _).
  - intros a m1 d p r HI. destruct (pool_inv_head _ _ _ _ _ _ _ Hk _ _ _ _ _ HI) as (h & o & E & Ek & _ & _ & Hs).
    exists h, o. split; [done|]. split; [done|]. destruct (survives cw h) eqn:Esv; 
      [exact (pool_inv_keep _ _ _ _ _ _ _ Hk _ _ _ _ _ _ _ HI E)|].
    assert (HL : ~ L p) by (intros HL; by specialize (Hs HL)).
    destruct (Hfree _ _ _ _ _ _ _ HI E HL) as (m2 & Ef & Hc1 & Hu & h1 & E1). exists tt, m2. split; [by destruct a|].
    split; [eauto|]. exact (pool_inv_free _ _ _ _ _ _ _ Hk _ _ _ _ _ _ _ _ HI E HL Hc1 Hu (ex_intro _ h1 E1)).
  - done.
  - by rewrite Eo.
  - eapply sweep_core_ext; [|exact Hcore]. intros k'. unfold upd. by destruct (decide (k' = k)) as [->|].
  - destruct a'. exists m', d, r. split; [exact E|]. split; [exact HI|]. by rewrite Ed, drop_app_length.
Qed.

(** ** The strings *)

Lemma pinned_survives cw h o : survives cw h = true -> survives cw (pinned h o) = true.
Proof. intros Hs. unfold pinned. destruct o; try done. by destruct (decide _). Qed.

Lemma sid_refs_sub it it' id r : (forall id p, try_lookup it' id = Some p -> try_lookup it id = Some p) ->
  r ∈ sid_refs it' id -> r ∈ sid_refs it id.
Proof.
  intros Hs. unfold sid_refs. destruct (try_lookup it' id) as [p|] eqn:E; [|by intros ?%elem_of_nil].
  by rewrite (Hs id p E).
Qed.

Lemma obj_refs_sub m it it' o r : (forall id p, try_lookup it' id = Some p -> try_lookup it id = Some p) ->
  r ∈ obj_refs m it' o -> r ∈ obj_refs m it o.
Proof.
  intros Hs. destruct o as [| | | | |pt| |]; try done. cbn [obj_refs]. rewrite !elem_of_app.
  intros [Hr|Hr].
  - left. destruct (source pt); [by eapply sid_refs_sub|done].
  - right. apply list_elem_of_bind in Hr as (k & Hr & Hk). apply list_elem_of_bind. exists k. split; [|done].
    destruct k; try done. by eapply sid_refs_sub.
Qed.

Section Strings.
Context `{Layout} (L : Z -> Prop) (R : list Ref) (m0 : Mem) (cw : Z).

Lemma sweep_strings_core it m objs : sweep_core L R m0 cw it m objs 0 0 -> objs GcObjectKind.String = objects (spool it) ->
  exists m' it', sweep_strings m it cw = Some (m', it') /\
    sweep_core L R m0 cw it' m' (upd objs GcObjectKind.String (objects (spool it'))) 1 0 /\
    pool_white (spool it') = pool_white (spool it).
Proof.
  intros [Hin Hme Hn Hi Ha Hl Hr Hs Ht Hkp] Eo.
  destruct (sweep_strings_spec m it cw Hi) as (m' & it' & E & Hi' & Hpw & Hother & Hstr & Hsub & Hids).
  exists m', it'. split; [done|]. split; [|done].
  assert (Hback : forall p h' o, m' !! p = Some (h', o) -> exists h, m !! p = Some (h, o) /\
    (obj_kind o = GcObjectKind.String -> p ∈ objects (spool it')) /\ (obj_kind o <> GcObjectKind.String -> h' = h)).
  { intros p h' o E'. destruct (decide (p ∈ objects (spool it))) as [Hp|Hp].
    - destruct (Hme GcObjectKind.String p) as (h & o0 & E0 & Ek); [by rewrite Eo|]. cbn [fst snd] in E0, Ek.
      destruct o0 as [s| | | | | | |]; try done. specialize (Hstr p h s Hp E0).
      destruct (keeps_string cw h s); destruct Hstr as [Hp' Em']; rewrite Em' in E'; [|done].
      injection E' as <- <-. exists h. done.
    - rewrite Hother in E' by done. exists h'. split; [done|]. split; [|done].
      intros Ek. exfalso. apply Hp. rewrite <- Eo, <- Ek. by eapply Hin. }
  assert (Hlive : forall p h o, L p -> m !! p = Some (h, o) -> exists h', m' !! p = Some (h', o)).
  { intros p h o HL E0. destruct (decide (p ∈ objects (spool it))) as [Hp|Hp]; [|exists h; by rewrite Hother].
    destruct (Hme GcObjectKind.String p) as (h1 & o1 & E1 & Ek); [by rewrite Eo|]. cbn [fst snd] in E1, Ek.
    rewrite E0 in E1. injection E1 as <- <-. destruct o as [s| | | | | | |]; try done.
    specialize (Hstr p h s Hp E0). assert (keeps_string cw h s = true) as Ekp.
    { apply pinned_survives. eapply Hs; [done|exact E0|done|]. right. split; [done|cbn [obj_kind]; by rewrite drop_0, Eo]. }
    rewrite Ekp in Hstr. destruct Hstr as [_ ->]. eauto. }
  assert (Hpres : forall r, L r.2 -> present m r -> present m' r).
  { intros r HL (h & o & E0 & Ek). destruct (Hlive _ _ _ HL E0) as (h' & ?). exists h', o. done. }
  assert (Hth : forall q, thread_at m' q = thread_at m q).
  { intros q. unfold thread_at. destruct (m' !! q) as [[h' o']|] eqn:E'.
    - by destruct (Hback _ _ _ E') as (h0 & -> & _).
    - destruct (m !! q) as [[h0 o0]|] eqn:E0; [|done]. destruct o0; try done.
      assert (q ∉ objects (spool it)) as Hq.
      { intros Hq. destruct (Hme GcObjectKind.String q) as (h1 & o1 & E1 & Ek); [by rewrite Eo|].
        cbn [fst snd] in E1, Ek. rewrite E0 in E1. by injection E1 as <- <-. }
      rewrite Hother in E' by done. rewrite E' in E0. done. }
  assert (Hget : forall u, uv_get m' u = uv_get m u).
  { intros u. unfold uv_get. destruct (uv_v u); [done| |done]. by rewrite Hth. }
  assert (Hkeep : forall p h o, m !! p = Some (h, o) -> obj_kind o <> GcObjectKind.String -> m' !! p = Some (h, o)).
  { intros p h o E0 Ek. rewrite Hother; [done|]. intros Hp.
    destruct (Hme GcObjectKind.String p) as (h1 & o1 & E1 & Ek1); [by rewrite Eo|]. cbn [fst snd] in E1, Ek1. congruence. }
  split.
  - intros p h' o E'. destruct (Hback _ _ _ E') as (h0 & E0 & Hst & _). unfold upd. destruct (decide _); [by apply Hst|].
    by eapply Hin.
  - intros k p. unfold upd. destruct (decide (k = GcObjectKind.String)) as [->|Hk].
    + intros Hp. destruct (Hme GcObjectKind.String p) as (h1 & o1 & E1 & Ek1); [rewrite Eo; by apply Hsub|].
      cbn [fst snd] in E1, Ek1. destruct o1 as [s| | | | | | |]; try done.
      pose proof (Hstr p h1 s (Hsub p Hp) E1) as Hst. destruct (keeps_string cw h1 s); destruct Hst as [? Em']; [|done].
      by eexists _, _.
    + intros Hp. destruct (Hme k p Hp) as (h1 & o1 & E1 & Ek1). cbn [fst snd] in E1, Ek1.
      exists h1, o1. split; [|done]. apply Hkeep; [done|congruence].
  - intros k. unfold upd. destruct (decide _); [apply Hi'|apply Hn].
  - done.
  - intros p h' o E'. destruct (Hback _ _ _ E') as (h0 & E0 & _). by eapply Ha.
  - intros p HL. destruct (Hl p HL) as (h & o & E0 & Hok & Hrr). destruct (Hlive _ _ _ HL E0) as (h' & E').
    exists h', o. split; [done|]. split.
    + destruct o as [|t|f|u|l|pt|c|u]; try exact Hok; cbn [obj_ok] in *.
      * destruct (uv_v u) as [|th i|]; try done. destruct Hok as (ht & l & Et & ?). exists ht, l. by rewrite (Hkeep _ _ _ Et).
      * destruct Hok as (? & ? & Hu). do 2 (split; [done|]). intros q Hq. destruct (Hu q Hq) as (hu & u & Eu & ?).
        exists hu, u. by rewrite (Hkeep _ _ _ Eu).
    + apply Forall_forall. intros r Hrin. rewrite Forall_forall in Hrr.
      assert (Hrin' : r ∈ obj_refs m it o).
      { apply (obj_refs_sub _ it it'); [intros id q ?; by apply Hids|].
        destruct o as [| |[]|u| | | |]; try done. cbn [obj_refs] in *. by rewrite Hget in Hrin. }
      destruct (Hrr r Hrin') as [? ?]. split; [done|by apply Hpres].
  - eapply Forall_impl; [exact Hr|]. intros r [? ?]. split; [done|by apply Hpres].
  - intros p h' o HL E' Hcd Htd. destruct (Hback _ _ _ E') as (h0 & E0 & _ & Hh).
    assert (obj_kind o <> GcObjectKind.String) as Hk.
    { intros Ek. rewrite Ek in Htd. destruct Htd as [Hlt|[Heq _]]; cbn in *; lia. }
    rewrite (Hh Hk). eapply Hs; [done|exact E0|done|]. left. by destruct (obj_kind o).
  - intros Hle th hth l uv Eth Huv. destruct (Hback _ _ _ Eth) as (h0 & E0 & _).
    destruct (Ht ltac:(lia) th h0 l uv E0 Huv) as (hu & u & Eu & ?). exists hu, u. by rewrite (Hkeep _ _ _ Eu).
  - intros p h o HL E0. destruct (Hkp p h o HL E0) as (h1 & o1 & E1 & Ho). destruct (Hlive _ _ _ HL E1) as (h2 & E2).
    exists h2, o1. split; [done|]. destruct o, o1; try done. cbn in *. by rewrite Hget.
Qed.
End Strings.

(** ** The state [Sweep] *)

Definition objs_of (h : GcHeap) (k : GcObjectKind.t) : list Z := objects (pool_of h k).

Record sweeping (L : Z -> Prop) (R : list Ref) (m0 : Mem) (h : GcHeap) : Prop := {
  sw_core : sweep_core L R m0 (current_white h) (strings h) (mem h) (objs_of h) (gc_sweep_pool h) (gc_sweep_pos h);
  sw_kind : forall k, pkind (pool_of h k) = k;
  sw_white : forall k, pool_white (pool_of h k) = current_white h;
  sw_range : 0 <= gc_sweep_pool h;
  sw_pos : forall k, pool_index k = gc_sweep_pool h -> (gc_sweep_pos h <= length (objs_of h k))%nat;
  sw_start : gc_sweep_pool h = 0 -> gc_sweep_pos h = 0%nat;
  sw_again : Forall (fun x => L (gray_ref x).2 /\ gray_ok m0 x) (gc_grayagain h);
  sw_fin : Forall (fun x => L (fin_ref x).2 /\ present m0 (fin_ref x)) (mmudata h);
}.

(** Moving on to the next pool. *)
Lemma sweep_core_next L R m0 cw it m objs gsp pos : sweep_core L R m0 cw it m objs gsp pos ->
  sweep_core L R m0 cw it m objs (gsp + 1) 0.
Proof.
  intros [Hin Hme Hn Hi Ha Hl Hr Hs Ht Hkp]. split; try done.
  - intros p h o HL E Hcd Htd. eapply Hs; [done|exact E|done|]. left. destruct Htd; lia.
  - intros Hle. apply Ht. lia.
Qed.

Lemma keeps_live_present L m0 m r : keeps_live L m0 m -> L r.2 -> present m0 r -> present m r.
Proof.
  intros Hk HL (h & o & E & Ek). destruct (Hk _ _ _ HL E) as (h' & o' & E' & Ho). exists h', o'. split; [done|].
  rewrite <- Ek. destruct o, o'; try (by rewrite Ho); done.
Qed.

(** What is left to scan, by pool. *)
Definition left_in (h : GcHeap) (k : GcObjectKind.t) : nat :=
  if gc_sweep_pool h <? pool_index k then length (objs_of h k)
  else if gc_sweep_pool h =? pool_index k then length (drop (gc_sweep_pos h) (objs_of h k)) else 0.

Definition work (h : GcHeap) : nat :=
  Z.to_nat (8 - gc_sweep_pool h) + foldr (fun k n => left_in h k + n)%nat 0%nat GcObjectKind.all.

Lemma work_lt h h' : (forall k, (left_in h' k <= left_in h k)%nat) -> gc_sweep_pool h <= 7 ->
  gc_sweep_pool h < gc_sweep_pool h' \/
    gc_sweep_pool h' = gc_sweep_pool h /\ (exists k, (left_in h' k < left_in h k)%nat) -> (work h' < work h)%nat.
Proof.
  intros Hle Hr Hlt. unfold work, GcObjectKind.all. cbn [foldr].
  pose proof (Hle GcObjectKind.String). pose proof (Hle GcObjectKind.Table). pose proof (Hle GcObjectKind.Func).
  pose proof (Hle GcObjectKind.Upval). pose proof (Hle GcObjectKind.Thread). pose proof (Hle GcObjectKind.Proto).
  pose proof (Hle GcObjectKind.CData). pose proof (Hle GcObjectKind.UserData).
  destruct Hlt as [Hlt|[Heq [k Hlt]]]; [lia|]. rewrite Heq. destruct k; lia.
Qed.

(** A step of the sweep: what it reports, and how it changes the heap. *)
Definition one_step (L : Z -> Prop) (R : list Ref) (m0 : Mem) (h h' : GcHeap) : Prop :=
  sweeping L R m0 h' /\ (work h' < work h)%nat /\ gc_state h' = gc_state h /\ current_white h' = current_white h /\
  gc_gray h' = gc_gray h /\ gc_weak h' = gc_weak h /\ mmudata h' = mmudata h /\ by_id (strings h) = by_id (strings h).

Lemma pool_of_set h h0 k x k' : k <> GcObjectKind.String -> strings h = strings h0 -> pool h = set_pool (pool h0) k x ->
  pool_of h k' = if decide (k' = k) then x else pool_of h0 k'.
Proof.
  intros Hk Es Ep. unfold pool_of. rewrite Es, Ep. unfold set_pool.
  destruct (decide (k' = k)) as [->|Hne]; [destruct k; try done|destruct k'; try done];
    destruct (decide _); done.
Qed.

Section OnePool.
Context `{Layout} (L : Z -> Prop) (R : list Ref) (m0 : Mem).

Lemma sweep_pool_step h k on_free : sweeping L R m0 h -> k <> GcObjectKind.String /\ k <> GcObjectKind.CData ->
  frees L R m0 (current_white h) (strings h) (objs_of h) k on_free -> gc_sweep_pool h = pool_index k ->
  exists h1 d, sweep_pool h k on_free = Some (h1, d) /\
    one_step L R m0 h (if (d : bool) then with_sweep h1 (gc_sweep_pool h1 + 1) 0 else h1).
Proof.
  intros [Hc Hkd Hwh Hrg Hpos Hst Hag Hfin] Hk Hfree Egp. unfold sweep_pool. rewrite Egp in Hc.
  assert (Epl : pool h k = pool_of h k) by (destruct k; try done; by destruct Hk).
  destruct (sweep_pool_core L R m0 (current_white h) (strings h) (objs_of h) k on_free (mem h) (pool h k) (gc_sweep_pos h))
    as (m' & d & r & -> & Hc' & Hlen); [done|done|by rewrite Epl|by rewrite Epl|by apply Hpos|exact Hc|].
  set (h1 := with_sweep _ _ _). set (b := bool_decide (r = [])).
  exists h1, b. split; [done|].
  assert (Hpo : forall k', pool_of h1 k' = if decide (k' = k) then mkPool (d ++ r) (zlen (d ++ r)) k (pool_white (pool h k))
                           else pool_of h k') by (intros k'; apply pool_of_set; [apply Hk|done|done]).
  assert (Hobjs : forall k', objs_of h1 k' = upd (objs_of h) k (d ++ r) k').
  { intros k'. unfold objs_of, upd. rewrite Hpo. destruct (decide (k' = k)); by destruct (decide (k' = k)). }
  assert (Hpk : forall k', pkind (pool_of h1 k') = k').
  { intros k'. rewrite Hpo. destruct (decide (k' = k)) as [->|]; [done|apply Hkd]. }
  assert (Hpw : forall k', pool_white (pool_of h1 k') = current_white h1).
  { intros k'. rewrite Hpo. destruct (decide (k' = k)) as [->|]; [|apply Hwh]. cbn [pool_white]. rewrite Epl. apply Hwh. }
  assert (Hbase : sweep_core L R m0 (current_white h1) (strings h1) (mem h1) (objs_of h1) (pool_index k) (length d)).
  { eapply sweep_core_ext; [exact Hobjs|exact Hc']. }
  assert (Hleft : forall k', k' <> k -> (pool_index k < pool_index k' -> length (objs_of h1 k') = length (objs_of h k'))).
  { intros k' Hne _. by rewrite Hobjs, objs_upd_ne. }
  destruct (decide (r = [])) as [Er|Er]; subst b;
    [rewrite bool_decide_eq_true_2 by done|rewrite bool_decide_eq_false_2 by done].
  - split.
    + split; cbn [with_sweep gc_sweep_pool gc_sweep_pos current_white strings mem gc_grayagain mmudata]; try done.
      * change (gc_sweep_pool h1) with (gc_sweep_pool h). rewrite Egp. eapply sweep_core_next. exact Hbase.
      * change (gc_sweep_pool h1) with (gc_sweep_pool h). lia.
      * intros k' _. lia.
    + split; [|done]. apply work_lt; [|rewrite Egp; destruct k; cbn; lia|left; cbn; lia].
      intros k'. unfold left_in. cbn [with_sweep gc_sweep_pool gc_sweep_pos]. change (gc_sweep_pool h1) with (gc_sweep_pool h).
      change (objs_of (with_sweep h1 (gc_sweep_pool h + 1) 0) k') with (objs_of h1 k'). rewrite Egp, drop_0.
      destruct (Z.ltb_spec (pool_index k + 1) (pool_index k')); destruct (Z.eqb_spec (pool_index k + 1) (pool_index k')); try lia;
        destruct (Z.ltb_spec (pool_index k) (pool_index k')); try lia; rewrite Hleft; try lia; intros ->; lia.
  - split.
    + split; try done.
      * change (gc_sweep_pool h1) with (gc_sweep_pool h). rewrite Egp. exact Hbase.
      * intros k' Ek'. change (gc_sweep_pool h1) with (gc_sweep_pool h) in Ek'. rewrite Egp in Ek'.
        apply pool_index_inj in Ek' as ->. rewrite Hobjs, objs_upd_eq, length_app. cbn. lia.
      * change (gc_sweep_pool h1) with (gc_sweep_pool h). rewrite Egp. destruct k; cbn; try lia; by destruct Hk.
    + split; [|done]. change (gc_sweep_pos h1) with (length d).
      assert (Hr : (length r < length (drop (gc_sweep_pos h) (objs_of h k)))%nat).
      { rewrite Hlen. destruct r; [done|]. cbn [length] in Hlen. unfold GC_SWEEP_MAX in *. lia. }
      assert (Hk1 : left_in h1 k = length r).
      { unfold left_in. change (gc_sweep_pool h1) with (gc_sweep_pool h). change (gc_sweep_pos h1) with (length d).
        rewrite Egp, Z.ltb_irrefl, Z.eqb_refl, Hobjs, objs_upd_eq, drop_app_length. done. }
      assert (Hk0 : left_in h k = length (drop (gc_sweep_pos h) (objs_of h k))).
      { unfold left_in. by rewrite Egp, Z.ltb_irrefl, Z.eqb_refl. }
      apply work_lt; [|rewrite Egp; destruct k; cbn; lia|right; split; [done|exists k; lia]].
      intros k'. destruct (decide (k' = k)) as [->|Hne]; [lia|].
      unfold left_in. change (gc_sweep_pool h1) with (gc_sweep_pool h). rewrite Egp, Hobjs, objs_upd_ne by done.
      destruct (_ <? _); [done|]. destruct (Z.eqb_spec (pool_index k) (pool_index k')) as [E|]; [|done].
      by apply pool_index_inj in E.
Qed.

Lemma sweep_strings_step h : sweeping L R m0 h -> gc_sweep_pool h = 0 ->
  exists m s, sweep_strings (mem h) (strings h) (current_white h) = Some (m, s) /\
    let h1 := with_pools (with_mem h m) s (pool h) (current_white h) in
    one_step L R m0 h (with_sweep h1 (gc_sweep_pool h1 + 1) 0).
Proof.
  intros [Hc Hkd Hwh Hrg Hpos Hst Hag Hfin] Egp. rewrite Egp, (Hst Egp) in Hc.
  destruct (sweep_strings_core L R m0 (current_white h) (strings h) (mem h) (objs_of h) Hc eq_refl)
    as (m & s & -> & Hc' & Epw).
  exists m, s. split; [done|]. intros h1.
  assert (Hobjs : forall k', objs_of h1 k' = upd (objs_of h) GcObjectKind.String (objects (spool s)) k').
  { intros k'. unfold objs_of, upd. destruct (decide (k' = GcObjectKind.String)) as [->|Hne]; [done|]. by destruct k'. }
  split.
  - split; cbn [with_sweep gc_sweep_pool gc_sweep_pos current_white strings mem gc_grayagain mmudata h1 with_pools with_mem];
      try done.
    + rewrite Egp. change (0 + 1) with 1. eapply sweep_core_ext; [exact Hobjs|exact Hc'].
    + intros k. pose proof (io_kind _ _ (sc_intern _ _ _ _ _ _ _ _ _ Hc')) as Hks. pose proof (Hkd k) as Hk.
      destruct k; first [exact Hk|exact Hks].
    + intros k. pose proof (Hwh k) as Hk. destruct k; try exact Hk. cbn in *. by rewrite Epw.
    + lia.
    + intros k _. lia.
  - split; [|done]. apply work_lt; [|lia|left; cbn; lia].
    intros k'. unfold left_in. cbn [with_sweep gc_sweep_pool gc_sweep_pos]. change (gc_sweep_pool h1) with (gc_sweep_pool h).
    change (objs_of (with_sweep h1 (gc_sweep_pool h + 1) 0) k') with (objs_of h1 k'). rewrite Egp, drop_0.
    destruct (decide (k' = GcObjectKind.String)) as [->|Hne]; [cbn [pool_index]|rewrite Hobjs, objs_upd_ne by done];
      repeat match goal with |- context [Z.ltb ?a ?b] => destruct (Z.ltb_spec a b) | |- context [Z.eqb ?a ?b] => destruct (Z.eqb_spec a b) end; lia.
Qed.
End OnePool.
