(* ===== verification/CollectorStep.v ===== *)
(** * From marking to sweeping

    Strong reachability, the live set the atomic phase hands to the sweep, and
    the steps of the sweep pool by pool. *)

From Stdlib Require Import ZArith Lia Bool.
From stdpp Require Import base decidable numbers option gmap list.
From S2P Require Import Prelude Float64 Value Table TableGc Heap HeapSpec Intern InternSpec InternSweep Collector.
From S2P Require Import CollectorRefs CollectorMark CollectorProp CollectorCycle CollectorAtomic CollectorWeak.
From S2P Require Import CollectorSweep.

(** ** Reachability *)

(** The references a traversal of [o] follows: not the weak ones of a table. *)
Definition strong_refs (m : Mem) (it : Interner) (o : GcObj) : list Ref :=
  match o with
  | OTable t => match traverse_at m t with Some (_, mode) => table_refs mode t | None => [] end
  | _ => obj_refs m it o
  end.

Inductive reachable (refs : GcObj -> list Ref) (m : Mem) (R : list Ref) : Ref -> Prop :=
| reach_root r : r ∈ R -> reachable refs m R r
| reach_ref r h o r' : reachable refs m R r -> m !! r.2 = Some (h, o) -> r' ∈ refs o -> reachable refs m R r'.

(** Weak tables hold no userdata. *)
Definition weak_no_userdata (m : Mem) : Prop :=
  forall p t vs mode, Heap.table_at m p = Some t -> traverse_at m t = Some (vs, mode) -> mode <> 0 -> no_userdata t.

Lemma weak_no_userdata_sim m m' : sim m m' -> weak_no_userdata m -> weak_no_userdata m'.
Proof.
  intros Hs Hw p t vs mode Et Ev. rewrite (sim_table _ _ _ Hs) in Et. rewrite (sim_traverse _ _ _ Hs) in Ev. by eapply Hw.
Qed.

Lemma sim_strong_refs m m' it p o o' : sim m m' -> obj_ok m p o -> obj_sim o o' ->
  strong_refs m' it o' = strong_refs m it o.
Proof.
  intros Hs Hok Ho. pose proof (sim_refs _ _ it _ _ _ Hs Hok Ho) as Hr. destruct Ho as [->|(l & -> & ->)]; [|exact Hr].
  destruct o; try exact Hr. cbn [strong_refs]. by rewrite (sim_traverse _ _ _ Hs).
Qed.

Lemma table_refs_sub mode t r : r ∈ table_refs mode t -> r ∈ table_refs 0 t.
Proof.
  unfold table_refs, vrefs. rewrite !elem_of_app, !list_elem_of_omap. intros [?|(v & Hv & E)]; [by left|right].
  exists v. split; [by eapply table_values_sub|done].
Qed.

(** ** Marked objects *)

Section Kept.
Context (m : Mem) (it : Interner) (W : list (Z * Z)).
Hypothesis (Hh : heap_ok m it) (Ht : tri it m W []).

Lemma marked_scanned p h o : m !! p = Some (h, o) -> marked h = true -> scanned m it W p o.
Proof. intros E Hm. by destruct (Ht p h o E Hm) as [?%elem_of_nil|]. Qed.

(** The value of an upvalue left to its thread is one of the thread's. *)
Lemma marked_upval p h u : m !! p = Some (h, OUpval u) -> marked h = true ->
  Forall (kept m) (obj_refs m it (OUpval u)).
Proof.
  intros E Hm. destruct (marked_scanned _ _ _ E Hm) as [Hk|(th & i & Eu & ht & o & Eth & Ek & Hmt)]; [done|].
  cbn [fst snd] in Eth, Ek, Hmt. destruct (Hh _ _ _ E) as (_ & Hok & _). cbn [obj_ok] in Hok. rewrite Eu in Hok.
  destruct Hok as (ht' & l & Eth' & _ & Hi & Hl). rewrite Eth in Eth'. injection Eth' as -> ->.
  destruct Hmt as [Hmt|]; [|done]. pose proof (marked_scanned _ _ _ Eth Hmt) as Hs. cbn [scanned] in Hs.
  cbn [obj_refs] in Hs |- *. apply Forall_app in Hs as [Hs _].
  destruct (uv_get m u) as [v|] eqn:Ev; [|constructor]. unfold uv_get in Ev. rewrite Eu in Ev.
  unfold thread_at in Ev. rewrite Eth in Ev.
  apply Forall_forall. intros r Hr. unfold vrefs in Hr. apply list_elem_of_omap in Hr as (v' & ->%list_elem_of_singleton & Er).
  eapply Forall_vrefs_in; [exact Hs| |exact Er]. unfold thread_values. apply elem_of_app. left.
  apply list_elem_of_lookup. exists i. by rewrite lookup_take_lt.
Qed.

(** What the references of a kept object are, short of a recorded mode. *)
Lemma kept_refs p h o : m !! p = Some (h, o) -> (marked h = true \/ obj_kind o = GcObjectKind.CData) ->
  match o with
  | OTable t => exists mode, (mode = 0 \/ (p, mode) ∈ W) /\ Forall (kept m) (table_refs mode t)
  | _ => Forall (kept m) (obj_refs m it o)
  end.
Proof.
  intros E Hm. destruct (decide (obj_kind o = GcObjectKind.CData)) as [Ek|Ek].
  - destruct o as [| | | | | |c|]; try done. destruct (Hh _ _ _ E) as (_ & _ & Hr). cbn [obj_refs] in *.
    destruct (base c) as [b|]; [|done]. apply Forall_cons in Hr as [(h1 & o1 & E1 & Ek1) _].
    constructor; [|done]. exists h1, o1. split; [done|]. split; [done|by right].
  - destruct Hm as [Hm|]; [|done]. pose proof (marked_scanned _ _ _ E Hm) as Hs.
    destruct o as [| | |u| | | |]; try exact Hs. by eapply marked_upval.
Qed.

(** What is strongly reachable from marked roots is kept, when the recorded
    modes are those of the tables. *)
Lemma reachable_kept R r : weak_ok (mkMarker m [] [] W) -> Forall (kept m) R ->
  reachable (strong_refs m it) m R r -> kept m r.
Proof.
  intros Hw HR. induction 1 as [r Hr|r h o r' _ IH E Hr'].
  { rewrite Forall_forall in HR. by apply HR. }
  destruct IH as (h1 & o1 & E1 & Ek & Hk). rewrite E in E1. injection E1 as <- <-. rewrite <- Ek in Hk.
  pose proof (kept_refs _ _ _ E Hk) as Hrefs.
  destruct o as [|t| | | | | |]; try (rewrite Forall_forall in Hrefs; by apply Hrefs).
  destruct Hrefs as (mode & Hmode & Hf). rewrite Forall_forall in Hf. cbn [strong_refs] in Hr'.
  destruct (traverse_at m t) as [[vs mode']|] eqn:Ev; [|by apply elem_of_nil in Hr'].
  destruct Hmode as [->|Hmode]; apply Hf; [by eapply table_refs_sub|].
  destruct (Hw _ _ Hmode) as (_ & t' & vs' & Et & Ev'). cbn [mk_mem] in Et, Ev'. unfold Heap.table_at in Et.
  rewrite E in Et. injection Et as <-. rewrite Ev in Ev'. by injection Ev' as _ ->.
Qed.
End Kept.

Lemma sim_reachable m m' it R r : heap_ok m it -> sim m m' ->
  reachable (strong_refs m it) m R r -> reachable (strong_refs m' it) m' R r.
Proof.
  intros Hh Hs. induction 1 as [r Hr|r h o r' _ IH E Hr']; [by apply reach_root|].
  destruct (sim_lookup _ _ _ _ _ Hs E) as (h' & o' & E' & Ho). destruct (Hh _ _ _ E) as (_ & Hok & _).
  eapply reach_ref; [exact IH|exact E'|]. by rewrite (sim_strong_refs _ _ it _ _ _ Hs Hok Ho).
Qed.

(** ** The live set of the sweep *)

(** What the sweep is to keep. *)
Definition live_set (m : Mem) (mmu : list Finalizable) (p : Z) : Prop :=
  (exists h o, m !! p = Some (h, o) /\ (marked h = true \/ obj_kind o = GcObjectKind.CData)) \/
  exists x, x ∈ mmu /\ (fin_ref x).2 = p.

Lemma kept_live m mmu r : kept m r -> live_set m mmu r.2 /\ present m r.
Proof.
  intros Hk. split; [|by apply kept_present]. left. destruct Hk as (h & o & E & Ek & Hm).
  exists h, o. split; [done|]. by rewrite Ek.
Qed.

Lemma cleared_fin m m' x : cleared m m' -> fin_ok m x -> fin_ok m' x.
Proof.
  intros Hc (h & o & E & Ek & Hu & Hr). destruct (cleared_lookup _ _ _ _ _ Hc E) as (h' & o' & E' & Ho & Hm).
  pose proof (Hc (fin_ref x).2) as Hs. rewrite E, E' in Hs. destruct Hs as (_ & _ & Hs & _).
  exists h', o'. split; [done|]. split; [by rewrite (obj_cleared_kind _ _ Ho)|]. split.
  - destruct (marked h') eqn:Hm'; [by left|right]. rewrite (Hs eq_refl). destruct Hu as [Hu|]; [|done]. by specialize (Hm Hu).
  - destruct Ho as [->|(t & t' & -> & -> & _)]; [|done]. destruct o; try done.
    eapply Forall_impl; [exact Hr|]. intros r. by apply cleared_keeps.
Qed.

Lemma live_set_ok m it mmu : heap_ok m it -> tri it m [] [] -> Forall (fin_ok m) mmu -> live_ok m it (live_set m mmu).
Proof.
  intros Hh Ht Hf p Hp.
  assert (exists h o, m !! p = Some (h, o) /\ Forall (kept m) (obj_refs m it o)) as (h & o & E & Hk).
  { destruct Hp as [(h & o & E & Hm)|(x & Hx & <-)].
    - exists h, o. split; [done|]. pose proof (kept_refs m it [] Hh Ht _ _ _ E Hm) as Hr. destruct o; try exact Hr.
      destruct Hr as (mode & [->|Hin] & Hr); [done|by apply elem_of_nil in Hin].
    - rewrite Forall_forall in Hf. destruct (Hf x Hx) as (h & o & E & Ek & _ & Hr). exists h, o. split; [done|].
      pose proof (kept_refs m it [] Hh Ht _ _ _ E) as Hc.
      destruct o as [| | | | | |c|u]; try (destruct x; discriminate Ek); [by apply Hc; right|exact Hr]. }
  destruct (Hh _ _ _ E) as (_ & Hok & _). exists h, o. split; [done|]. split; [done|].
  eapply Forall_impl; [exact Hk|]. intros r. by apply kept_live.
Qed.

(** What is kept survives the sweep. *)
Lemma live_set_survives m mmu cw p h o : Forall (fin_ok m) mmu -> live_set m mmu p -> m !! p = Some (h, o) ->
  obj_kind o <> GcObjectKind.CData -> survives cw h = true.
Proof.
  intros Hf Hp E Hcd. assert (marked h = true \/ undead h = true) as [Hm|Hu].
  { destruct Hp as [(h' & o' & E' & [Hm|Hm])|(x & Hx & <-)]; [rewrite E in E'; injection E' as <- <-; by left|congruence|].
    rewrite Forall_forall in Hf. destruct (Hf x Hx) as (h' & o' & E' & _ & Hu & _). rewrite E in E'.
    by injection E' as <- <-. }
  - unfold survives. by rewrite Hm.
  - by apply undead_survives.
Qed.

(** What a collection does to an object it keeps: weak tables lose entries,
    the dead part of a stack is overwritten, and upvalues are closed with
    their values. *)
Definition intact (m m' : Mem) (o o' : GcObj) : Prop :=
  match o, o' with
  | OTable t, OTable t' => shrinks t t' /\ forall vs, traverse_at m t = Some (vs, 0) -> t' = t
  | OThread l, OThread l' => l' = l \/ l' = clear_stale l
  | OUpval u, OUpval u' => uv_get m' u' = uv_get m u /\ immutable u' = immutable u
  | _, _ => o' = o
  end.

Lemma pools_ok_cleared h m : cleared (mem h) m -> pools_ok h -> pools_ok (with_mem h m).
Proof.
  intros Hc [Hi Hm Hn Hk Ho]. split; cbn [mem strings with_mem].
  - intros p hd o E. destruct (cleared_lookup_back _ _ _ _ _ Hc E) as (hd' & o' & E' & Hso & _).
    rewrite (obj_cleared_kind _ _ Hso). exact (Hi _ _ _ E').
  - intros k p Hp. eapply cleared_present; [exact Hc|]. by apply Hm.
  - apply Hn.
  - apply Hk.
  - eapply intern_ok_mem; [|exact Ho]. intros p. by apply cleared_string.
Qed.

Lemma sweeping_start L R h : pools_ok h -> heap_ok (mem h) (strings h) -> (forall k, pool_white (pool_of h k) = current_white h) ->
  live_ok (mem h) (strings h) L -> Forall (fun r => L r.2 /\ present (mem h) r) R ->
  (forall p hd o, L p -> mem h !! p = Some (hd, o) -> obj_kind o <> GcObjectKind.CData -> survives (current_white h) hd = true) ->
  gc_grayagain h = [] -> Forall (fun x => L (fin_ref x).2 /\ present (mem h) (fin_ref x)) (mmudata h) ->
  gc_sweep_pool h = 0 -> gc_sweep_pos h = 0%nat -> sweeping L R (mem h) h.
Proof.
  intros Hpl Hh Hwh Hl Hr Hs Hga Hmu Egp Epos. destruct Hpl as [Hi Hm Hn Hk Ho]. split; try done.
  - rewrite Egp, Epos. split; try done.
    + intros p hd o E. by apply (Hh _ _ _ E).
    + intros p hd o HL E Hcd _. by eapply Hs.
    + intros _ th hd l uv Eth Huv. destruct (Hh _ _ _ Eth) as (_ & (_ & _ & Hop) & _).
      destruct (Hop uv Huv) as (hu & u & Eu & Hu). exists hu, u. split; [done|].
      destruct Hu as [|(i & Hui)]; [by left|right]. exists i. split; [done|].
      destruct (Hh _ _ _ Eu) as (_ & Hok & _). cbn [obj_ok] in Hok. rewrite Hui in Hok.
      destruct Hok as (ht & l' & Eth' & _ & Hlt & Hle). rewrite Eth in Eth'. injection Eth' as _ ->. lia.
    + apply keeps_live_refl.
  - lia.
  - intros k _. lia.
  - rewrite Hga. constructor.
Qed.

Lemma atomic_intact m ma m' it w : heap_ok m it -> sim m ma -> cleared ma m' ->
  (forall p mode, (p, mode) ∈ w -> mode <> 0 /\ exists t vs, Heap.table_at ma p = Some t /\ traverse_at ma t = Some (vs, mode)) ->
  (forall p, p ∉ w.*1 -> snd <$> m' !! p = snd <$> ma !! p) ->
  forall p h o, m !! p = Some (h, o) -> exists h' o', m' !! p = Some (h', o') /\ intact m m' o o'.
Proof.
  intros Hh Hs Hc Hw Hf p h o E. destruct (Hh _ _ _ E) as (_ & Hok & _).
  destruct (sim_lookup _ _ _ _ _ Hs E) as (ha & oa & Ea & Ho). destruct (cleared_lookup _ _ _ _ _ Hc Ea) as (h' & o' & E' & Hoc & _).
  exists h', o'. split; [done|]. destruct o as [s|t|f|u|l|pt|c|ud]; cbn [intact];
    try (destruct Ho as [->|(? & ? & _)]; [|done]; destruct Hoc as [->|(? & ? & ? & _)]; done).
  - destruct Ho as [->|(? & ? & _)]; [|done]. assert (exists t', o' = OTable t' /\ shrinks t t') as (t' & -> & Hsh).
    { destruct Hoc as [->|(t0 & t' & [= <-] & -> & ?)]; [|eauto]. exists t. split; [done|apply shrinks_refl]. }
    split; [done|]. intros vs Ev. destruct (decide (p ∈ w.*1)) as [Hin|Hin].
    + destruct (elem_fst _ _ Hin) as (mode & Hin'). destruct (Hw _ _ Hin') as (Hne & t0 & vs' & Et & Ev').
      unfold Heap.table_at in Et. rewrite Ea in Et. injection Et as <-. rewrite (sim_traverse _ _ _ Hs), Ev in Ev'. by injection Ev' as _ <-.
    + specialize (Hf p Hin). rewrite E', Ea in Hf. cbn in Hf. by injection Hf.
  - destruct Ho as [->|(? & ? & _)]; [|done]. destruct Hoc as [->|(? & ? & ? & _)]; [|done]. split; [|done].
    by rewrite (cleared_uv_get _ _ _ Hc), (sim_uv_get _ _ _ _ Hs Hok).
  - assert (o' = oa) as -> by (destruct Hoc as [->|(? & ? & -> & _)]; [done|]; by destruct Ho as [?|(? & _ & ?)]).
    destruct Ho as [->|(? & [= <-] & ->)]; [by left|by right].
Qed.

Lemma gc_atomic_ok m0 R h : heap_ok m0 (strings h) -> sim m0 (mem h) ->
  marking R h -> modes_ok h -> weak_no_userdata m0 ->
  exists h' L, gc_atomic h = Some h' /\ gc_state h' = Sweep /\ sweeping L R (mem h') h' /\
    (forall r, reachable (strong_refs m0 (strings h)) m0 R r -> L r.2) /\
    (forall p hd o, m0 !! p = Some (hd, o) -> exists hd' o', mem h' !! p = Some (hd', o') /\ intact m0 (mem h') o o') /\
    strings h' = strings h /\ pool h' = pool h /\ current_white h' = current_white h /\ gc_sweep_pool h' = 0 /\ gc_sweep_pos h' = 0%nat.
Proof.
  intros Hh0 Hs0 Hmk Hmo Hnu. pose proof (pr_heap _ _ _ (mg_prop _ _ Hmk)) as Hh. cbn [marker mk_mem] in Hh. unfold gc_atomic.
  destruct (atomic_propagate_ok R h Hmk) as (h1 & Eh1 & Ht1 & Hmo1 & Hs1 & Hm1 & E1). rewrite Eh1.
  assert (mmudata h1 = [] /\ gc_grayagain h1 = [] /\ strings h1 = strings h /\ pool h1 = pool h /\ current_white h1 = current_white h)
    as (Emu1 & Ega1 & Est1 & Ep1 & Ecw1) by (rewrite E1; split; [apply Hmk|done]).
  destruct (atomic_finalize_ok R h1 Ht1 Emu1 Ega1) as (h2 & -> & Ht2 & Hf2 & Hmo2 & Hs2 & Hm2 & Ega2 & Est2 & Ep2 & Ecw2).
  pose proof (sim_trans _ _ _ Hs0 (sim_trans _ _ _ Hs1 Hs2)) as Hs. pose proof (weak_no_userdata_sim _ _ Hs Hnu) as Hnu2.
  specialize (Hmo2 (Hmo1 Hmo)). destruct Ht2 as [Hpl2 Hh2 Htri2 Hr2 _ Hwh2].
  destruct (clear_weak_fold (current_white h2) (strings h2) (gc_weak h2) (mem h2) Hh2 Htri2) as (m3 & E3 & Hc & Htri3 & Hf3).
  { intros t mode Hin. destruct (Hmo2 _ _ Hin) as (Hne & tb & vs & Et & Ev). exists tb. split; [done|]. by eapply Hnu2. }
  unfold clear_weak. rewrite E3. set (h4 := with_sweep _ _ _).
  pose proof (cleared_heap_ok _ _ _ Hc Hh2) as Hh3.
  assert (Hfin : Forall (fin_ok m3) (mmudata h2)) by (eapply Forall_impl; [exact Hf2|]; intros x; by apply cleared_fin).
  exists h4, (live_set m3 (mmudata h2)). split; [done|]. split; [done|]. split; [|split; [|split; [|split; [|split; [|split; [|done]]]]]].
  - apply sweeping_start; try done.
    + apply (pools_ok_ext (with_mem h2 m3)); [done..|]. by apply pools_ok_cleared.
    + by apply live_set_ok.
    + apply Forall_forall. intros r Hr. apply kept_live. eapply cleared_keeps; [exact Hc|]. rewrite Forall_forall in Hr2. by apply Hr2.
    + intros p hd o. by apply live_set_survives.
    + apply Forall_forall. intros x Hx. split; [right; by exists x|]. rewrite Forall_forall in Hfin.
      destruct (Hfin x Hx) as (hd & o & ? & ? & _). by exists hd, o.
  - intros r Hr. eapply kept_live, cleared_keeps; [exact Hc|].
    apply (reachable_kept (mem h2) (strings h2) (gc_weak h2) Hh2 Htri2 R); [exact Hmo2|done|].
    rewrite Est2, Est1. eapply sim_reachable; [exact Hh0|exact Hs|done].
  - eapply atomic_intact; [exact Hh0|exact Hs|exact Hc|exact Hmo2|exact Hf3].
  - change (strings h2 = strings h). congruence.
  - change (pool h2 = pool h). congruence.
  - change (current_white h2 = current_white h). congruence.
Qed.
