(* ===== verification/CollectorSpec.v ===== *)
(** * A collection cycle

    The steps of a cycle keep its invariant and make progress, so that a cycle
    ends; what was strongly reachable when it started is still there, and
    nothing that is reachable afterwards dangles. *)

From Stdlib Require Import ZArith Lia Bool.
From stdpp Require Import base decidable numbers option gmap list.
From S2P Require Import Prelude Float64 Value Table TableGc Heap HeapSpec Intern InternSpec InternSweep Collector.
From S2P Require Import CollectorRefs CollectorMark CollectorProp CollectorCycle CollectorAtomic CollectorWeak.
From S2P Require Import CollectorSweep CollectorStep.

Section Cycle.
Context `{Layout} (obj_size : GcObj -> Z).

(** ** A step of the sweep *)

Section Sweep.
Context (L : Z -> Prop) (R : list Ref) (m0 : Mem).

Lemma sweep_one_pool_ok h : sweeping L R m0 h ->
  gc_sweep_pool h <= 6 /\ (exists h', sweep_one_pool h = Some (h', false) /\ one_step L R m0 h h') \/
  6 < gc_sweep_pool h /\ sweep_one_pool h = Some (h, true).
Proof.
  intros Hsw. destruct (Z_le_gt_dec (gc_sweep_pool h) 6) as [Hle|Hgt]; [left|right].
  - split; [done|].
    assert (forall k on_free, k <> GcObjectKind.String /\ k <> GcObjectKind.CData ->
      frees L R m0 (current_white h) (strings h) (objs_of h) k on_free -> gc_sweep_pool h = pool_index k ->
      exists h', (let? ' (h, d) := sweep_pool h k on_free in
                  Some (if (d : bool) then with_sweep h (gc_sweep_pool h + 1) 0 else h, false)) = Some (h', false) /\
        one_step L R m0 h h') as Hpool.
    { intros k on_free Hk Hf Egp. destruct (sweep_pool_step L R m0 h k on_free Hsw Hk Hf Egp) as (h1 & d & -> & Hone).
      eexists. split; [reflexivity|exact Hone]. }
    assert (forall k, k <> GcObjectKind.Thread -> k <> GcObjectKind.String /\ k <> GcObjectKind.CData -> gc_sweep_pool h = pool_index k ->
      exists h', (let? ' (h, d) := sweep_pool h k no_free in
                  Some (if (d : bool) then with_sweep h (gc_sweep_pool h + 1) 0 else h, false)) = Some (h', false) /\
        one_step L R m0 h h') as Hplain.
    { intros k Ht Hk. apply Hpool; [done|]. by apply frees_none. }
    unfold sweep_one_pool. pose proof (sw_range _ _ _ _ Hsw) as Hrg. cbv beta zeta.
    assert (gc_sweep_pool h = 0 \/ gc_sweep_pool h = 1 \/ gc_sweep_pool h = 2 \/ gc_sweep_pool h = 3 \/
      gc_sweep_pool h = 4 \/ gc_sweep_pool h = 5 \/ gc_sweep_pool h = 6) as Hcases by lia.
    destruct Hcases as [E|[E|[E|[E|[E|[E|E]]]]]]; rewrite E.
    + destruct (sweep_strings_step L R m0 h Hsw E) as (m & s & -> & Hone). eexists. split; [reflexivity|exact Hone].
    + by apply Hplain.
    + by apply Hplain.
    + apply Hpool; [done|apply frees_thread|done].
    + by apply Hplain.
    + by apply Hplain.
    + by apply Hplain.
  - split; [lia|]. unfold sweep_one_pool. cbv beta zeta. destruct (gc_sweep_pool h) as [|p|p]; try lia.
    do 3 (destruct p as [p|p|]; try done; try lia).
Qed.

Lemma pool_size_ok h k : sweeping L R m0 h -> k <> GcObjectKind.String ->
  exists n, pool_size obj_size (mem h) (pool h k) = Some n.
Proof.
  intros Hsw Hk. unfold pool_size.
  assert (forall p, p ∈ objects (pool h k) -> exists hd o, mem h !! p = Some (hd, o)) as Hp.
  { intros p Hin. destruct (sc_mem _ _ _ _ _ _ _ _ _ (sw_core _ _ _ _ Hsw) k p) as (hd & o & E & _); [|eauto].
    unfold objs_of. by destruct k. }
  induction (objects (pool h k)) as [|p ps IH]; cbn [foldr]; [by exists 0|].
  destruct IH as (n & ->); [intros q Hq; apply Hp; by right|]. destruct (Hp p) as (hd & o & ->); [by left|]. eauto.
Qed.

Lemma total_live_ok h : sweeping L R m0 h -> exists n, total_live obj_size h = Some n.
Proof.
  intros Hsw. unfold total_live.
  destruct (pool_size_ok h GcObjectKind.Table Hsw) as (? & ->); [done|].
  destruct (pool_size_ok h GcObjectKind.Func Hsw) as (? & ->); [done|].
  destruct (pool_size_ok h GcObjectKind.Proto Hsw) as (? & ->); [done|].
  destruct (pool_size_ok h GcObjectKind.Thread Hsw) as (? & ->); [done|].
  destruct (pool_size_ok h GcObjectKind.CData Hsw) as (? & ->); [done|]. eauto.
Qed.

Lemma sweeping_ext h h' : mem h' = mem h -> strings h' = strings h -> pool h' = pool h ->
  current_white h' = current_white h -> gc_sweep_pool h' = gc_sweep_pool h -> gc_sweep_pos h' = gc_sweep_pos h ->
  gc_grayagain h' = gc_grayagain h -> mmudata h' = mmudata h -> sweeping L R m0 h -> sweeping L R m0 h'.
Proof.
  intros Em Es Ep Ec Ei Eo Ea Ef [Hc Hkd Hwh Hrg Hpos Hst Hag Hfin].
  assert (Epo : forall k, pool_of h' k = pool_of h k) by (intros []; cbn; by rewrite ?Es, ?Ep).
  assert (Eob : forall k, objs_of h' k = objs_of h k) by (intros k; unfold objs_of; by rewrite Epo).
  split; intros; rewrite ?Ec, ?Es, ?Em, ?Ei, ?Eo, ?Epo, ?Eob, ?Ea, ?Ef in *; eauto.
  by eapply sweep_core_ext.
Qed.

(** A step of the sweep removes work, or there is none left and the cycle
    ends. *)
Lemma gc_sweep_ok h : sweeping L R m0 h -> gc_state h = Sweep ->
  exists h' c d, gc_sweep obj_size h = Some (h', (c, d)) /\ sweeping L R m0 h' /\ current_white h' = current_white h /\
    (gc_state h' = Sweep /\ d = false /\ (work h' < work h)%nat \/
     gc_state h' = Pause /\ d = true /\ 6 < gc_sweep_pool h' \/
     gc_state h' = Finalize /\ d = false /\ 6 < gc_sweep_pool h').
Proof.
  intros Hsw Est. unfold gc_sweep.
  destruct (sweep_one_pool_ok h Hsw) as [[_ (h1 & -> & Hsw1 & Hw & Est1 & Ecw1 & _)]|[Hgt ->]].
  - exists h1, GC_SWEEP_COST, false. split; [done|]. split; [done|]. split; [done|]. left. by rewrite Est1.
  - destruct (total_live_ok h Hsw) as (n & ->). cbv zeta. destruct (decide (mmudata h = [])) as [Ed|Ed].
    + eexists _, _, _. split; [reflexivity|]. split; [by apply (sweeping_ext h)|]. split; [done|]. right. left. done.
    + eexists _, _, _. split; [reflexivity|]. split; [by apply (sweeping_ext h)|]. split; [done|]. right. right. done.
Qed.
End Sweep.

(** ** The invariant of a cycle *)

(** A cycle has ended. *)
Definition ended (h : GcHeap) : Prop := gc_state h = Pause \/ gc_state h = Finalize.

(** The live set [L] of the sweep contains what was strongly reachable in
    [m0], with its contents. *)
Definition preserved (R : list Ref) (m0 : Mem) (it0 : Interner) (h : GcHeap) : Prop :=
  exists L m1, sweeping L R m1 h /\
    (forall r, reachable (strong_refs m0 it0) m0 R r -> L r.2) /\
    (forall p hd o, m0 !! p = Some (hd, o) -> exists hd' o', m1 !! p = Some (hd', o') /\ intact m0 m1 o o').

(** The cycle that started on the memory [m0] with the roots [R]. *)
Definition in_cycle (R : list Ref) (m0 : Mem) (it0 : Interner) (h : GcHeap) : Prop :=
  match gc_state h with
  | Propagate | Atomic => marking R h /\ modes_ok h /\ sim m0 (mem h) /\ strings h = it0
  | Sweep | Pause | Finalize => preserved R m0 it0 h
  end.

Definition objects_count (h : GcHeap) : nat :=
  foldr (fun k n => length (objs_of h k) + n)%nat 0%nat GcObjectKind.all.

(** A bound on the steps left. *)
Definition steps_left (h : GcHeap) : nat :=
  match gc_state h with
  | Propagate => pot (marker h) + objects_count h + 11
  | Atomic => objects_count h + 10
  | Sweep => work h + 1
  | Pause | Finalize => 0
  end.

Lemma objects_count_pools h h' : strings h' = strings h -> pool h' = pool h -> objects_count h' = objects_count h.
Proof.
  intros Es Ep. unfold objects_count, objs_of, GcObjectKind.all. cbn [foldr]. unfold pool_of. by rewrite Es, Ep.
Qed.

Lemma work_start h : gc_sweep_pool h = 0 -> gc_sweep_pos h = 0%nat -> work h = (objects_count h + 8)%nat.
Proof.
  intros E1 E2. unfold work, objects_count, left_in. rewrite E1, E2. unfold GcObjectKind.all.
  cbn [foldr pool_index Z.ltb Z.eqb Z.compare]. rewrite drop_0. change (Z.to_nat (8 - 0)) with 8%nat. lia.
Qed.

Section OneCycle.
Context (R : list Ref) (m0 : Mem) (it0 : Interner).
Hypothesis (Hh0 : heap_ok m0 it0) (Hnu : weak_no_userdata m0).

(** Each step of the collector keeps the invariant, and brings the cycle
    nearer to its end. *)
Lemma gc_onestep_ok h : in_cycle R m0 it0 h ->
  exists h' c d, gc_onestep obj_size h = Some (h', (c, d)) /\ in_cycle R m0 it0 h' /\
    (d = true /\ ended h' \/ d = false /\ (steps_left h' < steps_left h)%nat).
Proof.
  unfold in_cycle, gc_onestep, ended. intros Hc. unfold steps_left at 2. destruct (gc_state h) eqn:Est.
  - exists h, 0, true. rewrite Est. split; [done|]. split; [exact Hc|]. left. auto.
  - destruct Hc as (Hmk & Hmo & Hs & Es).
    destruct (gc_propagate_ok R h Hmk) as (h' & -> & Hmk' & Hmo' & Hs' & _ & [Es' Ep'] & Hst).
    exists h', GC_STEP_SIZE, false. split; [done|].
    assert (Hin : marking R h' /\ modes_ok h' /\ sim m0 (mem h') /\ strings h' = it0).
    { split; [done|]. split; [auto|]. split; [by eapply sim_trans|congruence]. }
    pose proof (objects_count_pools _ _ Es' Ep') as Eo.
    destruct Hst as [Hst|[Hst Hpot]]; unfold steps_left; rewrite Hst, ?Est; (split; [exact Hin|right; split; [done|lia]]).
  - destruct Hc as (Hmk & Hmo & Hs & Es). subst it0.
    destruct (gc_atomic_ok m0 R h Hh0 Hs Hmk Hmo Hnu) as (h' & L & -> & Hst & Hsw & HL & Hi & Es' & Ep' & _ & Egp & Epos).
    exists h', GC_STEP_SIZE, false. split; [done|]. unfold steps_left. rewrite Hst. split; [by exists L, (mem h')|].
    right. split; [done|]. rewrite (work_start _ Egp Epos), (objects_count_pools _ _ Es' Ep'). lia.
  - destruct Hc as (L & m1 & Hsw & HL & Hi).
    destruct (gc_sweep_ok L R m1 h Hsw Est) as (h' & c & d & -> & Hsw' & _ & Hst). exists h', c, d. split; [done|].
    unfold steps_left. destruct Hst as [(Hst & -> & Hw)|[(Hst & -> & _)|(Hst & -> & _)]]; rewrite Hst;
      (split; [by exists L, m1|]); [right; split; [done|lia]|left; auto|right; split; [done|lia]].
  - exists h, 0, true. rewrite Est. split; [done|]. split; [exact Hc|]. left. auto.
Qed.

Lemma step_loop_ok fuel : forall h budget, in_cycle R m0 it0 h -> (steps_left h < fuel)%nat ->
  exists h' d, step_loop obj_size fuel h budget = Some (h', d) /\ in_cycle R m0 it0 h' /\
    (d = true -> ended h') /\ (budget = None -> d = true).
Proof.
  induction fuel as [|fuel IH]; intros h budget Hc Hf; [lia|]. cbn [step_loop].
  destruct (gc_onestep_ok h Hc) as (h1 & c & d & -> & Hc1 & [[-> He]|[-> Hl]]).
  { exists h1, true. done. }
  destruct budget as [b|]; [|apply IH; [done|lia]]. cbv zeta. destruct (Z.eqb_spec (Z.max 0 (b - c)) 0).
  - exists h1, false. done.
  - destruct (IH h1 (Some (Z.max 0 (b - c))) Hc1) as (h' & d & -> & ? & ? & _); [lia|]. by exists h', d.
Qed.

Lemma in_cycle_pace h t th te d e : in_cycle R m0 it0 h -> in_cycle R m0 it0 (with_pace h t th te d e).
Proof.
  unfold in_cycle. cbn [with_pace gc_state]. destruct (gc_state h).
  all: try (intros (L & m1 & Hsw & Hp); exists L, m1; split; [by apply (sweeping_ext L R m1 h)|done]).
  all: intros ([Hpl Hp Hr Hw Hwh Hmu] & Hmo & Hs); split; [|done]; split; try done; by apply (pools_ok_ext h).
Qed.

Lemma steps_left_pace h t th te d e : steps_left (with_pace h t th te d e) = steps_left h.
Proof. done. Qed.

Lemma gc_step_in_cycle fuel h size : in_cycle R m0 it0 h -> (steps_left h < fuel)%nat ->
  exists h' d, gc_step obj_size fuel h size = Some (h', d) /\ in_cycle R m0 it0 h' /\
    (d = true -> ended h') /\ (USIZE_MAX / 2 <= size -> d = true).
Proof.
  intros Hc Hf. unfold gc_step. cbv zeta. set (h1 := if _ <=? _ then _ else _).
  assert (in_cycle R m0 it0 h1 /\ steps_left h1 = steps_left h) as [Hc1 E1].
  { subst h1. by destruct (_ <=? _); split; [apply in_cycle_pace| |apply in_cycle_pace|]. }
  edestruct (step_loop_ok fuel h1) as (h2 & d & -> & Hc2 & He & Hd); [exact Hc1|lia|]. cbv beta iota.
  destruct d.
  { exists h2, true. auto. }
  assert (size < USIZE_MAX / 2) as Hs.
  { destruct (Z.leb_spec (USIZE_MAX / 2) size); [by discriminate Hd|done]. }
  destruct (debt h2 <? GC_STEP_SIZE); eexists _, false; (split; [reflexivity|]);
    (split; [by apply in_cycle_pace|split; [done|lia]]).
Qed.
End OneCycle.


(** ** Whole cycles *)

Lemma obj_refs_ids m it it' o : by_id it' = by_id it -> obj_refs m it' o = obj_refs m it o.
Proof.
  intros E. assert (forall id, sid_refs it' id = sid_refs it id) as Es.
  { intros id. unfold sid_refs, try_lookup. by rewrite E. }
  destruct o as [| | | | |p| |]; try done. cbn [obj_refs]. f_equal; [destruct (source p); [apply Es|done]|].
  induction (kgc p) as [|k ks IH]; [done|]. cbn. rewrite IH. f_equal. destruct k; try done. apply Es.
Qed.

Lemma reachable_ids m it it' R r : by_id it' = by_id it ->
  reachable (strong_refs m it) m R r -> reachable (strong_refs m it') m R r.
Proof.
  intros E. induction 1 as [r Hr|r h o r' _ IH Eo Hr']; [by apply reach_root|]. eapply reach_ref; [exact IH|exact Eo|].
  destruct o; try exact Hr'; cbn [strong_refs] in *; by rewrite (obj_refs_ids _ _ _ _ E).
Qed.

Lemma start_in_cycle g : ready g ->
  exists g1, start_gc_cycle g = Some g1 /\ g1 = with_heap g (heap g1) /\
    by_id (strings (heap g1)) = by_id (strings (heap g)) /\
    heap_ok (mem (heap g)) (strings (heap g1)) /\
    in_cycle (roots g) (mem (heap g)) (strings (heap g1)) (heap g1).
Proof.
  intros Hg. destruct (start_gc_cycle_ok g Hg) as (g1 & E & Hst & Hmk & Hmo & Hs & Eg & Eid & _).
  exists g1. split; [done|]. split; [done|]. split; [done|]. split.
  - intros p h o Ep. destruct (rd_heap _ Hg _ _ _ Ep) as (Ha & Hok & Hr). split; [done|]. split; [done|].
    by rewrite (obj_refs_ids _ _ _ _ Eid).
  - unfold in_cycle. by rewrite Hst.
Qed.

Lemma ended_preserved R m0 it0 h : ended h -> in_cycle R m0 it0 h -> preserved R m0 it0 h.
Proof. unfold in_cycle. by intros [->| ->]. Qed.

Lemma intact_same m0 m1 m2 o o1 o2 : intact m0 m1 o o1 -> same_object m1 m2 o1 o2 -> intact m0 m2 o o2.
Proof.
  destruct o, o1; cbn [intact same_object]; try done; try (by intros -> ->); try (by intros ? ->).
  intros [E1 ?] Hs. destruct o2; try done. destruct Hs as [E2 ?]. split; congruence.
Qed.

Lemma reachable_L m it (L : Z -> Prop) R r : live_ok m it L -> Forall (fun r => L r.2 /\ present m r) R ->
  reachable (obj_refs m it) m R r -> L r.2 /\ present m r.
Proof.
  intros Hl HR. induction 1 as [r Hr|r h o r' _ [IH _] E Hr'].
  { rewrite Forall_forall in HR. by apply HR. }
  destruct (Hl _ IH) as (h' & o' & E' & _ & Hf). rewrite E in E'. injection E' as <- <-.
  rewrite Forall_forall in Hf. by apply Hf.
Qed.

Lemma preserved_keeps R m0 it0 h r hd o : preserved R m0 it0 h ->
  reachable (strong_refs m0 it0) m0 R r -> m0 !! r.2 = Some (hd, o) ->
  exists hd' o', mem h !! r.2 = Some (hd', o') /\ intact m0 (mem h) o o'.
Proof.
  intros (L & m1 & Hsw & HL & Hi) Hr E. destruct (Hi _ _ _ E) as (h1 & o1 & E1 & Ho1).
  destruct (sc_keep _ _ _ _ _ _ _ _ _ (sw_core _ _ _ _ Hsw) _ _ _ (HL _ Hr) E1) as (h2 & o2 & E2 & Ho2).
  exists h2, o2. split; [done|]. by eapply intact_same.
Qed.

Lemma full_gc_ok g : ready g -> weak_no_userdata (mem (heap g)) ->
  exists n, forall fuel, (n <= fuel)%nat -> exists g', full_gc obj_size fuel g = Some g' /\ g' = with_heap g (heap g') /\
    ended (heap g') /\ preserved (roots g) (mem (heap g)) (strings (heap g)) (heap g').
Proof.
  intros Hg Hnu. pose proof (rd_state _ Hg) as Est.
  set (h1 := with_pace (heap g) (total (heap g)) (threshold (heap g)) (table_extra (heap g))
    (if threshold (heap g) <? total (heap g) then debt (heap g) + (total (heap g) - threshold (heap g)) else debt (heap g))
    (estimate (heap g))).
  assert (Hrun : forall fuel, run_cycle obj_size (S (S fuel)) (heap g) = Some h1).
  { intros fuel. cbn [run_cycle]. unfold gc_step. cbv zeta. change (USIZE_MAX / 2 <=? USIZE_MAX) with true. cbv iota.
    cbn [step_loop]. unfold gc_onestep. cbn [with_pace gc_state]. by rewrite Est. }
  assert (Hg1 : ready (with_heap g h1)).
  { destruct Hg as [Hs Hh Hpl Hr Ha Hw Hmu]. split; try done. by apply (pools_ok_ext (heap g)). }
  destruct (start_in_cycle _ Hg1) as (g2 & Es & Eg2 & Eid & Hh2 & Hc).
  exists (S (S (steps_left (heap g2)))). intros fuel Hf. unfold full_gc. rewrite decide_False by congruence.
  destruct fuel as [|[|fuel]]; [lia..|]. rewrite Hrun, Es. cbn [run_cycle].
  destruct (gc_step_in_cycle _ _ _ Hh2 Hnu (S fuel) (heap g2) USIZE_MAX Hc) as (h' & d & -> & Hc' & He & Hd); [lia|].
  rewrite (Hd ltac:(vm_compute; discriminate)) in *. specialize (He eq_refl).
  eexists. split; [reflexivity|]. split; [by rewrite Eg2|]. split; [done|].
  destruct (ended_preserved _ _ _ _ He Hc') as (L & m1 & Hsw & HL & Hi).
  exists L, m1. split; [destruct Hsw; split; try done; constructor|]. split; [|exact Hi].
  intros r Hr. apply HL. apply (reachable_ids _ (strings (heap g))); [exact Eid|exact Hr].
Qed.


End Cycle.

(** ** A heap *)

#[local] Instance demo_layout : Layout := {| type_size := fun _ => 56 |}.

Definition demo_strings : option (Mem * Interner) := interner_new ∅ 0x2000.
Definition demo_interner : Interner :=
  match demo_strings with
  | Some (_, it) => it
  | None => mkInterner [] 0 0 [] [] (mkPool [] 0 GcObjectKind.String 0) 0 0
  end.

(** A thread with an open upvalue, its function, the empty string, and a
    table that nothing refers to. *)
Definition demo_objects : list (Z * (GcHeader * GcObj)) :=
  [(0x3000, (header_new 0 GcObjectKind.Table 56, OTable (mkTable [func 0x7000] [] 1 0 0 255 None)));
   (0x4000, (header_new 0 GcObjectKind.Table 56, OTable (mkTable [gcval LJ_TTHREAD 0x5000] [] 1 0 0 255 None)));
   (0x5000, (header_new 0 GcObjectKind.Thread 56, OThread (mkState [func 0x7000; func 0x9999] 1 1 [0x6000] NIL NIL None)));
   (0x6000, (header_new 0 GcObjectKind.Upval 56, OUpval (mkUpval (OnStack 0x5000 0) NIL false)));
   (0x7000, (header_new 0 GcObjectKind.Func 56, OFunc (FC 0x3000 [gcv LJ_TSTR 0x2000])));
   (0x8000, (header_new 0 GcObjectKind.Table 56, OTable (mkTable [table 0x3000] [] 1 0 0 255 None)))].

Definition demo_mem : Mem :=
  foldr (fun x m => <[x.1 := x.2]> m) (match demo_strings with Some (m, _) => m | None => ∅ end) demo_objects.

Definition demo_pool (k : GcObjectKind.t) : Pool :=
  let ps := match k with
            | GcObjectKind.Table => [0x3000; 0x4000; 0x8000] | GcObjectKind.Func => [0x7000]
            | GcObjectKind.Upval => [0x6000] | GcObjectKind.Thread => [0x5000] | _ => []
            end in
  mkPool ps (zlen ps) k 0.

Definition demo_gc_heap : GcHeap :=
  mkHeap demo_mem demo_interner demo_pool Pause [] [] [] [] 0 0 0 400 1000 0 0 200 400.

Definition demo_global : GlobalState :=
  mkGlobal demo_gc_heap 0x3000 0x4000 [] [string 0x2000] [] [] 0x5000 None [(true, table 0x9999)] None [] None.

Lemma demo_lookup p x : demo_mem !! p = Some x ->
  (p, x) ∈ demo_objects \/ p = 0x2000 /\ demo_mem !! 0x2000 = Some x.
Proof.
  intros E. destruct (decide (p = 0x2000)) as [->|Hne]; [by right|left].
  unfold demo_mem in E. destruct (interner_new_ok ∅ 0x2000 (lookup_empty (M:=gmap Z) 0x2000)
    ltac:(vm_compute; split; reflexivity)) as (m & it & En & _ & _ & Ho).
  unfold demo_strings in E. rewrite En in E. specialize (Ho p Hne). rewrite lookup_empty in Ho.
  revert E. generalize demo_objects. intros l. induction l as [|[q y] l IH]; cbn [foldr fst snd]; intros E; [congruence|].
  destruct (decide (q = p)) as [->|Hq].
  - rewrite lookup_insert_eq in E. injection E as ->. by left.
  - rewrite lookup_insert_ne in E by done. right. auto.
Qed.

(** Case analysis on the objects of the demonstration heap. *)
Ltac demo_cases E :=
  let Hp := fresh in
  apply demo_lookup in E as [E|[Hp E]];
  [unfold demo_objects in E; repeat (apply elem_of_cons in E as [E|E]; [first [discriminate E|injection E as -> -> ->]|]); [..|by apply elem_of_nil in E]
  |subst; vm_compute in E; first [discriminate E|injection E as <- <-]].

Lemma demo_heap_ok : heap_ok demo_mem demo_interner.
Proof.
  intros p h o E. demo_cases E.
  all: split; [split; vm_compute; reflexivity|].
  all: split; [|match goal with |- Forall _ ?l => let l' := eval vm_compute in l in change l with l' end;
                repeat constructor; by eexists _, _].
  all: try done; try (intros _; constructor).
  - split; [cbn; lia|]. split; [done|]. intros q ->%list_elem_of_singleton.
    eexists _, _. split; [reflexivity|]. right. by exists 0%nat.
  - eexists _, _. split; [reflexivity|]. split; [by left|cbn; lia].
Qed.

Lemma demo_intern_ok : intern_ok demo_mem demo_interner.
Proof.
  destruct (interner_new_ok ∅ 0x2000 (lookup_empty (M:=gmap Z) 0x2000)
    ltac:(vm_compute; split; reflexivity)) as (m & it & En & Hok & _ & Ho).
  unfold demo_interner, demo_strings. rewrite En. eapply intern_ok_mem; [|exact Hok].
  intros p. unfold demo_mem, demo_strings. rewrite En. unfold string_at.
  assert (m !! p = None \/ p = 0x2000) as Hp.
  { destruct (decide (p = 0x2000)) as [|Hne]; [by right|left]. rewrite Ho by done. apply (lookup_empty (M:=gmap Z)). }
  assert (Hno : p ∈ demo_objects.*1 -> p <> 0x2000) by (intros Hin ->; by vm_compute in Hin; repeat (apply elem_of_cons in Hin as [?|Hin]; [done|]); apply elem_of_nil in Hin).
  cbn [demo_objects foldr fst snd].
  repeat (match goal with |- context [<[?q := _]> _ !! p] => destruct (decide (q = p)) as [<-|Hne];
    [rewrite lookup_insert_eq; destruct Hp as [->|Hp]; [done|discriminate Hp]|rewrite lookup_insert_ne by done; clear Hne] end).
  done.
Qed.

Lemma demo_ready : ready demo_global.
Proof.
  split; cbn [demo_global heap demo_gc_heap gc_state mem strings gc_grayagain gc_weak mmudata]; try done.
  - exact demo_heap_ok.
  - split; cbn [demo_gc_heap mem strings].
    + intros p h o E. demo_cases E; apply list_elem_of_In; vm_compute; tauto.
    + intros k p Hp. destruct k; cbn in Hp.
      1: change (objects (spool demo_interner)) with [0x2000] in Hp.
      all: repeat (apply elem_of_cons in Hp as [->|Hp]; [by eexists _, _|]); by apply elem_of_nil in Hp.
    + intros k. apply (bool_decide_unpack _). destruct k; vm_compute; exact I.
    + intros k. by destruct k.
    + exact demo_intern_ok.
  - match goal with |- Forall _ ?l => let l' := eval vm_compute in l in change l with l' end.
    repeat constructor; by eexists _, _.
Qed.

Lemma demo_no_weak : weak_no_userdata demo_mem.
Proof.
  intros p t vs mode Et Ev Hm. unfold Heap.table_at in Et. destruct (demo_mem !! p) as [[h []]|] eqn:E; try done.
  injection Et as ->. demo_cases E; by vm_compute in Ev; injection Ev as _ <-.
Qed.


Lemma demo_reachable : reachable (strong_refs demo_mem demo_interner) demo_mem (roots demo_global) (GcObjectKind.Upval, 0x6000).
Proof.
  eapply (reach_ref _ _ _ (GcObjectKind.Thread, 0x5000)); [|reflexivity|vm_compute; right; left].
  eapply (reach_ref _ _ _ (GcObjectKind.Table, 0x4000)); [|reflexivity|vm_compute; left].
  apply reach_root. apply list_elem_of_In. vm_compute. tauto.
Qed.



(** The table nothing refers to is freed. *)
Example demo_collected :
  (let? g := full_gc (fun _ => 56) 64 demo_global in Some (bool_decide (mem (heap g) !! 0x8000 = None))) = Some true.
Proof. vm_compute. reflexivity. Qed.

(** ** The colour of survivors

    What survives a cycle is left with [BIT_WHITE0], whatever the current
    white: in the next cycle, whose dead white is [BIT_WHITE1], garbage that
    survived is kept while younger garbage it refers to is freed, and the
    cycle after it reads the freed block.  Here a userdata that survived, and
    its younger metatable. *)
Definition stale_objects : list (Z * (GcHeader * GcObj)) :=
  demo_objects ++
  [(0xA000, (header_new 0 GcObjectKind.UserData 56, OUserData (mkUserData (Some 0xB000))));
   (0xB000, (header_new 1 GcObjectKind.Table 56, OTable (mkTable [] [] 0 0 0 255 None)))].

Definition stale_pool (k : GcObjectKind.t) : Pool :=
  let pl := demo_pool k in
  let ps := objects pl ++ match k with GcObjectKind.Table => [0xB000] | GcObjectKind.UserData => [0xA000] | _ => [] end in
  mkPool ps (zlen ps) k 1.

Definition stale_global : GlobalState :=
  with_heap demo_global
    (with_pools
       (with_mem demo_gc_heap
          (foldr (fun x m => <[x.1 := x.2]> m) (match demo_strings with Some (m, _) => m | None => ∅ end) stale_objects))
       demo_interner stale_pool 1).

Lemma stale_white_use_after_free :
  (let? g := full_gc (fun _ => 56) 64 stale_global in
   Some (bool_decide (mem (heap g) !! 0xA000 <> None), bool_decide (mem (heap g) !! 0xB000 = None))) = Some (true, true) /\
  (let? g := full_gc (fun _ => 56) 64 stale_global in full_gc (fun _ => 56) 500 g) = None.
Proof. split; vm_compute; reflexivity. Qed.
