(* ===== verification/Sort.v ===== *)
(** * stdlib/sort.rs: table.sort

    Introsort over the items read from a table, with a comparator that is a
    call into Lua: it may change the state and may fail.  [None] is a panic:
    an index out of bounds or a subtraction below zero; an index is a [nat]. *)

From Stdlib Require Import ZArith Lia Bool.
From stdpp Require Import base decidable numbers option list.
From S2P Require Import Prelude Float64 Value.

(** ** Comparators *)

Inductive Comparator : Set := Lua (c : Z) | Default.

(** Lexicographic order of byte slices. *)
Fixpoint bytes_lt (xs ys : list Z) : bool :=
  match xs, ys with
  | _, [] => false
  | [], _ => true
  | x :: xs, y :: ys => (x <? y) || (x =? y) && bytes_lt xs ys
  end.

Section Sort.
Context `{StrHeap}.

(** The Lua state, what [execute] does with a function and two arguments when
    it is asked for one result, the lookup of the metamethod of [<], and the
    registers [top] and [base]. *)
Context {State Err Frame : Type}.
Context (execute : State -> LuaValue -> LuaValue -> LuaValue -> State * (option LuaValue + Err))
  (meta_lt : State -> LuaValue -> LuaValue) (frame : State -> Frame) (restore : Frame -> State -> State).

Definition call_bool (l : State) (f a b : LuaValue) : State * (bool + Err) :=
  let saved := frame l in
  match execute l f a b with
  | (l, inl r) => (restore saved l, inl (match r with Some v => is_truthy v | None => false end))
  | (l, inr e) => (l, inr e)
  end.

Definition compare_lua (l : State) (c : Z) (a b : LuaValue) : State * (bool + Err) := call_bool l (func c) a b.

Definition compare_default (l : State) (a b : LuaValue) : State * (bool + Err) :=
  if is_number a && is_number b then (l, inl (f64_lt a b))
  else
    match as_string a, as_string b with
    | Some x, Some y => (l, inl (bytes_lt (str_bytes x) (str_bytes y)))
    | _, _ =>
        let mo := meta_lt l a in
        if is_func mo then call_bool l mo a b else (l, inl false)
    end.

Definition cmp_apply (comp : Comparator) (l : State) (a b : LuaValue) : State * (bool + Err) :=
  match comp with Lua c => compare_lua l c a b | Default => compare_default l a b end.
End Sort.

(** ** Computations on the items *)

Section Introsort.
Context {State Err V : Type} (cmp : State -> V -> V -> State * (bool + Err)).

Abbreviation Items := (list (Z * V)).

(** [LuaResult<A>] with [l] and [items] threaded through. *)
Definition M (A : Type) : Type := State -> Items -> option (State * Items * (A + Err)).

Definition ret {A} (a : A) : M A := fun l items => Some (l, items, inl a).

Definition bind {A B} (m : M A) (f : A -> M B) : M B := fun l items =>
  let? ' (l, items, r) := m l items in
  match r with inl a => f a l items | inr e => Some (l, items, inr e) end.

Notation "'let*' x := m 'in' f" := (bind m (fun x => f)) (at level 10, x name, m at level 100, f at level 200).
Notation "m ';;;' f" := (bind m (fun _ => f)) (at level 90, f at level 200, right associativity).

(** [items[i].1]. *)
Definition item (i : nat) : M V := fun l items =>
  let? x := items !! i in Some (l, items, inl x.2).

Definition swap (i j : nat) : M unit := fun l items =>
  let? x := items !! i in
  let? y := items !! j in
  Some (l, <[j := x]> (<[i := y]> items), inl tt).

(** [usize] subtraction. *)
Definition sub (a b : nat) : M nat := fun l items =>
  if (b <=? a)%nat then Some (l, items, inl (a - b)%nat) else None.

Definition less (a b : V) : M bool := fun l items =>
  let '(l, r) := cmp l a b in Some (l, items, r).

Definition less_at (i j : nat) : M bool := let* a := item i in let* b := item j in less a b.

Fixpoint for_each (ks : list nat) (body : nat -> M unit) : M unit :=
  match ks with [] => ret tt | k :: ks => body k ;;; for_each ks body end.

Definition stuck {A} : M A := fun _ _ => None.

(** ** insertion_sort *)

Fixpoint insert_down (lo j : nat) : M unit :=
  match j with
  | O => ret tt
  | S j' =>
      if (lo <? j)%nat then
        let* c := less_at j j' in
        if (c : bool) then swap j j' ;;; insert_down lo j' else ret tt
      else ret tt
  end.

Definition insertion_sort (lo hi : nat) : M unit :=
  for_each (seq (lo + 1) (hi - lo)) (insert_down lo).

(** ** heapsort *)

(** One unit of fuel per level of the heap. *)
Fixpoint sift_down (fuel lo n r : nat) : M unit :=
  match fuel with
  | O => stuck
  | S fuel =>
      let left := (2 * r + 1)%nat in
      if (n <=? left)%nat then ret tt
      else
        let right := (left + 1)%nat in
        let* c := less_at (lo + r) (lo + left) in
        let largest := if (c : bool) then left else r in
        let* c := (if (right <? n)%nat then less_at (lo + largest) (lo + right) else ret false) in
        let largest := if (c : bool) then right else largest in
        if (largest =? r)%nat then ret tt
        else swap (lo + r) (lo + largest) ;;; sift_down fuel lo n largest
  end.

Definition heapsort (lo hi : nat) : M unit :=
  let* d := sub hi lo in
  let n := (d + 1)%nat in
  for_each (rev (seq 0 (n / 2))) (fun i => sift_down (S n) lo n i) ;;;
  for_each (rev (seq 1 (n - 1))) (fun i => swap lo (lo + i) ;;; sift_down (S i) lo i 0).

(** ** partition *)

(** The two inner loops; at most [j - i] rounds. *)
Fixpoint scan_up (fuel i j : nat) (pivot : V) : M nat :=
  match fuel with
  | O => stuck
  | S fuel =>
      if (i <? j)%nat then
        let* a := item i in let* c := less a pivot in
        if (c : bool) then scan_up fuel (i + 1) j pivot else ret i
      else ret i
  end.

Fixpoint scan_down (fuel i j : nat) (pivot : V) : M nat :=
  match fuel with
  | O => stuck
  | S fuel =>
      if (i <? j)%nat then
        let* a := item j in let* c := less pivot a in
        if (c : bool) then let* j := sub j 1 in scan_down fuel i j pivot else ret j
      else ret j
  end.

Fixpoint partition_loop (fuel i j : nat) (pivot : V) : M nat :=
  match fuel with
  | O => stuck
  | S fuel =>
      let* i := scan_up (S (j - i)) (i + 1) j pivot in
      let* j := sub j 1 in
      let* j := scan_down (S (j - i)) i j pivot in
      if (j <=? i)%nat then ret i
      else swap i j ;;; partition_loop fuel i j pivot
  end.

(** [if comp(items[i], items[j]) { items.swap(j, i) }]. *)
Definition order (i j : nat) : M unit :=
  let* c := less_at i j in if (c : bool) then swap j i else ret tt.

Definition partition (lo hi : nat) : M nat :=
  let* d := sub hi lo in
  let mid := (lo + d / 2)%nat in
  order mid lo ;;;
  order hi lo ;;;
  order hi mid ;;;
  let* pivot := item mid in
  let* h1 := sub hi 1 in
  swap mid h1 ;;;
  let* i := partition_loop (S d) lo h1 pivot in
  swap i h1 ;;;
  ret i.

(** ** introsort *)

Fixpoint introsort_impl (depth lo hi : nat) : M unit :=
  let* d := sub hi lo in
  if (d <? 16)%nat then insertion_sort lo hi
  else
    match depth with
    | O => heapsort lo hi
    | S depth =>
        let* p := partition lo hi in
        (if (lo <? p)%nat then let* p1 := sub p 1 in introsort_impl depth lo p1 else ret tt) ;;;
        if (p <? hi)%nat then introsort_impl depth (p + 1) hi else ret tt
    end.

(** [n.next_power_of_two().trailing_zeros() * 2]. *)
Definition max_depth (n : nat) : nat := 2 * Nat.log2_up n.

Definition introsort : M unit := fun l items =>
  let n := length items in
  if (n <=? 1)%nat then ret tt l items else introsort_impl (max_depth n) 0 (n - 1) l items.
End Introsort.
