(* ===== verification/SortSpec.v ===== *)
(** * Sorting: what introsort guarantees

    Whatever the comparator answers, the computation never panics, ends, and
    only exchanges items; when its answers agree with a strict weak order on
    the items, the result is sorted. *)

From Stdlib Require Import ZArith Lia Bool SpecFloat.
From stdpp Require Import base decidable numbers option relations list.
From S2P Require Import Prelude Float64 Value Sort.

Section Introsort.
Context {State Err V : Type} `{Inhabited V} (cmp : State -> V -> V -> State * (bool + Err)).
Context (its0 : list (Z * V)) (lt : V -> V -> Prop).

Abbreviation Items := (list (Z * V)).

(** ** The order of the items *)

Definition el (a : V) : Prop := a ∈ its0.*2.

(** The comparator decides [lt], which is a strict weak order, on the items. *)
Definition consistent : Prop :=
  (forall l a b l' r, el a -> el b -> cmp l a b = (l', inl r) -> (r = true <-> lt a b)) /\
  (forall a b, el a -> el b -> lt a b -> ~ lt b a) /\
  (forall a b c, el a -> el b -> el c -> lt a c -> lt a b \/ lt b c).

Definition le (a b : V) : Prop := consistent -> ~ lt b a.

Lemma le_trans a b c : el a -> el b -> el c -> le a b -> le b c -> le a c.
Proof. intros Ha Hb Hc H1 H2 C Hlt. pose proof C as (_ & _ & Hw). destruct (Hw c b a) as [?|?]; auto; [by apply H2|by apply H1]. Qed.

Lemma le_refl a : el a -> le a a.
Proof. intros Ha C Hlt. pose proof C as (_ & Has & _). by apply (Has a a). Qed.

(** ** Exchanges *)

Definition v (its : Items) (k : nat) : V := (its !!! k).2.
Definition swapped (i j : nat) (its : Items) : Items := <[j := its !!! i]> (<[i := its !!! j]> its).

Lemma length_swapped i j its : length (swapped i j its) = length its.
Proof. unfold swapped. by rewrite !length_insert. Qed.

Lemma v_swapped i j its k : (i < length its)%nat -> (j < length its)%nat ->
  v (swapped i j its) k = if decide (k = j) then v its i else if decide (k = i) then v its j else v its k.
Proof.
  intros Hi Hj. unfold v, swapped. destruct (decide (k = j)) as [->|Hkj].
  - by rewrite list_lookup_total_insert_eq by (by rewrite length_insert).
  - rewrite list_lookup_total_insert_ne by done. destruct (decide (k = i)) as [->|Hki].
    + by rewrite list_lookup_total_insert_eq.
    + by rewrite list_lookup_total_insert_ne.
Qed.

Lemma swapped_perm i j its : (i < length its)%nat -> (j < length its)%nat -> swapped i j its ≡ₚ its.
Proof.
  intros Hi Hj. unfold swapped. apply Permutation_insert_swap; by apply list_lookup_lookup_total_lt.
Qed.

(** Exchanges between [lo] and [hi]. *)
Definition exchange (lo hi : nat) (its its' : Items) : Prop :=
  exists i j, (lo <= i <= hi)%nat /\ (lo <= j <= hi)%nat /\ (hi < length its)%nat /\ its' = swapped i j its.

Definition swaps (lo hi : nat) : relation Items := rtc (exchange lo hi).

Lemma swaps_perm lo hi its its' : swaps lo hi its its' -> its' ≡ₚ its.
Proof.
  induction 1 as [|x y z (i & j & Hi & Hj & Hl & ->) _ IH]; [done|]. rewrite IH. apply swapped_perm; lia.
Qed.

Lemma swaps_length lo hi its its' : swaps lo hi its its' -> length its' = length its.
Proof. intros Hs. by rewrite (swaps_perm _ _ _ _ Hs). Qed.

Lemma swaps_out lo hi its its' k : swaps lo hi its its' -> (k < lo \/ hi < k)%nat -> v its' k = v its k.
Proof.
  intros Hs Hk. induction Hs as [|x y z (i & j & Hi & Hj & Hl & ->) _ IH]; [done|]. rewrite IH.
  rewrite v_swapped by lia. rewrite !decide_False by lia. done.
Qed.

Lemma swaps_in lo hi its its' k : swaps lo hi its its' -> (lo <= k <= hi)%nat ->
  exists k', (lo <= k' <= hi)%nat /\ v its' k = v its k'.
Proof.
  intros Hs Hk. induction Hs as [|x y z (i & j & Hi & Hj & Hl & ->) _ IH]; [by exists k|].
  destruct IH as (k' & Hk' & ->). rewrite v_swapped by lia.
  destruct (decide (k' = j)); [by exists i|]. destruct (decide (k' = i)); [by exists j|by exists k'].
Qed.

Lemma swaps_weaken lo hi lo' hi' its its' : (lo' <= lo)%nat -> (hi <= hi' < length its)%nat ->
  swaps lo hi its its' -> swaps lo' hi' its its'.
Proof.
  intros Hlo Hhi Hs. induction Hs as [|x y z (i & j & Hi & Hj & Hl & ->) _ IH]; [apply rtc_refl|].
  eapply rtc_l; [|apply IH; rewrite length_swapped; lia]. exists i, j. repeat split; lia.
Qed.

Lemma swaps_one lo hi i j its : (lo <= i <= hi)%nat -> (lo <= j <= hi)%nat -> (hi < length its)%nat ->
  swaps lo hi its (swapped i j its).
Proof. intros. apply rtc_once. by exists i, j. Qed.

(** ** The contract of a computation *)

(** On [its], a permutation of the items, the computation does not panic; it
    fails on a permutation of the items, or returns with [Q]. *)
Definition runs {A} (its : Items) (m : @M State Err V A) (Q : A -> Items -> Prop) : Prop :=
  its ≡ₚ its0 -> forall l,
    match m l its with
    | None => False
    | Some (_, its', inl a) => its' ≡ₚ its0 /\ Q a its'
    | Some (_, its', inr _) => its' ≡ₚ its0
    end.

Lemma runs_ret {A} its (a : A) (Q : A -> Items -> Prop) : Q a its -> runs its (ret a) Q.
Proof. intros HQ Hp l. done. Qed.

Lemma runs_bind {A B} its (m : M A) (f : A -> M B) (P : A -> Items -> Prop) (Q : B -> Items -> Prop) :
  runs its m P -> (forall a its', P a its' -> runs its' (f a) Q) -> runs its (bind m f) Q.
Proof.
  intros Hm Hf Hp l. unfold bind. specialize (Hm Hp l). destruct (m l its) as [[[l' its'] [a|e]]|]; [|done|done].
  destruct Hm as [Hp' HP]. by apply Hf.
Qed.

Lemma runs_mono {A} its (m : M A) (P Q : A -> Items -> Prop) :
  runs its m P -> (forall a its', P a its' -> Q a its') -> runs its m Q.
Proof.
  intros Hm HQ Hp l. specialize (Hm Hp l). destruct (m l its) as [[[l' its'] [a|e]]|]; [|done|done].
  destruct Hm. auto.
Qed.

Lemma el_v its k : its ≡ₚ its0 -> (k < length its)%nat -> el (v its k).
Proof.
  intros Hp Hk. unfold el. rewrite <- Hp. apply list_elem_of_fmap. exists (its !!! k). split; [done|].
  apply list_elem_of_lookup_2 with k. by apply list_lookup_lookup_total_lt.
Qed.

(** The steps, each followed by the rest of the computation. *)
Lemma runs_item {B} its i (f : V -> M B) Q : (i < length its)%nat -> runs its (f (v its i)) Q -> runs its (bind (item i) f) Q.
Proof. intros Hi HQ Hp l. unfold bind, item. rewrite list_lookup_lookup_total_lt by done. by apply HQ. Qed.

Lemma runs_swap {B} its i j (f : unit -> M B) Q : (i < length its)%nat -> (j < length its)%nat ->
  runs (swapped i j its) (f tt) Q -> runs its (bind (swap i j) f) Q.
Proof.
  intros Hi Hj HQ Hp l. unfold bind, swap. rewrite !list_lookup_lookup_total_lt by done.
  apply HQ. rewrite <- Hp. by apply swapped_perm.
Qed.

Lemma runs_sub {B} its a b (f : nat -> M B) Q : (b <= a)%nat -> runs its (f (a - b)%nat) Q -> runs its (bind (sub a b) f) Q.
Proof. intros Hb HQ Hp l. unfold bind, sub. rewrite (proj2 (Nat.leb_le b a) Hb). by apply HQ. Qed.

Lemma runs_less {B} its a b (f : bool -> M B) Q : el a -> el b ->
  (forall r, (if (r : bool) then le a b else le b a) -> runs its (f r) Q) -> runs its (bind (less cmp a b) f) Q.
Proof.
  intros Ha Hb HQ Hp l. unfold bind, less. destruct (cmp l a b) as [l' [r|e]] eqn:E; [|done]. apply HQ; [|done].
  destruct r; intros C Hlt; pose proof C as (Hc & Has & _); specialize (Hc _ _ _ _ _ Ha Hb E).
  - apply (Has a b Ha Hb); [by apply Hc|done].
  - by apply Hc in Hlt.
Qed.

Lemma bind_ret {A} (m : @M State Err V A) l its : bind m ret l its = m l its.
Proof. unfold bind, ret. by destruct (m l its) as [[[? ?] [?|?]]|]. Qed.

Lemma runs_ret_r {A} its (m : M A) Q : runs its (bind m ret) Q -> runs its m Q.
Proof. intros Hm Hp l. specialize (Hm Hp l). by rewrite bind_ret in Hm. Qed.

Lemma runs_perm {A} its (m : M A) Q : (its ≡ₚ its0 -> runs its m Q) -> runs its m Q.
Proof. intros Hm Hp. by apply Hm. Qed.

Lemma bind_assoc {A B C} (m : @M State Err V A) (f : A -> M B) (g : B -> M C) l its :
  bind (bind m f) g l its = bind m (fun a => bind (f a) g) l its.
Proof. unfold bind. by destruct (m l its) as [[[? ?] [?|?]]|]. Qed.

Lemma runs_assoc {A B C} its (m : M A) (f : A -> M B) (g : B -> M C) Q :
  runs its (bind m (fun a => bind (f a) g)) Q -> runs its (bind (bind m f) g) Q.
Proof. intros Hm Hp l. specialize (Hm Hp l). by rewrite bind_assoc. Qed.

Lemma runs_less_at {B} its i j (f : bool -> M B) Q : (i < length its)%nat -> (j < length its)%nat ->
  (forall r, (if (r : bool) then le (v its i) (v its j) else le (v its j) (v its i)) -> runs its (f r) Q) ->
  runs its (bind (less_at cmp i j) f) Q.
Proof.
  intros Hi Hj HQ. apply runs_perm. intros Hp. unfold less_at. apply runs_assoc, runs_item; [done|].
  apply runs_assoc, runs_item; [done|]. apply runs_less; [by apply el_v..|done].
Qed.

Lemma runs_for_each its ks (body : nat -> M unit) (I : nat -> Items -> Prop) : I 0%nat its ->
  (forall its n k, ks !! n = Some k -> I n its -> runs its (body k) (fun _ its' => I (S n) its')) ->
  runs its (for_each ks body) (fun _ its' => I (length ks) its').
Proof.
  revert its I. induction ks as [|k ks IH]; intros its I H0 Hb; cbn [for_each length]; [by apply runs_ret|].
  eapply runs_bind; [by apply (Hb its 0%nat k)|]. intros [] its' H1. apply (IH its' (fun n => I (S n))); [done|].
  intros its2 n k' Hk. by apply (Hb its2 (S n) k').
Qed.

(** ** insertion_sort *)

Definition sorted (its : Items) (lo hi : nat) : Prop :=
  forall a b, (lo <= a < b)%nat -> (b <= hi)%nat -> le (v its a) (v its b).

Lemma insert_down_ok lo hi i j : forall its, (lo <= j <= i)%nat -> (i <= hi < length its)%nat ->
  (forall a b, (lo <= a < b)%nat -> (b <= i)%nat -> b <> j -> le (v its a) (v its b)) ->
  runs its (insert_down cmp lo j) (fun _ its' => swaps lo hi its its' /\ sorted its' lo i).
Proof.
  induction j as [|j IH]; intros its Hj Hi Hs; cbn [insert_down].
  { apply runs_ret. split; [apply rtc_refl|]. intros a b Ha Hb. apply Hs; lia. }
  destruct (Nat.ltb_spec lo (S j)) as [Hlo|Hlo].
  2:{ apply runs_ret. split; [apply rtc_refl|]. intros a b Ha Hb. apply Hs; lia. }
  apply runs_less_at; [lia..|]. intros [] Hc.
  - apply runs_swap; [lia..|]. eapply runs_mono.
    + apply IH; rewrite ?length_swapped; [lia..|]. intros a b Ha Hb Hne. rewrite !v_swapped by lia.
      repeat (destruct (decide _); subst; try lia); try (apply Hs; lia). exact Hc.
    + intros [] its' [Hsw Hso]. split; [|done]. eapply rtc_l; [|exact Hsw]. exists (S j), j. repeat split; lia.
  - apply runs_perm. intros Hp. apply runs_ret. split; [apply rtc_refl|]. intros a b Ha Hb.
    destruct (decide (b = S j)) as [->|Hne]; [|by apply Hs].
    destruct (decide (a = j)) as [->|Hne]; [done|]. eapply (le_trans _ (v its j)); [by apply el_v; [|lia]..| |done].
    apply Hs; lia.
Qed.

Lemma insertion_sort_ok lo hi its : (lo <= hi < length its)%nat ->
  runs its (insertion_sort cmp lo hi) (fun _ its' => swaps lo hi its its' /\ sorted its' lo hi).
Proof.
  intros Hhi. unfold insertion_sort. eapply runs_mono.
  - apply (runs_for_each its _ _ (fun n its' => swaps lo hi its its' /\ sorted its' lo (lo + n))).
    + split; [apply rtc_refl|]. intros a b Ha Hb. lia.
    + intros its1 n k Hk [Hsw Hso]. apply lookup_seq in Hk as [-> Hn].
      pose proof (swaps_length _ _ _ _ Hsw) as Hlen. eapply runs_mono.
      * apply (insert_down_ok lo hi (lo + 1 + n) (lo + 1 + n)); [lia..|]. intros a b Ha Hb Hne. apply Hso; lia.
      * intros [] its' [Hsw' Hso']. split; [by etransitivity|]. by replace (lo + S n)%nat with (lo + 1 + n)%nat by lia.
  - intros [] its' [Hsw Hso]. split; [done|]. rewrite length_seq in Hso. by replace (lo + (hi - lo))%nat with hi in Hso by lia.
Qed.

(** ** heapsort *)

(** Children are not above their parents, for the parents from [m] on that
    are not [r]; and for [r] its parent takes its place. *)
Definition heap_but (its : Items) (lo n m r : nat) : Prop :=
  (forall k c, (m <= k)%nat -> k <> r -> (c = 2 * k + 1 \/ c = 2 * k + 2)%nat -> (c < n)%nat ->
     le (v its (lo + c)) (v its (lo + k))) /\
  (forall q c, (m <= q)%nat -> (r = 2 * q + 1 \/ r = 2 * q + 2)%nat -> (c = 2 * r + 1 \/ c = 2 * r + 2)%nat -> (c < n)%nat ->
     le (v its (lo + c)) (v its (lo + q))).

Definition heap (its : Items) (lo n m : nat) : Prop :=
  forall k c, (m <= k)%nat -> (c = 2 * k + 1 \/ c = 2 * k + 2)%nat -> (c < n)%nat -> le (v its (lo + c)) (v its (lo + k)).

Lemma heap_but_heap its lo n m r : heap_but its lo n m r ->
  (forall c, (c = 2 * r + 1 \/ c = 2 * r + 2)%nat -> (c < n)%nat -> le (v its (lo + c)) (v its (lo + r))) ->
  heap its lo n m.
Proof. intros [Hh _] Hr k c Hk Hc Hn. destruct (decide (k = r)) as [->|]; auto. Qed.

(** Sinking one level. *)
Lemma heap_but_swap its lo n m r c : its ≡ₚ its0 -> (m <= r)%nat -> (c = 2 * r + 1 \/ c = 2 * r + 2)%nat -> (c < n)%nat ->
  (lo + n <= length its)%nat -> heap_but its lo n m r ->
  le (v its (lo + r)) (v its (lo + c)) ->
  (forall c', (c' = 2 * r + 1 \/ c' = 2 * r + 2)%nat -> (c' < n)%nat -> le (v its (lo + c')) (v its (lo + c))) ->
  heap_but (swapped (lo + r) (lo + c) its) lo n m c.
Proof.
  intros Hp Hm Hc Hn Hl [Hh Hg] Hrc Hmax. split.
  - intros k c' Hk Hkc Hc' Hn'. rewrite !v_swapped by lia.
    rewrite (decide_False (P := (lo + k)%nat = (lo + c)%nat)) by lia.
    destruct (decide ((lo + k)%nat = (lo + r)%nat)) as [Ek|Ek].
    + replace k with r in * by lia. rewrite (decide_False (P := (lo + c')%nat = (lo + r)%nat)) by lia.
      destruct (decide ((lo + c')%nat = (lo + c)%nat)) as [_|_]; [done|by apply Hmax].
    + rewrite (decide_False (P := (lo + c')%nat = (lo + c)%nat)) by lia.
      destruct (decide ((lo + c')%nat = (lo + r)%nat)) as [Er|Er].
      * replace c' with r in * by lia. by apply (Hg k c).
      * apply Hh; lia.
  - intros q c' Hq Hcq Hc' Hn'. replace q with r by lia. rewrite !v_swapped by lia.
    rewrite !(decide_False (P := (lo + c')%nat = _)) by lia.
    rewrite (decide_False (P := (lo + r)%nat = (lo + c)%nat)), (decide_True (P := (lo + r)%nat = (lo + r)%nat)) by lia.
    apply Hh; lia.
Qed.

Lemma sift_down_ok fuel lo n m r : forall its, (n - r < fuel)%nat -> (m <= r)%nat -> (r < n)%nat -> (lo + n <= length its)%nat ->
  heap_but its lo n m r ->
  runs its (sift_down cmp fuel lo n r) (fun _ its' => swaps lo (lo + n - 1) its its' /\ heap its' lo n m).
Proof.
  revert r. induction fuel as [|fuel IH]; intros r its Hf Hm Hr Hl Hh; [lia|]. cbn [sift_down]. apply runs_perm. intros Hp.
  destruct (Nat.leb_spec n (2 * r + 1)) as [Hn|Hn].
  { apply runs_ret. split; [apply rtc_refl|]. apply (heap_but_heap its lo n m r Hh). intros c Hc Hcn. lia. }
  assert (Hel : forall k, (k < n)%nat -> el (v its (lo + k))) by (intros k Hk; apply el_v; [done|lia]).
  apply runs_less_at; [lia..|]. intros c1 H1. set (l1 := if c1 then (2 * r + 1)%nat else r).
  assert (Hl1 : (l1 = r \/ l1 = 2 * r + 1)%nat /\ le (v its (lo + r)) (v its (lo + l1)) /\ le (v its (lo + (2 * r + 1))) (v its (lo + l1))).
  { subst l1. destruct c1; (split; [lia|split; [first [exact H1|apply le_refl, Hel; lia]|first [exact H1|apply le_refl, Hel; lia]]]). }
  clearbody l1. destruct Hl1 as (Hl1 & Hr1 & Hc1).
  assert (Hgo : forall l2, (l2 = r \/ l2 = 2 * r + 1 \/ l2 = 2 * r + 2 /\ 2 * r + 2 < n)%nat -> le (v its (lo + r)) (v its (lo + l2)) ->
    (forall c, (c = 2 * r + 1 \/ c = 2 * r + 2)%nat -> (c < n)%nat -> le (v its (lo + c)) (v its (lo + l2))) ->
    runs its (if (l2 =? r)%nat then ret tt else bind (swap (lo + r) (lo + l2)) (fun _ => sift_down cmp fuel lo n l2))
      (fun _ its' => swaps lo (lo + n - 1) its its' /\ heap its' lo n m)).
  { intros l2 Hl2 Hr2 Hmax. destruct (Nat.eqb_spec l2 r) as [->|Hne].
    - apply runs_ret. split; [apply rtc_refl|]. by apply (heap_but_heap its lo n m r Hh).
    - apply runs_swap; [lia..|]. eapply runs_mono; [apply IH; rewrite ?length_swapped; try lia; apply heap_but_swap; [done|lia..|done|done|done]|].
      intros [] its' [Hsw Hheap]. split; [|done]. etransitivity; [|exact Hsw]. apply swaps_one; lia. }
  replace (2 * r + 1 + 1)%nat with (2 * r + 2)%nat by lia.
  destruct (Nat.ltb_spec (2 * r + 2) n) as [Hn2|Hn2].
  - apply runs_less_at; [lia..|]. intros c2 H2. apply Hgo; destruct c2; try lia; try done.
    + eapply (le_trans _ (v its (lo + l1))); [apply Hel; lia..|done|done].
    + intros c [-> | ->] Hc; [|apply le_refl, Hel; lia]. eapply (le_trans _ (v its (lo + l1))); [apply Hel; lia..|done|done].
    + intros c [-> | ->] Hc; done.
  - cbn [bind ret]. apply Hgo; [lia|done|]. intros c [-> | ->] Hc; [done|lia].
Qed.

(** The root is the greatest. *)
Lemma heap_root its lo n k : its ≡ₚ its0 -> (lo + n <= length its)%nat -> heap its lo n 0 -> (k < n)%nat ->
  le (v its (lo + k)) (v its lo).
Proof.
  intros Hp Hl Hh. induction k as [k IH] using lt_wf_ind. intros Hk.
  destruct k as [|k]; [rewrite Nat.add_0_r; apply le_refl, el_v; [done|lia]|].
  pose proof (Nat.div_mod k 2 ltac:(lia)) as Hd. pose proof (Nat.mod_upper_bound k 2 ltac:(lia)) as Hm.
  eapply (le_trans _ (v its (lo + k / 2))); [apply el_v; [done|lia]..| |apply IH; lia].
  apply Hh; lia.
Qed.

Lemma lookup_rev_seq m n k i : rev (seq m n) !! k = Some i -> (i = m + n - S k)%nat /\ (k < n)%nat.
Proof.
  rewrite rev_alt. change (rev_append (seq m n) []) with (reverse (seq m n)). rewrite reverse_lookup_Some, length_seq.
  intros [Hk Hn]. apply lookup_seq in Hk as [-> Hk]. lia.
Qed.

Lemma build_ok lo n its : (0 < n)%nat -> (lo + n <= length its)%nat ->
  runs its (for_each (rev (seq 0 (n / 2))) (fun i => sift_down cmp (S n) lo n i))
    (fun _ its' => swaps lo (lo + n - 1) its its' /\ heap its' lo n 0).
Proof.
  intros Hn Hl. pose proof (Nat.div_mod n 2 ltac:(lia)) as Hd. pose proof (Nat.mod_upper_bound n 2 ltac:(lia)) as Hm.
  eapply runs_mono.
  - apply (runs_for_each its _ _ (fun k its' => swaps lo (lo + n - 1) its its' /\ heap its' lo n (n / 2 - k))).
    + split; [apply rtc_refl|]. intros k c Hk Hc Hcn. lia.
    + intros its1 k i Hi [Hsw Hh]. apply lookup_rev_seq in Hi as [-> Hk]. pose proof (swaps_length _ _ _ _ Hsw) as Hlen.
      eapply runs_mono.
      * apply (sift_down_ok (S n) lo n (0 + n / 2 - S k)); [lia..|]. split; [|intros q c Hq Hr; lia].
        intros k' c Hk' Hne Hc Hcn. apply Hh; lia.
      * intros [] its' [Hsw' Hh']. split; [by etransitivity|].
        by replace (n / 2 - S k)%nat with (0 + n / 2 - S k)%nat by lia.
  - intros [] its' [Hsw Hh]. split; [done|]. rewrite length_rev, length_seq in Hh. by replace (n / 2 - n / 2)%nat with 0%nat in Hh by lia.
Qed.

(** The items from [m] on are in their final places. *)
Definition placed (its : Items) (lo n m : nat) : Prop :=
  forall a b, (a < b)%nat -> (m <= b < n)%nat -> le (v its (lo + a)) (v its (lo + b)).

Lemma extract_step lo n i its : (1 <= i < n)%nat -> (lo + n <= length its)%nat -> heap its lo (S i) 0 -> placed its lo n (S i) ->
  runs its (bind (swap lo (lo + i)) (fun _ => sift_down cmp (S i) lo i 0))
    (fun _ its' => swaps lo (lo + n - 1) its its' /\ heap its' lo i 0 /\ placed its' lo n i).
Proof.
  intros Hi Hl Hh Hpl. apply runs_perm. intros Hp. apply runs_swap; [lia..|]. eapply runs_mono.
  - apply (sift_down_ok (S i) lo i 0 0); rewrite ?length_swapped; [lia..|]. split; [|intros q c Hq Hr; lia].
    intros k c _ Hk Hc Hcn. rewrite !v_swapped by lia. rewrite !decide_False by lia. apply Hh; lia.
  - intros [] its' [Hsw Hh'].
    assert (Hsw1 : swaps lo (lo + i) its its').
    { etransitivity; [apply (swaps_one lo (lo + i) lo (lo + i)); lia|]. eapply swaps_weaken; [| |exact Hsw]; rewrite ?length_swapped; lia. }
    split; [eapply swaps_weaken; [| |exact Hsw1]; lia|]. split; [done|]. intros a b Hab Hb.
    assert (Hin : (a <= i)%nat -> exists a', (a' <= i)%nat /\ v its' (lo + a) = v its (lo + a')).
    { intros Ha. destruct (swaps_in _ _ _ _ (lo + a) Hsw1) as (k' & Hk' & ->); [lia|]. exists (k' - lo)%nat. split; [lia|].
      by replace (lo + (k' - lo))%nat with k' by lia. }
    destruct (decide (b = i)) as [->|Hne].
    + destruct Hin as (a' & Ha' & ->); [lia|]. rewrite (swaps_out _ _ _ _ _ Hsw) by lia.
      rewrite v_swapped, decide_True by lia. by apply (heap_root its lo (S i)); [done|lia|done|lia].
    + rewrite (swaps_out _ _ _ _ (lo + b) Hsw1) by lia. destruct (decide (a <= i)%nat) as [Ha|Ha].
      * destruct Hin as (a' & Ha' & ->); [done|]. apply Hpl; lia.
      * rewrite (swaps_out _ _ _ _ _ Hsw1) by lia. apply Hpl; lia.
Qed.

Lemma heapsort_ok lo hi its : (lo <= hi < length its)%nat ->
  runs its (heapsort cmp lo hi) (fun _ its' => swaps lo hi its its' /\ sorted its' lo hi).
Proof.
  intros Hhi. unfold heapsort. apply runs_sub; [lia|]. set (n := (hi - lo + 1)%nat). cbv zeta.
  eapply runs_bind; [apply build_ok; lia|]. intros [] its1 [Hsw1 Hh1]. replace (lo + n - 1)%nat with hi in * by lia.
  pose proof (swaps_length _ _ _ _ Hsw1) as Hlen1. eapply runs_mono.
  - apply (runs_for_each its1 _ _ (fun k its' => swaps lo hi its1 its' /\ heap its' lo (n - k) 0 /\ placed its' lo n (n - k))).
    + split; [apply rtc_refl|]. rewrite Nat.sub_0_r. split; [done|]. intros a b Hab Hb. lia.
    + intros its2 k i Hi (Hsw & Hh & Hpl). apply lookup_rev_seq in Hi as [-> Hk]. pose proof (swaps_length _ _ _ _ Hsw) as Hlen.
      replace (n - k)%nat with (S (1 + (n - 1) - S k)) in Hh, Hpl by lia.
      eapply runs_mono; [apply (extract_step lo n); [lia..|exact Hh|exact Hpl]|].
      intros [] its' (Hsw' & Hh' & Hpl'). replace (lo + n - 1)%nat with hi in * by lia.
      replace (n - S k)%nat with (1 + (n - 1) - S k)%nat by lia. split; [by etransitivity|done].
  - intros [] its' (Hsw & _ & Hpl). split; [by etransitivity|]. rewrite length_rev, length_seq in Hpl.
    intros a b Ha Hb. replace a with (lo + (a - lo))%nat by lia. replace b with (lo + (b - lo))%nat by lia. apply Hpl; lia.
Qed.

(** ** partition *)

Lemma scan_up_ok fuel i j pv its : forall (Q : nat -> Items -> Prop), el pv -> (j - i < fuel)%nat -> (i <= j < length its)%nat ->
  (forall i', (i <= i' <= j)%nat -> (forall k, (i <= k < i')%nat -> le (v its k) pv) -> (i' = j \/ le pv (v its i')) -> Q i' its) ->
  runs its (scan_up cmp fuel i j pv) Q.
Proof.
  revert i. induction fuel as [|fuel IH]; intros i Q Hpv Hf Hi HQ; [lia|]. cbn [scan_up]. apply runs_perm. intros Hp.
  destruct (Nat.ltb_spec i j) as [Hij|Hij].
  - apply runs_item; [lia|]. apply runs_less; [apply el_v; [done|lia]|done|]. intros [] Hc.
    + apply IH; [done|lia..|]. intros i' Hi' Hk Hlast. apply HQ; [lia| |done].
      intros k Hk'. destruct (decide (k = i)) as [->|]; [done|]. apply Hk; lia.
    + apply runs_ret, HQ; [lia| |by right]. intros k Hk. lia.
  - apply runs_ret, HQ; [lia| |left; lia]. intros k Hk. lia.
Qed.

Lemma scan_down_ok fuel i j pv its : forall (Q : nat -> Items -> Prop), el pv -> (j - i < fuel)%nat -> (j < length its)%nat ->
  (forall j', (j' <= j)%nat -> (i <= j -> i <= j')%nat -> (forall k, (j' < k <= j)%nat -> le pv (v its k)) ->
     ((j' <= i)%nat \/ le (v its j') pv) -> Q j' its) ->
  runs its (scan_down cmp fuel i j pv) Q.
Proof.
  revert j. induction fuel as [|fuel IH]; intros j Q Hpv Hf Hj HQ; [lia|]. cbn [scan_down]. apply runs_perm. intros Hp.
  destruct (Nat.ltb_spec i j) as [Hij|Hij].
  - apply runs_item; [lia|]. apply runs_less; [done|apply el_v; [done|lia]|]. intros [] Hc.
    + apply runs_sub; [lia|]. apply IH; [done|lia..|]. intros j' Hj' Hi' Hk Hlast. apply HQ; [lia|lia| |done].
      intros k Hk'. destruct (decide (k = j)) as [->|]; [done|]. apply Hk; lia.
    + apply runs_ret, HQ; [lia|lia| |by right]. intros k Hk. lia.
  - apply runs_ret, HQ; [lia|lia| |left; lia]. intros k Hk. lia.
Qed.

(** [lo..m) is below the pivot, [m..hi] is not. *)
Definition pivot_at (its : Items) (pv : V) (lo m m' hi : nat) : Prop :=
  (forall k, (lo <= k < m)%nat -> le (v its k) pv) /\ (forall k, (m' <= k <= hi)%nat -> le pv (v its k)).

Lemma partition_loop_ok fuel lo hi pv i j : forall its, (j - i < fuel)%nat -> (lo <= i < j)%nat -> (j < hi)%nat -> (hi < length its)%nat ->
  el pv -> v its (hi - 1) = pv -> pivot_at its pv lo (i + 1) j hi ->
  runs its (partition_loop cmp fuel i j pv) (fun p its' =>
    (lo < p < hi)%nat /\ swaps lo hi its its' /\ v its' (hi - 1) = pv /\ pivot_at its' pv lo p p hi).
Proof.
  revert i j. induction fuel as [|fuel IH]; intros i j its Hf Hij Hj Hl Hpv Hh1 [Hlow Hhigh]; [lia|]. cbn [partition_loop].
  eapply runs_bind; [apply (scan_up_ok _ _ _ _ _ (fun i' its' => its' = its /\ (i + 1 <= i' <= j)%nat /\
    (forall k, (i + 1 <= k < i')%nat -> le (v its k) pv) /\ (i' = j \/ le pv (v its i')))); [done|lia..|by auto]|].
  intros i' its1 (-> & Hi' & Hup & Hilast). apply runs_sub; [lia|].
  eapply runs_bind; [apply (scan_down_ok _ _ _ _ _ (fun j' its' => its' = its /\ (j' <= j - 1)%nat /\ (i' <= j - 1 -> i' <= j')%nat /\
    (forall k, (j' < k <= j - 1)%nat -> le pv (v its k)) /\ ((j' <= i')%nat \/ le (v its j') pv))); [done|lia..|by auto]|].
  intros j' its1 (-> & Hj' & Hjge & Hdown & Hjlast).
  assert (Hlow' : forall k, (lo <= k < i')%nat -> le (v its k) pv).
  { intros k Hk. destruct (decide (k <= i)%nat); [apply Hlow; lia|apply Hup; lia]. }
  assert (Hhigh' : forall k, (j' < k <= hi)%nat -> le pv (v its k)).
  { intros k Hk. destruct (decide (k <= j - 1)%nat); [apply Hdown; lia|apply Hhigh; lia]. }
  destruct (Nat.leb_spec j' i') as [Hji|Hji].
  - apply runs_ret. split; [lia|]. split; [apply rtc_refl|]. split; [done|]. split; [done|].
    intros k Hk. destruct (decide (k = i')) as [->|Hne]; [|apply Hhigh'; lia].
    destruct Hilast as [->|Hle]; [apply Hhigh; lia|done].
  - destruct Hilast as [->|Hile]; [lia|]. destruct Hjlast as [?|Hjle]; [lia|]. apply runs_swap; [lia..|].
    eapply runs_mono.
    + apply (IH i' j'); rewrite ?length_swapped; [lia..|done| |].
      * rewrite v_swapped, !decide_False by lia. done.
      * split; intros k Hk; rewrite v_swapped by lia; repeat destruct (decide _); subst; try done; try lia;
          [apply Hlow'; lia|apply Hhigh'; lia].
    + intros p its' (Hp & Hsw & Hpv' & Hsp). split; [done|]. split; [|done].
      etransitivity; [|exact Hsw]. apply swaps_one; lia.
Qed.

Lemma runs_order {B} its i j (f : unit -> M B) Q : (i < length its)%nat -> (j < length its)%nat -> i <> j ->
  (forall its', (its' = its \/ its' = swapped j i its) -> le (v its' j) (v its' i) -> runs its' (f tt) Q) ->
  runs its (bind (order cmp i j) f) Q.
Proof.
  intros Hi Hj Hne HQ. unfold order. apply runs_assoc, runs_less_at; [done..|]. intros [] Hc.
  - apply runs_swap; [done..|]. apply HQ; [by right|]. rewrite !v_swapped by done.
    by rewrite decide_False, !decide_True by done.
  - change (bind (ret tt) f) with (f tt). apply HQ; [by left|done].
Qed.

Lemma partition_ok lo hi its : (lo + 2 < hi)%nat -> (hi < length its)%nat ->
  runs its (partition cmp lo hi) (fun p its' => (lo < p < hi)%nat /\ swaps lo hi its its' /\
    (forall k, (lo <= k < p)%nat -> le (v its' k) (v its' p)) /\ (forall k, (p <= k <= hi)%nat -> le (v its' p) (v its' k))).
Proof.
  intros Hlh Hl. unfold partition. apply runs_sub; [lia|].
  pose proof (Nat.div_mod (hi - lo) 2 ltac:(lia)) as Hd. pose proof (Nat.mod_upper_bound (hi - lo) 2 ltac:(lia)) as Hm.
  set (mid := (lo + (hi - lo) / 2)%nat). assert (Hmid : (lo < mid < hi - 1)%nat) by lia. clearbody mid. cbv zeta.
  assert (Hone : forall i j x y, (lo <= i <= hi)%nat -> (lo <= j <= hi)%nat -> length x = length its ->
    y = x \/ y = swapped j i x -> swaps lo hi x y /\ length y = length its).
  { intros i j x y Hi Hj Hx [->| ->]; [split; [apply rtc_refl|done]|]. rewrite length_swapped. split; [apply swaps_one; lia|done]. }
  apply runs_order; [lia..|]. intros its1 H1 L1. apply Hone in H1 as [S1 Len1]; [|lia..].
  apply runs_perm. intros Hp1.
  apply runs_order; [lia..|]. intros its2 H2 L2.
  assert (Llo2 : le (v its2 lo) (v its2 mid)).
  { destruct H2 as [->| ->]; [done|]. rewrite !v_swapped in * by lia. rewrite decide_False, decide_True in * by lia.
    rewrite decide_True in L2 by lia. rewrite !decide_False by lia.
    eapply (le_trans _ (v its1 lo)); [by apply el_v; [|lia]..|done|done]. }
  apply Hone in H2 as [S2 Len2]; [|lia..]. apply runs_perm. intros Hp2.
  apply runs_order; [lia..|]. intros its3 H3 L3.
  assert (Llo3 : le (v its3 lo) (v its3 mid)).
  { destruct H3 as [->| ->]; [done|]. rewrite !v_swapped by lia. rewrite !(decide_False (P := lo = _)) by lia.
    rewrite decide_False, decide_True by lia. done. }
  apply Hone in H3 as [S3 Len3]; [|lia..]. apply runs_perm. intros Hp3.
  assert (S03 : swaps lo hi its its3) by (etransitivity; [exact S1|etransitivity; [exact S2|exact S3]]).
  apply runs_item; [lia|]. apply runs_sub; [lia|]. apply runs_swap; [lia..|]. set (its4 := swapped mid (hi - 1) its3).
  assert (Len4 : length its4 = length its) by (unfold its4; rewrite length_swapped; lia).
  assert (S04 : swaps lo hi its its4) by (etransitivity; [exact S03|apply swaps_one; lia]).
  assert (Hv4 : v its4 (hi - 1) = v its3 mid) by (unfold its4; rewrite v_swapped, decide_True by lia; done).
  assert (Hel : el (v its3 mid)) by (apply el_v; [done|lia]).
  eapply runs_bind.
  - apply (partition_loop_ok _ lo hi (v its3 mid) lo (hi - 1)); [lia..|done|done|].
    split; intros k Hk; unfold its4; rewrite v_swapped by lia.
    + replace k with lo by lia. by rewrite !decide_False by lia.
    + destruct (decide (k = (hi - 1)%nat)); [by apply le_refl|]. rewrite decide_False by lia. by replace k with hi by lia.
  - intros p its5 (Hp & S5 & Hv5 & [Hlow Hhigh]). pose proof (swaps_length _ _ _ _ S5) as Len5.
    apply runs_swap; [lia..|]. apply runs_ret. split; [done|].
    split; [etransitivity; [exact S04|etransitivity; [exact S5|apply swaps_one; lia]]|].
    assert (Hvp : v (swapped p (hi - 1) its5) p = v its3 mid).
    { rewrite v_swapped by lia. destruct (decide (p = (hi - 1)%nat)) as [->|]; [done|]. by rewrite decide_True. }
    rewrite Hvp. split; intros k Hk; rewrite v_swapped by lia.
    + rewrite !decide_False by lia. by apply Hlow.
    + destruct (decide (k = (hi - 1)%nat)); [apply Hhigh; lia|]. destruct (decide (k = p)); [rewrite Hv5; by apply le_refl|].
      apply Hhigh; lia.
Qed.

(** ** introsort *)

(** Sorted parts on both sides of a pivot. *)
Lemma sorted_join lo p hi its : its ≡ₚ its0 -> (lo <= p <= hi)%nat -> (hi < length its)%nat ->
  sorted its lo (p - 1) -> sorted its (p + 1) hi ->
  (forall k, (lo <= k < p)%nat -> le (v its k) (v its p)) -> (forall k, (p <= k <= hi)%nat -> le (v its p) (v its k)) ->
  sorted its lo hi.
Proof.
  intros Hp Hlp Hl Hs1 Hs2 Hlow Hhigh a b Ha Hb.
  destruct (decide (b < p)%nat); [apply Hs1; lia|]. destruct (decide (p < a)%nat); [apply Hs2; lia|].
  destruct (decide (a = p)) as [->|]; [apply Hhigh; lia|].
  eapply (le_trans _ (v its p)); [by apply el_v; [|lia]..|apply Hlow; lia|apply Hhigh; lia].
Qed.

Lemma introsort_impl_ok depth lo hi : forall its, (lo <= hi < length its)%nat ->
  runs its (introsort_impl cmp depth lo hi) (fun _ its' => swaps lo hi its its' /\ sorted its' lo hi).
Proof.
  revert lo hi. induction depth as [|depth IH]; intros lo hi its Hhi; cbn [introsort_impl]; (apply runs_sub; [lia|]).
  { destruct (Nat.ltb_spec (hi - lo) 16); [by apply insertion_sort_ok|by apply heapsort_ok]. }
  destruct (Nat.ltb_spec (hi - lo) 16); [by apply insertion_sort_ok|].
  eapply runs_bind; [apply partition_ok; lia|]. intros p its1 (Hp & S1 & Hlow & Hhigh).
  pose proof (swaps_length _ _ _ _ S1) as Len1. rewrite (proj2 (Nat.ltb_lt lo p)) by lia.
  apply runs_assoc, runs_sub; [lia|]. eapply runs_bind; [apply IH; lia|]. intros [] its2 [S2 Hs2].
  pose proof (swaps_length _ _ _ _ S2) as Len2. rewrite (proj2 (Nat.ltb_lt p hi)) by lia.
  apply runs_ret_r. eapply runs_bind; [apply IH; lia|]. intros [] its3 [S3 Hs3].
  pose proof (swaps_length _ _ _ _ S3) as Len3. apply runs_perm. intros Hp3. apply runs_ret. split.
  { etransitivity; [exact S1|]. etransitivity; [eapply swaps_weaken; [| |exact S2]; lia|eapply swaps_weaken; [| |exact S3]; lia]. }
  assert (Hleft : forall k, (k <= p)%nat -> v its3 k = v its2 k) by (intros k Hk; apply (swaps_out _ _ _ _ _ S3); lia).
  assert (Hpv : v its3 p = v its1 p) by (rewrite Hleft by lia; apply (swaps_out _ _ _ _ _ S2); lia).
  apply (sorted_join lo p hi); [done|lia|lia| |exact Hs3|rewrite Hpv..].
  - intros a b Ha Hb. rewrite !Hleft by lia. by apply Hs2.
  - intros k Hk. rewrite Hleft by lia. destruct (swaps_in _ _ _ _ k S2) as (k' & Hk' & ->); [lia|]. apply Hlow; lia.
  - intros k Hk. destruct (decide (k = p)) as [->|Hne]; [rewrite Hpv; apply Hhigh; lia|].
    destruct (swaps_in _ _ _ _ k S3) as (k' & Hk' & ->); [lia|]. rewrite (swaps_out _ _ _ _ _ S2) by lia. apply Hhigh; lia.
Qed.

Lemma introsort_runs : runs its0 (introsort cmp) (fun _ its' => sorted its' 0 (length its0 - 1)).
Proof.
  intros Hp l. unfold introsort. destruct (Nat.leb_spec (length its0) 1) as [Hl|Hl].
  - split; [done|]. intros a b Ha Hb. lia.
  - pose proof (introsort_impl_ok (max_depth (length its0)) 0 (length its0 - 1) its0 ltac:(lia) Hp l) as Hr.
    destruct (introsort_impl _ _ _ _ _ _) as [[[l' its'] [u|e]]|]; [|done|done]. destruct Hr as (? & _ & ?). done.
Qed.
End Introsort.

(** ** The theorems *)

(** C25. Whatever the comparator does, even if its answers are no order, and
    even if it changes the state or fails, the sort terminates, no index is
    out of bounds and no subtraction underflows, and the items are a
    permutation of what they were, also when the comparator's error is
    returned. *)
Theorem introsort_permutes {State Err V} `{Inhabited V} (cmp : State -> V -> V -> State * (bool + Err)) (l : State)
    (items : list (Z * V)) :
  exists l' items' r, introsort cmp l items = Some (l', items', r) /\ items' ≡ₚ items.
Proof.
  pose proof (introsort_runs cmp items (fun _ _ => False) (reflexivity _) l) as Hr.
  destruct (introsort cmp l items) as [[[l' items'] r]|]; [|done]. exists l', items', r. split; [done|].
  destruct r; [by destruct Hr|done].
Qed.

(** C27. When the comparator's answers agree with a strict weak order on the
    values, and the sort returns, no value is less than one before it. *)
Theorem introsort_sorts {State Err V} `{Inhabited V} (cmp : State -> V -> V -> State * (bool + Err)) (lt : V -> V -> Prop)
    (l l' : State) (items items' : list (Z * V)) (Hc : consistent cmp items lt)
    (E : introsort cmp l items = Some (l', items', inl tt)) :
  items' ≡ₚ items /\
  forall i j x y, (i < j)%nat -> items'.*2 !! i = Some x -> items'.*2 !! j = Some y -> ~ lt y x.
Proof.
  pose proof (introsort_runs cmp items lt (reflexivity _) l) as Hr. rewrite E in Hr. destruct Hr as [Hp Hs].
  split; [done|]. intros i j x y Hij Hx Hy.
  rewrite list_lookup_fmap in Hx, Hy. destruct (items' !! i) as [a|] eqn:Ea; [|done]. destruct (items' !! j) as [b|] eqn:Eb; [|done].
  cbn in Hx, Hy. simplify_eq. pose proof (lookup_lt_Some _ _ _ Eb) as Hj. rewrite Hp in Hj.
  pose proof (Hs i j ltac:(lia) ltac:(lia) Hc) as Hle. unfold v in Hle.
  by rewrite (list_lookup_total_correct _ _ _ Ea), (list_lookup_total_correct _ _ _ Eb) in Hle.
Qed.

(** ** The default comparator on numbers *)

(** The place of a double that is not NaN, lexicographically. *)
Definition rank (x : spec_float) : Z * Z * Z :=
  match x with
  | S754_zero _ | S754_nan => (0, 0, 0)
  | S754_infinity s => (if s then -2 else 2, 0, 0)
  | S754_finite s m e => if s then (-1, - e, Z.neg m) else (1, e, Z.pos m)
  end.

Definition rank_lt (a b : Z * Z * Z) : Prop :=
  let '(a1, a2, a3) := a in let '(b1, b2, b3) := b in
  a1 < b1 \/ a1 = b1 /\ (a2 < b2 \/ a2 = b2 /\ a3 < b3).

Lemma pos_compare_cont m n : Pos.compare_cont Eq m n = (m ?= n)%positive.
Proof. done. Qed.

Lemma SFltb_rank x y : x <> S754_nan -> y <> S754_nan -> SFltb x y = true <-> rank_lt (rank x) (rank y).
Proof.
  intros Hx Hy. unfold SFltb, SFcompare. destruct x as [s|s| |s m e], y as [s'|s'| |s' m' e']; try done; try destruct s; try destruct s';
    cbn [rank rank_lt]; try (split; [discriminate|lia]); try (split; [lia|done]).
  all: destruct (Z.compare_spec e e') as [->|He|He]; try (split; [discriminate|lia]); try (split; [lia|done]).
  all: rewrite pos_compare_cont; destruct (Pos.compare_spec m m') as [->|Hm|Hm]; cbn [CompOpp]; (split; [try discriminate; lia|try done; lia]).
Qed.

Definition ordered_number (x : LuaValue) : Prop := is_number x = true /\ f64_is_nan x = false.

Lemma f64_lt_rank a b : f64_is_nan a = false -> f64_is_nan b = false ->
  f64_lt a b = true <-> rank_lt (rank (SF_of_bits a)) (rank (SF_of_bits b)).
Proof.
  unfold f64_is_nan, f64_lt. intros Ha Hb. apply SFltb_rank; intros E; [by rewrite E in Ha|by rewrite E in Hb].
Qed.

Lemma default_consistent `{StrHeap} {State Err Frame} execute meta_lt frame restore (items : list (Z * LuaValue)) :
  Forall (fun x => ordered_number x.2) items ->
  consistent (@cmp_apply _ State Err Frame execute meta_lt frame restore Default) items (fun a b => f64_lt a b = true).
Proof.
  intros Hn. assert (Hel : forall a, el items a -> ordered_number a).
  { intros a (x & -> & Hx)%list_elem_of_fmap. rewrite Forall_forall in Hn. by apply Hn. }
  assert (Hr : forall a b, el items a -> el items b -> f64_lt a b = true <-> rank_lt (rank (SF_of_bits a)) (rank (SF_of_bits b))).
  { intros a b Ha%Hel Hb%Hel. apply f64_lt_rank; [apply Ha|apply Hb]. }
  split; [|split].
  - intros l a b l' r Ha%Hel Hb%Hel E. cbn [cmp_apply] in E. unfold compare_default in E.
    rewrite (proj1 Ha), (proj1 Hb) in E. cbn in E. by injection E as <- <-.
  - intros a b Ha Hb. rewrite !Hr by done. destruct (rank _) as [[? ?] ?], (rank _) as [[? ?] ?]. cbn. lia.
  - intros a b c Ha Hb Hc'. rewrite !Hr by done.
    destruct (rank (SF_of_bits a)) as [[? ?] ?], (rank (SF_of_bits b)) as [[? ?] ?], (rank (SF_of_bits c)) as [[? ?] ?]. cbn. lia.
Qed.

(** A number and a string do not compare, and no error says so. *)
Lemma default_mixed_silent `{StrHeap} {State Err Frame} execute meta_lt frame restore (l : State) :
  is_func (meta_lt l (f64_of_int 1)) = false ->
  @cmp_apply _ State Err Frame execute meta_lt frame restore Default l (f64_of_int 1) (gcv LJ_TSTR 0x2000) = (l, inl false).
Proof. intros E. unfold cmp_apply, compare_default. rewrite E. done. Qed.

#[local] Instance demo_heap : StrHeap.
Proof. refine {| str_sid := fun _ => 0; str_bytes := fun _ => [] |}. intros _. unfold urange. lia. Defined.

Definition demo_cmp : unit -> LuaValue -> LuaValue -> unit * (bool + unit) :=
  @cmp_apply _ unit unit unit (fun l _ _ _ => (l, inl None)) (fun _ _ => NIL) (fun _ => tt) (fun _ l => l) Default.

(** Thirty numbers in no order: enough for a partition. *)
Definition demo_items : list (Z * LuaValue) :=
  (fun k => (Z.of_nat k, number (f64_of_int (((Z.of_nat k * 17) mod 31) - 12)))) <$> seq 1 30.

Lemma demo_items_ok : Forall (fun x => ordered_number x.2) demo_items.
Proof.
  assert (forallb (fun x => is_number x.2 && negb (f64_is_nan x.2)) demo_items = true) as Hb by (vm_compute; reflexivity).
  apply Forall_forall. intros x Hx%list_elem_of_In. rewrite forallb_forall in Hb. specialize (Hb x Hx).
  apply andb_true_iff in Hb as [? ?%negb_true_iff]. done.
Qed.

Lemma introsort_sorts_witness :
  exists items', introsort demo_cmp tt demo_items = Some (tt, items', inl tt) /\
    items'.*2 = (fun k => number (f64_of_int (Z.of_nat k - 12))) <$> seq 1 30 /\
    (forall i j x y, (i < j)%nat -> items'.*2 !! i = Some x -> items'.*2 !! j = Some y -> ~ f64_lt y x = true).
Proof.
  assert (exists items', introsort demo_cmp tt demo_items = Some (tt, items', inl tt) /\
    items'.*2 = (fun k => number (f64_of_int (Z.of_nat k - 12))) <$> seq 1 30) as (items' & E & Ei)
    by (eexists; split; vm_compute; reflexivity).
  exists items'. split; [exact E|]. split; [exact Ei|].
  exact (proj2 (introsort_sorts demo_cmp (fun a b => f64_lt a b = true) tt tt demo_items items'
    (default_consistent _ _ _ _ _ demo_items_ok) E)).
Defined.
