(* ===== verification/Strings.v ===== *)
(** * A string table, and text from bytes

    What the clients of runtime/string.rs rely on: strings are interned and
    read back by id, and interning keeps the strings that are there.
    StringsIntern.v shows that the interner provides it.  Text for messages and
    names is [String::from_utf8_lossy] of bytes. *)

From Stdlib Require Import ZArith Lia Bool.
From stdpp Require Import base decidable numbers option list.
From S2P Require Import Prelude.

(** ** What the lexer and the bytecode files need of the interner *)

Class Strings (St : Type) := {
  (** [get] and [intern]; [None] is a panic. *)
  str_get : St -> Z -> option (list Z);
  str_intern : St -> list Z -> option (St * Z);
  (** The bytes of a live id, and tables that take [n] more strings. *)
  is_interned : St -> Z -> list Z -> Prop;
  str_room : nat -> St -> Prop;
  str_room_S : forall n st, str_room (S n) st -> str_room n st;
  is_interned_get : forall st id b, is_interned st id b -> str_get st id = Some b;
  str_intern_ok : forall n st b, str_room (S n) st ->
    exists st' id, str_intern st b = Some (st', id) /\ str_room n st' /\ is_interned st' id b /\
      forall id' b', is_interned st id' b' -> is_interned st' id' b';
}.

(** ** UTF-8 *)

(** [String::from_utf8_lossy]: the first character or ill-formed sequence,
    and how many bytes it takes. *)
Definition cont (b : Z) : bool := (0x80 <=? b) && (b <=? 0xBF).
Definition within (lo hi b : Z) : bool := (lo <=? b) && (b <=? hi).

Definition utf8_second (x : Z) : Z * Z :=
  if x =? 0xE0 then (0xA0, 0xBF) else if x =? 0xED then (0x80, 0x9F)
  else if x =? 0xF0 then (0x90, 0xBF) else if x =? 0xF4 then (0x80, 0x8F) else (0x80, 0xBF).

Definition utf8_width (x : Z) : nat :=
  if x <? 0x80 then 1 else if within 0xC2 0xDF x then 2 else if within 0xE0 0xEF x then 3
  else if within 0xF0 0xF4 x then 4 else 0.

(** Well-formed or not, and the length. *)
Definition utf8_step (b : list Z) : bool * nat :=
  match b with
  | [] => (true, 0%nat)
  | x :: rest =>
      let '(lo, hi) := utf8_second x in
      match utf8_width x, rest with
      | 0, _ => (false, 1)
      | 1, _ => (true, 1)
      | w, y :: rest =>
          if within lo hi y then
            if (w =? 2)%nat then (true, 2)
            else
              match rest with
              | z :: rest =>
                  if cont z then
                    if (w =? 3)%nat then (true, 3)
                    else match rest with u :: _ => if cont u then (true, 4) else (false, 3) | [] => (false, 3) end
                  else (false, 2)
              | [] => (false, 2)
              end
          else (false, 1)
      | _, [] => (false, 1)
      end%nat
  end.

Definition REPLACEMENT : list Z := [0xEF; 0xBF; 0xBD].

Fixpoint lossy_loop (fuel : nat) (b : list Z) : list Z :=
  match fuel, b with
  | S fuel, _ :: _ =>
      let '(ok, n) := utf8_step b in
      (if (ok : bool) then take n b else REPLACEMENT) ++ lossy_loop fuel (drop n b)
  | _, _ => []
  end.

Definition from_utf8_lossy (b : list Z) : list Z := lossy_loop (length b) b.
