(* ===== verification/StringsIntern.v ===== *)
(** * The interner as a string table

    runtime/string.rs provides what the lexer and the bytecode files need. *)

From Stdlib Require Import ZArith Lia Bool.
From stdpp Require Import base decidable numbers option gmap list.
From S2P Require Import Prelude Heap HeapSpec Intern InternSpec Strings.

Section Interner.
Context `{Layout}.

(** The memory, the interner, and the next block of the string pool. *)
Definition Table : Type := Mem * Interner * Z.

Definition table_get (t : Table) (id : Z) : option (list Z) := let '(m, it, _) := t in get_bytes m it id.

Definition table_intern (t : Table) (b : list Z) : option (Table * Z) :=
  let '(m, it, p) := t in
  let? ' (m, it, id) := intern m it b p in Some ((m, it, p + 64), id).

Definition table_interned (t : Table) (id : Z) (b : list Z) : Prop := let '(m, it, _) := t in interned m it id b.

Definition table_room (n : nat) (t : Table) : Prop :=
  let '(m, it, p) := t in
  intern_ok m it /\ zlen (by_id it) + Z.of_nat n <= 2 ^ 32 - 1 /\
  0x1000 < p /\ p + 64 * Z.of_nat n <= ADDR_MAX /\ (forall q, p <= q -> m !! q = None).

Lemma table_interned_get t id b : table_interned t id b -> table_get t id = Some b.
Proof.
  destruct t as [[m it] p]. intros (q & ls & E & Es & <-). cbn. unfold get_bytes, lookup_str, lookup_ptr.
  by rewrite E, Es.
Qed.

Lemma table_room_S n t : table_room (S n) t -> table_room n t.
Proof. destruct t as [[m it] p]. intros (Hok & Hids & Hp & Ha & Hf). split; [done|]. split; [lia|]. split; [done|]. split; [lia|done]. Qed.

Lemma intern_step_free m it p m' it' q : intern_step m it p m' it' -> p < q -> m !! q = None -> m' !! q = None.
Proof.
  intros [(q0 & h & o & E & _ & -> & _)|(ls & -> & _)] Hq Hn.
  - rewrite lookup_insert_ne; [done|]. intros ->. by rewrite E in Hn.
  - rewrite lookup_insert_ne; [done|lia].
Qed.

Lemma table_intern_ok n t b : table_room (S n) t ->
  exists t' id, table_intern t b = Some (t', id) /\ table_room n t' /\ table_interned t' id b /\
    forall id' b', table_interned t id' b' -> table_interned t' id' b'.
Proof.
  destruct t as [[m it] p]. intros (Hok & Hids & Hp & Ha & Hfree).
  destruct (intern_spec m it b p Hok) as (m' & it' & id & E & Hok' & Hstep & Hint & _ & Hlen);
    [unfold room; lia|apply Hfree; lia|lia|].
  exists (m', it', p + 64), id. cbn [table_intern]. rewrite E. split; [done|]. split.
  - split; [done|]. split; [lia|]. split; [lia|]. split; [lia|]. intros q Hq.
    eapply intern_step_free; [exact Hstep|lia|apply Hfree; lia].
  - split; [apply Hint; by right|]. intros id' b' Hi. apply Hint. by left.
Qed.

#[global] Instance interner_strings : Strings Table := {|
  str_get := table_get;
  str_intern := table_intern;
  is_interned := table_interned;
  str_room := table_room;
  str_room_S := table_room_S;
  is_interned_get := table_interned_get;
  str_intern_ok := table_intern_ok;
|}.
End Interner.

(** ** An empty table *)

#[global] Instance demo_layout : Layout := {| type_size := fun _ => 56 |}.

Definition demo_table (p : Z) : Table :=
  match interner_new ∅ 0x2000 with
  | Some (m, it) => (m, it, p)
  | None => (∅, mkInterner [] 0 0 [] [] (mkPool [] 0 GcObjectKind.String 0) 0 0, p)
  end.

Lemma demo_table_room n : (n <= 1000)%nat -> str_room n (demo_table 0x3000).
Proof.
  intros Hn. destruct (interner_new_ok ∅ 0x2000 (lookup_empty (M:=gmap Z) 0x2000)
    ltac:(vm_compute; split; reflexivity)) as (m & it & En & Hok & _ & Ho).
  assert (zlen (by_id it) = 1) as Hl.
  { assert ((let? ' (_, it) := interner_new ∅ 0x2000 in Some (zlen (by_id it))) = Some 1) as E by (vm_compute; reflexivity).
    rewrite En in E. by injection E. }
  change (table_room n (demo_table 0x3000)). unfold demo_table. rewrite En.
  unfold table_room. change ADDR_MAX with (2 ^ 47).
  split; [exact Hok|]. split; [rewrite Hl; lia|]. split; [lia|]. split; [lia|]. intros q Hq. rewrite Ho by lia. apply (lookup_empty (M:=gmap Z)).
Qed.

Lemma table_interned_check t id b :
  (let '(m, it, _) := t in let? p := try_lookup it id in let? ls := string_at m p in Some (as_bytes ls)) = Some b ->
  table_interned t id b.
Proof.
  destruct t as [[m it] p]. destruct (try_lookup it id) as [q|] eqn:E; [|done].
  destruct (string_at m q) as [ls|] eqn:Es; [|done]. intros [= <-]. by exists q, ls.
Qed.
