(* ===== verification/Dump.v ===== *)
(** * compiler/dump.rs, compiler/undump.rs: bytecode files

    The writer appends bytes to a vector, the reader is a slice with a
    position.  [None] is a panic: an index past the end of the input, a bad
    tag, or a string id without a string.  The reader's fuel bounds the
    nesting of prototypes, which the code leaves to the stack. *)

From Stdlib Require Import ZArith Lia Bool.
From stdpp Require Import base decidable numbers option list.
From S2P Require Import Prelude Float64 Value Table Strings.

(** ** Prototypes

    A child behind a [GcPtr] is written as the child itself. *)

Record CData := mkCData { ctypeid : Z; data : list Z; base : option Z; offset : Z }.

Inductive KGc : Set :=
  | KStr (sid : Z) | KProto (p : Proto) | KProtoRef (p : Proto) | KTable (t : LuaTable) | KTableRef (t : Z)
  | KCData (c : CData)
with Proto : Set :=
  | mkProto (bc lines : list Z) (kgc : list KGc) (kn : list f64) (kstrv : list LuaValue) (uv : list Z)
      (flags numparams framesize firstline numline : Z) (uvnames : list (list Z))
      (varnames : list (Z * Z * Z * list Z)) (source : option Z).

(** ** Bytes *)

Fixpoint to_le_bytes (n : nat) (v : Z) : list Z :=
  match n with O => [] | S n => v mod 256 :: to_le_bytes n (v / 256) end.

Fixpoint from_le_bytes (b : list Z) : Z :=
  match b with [] => 0 | x :: b => x + 256 * from_le_bytes b end.

Definition MAGIC : list Z := [27; 76; 74].
Definition VERSION : Z := 1.


(** ** Writer *)

Definition w_u8 (w : list Z) (v : Z) : list Z := w ++ [v].
Definition w_u16 (w : list Z) (v : Z) : list Z := w ++ to_le_bytes 2 v.
Definition w_u32 (w : list Z) (v : Z) : list Z := w ++ to_le_bytes 4 v.
Definition w_f64 (w : list Z) (v : f64) : list Z := w ++ to_le_bytes 8 v.
Definition w_bytes (w b : list Z) : list Z := w ++ b.

Section Dump.
Context {St : Type} `{Strings St}.

(** A length and the bytes of a string. *)
Definition w_str (strs : St) (w : list Z) (sid : Z) : option (list Z) :=
  let? b := str_get strs sid in
  Some (w_bytes (w_u32 w (uwrap 32 (zlen b))) b).

(** [for &x in xs]. *)
Definition w_all {A} (f : list Z -> A -> list Z) (w : list Z) (xs : list A) : list Z := foldl f w xs.

Definition w_name (w name : list Z) : list Z := w_bytes (w_u16 w (uwrap 16 (zlen name))) name.

Fixpoint write_proto (strs : St) (w : list Z) (pt : Proto) : option (list Z) :=
  match pt with
  | mkProto bc lines kgc kn _ uv flags numparams framesize firstline numline uvnames _ source =>
      let w := w_u16 w flags in
      let w := w_u8 w numparams in
      let w := w_u8 w framesize in
      let w := w_u32 w (uwrap 32 (zlen bc)) in
      let w := w_u32 w (uwrap 32 (zlen kgc)) in
      let w := w_u32 w (uwrap 32 (zlen kn)) in
      let w := w_u32 w 0 in
      let w := w_u32 w (uwrap 32 (zlen uv)) in
      let w := w_u32 w (uwrap 32 (zlen uvnames)) in
      let w := w_u32 w firstline in
      let w := w_u32 w numline in
      let? w := match source with Some sid => w_str strs (w_u8 w 1) sid | None => Some (w_u8 w 0) end in
      let w := w_all w_u32 w bc in
      let w := w_all w_u32 w lines in
      let w := w_all w_f64 w kn in
      let w := w_all w_u16 w uv in
      let w := w_all w_name w uvnames in
      (fix write_kgcs (w : list Z) (ks : list KGc) : option (list Z) :=
         match ks with
         | [] => Some w
         | k :: ks => let? w := write_kgc strs w k in write_kgcs w ks
         end) w kgc
  end
with write_kgc (strs : St) (w : list Z) (k : KGc) : option (list Z) :=
  match k with
  | KStr sid => w_str strs (w_u8 w 0) sid
  | KProto child => write_proto strs (w_u8 w 1) child
  | KProtoRef child => write_proto strs (w_u8 w 1) child
  | KTable _ | KTableRef _ => Some (w_u8 w 2)
  | KCData _ => Some (w_u8 w 3)
  end.

Definition dump (pt : Proto) (strs : St) : option (list Z) :=
  let w := w_bytes [] MAGIC in
  let w := w_u8 w VERSION in
  let w := w_u8 w 0 in
  write_proto strs w pt.

(** ** Reader *)

Record Reader := mkReader { rdata : list Z; pos : nat }.

(** Computations of the reader. *)
Definition RM (A : Type) : Type := Reader -> option (A * Reader).

Definition read_bytes (len : nat) : RM (list Z) := fun r =>
  if (pos r + len <=? length (rdata r))%nat
  then Some (take len (drop (pos r) (rdata r)), mkReader (rdata r) (pos r + len)%nat) else None.

Definition read_u8 : RM Z := fun r =>
  let? v := rdata r !! pos r in Some (v, mkReader (rdata r) (pos r + 1)%nat).

Definition read_le (n : nat) : RM Z := fun r => let? ' (b, r) := read_bytes n r in Some (from_le_bytes b, r).
Definition read_u16 : RM Z := read_le 2.
Definition read_u32 : RM Z := read_le 4.
Definition read_f64 : RM f64 := read_le 8.

(** [for _ in 0..n]. *)
Fixpoint read_n {A} (f : RM A) (n : nat) : RM (list A) := fun r =>
  match n with
  | O => Some ([], r)
  | S n => let? ' (x, r) := f r in let? ' (xs, r) := read_n f n r in Some (x :: xs, r)
  end.

Definition read_name : RM (list Z) := fun r =>
  let? ' (len, r) := read_u16 r in
  let? ' (b, r) := read_bytes (Z.to_nat len) r in
  Some (from_utf8_lossy b, r).

(** Legacy entries. *)
Definition read_kstrv : RM LuaValue := fun r =>
  let? ' (raw, r) := read_u32 r in Some (if raw =? 0xFFFFFFFF then NIL else raw, r).

Definition read_str (strs : St) : Reader -> option (Z * Reader * St) := fun r =>
  let? ' (len, r) := read_u32 r in
  let? ' (b, r) := read_bytes (Z.to_nat len) r in
  let? ' (strs, id) := str_intern strs b in
  Some (id, r, strs).

(** [for _ in 0..n], threading the interner. *)
Fixpoint read_all {A} (f : Reader -> St -> option (A * Reader * St)) (n : nat) (r : Reader) (strs : St) :
    option (list A * Reader * St) :=
  match n with
  | O => Some ([], r, strs)
  | S n =>
      let? ' (x, r, strs) := f r strs in
      let? ' (xs, r, strs) := read_all f n r strs in
      Some (x :: xs, r, strs)
  end.

Definition read_kgc (read_proto : Reader -> St -> option (Proto * Reader * St)) (r : Reader) (strs : St) :
    option (KGc * Reader * St) :=
  let? ' (tag, r) := read_u8 r in
  if tag =? 0 then let? ' (id, r, strs) := read_str strs r in Some (KStr id, r, strs)
  else if tag =? 1 then let? ' (p, r, strs) := read_proto r strs in Some (KProto p, r, strs)
  else if tag =? 2 then let? t := Table.new 0 0 in Some (KTable t, r, strs)
  else if tag =? 3 then Some (KCData (mkCData 0 [] None 0), r, strs)
  else None.

Fixpoint read_proto (fuel : nat) (r : Reader) (strs : St) : option (Proto * Reader * St) :=
  match fuel with
  | O => None
  | S fuel =>
      let? ' (flags, r) := read_u16 r in
      let? ' (numparams, r) := read_u8 r in
      let? ' (framesize, r) := read_u8 r in
      let? ' (bc_len, r) := read_u32 r in
      let? ' (kgc_len, r) := read_u32 r in
      let? ' (kn_len, r) := read_u32 r in
      let? ' (kstrv_len, r) := read_u32 r in
      let? ' (uv_len, r) := read_u32 r in
      let? ' (uvnames_len, r) := read_u32 r in
      let? ' (firstline, r) := read_u32 r in
      let? ' (numline, r) := read_u32 r in
      let? ' (has_source, r) := read_u8 r in
      let? ' (source, r, strs) :=
        if negb (has_source =? 0) then let? ' (id, r, strs) := read_str strs r in Some (Some id, r, strs)
        else Some (None, r, strs) in
      let? ' (bc, r) := read_n read_u32 (Z.to_nat bc_len) r in
      let? ' (lines, r) := read_n read_u32 (Z.to_nat bc_len) r in
      let? ' (kn, r) := read_n read_f64 (Z.to_nat kn_len) r in
      let? ' (kstrv, r) := read_n read_kstrv (Z.to_nat kstrv_len) r in
      let? ' (uv, r) := read_n read_u16 (Z.to_nat uv_len) r in
      let? ' (uvnames, r) := read_n read_name (Z.to_nat uvnames_len) r in
      let? ' (kgc, r, strs) := read_all (read_kgc (read_proto fuel)) (Z.to_nat kgc_len) r strs in
      Some (mkProto bc lines kgc kn kstrv uv flags numparams framesize firstline numline uvnames [] source, r, strs)
  end.

(** The two messages of the [Err] side. *)
Inductive UndumpError : Set := NotAChunk | VersionMismatch (got : Z).

Definition undump (data : list Z) (strs : St) : option (sum (Proto * St) UndumpError) :=
  if (length data <? 5)%nat || negb (bool_decide (take 3 data = MAGIC)) then Some (inr NotAChunk)
  else
    let? ' (version, r) := read_u8 (mkReader data 3) in
    if negb (version =? VERSION) then Some (inr (VersionMismatch version))
    else
      let? ' (_, r) := read_u8 r in
      let? ' (p, r, strs) := read_proto (S (length data)) r strs in
      Some (inl (p, strs)).
End Dump.
