(* ===== verification/DumpSpec.v ===== *)
(** * Bytecode files: reading back what was written

    [undump] of [dump]: every field comes back, strings as new ids of the same
    bytes; template tables and C data come back empty. *)

From Stdlib Require Import ZArith Lia Bool.
From stdpp Require Import base decidable numbers option gmap list.
From S2P Require Import Prelude Float64 Value Table Strings Heap HeapSpec Intern InternSpec StringsIntern Dump.

(** ** Bytes *)

Definition byte (b : Z) : Prop := 0 <= b < 256.

Lemma length_to_le n v : length (to_le_bytes n v) = n.
Proof. revert v. induction n as [|n IH]; intros v; [done|]. cbn. by rewrite IH. Qed.

Lemma from_to_le n v : 0 <= v < 256 ^ Z.of_nat n -> from_le_bytes (to_le_bytes n v) = v.
Proof.
  revert v. induction n as [|n IH]; intros v Hv; [cbn in *; lia|]. cbn [to_le_bytes from_le_bytes].
  rewrite Nat2Z.inj_succ, Z.pow_succ_r in Hv by lia. rewrite IH.
  - pose proof (Z.div_mod v 256). lia.
  - split; [apply Z.div_pos; lia|]. apply Z.div_lt_upper_bound; lia.
Qed.

(** Names that are well-formed UTF-8. *)
Lemma utf8_step_pos x b : (0 < (utf8_step (x :: b)).2)%nat.
Proof. unfold utf8_step. repeat (case_match; cbn; try lia). Qed.

Fixpoint utf8_valid_loop (fuel : nat) (b : list Z) : bool :=
  match fuel, b with
  | _, [] => true
  | S fuel, _ :: _ => let '(ok, n) := utf8_step b in ok && utf8_valid_loop fuel (drop n b)
  | O, _ :: _ => false
  end.

Definition utf8_valid (b : list Z) : bool := utf8_valid_loop (length b) b.

Lemma lossy_valid_loop fuel b : utf8_valid_loop fuel b = true -> lossy_loop fuel b = b.
Proof.
  revert b. induction fuel as [|fuel IH]; intros [|x b]; cbn [utf8_valid_loop lossy_loop]; try done.
  destruct (utf8_step (x :: b)) as [ok n] eqn:E. intros [-> Hv]%andb_true_iff. rewrite IH by done. apply take_drop.
Qed.

Lemma lossy_valid b : utf8_valid b = true -> from_utf8_lossy b = b.
Proof. apply lossy_valid_loop. Qed.

(** ** Reading a prefix *)

(** What is left to read. *)
Definition src (r : Reader) (b : list Z) : Prop := drop (pos r) (rdata r) = b /\ (pos r <= length (rdata r))%nat.

Definition consumes {A} (f : RM A) (enc : list Z) (v : A) : Prop :=
  forall r rest, src r (enc ++ rest) -> exists r', f r = Some (v, r') /\ src r' rest.

Lemma src_length r b : src r b -> (pos r + length b = length (rdata r))%nat.
Proof. intros [E Hp]. rewrite <- E, length_drop. lia. Qed.

Lemma consumes_bytes b : consumes (read_bytes (length b)) b b.
Proof.
  intros r rest Hs. pose proof (src_length _ _ Hs) as Hl. rewrite length_app in Hl. destruct Hs as [E Hp].
  unfold read_bytes. rewrite (proj2 (Nat.leb_le _ _)) by lia. rewrite E, take_app_length.
  eexists. split; [reflexivity|]. split; cbn [pos rdata]; [|lia].
  rewrite <- drop_drop, E. by rewrite drop_app_length.
Qed.

Lemma consumes_le n v : 0 <= v < 256 ^ Z.of_nat n -> consumes (read_le n) (to_le_bytes n v) v.
Proof.
  intros Hv r rest Hs. unfold read_le. destruct (consumes_bytes (to_le_bytes n v) r rest Hs) as (r' & E & Hs').
  rewrite length_to_le in E. rewrite E. exists r'. by rewrite from_to_le.
Qed.

Lemma consumes_u16 v : urange 16 v -> consumes read_u16 (to_le_bytes 2 v) v.
Proof. intros Hv. by apply consumes_le. Qed.
Lemma consumes_u32 v : urange 32 v -> consumes read_u32 (to_le_bytes 4 v) v.
Proof. intros Hv. by apply consumes_le. Qed.
Lemma consumes_f64 v : urange 64 v -> consumes read_f64 (to_le_bytes 8 v) v.
Proof. intros Hv. by apply consumes_le. Qed.

Lemma consumes_u8 v : consumes read_u8 [v] v.
Proof.
  intros r rest Hs. pose proof (src_length _ _ Hs) as Hl. rewrite length_app in Hl. cbn in Hl. destruct Hs as [E Hp].
  unfold read_u8. assert (Hv : rdata r !! pos r = Some v).
  { rewrite <- (Nat.add_0_r (pos r)), <- lookup_drop, E. done. }
  rewrite Hv. eexists. split; [reflexivity|]. split; cbn [pos rdata]; [|lia]. rewrite <- drop_drop, E. done.
Qed.

Lemma consumes_n {A} (f : RM A) (e : A -> list Z) (xs : list A) : Forall (fun x => consumes f (e x) x) xs ->
  consumes (read_n f (length xs)) (xs ≫= e) xs.
Proof.
  induction 1 as [|x xs Hx _ IH]; intros r rest Hs; cbn [read_n length].
  { by exists r. }
  cbn in Hs. rewrite <- (assoc_L app) in Hs. destruct (Hx r _ Hs) as (r1 & -> & Hs1).
  destruct (IH r1 rest Hs1) as (r2 & -> & Hs2). by exists r2.
Qed.

Lemma w_all_app {A} (f : list Z -> A -> list Z) (e : A -> list Z) (w : list Z) xs : (forall w x, f w x = w ++ e x) ->
  w_all f w xs = w ++ (xs ≫= e).
Proof.
  intros Hf. unfold w_all. revert w. induction xs as [|x xs IH]; intros w; [by rewrite app_nil_r|].
  cbn [foldl]. rewrite IH, Hf. by rewrite <- (assoc_L app).
Qed.

Definition enc_name (name : list Z) : list Z := to_le_bytes 2 (uwrap 16 (zlen name)) ++ name.

Definition name_ok (name : list Z) : Prop := urange 16 (zlen name) /\ utf8_valid name = true.

Lemma consumes_name name : name_ok name -> consumes read_name (enc_name name) name.
Proof.
  intros [Hl Hv] r rest Hs. unfold enc_name in Hs. rewrite uwrap_small in Hs by done. rewrite <- (assoc_L app) in Hs.
  unfold read_name. destruct (consumes_u16 _ Hl r _ Hs) as (r1 & -> & Hs1). unfold zlen at 1. rewrite Nat2Z.id.
  destruct (consumes_bytes name r1 rest Hs1) as (r2 & -> & Hs2). exists r2. by rewrite lossy_valid.
Qed.

(** ** Prototypes *)

(** [Forall] and [Forall2] a fixpoint on prototypes can use. *)
Definition all {A} (f : A -> Prop) : list A -> Prop :=
  fix go l := match l with [] => True | x :: l => f x /\ go l end.

Definition all2 {A B} (f : A -> B -> Prop) : list A -> list B -> Prop :=
  fix go l l' := match l, l' with [], [] => True | x :: l, y :: l' => f x y /\ go l l' | _, _ => False end.

Lemma all_Forall {A} (f : A -> Prop) l : all f l <-> Forall f l.
Proof.
  induction l as [|x l IH]; cbn; [by split|]. rewrite IH. split; [intros []; by constructor|by intros ?%Forall_cons].
Qed.

Lemma Proto_mut (P : Proto -> Prop) (Q : KGc -> Prop) :
  (forall bc lines kgc kn kstrv uv flags numparams framesize firstline numline uvnames varnames source,
     Forall Q kgc -> P (mkProto bc lines kgc kn kstrv uv flags numparams framesize firstline numline uvnames varnames source)) ->
  (forall sid, Q (KStr sid)) -> (forall p, P p -> Q (KProto p)) -> (forall p, P p -> Q (KProtoRef p)) ->
  (forall t, Q (KTable t)) -> (forall t, Q (KTableRef t)) -> (forall c, Q (KCData c)) -> forall p, P p.
Proof.
  intros HP H1 H2 H3 H4 H5 H6. fix IH 1. intros [bc lines kgc kn kstrv uv f np fs fl nl un vn s]. apply HP.
  induction kgc as [|k kgc IHk]; constructor; [|exact IHk].
  destruct k as [sid|p|p|t|t|c]; [apply H1|apply H2, IH|apply H3, IH|apply H4|apply H5|apply H6].
Qed.

Section Roundtrip.
Context {St : Type} `{Strings St}.

Definition str_ok (strs : St) (sid : Z) : Prop := exists b, is_interned strs sid b /\ urange 32 (zlen b).

(** What the code relies on: fields in the range of their types, as many
    lines as instructions, live string ids. *)
Fixpoint proto_ok (strs : St) (p : Proto) : Prop :=
  match p with
  | mkProto bc lines kgc kn _ uv flags numparams framesize firstline numline uvnames _ source =>
      (length lines = length bc /\ urange 32 (zlen bc) /\ urange 32 (zlen kgc) /\ urange 32 (zlen kn) /\
       urange 32 (zlen uv) /\ urange 32 (zlen uvnames)) /\
      (Forall (urange 32) bc /\ Forall (urange 32) lines /\ Forall (urange 64) kn /\ Forall (urange 16) uv) /\
      (urange 16 flags /\ urange 8 numparams /\ urange 8 framesize /\ urange 32 firstline /\ urange 32 numline) /\
      Forall name_ok uvnames /\ (match source with Some sid => str_ok strs sid | None => True end) /\ all (kgc_ok strs) kgc
  end
with kgc_ok (strs : St) (k : KGc) : Prop :=
  match k with
  | KStr sid => str_ok strs sid
  | KProto p | KProtoRef p => proto_ok strs p
  | _ => True
  end.

(** How many strings are read. *)
Fixpoint strings_in (p : Proto) : nat :=
  match p with
  | mkProto _ _ kgc _ _ _ _ _ _ _ _ _ _ source =>
      (match source with Some _ => 1 | None => 0 end + sum_list_with kgc_strings kgc)%nat
  end
with kgc_strings (k : KGc) : nat :=
  match k with KStr _ => 1 | KProto p | KProtoRef p => strings_in p | _ => 0 end.

Definition same_str (strs st : St) (a b : Z) : Prop := exists s, is_interned strs a s /\ is_interned st b s.

Definition EMPTY_TABLE : LuaTable := mkTable [] [] 0 0 0 255 None.

(** [q] is what reading [p] gives: the same code, numbers, upvalues, lines and
    names, the same strings; tables and C data empty, local names dropped. *)
Fixpoint reloaded (strs st : St) (p q : Proto) : Prop :=
  match p, q with
  | mkProto bc lines kgc kn _ uv flags numparams framesize firstline numline uvnames _ source,
    mkProto bc' lines' kgc' kn' kstrv' uv' flags' numparams' framesize' firstline' numline' uvnames' varnames' source' =>
      (bc' = bc /\ lines' = lines /\ kn' = kn /\ kstrv' = [] /\ uv' = uv /\ flags' = flags /\ numparams' = numparams /\
       framesize' = framesize /\ firstline' = firstline /\ numline' = numline /\ uvnames' = uvnames /\ varnames' = []) /\
      match source, source' with Some a, Some b => same_str strs st a b | None, None => True | _, _ => False end /\
      all2 (kgc_reloaded strs st) kgc kgc'
  end
with kgc_reloaded (strs st : St) (k k' : KGc) : Prop :=
  match k, k' with
  | KStr a, KStr b => same_str strs st a b
  | KProto p, KProto q | KProtoRef p, KProto q => reloaded strs st p q
  | KTable _, KTable t | KTableRef _, KTable t => t = EMPTY_TABLE
  | KCData _, KCData c => c = mkCData 0 [] None 0
  | _, _ => False
  end.

(** ** Writing *)

(** [write_kgcs], the loop over the constants. *)
Definition write_kgcs (strs : St) : list Z -> list KGc -> option (list Z) :=
  fix go w ks := match ks with [] => Some w | k :: ks => let? w := write_kgc strs w k in go w ks end.

Definition appends (f : list Z -> option (list Z)) : Prop :=
  forall w, f w = let? b := f [] in Some (w ++ b).

Lemma w_str_app strs sid v : appends (fun w => w_str strs (w_u8 w v) sid).
Proof.
  intros w. unfold w_str, w_bytes, w_u32, w_u8. destruct (str_get strs sid); [|done]. by rewrite <- !(assoc_L app).
Qed.

Lemma w_str_tag strs sid v : w_str strs (w_u8 [] v) sid = let? c := w_str strs [] sid in Some (v :: c).
Proof. unfold w_str. by destruct (str_get strs sid). Qed.

Lemma write_kgcs_app strs ks : Forall (fun k => appends (fun w => write_kgc strs w k)) ks -> appends (fun w => write_kgcs strs w ks).
Proof.
  induction 1 as [|k ks Hk _ IH]; intros w; cbn [write_kgcs]; [by rewrite app_nil_r|].
  rewrite (Hk w), (Hk []). cbn [app]. destruct (write_kgc strs [] k) as [b|]; [|done]. cbn.
  fold (write_kgcs strs). rewrite (IH (w ++ b)), (IH b). destruct (write_kgcs strs [] ks) as [c|]; [|done]. by rewrite <- (assoc_L app).
Qed.

Definition enc_source (strs : St) (source : option Z) : option (list Z) :=
  match source with Some sid => w_str strs [1] sid | None => Some [0] end.

Definition enc_head (bc : list Z) (kgc : list KGc) (kn uv : list Z) (uvnames : list (list Z))
    (flags numparams framesize firstline numline : Z) : list Z :=
  to_le_bytes 2 flags ++ [numparams] ++ [framesize] ++ to_le_bytes 4 (uwrap 32 (zlen bc)) ++
  to_le_bytes 4 (uwrap 32 (zlen kgc)) ++ to_le_bytes 4 (uwrap 32 (zlen kn)) ++ to_le_bytes 4 0 ++
  to_le_bytes 4 (uwrap 32 (zlen uv)) ++ to_le_bytes 4 (uwrap 32 (zlen uvnames)) ++
  to_le_bytes 4 firstline ++ to_le_bytes 4 numline.

Definition enc_body (bc lines kn uv : list Z) (uvnames : list (list Z)) : list Z :=
  (bc ≫= to_le_bytes 4) ++ (lines ≫= to_le_bytes 4) ++ (kn ≫= to_le_bytes 8) ++ (uv ≫= to_le_bytes 2) ++ (uvnames ≫= enc_name).

Lemma write_proto_eq strs w bc lines kgc kn kstrv uv flags numparams framesize firstline numline uvnames varnames source :
  write_proto strs w (mkProto bc lines kgc kn kstrv uv flags numparams framesize firstline numline uvnames varnames source) =
  let? s := enc_source strs source in
  write_kgcs strs (w ++ enc_head bc kgc kn uv uvnames flags numparams framesize firstline numline ++ s ++
                   enc_body bc lines kn uv uvnames) kgc.
Proof.
  cbn [write_proto]. fold (write_kgcs strs). unfold enc_head, enc_body, enc_source.
  assert (Hs : forall w, match source with Some sid => w_str strs (w_u8 w 1) sid | None => Some (w_u8 w 0) end =
    let? s := match source with Some sid => w_str strs [1] sid | None => Some [0] end in Some (w ++ s)).
  { intros w0. destruct source as [sid|]; [|done]. exact (w_str_app strs sid 1 w0). }
  rewrite Hs. destruct (match source with Some sid => _ | None => _ end) as [s|]; [|done]. cbn beta iota.
  rewrite !(w_all_app w_u32 (to_le_bytes 4)), (w_all_app w_f64 (to_le_bytes 8)), (w_all_app w_u16 (to_le_bytes 2)),
    (w_all_app w_name enc_name); try done; [|by intros w0 x; unfold w_name, w_bytes, w_u16, enc_name; rewrite <- (assoc_L app)].
  unfold w_u8, w_u16, w_u32. f_equal. rewrite <- !(assoc_L app). done.
Qed.

Lemma write_child strs p v : appends (fun w => write_proto strs w p) -> appends (fun w => write_proto strs (w_u8 w v) p).
Proof.
  intros Hp w. rewrite (Hp (w_u8 w v)), (Hp (w_u8 [] v)). destruct (write_proto strs [] p); [|done].
  unfold w_u8. by rewrite <- (assoc_L app).
Qed.

Lemma write_app strs p : appends (fun w => write_proto strs w p).
Proof.
  revert p. apply (Proto_mut _ (fun k => appends (fun w => write_kgc strs w k))).
  - intros bc lines kgc kn kstrv uv f np fs fl nl un vn s Hk w. rewrite !write_proto_eq.
    destruct (enc_source strs s) as [b|]; [|done]. cbn beta iota.
    rewrite (write_kgcs_app strs kgc Hk (w ++ _)), (write_kgcs_app strs kgc Hk ([] ++ _)).
    destruct (write_kgcs strs [] kgc); [|done]. by rewrite <- !(assoc_L app).
  - intros sid w. apply w_str_app.
  - intros p Hp. by apply (write_child strs p 1).
  - intros p Hp. by apply (write_child strs p 1).
  - done.
  - done.
  - done.
Qed.

Lemma write_kgc_app strs k : appends (fun w => write_kgc strs w k).
Proof.
  destruct k as [sid|p|p|t|t|c]; try done; [apply w_str_app|apply (write_child strs p 1), write_app..].
Qed.

Lemma write_kgcs_cons strs k ks : write_kgcs strs [] (k :: ks) =
  let? b := write_kgc strs [] k in let? c := write_kgcs strs [] ks in Some (b ++ c).
Proof.
  cbn [write_kgcs]. fold (write_kgcs strs). destruct (write_kgc strs [] k) as [b|]; [|done].
  apply (write_kgcs_app strs ks). apply Forall_forall. intros k' _. apply write_kgc_app.
Qed.

(** ** Reading strings *)

Definition grows (st st' : St) : Prop := forall id b, is_interned st id b -> is_interned st' id b.

Lemma grows_trans st1 st2 st3 : grows st1 st2 -> grows st2 st3 -> grows st1 st3.
Proof. intros H1 H2 id b Hi. auto. Qed.

Lemma same_str_grows strs st st' a b : grows st st' -> same_str strs st a b -> same_str strs st' a b.
Proof. intros Hg (s & ? & ?). exists s. auto. Qed.

Lemma read_str_ok strs st n sid b r rest : str_ok strs sid -> str_room (S n) st -> w_str strs [] sid = Some b ->
  src r (b ++ rest) -> exists id r' st', read_str st r = Some (id, r', st') /\ src r' rest /\ str_room n st' /\
    grows st st' /\ same_str strs st' sid id.
Proof.
  intros (s & Hs & Hl) Hroom Hw Hr. unfold w_str in Hw. rewrite (is_interned_get _ _ _ Hs) in Hw. apply (inj Some) in Hw as <-.
  unfold w_bytes, w_u32 in Hr. rewrite app_nil_l, uwrap_small in Hr by done. rewrite <- (assoc_L app) in Hr.
  unfold read_str. destruct (consumes_u32 _ Hl r _ Hr) as (r1 & -> & Hr1). unfold zlen. rewrite Nat2Z.id.
  destruct (consumes_bytes s r1 rest Hr1) as (r2 & -> & Hr2).
  destruct (str_intern_ok n st s Hroom) as (st' & id & -> & Hroom' & Hi & Hg). exists id, r2, st'.
  split; [done|]. split; [done|]. split; [done|]. split; [exact Hg|]. by exists s.
Qed.

Lemma reloaded_grows strs st st' : grows st st' -> forall p q, reloaded strs st p q -> reloaded strs st' p q.
Proof.
  intros Hg. apply (Proto_mut (fun p => forall q, reloaded strs st p q -> reloaded strs st' p q) (fun k => forall k', kgc_reloaded strs st k k' -> kgc_reloaded strs st' k k')).
  - intros bc lines kgc kn kstrv uv f np fs fl nl un vn s Hk [bc' lines' kgc' kn' kstrv' uv' f' np' fs' fl' nl' un' vn' s'].
    cbn [reloaded]. intros (Hf & Hs & Hks). split; [exact Hf|]. split.
    + destruct s, s'; try done. by eapply same_str_grows.
    + clear -Hk Hks. revert kgc' Hks. induction Hk as [|k kgc Hk _ IH]; intros [|k' kgc']; cbn; try done.
      intros [H1 H2]. split; [by apply Hk|by apply IH].
  - intros sid []; try done. cbn. by apply same_str_grows.
  - intros p Hp []; try done. cbn. apply Hp.
  - intros p Hp []; try done. cbn. apply Hp.
  - intros t []; done.
  - intros t []; done.
  - intros c []; done.
Qed.

Lemma kgc_reloaded_grows strs st st' k k' : grows st st' -> kgc_reloaded strs st k k' -> kgc_reloaded strs st' k k'.
Proof. intros Hg. destruct k, k'; try done; cbn; [by apply same_str_grows|by apply reloaded_grows..]. Qed.

(** ** Reading prototypes *)

Fixpoint depth (p : Proto) : nat :=
  match p with mkProto _ _ kgc _ _ _ _ _ _ _ _ _ _ _ => S (max_list_with kgc_depth kgc) end
with kgc_depth (k : KGc) : nat :=
  match k with KProto p | KProtoRef p => depth p | _ => 0 end.

Lemma kgc_depth_le kgc k : k ∈ kgc -> (kgc_depth k <= max_list_with kgc_depth kgc)%nat.
Proof. induction 1 as [|k k' kgc Hk IH]; cbn; lia. Qed.

(** Reading [b] with [f], which takes [m] strings, gives a result in [R]. *)
Definition loads {A} (f : Reader -> St -> option (A * Reader * St)) (m : nat) (b : list Z) (R : St -> A -> Prop) : Prop :=
  forall n st r rest, str_room (m + n) st -> src r (b ++ rest) ->
    exists x r' st', f r st = Some (x, r', st') /\ src r' rest /\ str_room n st' /\ grows st st' /\ R st' x.

Lemma loads_all {A B} (f : Reader -> St -> option (B * Reader * St)) (m : A -> nat) (e : A -> option (list Z))
    (R : St -> A -> B -> Prop) (xs : list A) : forall b,
  (forall st st' x y, grows st st' -> R st x y -> R st' x y) ->
  Forall (fun x => forall b, e x = Some b -> loads f (m x) b (fun st => R st x)) xs ->
  foldr (fun x acc => let? b := e x in let? c := acc in Some (b ++ c)) (Some []) xs = Some b ->
  loads (read_all f (length xs)) (sum_list_with m xs) b (fun st => all2 (R st) xs).
Proof.
  intros b Hmono Hxs. revert b. induction Hxs as [|x xs Hx _ IH]; intros b; cbn [foldr length read_all sum_list_with].
  { intros [= <-] n st r rest Hroom Hr. exists [], r, st. split_and!; try done. by intros id b. }
  destruct (e x) as [bx|] eqn:Ex; [|done]. destruct (foldr _ _ xs) as [bs|]; [|done]. intros [= <-] n st r rest Hroom Hr.
  rewrite <- (assoc_L app) in Hr. rewrite <- (assoc_L Nat.add) in Hroom.
  destruct (Hx bx eq_refl _ _ _ _ Hroom Hr) as (y & r1 & st1 & -> & Hr1 & Hroom1 & Hg1 & HR).
  destruct (IH bs eq_refl _ _ _ _ Hroom1 Hr1) as (ys & r2 & st2 & -> & Hr2 & Hroom2 & Hg2 & HRs).
  exists (y :: ys), r2, st2. split; [done|]. split; [done|]. split; [done|]. split; [by eapply grows_trans|].
  split; [by eapply Hmono|done].
Qed.

Lemma write_kgcs_foldr strs ks :
  write_kgcs strs [] ks = foldr (fun k acc => let? b := write_kgc strs [] k in let? c := acc in Some (b ++ c)) (Some []) ks.
Proof. induction ks as [|k ks IH]; [done|]. by rewrite write_kgcs_cons, IH. Qed.

Lemma read_source_ok strs st n source s r rest : match source with Some sid => str_ok strs sid | None => True end ->
  enc_source strs source = Some s -> str_room (match source with Some _ => 1 | None => 0 end + n) st -> src r (s ++ rest) ->
  exists flag r1 source' r' st', read_u8 r = Some (flag, r1) /\
    (if negb (flag =? 0) then let? ' (id, r, strs) := read_str st r1 in Some (Some id, r, strs) else Some (None, r1, st)) =
      Some (source', r', st') /\ src r' rest /\ str_room n st' /\ grows st st' /\
    match source, source' with Some a, Some b => same_str strs st' a b | None, None => True | _, _ => False end.
Proof.
  intros Hok Es Hroom Hr. destruct source as [sid|]; cbn [enc_source] in Es.
  - change [1] with (w_u8 [] 1) in Es. rewrite w_str_tag in Es. destruct (w_str strs [] sid) as [c|] eqn:Ec; [|done].
    apply (inj Some) in Es as <-. destruct (consumes_u8 1 r (c ++ rest) Hr) as (r1 & E1 & Hr1). exists 1, r1.
    destruct (read_str_ok strs st n sid c r1 rest Hok Hroom Ec Hr1) as (id & r2 & st' & E2 & Hr2 & ? & ? & ?).
    exists (Some id), r2, st'. cbn [Z.eqb negb]. by rewrite E2.
  - apply (inj Some) in Es as <-. destruct (consumes_u8 0 r _ Hr) as (r1 & E1 & Hr1).
    exists 0, r1, None, r1, st. split_and!; try done. by intros id b.
Qed.

Lemma consumes_u32s xs : Forall (urange 32) xs -> consumes (read_n read_u32 (length xs)) (xs ≫= to_le_bytes 4) xs.
Proof. intros Hx. apply consumes_n. eapply Forall_impl; [exact Hx|]. apply consumes_u32. Qed.
Lemma consumes_u16s xs : Forall (urange 16) xs -> consumes (read_n read_u16 (length xs)) (xs ≫= to_le_bytes 2) xs.
Proof. intros Hx. apply consumes_n. eapply Forall_impl; [exact Hx|]. apply consumes_u16. Qed.
Lemma consumes_f64s xs : Forall (urange 64) xs -> consumes (read_n read_f64 (length xs)) (xs ≫= to_le_bytes 8) xs.
Proof. intros Hx. apply consumes_n. eapply Forall_impl; [exact Hx|]. apply consumes_f64. Qed.
Lemma consumes_names xs : Forall name_ok xs -> consumes (read_n read_name (length xs)) (xs ≫= enc_name) xs.
Proof. intros Hx. apply consumes_n. eapply Forall_impl; [exact Hx|]. apply consumes_name. Qed.

Lemma read_proto_head strs fuel st r bc lines kgc kn kstrv uv flags numparams framesize firstline numline uvnames varnames source b c s n rest :
  proto_ok strs (mkProto bc lines kgc kn kstrv uv flags numparams framesize firstline numline uvnames varnames source) ->
  enc_source strs source = Some s ->
  write_kgcs strs [] kgc = Some c ->
  b = enc_head bc kgc kn uv uvnames flags numparams framesize firstline numline ++ s ++ enc_body bc lines kn uv uvnames ++ c ->
  str_room (match source with Some _ => 1 | None => 0 end + n) st ->
  src r (b ++ rest) ->
  exists r' st' source',
    read_proto (S fuel) r st =
      (let? ' (kgc', r, strs) := read_all (read_kgc (read_proto fuel)) (length kgc) r' st' in
       Some (mkProto bc lines kgc' kn [] uv flags numparams framesize firstline numline uvnames [] source', r, strs)) /\
    src r' (c ++ rest) /\ str_room n st' /\ grows st st' /\
    match source, source' with Some a, Some b => same_str strs st' a b | None, None => True | _, _ => False end.
Proof.
  intros ((Hll & Hbc & Hkgc & Hkn & Huv & Hun) & (Fbc & Fl & Fkn & Fuv) & (R1 & R2 & R3 & R4 & R5) & Fun & Hsrc & _) Es Ec -> Hroom Hr.
  unfold enc_head, enc_body in Hr. rewrite !uwrap_small in Hr by done. rewrite <- !(assoc_L app) in Hr. cbn [read_proto].
  destruct (consumes_u16 _ R1 r _ Hr) as (r1 & -> & Hr1). clear Hr r.
  destruct (consumes_u8 _ r1 _ Hr1) as (r2 & -> & Hr2). clear Hr1 r1.
  destruct (consumes_u8 _ r2 _ Hr2) as (r1 & -> & Hr1). clear Hr2 r2.
  destruct (consumes_u32 _ Hbc r1 _ Hr1) as (r2 & -> & Hr2). clear Hr1 r1.
  destruct (consumes_u32 _ Hkgc r2 _ Hr2) as (r1 & -> & Hr1). clear Hr2 r2.
  destruct (consumes_u32 _ Hkn r1 _ Hr1) as (r2 & -> & Hr2). clear Hr1 r1.
  destruct (consumes_u32 0 ltac:(unfold urange; lia) r2 _ Hr2) as (r1 & -> & Hr1). clear Hr2 r2.
  destruct (consumes_u32 _ Huv r1 _ Hr1) as (r2 & -> & Hr2). clear Hr1 r1.
  destruct (consumes_u32 _ Hun r2 _ Hr2) as (r1 & -> & Hr1). clear Hr2 r2.
  destruct (consumes_u32 _ R4 r1 _ Hr1) as (r2 & -> & Hr2). clear Hr1 r1.
  destruct (consumes_u32 _ R5 r2 _ Hr2) as (r1 & -> & Hr1). clear Hr2 r2.
  destruct (read_source_ok strs st n source s r1 _ Hsrc Es Hroom Hr1)
    as (flag & r2 & source' & r3 & st' & -> & E & Hr3 & Hroom' & Hg & Hs). cbn beta iota. rewrite E. clear Hr1 r1 E r2.
  unfold zlen. rewrite !Nat2Z.id. change (Z.to_nat 0) with 0%nat.
  destruct (consumes_u32s bc Fbc r3 _ Hr3) as (r1 & -> & Hr1). rewrite <- Hll.
  destruct (consumes_u32s lines Fl r1 _ Hr1) as (r2 & -> & Hr2). clear Hr1 r1.
  destruct (consumes_f64s kn Fkn r2 _ Hr2) as (r1 & -> & Hr1). clear Hr2 r2. cbn [read_n].
  destruct (consumes_u16s uv Fuv r1 _ Hr1) as (r2 & -> & Hr2). clear Hr1 r1.
  destruct (consumes_names uvnames Fun r2 _ Hr2) as (r1 & -> & Hr1). clear Hr2 r2.
  exists r1, st', source'. done.
Qed.

Lemma read_kgc_tag rp k b r rest st : src r ((k :: b) ++ rest) ->
  exists r', src r' (b ++ rest) /\ read_kgc rp r st =
    (if k =? 0 then let? ' (id, r, strs) := read_str st r' in Some (KStr id, r, strs)
     else if k =? 1 then let? ' (p, r, strs) := rp r' st in Some (KProto p, r, strs)
     else if k =? 2 then let? t := Table.new 0 0 in Some (KTable t, r', st)
     else if k =? 3 then Some (KCData (mkCData 0 [] None 0), r', st) else None).
Proof.
  intros Hr. destruct (consumes_u8 k r (b ++ rest) Hr) as (r' & E & Hr'). exists r'. split; [done|].
  unfold read_kgc. by rewrite E.
Qed.

Lemma loads_child strs fuel p b : loads (read_proto fuel) (strings_in p) b (fun st => reloaded strs st p) ->
  loads (read_kgc (read_proto fuel)) (strings_in p) (1 :: b)
    (fun st k => match k with KProto q => reloaded strs st p q | _ => False end).
Proof.
  intros Hl n st r rest Hroom Hr. destruct (read_kgc_tag (read_proto fuel) 1 b r rest st Hr) as (r1 & Hr1 & ->).
  destruct (Hl n st r1 rest Hroom Hr1) as (q & r2 & st2 & E & ?). cbn [Z.eqb]. rewrite E. by exists (KProto q), r2, st2.
Qed.

Lemma write_child_eq strs p b : write_proto strs (w_u8 [] 1) p = Some b ->
  exists c, write_proto strs [] p = Some c /\ b = 1 :: c.
Proof.
  rewrite (write_app strs p (w_u8 [] 1)). destruct (write_proto strs [] p) as [c|]; [|done].
  intros E. apply (inj Some) in E as <-. by exists c.
Qed.

Lemma read_proto_ok strs p : proto_ok strs p -> forall fuel b, (depth p <= fuel)%nat -> write_proto strs [] p = Some b ->
  loads (read_proto fuel) (strings_in p) b (fun st => reloaded strs st p).
Proof.
  revert p. apply (Proto_mut
    (fun p => proto_ok strs p -> forall fuel b, (depth p <= fuel)%nat -> write_proto strs [] p = Some b ->
       loads (read_proto fuel) (strings_in p) b (fun st => reloaded strs st p))
    (fun k => kgc_ok strs k -> forall fuel b, (kgc_depth k <= fuel)%nat -> write_kgc strs [] k = Some b ->
    loads (read_kgc (read_proto fuel)) (kgc_strings k) b (fun st => kgc_reloaded strs st k))).
  - intros bc lines kgc kn kstrv uv f np fs fl nl un vn s Hk Hok fuel b Hd Hw n st r rest Hroom Hr.
    pose proof Hok as (_ & _ & _ & _ & _ & Hks). apply all_Forall in Hks.
    rewrite write_proto_eq in Hw. destruct (enc_source strs s) as [es|] eqn:Es; [|done]. cbn beta iota in Hw.
    rewrite (write_kgcs_app strs kgc) in Hw by (apply Forall_forall; intros k _; apply write_kgc_app).
    destruct (write_kgcs strs [] kgc) as [c|] eqn:Ec; [|done]. apply (inj Some) in Hw.
    cbn [depth strings_in] in Hd, Hroom. destruct fuel as [|fuel]; [lia|]. rewrite <- (assoc_L Nat.add) in Hroom.
    destruct (read_proto_head strs fuel st r bc lines kgc kn kstrv uv f np fs fl nl un vn s b c es
                (sum_list_with kgc_strings kgc + n) rest Hok Es Ec)
      as (r1 & st1 & s' & -> & Hr1 & Hroom1 & Hg1 & Hs1); [by rewrite <- Hw, !(assoc_L app)|exact Hroom|done|].
    rewrite write_kgcs_foldr in Ec.
    destruct (loads_all (read_kgc (read_proto fuel)) kgc_strings (write_kgc strs []) (fun st => kgc_reloaded strs st) kgc c)
      with (n := n) (st := st1) (r := r1) (rest := rest) as (kgc' & r2 & st2 & E & Hr2 & Hroom2 & Hg2 & HR); try done.
    { intros st0 st0' x y. by apply kgc_reloaded_grows. }
    { rewrite Forall_forall in Hk, Hks |- *. intros k Hin b' Eb. apply Hk; [done|by apply Hks| |done].
      pose proof (kgc_depth_le _ _ Hin). lia. }
    rewrite E. eexists _, r2, st2. split; [reflexivity|]. split; [done|]. split; [done|].
    split; [by eapply grows_trans|]. cbn [reloaded]. split; [done|]. split; [|exact HR].
    destruct s, s'; try done. by eapply same_str_grows.
  - intros sid Hok fuel b _ Hw n st r rest Hroom Hr. change (w_str strs (w_u8 [] 0) sid = Some b) in Hw. rewrite w_str_tag in Hw.
    destruct (w_str strs [] sid) as [c|] eqn:Ec; [|done]. apply (inj Some) in Hw as <-.
    destruct (read_kgc_tag (read_proto fuel) 0 c r rest st Hr) as (r1 & Hr1 & ->).
    destruct (read_str_ok strs st n sid c r1 rest Hok Hroom Ec Hr1) as (id & r2 & st2 & E & ?). cbn [Z.eqb]. rewrite E.
    by exists (KStr id), r2, st2.
  - intros p IH Hok fuel b Hd (c & Hw & ->)%write_child_eq n st r rest Hroom Hr.
    destruct (loads_child strs fuel p c (IH Hok fuel c Hd Hw) n st r rest Hroom Hr) as (k & r' & st' & E & ? & ? & ? & HR).
    exists k, r', st'. destruct k; done.
  - intros p IH Hok fuel b Hd (c & Hw & ->)%write_child_eq n st r rest Hroom Hr.
    destruct (loads_child strs fuel p c (IH Hok fuel c Hd Hw) n st r rest Hroom Hr) as (k & r' & st' & E & ? & ? & ? & HR).
    exists k, r', st'. destruct k; done.
  - intros t _ fuel b _ Hw n st r rest Hroom Hr. apply (inj Some) in Hw as <-.
    destruct (read_kgc_tag (read_proto fuel) 2 [] r rest st Hr) as (r1 & Hr1 & ->).
    exists (KTable EMPTY_TABLE), r1, st. split_and!; try done. by intros id b.
  - intros t _ fuel b _ Hw n st r rest Hroom Hr. apply (inj Some) in Hw as <-.
    destruct (read_kgc_tag (read_proto fuel) 2 [] r rest st Hr) as (r1 & Hr1 & ->).
    exists (KTable EMPTY_TABLE), r1, st. split_and!; try done. by intros id b.
  - intros c _ fuel b _ Hw n st r rest Hroom Hr. apply (inj Some) in Hw as <-.
    destruct (read_kgc_tag (read_proto fuel) 3 [] r rest st Hr) as (r1 & Hr1 & ->).
    exists (KCData (mkCData 0 [] None 0)), r1, st. split_and!; try done. by intros id b.
Qed.

(** ** Writing succeeds, and writes again the same *)

Lemma w_str_ok strs sid : str_ok strs sid -> exists c, w_str strs [] sid = Some c.
Proof. intros (s & Hs & _). unfold w_str. rewrite (is_interned_get _ _ _ Hs). eauto. Qed.

Lemma write_kgcs_ok strs kgc :
  Forall (fun k => exists c, write_kgc strs [] k = Some c /\ (kgc_depth k <= length c)%nat) kgc ->
  exists c, write_kgcs strs [] kgc = Some c /\ (max_list_with kgc_depth kgc <= length c)%nat.
Proof.
  induction 1 as [|k kgc (c & Ec & Hc) _ (c' & Ec' & Hc')]; [by exists []|].
  rewrite write_kgcs_cons, Ec, Ec'. eexists. split; [reflexivity|]. rewrite length_app. cbn. lia.
Qed.

Lemma write_proto_ok strs p : proto_ok strs p ->
  exists b, write_proto strs [] p = Some b /\ (depth p <= length b)%nat.
Proof.
  revert p. apply (Proto_mut (fun p => proto_ok strs p -> exists b, write_proto strs [] p = Some b /\ (depth p <= length b)%nat)
    (fun k => kgc_ok strs k -> exists b, write_kgc strs [] k = Some b /\ (kgc_depth k <= length b)%nat)).
  - intros bc lines kgc kn kstrv uv f np fs fl nl un vn s Hk (_ & _ & _ & _ & Hs & Hks). apply all_Forall in Hks.
    destruct (write_kgcs_ok strs kgc) as (c & Ec & Hd).
    { rewrite Forall_forall in Hk, Hks |- *. intros k Hin. apply Hk; [done|by apply Hks]. }
    assert (exists es, enc_source strs s = Some es) as (es & Es).
    { destruct s as [sid|]; [|by eexists]. cbn [enc_source]. change [1] with (w_u8 [] 1). rewrite w_str_tag.
      destruct (w_str_ok strs sid Hs) as (c0 & ->). by eexists. }
    rewrite write_proto_eq, Es. cbn beta iota.
    rewrite (write_kgcs_app strs kgc) by (apply Forall_forall; intros k _; apply write_kgc_app). rewrite Ec. cbn beta iota.
    eexists. split; [reflexivity|]. cbn [depth]. unfold enc_head. rewrite !length_app, length_to_le. lia.
  - intros sid Hok. destruct (w_str_ok strs sid Hok) as (c & Ec). exists (0 :: c). split; [|cbn; lia].
    change (w_str strs (w_u8 [] 0) sid = Some (0 :: c)). by rewrite w_str_tag, Ec.
  - intros p IH Hok. destruct (IH Hok) as (b & Eb & Hd). exists (1 :: b). split; [|cbn; lia].
    change (write_proto strs (w_u8 [] 1) p = Some (1 :: b)). by rewrite (write_app strs p (w_u8 [] 1)), Eb.
  - intros p IH Hok. destruct (IH Hok) as (b & Eb & Hd). exists (1 :: b). split; [|cbn; lia].
    change (write_proto strs (w_u8 [] 1) p = Some (1 :: b)). by rewrite (write_app strs p (w_u8 [] 1)), Eb.
  - intros t _. exists [2]. split; [done|cbn; lia].
  - intros t _. exists [2]. split; [done|cbn; lia].
  - intros c _. exists [3]. split; [done|cbn; lia].
Qed.

Lemma same_str_write strs st a b w : same_str strs st a b -> w_str st w b = w_str strs w a.
Proof. intros (s & Ha & Hb). unfold w_str. by rewrite (is_interned_get _ _ _ Ha), (is_interned_get _ _ _ Hb). Qed.

Lemma rewrite_kgcs strs st kgc : Forall (fun k => forall k' w, kgc_reloaded strs st k k' -> write_kgc st w k' = write_kgc strs w k) kgc ->
  forall kgc' w, all2 (kgc_reloaded strs st) kgc kgc' -> write_kgcs st w kgc' = write_kgcs strs w kgc /\ length kgc' = length kgc.
Proof.
  induction 1 as [|k kgc Hk _ IH]; intros [|k' kgc'] w; cbn; try done. intros [Hr Hrs]. rewrite (Hk _ _ Hr).
  destruct (write_kgc strs w k) as [w1|].
  - destruct (IH kgc' w1 Hrs) as [E1 E2]. split; [exact E1|by rewrite E2].
  - split; [done|]. by rewrite (proj2 (IH kgc' w Hrs)).
Qed.

(** What was read is written the same. *)
Lemma reloaded_write strs st p : forall q w, reloaded strs st p q -> write_proto st w q = write_proto strs w p.
Proof.
  revert p. apply (Proto_mut (fun p => forall q w, reloaded strs st p q -> write_proto st w q = write_proto strs w p)
    (fun k => forall k' w, kgc_reloaded strs st k k' -> write_kgc st w k' = write_kgc strs w k)).
  - intros bc lines kgc kn kstrv uv f np fs fl nl un vn s Hk [bc' lines' kgc' kn' kstrv' uv' f' np' fs' fl' nl' un' vn' s'] w.
    cbn [reloaded]. intros ((-> & -> & -> & -> & -> & -> & -> & -> & -> & -> & -> & ->) & Hs & Hks).
    rewrite !write_proto_eq. destruct (rewrite_kgcs strs st kgc Hk kgc' w Hks) as [_ Hlen].
    assert (enc_source st s' = enc_source strs s) as ->.
    { destruct s as [a|], s' as [b|]; try done. cbn [enc_source]. by apply same_str_write. }
    destruct (enc_source strs s) as [es|]; [|done]. cbn beta iota. unfold enc_head.
    replace (zlen kgc') with (zlen kgc) by (unfold zlen; by rewrite Hlen).
    by apply rewrite_kgcs.
  - intros sid [] w; try done. cbn [kgc_reloaded]. intros Hs. cbn [write_kgc]. by apply same_str_write.
  - intros p IH [] w; try done. apply IH.
  - intros p IH [] w; try done. apply IH.
  - intros t [] w; done.
  - intros t [] w; done.
  - intros c [] w; done.
Qed.

End Roundtrip.

(** ** A bytecode file over the interner *)

(** The writer knows one string more than the reader. *)
Definition demo_writer : Table :=
  match table_intern (demo_table 0x3000) [104; 105] with Some (t, _) => t | None => demo_table 0x3000 end.

Definition demo_child : Proto :=
  mkProto [0x12; 0x34] [3; 4] [] [number (f64_of_int 7)] [] [0x8001] 0 1 3 3 1 [[97; 98]] [(0, 0, 2, [120])] None.

Definition demo_proto : Proto :=
  mkProto [0x77] [1] [KStr 1; KProto demo_child; KTable (mkTable [NIL] [] 1 0 0 255 None)] [] [] [] 2 0 5 1 9 [] [] (Some 0).

Lemma demo_str_ok id b : id = 0 /\ b = [] \/ id = 1 /\ b = [104; 105] -> str_ok demo_writer id.
Proof.
  intros Hid. exists b. split; [apply table_interned_check|]; destruct Hid as [[-> ->]|[-> ->]];
    vm_compute; try reflexivity; (split; [discriminate|reflexivity]).
Qed.

(** Ranges of concrete numbers. *)
Ltac ranges :=
  repeat first [apply Forall_cons_2|apply Forall_nil_2|split]; vm_compute; first [reflexivity|discriminate|exact I].

Lemma demo_child_ok : proto_ok demo_writer demo_child.
Proof. split; [ranges|]. split; [ranges|]. split; [ranges|]. split; [ranges|]. split; exact I. Qed.

Lemma demo_proto_ok : proto_ok demo_writer demo_proto.
Proof.
  split; [ranges|]. split; [ranges|]. split; [ranges|]. split; [ranges|]. split; [by eapply demo_str_ok; left|].
  split; [by eapply demo_str_ok; right|]. split; [exact demo_child_ok|]. split; exact I.
Qed.


(** *** What a file loses, and what reading does not check *)

(** A template table comes back empty. *)
Lemma dump_drops_tables :
  exists st', (let? file := dump demo_proto demo_writer in undump file (demo_table 0x3000)) =
    Some (inl (mkProto [0x77] [1] [KStr 1; KProto (mkProto [0x12; 0x34] [3; 4] [] [number (f64_of_int 7)] [] [0x8001] 0 1 3 3 1
      [[97; 98]] [] None); KTable EMPTY_TABLE] [] [] [] 2 0 5 1 9 [] [] (Some 0), st')).
Proof. eexists. vm_compute. reflexivity. Qed.

(** A truncated file panics instead of returning an error. *)
Lemma undump_truncated_panics : undump [27; 76; 74; 1; 0; 0] (demo_table 0x3000) = None.
Proof. vm_compute. reflexivity. Qed.
