(* ===== verification/FloatText.v ===== *)
(** * Doubles, integers and text in Rust's standard library

    [parse::<f64>], the formats [{}], [{:.p}] and [{:.pe}], and the casts
    between [f64] and [u64] or [i64], which util/strscan.rs and util/strfmt.rs
    build on.  Reading is the correctly rounded value of the decimal, writing
    the correctly rounded (ties to even) decimal of the value. *)

From Stdlib Require Import ZArith Lia Bool SpecFloat Ascii String.
From stdpp Require Import base decidable numbers option list.
From S2P Require Import Prelude Float64 PatClass.

(** ** Bytes of a literal *)

Definition lit (s : string) : list Z := map (fun a => Z.of_N (N_of_ascii a)) (list_ascii_of_string s).

(** A test of one byte, by enumeration. *)
Definition all_bytes : list Z := map Z.of_nat (seq 0 256).

Lemma byte_test (P : Z -> bool) : forallb P all_bytes = true -> forall c, urange 8 c -> P c = true.
Proof.
  intros H c Hc. rewrite forallb_forall in H. apply H. unfold all_bytes. unfold urange in Hc.
  rewrite <- (Z2Nat.id c) by lia. apply in_map, in_seq. lia.
Qed.

(** ** Casts *)

(** [u as f64] and [i as f64]: rounded to nearest, ties to even. *)
Definition f64_of_Z (z : Z) : f64 := bits_of_SF (binary_normalize 53 1024 z 0 false).

(** [n as u64] and [n as i64]: truncated, saturating, 0 for NaN. *)
Definition f64_to_range (lo hi : Z) (b : f64) : Z :=
  match SF_trunc (SF_of_bits b) with
  | Some z => Z.max lo (Z.min z hi)
  | None => match SF_of_bits b with S754_infinity true => lo | S754_infinity false => hi | _ => 0 end
  end.

Definition f64_to_u64 : f64 -> Z := f64_to_range 0 (2 ^ 64 - 1).
Definition f64_to_i64 : f64 -> Z := f64_to_range (- 2 ^ 63) (2 ^ 63 - 1).

(** [(e as f64).exp2()] for an integer [e]. *)
Definition f64_exp2 (e : Z) : f64 := bits_of_SF (binary_normalize 53 1024 1 e false).

(** ** Decimal digits *)

Definition dec_value (ds : list Z) : Z := fold_left (fun v d => v * 10 + (d - 48)) ds 0.

(** The longest prefix that satisfies [f], and the rest. *)
Fixpoint span (f : Z -> bool) (s : list Z) : list Z * list Z :=
  match s with
  | [] => ([], [])
  | c :: s' => if f c then let '(a, b) := span f s' in (c :: a, b) else ([], s)
  end.

(** What follows the byte [c]. *)
Definition strip (c : Z) (s : list Z) : option (list Z) :=
  match s with x :: s => if x =? c then Some s else None | [] => None end.

(** An optional sign. *)
Definition strip_sign (s : list Z) : bool * list Z :=
  match s with
  | c :: s' => if c =? 45 then (true, s') else if c =? 43 then (false, s') else (false, s)
  | [] => (false, [])
  end.

(** The digits of [n] in base [b], most significant first, at least one; the
    fuel is the number of digits allowed. *)
Fixpoint digits_loop (b : Z) (fuel : nat) (n : Z) (acc : list Z) : list Z :=
  match fuel with
  | O => acc
  | S fuel => let acc := 48 + n mod b :: acc in if n <? b then acc else digits_loop b fuel (n / b) acc
  end.

(** [n.to_string()] for a non-negative integer, signed below. *)
Definition dec_digits (n : Z) : list Z := digits_loop 10 (S (Z.to_nat (Z.log2 n))) n [].
Definition show_int (n : Z) : list Z := if n <? 0 then 45 :: dec_digits (- n) else dec_digits n.

(** ** Reading *)

(** The double nearest to [m * 10^e]. *)
Definition dec_to_f64 (m e : Z) : f64 :=
  if m =? 0 then 0
  else if 0 <=? e then f64_of_Z (m * 10 ^ e)
  else let '(q, e', l) := SFdiv_core_binary 53 1024 m 0 (10 ^ (- e)) 0 in
       bits_of_SF (binary_round_aux 53 1024 false q e' l).

(** [Exp?] of the grammar in the documentation of [f64::from_str]: the
    exponent, [None] when something else follows. *)
Definition parse_exp (s : list Z) : option Z :=
  match s with
  | [] => Some 0
  | c :: s =>
      if Z.lor c 32 =? 101 then
        let '(neg, s) := strip_sign s in
        let '(ds, rest) := span is_ascii_digit s in
        match ds, rest with
        | _ :: _, [] => Some (if neg then - dec_value ds else dec_value ds)
        | _, _ => None
        end
      else None
  end.

Definition parse_magnitude (s : list Z) : option f64 :=
  let '(ip, s1) := span is_ascii_digit s in
  let '(fp, s2) := match strip 46 s1 with Some s1 => span is_ascii_digit s1 | None => ([], s1) end in
  match ip ++ fp with
  | [] => None
  | ds => let? e := parse_exp s2 in Some (dec_to_f64 (dec_value ds) (e - zlen fp))
  end.

(** [parse::<f64>().ok()]. *)
Definition parse_f64 (s : list Z) : option f64 :=
  let '(neg, s) := strip_sign s in
  let w := map to_ascii_lowercase s in
  let? v := if decide (w = lit "inf") then Some 0x7ff0000000000000
            else if decide (w = lit "infinity") then Some 0x7ff0000000000000
            else if decide (w = lit "nan") then Some f64_NAN
            else parse_magnitude s in
  Some (if neg then f64_neg v else v).

(** ** Writing *)

(** [a / b] rounded to the nearest integer, ties to even. *)
Definition div_even (a b : Z) : Z :=
  let q := a / b in let r := a mod b in
  if (b <? 2 * r) || ((b =? 2 * r) && Z.odd q) then q + 1 else q.

(** The nearest integer to [m * 2^e * 10^p]. *)
Definition scaled (m e p : Z) : Z :=
  div_even (m * 2 ^ Z.max 0 e * 10 ^ Z.max 0 p) (2 ^ Z.max 0 (- e) * 10 ^ Z.max 0 (- p)).

Definition pad_left (n : nat) (s : list Z) : list Z := replicate (n - length s) 48 ++ s.

(** [p] fraction digits of a decimal scaled by [10^p]. *)
Definition point (p : nat) (n : Z) : list Z :=
  let ds := pad_left (S p) (dec_digits n) in
  let ip := take (length ds - p) ds in
  match p with O => ip | _ => ip ++ 46 :: drop (length ds - p) ds end.

(** [format!("{:.p}", n)]. *)
Definition show_fixed (p : nat) (n : f64) : list Z :=
  match SF_of_bits n with
  | S754_nan => lit "NaN"
  | S754_infinity s => (if s then [45] else []) ++ lit "inf"
  | S754_zero s => (if s then [45] else []) ++ point p 0
  | S754_finite s m e => (if s then [45] else []) ++ point p (scaled (Zpos m) e (Z.of_nat p))
  end.

(** The exponent of the first of [p + 1] significant digits.  It is the decimal exponent
    [k] of the value, or [k + 1] when rounding carries over. *)
Definition dec_exponent (m e : Z) : Z :=
  let below k := (* 10^k <= m * 2^e *)
    10 ^ Z.max 0 k * 2 ^ Z.max 0 (- e) <=? m * 2 ^ Z.max 0 e * 10 ^ Z.max 0 (- k) in
  (* log10 is at most one above this approximation by the binary exponent. *)
  let k := (Z.log2 m + e) * 1233 / 4096 - 1 in
  if below (k + 3) then k + 3 else if below (k + 2) then k + 2 else if below (k + 1) then k + 1 else k.

(** [format!("{:.pe}", n)]. *)
Definition show_exp_form (p : nat) (n : f64) : list Z :=
  let body m e :=
    let k := dec_exponent m e in
    let d := scaled m e (Z.of_nat p - k) in
    let '(d, k) := if d =? 10 ^ (Z.of_nat p + 1) then (d / 10, k + 1) else (d, k) in
    point p d ++ 101 :: show_int k in
  match SF_of_bits n with
  | S754_nan => lit "NaN"
  | S754_infinity s => (if s then [45] else []) ++ lit "inf"
  | S754_zero s => (if s then [45] else []) ++ point p 0 ++ lit "e0"
  | S754_finite s m e => (if s then [45] else []) ++ body (Zpos m) e
  end.

Example parse_f64_0_1 : parse_f64 (lit "0.1") = Some 0x3fb999999999999a. Proof. vm_compute. reflexivity. Qed.
Example parse_f64_max : parse_f64 (lit "-1.7976931348623157e308") = Some 0xffefffffffffffff. Proof. vm_compute. reflexivity. Qed.
Example parse_f64_denorm : parse_f64 (lit "4.9E-324") = Some 1. Proof. vm_compute. reflexivity. Qed.
Example parse_f64_tie : parse_f64 (lit "9007199254740993") = Some 0x4340000000000000. Proof. vm_compute. reflexivity. Qed.
Example parse_f64_inf : parse_f64 (lit "1e400") = Some 0x7ff0000000000000. Proof. vm_compute. reflexivity. Qed.
Example parse_f64_bad : parse_f64 (lit "0x10") = None /\ parse_f64 (lit ".") = None /\ parse_f64 (lit "1e") = None. Proof. vm_compute. done. Qed.
Example show_fixed_half : show_fixed 0 0x3fe0000000000000 = lit "0". Proof. vm_compute. reflexivity. Qed.
Example show_fixed_pi : show_fixed 5 0x400921fb54442d18 = lit "3.14159". Proof. vm_compute. reflexivity. Qed.
Example show_exp_pi : show_exp_form 13 0x400921fb54442d18 = lit "3.1415926535898e0". Proof. vm_compute. reflexivity. Qed.
Example show_exp_min : show_exp_form 3 1 = lit "4.941e-324". Proof. vm_compute. reflexivity. Qed.
Example show_exp_carry : show_exp_form 2 0x408f3ffae147ae14 = lit "1.00e3". Proof. vm_compute. reflexivity. Qed.
Example show_exp_1e23 : show_exp_form 13 0x44b52d02c7e14af6 = lit "1.0000000000000e23". Proof. vm_compute. reflexivity. Qed.
