(* ===== verification/StrScan.v ===== *)
(** * util/strscan.rs: numbers in text

    The loops over an index are recursions over the bytes that remain.  A
    slice that is not UTF-8 is not a number either, so that
    [from_utf8(..).ok()?.parse().ok()?] is [parse_f64]. *)

From Stdlib Require Import ZArith Lia Bool.
From stdpp Require Import base decidable numbers option list.
From S2P Require Import Prelude Float64 PatClass FloatText.

Module NumSuffix.
Inductive t := None | Ll | Ull | Imag.
#[global] Instance eq_dec : EqDecision t. Proof. solve_decision. Defined.
End NumSuffix.

Record ScanNumberResult := mkResult { r_n : f64; r_u : Z; r_suffix : NumSuffix.t }.

(** ** Character tests *)

(** [c | 0x20 == l] for a lower-case letter [l]. *)
Definition is_letter (l c : Z) : bool := Z.lor c 32 =? l.
Definition is_sign (c : Z) : bool := (c =? 43) || (c =? 45).
(** [b'U' | b'u'], [b'L' | b'l']. *)
Definition is_u (c : Z) : bool := (c =? 85) || (c =? 117).
Definition is_l (c : Z) : bool := (c =? 76) || (c =? 108).

Definition hex_digit (c : Z) : option Z :=
  if (48 <=? c) && (c <=? 57) then Some (c - 48)
  else if (97 <=? c) && (c <=? 102) then Some (c - 97 + 10)
  else if (65 <=? c) && (c <=? 70) then Some (c - 65 + 10)
  else None.

Definition I32_MAX : Z := 2 ^ 31 - 1.

(** [e.saturating_mul(10).saturating_add(d)] on a non-negative [i32]. *)
Definition exp_digit (e c : Z) : Z := Z.min (Z.min (e * 10) I32_MAX + (c - 48)) I32_MAX.

(** ** Literals *)

(** The last bytes of a slice, most recent first. *)
Definition split_suffix (s : list Z) : list Z * NumSuffix.t :=
  match rev s with
  | c :: rest =>
      if is_letter 105 c then (rev rest, NumSuffix.Imag)
      else match rest with
      | b :: rest =>
          match rest with
          | a :: r3 => if is_u a && is_l b && is_l c then (rev r3, NumSuffix.Ull)
                       else if is_l b && is_l c then (rev rest, NumSuffix.Ll) else (s, NumSuffix.None)
          | [] => if is_l b && is_l c then ([], NumSuffix.Ll) else (s, NumSuffix.None)
          end
      | [] => (s, NumSuffix.None)
      end
  | [] => (s, NumSuffix.None)
  end.

(** The digits of [scan_hex_to_u64], up to a [p]. *)
Fixpoint hex_mantissa (s : list Z) (mant : Z) (seen_digit seen_dot : bool) : option (Z * bool * bool * list Z) :=
  match s with
  | [] => Some (mant, seen_digit, seen_dot, [])
  | c :: s' =>
      match hex_digit c with
      | Some d => hex_mantissa s' (uwrap 64 (mant * 16 + d)) true seen_dot
      | None =>
          if c =? 46 then if seen_dot then None else hex_mantissa s' mant seen_digit true
          else if is_letter 112 c then Some (mant, seen_digit, seen_dot, s)
          else if c =? 95 then hex_mantissa s' mant seen_digit seen_dot
          else None
      end
  end.

Fixpoint hex_exponent (s : list Z) (e : Z) : option Z :=
  match s with
  | [] => Some e
  | c :: s => if c =? 95 then hex_exponent s e
              else if is_ascii_digit c then hex_exponent s (exp_digit e c) else None
  end.

Definition scan_hex_to_u64 (s : list Z) : option (Z * bool) :=
  let? ' (mant, seen_digit, seen_dot, rest) := hex_mantissa s 0 false false in
  if negb seen_digit then None else
  let? exp := match rest with
              | [] => Some 0
              | _ :: rest => let '(neg, rest) := strip_sign rest in
                             let? e := hex_exponent rest 0 in Some (if neg then - e else e)
              end in
  if seen_dot || negb (exp =? 0) then Some (f64_to_u64 (f64_mul (f64_of_Z mant) (f64_exp2 exp)), true)
  else Some (mant, false).

Fixpoint scan_bin_loop (s : list Z) (val : Z) : option Z :=
  match s with
  | [] => Some val
  | c :: s => if c =? 48 then scan_bin_loop s (uwrap 64 (val * 2))
              else if c =? 49 then scan_bin_loop s (uwrap 64 (uwrap 64 (val * 2) + 1))
              else if c =? 95 then scan_bin_loop s val
              else None
  end.

Definition scan_bin_to_u64 (s : list Z) : option Z := scan_bin_loop s 0.

(** The shape of a decimal: what both scanners check of every byte.  [us]
    says whether underscores are skipped, as in literals. *)
Record Shape := mkShape { seen_digit : bool; seen_dot : bool; seen_exp : bool; exp_digits : bool }.

Fixpoint dec_shape (us : bool) (s : list Z) (q : Shape) : option Shape :=
  match s with
  | [] => Some q
  | c :: s' =>
      if is_ascii_digit c then
        dec_shape us s' (if seen_exp q then mkShape (seen_digit q) (seen_dot q) true true
                         else mkShape true (seen_dot q) false (exp_digits q))
      else if c =? 46 then
        if seen_dot q || seen_exp q then None
        else dec_shape us s' (mkShape (seen_digit q) true false (exp_digits q))
      else if is_letter 101 c then
        if seen_exp q || negb (seen_digit q) then None
        else let q := mkShape (seen_digit q) (seen_dot q) true (exp_digits q) in
             match s' with
             | x :: s'' => if is_sign x then dec_shape us s'' q else dec_shape us s' q
             | [] => dec_shape us s' q
             end
      else if us && (c =? 95) then dec_shape us s' q
      else None
  end.

Definition no_shape : Shape := mkShape false false false false.

(** Only digits and underscores are left when this loop runs. *)
Fixpoint dec_u64 (s : list Z) (val : Z) : Z :=
  match s with
  | [] => val
  | c :: s => dec_u64 s (if c =? 95 then val else uwrap 64 (uwrap 64 (val * 10) + (c - 48)))
  end.

Definition scan_dec_to_f64 (s : list Z) : option (Z * bool) :=
  let? q := dec_shape true s no_shape in
  if negb (seen_digit q) || (seen_exp q && negb (exp_digits q)) then None
  else if seen_dot q || seen_exp q then
    let? n := parse_f64 (List.filter (fun c => negb (c =? 95)) s) in Some (n, true)
  else Some (dec_u64 s 0, false).

(** [body] starts with [0] and the given letter. *)
Definition has_prefix (l : Z) (s : list Z) : bool :=
  match s with a :: b :: _ => (a =? 48) && is_letter l b | _ => false end.

Definition scan_number_full (s : list Z) : option ScanNumberResult :=
  match s with [] => None | _ =>
    let '(body, suffix) := split_suffix s in
    let? ' (u, is_float) :=
      if has_prefix 120 body then scan_hex_to_u64 (drop 2 body)
      else if has_prefix 98 body then let? u := scan_bin_to_u64 (drop 2 body) in Some (u, true)
      else scan_dec_to_f64 body in
    let? n := if is_float && (bool_decide (suffix = NumSuffix.None) || bool_decide (suffix = NumSuffix.Imag))
              then parse_f64 body else Some (f64_of_Z u) in
    let u := if decide (suffix = NumSuffix.Imag) then n else u in
    Some (mkResult n u suffix)
  end.

(** ** Conversions of strings *)

Fixpoint skip_leading_space (s : list Z) : list Z :=
  match s with c :: s' => if is_ascii_whitespace c then skip_leading_space s' else s | [] => [] end.

(** The number of bytes of a decimal token after its sign. *)
Fixpoint dec_token_loop (s : list Z) (seen_any seen_exp : bool) : nat * bool :=
  match s with
  | [] => (0%nat, seen_any)
  | c :: s' =>
      if is_ascii_digit c then let '(n, a) := dec_token_loop s' true seen_exp in (S n, a)
      else if c =? 46 then
        if seen_exp then (0%nat, seen_any) else let '(n, a) := dec_token_loop s' true seen_exp in (S n, a)
      else if is_letter 101 c then
        if seen_exp then (0%nat, seen_any)
        else match s' with
             | x :: s'' => if is_sign x then let '(n, a) := dec_token_loop s'' seen_any true in (S (S n), a)
                           else let '(n, a) := dec_token_loop s' seen_any true in (S n, a)
             | [] => let '(n, a) := dec_token_loop s' seen_any true in (S n, a)
             end
      else (0%nat, seen_any)
  end.

Definition dec_token_len (s : list Z) : nat :=
  match s with
  | c :: s' => if is_sign c then let '(n, a) := dec_token_loop s' false false in if a then S n else 0%nat
               else let '(n, a) := dec_token_loop s false false in if a then n else 0%nat
  | [] => 0%nat
  end.

(** [s] starts with [0x]. *)
Definition hex_token_len (s : list Z) : nat :=
  2 + length (fst (span (fun c => is_ascii_hexdigit c || (c =? 46)) (drop 2 s))).

Definition scan_dec (s : list Z) : option f64 :=
  let '(neg, mag) := strip_sign s in
  let? q := dec_shape false mag no_shape in
  if (negb (seen_digit q) && negb (seen_dot q)) || (seen_exp q && negb (exp_digits q)) then None
  else let? v := parse_f64 mag in Some (if neg then f64_neg v else v).

(** The loop of [scan_hex], up to a [p]. *)
Fixpoint scan_hex_loop (s : list Z) (mant exp : Z) (seen_digit seen_dot : bool) : option (Z * Z * bool * list Z) :=
  match s with
  | [] => Some (mant, exp, seen_digit, [])
  | c :: s' =>
      match hex_digit c with
      | Some d =>
          if mant <? 2 ^ 60 then scan_hex_loop s' (mant * 16 + d) (if seen_dot then exp - 4 else exp) true seen_dot
          else scan_hex_loop s' mant (if seen_dot then exp else exp + 4) true seen_dot
      | None =>
          if c =? 46 then if seen_dot then None else scan_hex_loop s' mant exp seen_digit true
          else if is_letter 112 c then Some (mant, exp, seen_digit, s)
          else None
      end
  end.

Fixpoint scan_hex_exponent (s : list Z) (e : Z) : option Z :=
  match s with
  | [] => Some e
  | c :: s => if is_ascii_digit c then scan_hex_exponent s (exp_digit e c) else None
  end.

Definition scan_hex (s : list Z) : option f64 :=
  let? ' (mant, exp, seen_digit, rest) := scan_hex_loop s 0 0 false false in
  if negb seen_digit then None else
  let? exp := match rest with
              | [] => Some exp
              | _ :: rest =>
                  let '(neg, rest) := strip_sign rest in
                  match rest with
                  | [] => None
                  | _ => let? e := scan_hex_exponent rest 0 in Some (swrap 32 (exp + (if neg then - e else e)))
                  end
              end in
  Some (f64_mul (f64_of_Z mant) (f64_exp2 exp)).

Definition scan_number (s : list Z) : option f64 :=
  match skip_leading_space s with
  | [] => None
  | rest =>
      let hex := has_prefix 120 rest in
      let end_ := if hex then hex_token_len rest else dec_token_len rest in
      if if hex then (end_ <=? 2)%nat else (end_ =? 0)%nat then None
      else match skip_leading_space (drop end_ rest) with
           | _ :: _ => None
           | [] => if hex then scan_hex (take end_ rest) else scan_dec (take end_ rest)
           end
  end.
