(* ===== verification/StrFmt.v ===== *)
(** * util/strfmt.rs: numbers as text, and [string.format]

    A panic ([unwrap] of a string without the letter [e], an index out of
    range) is [None]; [Err] carries the message of the error.  A buffer of 64
    bytes that is written to keeps what fits. *)

From Stdlib Require Import ZArith Lia Bool SpecFloat Ascii String.
From stdpp Require Import base decidable numbers option list.
From S2P Require Import Prelude Float64 PatClass FloatText.

(** ** Pieces of [str] *)

(** [s.split_once(c)]. *)
Fixpoint split_once (c : Z) (s : list Z) : option (list Z * list Z) :=
  match s with
  | [] => None
  | x :: s => if x =? c then Some ([], s) else let? ' (a, b) := split_once c s in Some (x :: a, b)
  end.

Fixpoint drop_while (f : Z -> bool) (s : list Z) : list Z :=
  match s with x :: s' => if f x then drop_while f s' else s | [] => [] end.

(** [s.trim_end_matches(c)]. *)
Definition trim_end_matches (c : Z) (s : list Z) : list Z := rev (drop_while (Z.eqb c) (rev s)).

Definition contains (c : Z) (s : list Z) : bool := existsb (Z.eqb c) s.

(** [e.parse::<i32>().unwrap()]. *)
Definition parse_i32 (s : list Z) : option Z :=
  let '(neg, ds) := strip_sign s in
  match ds with
  | [] => None
  | _ => if forallb is_ascii_digit ds then
           let v := if neg then - dec_value ds else dec_value ds in
           if (- 2 ^ 31 <=? v) && (v <? 2 ^ 31) then Some v else None
         else None
  end.

(** [x.parse::<usize>().ok()] of a run of digits. *)
Definition parse_usize (ds : list Z) : option Z :=
  match ds with
  | [] => None
  | _ => if dec_value ds <? 2 ^ 64 then Some (dec_value ds) else None
  end.

(** [{:02}] of the magnitude of an exponent, after its sign. *)
Definition show_exponent (exp : Z) : list Z := (if exp <? 0 then 45 else 43) :: pad_left 2 (dec_digits (Z.abs exp)).

Definition to_uppercase (s : list Z) : list Z := map (fun c => if (97 <=? c) && (c <=? 122) then c - 32 else c) s.

(** ** [tostring] of a number *)

(** The loop divides until one digit is left; 20 digits hold a [u64]. *)
Definition itoa_i64 (v : Z) : list Z :=
  if v <? 0 then 45 :: digits_loop 10 20 (uwrap 64 (- uwrap 64 v)) [] else digits_loop 10 20 v [].

Definition is_sign_negative (n : f64) : bool := f64_sign n.

Definition g14_to_buf (n : f64) : option (list Z) :=
  if f64_eq n 0 then Some (if is_sign_negative n then [45; 48] else [48])
  else if f64_is_nan n then Some (lit "nan")
  else match SF_of_bits n with
  | S754_infinity s => Some (if s then lit "-inf" else lit "inf")
  | _ =>
      let i := f64_to_i64 n in
      if f64_eq (f64_of_Z i) n && (Z.abs i <? 2 ^ 53) then Some (itoa_i64 i)
      else
        let mant_str := take 64 (show_exp_form 13 n) in
        let? ' (m, e) := split_once 101 mant_str in
        let? exp := parse_i32 e in
        if negb ((-4 <=? exp) && (exp <? 14)) then
          let m2 := trim_end_matches 46 (trim_end_matches 48 m) in
          Some (take 64 (m2 ++ 101 :: show_exponent exp))
        else
          let prec := Z.max (13 - exp) 0 in
          let s := take 64 (show_fixed (Z.to_nat prec) n) in
          Some (if contains 46 s then trim_end_matches 46 (trim_end_matches 48 s) else s)
  end.

(** The text is ASCII, which [from_utf8_lossy] keeps. *)
Definition g14 (n : f64) : option (list Z) := g14_to_buf n.

(** ** Conversion specifications *)

Inductive FmtArg := Num (n : f64) | Str (s : list Z).

Record Spec := mkSpec { left_ : bool; zero : bool; space : bool; plus : bool; hash : bool;
                        width : option Z; prec : option Z }.

Definition is_flag (c : Z) : bool := (c =? 45) || (c =? 43) || (c =? 32) || (c =? 35) || (c =? 48).

Definition set_flag (s : Spec) (c : Z) : Spec :=
  let '(mkSpec l z sp p h w pr) := s in
  if c =? 45 then mkSpec true z sp p h w pr
  else if c =? 43 then mkSpec l z sp true h w pr
  else if c =? 32 then mkSpec l z true p h w pr
  else if c =? 35 then mkSpec l z sp p true w pr
  else mkSpec l true sp p h w pr.

Definition default_spec : Spec := mkSpec false false false false false None None.

(** [fmt] is the slice from [i] to [end]. *)
Definition parse_spec_bytes (fmt : list Z) : Spec :=
  let '(flags, r) := span is_flag fmt in
  let '(mkSpec l z sp p h _ _) := fold_left set_flag flags default_spec in
  let '(ws, r) := span is_ascii_digit r in
  let w := match ws with [] => None | _ => parse_usize ws end in
  let pr := let? r := strip 46 r in parse_usize (fst (span is_ascii_digit r)) in
  mkSpec l z sp p h w pr.

Definition push_padded (out : list Z) (s : Spec) (body : list Z) (sign : Z) (zero_with_prec : bool) : list Z :=
  let sg := if sign =? 0 then [] else [sign] in
  let total := zlen sg + zlen body in
  let w := default 0 (width s) in
  if zero s && negb (left_ s) && (zero_with_prec || bool_decide (prec s = None)) && (total <? w) then
    out ++ sg ++ replicate (Z.to_nat (w - total)) 48 ++ body
  else
    let padn := Z.max 0 (w - total) in
    if left_ s then out ++ sg ++ body ++ replicate (Z.to_nat padn) 32
    else out ++ replicate (Z.to_nat padn) 32 ++ sg ++ body.

(** ** Digits

    The buffers hold 32 digits; the loops end at 0. *)

Fixpoint itoa_loop (fuel : nat) (n : Z) (acc : list Z) : list Z :=
  match fuel with
  | O => acc
  | S fuel => if n =? 0 then acc else itoa_loop fuel (Z.quot n 10) (48 + Z.abs (Z.rem n 10) :: acc)
  end.

Definition itoa (n : Z) : list Z := if n =? 0 then [48] else itoa_loop 32 n [].

Definition hex_char (upper : bool) (d : Z) : Z := if d <? 10 then 48 + d else if upper then 65 + d - 10 else 97 + d - 10.

Fixpoint utohex_loop (fuel : nat) (n : Z) (upper : bool) (acc : list Z) : list Z :=
  match fuel with
  | O => acc
  | S fuel => if n =? 0 then acc else utohex_loop fuel (Z.shiftr n 4) upper (hex_char upper (Z.land n 15) :: acc)
  end.

Definition utohex (n : Z) (upper : bool) : list Z := if n =? 0 then [48] else utohex_loop 32 n upper [].

Fixpoint utooct_loop (fuel : nat) (n : Z) (acc : list Z) : list Z :=
  match fuel with
  | O => acc
  | S fuel => if n =? 0 then acc else utooct_loop fuel (Z.shiftr n 3) (48 + Z.land n 7 :: acc)
  end.

Definition utooct (n : Z) : list Z := if n =? 0 then [48] else utooct_loop 32 n [].

(** ** Compiling a format *)

Inductive FmtPart := Lit (b : list Z) | Conv (s : Spec) (conv : Z).

(** [if i > lit_start { push the literal run }]; the run is kept reversed. *)
Definition flush (run : list Z) (parts : list FmtPart) : list FmtPart :=
  match run with [] => parts | _ => parts ++ [Lit (rev run)] end.

(** The bytes of one specification, and what follows. *)
Definition spec_span (s : list Z) : list Z * list Z :=
  let '(a, s) := span is_flag s in
  let '(b, s) := span is_ascii_digit s in
  match strip 46 s with
  | Some s => let '(c, s) := span is_ascii_digit s in (a ++ b ++ 46 :: c, s)
  | None => (a ++ b, s)
  end.

(** One unit of fuel for each byte or specification. *)
Fixpoint compile_loop (fuel : nat) (fmt run : list Z) (parts : list FmtPart) : option (list FmtPart + list Z) :=
  match fuel with
  | O => None
  | S fuel =>
      match fmt with
      | [] => Some (inl (flush run parts))
      | c :: fmt' =>
          if c =? 37 then
            match strip 37 fmt' with
            | Some fmt'' => compile_loop fuel fmt'' [] (flush run parts ++ [Lit [37]])
            | None =>
                let '(sp, rest) := spec_span fmt' in
                match rest with
                | [] => Some (inr (lit "invalid conversion to 'format'"))
                | conv :: rest => compile_loop fuel rest [] (flush run parts ++ [Conv (parse_spec_bytes sp) conv])
                end
            end
          else compile_loop fuel fmt' (c :: run) parts
      end
  end.

Definition compile (fmt : list Z) : option (list FmtPart + list Z) := compile_loop (S (length fmt)) fmt [] [].

(** ** Floats *)

Definition fmt_e (n : f64) (p : nat) (upper hash : bool) : option (list Z) :=
  let? ' (m, e) := split_once 101 (show_exp_form p n) in
  let? exp := parse_i32 e in
  let mant := if hash && negb (contains 46 m) then m ++ [46] else m in
  Some (mant ++ (if upper then 69 else 101) :: show_exponent exp).

(** [prec as i32]. *)
Definition fmt_g (n : f64) (p : nat) (hash : bool) : option (list Z) :=
  if f64_eq n 0 then Some [48] else
  let e_s := show_exp_form (p - 1) n in
  let? ' (mant, e) := split_once 101 e_s in
  let? exp := parse_i32 e in
  let prec := swrap 32 (Z.of_nat p) in
  if (exp <? -4) || (prec <=? exp) then
    let mant := if hash then mant else trim_end_matches 46 (trim_end_matches 48 mant) in
    Some (mant ++ 101 :: show_exponent exp)
  else
    let decimals := Z.max (prec - 1 - exp) 0 in
    let s := show_fixed (Z.to_nat decimals) n in
    Some (if hash then s else if contains 46 s then trim_end_matches 46 (trim_end_matches 48 s) else s).

(** The two loops of [fmt_a] over hexadecimal digits. *)
Fixpoint hex_digits13 (k : nat) (m : Z) : list Z :=
  match k with
  | O => []
  | S k => Z.land (Z.shiftr m 48) 15 :: hex_digits13 k (uwrap 64 (Z.shiftl m 4))
  end.

(** Round up from the last digit; [true] when the carry leaves the digits. *)
Fixpoint hex_carry (ds : list Z) : list Z * bool :=
  match ds with
  | [] => ([], true)
  | d :: ds =>
      let '(ds, c) := hex_carry ds in
      if c then if d + 1 <? 16 then (d + 1 :: ds, false) else (0 :: ds, true) else (d :: ds, false)
  end.

(** [{sign}{abs}] of an exponent, without padding. *)
Definition show_e2 (e2 : Z) : list Z := (if e2 <? 0 then 45 else 43) :: dec_digits (Z.abs e2).

Definition fmt_a (n : f64) (prec : Z) (upper : bool) : list Z :=
  let prefix := if upper then lit "0X" else lit "0x" in
  let p := 112 in
  let neg := is_sign_negative n in
  let v := if neg then f64_neg n else n in
  let sign := if neg then [45] else [] in
  if f64_eq v 0 then sign ++ prefix ++ lit "0p+0" else
  let exp := f64_exp v in
  let frac := f64_man v in
  let '(e2, mant) :=
    if exp =? 0 then
      let shift := leading_zeros 64 frac - 11 in
      (-1023 - shift, uwrap 64 (Z.shiftl frac shift))
    else (exp - 1023, Z.lor (2 ^ 52) frac) in
  let digits := hex_digits13 13 mant in
  if prec =? 0 then
    let whole := if 8 <=? Z.land (Z.shiftr mant 48) 15 then 50 else 49 in
    sign ++ prefix ++ whole :: p :: show_e2 e2
  else
    let '(frac_s, e2) :=
      if prec <=? 13 then
        let keep := Z.to_nat prec in
        let ds := take keep digits in
        let next := default 0 (digits !! keep) in
        if 8 <=? next then
          let '(ds, carry) := hex_carry ds in
          if carry then (removelast (1 :: ds), e2 + 1) else (ds, e2)
        else (ds, e2)
      else match trim_end_matches 0 digits with [] => ([0], e2) | s => (s, e2) end in
    let s := sign ++ prefix ++ 49 :: 46 :: map (hex_char upper) frac_s ++ p :: show_e2 e2 in
    map (fun c => if c =? p then (if upper then 80 else p) else c) s.

Definition fmt_float_body (s : Spec) (conv : Z) (n : f64) : option (list Z) :=
  let p := default 6 (prec s) in
  let a := f64_abs n in
  if (conv =? 102) || (conv =? 70) then
    let t := show_fixed (Z.to_nat p) a in
    Some (if hash s && negb (contains 46 t) then t ++ [46] else t)
  else if (conv =? 101) || (conv =? 69) then fmt_e a (Z.to_nat p) (conv =? 69) (hash s)
  else if (conv =? 103) || (conv =? 71) then
    let? t := fmt_g a (Z.to_nat (if bool_decide (prec s = None) then 6 else Z.max p 1)) (hash s) in
    Some (if conv =? 71 then to_uppercase t else t)
  else None.

Definition pad (s : list Z) (width : option Z) (left : bool) : list Z :=
  match width with
  | Some w =>
      if zlen s <? w then
        let padn := Z.to_nat (w - zlen s) in
        if left then s ++ replicate padn 32 else replicate padn 32 ++ s
      else s
  | None => s
  end.

(** ** Arguments

    [str::trim] removes the characters with the property [White_Space]; what
    is left is a number only if it is ASCII, and then the whole is UTF-8. *)

Definition unicode_spaces : list (list Z) :=
  map (fun c => [c]) [9; 10; 11; 12; 13; 32] ++ [[0xC2; 0x85]; [0xC2; 0xA0]; [0xE1; 0x9A; 0x80]] ++
  map (fun c => [0xE2; 0x80; c]) [0x80; 0x81; 0x82; 0x83; 0x84; 0x85; 0x86; 0x87; 0x88; 0x89; 0x8A; 0xA8; 0xA9; 0xAF] ++
  [[0xE2; 0x81; 0x9F]; [0xE3; 0x80; 0x80]].

Fixpoint is_prefix (p s : list Z) : bool :=
  match p, s with
  | [], _ => true
  | a :: p, b :: s => (a =? b) && is_prefix p s
  | _, [] => false
  end.

(** One unit of fuel per character removed. *)
Fixpoint trim_chars (fuel : nat) (spaces : list (list Z)) (s : list Z) : list Z :=
  match fuel with
  | O => s
  | S fuel => match List.find (fun p => is_prefix p s) spaces with
              | Some p => trim_chars fuel spaces (drop (length p) s)
              | None => s
              end
  end.

Definition trim (s : list Z) : list Z :=
  let s := trim_chars (length s) unicode_spaces s in
  rev (trim_chars (length s) (map (@rev Z) unicode_spaces) (rev s)).

Definition bad_arg : list Z := lit "bad argument to 'format'".
Definition bad_number : list Z := lit "bad argument to 'format' (number expected)".

(** [args.get(ai)], then [ai += 1]: the arguments that remain are the state. *)
Definition next_num (args : list FmtArg) : (f64 * list FmtArg) + list Z :=
  match args with
  | [] => inr bad_arg
  | Num n :: args => inl (n, args)
  | Str s :: args => match parse_f64 (trim s) with Some n => inl (n, args) | None => inr bad_number end
  end.

(** ** Quoting *)

(** [format!("\\{:03o}", b)]. *)
Definition show_octal (b : Z) : list Z := 92 :: pad_left 3 (digits_loop 8 3 b []).

Definition quote_byte (b : Z) : list Z :=
  if (b =? 34) || (b =? 92) then [92; b]
  else if (b =? 10) || (b =? 13) then [92; b]
  else if b =? 9 then [92; 116]
  else if b =? 7 then [92; 97]
  else if b =? 8 then [92; 98]
  else if b =? 12 then [92; 102]
  else if b =? 11 then [92; 118]
  else if (b <? 32) || (b =? 127) then show_octal b
  else [b].

Definition quote (s : list Z) : list Z := 34 :: flat_map quote_byte s ++ [34].

(** ** Replaying the parts *)

Definition sign_of (s : Spec) (neg : bool) : Z := if neg then 45 else if plus s then 43 else if space s then 32 else 0.

(** A byte as a [char], in UTF-8. *)
Definition show_char (c : Z) : list Z := if c <? 128 then [c] else [0xC0 + c / 64; 0x80 + c mod 64].

Definition is_conv (cs : list Z) (c : Z) : bool := existsb (Z.eqb c) cs.

(** [let n = next_num(&mut ai)?], and the output made of it. *)
Definition with_num (args : list FmtArg) (k : f64 -> option (list Z)) : option ((list Z * list FmtArg) + list Z) :=
  match next_num args with
  | inr e => Some (inr e)
  | inl (n, args) => let? out := k n in Some (inl (out, args))
  end.

(** One conversion: the output, and the arguments that remain. *)
Definition format_conv (out : list Z) (s : Spec) (conv : Z) (args : list FmtArg) : option ((list Z * list FmtArg) + list Z) :=
  if is_conv (lit "di") conv then
    with_num args (fun n => let n := f64_to_i64 n in
      Some (push_padded out s (itoa n) (sign_of s (n <? 0)) false))
  else if is_conv (lit "u") conv then
    with_num args (fun n => Some (push_padded out s (itoa (swrap 64 (uwrap 64 (f64_to_i64 n)))) 0 false))
  else if is_conv (lit "c") conv then with_num args (fun n => Some (out ++ [uwrap 8 (f64_to_i64 n)]))
  else if is_conv (lit "x") conv then
    with_num args (fun n => Some (push_padded out s (utohex (uwrap 64 (f64_to_i64 n)) false) 0 false))
  else if is_conv (lit "X") conv then
    with_num args (fun n => Some (push_padded out s (utohex (uwrap 64 (f64_to_i64 n)) true) 0 false))
  else if is_conv (lit "o") conv then
    with_num args (fun n => Some (push_padded out s (utooct (uwrap 64 (f64_to_i64 n))) 0 false))
  else if is_conv (lit "fFeEgG") conv then
    with_num args (fun n => let? body := fmt_float_body s conv n in
      Some (push_padded out s body (sign_of s (is_sign_negative n)) true))
  else if is_conv (lit "aA") conv then
    with_num args (fun n =>
      let t := fmt_a n (default 13 (prec s)) (conv =? 65) in
      let t := if negb (is_sign_negative n) && plus s then 43 :: t
               else if negb (is_sign_negative n) && space s && negb (is_prefix [32] t) then 32 :: t else t in
      Some (out ++ pad t (width s) (left_ s)))
  else if is_conv (lit "s") conv then
    match args with
    | [] => Some (inr bad_arg)
    | a :: args =>
        let? ' (out, body) := match a with
                              | Str b => Some (out, b)
                              | Num n => let? t := g14 n in Some (out ++ t, [])
                              end in
        Some (inl (match body with
                   | [] => out
                   | _ => let body := match prec s with
                                      | Some p => if p <? zlen body then take (Z.to_nat p) body else body
                                      | None => body
                                      end in
                          push_padded out s body 0 false
                   end, args))
    end
  else if is_conv (lit "q") conv then
    match args with
    | [] => Some (inr bad_arg)
    | Str b :: args => Some (inl (out ++ quote b, args))
    | Num _ :: args => Some (inl (out ++ quote [], args))
    end
  else Some (inr (lit "invalid conversion '%" ++ show_char conv ++ [39])).

Fixpoint format_parts (parts : list FmtPart) (args : list FmtArg) (out : list Z) : option (list Z + list Z) :=
  match parts with
  | [] => Some (inl out)
  | Lit b :: parts => format_parts parts args (out ++ b)
  | Conv s conv :: parts =>
      let? r := format_conv out s conv args in
      match r with
      | inl (out, args) => format_parts parts args out
      | inr e => Some (inr e)
      end
  end.

Definition format (fmt : list Z) (args : list FmtArg) : option (list Z + list Z) :=
  let? r := compile fmt in
  match r with inl parts => format_parts parts args [] | inr e => Some (inr e) end.

(** Expected outputs. *)
Definition fmt1 (f : string) (n : f64) := format (lit f) [Num n].

Example g14_tenth : g14 0x3fb999999999999a = Some (lit "0.1"). Proof. vm_compute. reflexivity. Qed.
Example g14_pi : g14 0x400921fb54442d18 = Some (lit "3.1415926535898"). Proof. vm_compute. reflexivity. Qed.
Example g14_1e100 : g14 0x54b249ad2594c37d = Some (lit "1e+100"). Proof. vm_compute. reflexivity. Qed.
Example g14_m5 : g14 (f64_of_Z (-5)) = Some (lit "-5"). Proof. vm_compute. reflexivity. Qed.
Example fmt_d : fmt1 "<%5d|%-5d|" (f64_of_Z (-42)) = Some (inr bad_arg). Proof. vm_compute. reflexivity. Qed.
Example fmt_05d : fmt1 "x=%05d" (f64_of_Z (-42)) = Some (inl (lit "x=-0042")). Proof. vm_compute. reflexivity. Qed.
Example fmt_x : fmt1 "%#08x%%" (f64_of_Z 48879) = Some (inl (lit "0000beef%")). Proof. vm_compute. reflexivity. Qed.
Example fmt_g_1e20 : fmt1 "%g" (f64_of_Z (10 ^ 20)) = Some (inl (lit "1e+20")). Proof. vm_compute. reflexivity. Qed.
Example fmt_a_1 : fmt1 "%a" (f64_of_Z 1) = Some (inl (lit "0x1.0000000000000p+0")). Proof. vm_compute. reflexivity. Qed.
Example fmt_g_inf : fmt1 "%g" 0x7ff0000000000000 = None. Proof. vm_compute. reflexivity. Qed.
Example fmt_u_m1 : fmt1 "%u" (f64_of_Z (-1)) = Some (inl (lit "1")). Proof. vm_compute. reflexivity. Qed.
Example fmt_f_empty_prec : fmt1 "%.f" (f64_of_Z 1) = Some (inl (lit "1.000000")). Proof. vm_compute. reflexivity. Qed.
Example fmt_a_sub : fmt1 "%a" 1 = Some (inl (lit "0x1.0000000000000p-1075")). Proof. vm_compute. reflexivity. Qed.
Example fmt_a_carry : fmt1 "%.1a" 0x3fffffffffffffff = Some (inl (lit "0x1.1p+1")). Proof. vm_compute. reflexivity. Qed.
Example fmt_3d : fmt1 "%.3d" (f64_of_Z 5) = Some (inl (lit "5")). Proof. vm_compute. reflexivity. Qed.
Example fmt_5s : fmt1 "%5s" (f64_of_Z 5) = Some (inl (lit "5")). Proof. vm_compute. reflexivity. Qed.
Example fmt_q_esc : format (lit "%q") [Str [27]] = Some (inl (34 :: lit "\033" ++ [34])). Proof. vm_compute. reflexivity. Qed.
