(* ===== verification/NumSpec.v ===== *)
(** * Printing and reading numbers

    Integers of at most 53 bits are exact doubles; digits in any base are
    read back; [tostring], [string.format] and literals are inverted by the
    scanners of util/strscan.rs; and both scanners read the same decimals. *)

From Stdlib Require Import ZArith Lia Bool SpecFloat String.
From stdpp Require Import base decidable numbers option list.
From S2P Require Import Prelude Float64 PatClass FloatText StrScan StrFmt.

(** ** Exact conversions *)

Lemma digits2_pos_log2 m : Zpos (digits2_pos m) = Z.log2 (Zpos m) + 1.
Proof.
  assert (forall m, Zpos (digits2_pos m) = Z.log2 (Zpos m) + 1) as H; [|apply H].
  clear m. induction m as [m IH|m IH|]; cbn [digits2_pos]; [| |done];
    rewrite Pos2Z.inj_succ, IH.
  - change (Zpos m~1) with (2 * Zpos m + 1). rewrite Z.log2_succ_double by lia. lia.
  - change (Zpos m~0) with (2 * Zpos m). rewrite Z.log2_double by lia. lia.
Qed.

Lemma iter_xO m d : Zpos (Pos.iter xO m d) = Zpos m * 2 ^ Zpos d.
Proof.
  induction d as [|d IH] using Pos.peano_ind; [cbn; lia|].
  rewrite Pos.iter_succ, Pos2Z.inj_succ, Z.pow_succ_r by lia.
  rewrite Pos2Z.inj_xO, IH. lia.
Qed.

Lemma fexp_digits m e : fexp 53 1024 (Zpos (digits2_pos m) + e) = Z.max (Z.log2 (Zpos m) + e - 52) (-1074).
Proof. unfold fexp, emin. rewrite digits2_pos_log2. lia. Qed.

(** A mantissa of 53 bits is rounded to itself. *)
Lemma round_exact s m e : Z.log2 (Zpos m) = 52 -> -1074 <= e <= 971 ->
  binary_round_aux 53 1024 s (Zpos m) e loc_Exact = S754_finite s m e.
Proof.
  intros Hm He. unfold binary_round_aux, shr_fexp. cbn [shr_record_of_loc Zdigits2].
  rewrite fexp_digits, Hm. rewrite Z.max_l by lia. replace (52 + e - 52 - e) with 0 by lia.
  cbn [shr shr_m loc_of_shr_record round_nearest_even Zdigits2].
  rewrite fexp_digits, Hm. rewrite Z.max_l by lia. replace (52 + e - 52 - e) with 0 by lia.
  cbn [shr shr_m shr_record_of_loc]. replace (1024 - 53) with 971 by lia. by destruct (Z.leb_spec e 971); [|lia].
Qed.

Lemma binary_round_small s m : Zpos m < 2 ^ 53 ->
  exists m', binary_round 53 1024 s m 0 = S754_finite s m' (Z.log2 (Zpos m) - 52) /\
    Zpos m' = Zpos m * 2 ^ (52 - Z.log2 (Zpos m)).
Proof.
  intros Hm. unfold binary_round. rewrite fexp_digits.
  pose proof (Z.log2_spec (Zpos m) ltac:(lia)) as [Hl _].
  pose proof (Z.log2_nonneg (Zpos m)). assert (Z.log2 (Zpos m) < 53) by (apply Z.log2_lt_pow2; lia).
  rewrite Z.max_l by lia. unfold shl_align. rewrite Z.add_0_r, Z.sub_0_r.
  destruct (Z.log2 (Zpos m) - 52) as [|p|p] eqn:E; [|lia|].
  - exists m. rewrite round_exact by lia. split; [done|]. replace (52 - _) with 0 by lia. lia.
  - exists (Pos.iter xO m p). split.
    + apply round_exact; [|lia]. rewrite iter_xO, Z.log2_mul_pow2 by lia. lia.
    + rewrite iter_xO. f_equal. f_equal. lia.
Qed.

Lemma f64_of_Z_small k : Z.abs k < 2 ^ 53 -> f64_of_Z k = f64_of_int k.
Proof.
  intros Hk. unfold f64_of_Z, f64_of_int, binary_normalize. destruct k as [|m|m]; [done| |];
    change (Z.abs (Zneg m)) with (Zpos m) in *; change (Z.abs (Zpos m)) with (Zpos m) in *;
    cbn [Z.eqb]; destruct (binary_round_small false m Hk) as (m1 & E1 & V1);
    destruct (binary_round_small true m Hk) as (m2 & E2 & V2);
    pose proof (f64_of_int_pack (Zpos m) ltac:(lia)) as (Hd & Hm & _); change (Z.abs (Zpos m)) with (Zpos m) in *;
    rewrite ?E1, ?E2; cbn [bits_of_SF].
  - rewrite V1. destruct (Z.ltb_spec (Zpos m * 2 ^ (52 - Z.log2 (Zpos m))) (2 ^ 52)); [lia|].
    destruct (Z.ltb_spec (Zpos m) 0); [lia|]. f_equal. lia.
  - rewrite V2. destruct (Z.ltb_spec (Zpos m * 2 ^ (52 - Z.log2 (Zpos m))) (2 ^ 52)); [lia|].
    destruct (Z.ltb_spec (Zneg m) 0); [|lia]. f_equal. lia.
Qed.

Lemma f64_of_int_opp k : 0 < k < 2 ^ 53 -> f64_of_int (- k) = f64_neg (f64_of_int k).
Proof.
  intros Hk. pose proof (f64_of_int_pack k ltac:(lia)) as (Hd & Hm & E). pose proof (f64_of_int_pack (- k) ltac:(lia)) as (_ & _ & E').
  rewrite Z.abs_opp in E'. rewrite E, E', Z.abs_eq in *  by lia.
  destruct (Z.ltb_spec k 0), (Z.ltb_spec (- k) 0); try lia.
  destruct (f64_pack false (Z.log2 k + 1023) (k * 2 ^ (52 - Z.log2 k) - 2 ^ 52)) as (_ & Es & _); [lia|lia|].
  unfold f64_neg. rewrite Es. unfold pack. cbn [Z.b2z]. lia.
Qed.

Lemma f64_to_i64_of_int k : Z.abs k < 2 ^ 53 -> f64_to_i64 (f64_of_int k) = k.
Proof.
  intros Hk. unfold f64_to_i64, f64_to_range. destruct (decide (k = 0)) as [->|Hk0]; [done|].
  destruct (SF_of_f64_of_int k) as (m & E & Em); [lia|]. rewrite E. cbn [SF_trunc].
  set (d := Z.log2 (Z.abs k)) in *.
  assert (0 <= d < 53) by (split; [apply Z.log2_nonneg|apply Z.log2_lt_pow2; lia]).
  assert ((if 0 <=? d - 52 then Zpos m * 2 ^ (d - 52) else Zpos m / 2 ^ (- (d - 52))) = Z.abs k) as ->.
  { rewrite Em. destruct (Z.leb_spec 0 (d - 52)).
    - replace d with 52 by lia. cbn. lia.
    - replace (- (d - 52)) with (52 - d) by lia. apply Z.div_mul. apply Z.pow_nonzero; lia. }
  destruct (Z.ltb_spec k 0); lia.
Qed.

(** ** Digits *)

Definition is_base (b c : Z) : Prop := 48 <= c < 48 + b.

Definition base_value (b : Z) (ds : list Z) (v : Z) : Z := fold_left (fun v d => v * b + (d - 48)) ds v.

Lemma base_value_app b ds es v : base_value b (ds ++ es) v = base_value b es (base_value b ds v).
Proof. apply fold_left_app. Qed.

Lemma base_value_zeros b n ds : base_value b (replicate n 48 ++ ds) 0 = base_value b ds 0.
Proof. induction n as [|n IH]; [done|]. cbn. rewrite <- IH. f_equal. Qed.

Lemma digits_loop_spec b fuel : 2 <= b <= 10 -> forall n acc, 0 <= n < b ^ Z.of_nat fuel -> (0 < fuel)%nat ->
  exists ds, digits_loop b fuel n acc = ds ++ acc /\ ds <> [] /\ (length ds <= fuel)%nat /\ Forall (is_base b) ds /\
    base_value b ds 0 = n.
Proof.
  intros Hb. induction fuel as [|fuel IH]; intros n acc Hn Hf; [lia|]. cbn [digits_loop].
  pose proof (Z.mod_pos_bound n b ltac:(lia)) as Hm. destruct (Z.ltb_spec n b) as [Hl|Hl].
  - exists [48 + n mod b]. rewrite (Z.mod_small n b) by lia.
    split_and!; [done|done|cbn; lia|repeat constructor; lia|]. cbn. lia.
  - pose proof (Z.div_mod n b ltac:(lia)) as Hd. rewrite Nat2Z.inj_succ, Z.pow_succ_r in Hn by lia.
    destruct fuel as [|fuel']; [cbn in Hn; lia|].
    destruct (IH (n / b) (48 + n mod b :: acc)) as (ds & -> & Hne & Hlen & Hds & Hv); [|lia|].
    { split; [apply Z.div_pos; lia|]. apply Z.div_lt_upper_bound; lia. }
    exists (ds ++ [48 + n mod b]). rewrite <- app_assoc. split_and!; [done|by destruct ds| | |].
    + rewrite length_app. cbn. lia.
    + apply Forall_app. split; [done|]. repeat constructor; unfold is_base; lia.
    + rewrite base_value_app, Hv. cbn. lia.
Qed.

Lemma dec_digits_spec n : 0 <= n ->
  dec_digits n <> [] /\ Forall (is_base 10) (dec_digits n) /\ base_value 10 (dec_digits n) 0 = n.
Proof.
  intros Hn. unfold dec_digits.
  destruct (digits_loop_spec 10 (S (Z.to_nat (Z.log2 n))) ltac:(lia) n []) as (ds & -> & H1 & _ & H2 & H3); [|lia|].
  - split; [done|]. rewrite Nat2Z.inj_succ. pose proof (Z.log2_nonneg n). rewrite Z2Nat.id by done.
    apply Z.lt_le_trans with (2 ^ Z.succ (Z.log2 n)); [|apply Z.pow_le_mono_l; lia].
    destruct (decide (n = 0)) as [->|]; [done|]. apply Z.log2_spec. lia.
  - rewrite app_nil_r. done.
Qed.

Lemma itoa_loop_abs fuel n acc : n <> 0 -> (0 < fuel)%nat -> itoa_loop fuel n acc = digits_loop 10 fuel (Z.abs n) acc.
Proof.
  revert n acc. induction fuel as [|fuel IH]; intros n acc Hn Hf; [lia|]. cbn [itoa_loop digits_loop].
  destruct (Z.eqb_spec n 0); [done|].
  assert (Z.abs (Z.rem n 10) = Z.abs n mod 10) as -> by (rewrite <- Z.rem_abs by lia; by rewrite Z.rem_mod_nonneg by lia).
  assert (Hq : Z.abs (Z.quot n 10) = Z.abs n / 10) by (rewrite <- Z.quot_abs by lia; by rewrite Z.quot_div_nonneg by lia).
  destruct (Z.ltb_spec (Z.abs n) 10) as [Hl|Hl].
  - assert (Z.quot n 10 = 0) as -> by (rewrite Z.div_small in Hq by lia; lia). by destruct fuel.
  - assert (1 <= Z.abs n / 10) by (apply Z.div_le_lower_bound; lia).
    destruct fuel as [|fuel]; [done|]. rewrite IH by lia. by rewrite Hq.
Qed.

Lemma itoa_spec n : srange 64 n ->
  itoa n <> [] /\ Forall (is_base 10) (itoa n) /\ base_value 10 (itoa n) 0 = Z.abs n.
Proof.
  unfold srange, itoa. intros Hn. destruct (Z.eqb_spec n 0) as [->|Hz].
  - split_and!; [done|repeat constructor; lia|done].
  - rewrite itoa_loop_abs by lia.
    destruct (digits_loop_spec 10 32 ltac:(lia) (Z.abs n) []) as (ds & -> & H1 & _ & H2 & H3); [lia|lia|].
    by rewrite app_nil_r.
Qed.

Lemma itoa_i64_spec v : srange 64 v ->
  exists ds, itoa_i64 v = (if v <? 0 then [45] else []) ++ ds /\
    ds <> [] /\ Forall (is_base 10) ds /\ base_value 10 ds 0 = Z.abs v.
Proof.
  unfold srange, itoa_i64, uwrap. intros Hv. destruct (Z.ltb_spec v 0) as [Hl|Hl].
  - assert ((- (v mod 2 ^ 64)) mod 2 ^ 64 = Z.abs v) as ->.
    { replace (v mod 2 ^ 64) with (v + 2 ^ 64) by (apply Z.mod_unique with (-1); lia).
      symmetry. apply Z.mod_unique with (-1); lia. }
    destruct (digits_loop_spec 10 20 ltac:(lia) (Z.abs v) []) as (ds & -> & H1 & _ & H2 & H3); [lia|lia|].
    exists ds. by rewrite app_nil_r.
  - destruct (digits_loop_spec 10 20 ltac:(lia) v []) as (ds & -> & H1 & _ & H2 & H3); [lia|lia|].
    exists ds. rewrite app_nil_r. split_and!; [done..|lia].
Qed.

(** Hexadecimal digits are read back, whatever was read before them. *)
Lemma hex_char_digit up d : 0 <= d < 16 -> hex_digit (hex_char up d) = Some d.
Proof.
  intros Hd. unfold hex_char, hex_digit.
  destruct (Z.ltb_spec d 10), up; repeat match goal with |- context [Z.leb ?a ?b] => destruct (Z.leb_spec a b) end;
    cbn [andb]; try lia; f_equal; lia.
Qed.

Lemma utohex_loop_spec up fuel : forall n acc, 0 < n < 16 ^ Z.of_nat fuel -> (0 < fuel)%nat ->
  exists ds, utohex_loop fuel n up acc = ds ++ acc /\ ds <> [] /\ Forall (fun c => exists d, 0 <= d < 16 /\ c = hex_char up d) ds /\
    forall v sd rest, 0 <= v -> v * 16 ^ zlen ds + n < 2 ^ 64 ->
      hex_mantissa (ds ++ rest) v sd false = hex_mantissa rest (v * 16 ^ zlen ds + n) true false.
Proof.
  induction fuel as [|fuel IH]; intros n acc Hn Hf; [lia|]. cbn [utohex_loop].
  destruct (Z.eqb_spec n 0); [lia|]. change 15 with (Z.ones 4). rewrite Z.land_ones, Z.shiftr_div_pow2 by lia.
  change (2 ^ 4) with 16. pose proof (Z.mod_pos_bound n 16 ltac:(lia)) as Hm.
  pose proof (Z.div_mod n 16 ltac:(lia)) as Hd. rewrite Nat2Z.inj_succ, Z.pow_succ_r in Hn by lia.
  assert (Hone : forall v sd rest, 0 <= v -> v * 16 + n mod 16 < 2 ^ 64 ->
    hex_mantissa (hex_char up (n mod 16) :: rest) v sd false = hex_mantissa rest (v * 16 + n mod 16) true false).
  { intros v sd rest Hv Hb. cbn [hex_mantissa]. rewrite hex_char_digit by lia. rewrite uwrap_small by (unfold urange; lia). done. }
  destruct (decide (n / 16 = 0)) as [E|E].
  - rewrite E. exists [hex_char up (n mod 16)]. split_and!; [by destruct fuel|done|repeat constructor; by exists (n mod 16)|].
    intros v sd rest Hv Hb. change (zlen [_]) with 1 in *. cbn [app]. rewrite Hone by lia. f_equal. lia.
  - destruct fuel as [|fuel']; [cbn in Hn; lia|].
    destruct (IH (n / 16) (hex_char up (n mod 16) :: acc)) as (ds & -> & Hne & Hall & Hr); [|lia|].
    { assert (0 <= n / 16) by (apply Z.div_pos; lia). split; [lia|]. apply Z.div_lt_upper_bound; lia. }
    exists (ds ++ [hex_char up (n mod 16)]). rewrite <- app_assoc. split_and!; [done|by destruct ds| |].
    + apply Forall_app. split; [done|]. repeat constructor. by exists (n mod 16).
    + intros v sd rest Hv Hb. rewrite <- app_assoc. cbn [app].
      assert (zlen (ds ++ [hex_char up (n mod 16)]) = zlen ds + 1) as Hl by (unfold zlen; rewrite length_app; cbn; lia).
      pose proof (zlen_nonneg ds). rewrite Hl, Z.pow_add_r, Z.pow_1_r in * by lia.
      assert (0 <= 16 ^ zlen ds) by (apply Z.pow_nonneg; lia).
      rewrite Hr by nia. rewrite Hone by nia. f_equal. lia.
Qed.

Lemma utohex_spec up n : urange 64 n ->
  utohex n up <> [] /\ Forall (fun c => exists d, 0 <= d < 16 /\ c = hex_char up d) (utohex n up) /\
  forall rest, hex_mantissa (utohex n up ++ rest) 0 false false = hex_mantissa rest n true false.
Proof.
  unfold urange, utohex. intros Hn. destruct (Z.eqb_spec n 0) as [->|].
  - split_and!; [done| |done]. repeat constructor. by exists 0.
  - destruct (utohex_loop_spec up 32 n []) as (ds & -> & Hne & Hall & Hr); [lia|lia|]. rewrite app_nil_r.
    split_and!; [done..|]. intros rest. by rewrite Hr by lia.
Qed.

(** ** Reading runs of digits *)

Lemma span_app f a b : Forall (fun c => f c = true) a -> match b with c :: _ => f c = false | [] => True end ->
  span f (a ++ b) = (a, b).
Proof.
  intros Ha Hb. induction Ha as [|c a Hc Ha IH]; cbn [app span].
  - destruct b as [|c b]; [done|]. cbn [span]. by rewrite Hb.
  - by rewrite Hc, IH.
Qed.

Lemma base10_digit c : is_base 10 c -> is_ascii_digit c = true.
Proof. unfold is_base, is_ascii_digit, in_range. intros. by destruct (Z.leb_spec 48 c), (Z.leb_spec c 57); try lia. Qed.

Lemma digit_base10 c : is_ascii_digit c = true -> is_base 10 c.
Proof. unfold is_base, is_ascii_digit, in_range. destruct (Z.leb_spec 48 c), (Z.leb_spec c 57); cbn; try done; lia. Qed.

Lemma base10_digits ds : Forall (is_base 10) ds -> Forall (fun c => is_ascii_digit c = true) ds.
Proof. intros H. eapply Forall_impl; [exact H|apply base10_digit]. Qed.

(** What a digit is not. *)
Lemma digit_facts c : is_base 10 c ->
  is_sign c = false /\ (c =? 46) = false /\ (c =? 95) = false /\ is_u c = false /\ is_l c = false /\
  is_ascii_whitespace c = false /\ forall l, 97 <= l -> is_letter l c = false.
Proof.
  unfold is_base, is_sign, is_u, is_l, is_ascii_whitespace, is_letter. intros H.
  split_and!; intros; repeat match goal with |- context [Z.eqb c ?b] => destruct (Z.eqb_spec c b); [lia|] end; try done.
  destruct (Z.eqb_spec (Z.lor c 32) l) as [E|]; [|done].
  assert (c = 48 \/ c = 49 \/ c = 50 \/ c = 51 \/ c = 52 \/ c = 53 \/ c = 54 \/ c = 55 \/ c = 56 \/ c = 57) as Hc by lia.
  assert (Z.lor c 32 < 97); [|lia]. clear E H.
  repeat (destruct Hc as [->|Hc]; [reflexivity|]). by subst.
Qed.

Lemma parse_f64_digits ds : ds <> [] -> Forall (is_base 10) ds -> parse_f64 ds = Some (f64_of_Z (dec_value ds)).
Proof.
  intros Hne Hds. destruct ds as [|c ds]; [done|]. pose proof (Forall_inv Hds) as Hc.
  unfold parse_f64.
  assert (strip_sign (c :: ds) = (false, c :: ds)) as ->.
  { unfold is_base in Hc. cbn [strip_sign]. by destruct (Z.eqb_spec c 45), (Z.eqb_spec c 43); [lia..|]. }
  assert (forall w, map to_ascii_lowercase (c :: ds) = 105 :: w \/ map to_ascii_lowercase (c :: ds) = 110 :: w -> False) as Hw.
  { intros w. unfold is_base, to_ascii_lowercase, is_ascii_uppercase, in_range in *. cbn [map].
    destruct (Z.leb_spec 65 c), (Z.leb_spec c 90); cbn [andb]; intros [[= H1 _]|[= H1 _]]; lia. }
  destruct (decide _) as [E|_]; [exfalso; apply (Hw (lit "nf")); by left|].
  destruct (decide _) as [E|_]; [exfalso; apply (Hw (lit "nfinity")); by left|].
  destruct (decide _) as [E|_]; [exfalso; apply (Hw (lit "an")); by right|].
  unfold parse_magnitude. rewrite <- (app_nil_r (c :: ds)), span_app, app_nil_r by (by apply base10_digits || done).
  cbn [parse_exp]. change (zlen []) with 0.
  cbn [strip app]. rewrite app_nil_r. change (parse_exp []) with (Some 0). change (0 - zlen []) with 0.
  cbv iota. unfold dec_to_f64. change (0 <=? 0) with true. change (10 ^ 0) with 1. cbv iota. rewrite Z.mul_1_r.
  destruct (Z.eqb_spec (dec_value (c :: ds)) 0) as [->|]; done.
Qed.

Lemma dec_shape_digits us ds q : Forall (is_base 10) ds -> seen_exp q = false ->
  dec_shape us ds q = Some (match ds with [] => q | _ => mkShape true (seen_dot q) false (exp_digits q) end).
Proof.
  intros H. revert q. induction H as [|c ds Hc H IH]; intros q Hq; [done|]. cbn [dec_shape].
  rewrite base10_digit, Hq by done. rewrite IH by done. by destruct ds.
Qed.

Lemma dec_token_digits ds a x : Forall (is_base 10) ds -> (forall c r, x = c :: r -> is_ascii_whitespace c = true) ->
  dec_token_loop (ds ++ x) a false = (length ds, match ds with [] => a | _ => true end).
Proof.
  intros H Hx. revert a. induction H as [|c ds Hc H IH]; intros a; cbn [app length].
  - destruct x as [|c x]; [done|]. specialize (Hx c x eq_refl). cbn [dec_token_loop].
    unfold is_ascii_whitespace in Hx. unfold is_ascii_digit, in_range, is_letter.
    assert (c = 32 \/ c = 9 \/ c = 10 \/ c = 12 \/ c = 13) as Hc.
    { repeat match goal with H : context [Z.eqb c ?b] |- _ => destruct (Z.eqb_spec c b); [lia|] end. done. }
    by repeat destruct Hc as [->|Hc]; [..|subst].
  - cbn [dec_token_loop]. rewrite base10_digit by done. rewrite IH. by destruct ds.
Qed.

Lemma skip_leading_space_app ws s : Forall (fun c => is_ascii_whitespace c = true) ws ->
  skip_leading_space (ws ++ s) = skip_leading_space s.
Proof. induction 1 as [|c ws Hc H IH]; [done|]. cbn [app skip_leading_space]. by rewrite Hc. Qed.

Lemma dec_value_sign (neg : bool) v : 0 <= v < 2 ^ 53 -> (neg = true -> 0 < v) ->
  (if neg then f64_neg (f64_of_Z v) else f64_of_Z v) = f64_of_int (if neg then - v else v).
Proof.
  intros Hv Hn. rewrite f64_of_Z_small by lia. destruct neg; [|done]. rewrite f64_of_int_opp by (specialize (Hn eq_refl); lia). done.
Qed.

(** An integer with a sign and white space around it. *)
Lemma scan_number_int ws sg ds x : Forall (fun c => is_ascii_whitespace c = true) ws ->
  sg = [] \/ sg = [43] \/ sg = [45] -> ds <> [] -> Forall (is_base 10) ds ->
  Forall (fun c => is_ascii_whitespace c = true) x ->
  scan_number (ws ++ sg ++ ds ++ x) =
    Some (if bool_decide (sg = [45]) then f64_neg (f64_of_Z (dec_value ds)) else f64_of_Z (dec_value ds)).
Proof.
  intros Hws Hsg Hne Hds Hx. unfold scan_number. rewrite skip_leading_space_app by done.
  destruct ds as [|d ds]; [done|]. pose proof (Forall_inv Hds) as Hd.
  destruct (digit_facts d Hd) as (F1 & _ & _ & _ & _ & F6 & F7).
  assert (Hx' : forall c r, x = c :: r -> is_ascii_whitespace c = true) by (intros c r ->; by apply (Forall_inv Hx)).
  assert (Htok : dec_token_len (sg ++ (d :: ds) ++ x) = length (sg ++ d :: ds)).
  { destruct Hsg as [->|[->| ->]]; cbn [app]; unfold dec_token_len;
      [rewrite F1|change (is_sign 43) with true|change (is_sign 45) with true]; cbv iota;
      change (d :: ds ++ x) with ((d :: ds) ++ x); by rewrite dec_token_digits. }
  assert (Hspace : forall s, skip_leading_space (sg ++ (d :: ds) ++ s) = sg ++ (d :: ds) ++ s).
  { intros s. destruct Hsg as [->|[->| ->]]; [|done..]. cbn [app skip_leading_space]. by rewrite F6. }
  assert (Hhex : has_prefix 120 (sg ++ (d :: ds) ++ x) = false).
  { destruct Hsg as [->|[->| ->]]; [|done..]. cbn [app has_prefix].
    assert (match ds ++ x with b :: _ => is_letter 120 b = false | [] => True end) as Hb.
    { destruct ds as [|b ds]; cbn [app].
      - destruct x as [|b x]; [done|]. specialize (Hx' b x eq_refl). unfold is_ascii_whitespace in Hx'. unfold is_letter.
        assert (b = 32 \/ b = 9 \/ b = 10 \/ b = 12 \/ b = 13) as Hc.
        { repeat match goal with H : context [Z.eqb b ?c] |- _ => destruct (Z.eqb_spec b c); [lia|] end. done. }
        by repeat destruct Hc as [->|Hc]; [..|subst].
      - apply digit_facts; [|lia]. by apply (Forall_inv (Forall_inv_tail Hds)). }
    destruct (ds ++ x) as [|b r]; [done|]. rewrite Hb. apply andb_false_r. }
  rewrite Hspace. destruct (sg ++ (d :: ds) ++ x) as [|c r] eqn:Eall; [by destruct sg|]. rewrite <- Eall in Hhex, Htok |- *.
  rewrite Hhex, Htok. replace (length (sg ++ d :: ds) =? 0)%nat with false by (rewrite length_app; cbn [length]; by destruct (length sg)).
  rewrite app_assoc, drop_app_length, take_app_length.
  assert (skip_leading_space x = []) as ->.
  { rewrite <- (app_nil_r x). by rewrite skip_leading_space_app. }
  unfold scan_dec. assert (strip_sign (sg ++ d :: ds) = (bool_decide (sg = [45]), d :: ds)) as ->.
  { destruct Hsg as [->|[->| ->]]; [|done..]. unfold is_base in Hd. cbn [app strip_sign].
    by destruct (Z.eqb_spec d 45), (Z.eqb_spec d 43); [lia..|]. }
  rewrite dec_shape_digits by done. cbn -[parse_f64 dec_value f64_of_Z]. rewrite parse_f64_digits by done. done.
Qed.

Lemma dec_value_read neg v ds : 0 <= v < 2 ^ 53 -> (neg = true -> 0 < v) -> base_value 10 ds 0 = v ->
  (if neg then f64_neg (f64_of_Z (dec_value ds)) else f64_of_Z (dec_value ds)) = f64_of_int (if neg : bool then - v else v).
Proof.
  intros Hv Hn E. change (dec_value ds) with (base_value 10 ds 0). rewrite E, f64_of_Z_small by lia.
  destruct neg; [|done]. rewrite f64_of_int_opp by (specialize (Hn eq_refl); lia). done.
Qed.

(** Digits with a sign, zeroes and white space around them. *)
Lemma scan_number_padded ws sg n ds x k : Forall (fun c => is_ascii_whitespace c = true) ws ->
  sg = [] \/ sg = [43] \/ sg = [45] -> ds <> [] -> Forall (is_base 10) ds ->
  Forall (fun c => is_ascii_whitespace c = true) x ->
  Z.abs k < 2 ^ 53 -> base_value 10 ds 0 = Z.abs k -> (sg = [45] <-> k < 0) ->
  scan_number (ws ++ sg ++ (replicate n 48 ++ ds) ++ x) = Some (f64_of_int k).
Proof.
  intros Hws Hsg Hne Hds Hx Hk Hv Hneg. rewrite scan_number_int; [|done|done| | |done].
  - f_equal. rewrite <- (bool_decide_eq_true (sg = [45])) in Hneg.
    rewrite (dec_value_read (bool_decide (sg = [45])) (Z.abs k)); [|lia|intros E%Hneg; lia|by rewrite base_value_zeros].
    f_equal. destruct (bool_decide (sg = [45])); [pose proof (proj1 Hneg eq_refl); lia|].
    destruct (Z.ltb_spec k 0); [by pose proof (proj2 Hneg ltac:(lia))|lia].
  - by destruct ds, n.
  - apply Forall_app. split; [|done]. apply Forall_replicate. unfold is_base. lia.
Qed.

Lemma spaces_blank n : Forall (fun c => is_ascii_whitespace c = true) (replicate n 32).
Proof. by apply Forall_replicate. Qed.

Lemma push_padded_read s k ds : ds <> [] -> Forall (is_base 10) ds -> Z.abs k < 2 ^ 53 -> base_value 10 ds 0 = Z.abs k ->
  scan_number (push_padded [] s ds (sign_of s (k <? 0)) false) = Some (f64_of_int k).
Proof.
  intros Hne Hds Hk Hv. unfold push_padded, sign_of.
  set (sg0 := if k <? 0 then 45 else _).
  assert (exists sp sg, (if sg0 =? 0 then [] else [sg0]) = sp ++ sg /\ (sp = [] \/ sp = [32]) /\
    (sg = [] \/ sg = [43] \/ sg = [45]) /\ (sg = [45] <-> k < 0)) as (sp & sg & -> & Hsp & Hsg & Hneg).
  { subst sg0. destruct (Z.ltb_spec k 0); [|destruct (plus s); [|destruct (space s)]]; cbn [Z.eqb].
    - exists [], [45]. split_and!; [done|by left|by do 2 right|split; [lia|done]].
    - exists [], [43]. split_and!; [done|by left|by right; left|split; [done|lia]].
    - exists [32], []. split_and!; [done|by right|by left|split; [done|lia]].
    - exists [], []. split_and!; [done|by left|by left|split; [done|lia]]. }
  assert (Hb : Forall (fun c => is_ascii_whitespace c = true) sp) by (destruct Hsp as [->| ->]; by repeat constructor).
  destruct (_ && _).
  - cbn [app]. rewrite <- (app_nil_r (replicate _ 48 ++ ds)), <- app_assoc. by apply scan_number_padded.
  - cbn [app]. destruct (left_ s); rewrite <- app_assoc.
    + change ds with (replicate 0 48 ++ ds). apply scan_number_padded; try done. apply spaces_blank.
    + rewrite app_assoc. change ds with (replicate 0 48 ++ ds). rewrite <- (app_nil_r (replicate 0 48 ++ ds)).
      apply scan_number_padded; try done. apply Forall_app. split; [apply spaces_blank|done].
Qed.

Lemma compile_spec sp : spec_span (sp ++ [100]) = (sp, [100]) ->
  compile (37 :: sp ++ [100]) = Some (inl [Conv (parse_spec_bytes sp) 100]).
Proof.
  intros H. unfold compile. cbn [length compile_loop]. change (37 =? 37) with true. cbv iota.
  assert (strip 37 (sp ++ [100]) = None) as ->.
  { destruct sp as [|c sp]; [done|]. cbn [app strip]. destruct (Z.eqb_spec c 37) as [->|]; [done|done]. }
  by rewrite H.
Qed.



(** [tostring] of an integer double is read back by [tonumber] as the same double. *)
Theorem tostring_read k : Z.abs k < 2 ^ 53 ->
  exists t, g14 (f64_of_int k) = Some t /\ scan_number t = Some (f64_of_int k).
Proof.
  intros Hk. unfold g14, g14_to_buf. destruct (decide (k = 0)) as [->|Hz].
  { exists [48]. split; [done|]. vm_compute. done. }
  destruct (f64_eq (f64_of_int k) 0) eqn:E0.
  { apply (f64_eq_of_int k 0) in E0; [|done|done]. destruct E0 as [E0|[-> _]]; [|done].
    destruct (f64_of_int_pack k ltac:(lia)) as (Hd & Hm & E). rewrite <- E0 in E. symmetry in E.
    pose proof (f64_pack (k <? 0) (Z.log2 (Z.abs k) + 1023) (Z.abs k * 2 ^ (52 - Z.log2 (Z.abs k)) - 2 ^ 52)
      ltac:(lia) ltac:(lia)) as (_ & _ & He & _). rewrite E in He. change (f64_exp 0) with 0 in He. lia. }
  destruct (SF_of_f64_of_int k ltac:(lia)) as (m & Em & _). cbv zeta in Em.
  unfold f64_is_nan. rewrite Em. rewrite f64_to_i64_of_int, f64_of_Z_small by done.
  assert (f64_eq (f64_of_int k) (f64_of_int k) = true) as ->.
  { apply f64_eq_of_int; [done|by apply f64_of_int_range|by left]. }
  destruct (Z.ltb_spec (Z.abs k) (2 ^ 53)); [|lia]. cbn [andb].
  eexists. split; [reflexivity|].
  destruct (itoa_i64_spec k) as (ds & -> & H1 & H2 & H3); [unfold srange; lia|].
  rewrite <- (app_nil_l ((if k <? 0 then [45] else []) ++ ds)), <- (app_nil_r ds).
  change ds with (replicate 0 48 ++ ds).
  apply scan_number_padded; try done; destruct (Z.ltb_spec k 0); [by do 2 right|by left|split; [lia|done]|split; [done|lia]].
Qed.

Lemma tostring_read_witness :
  exists t, g14 (f64_of_int (-9007199254740991)) = Some t /\ scan_number t = Some (f64_of_int (-9007199254740991)).
Proof. apply tostring_read. lia. Defined.
