(* ===== verification/ScanSpec.v ===== *)
(** * The two scanners of util/strscan.rs

    Integer literals are exact; both scanners read the same decimals. *)

From Stdlib Require Import ZArith Lia Bool SpecFloat String.
From stdpp Require Import base decidable numbers option list.
From S2P Require Import Prelude Float64 PatClass FloatText StrScan StrFmt NumSpec.

(** ** Suffixes *)

Definition suffix_text (x : NumSuffix.t) : list Z :=
  match x with
  | NumSuffix.None => [] | NumSuffix.Ll => lit "LL" | NumSuffix.Ull => lit "ULL" | NumSuffix.Imag => lit "i"
  end.

(** A character that cannot end a suffix. *)
Definition plain (c : Z) : Prop := is_letter 105 c = false /\ is_l c = false /\ is_u c = false.

Lemma split_suffix_plain s : Forall plain s -> split_suffix s = (s, NumSuffix.None).
Proof.
  intros H. apply Forall_rev in H. unfold split_suffix. destruct (rev s) as [|c r]; [done|].
  apply Forall_cons in H as [(Hi & Hl & _) H]. rewrite Hi, Hl.
  destruct r as [|b [|a r]]; [done| |]; by rewrite !andb_false_r.
Qed.

Lemma split_suffix_text s x : Forall plain s -> split_suffix (s ++ suffix_text x) = (s, x).
Proof.
  intros H. destruct x; [rewrite app_nil_r; by apply split_suffix_plain| | |]; unfold split_suffix;
    rewrite rev_app_distr.
  - change (rev (suffix_text NumSuffix.Ll)) with [76; 76]. cbn [app]. apply Forall_rev in H. change (is_letter 105 76) with false. change (is_l 76) with true. cbv iota.
    pose proof (rev_involutive s) as E. destruct (rev s) as [|a r]; [by subst s|].
    apply Forall_cons in H as [(_ & _ & Hu) _]. rewrite Hu. cbn [andb]. by rewrite E.
  - change (rev (suffix_text NumSuffix.Ull)) with [76; 76; 85]. cbn [app].
    change (is_letter 105 76) with false. change (is_l 76) with true. change (is_u 85) with true. cbn [andb].
    by rewrite rev_involutive.
  - change (rev (suffix_text NumSuffix.Imag)) with [105]. cbn [app]. change (is_letter 105 105) with true. cbv iota. by rewrite rev_involutive.
Qed.

Lemma digit_plain c : is_base 10 c -> plain c.
Proof. intros H. destruct (digit_facts c H) as (_ & _ & _ & Hu & Hl & _ & Hx). split_and!; [apply Hx; lia|done|done]. Qed.

Lemma hex_plain up d : 0 <= d < 16 -> plain (hex_char up d).
Proof.
  intros Hd. unfold plain.
  assert (d = 0 \/ d = 1 \/ d = 2 \/ d = 3 \/ d = 4 \/ d = 5 \/ d = 6 \/ d = 7 \/ d = 8 \/ d = 9 \/ d = 10 \/
    d = 11 \/ d = 12 \/ d = 13 \/ d = 14 \/ d = 15) as Hin by lia.
  repeat (destruct Hin as [->|Hin]; [by destruct up|]). subst d. by destruct up.
Qed.

(** ** Integer literals *)

Lemma dec_shape_us_digits ds : ds <> [] -> Forall (is_base 10) ds ->
  dec_shape true ds no_shape = Some (mkShape true false false false).
Proof. intros Hne H. rewrite dec_shape_digits by done. by destruct ds. Qed.

Lemma dec_u64_value ds v : Forall (is_base 10) ds -> 0 <= v -> base_value 10 ds v < 2 ^ 64 -> dec_u64 ds v = base_value 10 ds v.
Proof.
  intros H. revert v. induction H as [|c ds Hc H IH]; intros v Hv Hb; [done|]. cbn [dec_u64].
  destruct (digit_facts c Hc) as (_ & _ & -> & _).
  unfold is_base in Hc. change (base_value 10 (c :: ds) v) with (base_value 10 ds (v * 10 + (c - 48))) in *.
  assert (v * 10 + (c - 48) <= base_value 10 ds (v * 10 + (c - 48))).
  { assert (forall l x, Forall (is_base 10) l -> 0 <= x -> x <= base_value 10 l x) as Hmono.
    { clear. intros l x H. revert x. induction H as [|c l Hc H IH]; intros x Hx; [done|].
      change (base_value 10 (c :: l) x) with (base_value 10 l (x * 10 + (c - 48))). unfold is_base in Hc.
      specialize (IH (x * 10 + (c - 48)) ltac:(lia)). lia. }
    apply Hmono; [done|lia]. }
  rewrite !uwrap_small by (unfold urange; rewrite ?uwrap_small; unfold urange; lia). apply IH; [lia|done].
Qed.

Lemma has_prefix_digits l ds : 97 <= l -> Forall (is_base 10) ds -> has_prefix l ds = false.
Proof.
  intros Hl H. destruct ds as [|a [|b ds]]; [done|done|]. cbn [has_prefix].
  apply Forall_inv_tail, Forall_inv in H. destruct (digit_facts b H) as (_ & _ & _ & _ & _ & _ & Hx).
  rewrite Hx by done. apply andb_false_r.
Qed.

(** An integer literal of 64 bits, decimal or hexadecimal, with or without the suffix
    LL or ULL, scans to exactly that integer, and to the double nearest to it. *)
Lemma integer_literal n hex up x : urange 64 n -> x <> NumSuffix.Imag ->
  scan_number_full ((if hex : bool then lit "0x" ++ utohex n up else dec_digits n) ++ suffix_text x) =
    Some (mkResult (f64_of_Z n) n x).
Proof.
  intros Hn Hx. unfold scan_number_full.
  assert (forall body u, body <> [] -> Forall plain body ->
    (if has_prefix 120 body then scan_hex_to_u64 (drop 2 body)
     else if has_prefix 98 body then let? u := scan_bin_to_u64 (drop 2 body) in Some (u, true)
     else scan_dec_to_f64 body) = Some (u, false) ->
    match body ++ suffix_text x with [] => None | _ =>
      let '(body, suffix) := split_suffix (body ++ suffix_text x) in
      let? ' (u, is_float) :=
        if has_prefix 120 body then scan_hex_to_u64 (drop 2 body)
        else if has_prefix 98 body then let? u := scan_bin_to_u64 (drop 2 body) in Some (u, true)
        else scan_dec_to_f64 body in
      let? n := if is_float && (bool_decide (suffix = NumSuffix.None) || bool_decide (suffix = NumSuffix.Imag))
                then parse_f64 body else Some (f64_of_Z u) in
      let u := if decide (suffix = NumSuffix.Imag) then n else u in
      Some (mkResult n u suffix)
    end = Some (mkResult (f64_of_Z u) u x)) as Hmain.
  { intros body u Hne Hp E. rewrite split_suffix_text by done. rewrite E.
    destruct (decide (x = NumSuffix.Imag)); [done|]. by destruct body. }
  destruct hex.
  - destruct (utohex_spec up n Hn) as (Hne & Hall & Hr).
    apply Hmain; [done| |].
    + apply Forall_app. split; [by repeat constructor|]. eapply Forall_impl; [exact Hall|].
      intros c (d & Hd & ->). by apply hex_plain.
    + change (has_prefix 120 (lit "0x" ++ utohex n up)) with true. cbv iota.
      change (drop 2 (lit "0x" ++ utohex n up)) with (utohex n up). unfold scan_hex_to_u64.
      specialize (Hr []). rewrite app_nil_r in Hr. by rewrite Hr.
  - destruct (dec_digits_spec n) as (Hne & Hds & Hv); [unfold urange in Hn; lia|].
    apply Hmain; [done|eapply Forall_impl; [exact Hds|apply digit_plain]|].
    rewrite !has_prefix_digits by (done || lia). unfold scan_dec_to_f64. rewrite dec_shape_us_digits by done.
    cbn [seen_digit seen_dot seen_exp exp_digits negb andb orb].
    rewrite dec_u64_value by (done || (unfold urange in Hn; lia)). by rewrite Hv.
Qed.

(** Beyond 64 bits a literal wraps, where the conversion of a string rounds. *)
Lemma literal_wraps :
  option_map r_n (scan_number_full (lit "100000000000000000000")) = Some (f64_of_Z 7766279631452241920) /\
  scan_number (lit "100000000000000000000") = Some (f64_of_Z (10 ^ 20)).
Proof. split; vm_compute; reflexivity. Qed.

(** A hexadecimal string is never a number, and a hexadecimal float never a literal. *)
Lemma hexadecimal_rejected :
  scan_number (lit "0x10") = None /\ scan_number_full (lit "0x1p4") = None /\ scan_number_full (lit "0x1.8") = None /\
  scan_hex_to_u64 (lit "1p4") = Some (16, true).
Proof. split_and!; vm_compute; reflexivity. Qed.

(** ** The two scanners agree on decimals *)

(** What a decimal is made of: digits, a point, an exponent. *)
Definition dec_char (c : Z) : bool := is_ascii_digit c || (c =? 46) || is_letter 101 c || is_sign c.

Lemma dec_char_facts c : urange 8 c -> dec_char c = true ->
  plain c /\ (c =? 95) = false /\ is_ascii_whitespace c = false /\ is_letter 120 c = false /\ is_letter 98 c = false.
Proof.
  intros Hc Hd. unfold plain.
  pose proof (byte_test (fun c => negb (dec_char c) || (negb (is_letter 105 c) && negb (is_l c) && negb (is_u c) && negb (c =? 95) &&
    negb (is_ascii_whitespace c) && negb (is_letter 120 c) && negb (is_letter 98 c))) ltac:(vm_compute; reflexivity) c Hc) as H.
  cbv beta in H. rewrite Hd in H. cbn [negb orb] in H. rewrite !andb_true_iff, !negb_true_iff in H. tauto.
Qed.

Lemma dec_shape_bool us s : Forall (fun c => (c =? 95) = false) s -> forall q, dec_shape us s q = dec_shape false s q.
Proof.
  destruct us; [|done]. intros H. induction s as [s IH] using (induction_ltof1 _ (@length Z)). intros q.
  destruct s as [|c s]; [done|]. apply Forall_cons in H as [Hc H]. cbn [dec_shape].
  assert (Hs : forall q, dec_shape true s q = dec_shape false s q) by (apply IH; [unfold ltof; cbn; lia|done]).
  rewrite Hc, !Hs. destruct (is_ascii_digit c); [done|]. destruct (c =? 46); [done|].
  destruct (is_letter 101 c); [|done]. destruct (_ || _); [done|]. destruct s as [|x s]; [done|].
  destruct (is_sign x); [|done]. apply IH; [unfold ltof; cbn; lia|]. by apply Forall_inv_tail in H.
Qed.

Lemma filter_no_underscore s : Forall (fun c => (c =? 95) = false) s -> List.filter (fun c => negb (c =? 95)) s = s.
Proof. induction 1 as [|c s Hc H IH]; [done|]. cbn [List.filter]. by rewrite Hc, IH. Qed.

(** What the shape check accepts, the token loop consumes. *)
Lemma dec_shape_token s : forall q q', dec_shape false s q = Some q' -> (seen_exp q = true -> seen_digit q = true) ->
  dec_token_loop s (seen_digit q || seen_dot q) (seen_exp q) = (length s, seen_digit q' || seen_dot q') /\
  (seen_digit q = true -> seen_digit q' = true) /\ (seen_exp q = true -> seen_exp q' = true) /\
  (seen_dot q = true -> seen_dot q' = true).
Proof.
  induction s as [s IH] using (induction_ltof1 _ (@length Z)). intros q q' E Hq. revert E.
  destruct s as [|c s]; [by intros [= <-]|]. cbn [dec_shape dec_token_loop length].
  assert (IHs : forall q, dec_shape false s q = Some q' -> (seen_exp q = true -> seen_digit q = true) ->
    dec_token_loop s (seen_digit q || seen_dot q) (seen_exp q) = (length s, seen_digit q' || seen_dot q') /\
    (seen_digit q = true -> seen_digit q' = true) /\ (seen_exp q = true -> seen_exp q' = true) /\
    (seen_dot q = true -> seen_dot q' = true)) by (intros; apply IH; [unfold ltof; cbn; lia|done|done]).
  destruct q as [sd sp se ed]. cbn [seen_digit seen_dot seen_exp exp_digits] in *.
  destruct (is_ascii_digit c).
  - intros E. destruct se.
    + assert (sd = true) as -> by auto. destruct (IHs _ E ltac:(done)) as (E1 & E2). cbn in E1. rewrite E1. done.
    + destruct (IHs _ E ltac:(done)) as (E1 & E2 & E3 & E4). cbn in E1. rewrite E1. auto.
  - destruct (c =? 46).
    + destruct sp, se; cbn [orb]; try done. intros E.
      destruct (IHs _ E ltac:(done)) as (E1 & E2 & E3 & E4). cbn in E1. rewrite orb_true_r in E1. rewrite E1. auto.
    + destruct (is_letter 101 c); [|done]. destruct se, sd; cbn [orb negb]; try done. destruct s as [|x s].
      * intros [= <-]. done.
      * destruct (is_sign x); intros E.
        -- destruct (IH s ltac:(unfold ltof; cbn; lia) _ q' E ltac:(done)) as (E1 & E2 & E3 & E4).
           cbn in E1. rewrite E1. cbn in *. auto.
        -- destruct (IHs _ E ltac:(done)) as (E1 & E2 & E3 & E4). cbn in E1 |- *. rewrite E1. auto.
Qed.

Lemma dec_shape_no_digit s q' : dec_shape false s no_shape = Some q' -> seen_digit q' = false -> s = [] \/ s = [46].
Proof.
  intros E Hd. destruct s as [|c s]; [by left|]. right. cbn [dec_shape no_shape seen_digit seen_dot seen_exp exp_digits] in E.
  destruct (is_ascii_digit c) eqn:Ec.
  { apply dec_shape_token in E as (_ & H & _); [|done]. by rewrite H in Hd. }
  destruct (Z.eqb_spec c 46) as [->|]; cbn [orb] in E; [|by destruct (is_letter 101 c)].
  destruct s as [|d s]; [done|]. cbn [dec_shape seen_digit seen_dot seen_exp exp_digits] in E.
  destruct (is_ascii_digit d); [|by destruct (d =? 46), (is_letter 101 d)].
  apply dec_shape_token in E as (_ & H & _); [|done]. by rewrite H in Hd.
Qed.

Lemma dec_shape_integer s : forall q q', dec_shape false s q = Some q' -> seen_exp q = false ->
  (seen_exp q = true -> seen_digit q = true) -> seen_dot q' = false -> seen_exp q' = false -> Forall (is_base 10) s.
Proof.
  induction s as [|c s IH]; intros q q' E Hq Hq2 Hd He; [done|]. cbn [dec_shape] in E. rewrite Hq in E.
  destruct (is_ascii_digit c) eqn:Ec.
  { constructor; [by apply digit_base10|]. by eapply IH. }
  destruct (c =? 46).
  { destruct (seen_dot q); [done|]. apply dec_shape_token in E as (_ & _ & _ & H); [|done]. by rewrite H in Hd. }
  destruct (is_letter 101 c); [|done]. destruct (seen_digit q) eqn:Esd; [|done]. cbn [orb negb] in E.
  destruct s as [|x s]; [by injection E as <-|].
  destruct (is_sign x); apply dec_shape_token in E as (_ & _ & H & _); try done; by rewrite H in He.
Qed.

(** C34. A decimal (digits, a point, an exponent, no sign in front) is the same number as a literal of a
    program and as a string in arithmetic or [tonumber], malformed ones being rejected by both, as long
    as an integer fits 64 bits. *)
Theorem literals_and_strings_agree s : Forall (urange 8) s -> Forall (fun c => dec_char c = true) s ->
  match s with c :: _ => is_sign c = false | [] => True end ->
  (Forall (is_base 10) s -> dec_value s < 2 ^ 64) ->
  scan_number s = option_map r_n (scan_number_full s).
Proof.
  intros Hb Hd Hs Hv. destruct s as [|c r] eqn:Es; [done|]. rewrite <- Es in *.
  assert (Hf : Forall (fun c => plain c /\ (c =? 95) = false /\ is_ascii_whitespace c = false /\
    is_letter 120 c = false /\ is_letter 98 c = false) s).
  { rewrite Forall_forall in *. intros x Hx. apply dec_char_facts; auto. }
  assert (Hskip : forall n, skip_leading_space (drop n s) = drop n s).
  { intros n. destruct (drop n s) as [|x t] eqn:E; [done|]. cbn [skip_leading_space].
    pose proof (Forall_drop _ n s Hf) as Hn. rewrite E in Hn. destruct (Forall_inv Hn) as (_ & _ & Hw & _). by rewrite Hw. }
  assert (has_prefix 120 s = false /\ has_prefix 98 s = false) as [Hx Hbn].
  { destruct s as [|a [|b t]]; [done|done|]. cbn [has_prefix]. apply Forall_inv_tail, Forall_inv in Hf.
    destruct Hf as (_ & _ & _ & -> & ->). by rewrite andb_false_r. }
  assert (Hsuf : split_suffix s = (s, NumSuffix.None)).
  { apply split_suffix_plain. eapply Forall_impl; [exact Hf|]. intros x Hq. apply Hq. }
  assert (Hus : Forall (fun c => (c =? 95) = false) s) by (eapply Forall_impl; [exact Hf|]; intros x Hq; apply Hq).
  assert (Hsgn : strip_sign s = (false, s)).
  { rewrite Es. cbn [strip_sign]. unfold is_sign in Hs. by destruct (c =? 45), (c =? 43). }
  assert (Hlen : dec_token_len s = let '(n, a) := dec_token_loop s false false in if a then n else 0%nat).
  { rewrite Es. unfold dec_token_len. by rewrite Hs. }
  assert (scan_number s = if (dec_token_len s =? 0)%nat then None
    else match drop (dec_token_len s) s with _ :: _ => None | [] => scan_dec (take (dec_token_len s) s) end) as ->.
  { unfold scan_number. pose proof (Hskip 0%nat) as H0. change (drop 0 s) with s in H0. rewrite H0, Es. cbv iota.
    rewrite <- Es, Hx, Hskip. done. }
  assert (option_map r_n (scan_number_full s) =
    let? ' (u, is_float) := scan_dec_to_f64 s in if is_float : bool then parse_f64 s else Some (f64_of_Z u)) as ->.
  { unfold scan_number_full. rewrite Es. cbv iota. rewrite <- Es, Hsuf, Hx, Hbn.
    destruct (scan_dec_to_f64 s) as [[u []]|]; [|done|done]. cbn. by destruct (parse_f64 s). }
  unfold scan_dec_to_f64. rewrite dec_shape_bool, filter_no_underscore by done. rewrite Hlen.
  destruct (dec_shape false s no_shape) as [q|] eqn:Eq.
  - destruct (dec_shape_token s no_shape q Eq ltac:(done)) as (Et & _). cbn [no_shape seen_digit seen_dot seen_exp orb] in Et.
    rewrite Et. destruct (seen_digit q) eqn:Esd; cbn [orb negb].
    + replace (length s =? 0)%nat with false by (rewrite Es; done). rewrite drop_all, take_ge by lia.
      unfold scan_dec. rewrite Hsgn, Eq, Esd. cbn [negb andb orb].
      destruct (seen_exp q && negb (exp_digits q)) eqn:Ee; [done|].
      destruct (seen_dot q || seen_exp q) eqn:Ede; [by destruct (parse_f64 s)|].
      apply orb_false_iff in Ede as [E1 E2].
      assert (Hds : Forall (is_base 10) s) by (by eapply dec_shape_integer).
      rewrite parse_f64_digits by (done || by rewrite Es).
      rewrite dec_u64_value; [done|done|lia|]. by apply Hv.
    + destruct (seen_dot q); [|done]. destruct (dec_shape_no_digit s q Eq Esd) as [E1|E1]; [by rewrite E1 in Es|].
      rewrite E1. done.
  - destruct (dec_token_loop s false false) as [n a]. destruct a; [|done].
    destruct (n =? 0)%nat; [done|]. destruct (drop n s) eqn:E; [|done].
    assert (Hn : (length s <= n)%nat).
    { pose proof (length_drop s n) as L. rewrite E in L. cbn in L. lia. }
    rewrite take_ge by done. unfold scan_dec. by rewrite Hsgn, Eq.
Qed.

Lemma literals_and_strings_agree_witness :
  scan_number (lit "6.02e+23") = option_map r_n (scan_number_full (lit "6.02e+23")) /\
  scan_number (lit "1.5e") = option_map r_n (scan_number_full (lit "1.5e")) /\
  scan_number_full (lit "1.5e") = None.
Proof.
  assert (forall s, forallb (fun c => (0 <=? c) && (c <? 256)) s = true -> Forall (urange 8) s) as Hb.
  { intros s H. rewrite forallb_forall in H.
    apply List.Forall_forall. intros x Hx. specialize (H x Hx). unfold urange. lia. }
  split; [|split; [|vm_compute; reflexivity]]; apply literals_and_strings_agree; try done;
    try (apply Hb; vm_compute; reflexivity); try (repeat constructor; vm_compute; reflexivity);
    intros H; exfalso; repeat (apply Forall_cons in H as [? H]; try (unfold is_base in *; lia)).
Defined.
