(* ===== verification/FmtSpec.v ===== *)
(** * [string.format] does not panic, and copies literal text

    The exponent form has one digit before the point, which makes the buffers
    of [g14] large enough and its [unwrap]s succeed. *)

From Stdlib Require Import ZArith Lia Bool SpecFloat String.
From stdpp Require Import base decidable numbers option list.
From S2P Require Import Prelude Float64 PatClass FloatText StrScan StrFmt NumSpec.

(** ** The decimal exponent *)

(** [10^k <= m * 2^e], cross-multiplied. *)
Definition pow_le (k m e : Z) : Prop :=
  10 ^ Z.max 0 k * 2 ^ Z.max 0 (- e) <= m * 2 ^ Z.max 0 e * 10 ^ Z.max 0 (- k).

Definition pow_leb (k m e : Z) : bool :=
  10 ^ Z.max 0 k * 2 ^ Z.max 0 (- e) <=? m * 2 ^ Z.max 0 e * 10 ^ Z.max 0 (- k).

Lemma pow_leb_spec k m e : reflect (pow_le k m e) (pow_leb k m e).
Proof. apply Z.leb_spec0. Qed.

(** Changing the representation of both sides. *)
Lemma pow_split a x y u v : 0 < a -> 0 <= x -> 0 <= y -> 0 <= u -> 0 <= v -> x + v = y + u -> a ^ x * a ^ v = a ^ y * a ^ u.
Proof. intros. rewrite <- !Z.pow_add_r by lia. f_equal. lia. Qed.

Lemma pow_le_shift k l e m : 0 <= l -> 2 ^ l <= m -> pow_le k 1 (l + e) -> pow_le k m e.
Proof.
  unfold pow_le. intros Hl Hm H.
  pose proof (pow_split 2 (Z.max 0 (l + e)) (Z.max 0 (- (l + e))) (Z.max 0 e + l) (Z.max 0 (- e))
    ltac:(lia) ltac:(lia) ltac:(lia) ltac:(lia) ltac:(lia) ltac:(lia)) as E.
  rewrite Z.pow_add_r in E by lia. set (L := 2 ^ Z.max 0 (l + e)) in *. set (L' := 2 ^ Z.max 0 (- (l + e))) in *.
  set (e1 := 2 ^ Z.max 0 e) in *. set (e2 := 2 ^ Z.max 0 (- e)) in *. set (p1 := 10 ^ Z.max 0 k) in *.
  set (p2 := 10 ^ Z.max 0 (- k)) in *. set (ll := 2 ^ l) in *.
  assert (0 < L' /\ 0 < e1 /\ 0 < e2 /\ 0 < p2 /\ 0 < L) as (? & ? & ? & ? & ?) by (repeat split; apply Z.pow_pos_nonneg; lia).
  apply (Z.mul_le_mono_pos_l _ _ L'); [lia|].
  transitivity (L * p2 * e2); [nia|]. transitivity (L' * (e1 * ll) * p2); [nia|].
  replace (L' * (m * e1 * p2)) with (L' * (e1 * m) * p2) by lia. apply Z.mul_le_mono_nonneg_r; [lia|].
  apply Z.mul_le_mono_nonneg_l; [lia|]. apply Z.mul_le_mono_nonneg_l; lia.
Qed.

(** Conversely, when the mantissa is smaller. *)
Lemma pow_lt_shift k l e m : 0 <= l -> 0 < m < 2 ^ l -> pow_le k m e -> ~ pow_le k 1 (l + e) -> False.
Proof.
  unfold pow_le. intros Hl Hm H H'. apply H'. clear H'.
  pose proof (pow_split 2 (Z.max 0 (l + e)) (Z.max 0 (- (l + e))) (Z.max 0 e + l) (Z.max 0 (- e))
    ltac:(lia) ltac:(lia) ltac:(lia) ltac:(lia) ltac:(lia) ltac:(lia)) as E.
  rewrite Z.pow_add_r in E by lia. set (L := 2 ^ Z.max 0 (l + e)) in *. set (L' := 2 ^ Z.max 0 (- (l + e))) in *.
  set (e1 := 2 ^ Z.max 0 e) in *. set (e2 := 2 ^ Z.max 0 (- e)) in *. set (p1 := 10 ^ Z.max 0 k) in *.
  set (p2 := 10 ^ Z.max 0 (- k)) in *. set (ll := 2 ^ l) in *.
  assert (0 < L' /\ 0 < e1 /\ 0 < e2 /\ 0 < p2 /\ 0 < L) as (? & ? & ? & ? & ?) by (repeat split; apply Z.pow_pos_nonneg; lia).
  apply (Z.mul_le_mono_pos_r _ _ e2); [lia|]. replace (1 * L * p2 * e2) with (L' * (e1 * ll) * p2) by nia.
  transitivity (L' * (m * e1 * p2)); [nia|].
  replace (L' * (m * e1 * p2)) with (L' * (e1 * m) * p2) by lia. apply Z.mul_le_mono_nonneg_r; [lia|].
  apply Z.mul_le_mono_nonneg_l; [lia|]. apply Z.mul_le_mono_nonneg_l; lia.
Qed.

(** The approximation of the exponent, checked for each binary exponent. *)
Definition approx_ok (i : nat) : bool :=
  let L := Z.of_nat i - 1074 in let k := L * 1233 / 4096 - 1 in pow_leb k 1 L && negb (pow_leb (k + 4) 1 (L + 1)) && (- 400 <=? k) && (k <=? 396).

Lemma approx_all : forallb approx_ok (seq 0 2100) = true.
Proof. vm_compute. reflexivity. Qed.

Lemma approx_spec L : -1074 <= L <= 1025 -> let k := L * 1233 / 4096 - 1 in
  pow_le k 1 L /\ ~ pow_le (k + 4) 1 (L + 1) /\ -400 <= k <= 396.
Proof.
  intros HL k. pose proof approx_all as H. rewrite forallb_forall in H.
  specialize (H (Z.to_nat (L + 1074)) ltac:(apply in_seq; lia)). unfold approx_ok in H.
  replace (Z.of_nat (Z.to_nat (L + 1074)) - 1074) with L in H by lia. fold k in H. cbv zeta in H.
  rewrite !andb_true_iff, negb_true_iff in H. destruct H as [[[H1 H2] H3] H4].
  destruct (pow_leb_spec k 1 L); [|done]. destruct (pow_leb_spec (k + 4) 1 (L + 1)); [done|]. apply Z.leb_le in H3, H4. split; [done|]. split; [done|lia].
Qed.

Lemma dec_exponent_eq m e : dec_exponent m e = let k := (Z.log2 m + e) * 1233 / 4096 - 1 in
  if pow_leb (k + 3) m e then k + 3 else if pow_leb (k + 2) m e then k + 2 else if pow_leb (k + 1) m e then k + 1 else k.
Proof. reflexivity. Qed.

Lemma dec_exponent_spec m e : 0 < m < 2 ^ 53 -> -1074 <= e <= 971 ->
  let k := dec_exponent m e in pow_le k m e /\ ~ pow_le (k + 1) m e /\ -400 <= k <= 400.
Proof.
  intros Hm He. pose proof (Z.log2_spec m ltac:(lia)) as [Hl Hu]. pose proof (Z.log2_nonneg m).
  assert (Z.log2 m < 53) by (apply Z.log2_lt_pow2; lia).
  destruct (approx_spec (Z.log2 m + e) ltac:(lia)) as (H1 & H2 & H3). cbv zeta.
  rewrite dec_exponent_eq. cbv zeta. set (k := (Z.log2 m + e) * 1233 / 4096 - 1) in *.
  apply pow_le_shift with (m := m) in H1; [|lia|lia].
  assert (H4 : ~ pow_le (k + 4) m e).
  { intros H4. apply (pow_lt_shift (k + 4) (Z.log2 m + 1) e m); [lia| |exact H4|].
    - rewrite Z.add_1_r. lia.
    - by rewrite <- Z.add_assoc, (Z.add_comm 1), Z.add_assoc. }
  destruct (pow_leb_spec (k + 3) m e) as [E3|E3].
  { replace (k + 3 + 1) with (k + 4) by lia. split; [done|]. split; [done|lia]. }
  destruct (pow_leb_spec (k + 2) m e) as [E2|E2].
  { replace (k + 2 + 1) with (k + 3) by lia. split; [done|]. split; [done|lia]. }
  destruct (pow_leb_spec (k + 1) m e) as [E1|E1].
  { replace (k + 1 + 1) with (k + 2) by lia. split; [done|]. split; [done|lia]. }
  split; [done|]. split; [done|lia].
Qed.

(** ** The digits of the exponent form *)

Lemma pow_le_scaled k p m e : 0 <= p -> 0 < m ->
  pow_le k m e <->
  10 ^ p * (2 ^ Z.max 0 (- e) * 10 ^ Z.max 0 (- (p - k))) <= m * 2 ^ Z.max 0 e * 10 ^ Z.max 0 (p - k).
Proof.
  unfold pow_le. intros Hp Hm.
  assert (10 ^ p * 10 ^ Z.max 0 (- (p - k)) * 10 ^ Z.max 0 (- k) = 10 ^ Z.max 0 (p - k) * 10 ^ Z.max 0 k) as E
    by (rewrite <- !Z.pow_add_r by lia; f_equal; lia).
  set (q1 := 10 ^ Z.max 0 (p - k)) in *. set (q2 := 10 ^ Z.max 0 (- (p - k))) in *.
  set (e1 := 2 ^ Z.max 0 e) in *. set (e2 := 2 ^ Z.max 0 (- e)) in *. set (p1 := 10 ^ Z.max 0 k) in *.
  set (p2 := 10 ^ Z.max 0 (- k)) in *. set (pp := 10 ^ p) in *.
  assert (0 < q1 /\ 0 < e1 /\ 0 < e2 /\ 0 < p2 /\ 0 < q2) as (? & ? & ? & ? & ?) by (repeat split; apply Z.pow_pos_nonneg; lia).
  split; intros Hc.
  - apply (Z.mul_le_mono_pos_r _ _ p2); [lia|]. replace (pp * (e2 * q2) * p2) with (q1 * (p1 * e2)) by nia.
    transitivity (q1 * (m * e1 * p2)); [apply Z.mul_le_mono_nonneg_l; lia|nia].
  - apply (Z.mul_le_mono_pos_r _ _ q1); [lia|]. replace (p1 * e2 * q1) with (pp * (e2 * q2) * p2) by nia.
    transitivity (m * e1 * q1 * p2); [apply Z.mul_le_mono_nonneg_r; lia|nia].
Qed.

Lemma div_even_bounds a b x y : 0 < b -> x * b <= a -> a < y * b -> x <= div_even a b <= y.
Proof.
  intros Hb Hx Hy. assert (x <= a / b < y).
  { split; [apply Z.div_le_lower_bound; lia|apply Z.div_lt_upper_bound; lia]. }
  unfold div_even. destruct (_ || _); lia.
Qed.

Lemma scaled_bounds m e p : 0 < m < 2 ^ 53 -> -1074 <= e <= 971 ->
  let d := scaled m e (Z.of_nat p - dec_exponent m e) in 10 ^ Z.of_nat p <= d <= 10 ^ (Z.of_nat p + 1).
Proof.
  intros Hm He. destruct (dec_exponent_spec m e Hm He) as (H1 & H2 & _). cbv zeta.
  set (k := dec_exponent m e) in *. apply (pow_le_scaled k (Z.of_nat p)) in H1; [|lia|lia].
  assert (H3 : ~ 10 ^ (Z.of_nat p + 1) * (2 ^ Z.max 0 (- e) * 10 ^ Z.max 0 (- (Z.of_nat p - k))) <=
    m * 2 ^ Z.max 0 e * 10 ^ Z.max 0 (Z.of_nat p - k)).
  { intros H3. apply H2. apply (pow_le_scaled (k + 1) (Z.of_nat p + 1)); [lia|lia|].
    by replace (Z.of_nat p + 1 - (k + 1)) with (Z.of_nat p - k) by lia. }
  unfold scaled. apply div_even_bounds; [|lia|lia].
  apply Z.mul_pos_pos; apply Z.pow_pos_nonneg; lia.
Qed.

(** ** Text without the letter e *)

Definition no_e (s : list Z) : Prop := Forall (fun c => (c =? 101) = false) s.

Lemma base10_no_e ds : Forall (is_base 10) ds -> no_e ds.
Proof. intros H. eapply Forall_impl; [exact H|]. intros c Hc. unfold is_base in Hc. destruct (Z.eqb_spec c 101); [lia|done]. Qed.

Lemma pad_left_digits n ds : Forall (is_base 10) ds -> Forall (is_base 10) (pad_left n ds).
Proof. intros H. unfold pad_left. apply Forall_app. split; [|done]. apply Forall_replicate. unfold is_base. lia. Qed.

Lemma point_no_e p n : 0 <= n -> no_e (point p n).
Proof.
  intros Hn. unfold point. destruct (dec_digits_spec n Hn) as (_ & H & _).
  apply (pad_left_digits (S p)) in H. set (ds := pad_left _ _) in *. clearbody ds. apply base10_no_e in H. unfold no_e in *.
  destruct p; [by apply Forall_take|]. apply Forall_app. split; [by apply Forall_take|]. constructor; [done|by apply Forall_drop].
Qed.

Lemma split_once_no_e s t : no_e s -> split_once 101 (s ++ 101 :: t) = Some (s, t).
Proof. induction 1 as [|c s Hc H IH]; [done|]. cbn [app split_once]. by rewrite Hc, IH. Qed.

Lemma strip_sign_digits ds : Forall (is_base 10) ds -> strip_sign ds = (false, ds).
Proof.
  intros H. destruct ds as [|d ds]; [done|]. apply Forall_inv in H. unfold is_base in H.
  cbn [strip_sign]. by destruct (Z.eqb_spec d 45), (Z.eqb_spec d 43); [lia..|].
Qed.

Lemma parse_show_int k : srange 32 k -> parse_i32 (show_int k) = Some k.
Proof.
  unfold srange. intros Hk. unfold parse_i32, show_int.
  destruct (dec_digits_spec (Z.abs k) ltac:(lia)) as (Hne & Hds & Hv).
  assert (forallb is_ascii_digit (dec_digits (Z.abs k)) = true) as Hall.
  { rewrite forallb_forall. intros x Hx. apply base10_digit. rewrite List.Forall_forall in Hds. by apply Hds. }
  destruct (Z.ltb_spec k 0).
  - cbn [strip_sign]. change (45 =? 45) with true. cbv iota. replace (- k) with (Z.abs k) by lia. rewrite Hall.
    change (dec_value (dec_digits (Z.abs k))) with (base_value 10 (dec_digits (Z.abs k)) 0). rewrite Hv.
    destruct (dec_digits (Z.abs k)); [done|].
    destruct (Z.leb_spec (- 2 ^ 31) (- Z.abs k)), (Z.ltb_spec (- Z.abs k) (2 ^ 31)); try lia. cbn [andb]. f_equal. lia.
  - replace (dec_digits k) with (dec_digits (Z.abs k)) by (f_equal; lia). rewrite strip_sign_digits by done. rewrite Hall.
    change (dec_value (dec_digits (Z.abs k))) with (base_value 10 (dec_digits (Z.abs k)) 0). rewrite Hv.
    destruct (dec_digits (Z.abs k)); [done|].
    destruct (Z.leb_spec (- 2 ^ 31) (Z.abs k)), (Z.ltb_spec (Z.abs k) (2 ^ 31)); try lia. cbn [andb]. f_equal. lia.
Qed.

(** ** Finite doubles *)

Definition f64_is_finite (b : f64) : bool := negb (f64_exp b =? 0x7ff).

Lemma finite_cases b : f64_is_finite b = true ->
  (exists s, SF_of_bits b = S754_zero s) \/
  (exists s m e, SF_of_bits b = S754_finite s m e /\ Zpos m < 2 ^ 53 /\ -1074 <= e <= 971).
Proof.
  unfold f64_is_finite, SF_of_bits. intros H%negb_true_iff. rewrite H.
  assert (0 <= f64_exp b < 2 ^ 11) as He by (apply Z.mod_pos_bound; lia).
  assert (0 <= f64_man b < 2 ^ 52) as Hm by (apply Z.mod_pos_bound; lia). apply Z.eqb_neq in H.
  destruct (Z.eqb_spec (f64_exp b) 0).
  - destruct (f64_man b) as [|p|p]; [left; by eexists| |lia]. right. eexists _, _, _. split; [reflexivity|]. lia.
  - destruct (f64_man b + 2 ^ 52) as [|p|p] eqn:E; [lia| |lia]. right. eexists _, _, _. split; [reflexivity|]. lia.
Qed.

Lemma finite_abs b : f64_is_finite (f64_abs b) = f64_is_finite b.
Proof.
  unfold f64_is_finite, f64_abs, f64_exp. destruct (f64_sign b); [|done]. do 2 f_equal.
  replace (b - 2 ^ 63) with (b + (- 2 ^ 11) * 2 ^ 52) by lia. rewrite Z.div_add by lia.
  replace (- 2 ^ 11) with ((-1) * 2 ^ 11) by lia. by rewrite Z.mod_add by lia.
Qed.

(** The exponent form: a sign, [p + 1] digits with a point, and the exponent. *)
Lemma show_exp_form_spec p b : f64_is_finite b = true ->
  exists sg d k, show_exp_form p b = (sg ++ point p d) ++ 101 :: show_int k /\ (sg = [] \/ sg = [45]) /\
    0 <= d < 10 ^ (Z.of_nat p + 1) /\ -400 <= k <= 401.
Proof.
  intros Hf. assert (0 < 10 ^ Z.of_nat p) by (apply Z.pow_pos_nonneg; lia).
  unfold show_exp_form. destruct (finite_cases b Hf) as [[s ->]|(s & m & e & -> & Hm & He)].
  - exists (if s then [45] else []), 0, 0. rewrite <- app_assoc. split; [done|]. split; [destruct s; auto|].
    rewrite Z.pow_add_r by lia. lia.
  - destruct (dec_exponent_spec (Zpos m) e ltac:(lia) He) as (_ & _ & Hk). pose proof (scaled_bounds (Zpos m) e p ltac:(lia) He) as Hd.
    cbv zeta in Hd, Hk |- *. set (d := scaled _ _ _) in *. set (k := dec_exponent _ _) in *.
    exists (if s then [45] else []), (if d =? 10 ^ (Z.of_nat p + 1) then d / 10 else d), (if d =? 10 ^ (Z.of_nat p + 1) then k + 1 else k).
    rewrite Z.pow_add_r, Z.pow_1_r in * by lia. rewrite <- app_assoc.
    destruct (Z.eqb_spec d (10 ^ Z.of_nat p * 10)) as [->|Hne].
    + split; [done|]. split; [destruct s; auto|]. rewrite Z.div_mul by lia. lia.
    + split; [done|]. split; [destruct s; auto|]. lia.
Qed.

Lemma split_exp_form p b : f64_is_finite b = true ->
  exists sg d k, show_exp_form p b = (sg ++ point p d) ++ 101 :: show_int k /\ (sg = [] \/ sg = [45]) /\
    0 <= d < 10 ^ (Z.of_nat p + 1) /\ -400 <= k <= 401 /\
    split_once 101 (show_exp_form p b) = Some (sg ++ point p d, show_int k) /\ parse_i32 (show_int k) = Some k.
Proof.
  intros Hf. destruct (show_exp_form_spec p b Hf) as (sg & d & k & E & Hsg & Hd & Hk). exists sg, d, k.
  split; [done|]. split; [done|]. split; [done|]. split; [done|]. split; [|apply parse_show_int; unfold srange; lia].
  rewrite E. apply split_once_no_e. apply Forall_app. split; [destruct Hsg as [->| ->]; by repeat constructor|].
  apply point_no_e. lia.
Qed.

(** ** [g14] *)

Lemma digits_loop_fuel b f1 : 2 <= b -> forall f2 n acc, 0 <= n < b ^ Z.of_nat f1 -> n < b ^ Z.of_nat f2 ->
  (0 < f1)%nat -> (0 < f2)%nat -> digits_loop b f1 n acc = digits_loop b f2 n acc.
Proof.
  intros Hb. induction f1 as [|f1 IH]; intros [|f2] n acc H1 H2 Hf1 Hf2; [lia..|]. cbn [digits_loop].
  destruct (Z.ltb_spec n b); [done|]. rewrite Nat2Z.inj_succ, Z.pow_succ_r in H1, H2 by lia.
  assert (0 <= n / b) by (apply Z.div_pos; lia).
  destruct f1 as [|f1]; [cbn in H1; lia|]. destruct f2 as [|f2]; [cbn in H2; lia|].
  apply IH; [split; [done|]|..]; try lia; apply Z.div_lt_upper_bound; lia.
Qed.

Lemma dec_digits_length d n : 0 <= d < 10 ^ Z.of_nat n -> (0 < n)%nat -> (length (dec_digits d) <= n)%nat.
Proof.
  intros Hd Hn. unfold dec_digits. rewrite (digits_loop_fuel 10 _ ltac:(lia) n); [|split; [lia|]|lia|lia|done].
  - destruct (digits_loop_spec 10 n ltac:(lia) d [] ltac:(lia) Hn) as (ds & -> & _ & Hl & _). by rewrite app_nil_r.
  - rewrite Nat2Z.inj_succ, Z2Nat.id by apply Z.log2_nonneg. destruct (decide (d = 0)) as [->|]; [done|].
    pose proof (Z.log2_spec d ltac:(lia)). pose proof (Z.log2_nonneg d).
    apply Z.lt_le_trans with (2 ^ Z.succ (Z.log2 d)); [lia|apply Z.pow_le_mono_l; lia].
Qed.

Lemma point_length p d : 0 <= d < 10 ^ (Z.of_nat p + 1) -> (length (point p d) <= p + 2)%nat.
Proof.
  intros Hd. assert (length (pad_left (S p) (dec_digits d)) = S p) as Hl.
  { unfold pad_left. rewrite length_app, length_replicate.
    pose proof (dec_digits_length d (S p) ltac:(by rewrite Nat2Z.inj_succ) ltac:(lia)). lia. }
  unfold point. rewrite Hl. destruct p; rewrite ?length_app; cbn [length]; rewrite ?length_take, ?length_drop; lia.
Qed.

Lemma not_finite_cases b : f64_is_finite b = false -> SF_of_bits b = S754_nan \/ exists s, SF_of_bits b = S754_infinity s.
Proof.
  unfold f64_is_finite, SF_of_bits. intros H%negb_false_iff. rewrite H. destruct (f64_man b =? 0); [right; by eexists|by left].
Qed.

(** [tostring] of a number always gives a text. *)
Lemma g14_total b : exists t, g14 b = Some t.
Proof.
  unfold g14, g14_to_buf. destruct (f64_eq b 0); [by eexists|]. destruct (f64_is_nan b) eqn:En; [by eexists|].
  destruct (f64_is_finite b) eqn:Hf.
  - destruct (split_exp_form 13 b Hf) as (sg & d & k & E & Hsg & Hd & Hk & Hs & Hp).
    assert (take 64 (show_exp_form 13 b) = show_exp_form 13 b) as Ht.
    { apply take_ge. rewrite E, !length_app. cbn [length]. pose proof (point_length 13 d Hd).
      assert (length sg <= 1)%nat by (destruct Hsg as [->| ->]; cbn; lia).
      assert (length (show_int k) <= 4)%nat; [|lia]. unfold show_int. destruct (Z.ltb_spec k 0); cbn [length].
      - pose proof (dec_digits_length (- k) 3 ltac:(cbn; lia) ltac:(lia)). lia.
      - pose proof (dec_digits_length k 3 ltac:(cbn; lia) ltac:(lia)). lia. }
    destruct (SF_of_bits b); try (by eexists); destruct (_ && _); try (by eexists);
      rewrite Ht, Hs, Hp; destruct (negb _); by eexists.
  - destruct (not_finite_cases b Hf) as [E|[s E]]; [|rewrite E; by eexists].
    apply f64_is_nan_spec in E. by rewrite E in En.
Qed.

Lemma fmt_e_total b p up h : f64_is_finite b = true -> exists t, fmt_e b p up h = Some t.
Proof.
  intros Hf. destruct (split_exp_form p b Hf) as (sg & d & k & _ & _ & _ & _ & Hs & Hp).
  unfold fmt_e. rewrite Hs, Hp. by eexists.
Qed.

Lemma fmt_g_total b p h : f64_is_finite b = true -> exists t, fmt_g b p h = Some t.
Proof.
  intros Hf. destruct (split_exp_form (p - 1) b Hf) as (sg & d & k & _ & _ & _ & _ & Hs & Hp).
  unfold fmt_g. destruct (f64_eq b 0); [by eexists|]. rewrite Hs, Hp. cbv zeta. destruct (_ || _); by eexists.
Qed.

Lemma is_conv_In cs c : is_conv cs c = true -> In c cs.
Proof. unfold is_conv. rewrite existsb_exists. intros (x & Hx & ->%Z.eqb_eq). done. Qed.

Lemma fmt_float_body_total s conv b : is_conv (lit "fFeEgG") conv = true -> f64_is_finite b = true ->
  exists t, fmt_float_body s conv b = Some t.
Proof.
  intros Hc Hf. rewrite <- finite_abs in Hf. apply is_conv_In in Hc.
  unfold fmt_float_body. destruct Hc as [<-|[<-|[<-|[<-|[<-|[<-|[]]]]]]]; cbn [Z.eqb Pos.eqb orb]; try (by eexists).
  - by apply fmt_e_total.
  - by apply fmt_e_total.
  - destruct (fmt_g_total (f64_abs b) (Z.to_nat (if bool_decide (prec s = None) then 6 else Z.max (default 6 (prec s)) 1)) (hash s) Hf)
      as [t ->]. by eexists.
  - destruct (fmt_g_total (f64_abs b) (Z.to_nat (if bool_decide (prec s = None) then 6 else Z.max (default 6 (prec s)) 1)) (hash s) Hf)
      as [t ->]. by eexists.
Qed.

(** ** [format] *)

(** An argument that is not an infinity or a NaN, nor a string that reads as one. *)
Definition arg_finite (a : FmtArg) : Prop :=
  match a with
  | Num n => f64_is_finite n = true
  | Str s => forall n, parse_f64 (trim s) = Some n -> f64_is_finite n = true
  end.

Definition arg_finiteb (a : FmtArg) : bool :=
  match a with
  | Num n => f64_is_finite n
  | Str s => match parse_f64 (trim s) with Some n => f64_is_finite n | None => true end
  end.

Lemma args_finite_check args : forallb arg_finiteb args = true -> Forall arg_finite args.
Proof.
  intros H. rewrite forallb_forall in H. apply List.Forall_forall. intros [n|s] Ha; specialize (H _ Ha); [done|].
  intros n E. unfold arg_finiteb in H. by rewrite E in H.
Qed.

Lemma next_num_finite args n rest : Forall arg_finite args -> next_num args = inl (n, rest) ->
  f64_is_finite n = true /\ Forall arg_finite rest.
Proof.
  intros H. destruct H as [|a args Ha H]; [done|]. destruct a as [m|s]; cbn [next_num].
  - intros [= <- <-]. done.
  - destruct (parse_f64 (trim s)) as [m|] eqn:E; [|done]. intros [= <- <-]. split; [by apply Ha|done].
Qed.

Lemma format_conv_total out s conv args : Forall arg_finite args ->
  exists r, format_conv out s conv args = Some r /\ forall out' rest, r = inl (out', rest) -> Forall arg_finite rest.
Proof.
  intros Ha.
  assert (forall k : f64 -> option (list Z), (forall n, f64_is_finite n = true -> exists t, k n = Some t) ->
    exists r, with_num args k = Some r /\ forall (out' : list Z) rest, r = inl (out', rest) -> Forall arg_finite rest) as Hnum.
  { intros k Hk. unfold with_num. destruct (next_num args) as [[n rest]|e] eqn:E; [|by eexists].
    destruct (next_num_finite args n rest Ha E) as [Hn Hr]. destruct (Hk n Hn) as [t ->].
    eexists. split; [reflexivity|]. by intros out' rest' [= <- <-]. }
  unfold format_conv.
  destruct (is_conv (lit "di") conv); [apply Hnum; by eexists|]. destruct (is_conv (lit "u") conv); [apply Hnum; by eexists|].
  destruct (is_conv (lit "c") conv); [apply Hnum; by eexists|]. destruct (is_conv (lit "x") conv); [apply Hnum; by eexists|].
  destruct (is_conv (lit "X") conv); [apply Hnum; by eexists|]. destruct (is_conv (lit "o") conv); [apply Hnum; by eexists|].
  destruct (is_conv (lit "fFeEgG") conv) eqn:Ef.
  { apply Hnum. intros n Hn. destruct (fmt_float_body_total s conv n Ef Hn) as [t ->]. by eexists. }
  destruct (is_conv (lit "aA") conv); [apply Hnum; by eexists|].
  destruct (is_conv (lit "s") conv).
  { destruct Ha as [|a args Ha Hr]; [by eexists|]. destruct a as [n|b].
    - destruct (g14_total n) as [t ->]. eexists. split; [reflexivity|]. by intros out' rest [= <- <-].
    - eexists. split; [reflexivity|]. by intros out' rest [= <- <-]. }
  destruct (is_conv (lit "q") conv).
  { destruct Ha as [|a args Ha Hr]; [by eexists|]. destruct a as [n|b];
      (eexists; split; [reflexivity|]; by intros out' rest [= <- <-]). }
  by eexists.
Qed.

Lemma span_length f s : (length (snd (span f s)) <= length s)%nat.
Proof.
  induction s as [|c s IH]; [done|]. cbn [span]. destruct (f c); [|done]. destruct (span f s). cbn [snd length] in *. lia.
Qed.

Lemma spec_span_length s : (length (snd (spec_span s)) <= length s)%nat.
Proof.
  unfold spec_span. pose proof (span_length is_flag s) as H1. destruct (span is_flag s) as [a s1]. cbn [snd] in H1.
  pose proof (span_length is_ascii_digit s1) as H2. destruct (span is_ascii_digit s1) as [b s2]. cbn [snd] in H2.
  destruct s2 as [|c s2]; [cbn; lia|]. cbn [strip]. destruct (c =? 46); [|cbn [snd]; lia].
  pose proof (span_length is_ascii_digit s2) as H3. destruct (span is_ascii_digit s2) as [d s3]. cbn [snd length] in *. lia.
Qed.

Lemma compile_loop_total fuel : forall fmt run parts, (length fmt < fuel)%nat -> exists r, compile_loop fuel fmt run parts = Some r.
Proof.
  induction fuel as [|fuel IH]; intros fmt run parts Hf; [lia|]. cbn [compile_loop].
  destruct fmt as [|c fmt]; [by eexists|]. cbn [length] in Hf. destruct (c =? 37); [|apply IH; lia].
  destruct (strip 37 fmt) as [fmt'|] eqn:E.
  - destruct fmt as [|d fmt]; [done|]. cbn [strip] in E. destruct (d =? 37); [|done]. injection E as <-. apply IH. cbn [length] in Hf. lia.
  - pose proof (spec_span_length fmt). destruct (spec_span fmt) as [sp [|conv rest]]; [by eexists|].
    apply IH. cbn [snd length] in *. lia.
Qed.



(** On an infinity, [%e] and [%g] panic. *)
Lemma format_inf_panics :
  format (lit "%g") [Num 0x7ff0000000000000] = None /\ format (lit "%e") [Num 0x7ff0000000000000] = None.
Proof. split; vm_compute; reflexivity. Qed.

(** ** Literal text *)

Definition escape (c : Z) : list Z := if c =? 37 then [37; 37] else [c].

Fixpoint literal (parts : list FmtPart) : option (list Z) :=
  match parts with
  | [] => Some []
  | Lit b :: parts => let? t := literal parts in Some (b ++ t)
  | Conv _ _ :: _ => None
  end.

Lemma literal_app p b t : literal p = Some t -> literal (p ++ [Lit b]) = Some (t ++ b).
Proof.
  revert t. induction p as [|[x|] p IH]; intros t E; cbn [app literal] in *; [injection E as <-; by rewrite app_nil_r| |done].
  destruct (literal p) as [u|]; [|done]. injection E as <-. rewrite (IH u) by done. by rewrite app_assoc.
Qed.

Lemma literal_flush run p t : literal p = Some t -> literal (flush run p) = Some (t ++ rev run).
Proof. intros E. destruct run; [by rewrite app_nil_r|]. by apply literal_app. Qed.

Lemma compile_escaped s : forall fuel run parts t, (length (flat_map escape s) < fuel)%nat -> literal parts = Some t ->
  exists p, compile_loop fuel (flat_map escape s) run parts = Some (inl p) /\ literal p = Some (t ++ rev run ++ s).
Proof.
  induction s as [|c s IH]; intros fuel run parts t Hf Ht; (destruct fuel as [|fuel]; [lia|]).
  - eexists. split; [reflexivity|]. rewrite app_nil_r. by apply literal_flush.
  - cbn [flat_map] in *. unfold escape at 1 in Hf. unfold escape at 1.
    destruct (Z.eqb_spec c 37) as [->|Hc]; cbn [app length compile_loop] in *.
    + change (37 =? 37) with true. cbn [strip]. change (37 =? 37) with true. cbv iota.
      destruct (IH fuel [] (flush run parts ++ [Lit [37]]) ((t ++ rev run) ++ [37]) ltac:(lia)) as (p & -> & Hp).
      { by apply literal_app, literal_flush. }
      exists p. split; [done|]. rewrite Hp. by rewrite <- !app_assoc.
    + destruct (Z.eqb_spec c 37); [done|]. destruct (IH fuel (c :: run) parts t ltac:(lia) Ht) as (p & -> & Hp).
      exists p. split; [done|]. rewrite Hp. cbn [rev]. by rewrite <- !app_assoc.
Qed.

Lemma format_parts_literal p : forall t args out, literal p = Some t -> format_parts p args out = Some (inl (out ++ t)).
Proof.
  induction p as [|[b|] p IH]; intros t args out E; cbn [literal format_parts] in *; [injection E as <-; by rewrite app_nil_r| |done].
  destruct (literal p) as [u|]; [|done]. injection E as <-. rewrite (IH u) by done. by rewrite app_assoc.
Qed.

(** A format whose per cent signs are doubled is copied to the output, whatever the arguments. *)
Theorem format_escaped s args : format (flat_map escape s) args = Some (inl s).
Proof.
  unfold format, compile. destruct (compile_escaped s (S (length (flat_map escape s))) [] [] [] ltac:(lia) eq_refl) as (p & -> & Hp).
  by rewrite (format_parts_literal p s).
Qed.
