(* ===== verification/Lex.v ===== *)
(** * compiler/lex.rs: from source text to tokens

    A step takes the lexer's state and returns the next one, or the
    [CompileError] that unwinds to the caller; [None] is a panic (a failed
    [debug_assert], an index out of range, a full string table).  Loops take
    one unit of fuel per character. *)

From Stdlib Require Import ZArith Lia Bool Ascii String.
From stdpp Require Import base decidable numbers option list.
From S2P Require Import Prelude Float64 Strings PatClass FloatText StrScan StrFmt.

(** ** Tokens *)

Module Tok.
Inductive t :=
  | Char (c : Z)
  | And | Break | Const | Continue | Do | Else | Elseif | End | False | For | Function | Goto | If | In
  | Local | Nil | Not | Or | Repeat | Return | Then | True | Until | While
  | Concat | Dots | Eq | Ge | Le | Ne | Nav | Coal | Shl | Shr | Sar | AndAnd | OrOr | NeBang | Arrow | Label
  | Number | Name | Str | Eof.

#[global] Instance eq_dec : EqDecision t.
Proof. solve_decision. Defined.
End Tok.

Definition KEYWORDS : list (list Z * Tok.t) :=
  [(lit "and", Tok.And); (lit "break", Tok.Break); (lit "const", Tok.Const); (lit "continue", Tok.Continue);
   (lit "do", Tok.Do); (lit "else", Tok.Else); (lit "elseif", Tok.Elseif); (lit "end", Tok.End);
   (lit "false", Tok.False); (lit "for", Tok.For); (lit "function", Tok.Function); (lit "goto", Tok.Goto);
   (lit "if", Tok.If); (lit "in", Tok.In); (lit "local", Tok.Local); (lit "nil", Tok.Nil); (lit "not", Tok.Not);
   (lit "or", Tok.Or); (lit "repeat", Tok.Repeat); (lit "return", Tok.Return); (lit "then", Tok.Then);
   (lit "true", Tok.True); (lit "until", Tok.Until); (lit "while", Tok.While)].

Definition tok2str (tok : Tok.t) : list Z :=
  match tok with
  | Tok.Char c => if is_ascii_control c then lit "char(" ++ dec_digits c ++ [41] else show_char c
  | Tok.And => lit "and" | Tok.Break => lit "break" | Tok.Const => lit "const" | Tok.Continue => lit "continue"
  | Tok.Do => lit "do" | Tok.Else => lit "else" | Tok.Elseif => lit "elseif" | Tok.End => lit "end"
  | Tok.False => lit "false" | Tok.For => lit "for" | Tok.Function => lit "function" | Tok.Goto => lit "goto"
  | Tok.If => lit "if" | Tok.In => lit "in" | Tok.Local => lit "local" | Tok.Nil => lit "nil" | Tok.Not => lit "not"
  | Tok.Or => lit "or" | Tok.Repeat => lit "repeat" | Tok.Return => lit "return" | Tok.Then => lit "then"
  | Tok.True => lit "true" | Tok.Until => lit "until" | Tok.While => lit "while"
  | Tok.Concat => lit ".." | Tok.Dots => lit "..." | Tok.Eq => lit "==" | Tok.Ge => lit ">=" | Tok.Le => lit "<="
  | Tok.Ne => lit "~=" | Tok.Nav => lit "?." | Tok.Coal => lit "??" | Tok.Shl => lit "<<" | Tok.Shr => lit ">>"
  | Tok.Sar => lit "~>>" | Tok.AndAnd => lit "&&" | Tok.OrOr => lit "||" | Tok.NeBang => lit "!=" | Tok.Arrow => lit "->"
  | Tok.Label => lit "::"
  | Tok.Number => lit "<number>" | Tok.Name => lit "<name>" | Tok.Str => lit "<string>" | Tok.Eof => lit "<eof>"
  end.

Definition LEX_EOF : Z := -1.

Record TokVal := mkTokVal { num : f64; str : Z; is_cdata : bool; cdata_bits : Z; cdata_is_ull : bool; cdata_is_imag : bool }.

Definition tokval_default : TokVal := mkTokVal 0 0 false 0 false false.

Definition tokval_str (id : Z) : TokVal := mkTokVal 0 id false 0 false false.

(** ** State *)

Section Lexer.
Context {St : Type} `{Strings St}.

Record LexState := mkLex {
  src : list Z; pos : nat; tok_start : nat;
  c : Z; tok : Tok.t; tokval : TokVal; lookahead : Tok.t; lookaheadval : TokVal;
  sb : list Z; linenumber : Z; lastline : Z; chunkname : list Z; strs : St
}.

Definition set_char (ls : LexState) (p : nat) (x : Z) : LexState :=
  let '(mkLex src _ ts _ tok tv la lav sb ln ll cn st) := ls in mkLex src p ts x tok tv la lav sb ln ll cn st.
Definition set_sb (ls : LexState) (b : list Z) : LexState :=
  let '(mkLex src p ts x tok tv la lav _ ln ll cn st) := ls in mkLex src p ts x tok tv la lav b ln ll cn st.
Definition set_tok_start (ls : LexState) (ts : nat) : LexState :=
  let '(mkLex src p _ x tok tv la lav sb ln ll cn st) := ls in mkLex src p ts x tok tv la lav sb ln ll cn st.
Definition set_tok (ls : LexState) (t : Tok.t) (v : TokVal) : LexState :=
  let '(mkLex src p ts x _ _ la lav sb ln ll cn st) := ls in mkLex src p ts x t v la lav sb ln ll cn st.
Definition set_lookahead (ls : LexState) (t : Tok.t) (v : TokVal) : LexState :=
  let '(mkLex src p ts x tok tv _ _ sb ln ll cn st) := ls in mkLex src p ts x tok tv t v sb ln ll cn st.
Definition set_linenumber (ls : LexState) (n : Z) : LexState :=
  let '(mkLex src p ts x tok tv la lav sb _ ll cn st) := ls in mkLex src p ts x tok tv la lav sb n ll cn st.
Definition set_lastline (ls : LexState) (n : Z) : LexState :=
  let '(mkLex src p ts x tok tv la lav sb ln _ cn st) := ls in mkLex src p ts x tok tv la lav sb ln n cn st.
Definition set_strs (ls : LexState) (s : St) : LexState :=
  let '(mkLex src p ts x tok tv la lav sb ln ll cn _) := ls in mkLex src p ts x tok tv la lav sb ln ll cn s.
Definition set_tokval (ls : LexState) (v : TokVal) : LexState := set_tok ls (tok ls) v.

(** ** Errors *)

Definition Res (A : Type) : Type := option (A + list Z).

Definition ok {A} (a : A) : Res A := Some (inl a).

Definition rbind {A B} (m : Res A) (k : A -> Res B) : Res B :=
  match m with Some (inl a) => k a | Some (inr e) => Some (inr e) | None => None end.

#[local] Notation "'let!' x := a 'in' b" := (rbind a (fun x => b)) (at level 10, x name, a at level 100, b at level 200).
#[local] Notation "'let!' ' p := a 'in' b" := (rbind a (fun p => b)) (at level 10, p strict pattern, a at level 100, b at level 200).

(** [panic_any(CompileError(..))]. *)
Definition error {A} (ls : LexState) (msg : list Z) : Res A :=
  Some (inr (chunkname ls ++ 58 :: dec_digits (linenumber ls) ++ lit ": " ++ msg)).

Definition err_token_str {A} (ls : LexState) (near msg : list Z) : Res A :=
  error ls (msg ++ lit " near '" ++ near ++ [39]).

(** [&s[a..b]]. *)
Definition slice (s : list Z) (a b : nat) : option (list Z) :=
  if (a <=? b)%nat && (b <=? length s)%nat then Some (take (b - a) (drop a s)) else None.

Definition err_near {A} (ls : LexState) (msg : list Z) : Res A :=
  let? near := match tok ls with
               | Tok.Str => let? s := slice (src ls) (tok_start ls) (pos ls) in Some (from_utf8_lossy s)
               | Tok.Name => let? s := str_get (strs ls) (str (tokval ls)) in Some (from_utf8_lossy s)
               | Tok.Number => Some (from_utf8_lossy (sb ls))
               | t => Some (tok2str t)
               end in
  err_token_str ls near msg.

(** ** Characters *)

Definition is_ident (c : Z) : bool :=
  ((48 <=? c) && (c <=? 57)) || ((65 <=? c) && (c <=? 90)) || ((97 <=? c) && (c <=? 122)) || (c =? 95).
Definition is_digit (c : Z) : bool := (48 <=? c) && (c <=? 57).
Definition is_xdigit (c : Z) : bool := is_digit c || ((65 <=? c) && (c <=? 70)) || ((97 <=? c) && (c <=? 102)).
Definition is_space (c : Z) : bool := ((9 <=? c) && (c <=? 13)) || (c =? 32).

Definition next_char (ls : LexState) : LexState :=
  match src ls !! pos ls with
  | Some x => set_char ls (S (pos ls)) x
  | None => set_char ls (pos ls) LEX_EOF
  end.

Definition save (x : Z) (ls : LexState) : LexState := set_sb ls (sb ls ++ [uwrap 8 x]).
Definition save_next (ls : LexState) : LexState := next_char (save (c ls) ls).
Definition is_eol (ls : LexState) : bool := (c ls =? 10) || (c ls =? 13).

Definition newline (ls : LexState) : Res LexState :=
  let old := c ls in
  if negb (is_eol ls) then None else
  let ls := next_char ls in
  let ls := if is_eol ls && negb (c ls =? old) then next_char ls else ls in
  let ls := set_linenumber ls (linenumber ls + 1) in
  if 0x7fffff00 <=? linenumber ls then error ls (lit "chunk has too many lines") else ok ls.

(** Enough for every loop: one unit per character, and one for the end. *)
Definition fuel (ls : LexState) : nat := S (S (length (src ls) - pos ls)).

(** ** Numbers *)

(** [loop { c = self.next_char(); if c != b'_' { break; } }] *)
Fixpoint skip_underscores (n : nat) (ls : LexState) : Res LexState :=
  match n with
  | O => None
  | S n => let ls := next_char ls in if c ls =? 95 then skip_underscores n ls else ok ls
  end.

Fixpoint bin_digits (n : nat) (ls : LexState) : Res LexState :=
  match n with
  | O => None
  | S n =>
      let ls := next_char ls in
      if (c ls =? 48) || (c ls =? 49) || (c ls =? 95) then
        bin_digits n (if negb (c ls =? 95) then save (c ls) ls else ls)
      else ok ls
  end.

Fixpoint suffix_letters (n : nat) (ls : LexState) : Res LexState :=
  match n with
  | O => None
  | S n => if is_l (c ls) || is_u (c ls) then suffix_letters n (save_next ls) else ok ls
  end.

(** The suffix of a binary literal. *)
Definition bin_suffix (s : list Z) : list Z * NumSuffix.t :=
  match rev s with
  | z :: y :: x :: r => if is_u x && is_l y && is_l z then (rev r, NumSuffix.Ull)
                        else if is_l y && is_l z then (rev (x :: r), NumSuffix.Ll) else (s, NumSuffix.None)
  | [z; y] => if is_l y && is_l z then ([], NumSuffix.Ll) else (s, NumSuffix.None)
  | _ => (s, NumSuffix.None)
  end.

Definition set_cdata (ls : LexState) (bits : Z) (ull : bool) (imag : bool) : LexState :=
  let v := tokval ls in set_tokval ls (mkTokVal (num v) (str v) true bits ull imag).

Definition lex_binary (ls : LexState) : Res (f64 * LexState) :=
  let! ls := bin_digits (fuel ls) ls in
  let! ls := suffix_letters (fuel ls) ls in
  let '(body, suffix) := bin_suffix (sb ls) in
  match scan_bin_to_u64 body with
  | Some u =>
      let ls := if decide (suffix = NumSuffix.None) then ls
                else set_cdata ls u (bool_decide (suffix = NumSuffix.Ull)) (cdata_is_imag (tokval ls)) in
      ok (f64_of_Z u, ls)
  | None => error ls (lit "malformed binary number")
  end.

(** [last] is the last character that was not an underscore. *)
Fixpoint number_chars (n : nat) (xp last : Z) (ls : LexState) : Res LexState :=
  match n with
  | O => None
  | S n =>
      if is_ident (c ls) || (c ls =? 46) || (((c ls =? 45) || (c ls =? 43)) && (Z.lor last 32 =? xp)) then
        let '(last, ls) := if c ls =? 95 then (last, ls) else (c ls, save (c ls) ls) in
        number_chars n xp last (next_char ls)
      else ok ls
  end.

Definition lex_decimal (xp last : Z) (ls : LexState) : Res (f64 * LexState) :=
  let! ls := number_chars (fuel ls) xp last ls in
  match scan_number_full (sb ls) with
  | Some r =>
      let ls := if decide (r_suffix r = NumSuffix.None) then ls
                else set_cdata ls (r_u r) (bool_decide (r_suffix r = NumSuffix.Ull)) (bool_decide (r_suffix r = NumSuffix.Imag)) in
      ok (r_n r, ls)
  | None => error ls (lit "malformed number")
  end.

Definition lex_number (ls : LexState) : Res (f64 * LexState) :=
  if negb (is_digit (c ls)) then None else
  if c ls =? 48 then
    let! ls := skip_underscores (fuel ls) (save (c ls) ls) in
    let xp := if is_letter 120 (c ls) then 112 else 101 in
    if is_letter 98 (c ls) then lex_binary ls else lex_decimal xp (c ls) ls
  else lex_decimal 101 (c ls) ls.

(** ** Strings *)

Fixpoint skip_eq_loop (n : nat) (count : Z) (ls : LexState) : Res (Z * LexState) :=
  match n with
  | O => None
  | S n =>
      let ls := save_next ls in
      if (c ls =? 61) && (count <? 0x20000000) then skip_eq_loop n (count + 1) ls else ok (count, ls)
  end.

Definition skip_eq (ls : LexState) : Res (Z * LexState) :=
  let s := c ls in
  if negb ((s =? 91) || (s =? 93)) then None else
  let! ' (count, ls) := skip_eq_loop (fuel ls) 0 ls in
  ok (if c ls =? s then count else - count - 1, ls).

Fixpoint long_string_loop (n : nat) (is_str : bool) (sep : Z) (ls : LexState) : Res LexState :=
  match n with
  | O => None
  | S n =>
      if c ls =? LEX_EOF then error ls (lit (if is_str then "unfinished long string" else "unfinished long comment"))
      else if c ls =? 93 then
        let! ' (k, ls) := skip_eq ls in
        if k =? sep then ok (save_next ls) else long_string_loop n is_str sep ls
      else if (c ls =? 10) || (c ls =? 13) then
        let! ls := newline (save 10 ls) in
        long_string_loop n is_str sep (if is_str then ls else set_sb ls [])
      else long_string_loop n is_str sep (save_next ls)
  end.

Definition intern_sb (ls : LexState) (s : list Z) : Res (Z * LexState) :=
  let? ' (st, id) := str_intern (strs ls) s in ok (id, set_strs ls st).

(** [Some(id)] for a string, [None] for a comment. *)
Definition long_string (is_str : bool) (sep : Z) (ls : LexState) : Res (option Z * LexState) :=
  let ls := save_next ls in
  let! ls := if is_eol ls then newline ls else ok ls in
  let! ls := long_string_loop (fuel ls) is_str sep ls in
  if is_str then
    let start := (2 + Z.to_nat sep)%nat in
    if (length (sb ls) <? start)%nat then None else
    let? s := slice (sb ls) start (length (sb ls) - start) in
    let! ' (id, ls) := intern_sb ls s in ok (Some id, ls)
  else ok (None, ls).

Definition bad_escape : list Z := lit "invalid escape sequence".

(** [(c & 15)], plus 9 for a letter. *)
Definition xdigit_value (x : Z) : Z := Z.land x 15 + (if is_digit x then 0 else 9).

(** The two digits of [\x]: the code, with the second digit current. *)
Definition hex_escape (ls : LexState) : Res (Z * LexState) :=
  let ls := next_char ls in
  let hi := Z.shiftl (Z.land (c ls) 15) 4 in
  if negb (is_digit (c ls)) && negb (is_xdigit (c ls)) then error ls bad_escape else
  let x := if is_digit (c ls) then hi else hi + Z.shiftl 9 4 in
  let ls := next_char ls in
  if negb (is_digit (c ls)) && negb (is_xdigit (c ls)) then error ls bad_escape else
  ok (x + xdigit_value (c ls), ls).

Fixpoint unicode_loop (n : nat) (x : Z) (ls : LexState) : Res (Z * LexState) :=
  match n with
  | O => None
  | S n =>
      let x := Z.lor (Z.shiftl x 4) (Z.land (c ls) 15) in
      if negb (is_digit (c ls)) && negb (is_xdigit (c ls)) then error ls bad_escape else
      let x := if is_digit (c ls) then x else x + 9 in
      if 0x110000 <=? x then error ls bad_escape else
      let ls := next_char ls in
      if c ls =? 125 then ok (x, ls) else unicode_loop n x ls
  end.

(** The UTF-8 bytes of [\u{x}]. *)
Definition save_utf8 (x : Z) (ls : LexState) : Res LexState :=
  if x <? 0x800 then
    if 0x80 <=? x then ok (save (Z.lor 0x80 (Z.land x 0x3f)) (save (Z.lor 0xc0 (Z.shiftr x 6)) ls))
    else ok (save x ls)
  else
    let! ls := if 0x10000 <=? x then
                 ok (save (Z.lor 0x80 (Z.land (Z.shiftr x 12) 0x3f)) (save (Z.lor 0xf0 (Z.shiftr x 18)) ls))
               else if (0xd800 <=? x) && (x <? 0xe000) then error ls bad_escape
               else ok (save (Z.lor 0xe0 (Z.shiftr x 12)) ls) in
    ok (save (Z.lor 0x80 (Z.land x 0x3f)) (save (Z.lor 0x80 (Z.land (Z.shiftr x 6) 0x3f)) ls)).

Definition unicode_escape (ls : LexState) : Res LexState :=
  let ls := next_char ls in
  if negb (c ls =? 123) then error ls bad_escape else
  let! ' (x, ls) := unicode_loop (fuel ls) 0 (next_char ls) in
  save_utf8 x (next_char ls).

Fixpoint skip_space (n : nat) (ls : LexState) : Res LexState :=
  match n with
  | O => None
  | S n =>
      if is_space (c ls) then
        let! ls := if is_eol ls then newline ls else ok (next_char ls) in skip_space n ls
      else ok ls
  end.

(** Up to three decimal digits, the first one current. *)
Definition dec_escape (ls : LexState) : Res LexState :=
  if negb (is_digit (c ls)) then error ls bad_escape else
  let x := c ls - 48 in
  let ls := next_char ls in
  if is_digit (c ls) then
    let x := x * 10 + (c ls - 48) in
    let ls := next_char ls in
    if is_digit (c ls) then
      let x := x * 10 + (c ls - 48) in
      if 255 <? x then error ls bad_escape else ok (save x (next_char ls))
    else ok (save x ls)
  else ok (save x ls).

(** After the backslash: one turn of the loop of [string]. *)
Definition escape_sequence (ls : LexState) : Res LexState :=
  let ls := next_char ls in
  let put x ls := ok (next_char (save x ls)) in
  let b := uwrap 8 (c ls) in
  if b =? 97 then put 7 ls
  else if b =? 98 then put 8 ls
  else if b =? 102 then put 12 ls
  else if b =? 110 then put 10 ls
  else if b =? 114 then put 13 ls
  else if b =? 116 then put 9 ls
  else if b =? 118 then put 11 ls
  else if b =? 120 then let! ' (x, ls) := hex_escape ls in put x ls
  else if b =? 117 then unicode_escape ls
  else if b =? 122 then let ls := next_char ls in skip_space (fuel ls) ls
  else if (b =? 10) || (b =? 13) then newline (save 10 ls)
  else if (b =? 92) || (b =? 34) || (b =? 39) then put (c ls) ls
  else if c ls =? LEX_EOF then ok ls
  else dec_escape ls.

Fixpoint string_loop (n : nat) (delim : Z) (ls : LexState) : Res LexState :=
  match n with
  | O => None
  | S n =>
      if c ls =? delim then ok ls
      else if c ls =? LEX_EOF then error ls (lit "unfinished string near '<eof>'")
      else if (c ls =? 10) || (c ls =? 13) then error ls (lit "unfinished string near '<string>'")
      else if c ls =? 92 then let! ls := escape_sequence ls in string_loop n delim ls
      else string_loop n delim (save_next ls)
  end.

Definition string (ls : LexState) : Res (Z * LexState) :=
  let delim := c ls in
  let ls := save_next ls in
  let! ls := string_loop (fuel ls) delim ls in
  let ls := save_next ls in
  let? s := slice (sb ls) 1 (length (sb ls) - 1) in
  intern_sb ls s.

(** ** Tokens *)

Definition eat (x : Z) (ls : LexState) : bool * LexState :=
  if c ls =? x then (true, next_char ls) else (false, ls).

Fixpoint ident_chars (n : nat) (ls : LexState) : Res LexState :=
  match n with
  | O => None
  | S n => if is_ident (c ls) then ident_chars n (save_next ls) else ok ls
  end.

Definition keyword (s : list Z) : Tok.t :=
  match List.find (fun k => bool_decide (fst k = s)) KEYWORDS with Some (_, t) => t | None => Tok.Name end.

Definition scan_name_or_keyword (ls : LexState) : Res ((Tok.t * TokVal) * LexState) :=
  let! ls := ident_chars (fuel ls) ls in
  let! ' (id, ls) := intern_sb ls (sb ls) in
  ok (keyword (sb ls), tokval_str id, ls).

Fixpoint skip_line (n : nat) (ls : LexState) : Res LexState :=
  match n with
  | O => None
  | S n => if negb (is_eol ls) && negb (c ls =? LEX_EOF) then skip_line n (next_char ls) else ok ls
  end.

Definition scan_comment (ls : LexState) : Res LexState :=
  if c ls =? 91 then
    let! ' (sep, ls) := skip_eq ls in
    let ls := set_sb ls [] in
    if 0 <=? sep then let! ' (_, ls) := long_string false sep ls in ok (set_sb ls [])
    else skip_line (fuel ls) ls
  else skip_line (fuel ls) ls.

(** What both places that scan a number return: the literal's flags come from
    the current token's value, and are cleared. *)
Definition number_token (ls : LexState) : Res ((Tok.t * TokVal) * LexState) :=
  let! ' (n, ls) := lex_number ls in
  let v := tokval ls in
  ok (Tok.Number, mkTokVal n 0 (is_cdata v) (cdata_bits v) (cdata_is_ull v) (cdata_is_imag v),
      set_tokval ls (mkTokVal (num v) (str v) false 0 false false)).

(** A token decided by the character after it: [alts] are tried in order. *)
Fixpoint eat_first (alts : list (Z * Tok.t)) (d : Tok.t) (ls : LexState) : Tok.t * LexState :=
  match alts with
  | [] => (d, ls)
  | (x, t) :: alts => let '(b, ls') := eat x ls in if b then (t, ls') else eat_first alts d ls
  end.

Definition token {A} (t : Tok.t) (ls : A) : Res ((Tok.t * TokVal) * A) := ok (t, tokval_default, ls).

Fixpoint scan_loop (n : nat) (ls : LexState) : Res ((Tok.t * TokVal) * LexState) :=
  match n with
  | O => None
  | S n =>
      if is_digit (c ls) then number_token ls
      else if is_ident (c ls) then scan_name_or_keyword ls
      else if c ls =? LEX_EOF then token Tok.Eof ls
      else
        let op alts d := let '(t, ls) := eat_first alts d (next_char ls) in token t ls in
        let x := uwrap 8 (c ls) in
        if (x =? 10) || (x =? 13) then let! ls := newline ls in scan_loop n ls
        else if (x =? 32) || (x =? 9) || (x =? 11) || (x =? 12) then scan_loop n (next_char ls)
        else if x =? 45 then
          let '(b, ls) := eat 62 (next_char ls) in
          if b then token Tok.Arrow ls else
          let '(b, ls) := eat 45 ls in
          if b then let! ls := scan_comment ls in scan_loop n ls else token (Tok.Char 45) ls
        else if x =? 91 then
          let! ' (sep, ls) := skip_eq ls in
          if 0 <=? sep then
            let! ' (id, ls) := long_string true sep ls in
            let? id := id in ok (Tok.Str, tokval_str id, ls)
          else if sep =? -1 then token (Tok.Char 91) ls
          else error ls (lit "invalid long string delimiter")
        else if x =? 61 then op [(61, Tok.Eq)] (Tok.Char 61)
        else if x =? 60 then op [(61, Tok.Le); (60, Tok.Shl)] (Tok.Char 60)
        else if x =? 62 then op [(61, Tok.Ge); (62, Tok.Shr)] (Tok.Char 62)
        else if x =? 126 then
          let '(b, ls) := eat 61 (next_char ls) in
          if b then token Tok.Ne ls else
          let '(b, ls) := eat 62 ls in
          if b then let '(b, ls) := eat 62 ls in
                    if b then token Tok.Sar ls else error ls (lit "unexpected symbol")
          else token (Tok.Char 126) ls
        else if x =? 33 then op [(61, Tok.NeBang)] (Tok.Char 33)
        else if x =? 58 then op [(58, Tok.Label)] (Tok.Char 58)
        else if x =? 63 then op [(46, Tok.Nav); (63, Tok.Coal)] (Tok.Char 63)
        else if x =? 38 then op [(38, Tok.AndAnd)] (Tok.Char 38)
        else if x =? 124 then op [(124, Tok.OrOr)] (Tok.Char 124)
        else if (x =? 34) || (x =? 39) then
          let! ' (id, ls) := string ls in ok (Tok.Str, tokval_str id, ls)
        else if x =? 46 then
          let ls := save_next ls in
          if c ls =? 46 then
            let '(b, ls) := eat 46 (next_char ls) in
            token (if b : bool then Tok.Dots else Tok.Concat) ls
          else if is_digit (c ls) then number_token ls
          else token (Tok.Char 46) ls
        else token (Tok.Char x) (next_char ls)
  end.

Definition scan (ls : LexState) : Res ((Tok.t * TokVal) * LexState) :=
  let ls := set_sb (set_tok_start ls (pos ls - 1)) [] in
  scan_loop (fuel ls) ls.

Definition next (ls : LexState) : Res LexState :=
  let ls := set_lastline ls (linenumber ls) in
  if decide (lookahead ls = Tok.Eof) then
    let! ' (t, v, ls) := scan ls in ok (set_tok ls t v)
  else
    ok (set_lookahead (set_tok ls (lookahead ls) (lookaheadval ls)) Tok.Eof (lookaheadval ls)).

Definition peek (ls : LexState) : Res (Tok.t * LexState) :=
  if decide (lookahead ls = Tok.Eof) then
    let! ' (t, v, ls) := scan ls in ok (t, set_lookahead ls t v)
  else None.

(** [LexState::new]: a byte order mark and a line with [#!] are skipped. *)
Definition new (text name : list Z) (st : St) : Res LexState :=
  let ls := next_char (mkLex text 0 0 0 Tok.Eof tokval_default Tok.Eof tokval_default [] 1 1 name st) in
  let ls := if (c ls =? 0xef) && bool_decide (src ls !! pos ls = Some 0xbb) && bool_decide (src ls !! S (pos ls) = Some 0xbf)
            then next_char (set_char ls (pos ls + 2) (c ls)) else ls in
  if c ls =? 35 then
    let! ls := skip_line (fuel ls) ls in
    if negb (c ls =? LEX_EOF) then newline ls else ok ls
  else ok ls.

End Lexer.

Arguments LexState : clear implicits.
