(* ===== verification/LexSpec.v ===== *)
(** * The lexer terminates, makes progress and does not panic

    [chars] is the text from the current character on.  Each function is
    described by [post]: from a well-formed state it returns a state that
    satisfies the postcondition, or an error that names the chunk and a line
    at or after the current one. *)

From Stdlib Require Import ZArith Lia Bool String.
From stdpp Require Import base decidable numbers option list.
From S2P Require Import Prelude Float64 Strings PatClass FloatText StrScan StrFmt Lex.

Section LexSpec.
Context {St : Type} `{Strings St}.

Abbreviation LexState := (LexState St).

(** ** Well-formed states *)

Definition chars (ls : LexState) : list Z := if c ls =? LEX_EOF then [] else c ls :: drop (pos ls) (src ls).

Record wf (ls : LexState) : Prop := {
  wf_src : Forall (urange 8) (src ls);
  wf_pos : (pos ls <= length (src ls))%nat;
  wf_c : c ls = LEX_EOF /\ pos ls = length (src ls) \/ urange 8 (c ls);
  wf_line : 1 <= linenumber ls < 0x7fffff00;
}.

(** What lexing leaves alone, and what only moves forward. *)
Record step (ls ls' : LexState) : Prop := {
  step_wf : wf ls';
  step_src : src ls' = src ls;
  step_name : chunkname ls' = chunkname ls;
  step_strs : strs ls' = strs ls;
  step_look : lookahead ls' = lookahead ls;
  step_line : linenumber ls <= linenumber ls';
  step_chars : (length (chars ls') <= length (chars ls))%nat;
  step_tok : tok ls' = tok ls;
}.

Lemma step_refl (ls : LexState) : wf ls -> step ls ls.
Proof. by constructor. Qed.

Lemma step_trans ls1 ls2 ls3 : step ls1 ls2 -> step ls2 ls3 -> step ls1 ls3.
Proof. intros [] []. constructor; [done|congruence..|lia|lia|congruence]. Qed.

Definition err_at (ls : LexState) (e : list Z) : Prop :=
  exists line msg, e = chunkname ls ++ 58 :: dec_digits line ++ lit ": " ++ msg /\ linenumber ls <= line.

Definition post {A} (ls : LexState) (Q : A -> Prop) (r : Res A) : Prop :=
  match r with Some (inl a) => Q a | Some (inr e) => err_at ls e | None => False end.

Lemma post_bind {A B} ls (P : A -> Prop) (Q : B -> Prop) m k :
  post ls P m -> (forall a, P a -> post ls Q (k a)) -> post ls Q (rbind m k).
Proof. destruct m as [[a|e]|]; cbn; auto. Qed.

Lemma post_step {A} ls ls' (Q : A -> Prop) r : step ls ls' -> post ls' Q r -> post ls Q r.
Proof.
  intros Hs. destruct r as [[a|e]|]; cbn; [done| |done]. intros (line & msg & -> & Hl).
  exists line, msg. destruct Hs. split; [congruence|lia].
Qed.

Lemma post_weaken {A} ls (P Q : A -> Prop) r : post ls P r -> (forall a, P a -> Q a) -> post ls Q r.
Proof. destruct r as [[a|e]|]; cbn; auto. Qed.

Lemma post_error {A} ls (Q : A -> Prop) msg : post ls Q (error ls msg).
Proof. exists (linenumber ls), msg. split; [done|lia]. Qed.

(** ** Single characters *)

Lemma chars_c (ls : LexState) : wf ls -> c ls = default LEX_EOF (head (chars ls)).
Proof. intros _. unfold chars. destruct (Z.eqb_spec (c ls) LEX_EOF) as [->|]; done. Qed.

Lemma chars_nil (ls : LexState) : chars ls = [] <-> c ls = LEX_EOF.
Proof. unfold chars. by destruct (Z.eqb_spec (c ls) LEX_EOF). Qed.

Lemma drop_lookup {A} (l : list A) n x : l !! n = Some x -> drop n l = x :: drop (S n) l.
Proof. revert n. induction l as [|y l IH]; intros [|n]; try done; cbn; [by intros [= ->]|apply IH]. Qed.

Lemma next_char_chars (ls : LexState) : wf ls -> chars (next_char ls) = tail (chars ls).
Proof.
  intros [Hb Hp Hc _]. unfold next_char, chars. destruct (src ls !! pos ls) as [x|] eqn:E; destruct ls as [src0 pos0 ts0 c0 tok0 tv0 la0 lav0 sb0 ln0 ll0 cn0 st0]; cbn in *.
  - rewrite (drop_lookup _ _ _ E). pose proof (lookup_lt_Some _ _ _ E).
    assert (urange 8 x) as Hx by (rewrite Forall_lookup in Hb; by eapply Hb).
    destruct (Z.eqb_spec x LEX_EOF) as [->|]; [unfold LEX_EOF, urange in Hx; lia|].
    destruct Hc as [[-> Hl]|Hc]; [lia|]. destruct (Z.eqb_spec c0 LEX_EOF) as [->|]; [unfold LEX_EOF, urange in Hc; lia|done].
  - apply lookup_ge_None in E. destruct (c0 =? LEX_EOF); [done|]. cbn. by rewrite drop_ge.
Qed.

Lemma next_char_wf (ls : LexState) : wf ls -> wf (next_char ls).
Proof.
  intros [Hb Hp Hc Hl]. unfold next_char. destruct (src ls !! pos ls) as [x|] eqn:E; destruct ls; cbn in *; constructor; cbn; try done.
  - by pose proof (lookup_lt_Some _ _ _ E).
  - right. rewrite Forall_lookup in Hb. by eapply Hb.
  - left. split; [done|]. apply lookup_ge_None in E. lia.
Qed.

Lemma next_char_same (ls : LexState) : src (next_char ls) = src ls /\ chunkname (next_char ls) = chunkname ls /\ strs (next_char ls) = strs ls /\
  lookahead (next_char ls) = lookahead ls /\ linenumber (next_char ls) = linenumber ls /\ sb (next_char ls) = sb ls /\
  tokval (next_char ls) = tokval ls /\ tok (next_char ls) = tok ls /\ lookaheadval (next_char ls) = lookaheadval ls /\
  lastline (next_char ls) = lastline ls.
Proof. unfold next_char. destruct (src ls !! pos ls), ls; done. Qed.

Lemma next_char_step (ls : LexState) : wf ls -> step ls (next_char ls).
Proof.
  intros Hw. destruct (next_char_same ls) as (E1 & E2 & E3 & E4 & E5 & _ & _ & E6 & _). constructor; try done; [by apply next_char_wf|lia|].
  rewrite next_char_chars by done. destruct (chars ls); cbn; lia.
Qed.

(** The progress of [next_char] off the end. *)
Lemma next_char_lt (ls : LexState) : wf ls -> c ls <> LEX_EOF -> (length (chars (next_char ls)) < length (chars ls))%nat.
Proof.
  intros Hw Hc. rewrite next_char_chars by done. unfold chars. destruct (Z.eqb_spec (c ls) LEX_EOF); [done|]. cbn. lia.
Qed.

Lemma same_step (ls ls' : LexState) : wf ls -> src ls' = src ls -> pos ls' = pos ls -> c ls' = c ls ->
  linenumber ls <= linenumber ls' < 0x7fffff00 -> chunkname ls' = chunkname ls -> strs ls' = strs ls ->
  lookahead ls' = lookahead ls -> tok ls' = tok ls -> step ls ls'.
Proof.
  intros [] E1 E2 E3 E4 E5 E6 E7 E8. constructor; try done; [|lia|].
  - constructor; rewrite ?E1, ?E2, ?E3; try done. lia.
  - unfold chars. by rewrite E1, E2, E3.
Qed.

Ltac same := apply same_step; [done|match goal with ls : Lex.LexState St |- _ => destruct ls; cbn in *; first [done|lia] end..].

Lemma save_step x (ls : LexState) : wf ls -> step ls (save x ls).
Proof. intros Hw. pose proof (wf_line _ Hw). same. Qed.

Lemma set_sb_step (ls : LexState) b : wf ls -> step ls (set_sb ls b).
Proof. intros Hw. pose proof (wf_line _ Hw). same. Qed.

Lemma save_chars x (ls : LexState) : chars (save x ls) = chars ls /\ c (save x ls) = c ls /\ sb (save x ls) = sb ls ++ [uwrap 8 x].
Proof. by destruct ls. Qed.

Lemma save_next_step (ls : LexState) : wf ls -> step ls (save_next ls).
Proof. intros Hw. eapply step_trans; [by apply save_step|]. apply next_char_step. by apply (save_step (c ls) ls). Qed.

Lemma save_next_sb (ls : LexState) : sb (save_next ls) = sb ls ++ [uwrap 8 (c ls)].
Proof. unfold save_next. destruct (next_char_same (save (c ls) ls)) as (_ & _ & _ & _ & _ & -> & _). by destruct ls. Qed.

Lemma save_next_chars (ls : LexState) : wf ls -> chars (save_next ls) = tail (chars ls).
Proof. intros Hw. unfold save_next. rewrite next_char_chars by by apply (save_step (c ls) ls). by destruct ls. Qed.

Lemma save_next_lt (ls : LexState) : wf ls -> c ls <> LEX_EOF -> (length (chars (save_next ls)) < length (chars ls))%nat.
Proof.
  intros Hw Hc. rewrite save_next_chars by done. rewrite <- chars_nil in Hc. destruct (chars ls); [done|]. cbn. lia.
Qed.

Lemma fuel_chars (ls : LexState) : wf ls -> (length (chars ls) < fuel ls)%nat.
Proof. intros []. unfold chars, fuel. destruct (_ =? _); cbn; rewrite ?length_drop; lia. Qed.

Lemma is_eol_not_eof (ls : LexState) : is_eol ls = true -> c ls <> LEX_EOF.
Proof. unfold is_eol, LEX_EOF. destruct (Z.eqb_spec (c ls) 10), (Z.eqb_spec (c ls) 13); cbn; try done; lia. Qed.

Lemma set_linenumber_step (ls : LexState) n : wf ls -> linenumber ls <= n < 0x7fffff00 -> step ls (set_linenumber ls n).
Proof. intros Hw Hn. same. Qed.

(** Strictly forward, with the end of the buffer [d]. *)
Definition moved (ls : LexState) (ls' : LexState) : Prop := step ls ls' /\ (length (chars ls') < length (chars ls))%nat.

Lemma newline_post (ls : LexState) : wf ls -> is_eol ls = true ->
  post ls (fun ls' => moved ls ls' /\ sb ls' = sb ls) (newline ls).
Proof.
  intros Hw He. unfold newline. rewrite He. cbn [negb].
  pose proof (next_char_step ls Hw) as Hs. pose proof (next_char_lt ls Hw (is_eol_not_eof ls He)) as Hlt.
  set (ls1 := next_char ls) in *.
  assert (sb ls1 = sb ls) as Hsb by apply next_char_same.
  set (ls2 := if is_eol ls1 && _ then _ else _).
  assert (step ls ls2 /\ (length (chars ls2) < length (chars ls))%nat /\ sb ls2 = sb ls) as (Hs2 & Hlt2 & Hsb2).
  { subst ls2. destruct (_ && _); [|done]. pose proof (next_char_step ls1 (step_wf _ _ Hs)) as H2.
    split; [by eapply step_trans|]. split; [destruct H2; lia|]. rewrite <- Hsb. apply next_char_same. }
  clearbody ls2. assert (linenumber (set_linenumber ls2 (linenumber ls2 + 1)) = linenumber ls2 + 1) as Hl by by destruct ls2.
  rewrite Hl. destruct (Z.leb_spec 0x7fffff00 (linenumber ls2 + 1)).
  - exists (linenumber (set_linenumber ls2 (linenumber ls2 + 1))), (lit "chunk has too many lines").
    destruct Hs2. split; [|lia]. unfold error. by destruct ls2; cbn in *; subst.
  - cbn. assert (step ls2 (set_linenumber ls2 (linenumber ls2 + 1))) as Hs3.
    { apply set_linenumber_step; [by apply Hs2|lia]. }
    split; [|by destruct ls2]. split; [by eapply step_trans|]. destruct Hs3. lia.
Qed.

(** ** Loops *)

Lemma moved_step (ls ls1 ls2 : LexState) : step ls ls1 -> moved ls1 ls2 -> moved ls ls2.
Proof. intros H1 [H2 Hlt]. split; [by eapply step_trans|]. destruct H1. lia. Qed.

Lemma moved_trans (ls ls1 ls2 : LexState) : moved ls ls1 -> step ls1 ls2 -> moved ls ls2.
Proof. intros [H1 Hlt] H2. split; [by eapply step_trans|]. destruct H2. lia. Qed.

Lemma next_char_moved (ls : LexState) : wf ls -> c ls <> LEX_EOF -> moved ls (next_char ls).
Proof. intros. split; [by apply next_char_step|by apply next_char_lt]. Qed.

Lemma save_next_moved (ls : LexState) : wf ls -> c ls <> LEX_EOF -> moved ls (save_next ls).
Proof. intros. split; [by apply save_next_step|by apply save_next_lt]. Qed.

Lemma ident_not_eof (ls : LexState) : is_ident (c ls) = true -> c ls <> LEX_EOF.
Proof. intros E E'. by rewrite E' in E. Qed.

Lemma skip_underscores_post n : forall ls : LexState, wf ls -> (length (chars ls) < n)%nat ->
  post ls (step ls) (skip_underscores n ls).
Proof.
  induction n as [|n IH]; intros ls Hw Hn; [lia|]. cbn [skip_underscores]. pose proof (next_char_step ls Hw) as Hs.
  destruct (Z.eqb_spec (c (next_char ls)) 95) as [E|_]; [|done].
  assert (c ls <> LEX_EOF) as Hc.
  { rewrite <- chars_nil. intros E0. assert (chars (next_char ls) = []) as E1 by by rewrite next_char_chars, E0.
    apply chars_nil in E1. by rewrite E1 in E. }
  eapply post_step; [exact Hs|]. eapply post_weaken; [apply IH; [apply Hs|]|].
  - pose proof (next_char_lt ls Hw Hc). lia.
  - intros ls' Hs'. by eapply step_trans.
Qed.

(** Loops that look at the current character before they move. *)
Lemma bin_digits_post n : forall ls : LexState, wf ls -> (length (chars ls) < n)%nat -> post ls (step ls) (bin_digits n ls).
Proof.
  induction n as [|n IH]; intros ls Hw Hn; [lia|]. cbn [bin_digits]. pose proof (next_char_step ls Hw) as Hs.
  destruct (_ || _) eqn:E; [|done].
  assert (c ls <> LEX_EOF) as Hc.
  { rewrite <- chars_nil. intros E0. assert (chars (next_char ls) = []) as E1 by by rewrite next_char_chars, E0.
    apply chars_nil in E1. by rewrite E1 in E. }
  pose proof (next_char_lt ls Hw Hc). set (ls2 := if negb _ then _ else _).
  assert (step (next_char ls) ls2 /\ chars ls2 = chars (next_char ls)) as [Hs2 E2].
  { subst ls2. destruct (negb _); [split; [apply save_step, Hs|apply save_chars]|split; [apply step_refl, Hs|done]]. }
  pose proof (step_trans _ _ _ Hs Hs2) as Hs3.
  eapply post_step; [exact Hs3|]. eapply post_weaken; [apply IH; [apply Hs2|rewrite E2; lia]|].
  intros ls' Hs'. by eapply step_trans.
Qed.

Lemma suffix_letters_post n : forall ls : LexState, wf ls -> (length (chars ls) < n)%nat -> post ls (step ls) (suffix_letters n ls).
Proof.
  induction n as [|n IH]; intros ls Hw Hn; [lia|]. cbn [suffix_letters]. destruct (_ || _) eqn:E; [|by apply step_refl].
  assert (c ls <> LEX_EOF) as Hc by (intros E0; by rewrite E0 in E).
  pose proof (save_next_step ls Hw) as Hs. pose proof (save_next_lt ls Hw Hc).
  eapply post_step; [exact Hs|]. eapply post_weaken; [apply IH; [apply Hs|lia]|]. intros ls' Hs'. by eapply step_trans.
Qed.

Lemma number_chars_post n xp : xp <> -1 -> forall last (ls : LexState), wf ls -> (length (chars ls) < n)%nat ->
  post ls (fun ls' => step ls ls' /\ (is_ident (c ls) = true -> moved ls ls')) (number_chars n xp last ls).
Proof.
  intros Hxp. induction n as [|n IH]; intros last ls Hw Hn; [lia|]. cbn [number_chars].
  destruct (_ || _) eqn:E; [|split; [by apply step_refl|]; intros Hi; by rewrite Hi in E].
  assert (c ls <> LEX_EOF) as Hc by (intros E0; by rewrite E0 in E). clear E.
  set (p := if c ls =? 95 then _ else _).
  assert (moved ls (next_char (snd p))) as Hm.
  { subst p. destruct (c ls =? 95); cbn [snd]; [by apply next_char_moved|by apply (save_next_moved ls)]. }
  destruct p as [last' ls1]. cbn [snd] in Hm. pose proof (proj1 Hm) as Hs.
  eapply post_step; [exact Hs|]. eapply post_weaken; [apply IH; [apply Hs|destruct Hm; lia]|].
  intros ls' [Hs' _]. split; [by eapply step_trans|]. intros _. by eapply moved_trans.
Qed.

Lemma set_cdata_step (ls : LexState) b u i : wf ls -> step ls (set_cdata ls b u i).
Proof. intros Hw. pose proof (wf_line _ Hw). same. Qed.

Lemma lex_binary_post (ls : LexState) : wf ls -> post ls (fun r => step ls (snd r)) (lex_binary ls).
Proof.
  intros Hw. unfold lex_binary. eapply post_bind; [by apply bin_digits_post, fuel_chars|]. intros ls1 Hs1.
  eapply post_step; [exact Hs1|]. eapply post_bind; [by apply suffix_letters_post; [apply Hs1|apply fuel_chars, Hs1]|]. intros ls2 Hs2.
  eapply post_step; [exact Hs2|]. destruct (bin_suffix (sb ls2)) as [body suffix].
  destruct (scan_bin_to_u64 body) as [u|]; [|apply post_error]. cbn. pose proof (step_trans _ _ _ Hs1 Hs2) as Hs.
  destruct (decide _); [done|]. eapply step_trans; [exact Hs|]. apply set_cdata_step, Hs2.
Qed.

Lemma lex_decimal_post xp last (ls : LexState) : xp <> -1 -> wf ls ->
  post ls (fun r => step ls (snd r) /\ (is_ident (c ls) = true -> moved ls (snd r))) (lex_decimal xp last ls).
Proof.
  intros Hxp Hw. unfold lex_decimal. eapply post_bind; [by apply number_chars_post, fuel_chars|]. intros ls1 [Hs1 Hm].
  eapply post_step; [exact Hs1|]. destruct (scan_number_full (sb ls1)) as [r|]; [|apply post_error]. cbn.
  set (ls2 := if decide _ then _ else _). assert (step ls1 ls2) as Hs2.
  { subst ls2. destruct (decide _); [apply step_refl, Hs1|apply set_cdata_step, Hs1]. }
  split; [by eapply step_trans|]. intros Hi. eapply moved_trans; [by apply Hm|done].
Qed.

Lemma lex_number_post (ls : LexState) : wf ls -> is_digit (c ls) = true -> post ls (fun r => moved ls (snd r)) (lex_number ls).
Proof.
  intros Hw Hd. unfold lex_number. rewrite Hd. cbn [negb].
  assert (is_ident (c ls) = true) as Hi by (unfold is_ident; unfold is_digit in Hd; by rewrite Hd).
  destruct (Z.eqb_spec (c ls) 48) as [E|E].
  - set (ls0 := save (c ls) ls). assert (step ls ls0) as Hs0 by by apply save_step.
    assert (chars ls0 = chars ls) as E0 by apply save_chars.
    (* the first turn of the loop consumes the zero *)
    assert (post ls (moved ls) (skip_underscores (fuel ls) ls0)) as Hp.
    { unfold fuel at 1. set (n := S (length (src ls) - pos ls)). cbn [skip_underscores].
      assert (moved ls (next_char ls0)) as Hm by (apply (save_next_moved ls Hw); by rewrite E).
      destruct (Z.eqb_spec (c (next_char ls0)) 95) as [E1|]; [|done]. pose proof (proj1 Hm) as Hs.
      eapply post_step; [exact Hs|]. eapply post_weaken; [apply skip_underscores_post; [apply Hs|]|].
      - destruct Hm as [_ Hm]. pose proof (fuel_chars ls Hw). unfold fuel in *. subst n. lia.
      - intros ls' Hs'. by eapply moved_trans. }
    replace (fuel ls0) with (fuel ls) by by destruct ls.
    eapply post_bind; [exact Hp|]. intros ls1 Hm1. pose proof (proj1 Hm1) as Hs1. eapply post_step; [exact Hs1|].
    destruct (is_letter 98 (c ls1)).
    + eapply post_weaken; [apply lex_binary_post, Hs1|]. intros r Hr. by eapply moved_trans.
    + eapply post_weaken; [apply lex_decimal_post; [by destruct (is_letter 120 (c ls1))|apply Hs1]|].
      intros r [Hr _]. by eapply moved_trans.
  - eapply post_weaken; [by apply lex_decimal_post|]. intros r [_ Hr]. by apply Hr.
Qed.

(** ** Strings *)

Lemma skip_eq_loop_post n s : forall count (ls : LexState), wf ls -> (length (chars ls) < n)%nat -> c ls <> LEX_EOF -> 0 <= count ->
  sb ls = s -> post ls (fun r => moved ls (snd r) /\
    exists k : nat, fst r = count + Z.of_nat k /\ sb (snd r) = s ++ uwrap 8 (c ls) :: replicate k 61) (skip_eq_loop n count ls).
Proof.
  revert s. induction n as [|n IH]; intros s count ls Hw Hn Hc Hcount Hs; [lia|]. cbn [skip_eq_loop].
  pose proof (save_next_moved ls Hw Hc) as Hm. pose proof (proj1 Hm) as Hst.
  destruct (Z.eqb_spec (c (save_next ls)) 61) as [E|_]; cbn [andb].
  - destruct (count <? 0x20000000).
    + eapply post_step; [exact Hst|]. eapply post_weaken.
      { apply (IH (s ++ [uwrap 8 (c ls)])); [apply Hst|destruct Hm; lia|by rewrite E|lia|]. by rewrite save_next_sb, Hs. }
      intros r [Hr (k & E1 & E2)]. split; [eapply moved_step; [exact Hst|done]|]. exists (S k). split; [lia|].
      rewrite E2, E, <- app_assoc. done.
    + cbn. split; [done|]. exists 0%nat. split; [lia|]. by rewrite save_next_sb, Hs.
  - cbn. split; [done|]. exists 0%nat. split; [lia|]. by rewrite save_next_sb, Hs.
Qed.

(** The separator length, or a negative number; what was read is saved. *)
Lemma skip_eq_post (ls : LexState) : wf ls -> c ls = 91 \/ c ls = 93 ->
  post ls (fun r => moved ls (snd r) /\ exists k, sb (snd r) = sb ls ++ c ls :: replicate k 61 /\
    (0 <= fst r -> c (snd r) = c ls /\ k = Z.to_nat (fst r))) (skip_eq ls).
Proof.
  intros Hw Hc. unfold skip_eq. replace (negb _) with false by (destruct Hc as [-> | ->]; done).
  eapply post_bind.
  { apply (skip_eq_loop_post _ (sb ls)); [done|by apply fuel_chars| |lia|done]. destruct Hc as [-> | ->]; done. }
  intros [k ls1] [Hm (n & E1 & E2)]. cbn [fst snd] in *. cbn. split; [done|].
  exists n. split; [rewrite E2; by destruct Hc as [-> | ->]|].
  destruct (Z.eqb_spec (c ls1) (c ls)) as [E|_]; [|lia]. intros _. split; [done|lia].
Qed.

Lemma long_string_loop_post n is_str sep : 0 <= sep -> forall ls : LexState, wf ls -> (length (chars ls) < n)%nat ->
  post ls (fun ls' => step ls ls' /\ (is_str = true -> exists x, sb ls' = sb ls ++ x /\ 2 + sep <= zlen x))
    (long_string_loop n is_str sep ls).
Proof.
  intros Hsep. induction n as [|n IH]; intros ls Hw Hn; [lia|]. cbn [long_string_loop].
  destruct (Z.eqb_spec (c ls) LEX_EOF) as [|Hc]; [apply post_error|].
  assert (Hrec : forall ls1 x, moved ls ls1 -> (is_str = true -> sb ls1 = sb ls ++ x) ->
    post ls (fun ls' => step ls ls' /\ (is_str = true -> exists x, sb ls' = sb ls ++ x /\ 2 + sep <= zlen x))
      (long_string_loop n is_str sep ls1)).
  { intros ls1 x Hm Hx. pose proof (proj1 Hm) as Hs. eapply post_step; [exact Hs|].
    eapply post_weaken; [apply IH; [apply Hs|destruct Hm; lia]|]. intros ls' [Hs' Hsb].
    split; [by eapply step_trans|]. intros Ht. destruct (Hsb Ht) as (y & E & Hy). exists (x ++ y).
    rewrite E, Hx, <- app_assoc by done. split; [done|]. unfold zlen in *. rewrite length_app. lia. }
  destruct (Z.eqb_spec (c ls) 93) as [E|_].
  - eapply post_bind; [by apply skip_eq_post; [|right]|]. intros [k ls1] [Hm (j & Ej & Hk)]. cbn [fst snd] in *.
    destruct (Z.eqb_spec k sep) as [->|Hne]; [|by eapply Hrec].
    destruct (Hk Hsep) as [E1 ->]. cbn. assert (c ls1 <> LEX_EOF) as Hc1 by congruence.
    split; [eapply step_trans; [apply Hm|apply save_next_step, Hm]|]. intros _.
    exists (c ls :: replicate (Z.to_nat sep) 61 ++ [uwrap 8 (c ls1)]). rewrite save_next_sb, Ej, <- app_assoc. split; [done|].
    unfold zlen. cbn [length]. rewrite length_app, length_replicate. cbn [length]. lia.
  - destruct (_ || _) eqn:E.
    + pose proof (save_step 10 ls Hw) as Hs. eapply post_bind.
      { eapply post_step; [exact Hs|]. apply newline_post; [apply Hs|]. unfold is_eol.
        destruct (save_chars 10 ls) as (_ & -> & _). exact E. }
      intros ls1 [Hm Esb]. apply (moved_step ls) in Hm; [|exact Hs].
      destruct (save_chars 10 ls) as (_ & _ & E10).
      apply (Hrec _ [uwrap 8 10]).
      * destruct is_str; [done|]. eapply moved_trans; [exact Hm|]. apply set_sb_step, Hm.
      * intros ->. by rewrite Esb, E10.
    + apply (Hrec _ [uwrap 8 (c ls)]); [by apply save_next_moved|]. intros _. apply save_next_sb.
Qed.

(** ** Interning *)

Definition keeps (st st' : St) : Prop := forall id b, is_interned st id b -> is_interned st' id b.

(** [step] up to the strings, of which [n] more can be interned. *)
Record scanned (n : nat) (ls ls' : LexState) : Prop := {
  scanned_wf : wf ls';
  scanned_src : src ls' = src ls;
  scanned_name : chunkname ls' = chunkname ls;
  scanned_strs : str_room n (strs ls') /\ keeps (strs ls) (strs ls');
  scanned_look : lookahead ls' = lookahead ls;
  scanned_line : linenumber ls <= linenumber ls';
  scanned_chars : (length (chars ls') <= length (chars ls))%nat;
  scanned_tok : tok ls' = tok ls;
}.

Lemma step_scanned n (ls ls' : LexState) : step ls ls' -> str_room n (strs ls) -> scanned n ls ls'.
Proof. intros [] Hr. constructor; try done. split; [congruence|]. intros id b. congruence. Qed.

Lemma scanned_trans n (ls ls1 ls2 : LexState) : step ls ls1 -> scanned n ls1 ls2 -> scanned n ls ls2.
Proof. intros [] []. constructor; try done; try congruence; lia. Qed.

Lemma intern_post n s (ls : LexState) : wf ls -> str_room (S n) (strs ls) ->
  post ls (fun r => scanned n ls (snd r) /\ is_interned (strs (snd r)) (fst r) s /\ chars (snd r) = chars ls /\ sb (snd r) = sb ls)
    (intern_sb ls s).
Proof.
  intros Hw Hr. unfold intern_sb. destruct (str_intern_ok n (strs ls) s Hr) as (st' & id & -> & Hr' & Hi & Hk). cbn.
  split; [|by destruct ls]. destruct Hw, ls; constructor; cbn in *; try done; try lia.
Qed.

(** ** Escapes *)

(** A step that keeps what was saved. *)
Definition advances (ls ls' : LexState) : Prop := step ls ls' /\ (length (sb ls) <= length (sb ls'))%nat.

Lemma advances_trans (ls ls1 ls2 : LexState) : advances ls ls1 -> advances ls1 ls2 -> advances ls ls2.
Proof. intros [H1 ?] [H2 ?]. split; [by eapply step_trans|lia]. Qed.

Lemma grows_wf (ls ls' : LexState) : advances ls ls' -> wf ls'.
Proof. intros [[] _]. done. Qed.

Lemma post_grows {A} (ls ls' : LexState) (Q : A -> Prop) r : advances ls ls' -> post ls' Q r -> post ls Q r.
Proof. intros [Hs _]. by apply post_step. Qed.

Lemma grows_refl (ls : LexState) : wf ls -> advances ls ls.
Proof. split; [by apply step_refl|done]. Qed.

Lemma next_char_grows (ls : LexState) : wf ls -> advances ls (next_char ls).
Proof. split; [by apply next_char_step|]. destruct (next_char_same ls) as (_ & _ & _ & _ & _ & -> & _). done. Qed.

Lemma save_grows x (ls : LexState) : wf ls -> advances ls (save x ls).
Proof. split; [by apply save_step|]. destruct (save_chars x ls) as (_ & _ & ->). rewrite length_app. lia. Qed.

Lemma save_next_grows (ls : LexState) : wf ls -> advances ls (save_next ls).
Proof. intros. eapply advances_trans; [by apply save_grows|]. by apply next_char_grows, (save_step (c ls) ls). Qed.

Lemma put_post (ls : LexState) x : wf ls -> post ls (advances ls) (ok (next_char (save x ls))).
Proof. intros. eapply advances_trans; [by apply save_grows|]. by apply next_char_grows, (save_step x ls). Qed.

Lemma newline_grows (ls : LexState) : wf ls -> is_eol ls = true -> post ls (advances ls) (newline ls).
Proof. intros. eapply post_weaken; [by apply newline_post|]. intros ls' [[Hs _] Hb]. split; [done|by rewrite Hb]. Qed.

(** Sequencing under [advances]. *)
Lemma bind_grows {A} (ls : LexState) (m : Res A) (f : A -> LexState) k :
  post ls (fun a => advances ls (f a)) m -> (forall a, wf (f a) -> post (f a) (advances (f a)) (k a)) -> post ls (advances ls) (rbind m k).
Proof.
  intros Hm Hk. eapply post_bind; [exact Hm|]. intros a Ha. cbv beta in Ha. eapply post_grows; [exact Ha|].
  eapply post_weaken; [apply Hk; by eapply grows_wf|]. intros. by eapply advances_trans.
Qed.

Lemma then_grows (ls ls1 : LexState) m : advances ls ls1 -> post ls1 (advances ls1) m -> post ls (advances ls) m.
Proof. intros Hg Hm. eapply post_grows; [exact Hg|]. eapply post_weaken; [exact Hm|]. intros. by eapply advances_trans. Qed.

Lemma hex_escape_post (ls : LexState) : wf ls -> post ls (fun r => advances ls (snd r)) (hex_escape ls).
Proof.
  intros Hw. unfold hex_escape. pose proof (next_char_grows ls Hw) as H1.
  pose proof (next_char_grows _ (grows_wf _ _ H1)) as H2. pose proof (advances_trans _ _ _ H1 H2) as H3.
  destruct (_ && _); [eapply post_grows; [exact H1|apply post_error]|].
  destruct (_ && _); [eapply post_grows; [exact H3|apply post_error]|]. exact H3.
Qed.

Lemma unicode_loop_post n : forall x (ls : LexState), wf ls -> (length (chars ls) < n)%nat ->
  post ls (fun r => advances ls (snd r)) (unicode_loop n x ls).
Proof.
  induction n as [|n IH]; intros x ls Hw Hn; [lia|]. cbn [unicode_loop].
  destruct (_ && _) eqn:E; [apply post_error|]. destruct (_ <=? _); [apply post_error|].
  assert (c ls <> LEX_EOF) as Hc by (intros E0; by rewrite E0 in E).
  pose proof (next_char_grows ls Hw) as Hg. destruct (_ =? 125); [exact Hg|].
  eapply post_grows; [exact Hg|]. eapply post_weaken; [apply IH; [by eapply grows_wf|]|].
  - pose proof (next_char_lt ls Hw Hc). lia.
  - intros r Hr. by eapply advances_trans.
Qed.

Lemma save_utf8_post x (ls : LexState) : wf ls -> post ls (advances ls) (save_utf8 x ls).
Proof.
  intros Hw. unfold save_utf8.
  assert (H2 : forall (ls : LexState) a b, wf ls -> advances ls (save b (save a ls))).
  { intros ls0 a b Hw0. pose proof (save_grows a ls0 Hw0) as Hg. eapply advances_trans; [exact Hg|]. by apply save_grows, (grows_wf _ _ Hg). }
  destruct (x <? 0x800).
  - destruct (0x80 <=? x); [by apply H2|by apply save_grows].
  - eapply (bind_grows ls _ (fun l => l)); [|intros; by apply H2].
    destruct (0x10000 <=? x); [by apply H2|]. destruct (_ && _); [apply post_error|by apply save_grows].
Qed.

Lemma unicode_escape_post (ls : LexState) : wf ls -> post ls (advances ls) (unicode_escape ls).
Proof.
  intros Hw. unfold unicode_escape. pose proof (next_char_grows ls Hw) as H1. pose proof (grows_wf _ _ H1) as Hw1.
  eapply then_grows; [exact H1|]. destruct (negb _); [apply post_error|].
  pose proof (next_char_grows _ Hw1) as H2. eapply then_grows; [exact H2|].
  assert (fuel (next_char ls) = S (S (length (src ls) - pos (next_char ls))))%nat as Ef.
  { unfold fuel. by destruct (next_char_same ls) as (-> & _). }
  eapply (bind_grows _ _ snd).
  - apply unicode_loop_post; [by eapply grows_wf|]. pose proof (fuel_chars _ Hw1). destruct H2 as [[] _]. lia.
  - intros [x ls2] Hw2. cbn [snd] in *. eapply then_grows; [by apply next_char_grows|]. apply save_utf8_post. by apply next_char_wf.
Qed.

Lemma skip_space_post n : forall ls : LexState, wf ls -> (length (chars ls) < n)%nat -> post ls (advances ls) (skip_space n ls).
Proof.
  induction n as [|n IH]; intros ls Hw Hn; [lia|]. cbn [skip_space]. destruct (is_space (c ls)) eqn:E; [|by apply grows_refl].
  assert (c ls <> LEX_EOF) as Hc by (intros E0; by rewrite E0 in E).
  eapply post_bind with (P := fun ls1 => advances ls ls1 /\ (length (chars ls1) < length (chars ls))%nat).
  - destruct (is_eol ls) eqn:Ee.
    + eapply post_weaken; [by apply newline_post|]. intros ls1 [[Hs Hlt] Hb]. split; [split; [done|by rewrite Hb]|done].
    + cbn. split; [by apply next_char_grows|by apply next_char_lt].
  - intros ls1 [Hg Hlt]. eapply then_grows; [exact Hg|]. apply IH; [by eapply grows_wf|lia].
Qed.

Lemma dec_escape_post (ls : LexState) : wf ls -> post ls (advances ls) (dec_escape ls).
Proof.
  intros Hw. unfold dec_escape. destruct (negb _); [apply post_error|].
  pose proof (next_char_grows ls Hw) as H1. pose proof (grows_wf _ _ H1) as Hw1.
  pose proof (next_char_grows _ Hw1) as H2. pose proof (grows_wf _ _ H2) as Hw2.
  eapply then_grows; [exact H1|]. destruct (is_digit _); [|by apply save_grows].
  eapply then_grows; [exact H2|]. destruct (is_digit _); [|by apply save_grows].
  destruct (255 <? _); [apply post_error|]. eapply then_grows; [by apply next_char_grows|]. by apply save_grows, next_char_wf.
Qed.

Lemma escape_sequence_post (ls : LexState) : wf ls -> c ls <> LEX_EOF ->
  post ls (fun ls' => advances ls ls' /\ (length (chars ls') < length (chars ls))%nat) (escape_sequence ls).
Proof.
  intros Hw Hc. pose proof (next_char_grows ls Hw) as H1. pose proof (grows_wf _ _ H1) as Hw1. pose proof (next_char_lt ls Hw Hc).
  eapply post_weaken with (P := advances (next_char ls)); [eapply post_grows; [exact H1|]|].
  - unfold escape_sequence.
    repeat match goal with |- post _ _ (if ?b =? _ then ok _ else _) => destruct (b =? _); [by apply put_post|] end.
    destruct (_ =? 120).
    { eapply (bind_grows _ _ snd); [by apply hex_escape_post|]. intros [x ls1] Hw2. by apply put_post. }
    destruct (_ =? 117); [by apply unicode_escape_post|].
    destruct (_ =? 122).
    { pose proof (next_char_wf _ Hw1). eapply then_grows; [by apply next_char_grows|]. by apply skip_space_post, fuel_chars. }
    match goal with |- post _ _ (if ?b then _ else _) => destruct b eqn:E end.
    { pose proof (save_grows 10 _ Hw1) as Hg. eapply then_grows; [exact Hg|]. apply newline_grows; [by eapply grows_wf|].
      unfold is_eol. destruct (save_chars 10 (next_char ls)) as (_ & -> & _).
      destruct (wf_c _ Hw1) as [[E0 _]|Hb]; [by rewrite E0 in E|]. by rewrite uwrap_small in E. }
    match goal with |- post _ _ (if ?b then _ else _) => destruct b; [by apply put_post|] end. destruct (_ =? LEX_EOF); [by apply grows_refl|by apply dec_escape_post].
  - intros ls' Hg. split; [by eapply advances_trans|]. destruct Hg as [[] _]. lia.
Qed.

Lemma string_loop_post n delim : delim <> LEX_EOF -> forall ls : LexState, wf ls -> (length (chars ls) < n)%nat ->
  post ls (fun ls' => advances ls ls' /\ c ls' = delim) (string_loop n delim ls).
Proof.
  intros Hd. induction n as [|n IH]; intros ls Hw Hn; [lia|]. cbn [string_loop].
  destruct (Z.eqb_spec (c ls) delim) as [E|]; [split; [by apply grows_refl|done]|].
  destruct (Z.eqb_spec (c ls) LEX_EOF); [apply post_error|]. destruct (_ || _); [apply post_error|].
  assert (Hrec : forall ls1, advances ls ls1 -> (length (chars ls1) < length (chars ls))%nat ->
    post ls (fun ls' => advances ls ls' /\ c ls' = delim) (string_loop n delim ls1)).
  { intros ls1 Hg Hlt. eapply post_grows; [exact Hg|]. eapply post_weaken; [apply IH; [by eapply grows_wf|lia]|].
    intros ls' [Hg' E]. split; [by eapply advances_trans|done]. }
  destruct (c ls =? 92).
  - eapply post_bind; [by apply escape_sequence_post|]. intros ls1 [Hg Hlt]. by apply Hrec.
  - apply Hrec; [by apply save_next_grows|by apply save_next_lt].
Qed.

(** ** Tokens *)

Lemma slice_some s a b : (a <= b)%nat -> (b <= length s)%nat -> slice s a b = Some (take (b - a) (drop a s)).
Proof. intros. unfold slice. by destruct (Nat.leb_spec a b), (Nat.leb_spec b (length s)); try lia. Qed.

(** A string token: its bytes are interned. *)
Definition str_ok n (ls : LexState) (r : Z * LexState) : Prop :=
  scanned n ls (snd r) /\ (length (chars (snd r)) < length (chars ls))%nat /\ exists s, is_interned (strs (snd r)) (fst r) s.

Lemma intern_scanned n s (ls ls1 : LexState) : moved ls ls1 -> str_room (S n) (strs ls) -> post ls (str_ok n ls) (intern_sb ls1 s).
Proof.
  intros [Hs Hlt] Hr. eapply post_step; [exact Hs|].
  eapply post_weaken; [apply (intern_post n); [apply Hs|by rewrite (step_strs _ _ Hs)]|].
  intros r (H1 & H2 & E & _). split; [by eapply scanned_trans|]. split; [rewrite E; lia|by exists s].
Qed.

Lemma string_post n (ls : LexState) : wf ls -> c ls <> LEX_EOF -> str_room (S n) (strs ls) -> post ls (str_ok n ls) (string ls).
Proof.
  intros Hw Hc Hr. unfold string. pose proof (save_next_moved ls Hw Hc) as Hm. pose proof (proj1 Hm) as Hs.
  pose proof (save_next_sb ls) as Esb. set (ls1 := save_next ls) in *.
  eapply post_bind.
  { eapply post_step; [exact Hs|]. apply string_loop_post; [exact Hc|apply Hs|apply fuel_chars, Hs]. }
  intros ls2 [[Hs2 Hl2] E2].
  assert (moved ls (save_next ls2)) as Hm2.
  { eapply moved_trans; [exact Hm|]. eapply step_trans; [exact Hs2|]. apply save_next_step, Hs2. }
  rewrite slice_some; [by apply intern_scanned| |lia]. rewrite save_next_sb, length_app.
  rewrite Esb, length_app in Hl2. cbn in *. lia.
Qed.

Lemma long_string_post n is_str sep (ls : LexState) : wf ls -> c ls <> LEX_EOF -> 0 <= sep ->
  (is_str = true -> 1 + sep <= zlen (sb ls) /\ str_room (S n) (strs ls)) ->
  post ls (fun r => if is_str : bool then exists id, fst r = Some id /\ str_ok n ls (id, snd r)
                    else fst r = None /\ moved ls (snd r)) (long_string is_str sep ls).
Proof.
  intros Hw Hc Hsep Hr. unfold long_string. pose proof (save_next_moved ls Hw Hc) as Hm. pose proof (proj1 Hm) as Hs.
  pose proof (save_next_sb ls) as Esb. set (ls1 := save_next ls) in *.
  eapply post_bind with (P := fun ls2 => moved ls ls2 /\ sb ls2 = sb ls1).
  { destruct (is_eol ls1) eqn:E; [|done]. eapply post_step; [exact Hs|]. eapply post_weaken; [apply newline_post; [apply Hs|done]|].
    intros ls2 [Hm2 E2]. split; [by eapply moved_step|done]. }
  intros ls2 [Hm2 E2]. pose proof (proj1 Hm2) as Hs2. eapply post_bind.
  { eapply post_step; [exact Hs2|]. apply (long_string_loop_post _ is_str sep Hsep); [apply Hs2|apply fuel_chars, Hs2]. }
  intros ls3 [Hs3 Hx]. assert (moved ls ls3) as Hm3 by by eapply moved_trans.
  destruct is_str; [|done]. destruct (Hx eq_refl) as (x & Ex & Hlx). destruct (Hr eq_refl) as [Hl Hroom].
  assert (2 * (2 + sep) <= zlen (sb ls3)) as Hlen.
  { rewrite Ex, E2, Esb. unfold zlen in *. rewrite !length_app. cbn [length]. lia. }
  unfold zlen in Hlen. destruct (Nat.ltb_spec (length (sb ls3)) (2 + Z.to_nat sep)); [lia|].
  rewrite slice_some by lia. eapply post_bind; [by apply (intern_scanned n)|]. intros [id ls4] Hok. cbn. by exists id.
Qed.

Lemma ident_chars_post n : forall ls : LexState, wf ls -> (length (chars ls) < n)%nat ->
  post ls (fun ls' => step ls ls' /\ (is_ident (c ls) = true -> moved ls ls')) (ident_chars n ls).
Proof.
  induction n as [|n IH]; intros ls Hw Hn; [lia|]. cbn [ident_chars]. destruct (is_ident (c ls)) eqn:E; [|by split; [apply step_refl|]].
  pose proof (save_next_moved ls Hw (ident_not_eof ls E)) as Hm. pose proof (proj1 Hm) as Hs.
  eapply post_step; [exact Hs|]. eapply post_weaken; [apply IH; [apply Hs|destruct Hm; lia]|].
  intros ls' [Hs' _]. split; [by eapply step_trans|]. intros _. by eapply moved_trans.
Qed.

Lemma skip_line_post n : forall ls : LexState, wf ls -> (length (chars ls) < n)%nat ->
  post ls (fun ls' => step ls ls' /\ (c ls' = LEX_EOF \/ is_eol ls' = true)) (skip_line n ls).
Proof.
  induction n as [|n IH]; intros ls Hw Hn; [lia|]. cbn [skip_line].
  destruct (is_eol ls) eqn:E; [split; [by apply step_refl|by right]|].
  destruct (Z.eqb_spec (c ls) LEX_EOF); [split; [by apply step_refl|by left]|]. cbn [negb andb].
  pose proof (next_char_moved ls Hw n0) as [Hs Hlt]. eapply post_step; [exact Hs|].
  eapply post_weaken; [apply IH; [apply Hs|lia]|]. intros ls' [Hs' He]. split; [by eapply step_trans|done].
Qed.

Lemma scan_comment_post (ls : LexState) : wf ls -> post ls (step ls) (scan_comment ls).
Proof.
  intros Hw. unfold scan_comment. assert (Hline : forall ls1, step ls ls1 -> post ls (step ls) (skip_line (fuel ls1) ls1)).
  { intros ls1 Hs. eapply post_step; [exact Hs|]. eapply post_weaken; [apply skip_line_post; [apply Hs|apply fuel_chars, Hs]|].
    intros ls2 [Hs2 _]. by eapply step_trans. }
  destruct (Z.eqb_spec (c ls) 91) as [E|]; [|by apply Hline, step_refl].
  eapply post_bind; [by apply skip_eq_post; [|left]|]. intros [k ls1] [[Hs1 _] (j & Ej & Hk)]. cbn [fst snd] in *.
  assert (step ls (set_sb ls1 [])) as Hs2 by (eapply step_trans; [exact Hs1|]; apply set_sb_step, Hs1).
  destruct (Z.leb_spec 0 k); [|by apply Hline]. eapply post_bind.
  { eapply post_step; [exact Hs2|]. apply (long_string_post 0 false); [apply Hs2| |done|done].
    replace (c (set_sb ls1 [])) with (c ls1) by by destruct ls1. by rewrite (proj1 (Hk H0)), E. }
  intros [o ls3] [_ [Hs3 _]]. cbn [snd] in Hs3. pose proof (step_trans _ _ _ Hs2 Hs3) as Hs4.
  eapply step_trans; [exact Hs4|]. apply set_sb_step, Hs4.
Qed.

(** What [scan] promises: it moves forward, to the end only at the end, and
    names and strings are interned. *)
Definition token_ok n (ls : LexState) (r : Tok.t * TokVal * LexState) : Prop :=
  let '(t, v, ls') := r in
  scanned n ls ls' /\ (t = Tok.Eof -> chars ls' = []) /\ (t <> Tok.Eof -> (length (chars ls') < length (chars ls))%nat) /\
  (t = Tok.Name \/ t = Tok.Str -> exists s, is_interned (strs ls') (str v) s).

Lemma token_moved n t v (ls ls' : LexState) : moved ls ls' -> str_room n (strs ls) -> t <> Tok.Eof -> t <> Tok.Name -> t <> Tok.Str ->
  token_ok n ls (t, v, ls').
Proof.
  intros [Hs Hlt] Hr H1 H2 H3. split; [by apply step_scanned|]. split; [done|]. split; [done|]. by intros [|].
Qed.

Lemma number_token_post n (ls ls1 : LexState) : step ls ls1 -> is_digit (c ls1) = true -> str_room n (strs ls) ->
  post ls (token_ok n ls) (number_token ls1).
Proof.
  intros Hs Hd Hr. eapply post_step; [exact Hs|]. unfold number_token. eapply post_bind; [apply lex_number_post; [apply Hs|done]|].
  intros [x ls2] Hm. cbn [snd] in Hm. cbn -[token_ok]. apply token_moved; try done.
  eapply moved_trans; [by eapply moved_step|]. pose proof (step_wf _ _ (proj1 Hm)) as Hw2. pose proof (wf_line _ Hw2).
  apply same_step; try (by destruct ls2). destruct ls2; cbn in *; lia.
Qed.

Lemma eat_first_spec alts d (ls : LexState) : wf ls ->
  step ls (snd (eat_first alts d ls)) /\ (fst (eat_first alts d ls) = d \/ exists a, In a alts /\ fst (eat_first alts d ls) = snd a).
Proof.
  intros Hw. induction alts as [|[x t] alts IH]; cbn [eat_first]; [by split; [apply step_refl|left]|].
  unfold eat at 1 2 3. destruct (Z.eqb_spec (c ls) x).
  - split; [by apply next_char_step|]. right. exists (x, t). split; [by left|done].
  - destruct IH as [Hs Ht]. split; [done|]. destruct Ht as [|(a & Hi & E)]; [by left|]. right. exists a. split; [by right|done].
Qed.

Lemma eat_step x (ls : LexState) : wf ls -> step ls (snd (eat x ls)).
Proof. intros Hw. unfold eat. destruct (_ =? x); [by apply next_char_step|by apply step_refl]. Qed.

(** Tokens without a value. *)
Definition simple (t : Tok.t) : Prop := t <> Tok.Eof /\ t <> Tok.Name /\ t <> Tok.Str.

Lemma token_post n t (ls ls1 : LexState) : moved ls ls1 -> str_room n (strs ls) -> simple t -> post ls (token_ok n ls) (token t ls1).
Proof. intros Hm Hr (H1 & H2 & H3). by apply token_moved. Qed.

Lemma op_post n alts d (ls : LexState) : wf ls -> c ls <> LEX_EOF -> str_room n (strs ls) -> simple d -> Forall (fun a => simple (snd a)) alts ->
  post ls (token_ok n ls) (let '(t, ls') := eat_first alts d (next_char ls) in token t ls').
Proof.
  intros Hw Hc Hr Hd Ha. pose proof (next_char_moved ls Hw Hc) as Hm.
  destruct (eat_first_spec alts d (next_char ls) (next_char_wf ls Hw)) as [Hs Ht].
  destruct (eat_first alts d (next_char ls)) as [t ls']. cbn [fst snd] in *. apply token_post; [by eapply moved_trans|done|].
  destruct Ht as [->|(a & Hi & ->)]; [done|]. rewrite List.Forall_forall in Ha. by apply Ha.
Qed.

Lemma token_ok_moved n (ls ls1 : LexState) r : moved ls ls1 -> token_ok n ls1 r -> token_ok n ls r.
Proof.
  intros [Hs Hlt]. destruct r as [[t v] ls']. intros (H1 & H2 & H3 & H4). split; [by eapply scanned_trans|].
  split; [done|]. split; [|done]. intros Ht. specialize (H3 Ht). lia.
Qed.

Lemma eat_moved x (ls ls1 : LexState) : moved ls ls1 -> moved ls (snd (eat x ls1)).
Proof. intros Hm. eapply moved_trans; [exact Hm|]. apply eat_step, Hm. Qed.

Lemma scan_name_post n (ls : LexState) : wf ls -> is_ident (c ls) = true -> str_room (S n) (strs ls) ->
  post ls (token_ok n ls) (scan_name_or_keyword ls).
Proof.
  intros Hw Hi Hr. unfold scan_name_or_keyword. eapply post_bind; [by apply ident_chars_post, fuel_chars|].
  intros ls1 [_ Hm]. eapply post_bind; [by apply (intern_scanned n); [apply Hm|]|]. intros [id ls2] (Hsc & Hlt & Hin).
  cbn [fst snd] in *. assert (keyword (sb ls2) <> Tok.Eof) as Hk.
  { unfold keyword, KEYWORDS. cbn [List.find fst]. repeat (case_bool_decide; [done|]). done. }
  split; [done|]. split; [done|]. split; [done|]. intros _. exact Hin.
Qed.

Lemma scan_loop_post f n : forall ls : LexState, wf ls -> (length (chars ls) < f)%nat -> str_room (S n) (strs ls) ->
  post ls (token_ok n ls) (scan_loop f ls).
Proof.
  induction f as [|f IH]; intros ls Hw Hf Hr; [lia|]. cbn [scan_loop]. pose proof (str_room_S _ _ Hr) as Hr0.
  assert (Hrec : forall ls1, moved ls ls1 -> post ls (token_ok n ls) (scan_loop f ls1)).
  { intros ls1 [Hs Hlt]. eapply post_step; [exact Hs|]. eapply post_weaken.
    - apply IH; [apply Hs|lia|by rewrite (step_strs _ _ Hs)].
    - intros r Hok. by eapply token_ok_moved. }
  destruct (is_digit (c ls)) eqn:Ed; [by apply number_token_post; [apply step_refl| |]|].
  destruct (is_ident (c ls)) eqn:Ei; [by apply scan_name_post|].
  destruct (Z.eqb_spec (c ls) LEX_EOF) as [E|Hc].
  { cbn. split; [apply step_scanned; [by apply step_refl|done]|]. split; [intros _; by apply chars_nil|]. split; [done|]. by intros [|]. }
  pose proof (next_char_moved ls Hw Hc) as Hm. cbv zeta.
  assert (Hx : uwrap 8 (c ls) = c ls) by (destruct (wf_c _ Hw) as [[? _]|]; [done|by apply uwrap_small]). rewrite Hx.
  destruct (_ || _) eqn:Enl. { eapply post_bind; [by apply newline_post|]. intros ls1 [Hm1 _]. by apply Hrec. }
  match goal with |- post _ _ (if ?b then _ else _) => destruct b; [by apply Hrec|] end.
  destruct (c ls =? 45).
  { pose proof (eat_moved 62 _ _ Hm) as Hm1. destruct (eat 62 (next_char ls)) as [[] ls1]; [by apply token_post|]. cbn [snd] in Hm1.
    pose proof (eat_moved 45 _ _ Hm1) as Hm2. destruct (eat 45 ls1) as [[] ls2]; [|by apply token_post]. cbn [snd] in Hm2.
    eapply post_bind; [eapply post_step; [apply Hm2|apply scan_comment_post, Hm2]|]. intros ls3 Hs3. apply Hrec. by eapply moved_trans. }
  destruct (Z.eqb_spec (c ls) 91) as [E|].
  { eapply post_bind; [by apply skip_eq_post; [|left]|]. intros [k ls1] [Hm1 (j & Ej & Hk)]. cbn [fst snd] in *.
    destruct (Z.leb_spec 0 k) as [H0|]; [|destruct (_ =? -1); [by apply token_post|eapply post_step; [apply Hm1|apply post_error]]].
    destruct (Hk H0) as [E1 ->]. pose proof (proj1 Hm1) as Hs1. eapply post_bind.
    { eapply post_step; [exact Hs1|]. apply (long_string_post n true); [apply Hs1|by rewrite E1, E|done|]. intros _.
      split; [|by rewrite (step_strs _ _ Hs1)]. rewrite Ej. unfold zlen. rewrite length_app. cbn [length]. rewrite length_replicate. lia. }
    intros [o ls2] (id & E2 & Hsc & Hlt & Hin). cbn [fst snd] in *. subst o. cbn -[token_ok].
    eapply token_ok_moved; [exact Hm1|]. split; [done|]. split; [done|]. split; [done|]. intros _. exact Hin. }
  assert (Hop : forall alts d, simple d -> Forall (fun a => simple (snd a)) alts ->
    post ls (token_ok n ls) (let '(t, ls') := eat_first alts d (next_char ls) in token t ls')) by (intros; by apply op_post).
  destruct (_ =? 61); [apply Hop; by repeat constructor|]. destruct (_ =? 60); [apply Hop; by repeat constructor|].
  destruct (_ =? 62); [apply Hop; by repeat constructor|].
  destruct (c ls =? 126).
  { pose proof (eat_moved 61 _ _ Hm) as Hm1. destruct (eat 61 (next_char ls)) as [[] ls1]; [by apply token_post|]. cbn [snd] in Hm1.
    pose proof (eat_moved 62 _ _ Hm1) as Hm2. destruct (eat 62 ls1) as [[] ls2]; [|by apply token_post]. cbn [snd] in Hm2.
    pose proof (eat_moved 62 _ _ Hm2) as Hm3. destruct (eat 62 ls2) as [[] ls3]; [by apply token_post|].
    eapply post_step; [apply Hm3|apply post_error]. }
  destruct (_ =? 33); [apply Hop; by repeat constructor|]. destruct (_ =? 58); [apply Hop; by repeat constructor|].
  destruct (_ =? 63); [apply Hop; by repeat constructor|]. destruct (_ =? 38); [apply Hop; by repeat constructor|].
  destruct (_ =? 124); [apply Hop; by repeat constructor|].
  match goal with |- post _ _ (if ?b then _ else _) => destruct b end.
  { eapply post_bind; [by apply (string_post n)|]. intros [id ls1] (Hsc & Hlt & Hin). cbn -[token_ok].
    split; [done|]. split; [done|]. split; [done|]. intros _. exact Hin. }
  destruct (c ls =? 46).
  { pose proof (save_next_moved ls Hw Hc) as Hm1. destruct (_ =? 46).
    - assert (moved ls (next_char (save_next ls))) as Hm2 by (eapply moved_trans; [exact Hm1|apply next_char_step, Hm1]).
      pose proof (eat_moved 46 _ _ Hm2) as Hm3. destruct (eat 46 _) as [b ls3]. apply token_post; [done|done|by destruct b].
    - destruct (is_digit (c (save_next ls))) eqn:E; [apply number_token_post; [apply Hm1|done|done]|by apply token_post]. }
  by apply token_post.
Qed.

Lemma scan_token_post n (ls : LexState) : wf ls -> str_room (S n) (strs ls) -> post ls (token_ok n ls) (scan ls).
Proof.
  intros Hw Hr. unfold scan. set (ls1 := set_sb _ _).
  assert (step ls ls1) as Hs by (pose proof (wf_line _ Hw); subst ls1; same).
  assert (chars ls1 = chars ls) as Ec by by destruct ls.
  eapply post_step; [exact Hs|]. eapply post_weaken; [apply (scan_loop_post _ n); [apply Hs|apply fuel_chars, Hs|by rewrite (step_strs _ _ Hs)]|].
  intros [[t v] ls'] (H1 & H2 & H3 & H4). split; [by eapply scanned_trans|]. rewrite Ec in H3. done.
Qed.

(** ** A whole source text *)

(** [next] until the end of the text, as the parser does. *)
Fixpoint lex_all (n : nat) (ls : LexState) (acc : list (Tok.t * TokVal)) : Res (list (Tok.t * TokVal) * LexState) :=
  match n with
  | O => None
  | S n => rbind (next ls) (fun ls =>
      if decide (tok ls = Tok.Eof) then ok (rev acc, ls) else lex_all n ls ((tok ls, tokval ls) :: acc))
  end.

Definition lex_source (text name : list Z) (st : St) : Res (list (Tok.t * TokVal) * LexState) :=
  rbind (new text name st) (fun ls => lex_all (S (length text)) ls []).

Lemma next_post n (ls : LexState) : wf ls -> lookahead ls = Tok.Eof -> str_room (S n) (strs ls) ->
  post ls (fun ls' => wf ls' /\ lookahead ls' = Tok.Eof /\ str_room n (strs ls') /\ linenumber ls <= linenumber ls' /\
    chunkname ls' = chunkname ls /\ (tok ls' = Tok.Eof -> chars ls' = []) /\
    (tok ls' <> Tok.Eof -> (length (chars ls') < length (chars ls))%nat)) (next ls).
Proof.
  intros Hw Hla Hr. unfold next. set (ls1 := set_lastline ls _).
  assert (step ls ls1) as Hs by (pose proof (wf_line _ Hw); subst ls1; same).
  assert (chars ls1 = chars ls) as Ec by by destruct ls.
  rewrite (step_look _ _ Hs). destruct (decide _); [|done]. eapply post_step; [exact Hs|].
  eapply post_bind; [apply (scan_token_post n); [apply Hs|by rewrite (step_strs _ _ Hs)]|].
  intros [[t v] ls2] (Hsc & H2 & H3 & _). cbn. rewrite Ec in H3.
  apply (scanned_trans n ls) in Hsc; [|exact Hs]. destruct Hsc as [Hw2 _ Hn [Hr2 _] Hl2 Hline _].
  rewrite Hla in Hl2. destruct ls2, Hw2. cbn in *. split; [by constructor|]. done.
Qed.

Lemma new_post text name st : Forall (urange 8) text ->
  exists r, new text name st = Some r /\
    match r with
    | inl ls => wf ls /\ lookahead ls = Tok.Eof /\ strs ls = st /\ chunkname ls = name /\ (length (chars ls) <= length text)%nat
    | inr e => exists line msg, e = name ++ 58 :: dec_digits line ++ lit ": " ++ msg /\ 1 <= line
    end.
Proof.
  intros Hb. unfold new. set (ls0 := mkLex _ _ _ _ _ _ _ _ _ _ _ _ _). assert (wf ls0) as Hw0.
  { constructor; cbn; [done|lia|by right|lia]. }
  pose proof (next_char_step ls0 Hw0) as Hs1. set (ls1 := next_char ls0) in *.
  assert (length (chars ls1) <= length text)%nat as Hl1 by (subst ls1; by rewrite next_char_chars).
  clearbody ls1.
  set (ls2 := if _ && _ then _ else _).
  assert (step ls1 ls2) as Hs2.
  { subst ls2. destruct (_ && _) eqn:E; [|apply step_refl, Hs1].
    apply andb_true_iff in E as [[E1 E2]%andb_true_iff E3]. apply bool_decide_eq_true in E2, E3. apply Z.eqb_eq in E1.
    pose proof (lookup_lt_Some _ _ _ E3) as Hlt. pose proof (step_wf _ _ Hs1) as Hw1.
    assert (step ls1 (set_char ls1 (pos ls1 + 2) (c ls1))) as H3.
    { assert (length (chars (set_char ls1 (pos ls1 + 2) (c ls1))) <= length (chars ls1))%nat as Hlen.
      { unfold chars. destruct ls1; cbn in *. rewrite E1. cbn. rewrite !length_drop. lia. }
      assert (wf (set_char ls1 (pos ls1 + 2) (c ls1))) as Hw2.
      { destruct Hw1 as [Hb1 Hp1 Hc1 Hln]. destruct ls1; cbn in *. constructor; cbn; [done|lia| |done]. right. by rewrite E1. }
      constructor; try done; destruct ls1; cbn; try done; lia. }
    eapply step_trans; [exact H3|]. apply next_char_step, H3. }
  pose proof (step_trans _ _ _ Hs1 Hs2) as Hs.
  assert (Hdone : forall ls3, step ls0 ls3 -> (length (chars ls3) <= length text)%nat ->
    wf ls3 /\ lookahead ls3 = Tok.Eof /\ strs ls3 = st /\ chunkname ls3 = name /\ (length (chars ls3) <= length text)%nat).
  { intros ls3 []. done. }
  assert (post ls0 (fun ls3 => step ls0 ls3 /\ (length (chars ls3) <= length text)%nat)
    (if c ls2 =? 35 then rbind (skip_line (fuel ls2) ls2) (fun ls => if negb (c ls =? LEX_EOF) then newline ls else ok ls) else ok ls2)) as Hp.
  { assert (length (chars ls2) <= length text)%nat as Hl2 by (destruct Hs2; lia).
    destruct (c ls2 =? 35); [|done]. eapply post_step; [exact Hs|].
    eapply post_bind; [apply skip_line_post; [apply Hs|apply fuel_chars, Hs]|].
    intros ls3 [Hs3 Hc]. pose proof (step_trans _ _ _ Hs Hs3) as Hs03.
    destruct (Z.eqb_spec (c ls3) LEX_EOF); cbn [negb]; [split; [done|destruct Hs3; lia]|].
    eapply post_step; [exact Hs3|]. eapply post_weaken; [apply newline_post; [apply Hs3|by destruct Hc]|].
    intros ls4 [[Hs4 Hlt] _]. split; [by eapply step_trans|destruct Hs3; lia]. }
  destruct (if c ls2 =? 35 then _ else _) as [[ls3|e]|]; [| |done]; eexists; (split; [reflexivity|]).
  - apply Hdone; apply Hp.
  - exact Hp.
Qed.

Lemma lex_all_S n (ls : LexState) acc : lex_all (S n) ls acc = rbind (next ls) (fun ls =>
  if decide (tok ls = Tok.Eof) then ok (rev acc, ls) else lex_all n ls ((tok ls, tokval ls) :: acc)).
Proof. done. Qed.

(** C18. Lexing any text terminates without a panic: it yields the tokens up to the end of the text, at
    most one per character, or an error that names the chunk and a line of it. *)
Theorem lexer_total text name st : Forall (urange 8) text -> str_room (S (length text)) st ->
  exists r, lex_source text name st = Some r /\
    match r with
    | inl (toks, ls) => chars ls = [] /\ (length toks <= length text)%nat
    | inr e => exists line msg, e = name ++ 58 :: dec_digits line ++ lit ": " ++ msg /\ 1 <= line
    end.
Proof.
  intros Hb Hr. unfold lex_source. destruct (new_post text name st Hb) as (r & -> & Hr1). destruct r as [ls|e]; [|by eexists].
  destruct Hr1 as (Hw & Hla & Hst & <- & Hlen). cbn [rbind].
  assert (forall n (ls : LexState) acc, wf ls -> lookahead ls = Tok.Eof -> (length (chars ls) <= n)%nat -> str_room (S n) (strs ls) ->
    exists r, lex_all (S n) ls acc = Some r /\
      match r with
      | inl (toks, ls') => chars ls' = [] /\ (length toks <= length acc + n)%nat
      | inr e => err_at ls e
      end) as Hall.
  { clear. induction n as [|n IH]; intros ls acc Hw Hla Hn Hr; rewrite lex_all_S;
      pose proof (next_post _ ls Hw Hla Hr) as Hp; (destruct (next ls) as [[ls'|e]|]; [|by eexists|done]); cbn [rbind];
      destruct Hp as (Hw' & Hla' & Hr' & Hline & Hname & Heof & Hlt); destruct (decide _) as [E|E].
    - eexists. split; [reflexivity|]. split; [by apply Heof|]. rewrite length_rev. lia.
    - specialize (Hlt E). lia.
    - eexists. split; [reflexivity|]. split; [by apply Heof|]. rewrite length_rev. lia.
    - specialize (Hlt E). destruct (IH ls' ((tok ls', tokval ls') :: acc) Hw' Hla' ltac:(lia) Hr') as (r & -> & Hres).
      exists r. split; [done|]. destruct r as [[toks ls2]|e].
      + destruct Hres as [? Hl]. cbn [length] in Hl. split; [done|lia].
      + destruct Hres as (line & msg & -> & Hl). exists line, msg. rewrite Hname. split; [done|lia]. }
  destruct (Hall (length text) ls [] Hw Hla Hlen ltac:(by rewrite Hst)) as (r & -> & Hres). exists r. split; [done|].
  destruct r as [[toks ls2]|e]; [done|]. destruct Hres as (line & msg & -> & Hl). exists line, msg.
  split; [done|]. destruct Hw. lia.
Qed.

End LexSpec.
