(* ===== verification/LexText.v ===== *)
(** * What the lexer reads

    Texts and the tokens they lex to: quoted strings, names, numbers and
    operators, whatever follows them. *)

From Stdlib Require Import ZArith Lia Bool String.
From stdpp Require Import base decidable numbers option gmap list.
From S2P Require Import Prelude Float64 Strings PatClass FloatText StrScan StrFmt NumSpec ScanSpec Heap HeapSpec Intern InternSpec StringsIntern Lex LexSpec.

Section LexText.
Context {St : Type} `{Strings St}.

Abbreviation LexState := (LexState St).

Lemma rbind_ok {A B} (a : A) (k : A -> Res B) : rbind (ok a) k = k a.
Proof. done. Qed.

(** [ls] has [t] left to read and [s] saved; [l] is where it came from. *)
Record at_ (l ls : LexState) (t s : list Z) : Prop := {
  at_step : step l ls;
  at_chars : chars ls = t;
  at_sb : sb ls = s;
}.

Lemma at_wf (l ls : LexState) t s : at_ l ls t s -> wf ls.
Proof. intros [[] _ _]. done. Qed.

Lemma at_c (l ls : LexState) x t s : at_ l ls (x :: t) s -> c ls = x /\ x <> LEX_EOF.
Proof. intros [_ E _]. unfold chars in E. destruct (Z.eqb_spec (c ls) LEX_EOF); [done|]. injection E as <- _. done. Qed.

Lemma at_eof (l ls : LexState) s : at_ l ls [] s -> c ls = LEX_EOF.
Proof. intros [_ E _]. by apply chars_nil. Qed.

(** The current character, the end included. *)
Lemma at_hd (l ls : LexState) t s : at_ l ls t s -> c ls = default LEX_EOF (head t).
Proof. destruct t; [apply at_eof|]. intros Ha. by destruct (at_c _ _ _ _ _ Ha). Qed.

Lemma at_next (l ls : LexState) t s : at_ l ls t s -> at_ l (next_char ls) (tail t) s.
Proof.
  intros Ha. pose proof (at_wf _ _ _ _ Ha) as Hw. destruct Ha as [Hs <- <-]. constructor.
  - eapply step_trans; [exact Hs|]. by apply next_char_step.
  - by apply next_char_chars.
  - by destruct (next_char_same ls) as (_ & _ & _ & _ & _ & -> & _).
Qed.

Lemma at_save x (l ls : LexState) t s : at_ l ls t s -> at_ l (save x ls) t (s ++ [uwrap 8 x]).
Proof.
  intros Ha. pose proof (at_wf _ _ _ _ Ha) as Hw. destruct Ha as [Hs <- <-]. destruct (save_chars x ls) as (E1 & _ & E3).
  constructor; [|done|done]. eapply step_trans; [exact Hs|]. by apply save_step.
Qed.

Lemma at_save_next (l ls : LexState) x t s : at_ l ls (x :: t) s -> at_ l (save_next ls) t (s ++ [uwrap 8 x]).
Proof. intros Ha. destruct (at_c _ _ _ _ _ Ha) as [<- _]. unfold save_next. change t with (tail (c ls :: t)). by apply at_next, at_save. Qed.

Lemma at_put (l ls : LexState) x y t s : at_ l ls (y :: t) s -> at_ l (next_char (save x ls)) t (s ++ [uwrap 8 x]).
Proof. intros Ha. change t with (tail (y :: t)). by apply at_next, at_save. Qed.

Lemma at_save_byte x (l ls : LexState) t s : urange 8 x -> at_ l ls t s -> at_ l (save x ls) t (s ++ [x]).
Proof. intros Hx Ha. rewrite <- (uwrap_small 8 x Hx) at 2. by apply at_save. Qed.

Lemma at_save_next_byte (l ls : LexState) x t s : urange 8 x -> at_ l ls (x :: t) s -> at_ l (save_next ls) t (s ++ [x]).
Proof. intros Hx Ha. rewrite <- (uwrap_small 8 x Hx). by apply at_save_next. Qed.

(** A line feed that no carriage return follows. *)
Lemma at_newline (l ls : LexState) t s : at_ l ls (10 :: t) s -> head t <> Some 13 ->
  linenumber ls + 1 < 0x7fffff00 ->
  exists ls', newline ls = ok ls' /\ at_ l ls' t s /\ linenumber ls' = linenumber ls + 1.
Proof.
  intros Ha Ht Hl. destruct (at_c _ _ _ _ _ Ha) as [E _]. pose proof (at_next _ _ _ _ Ha) as Hn. cbn [tail] in Hn.
  unfold newline. assert (is_eol ls = true) as -> by (unfold is_eol; by rewrite E). cbn [negb].
  assert (is_eol (next_char ls) && negb (c (next_char ls) =? c ls) = false) as ->.
  { unfold is_eol. rewrite (at_hd _ _ _ _ Hn), E. destruct t as [|y t]; [done|]. cbn. cbn in Ht.
    destruct (Z.eqb_spec y 10); [done|]. destruct (Z.eqb_spec y 13); [by subst|done]. }
  destruct (next_char_same ls) as (_ & _ & _ & _ & El & _). set (ls1 := next_char ls) in *.
  assert (linenumber (set_linenumber ls1 (linenumber ls1 + 1)) = linenumber ls + 1) as E1 by (rewrite <- El; by destruct ls1).
  rewrite E1. destruct (Z.leb_spec 0x7fffff00 (linenumber ls + 1)); [lia|]. eexists. split; [reflexivity|]. split; [|done].
  pose proof (at_wf _ _ _ _ Hn) as Hw. destruct Hn as [Hs <- <-]. constructor; [|by destruct ls1|by destruct ls1].
  eapply step_trans; [exact Hs|]. apply set_linenumber_step; [done|lia].
Qed.

(** ** Quoted strings *)

(** Bytes that [%q] writes in a way the lexer reads back. *)
Definition quotable (x : Z) : Prop := urange 8 x /\ x <> 13 /\ ~ 14 <= x < 32 /\ x <> 127.

Definition escapes : list (Z * Z) :=
  [(97, 7); (98, 8); (102, 12); (110, 10); (114, 13); (116, 9); (118, 11); (92, 92); (34, 34); (39, 39)].

Lemma next_char_line (ls : LexState) : linenumber (next_char ls) = linenumber ls.
Proof. apply next_char_same. Qed.

Lemma save_line x (ls : LexState) : linenumber (save x ls) = linenumber ls.
Proof. by destruct ls. Qed.

Lemma escape_letter (l ls : LexState) y z t s : In (y, z) escapes -> at_ l ls (92 :: y :: t) s ->
  exists ls', escape_sequence ls = ok ls' /\ at_ l ls' t (s ++ [z]) /\ linenumber ls' = linenumber ls.
Proof.
  intros Hin Ha. pose proof (at_next _ _ _ _ Ha) as Hn. cbn [tail] in Hn. destruct (at_c _ _ _ _ _ Hn) as [E _].
  unfold escape_sequence. rewrite E. exists (next_char (save z (next_char ls))).
  rewrite next_char_line, save_line, next_char_line. split; [|split; [|done]].
  - repeat (destruct Hin as [[= <- <-]|Hin]; [reflexivity|]). done.
  - replace z with (uwrap 8 z) at 2; [by apply at_put with y|]. clear E. repeat (destruct Hin as [[= <- <-]|Hin]; [reflexivity|]). done.
Qed.

Lemma escape_newline (l ls : LexState) t s : at_ l ls (92 :: 10 :: t) s -> head t <> Some 13 -> linenumber ls + 1 < 0x7fffff00 ->
  exists ls', escape_sequence ls = ok ls' /\ at_ l ls' t (s ++ [10]) /\ linenumber ls' = linenumber ls + 1.
Proof.
  intros Ha Ht Hl. pose proof (at_next _ _ _ _ Ha) as Hn. cbn [tail] in Hn. destruct (at_c _ _ _ _ _ Hn) as [E _].
  unfold escape_sequence. rewrite E. pose proof (at_save 10 _ _ _ _ Hn) as Hs.
  destruct (at_newline _ _ _ _ Hs Ht) as (ls' & E' & Ha' & Hl'); [by rewrite save_line, next_char_line|].
  exists ls'. split; [exact E'|]. split; [done|]. by rewrite Hl', save_line, next_char_line.
Qed.

Lemma escape_decimal (l ls : LexState) d1 d2 d3 t s :
  is_digit d1 = true -> is_digit d2 = true -> is_digit d3 = true -> (d1 - 48) * 100 + (d2 - 48) * 10 + (d3 - 48) <= 255 ->
  at_ l ls (92 :: d1 :: d2 :: d3 :: t) s ->
  exists ls', escape_sequence ls = ok ls' /\ at_ l ls' t (s ++ [(d1 - 48) * 100 + (d2 - 48) * 10 + (d3 - 48)]) /\ linenumber ls' = linenumber ls.
Proof.
  intros H1 H2 H3 Hv Ha. pose proof (at_next _ _ _ _ Ha) as Hn. pose proof (at_next _ _ _ _ Hn) as Hn2. pose proof (at_next _ _ _ _ Hn2) as Hn3.
  pose proof (at_next _ _ _ _ Hn3) as Hn4. cbn [tail] in Hn, Hn2, Hn3, Hn4.
  destruct (at_c _ _ _ _ _ Hn) as [E1 _]. destruct (at_c _ _ _ _ _ Hn2) as [E2 _]. destruct (at_c _ _ _ _ _ Hn3) as [E3 _].
  assert (escape_sequence ls = dec_escape (next_char ls)) as ->.
  { unfold escape_sequence. rewrite E1. unfold is_digit in H1.
    assert (d1 = 48 \/ d1 = 49 \/ d1 = 50 \/ d1 = 51 \/ d1 = 52 \/ d1 = 53 \/ d1 = 54 \/ d1 = 55 \/ d1 = 56 \/ d1 = 57) as Hd by lia.
    repeat (destruct Hd as [->|Hd]; [reflexivity|]). rewrite Hd. reflexivity. }
  unfold dec_escape. rewrite E1, E2, E3, H1, H2, H3. cbn [negb].
  replace (((d1 - 48) * 10 + (d2 - 48)) * 10 + (d3 - 48)) with ((d1 - 48) * 100 + (d2 - 48) * 10 + (d3 - 48)) by lia.
  destruct (Z.ltb_spec 255 ((d1 - 48) * 100 + (d2 - 48) * 10 + (d3 - 48))); [lia|]. eexists. split; [reflexivity|]. split.
  - apply at_save_byte; [|done]. unfold urange, is_digit in *. lia.
  - by rewrite save_line, !next_char_line.
Qed.

(** One byte of a quoted string is one turn of the loop. *)
Lemma string_turn n (l ls : LexState) x t s : quotable x -> at_ l ls (quote_byte x ++ t) s -> head t <> Some 13 ->
  linenumber ls + 1 < 0x7fffff00 ->
  exists ls', string_loop (S n) 34 ls = string_loop n 34 ls' /\ at_ l ls' t (s ++ [x]) /\ linenumber ls' <= linenumber ls + 1.
Proof.
  intros (Hx & H13 & H14 & H127) Ha Ht Hl. cbn [string_loop].
  assert (Hesc : c ls = 92 -> (exists ls', escape_sequence ls = ok ls' /\ at_ l ls' t (s ++ [x]) /\ linenumber ls' <= linenumber ls + 1) ->
    exists ls', (if c ls =? 34 then ok ls
      else if c ls =? LEX_EOF then error ls (lit "unfinished string near '<eof>'")
      else if (c ls =? 10) || (c ls =? 13) then error ls (lit "unfinished string near '<string>'")
      else if c ls =? 92 then rbind (escape_sequence ls) (fun ls => string_loop n 34 ls)
      else string_loop n 34 (save_next ls)) = string_loop n 34 ls' /\ at_ l ls' t (s ++ [x]) /\ linenumber ls' <= linenumber ls + 1).
  { intros -> (ls' & E & Ha' & Hl'). exists ls'. by rewrite E. }
  assert (Hletter : forall y, In (y, x) escapes -> at_ l ls (92 :: y :: t) s ->
    exists ls', escape_sequence ls = ok ls' /\ at_ l ls' t (s ++ [x]) /\ linenumber ls' <= linenumber ls + 1).
  { intros y Hin Hy. destruct (escape_letter l ls y x t s Hin Hy) as (ls' & ? & ? & Hl'). exists ls'. split_and!; [done..|lia]. }
  unfold quote_byte in Ha.
  destruct (Z.eqb_spec x 34) as [->|N1]; [apply Hesc; [apply (at_c _ _ _ _ _ Ha)|by apply (Hletter 34); [cbn; auto 20|]]|].
  destruct (Z.eqb_spec x 92) as [->|N2]; [apply Hesc; [apply (at_c _ _ _ _ _ Ha)|by apply (Hletter 92); [cbn; auto 20|]]|]. cbn [orb] in Ha.
  destruct (Z.eqb_spec x 10) as [->|N3].
  { apply Hesc; [apply (at_c _ _ _ _ _ Ha)|]. destruct (escape_newline _ _ _ _ Ha Ht Hl) as (ls' & ? & ? & Hl'). exists ls'. split_and!; [done..|lia]. }
  destruct (Z.eqb_spec x 13); [done|]. cbn [orb] in Ha.
  destruct (Z.eqb_spec x 9) as [->|N4]; [apply Hesc; [apply (at_c _ _ _ _ _ Ha)|by apply (Hletter 116); [cbn; auto 20|]]|].
  destruct (Z.eqb_spec x 7) as [->|N5]; [apply Hesc; [apply (at_c _ _ _ _ _ Ha)|by apply (Hletter 97); [cbn; auto 20|]]|].
  destruct (Z.eqb_spec x 8) as [->|N6]; [apply Hesc; [apply (at_c _ _ _ _ _ Ha)|by apply (Hletter 98); [cbn; auto 20|]]|].
  destruct (Z.eqb_spec x 12) as [->|N7]; [apply Hesc; [apply (at_c _ _ _ _ _ Ha)|by apply (Hletter 102); [cbn; auto 20|]]|].
  destruct (Z.eqb_spec x 11) as [->|N8]; [apply Hesc; [apply (at_c _ _ _ _ _ Ha)|by apply (Hletter 118); [cbn; auto 20|]]|].
  destruct (Z.eqb_spec x 127); [done|]. rewrite orb_false_r in Ha. unfold urange in Hx. destruct (Z.ltb_spec x 32) as [N9|N9].
  - assert (show_octal x = [92; 48; 48; 48 + x]) as Eo.
    { assert (x = 0 \/ x = 1 \/ x = 2 \/ x = 3 \/ x = 4 \/ x = 5 \/ x = 6) as Hc by lia.
      repeat (destruct Hc as [->|Hc]; [reflexivity|]). by subst. }
    rewrite Eo in Ha. cbn [app] in Ha. apply Hesc; [apply (at_c _ _ _ _ _ Ha)|].
    destruct (escape_decimal l ls 48 48 (48 + x) t s) as (ls' & E & Ha' & Hl'); [done|done| | |exact Ha|].
    + unfold is_digit. destruct (Z.leb_spec 48 (48 + x)), (Z.leb_spec (48 + x) 57); try lia; done.
    + lia.
    + exists ls'. split; [done|]. split; [|lia]. by replace ((48 - 48) * 100 + (48 - 48) * 10 + (48 + x - 48)) with x in Ha' by lia.
  - cbn [app] in Ha. destruct (at_c _ _ _ _ _ Ha) as [E N0]. rewrite E.
    destruct (Z.eqb_spec x 34), (Z.eqb_spec x LEX_EOF), (Z.eqb_spec x 10), (Z.eqb_spec x 13), (Z.eqb_spec x 92); try done. cbn [orb].
    exists (save_next ls). split; [done|]. split; [|unfold save_next; rewrite next_char_line, save_line; lia].
    apply at_save_next_byte; [unfold urange; lia|done].
Qed.

(** The text after a quoted byte never starts with a carriage return. *)
Lemma quote_head b r : Forall quotable b -> head (flat_map quote_byte b ++ 34 :: r) <> Some 13.
Proof.
  intros Hq. destruct Hq as [|x b (Hx & H13 & H14 & H127) _]; [done|]. cbn [flat_map]. unfold quote_byte.
  destruct (_ || _); [done|]. destruct (Z.eqb_spec x 10); [done|]. destruct (Z.eqb_spec x 13); [done|]. cbn [orb].
  destruct (x =? 9); [done|]. destruct (x =? 7); [done|]. destruct (x =? 8); [done|]. destruct (x =? 12); [done|].
  destruct (x =? 11); [done|]. destruct (_ || _); [done|]. cbn. congruence.
Qed.

Lemma string_loop_quoted b r : Forall quotable b -> forall n (l ls : LexState) s, (length b < n)%nat ->
  at_ l ls (flat_map quote_byte b ++ 34 :: r) s -> linenumber ls + zlen b < 0x7fffff00 ->
  exists ls', string_loop n 34 ls = ok ls' /\ at_ l ls' (34 :: r) (s ++ b).
Proof.
  intros Hq. induction Hq as [|x b Hx Hq IH]; intros n l ls s Hn Ha Hl; (destruct n as [|n]; [cbn in Hn; lia|]).
  - cbn [flat_map app] in Ha. exists ls. rewrite app_nil_r. cbn [string_loop]. by destruct (at_c _ _ _ _ _ Ha) as [-> _].
  - cbn [flat_map] in Ha. rewrite <- app_assoc in Ha. unfold zlen in Hl. cbn [length] in Hl, Hn.
    destruct (string_turn n l ls x _ s Hx Ha (quote_head b r Hq)) as (ls1 & -> & Ha1 & Hl1); [lia|].
    destruct (IH n l ls1 (s ++ [x])) as (ls' & -> & Ha'); [lia|done|unfold zlen; lia|].
    exists ls'. split; [done|]. by rewrite <- app_assoc in Ha'.
Qed.

(** ** From the start of a token *)

Lemma at_scan (ls : LexState) : wf ls -> at_ ls (set_sb (set_tok_start ls (pos ls - 1)) []) (chars ls) [].
Proof. intros Hw. pose proof (wf_line _ Hw). constructor; [|by destruct ls|by destruct ls]. apply same_step; try (by destruct ls). destruct ls; cbn in *; lia. Qed.

Lemma fuel_at (l ls : LexState) t s : at_ l ls t s -> (length t < fuel ls)%nat.
Proof. intros Ha. pose proof (fuel_chars ls (at_wf _ _ _ _ Ha)) as Hf. by rewrite (at_chars _ _ _ _ Ha) in Hf. Qed.

Lemma at_line (l ls : LexState) t s : at_ l ls t s -> linenumber l <= linenumber ls.
Proof. by intros [[] _ _]. Qed.

(** Interning what was read. *)
Lemma intern_at n (l ls : LexState) t s b : at_ l ls t s -> str_room (S n) (strs l) ->
  exists id ls', intern_sb ls b = ok (id, ls') /\ scanned n l ls' /\ is_interned (strs ls') id b /\ chars ls' = t /\ sb ls' = s.
Proof.
  intros Ha Hr. pose proof (at_wf _ _ _ _ Ha) as Hw. destruct Ha as [Hs <- <-].
  assert (post ls (fun r => scanned n ls (snd r) /\ is_interned (strs (snd r)) (fst r) b /\ chars (snd r) = chars ls /\ sb (snd r) = sb ls)
    (intern_sb ls b)) as Hp by (apply intern_post; [done|by rewrite (step_strs _ _ Hs)]).
  unfold intern_sb in *. destruct (str_intern (strs ls) b) as [[st id]|]; [|done]. cbn in Hp.
  destruct Hp as (H1 & H2 & H3 & H4). exists id, (set_strs ls st). split; [done|]. split; [by eapply scanned_trans|done].
Qed.

Lemma quote_length b : (length b <= length (flat_map quote_byte b))%nat.
Proof.
  induction b as [|x b IH]; [done|]. cbn [flat_map]. rewrite length_app. cbn [length].
  assert (1 <= length (quote_byte x))%nat; [|lia]. unfold quote_byte, show_octal.
  repeat (match goal with |- context [if ?b then _ else _] => destruct b end; cbn [length]; try lia).
Qed.

Lemma slice_quotes x b y : slice (([x] ++ b) ++ [y]) 1 (length (([x] ++ b) ++ [y]) - 1) = Some b.
Proof.
  rewrite slice_some by (rewrite ?length_app; cbn; lia). f_equal. rewrite !length_app. cbn [app length drop].
  replace (1 + length b + 1 - 1 - 1)%nat with (length b) by lia. apply take_app_length.
Qed.

Lemma scan_quoted n b r (ls : LexState) : Forall quotable b -> wf ls -> str_room (S n) (strs ls) ->
  linenumber ls + zlen b < 0x7fffff00 -> chars ls = quote b ++ r ->
  exists id ls', scan ls = ok (Tok.Str, tokval_str id, ls') /\ is_interned (strs ls') id b /\ chars ls' = r /\ scanned n ls ls'.
Proof.
  intros Hq Hw Hr Hl Hc. pose proof (at_scan ls Hw) as Ha. rewrite Hc in Ha. unfold quote in Ha. cbn [app] in Ha. rewrite <- app_assoc in Ha. cbn [app] in Ha.
  unfold scan. set (ls0 := set_sb _ _) in *. destruct (at_c _ _ _ _ _ Ha) as [E _]. unfold fuel. cbn [scan_loop]. rewrite E.
  change (exists id ls', rbind (string ls0) (fun '(id, ls) => ok (Tok.Str, tokval_str id, ls)) = ok (Tok.Str, tokval_str id, ls') /\
    is_interned (strs ls') id b /\ chars ls' = r /\ scanned n ls ls').
  pose proof (at_save_next_byte _ _ 34 _ _ ltac:(unfold urange; lia) Ha) as Ha1. unfold string. rewrite E. cbn [app] in Ha1.
  assert (linenumber (save_next ls0) = linenumber ls) as El by (unfold save_next; rewrite next_char_line, save_line; by destruct ls).
  destruct (string_loop_quoted b r Hq (fuel (save_next ls0)) ls (save_next ls0) [34]) as (ls2 & -> & Ha2); [|exact Ha1|by rewrite El|].
  { pose proof (fuel_at _ _ _ _ Ha1) as Hf. rewrite length_app in Hf. pose proof (quote_length b). lia. }
  pose proof (at_save_next_byte _ _ 34 _ _ ltac:(unfold urange; lia) Ha2) as Ha3.
  rewrite rbind_ok. rewrite (at_sb _ _ _ _ Ha3), (slice_quotes 34 b 34).
  destruct (intern_at n _ _ _ _ b Ha3 Hr) as (id & ls3 & -> & Hsc & Hi & Hch & _). rewrite rbind_ok. by exists id, ls3.
Qed.

(** C29. What [string.format] writes for [%q] lexes back to the string, whatever the text that follows,
    for strings without the control characters that [%q] writes in octal or as a raw carriage return. *)
Theorem quoted_string_read b : Forall quotable b ->
  exists text, format (lit "%q") [Str b] = Some (inl text) /\
    forall n r (ls : LexState), wf ls -> str_room (S n) (strs ls) -> linenumber ls + zlen b < 0x7fffff00 -> chars ls = text ++ r ->
      exists id ls', scan ls = ok (Tok.Str, tokval_str id, ls') /\ is_interned (strs ls') id b /\ chars ls' = r.
Proof.
  intros Hq. exists (quote b). split; [done|]. intros n r ls Hw Hr Hl Hc.
  destruct (scan_quoted n b r ls Hq Hw Hr Hl Hc) as (id & ls' & E & Hi & Ec & _). by exists id, ls'.
Qed.

(** ** Names *)

Lemma ident_byte x : is_ident x = true -> urange 8 x /\ x <> LEX_EOF.
Proof. unfold is_ident, urange, LEX_EOF. intros E. destruct (Z.eqb_spec x 95); lia. Qed.

Lemma ident_chars_at w r : Forall (fun x => is_ident x = true) w -> (forall x, head r = Some x -> is_ident x = false) ->
  forall n (l ls : LexState) s, (length w < n)%nat -> at_ l ls (w ++ r) s ->
  exists ls', ident_chars n ls = ok ls' /\ at_ l ls' r (s ++ w).
Proof.
  intros Hw Hr. induction Hw as [|x w Hx Hw IH]; intros n l ls s Hn Ha; (destruct n as [|n]; [cbn in Hn; lia|]); cbn [ident_chars].
  - exists ls. rewrite app_nil_r. cbn [app] in Ha. rewrite (at_hd _ _ _ _ Ha). destruct r as [|x r]; [done|]. cbn. by rewrite Hr.
  - cbn [app] in Ha. destruct (at_c _ _ _ _ _ Ha) as [-> _]. rewrite Hx. cbn [length] in Hn.
    destruct (IH n l (save_next ls) (s ++ [x])) as (ls' & -> & Ha'); [lia|by apply at_save_next_byte; [apply ident_byte|]|].
    exists ls'. split; [done|]. by rewrite <- app_assoc in Ha'.
Qed.

(** A word that starts with a letter or an underscore lexes, up to the first character that cannot
    continue it, to its keyword or else to a name, with the word interned. *)
Theorem scan_name n x w r (ls : LexState) : is_ident x = true -> is_digit x = false -> Forall (fun x => is_ident x = true) w ->
  (forall y, head r = Some y -> is_ident y = false) -> wf ls -> str_room (S n) (strs ls) -> chars ls = x :: w ++ r ->
  exists id ls', scan ls = ok (keyword (x :: w), tokval_str id, ls') /\ is_interned (strs ls') id (x :: w) /\ chars ls' = r.
Proof.
  intros Hi Hd Hw Hr Hwf Hroom Hc. pose proof (at_scan ls Hwf) as Ha. rewrite Hc in Ha. unfold scan. set (ls0 := set_sb _ _) in *.
  destruct (at_c _ _ _ _ _ Ha) as [E _]. unfold fuel. cbn [scan_loop]. rewrite E, Hd, Hi.
  change (x :: w ++ r) with ((x :: w) ++ r) in Ha. unfold scan_name_or_keyword.
  destruct (ident_chars_at (x :: w) r (Forall_cons_2 _ _ _ Hi Hw) Hr (fuel ls0) ls ls0 []) as (ls1 & -> & Ha1); [|exact Ha|].
  { pose proof (fuel_at _ _ _ _ Ha) as Hf. rewrite length_app in Hf. lia. }
  rewrite rbind_ok. rewrite (at_sb _ _ _ _ Ha1). cbn [app].
  destruct (intern_at n _ _ _ _ (x :: w) Ha1 Hroom) as (id & ls2 & -> & Hsc & Hin & Hch & Hsb). rewrite rbind_ok, Hsb.
  by exists id, ls2.
Qed.

(** ** Integer literals *)

(** A character of a literal that does not make a following sign part of it. *)
Definition lit_char (xp x : Z) : Prop := is_ident x = true /\ x <> 95 /\ Z.lor x 32 <> xp.

(** What ends a literal. *)
Definition ends_number (r : list Z) : Prop := forall x, head r = Some x -> is_ident x = false /\ x <> 46.

Lemma number_chars_at xp w r : Forall (lit_char xp) w -> ends_number r ->
  forall n last (l ls : LexState) s, (length w < n)%nat -> (w = [] -> Z.lor last 32 <> xp) -> at_ l ls (w ++ r) s ->
  exists ls', number_chars n xp last ls = ok ls' /\ at_ l ls' r (s ++ w).
Proof.
  intros Hw Hr. induction Hw as [|x w (Hx & H95 & Hxp) Hw IH]; intros n last l ls s Hn Hlast Ha; (destruct n as [|n]; [cbn in Hn; lia|]); cbn [number_chars].
  - exists ls. rewrite app_nil_r. cbn [app] in Ha. rewrite (at_hd _ _ _ _ Ha).
    destruct (Z.eqb_spec (Z.lor last 32) xp); [by destruct Hlast|]. rewrite andb_false_r, orb_false_r.
    destruct r as [|y r]; [done|]. cbn. destruct (Hr y eq_refl) as [-> H46]. by destruct (Z.eqb_spec y 46).
  - cbn [app] in Ha. destruct (at_c _ _ _ _ _ Ha) as [E _]. rewrite E, Hx. cbn [orb]. cbn [length] in Hn.
    destruct (Z.eqb_spec x 95); [done|].
    destruct (IH n x l (next_char (save x ls)) (s ++ [x])) as (ls' & -> & Ha'); [lia|done| |].
    + rewrite <- E. apply at_save_next_byte; [rewrite E; by apply ident_byte|by rewrite E].
    + exists ls'. split; [done|]. by rewrite <- app_assoc in Ha'.
Qed.

Lemma skip_underscores_at (l ls : LexState) x t s n : at_ l ls (x :: t) s -> head t <> Some 95 ->
  skip_underscores (S n) ls = ok (next_char ls) /\ at_ l (next_char ls) t s.
Proof.
  intros Ha Ht. pose proof (at_next _ _ _ _ Ha) as Hn. cbn [tail] in Hn. cbn [skip_underscores].
  rewrite (at_hd _ _ _ _ Hn). split; [|done]. destruct t as [|y t]; [done|]. cbn in *. destruct (Z.eqb_spec y 95); [by subst|done].
Qed.

(** No literal before this one left its flags behind. *)
Definition clean (v : TokVal) : Prop := is_cdata v = false /\ cdata_bits v = 0 /\ cdata_is_ull v = false /\ cdata_is_imag v = false.

Definition literal_value (n : Z) (x : NumSuffix.t) : TokVal :=
  mkTokVal (f64_of_Z n) 0 (negb (bool_decide (x = NumSuffix.None))) (if decide (x = NumSuffix.None) then 0 else n)
    (bool_decide (x = NumSuffix.Ull)) false.

Lemma tokval_at (ls : LexState) x : tokval (next_char (save x ls)) = tokval ls.
Proof. unfold next_char. destruct ls; cbn. by destruct (src !! pos). Qed.

Lemma number_chars_tokval n xp : forall last (ls : LexState), 
  match number_chars n xp last ls with Some (inl ls') => tokval ls' = tokval ls | _ => True end.
Proof.
  induction n as [|n IH]; intros last ls; cbn [number_chars]; [done|]. destruct (_ || _); [|done].
  destruct (c ls =? 95).
  - specialize (IH last (next_char ls)). destruct (number_chars _ _ _ _) as [[]|]; try done.
    destruct (next_char_same ls) as (_ & _ & _ & _ & _ & _ & E & _). congruence.
  - specialize (IH (c ls) (next_char (save (c ls) ls))). rewrite tokval_at in IH. done.
Qed.

(** The decimal loop reads the rest [w] of a literal of which [s] is saved. *)
Lemma lex_decimal_at xp w r last (l ls : LexState) s n x : Forall (lit_char xp) w -> ends_number r -> (w = [] -> Z.lor last 32 <> xp) ->
  at_ l ls (w ++ r) s -> scan_number_full (s ++ w) = Some (mkResult (f64_of_Z n) n x) -> x <> NumSuffix.Imag ->
  exists ls', lex_decimal xp last ls = ok (f64_of_Z n, ls') /\ chars ls' = r /\
    tokval ls' = (if decide (x = NumSuffix.None) then tokval ls
                  else mkTokVal (num (tokval ls)) (str (tokval ls)) true n (bool_decide (x = NumSuffix.Ull)) false).
Proof.
  intros Hw Hr Hlast Ha E Hx. unfold lex_decimal.
  destruct (number_chars_at xp w r Hw Hr (fuel ls) last l ls s) as (ls1 & E1 & Ha1); [|done|done|].
  { pose proof (fuel_at _ _ _ _ Ha) as Hf. rewrite length_app in Hf. lia. }
  pose proof (number_chars_tokval (fuel ls) xp last ls) as Ht. rewrite E1 in Ht. cbn in Ht. rewrite E1, rbind_ok.
  rewrite (at_sb _ _ _ _ Ha1), E. cbn [r_suffix r_n r_u]. eexists. split; [reflexivity|].
  destruct (decide (x = NumSuffix.None)) as [->|].
  - split; [apply Ha1|done].
  - unfold set_cdata, set_tokval. split; [rewrite <- (at_chars _ _ _ _ Ha1); by destruct ls1|].
    rewrite <- Ht. destruct ls1; cbn. by rewrite (bool_decide_eq_false_2 (x = NumSuffix.Imag)) by done.
Qed.

Lemma chars_bytes (ls : LexState) : wf ls -> Forall (urange 8) (chars ls).
Proof.
  intros [Hb Hp Hc _]. unfold chars. destruct (Z.eqb_spec (c ls) LEX_EOF) as [|E]; [done|].
  constructor; [by destruct Hc as [[? _]|]|by apply Forall_drop].
Qed.

(** After the digits: a suffix letter, or what ends the literal. *)
Lemma not_letter y : urange 8 y -> is_base 10 y \/ y = 76 \/ y = 85 \/ is_ident y = false ->
  y <> 95 /\ is_letter 120 y = false /\ is_letter 98 y = false /\ Z.lor y 32 <> 101.
Proof.
  intros Hy Hc.
  pose proof (byte_test (fun y => negb ((is_ascii_digit y || (y =? 76) || (y =? 85)) || negb (is_ident y)) ||
    (negb (y =? 95) && negb (is_letter 120 y) && negb (is_letter 98 y) && negb (Z.lor y 32 =? 101))) ltac:(vm_compute; reflexivity) y Hy) as T.
  cbv beta in T. assert ((is_ascii_digit y || (y =? 76) || (y =? 85)) || negb (is_ident y) = true) as E.
  { destruct Hc as [Hc|[->|[->|Hc]]]; [by rewrite base10_digit|done|done|]. rewrite Hc. apply orb_true_r. }
  rewrite E in T. cbn [negb orb] in T. rewrite !andb_true_iff, !negb_true_iff, !Z.eqb_neq in T. tauto.
Qed.

Lemma suffix_lit_char x xp : xp = 101 \/ xp = 112 -> x <> NumSuffix.Imag -> Forall (lit_char xp) (suffix_text x).
Proof. intros Hxp Hx. destruct x; try done; destruct Hxp as [->| ->]; repeat constructor; done. Qed.

Lemma digit_lit_char d : is_base 10 d -> lit_char 101 d.
Proof.
  intros Hd. assert (d = 48 \/ d = 49 \/ d = 50 \/ d = 51 \/ d = 52 \/ d = 53 \/ d = 54 \/ d = 55 \/ d = 56 \/ d = 57) as Hc by (unfold is_base in Hd; lia).
  repeat (destruct Hc as [->|Hc]; [done|]). by subst.
Qed.

Lemma hex_lit_char up d : 0 <= d < 16 -> lit_char 112 (hex_char up d).
Proof.
  intros Hd. assert (d = 0 \/ d = 1 \/ d = 2 \/ d = 3 \/ d = 4 \/ d = 5 \/ d = 6 \/ d = 7 \/ d = 8 \/ d = 9 \/ d = 10 \/
    d = 11 \/ d = 12 \/ d = 13 \/ d = 14 \/ d = 15) as Hin by lia.
  repeat (destruct Hin as [->|Hin]; [by destruct up|]). subst d. by destruct up.
Qed.

(** [lex_number] on a literal: the state moves past it. *)
Lemma lex_number_at n hex up x r (l ls : LexState) : urange 64 n -> x <> NumSuffix.Imag -> ends_number r ->
  at_ l ls (((if hex : bool then lit "0x" ++ utohex n up else dec_digits n) ++ suffix_text x) ++ r) [] ->
  exists ls', lex_number ls = ok (f64_of_Z n, ls') /\ chars ls' = r /\
    tokval ls' = (if decide (x = NumSuffix.None) then tokval ls
                  else mkTokVal (num (tokval ls)) (str (tokval ls)) true n (bool_decide (x = NumSuffix.Ull)) false).
Proof.
  intros Hn Hx Hr Ha. pose proof (integer_literal n hex up x Hn Hx) as Elit. unfold lex_number.
  assert (Hzero : forall t, at_ l ls (48 :: t) [] -> head t <> Some 95 ->
    skip_underscores (fuel ls) (save (c ls) ls) = ok (next_char (save 48 ls)) /\ at_ l (next_char (save 48 ls)) t [48] /\
    tokval (next_char (save 48 ls)) = tokval ls).
  { intros t H0 Ht. destruct (at_c _ _ _ _ _ H0) as [-> _]. pose proof (at_save_byte 48 _ _ _ _ ltac:(unfold urange; lia) H0) as Hs.
    unfold fuel. destruct (skip_underscores_at _ _ _ _ _ (S (length (src ls) - pos ls)) Hs Ht). split; [done|].
    split; [done|apply tokval_at]. }
  destruct hex.
  - destruct (utohex_spec up n Hn) as (_ & Hall & _).
    change (lit "0x") with [48; 120] in *. cbn [app] in Ha, Elit. destruct (Hzero _ Ha ltac:(done)) as (E0 & Ha0 & Et).
    destruct (at_c _ _ _ _ _ Ha) as [E _]. rewrite E. cbn [is_digit]. change (negb (is_digit 48)) with false. change (48 =? 48) with true. cbv iota.
    rewrite E in E0. rewrite E0, rbind_ok. destruct (at_c _ _ _ _ _ Ha0) as [-> _].
    change (is_letter 120 120) with true. change (is_letter 98 120) with false. cbv iota zeta. rewrite <- Et.
    apply (lex_decimal_at 112 (120 :: utohex n up ++ suffix_text x) r 120 l _ [48] n x); try done.
    constructor; [done|]. apply Forall_app. split; [|apply suffix_lit_char; [by right|done]].
    eapply Forall_impl; [exact Hall|]. intros y (d & Hd & ->). by apply hex_lit_char.
  - destruct (dec_digits_spec n) as (Hne & Hds & _); [unfold urange in Hn; lia|].
    destruct (dec_digits n) as [|d ds]; [done|]. pose proof (Forall_inv Hds) as Hd. cbn [app] in Ha, Elit.
    assert (Hw : Forall (lit_char 101) (ds ++ suffix_text x)).
    { apply Forall_app. split; [|apply suffix_lit_char; [by left|done]].
      eapply Forall_impl; [exact (Forall_inv_tail Hds)|apply digit_lit_char]. }
    destruct (at_c _ _ _ _ _ Ha) as [E _]. rewrite E. rewrite (base10_digit d Hd : is_digit d = true). cbn [negb].
    destruct (Z.eqb_spec d 48) as [->|Hd48].
    + set (t := (ds ++ suffix_text x) ++ r) in *.
      assert (Hy : forall y, head t = Some y -> y <> 95 /\ is_letter 120 y = false /\ is_letter 98 y = false /\ Z.lor y 32 <> 101).
      { intros y Ey. pose proof (chars_bytes ls (at_wf _ _ _ _ Ha)) as Hb. rewrite (at_chars _ _ _ _ Ha) in Hb.
        apply Forall_inv_tail in Hb. fold t in Hb. destruct t as [|y' t'] eqn:Et; [done|]. injection Ey as ->.
        apply not_letter; [exact (Forall_inv Hb)|]. destruct ds as [|d ds].
        - destruct x; try done; cbn in Et; try (injection Et as <- _; auto). subst t. destruct r as [|z r]; [done|].
          injection Et as <- _. do 3 right. by apply (Hr z).
        - injection Et as <- _. left. apply (Forall_inv (Forall_inv_tail Hds)). }
      destruct (Hzero t Ha) as (E0 & Ha0 & Et); [intros Ey; by destruct (Hy 95 Ey)|].
      rewrite E in E0. rewrite E0, rbind_ok. rewrite (at_hd _ _ _ _ Ha0). rewrite <- Et.
      assert (is_letter 120 (default LEX_EOF (head t)) = false /\ is_letter 98 (default LEX_EOF (head t)) = false /\
        Z.lor (default LEX_EOF (head t)) 32 <> 101) as (-> & -> & Hl).
      { destruct (head t) as [y|]; [by destruct (Hy y eq_refl) as (_ & ? & ? & ?)|done]. }
      cbv zeta. by apply (lex_decimal_at 101 (ds ++ suffix_text x) r _ l _ [48] n x).
    + change (d :: (ds ++ suffix_text x) ++ r) with ((d :: ds ++ suffix_text x) ++ r) in Ha.
      apply (lex_decimal_at 101 (d :: ds ++ suffix_text x) r d l ls [] n x); try done.
      constructor; [by apply digit_lit_char|done].
Qed.

(** C30. An integer literal of 64 bits, decimal or hexadecimal, with or without the suffix LL or ULL, lexes
    to a number token with exactly that integer and the double nearest to it, whatever can follow a number. *)
Theorem scan_integer n hex up x r (ls : LexState) : urange 64 n -> x <> NumSuffix.Imag -> ends_number r -> wf ls -> clean (tokval ls) ->
  chars ls = ((if hex : bool then lit "0x" ++ utohex n up else dec_digits n) ++ suffix_text x) ++ r ->
  exists ls', scan ls = ok (Tok.Number, literal_value n x, ls') /\ chars ls' = r /\ clean (tokval ls').
Proof.
  intros Hn Hx Hr Hw (K1 & K2 & K3 & K4) Hc. pose proof (at_scan ls Hw) as Ha. rewrite Hc in Ha. unfold scan. set (ls0 := set_sb _ _) in *.
  assert (is_digit (c ls0) = true) as Hd.
  { destruct hex; [by destruct (at_c _ _ 48 _ _ Ha) as [-> _]|].
    destruct (dec_digits_spec n) as (Hne & Hds & _); [unfold urange in Hn; lia|].
    destruct (dec_digits n) as [|d ds]; [done|]. destruct (at_c _ _ d _ _ Ha) as [-> _]. by apply base10_digit, (Forall_inv Hds). }
  unfold fuel. cbn [scan_loop]. rewrite Hd. unfold number_token.
  destruct (lex_number_at n hex up x r ls ls0 Hn Hx Hr Ha) as (ls1 & -> & Ec & Et). rewrite rbind_ok.
  replace (tokval ls0) with (tokval ls) in Et by by destruct ls.
  exists (set_tokval ls1 (mkTokVal (num (tokval ls1)) (str (tokval ls1)) false 0 false false)).
  split; [|split; [by rewrite <- Ec; destruct ls1|by destruct ls1; repeat split]]. do 3 f_equal.
  rewrite Et. unfold literal_value. destruct (decide (x = NumSuffix.None)) as [->|Hne]; cbn.
  - by rewrite K1, K2, K3, K4.
  - by rewrite (bool_decide_eq_false_2 (x = NumSuffix.None)) by done.
Qed.

(** ** Operators *)

(** The operators of more than one character, longer ones first. *)
Definition OPERATORS : list (list Z * Tok.t) :=
  [(lit "...", Tok.Dots); (lit "~>>", Tok.Sar); (lit "..", Tok.Concat); (lit "==", Tok.Eq); (lit ">=", Tok.Ge); (lit "<=", Tok.Le);
   (lit "~=", Tok.Ne); (lit "?.", Tok.Nav); (lit "??", Tok.Coal); (lit "<<", Tok.Shl); (lit ">>", Tok.Shr);
   (lit "&&", Tok.AndAnd); (lit "||", Tok.OrOr); (lit "!=", Tok.NeBang); (lit "->", Tok.Arrow); (lit "::", Tok.Label)].

(** Maximal munch: the longest operator the text starts with, or one character. *)
Definition munch (s : list Z) : Tok.t * list Z :=
  match List.find (fun o => is_prefix (fst o) s) OPERATORS with
  | Some (w, t) => (t, drop (length w) s)
  | None => match s with x :: r => (Tok.Char x, r) | [] => (Tok.Eof, []) end
  end.

(** Texts that do not start with a blank, a word, a number, a string or a
    comment, nor with the incomplete operator [~>]. *)
Definition starts_operator (s : list Z) : bool :=
  match s with
  | x :: r =>
      negb (is_ident x || is_space x || (x =? 34) || (x =? 39) || (x =? 91)) &&
      negb (is_prefix (lit "--") s) && (negb (is_prefix (lit "~>") s) || is_prefix (lit "~>>") s) &&
      negb ((x =? 46) && match r with y :: _ => is_digit y | [] => false end)
  | [] => false
  end.

Lemma eat_at (l ls : LexState) t s x : x <> LEX_EOF -> at_ l ls t s ->
  if is_prefix [x] t then exists ls', eat x ls = (true, ls') /\ at_ l ls' (tail t) s else eat x ls = (false, ls).
Proof.
  intros Hx Ha. unfold eat. rewrite (at_hd _ _ _ _ Ha). destruct t as [|y t]; cbn [head default is_prefix].
  - by destruct (Z.eqb_spec LEX_EOF x).
  - cbn. destruct (Z.eqb_spec x y) as [->|Hne]; cbn [andb].
    + rewrite Z.eqb_refl. exists (next_char ls). split; [done|]. change t with (tail (y :: t)). by apply at_next.
    + by destruct (Z.eqb_spec y x).
Qed.

Lemma eat_first_at alts d (l ls : LexState) t s : Forall (fun a => fst a <> LEX_EOF) alts -> at_ l ls t s ->
  exists ls', eat_first alts d ls =
      (match List.find (fun a => is_prefix [fst a] t) alts with Some (_, tk) => tk | None => d end, ls') /\
    chars ls' = match List.find (fun a => is_prefix [fst a] t) alts with Some _ => tail t | None => t end.
Proof.
  intros Hal Ha. induction Hal as [|[x tk] alts Hx Hal IH]; cbn [eat_first List.find fst].
  - exists ls. split; [done|apply Ha].
  - pose proof (eat_at l ls t s x Hx Ha) as He. destruct (is_prefix [x] t).
    + destruct He as (ls' & -> & Ha'). exists ls'. split; [done|apply Ha'].
    + by rewrite He.
Qed.

(** The operators decided by one more character. *)
Definition two_char : list (Z * list (Z * Tok.t)) :=
  [(61, [(61, Tok.Eq)]); (60, [(61, Tok.Le); (60, Tok.Shl)]); (62, [(61, Tok.Ge); (62, Tok.Shr)]); (33, [(61, Tok.NeBang)]);
   (58, [(58, Tok.Label)]); (63, [(46, Tok.Nav); (63, Tok.Coal)]); (38, [(38, Tok.AndAnd)]); (124, [(124, Tok.OrOr)])].

Ltac munch_cbn :=
  unfold munch; let o := eval vm_compute in OPERATORS in change OPERATORS with o;
  cbn [List.find fst is_prefix];
  repeat match goal with |- context [Z.eqb (Zpos ?a) (Zpos ?b)] =>
    let v := eval vm_compute in (Z.eqb (Zpos a) (Zpos b)) in change (Z.eqb (Zpos a) (Zpos b)) with v end;
  cbn [andb tail length drop].

Lemma munch_two x alts t : In (x, alts) two_char ->
  munch (x :: t) = match List.find (fun a => is_prefix [fst a] t) alts with Some (_, tk) => (tk, tail t) | None => (Tok.Char x, t) end.
Proof.
  intros Hin. destruct t as [|y t].
  - repeat (destruct Hin as [[= <- <-]|Hin]; [reflexivity|]). done.
  - repeat (destruct Hin as [[= <- <-]|Hin]; [munch_cbn; repeat (rewrite andb_true_r; destruct (_ =? y)); done|]). done.
Qed.

Lemma munch_other x t : ~ In x [46; 126; 61; 62; 60; 63; 38; 124; 33; 45; 58] -> munch (x :: t) = (Tok.Char x, t).
Proof.
  intros Hx. munch_cbn.
  repeat match goal with |- context [?k =? x] => destruct (Z.eqb_spec k x) as [<-|_]; [exfalso; apply Hx; cbn; tauto|] end. done.
Qed.

(** C31. Operators lex by maximal munch: the token is the longest operator the text starts with, or else
    its first character, and what follows it is left to read. *)
Theorem scan_operator (ls : LexState) : wf ls -> starts_operator (chars ls) = true ->
  exists ls', scan ls = ok (fst (munch (chars ls)), tokval_default, ls') /\ chars ls' = snd (munch (chars ls)).
Proof.
  intros Hw Hst. pose proof (at_scan ls Hw) as Ha. pose proof (chars_bytes ls Hw) as Hb. unfold scan. set (ls0 := set_sb _ _) in *.
  destruct (chars ls) as [|x t] eqn:Ec; [done|]. pose proof (Forall_inv Hb) as Hx. destruct (at_c _ _ _ _ _ Ha) as [E Hne].
  unfold starts_operator in Hst. rewrite !andb_true_iff, !negb_true_iff, !orb_false_iff in Hst.
  destruct Hst as [[[[[[[Hid Hsp] H34] H39] H91] Hcm] Hsar] Hdot].
  unfold fuel. cbn [scan_loop]. rewrite E, Hid.
  assert (is_digit x = false) as -> by (unfold is_ident in Hid; unfold is_digit; by destruct (_ && _)).
  destruct (Z.eqb_spec x LEX_EOF); [done|]. rewrite (uwrap_small 8 x Hx). cbv zeta.
  assert ((x =? 10) || (x =? 13) = false /\ (x =? 32) || (x =? 9) || (x =? 11) || (x =? 12) = false) as [-> ->].
  { unfold is_space in Hsp. lia. }
  rewrite H91, H34, H39. cbn [orb]. pose proof (at_next _ _ _ _ Ha) as Hn. cbn [tail] in Hn.
  assert (Hop : forall alts, In (x, alts) two_char ->
    exists ls', (let '(tk, ls') := eat_first alts (Tok.Char x) (next_char ls0) in token tk ls') = ok (fst (munch (x :: t)), tokval_default, ls') /\
      chars ls' = snd (munch (x :: t))).
  { intros alts Hin. rewrite (munch_two x alts t Hin).
    assert (Forall (fun a => fst a <> LEX_EOF) alts) as Hal.
    { clear -Hin. repeat (destruct Hin as [[= _ <-]|Hin]; [by repeat constructor|]). done. }
    destruct (eat_first_at alts (Tok.Char x) _ _ _ _ Hal Hn) as (ls' & -> & Hch). exists ls'. unfold token. rewrite Hch.
    by destruct (List.find _ alts) as [[]|]. }
  destruct (Z.eqb_spec x 45) as [->|N45].
  { pose proof (eat_at _ _ _ _ 62 ltac:(done) Hn) as H1. destruct t as [|y t].
    - cbn [is_prefix] in H1. rewrite H1. pose proof (eat_at _ _ _ _ 45 ltac:(done) Hn) as H2. cbn [is_prefix] in H2. rewrite H2.
      exists (next_char ls0). split; [done|apply Hn].
    - cbn [is_prefix] in H1. rewrite andb_true_r in H1. munch_cbn. rewrite !andb_true_r. destruct (Z.eqb_spec 62 y) as [<-|].
      + destruct H1 as (ls' & -> & Ha'). exists ls'. split; [done|apply Ha'].
      + rewrite H1. pose proof (eat_at _ _ _ _ 45 ltac:(done) Hn) as H2. cbn [is_prefix] in H2. rewrite andb_true_r in H2.
        change (lit "--") with [45; 45] in Hcm. cbn [is_prefix] in Hcm. change (45 =? 45) with true in Hcm. cbn [andb] in Hcm.
        rewrite andb_true_r in Hcm. rewrite Hcm in H2. rewrite H2. exists (next_char ls0). split; [done|apply Hn]. }
  destruct (Z.eqb_spec x 61) as [->|N61]; [apply Hop; cbn; tauto|]. destruct (Z.eqb_spec x 60) as [->|N60]; [apply Hop; cbn; tauto|].
  destruct (Z.eqb_spec x 62) as [->|N62]; [apply Hop; cbn; tauto|].
  destruct (Z.eqb_spec x 126) as [->|N126].
  { pose proof (eat_at _ _ _ _ 61 ltac:(done) Hn) as H1. pose proof (eat_at _ _ _ _ 62 ltac:(done) Hn) as H2. destruct t as [|y t].
    - cbn [is_prefix] in H1, H2. rewrite H1, H2. exists (next_char ls0). split; [done|apply Hn].
    - cbn [is_prefix] in H1, H2. rewrite andb_true_r in H1, H2.
      change (lit "~>") with [126; 62] in Hsar. change (lit "~>>") with [126; 62; 62] in Hsar. cbn [is_prefix] in Hsar.
      change (126 =? 126) with true in Hsar. cbn [andb] in Hsar. rewrite andb_true_r in Hsar.
      munch_cbn. rewrite !andb_true_r. destruct (Z.eqb_spec 61 y) as [<-|].
      + destruct H1 as (ls' & -> & Ha'). exists ls'. split; [done|apply Ha'].
      + rewrite H1. destruct (Z.eqb_spec 62 y) as [<-|]; [|rewrite H2; exists (next_char ls0); split; [done|apply Hn]].
        destruct H2 as (ls1 & -> & Ha1). cbn [tail] in Ha1. pose proof (eat_at _ _ _ _ 62 ltac:(done) Ha1) as H3.
        cbn [negb andb orb] in Hsar |- *. destruct t as [|z t]; [done|]. cbn [is_prefix] in H3. rewrite andb_true_r in Hsar, H3 |- *.
        rewrite Hsar in H3 |- *. destruct H3 as (ls2 & -> & Ha2). exists ls2. split; [done|apply Ha2]. }
  destruct (Z.eqb_spec x 33) as [->|N33]; [apply Hop; cbn; tauto|]. destruct (Z.eqb_spec x 58) as [->|N58]; [apply Hop; cbn; tauto|].
  destruct (Z.eqb_spec x 63) as [->|N63]; [apply Hop; cbn; tauto|]. destruct (Z.eqb_spec x 38) as [->|N38]; [apply Hop; cbn; tauto|].
  destruct (Z.eqb_spec x 124) as [->|N124]; [apply Hop; cbn; tauto|].
  destruct (Z.eqb_spec x 46) as [->|N46].
  { pose proof (at_save_next_byte _ _ _ _ _ Hx Ha) as Hs. rewrite (at_hd _ _ _ _ Hs). destruct t as [|y t].
    - cbn [head default]. exists (save_next ls0). split; [done|apply Hs].
    - change (default LEX_EOF (head (y :: t))) with y. munch_cbn. rewrite !andb_true_r. change (46 =? 46) with true in Hdot. cbn [andb] in Hdot.
      rewrite (Z.eqb_sym 46 y). destruct (Z.eqb_spec y 46) as [->|].
      + pose proof (at_next _ _ _ _ Hs) as Hs2. cbn [tail] in Hs2. pose proof (eat_at _ _ _ _ 46 ltac:(done) Hs2) as H1.
        destruct t as [|z t]; [cbn [is_prefix] in H1; rewrite H1; exists (next_char (save_next ls0)); split; [done|apply Hs2]|].
        cbn [is_prefix andb] in H1 |- *. rewrite andb_true_r in H1 |- *. destruct (46 =? z).
        * destruct H1 as (ls' & -> & Ha'). exists ls'. split; [done|apply Ha'].
        * rewrite H1. exists (next_char (save_next ls0)). split; [done|apply Hs2].
      + rewrite Hdot. exists (save_next ls0). split; [done|apply Hs]. }
  rewrite munch_other by (cbn; lia). exists (next_char ls0). split; [done|apply Hn].
Qed.

End LexText.

(** ** Lexing over the interner

    The theorems of LexSpec.v and of this file at concrete texts, and texts on
    which the lexer departs from Lua. *)

(** *** The start of a text *)

Definition demo_lex (text : list Z) : LexState Table :=
  mkLex text 1 0 (default LEX_EOF (head text)) Tok.Eof tokval_default Tok.Eof tokval_default [] 1 1 (lit "demo") (demo_table 0x3000).

Lemma demo_lex_wf text : text <> [] -> forallb (fun x => (0 <=? x) && (x <? 256)) text = true -> wf (demo_lex text).
Proof.
  intros Hne H. rewrite forallb_forall in H.
  assert (Forall (urange 8) text) as Hb by (apply List.Forall_forall; intros x Hx; specialize (H x Hx); unfold urange; lia).
  constructor; [done| |right|done].
  - destruct text; [done|]. cbn. lia.
  - destruct text; [done|]. exact (Forall_inv Hb).
Qed.

Lemma bytes_check text : forallb (fun x => (0 <=? x) && (x <? 256)) text = true -> Forall (urange 8) text.
Proof. intros H. rewrite forallb_forall in H. apply List.Forall_forall. intros x Hx. specialize (H x Hx). unfold urange. lia. Qed.

Lemma lexer_total_witness :
  exists r, lex_source (lit "local x <const> = 0xffULL -- done") (lit "demo") (demo_table 0x3000) = Some r /\
    match r with
    | inl (toks, ls) => chars ls = [] /\ (length toks <= length (lit "local x <const> = 0xffULL -- done"))%nat
    | inr e => exists line msg, e = lit "demo" ++ 58 :: dec_digits line ++ lit ": " ++ msg /\ 1 <= line
    end.
Proof.
  apply lexer_total; [apply bytes_check; vm_compute; reflexivity|]. apply demo_table_room. vm_compute. lia.
Defined.

Lemma scan_name_witness :
  exists id ls', scan (demo_lex (lit "end_ = 1")) = ok (keyword (lit "end_"), tokval_str id, ls') /\
    is_interned (strs ls') id (lit "end_") /\ chars ls' = lit " = 1".
Proof.
  apply (scan_name 0 101 (lit "nd_") (lit " = 1") (demo_lex (lit "end_ = 1"))); [done|done|by repeat constructor|by intros y [= <-]| | |done].
  - apply demo_lex_wf; [done|vm_compute; reflexivity].
  - apply (demo_table_room 1). lia.
Defined.

Lemma scan_integer_witness :
  exists ls', scan (demo_lex (lit "0xFFLL+1")) = ok (Tok.Number, literal_value 255 NumSuffix.Ll, ls') /\ chars ls' = lit "+1" /\ clean (tokval ls').
Proof.
  apply (scan_integer 255 true true NumSuffix.Ll (lit "+1") (demo_lex (lit "0xFFLL+1"))).
  - split; [done|reflexivity].
  - discriminate.
  - intros x [= <-]. split; [reflexivity|discriminate].
  - apply demo_lex_wf; [done|vm_compute; reflexivity].
  - repeat split.
  - reflexivity.
Defined.

Lemma scan_operator_witness :
  exists ls', scan (demo_lex (lit "~>>=1")) = ok (fst (munch (chars (demo_lex (lit "~>>=1")))), tokval_default, ls') /\
    chars ls' = snd (munch (chars (demo_lex (lit "~>>=1")))).
Proof. apply scan_operator; [apply demo_lex_wf; [done|vm_compute; reflexivity]|vm_compute; reflexivity]. Defined.

Definition demo_string : list Z := lit "say \hi" ++ [10; 0; 255].

Lemma demo_quotable : Forall quotable demo_string.
Proof. let s := eval vm_compute in demo_string in change demo_string with s. repeat (apply Forall_cons; split); [unfold quotable, urange; lia..|done]. Qed.

Lemma quoted_string_read_witness :
  exists text, format (lit "%q") [Str demo_string] = Some (inl text) /\
    forall n r (ls : LexState Table), wf ls -> str_room (S n) (strs ls) -> linenumber ls + zlen demo_string < 0x7fffff00 -> chars ls = text ++ r ->
      exists id ls', scan ls = ok (Tok.Str, tokval_str id, ls') /\ is_interned (strs ls') id demo_string /\ chars ls' = r.
Proof. apply quoted_string_read. exact demo_quotable. Defined.

(** *** Texts that are read in another way than Lua's *)

Definition lexed (text : list Z) : option (list Z + list Z) :=
  let? r := lex_source text (lit "t") (demo_table 0x3000) in
  match r with
  | inl (toks, ls) => let? b := str_get (strs ls) (str (snd (hd (Tok.Eof, tokval_default) toks))) in Some (inl b)
  | inr e => Some (inr e)
  end.

(** A control character comes back from [%q] as another one: 27 is written in octal and read in decimal. *)
Lemma quoted_control_differs :
  (let? r := format (lit "%q") [Str [27]] in match r with inl text => lexed text | inr _ => None end) = Some (inl [33]) /\
  (let? r := format (lit "%q") [Str [13]] in match r with inl text => lexed text | inr _ => None end) = Some (inl [10]).
Proof. split; vm_compute; reflexivity. Qed.

(** Hexadecimal floats are not literals. *)
Lemma hex_float_malformed : lexed (lit "0x1p4") = Some (inr (lit "t:1: malformed number")).
Proof. vm_compute. reflexivity. Qed.
