(* ===== verification/ParseState.v ===== *)
(** * compiler/parse.rs: state of the compiler, jump lists, registers

    The [Parser] with its stack of function states, variable stack and
    instruction buffer, and the layer every construct emits through: constants,
    jump lists threaded through the operands of unresolved jumps, the register
    allocator and [bcemit].

    A computation takes the parser to a result, a [CompileError] or a panic.
    [Diverged] is a walk along a cyclic list, which never ends, and
    [OutOfFuel] a recursion of the grammar beyond the fuel of [parse].  The
    field [debug] says whether the build checks [debug_assert] and integer
    overflow. *)

From Stdlib Require Import ZArith Lia Bool Ascii String.
From stdpp Require Import base decidable numbers option gmap list.
From S2P Require Import Prelude Float64 Value Strings FloatText PatClass Fold Exec Bytecode Table Dump Lex.

(** ** Constants *)

Definition BCMAX_B : Z := 0xff.
Definition BCMAX_C : Z := 0xff.
Definition BCMAX_D : Z := 0xffff.

Definition PROTO_CHILD : Z := 0x01.
Definition PROTO_VARARG : Z := 0x02.
Definition PROTO_FFI : Z := 0x04.
Definition PROTO_HAS_RETURN : Z := 0x20.
Definition PROTO_FIXUP_RETURN : Z := 0x40.
Definition PROTO_BITOP : Z := 0x80.
Definition PROTO_VARARG_NEEDSARG : Z := 0x0100.
Definition PROTO_UV_LOCAL : Z := 0x8000.
Definition PROTO_UV_IMMUTABLE : Z := 0x4000.

Definition LJ_MAX_LOCVAR : Z := 200.
Definition LJ_MAX_UPVAL : Z := 60.
Definition LJ_MAX_SLOTS : Z := 250.
Definition LJ_MAX_XLEVEL : Z := 200.
Definition LJ_MAX_VSTACK : Z := 65536 - LJ_MAX_UPVAL.
Definition VINDEX_NONE : Z := 0xffff.
Definition VINDEX_MASK : Z := 31.

Definition VSTACK_VAR_RW : Z := 0x01.
Definition VSTACK_GOTO : Z := 0x02.
Definition VSTACK_LABEL : Z := 0x04.
Definition VSTACK_CONST : Z := 0x08.

Definition FSCOPE_LOOP : Z := 0x01.
Definition FSCOPE_BREAK : Z := 0x02.
Definition FSCOPE_GOLA : Z := 0x04.
Definition FSCOPE_UPVAL : Z := 0x08.
Definition FSCOPE_NOCLOSE : Z := 0x10.
Definition FSCOPE_CONT : Z := 0x20.

Definition EXPR_F_NORES : Z := 0x01.
Definition EXPR_F_NOCOLON : Z := 0x02.
Definition EXPR_F_NONAV : Z := 0x04.
Definition EXPR_F_RET1 : Z := 0x08.

(** [flags & mask != 0]. *)
Definition has (flags mask : Z) : bool := negb (Z.land flags mask =? 0).

(** ** Expression descriptors *)

Module ExpKind.
Inductive t :=
  | VKNil | VKFalse | VKTrue | VKStr | VKNum | VKCData | VLocal | VUpval | VGlobal | VIndexed | VJmp | VRelocable
  | VNonReloc | VCall | VCallNav | VVoid.

Definition code (k : t) : Z :=
  match k with
  | VKNil => 0 | VKFalse => 1 | VKTrue => 2 | VKStr => 3 | VKNum => 4 | VKCData => 5 | VLocal => 6 | VUpval => 7
  | VGlobal => 8 | VIndexed => 9 | VJmp => 10 | VRelocable => 11 | VNonReloc => 12 | VCall => 13 | VCallNav => 14
  | VVoid => 15
  end.

#[global] Instance eq_dec : EqDecision t.
Proof. solve_decision. Defined.
End ExpKind.
Export ExpKind (t(..)).

(** The derived order of the variants. *)
Definition ek_le (a b : ExpKind.t) : bool := ExpKind.code a <=? ExpKind.code b.
Definition is_kind (a b : ExpKind.t) : bool := bool_decide (a = b).

Module ExpDesc.
Record t := mk { k : ExpKind.t; info : Z; aux : Z; nval : f64; sval : Z; tl : Z; fl : Z }.

Definition set_k v (r : t) : t := let '(mk _ x1 x2 x3 x4 x5 x6) := r in mk v x1 x2 x3 x4 x5 x6.
Definition set_info v (r : t) : t := let '(mk x0 _ x2 x3 x4 x5 x6) := r in mk x0 v x2 x3 x4 x5 x6.
Definition set_aux v (r : t) : t := let '(mk x0 x1 _ x3 x4 x5 x6) := r in mk x0 x1 v x3 x4 x5 x6.
Definition set_nval v (r : t) : t := let '(mk x0 x1 x2 _ x4 x5 x6) := r in mk x0 x1 x2 v x4 x5 x6.
Definition set_sval v (r : t) : t := let '(mk x0 x1 x2 x3 _ x5 x6) := r in mk x0 x1 x2 x3 v x5 x6.
Definition set_tl v (r : t) : t := let '(mk x0 x1 x2 x3 x4 _ x6) := r in mk x0 x1 x2 x3 x4 v x6.
Definition set_fl v (r : t) : t := let '(mk x0 x1 x2 x3 x4 x5 _) := r in mk x0 x1 x2 x3 x4 x5 v.

Definition init (k : ExpKind.t) (info : Z) : t := mk k info 0 0 0 NO_JMP NO_JMP.
End ExpDesc.
Abbreviation ExpDesc := ExpDesc.t.
Import ExpDesc.

(** [tl] and [fl] are the fields [t] and [f]. *)
Definition hasjump (e : ExpDesc) : bool := negb (tl e =? fl e).
Definition isk (e : ExpDesc) : bool := ek_le (k e) VKNum.
Definition isk_nojump (e : ExpDesc) : bool := isk e && negb (hasjump e).
Definition isnumk (e : ExpDesc) : bool := is_kind (k e) VKNum.
Definition isnumk_nojump (e : ExpDesc) : bool := isnumk e && negb (hasjump e).
Definition isstrk (e : ExpDesc) : bool := is_kind (k e) VKStr.
Definition numiszero (e : ExpDesc) : bool := f64_eq (nval e) 0.

(** ** Variables, scopes, functions *)

Module VName.
Inductive t := None | Break | Cont | Fixed (n : Z) | Str (sid : Z).

#[global] Instance eq_dec : EqDecision t.
Proof. solve_decision. Defined.
End VName.

Module VarInfo.
Record t := mk { name : VName.t; startpc : Z; endpc : Z; slot : Z; info : Z; prev : Z }.

Definition set_name v (r : t) : t := let '(mk _ x1 x2 x3 x4 x5) := r in mk v x1 x2 x3 x4 x5.
Definition set_startpc v (r : t) : t := let '(mk x0 _ x2 x3 x4 x5) := r in mk x0 v x2 x3 x4 x5.
Definition set_endpc v (r : t) : t := let '(mk x0 x1 _ x3 x4 x5) := r in mk x0 x1 v x3 x4 x5.
Definition set_slot v (r : t) : t := let '(mk x0 x1 x2 _ x4 x5) := r in mk x0 x1 x2 v x4 x5.
Definition set_info v (r : t) : t := let '(mk x0 x1 x2 x3 _ x5) := r in mk x0 x1 x2 x3 v x5.
Definition set_prev v (r : t) : t := let '(mk x0 x1 x2 x3 x4 _) := r in mk x0 x1 x2 x3 x4 v.
End VarInfo.

Module BCInsLine.
Record t := mk { ins : Z; line : Z }.
End BCInsLine.

Module FuncScope.
Record t := mk { vstart : Z; nactvar : Z; flags : Z; max_freereg : Z }.

Definition set_vstart v (r : t) : t := let '(mk _ x1 x2 x3) := r in mk v x1 x2 x3.
Definition set_nactvar v (r : t) : t := let '(mk x0 _ x2 x3) := r in mk x0 v x2 x3.
Definition set_flags v (r : t) : t := let '(mk x0 x1 _ x3) := r in mk x0 x1 v x3.
Definition set_max_freereg v (r : t) : t := let '(mk x0 x1 x2 _) := r in mk x0 x1 x2 v.
End FuncScope.

(** [varmap], [uvmap] and [uvtmp] are arrays of 250, 60 and 60 entries;
    [scopes] lists the innermost scope first. *)
Module FuncState.
Record t := mk {
  kn : list f64; kn_map : gmap Z Z; kgc : list KGc; kgc_map : gmap Z Z;
  pc : Z; lasttarget : Z; jpc : Z; freereg : Z; nactvar : Z; linedefined : Z; bcbase : Z; vbase : Z;
  flags : Z; numparams : Z; framesize : Z; nuv : Z; varmap : list Z; uvmap : list Z; uvtmp : list Z;
  scopes : list FuncScope.t; pend_start : Z; source : option Z
}.

Definition set_kn v (r : t) : t := let '(mk _ x1 x2 x3 x4 x5 x6 x7 x8 x9 x10 x11 x12 x13 x14 x15 x16 x17 x18 x19 x20 x21) := r in mk v x1 x2 x3 x4 x5 x6 x7 x8 x9 x10 x11 x12 x13 x14 x15 x16 x17 x18 x19 x20 x21.
Definition set_kn_map v (r : t) : t := let '(mk x0 _ x2 x3 x4 x5 x6 x7 x8 x9 x10 x11 x12 x13 x14 x15 x16 x17 x18 x19 x20 x21) := r in mk x0 v x2 x3 x4 x5 x6 x7 x8 x9 x10 x11 x12 x13 x14 x15 x16 x17 x18 x19 x20 x21.
Definition set_kgc v (r : t) : t := let '(mk x0 x1 _ x3 x4 x5 x6 x7 x8 x9 x10 x11 x12 x13 x14 x15 x16 x17 x18 x19 x20 x21) := r in mk x0 x1 v x3 x4 x5 x6 x7 x8 x9 x10 x11 x12 x13 x14 x15 x16 x17 x18 x19 x20 x21.
Definition set_kgc_map v (r : t) : t := let '(mk x0 x1 x2 _ x4 x5 x6 x7 x8 x9 x10 x11 x12 x13 x14 x15 x16 x17 x18 x19 x20 x21) := r in mk x0 x1 x2 v x4 x5 x6 x7 x8 x9 x10 x11 x12 x13 x14 x15 x16 x17 x18 x19 x20 x21.
Definition set_pc v (r : t) : t := let '(mk x0 x1 x2 x3 _ x5 x6 x7 x8 x9 x10 x11 x12 x13 x14 x15 x16 x17 x18 x19 x20 x21) := r in mk x0 x1 x2 x3 v x5 x6 x7 x8 x9 x10 x11 x12 x13 x14 x15 x16 x17 x18 x19 x20 x21.
Definition set_lasttarget v (r : t) : t := let '(mk x0 x1 x2 x3 x4 _ x6 x7 x8 x9 x10 x11 x12 x13 x14 x15 x16 x17 x18 x19 x20 x21) := r in mk x0 x1 x2 x3 x4 v x6 x7 x8 x9 x10 x11 x12 x13 x14 x15 x16 x17 x18 x19 x20 x21.
Definition set_jpc v (r : t) : t := let '(mk x0 x1 x2 x3 x4 x5 _ x7 x8 x9 x10 x11 x12 x13 x14 x15 x16 x17 x18 x19 x20 x21) := r in mk x0 x1 x2 x3 x4 x5 v x7 x8 x9 x10 x11 x12 x13 x14 x15 x16 x17 x18 x19 x20 x21.
Definition set_freereg v (r : t) : t := let '(mk x0 x1 x2 x3 x4 x5 x6 _ x8 x9 x10 x11 x12 x13 x14 x15 x16 x17 x18 x19 x20 x21) := r in mk x0 x1 x2 x3 x4 x5 x6 v x8 x9 x10 x11 x12 x13 x14 x15 x16 x17 x18 x19 x20 x21.
Definition set_nactvar v (r : t) : t := let '(mk x0 x1 x2 x3 x4 x5 x6 x7 _ x9 x10 x11 x12 x13 x14 x15 x16 x17 x18 x19 x20 x21) := r in mk x0 x1 x2 x3 x4 x5 x6 x7 v x9 x10 x11 x12 x13 x14 x15 x16 x17 x18 x19 x20 x21.
Definition set_linedefined v (r : t) : t := let '(mk x0 x1 x2 x3 x4 x5 x6 x7 x8 _ x10 x11 x12 x13 x14 x15 x16 x17 x18 x19 x20 x21) := r in mk x0 x1 x2 x3 x4 x5 x6 x7 x8 v x10 x11 x12 x13 x14 x15 x16 x17 x18 x19 x20 x21.
Definition set_bcbase v (r : t) : t := let '(mk x0 x1 x2 x3 x4 x5 x6 x7 x8 x9 _ x11 x12 x13 x14 x15 x16 x17 x18 x19 x20 x21) := r in mk x0 x1 x2 x3 x4 x5 x6 x7 x8 x9 v x11 x12 x13 x14 x15 x16 x17 x18 x19 x20 x21.
Definition set_flags v (r : t) : t := let '(mk x0 x1 x2 x3 x4 x5 x6 x7 x8 x9 x10 x11 _ x13 x14 x15 x16 x17 x18 x19 x20 x21) := r in mk x0 x1 x2 x3 x4 x5 x6 x7 x8 x9 x10 x11 v x13 x14 x15 x16 x17 x18 x19 x20 x21.
Definition set_numparams v (r : t) : t := let '(mk x0 x1 x2 x3 x4 x5 x6 x7 x8 x9 x10 x11 x12 _ x14 x15 x16 x17 x18 x19 x20 x21) := r in mk x0 x1 x2 x3 x4 x5 x6 x7 x8 x9 x10 x11 x12 v x14 x15 x16 x17 x18 x19 x20 x21.
Definition set_framesize v (r : t) : t := let '(mk x0 x1 x2 x3 x4 x5 x6 x7 x8 x9 x10 x11 x12 x13 _ x15 x16 x17 x18 x19 x20 x21) := r in mk x0 x1 x2 x3 x4 x5 x6 x7 x8 x9 x10 x11 x12 x13 v x15 x16 x17 x18 x19 x20 x21.
Definition set_nuv v (r : t) : t := let '(mk x0 x1 x2 x3 x4 x5 x6 x7 x8 x9 x10 x11 x12 x13 x14 _ x16 x17 x18 x19 x20 x21) := r in mk x0 x1 x2 x3 x4 x5 x6 x7 x8 x9 x10 x11 x12 x13 x14 v x16 x17 x18 x19 x20 x21.
Definition set_varmap v (r : t) : t := let '(mk x0 x1 x2 x3 x4 x5 x6 x7 x8 x9 x10 x11 x12 x13 x14 x15 _ x17 x18 x19 x20 x21) := r in mk x0 x1 x2 x3 x4 x5 x6 x7 x8 x9 x10 x11 x12 x13 x14 x15 v x17 x18 x19 x20 x21.
Definition set_uvmap v (r : t) : t := let '(mk x0 x1 x2 x3 x4 x5 x6 x7 x8 x9 x10 x11 x12 x13 x14 x15 x16 _ x18 x19 x20 x21) := r in mk x0 x1 x2 x3 x4 x5 x6 x7 x8 x9 x10 x11 x12 x13 x14 x15 x16 v x18 x19 x20 x21.
Definition set_uvtmp v (r : t) : t := let '(mk x0 x1 x2 x3 x4 x5 x6 x7 x8 x9 x10 x11 x12 x13 x14 x15 x16 x17 _ x19 x20 x21) := r in mk x0 x1 x2 x3 x4 x5 x6 x7 x8 x9 x10 x11 x12 x13 x14 x15 x16 x17 v x19 x20 x21.
Definition set_scopes v (r : t) : t := let '(mk x0 x1 x2 x3 x4 x5 x6 x7 x8 x9 x10 x11 x12 x13 x14 x15 x16 x17 x18 _ x20 x21) := r in mk x0 x1 x2 x3 x4 x5 x6 x7 x8 x9 x10 x11 x12 x13 x14 x15 x16 x17 x18 v x20 x21.
Definition set_pend_start v (r : t) : t := let '(mk x0 x1 x2 x3 x4 x5 x6 x7 x8 x9 x10 x11 x12 x13 x14 x15 x16 x17 x18 x19 _ x21) := r in mk x0 x1 x2 x3 x4 x5 x6 x7 x8 x9 x10 x11 x12 x13 x14 x15 x16 x17 x18 x19 v x21.

Definition new (vbase : Z) (source : option Z) : t :=
  mk [] ∅ [] ∅ 0 0 NO_JMP 0 0 0 0 vbase 0 0 1 0 (replicate 250 0) (replicate 60 0) (replicate 60 0) [] 0 source.
End FuncState.

(** ** Operators *)

Module BinOp.
Inductive t :=
  | Add | Sub | Mul | Div | Mod | Pow | BAnd | BOr | BXor | BShl | BShr | BSar | Concat | Ne | Eq | Lt | Ge | Le | Gt
  | And | Or | Coal | NoBinOp.

Definition code (o : t) : Z :=
  match o with
  | Add => 0 | Sub => 1 | Mul => 2 | Div => 3 | Mod => 4 | Pow => 5 | BAnd => 6 | BOr => 7 | BXor => 8 | BShl => 9
  | BShr => 10 | BSar => 11 | Concat => 12 | Ne => 13 | Eq => 14 | Lt => 15 | Ge => 16 | Le => 17 | Gt => 18
  | And => 19 | Or => 20 | Coal => 21 | NoBinOp => 22
  end.

#[global] Instance eq_dec : EqDecision t.
Proof. solve_decision. Defined.
End BinOp.

Definition PRIORITY : list (Z * Z) :=
  [(10, 10); (10, 10); (11, 11); (11, 11); (11, 11); (14, 13); (6, 6); (4, 4); (5, 5); (7, 7); (7, 7); (7, 7); (9, 8);
   (3, 3); (3, 3); (3, 3); (3, 3); (3, 3); (3, 3); (2, 2); (1, 1); (1, 1)].

Definition UNARY_PRIORITY : Z := 12.

Definition token2binop (tok : Tok.t) : BinOp.t :=
  match tok with
  | Tok.Char 43 => BinOp.Add | Tok.Char 45 => BinOp.Sub | Tok.Char 42 => BinOp.Mul | Tok.Char 47 => BinOp.Div
  | Tok.Char 37 => BinOp.Mod | Tok.Char 94 => BinOp.Pow | Tok.Char 38 => BinOp.BAnd | Tok.Char 124 => BinOp.BOr
  | Tok.Char 126 => BinOp.BXor | Tok.Shl => BinOp.BShl | Tok.Shr => BinOp.BShr | Tok.Sar => BinOp.BSar
  | Tok.Concat => BinOp.Concat | Tok.Ne | Tok.NeBang => BinOp.Ne | Tok.Eq => BinOp.Eq
  | Tok.Char 60 => BinOp.Lt | Tok.Le => BinOp.Le | Tok.Char 62 => BinOp.Gt | Tok.Ge => BinOp.Ge
  | Tok.And | Tok.AndAnd => BinOp.And | Tok.Or | Tok.OrOr => BinOp.Or | Tok.Coal => BinOp.Coal
  | _ => BinOp.NoBinOp
  end.

(** ** Constant folding *)

Definition vm_foldarith `{Libm} (x y : f64) (op : Z) : option f64 :=
  match op with
  | 0 => Some (f64_add x y)
  | 1 => Some (f64_sub x y)
  | 2 => Some (f64_mul x y)
  | 3 => Some (f64_div x y)
  | 4 => Some (f64_sub x (f64_mul (f64_floor (f64_div x y)) y))
  | 5 => Some (powf x y)
  | _ => None
  end.

Definition num2bit (n : f64) : Z := swrap 32 (uwrap 32 (f64_add n 0x4338000000000000)).

Definition ksh_i16 (n : f64) : option Z :=
  let k := f64_to_i32 n in
  if f64_eq (f64_of_int k) n && ((-32768 <=? k) && (k <=? 32767)) then Some (uwrap 16 k) else None.

Definition kidx_u8 (n : f64) : option Z :=
  let k := f64_to_i32 n in
  if f64_eq (f64_of_int k) n && ((0 <=? k) && (k <=? 255)) then Some k else None.

Definition hsize2hbits (s : Z) : Z :=
  if s =? 0 then 0 else if s =? 1 then 1 else 1 + (31 - leading_zeros 32 (s - 1)).

Definition lex_isname (tok : Tok.t) : bool :=
  match tok with Tok.Name | Tok.Goto | Tok.Continue | Tok.Const => true | _ => false end.

Definition parse_isend (tok : Tok.t) : bool :=
  match tok with Tok.Else | Tok.Elseif | Tok.End | Tok.Until | Tok.Eof => true | _ => false end.

(** ** The parser's state and computations *)

(** The pointer of a string id, and the strings behind such pointers. *)
Class StrPtrs (St : Type) := { lookup_ptr : St -> Z -> option Z; str_heap : St -> StrHeap }.

Inductive Out (A : Type) := Ran (a : A) | Error (msg : list Z) | Panicked | Diverged | OutOfFuel.
Arguments Ran {A} a.
Arguments Error {A} msg.
Arguments Panicked {A}.
Arguments Diverged {A}.
Arguments OutOfFuel {A}.

Section Parser.
Context {St : Type} `{Strings St}.

(** [fs] lists the innermost function first. *)
Record Parser := mkParser {
  ls : LexState St; vstack : list VarInfo.t; bcstack : list BCInsLine.t; vhash : list Z; level : Z; fr2 : Z;
  fs : list FuncState.t; chunk_sid : option Z; debug : bool
}.

Definition set_ls v (r : Parser) : Parser := let '(mkParser _ x1 x2 x3 x4 x5 x6 x7 x8) := r in mkParser v x1 x2 x3 x4 x5 x6 x7 x8.
Definition set_vstack v (r : Parser) : Parser := let '(mkParser x0 _ x2 x3 x4 x5 x6 x7 x8) := r in mkParser x0 v x2 x3 x4 x5 x6 x7 x8.
Definition set_bcstack v (r : Parser) : Parser := let '(mkParser x0 x1 _ x3 x4 x5 x6 x7 x8) := r in mkParser x0 x1 v x3 x4 x5 x6 x7 x8.
Definition set_vhash v (r : Parser) : Parser := let '(mkParser x0 x1 x2 _ x4 x5 x6 x7 x8) := r in mkParser x0 x1 x2 v x4 x5 x6 x7 x8.
Definition set_level v (r : Parser) : Parser := let '(mkParser x0 x1 x2 x3 _ x5 x6 x7 x8) := r in mkParser x0 x1 x2 x3 v x5 x6 x7 x8.
Definition set_fs v (r : Parser) : Parser := let '(mkParser x0 x1 x2 x3 x4 x5 _ x7 x8) := r in mkParser x0 x1 x2 x3 x4 x5 v x7 x8.

Definition M (A : Type) : Type := Parser -> Out (A * Parser).

Definition ret {A} (a : A) : M A := fun p => Ran (a, p).
Definition bind {A B} (m : M A) (f : A -> M B) : M B := fun p =>
  match m p with
  | Ran (a, p) => f a p
  | Error e => Error e
  | Panicked => Panicked
  | Diverged => Diverged
  | OutOfFuel => OutOfFuel
  end.
Definition panic {A} : M A := fun _ => Panicked.
Definition diverge {A} : M A := fun _ => Diverged.
Definition out_of_fuel {A} : M A := fun _ => OutOfFuel.
Definition gets {A} (f : Parser -> A) : M A := fun p => Ran (f p, p).
Definition modify (f : Parser -> Parser) : M unit := fun p => Ran (tt, f p).
Definition lift {A} (o : option A) : M A := match o with Some a => ret a | None => panic end.

#[local] Notation "'let!' x := a 'in' b" := (bind a (fun x => b)) (at level 10, x name, a at level 100, b at level 200).
#[local] Notation "'let!' ' p := a 'in' b" := (bind a (fun p => b)) (at level 10, p strict pattern, a at level 100, b at level 200).
#[local] Notation "'do!' a 'in' b" := (bind a (fun _ => b)) (at level 10, a at level 100, b at level 200).
#[local] Notation "'when' b 'do' a" := (if b then a else ret tt) (at level 10, b at level 100, a at level 100).

(** [debug_assert!], and subtraction on [u32], which panics in a debug build
    and wraps in a release build. *)
Definition debug_assert (b : bool) : M unit := fun p => if debug p && negb b then Panicked else Ran (tt, p).
Definition sub32 (a b : Z) : M Z := fun p =>
  if b <=? a then Ran (a - b, p) else if debug p then Panicked else Ran (uwrap 32 (a - b), p).

Definition cur : M FuncState.t := let! l := gets fs in lift (head l).
Definition cur_mut (f : FuncState.t -> FuncState.t) : M unit :=
  let! l := gets fs in
  match l with f0 :: l => modify (set_fs (f f0 :: l)) | [] => panic end.

(** [self.fs.last().field]. *)
Definition my {A} (f : FuncState.t -> A) : M A := let! s := cur in ret (f s).

Definition slot_at (i : Z) : M BCInsLine.t := let! l := gets bcstack in lift (znth l i).
Definition set_slot_at (i : Z) (x : BCInsLine.t) : M unit :=
  let! l := gets bcstack in let! l := lift (zset l i x) in modify (set_bcstack l).

Definition ins (pc : Z) : M Z := let! b := my FuncState.bcbase in let! x := slot_at (b + pc) in ret (BCInsLine.ins x).

Definition ins_mut_at (i : Z) (f : Z -> Z) : M unit :=
  let! x := slot_at i in set_slot_at i (BCInsLine.mk (f (BCInsLine.ins x)) (BCInsLine.line x)).
Definition ins_mut (pc : Z) (f : Z -> Z) : M unit := let! b := my FuncState.bcbase in ins_mut_at (b + pc) f.

Definition set_line_at (i : Z) (l : Z) : M unit :=
  let! x := slot_at i in set_slot_at i (BCInsLine.mk (BCInsLine.ins x) l).

(** ** The lexer *)

(** A lexer call; its errors and panics are the parser's. *)
Definition from_lex {A} (r : Res A) : M A := fun p =>
  match r with Some (inl a) => Ran (a, p) | Some (inr e) => Error e | None => Panicked end.

Definition ls_next : M unit := let! l := gets ls in let! l := from_lex (next l) in modify (set_ls l).
Definition ls_peek : M Tok.t := let! l := gets ls in let! ' (t, l) := from_lex (peek l) in do! modify (set_ls l) in ret t.
Definition ls_error {A} (msg : list Z) : M A := let! l := gets ls in from_lex (error l msg).
Definition ls_err_near {A} (msg : list Z) : M A := let! l := gets ls in from_lex (err_near l msg).
Definition ls_tok : M Tok.t := gets (fun p => tok (ls p)).
Definition ls_linenumber : M Z := gets (fun p => linenumber (ls p)).
Definition is_tok (t : Tok.t) : M bool := let! t' := ls_tok in ret (bool_decide (t' = t)).
Definition chr (s : String.string) : Tok.t := Tok.Char (hd 0 (lit s)).

Definition strs_get (sid : Z) : M (list Z) := let! s := gets (fun p => strs (ls p)) in lift (str_get s sid).
Definition strs_intern (b : list Z) : M Z :=
  let! l := gets ls in
  let! ' (s, sid) := lift (str_intern (strs l) b) in
  do! modify (set_ls (set_strs l s)) in ret sid.

Definition err_syntax {A} (msg : list Z) : M A := ls_err_near msg.
Definition err_token {A} (t : Tok.t) : M A := ls_err_near ([39] ++ tok2str t ++ lit "' expected").

(** The message of [err_limit] and [checklimitgt_static]. *)
Definition limit_error {A} (linedefined limit : Z) (what : list Z) : M A :=
  if linedefined =? 0 then ls_error (lit "main function has more than " ++ dec_digits limit ++ [32] ++ what)
  else ls_error (lit "function at line " ++ dec_digits linedefined ++ lit " has more than " ++ dec_digits limit ++ [32] ++ what).

Definition err_limit {A} (limit : Z) (what : list Z) : M A :=
  let! l := my FuncState.linedefined in limit_error l limit what.
Definition checklimit (v l : Z) (m : list Z) : M unit := when (l <=? v) do err_limit l m.

(** ** Constants *)

Definition const_num (e : ExpDesc) : M Z :=
  do! debug_assert (isnumk e) in
  let! f := cur in
  match FuncState.kn_map f !! nval e with
  | Some idx => ret idx
  | None =>
      let idx := zlen (FuncState.kn f) in
      do! cur_mut (fun f => FuncState.set_kn_map (<[nval e := idx]> (FuncState.kn_map f))
                              (FuncState.set_kn (FuncState.kn f ++ [nval e]) f)) in
      ret idx
  end.

Definition kgc_push (k : KGc) : M Z :=
  let! n := my (fun f => zlen (FuncState.kgc f)) in
  do! cur_mut (fun f => FuncState.set_kgc (FuncState.kgc f ++ [k]) f) in ret n.

Definition const_str_id (sid : Z) : M Z :=
  let! f := cur in
  match FuncState.kgc_map f !! sid with
  | Some idx => ret idx
  | None =>
      let! idx := kgc_push (KStr sid) in
      do! cur_mut (fun f => FuncState.set_kgc_map (<[sid := idx]> (FuncState.kgc_map f)) f) in
      ret idx
  end.

(** [CTypeID::Int64], [UInt64] and [ComplexDouble]. *)
Definition CT_INT64 : Z := 11.
Definition CT_UINT64 : Z := 12.
Definition CT_COMPLEXDOUBLE : Z := 18.

Definition const_cdata (e : ExpDesc) : M Z :=
  kgc_push (KCData (
    if aux e =? 2 then mkCData CT_COMPLEXDOUBLE (to_le_bytes 8 0 ++ to_le_bytes 8 (nval e)) None 0
    else mkCData (if aux e =? 1 then CT_UINT64 else CT_INT64) (to_le_bytes 8 (nval e)) None 0)).

Definition const_str (e : ExpDesc) : M Z :=
  do! debug_assert (isstrk e || is_kind (k e) VGlobal) in const_str_id (sval e).

Definition const_proto (pt : Proto) : M Z := kgc_push (KProto pt).

(** ** Jump lists

    Walking a list takes at most one step per instruction, or it is cyclic. *)

Definition jmp_fuel (p : Parser) : nat := S (length (bcstack p)).

Definition op_of (i : Z) : M BCOp.t := lift (bc_op i).
Definition is_op (a b : BCOp.t) : bool := bool_decide (a = b).

Definition jmp_next (pc : Z) : M Z :=
  let! i := ins pc in
  let delta := bc_j i in
  ret (if delta =? -1 then NO_JMP else uwrap 32 (pc + 1 + delta)).

(** The instruction before a jump, which tests the value. *)
Definition test_pc (pc : Z) : Z := if 1 <=? pc then pc - 1 else pc.

Fixpoint jmp_novalue_loop (n : nat) (list : Z) : M bool :=
  match n with
  | O => diverge
  | S n =>
      if list =? NO_JMP then ret false else
      let! p := ins (test_pc list) in
      let! op := op_of p in
      if negb (is_op op BCOp.ISTC || is_op op BCOp.ISFC || (bc_a p =? NO_REG)) then ret true
      else let! list := jmp_next list in jmp_novalue_loop n list
  end.
Definition jmp_novalue (list : Z) : M bool := let! n := gets jmp_fuel in jmp_novalue_loop n list.

Definition jmp_patchtestreg (pc reg : Z) : M bool :=
  let! b := my FuncState.bcbase in
  let i := b + test_pc pc in
  let! x := slot_at i in
  let ins := BCInsLine.ins x in
  let! op := op_of ins in
  if is_op op BCOp.ISTC || is_op op BCOp.ISFC then
    do! (if negb (reg =? NO_REG) && negb (reg =? bc_d ins) then ins_mut_at i (fun x => setbc_a x reg)
         else ins_mut_at i (fun _ => setbc_a (setbc_op ins (BCOp.code op + (BCOp.code BCOp.IST - BCOp.code BCOp.ISTC))) 0)) in
    ret true
  else if bc_a ins =? NO_REG then
    do! (if reg =? NO_REG then
           let! y := slot_at (b + pc) in
           ins_mut_at i (fun _ => bcins_aj BCOp.JMP (bc_a (BCInsLine.ins y)) 0)
         else
           do! ins_mut_at i (fun x => setbc_a x reg) in
           let! y := slot_at (i + 1) in
           when bc_a (BCInsLine.ins y) <=? reg do ins_mut_at (i + 1) (fun x => setbc_a x (reg + 1))) in
    ret true
  else ret false.

Fixpoint jmp_dropval_loop (n : nat) (list : Z) : M unit :=
  match n with
  | O => diverge
  | S n =>
      if list =? NO_JMP then ret tt else
      do! jmp_patchtestreg list NO_REG in
      let! list := jmp_next list in
      jmp_dropval_loop n list
  end.
Definition jmp_dropval (list : Z) : M unit := let! n := gets jmp_fuel in jmp_dropval_loop n list.

Definition jmp_patchins (pc dest : Z) : M unit :=
  do! debug_assert (negb (dest =? NO_JMP)) in
  let offset := dest - (pc + 1) + BCBIAS_J in
  if (0 <=? offset) && (offset <=? BCMAX_D) then ins_mut pc (fun i => setbc_d i offset)
  else err_syntax (lit "control structure too long").

(** The last jump of a list. *)
Fixpoint jmp_last (n : nat) (list : Z) : M Z :=
  match n with
  | O => diverge
  | S n => let! nx := jmp_next list in if nx =? NO_JMP then ret list else jmp_last n nx
  end.

Definition jmp_append (l1 l2 : Z) : M Z :=
  if l2 =? NO_JMP then ret l1
  else if l1 =? NO_JMP then ret l2
  else
    let! n := gets jmp_fuel in
    let! list := jmp_last n l1 in
    do! jmp_patchins list l2 in ret l1.

Fixpoint jmp_patchval_loop (n : nat) (list vtarget reg dtarget : Z) : M unit :=
  match n with
  | O => diverge
  | S n =>
      if list =? NO_JMP then ret tt else
      let! nx := jmp_next list in
      let! v := jmp_patchtestreg list reg in
      do! jmp_patchins list (if v then vtarget else dtarget) in
      jmp_patchval_loop n nx vtarget reg dtarget
  end.
Definition jmp_patchval (list vtarget reg dtarget : Z) : M unit :=
  let! n := gets jmp_fuel in jmp_patchval_loop n list vtarget reg dtarget.

Definition jmp_tohere (list : Z) : M unit :=
  let! pc := my FuncState.pc in
  do! cur_mut (FuncState.set_lasttarget pc) in
  let! jpc := my FuncState.jpc in
  let! jpc := jmp_append jpc list in
  cur_mut (FuncState.set_jpc jpc).

Definition jmp_patch (list target : Z) : M unit :=
  let! pc := my FuncState.pc in
  if target =? pc then jmp_tohere list
  else do! debug_assert (target <? pc) in jmp_patchval list target NO_REG target.

(** ** Registers *)

Definition bcreg_bump (n : Z) : M unit :=
  let! f := cur in
  let sz := FuncState.freereg f + n in
  when FuncState.framesize f <? sz do
    (if LJ_MAX_SLOTS <=? sz then err_syntax (lit "function or expression too complex")
     else cur_mut (FuncState.set_framesize (uwrap 8 sz))).

(** [for s in scopes.iter_mut().rev()], up to the first scope that knows. *)
Fixpoint raise_max (freg : Z) (l : list FuncScope.t) : list FuncScope.t :=
  match l with
  | s :: l => if FuncScope.max_freereg s <? freg then FuncScope.set_max_freereg freg s :: raise_max freg l else s :: l
  | [] => []
  end.

Definition set_freereg (r : Z) : M unit := cur_mut (FuncState.set_freereg r).

Definition bcreg_reserve (n : Z) : M unit :=
  do! bcreg_bump n in
  cur_mut (fun f =>
    let r := FuncState.freereg f + n in
    FuncState.set_scopes (raise_max r (FuncState.scopes f)) (FuncState.set_freereg r f)).

(** [freereg -= n]. *)
Definition drop_regs (n : Z) : M unit :=
  let! r := my FuncState.freereg in let! r := sub32 r n in set_freereg r.

Definition bcreg_free (reg : Z) : M unit :=
  let! f := cur in
  when FuncState.nactvar f <=? reg do
    (let! top := sub32 (FuncState.freereg f) 1 in
     if reg =? top then drop_regs 1 else debug_assert (reg =? FuncState.freereg f)).

Definition expr_free (e : ExpDesc) : M unit := when is_kind (k e) VNonReloc do bcreg_free (info e).

(** [freereg - 1]. *)
Definition last_reg : M Z := let! r := my FuncState.freereg in sub32 r 1.

(** ** Emission *)

Definition bcemit (i : Z) : M Z :=
  let! pc := my FuncState.pc in
  let! jpc := my FuncState.jpc in
  do! jmp_patchval jpc pc NO_REG pc in
  do! cur_mut (FuncState.set_jpc NO_JMP) in
  let! b := my FuncState.bcbase in
  let idx := b + pc in
  let! l := gets bcstack in
  do! modify (set_bcstack (l ++ replicate (Z.to_nat (idx + 1 - zlen l)) (BCInsLine.mk 0 0))) in
  let! line := gets (fun p => lastline (ls p)) in
  do! set_slot_at idx (BCInsLine.mk i line) in
  do! cur_mut (FuncState.set_pc (pc + 1)) in
  ret pc.

Definition bcemit_abc (o : BCOp.t) (a b c : Z) : M Z := bcemit (bcins_abc o a b c).
Definition bcemit_ad (o : BCOp.t) (a d : Z) : M Z := bcemit (bcins_ad o a d).
Definition bcemit_aj (o : BCOp.t) (a j : Z) : M Z := bcemit (bcins_aj o a j).

Definition line_of (pc : Z) : M Z := let! b := my FuncState.bcbase in let! x := slot_at (b + pc) in ret (BCInsLine.line x).
End Parser.

Arguments Parser : clear implicits.
Arguments M : clear implicits.
