(* ===== verification/ParseExpr.v ===== *)
(** * compiler/parse.rs: code for expressions, branches and operators

    From an expression descriptor to instructions: discharging variables into
    registers, branch lists for [and], [or], [not] and comparisons, constant
    folding, and the operand forms of arithmetic. *)

From Stdlib Require Import ZArith Lia Bool Ascii String.
From stdpp Require Import base decidable numbers option gmap list.
From S2P Require Import Prelude Float64 Value Strings FloatText PatClass Fold Exec Bytecode Table Dump Lex ParseState.
Import ExpDesc.

Section Expr.
Context {St : Type} `{Strings St} `{Libm}.

#[local] Abbreviation M := (M St).
#[local] Notation "'let!' x := a 'in' b" := (bind a (fun x => b)) (at level 10, x name, a at level 100, b at level 200).
#[local] Notation "'let!' ' p := a 'in' b" := (bind a (fun p => b)) (at level 10, p strict pattern, a at level 100, b at level 200).
#[local] Notation "'do!' a 'in' b" := (bind a (fun _ => b)) (at level 10, a at level 100, b at level 200).
#[local] Notation "'when' b 'do' a" := (if b then a else ret tt) (at level 10, b at level 100, a at level 100).

(** [const_pri]. *)
Definition const_pri (e : ExpDesc) : M Z :=
  do! debug_assert (ek_le (k e) VKTrue) in ret (ExpKind.code (k e)).

(** [e.k = kind; e.info = info]. *)
Definition become (kind : ExpKind.t) (info : Z) (e : ExpDesc) : ExpDesc := set_k kind (set_info info e).

(** ** Loads *)

Definition expr_discharge (e : ExpDesc) : M ExpDesc :=
  let emit i := let! pc := bcemit i in ret (become VRelocable pc e) in
  match k e with
  | VUpval => emit (bcins_ad BCOp.UGET 0 (info e))
  | VGlobal => let! idx := const_str e in emit (bcins_ad BCOp.GGET 0 idx)
  | VIndexed =>
      let rc := aux e in
      let! i := (if 2 ^ 31 <=? rc then ret (bcins_abc BCOp.TGETS 0 (info e) (unot 32 rc))
                 else if BCMAX_C <? rc then ret (bcins_abc BCOp.TGETB 0 (info e) (rc - (BCMAX_C + 1)))
                 else do! bcreg_free rc in ret (bcins_abc BCOp.TGETV 0 (info e) rc)) in
      do! bcreg_free (info e) in
      emit i
  | VCall | VCallNav => ret (become VNonReloc (aux e) e)
  | VLocal => ret (set_k VNonReloc e)
  | _ => ret e
  end.

Definition nil_ins (from n : Z) : Z :=
  if n =? 1 then bcins_ad BCOp.KPRI from (ExpKind.code VKNil) else bcins_ad BCOp.KNIL from (from + n - 1).

(** A load of nils on a new line of its own, which has no source line. *)
Definition emit_nil (from n : Z) : M unit :=
  let! pc := bcemit (nil_ins from n) in
  let! b := my FuncState.bcbase in
  set_line_at (b + pc) 0.

Definition bcemit_nil (from n : Z) : M unit :=
  let! f := cur in
  if FuncState.lasttarget f <? FuncState.pc f then
    let pc := FuncState.pc f in
    let! ip := ins (pc - 1) in
    let pfrom := bc_a ip in
    let! op := op_of ip in
    match op with
    | BCOp.KPRI =>
        if bc_d ip =? 0 then
          if from =? pfrom then
            if n =? 1 then ret tt else ins_mut (pc - 1) (fun _ => bcins_ad BCOp.KNIL from (from + n - 1))
          else if from =? pfrom + 1 then
            ins_mut (pc - 1) (fun _ => bcins_ad BCOp.KNIL pfrom (pfrom + (n + 1) - 1))
          else do! bcemit (nil_ins from n) in ret tt
        else emit_nil from n
    | BCOp.KNIL =>
        let pto := bc_d ip in
        if (pfrom <=? from) && (from <=? pto + 1) then
          when pto <? from + n - 1 do ins_mut (pc - 1) (fun i => setbc_d i (from + n - 1))
        else emit_nil from n
    | _ => emit_nil from n
    end
  else emit_nil from n.

Definition expr_toreg_nobranch (e : ExpDesc) (reg : Z) : M ExpDesc :=
  let! e := expr_discharge e in
  let emit i := do! bcemit i in ret (become VNonReloc reg e) in
  match k e with
  | VKStr => let! idx := const_str e in emit (bcins_ad BCOp.KSTR reg idx)
  | VKNum =>
      match ksh_i16 (nval e) with
      | Some x => emit (bcins_ad BCOp.KSHORT reg x)
      | None => let! idx := const_num e in emit (bcins_ad BCOp.KNUM reg idx)
      end
  | VKCData =>
      let! idx := const_cdata e in
      do! cur_mut (fun f => FuncState.set_flags (Z.lor (FuncState.flags f) PROTO_FFI) f) in
      emit (bcins_ad BCOp.KCDATA reg idx)
  | VRelocable => do! ins_mut (info e) (fun i => setbc_a i reg) in ret (become VNonReloc reg e)
  | VNonReloc => if reg =? info e then ret e else emit (bcins_ad BCOp.MOV reg (info e))
  | VKNil => do! bcemit_nil reg 1 in ret (become VNonReloc reg e)
  | VKFalse | VKTrue => let! d := const_pri e in emit (bcins_ad BCOp.KPRI reg d)
  | x => do! debug_assert (is_kind x VVoid || is_kind x VJmp) in ret e
  end.

Definition bcemit_jmp : M Z :=
  let! jpc := my FuncState.jpc in
  let! pc := my FuncState.pc in
  let! j := sub32 pc 1 in
  do! cur_mut (FuncState.set_jpc NO_JMP) in
  let! ip := ins j in
  let! lt := my FuncState.lasttarget in
  let! uclo := (if lt <=? j then let! op := op_of ip in ret (is_op op BCOp.UCLO) else ret false) in
  let! j := (if uclo then
               do! ins_mut j (fun i => setbc_j i (-1)) in
               do! cur_mut (FuncState.set_lasttarget (j + 1)) in ret j
             else let! r := my FuncState.freereg in bcemit_aj BCOp.JMP r (-1)) in
  jmp_append j jpc.

Definition expr_toreg (e : ExpDesc) (reg : Z) : M ExpDesc :=
  let! e := expr_toreg_nobranch e reg in
  let! t := (if is_kind (k e) VJmp then jmp_append (tl e) (info e) else ret (tl e)) in
  let e := set_tl t e in
  do! when hasjump e do
    (let! vt := jmp_novalue (tl e) in
     let! v := (if vt then ret true else jmp_novalue (fl e)) in
     let! ' (jfalse, jtrue) :=
       (if v then
          let! jval := (if is_kind (k e) VJmp then ret NO_JMP else bcemit_jmp) in
          let! jfalse := bcemit_ad BCOp.KPRI reg (ExpKind.code VKFalse) in
          let! r := my FuncState.freereg in
          do! bcemit_aj BCOp.JMP r 1 in
          let! jtrue := bcemit_ad BCOp.KPRI reg (ExpKind.code VKTrue) in
          do! jmp_tohere jval in
          ret (jfalse, jtrue)
        else ret (NO_JMP, NO_JMP)) in
     let! jend := my FuncState.pc in
     do! cur_mut (FuncState.set_lasttarget jend) in
     do! jmp_patchval (fl e) jend reg jfalse in
     jmp_patchval (tl e) jend reg jtrue) in
  ret (become VNonReloc reg (set_tl NO_JMP (set_fl NO_JMP e))).

Definition expr_tonextreg (e : ExpDesc) : M ExpDesc :=
  let! e := expr_discharge e in
  do! expr_free e in
  do! bcreg_reserve 1 in
  let! reg := last_reg in
  expr_toreg e reg.

Definition expr_toanyreg (e : ExpDesc) : M ExpDesc :=
  let! e := expr_discharge e in
  let! nactvar := my FuncState.nactvar in
  if is_kind (k e) VNonReloc && negb (hasjump e) then ret e
  else if is_kind (k e) VNonReloc && (nactvar <=? info e) then expr_toreg e (info e)
  else expr_tonextreg e.

Definition expr_toval (e : ExpDesc) : M ExpDesc := if hasjump e then expr_toanyreg e else expr_discharge e.

(** ** Stores *)

Definition vstack_upd (i : Z) (f : VarInfo.t -> VarInfo.t) : M unit :=
  let! l := gets vstack in
  let! v := lift (znth l i) in
  let! l := lift (zset l i (f v)) in
  modify (set_vstack l).

Definition mark_rw (i : Z) : M unit := vstack_upd i (fun v => VarInfo.set_info (Z.lor (VarInfo.info v) VSTACK_VAR_RW) v).

Definition bcemit_store (var e : ExpDesc) : M unit :=
  let finish i e := do! bcemit i in expr_free e in
  match k var with
  | VLocal =>
      do! mark_rw (aux var) in
      do! expr_free e in
      do! expr_toreg e (info var) in ret tt
  | VUpval =>
      do! mark_rw (aux var) in
      let! e := expr_toval e in
      match k e with
      | VKNil | VKFalse | VKTrue => let! d := const_pri e in finish (bcins_ad BCOp.USETP (info var) d) e
      | VKStr => let! idx := const_str e in finish (bcins_ad BCOp.USETS (info var) idx) e
      | VKNum => let! idx := const_num e in finish (bcins_ad BCOp.USETN (info var) idx) e
      | _ => let! e := expr_toanyreg e in finish (bcins_ad BCOp.USETV (info var) (info e)) e
      end
  | VGlobal =>
      let! e := expr_toanyreg e in
      let! idx := const_str var in
      finish (bcins_ad BCOp.GSET (info e) idx) e
  | x =>
      do! debug_assert (is_kind x VIndexed) in
      let! e := expr_toanyreg e in
      let ra := info e in
      let rc := aux var in
      if 2 ^ 31 <=? rc then finish (bcins_abc BCOp.TSETS ra (info var) (unot 32 rc)) e
      else if BCMAX_C <? rc then finish (bcins_abc BCOp.TSETB ra (info var) (rc - (BCMAX_C + 1))) e
      else
        let! dbg := gets debug in
        let! nactvar := my FuncState.nactvar in
        do! when dbg && is_kind (k e) VNonReloc && (nactvar <=? ra) && (ra <=? rc) do bcreg_free rc in
        finish (bcins_abc BCOp.TSETV ra (info var) rc) e
  end.

Definition bcemit_method (e key : ExpDesc) : M ExpDesc :=
  let! e := expr_toanyreg e in
  let obj := info e in
  do! expr_free e in
  let! func := my FuncState.freereg in
  let! fr2 := gets fr2 in
  do! bcemit_ad BCOp.MOV (func + 1 + fr2) obj in
  do! debug_assert (isstrk key) in
  let! idx := const_str_id (sval key) in
  do! (if idx <=? BCMAX_C then
         do! bcreg_reserve (2 + fr2) in
         do! bcemit_abc BCOp.TGETS func obj idx in ret tt
       else
         do! bcreg_reserve (3 + fr2) in
         do! bcemit_ad BCOp.KSTR (func + 2 + fr2) idx in
         do! bcemit_abc BCOp.TGETV func obj (func + 2 + fr2) in
         drop_regs 1) in
  ret (become VNonReloc func e).

(** ** Branches *)

Definition invertcond (e : ExpDesc) : M unit :=
  let! pc := sub32 (info e) 1 in
  let! i := ins pc in
  let! op := op_of i in
  ins_mut pc (fun i => setbc_op i (Z.lxor (BCOp.code op) 1)).

Definition bcemit_branch (e : ExpDesc) (cond : bool) : M (ExpDesc * Z) :=
  let! ip := (if is_kind (k e) VRelocable then let! ip := ins (info e) in ret (Some ip) else ret None) in
  let! inv := match ip with Some ip => let! op := op_of ip in ret (is_op op BCOp.NOT) | None => ret false end in
  match ip, inv with
  | Some ip, true =>
      do! ins_mut (info e) (fun _ => bcins_ad (if cond then BCOp.ISF else BCOp.IST) 0 (bc_d ip)) in
      let! pc := bcemit_jmp in ret (e, pc)
  | _, _ =>
      let! e := (if is_kind (k e) VNonReloc then ret e
                 else do! bcreg_reserve 1 in let! reg := last_reg in expr_toreg_nobranch e reg) in
      do! bcemit_ad (if cond then BCOp.ISTC else BCOp.ISFC) NO_REG (info e) in
      let! pc := bcemit_jmp in
      do! expr_free e in
      ret (e, pc)
  end.

Definition bcemit_branch_t (e : ExpDesc) : M ExpDesc :=
  let! e := expr_discharge e in
  let! ' (e, pc) :=
    match k e with
    | VKStr | VKNum | VKTrue => ret (e, NO_JMP)
    | VJmp => do! invertcond e in ret (e, info e)
    | VKFalse | VKNil =>
        let! e := expr_toreg_nobranch e NO_REG in
        let! pc := bcemit_jmp in ret (e, pc)
    | _ => bcemit_branch e false
    end in
  let! f := jmp_append (fl e) pc in
  do! jmp_tohere (tl e) in
  ret (set_tl NO_JMP (set_fl f e)).

Definition bcemit_branch_f (e : ExpDesc) : M ExpDesc :=
  let! e := expr_discharge e in
  let! ' (e, pc) :=
    match k e with
    | VKNil | VKFalse => ret (e, NO_JMP)
    | VJmp => ret (e, info e)
    | VKStr | VKNum | VKTrue =>
        let! e := expr_toreg_nobranch e NO_REG in
        let! pc := bcemit_jmp in ret (e, pc)
    | _ => bcemit_branch e true
    end in
  let! t := jmp_append (tl e) pc in
  do! jmp_tohere (fl e) in
  ret (set_fl NO_JMP (set_tl t e)).

(** ** Operators *)

(** The folded operand, or no folding. *)
Definition foldarith (opr : BinOp.t) (e1 e2 : ExpDesc) : M (option ExpDesc) :=
  if negb (isnumk_nojump e1) || negb (isnumk_nojump e2) then ret None else
  let! n := lift (vm_foldarith (nval e1) (nval e2) (BinOp.code opr - BinOp.code BinOp.Add)) in
  if f64_is_nan n || (n =? 2 ^ 63) then ret None else ret (Some (set_nval n e1)).

Definition fold_bits (opr : BinOp.t) (k1 k2 : Z) : option Z :=
  match opr with
  | BinOp.BAnd => Some (Z.land k1 k2)
  | BinOp.BOr => Some (Z.lor k1 k2)
  | BinOp.BXor => Some (Z.lxor k1 k2)
  | BinOp.BShl => Some (swrap 32 (Z.shiftl k1 (Z.land k2 31)))
  | BinOp.BShr => Some (swrap 32 (Z.shiftr (uwrap 32 k1) (Z.land k2 31)))
  | BinOp.BSar => Some (Z.shiftr k1 (Z.land k2 31))
  | _ => None
  end.

Definition foldbitop (opr : BinOp.t) (e1 e2 : ExpDesc) : M (option ExpDesc) :=
  if isnumk_nojump e1 && isnumk_nojump e2 then
    let! k1 := lift (fold_bits opr (num2bit (nval e1)) (num2bit (nval e2))) in
    ret (Some (set_nval (f64_of_int k1) e1))
  else ret None.

(** [if e.k == VNonReloc && e.info >= nactvar { freereg -= 1 }]. *)
Definition drop_temp (e : ExpDesc) : M unit :=
  let! nactvar := my FuncState.nactvar in
  when is_kind (k e) VNonReloc && (nactvar <=? info e) do drop_regs 1.

(** The opcode and operands of an arithmetic operation with constant forms. *)
Definition arith_operands (opr : BinOp.t) (e1 e2 : ExpDesc) : M (ExpDesc * ExpDesc * Z * Z * Z) :=
  let op := BCOp.code BCOp.ADDVV + (BinOp.code opr - BinOp.code BinOp.Add) in
  let! e2 := expr_toval e2 in
  let! kc := (if isnumk e2 then let! x := const_num e2 in ret (if x <=? BCMAX_C then Some x else None) else ret None) in
  let! ' (e2, rc2, op) :=
    match kc with
    | Some x => ret (e2, x, op - (BCOp.code BCOp.ADDVV - BCOp.code BCOp.ADDVN))
    | None => let! e2 := expr_toanyreg e2 in ret (e2, info e2, op)
    end in
  do! debug_assert (isnumk e1 || is_kind (k e1) VNonReloc) in
  let! e1 := expr_toval e1 in
  if isnumk e1 && negb (isnumk e2) then
    let! t := const_num e1 in
    if t <=? BCMAX_B then ret (e1, e2, rc2, t, op - (BCOp.code BCOp.ADDVV - BCOp.code BCOp.ADDNV))
    else let! e1 := expr_toanyreg e1 in ret (e1, e2, info e1, rc2, op)
  else let! e1 := expr_toanyreg e1 in ret (e1, e2, info e1, rc2, op).

Definition bcemit_arith (opr : BinOp.t) (e1 e2 : ExpDesc) : M ExpDesc :=
  let both op :=
    let! e2 := expr_toanyreg e2 in
    let! e1 := expr_toanyreg e1 in
    ret (e1, e2, info e1, info e2, op) in
  let! ' (e1, e2, rb, rc, op) :=
    (if bool_decide (opr = BinOp.Pow) then both (BCOp.code BCOp.POW)
     else if BinOp.code BinOp.BAnd <=? BinOp.code opr then
       both (BCOp.code BCOp.BAND + (BinOp.code opr - BinOp.code BinOp.BAnd))
     else arith_operands opr e1 e2) in
  do! drop_temp e1 in
  do! drop_temp e2 in
  let! o := lift (from_u32 op) in
  let! pc := bcemit_abc o 0 rb rc in
  ret (become VRelocable pc e1).

(** The instruction of [==] and [~=], and the operands in registers. *)
Definition comp_eq (opr : BinOp.t) (e1 e2 : ExpDesc) : M (ExpDesc * ExpDesc * Z) :=
  let op := if bool_decide (opr = BinOp.Eq) then BCOp.ISEQV else BCOp.ISNEV in
  let '(e1, e2) := if isk e1 then (e2, e1) else (e1, e2) in
  let! e1 := expr_toanyreg e1 in
  let ra := info e1 in
  let! e2 := expr_toval e2 in
  let off o := lift (bcop_offset op (BCOp.code o - BCOp.code BCOp.ISEQV)) in
  match k e2 with
  | VKNil | VKFalse | VKTrue => let! o := off BCOp.ISEQP in let! d := const_pri e2 in ret (e1, e2, bcins_ad o ra d)
  | VKStr => let! idx := const_str e2 in let! o := off BCOp.ISEQS in ret (e1, e2, bcins_ad o ra idx)
  | VKNum => let! idx := const_num e2 in let! o := off BCOp.ISEQN in ret (e1, e2, bcins_ad o ra idx)
  | _ => let! e2 := expr_toanyreg e2 in ret (e1, e2, bcins_ad op ra (info e2))
  end.

(** The instruction of [<], [<=], [>] and [>=]: the last two swap. *)
Definition comp_lt (opr : BinOp.t) (e1 e2 : ExpDesc) : M (ExpDesc * ExpDesc * Z) :=
  let lt := BCOp.code BCOp.ISLT in
  let op := BinOp.code opr - BinOp.code BinOp.Lt + lt in
  if negb (Z.land (op - lt) 1 =? 0) then
    let op := Z.lxor (op - lt) 3 + lt in
    let! a := expr_toval e2 in
    let! a := expr_toanyreg a in
    let! b := expr_toanyreg e1 in
    let! o := lift (from_u32 op) in
    ret (a, b, bcins_ad o (info a) (info b))
  else
    let! b := expr_toanyreg e2 in
    let! a := expr_toanyreg e1 in
    let! o := lift (from_u32 op) in
    ret (a, b, bcins_ad o (info a) (info b)).

Definition bcemit_comp (opr : BinOp.t) (e1 e2 : ExpDesc) : M ExpDesc :=
  let! e1 := expr_toval e1 in
  let! ' (e1, e2, i) :=
    (if bool_decide (opr = BinOp.Eq) || bool_decide (opr = BinOp.Ne) then comp_eq opr e1 e2 else comp_lt opr e1 e2) in
  do! drop_temp e1 in
  do! drop_temp e2 in
  do! bcemit i in
  let! j := bcemit_jmp in
  ret (become VJmp j e1).

Definition bcemit_binop_left (op : BinOp.t) (e : ExpDesc) : M ExpDesc :=
  match op with
  | BinOp.And => bcemit_branch_t e
  | BinOp.Or => bcemit_branch_f e
  | BinOp.Coal =>
      let! e := expr_tonextreg e in
      let reg := info e in
      do! bcemit (bcins_ad BCOp.ISNEP reg (ExpKind.code VKNil)) in
      let! j := bcemit_jmp in
      do! bcreg_free reg in
      ret (set_aux j e)
  | BinOp.Concat => expr_tonextreg e
  | BinOp.Eq | BinOp.Ne => if isk_nojump e then ret e else expr_toanyreg e
  | _ => if isnumk_nojump e then ret e else expr_toanyreg e
  end.

Definition bcemit_concat (e1 e2 : ExpDesc) : M ExpDesc :=
  let! e2 := expr_toval e2 in
  let! cat := (if is_kind (k e2) VRelocable then
                 let! i := ins (info e2) in let! op := op_of i in
                 ret (if is_op op BCOp.CAT then Some i else None)
               else ret None) in
  match cat with
  | Some i =>
      let! b := (let! dbg := gets debug in if dbg then sub32 (bc_b i) 1 else ret (info e1)) in
      do! debug_assert (info e1 =? b) in
      do! expr_free e1 in
      do! ins_mut (info e2) (fun i => setbc_b i (info e1)) in
      ret (become VRelocable (info e2) e1)
  | None =>
      let! e2 := expr_tonextreg e2 in
      do! expr_free e2 in
      do! expr_free e1 in
      let! pc := bcemit_abc BCOp.CAT 0 (info e1) (info e2) in
      ret (become VRelocable pc e1)
  end.

Definition flag_bitop : M unit := cur_mut (fun f => FuncState.set_flags (Z.lor (FuncState.flags f) PROTO_BITOP) f).

Definition bcemit_binop (op : BinOp.t) (e1 e2 : ExpDesc) : M ExpDesc :=
  match op with
  | BinOp.Add | BinOp.Sub | BinOp.Mul | BinOp.Div | BinOp.Mod | BinOp.Pow =>
      let! r := foldarith op e1 e2 in
      match r with Some e => ret e | None => bcemit_arith op e1 e2 end
  | BinOp.BAnd | BinOp.BOr | BinOp.BXor | BinOp.BShl | BinOp.BShr | BinOp.BSar =>
      let! r := foldbitop op e1 e2 in
      match r with Some e => ret e | None => do! flag_bitop in bcemit_arith op e1 e2 end
  | BinOp.And =>
      do! debug_assert (tl e1 =? NO_JMP) in
      let! e2 := expr_discharge e2 in
      let! f := jmp_append (fl e2) (fl e1) in
      ret (set_fl f e2)
  | BinOp.Or =>
      do! debug_assert (fl e1 =? NO_JMP) in
      let! e2 := expr_discharge e2 in
      let! t := jmp_append (tl e2) (tl e1) in
      ret (set_tl t e2)
  | BinOp.Coal =>
      do! expr_tonextreg e2 in
      do! jmp_tohere (aux e1) in ret e1
  | BinOp.Concat => bcemit_concat e1 e2
  | _ =>
      do! debug_assert (negb (bool_decide (op = BinOp.NoBinOp))) in
      bcemit_comp op e1 e2
  end.

(** The instruction of a unary operator on a value in a register. *)
Definition emit_unop (op : BCOp.t) (e : ExpDesc) : M ExpDesc :=
  do! expr_free e in
  let! pc := bcemit_ad op 0 (info e) in
  ret (become VRelocable pc e).

Definition bcemit_not (e : ExpDesc) : M ExpDesc :=
  let e := set_tl (fl e) (set_fl (tl e) e) in
  do! jmp_dropval (fl e) in
  do! jmp_dropval (tl e) in
  let! e := expr_discharge e in
  match k e with
  | VKNil | VKFalse => ret (set_k VKTrue e)
  | VKTrue | VKStr | VKNum => ret (set_k VKFalse e)
  | VJmp => do! invertcond e in ret e
  | VRelocable =>
      do! bcreg_reserve 1 in
      let! reg := last_reg in
      do! ins_mut (info e) (fun i => setbc_a i reg) in
      emit_unop BCOp.NOT (become VNonReloc reg e)
  | x => do! debug_assert (is_kind x VNonReloc) in emit_unop BCOp.NOT e
  end.

Definition bcemit_unop (op : BCOp.t) (e : ExpDesc) : M ExpDesc :=
  let rest :=
    do! when is_op op BCOp.BNOT do flag_bitop in
    let! e := expr_toanyreg e in
    emit_unop op e in
  match op with
  | BCOp.NOT => bcemit_not e
  | BCOp.UNM => if negb (hasjump e) && isnumk e && negb (numiszero e) then ret (set_nval (Z.lxor (nval e) (2 ^ 63)) e) else rest
  | BCOp.BNOT => if negb (hasjump e) && isnumk e then ret (set_nval (f64_of_int (swrap 32 (unot 32 (uwrap 32 (num2bit (nval e)))))) e) else rest
  | _ => do! debug_assert (is_op op BCOp.LEN) in rest
  end.
End Expr.
