(* ===== verification/ParseScope.v ===== *)
(** * compiler/parse.rs: variables, labels, scopes, function states

    Names resolve through [vhash], 32 chains of indices into the variable
    stack linked by [prev]; gotos and labels live on the same stack.  The end
    of a scope closes upvalues, clears dead registers and resolves or passes
    on its gotos; the end of a function builds its [Proto]. *)

From Stdlib Require Import ZArith Lia Bool Ascii String.
From stdpp Require Import base decidable numbers option gmap list.
From S2P Require Import Prelude Float64 Value Strings FloatText PatClass Fold Exec Bytecode Table Dump Lex ParseState ParseExpr.
Import ExpDesc.

Section Scope.
Context {St : Type} `{Strings St} `{Libm}.

#[local] Abbreviation M := (M St).
#[local] Notation "'let!' x := a 'in' b" := (bind a (fun x => b)) (at level 10, x name, a at level 100, b at level 200).
#[local] Notation "'let!' ' p := a 'in' b" := (bind a (fun p => b)) (at level 10, p strict pattern, a at level 100, b at level 200).
#[local] Notation "'do!' a 'in' b" := (bind a (fun _ => b)) (at level 10, a at level 100, b at level 200).
#[local] Notation "'when' b 'do' a" := (if b then a else ret tt) (at level 10, b at level 100, a at level 100).

(** ** Tokens *)

Definition lex_opt (t : Tok.t) : M bool :=
  let! b := is_tok t in
  if b then do! ls_next in ret true else ret false.

Definition lex_check (t : Tok.t) : M unit :=
  let! b := is_tok t in
  do! when negb b do err_token t in ls_next.

Definition lex_match (what who : Tok.t) (line : Z) : M unit :=
  let! b := lex_opt what in
  when negb b do
    (let! n := ls_linenumber in
     if line =? n then err_token what
     else ls_err_near ([39] ++ tok2str what ++ lit "' expected (to close '" ++ tok2str who ++ lit "' at line " ++ dec_digits line ++ [41])).

Definition lex_str : M Z :=
  let! t := ls_tok in
  do! when negb (lex_isname t) do err_token Tok.Name in
  let! s := gets (fun p => str (tokval (ls p))) in
  do! ls_next in ret s.

(** ** Variables *)

Definition var_hash (name : VName.t) : option Z :=
  match name with VName.Str sid => Some (Z.land sid VINDEX_MASK) | _ => None end.

Definition var_at (i : Z) : M VarInfo.t := let! l := gets vstack in lift (znth l i).
Definition vhash_at (h : Z) : M Z := let! l := gets vhash in lift (znth l h).
Definition set_vhash_at (h v : Z) : M unit := let! l := gets vhash in let! l := lift (zset l h v) in modify (set_vhash l).
Definition vtop : M Z := gets (fun p => zlen (vstack p)).
Definition is_name (a b : VName.t) : bool := bool_decide (a = b).

(** The text of a name in a message. *)
Definition lossy_name (sid : Z) : M (list Z) := let! b := strs_get sid in ret (from_utf8_lossy b).

(** A walk along a chain visits each variable at most once. *)
Definition chain_fuel (p : Parser St) : nat := S (length (vstack p)).

Fixpoint redeclare_loop (n : nat) (sid vidx : Z) : M unit :=
  match n with
  | O => diverge
  | S n =>
      if vidx =? VINDEX_NONE then ret tt else
      let! v := var_at vidx in
      if is_name (VarInfo.name v) (VName.Str sid) && has (VarInfo.info v) VSTACK_CONST then
        let! s := lossy_name sid in ls_error (lit "attempt to redeclare constant '" ++ s ++ [39])
      else redeclare_loop n sid (VarInfo.prev v)
  end.

Definition vstack_push (v : VarInfo.t) : M unit := let! l := gets vstack in modify (set_vstack (l ++ [v])).

Definition varmap_at (i : Z) : M Z := let! m := my FuncState.varmap in lift (znth m i).

Definition var_new (n : Z) (name : VName.t) : M Z :=
  let! vt := vtop in
  do! match name with
      | VName.Str sid =>
          let! vidx := vhash_at (Z.land sid VINDEX_MASK) in
          let! f := gets chain_fuel in redeclare_loop f sid vidx
      | _ => ret tt
      end in
  let! nactvar := my FuncState.nactvar in
  do! checklimit (nactvar + n) LJ_MAX_LOCVAR (lit "local variables") in
  do! when LJ_MAX_VSTACK <=? vt do ls_error (lit "too many syntax levels") in
  do! vstack_push (VarInfo.mk name 0 0 0 0 VINDEX_NONE) in
  let! m := my FuncState.varmap in
  let! m := lift (zset m (nactvar + n) (uwrap 16 vt)) in
  do! cur_mut (FuncState.set_varmap m) in
  ret vt.

Definition var_new_lit (n : Z) (name : list Z) : M Z :=
  let! sid := strs_intern name in var_new n (VName.Str sid).

(** Prepend a variable to its chain. *)
Definition link_var (vidx : Z) : M unit :=
  let! v := var_at vidx in
  match var_hash (VarInfo.name v) with
  | Some h => let! top := vhash_at h in do! vstack_upd vidx (VarInfo.set_prev top) in set_vhash_at h vidx
  | None => ret tt
  end.

Fixpoint var_add_loop (n : nat) (nactvar : Z) : M Z :=
  match n with
  | O => ret nactvar
  | S n =>
      let! vidx := varmap_at nactvar in
      let! pc := my FuncState.pc in
      do! vstack_upd vidx (fun v => VarInfo.set_slot (uwrap 8 nactvar) (VarInfo.set_startpc pc v)) in
      do! link_var vidx in
      var_add_loop n (nactvar + 1)
  end.

Definition var_add (nvars : Z) : M unit :=
  let! nactvar := my FuncState.nactvar in
  let! nactvar := var_add_loop (Z.to_nat nvars) nactvar in
  cur_mut (FuncState.set_nactvar nactvar).

(** [n] is the number of variables above [tolevel]. *)
Fixpoint var_remove_loop (n : nat) : M unit :=
  match n with
  | O => ret tt
  | S n =>
      do! cur_mut (fun f => FuncState.set_nactvar (FuncState.nactvar f - 1) f) in
      let! nactvar := my FuncState.nactvar in
      let! vidx := varmap_at nactvar in
      let! pc := my FuncState.pc in
      do! vstack_upd vidx (VarInfo.set_endpc pc) in
      let! v := var_at vidx in
      do! match var_hash (VarInfo.name v) with
          | Some h => set_vhash_at h (VarInfo.prev v)
          | None => ret tt
          end in
      var_remove_loop n
  end.

Definition var_remove (tolevel : Z) : M unit :=
  let! nactvar := my FuncState.nactvar in var_remove_loop (Z.to_nat (nactvar - tolevel)).

(** ** Upvalues *)

(** The function [d] levels out from the current one; [fs[top - d]]. *)
Definition fs_at (d : nat) : M FuncState.t := let! l := gets fs in lift (l !! d).
Definition fs_upd (d : nat) (f : FuncState.t -> FuncState.t) : M unit :=
  let! l := gets fs in
  let! x := lift (l !! d) in
  modify (set_fs (<[d := f x]> l)).

Fixpoint mark_scope (level : Z) (l : list FuncScope.t) : list FuncScope.t :=
  match l with
  | bl :: l =>
      if FuncScope.nactvar bl <=? level then FuncScope.set_flags (Z.lor (FuncScope.flags bl) FSCOPE_UPVAL) bl :: l
      else bl :: mark_scope level l
  | [] => []
  end.
Definition fscope_uvmark (d : nat) (level : Z) : M unit :=
  fs_upd d (fun f => FuncState.set_scopes (mark_scope level (FuncState.scopes f)) f).

(** The upvalue of a function that refers to [vidx]. *)
Fixpoint find_uv (vidx : Z) (uvmap : list Z) : option Z :=
  match uvmap with
  | x :: l => if x =? vidx then Some 0 else let? i := find_uv vidx l in Some (i + 1)
  | [] => None
  end.
Definition uv_index (f : FuncState.t) (vidx : Z) : option Z := find_uv vidx (take (Z.to_nat (FuncState.nuv f)) (FuncState.uvmap f)).

Definition upvalue_limit (d : nat) : M unit :=
  let! f := fs_at d in
  when LJ_MAX_UPVAL <=? FuncState.nuv f do limit_error (FuncState.linedefined f) LJ_MAX_UPVAL (lit "upvalues").

(** An upvalue in each function from [d] outwards, up to the one that has
    it or owns the variable; [n] is the number of functions left. *)
Fixpoint capture (n : nat) (d : nat) (vidx slot : Z) : M unit :=
  match n with
  | O => panic
  | S n =>
      do! upvalue_limit d in
      let! f := fs_at d in
      let nuv := FuncState.nuv f in
      let! m := lift (zset (FuncState.uvmap f) nuv vidx) in
      do! fs_upd d (fun f => FuncState.set_nuv (uwrap 8 (nuv + 1)) (FuncState.set_uvmap m f)) in
      let tmp x :=
        let! f := fs_at d in
        let! t := lift (zset (FuncState.uvtmp f) nuv x) in
        fs_upd d (FuncState.set_uvtmp t) in
      let! g := fs_at (S d) in
      if FuncState.vbase g <=? vidx then
        do! tmp vidx in fscope_uvmark (S d) slot
      else
        match uv_index g vidx with
        | Some uvidx => tmp (uwrap 16 (LJ_MAX_VSTACK + uvidx))
        | None => do! tmp (uwrap 16 (LJ_MAX_VSTACK + FuncState.nuv g)) in capture n (S d) vidx slot
        end
  end.

Definition var_resolve (vidx slot : Z) : M ExpDesc :=
  let! f := cur in
  if FuncState.vbase f <=? vidx then ret (set_aux vidx (init VLocal slot))
  else
    match uv_index f vidx with
    | Some uvidx => ret (set_aux vidx (init VUpval uvidx))
    | None =>
        let! n := gets (fun p => length (fs p)) in
        do! capture n 0 vidx slot in
        ret (set_aux vidx (init VUpval (FuncState.nuv f)))
    end.

Fixpoint lookup_loop (n : nat) (name vidx : Z) : M (option (Z * Z)) :=
  match n with
  | O => diverge
  | S n =>
      if vidx =? VINDEX_NONE then ret None else
      let! v := var_at vidx in
      if is_name (VarInfo.name v) (VName.Str name) then ret (Some (vidx, VarInfo.slot v))
      else lookup_loop n name (VarInfo.prev v)
  end.

(** Declarations of the enclosing functions whose statement is not over, from
    the top of the variable stack down. *)
Fixpoint pending (l : list VarInfo.t) (i from below name : Z) : option (Z * Z) :=
  match l with
  | v :: l =>
      if i <? from then None
      else if (VarInfo.startpc v =? 0) && is_name (VarInfo.name v) (VName.Str name) && (i <? below)
      then Some (i, VarInfo.slot v)
      else pending l (i - 1) from below name
  | [] => None
  end.

Definition var_lookup (name : Z) : M (ExpDesc * Z) :=
  let! vidx := vhash_at (Z.land name VINDEX_MASK) in
  let! n := gets chain_fuel in
  let! r := lookup_loop n name vidx in
  match r with
  | Some (vidx, slot) => let! e := var_resolve vidx slot in ret (e, vidx)
  | None =>
      let! l := gets fs in
      let! f := cur in
      let! vs := gets vstack in
      match (match l with
             | _ :: _ :: _ =>
                 pending (rev vs) (zlen vs - 1) (default 0 (FuncState.pend_start <$> last l)) (FuncState.vbase f) name
             | _ => None
             end) with
      | Some (vidx, slot) => let! e := var_resolve (uwrap 16 vidx) slot in ret (e, uwrap 16 vidx)
      | None => ret (set_sval name (init VGlobal 0), VINDEX_NONE)
      end
  end.

Definition var_assign_check (e : ExpDesc) : M unit :=
  when is_kind (k e) VLocal || is_kind (k e) VUpval do
    (let! v := var_at (aux e) in
     when has (VarInfo.info v) VSTACK_CONST do
       match VarInfo.name v with
       | VName.Str sid => let! s := lossy_name sid in ls_error (lit "attempt to assign to constant '" ++ s ++ [39])
       | _ => ls_error (lit "attempt to assign to constant")
       end).

(** ** Gotos and labels *)

Definition gola_new (name : VName.t) (info pc : Z) : M Z :=
  let! vt := vtop in
  do! when LJ_MAX_VSTACK <=? vt do ls_error (lit "too many syntax levels") in
  let! nactvar := my FuncState.nactvar in
  do! vstack_push (VarInfo.mk name pc 0 (uwrap 8 nactvar) info VINDEX_NONE) in
  ret vt.

Definition is_goto (v : VarInfo.t) : bool := has (VarInfo.info v) VSTACK_GOTO.
Definition is_label (v : VarInfo.t) : bool := has (VarInfo.info v) VSTACK_LABEL.
Definition gola_isgoto (v : Z) : M bool := let! x := var_at v in ret (is_goto x).
Definition gola_islabel (v : Z) : M bool := let! x := var_at v in ret (is_label x).

Definition gola_patch (vg vl : Z) : M unit :=
  let! g := var_at vg in
  let pc := VarInfo.startpc g in
  do! vstack_upd vg (VarInfo.set_name VName.None) in
  let! l := var_at vl in
  do! ins_mut pc (fun i => setbc_a i (VarInfo.slot l)) in
  jmp_patch pc (VarInfo.startpc l).

Definition gola_close (vg : Z) : M unit :=
  let! g := var_at vg in
  let pc := VarInfo.startpc g in
  let! i := ins pc in
  let! op := op_of i in
  do! debug_assert (is_op op BCOp.JMP || is_op op BCOp.UCLO) in
  do! ins_mut pc (fun i => setbc_a i (VarInfo.slot g)) in
  when is_op op BCOp.JMP do
    (let! nx := jmp_next pc in
     do! when negb (nx =? NO_JMP) do jmp_patch nx pc in
     do! ins_mut pc (fun i => setbc_op i (BCOp.code BCOp.UCLO)) in
     ins_mut pc (fun i => setbc_j i (-1))).

(** The text of a goto's or label's name. *)
Definition gola_text (name : VName.t) : M (list Z) :=
  match name with VName.Str sid => lossy_name sid | _ => ret (lit "?") end.

Definition jumps_into (g : VarInfo.t) : M unit :=
  let! vidx := varmap_at (VarInfo.slot g) in
  let! v := var_at vidx in
  let! namestr := gola_text (VarInfo.name v) in
  if is_name (VarInfo.name g) VName.Cont then ls_error (lit "'continue' jumps into the scope of local '" ++ namestr ++ [39])
  else
    let! gname := gola_text (VarInfo.name g) in
    ls_error (lit "<goto " ++ gname ++ lit "> jumps into the scope of local '" ++ namestr ++ [39]).

(** [n] entries are left below [idx]. *)
Fixpoint gola_resolve_loop (n : nat) (vg idx : Z) : M unit :=
  match n with
  | O => ret tt
  | S n =>
      let! g := var_at vg in
      let! l := var_at idx in
      do! when is_name (VarInfo.name g) (VarInfo.name l) && is_goto g do
        (do! when VarInfo.slot g <? VarInfo.slot l do jumps_into g in
         gola_patch vg idx) in
      gola_resolve_loop n (vg + 1) idx
  end.
Definition gola_resolve (vstart idx : Z) : M unit := gola_resolve_loop (Z.to_nat (idx - vstart)) vstart idx.

(** The gotos after a label that goes out of scope: backward gotos. *)
Fixpoint fixup_label (n : nat) (name : VName.t) (flags v vg : Z) : M unit :=
  match n with
  | O => ret tt
  | S n =>
      let! g := var_at vg in
      do! when is_name (VarInfo.name g) name && is_goto g do
        (let! l := var_at v in
         do! when has flags FSCOPE_UPVAL && (VarInfo.slot l <? VarInfo.slot g) do gola_close vg in
         gola_patch vg v) in
      fixup_label n name flags v (vg + 1)
  end.

Definition goto_flag (name : VName.t) : Z :=
  match name with VName.Break => FSCOPE_BREAK | VName.Cont => FSCOPE_CONT | _ => FSCOPE_GOLA end.

(** [scopes.last_mut().unwrap()]. *)
Definition scope_upd (f : FuncScope.t -> FuncScope.t) : M unit :=
  let! l := my FuncState.scopes in
  match l with
  | s :: l => cur_mut (FuncState.set_scopes (f s :: l))
  | [] => panic
  end.
Definition scope : M FuncScope.t := let! l := my FuncState.scopes in lift (head l).
Definition scope_flag (x : Z) : M unit := scope_upd (fun s => FuncScope.set_flags (Z.lor (FuncScope.flags s) x) s).

(** A goto that leaves its scope: pass it to the enclosing one. *)
Definition fixup_goto (v flags nactvar : Z) (has_prev : bool) (name : VName.t) : M unit :=
  if has_prev then
    do! scope_flag (goto_flag name) in
    do! vstack_upd v (VarInfo.set_slot nactvar) in
    when has flags FSCOPE_UPVAL do gola_close v
  else
    let! g := var_at v in
    let! l := line_of (VarInfo.startpc g) in
    do! modify (fun p => set_ls (set_linenumber (ls p) l) p) in
    match name with
    | VName.Break => ls_error (lit "break outside loop")
    | VName.Cont => ls_error (lit "continue outside loop")
    | _ => let! s := gola_text name in ls_error (lit "undefined label '" ++ s ++ [39])
    end.

Fixpoint gola_fixup_loop (n : nat) (v flags nactvar : Z) (has_prev : bool) : M unit :=
  match n with
  | O => ret tt
  | S n' =>
      let! x := var_at v in
      let name := VarInfo.name x in
      do! when negb (is_name name VName.None) do
        (if is_label x then
           do! vstack_upd v (VarInfo.set_name VName.None) in
           fixup_label n' name flags v (v + 1)
         else when is_goto x do fixup_goto v flags nactvar has_prev name) in
      gola_fixup_loop n' (v + 1) flags nactvar has_prev
  end.
Definition gola_fixup (vstart flags nactvar : Z) (has_prev : bool) : M unit :=
  let! n := vtop in gola_fixup_loop (Z.to_nat (n - vstart)) vstart flags nactvar has_prev.

Fixpoint find_label (l : list VarInfo.t) (i : Z) (name : VName.t) : option Z :=
  match l with
  | v :: l => if is_name (VarInfo.name v) name && is_label v then Some i else find_label l (i + 1) name
  | [] => None
  end.
Definition gola_findlabel (name : VName.t) : M (option Z) :=
  let! s := scope in
  let! l := gets vstack in
  ret (find_label (drop (Z.to_nat (FuncScope.vstart s)) l) (FuncScope.vstart s) name).

(** ** Scopes *)

Definition fscope_begin (flags : Z) : M unit :=
  let! f := cur in
  let! vt := vtop in
  do! cur_mut (fun f => FuncState.set_scopes
        (FuncScope.mk vt (uwrap 8 (FuncState.nactvar f)) flags (FuncState.freereg f) :: FuncState.scopes f) f) in
  debug_assert (FuncState.freereg f =? FuncState.nactvar f).

Definition truncate (n : Z) : M unit := modify (fun p => set_vstack (take (Z.to_nat n) (vstack p)) p).

(** A label for the breaks or continues of a scope, which is gone again. *)
Definition resolve_label (name : VName.t) (pc vstart : Z) : M unit :=
  let! idx := gola_new name VSTACK_LABEL pc in
  do! truncate (idx + 1) in
  do! gola_resolve vstart idx in
  truncate idx.

Definition fscope_end : M unit :=
  let! l := my FuncState.scopes in
  match l with
  | [] => panic
  | bl :: l =>
      do! cur_mut (FuncState.set_scopes l) in
      let flags := FuncScope.flags bl in
      do! var_remove (FuncScope.nactvar bl) in
      let! nactvar := my FuncState.nactvar in
      do! when Z.land flags (Z.lor FSCOPE_UPVAL FSCOPE_NOCLOSE) =? FSCOPE_UPVAL do
        (do! bcemit_aj BCOp.UCLO (FuncScope.nactvar bl) 0 in ret tt) in
      let max_fr := FuncScope.max_freereg bl in
      do! when nactvar <? max_fr do
        (do! set_freereg nactvar in
         do! bcemit_ad BCOp.KNIL nactvar (max_fr - 1) in ret tt) in
      do! set_freereg nactvar in
      do! debug_assert (FuncScope.nactvar bl =? nactvar) in
      do! debug_assert (negb (Z.land flags (Z.lor FSCOPE_LOOP FSCOPE_CONT) =? Z.lor FSCOPE_LOOP FSCOPE_CONT)) in
      let brk := Z.land flags (Z.lor FSCOPE_LOOP FSCOPE_BREAK) =? Z.lor FSCOPE_LOOP FSCOPE_BREAK in
      let flags := if brk then Z.land flags (unot 8 FSCOPE_BREAK) else flags in
      do! when brk do
        (let! pc := my FuncState.pc in resolve_label VName.Break pc (FuncScope.vstart bl)) in
      when has flags (Z.lor (Z.lor FSCOPE_GOLA FSCOPE_BREAK) FSCOPE_CONT) do
        (let! l := my FuncState.scopes in
         gola_fixup (FuncScope.vstart bl) flags (FuncScope.nactvar bl) (negb (bool_decide (l = [])))) 
  end.

Definition fscope_continue (cont : Z) : M unit :=
  let! s := scope in
  when has (FuncScope.flags s) FSCOPE_CONT do
    (do! scope_upd (fun s => FuncScope.set_flags (Z.land (FuncScope.flags s) (unot 8 FSCOPE_CONT)) s) in
     let! s := scope in
     resolve_label VName.Cont cont (FuncScope.vstart s)).

(** ** Functions *)

Definition is_none {A} (o : option A) : bool := match o with None => true | Some _ => false end.

(** [scopes.first()]: the outermost scope. *)
Definition first_scope_upd (f : FuncScope.t -> FuncScope.t) : M unit :=
  let! l := my FuncState.scopes in
  match rev l with
  | s :: r => cur_mut (FuncState.set_scopes (rev (f s :: r)))
  | [] => panic
  end.

(** Returns that precede the first closure in the code jump to a copy behind
    a [UCLO]; [n] instructions are left. *)
Fixpoint fixup_returns (n : nat) (pc : Z) : M unit :=
  match n with
  | O => ret tt
  | S n =>
      let! i := ins pc in
      let! op := op_of i in
      if is_op op BCOp.FNEW then ret tt else
      do! when bc_isret_or_tail op do
        (let! offset := bcemit i in
         let! line := line_of pc in
         let! b := my FuncState.bcbase in
         do! set_line_at (b + offset) line in
         let offset := offset - (pc + 1) + BCBIAS_J in
         do! when BCMAX_D <? offset do err_syntax (lit "function too long for return fixup") in
         ins_mut pc (fun _ => bcins_ad BCOp.UCLO 0 (uwrap 32 offset))) in
      fixup_returns n (pc + 1)
  end.

Definition fs_fixup_ret : M unit :=
  let! lastpc := my FuncState.pc in
  let! pc := sub32 lastpc 1 in
  let! lastins := ins pc in
  let! lt := my FuncState.lasttarget in
  let! noret := (if lastpc <=? lt then ret true else let! op := op_of lastins in ret (negb (bc_isret_or_tail op))) in
  do! when noret do
    (let! l := my FuncState.scopes in
     let! s := lift (last l) in
     do! when has (FuncScope.flags s) FSCOPE_UPVAL do (do! bcemit_aj BCOp.UCLO 0 0 in ret tt) in
     do! bcemit_ad BCOp.RET0 0 1 in ret tt) in
  do! first_scope_upd (fun s => FuncScope.set_flags (Z.lor (FuncScope.flags s) FSCOPE_NOCLOSE) s) in
  let! l := my FuncState.scopes in
  do! debug_assert (zlen l =? 1) in
  do! fscope_end in
  let! l := my FuncState.scopes in
  do! debug_assert (bool_decide (l = [])) in
  let! flags := my FuncState.flags in
  when has flags PROTO_FIXUP_RETURN do fixup_returns (Z.to_nat (lastpc - 1)) 1.

Definition fixed_varname (n : Z) : list Z :=
  match n with
  | 1 => lit "(for index)" | 2 => lit "(for limit)" | 3 => lit "(for step)" | 4 => lit "(for generator)"
  | 5 => lit "(for state)" | 6 => lit "(for control)" | _ => lit "?"
  end.

Fixpoint map_m {A B} (f : A -> M B) (l : list A) : M (list B) :=
  match l with
  | [] => ret []
  | x :: l => let! y := f x in let! l := map_m f l in ret (y :: l)
  end.

(** A child's upvalue: an upvalue of this function, or a slot. *)
Definition resolve_uv (vidx : Z) : M Z :=
  if LJ_MAX_VSTACK <=? vidx then ret (vidx - LJ_MAX_VSTACK)
  else
    let! v := var_at vidx in
    let uv := Z.lor (VarInfo.slot v) PROTO_UV_LOCAL in
    ret (if has (VarInfo.info v) VSTACK_VAR_RW then uv else Z.lor uv PROTO_UV_IMMUTABLE).

Definition resolve_child (k : KGc) : M KGc :=
  match k with
  | KProto (mkProto bc lines kgc kn kstrv uv flags np fsz fl nl un vn src) =>
      let! uv := map_m resolve_uv uv in
      ret (KProto (mkProto bc lines kgc kn kstrv uv flags np fsz fl nl un vn src))
  | k => ret k
  end.

Definition uv_name (vidx : Z) : M (list Z) :=
  let! v := var_at vidx in
  match VarInfo.name v with
  | VName.Str sid => lossy_name sid
  | VName.Fixed n => ret (fixed_varname n)
  | _ => ret []
  end.

(** The debug records of the variables of a function of [n] instructions. *)
Fixpoint var_names (n : Z) (l : list VarInfo.t) : M (list (Z * Z * Z * list Z)) :=
  match l with
  | [] => ret []
  | v :: l =>
      match VarInfo.name v with
      | VName.Str sid =>
          let! s := lossy_name sid in
          let! r := var_names n l in
          ret ((VarInfo.slot v, VarInfo.startpc v, if VarInfo.endpc v =? 0 then uwrap 32 n else VarInfo.endpc v, s) :: r)
      | _ => var_names n l
      end
  end.

Definition fs_framesize (f : FuncState.t) : Z :=
  if has (FuncState.flags f) PROTO_VARARG_NEEDSARG
  then Z.min (Z.max (FuncState.numparams f + 1) (FuncState.framesize f)) 255
  else FuncState.framesize f.

Definition checklimitgt_static (v l : Z) (m : list Z) (linedefined : Z) : M unit :=
  when l <? v do limit_error linedefined l m.

(** [v[1..n]] from [bcbase] on. *)
Definition code_of (f : FuncState.t) : M (list BCInsLine.t) :=
  let! l := gets bcstack in
  map_m (fun i => lift (znth l (FuncState.bcbase f + i))) (Z.of_nat <$> seq 1 (Z.to_nat (FuncState.pc f) - 1)).

Definition fs_finish (line : Z) : M Proto :=
  do! fs_fixup_ret in
  let! l := gets fs in
  match l with
  | [] => panic
  | f :: l =>
      do! modify (set_fs l) in
      let framesize := fs_framesize f in
      let! numline := sub32 line (FuncState.linedefined f) in
      do! checklimitgt_static (zlen (FuncState.kn f)) (BCMAX_D + 1) (lit "constants") (FuncState.linedefined f) in
      do! checklimitgt_static (zlen (FuncState.kgc f)) (BCMAX_D + 1) (lit "constants") (FuncState.linedefined f) in
      let op := if has (FuncState.flags f) PROTO_VARARG then BCOp.FUNCV else BCOp.FUNCF in
      let! code := code_of f in
      let! kgc := map_m resolve_child (FuncState.kgc f) in
      let nuv := Z.to_nat (FuncState.nuv f) in
      let! uvnames := map_m uv_name (take nuv (FuncState.uvmap f)) in
      let! vs := gets vstack in
      let! varnames := var_names (FuncState.pc f) (drop (Z.to_nat (FuncState.vbase f)) vs) in
      do! truncate (FuncState.vbase f) in
      ret (mkProto (bcins_ad op framesize 0 :: (BCInsLine.ins <$> code))
             (FuncState.linedefined f :: (BCInsLine.line <$> code)) kgc (FuncState.kn f) []
             (take nuv (FuncState.uvtmp f))
             (Z.land (FuncState.flags f) (unot 16 (Z.lor PROTO_HAS_RETURN PROTO_FIXUP_RETURN)))
             (FuncState.numparams f) framesize (FuncState.linedefined f) numline uvnames varnames (FuncState.source f))
  end.

Definition fs_init : M unit :=
  let! vbase := vtop in
  let! l := gets fs in
  let! sid := gets chunk_sid in
  modify (set_fs (FuncState.new vbase (match l with [] => sid | f :: _ => FuncState.source f end) :: l)).
End Scope.
