(* ===== verification/Parse.v ===== *)
(** * compiler/parse.rs: the grammar

    One definition per production, as in the source.  A production that calls
    itself through other productions calls the record [Rec], and [rec_at]
    ties the knot: every such call is made after a token was consumed, so the
    fuel of [parse] is three units per character and a few more.  Loops consume
    a token in each round and have the same fuel. *)

From Stdlib Require Import ZArith Lia Bool Ascii String.
From stdpp Require Import base decidable numbers option gmap list.
From S2P Require Import Prelude Float64 Value Strings FloatText PatClass Fold Exec Bytecode Table Dump Lex ParseState ParseExpr ParseScope.
Import ExpDesc.

Section Grammar.
Context {St : Type} `{Strings St} `{StrPtrs St} `{Libm}.

#[local] Abbreviation M := (M St).
#[local] Notation "'let!' x := a 'in' b" := (bind a (fun x => b)) (at level 10, x name, a at level 100, b at level 200).
#[local] Notation "'let!' ' p := a 'in' b" := (bind a (fun p => b)) (at level 10, p strict pattern, a at level 100, b at level 200).
#[local] Notation "'do!' a 'in' b" := (bind a (fun _ => b)) (at level 10, a at level 100, b at level 200).
#[local] Notation "'when' b 'do' a" := (if b then a else ret tt) (at level 10, b at level 100, a at level 100).

(** The productions that are called recursively. *)
Record Rec := {
  r_expr : Z -> M ExpDesc;
  r_binop : Z -> Z -> M (ExpDesc * BinOp.t);
  r_chunk : M unit;
  r_label : M unit;
  r_assign : list ExpDesc -> Z -> M (list ExpDesc)
}.

Definition loop_fuel (p : Parser St) : nat := S (3 * fuel (ls p)).
Definition while {A} (body : nat -> M A) : M A := let! n := gets loop_fuel in body n.

Definition void : ExpDesc := init VVoid 0.
Definition num_const (n : f64) : ExpDesc := set_nval n (init VKNum 0).
Definition str_const (sid : Z) : ExpDesc := set_sval sid (init VKStr 0).
Definition set_flag (x : Z) : M unit := cur_mut (fun f => FuncState.set_flags (Z.lor (FuncState.flags f) x) f).

Definition synlevel_begin : M unit :=
  do! modify (fun p => set_level (level p + 1) p) in
  let! l := gets level in
  when LJ_MAX_XLEVEL <=? l do ls_error (lit "chunk has too many syntax levels").
Definition synlevel_end : M unit :=
  let! l := gets level in let! l := sub32 l 1 in modify (set_level l).

Section Productions.
Context (rec : Rec).

(** ** Lists of expressions, indices *)

Definition expr_str_tok : M ExpDesc := let! s := lex_str in ret (str_const s).

Definition expr_index (t e : ExpDesc) : M ExpDesc :=
  let t := set_k VIndexed t in
  let reg := let! e := expr_toanyreg e in ret (set_aux (info e) t) in
  if isnumk e then
    match kidx_u8 (nval e) with Some x => ret (set_aux (BCMAX_C + 1 + x) t) | None => reg end
  else if isstrk e then
    let! idx := const_str e in
    if idx <=? BCMAX_C then ret (set_aux (unot 32 idx) t) else reg
  else reg.

Definition expr_field (v : ExpDesc) : M ExpDesc :=
  let! v := expr_toanyreg v in
  let! key := expr_str_tok in
  expr_index v key.

Definition expr_bracket : M ExpDesc :=
  do! ls_next in
  let! v := r_expr rec 0 in
  let! v := expr_toval v in
  do! lex_check (chr "]") in ret v.

Fixpoint expr_list_loop (n : nat) (v : ExpDesc) (count : Z) : M (ExpDesc * Z) :=
  match n with
  | O => out_of_fuel
  | S n =>
      let! comma := lex_opt (chr ",") in
      if comma then
        do! expr_tonextreg v in
        let! v := r_expr rec 0 in
        expr_list_loop n v (count + 1)
      else ret (v, count)
  end.
Definition expr_list : M (ExpDesc * Z) :=
  let! v := r_expr rec 0 in while (fun n => expr_list_loop n v 1).

(** ** Table constructors *)

Definition expr_kvalue (e : ExpDesc) : M LuaValue :=
  match k e with
  | VKNil => ret NIL
  | VKFalse => ret FALSE
  | VKTrue => ret TRUE
  | VKStr => let! s := gets (fun p => strs (ls p)) in let! a := lift (lookup_ptr s (sval e)) in ret (Value.string a)
  | VKCData => ret (number (nval e))
  | x => do! debug_assert (is_kind x VKNum) in ret (number (nval e))
  end.

(** The descriptor of the table, its template, and the counters. *)
Record Items := mkItems { tab : ExpDesc; template : option (Z * LuaTable); vcall : bool; needarr : bool; narr : Z; nhash : Z }.

Definition tab_set (t : LuaTable) (kv v : LuaValue) : M LuaTable :=
  let! s := gets (fun p => strs (ls p)) in lift (@set (str_heap s) t kv v).

(** The key of one item, and whether it is positional. *)
Definition item_key (c : Items) : M (ExpDesc * Items * bool) :=
  let '(mkItems e t _ na n nh) := c in
  let! tok := ls_tok in
  let! named := (if lex_isname tok then let! p := ls_peek in ret (bool_decide (p = chr "=")) else ret false) in
  if bool_decide (tok = chr "[") then
    let! key := expr_bracket in
    let! e := (if isk key then ret e else expr_index e key) in
    let zero := isnumk key && numiszero key in
    do! lex_check (chr "=") in
    ret (key, mkItems e t false (na || zero) n (if zero then nh else nh + 1), isk key)
  else if named then
    let! key := expr_str_tok in
    do! lex_check (chr "=") in
    ret (key, mkItems e t false na n (nh + 1), true)
  else ret (num_const (f64_of_int n), mkItems e t true true (n + 1) nh, true).

(** An item that belongs into the template; [pc] is the table's creation. *)
Definition item_const (pc freg : Z) (key val : ExpDesc) (c : Items) : M (Items * bool) :=
  let '(mkItems e t _ na n nh) := c in
  let! ' (kidx, kt) :=
    match t with
    | Some x => ret x
    | None =>
        let! kt := lift (Table.new (if na then n else 0) (ParseState.hsize2hbits nh)) in
        let! d := lift (Table.new 0 0) in
        let! kidx := kgc_push (KTable d) in
        let! r := sub32 freg 1 in
        do! ins_mut pc (fun _ => bcins_ad BCOp.TDUP r kidx) in
        ret (kidx, kt)
    end in
  let! kv := expr_kvalue key in
  if isk_nojump val then
    let! vv := expr_kvalue val in
    let! kt := tab_set kt kv (if isstrk key && is_nil vv then table_marker else vv) in
    ret (mkItems e (Some (kidx, kt)) false na n nh, false)
  else
    let! kt := tab_set kt kv table_marker in
    ret (mkItems e (Some (kidx, kt)) false na n nh, true).

Definition set_tab (e : ExpDesc) (c : Items) : Items := let '(mkItems _ t v na n nh) := c in mkItems e t v na n nh.
Definition set_vcall (v : bool) (c : Items) : Items := let '(mkItems e t _ na n nh) := c in mkItems e t v na n nh.

Definition table_item (pc freg : Z) (c : Items) : M Items :=
  let! ' (key, c, constkey) := item_key c in
  let! val := r_expr rec 0 in
  let! ' (c, nonconst) :=
    (if constkey && negb (is_kind (k key) VKNil) && (isstrk key || isk_nojump val)
     then item_const pc freg key val c else ret (c, true)) in
  let! c :=
    (if nonconst then
       let! ' (val, c) := (if is_kind (k val) VCall then ret (val, c)
                           else let! val := expr_toanyreg val in ret (val, set_vcall false c)) in
       let! e := (if constkey then expr_index (tab c) key else ret (tab c)) in
       do! bcemit_store e val in
       ret (set_tab e c)
     else ret c) in
  do! set_freereg freg in ret c.

Fixpoint table_loop (n : nat) (pc freg : Z) (c : Items) : M Items :=
  match n with
  | O => out_of_fuel
  | S n =>
      let! close := is_tok (chr "}") in
      if close then ret c else
      let! c := table_item pc freg c in
      let! sep := (let! b := lex_opt (chr ",") in if b then ret true else lex_opt (chr ";")) in
      if sep then table_loop n pc freg c else ret c
  end.

(** A last item with several values: the store becomes [TSETM]. *)
Definition table_multi (freg narr : Z) : M unit :=
  let! pc := my FuncState.pc in
  let! fpc := sub32 pc 1 in
  let! i := ins fpc in
  let! op := op_of i in
  do! debug_assert ((bc_a i =? freg) && is_op op (if 256 <? narr then BCOp.TSETV else BCOp.TSETB)) in
  let! n := sub32 narr 1 in
  let en := num_const (Z.lor (Z.shiftl 0x43300000 32) n) in
  let! fpc := (if 256 <? narr then
                 do! cur_mut (fun f => FuncState.set_pc (FuncState.pc f - 1) f) in sub32 fpc 1
               else ret fpc) in
  let! knum := const_num en in
  do! ins_mut fpc (fun _ => bcins_ad BCOp.TSETM freg knum) in
  let! f1 := sub32 fpc 1 in
  ins_mut f1 (fun i => setbc_b i 0).

Definition table_finish (pc : Z) (c : Items) : M unit :=
  match template c with
  | Some (kidx, kt) =>
      let! kt := (if needarr c && (asize kt <? narr c) then
                    let! s := gets (fun p => strs (ls p)) in
                    let! n := sub32 (narr c) 1 in
                    lift (@reasize (str_heap s) kt n)
                  else ret kt) in
      let! l := my FuncState.kgc in
      let! l := lift (zset l kidx (KTable kt)) in
      cur_mut (FuncState.set_kgc l)
  | None =>
      let n := if needarr c then Z.max 3 (Z.min (narr c) 0x7ff) else 0 in
      ins_mut pc (fun i => setbc_d i (Z.lor n (uwrap 32 (Z.shiftl (ParseState.hsize2hbits (nhash c)) 11))))
  end.

Definition expr_table : M ExpDesc :=
  let! line := ls_linenumber in
  let! freg := my FuncState.freereg in
  let! pc := bcemit_ad BCOp.TNEW freg 0 in
  let e := init VNonReloc freg in
  do! bcreg_reserve 1 in
  let freg := freg + 1 in
  do! lex_check (chr "{") in
  let! c := while (fun n => table_loop n pc freg (mkItems e None false false 1 0)) in
  do! lex_match (chr "}") (chr "{") line in
  do! when vcall c do table_multi freg (narr c) in
  let! end_ := my FuncState.pc in
  let! last := sub32 end_ 1 in
  let! e := (if pc =? last then
               do! drop_regs 1 in ret (become VRelocable pc (tab c))
             else ret (set_k VNonReloc (tab c))) in
  do! table_finish pc c in
  ret e.

(** ** Functions *)

Fixpoint params_loop (n : nat) (nparams : Z) : M Z :=
  match n with
  | O => out_of_fuel
  | S n =>
      let! t := ls_tok in
      if lex_isname t then
        let! name := lex_str in
        do! var_new nparams (VName.Str name) in
        let! comma := lex_opt (chr ",") in
        if comma then params_loop n (nparams + 1) else ret (nparams + 1)
      else if bool_decide (t = Tok.Dots) then
        do! ls_next in
        do! set_flag (Z.lor PROTO_VARARG PROTO_VARARG_NEEDSARG) in
        do! var_new_lit nparams (lit "arg") in
        ret (nparams + 1)
      else err_syntax (lit "<name> or '...' expected")
  end.

Definition parse_params (needself : bool) (before after : Tok.t) : M Z :=
  do! lex_check before in
  let! n := (if needself then do! var_new_lit 0 (lit "self") in ret 1 else ret 0) in
  let! empty := is_tok after in
  let! n := (if empty then ret n else while (fun f => params_loop f n)) in
  do! var_add n in
  let! nactvar := my FuncState.nactvar in
  do! debug_assert (nactvar =? n) in
  do! bcreg_reserve n in
  do! lex_check after in
  ret n.

Definition proto_begin (line nparams : Z) : M unit :=
  let! pfs := fs_at 1 in
  do! cur_mut (fun f =>
    let va := if has (FuncState.flags f) PROTO_VARARG then 1 else 0 in
    FuncState.set_bcbase (FuncState.bcbase pfs + FuncState.pc pfs)
      (FuncState.set_numparams (uwrap 8 (Z.max 0 (nparams - va))) (FuncState.set_linedefined line f))) in
  do! bcemit_ad BCOp.FUNCF 0 0 in ret tt.

Definition proto_finish : M ExpDesc :=
  let! flags := my FuncState.flags in
  let flags := Z.land flags PROTO_BITOP in
  let! line := ls_linenumber in
  do! modify (fun p => set_ls (set_lastline (ls p) line) p) in
  let! pt := fs_finish line in
  let! kidx := const_proto pt in
  let! pc := bcemit_ad BCOp.FNEW 0 kidx in
  do! set_flag flags in
  let! pflags := my FuncState.flags in
  do! when negb (has pflags PROTO_CHILD) do
    (do! when has pflags PROTO_HAS_RETURN do set_flag PROTO_FIXUP_RETURN in set_flag PROTO_CHILD) in
  ret (init VRelocable pc).

Definition parse_body (needself : bool) (line : Z) : M ExpDesc :=
  do! fs_init in
  do! fscope_begin 0 in
  let! nparams := parse_params needself (chr "(") (chr ")") in
  do! proto_begin line nparams in
  do! r_chunk rec in
  let! e := is_tok Tok.End in
  do! when negb e do lex_match Tok.End Tok.Function line in
  let! e := proto_finish in
  do! ls_next in
  ret e.

(** ** Return *)

Definition parse_return (eflags : Z) : M unit :=
  do! set_flag PROTO_HAS_RETURN in
  let! t := ls_tok in
  let ret1 := has eflags EXPR_F_RET1 in
  let retm e :=
    do! ins_mut (info e) (fun i => setbc_b i 0) in
    let! nactvar := my FuncState.nactvar in
    let! d := sub32 (aux e) nactvar in
    ret (bcins_ad BCOp.RETM nactvar d) in
  let! i :=
    (if negb ret1 && (parse_isend t || bool_decide (t = chr ";")) then ret (bcins_ad BCOp.RET0 0 1)
     else
       let! ' (e, nret) := (if ret1 then let! e := r_expr rec eflags in ret (e, 1) else expr_list) in
       if nret =? 1 then
         if is_kind (k e) VCall then
           let! ip := ins (info e) in
           let! op := op_of ip in
           if negb (is_op op BCOp.VARG) then
             do! cur_mut (fun f => FuncState.set_pc (FuncState.pc f - 1) f) in
             let! o := lift (bcop_offset op (BCOp.code BCOp.CALLT - BCOp.code BCOp.CALL)) in
             ret (bcins_ad o (bc_a ip) (bc_c ip))
           else retm e
         else
           let! e := expr_toanyreg e in ret (bcins_ad BCOp.RET1 (info e) 2)
       else if is_kind (k e) VCall then retm e
       else
         do! expr_tonextreg e in
         let! nactvar := my FuncState.nactvar in
         ret (bcins_ad BCOp.RET nactvar (nret + 1))) in
  let! flags := my FuncState.flags in
  do! when has flags PROTO_CHILD do (do! bcemit_aj BCOp.UCLO 0 0 in ret tt) in
  do! bcemit i in ret tt.

Definition parse_shortfunc (name : option Z) (eflags line : Z) : M ExpDesc :=
  do! fs_init in
  do! fscope_begin 0 in
  let! nparams :=
    match name with
    | Some name =>
        do! var_new 0 (VName.Str name) in
        do! var_add 1 in
        do! bcreg_reserve 1 in ret 1
    | None =>
        let! b := lex_opt Tok.OrOr in
        if b then ret 0 else parse_params false (chr "|") (chr "|")
    end in
  do! lex_check Tok.Arrow in
  do! proto_begin line nparams in
  let! b := lex_opt Tok.Do in
  do! (if b then
         do! r_chunk rec in
         let! e := lex_opt Tok.End in
         when negb e do lex_match Tok.End Tok.Do line
       else parse_return (Z.lor eflags EXPR_F_RET1)) in
  proto_finish.

(** ** Calls, fields, primary expressions *)

Definition call_args : M ExpDesc :=
  let! line := ls_linenumber in
  let! t := ls_tok in
  if bool_decide (t = chr "(") then
    do! ls_next in
    let! close := is_tok (chr ")") in
    let! args := (if close then ret void
                  else let! ' (args, _) := expr_list in
                       do! when is_kind (k args) VCall do ins_mut (info args) (fun i => setbc_b i 0) in
                       ret args) in
    do! lex_match (chr ")") (chr "(") line in
    ret args
  else if bool_decide (t = chr "{") then expr_table
  else if bool_decide (t = Tok.Str) then
    let! s := gets (fun p => str (tokval (ls p))) in
    do! ls_next in ret (str_const s)
  else err_syntax (lit "function arguments expected").

Definition parse_args (e : ExpDesc) : M ExpDesc :=
  let! line := ls_linenumber in
  let! args := call_args in
  do! debug_assert (is_kind (k e) VNonReloc) in
  let base := info e in
  let! fr2 := gets fr2 in
  let! i :=
    (if is_kind (k args) VCall then
       let! a := sub32 (aux args) base in let! a := sub32 a 1 in let! a := sub32 a fr2 in
       ret (bcins_abc BCOp.CALLM base 2 a)
     else
       do! when negb (is_kind (k args) VVoid) do (do! expr_tonextreg args in ret tt) in
       let! r := my FuncState.freereg in
       let! a := sub32 r base in let! a := sub32 a fr2 in
       ret (bcins_abc BCOp.CALL base 2 a)) in
  let! pc := bcemit i in
  let! end_ := my FuncState.pc in
  let! last := sub32 end_ 1 in
  let! b := my FuncState.bcbase in
  do! set_line_at (b + last) line in
  do! set_freereg (base + 1) in
  ret (set_aux base (init VCall pc)).

Definition suffix_follows : M bool :=
  let! t := ls_tok in
  ret (match t with
       | Tok.Nav | Tok.Str => true
       | Tok.Char x => (x =? 91) || (x =? 58) || (x =? 40) || (x =? 123) || (x =? 46)
       | _ => false
       end).

(** [?.]: skip the rest when the value is nil. *)
Definition nav_test (v : ExpDesc) (xpc : Z) : M Z :=
  do! bcemit (bcins_ad BCOp.ISEQP (info v) (ExpKind.code VKNil)) in
  let! j := bcemit_jmp in
  jmp_append xpc j.

(** A call in a chain that ends with it has its value in place. *)
Definition nav_ends (nav : bool) (eflags : Z) : M bool :=
  if nav && negb (has eflags EXPR_F_NORES) then let! s := suffix_follows in ret (negb s) else ret false.

(** The arguments of a call of the value itself. *)
Definition direct_call (v : ExpDesc) : M ExpDesc :=
  let! v := expr_tonextreg v in
  let! fr2 := gets fr2 in
  do! when negb (fr2 =? 0) do bcreg_reserve 1 in
  parse_args v.

Fixpoint nav_loop (n : nat) (eflags : Z) (v : ExpDesc) (xpc : Z) : M (ExpDesc * Z) :=
  match n with
  | O => out_of_fuel
  | S n =>
      let! nav := (if has eflags EXPR_F_NONAV then ret false else lex_opt Tok.Nav) in
      let! ' (v, xpc) := (if nav then let! v := expr_toanyreg v in let! x := nav_test v xpc in ret (v, x) else ret (v, xpc)) in
      let next v xpc nav :=
        let! v := (if nav && negb (has eflags EXPR_F_NORES) then expr_tonextreg v else ret v) in
        nav_loop n eflags v xpc in
      let call v xpc nav :=
        let! e := nav_ends nav eflags in
        if e then ret (v, xpc) else next v xpc nav in
      let! t := ls_tok in
      if bool_decide (t = chr "[") then
        let! v := expr_toanyreg v in
        let! key := expr_bracket in
        let! v := expr_index v key in
        next v xpc nav
      else if bool_decide (t = chr ":") then
        if has eflags EXPR_F_NOCOLON then
          do! when nav do err_syntax (lit "unexpected symbol") in ret (v, xpc)
        else
          do! ls_next in
          let! key := expr_str_tok in
          let! v := bcemit_method v key in
          let! nav := lex_opt Tok.Nav in
          let! xpc := (if nav then nav_test v xpc else ret xpc) in
          let! v := parse_args v in
          call v xpc nav
      else if bool_decide (t = chr "(") then
        let! l := gets (fun p => ls p) in
        do! when negb (linenumber l =? lastline l) do ls_error (lit "ambiguous syntax (function call x new statement)") in
        let! v := direct_call v in
        call v xpc nav
      else if bool_decide (t = Tok.Str) || bool_decide (t = chr "{") then
        let! v := direct_call v in
        call v xpc nav
      else
        let! dot := (if nav then ret true else lex_opt (chr ".")) in
        if dot then let! v := expr_field v in next v xpc nav
        else ret (v, xpc)
  end.

Definition expr_primary_nav (eflags : Z) : M (ExpDesc * Z) :=
  let! t := ls_tok in
  let! line := ls_linenumber in
  if bool_decide (t = chr "(") then
    do! ls_next in
    let! v := r_expr rec 0 in
    do! lex_match (chr ")") (chr "(") line in
    let! v := expr_discharge v in
    while (fun n => nav_loop n eflags v NO_JMP)
  else if lex_isname t then
    let! name := lex_str in
    let! arrow := is_tok Tok.Arrow in
    if negb (has eflags EXPR_F_NORES) && arrow then
      let! v := parse_shortfunc (Some name) eflags line in ret (v, NO_JMP)
    else
      let! ' (v, _) := var_lookup name in
      while (fun n => nav_loop n eflags v NO_JMP)
  else err_syntax (lit "unexpected symbol").

Definition expr_primary (eflags : Z) : M ExpDesc :=
  let! ' (v, xpc) := expr_primary_nav eflags in
  if xpc =? NO_JMP then ret v else
  let! around := bcemit_jmp in
  do! jmp_tohere xpc in
  let! v := (if is_kind (k v) VCall then
               do! bcemit_ad BCOp.KPRI (aux v) (ExpKind.code VKNil) in ret (set_k VCallNav v)
             else
               do! bcemit_ad BCOp.KPRI (info v) (ExpKind.code VKNil) in ret v) in
  do! jmp_tohere around in
  ret v.

Definition expr_vararg : M ExpDesc :=
  let! flags := my FuncState.flags in
  do! when negb (has flags PROTO_VARARG) do err_syntax (lit "cannot use '...' outside a vararg function") in
  do! cur_mut (fun f => FuncState.set_flags (Z.land (FuncState.flags f) (unot 16 PROTO_VARARG_NEEDSARG)) f) in
  do! bcreg_reserve 1 in
  let! base := last_reg in
  let! numparams := my FuncState.numparams in
  let! pc := bcemit_abc BCOp.VARG base 2 numparams in
  ret (set_aux base (init VCall pc)).

Definition number_const : M ExpDesc :=
  let! v := gets (fun p => tokval (ls p)) in
  ret (if is_cdata v then
         set_aux (if cdata_is_imag v then 2 else if cdata_is_ull v then 1 else 0)
           (set_nval (cdata_bits v) (init VKCData 0))
       else num_const (num v)).

Definition expr_simple (eflags : Z) : M ExpDesc :=
  let! t := ls_tok in
  let token m := let! v := m in do! ls_next in ret v in
  match t with
  | Tok.Number => token number_const
  | Tok.Str => token (let! s := gets (fun p => str (tokval (ls p))) in ret (str_const s))
  | Tok.Nil => token (ret (init VKNil 0))
  | Tok.True => token (ret (init VKTrue 0))
  | Tok.False => token (ret (init VKFalse 0))
  | Tok.Dots => token expr_vararg
  | Tok.Char 123 => expr_table
  | Tok.Function => do! ls_next in let! line := ls_linenumber in parse_body false line
  | Tok.Char 124 | Tok.OrOr => let! line := ls_linenumber in parse_shortfunc None eflags line
  | _ => expr_primary eflags
  end.

(** ** Operators *)

Definition unop_of (t : Tok.t) : option BCOp.t :=
  match t with
  | Tok.Not | Tok.Char 33 => Some BCOp.NOT
  | Tok.Char 45 => Some BCOp.UNM
  | Tok.Char 35 => Some BCOp.LEN
  | Tok.Char 126 => Some BCOp.BNOT
  | _ => None
  end.

Definition expr_unop (eflags : Z) : M ExpDesc :=
  let! t := ls_tok in
  match unop_of t with
  | Some op =>
      do! ls_next in
      let! ' (v, _) := r_binop rec UNARY_PRIORITY eflags in
      bcemit_unop op v
  | None => expr_simple eflags
  end.

Fixpoint binop_loop (n : nat) (limit eflags : Z) (v : ExpDesc) (opr : BinOp.t) : M (ExpDesc * BinOp.t) :=
  match n with
  | O => out_of_fuel
  | S n =>
      match (if bool_decide (opr = BinOp.NoBinOp) then None else znth PRIORITY (BinOp.code opr)) with
      | Some (lp, rp) =>
          if limit <? lp then
            do! ls_next in
            let! v := bcemit_binop_left opr v in
            let! ' (v2, nextop) := r_binop rec rp eflags in
            let! v := bcemit_binop opr v v2 in
            binop_loop n limit eflags v nextop
          else ret (v, opr)
      | None => ret (v, opr)
      end
  end.

Definition expr_binop (limit eflags : Z) : M (ExpDesc * BinOp.t) :=
  do! synlevel_begin in
  let! v := expr_unop eflags in
  let! t := ls_tok in
  let! r := while (fun n => binop_loop n limit eflags v (token2binop t)) in
  do! synlevel_end in
  ret r.

Definition expr (eflags : Z) : M ExpDesc :=
  let! ' (v, _) := expr_binop 0 eflags in
  let! q := lex_opt (chr "?") in
  if negb q then ret v else
  let! v := bcemit_branch_t v in
  let cond := fl v in
  let! v := r_expr rec EXPR_F_NOCOLON in
  let! v := expr_tonextreg v in
  let reg := info v in
  let! j := bcemit_jmp in
  let! escapelist := jmp_append NO_JMP j in
  do! jmp_tohere cond in
  do! lex_check (chr ":") in
  do! bcreg_free reg in
  let! v := r_expr rec 0 in
  let! v := expr_tonextreg v in
  do! jmp_tohere escapelist in
  ret v.

Definition expr_next : M unit :=
  let! e := r_expr rec 0 in do! expr_tonextreg e in ret tt.

Definition expr_cond : M Z :=
  let! freg := my FuncState.freereg in
  let! v := r_expr rec 0 in
  let v := if is_kind (k v) VKNil then set_k VKFalse v else v in
  let! v := bcemit_branch_t v in
  let! freereg := my FuncState.freereg in
  let to := if is_kind (k v) VNonReloc && negb (info v =? NO_REG) then Z.max freereg (info v + 1) else freereg in
  do! when freg <? to do (do! bcemit_nil freg (to - freg) in set_freereg freg) in
  ret (fl v).

(** ** Assignments *)

(** [k >= VLocal && k <= VIndexed]. *)
Definition is_var (e : ExpDesc) : bool := ek_le VLocal (k e) && ek_le (k e) VIndexed.

(** The operator of a compound assignment, its tokens consumed. *)
Definition compound_op (opr : BinOp.t) : M BinOp.t :=
  if bool_decide (opr = BinOp.Ne) then
    let! t := ls_tok in
    do! when negb (bool_decide (t = Tok.Ne)) do ls_err_near (lit "'=' expected") in
    do! ls_next in ret BinOp.BXor
  else
    let! x := gets (fun p => c (ls p)) in
    do! when negb (x =? 61) do err_token (chr "=") in
    do! ls_next in
    do! ls_next in ret opr.

Definition parse_compound (e : ExpDesc) : M bool :=
  if negb (is_var e) then ret false else
  let! t := ls_tok in
  let opr := token2binop t in
  if (BinOp.code BinOp.Ne <? BinOp.code opr) || bool_decide (opr = BinOp.Pow) then ret false else
  do! var_assign_check e in
  let! opr := compound_op opr in
  let estore := e in
  let! e := (if is_kind (k e) VIndexed then
               let! freg := my FuncState.freereg in
               let! e := expr_discharge e in
               do! set_freereg freg in ret e
             else ret e) in
  let! e := (if bool_decide (opr = BinOp.Concat) then expr_tonextreg e else expr_toanyreg e) in
  let! v := r_expr rec 0 in
  let! e := bcemit_binop opr e v in
  do! bcemit_store estore e in
  ret true.

(** One target with [reg] replaced by [tmp], and whether it was used. *)
Definition hazard_in (reg tmp : Z) (lh : ExpDesc) : ExpDesc * bool :=
  if is_kind (k lh) VIndexed then
    (set_info (if info lh =? reg then tmp else info lh) (set_aux (if aux lh =? reg then tmp else aux lh) lh),
     (info lh =? reg) || (aux lh =? reg))
  else (lh, false).

Definition assign_hazard (lhs : list ExpDesc) (v : ExpDesc) : M (list ExpDesc) :=
  let reg := info v in
  let! tmp := my FuncState.freereg in
  let r := map (hazard_in reg tmp) lhs in
  do! when existsb snd r do (do! bcemit_ad BCOp.MOV tmp reg in bcreg_reserve 1) in
  ret (map fst r).

Definition adjust_nav (e : ExpDesc) (extra : Z) : M unit :=
  let pc := info e in
  let base := aux e in
  let! dbg := gets debug in
  do! when dbg do
    (let! i0 := ins pc in let! i1 := ins (pc + 1) in let! i2 := ins (pc + 2) in
     let! o0 := op_of i0 in
     do! debug_assert (is_op o0 BCOp.CALL || is_op o0 BCOp.CALLM) in
     let! o1 := op_of i1 in
     do! debug_assert (is_op o1 BCOp.JMP) in
     let! o2 := op_of i2 in
     debug_assert (is_op o2 BCOp.KPRI)) in
  do! ins_mut (pc + 1) (fun i => setbc_a i (base + extra)) in
  when 1 <? extra do ins_mut (pc + 2) (fun _ => bcins_ad BCOp.KNIL base (base + extra - 1)).

Definition assign_adjust (nvars nexps : Z) (e : ExpDesc) : M unit :=
  let extra := nvars - nexps in
  do! (if is_kind (k e) VCall || is_kind (k e) VCallNav then
         let extra := Z.max 0 (extra + 1) in
         do! ins_mut (info e) (fun i => setbc_b i (extra + 1)) in
         do! when 1 <? extra do bcreg_reserve (extra - 1) in
         when is_kind (k e) VCallNav do adjust_nav e extra
       else
         do! when negb (is_kind (k e) VVoid) do (do! expr_tonextreg e in ret tt) in
         when 0 <? extra do
           (let! reg := my FuncState.freereg in
            do! bcreg_reserve extra in
            bcemit_nil reg extra)) in
  when nvars <? nexps do drop_regs (nexps - nvars).

(** The targets are listed last first. *)
Definition parse_assignment (lhs : list ExpDesc) (nvars : Z) : M (list ExpDesc) :=
  let! v := lift (head lhs) in
  do! when negb (is_var v) do err_syntax (lit "syntax error") in
  do! var_assign_check v in
  let store_last lhs :=
    let! r := last_reg in
    let! var := lift (head lhs) in
    do! bcemit_store var (init VNonReloc r) in
    ret lhs in
  let! comma := lex_opt (chr ",") in
  if comma then
    let! vl := expr_primary EXPR_F_NONAV in
    let! lhs := (if is_kind (k vl) VLocal then assign_hazard lhs vl else ret lhs) in
    let! l := gets level in
    do! checklimit (l + nvars) LJ_MAX_XLEVEL (lit "variable names") in
    let! lhs := r_assign rec (vl :: lhs) (nvars + 1) in
    store_last (tail lhs)
  else
    do! lex_check (chr "=") in
    let! ' (e, nexps) := expr_list in
    if nexps =? nvars then
      let! e := (if is_kind (k e) VCall then
                   let! i := ins (info e) in
                   let! op := op_of i in
                   if is_op op BCOp.VARG then do! drop_regs 1 in ret (set_k VRelocable e)
                   else ret (become VNonReloc (aux e) e)
                 else ret e) in
      do! bcemit_store v e in
      ret lhs
    else
      do! assign_adjust nvars nexps e in
      store_last lhs.

Definition parse_call_assign : M unit :=
  let! ' (vl, xpc) := expr_primary_nav EXPR_F_NORES in
  do! (if is_kind (k vl) VCall then ins_mut (info vl) (fun i => setbc_b i 1)
       else
         do! debug_assert (negb (is_kind (k vl) VCallNav)) in
         let! t := ls_tok in
         do! when negb ((xpc =? NO_JMP) || negb (bool_decide (t = chr ","))) do err_syntax (lit "syntax error") in
         let! done := parse_compound vl in
         when negb done do (do! parse_assignment [vl] 1 in ret tt)) in
  when negb (xpc =? NO_JMP) do jmp_tohere xpc.

(** ** Declarations *)

Definition local_function (vinfo : Z) : M unit :=
  let! name := lex_str in
  let! vidx := var_new 0 (VName.Str name) in
  do! vstack_upd vidx (VarInfo.set_info vinfo) in
  let! freereg := my FuncState.freereg in
  let! aux := varmap_at freereg in
  let v := set_aux aux (init VLocal freereg) in
  do! bcreg_reserve 1 in
  do! var_add 1 in
  let! line := ls_linenumber in
  let! b := parse_body false line in
  do! expr_free b in
  do! expr_toreg b (info v) in
  let! nactvar := my FuncState.nactvar in
  let! n := sub32 nactvar 1 in
  let! vidx := varmap_at n in
  let! pc := my FuncState.pc in
  vstack_upd vidx (VarInfo.set_startpc pc).

Fixpoint const_names (n : nat) (vinfo nvars : Z) : M Z :=
  match n with
  | O => out_of_fuel
  | S n =>
      let! name := lex_str in
      let! vidx := var_new nvars (VName.Str name) in
      do! link_var vidx in
      do! vstack_upd vidx (VarInfo.set_info vinfo) in
      let! comma := lex_opt (chr ",") in
      if comma then const_names n vinfo (nvars + 1) else ret (nvars + 1)
  end.

Fixpoint local_names (n : nat) (base_slot nvars : Z) : M Z :=
  match n with
  | O => out_of_fuel
  | S n =>
      let! name := lex_str in
      let! vidx := var_new nvars (VName.Str name) in
      do! vstack_upd vidx (VarInfo.set_slot (uwrap 8 (base_slot + nvars))) in
      let! comma := lex_opt (chr ",") in
      if comma then local_names n base_slot (nvars + 1) else ret (nvars + 1)
  end.

Definition parse_local (vinfo : Z) : M unit :=
  do! ls_next in
  let! f := lex_opt Tok.Function in
  if f then local_function vinfo else
  let! nvars :=
    (if negb (vinfo =? 0) then
       let! vhsave := gets vhash in
       let! n := while (fun f => const_names f vinfo 0) in
       do! modify (set_vhash vhsave) in ret n
     else
       let! base_slot := my FuncState.nactvar in
       let! vt := vtop in
       do! cur_mut (FuncState.set_pend_start vt) in
       while (fun f => local_names f base_slot 0)) in
  let! eq := lex_opt (chr "=") in
  let! ' (e, nexps) := (if eq then expr_list else ret (void, 0)) in
  do! assign_adjust nvars nexps e in
  var_add nvars.

Fixpoint func_name (n : nat) (v : ExpDesc) : M ExpDesc :=
  match n with
  | O => out_of_fuel
  | S n =>
      let! dot := lex_opt (chr ".") in
      if dot then let! v := expr_field v in func_name n v else ret v
  end.

Definition parse_func (line : Z) : M unit :=
  do! ls_next in
  let! name := lex_str in
  let! ' (v, _) := var_lookup name in
  let! v := while (fun n => func_name n v) in
  let! needself := lex_opt (chr ":") in
  let! v := (if needself then expr_field v else ret v) in
  do! var_assign_check v in
  let! b := parse_body needself line in
  do! bcemit_store v b in
  let! pc := my FuncState.pc in
  let! pc := sub32 pc 1 in
  let! b := my FuncState.bcbase in
  set_line_at (b + pc) line.

(** ** Jumps *)

Definition parse_break : M unit :=
  do! scope_flag FSCOPE_BREAK in
  let! pc := bcemit_jmp in
  do! gola_new VName.Break VSTACK_GOTO pc in ret tt.

Definition parse_continue : M unit :=
  let! l := my FuncState.scopes in
  do! when negb (existsb (fun s => has (FuncScope.flags s) FSCOPE_LOOP) l) do ls_error (lit "no loop to continue") in
  do! scope_flag FSCOPE_CONT in
  let! pc := bcemit_jmp in
  do! gola_new VName.Cont VSTACK_GOTO pc in ret tt.

Definition parse_goto : M unit :=
  let! name := lex_str in
  let! l := gola_findlabel (VName.Str name) in
  do! match l with
      | Some vl => let! v := var_at vl in do! bcemit_aj BCOp.LOOP (VarInfo.slot v) (-1) in ret tt
      | None => ret tt
      end in
  do! scope_flag FSCOPE_GOLA in
  let! pc := bcemit_jmp in
  do! gola_new (VName.Str name) VSTACK_GOTO pc in ret tt.

(** Labels and semicolons that follow a label. *)
Fixpoint label_tail (n : nat) : M unit :=
  match n with
  | O => out_of_fuel
  | S n =>
      let! t := ls_tok in
      if bool_decide (t = Tok.Label) then
        do! synlevel_begin in
        do! r_label rec in
        do! synlevel_end in
        label_tail n
      else if bool_decide (t = chr ";") then do! ls_next in label_tail n
      else ret tt
  end.

Definition parse_label : M unit :=
  let! pc := my FuncState.pc in
  do! cur_mut (FuncState.set_lasttarget pc) in
  do! scope_flag FSCOPE_GOLA in
  do! ls_next in
  let! name := lex_str in
  let! l := gola_findlabel (VName.Str name) in
  do! when negb (is_none l) do (let! s := lossy_name name in ls_error (lit "duplicate label '" ++ s ++ [39])) in
  let! pc := my FuncState.pc in
  let! idx := gola_new (VName.Str name) VSTACK_LABEL pc in
  do! lex_check Tok.Label in
  do! while label_tail in
  let! t := ls_tok in
  do! when parse_isend t && negb (bool_decide (t = Tok.Until)) do
    (let! s := scope in
     let! v := var_at (FuncScope.vstart s + FuncScope.nactvar s) in
     vstack_upd idx (VarInfo.set_slot (VarInfo.slot v))) in
  let! s := scope in
  gola_resolve (FuncScope.vstart s) idx.

(** ** Blocks and loops *)

Definition parse_block : M unit :=
  do! fscope_begin 0 in
  do! r_chunk rec in
  fscope_end.

Definition parse_while (line : Z) : M unit :=
  do! ls_next in
  let! start := my FuncState.pc in
  do! cur_mut (FuncState.set_lasttarget start) in
  let! condexit := expr_cond in
  do! fscope_begin FSCOPE_LOOP in
  do! lex_check Tok.Do in
  let! nactvar := my FuncState.nactvar in
  let! loop_pc := bcemit_ad BCOp.LOOP nactvar 0 in
  do! parse_block in
  let! j := bcemit_jmp in
  do! jmp_patch j start in
  do! lex_match Tok.End Tok.While line in
  do! fscope_continue start in
  do! fscope_end in
  do! jmp_tohere condexit in
  let! pc := my FuncState.pc in
  jmp_patchins loop_pc pc.

Definition parse_repeat (line : Z) : M unit :=
  let! loop_start := my FuncState.pc in
  do! cur_mut (FuncState.set_lasttarget loop_start) in
  do! fscope_begin FSCOPE_LOOP in
  do! fscope_begin 0 in
  do! ls_next in
  let! nactvar := my FuncState.nactvar in
  do! bcemit_ad BCOp.LOOP nactvar 0 in
  do! r_chunk rec in
  do! lex_match Tok.Until Tok.Repeat line in
  let! pc := my FuncState.pc in
  do! fscope_continue pc in
  let! condexit := expr_cond in
  let! s := scope in
  let! condexit :=
    (if has (FuncScope.flags s) FSCOPE_UPVAL then
       do! parse_break in
       do! jmp_tohere condexit in
       do! fscope_end in
       bcemit_jmp
     else do! fscope_end in ret condexit) in
  do! jmp_patch condexit loop_start in
  let! pc := my FuncState.pc in
  do! jmp_patchins loop_start pc in
  fscope_end.

Definition FORL_IDX : Z := 0.
Definition FORL_STOP : Z := 1.
Definition FORL_STEP : Z := 2.
Definition FORL_EXT : Z := 3.

Definition parse_for_num (varname line : Z) : M unit :=
  let! base := my FuncState.freereg in
  do! var_new FORL_IDX (VName.Fixed 1) in
  do! var_new FORL_STOP (VName.Fixed 2) in
  do! var_new FORL_STEP (VName.Fixed 3) in
  do! var_new FORL_EXT (VName.Str varname) in
  do! lex_check (chr "=") in
  do! expr_next in
  do! lex_check (chr ",") in
  do! expr_next in
  let! comma := lex_opt (chr ",") in
  do! (if comma then expr_next
       else let! r := my FuncState.freereg in do! bcemit_ad BCOp.KSHORT r 1 in bcreg_reserve 1) in
  do! var_add 3 in
  do! lex_check Tok.Do in
  let! loop_pc := bcemit_aj BCOp.FORI base (-1) in
  do! fscope_begin 0 in
  do! var_add 1 in
  do! bcreg_reserve 1 in
  do! parse_block in
  do! fscope_end in
  let! pc := my FuncState.pc in
  do! fscope_continue pc in
  let! loopend := bcemit_aj BCOp.FORL base (-1) in
  let! b := my FuncState.bcbase in
  do! set_line_at (b + loopend) line in
  do! jmp_patchins loopend (loop_pc + 1) in
  let! pc := my FuncState.pc in
  jmp_patchins loop_pc pc.

Definition is_pairs (n : list Z) : bool := bool_decide (n = lit "pairs") || bool_decide (n = lit "next").

(** Whether a string is the constant at [d]. *)
Definition is_const_at (name : list Z) (d : Z) : M bool :=
  let! sid := strs_intern name in
  let! m := my FuncState.kgc_map in
  ret (bool_decide (m !! sid = Some d)).

Definition predict_next (pc : Z) : M bool :=
  let! i := ins pc in
  let! op := op_of i in
  let named vidx :=
    let! v := var_at vidx in
    match VarInfo.name v with VName.Str sid => let! b := strs_get sid in ret (is_pairs b) | _ => ret false end in
  match op with
  | BCOp.MOV =>
      let! nactvar := my FuncState.nactvar in
      if nactvar <=? bc_d i then ret false
      else let! vidx := varmap_at (bc_d i) in named vidx
  | BCOp.UGET => let! m := my FuncState.uvmap in let! vidx := lift (znth m (bc_d i)) in named vidx
  | BCOp.GGET =>
      let! b := is_const_at (lit "pairs") (bc_d i) in
      if b then ret true else is_const_at (lit "next") (bc_d i)
  | _ => ret false
  end.

Fixpoint for_names (n : nat) (nvars : Z) : M Z :=
  match n with
  | O => out_of_fuel
  | S n =>
      let! comma := lex_opt (chr ",") in
      if comma then
        let! name := lex_str in
        do! var_new nvars (VName.Str name) in
        for_names n (nvars + 1)
      else ret nvars
  end.

Definition parse_for_iter (indexname : Z) : M unit :=
  let! r := my FuncState.freereg in
  let base := r + 3 in
  let! exprpc := my FuncState.pc in
  do! var_new 0 (VName.Fixed 4) in
  do! var_new 1 (VName.Fixed 5) in
  do! var_new 2 (VName.Fixed 6) in
  do! var_new 3 (VName.Str indexname) in
  let! nvars := while (fun n => for_names n 4) in
  do! lex_check Tok.In in
  let! line := ls_linenumber in
  let! ' (e, nexps) := expr_list in
  do! assign_adjust 3 nexps e in
  let! fr2 := gets fr2 in
  do! bcreg_bump (3 + fr2) in
  let! pc := my FuncState.pc in
  let! isnext := (if (nvars <=? 5) && (exprpc <? pc) then predict_next exprpc else ret false) in
  do! var_add 3 in
  do! lex_check Tok.Do in
  let! loop_pc := bcemit_aj (if isnext then BCOp.ISNEXT else BCOp.JMP) base (-1) in
  do! fscope_begin 0 in
  let! n := sub32 nvars 3 in
  do! var_add n in
  do! bcreg_reserve n in
  do! parse_block in
  do! fscope_end in
  let! pc := my FuncState.pc in
  do! jmp_patchins loop_pc pc in
  do! fscope_continue pc in
  do! bcemit_abc (if isnext then BCOp.ITERN else BCOp.ITERC) base (nvars - 3 + 1) (2 + 1) in
  let! loopend := bcemit_aj BCOp.ITERL base (-1) in
  let! b := my FuncState.bcbase in
  let! l1 := sub32 loopend 1 in
  do! set_line_at (b + l1) line in
  do! set_line_at (b + loopend) line in
  jmp_patchins loopend (loop_pc + 1).

Definition parse_for (line : Z) : M unit :=
  do! fscope_begin FSCOPE_LOOP in
  do! ls_next in
  let! varname := lex_str in
  let! t := ls_tok in
  do! (if bool_decide (t = chr "=") then parse_for_num varname line
       else if bool_decide (t = chr ",") || bool_decide (t = Tok.In) then parse_for_iter varname
       else err_syntax (lit "'=' or 'in' expected")) in
  do! lex_match Tok.End Tok.For line in
  fscope_end.

Definition parse_then : M Z :=
  do! ls_next in
  let! condexit := expr_cond in
  do! lex_check Tok.Then in
  do! parse_block in
  ret condexit.

(** The jump over the remaining branches. *)
Definition if_escape (escapelist flist : Z) : M Z :=
  let! j := bcemit_jmp in
  let! escapelist := jmp_append escapelist j in
  do! jmp_tohere flist in
  ret escapelist.

Fixpoint elseif_loop (n : nat) (escapelist flist : Z) : M (Z * Z) :=
  match n with
  | O => out_of_fuel
  | S n =>
      let! b := is_tok Tok.Elseif in
      if b then
        let! escapelist := if_escape escapelist flist in
        let! flist := parse_then in
        elseif_loop n escapelist flist
      else ret (escapelist, flist)
  end.

Definition parse_if (line : Z) : M unit :=
  let! flist := parse_then in
  let! ' (escapelist, flist) := while (fun n => elseif_loop n NO_JMP flist) in
  let! b := is_tok Tok.Else in
  let! escapelist :=
    (if b then
       let! escapelist := if_escape escapelist flist in
       do! ls_next in
       do! parse_block in
       ret escapelist
     else jmp_append escapelist flist) in
  do! jmp_tohere escapelist in
  lex_match Tok.End Tok.If line.

(** ** Statements *)

(** Whether the statement must be the last of its block. *)
Definition parse_stmt : M bool :=
  let! line := ls_linenumber in
  let! t := ls_tok in
  let more m := do! m in ret false in
  match t with
  | Tok.If => more (parse_if line)
  | Tok.While => more (parse_while line)
  | Tok.Do => more (do! ls_next in do! parse_block in lex_match Tok.End Tok.Do line)
  | Tok.For => more (parse_for line)
  | Tok.Repeat => more (parse_repeat line)
  | Tok.Function => more (parse_func line)
  | Tok.Local => more (parse_local 0)
  | Tok.Const =>
      more (let! t := ls_peek in
            if negb (lex_isname t || bool_decide (t = Tok.Function)) then parse_call_assign else parse_local VSTACK_CONST)
  | Tok.Return => do! ls_next in do! parse_return 0 in ret true
  | Tok.Break => do! ls_next in do! parse_break in ret true
  | Tok.Continue =>
      more (let! t := ls_peek in
            if negb (parse_isend t || bool_decide (t = chr ";")) then parse_call_assign
            else
              do! ls_next in
              do! parse_continue in
              let! t := ls_tok in
              when bool_decide (t = chr ";") do err_token Tok.End)
  | Tok.Label => more parse_label
  | Tok.Char 59 => more ls_next
  | Tok.Goto =>
      more (let! t := ls_peek in
            if lex_isname t then do! ls_next in parse_goto else err_syntax (lit "<name> expected"))
  | _ => more parse_call_assign
  end.

Fixpoint chunk_loop (n : nat) (islast : bool) : M unit :=
  match n with
  | O => out_of_fuel
  | S n =>
      let! t := ls_tok in
      if islast || parse_isend t then ret tt else
      do! modify (fun p => set_ls (set_lastline (ls p) (linenumber (ls p))) p) in
      let! islast := parse_stmt in
      let! t := ls_tok in
      do! when bool_decide (t = chr ";") do ls_next in
      let! f := cur in
      do! debug_assert ((FuncState.freereg f <=? FuncState.framesize f) && (FuncState.nactvar f <=? FuncState.freereg f)) in
      do! set_freereg (FuncState.nactvar f) in
      chunk_loop n islast
  end.

Definition parse_chunk : M unit :=
  do! synlevel_begin in
  do! while (fun n => chunk_loop n false) in
  synlevel_end.
End Productions.

Fixpoint rec_at (n : nat) : Rec :=
  match n with
  | O => {| r_expr := fun _ => out_of_fuel; r_binop := fun _ _ => out_of_fuel; r_chunk := out_of_fuel;
            r_label := out_of_fuel; r_assign := fun _ _ => out_of_fuel |}
  | S n =>
      let r := rec_at n in
      {| r_expr := expr r; r_binop := expr_binop r; r_chunk := parse_chunk r; r_label := parse_label r;
         r_assign := parse_assignment r |}
  end.

(** ** Chunks *)

(** [Parser::new]. *)
Definition parser_new (src name : list Z) (st : St) (debug : bool) : Out (Parser St) :=
  match (if bool_decide (name = []) then Some (st, None)
         else let? ' (st, sid) := str_intern st name in Some (st, Some sid)) with
  | None => Panicked
  | Some (st, sid) =>
      match Lex.new src name st with
      | None => Panicked
      | Some (inr e) => Error e
      | Some (inl l) => Ran (mkParser l [] [] (replicate 32 VINDEX_NONE) 0 1 [] sid debug)
      end
  end.

Definition parse_with (rec : Rec) : M Proto :=
  do! modify (set_level 0) in
  do! fs_init in
  do! set_flag PROTO_VARARG in
  do! fscope_begin 0 in
  do! bcemit_ad BCOp.FUNCV 0 0 in
  do! ls_next in
  do! parse_chunk rec in
  let! b := is_tok Tok.Eof in
  do! when negb b do err_token Tok.Eof in
  let! line := ls_linenumber in
  let! pt := fs_finish line in
  let! l := gets fs in
  do! debug_assert (bool_decide (l = [])) in
  let '(mkProto _ _ _ _ _ uv _ _ _ _ _ _ _ _) := pt in
  do! debug_assert (bool_decide (uv = [])) in
  ret pt.

Definition parse : M Proto := let! n := gets loop_fuel in parse_with (rec_at n).

(** The prototype of a source text, and the string table after it. *)
Definition compile_source (src name : list Z) (st : St) (debug : bool) : Out (Proto * St) :=
  match parser_new src name st debug with
  | Ran p => match parse p with
             | Ran (pt, p) => Ran (pt, strs (ls p))
             | Error e => Error e
             | Panicked => Panicked
             | Diverged => Diverged
             | OutOfFuel => OutOfFuel
             end
  | Error e => Error e
  | Panicked => Panicked
  | Diverged => Diverged
  | OutOfFuel => OutOfFuel
  end.
End Grammar.
