(* ===== verification/ParseCalm.v ===== *)
(** * Emitters leave the lexer alone

    [Calm]: a computation that reads no token and interns no string.  Every
    function below the grammar is one, by stepping through it. *)

From Stdlib Require Import ZArith Lia Bool String.
From stdpp Require Import base decidable numbers option gmap list.
From S2P Require Import Prelude Float64 Value Strings FloatText PatClass Fold Exec Bytecode Table Dump Lex LexSpec ParseState ParseExpr ParseScope Parse.

(** The same tokens ahead, the same strings. *)
Definition same_input {St} (l l' : LexState St) : Prop :=
  wf l -> wf l' /\ tok l' = tok l /\ lookahead l' = lookahead l /\ chars l' = chars l /\ strs l' = strs l.

Lemma same_input_refl {St} (l : LexState St) : same_input l l.
Proof. done. Qed.

Lemma same_input_trans {St} (l1 l2 l3 : LexState St) : same_input l1 l2 -> same_input l2 l3 -> same_input l1 l3.
Proof. intros H12 H23 Hw. destruct (H12 Hw) as (Hw2 & ? & ? & ? & ?), (H23 Hw2) as (? & ? & ? & ? & ?). split_and!; congruence. Qed.

Lemma same_input_lastline {St} (l : LexState St) n : same_input l (set_lastline l n).
Proof. intros []. by destruct l. Qed.

Class Calm {St A} (m : M St A) : Prop := calm : forall p,
  match m p with Ran (_, p') => same_input (ls p) (ls p') | OutOfFuel => False | _ => True end.

(** ** The operations of the monad *)

Section Basics.
Context {St : Type} `{Strings St}.

#[global] Instance calm_ret {A} (a : A) : Calm (ret (St:=St) a).
Proof. by intros p. Qed.

Lemma calm_bind {A B} (m : M St A) (f : A -> M St B) : Calm m -> (forall a, Calm (f a)) -> Calm (bind m f).
Proof.
  intros Hm Hf p. unfold bind. specialize (Hm p). destruct (m p) as [[a p1]|?| | |]; try done.
  specialize (Hf a p1). destruct (f a p1) as [[b p2]|?| | |]; try done. by eapply same_input_trans.
Qed.

#[global] Instance calm_gets {A} (f : Parser St -> A) : Calm (gets f).
Proof. by intros p. Qed.

Lemma calm_modify (f : Parser St -> Parser St) : (forall p, same_input (ls p) (ls (f p))) -> Calm (modify f).
Proof. intros Hf p. apply Hf. Qed.

#[global] Instance calm_lift {A} (o : option A) : Calm (lift (St:=St) o).
Proof. destruct o; by intros p. Qed.

#[global] Instance calm_panic {A} : Calm (@panic St A).
Proof. by intros p. Qed.

#[global] Instance calm_diverge {A} : Calm (@diverge St A).
Proof. by intros p. Qed.

#[global] Instance calm_from_lex {A} (r : Res A) : Calm (from_lex (St:=St) r).
Proof. intros p. unfold from_lex. by destruct r as [[?|?]|]. Qed.

#[global] Instance calm_debug_assert b : Calm (@debug_assert St b).
Proof. intros p. unfold debug_assert. by destruct (_ && _). Qed.

#[global] Instance calm_sub32 a b : Calm (@sub32 St a b).
Proof. intros p. unfold sub32. destruct (b <=? a); [done|]. by destruct (debug p). Qed.

(** Computations that end in an error. *)
Definition stops {A} (m : M St A) : Prop := forall p, match m p with Ran _ | OutOfFuel => False | _ => True end.

Lemma stops_error {A} msg : stops (@ls_error St A msg).
Proof. by intros p. Qed.

Lemma stops_err_near {A} msg : stops (@ls_err_near St _ A msg).
Proof.
  intros p. unfold ls_err_near, bind, gets, from_lex, err_near, err_token_str, Lex.error.
  by destruct (match tok (ls p) with Tok.Str => _ | _ => _ end).
Qed.

Lemma stops_bind {A B} (m : M St A) (f : A -> M St B) : Calm m -> (forall a, stops (f a)) -> stops (bind m f).
Proof. intros Hm Hf p. unfold bind. specialize (Hm p). destruct (m p) as [[a p1]|?| | |]; try done. apply Hf. Qed.

Lemma stops_modify {A} f (m : M St A) : stops m -> Calm (bind (modify f) (fun _ => m)).
Proof. intros Hm p. unfold bind, modify. specialize (Hm (f p)). by destruct (m (f p)). Qed.
End Basics.

(** Step through a computation, its tests and the functions it calls. *)
Ltac calm_step :=
  lazymatch goal with
  | |- Calm (bind _ _) => apply calm_bind; [|intros]
  | |- Calm (if ?x then _ else _) => destruct x
  | |- Calm (match ?x with _ => _ end) => destruct x
  | |- Calm (modify _) => apply calm_modify; intros []; first [apply same_input_refl | apply same_input_lastline]
  | |- Calm _ => apply _
  end.
Ltac calm_tac := intros; cbv zeta; repeat (calm_step; cbv beta iota).

(** Instances are found by the function called. *)
#[global] Hint Opaque ret bind panic diverge out_of_fuel gets modify lift debug_assert sub32 cur cur_mut my
   slot_at set_slot_at ins ins_mut_at ins_mut set_line_at from_lex ls_next ls_peek ls_error ls_err_near ls_tok
   ls_linenumber is_tok strs_get strs_intern err_syntax err_token limit_error err_limit checklimit const_num
   kgc_push const_str_id const_cdata const_str const_proto op_of jmp_next jmp_novalue_loop jmp_novalue
   jmp_patchtestreg jmp_dropval_loop jmp_dropval jmp_patchins jmp_last jmp_append jmp_patchval_loop
   jmp_patchval jmp_tohere jmp_patch bcreg_bump set_freereg bcreg_reserve drop_regs bcreg_free expr_free
   last_reg bcemit bcemit_abc bcemit_ad bcemit_aj line_of const_pri expr_discharge emit_nil bcemit_nil
   expr_toreg_nobranch bcemit_jmp expr_toreg expr_tonextreg expr_toanyreg expr_toval vstack_upd mark_rw
   bcemit_store bcemit_method invertcond bcemit_branch bcemit_branch_t bcemit_branch_f foldarith foldbitop
   drop_temp arith_operands bcemit_arith comp_eq comp_lt bcemit_comp bcemit_binop_left bcemit_concat flag_bitop
   bcemit_binop emit_unop bcemit_not bcemit_unop lex_opt lex_check lex_match lex_str var_at vhash_at
   set_vhash_at vtop lossy_name redeclare_loop vstack_push varmap_at var_new var_new_lit link_var var_add_loop
   var_add var_remove_loop var_remove fs_at fs_upd fscope_uvmark upvalue_limit capture var_resolve lookup_loop
   var_lookup var_assign_check gola_new gola_isgoto gola_islabel gola_patch gola_close gola_text jumps_into
   gola_resolve_loop gola_resolve fixup_label scope_upd scope scope_flag fixup_goto gola_fixup_loop gola_fixup
   gola_findlabel fscope_begin truncate resolve_label fscope_end fscope_continue first_scope_upd fixup_returns
   fs_fixup_ret map_m resolve_uv resolve_child uv_name var_names checklimitgt_static code_of fs_finish fs_init
   while set_flag synlevel_begin synlevel_end expr_str_tok expr_index expr_field expr_bracket expr_list_loop
   expr_list expr_kvalue tab_set item_key item_const table_item table_loop table_multi table_finish expr_table
   params_loop parse_params proto_begin proto_finish parse_body parse_return parse_shortfunc call_args
   parse_args suffix_follows nav_test nav_ends direct_call nav_loop expr_primary_nav expr_primary expr_vararg
   number_const expr_simple expr_unop binop_loop expr_binop expr expr_next expr_cond compound_op parse_compound
   assign_hazard adjust_nav assign_adjust parse_assignment parse_call_assign local_function const_names
   local_names parse_local func_name parse_func parse_break parse_continue parse_goto label_tail parse_label
   parse_block parse_while parse_repeat parse_for_num is_const_at predict_next for_names parse_for_iter
   parse_for parse_then if_escape elseif_loop parse_if parse_stmt chunk_loop parse_chunk parse_with parse : typeclass_instances.

(** ** State, jumps, registers and emission *)

Section Code.
Context {St : Type} `{Strings St} `{StrPtrs St} `{Libm}.
Implicit Types (m : M St unit).
#[global] Instance calm_cur : Calm (St:=St) (cur).
Proof. unfold cur. calm_tac. Qed.
#[global] Instance calm_cur_mut (f : FuncState.t -> FuncState.t) : Calm (St:=St) (cur_mut f).
Proof. unfold cur_mut. calm_tac. Qed.
#[global] Instance calm_my {A} (f : FuncState.t -> A) : Calm (St:=St) (my (A:=A) f).
Proof. unfold my. calm_tac. Qed.
#[global] Instance calm_slot_at (i : Z) : Calm (St:=St) (slot_at i).
Proof. unfold slot_at. calm_tac. Qed.
#[global] Instance calm_set_slot_at (i : Z) (x : BCInsLine.t) : Calm (St:=St) (set_slot_at i x).
Proof. unfold set_slot_at. calm_tac. Qed.
#[global] Instance calm_ins (pc : Z) : Calm (St:=St) (ins pc).
Proof. unfold ins. calm_tac. Qed.
#[global] Instance calm_ins_mut_at (i : Z) (f : Z -> Z) : Calm (St:=St) (ins_mut_at i f).
Proof. unfold ins_mut_at. calm_tac. Qed.
#[global] Instance calm_ins_mut (pc : Z) (f : Z -> Z) : Calm (St:=St) (ins_mut pc f).
Proof. unfold ins_mut. calm_tac. Qed.
#[global] Instance calm_set_line_at (i : Z) (l : Z) : Calm (St:=St) (set_line_at i l).
Proof. unfold set_line_at. calm_tac. Qed.
#[global] Instance calm_ls_error {A} (msg : list Z) : Calm (St:=St) (ls_error (A:=A) msg).
Proof. unfold ls_error. calm_tac. Qed.
#[global] Instance calm_ls_err_near {A} (msg : list Z) : Calm (St:=St) (ls_err_near (A:=A) msg).
Proof. unfold ls_err_near. calm_tac. Qed.
#[global] Instance calm_ls_tok : Calm (St:=St) (ls_tok).
Proof. unfold ls_tok. calm_tac. Qed.
#[global] Instance calm_ls_linenumber : Calm (St:=St) (ls_linenumber).
Proof. unfold ls_linenumber. calm_tac. Qed.
#[global] Instance calm_is_tok (t : Tok.t) : Calm (St:=St) (is_tok t).
Proof. unfold is_tok. calm_tac. Qed.
#[global] Instance calm_strs_get (sid : Z) : Calm (St:=St) (strs_get sid).
Proof. unfold strs_get. calm_tac. Qed.
#[global] Instance calm_err_syntax {A} (msg : list Z) : Calm (St:=St) (err_syntax (A:=A) msg).
Proof. unfold err_syntax. calm_tac. Qed.
#[global] Instance calm_err_token {A} (t : Tok.t) : Calm (St:=St) (err_token (A:=A) t).
Proof. unfold err_token. calm_tac. Qed.
#[global] Instance calm_limit_error {A} (linedefined limit : Z) (what : list Z) : Calm (St:=St) (limit_error (A:=A) linedefined limit what).
Proof. unfold limit_error. calm_tac. Qed.
#[global] Instance calm_err_limit {A} (limit : Z) (what : list Z) : Calm (St:=St) (err_limit (A:=A) limit what).
Proof. unfold err_limit. calm_tac. Qed.
#[global] Instance calm_checklimit (v l : Z) (m : list Z) : Calm (St:=St) (checklimit v l m).
Proof. unfold checklimit. calm_tac. Qed.
#[global] Instance calm_const_num (e : ExpDesc) : Calm (St:=St) (const_num e).
Proof. unfold const_num. calm_tac. Qed.
#[global] Instance calm_kgc_push (k : KGc) : Calm (St:=St) (kgc_push k).
Proof. unfold kgc_push. calm_tac. Qed.
#[global] Instance calm_const_str_id (sid : Z) : Calm (St:=St) (const_str_id sid).
Proof. unfold const_str_id. calm_tac. Qed.
#[global] Instance calm_const_cdata (e : ExpDesc) : Calm (St:=St) (const_cdata e).
Proof. unfold const_cdata. calm_tac. Qed.
#[global] Instance calm_const_str (e : ExpDesc) : Calm (St:=St) (const_str e).
Proof. unfold const_str. calm_tac. Qed.
#[global] Instance calm_const_proto (pt : Proto) : Calm (St:=St) (const_proto pt).
Proof. unfold const_proto. calm_tac. Qed.
#[global] Instance calm_op_of (i : Z) : Calm (St:=St) (op_of i).
Proof. unfold op_of. calm_tac. Qed.
#[global] Instance calm_jmp_next (pc : Z) : Calm (St:=St) (jmp_next pc).
Proof. unfold jmp_next. calm_tac. Qed.
#[global] Instance calm_jmp_novalue_loop (n : nat) (list : Z) : Calm (St:=St) (jmp_novalue_loop n list).
Proof. revert list. induction n; cbn [jmp_novalue_loop]; calm_tac. Qed.
#[global] Instance calm_jmp_novalue (list : Z) : Calm (St:=St) (jmp_novalue list).
Proof. unfold jmp_novalue. calm_tac. Qed.
#[global] Instance calm_jmp_patchtestreg (pc reg : Z) : Calm (St:=St) (jmp_patchtestreg pc reg).
Proof. unfold jmp_patchtestreg. calm_tac. Qed.
#[global] Instance calm_jmp_dropval_loop (n : nat) (list : Z) : Calm (St:=St) (jmp_dropval_loop n list).
Proof. revert list. induction n; cbn [jmp_dropval_loop]; calm_tac. Qed.
#[global] Instance calm_jmp_dropval (list : Z) : Calm (St:=St) (jmp_dropval list).
Proof. unfold jmp_dropval. calm_tac. Qed.
#[global] Instance calm_jmp_patchins (pc dest : Z) : Calm (St:=St) (jmp_patchins pc dest).
Proof. unfold jmp_patchins. calm_tac. Qed.
#[global] Instance calm_jmp_last (n : nat) (list : Z) : Calm (St:=St) (jmp_last n list).
Proof. revert list. induction n; cbn [jmp_last]; calm_tac. Qed.
#[global] Instance calm_jmp_append (l1 l2 : Z) : Calm (St:=St) (jmp_append l1 l2).
Proof. unfold jmp_append. calm_tac. Qed.
#[global] Instance calm_jmp_patchval_loop (n : nat) (list vtarget reg dtarget : Z) : Calm (St:=St) (jmp_patchval_loop n list vtarget reg dtarget).
Proof. revert list vtarget reg dtarget. induction n; cbn [jmp_patchval_loop]; calm_tac. Qed.
#[global] Instance calm_jmp_patchval (list vtarget reg dtarget : Z) : Calm (St:=St) (jmp_patchval list vtarget reg dtarget).
Proof. unfold jmp_patchval. calm_tac. Qed.
#[global] Instance calm_jmp_tohere (list : Z) : Calm (St:=St) (jmp_tohere list).
Proof. unfold jmp_tohere. calm_tac. Qed.
#[global] Instance calm_jmp_patch (list target : Z) : Calm (St:=St) (jmp_patch list target).
Proof. unfold jmp_patch. calm_tac. Qed.
#[global] Instance calm_bcreg_bump (n : Z) : Calm (St:=St) (bcreg_bump n).
Proof. unfold bcreg_bump. calm_tac. Qed.
#[global] Instance calm_set_freereg (r : Z) : Calm (St:=St) (set_freereg r).
Proof. unfold set_freereg. calm_tac. Qed.
#[global] Instance calm_bcreg_reserve (n : Z) : Calm (St:=St) (bcreg_reserve n).
Proof. unfold bcreg_reserve. calm_tac. Qed.
#[global] Instance calm_drop_regs (n : Z) : Calm (St:=St) (drop_regs n).
Proof. unfold drop_regs. calm_tac. Qed.
#[global] Instance calm_bcreg_free (reg : Z) : Calm (St:=St) (bcreg_free reg).
Proof. unfold bcreg_free. calm_tac. Qed.
#[global] Instance calm_expr_free (e : ExpDesc) : Calm (St:=St) (expr_free e).
Proof. unfold expr_free. calm_tac. Qed.
#[global] Instance calm_last_reg : Calm (St:=St) (last_reg).
Proof. unfold last_reg. calm_tac. Qed.
#[global] Instance calm_bcemit (i : Z) : Calm (St:=St) (bcemit i).
Proof. unfold bcemit. calm_tac. Qed.
#[global] Instance calm_bcemit_abc (o : BCOp.t) (a b c : Z) : Calm (St:=St) (bcemit_abc o a b c).
Proof. unfold bcemit_abc. calm_tac. Qed.
#[global] Instance calm_bcemit_ad (o : BCOp.t) (a d : Z) : Calm (St:=St) (bcemit_ad o a d).
Proof. unfold bcemit_ad. calm_tac. Qed.
#[global] Instance calm_bcemit_aj (o : BCOp.t) (a j : Z) : Calm (St:=St) (bcemit_aj o a j).
Proof. unfold bcemit_aj. calm_tac. Qed.
#[global] Instance calm_line_of (pc : Z) : Calm (St:=St) (line_of pc).
Proof. unfold line_of. calm_tac. Qed.

(** ** Expressions *)

#[global] Instance calm_const_pri (e : ExpDesc) : Calm (St:=St) (const_pri e).
Proof. unfold const_pri. calm_tac. Qed.
#[global] Instance calm_expr_discharge (e : ExpDesc) : Calm (St:=St) (expr_discharge e).
Proof. unfold expr_discharge. calm_tac. Qed.
#[global] Instance calm_emit_nil (from n : Z) : Calm (St:=St) (emit_nil from n).
Proof. unfold emit_nil. calm_tac. Qed.
#[global] Instance calm_bcemit_nil (from n : Z) : Calm (St:=St) (bcemit_nil from n).
Proof. unfold bcemit_nil. calm_tac. Qed.
#[global] Instance calm_expr_toreg_nobranch (e : ExpDesc) (reg : Z) : Calm (St:=St) (expr_toreg_nobranch e reg).
Proof. unfold expr_toreg_nobranch. calm_tac. Qed.
#[global] Instance calm_bcemit_jmp : Calm (St:=St) (bcemit_jmp).
Proof. unfold bcemit_jmp. calm_tac. Qed.
#[global] Instance calm_expr_toreg (e : ExpDesc) (reg : Z) : Calm (St:=St) (expr_toreg e reg).
Proof. unfold expr_toreg. calm_tac. Qed.
#[global] Instance calm_expr_tonextreg (e : ExpDesc) : Calm (St:=St) (expr_tonextreg e).
Proof. unfold expr_tonextreg. calm_tac. Qed.
#[global] Instance calm_expr_toanyreg (e : ExpDesc) : Calm (St:=St) (expr_toanyreg e).
Proof. unfold expr_toanyreg. calm_tac. Qed.
#[global] Instance calm_expr_toval (e : ExpDesc) : Calm (St:=St) (expr_toval e).
Proof. unfold expr_toval. calm_tac. Qed.
#[global] Instance calm_vstack_upd (i : Z) (f : VarInfo.t -> VarInfo.t) : Calm (St:=St) (vstack_upd i f).
Proof. unfold vstack_upd. calm_tac. Qed.
#[global] Instance calm_mark_rw (i : Z) : Calm (St:=St) (mark_rw i).
Proof. unfold mark_rw. calm_tac. Qed.
#[global] Instance calm_bcemit_store (var e : ExpDesc) : Calm (St:=St) (bcemit_store var e).
Proof. unfold bcemit_store. calm_tac. Qed.
#[global] Instance calm_bcemit_method (e key : ExpDesc) : Calm (St:=St) (bcemit_method e key).
Proof. unfold bcemit_method. calm_tac. Qed.
#[global] Instance calm_invertcond (e : ExpDesc) : Calm (St:=St) (invertcond e).
Proof. unfold invertcond. calm_tac. Qed.
#[global] Instance calm_bcemit_branch (e : ExpDesc) (cond : bool) : Calm (St:=St) (bcemit_branch e cond).
Proof. unfold bcemit_branch. calm_tac. Qed.
#[global] Instance calm_bcemit_branch_t (e : ExpDesc) : Calm (St:=St) (bcemit_branch_t e).
Proof. unfold bcemit_branch_t. calm_tac. Qed.
#[global] Instance calm_bcemit_branch_f (e : ExpDesc) : Calm (St:=St) (bcemit_branch_f e).
Proof. unfold bcemit_branch_f. calm_tac. Qed.
#[global] Instance calm_foldarith (opr : BinOp.t) (e1 e2 : ExpDesc) : Calm (St:=St) (foldarith opr e1 e2).
Proof. unfold foldarith. calm_tac. Qed.
#[global] Instance calm_foldbitop (opr : BinOp.t) (e1 e2 : ExpDesc) : Calm (St:=St) (foldbitop opr e1 e2).
Proof. unfold foldbitop. calm_tac. Qed.
#[global] Instance calm_drop_temp (e : ExpDesc) : Calm (St:=St) (drop_temp e).
Proof. unfold drop_temp. calm_tac. Qed.
#[global] Instance calm_arith_operands (opr : BinOp.t) (e1 e2 : ExpDesc) : Calm (St:=St) (arith_operands opr e1 e2).
Proof. unfold arith_operands. calm_tac. Qed.
#[global] Instance calm_bcemit_arith (opr : BinOp.t) (e1 e2 : ExpDesc) : Calm (St:=St) (bcemit_arith opr e1 e2).
Proof. unfold bcemit_arith. calm_tac. Qed.
#[global] Instance calm_comp_eq (opr : BinOp.t) (e1 e2 : ExpDesc) : Calm (St:=St) (comp_eq opr e1 e2).
Proof. unfold comp_eq. calm_tac. Qed.
#[global] Instance calm_comp_lt (opr : BinOp.t) (e1 e2 : ExpDesc) : Calm (St:=St) (comp_lt opr e1 e2).
Proof. unfold comp_lt. calm_tac. Qed.
#[global] Instance calm_bcemit_comp (opr : BinOp.t) (e1 e2 : ExpDesc) : Calm (St:=St) (bcemit_comp opr e1 e2).
Proof. unfold bcemit_comp. calm_tac. Qed.
#[global] Instance calm_bcemit_binop_left (op : BinOp.t) (e : ExpDesc) : Calm (St:=St) (bcemit_binop_left op e).
Proof. unfold bcemit_binop_left. calm_tac. Qed.
#[global] Instance calm_bcemit_concat (e1 e2 : ExpDesc) : Calm (St:=St) (bcemit_concat e1 e2).
Proof. unfold bcemit_concat. calm_tac. Qed.
#[global] Instance calm_flag_bitop : Calm (St:=St) (flag_bitop).
Proof. unfold flag_bitop. calm_tac. Qed.
#[global] Instance calm_bcemit_binop (op : BinOp.t) (e1 e2 : ExpDesc) : Calm (St:=St) (bcemit_binop op e1 e2).
Proof. unfold bcemit_binop. calm_tac. Qed.
#[global] Instance calm_emit_unop (op : BCOp.t) (e : ExpDesc) : Calm (St:=St) (emit_unop op e).
Proof. unfold emit_unop. calm_tac. Qed.
#[global] Instance calm_bcemit_not (e : ExpDesc) : Calm (St:=St) (bcemit_not e).
Proof. unfold bcemit_not. calm_tac. Qed.
#[global] Instance calm_bcemit_unop (op : BCOp.t) (e : ExpDesc) : Calm (St:=St) (bcemit_unop op e).
Proof. unfold bcemit_unop. calm_tac. Qed.

(** ** Variables, labels and scopes *)

#[global] Instance calm_var_at (i : Z) : Calm (St:=St) (var_at i).
Proof. unfold var_at. calm_tac. Qed.
#[global] Instance calm_vhash_at (h : Z) : Calm (St:=St) (vhash_at h).
Proof. unfold vhash_at. calm_tac. Qed.
#[global] Instance calm_set_vhash_at (h v : Z) : Calm (St:=St) (set_vhash_at h v).
Proof. unfold set_vhash_at. calm_tac. Qed.
#[global] Instance calm_vtop : Calm (St:=St) (vtop).
Proof. unfold vtop. calm_tac. Qed.
#[global] Instance calm_lossy_name (sid : Z) : Calm (St:=St) (lossy_name sid).
Proof. unfold lossy_name. calm_tac. Qed.
#[global] Instance calm_redeclare_loop (n : nat) (sid vidx : Z) : Calm (St:=St) (redeclare_loop n sid vidx).
Proof. revert sid vidx. induction n; cbn [redeclare_loop]; calm_tac. Qed.
#[global] Instance calm_vstack_push (v : VarInfo.t) : Calm (St:=St) (vstack_push v).
Proof. unfold vstack_push. calm_tac. Qed.
#[global] Instance calm_varmap_at (i : Z) : Calm (St:=St) (varmap_at i).
Proof. unfold varmap_at. calm_tac. Qed.
#[global] Instance calm_var_new (n : Z) (name : VName.t) : Calm (St:=St) (var_new n name).
Proof. unfold var_new. calm_tac. Qed.
#[global] Instance calm_link_var (vidx : Z) : Calm (St:=St) (link_var vidx).
Proof. unfold link_var. calm_tac. Qed.
#[global] Instance calm_var_add_loop (n : nat) (nactvar : Z) : Calm (St:=St) (var_add_loop n nactvar).
Proof. revert nactvar. induction n; cbn [var_add_loop]; calm_tac. Qed.
#[global] Instance calm_var_add (nvars : Z) : Calm (St:=St) (var_add nvars).
Proof. unfold var_add. calm_tac. Qed.
#[global] Instance calm_var_remove_loop (n : nat) : Calm (St:=St) (var_remove_loop n).
Proof. induction n; cbn [var_remove_loop]; calm_tac. Qed.
#[global] Instance calm_var_remove (tolevel : Z) : Calm (St:=St) (var_remove tolevel).
Proof. unfold var_remove. calm_tac. Qed.
#[global] Instance calm_fs_at (d : nat) : Calm (St:=St) (fs_at d).
Proof. unfold fs_at. calm_tac. Qed.
#[global] Instance calm_fs_upd (d : nat) (f : FuncState.t -> FuncState.t) : Calm (St:=St) (fs_upd d f).
Proof. unfold fs_upd. calm_tac. Qed.
#[global] Instance calm_fscope_uvmark (d : nat) (level : Z) : Calm (St:=St) (fscope_uvmark d level).
Proof. unfold fscope_uvmark. calm_tac. Qed.
#[global] Instance calm_upvalue_limit (d : nat) : Calm (St:=St) (upvalue_limit d).
Proof. unfold upvalue_limit. calm_tac. Qed.
#[global] Instance calm_capture (n : nat) (d : nat) (vidx slot : Z) : Calm (St:=St) (capture n d vidx slot).
Proof. revert d vidx slot. induction n; cbn [capture]; calm_tac. Qed.
#[global] Instance calm_var_resolve (vidx slot : Z) : Calm (St:=St) (var_resolve vidx slot).
Proof. unfold var_resolve. calm_tac. Qed.
#[global] Instance calm_lookup_loop (n : nat) (name vidx : Z) : Calm (St:=St) (lookup_loop n name vidx).
Proof. revert name vidx. induction n; cbn [lookup_loop]; calm_tac. Qed.
#[global] Instance calm_var_lookup (name : Z) : Calm (St:=St) (var_lookup name).
Proof. unfold var_lookup. calm_tac. Qed.
#[global] Instance calm_var_assign_check (e : ExpDesc) : Calm (St:=St) (var_assign_check e).
Proof. unfold var_assign_check. calm_tac. Qed.
#[global] Instance calm_gola_new (name : VName.t) (info pc : Z) : Calm (St:=St) (gola_new name info pc).
Proof. unfold gola_new. calm_tac. Qed.
#[global] Instance calm_gola_isgoto (v : Z) : Calm (St:=St) (gola_isgoto v).
Proof. unfold gola_isgoto. calm_tac. Qed.
#[global] Instance calm_gola_islabel (v : Z) : Calm (St:=St) (gola_islabel v).
Proof. unfold gola_islabel. calm_tac. Qed.
#[global] Instance calm_gola_patch (vg vl : Z) : Calm (St:=St) (gola_patch vg vl).
Proof. unfold gola_patch. calm_tac. Qed.
#[global] Instance calm_gola_close (vg : Z) : Calm (St:=St) (gola_close vg).
Proof. unfold gola_close. calm_tac. Qed.
#[global] Instance calm_gola_text (name : VName.t) : Calm (St:=St) (gola_text name).
Proof. unfold gola_text. calm_tac. Qed.
#[global] Instance calm_jumps_into (g : VarInfo.t) : Calm (St:=St) (jumps_into g).
Proof. unfold jumps_into. calm_tac. Qed.
#[global] Instance calm_gola_resolve_loop (n : nat) (vg idx : Z) : Calm (St:=St) (gola_resolve_loop n vg idx).
Proof. revert vg idx. induction n; cbn [gola_resolve_loop]; calm_tac. Qed.
#[global] Instance calm_gola_resolve (vstart idx : Z) : Calm (St:=St) (gola_resolve vstart idx).
Proof. unfold gola_resolve. calm_tac. Qed.
#[global] Instance calm_fixup_label (n : nat) (name : VName.t) (flags v vg : Z) : Calm (St:=St) (fixup_label n name flags v vg).
Proof. revert name flags v vg. induction n; cbn [fixup_label]; calm_tac. Qed.
#[global] Instance calm_scope_upd (f : FuncScope.t -> FuncScope.t) : Calm (St:=St) (scope_upd f).
Proof. unfold scope_upd. calm_tac. Qed.
#[global] Instance calm_scope : Calm (St:=St) (scope).
Proof. unfold scope. calm_tac. Qed.
#[global] Instance calm_scope_flag (x : Z) : Calm (St:=St) (scope_flag x).
Proof. unfold scope_flag. calm_tac. Qed.
#[global] Instance calm_fixup_goto (v flags nactvar : Z) (has_prev : bool) (name : VName.t) : Calm (St:=St) (fixup_goto v flags nactvar has_prev name).
Proof.
  unfold fixup_goto. destruct has_prev; [calm_tac|]. apply calm_bind; [apply _|intros g].
  apply calm_bind; [apply _|intros l]. apply stops_modify.
  destruct name; try apply stops_error. apply stops_bind; [apply _|intros; apply stops_error].
Qed.
#[global] Instance calm_gola_fixup_loop (n : nat) (v flags nactvar : Z) (has_prev : bool) : Calm (St:=St) (gola_fixup_loop n v flags nactvar has_prev).
Proof. revert v flags nactvar has_prev. induction n; cbn [gola_fixup_loop]; calm_tac. Qed.
#[global] Instance calm_gola_fixup (vstart flags nactvar : Z) (has_prev : bool) : Calm (St:=St) (gola_fixup vstart flags nactvar has_prev).
Proof. unfold gola_fixup. calm_tac. Qed.
#[global] Instance calm_gola_findlabel (name : VName.t) : Calm (St:=St) (gola_findlabel name).
Proof. unfold gola_findlabel. calm_tac. Qed.
#[global] Instance calm_fscope_begin (flags : Z) : Calm (St:=St) (fscope_begin flags).
Proof. unfold fscope_begin. calm_tac. Qed.
#[global] Instance calm_truncate (n : Z) : Calm (St:=St) (truncate n).
Proof. unfold truncate. calm_tac. Qed.
#[global] Instance calm_resolve_label (name : VName.t) (pc vstart : Z) : Calm (St:=St) (resolve_label name pc vstart).
Proof. unfold resolve_label. calm_tac. Qed.
#[global] Instance calm_fscope_end : Calm (St:=St) (fscope_end).
Proof. unfold fscope_end. calm_tac. Qed.
#[global] Instance calm_fscope_continue (cont : Z) : Calm (St:=St) (fscope_continue cont).
Proof. unfold fscope_continue. calm_tac. Qed.
#[global] Instance calm_first_scope_upd (f : FuncScope.t -> FuncScope.t) : Calm (St:=St) (first_scope_upd f).
Proof. unfold first_scope_upd. calm_tac. Qed.
#[global] Instance calm_fixup_returns (n : nat) (pc : Z) : Calm (St:=St) (fixup_returns n pc).
Proof. revert pc. induction n; cbn [fixup_returns]; calm_tac. Qed.
#[global] Instance calm_fs_fixup_ret : Calm (St:=St) (fs_fixup_ret).
Proof. unfold fs_fixup_ret. calm_tac. Qed.
#[global] Instance calm_map_m {A B} (f : A -> M St B) (l : list A) : (forall a, Calm (f a)) -> Calm (map_m f l).
Proof. intros Hf. induction l; cbn [map_m]; calm_tac. Qed.
#[global] Instance calm_resolve_uv (vidx : Z) : Calm (St:=St) (resolve_uv vidx).
Proof. unfold resolve_uv. calm_tac. Qed.
#[global] Instance calm_resolve_child (k : KGc) : Calm (St:=St) (resolve_child k).
Proof. unfold resolve_child. calm_tac. Qed.
#[global] Instance calm_uv_name (vidx : Z) : Calm (St:=St) (uv_name vidx).
Proof. unfold uv_name. calm_tac. Qed.
#[global] Instance calm_var_names (n : Z) (l : list VarInfo.t) : Calm (St:=St) (var_names n l).
Proof. revert n. induction l; cbn [var_names]; calm_tac. Qed.
#[global] Instance calm_checklimitgt_static (v l : Z) (m : list Z) (linedefined : Z) : Calm (St:=St) (checklimitgt_static v l m linedefined).
Proof. unfold checklimitgt_static. calm_tac. Qed.
#[global] Instance calm_code_of (f : FuncState.t) : Calm (St:=St) (code_of f).
Proof. unfold code_of. calm_tac. Qed.
#[global] Instance calm_fs_finish (line : Z) : Calm (St:=St) (fs_finish line).
Proof. unfold fs_finish. calm_tac. Qed.
#[global] Instance calm_fs_init : Calm (St:=St) (fs_init).
Proof. unfold fs_init. calm_tac. Qed.

(** ** Parts of productions *)

#[global] Instance calm_set_flag (x : Z) : Calm (St:=St) (set_flag x).
Proof. unfold set_flag. calm_tac. Qed.
#[global] Instance calm_synlevel_begin : Calm (St:=St) (synlevel_begin).
Proof. unfold synlevel_begin. calm_tac. Qed.
#[global] Instance calm_synlevel_end : Calm (St:=St) (synlevel_end).
Proof. unfold synlevel_end. calm_tac. Qed.
#[global] Instance calm_expr_index (t e : ExpDesc) : Calm (St:=St) (expr_index t e).
Proof. unfold expr_index. calm_tac. Qed.
#[global] Instance calm_expr_kvalue (e : ExpDesc) : Calm (St:=St) (expr_kvalue e).
Proof. unfold expr_kvalue. calm_tac. Qed.
#[global] Instance calm_tab_set (t : LuaTable) (kv v : LuaValue) : Calm (St:=St) (tab_set t kv v).
Proof. unfold tab_set. calm_tac. Qed.
#[global] Instance calm_item_const (pc freg : Z) (key val : ExpDesc) (c : Items) : Calm (St:=St) (item_const pc freg key val c).
Proof. unfold item_const. calm_tac. Qed.
#[global] Instance calm_table_multi (freg narr : Z) : Calm (St:=St) (table_multi freg narr).
Proof. unfold table_multi. calm_tac. Qed.
#[global] Instance calm_table_finish (pc : Z) (c : Items) : Calm (St:=St) (table_finish pc c).
Proof. unfold table_finish. calm_tac. Qed.
#[global] Instance calm_proto_begin (line nparams : Z) : Calm (St:=St) (proto_begin line nparams).
Proof. unfold proto_begin. calm_tac. Qed.
#[global] Instance calm_proto_finish : Calm (St:=St) (proto_finish).
Proof. unfold proto_finish. calm_tac. Qed.
#[global] Instance calm_suffix_follows : Calm (St:=St) (suffix_follows).
Proof. unfold suffix_follows. calm_tac. Qed.
#[global] Instance calm_nav_test (v : ExpDesc) (xpc : Z) : Calm (St:=St) (nav_test v xpc).
Proof. unfold nav_test. calm_tac. Qed.
#[global] Instance calm_nav_ends (nav : bool) (eflags : Z) : Calm (St:=St) (nav_ends nav eflags).
Proof. unfold nav_ends. calm_tac. Qed.
#[global] Instance calm_expr_vararg : Calm (St:=St) (expr_vararg).
Proof. unfold expr_vararg. calm_tac. Qed.
#[global] Instance calm_number_const : Calm (St:=St) (number_const).
Proof. unfold number_const. calm_tac. Qed.
#[global] Instance calm_assign_hazard (lhs : list ExpDesc) (v : ExpDesc) : Calm (St:=St) (assign_hazard lhs v).
Proof. unfold assign_hazard. calm_tac. Qed.
#[global] Instance calm_adjust_nav (e : ExpDesc) (extra : Z) : Calm (St:=St) (adjust_nav e extra).
Proof. unfold adjust_nav. calm_tac. Qed.
#[global] Instance calm_assign_adjust (nvars nexps : Z) (e : ExpDesc) : Calm (St:=St) (assign_adjust nvars nexps e).
Proof. unfold assign_adjust. calm_tac. Qed.
#[global] Instance calm_parse_break : Calm (St:=St) (parse_break).
Proof. unfold parse_break. calm_tac. Qed.
#[global] Instance calm_parse_continue : Calm (St:=St) (parse_continue).
Proof. unfold parse_continue. calm_tac. Qed.
#[global] Instance calm_if_escape (escapelist flist : Z) : Calm (St:=St) (if_escape escapelist flist).
Proof. unfold if_escape. calm_tac. Qed.
End Code.
