(* ===== verification/ParseTerm.v ===== *)
(** * The grammar terminates

    [left] counts what there is still to read.  Every recursive call and every
    round of a loop of the grammar comes after a token was consumed, so the
    fuel of [parse] never runs out. *)

From Stdlib Require Import ZArith Lia Bool String.
From stdpp Require Import base decidable numbers option gmap list.
From S2P Require Import Prelude Float64 Value Strings FloatText PatClass Fold Exec Bytecode Table Dump Lex LexSpec ParseState ParseExpr ParseScope Parse ParseCalm.

Section Term.
Context {St : Type} `{Strings St} `{StrPtrs St} `{Libm}.

Abbreviation M := (M St).
Abbreviation Parser := (Parser St).
Abbreviation Rec := (@Rec St).

(** ** What is left to read *)

Definition ahead (t : Tok.t) : nat := if decide (t = Tok.Eof) then 0 else 1.

Definition unread (l : LexState St) : nat := (ahead (tok l) + 2 * ahead (lookahead l) + 3 * length (chars l))%nat.

(** A well-formed lexer, and room for the strings still to come and [n] more. *)
Definition ready (n : nat) (l : LexState St) : Prop := wf l /\ str_room (2 * unread l + n) (strs l).

Definition left (p : Parser) : nat := unread (ls p).
Definition Inv (n : nat) (p : Parser) : Prop := ready n (ls p).

Lemma room_le m n st : (m <= n)%nat -> str_room n st -> str_room m st.
Proof. induction 1 as [|n _ IH]; [done|]. intros Hr. by apply IH, str_room_S. Qed.

Lemma Inv_le n n' p : (n' <= n)%nat -> Inv n p -> Inv n' p.
Proof. intros Hn [Hw Hr]. split; [done|]. eapply room_le; [|exact Hr]. lia. Qed.

Lemma room_le_ready m n l : (m <= n)%nat -> ready n l -> ready m l.
Proof. intros Hn [Hw Hr]. split; [done|]. eapply room_le; [|exact Hr]. lia. Qed.

Lemma ahead_eof : ahead Tok.Eof = O.
Proof. done. Qed.

Lemma ahead_tok t : t <> Tok.Eof -> ahead t = 1%nat.
Proof. intros. unfold ahead. by rewrite decide_False. Qed.

Lemma ahead_le t : (ahead t <= 1)%nat.
Proof. unfold ahead. destruct (decide _); lia. Qed.

Lemma left_fuel n p : Inv n p -> (left p < loop_fuel p)%nat.
Proof.
  intros [Hw _]. unfold left, unread, loop_fuel, fuel, chars. pose proof (wf_pos _ Hw).
  pose proof (ahead_le (tok (ls p))). pose proof (ahead_le (lookahead (ls p))).
  destruct (_ =? LEX_EOF); cbn [length]; rewrite ?length_drop; lia.
Qed.

(** ** Reading tokens *)

Lemma scan_end (l : LexState St) : Lex.c l = LEX_EOF ->
  exists v l', scan l = Some (inl (Tok.Eof, v, l')) /\ strs l' = strs l /\ chars l' = [] /\ lookahead l' = lookahead l /\
    tok l' = tok l /\ (wf l -> wf l').
Proof.
  destruct l as [src0 pos0 ts0 c0 tok0 tv0 la0 lav0 sb0 ln0 ll0 cn0 st0]. cbn. intros ->.
  eexists _, _. split; [reflexivity|]. split_and!; try done. intros []. by constructor.
Qed.

Lemma shift_ready (l : LexState St) t v w n : wf l -> str_room (2 * (ahead t + 3 * length (chars l)) + n) (strs l) ->
  ready n (set_lookahead (set_tok l t v) Tok.Eof w) /\
  unread (set_lookahead (set_tok l t v) Tok.Eof w) = (ahead t + 3 * length (chars l))%nat.
Proof.
  intros [] Hr. destruct l. unfold ready, unread. cbn -[Nat.mul ahead]. rewrite ahead_eof.
  replace (ahead t + 2 * 0)%nat with (ahead t) by lia. split; [split; [by constructor|exact Hr]|done].
Qed.

Lemma chars_pos (l : LexState St) : chars l <> [] -> (1 <= length (chars l))%nat.
Proof. destruct (chars l); [done|cbn; lia]. Qed.

Lemma scan_room n (l : LexState St) : wf l -> (chars l <> [] -> str_room (S n) (strs l)) ->
  match scan l with
  | Some (inl (t, v, l')) =>
      wf l' /\ lookahead l' = lookahead l /\ tok l' = tok l /\ (chars l = [] -> strs l' = strs l /\ chars l' = [] /\ t = Tok.Eof) /\
      (chars l <> [] -> str_room n (strs l') /\ (length (chars l') < length (chars l))%nat)
  | _ => True
  end.
Proof.
  intros Hw Hr. destruct (decide (chars l = [])) as [E|E].
  - apply chars_nil in E as Hc. destruct (scan_end l Hc) as (v & l' & -> & Es & Ec & El & Et & Hw'). split_and!; auto. done.
  - pose proof (scan_token_post n l Hw (Hr E)) as Hp. destruct (scan l) as [[[[t v] l']|?]|]; [|done|done].
    destruct Hp as ([Hw' _ _ [Hr' _] El _ _ Ett] & H2 & H3 & _). split_and!; try done. intros _. split; [done|].
    destruct (decide (t = Tok.Eof)) as [Et|Et]; [|by apply H3]. rewrite (H2 Et). by apply chars_pos.
Qed.

Lemma set_tok_ready (l : LexState St) t v n : wf l -> str_room (2 * (ahead t + 2 * ahead (lookahead l) + 3 * length (chars l)) + n) (strs l) ->
  ready n (set_tok l t v) /\ unread (set_tok l t v) = (ahead t + 2 * ahead (lookahead l) + 3 * length (chars l))%nat.
Proof. intros [] Hr. destruct l. split; [split; [by constructor|exact Hr]|done]. Qed.

Lemma set_look_ready (l : LexState St) t v n : wf l -> str_room (2 * (ahead (tok l) + 2 * ahead t + 3 * length (chars l)) + n) (strs l) ->
  ready n (set_lookahead l t v) /\ unread (set_lookahead l t v) = (ahead (tok l) + 2 * ahead t + 3 * length (chars l))%nat.
Proof. intros [] Hr. destruct l. split; [split; [by constructor|exact Hr]|done]. Qed.

(** A token consumed leaves room for two more strings. *)
Lemma next_ready n (l l' : LexState St) : ready n l -> next l = Some (inl l') ->
  ready n l' /\ (unread l' <= unread l)%nat /\ (tok l <> Tok.Eof -> ready (n + 2) l' /\ (unread l' < unread l)%nat).
Proof.
  intros [Hw Hr] E. unfold next in E.
  destruct (same_input_lastline l (linenumber l) Hw) as (Hw1 & Et & El & Ec & Es).
  set (l1 := set_lastline l (linenumber l)) in *. rewrite El in E. unfold unread in Hr |- *.
  rewrite <- Ec, <- Es in *. clearbody l1. pose proof (ahead_le (tok l)). destruct (decide (lookahead l = Tok.Eof)) as [Ela|Ela].
  - rewrite Ela, ahead_eof in *.
    pose proof (scan_room (pred (2 * (ahead (tok l) + 2 * 0 + 3 * length (chars l1)) + n)) l1 Hw1) as Hs.
    destruct (scan l1) as [[[[t v] l2]|?]|]; [|done|done]. injection E as <-.
    destruct Hs as (Hw2 & El2 & Ht2 & Hend & Hmore); [intros Hne%chars_pos; eapply room_le; [|exact Hr]; lia|].
    rewrite El in El2. pose proof (ahead_le t).
    destruct (decide (chars l1 = [])) as [E0|E0].
    + destruct (Hend E0) as (E2 & E3 & ->). rewrite E0 in *. cbn [length] in *.
      destruct (set_tok_ready l2 Tok.Eof v (2 * ahead (tok l) + n)) as [Hx Hy]; [done| |].
      { rewrite El2, E2, E3. eapply room_le; [|exact Hr]. rewrite ahead_eof. cbn. lia. }
      rewrite El2, E3, ahead_eof in Hy. cbn [length] in Hy. unfold unread in Hy. rewrite Hy.
      split; [eapply room_le_ready; [|exact Hx]; lia|]. split; [lia|]. intros Ht. rewrite (ahead_tok _ Ht) in *.
      split; [eapply room_le_ready; [|exact Hx]; lia|lia].
    + destruct (Hmore E0) as (E2 & E3). apply chars_pos in E0.
      destruct (set_tok_ready l2 t v (n + 2 * ahead (tok l))) as [Hx Hy]; [done| |].
      { rewrite El2, ahead_eof. eapply room_le; [|exact E2]. lia. }
      rewrite El2, ahead_eof in Hy. unfold unread in Hy. rewrite Hy.
      split; [eapply room_le_ready; [|exact Hx]; lia|]. split; [lia|]. intros Ht. rewrite (ahead_tok _ Ht) in *.
      split; [eapply room_le_ready; [|exact Hx]; lia|lia].
  - injection E as <-. rewrite (ahead_tok _ Ela) in *.
    destruct (shift_ready l1 (lookahead l1) (lookaheadval l1) (lookaheadval l1) (n + 2) Hw1) as [Hx Hy].
    { rewrite El, (ahead_tok _ Ela). eapply room_le; [|exact Hr]. lia. }
    rewrite El in Hx, Hy. rewrite (ahead_tok _ Ela) in Hy.
    unfold unread in Hy. rewrite Hy. split; [eapply room_le_ready; [|exact Hx]; lia|]. split; [lia|]. intros Ht. split; [done|lia].
Qed.
Lemma peek_ready n (l : LexState St) t l' : ready n l -> peek l = Some (inl (t, l')) ->
  ready n l' /\ (unread l' <= unread l)%nat /\ tok l' = tok l.
Proof.
  intros [Hw Hr] E. unfold peek in E. destruct (decide (lookahead l = Tok.Eof)) as [Ela|]; [|done].
  unfold unread in Hr |- *. rewrite Ela, ahead_eof in *.
  pose proof (scan_room (pred (2 * (ahead (tok l) + 2 * 0 + 3 * length (chars l)) + n)) l Hw) as Hs.
  destruct (scan l) as [[[[u v] l2]|?]|]; [|done|done]. injection E as -> <-.
  destruct Hs as (Hw2 & El2 & Ht2 & Hend & Hmore); [intros Hne%chars_pos; eapply room_le; [|exact Hr]; lia|].
  pose proof (ahead_le t) as Hle.
  destruct (set_look_ready l2 t v n) as [Hx Hy]; [done| |].
  - rewrite Ht2. destruct (decide (chars l = [])) as [E0|E0].
    + destruct (Hend E0) as (-> & -> & ->). rewrite E0 in *. exact Hr.
    + destruct (Hmore E0) as [E2 E3]. eapply room_le; [|exact E2]. lia.
  - unfold unread in Hy. rewrite Hy, Ht2. split; [done|]. split; [|by destruct l2].
    destruct (decide (chars l = [])) as [E0|E0]; [destruct (Hend E0) as (_ & -> & ->); rewrite ahead_eof; cbn [length]; lia|].
    destruct (Hmore E0) as [E2 E3]. lia.
Qed.
(** ** Weakest preconditions

    Panics, errors and cyclic lists end a computation as well. *)

Definition wp {A} (m : M A) (p : Parser) (Q : A -> Parser -> Prop) : Prop :=
  match m p with Ran (a, p') => Q a p' | OutOfFuel => False | _ => True end.

Lemma wp_ret {A} (a : A) p Q : Q a p -> wp (ret a) p Q.
Proof. done. Qed.

Lemma wp_bind {A B} (m : M A) (f : A -> M B) p Q : wp m p (fun a p' => wp (f a) p' Q) -> wp (bind m f) p Q.
Proof. unfold wp, bind. by destruct (m p) as [[a p']|?| | |]. Qed.

Lemma wp_mono {A} (m : M A) p (P Q : A -> Parser -> Prop) : wp m p P -> (forall a p', P a p' -> Q a p') -> wp m p Q.
Proof. unfold wp. destruct (m p) as [[a p']|?| | |]; auto. Qed.

Lemma wp_gets {A} (f : Parser -> A) p Q : Q (f p) p -> wp (gets f) p Q.
Proof. done. Qed.

Lemma wp_calm {A} (m : M A) n p Q : Calm m -> Inv n p ->
  (forall a p', Inv n p' -> left p' = left p -> tok (ls p') = tok (ls p) -> Q a p') -> wp m p Q.
Proof.
  intros Hm [Hw Hr] HQ. unfold wp. specialize (Hm p). destruct (m p) as [[a p']|?| | |]; try done.
  destruct (Hm Hw) as (Hw' & Et & El & Ec & Es).
  assert (left p' = left p) as E by (unfold left, unread; by rewrite Et, El, Ec).
  apply HQ; [|done|done]. split; [done|]. unfold left in E. by rewrite E, Es.
Qed.

Lemma wp_stops {A} (m : M A) p Q : stops m -> wp m p Q.
Proof. intros Hm. unfold wp. specialize (Hm p). by destruct (m p) as [[a p']|?| | |]. Qed.

(** A token read where there is one. *)
Lemma wp_next n p Q : Inv n p -> tok (ls p) <> Tok.Eof ->
  (forall p', Inv (n + 2) p' -> (left p' < left p)%nat -> Q tt p') -> wp ls_next p Q.
Proof.
  intros Hi Ht HQ. unfold wp, ls_next, bind, gets, from_lex, modify. destruct (next (ls p)) as [[l|?]|] eqn:E; try done.
  destruct (next_ready n _ _ Hi E) as (_ & _ & Hl). destruct (Hl Ht) as [H2 H3].
  apply HQ; unfold Inv, left; by destruct p.
Qed.

(** Any token. *)
Lemma wp_next_any n p Q : Inv n p -> (forall p', Inv n p' -> (left p' <= left p)%nat -> Q tt p') -> wp ls_next p Q.
Proof.
  intros Hi HQ. unfold wp, ls_next, bind, gets, from_lex, modify. destruct (next (ls p)) as [[l|?]|] eqn:E; try done.
  destruct (next_ready n _ _ Hi E) as (H2 & H3 & _). apply HQ; unfold Inv, left; by destruct p.
Qed.

Lemma wp_peek n p Q : Inv n p ->
  (forall t p', Inv n p' -> (left p' <= left p)%nat -> tok (ls p') = tok (ls p) -> Q t p') -> wp ls_peek p Q.
Proof.
  intros Hi HQ. unfold wp, ls_peek, bind, gets, from_lex, modify, ret. destruct (peek (ls p)) as [[[t l]|?]|] eqn:E; try done.
  destruct (peek_ready n _ _ _ Hi E) as (H2 & H3 & H4). cbn. apply HQ; unfold Inv, left; by destruct p.
Qed.

(** An interned string takes one unit of room. *)
Lemma wp_intern n b p Q : Inv (S n) p ->
  (forall sid p', Inv n p' -> left p' = left p -> tok (ls p') = tok (ls p) -> Q sid p') -> wp (strs_intern b) p Q.
Proof.
  intros [Hw Hr] HQ. rewrite Nat.add_succ_r in Hr. destruct (str_intern_ok _ _ b Hr) as (st' & id & E & Hr' & _).
  unfold wp, strs_intern, bind, gets, lift, modify. rewrite E. unfold ret. apply HQ; destruct p as [l0 vs bs vh lv f2 fs0 cs db];
    cbn in *; [|by destruct l0|by destruct l0]. destruct Hw, l0. split; [by constructor|]. exact Hr'.
Qed.

(** A loop has a round for each token that is left. *)
Lemma wp_while {A} (body : nat -> M A) n p Q : Inv n p -> (forall f, (left p < f)%nat -> wp (body f) p Q) -> wp (while body) p Q.
Proof. intros Hi Hb. unfold while. apply wp_bind, wp_gets, Hb. by eapply left_fuel. Qed.

(** ** Optional and expected tokens *)

(** [k] units were read. *)
Definition moved {A} (n k : nat) (p : Parser) : A -> Parser -> Prop := fun _ p' => Inv n p' /\ (left p' + k <= left p)%nat.

Lemma wp_opt t n p Q : t <> Tok.Eof -> Inv n p ->
  (forall p', Inv (n + 2) p' -> (left p' < left p)%nat -> tok (ls p) = t -> Q true p') -> (tok (ls p) <> t -> Q false p) ->
  wp (lex_opt t) p Q.
Proof.
  intros Ht Hi HT HF. unfold lex_opt. apply wp_bind. unfold is_tok, ls_tok. apply wp_bind, wp_gets, wp_ret.
  case_bool_decide as E; [|by apply wp_ret, HF]. apply wp_bind, (wp_next n); [done|congruence|]. intros p' Hi' Hl. by apply wp_ret, HT.
Qed.

Lemma wp_check t n p Q : t <> Tok.Eof -> Inv n p ->
  (forall p', Inv (n + 2) p' -> (left p' < left p)%nat -> Q tt p') -> wp (lex_check t) p Q.
Proof.
  intros Ht Hi HQ. unfold lex_check. apply wp_bind. unfold is_tok, ls_tok. apply wp_bind, wp_gets, wp_ret, wp_bind.
  case_bool_decide as E; cbn [negb]; [apply wp_ret, (wp_next n); [done|congruence|done]|].
  by apply wp_stops, stops_err_near.
Qed.
Lemma wp_match what who line n p Q : what <> Tok.Eof -> Inv n p ->
  (forall p', Inv (n + 2) p' -> (left p' < left p)%nat -> tok (ls p) = what -> Q tt p') -> wp (lex_match what who line) p Q.
Proof.
  intros Ht Hi HQ. unfold lex_match. apply wp_bind, (wp_opt _ n); [done|done|by intros; apply wp_ret, HQ|].
  intros _. apply wp_bind, wp_gets. destruct (line =? _); by apply wp_stops, stops_err_near.
Qed.

Lemma isname_ne t : lex_isname t = true -> t <> Tok.Eof.
Proof. by destruct t. Qed.

Lemma wp_str n p Q : Inv n p -> (forall s p', Inv (n + 2) p' -> (left p' < left p)%nat -> Q s p') -> wp lex_str p Q.
Proof.
  intros Hi HQ. unfold lex_str. apply wp_bind, wp_gets, wp_bind. destruct (lex_isname _) eqn:E; cbn [negb].
  - apply wp_ret, wp_bind, wp_gets, wp_bind, (wp_next n); [done|by apply isname_ne|]. intros p' H2 H3. by apply wp_ret, HQ.
  - by apply wp_stops, stops_err_near.
Qed.

Lemma wp_new_lit n i b p Q : Inv (S n) p ->
  (forall a p', Inv n p' -> left p' = left p -> tok (ls p') = tok (ls p) -> Q a p') -> wp (var_new_lit i b) p Q.
Proof.
  intros Hi HQ. unfold var_new_lit. apply wp_bind, (wp_intern n); [done|]. intros sid p1 H2 H3 H4.
  eapply wp_calm; [apply _|exact H2|]. intros. apply HQ; congruence.
Qed.

(** An operand and the operator behind it, if there is one. *)
Definition operand (n k : nat) (p : Parser) : ExpDesc * BinOp.t -> Parser -> Prop := fun a p' =>
  moved n k p a p' /\ (snd a <> BinOp.NoBinOp -> tok (ls p') <> Tok.Eof).

(** ** Recursive calls *)

(** The calls end on states with less than [k] to read. *)
Record good (k : nat) (r : Rec) : Prop := {
  good_expr : forall ef n p, Inv n p -> (left p < k)%nat -> wp (r_expr r ef) p (moved n 0 p);
  good_binop : forall l ef n p, Inv n p -> (left p < k)%nat -> wp (r_binop r l ef) p (operand n 0 p);
  good_chunk : forall n p, Inv n p -> (left p < k)%nat -> wp (r_chunk r) p (moved n 0 p);
  good_label : forall n p, Inv n p -> (left p < k)%nat -> tok (ls p) <> Tok.Eof -> wp (r_label r) p (moved n 1 p);
  good_assign : forall lhs nv n p, Inv n p -> (left p < k)%nat -> wp (r_assign r lhs nv) p (moved n 0 p);
}.
End Term.

Create HintDb wp.
#[export] Hint Resolve good_expr good_binop good_chunk good_label good_assign : wp.

Ltac tok_ne :=
  repeat match goal with H : lex_isname _ = true |- _ => apply isname_ne in H end;
  first [discriminate | assumption | congruence | unfold chr in *; congruence].

(** What the call of a production promises. *)
Ltac wp_post :=
  let Hm := fresh in intros ? ? Hm;
  lazymatch type of Hm with
  | operand _ _ _ _ _ => destruct Hm as [[? ?] ?]
  | moved _ _ _ _ _ => destruct Hm as [? ?]
  end.

(** Step through a production: tokens, calls of emitters, and calls of other
    productions by the lemmas in [wp]. *)
Ltac wp_step :=
  lazymatch goal with
  | |- wp (bind _ _) _ _ => apply wp_bind
  | |- wp (ret _) _ _ => apply wp_ret
  | |- wp (gets _) _ _ => apply wp_gets
  | |- wp ls_tok _ _ => apply wp_gets
  | |- wp (modify _) _ _ =>
      eapply wp_calm; [apply calm_modify; intros []; first [apply same_input_refl | apply same_input_lastline]|eassumption|intros ? ? ? ? ?]
  | |- wp (is_tok _) _ _ => unfold is_tok, ls_tok
  | |- wp ls_next _ _ =>
      first [eapply wp_next; [eassumption|tok_ne|intros ? ? ?] | eapply wp_next_any; [eassumption|intros ? ? ?]]
  | |- wp ls_peek _ _ => eapply wp_peek; [eassumption|intros ? ? ? ? ?]
  | |- wp (lex_opt _) _ _ => eapply wp_opt; [discriminate|eassumption|intros ? ? ? ?|intros ?]
  | |- wp (lex_check _) _ _ => eapply wp_check; [first [discriminate|assumption]|eassumption|intros ? ? ?]
  | |- wp (lex_match _ _ _) _ _ => eapply wp_match; [discriminate|eassumption|intros ? ? ? ?]
  | H : Inv (?m + 2) ?p |- wp (var_new_lit _ _) ?p _ =>
      apply (wp_new_lit (m + 1)); [eapply Inv_le; [|exact H]; lia|intros ? ? ? ? ?]
  | H : Inv (?m + 2) ?p |- wp (strs_intern _) ?p _ => 
      apply (wp_intern (m + 1)); [eapply Inv_le; [|exact H]; lia|intros ? ? ? ? ?]
  | H : Inv (?m + 1) ?p |- wp (strs_intern _) ?p _ => 
      apply (wp_intern m); [eapply Inv_le; [|exact H]; lia|intros ? ? ? ? ?]
  | |- wp lex_str _ _ => eapply wp_str; [eassumption|intros ? ? ? ?]
  | |- wp (while _) _ _ => eapply wp_while; [eassumption|intros ? ?]
  | |- wp (err_syntax _) _ _ => apply wp_stops, stops_err_near
  | |- wp (err_token _) _ _ => apply wp_stops, stops_err_near
  | |- wp (ls_err_near _) _ _ => apply wp_stops, stops_err_near
  | |- wp (ls_error _) _ _ => apply wp_stops, stops_error
  | |- wp (if bool_decide _ then _ else _) _ _ => case_bool_decide
  | |- wp (if negb (bool_decide _) then _ else _) _ _ => case_bool_decide; cbn [negb]
  | |- wp (if ?b then _ else _) _ _ => destruct b eqn:?
  | |- wp (match ?x with _ => _ end) _ _ => destruct x eqn:?
  | |- wp _ _ _ =>
      first [ eapply wp_calm; [apply _|eassumption|intros ? ? ? ? ?]
            | eapply wp_mono; [eauto 2 with wp nocore|wp_post]
            | match goal with IH : context [wp] |- _ =>
                eapply wp_mono; [eapply IH; first [eassumption|lia|tok_ne]|wp_post]
              end ]
  | |- moved _ _ _ _ _ => split; [eapply Inv_le; [|eassumption]|]; lia
  end.
Ltac wp_tac := repeat (wp_step; cbv beta iota).
