(* ===== verification/ParseGrammar.v ===== *)
(** * Every production ends

    Each lemma says how much a production reads before it returns; the
    recursive calls are those of a [Rec] that is [good] below [k]. *)

From Stdlib Require Import ZArith Lia Bool String.
From stdpp Require Import base decidable numbers option gmap list.
From S2P Require Import Prelude Float64 Value Strings FloatText PatClass Fold Exec Bytecode Table Dump Lex LexSpec ParseState ParseExpr ParseScope Parse ParseCalm ParseTerm.

Section Grammar.
Context {St : Type} `{Strings St} `{StrPtrs St} `{Libm}.
Context (k : nat) (r : @Rec St) (Hr : good k r).

Lemma wp_expr ef n p : Inv n p -> (left p < k)%nat -> wp (r_expr r ef) p (moved n 0 p).
Proof. apply (good_expr _ _ Hr). Qed.
Lemma wp_binop l ef n p : Inv n p -> (left p < k)%nat -> wp (r_binop r l ef) p (operand n 0 p).
Proof. apply (good_binop _ _ Hr). Qed.
Lemma wp_chunk n p : Inv n p -> (left p < k)%nat -> wp (r_chunk r) p (moved n 0 p).
Proof. apply (good_chunk _ _ Hr). Qed.
Lemma wp_label n p : Inv n p -> (left p < k)%nat -> tok (ls p) <> Tok.Eof -> wp (r_label r) p (moved n 1 p).
Proof. apply (good_label _ _ Hr). Qed.
Lemma wp_assign lhs nv n p : Inv n p -> (left p < k)%nat -> wp (r_assign r lhs nv) p (moved n 0 p).
Proof. apply (good_assign _ _ Hr). Qed.
#[local] Hint Extern 1 (wp (r_expr _ _) _ _) => (eapply wp_expr; [eassumption|lia]) : wp.
#[local] Hint Extern 1 (wp (r_binop _ _ _) _ _) => (eapply wp_binop; [eassumption|lia]) : wp.
#[local] Hint Extern 1 (wp (r_chunk _) _ _) => (eapply wp_chunk; [eassumption|lia]) : wp.
#[local] Hint Extern 1 (wp (r_label _) _ _) => (eapply wp_label; [eassumption|lia|tok_ne]) : wp.
#[local] Hint Extern 1 (wp (r_assign _ _ _) _ _) => (eapply wp_assign; [eassumption|lia]) : wp.

(** ** Lists of expressions *)

Lemma wp_str_tok n p : Inv n p -> wp expr_str_tok p (moved n 1 p).
Proof. intros. unfold expr_str_tok. wp_tac. Qed.
#[local] Hint Extern 1 (wp expr_str_tok _ _) => (eapply wp_str_tok; eassumption) : wp.

Lemma wp_field v n p : Inv n p -> wp (expr_field v) p (moved n 1 p).
Proof. intros. unfold expr_field. wp_tac. Qed.

Lemma wp_bracket n p : Inv n p -> tok (ls p) <> Tok.Eof -> (left p <= k)%nat -> wp (expr_bracket r) p (moved n 2 p).
Proof. intros. unfold expr_bracket. wp_tac. Qed.

Lemma wp_list_loop f : forall v count n p, Inv n p -> (left p < f)%nat -> (left p <= k)%nat ->
  wp (expr_list_loop r f v count) p (moved n 0 p).
Proof.
  induction f as [|f IH]; intros v count n p Hi Hf Hk; [lia|]. cbn [expr_list_loop]. wp_tac.
Qed.

#[local] Hint Extern 1 (wp (expr_list_loop _ _ _ _) _ _) => (eapply wp_list_loop; [eassumption|lia|lia]) : wp.

Lemma wp_list n p : Inv n p -> (left p < k)%nat -> wp (expr_list r) p (moved n 0 p).
Proof. intros. unfold expr_list. wp_tac. Qed.
#[local] Hint Extern 1 (wp (expr_list _) _ _) => (eapply wp_list; [eassumption|lia]) : wp.
#[local] Hint Extern 1 (wp (expr_field _) _ _) => (eapply wp_field; eassumption) : wp.
#[local] Hint Extern 1 (wp (expr_bracket _) _ _) => (eapply wp_bracket; [eassumption|tok_ne|lia]) : wp.

(** ** Tables *)

Lemma wp_item_key c n p : Inv n p -> (left p <= k)%nat -> wp (item_key r c) p (moved n 0 p).
Proof. intros. unfold item_key. wp_tac. Qed.
#[local] Hint Extern 1 (wp (item_key _ _) _ _) => (eapply wp_item_key; [eassumption|lia]) : wp.

Lemma wp_table_item pc freg c n p : Inv n p -> (left p < k)%nat -> wp (table_item r pc freg c) p (moved n 0 p).
Proof. intros. unfold table_item. wp_tac. Qed.
#[local] Hint Extern 1 (wp (table_item _ _ _ _) _ _) => (eapply wp_table_item; [eassumption|lia]) : wp.

Lemma wp_table_loop f : forall pc freg c n p, Inv n p -> (left p < f)%nat -> (left p < k)%nat -> wp (table_loop r f pc freg c) p (moved n 0 p).
Proof. induction f as [|f IH]; intros; [lia|]. cbn [table_loop]. wp_tac. Qed.
#[local] Hint Extern 1 (wp (table_loop _ _ _ _ _) _ _) => (eapply wp_table_loop; [eassumption|lia|lia]) : wp.

Lemma wp_table n p : Inv n p -> (left p <= k)%nat -> wp (expr_table r) p (moved n 1 p).
Proof. intros. unfold expr_table. wp_tac. Qed.
#[local] Hint Extern 1 (wp (expr_table _) _ _) => (eapply wp_table; [eassumption|lia]) : wp.

(** ** Functions *)

Lemma wp_params_loop f : forall nparams n p, Inv n p -> (left p < f)%nat -> wp (params_loop f nparams) p (moved n 0 p).
Proof. induction f as [|f IH]; intros; [lia|]. cbn [params_loop]. wp_tac. Qed.
#[local] Hint Extern 1 (wp (params_loop _ _) _ _) => (eapply wp_params_loop; [eassumption|lia]) : wp.

Lemma wp_params needself before after n p : Inv n p -> before <> Tok.Eof -> after <> Tok.Eof -> wp (parse_params needself before after) p (moved n 1 p).
Proof. intros. unfold parse_params. wp_tac. Qed.
#[local] Hint Extern 1 (wp (parse_params _ _ _) _ _) => (eapply wp_params; [eassumption|tok_ne..]) : wp.

Lemma wp_body needself line n p : Inv n p -> (left p <= k)%nat -> wp (parse_body r needself line) p (moved n 1 p).
Proof. intros. unfold parse_body. wp_tac. Qed.
#[local] Hint Extern 1 (wp (parse_body _ _ _) _ _) => (eapply wp_body; [eassumption|lia]) : wp.

Lemma wp_return eflags n p : Inv n p -> (left p < k)%nat -> wp (parse_return r eflags) p (moved n 0 p).
Proof. intros. unfold parse_return. wp_tac. Qed.
#[local] Hint Extern 1 (wp (parse_return _ _) _ _) => (eapply wp_return; [eassumption|lia]) : wp.

Lemma wp_shortfunc name eflags line n p : Inv n p -> (left p <= k)%nat -> wp (parse_shortfunc r name eflags line) p (moved n 1 p).
Proof. intros. unfold parse_shortfunc. wp_tac. Qed.
#[local] Hint Extern 1 (wp (parse_shortfunc _ _ _ _) _ _) => (eapply wp_shortfunc; [eassumption|lia]) : wp.

(** ** Calls, fields, primary expressions *)

Lemma wp_call_args n p : Inv n p -> (left p <= k)%nat -> wp (call_args r) p (moved n 1 p).
Proof. intros. unfold call_args. wp_tac. Qed.
#[local] Hint Extern 1 (wp (call_args _) _ _) => (eapply wp_call_args; [eassumption|lia]) : wp.

Lemma wp_args e n p : Inv n p -> (left p <= k)%nat -> wp (parse_args r e) p (moved n 1 p).
Proof. intros. unfold parse_args. wp_tac. Qed.
#[local] Hint Extern 1 (wp (parse_args _ _) _ _) => (eapply wp_args; [eassumption|lia]) : wp.

Lemma wp_direct_call v n p : Inv n p -> (left p <= k)%nat -> wp (direct_call r v) p (moved n 1 p).
Proof. intros. unfold direct_call. wp_tac. Qed.
#[local] Hint Extern 1 (wp (direct_call _ _) _ _) => (eapply wp_direct_call; [eassumption|lia]) : wp.

Lemma wp_nav_loop f : forall ef v xpc n p, Inv n p -> (left p < f)%nat -> (left p <= k)%nat -> wp (nav_loop r f ef v xpc) p (moved n 0 p).
Proof. induction f as [|f IH]; intros; [lia|]. cbn [nav_loop]. wp_tac. Qed.
#[local] Hint Extern 1 (wp (nav_loop _ _ _ _ _) _ _) => (eapply wp_nav_loop; [eassumption|lia|lia]) : wp.

Lemma wp_primary_nav ef n p : Inv n p -> (left p <= k)%nat -> wp (expr_primary_nav r ef) p (moved n 1 p).
Proof. intros. unfold expr_primary_nav. wp_tac. Qed.
#[local] Hint Extern 1 (wp (expr_primary_nav _ _) _ _) => (eapply wp_primary_nav; [eassumption|lia]) : wp.

Lemma wp_primary ef n p : Inv n p -> (left p <= k)%nat -> wp (expr_primary r ef) p (moved n 1 p).
Proof. intros. unfold expr_primary. wp_tac. Qed.
#[local] Hint Extern 1 (wp (expr_primary _ _) _ _) => (eapply wp_primary; [eassumption|lia]) : wp.

Lemma wp_simple ef n p : Inv n p -> (left p <= k)%nat -> wp (expr_simple r ef) p (moved n 1 p).
Proof. intros. unfold expr_simple. wp_tac. Qed.
#[local] Hint Extern 1 (wp (expr_simple _ _) _ _) => (eapply wp_simple; [eassumption|lia]) : wp.

(** ** Operators *)

Lemma unop_ne t op : unop_of t = Some op -> t <> Tok.Eof.
Proof. by destruct t. Qed.

Lemma wp_unop ef n p : Inv n p -> (left p <= k)%nat -> wp (expr_unop r ef) p (moved n 1 p).
Proof.
  intros. unfold expr_unop. apply wp_bind, wp_gets. destruct (unop_of _) as [op|] eqn:E; [|wp_tac].
  apply unop_ne in E. wp_tac.
Qed.
#[local] Hint Extern 1 (wp (expr_unop _ _) _ _) => (eapply wp_unop; [eassumption|lia]) : wp.

Lemma wp_binop_loop f : forall l ef v o n p, Inv n p -> (left p < f)%nat -> (left p <= k)%nat ->
  (o <> BinOp.NoBinOp -> tok (ls p) <> Tok.Eof) -> wp (binop_loop r f l ef v o) p (operand n 0 p).
Proof.
  induction f as [|f IH]; intros l ef v o n p Hi Hf Hk Ho; [lia|]. cbn [binop_loop].
  assert (operand n 0 p (v, o) p) as Hend by (split; [split; [done|lia]|done]).
  case_bool_decide as E; [by apply wp_ret|]. destruct (znth _ _) as [[lp rp]|]; [|by apply wp_ret].
  destruct (l <? lp); [|by apply wp_ret]. specialize (Ho E). repeat (wp_step; cbv beta iota); cbn [snd] in *.
  eapply wp_mono; [eapply IH; [eassumption|lia|lia|]|]; [|intros ? ? [[? ?] ?]; split; [split; [eapply Inv_le; [|eassumption]|]; lia|done]].
  intros Hn. match goal with H : _ -> tok _ <> _, E : tok _ = tok _ |- _ => rewrite E; auto end.
Qed.

Lemma token2binop_ne t : token2binop t <> BinOp.NoBinOp -> t <> Tok.Eof.
Proof. by destruct t. Qed.

Lemma wp_expr_binop l ef n p : Inv n p -> (left p <= k)%nat -> wp (expr_binop r l ef) p (operand n 1 p).
Proof.
  intros. unfold expr_binop. wp_step. wp_step. wp_step. wp_step. do 2 (wp_step; cbv beta). wp_step.
  eapply wp_while; [eassumption|]. intros f Hf.
  eapply wp_mono; [eapply wp_binop_loop; [eassumption|done|lia|apply token2binop_ne]|].
  intros v p2 [[? ?] Ht]. apply wp_bind. eapply wp_calm; [apply _|eassumption|]. intros ? p3 ? ? E.
  apply wp_ret. split; [split; [done|lia]|]. by rewrite E.
Qed.
#[local] Hint Extern 1 (wp (expr_binop _ _ _) _ _) => (eapply wp_expr_binop; [eassumption|lia]) : wp.

Lemma wp_expr_ ef n p : Inv n p -> (left p <= k)%nat -> wp (expr r ef) p (moved n 1 p).
Proof. intros. unfold expr. wp_tac. Qed.
#[local] Hint Extern 1 (wp (expr _ _) _ _) => (eapply wp_expr_; [eassumption|lia]) : wp.

Lemma wp_expr_next n p : Inv n p -> (left p < k)%nat -> wp (expr_next r) p (moved n 0 p).
Proof. intros. unfold expr_next. wp_tac. Qed.
#[local] Hint Extern 1 (wp (expr_next _) _ _) => (eapply wp_expr_next; [eassumption|lia]) : wp.

Lemma wp_cond n p : Inv n p -> (left p < k)%nat -> wp (expr_cond r) p (moved n 0 p).
Proof. intros. unfold expr_cond. wp_tac. Qed.
#[local] Hint Extern 1 (wp (expr_cond _) _ _) => (eapply wp_cond; [eassumption|lia]) : wp.

(** ** Assignments *)

Lemma wp_compound_op opr n p : Inv n p -> tok (ls p) <> Tok.Eof -> wp (compound_op opr) p (moved n 1 p).
Proof. intros. unfold compound_op. wp_tac. Qed.
#[local] Hint Extern 1 (wp (compound_op _) _ _) => (eapply wp_compound_op; [eassumption|tok_ne]) : wp.

Lemma wp_compound e n p : Inv n p -> (left p <= k)%nat -> wp (parse_compound r e) p (moved n 0 p).
Proof.
  intros. unfold parse_compound. destruct (negb (is_var e)); [wp_tac|]. apply wp_bind, wp_gets.
  destruct (_ || _) eqn:E; [wp_tac|].
  assert (tok (ls p) <> Tok.Eof) by (apply token2binop_ne; intros Eo; by rewrite Eo in E). wp_tac.
Qed.
#[local] Hint Extern 1 (wp (parse_compound _ _) _ _) => (eapply wp_compound; [eassumption|lia]) : wp.

Lemma wp_assignment lhs nv n p : Inv n p -> (left p <= k)%nat -> wp (parse_assignment r lhs nv) p (moved n 1 p).
Proof. intros. unfold parse_assignment. wp_tac. Qed.
#[local] Hint Extern 1 (wp (parse_assignment _ _ _) _ _) => (eapply wp_assignment; [eassumption|lia]) : wp.

Lemma wp_call_assign n p : Inv n p -> (left p <= k)%nat -> wp (parse_call_assign r) p (moved n 1 p).
Proof. intros. unfold parse_call_assign. wp_tac. Qed.
#[local] Hint Extern 1 (wp (parse_call_assign _) _ _) => (eapply wp_call_assign; [eassumption|lia]) : wp.

(** ** Declarations *)

Lemma wp_local_function vinfo n p : Inv n p -> (left p <= k)%nat -> wp (local_function r vinfo) p (moved n 1 p).
Proof. intros. unfold local_function. wp_tac. Qed.
#[local] Hint Extern 1 (wp (local_function _ _) _ _) => (eapply wp_local_function; [eassumption|lia]) : wp.

Lemma wp_const_names f : forall vinfo nvars n p, Inv n p -> (left p < f)%nat -> wp (const_names f vinfo nvars) p (moved n 1 p).
Proof. induction f as [|f IH]; intros; [lia|]. cbn [const_names]. wp_tac. Qed.
#[local] Hint Extern 1 (wp (const_names _ _ _) _ _) => (eapply wp_const_names; [eassumption|lia]) : wp.

Lemma wp_local_names f : forall base nvars n p, Inv n p -> (left p < f)%nat -> wp (local_names f base nvars) p (moved n 1 p).
Proof. induction f as [|f IH]; intros; [lia|]. cbn [local_names]. wp_tac. Qed.
#[local] Hint Extern 1 (wp (local_names _ _ _) _ _) => (eapply wp_local_names; [eassumption|lia]) : wp.

Lemma wp_local vinfo n p : Inv n p -> (left p <= k)%nat -> tok (ls p) <> Tok.Eof -> wp (parse_local r vinfo) p (moved n 1 p).
Proof. intros. unfold parse_local. wp_tac. Qed.
#[local] Hint Extern 1 (wp (parse_local _ _) _ _) => (eapply wp_local; [eassumption|lia|tok_ne]) : wp.

Lemma wp_func_name f : forall v n p, Inv n p -> (left p < f)%nat -> wp (func_name f v) p (moved n 0 p).
Proof. induction f as [|f IH]; intros; [lia|]. cbn [func_name]. wp_tac. Qed.
#[local] Hint Extern 1 (wp (func_name _ _) _ _) => (eapply wp_func_name; [eassumption|lia]) : wp.

Lemma wp_func line n p : Inv n p -> (left p <= k)%nat -> tok (ls p) <> Tok.Eof -> wp (parse_func r line) p (moved n 1 p).
Proof. intros. unfold parse_func. wp_tac. Qed.
#[local] Hint Extern 1 (wp (parse_func _ _) _ _) => (eapply wp_func; [eassumption|lia|tok_ne]) : wp.

(** ** Labels and gotos *)

Lemma wp_goto n p : Inv n p -> wp (parse_goto) p (moved n 1 p).
Proof. intros. unfold parse_goto. wp_tac. Qed.
#[local] Hint Extern 1 (wp parse_goto _ _) => (eapply wp_goto; [eassumption]) : wp.

Lemma wp_label_tail f : forall  n p, Inv n p -> (left p < f)%nat -> (left p < k)%nat -> wp (label_tail r f) p (moved n 0 p).
Proof. induction f as [|f IH]; intros; [lia|]. cbn [label_tail]. wp_tac. Qed.
#[local] Hint Extern 1 (wp (label_tail _ _) _ _) => (eapply wp_label_tail; [eassumption|lia|lia]) : wp.

Lemma wp_parse_label n p : Inv n p -> (left p <= k)%nat -> tok (ls p) <> Tok.Eof -> wp (parse_label r) p (moved n 1 p).
Proof. intros. unfold parse_label. wp_tac. Qed.
#[local] Hint Extern 1 (wp (parse_label _) _ _) => (eapply wp_parse_label; [eassumption|lia|tok_ne]) : wp.

(** ** Blocks and loops *)

Lemma wp_block n p : Inv n p -> (left p < k)%nat -> wp (parse_block r) p (moved n 0 p).
Proof. intros. unfold parse_block. wp_tac. Qed.
#[local] Hint Extern 1 (wp (parse_block _) _ _) => (eapply wp_block; [eassumption|lia]) : wp.

Lemma wp_parse_while line n p : Inv n p -> (left p <= k)%nat -> tok (ls p) <> Tok.Eof -> wp (parse_while r line) p (moved n 1 p).
Proof. intros. unfold parse_while. wp_tac. Qed.
#[local] Hint Extern 1 (wp (parse_while _ _) _ _) => (eapply wp_parse_while; [eassumption|lia|tok_ne]) : wp.

Lemma wp_parse_repeat line n p : Inv n p -> (left p <= k)%nat -> tok (ls p) <> Tok.Eof -> wp (parse_repeat r line) p (moved n 1 p).
Proof. intros. unfold parse_repeat. wp_tac. Qed.
#[local] Hint Extern 1 (wp (parse_repeat _ _) _ _) => (eapply wp_parse_repeat; [eassumption|lia|tok_ne]) : wp.

Lemma wp_for_num varname line n p : Inv n p -> (left p <= k)%nat -> wp (parse_for_num r varname line) p (moved n 1 p).
Proof. intros. unfold parse_for_num. wp_tac. Qed.
#[local] Hint Extern 1 (wp (parse_for_num _ _ _) _ _) => (eapply wp_for_num; [eassumption|lia]) : wp.

Lemma wp_for_names f : forall nvars n p, Inv n p -> (left p < f)%nat -> wp (for_names f nvars) p (moved n 0 p).
Proof. induction f as [|f IH]; intros; [lia|]. cbn [for_names]. wp_tac. Qed.
#[local] Hint Extern 1 (wp (for_names _ _) _ _) => (eapply wp_for_names; [eassumption|lia]) : wp.

Lemma wp_const_at m name d p : Inv (m + 1) p -> wp (is_const_at name d) p (moved m 0 p).
Proof. intros. unfold is_const_at. wp_tac. Qed.

(** The names [pairs] and [next] are interned. *)
Lemma wp_predict m pc p : Inv (m + 2) p -> wp (predict_next pc) p (moved m 0 p).
Proof.
  intros. unfold predict_next. do 4 wp_step. destruct a0; wp_tac.
  eapply wp_mono; [apply (wp_const_at (m + 1)); eapply Inv_le; [|eassumption]; lia|wp_post]. wp_tac.
  eapply wp_mono; [apply (wp_const_at m); eassumption|wp_post]. wp_tac.
Qed.
#[local] Hint Extern 1 (wp (predict_next _) _ _) => (eapply wp_predict; eassumption) : wp.

Lemma wp_for_iter name n p : Inv n p -> (left p <= k)%nat -> wp (parse_for_iter r name) p (moved n 1 p).
Proof. intros. unfold parse_for_iter. wp_tac. Qed.
#[local] Hint Extern 1 (wp (parse_for_iter _ _) _ _) => (eapply wp_for_iter; [eassumption|lia]) : wp.

Lemma wp_for line n p : Inv n p -> (left p <= k)%nat -> tok (ls p) <> Tok.Eof -> wp (parse_for r line) p (moved n 1 p).
Proof. intros. unfold parse_for. wp_tac. Qed.
#[local] Hint Extern 1 (wp (parse_for _ _) _ _) => (eapply wp_for; [eassumption|lia|tok_ne]) : wp.

Lemma wp_then n p : Inv n p -> (left p <= k)%nat -> tok (ls p) <> Tok.Eof -> wp (parse_then r) p (moved n 1 p).
Proof. intros. unfold parse_then. wp_tac. Qed.
#[local] Hint Extern 1 (wp (parse_then _) _ _) => (eapply wp_then; [eassumption|lia|tok_ne]) : wp.

Lemma wp_elseif f : forall esc fl n p, Inv n p -> (left p < f)%nat -> (left p <= k)%nat -> wp (elseif_loop r f esc fl) p (moved n 0 p).
Proof. induction f as [|f IH]; intros; [lia|]. cbn [elseif_loop]. wp_tac. Qed.
#[local] Hint Extern 1 (wp (elseif_loop _ _ _ _) _ _) => (eapply wp_elseif; [eassumption|lia|lia]) : wp.

Lemma wp_if line n p : Inv n p -> (left p <= k)%nat -> tok (ls p) <> Tok.Eof -> wp (parse_if r line) p (moved n 1 p).
Proof. intros. unfold parse_if. wp_tac. Qed.
#[local] Hint Extern 1 (wp (parse_if _ _) _ _) => (eapply wp_if; [eassumption|lia|tok_ne]) : wp.

(** ** Statements *)

Lemma wp_stmt n p : Inv n p -> (left p <= k)%nat -> tok (ls p) <> Tok.Eof -> wp (parse_stmt r) p (moved n 1 p).
Proof. intros. unfold parse_stmt. wp_tac. Qed.
#[local] Hint Extern 1 (wp (parse_stmt _) _ _) => (eapply wp_stmt; [eassumption|lia|tok_ne]) : wp.

Lemma wp_chunk_loop f : forall islast n p, Inv n p -> (left p < f)%nat -> (left p <= k)%nat -> wp (chunk_loop r f islast) p (moved n 0 p).
Proof.
  induction f as [|f IH]; intros; [lia|]. cbn [chunk_loop]. apply wp_bind, wp_gets. destruct (_ || _) eqn:E; [wp_tac|].
  assert (tok (ls p) <> Tok.Eof) by (intros Et; rewrite Et, orb_true_r in E; done). wp_tac.
Qed.
#[local] Hint Extern 1 (wp (chunk_loop _ _ _) _ _) => (eapply wp_chunk_loop; [eassumption|lia|lia]) : wp.

Lemma wp_parse_chunk n p : Inv n p -> (left p <= k)%nat -> wp (parse_chunk r) p (moved n 0 p).
Proof. intros. unfold parse_chunk. wp_tac. Qed.
#[local] Hint Extern 1 (wp (parse_chunk _) _ _) => (eapply wp_parse_chunk; [eassumption|lia]) : wp.
End Grammar.

(** ** The whole chunk *)

Section Chunk.
Context {St : Type} `{Strings St} `{StrPtrs St} `{Libm}.

Lemma moved_le {A} n k p (a : A) p' : moved (St:=St) n k p a p' -> moved n 0 p a p'.
Proof. intros [? ?]. split; [done|lia]. Qed.

Lemma good_rec n : good (St:=St) n (rec_at n).
Proof.
  induction n as [|n IH]; [by constructor; intros; lia|]. constructor; cbn [rec_at r_expr r_binop r_chunk r_label r_assign]; intros.
  - eapply wp_mono; [eapply (wp_expr_ n); [done|done|lia]|]. intros ? ?. apply moved_le.
  - eapply wp_mono; [eapply (wp_expr_binop n); [done|done|lia]|]. intros ? ? [? ?]. split; [by eapply moved_le|done].
  - eapply (wp_parse_chunk n); [done|done|lia].
  - eapply (wp_parse_label n); [done|done|lia|done].
  - eapply wp_mono; [eapply (wp_assignment n); [done|done|lia]|]. intros ? ?. apply moved_le.
Qed.

Lemma parse_with_ends n k p : Inv n p -> (left p <= k)%nat -> wp (parse_with (rec_at k)) p (fun _ _ => True).
Proof.
  intros. pose proof (good_rec k). unfold parse_with.
  do 13 (wp_step; cbv beta iota). eapply wp_mono; [eapply wp_parse_chunk; [done|eassumption|lia]|wp_post].
  wp_tac; done.
Qed.

End Chunk.
