(* ===== verification/ParseIntern.v ===== *)
(** * The compiler over the interner

    The string pointers of template tables come from the interner's memory.
    Sources compiled here show what the model computes, and where the compiler
    does not do what it means to. *)

From Stdlib Require Import ZArith Lia Bool Ascii String.
From stdpp Require Import base decidable numbers option gmap list.
From S2P Require Import Prelude Float64 Value Strings StringsIntern Heap Intern Collector FloatText PatClass Fold Exec Bytecode Table Dump Lex LexText ParseState ParseExpr ParseScope Parse ParseCalm ParseTerm ParseGrammar.

#[global] Instance interner_ptrs `{Layout} : StrPtrs StringsIntern.Table := {|
  ParseState.lookup_ptr := fun t sid => let '(_, it, _) := t in Intern.lookup_ptr it sid;
  str_heap := fun t => let '(m, _, _) := t in mem_strings m;
|}.

#[local] Instance demo_libm : Libm := {| powf := fun x _ => x |}.

(** ** What a source compiles to *)

(** The opcode and operands [A], [B], [C] of each instruction. *)
Definition listing (pt : Proto) : list (option BCOp.t * Z * Z * Z) :=
  let '(mkProto bc _ _ _ _ _ _ _ _ _ _ _ _ _) := pt in map (fun i => (bc_op i, bc_a i, bc_b i, bc_c i)) bc.

Definition demo_compile (dbg : bool) (text : String.string) : Out (Proto * StringsIntern.Table) :=
  compile_source (lit text) (lit "t") (demo_table 0x3000) dbg.

(** The listing, or the message; [None] is a panic. *)
Definition compiled (dbg : bool) (text : String.string) : option (list (option BCOp.t * Z * Z * Z) + list Z) :=
  match demo_compile dbg text with
  | Ran (pt, _) => Some (inl (listing pt))
  | Error e => Some (inr e)
  | _ => None
  end.

Example compile_and_or : compiled true "local a, b = 1, 2 return a and b or a < b" = Some (inl
  [(Some BCOp.FUNCV, 3, 0, 0); (Some BCOp.KSHORT, 0, 0, 1); (Some BCOp.KSHORT, 1, 0, 2); (Some BCOp.ISF, 0, 0, 0);
   (Some BCOp.JMP, 2, 128, 2); (Some BCOp.ISTC, 2, 0, 1); (Some BCOp.JMP, 2, 128, 5); (Some BCOp.ISLT, 0, 0, 1);
   (Some BCOp.JMP, 2, 128, 2); (Some BCOp.KPRI, 2, 0, 1); (Some BCOp.JMP, 3, 128, 1); (Some BCOp.KPRI, 2, 0, 2);
   (Some BCOp.RET1, 2, 0, 2); (Some BCOp.KNIL, 0, 0, 2)]).
Proof. vm_compute. reflexivity. Qed.

Example compile_error : compiled true "x = = 1" = Some (inr (lit "t:1: unexpected symbol near '='")).
Proof. vm_compute. reflexivity. Qed.

(** ** Where the compiler goes wrong *)

(** A label at the end of a block takes the slot of the variable at
    [vstart + nactvar], which need not exist: the usual [goto continue] of a
    [for] loop panics. *)
Lemma label_at_end_panics :
  compiled true "for i=1,10 do if x then goto cont end print(i) ::cont:: end" = None /\
  compiled false "local a do ::l:: end" = None.
Proof. split; vm_compute; reflexivity. Qed.

(** [not] of a 64-bit literal fails an assertion; without assertions the code
    negates register 0. *)
Lemma not_of_cdata : compiled true "local a = 1 return not 2LL" = None /\
  compiled false "local a = 1 return not 2LL" = Some (inl
    [(Some BCOp.FUNCV, 2, 0, 0); (Some BCOp.KSHORT, 0, 0, 1); (Some BCOp.NOT, 1, 0, 0); (Some BCOp.RET1, 1, 0, 2);
     (Some BCOp.KNIL, 0, 0, 1)]).
Proof. split; vm_compute; reflexivity. Qed.

(** The second token of a compound assignment is only checked to begin with
    an equals sign. *)
Lemma compound_assign_eq_eq : compiled true "local x = 1 x +== 2" = compiled true "local x = 1 x += 2".
Proof. vm_compute. reflexivity. Qed.

(** ** Termination, at a source text *)

