(* ===== verification/VmState.v ===== *)
(** * vm/mod.rs: the state of the interpreter

    The state of one Lua thread, as [dispatch] sees it: the value stack with
    its frame links, the heap objects it reaches by address, and the fields of
    [Interp].  A pointer into the stack is its index, since [stack_ensure]
    repoints the open upvalues when the stack moves; a pointer into bytecode is
    an address of the map [code], four bytes per instruction.  A panic or a
    read through a bad pointer is [Stuck].

    The model runs with the JIT off, without debug hooks, without the C type
    table of the FFI, and with the heap below the collector's threshold, so
    that no step of the collector (Collector.v) falls due; write barriers, which
    only enqueue objects for it, are left out. *)

From Stdlib Require Import ZArith Lia Bool Ascii String.
From stdpp Require Import base decidable numbers option gmap list.
From S2P Require Import Prelude Float64 Value Strings FloatText PatClass Bytecode Dump Table ParseState.

(** ** Objects *)

(** [v] of an upvalue: the slot it is open on, or its own [tv]. *)
Record Upval := mkUpval { uv_slot : option Z; uv_tv : LuaValue; uv_immutable : bool }.

Inductive GcFunc :=
  | FLua (proto env : Z) (upvals : list Z)
  | FC (f env : Z) (upvals : list LuaValue).

(** The collectable constants of a registered prototype. *)
Inductive VmKGc := VStr (sid : Z) | VProto (p : Z) | VTable (t : LuaTable) | VCData (c : Dump.CData).

(** A registered prototype; [bc_ptr] is the address of its bytecode. *)
Module VmProto.
Record t := mk {
  bc : list Z;
  lines : list Z;
  kgc : list VmKGc;
  kn : list f64;
  kstrv : list LuaValue;
  uv : list Z;
  flags : Z;
  numparams : Z;
  framesize : Z;
  firstline : Z;
  uvnames : list (list Z);
  varnames : list (Z * Z * Z * list Z);
  source : option Z;
  bc_ptr : Z;
}.
Definition set_source v (r : t) : t := let '(mk x0 x1 x2 x3 x4 x5 x6 x7 x8 x9 x10 x11 _ x13) := r in
  mk x0 x1 x2 x3 x4 x5 x6 x7 x8 x9 x10 x11 v x13.
End VmProto.
Abbreviation VmProto := VmProto.t.

(** [Suspend]. *)
Inductive Suspend :=
  | SStart
  | SCall (pc : Z) (cl : Z) (base slot want : Z) (protected : bool) (value_slot : Z)
  | SReturn (base slot : Z).

Inductive LuaError := Runtime | Yield.

(** The frame links: the two low bits of the word below a frame's base. *)
Definition FRAME_LUA : Z := 0.
Definition FRAME_C : Z := 1.
Definition FRAME_VARG : Z := 3.
Definition FRAME_CONT : Z := 2.
Definition FRAME_TYPE_MASK : Z := 3.

Definition frame_type (link : Z) : Z := Z.land link FRAME_TYPE_MASK.
Definition frame_delta (link : Z) : Z := Z.shiftr link 3.
(** [(n << 3) | ty] on a [u64]. *)
Definition frame_link_of (n ty : Z) : Z := Z.lor (uwrap 64 (Z.shiftl n 3)) ty.

Definition STACK_SAFETY : Z := 64.

(** The continuations of metamethods called in a frame of their own. *)
Module Cont.
Inductive t := Ra | Nop | Condt | Condf.

Definition all : list t := [Ra; Nop; Condt; Condf].
Definition code (c : t) : Z := match c with Ra => 0 | Nop => 1 | Condt => 2 | Condf => 3 end.

#[global] Instance enum : Enum t.
Proof. refine {| enum_all := all; enum_code := code |}. by intros []. Defined.
End Cont.

Definition cont_encode (c : Cont.t) (extra : Z) : Z := Z.lor (Z.shiftl (Cont.code c) 32) extra.
(** [transmute] of another byte is undefined. *)
Definition cont_decode (w : Z) : option (Cont.t * Z) :=
  let? c := enum_of_code (uwrap 8 (Z.shiftr w 32)) in Some (c, Z.land w 0xFFFFFFFF).

(** ** Metamethods *)

Module MM.
Inductive t :=
  | Index | Newindex | Gc | Mode | Eq | Len | Lt | Le | Concat | Call
  | Add | Sub | Mul | Div | Mod | Pow | Unm | Metatable | Tostring | Pairs | Ipairs.

Definition code (m : t) : Z :=
  match m with
  | Index => 0 | Newindex => 1 | Gc => 2 | Mode => 3 | Eq => 4 | Len => 5 | Lt => 6 | Le => 7 | Concat => 8
  | Call => 9 | Add => 10 | Sub => 11 | Mul => 12 | Div => 13 | Mod => 14 | Pow => 15 | Unm => 16
  | Metatable => 17 | Tostring => 18 | Pairs => 19 | Ipairs => 20
  end.

#[global] Instance eq_dec : EqDecision t.
Proof. solve_decision. Defined.
End MM.

Definition MM_NAMES : list (list Z) :=
  map (fun s => lit s)
    ["__index"; "__newindex"; "__gc"; "__mode"; "__eq"; "__len"; "__lt"; "__le"; "__concat"; "__call"; "__add"; "__sub";
     "__mul"; "__div"; "__mod"; "__pow"; "__unm"; "__metatable"; "__tostring"; "__pairs"; "__ipairs"]%string.

Definition STACK_MAX : Z := Z.shiftl 1 16.
Definition CO_STACK_MAX : Z := Z.shiftl 1 11.

(** Interning with a hash computed by the caller. *)
Class StrHash (St : Type) := { str_intern_hash : St -> list Z -> Z -> option (St * Z) }.

Section State.
Context {St : Type} `{Strings St} `{StrPtrs St}.

(** ** The state *)

(** The heap's objects by address; [next_block] is where the pools place the
    next one, which the source leaves to the system's allocator. *)
Record GcHeap := mkGcHeap {
  strings : St;
  tables : gmap Z LuaTable;
  funcs : gmap Z GcFunc;
  upvals : gmap Z Upval;
  protos : gmap Z VmProto;
  cdatas : gmap Z Dump.CData;
  userdatas : gmap Z (option Z);
  code : gmap Z Z;
  next_block : Z;
  globals : Z;
  basemt : list (option Z);
  mmnames : list LuaValue;
  cat_hash : option (Z * Z);
}.

Definition set_strings v (r : GcHeap) : GcHeap := let '(mkGcHeap _ x1 x2 x3 x4 x5 x6 x7 x8 x9 x10 x11 x12) := r in mkGcHeap v x1 x2 x3 x4 x5 x6 x7 x8 x9 x10 x11 x12.
Definition set_tables v (r : GcHeap) : GcHeap := let '(mkGcHeap x0 _ x2 x3 x4 x5 x6 x7 x8 x9 x10 x11 x12) := r in mkGcHeap x0 v x2 x3 x4 x5 x6 x7 x8 x9 x10 x11 x12.
Definition set_funcs v (r : GcHeap) : GcHeap := let '(mkGcHeap x0 x1 _ x3 x4 x5 x6 x7 x8 x9 x10 x11 x12) := r in mkGcHeap x0 x1 v x3 x4 x5 x6 x7 x8 x9 x10 x11 x12.
Definition set_upvals v (r : GcHeap) : GcHeap := let '(mkGcHeap x0 x1 x2 _ x4 x5 x6 x7 x8 x9 x10 x11 x12) := r in mkGcHeap x0 x1 x2 v x4 x5 x6 x7 x8 x9 x10 x11 x12.
Definition set_protos v (r : GcHeap) : GcHeap := let '(mkGcHeap x0 x1 x2 x3 _ x5 x6 x7 x8 x9 x10 x11 x12) := r in mkGcHeap x0 x1 x2 x3 v x5 x6 x7 x8 x9 x10 x11 x12.
Definition set_cdatas v (r : GcHeap) : GcHeap := let '(mkGcHeap x0 x1 x2 x3 x4 _ x6 x7 x8 x9 x10 x11 x12) := r in mkGcHeap x0 x1 x2 x3 x4 v x6 x7 x8 x9 x10 x11 x12.
Definition set_userdatas v (r : GcHeap) : GcHeap := let '(mkGcHeap x0 x1 x2 x3 x4 x5 _ x7 x8 x9 x10 x11 x12) := r in mkGcHeap x0 x1 x2 x3 x4 x5 v x7 x8 x9 x10 x11 x12.
Definition set_code v (r : GcHeap) : GcHeap := let '(mkGcHeap x0 x1 x2 x3 x4 x5 x6 _ x8 x9 x10 x11 x12) := r in mkGcHeap x0 x1 x2 x3 x4 x5 x6 v x8 x9 x10 x11 x12.
Definition set_next_block v (r : GcHeap) : GcHeap := let '(mkGcHeap x0 x1 x2 x3 x4 x5 x6 x7 _ x9 x10 x11 x12) := r in mkGcHeap x0 x1 x2 x3 x4 x5 x6 x7 v x9 x10 x11 x12.
Definition set_globals v (r : GcHeap) : GcHeap := let '(mkGcHeap x0 x1 x2 x3 x4 x5 x6 x7 x8 _ x10 x11 x12) := r in mkGcHeap x0 x1 x2 x3 x4 x5 x6 x7 x8 v x10 x11 x12.
Definition set_basemt v (r : GcHeap) : GcHeap := let '(mkGcHeap x0 x1 x2 x3 x4 x5 x6 x7 x8 x9 _ x11 x12) := r in mkGcHeap x0 x1 x2 x3 x4 x5 x6 x7 x8 x9 v x11 x12.
Definition set_mmnames v (r : GcHeap) : GcHeap := let '(mkGcHeap x0 x1 x2 x3 x4 x5 x6 x7 x8 x9 x10 _ x12) := r in mkGcHeap x0 x1 x2 x3 x4 x5 x6 x7 x8 x9 x10 v x12.
Definition set_cat_hash v (r : GcHeap) : GcHeap := let '(mkGcHeap x0 x1 x2 x3 x4 x5 x6 x7 x8 x9 x10 x11 _) := r in mkGcHeap x0 x1 x2 x3 x4 x5 x6 x7 x8 x9 x10 x11 v.

Record LuaState := mkLuaState {
  heap : GcHeap;
  stack : list LuaValue;
  max_stack : Z;
  l_base : Z;
  top : Z;
  frame_top : Z;
  openuv : list Z;
  errval : LuaValue;
  err_raise_pc : option (Z * Z);
  err_trace_slot : option Z;
  mmname : option (list Z * Z);
  nyield : Z;
  suspend : Suspend;
  c_depth : Z;
  debug_pc : Z;
  thread_env : Z;
}.

Definition set_heap v (r : LuaState) : LuaState := let '(mkLuaState _ x1 x2 x3 x4 x5 x6 x7 x8 x9 x10 x11 x12 x13 x14 x15) := r in mkLuaState v x1 x2 x3 x4 x5 x6 x7 x8 x9 x10 x11 x12 x13 x14 x15.
Definition set_stack v (r : LuaState) : LuaState := let '(mkLuaState x0 _ x2 x3 x4 x5 x6 x7 x8 x9 x10 x11 x12 x13 x14 x15) := r in mkLuaState x0 v x2 x3 x4 x5 x6 x7 x8 x9 x10 x11 x12 x13 x14 x15.
Definition set_max_stack v (r : LuaState) : LuaState := let '(mkLuaState x0 x1 _ x3 x4 x5 x6 x7 x8 x9 x10 x11 x12 x13 x14 x15) := r in mkLuaState x0 x1 v x3 x4 x5 x6 x7 x8 x9 x10 x11 x12 x13 x14 x15.
Definition set_l_base v (r : LuaState) : LuaState := let '(mkLuaState x0 x1 x2 _ x4 x5 x6 x7 x8 x9 x10 x11 x12 x13 x14 x15) := r in mkLuaState x0 x1 x2 v x4 x5 x6 x7 x8 x9 x10 x11 x12 x13 x14 x15.
Definition set_top v (r : LuaState) : LuaState := let '(mkLuaState x0 x1 x2 x3 _ x5 x6 x7 x8 x9 x10 x11 x12 x13 x14 x15) := r in mkLuaState x0 x1 x2 x3 v x5 x6 x7 x8 x9 x10 x11 x12 x13 x14 x15.
Definition set_frame_top v (r : LuaState) : LuaState := let '(mkLuaState x0 x1 x2 x3 x4 _ x6 x7 x8 x9 x10 x11 x12 x13 x14 x15) := r in mkLuaState x0 x1 x2 x3 x4 v x6 x7 x8 x9 x10 x11 x12 x13 x14 x15.
Definition set_openuv v (r : LuaState) : LuaState := let '(mkLuaState x0 x1 x2 x3 x4 x5 _ x7 x8 x9 x10 x11 x12 x13 x14 x15) := r in mkLuaState x0 x1 x2 x3 x4 x5 v x7 x8 x9 x10 x11 x12 x13 x14 x15.
Definition set_errval v (r : LuaState) : LuaState := let '(mkLuaState x0 x1 x2 x3 x4 x5 x6 _ x8 x9 x10 x11 x12 x13 x14 x15) := r in mkLuaState x0 x1 x2 x3 x4 x5 x6 v x8 x9 x10 x11 x12 x13 x14 x15.
Definition set_err_raise_pc v (r : LuaState) : LuaState := let '(mkLuaState x0 x1 x2 x3 x4 x5 x6 x7 _ x9 x10 x11 x12 x13 x14 x15) := r in mkLuaState x0 x1 x2 x3 x4 x5 x6 x7 v x9 x10 x11 x12 x13 x14 x15.
Definition set_err_trace_slot v (r : LuaState) : LuaState := let '(mkLuaState x0 x1 x2 x3 x4 x5 x6 x7 x8 _ x10 x11 x12 x13 x14 x15) := r in mkLuaState x0 x1 x2 x3 x4 x5 x6 x7 x8 v x10 x11 x12 x13 x14 x15.
Definition set_mmname v (r : LuaState) : LuaState := let '(mkLuaState x0 x1 x2 x3 x4 x5 x6 x7 x8 x9 _ x11 x12 x13 x14 x15) := r in mkLuaState x0 x1 x2 x3 x4 x5 x6 x7 x8 x9 v x11 x12 x13 x14 x15.
Definition set_nyield v (r : LuaState) : LuaState := let '(mkLuaState x0 x1 x2 x3 x4 x5 x6 x7 x8 x9 x10 _ x12 x13 x14 x15) := r in mkLuaState x0 x1 x2 x3 x4 x5 x6 x7 x8 x9 x10 v x12 x13 x14 x15.
Definition set_suspend v (r : LuaState) : LuaState := let '(mkLuaState x0 x1 x2 x3 x4 x5 x6 x7 x8 x9 x10 x11 _ x13 x14 x15) := r in mkLuaState x0 x1 x2 x3 x4 x5 x6 x7 x8 x9 x10 x11 v x13 x14 x15.
Definition set_c_depth v (r : LuaState) : LuaState := let '(mkLuaState x0 x1 x2 x3 x4 x5 x6 x7 x8 x9 x10 x11 x12 _ x14 x15) := r in mkLuaState x0 x1 x2 x3 x4 x5 x6 x7 x8 x9 x10 x11 x12 v x14 x15.
Definition set_debug_pc v (r : LuaState) : LuaState := let '(mkLuaState x0 x1 x2 x3 x4 x5 x6 x7 x8 x9 x10 x11 x12 x13 _ x15) := r in mkLuaState x0 x1 x2 x3 x4 x5 x6 x7 x8 x9 x10 x11 x12 x13 v x15.
Definition set_thread_env v (r : LuaState) : LuaState := let '(mkLuaState x0 x1 x2 x3 x4 x5 x6 x7 x8 x9 x10 x11 x12 x13 x14 _) := r in mkLuaState x0 x1 x2 x3 x4 x5 x6 x7 x8 x9 x10 x11 x12 x13 x14 v.

(** [LuaState::new]. *)
Definition state_new (h : GcHeap) (is_main : bool) : LuaState :=
  mkLuaState h (replicate (if is_main then 256 else 8) NIL) (if is_main then STACK_MAX else CO_STACK_MAX)
    0 0 0 [] NIL None None None 0 SStart 0 0 (globals h).

(** [bcp], [knp] and [ksp] point at the arrays of the closure's prototype. *)
Record Interp := mkInterp {
  base : Z;
  pc : Z;
  cl : Z;
  bcp : Z;
  knp : list f64;
  ksp : list LuaValue;
  multres : Z;
}.

Definition set_base v (r : Interp) : Interp := let '(mkInterp _ x1 x2 x3 x4 x5 x6) := r in mkInterp v x1 x2 x3 x4 x5 x6.
Definition set_pc v (r : Interp) : Interp := let '(mkInterp x0 _ x2 x3 x4 x5 x6) := r in mkInterp x0 v x2 x3 x4 x5 x6.
Definition set_cl v (r : Interp) : Interp := let '(mkInterp x0 x1 _ x3 x4 x5 x6) := r in mkInterp x0 x1 v x3 x4 x5 x6.
Definition set_bcp v (r : Interp) : Interp := let '(mkInterp x0 x1 x2 _ x4 x5 x6) := r in mkInterp x0 x1 x2 v x4 x5 x6.
Definition set_knp v (r : Interp) : Interp := let '(mkInterp x0 x1 x2 x3 _ x5 x6) := r in mkInterp x0 x1 x2 x3 v x5 x6.
Definition set_ksp v (r : Interp) : Interp := let '(mkInterp x0 x1 x2 x3 x4 _ x6) := r in mkInterp x0 x1 x2 x3 x4 v x6.
Definition set_multres v (r : Interp) : Interp := let '(mkInterp x0 x1 x2 x3 x4 x5 _) := r in mkInterp x0 x1 x2 x3 x4 x5 v.

Record Vm := mkVm { l : LuaState; it : Interp }.

(** ** Computations: a result, a Lua error, a panic or undefined behaviour *)

Inductive Res (A : Type) := Ok (a : A) (s : Vm) | Fail (e : LuaError) (s : Vm) | Stuck | NoFuel.
#[global] Arguments Ok {A} a s.
#[global] Arguments Fail {A} e s.
#[global] Arguments Stuck {A}.
#[global] Arguments NoFuel {A}.

Definition M (A : Type) : Type := Vm -> Res A.

Definition ret {A} (a : A) : M A := fun s => Ok a s.
Definition bind {A B} (m : M A) (f : A -> M B) : M B := fun s =>
  match m s with
  | Ok a s => f a s
  | Fail e s => Fail e s
  | Stuck => Stuck
  | NoFuel => NoFuel
  end.
Definition stuck {A} : M A := fun _ => Stuck.
Definition no_fuel {A} : M A := fun _ => NoFuel.
Definition fail {A} (e : LuaError) : M A := fun s => Fail e s.
Definition lift {A} (o : option A) : M A := fun s => match o with Some a => Ok a s | None => Stuck end.
Definition gets {A} (f : Vm -> A) : M A := fun s => Ok (f s) s.
Definition getl {A} (f : LuaState -> A) : M A := gets (fun s => f (l s)).
Definition geth {A} (f : GcHeap -> A) : M A := getl (fun x => f (heap x)).
Definition geti {A} (f : Interp -> A) : M A := gets (fun s => f (it s)).
Definition modl (f : LuaState -> LuaState) : M unit := fun s => Ok tt (mkVm (f (l s)) (it s)).
Definition modh (f : GcHeap -> GcHeap) : M unit := modl (fun x => set_heap (f (heap x)) x).
Definition modi (f : Interp -> Interp) : M unit := fun s => Ok tt (mkVm (l s) (f (it s))).
(** The result of a call that may return an error. *)
Definition attempt {A} (m : M A) : M (A + LuaError) := fun s =>
  match m s with
  | Ok a s => Ok (inl a) s
  | Fail e s => Ok (inr e) s
  | Stuck => Stuck
  | NoFuel => NoFuel
  end.

#[local] Notation "'let!' x := a 'in' b" := (bind a (fun x => b)) (at level 10, x name, a at level 100, b at level 200).
#[local] Notation "'let!' ' p := a 'in' b" := (bind a (fun p => b)) (at level 10, p strict pattern, a at level 100, b at level 200).
#[local] Notation "'do!' a 'in' b" := (bind a (fun _ => b)) (at level 10, a at level 100, b at level 200).
#[local] Notation "'when' b 'do' a" := (if b then a else ret tt) (at level 10, b at level 100, a at level 100).

(** ** The stack *)

Definition at_ (i : Z) : M LuaValue := let! s := getl stack in lift (znth s i).
Definition set_at (i : Z) (v : LuaValue) : M unit :=
  let! s := getl stack in let! s := lift (zset s i v) in modl (set_stack s).
Definition stack_len : M Z := getl (fun x => zlen (stack x)).

(** Copies and clears of runs of slots, one at a time and upwards. *)
Fixpoint copy_slots (n : nat) (dst src : Z) : M unit :=
  match n with
  | O => ret tt
  | S n => let! v := at_ src in do! set_at dst v in copy_slots n (dst + 1) (src + 1)
  end.
Fixpoint nil_slots (n : nat) (dst : Z) : M unit :=
  match n with O => ret tt | S n => do! set_at dst NIL in nil_slots n (dst + 1) end.
(** [for i in lo..hi { set_at(dst + i, NIL) }]. *)
Definition nil_range (lo hi dst : Z) : M unit := nil_slots (Z.to_nat (hi - lo)) (dst + lo).
Fixpoint put_slots (dst : Z) (vs : list LuaValue) : M unit :=
  match vs with [] => ret tt | v :: vs => do! set_at dst v in put_slots (dst + 1) vs end.

Definition stack_ensure (need : Z) : M unit :=
  let! s := getl stack in
  let! max := getl max_stack in
  when (zlen s <=? need) do
    (let new_len := Z.min (Z.max (zlen s * 2) (need + 16)) max in
     (* a new length below the old one truncates *)
     modl (set_stack (take (Z.to_nat new_len) s ++ replicate (Z.to_nat (new_len - zlen s)) NIL))).

(** ** The heap *)

Definition table_at (p : Z) : M LuaTable := let! m := geth tables in lift (m !! p).
Definition table_set_at (p : Z) (t : LuaTable) : M unit := modh (fun x => set_tables (<[p := t]> (tables x)) x).
Definition func_at (p : Z) : M GcFunc := let! m := geth funcs in lift (m !! p).
Definition upval_at (p : Z) : M Upval := let! m := geth upvals in lift (m !! p).
Definition upval_set_at (p : Z) (u : Upval) : M unit := modh (fun x => set_upvals (<[p := u]> (upvals x)) x).
Definition proto_at (p : Z) : M VmProto := let! m := geth protos in lift (m !! p).
Definition cdata_at (p : Z) : M Dump.CData := let! m := geth cdatas in lift (m !! p).

Definition tab_get (p : Z) (k : LuaValue) : M LuaValue :=
  let! t := table_at p in let! st := geth strings in lift (Table.get (H := str_heap st) t k).
Definition tab_get_str (p : Z) (k : LuaValue) : M LuaValue :=
  let! t := table_at p in let! st := geth strings in lift (Table.get_str (H := str_heap st) t k).
Definition tab_get_int (p : Z) (k : Z) : M LuaValue :=
  let! t := table_at p in let! st := geth strings in lift (Table.get_int (H := str_heap st) t k).
Definition tab_set (p : Z) (k v : LuaValue) : M unit :=
  let! t := table_at p in let! st := geth strings in
  let! t := lift (Table.set (H := str_heap st) t k v) in table_set_at p t.
Definition tab_set_str (p : Z) (k v : LuaValue) : M unit :=
  let! t := table_at p in let! st := geth strings in
  let! t := lift (Table.set_str (H := str_heap st) t k v) in table_set_at p t.
Definition tab_set_int (p : Z) (k : Z) (v : LuaValue) : M unit :=
  let! t := table_at p in let! st := geth strings in
  let! t := lift (Table.set_int (H := str_heap st) t k v) in table_set_at p t.
Definition tab_reasize (p : Z) (n : Z) : M unit :=
  let! t := table_at p in let! st := geth strings in
  let! t := lift (Table.reasize (H := str_heap st) t n) in table_set_at p t.

(** The block of a new object. *)
Definition new_block : M Z :=
  let! p := geth next_block in do! modh (set_next_block (p + 64)) in ret p.
Definition alloc_table (t : LuaTable) : M Z := let! p := new_block in do! table_set_at p t in ret p.
Definition alloc_func (f : GcFunc) : M Z :=
  let! p := new_block in do! modh (fun x => set_funcs (<[p := f]> (funcs x)) x) in ret p.
Definition alloc_upval (u : Upval) : M Z := let! p := new_block in do! upval_set_at p u in ret p.
Definition alloc_cdata (c : Dump.CData) : M Z :=
  let! p := new_block in do! modh (fun x => set_cdatas (<[p := c]> (cdatas x)) x) in ret p.

(** ** Strings *)

Definition intern (b : list Z) : M Z :=
  let! st := geth strings in
  let! ' (st, sid) := lift (str_intern st b) in
  do! modh (set_strings st) in ret sid.
Definition str_value (sid : Z) : M LuaValue :=
  let! st := geth strings in let! p := lift (lookup_ptr st sid) in ret (Value.string p).
Definition str_static (sid : Z) : M (list Z) := let! st := geth strings in lift (str_get st sid).
Definition as_string_id (v : LuaValue) : M (option Z) :=
  let! st := geth strings in
  ret (let? p := as_string v in Some (str_sid (StrHeap := str_heap st) p)).

(** ** The running closure *)

Definition is_lua (f : GcFunc) : bool := match f with FLua _ _ _ => true | FC _ _ _ => false end.

(** The prototype, the environment and the upvalues of a Lua closure. *)
Definition lua_closure (p : Z) : M (Z * Z * list Z) :=
  let! f := func_at p in match f with FLua pt env uvs => ret (pt, env, uvs) | FC _ _ _ => stuck end.
Definition lua_cl : M (Z * Z * list Z) := let! c := geti cl in lua_closure c.
Definition proto_of (c : Z) : M VmProto := let! ' (pt, _, _) := lua_closure c in proto_at pt.
Definition proto : M VmProto := let! c := geti cl in proto_of c.

(** [*ip], for an instruction pointer. *)
Definition read_ins (ip : Z) : M Z := let! m := geth code in lift (m !! ip).

Definition kstr_at (d : Z) : M LuaValue := let! ks := geti ksp in lift (znth ks d).
Definition knum (d : Z) : M LuaValue := let! kn := geti knp in let! n := lift (znth kn d) in ret (number_raw n).

(** ** Errors *)

(** The caller's position of a frame link, as a slot. *)
Definition caller_slot (slot link : Z) : M Z :=
  let! len := stack_len in
  if frame_delta link <? len then ret (frame_delta link)
  else let! i := read_ins (link - 4) in ret (Z.max 0 (slot - (2 + bc_a i))).

Definition is_link (link : Z) : bool := (frame_type link =? 0) && negb (link =? 0).

(** The chunk's name as error messages show it. *)
Definition source_name (src : option Z) : M (list Z) :=
  let! st := geth strings in
  match src with
  | Some sid =>
      match lookup_ptr st sid with
      | Some _ =>
          let! b := lift (str_get st sid) in
          ret (from_utf8_lossy (match b with x :: r => if (x =? 64) || (x =? 61) then r else b | [] => b end))
      | None => ret (lit "=?")
      end
  | None => ret (lit "=?")
  end.

Definition error_here (full : list Z) (func slot : Z) (pt : VmProto) (pc_link : option Z) : M (list Z) :=
  let! dpc := getl debug_pc in
  let pc := Z.min (Z.max 0 (match pc_link with
                            | Some p => uwrap 64 ((p - VmProto.bc_ptr pt) / 4) - 1
                            | None => dpc - 1 end))
              (Z.max 0 (zlen (VmProto.lines pt) - 1)) in
  do! modl (fun x => set_err_trace_slot (Some slot) (set_err_raise_pc (Some (func, pc)) x)) in
  let line := match znth (VmProto.lines pt) pc with Some n => n | None => VmProto.firstline pt end in
  let! src := source_name (VmProto.source pt) in
  ret (src ++ lit ":" ++ dec_digits line ++ lit ": " ++ from_utf8_lossy full).

(** At most sixteen frames are walked. *)
Fixpoint error_pos (n : nat) (full : list Z) (skip slot : Z) (pc_link : option Z) : M (list Z) :=
  match n with
  | O => ret full
  | S n =>
      if slot <? 2 then ret full else
      let! func := at_ (slot - 2) in
      let! link := at_ (slot - 1) in
      match as_func func with
      | None => ret full
      | Some fv =>
          let! f := func_at fv in
          match f with
          | FLua p _ _ =>
              let! pt := proto_at p in
              if 0 <? skip then
                if is_link link then
                  let! len := stack_len in
                  let! slot' := caller_slot slot link in
                  error_pos n full (skip - 1) slot' (if frame_delta link <? len then pc_link else Some link)
                else ret full
              else error_here full func slot pt pc_link
          | FC _ _ _ =>
              if is_link link then let! slot' := caller_slot slot link in error_pos n full skip slot' pc_link
              else ret full
          end
      end
  end.

Definition runtime_error_level (msg : list Z) (level : Z) : M LuaError :=
  let! b := getl l_base in
  let! full := error_pos 16 msg (Z.max 0 (level - 1)) b None in
  let! sid := intern full in
  let! v := str_value sid in
  do! modl (set_errval v) in
  ret Runtime.
Definition runtime_error (msg : list Z) : M LuaError := runtime_error_level msg 1.
Definition raise {A} (msg : list Z) : M A := let! e := runtime_error msg in fail e.

(** ** Metatables *)

Definition basemt_of (itype : Z) : M (option Z) :=
  let! b := geth basemt in lift (znth b (Z.land (unot 32 itype) 15)).

Definition metatable_of (o : LuaValue) : M (option Z) :=
  match as_table o, as_userdata o with
  | Some p, _ => let! t := table_at p in ret (metatable t)
  | None, Some u =>
      let! m := geth userdatas in
      let! mt := lift (m !! u) in
      match mt with Some p => ret (Some p) | None => basemt_of (itype o) end
  | None, None => basemt_of (if is_cdata o then LJ_TCDATA else if is_number o then LJ_TNUMX else itype o)
  end.

Definition mm_name (mm : MM.t) : M LuaValue := let! n := geth mmnames in lift (znth n (MM.code mm)).

Definition meta_lookup (o : LuaValue) (mm : MM.t) : M LuaValue :=
  let! mt := metatable_of o in
  match mt with Some p => let! k := mm_name mm in tab_get_str p k | None => ret NIL end.

(** A miss sets the metamethod's bit of the negative cache. *)
Definition meta_fast (mt : option Z) (mm : MM.t) : M (option LuaValue) :=
  match mt with
  | None => ret None
  | Some p =>
      let! t := table_at p in
      if negb (Z.land (nomm t) (uwrap 8 (Z.shiftl 1 (MM.code mm))) =? 0) then ret None
      else
        let! k := mm_name mm in
        let! mo := tab_get_str p k in
        if is_nil mo then
          do! table_set_at p (with_nomm t (Z.lor (nomm t) (uwrap 8 (Z.shiftl 1 (MM.code mm))))) in ret None
        else ret (Some mo)
  end.
End State.
