(* ===== verification/VmValue.v ===== *)
(** * vm/mod.rs, vm/meta.rs: operations on values

    Comparison, equality, conversion and arithmetic of the interpreter's
    values, 64-bit C data included.  A C data object is a literal or a result
    of arithmetic on such: the C type table of the FFI is absent, so every one
    counts as numeric. *)

From Stdlib Require Import ZArith Lia Bool SpecFloat Ascii String.
From stdpp Require Import base decidable numbers option gmap list.
From S2P Require Import Prelude Float64 Value Strings FloatText PatClass Fold StrScan Bytecode Dump Table ParseState VmState.

(** ** Numbers and bits *)

(** [(n as i64) as u32 as i32]. *)
Definition num2bit (n : f64) : Z := swrap 32 (uwrap 32 (f64_to_i64 n)).

Definition cmp_u (op x y : Z) : option bool :=
  match op with
  | 0 => Some (x <? y) | 1 => Some (negb (x <? y)) | 2 => Some (x <=? y) | 3 => Some (negb (x <=? y))
  | _ => None
  end.
Definition cmp_s (op x y : Z) : option bool := cmp_u op (swrap 64 x) (swrap 64 y).

Definition cmp_num (op : Z) (x y : f64) : option bool :=
  match op with
  | 0 => Some (f64_lt x y) | 1 => Some (negb (f64_lt x y)) | 2 => Some (f64_le x y) | 3 => Some (negb (f64_le x y))
  | _ => None
  end.

(** The comparison's answer when [x] is below everything, or above. *)
Definition cmp_below (op : Z) : option bool :=
  match op with 0 => Some true | 1 => Some false | 2 => Some true | 3 => Some false | _ => None end.
Definition cmp_above (op : Z) : option bool := option_map negb (cmp_below op).

(** A [f32] as a [f64]. *)
Definition f32_to_f64 (w : Z) : f64 :=
  let s := 2 ^ 31 <=? w in
  let e := (w / 2 ^ 23) mod 2 ^ 8 in
  let m := w mod 2 ^ 23 in
  let sg z := if s then - z else z in
  bits_of_SF
    (if e =? 255 then if m =? 0 then S754_infinity s else S754_nan
     else if e =? 0 then if m =? 0 then S754_zero s else binary_normalize 53 1024 (sg m) (-149) s
     else binary_normalize 53 1024 (sg (m + 2 ^ 23)) (e - 150) s).

(** The little-endian number of the first [n] bytes; [&d[..n]] panics when there are fewer. *)
Definition le_prefix (n : nat) (d : list Z) : option Z :=
  if (n <=? length d)%nat then Some (from_le_bytes (take n d)) else None.
Definition first_byte (d : list Z) : Z := hd 0 d.

(** The number of a C data object: [None] is a panic, [Some None] no number. *)
Definition cdata_to_number (cd : Dump.CData) : option (option f64) :=
  let d := Dump.data cd in
  let int w n := let? x := le_prefix n d in Some (Some (f64_of_Z (swrap w x))) in
  let uint n := let? x := le_prefix n d in Some (Some (f64_of_Z x)) in
  let wide (f : Z -> Z) := if (8 <=? length d)%nat then Some (Some (f64_of_Z (f (from_le_bytes (take 8 d))))) else Some None in
  match Dump.ctypeid cd with
  | 5 | 4 => Some (Some (f64_of_int (swrap 8 (first_byte d))))
  | 6 => Some (Some (f64_of_int (first_byte d)))
  | 3 => Some (Some (f64_of_int (if first_byte d =? 0 then 0 else 1)))
  | 7 => int 16 2%nat
  | 8 => uint 2%nat
  | 9 => int 32 4%nat
  | 10 => uint 4%nat
  | 11 => wide (swrap 64)
  | 12 => wide id
  | 15 => let? x := le_prefix 4 d in Some (Some (f32_to_f64 x))
  | 16 => let? x := le_prefix 8 d in Some (Some x)
  | _ =>
      match length d with
      | 1%nat => Some (Some (f64_of_int (swrap 8 (first_byte d))))
      | 2%nat => int 16 2%nat
      | 4%nat => int 32 4%nat
      | 8%nat => int 64 8%nat
      | _ => Some None
      end
  end.

Definition CT_PVOID : Z := 19.

(** [(x / y).floor()] and the other operators on doubles. *)
Definition f64_mod (x y : f64) : f64 := f64_sub x (f64_mul (f64_floor (f64_div x y)) y).

Definition foldarith `{Libm} (mm : MM.t) (b c : f64) : option f64 :=
  match mm with
  | MM.Add => Some (f64_add b c)
  | MM.Sub => Some (f64_sub b c)
  | MM.Mul => Some (f64_mul b c)
  | MM.Div => Some (f64_div b c)
  | MM.Mod => Some (f64_mod b c)
  | MM.Pow => vm_pow b c
  | MM.Unm => Some (f64_neg b)
  | _ => None
  end.

(** The same on 64-bit C data: between registers a division by zero panics,
    with a constant it gives zero. *)
Definition cd_arith `{Libm} (mm : MM.t) (checked : bool) (x y : Z) : option Z :=
  match mm with
  | MM.Add => Some (uwrap 64 (x + y))
  | MM.Sub => Some (uwrap 64 (x - y))
  | MM.Mul => Some (uwrap 64 (x * y))
  | MM.Div => if y =? 0 then if checked then Some 0 else None else Some (x / y)
  | MM.Mod => if y =? 0 then if checked then Some 0 else None else Some (x mod y)
  | MM.Pow => Some (f64_to_u64 (powf (f64_of_Z x) (f64_of_Z y)))
  | _ => None
  end.

(** ** Values *)

Definition obj_equal (a b : LuaValue) : bool :=
  if is_number a && is_number b then f64_eq a b else a =? b.

Definition concat_ok (v : LuaValue) : bool := is_string v || is_number v.

Definition lua_typename (v : LuaValue) : list Z :=
  if is_nil v then lit "nil" else if is_bool v then lit "boolean" else if is_number v then lit "number"
  else if is_string v then lit "string" else if is_table v then lit "table" else if is_func v then lit "function"
  else if is_thread v then lit "thread" else if is_userdata v then lit "userdata" else lit "value".

(** The primitives of KPRI, ISEQP and ISNEP. *)
Definition PRI : list LuaValue := [NIL; FALSE; TRUE].

Section Values.
Context {St : Type} `{Strings St} `{StrPtrs St}.
#[local] Abbreviation M := (@M St).
#[local] Notation "'let!' x := a 'in' b" := (bind a (fun x => b)) (at level 10, x name, a at level 100, b at level 200).
#[local] Notation "'let!' ' p := a 'in' b" := (bind a (fun p => b)) (at level 10, p strict pattern, a at level 100, b at level 200).
#[local] Notation "'do!' a 'in' b" := (bind a (fun _ => b)) (at level 10, a at level 100, b at level 200).

Definition cdata_of (v : LuaValue) : M (option Dump.CData) :=
  match as_cdata v with Some p => let! c := cdata_at p in ret (Some c) | None => ret None end.

Definition is_cdata_null (v : LuaValue) : M bool :=
  let! c := cdata_of v in
  ret (match c with
       | Some c => if Dump.ctypeid c =? CT_PVOID then forallb (fun b => b =? 0) (Dump.data c) else false
       | None => false end).

Definition cdata_u64 (v : LuaValue) : M (option Z) :=
  let! c := cdata_of v in
  ret (let? c := c in if (length (Dump.data c) <=? 8)%nat then Some (from_le_bytes (Dump.data c)) else None).

Definition cdata_is_ull (v : LuaValue) : M bool :=
  let! c := cdata_of v in ret (match c with Some c => Dump.ctypeid c =? CT_UINT64 | None => false end).

Definition make_cdata_result (bits : Z) (is_ull : bool) : M LuaValue :=
  let! p := alloc_cdata (Dump.mkCData (if is_ull then CT_UINT64 else CT_INT64) (to_le_bytes 8 bits) None 0) in
  ret (Value.cdata p).

(** [n as i64 as u64]. *)
Definition f64_word (n : f64) : Z := uwrap 64 (f64_to_i64 n).

Definition try_cdata_binop (xv yv : LuaValue) (op : Z -> Z -> option Z) : M (option LuaValue) :=
  let! x_cd := cdata_u64 xv in
  let! y_cd := cdata_u64 yv in
  let! x_ull := cdata_is_ull xv in
  let! y_ull := cdata_is_ull yv in
  let result x y ull := let! r := lift (op x y) in let! v := make_cdata_result r ull in ret (Some v) in
  match x_cd, y_cd with
  | Some x, Some y => result x y (x_ull || y_ull)
  | Some x, None => if is_number yv then result x (f64_word yv) x_ull else ret None
  | None, Some y => if is_number xv then result (f64_word xv) y y_ull else ret None
  | None, None => ret None
  end.

(** C data against a number: an unsigned one treats a negative number apart. *)
Definition cmp_cd_num (op x : Z) (ull : bool) (yf : f64) : option bool :=
  let y := f64_word yf in
  if ull then
    if swrap 64 y <? 0 then cmp_below op else cmp_u op x y
  else cmp_s op x y.
Definition cmp_num_cd (op : Z) (xf : f64) (y : Z) (ull : bool) : option bool :=
  let x := f64_word xf in
  if ull then
    if swrap 64 x <? 0 then cmp_below op else cmp_u op x y
  else cmp_s op x y.

Definition cmp_cd_cd (op x : Z) (x_ull : bool) (y : Z) (y_ull : bool) : option bool :=
  if eqb x_ull y_ull then if x_ull then cmp_u op x y else cmp_s op x y
  else if x_ull then if swrap 64 y <? 0 then cmp_above op else cmp_u op x y
  else if swrap 64 x <? 0 then cmp_below op else cmp_u op x y.

(** [None] when the operands need a metamethod. *)
Definition cmp_fast (op : Z) (xv yv : LuaValue) : M (option bool) :=
  if is_number xv && is_number yv then let! c := lift (cmp_num op xv yv) in ret (Some c) else
  let! x_cd := cdata_u64 xv in
  let! y_cd := cdata_u64 yv in
  let! x_ull := cdata_is_ull xv in
  let! y_ull := cdata_is_ull yv in
  let some c := let! c := lift c in ret (Some c) in
  match x_cd, y_cd with
  | Some x, Some y => some (cmp_cd_cd op x x_ull y y_ull)
  | Some x, None => if is_number yv then some (cmp_cd_num op x x_ull yv) else ret None
  | None, Some y => if is_number xv then some (cmp_num_cd op xv y y_ull) else ret None
  | None, None => ret None
  end.

(** C data against a number: the values, or else the low 32 bits. *)
Definition cd_eq_num (v : LuaValue) (c : Dump.CData) (n : f64) : M bool :=
  let! cn := lift (cdata_to_number c) in
  match cn with
  | Some x => if f64_eq x n then ret true else
      let! bits := cdata_u64 v in
      ret (match bits with Some b => b =? uwrap 64 (num2bit n) | None => false end)
  | None =>
      let! bits := cdata_u64 v in
      ret (match bits with Some b => b =? uwrap 64 (num2bit n) | None => false end)
  end.

Definition val_eq (a b : LuaValue) : M bool :=
  if is_number a && is_number b then ret (f64_eq a b) else
  let! ca := cdata_of a in
  let! cb := cdata_of b in
  match ca, cb with
  | Some ca, _ =>
      if is_number b then cd_eq_num a ca b else
      match cb with
      | Some cb =>
          let! an := lift (cdata_to_number ca) in
          let! bn := lift (cdata_to_number cb) in
          ret (match an, bn with
               | Some x, Some y => f64_eq x y
               | _, _ => if Dump.ctypeid ca =? Dump.ctypeid cb then bool_decide (Dump.data ca = Dump.data cb) else false
               end)
      | None => ret (a =? b)
      end
  | None, Some cb => if is_number a then cd_eq_num b cb a else ret (a =? b)
  | None, None => ret (a =? b)
  end.

Definition str2num (o : LuaValue) : M (option f64) :=
  match as_number o with
  | Some n => ret (Some n)
  | None =>
      let! sid := as_string_id o in
      match sid with Some sid => let! b := str_static sid in ret (scan_number b) | None => ret None end
  end.

Definition for_number (v : LuaValue) : M (option f64) := str2num v.
End Values.
