(* ===== verification/VmFrame.v ===== *)
(** * vm/mod.rs: frames, returns, upvalues and closures

    Frames live in the value stack: the callee at [base - 2], the frame link
    at [base - 1], the registers from [base].  The link of a Lua call is the
    address the caller resumes at. *)

From Stdlib Require Import ZArith Lia Bool Ascii String.
From stdpp Require Import base decidable numbers option gmap list.
From S2P Require Import Prelude Float64 Value Strings FloatText PatClass Bytecode Dump Table ParseState VmState VmValue.
From S2P Require Heap.

(** The builtin functions, in Rust, of the standard library: each returns how
    many results it left at the frame's base. *)
Class Builtins (St : Type) := { c_function : Z -> @M St Z }.

Section Frame.
Context {St : Type} `{Strings St} `{StrPtrs St} `{Builtins St}.
#[local] Abbreviation M := (@M St).
#[local] Notation "'let!' x := a 'in' b" := (bind a (fun x => b)) (at level 10, x name, a at level 100, b at level 200).
#[local] Notation "'let!' ' p := a 'in' b" := (bind a (fun p => b)) (at level 10, p strict pattern, a at level 100, b at level 200).
#[local] Notation "'do!' a 'in' b" := (bind a (fun _ => b)) (at level 10, a at level 100, b at level 200).
#[local] Notation "'when' b 'do' a" := (if b then a else ret tt) (at level 10, b at level 100, a at level 100).

(** ** Entering a Lua function *)

Definition is_vararg (pt : VmProto) : bool := has (VmProto.flags pt) PROTO_VARARG.

Definition load_closure (c : Z) (pt : VmProto) : M unit :=
  modi (fun x => set_ksp (VmProto.kstrv pt) (set_knp (VmProto.kn pt) (set_bcp (VmProto.bc_ptr pt) (set_cl c x)))).
Definition reload (c : Z) : M unit := let! pt := proto_of c in load_closure c pt.
Definition set_tops (t : Z) : M unit := modl (fun x => set_frame_top t (set_top t x)).

Definition enter_lua_need (gf func_slot nargs : Z) : M Z :=
  let! pt := proto_of gf in
  let callbase := func_slot + 2 in
  ret (if is_vararg pt then callbase + nargs + 2 + VmProto.numparams pt + VmProto.framesize pt + 16
       else callbase + VmProto.framesize pt + 16).

(** The fixed parameters of a vararg function, above its arguments. *)
Fixpoint copy_params (n : nat) (i nargs src dst : Z) : M unit :=
  match n with
  | O => ret tt
  | S n =>
      let! v := (if i <? nargs then at_ (src + i) else ret NIL) in
      do! set_at (dst + i) v in
      copy_params n (i + 1) nargs src dst
  end.

(** The [arg] table of LUA_COMPAT_VARARG. *)
Fixpoint arg_items (n : nat) (tab i src : Z) : M unit :=
  match n with
  | O => ret tt
  | S n =>
      let! v := at_ (src + i) in
      do! tab_set_int tab (i + 1) v in
      arg_items n tab (i + 1) src
  end.
Definition implicit_arg (pt : VmProto) (callbase newbase nargs : Z) : M unit :=
  let numparams := VmProto.numparams pt in
  if has (VmProto.flags pt) PROTO_VARARG_NEEDSARG then
    let nvar := Z.max 0 (nargs - numparams) in
    let! t := lift (Table.new nvar 1) in
    let! tab := alloc_table t in
    do! arg_items (Z.to_nat nvar) tab 0 (callbase + numparams) in
    let! nsid := intern (lit "n") in
    let! k := str_value nsid in
    do! tab_set tab k (number (f64_of_int nvar)) in
    set_at (newbase + numparams) (Value.table tab)
  else set_at (newbase + numparams) NIL.

(** FUNCV: a frame above the arguments, chained to the one with the link. *)
Definition enter_vararg (gf : Z) (pt : VmProto) (callbase nargs : Z) : M Z :=
  let newbase := callbase + nargs + 2 in
  do! set_at (newbase - 2) (Value.func gf) in
  do! copy_params (Z.to_nat (VmProto.numparams pt)) 0 nargs callbase newbase in
  do! set_at (newbase - 1) (frame_link_of (newbase - callbase) FRAME_VARG) in
  do! modi (set_base newbase) in
  do! set_tops (newbase + VmProto.framesize pt) in
  do! implicit_arg pt callbase newbase nargs in
  ret newbase.

(** The frame of [gf] at [callbase]: both kinds of header. *)
Definition enter_header (gf : Z) (pt : VmProto) (callbase nargs : Z) : M unit :=
  let! newbase :=
    (if is_vararg pt then enter_vararg gf pt callbase nargs
     else do! nil_range nargs (VmProto.numparams pt) callbase in
          do! modi (set_base callbase) in ret callbase) in
  do! load_closure gf pt in
  set_tops (newbase + VmProto.framesize pt).

Definition enter_lua_sans_ensure (gf func_slot nargs link : Z) : M unit :=
  let! pt := proto_of gf in
  let callbase := func_slot + 2 in
  do! set_at (callbase - 1) link in
  do! enter_header gf pt callbase nargs in
  modi (set_pc 1).

Definition enter_lua (gf func_slot nargs link : Z) : M unit :=
  let! need := enter_lua_need gf func_slot nargs in
  do! stack_ensure need in
  enter_lua_sans_ensure gf func_slot nargs link.

(** A metamethod in a frame above the running one, with a continuation. *)
Definition mmcall_cont (cont_id : Cont.t) (extra : Z) (mo : LuaValue) (args : list LuaValue) : M unit :=
  let! saved_base := geti base in
  let! pt := proto in
  let func_slot := saved_base + VmProto.framesize pt + 2 in
  let mmbase := func_slot + 2 in
  let! gf := lift (as_func mo) in
  let! lua_need := enter_lua_need gf func_slot (zlen args) in
  do! stack_ensure (Z.max (mmbase + zlen args + 16) lua_need) in
  do! set_at (mmbase - 4) (cont_encode cont_id extra) in
  let! pc := geti pc in
  do! set_at (mmbase - 3) pc in
  do! set_at func_slot mo in
  do! put_slots mmbase args in
  enter_lua_sans_ensure gf func_slot (zlen args) (frame_link_of (mmbase - saved_base) FRAME_CONT).

(** ** Calling builtins *)

Definition c_frame (args_base nargs saved_base : Z) : M unit :=
  do! set_at (args_base - 1) (frame_link_of saved_base FRAME_LUA) in
  modl (fun x => set_top (args_base + nargs) (set_l_base args_base x)).

(** The count of results; a negative one would run past the stack. *)
Definition c_results (nv : Z) : option Z := if 0 <=? nv then Some nv else None.

Definition call_c_inline (f func_slot nargs : Z) : M Z :=
  let args_base := func_slot + 2 in
  do! stack_ensure (args_base + nargs + 8) in
  let! saved_base := getl l_base in
  let! saved_top := getl top in
  do! c_frame args_base nargs saved_base in
  let! r := attempt (c_function f) in
  let restore := modl (fun x => set_top saved_top (set_l_base saved_base x)) in
  match r with
  | inr e => do! restore in fail e
  | inl nv =>
      let! n := lift (c_results nv) in
      do! stack_ensure (Z.max (func_slot + n + 8) (args_base + nargs + 8)) in
      do! copy_slots (Z.to_nat n) func_slot args_base in
      do! restore in
      ret n
  end.

(** The instruction that called, by [debug_pc]; its destination register. *)
Definition call_a (c : Z) (pc : Z) : M Z :=
  let! f := func_at c in
  match f with
  | FLua p _ _ =>
      let! pt := proto_at p in
      ret (match znth (VmProto.bc pt) (pc - 1) with Some i => if 1 <=? pc then bc_a i else 0 | None => 0 end)
  | FC _ _ _ => ret 0
  end.

Definition was_protected (s : Suspend) : bool := match s with SCall _ _ _ _ _ p _ => p | _ => false end.

(** A builtin yielded below a host call. *)
Definition suspend_host (func_slot args_base want : Z) : M unit :=
  let! ny := getl nyield in
  do! copy_slots (Z.to_nat ny) func_slot args_base in
  let! pc := getl debug_pc in
  let! s := getl stack in
  let! f0 := lift (let? v := znth s 0 in as_func v) in
  let c := match znth s (Z.max 0 (func_slot - 2)) with
           | Some v => match as_func v with Some c => c | None => f0 end
           | None => f0 end in
  let! a := call_a c pc in
  let! sus := getl suspend in
  do! modl (set_suspend (SCall pc c (Z.max 0 (func_slot - a)) func_slot want (was_protected sus) func_slot)) in
  modl (fun x => set_top (Z.max (l_base x + 8) (func_slot + ny)) x).

Definition call_c (f func_slot nargs want : Z) : M Z :=
  let args_base := func_slot + 2 in
  do! stack_ensure (args_base + nargs + 8) in
  let! saved_base := getl l_base in
  let! saved_top := getl top in
  let! saved_frame_top := getl frame_top in
  do! c_frame args_base nargs saved_base in
  let! r := attempt (c_function f) in
  let restore := modl (fun x => set_frame_top saved_frame_top (set_top saved_top (set_l_base saved_base x))) in
  match r with
  | inr Yield => do! suspend_host func_slot args_base want in do! restore in fail Yield
  | inr e => do! restore in fail e
  | inl nv =>
      let! n := lift (c_results nv) in
      do! stack_ensure (Z.max (func_slot + n + 8) (args_base + nargs + 8)) in
      do! copy_slots (Z.to_nat n) func_slot args_base in
      do! restore in
      if 0 <=? want then
        do! nil_range n want func_slot in
        do! modl (set_top (func_slot + want)) in ret want
      else do! modl (set_top (func_slot + n)) in ret n
  end.

(** A builtin metamethod, called in scratch space above the frame. *)
Definition call_c_fn (f : Z) (mo : LuaValue) (args : list LuaValue) : M LuaValue :=
  let! b := geti base in
  let! pt := proto in
  let fs := b + VmProto.framesize pt in
  do! stack_ensure (fs + 2 + zlen args + 8) in
  do! set_at fs mo in
  do! set_at (fs + 1) NIL in
  do! put_slots (fs + 2) args in
  let! n := call_c_inline f fs (zlen args) in
  if 0 <? n then at_ fs else ret NIL.

(** A call in a Lua frame yielded, or a tail call did. *)
Definition suspend_tops (func_slot ny : Z) : M unit :=
  let! b := geti base in
  let! pt := proto in
  modl (fun x => set_l_base b (set_top (Z.max (b + VmProto.framesize pt) (func_slot + ny)) x)).

Definition suspend_call (func_slot want : Z) : M LuaError :=
  let! ny := getl nyield in
  let! sus := getl suspend in
  let protected := was_protected sus in
  let src := match sus with SCall _ _ _ _ _ true vs => vs | _ => func_slot + 2 end in
  do! copy_slots (Z.to_nat ny) func_slot src in
  let! x := gets it in
  do! modl (set_suspend (SCall (pc x) (cl x) (base x) func_slot want protected func_slot)) in
  do! suspend_tops func_slot ny in
  ret Yield.

Definition suspend_return (func_slot : Z) : M LuaError :=
  let! ny := getl nyield in
  do! copy_slots (Z.to_nat ny) func_slot (func_slot + 2) in
  let! b := geti base in
  do! modl (set_suspend (SReturn b func_slot)) in
  do! suspend_tops func_slot ny in
  ret Yield.

(** ** Upvalues *)

Definition upval_get (p : Z) : M LuaValue :=
  let! u := upval_at p in match uv_slot u with Some i => at_ i | None => ret (uv_tv u) end.
Definition upval_set (p : Z) (v : LuaValue) : M unit :=
  let! u := upval_at p in
  match uv_slot u with Some i => set_at i v | None => upval_set_at p (mkUpval None v (uv_immutable u)) end.

Fixpoint find_open (uvs : list Z) (slot : Z) : M (option Z) :=
  match uvs with
  | [] => ret None
  | p :: uvs =>
      let! u := upval_at p in
      if bool_decide (uv_slot u = Some slot) then ret (Some p) else find_open uvs slot
  end.

Definition find_upval (slot : Z) : M Z :=
  let! uvs := getl openuv in
  let! found := find_open uvs slot in
  match found with
  | Some p => ret p
  | None =>
      let! p := alloc_upval (mkUpval (Some slot) NIL false) in
      do! modl (fun x => set_openuv (openuv x ++ [p]) x) in
      ret p
  end.

(** [Upval::close]: the value moves from its slot into the upvalue. *)
Definition upval_close (p : Z) : M unit :=
  let! u := upval_at p in
  match uv_slot u with
  | Some i => let! v := at_ i in upval_set_at p (mkUpval None v (uv_immutable u))
  | None => ret tt
  end.

(** One unit of fuel per open upvalue. *)
Fixpoint close_loop (n : nat) (i : nat) (level : Z) : M unit :=
  match n with
  | O => ret tt
  | S n =>
      let! uvs := getl openuv in
      match uvs !! i with
      | None => ret tt
      | Some p =>
          let! u := upval_at p in
          if (match uv_slot u with Some s => level <=? s | None => false end) then
            do! upval_close p in
            let! uvs := lift (Heap.swap_remove uvs i) in
            do! modl (set_openuv uvs) in
            close_loop n i level
          else close_loop n (S i) level
      end
  end.
Definition close_upvals (level : Z) : M unit := let! uvs := getl openuv in close_loop (length uvs) 0 level.

(** ** Closures *)

Definition capture_uv (v : Z) : M Z :=
  if has v PROTO_UV_LOCAL then
    let! b := geti base in
    let! p := find_upval (b + Z.land v 0xff) in
    do! when has v PROTO_UV_IMMUTABLE do
      (let! u := upval_at p in upval_set_at p (mkUpval (uv_slot u) (uv_tv u) true)) in
    ret p
  else let! ' (_, _, uvs) := lua_cl in lift (znth uvs (Z.land v 0xff)).

Fixpoint capture_uvs (vs : list Z) : M (list Z) :=
  match vs with
  | [] => ret []
  | v :: vs => let! p := capture_uv v in let! ps := capture_uvs vs in ret (p :: ps)
  end.

Definition kgc_at (d : Z) : M VmKGc := let! pt := proto in lift (znth (VmProto.kgc pt) d).

Definition new_closure (d : Z) : M LuaValue :=
  let! k := kgc_at d in
  match k with
  | VProto p =>
      let! pt := proto_at p in
      let! ' (_, env, _) := lua_cl in
      let! uvs := capture_uvs (VmProto.uv pt) in
      let! f := alloc_func (FLua p env uvs) in
      ret (Value.func f)
  | _ => stuck
  end.

Definition op_tdup (d : Z) : M LuaValue :=
  let! k := kgc_at d in
  match k with VTable t => let! p := alloc_table (Table.dup t) in ret (Value.table p) | _ => stuck end.

Definition op_uclo (a : Z) : M unit := let! b := geti base in close_upvals (b + a).

(** The values [want] asks for: the varargs, padded with nil. *)
Fixpoint copy_varg (n : nat) (i nvarg dst src : Z) : M unit :=
  match n with
  | O => ret tt
  | S n =>
      let! v := (if i <? nvarg then at_ (src + i) else ret NIL) in
      do! set_at (dst + i) v in
      copy_varg n (i + 1) nvarg dst src
  end.

Definition op_varg (a b : Z) : M unit :=
  let! fb := geti base in
  let! link := at_ (fb - 1) in
  if negb (frame_type link =? FRAME_VARG) then ret tt else
  let delta := frame_delta link in
  if delta <? 2 then modi (set_multres 0) else
  let! pt := proto in
  let numparams := VmProto.numparams pt in
  let nvarg := Z.max 0 (delta - 2 - numparams) in
  let! len := stack_len in
  do! when len <? fb + a + nvarg + 8 do stack_ensure (fb + a + nvarg + 8) in
  let src := fb - delta + numparams in
  if b =? 0 then
    do! copy_slots (Z.to_nat nvarg) (fb + a) src in
    do! modi (set_multres nvarg) in
    modl (set_top (fb + a + nvarg))
  else copy_varg (Z.to_nat (b - 1)) 0 nvarg (fb + a) src.

(** ** Returning *)

(** Continue after a metamethod's return. *)
Definition cont_jump (taken : bool) (saved_pc : Z) : M unit :=
  let! b := geti bcp in
  let! jmp := read_ins (b + 4 * saved_pc) in
  modi (set_pc (saved_pc + 1 + (if taken then bc_j jmp else 0))).

Definition cont_dispatch (mmbase link n : Z) : M (option Z) :=
  let delta := frame_delta link in
  if (delta =? 0) || (mmbase <? delta) then ret None else
  let caller_base := mmbase - delta in
  let! w := at_ (mmbase - 4) in
  let! ' (cont, extra) := lift (cont_decode w) in
  let! saved_pc := at_ (mmbase - 3) in
  let! result := (if 0 <? n then at_ (mmbase - 2) else ret NIL) in
  do! modi (set_base caller_base) in
  let! fv := at_ (caller_base - 2) in
  let! c := lift (as_func fv) in
  do! reload c in
  let! pt := proto in
  do! set_tops (caller_base + VmProto.framesize pt) in
  do! match cont with
      | Cont.Ra => do! set_at (caller_base + extra) result in modi (set_pc saved_pc)
      | Cont.Nop => modi (set_pc saved_pc)
      | Cont.Condt => cont_jump (is_truthy result) saved_pc
      | Cont.Condf => cont_jump (negb (is_truthy result)) saved_pc
      end in
  ret None.

Definition NO_LINK : Z := 2 ^ 64 - 1.

(** Down the vararg frames to the frame with the real link: its base and the
    link.  The base falls at every turn. *)
Fixpoint real_frame (n : nat) (b link : Z) : M (option (Z * Z)) :=
  match n with
  | O => no_fuel
  | S n =>
      if frame_type link =? FRAME_VARG then
        let sz := frame_delta link in
        if (sz =? 0) || (b <? sz) then ret (Some (b, link))
        else if b - sz <? 2 then ret (Some (b - sz, link))
        else
          let! link := at_ (b - sz - 1) in
          if link =? NO_LINK then ret None else real_frame n (b - sz) link
      else ret (Some (b, link))
  end.

(** Back in the host function that called [execute]. *)
Definition return_host (dst n link : Z) : M Z :=
  let! len := stack_len in
  let want := Z.min (swrap 32 (frame_delta link) - 1) (Z.max 0 (len - dst)) in
  do! when 0 <=? want do nil_range n want dst in
  let got := if 0 <=? want then want else n in
  let! top_now := getl top in
  let keep := Z.min (dst + got) top_now in
  let clear_from := Z.min (Z.max (dst + 2) keep) top_now in
  do! nil_range clear_from top_now 0 in
  do! modl (set_top (dst + got)) in
  ret got.

(** Back in the Lua function whose call the link is the return address of. *)
Definition return_lua (dst n link : Z) : M unit :=
  let! call_ins := read_ins (link - 4) in
  let caller_base := dst - bc_a call_ins in
  let want := bc_b call_ins - 1 in
  let! callee := proto in
  let callee_top := dst + 2 + VmProto.framesize callee in
  do! modi (set_base caller_base) in
  let! fv := at_ (caller_base - 2) in
  let! c := lift (as_func fv) in
  do! reload c in
  do! modi (fun x => set_pc ((link - bcp x) / 4) x) in
  let! pt := proto in
  do! modl (set_frame_top (caller_base + VmProto.framesize pt)) in
  do! when 0 <=? want do nil_range n want dst in
  let keep := dst + (if 0 <=? want then want else n) in
  let clear_from := Z.max (dst + 2) keep in
  do! nil_range clear_from (Z.max callee_top clear_from) 0 in
  modl (set_top keep).

(** [Some] results when a host call returns. *)
Definition do_return (src n : Z) : M (option Z) :=
  let! uvs := getl openuv in
  let! b := geti base in
  do! when negb (bool_decide (uvs = [])) do close_upvals b in
  if b <? 2 then ret None else
  let! link := at_ (b - 1) in
  if link =? NO_LINK then ret None else
  let! f := real_frame (S (Z.to_nat b)) b link in
  match f with
  | None => ret None
  | Some (b, link) =>
      let! dst := lift (if b <? 2 then None else Some (b - 2)) in
      do! copy_slots (Z.to_nat n) dst src in
      do! modi (set_multres n) in
      if frame_type link =? FRAME_CONT then cont_dispatch b link n
      else if frame_type link =? FRAME_C then let! got := return_host dst n link in ret (Some got)
      else
        let! len := stack_len in
        if frame_delta link <? len then do! modl (set_top (dst + n)) in ret (Some n)
        else do! return_lua dst n link in ret None
  end.
End Frame.
