(* ===== verification/VmMeta.v ===== *)
(** * vm/meta.rs: metamethods, and the names in error messages

    A metamethod in Lua gets a frame with a continuation, and the operation
    answers [None]; a builtin one is called in place.  [__concat] re-enters the
    interpreter, through the argument [execute]. *)

From Stdlib Require Import ZArith Lia Bool Ascii String.
From stdpp Require Import base decidable numbers option gmap list.
From S2P Require Import Prelude Float64 Value Strings FloatText PatClass Fold StrFmt Bytecode Dump Table ParseState VmState VmValue VmFrame.
From S2P Require Intern.

(** ** The name of a register's value *)

Definition is_branch (op : BCOp.t) : bool :=
  match op with
  | BCOp.ISLT | BCOp.ISGE | BCOp.ISLE | BCOp.ISGT | BCOp.ISEQV | BCOp.ISNEV | BCOp.ISEQS | BCOp.ISNES
  | BCOp.ISEQN | BCOp.ISNEN | BCOp.ISEQP | BCOp.ISNEP | BCOp.ISTC | BCOp.ISFC | BCOp.IST | BCOp.ISF
  | BCOp.ISTYPE | BCOp.ISNUM | BCOp.ISNEXT => true
  | _ => false
  end.
Definition is_loop (op : BCOp.t) : bool :=
  match op with
  | BCOp.FORI | BCOp.JFORI | BCOp.FORL | BCOp.IFORL | BCOp.JFORL | BCOp.ITERL | BCOp.IITERL | BCOp.JITERL
  | BCOp.ITERC | BCOp.ITERN | BCOp.LOOP | BCOp.ILOOP | BCOp.JLOOP => true
  | _ => false
  end.

Fixpoint debug_varname (names : list (Z * Z * Z * list Z)) (pc slot : Z) : option (list Z) :=
  match names with
  | [] => None
  | (s, a, b, name) :: names =>
      if (s =? slot) && (a <=? pc) && (pc <=? b) then Some name else debug_varname names pc slot
  end.

(** A scan of the code: a move restarts it for the source register. *)
Inductive Scan := Restart (slot : Z) | Last (w : option (Z * BCOp.t)).

(** The instruction counter rises at every turn, up to [limit]. *)
Fixpoint scan_writes (n : nat) (bc : list Z) (limit slot i : Z) (last : option (Z * BCOp.t)) : option Scan :=
  match n with
  | O => Some (Last last)
  | S n =>
      if limit <=? i then Some (Last last) else
      let? ins := znth bc i in
      let? op := bc_op ins in
      let ra := bc_a ins in
      let next last := scan_writes n bc limit slot (i + 1) last in
      let wrote (b : bool) := next (if b then Some (i, op) else last) in
      if is_op op BCOp.JMP then
        let dest := i + 1 + bc_j ins in
        if (i <? dest) && (dest <=? limit) then scan_writes n bc limit slot dest last else next last
      else if is_branch op then
        wrote ((if is_op op BCOp.ISTC || is_op op BCOp.ISFC then bc_d ins else ra) =? slot)
      else if is_op op BCOp.KNIL then wrote ((ra <=? slot) && (slot <=? bc_d ins))
      else if is_loop op then wrote (ra <=? slot)
      else
        let? m := bcmode_a op in
        if m =? BCMode.code BCMode.Dst then
          if ra =? slot then if is_op op BCOp.MOV then Some (Restart (bc_d ins)) else wrote true
          else next last
        else wrote ((m =? BCMode.code BCMode.Base) && (ra <=? slot))
  end.

Section Meta.
Context {St : Type} `{Strings St} `{StrPtrs St} `{Builtins St} `{Libm}.
#[local] Abbreviation M := (@M St).
#[local] Notation "'let!' x := a 'in' b" := (bind a (fun x => b)) (at level 10, x name, a at level 100, b at level 200).
#[local] Notation "'let!' ' p := a 'in' b" := (bind a (fun p => b)) (at level 10, p strict pattern, a at level 100, b at level 200).
#[local] Notation "'do!' a 'in' b" := (bind a (fun _ => b)) (at level 10, a at level 100, b at level 200).
#[local] Notation "'when' b 'do' a" := (if b then a else ret tt) (at level 10, b at level 100, a at level 100).

Definition kstr_name (pt : VmProto) (idx : Z) : M (list Z) :=
  let! st := geth strings in
  ret (match (let? v := znth (VmProto.kstrv pt) idx in as_string v) with
       | Some p => from_utf8_lossy (str_bytes (StrHeap := str_heap st) p)
       | None => lit "?" end).
Definition uv_name (pt : VmProto) (idx : Z) : list Z :=
  match znth (VmProto.uvnames pt) idx with Some n => n | None => lit "?" end.

(** What the last writer of the register loads. *)
Definition writer_name (pt : VmProto) (li : Z) (lop : BCOp.t) : M (option (list Z * list Z)) :=
  let! ins := lift (znth (VmProto.bc pt) li) in
  match lop with
  | BCOp.GGET => let! n := kstr_name pt (bc_d ins) in ret (Some (lit "global", n))
  | BCOp.TGETS =>
      let! n := kstr_name pt (bc_c ins) in
      let is_method :=
        match znth (VmProto.bc pt) (li - 1) with
        | Some insp =>
            (1 <? li) && bool_decide (bc_op insp = Some BCOp.MOV) && (bc_a insp =? bc_a ins + 2) && (bc_d insp =? bc_b ins)
        | None => false end in
      ret (Some (if is_method then lit "method" else lit "field", n))
  | BCOp.UGET => ret (Some (lit "upvalue", uv_name pt (bc_d ins)))
  | _ => ret None
  end.

(** One unit of fuel per register the scan restarts for. *)
Fixpoint debug_slotname (n : nat) (pt : VmProto) (pc slot : Z) : M (option (list Z * list Z)) :=
  match n with
  | O => no_fuel
  | S n =>
      match debug_varname (VmProto.varnames pt) pc slot with
      | Some name => ret (Some (lit "local", name))
      | None =>
          let! s := lift (scan_writes (Z.to_nat pc) (VmProto.bc pt) pc slot 1 None) in
          match s with
          | Restart slot => debug_slotname n pt pc slot
          | Last None => ret None
          | Last (Some (li, lop)) => writer_name pt li lop
          end
      end
  end.

(** There are 256 registers: a scan that restarts more often runs in circles. *)
Definition slotname (pt : VmProto) (pc slot : Z) : M (option (list Z * list Z)) := debug_slotname 257 pt pc slot.

Definition debug_callname (func_slot : Z) : M (option (list Z * list Z)) :=
  let! s := getl stack in
  let! b := getl l_base in
  let! pc := getl debug_pc in
  match (let? v := znth s (Z.max 0 (b - 2)) in as_func v) with
  | None => ret None
  | Some c =>
      let! f := func_at c in
      match f with
      | FC _ _ _ => ret None
      | FLua p _ _ =>
          let! pt := proto_at p in
          match znth (VmProto.bc pt) (pc - 1) with
          | None => ret None
          | Some ins =>
              let! op := lift (bc_op ins) in
              if (1 <=? pc) && (is_op op BCOp.CALL || is_op op BCOp.CALLM || is_op op BCOp.CALLT) &&
                 (b <=? func_slot) && (func_slot - b =? bc_a ins)
              then slotname pt (pc - 1) (bc_a ins) else ret None
          end
      end
  end.

(** [attempt to <verb> <kind> '<name>' (a <type> value)]. *)
Definition named_error (verb : list Z) (n : list Z * list Z) (o : LuaValue) : list Z :=
  lit "attempt to " ++ verb ++ lit " " ++ fst n ++ lit " '" ++ snd n ++ lit "' (a " ++ lua_typename o ++ lit " value)".

(** The name of the register the failing instruction read, if it has one. *)
Definition operand_name (slot_of : Z -> M (option Z)) : M (option (list Z * list Z)) :=
  let! pt := proto in
  let! pc := geti pc in
  match znth (VmProto.bc pt) (pc - 1) with
  | Some ins =>
      if 2 <=? pc then
        let! slot := slot_of ins in
        match slot with Some s => slotname pt (pc - 1) s | None => ret None end
      else ret None
  | None => ret None
  end.

Definition type_error {A} (verb : list Z) (slot_of : Z -> M (option Z)) (o : LuaValue) (otherwise : list Z) : M A :=
  let! n := operand_name slot_of in
  raise (match n with Some n => named_error verb n o | None => otherwise end).

Definition index_error {A} (o : LuaValue) : M A :=
  type_error (lit "index") (fun i => ret (Some (bc_b i))) o (lit "attempt to index a non-table value").

Definition arith_operand_slot (op : BCOp.t) (is_b : bool) (ins : Z) : option Z :=
  match op with
  | BCOp.UNM | BCOp.ADDVV | BCOp.SUBVV | BCOp.MULVV | BCOp.DIVVV | BCOp.MODVV | BCOp.POW | BCOp.BAND | BCOp.BOR
  | BCOp.BXOR | BCOp.BSHL | BCOp.BSHR => Some (if is_b then bc_b ins else bc_c ins)
  | BCOp.ADDVN | BCOp.SUBVN | BCOp.MULVN | BCOp.DIVVN | BCOp.MODVN => if is_b then Some (bc_b ins) else None
  | BCOp.ADDNV | BCOp.SUBNV | BCOp.MULNV | BCOp.DIVNV | BCOp.MODNV => if is_b then None else Some (bc_b ins)
  | _ => None
  end.

Definition arith_error {A} (rb rc : LuaValue) : M A :=
  let! nb := str2num rb in
  let rb_bad := match nb with Some _ => false | None => true end in
  type_error (lit "perform arithmetic on")
    (fun i => let! op := lift (bc_op i) in ret (arith_operand_slot op rb_bad i))
    (if rb_bad then rb else rc) (lit "attempt to perform arithmetic on a non-number value").

(** ** Calling a metamethod *)

(** Four levels of [__call]. *)
Fixpoint resolve_loop (n : nat) (mo : LuaValue) : M (option LuaValue) :=
  match n with
  | O => ret None
  | S n =>
      if is_func mo then ret (Some mo)
      else if is_nil mo then ret None
      else let! mo := meta_lookup mo MM.Call in resolve_loop n mo
  end.
Definition resolve_callable (v : LuaValue) : M (option LuaValue) :=
  let! mo := meta_lookup v MM.Call in resolve_loop 4 mo.

(** A function: a builtin answers at once, a Lua one through its continuation. *)
Definition invoke (mo : LuaValue) (args : list LuaValue) (cont : Cont.t) (extra : Z) : M (option LuaValue) :=
  let! p := lift (as_func mo) in
  let! f := func_at p in
  match f with
  | FC f _ _ => let! v := call_c_fn f mo args in ret (Some v)
  | FLua _ _ _ => do! mmcall_cont cont extra mo args in ret None
  end.

(** Any value: through its [__call] with itself as the first argument. *)
Definition invoke_any (mo : LuaValue) (args : list LuaValue) (cont : Cont.t) (extra : Z) (bad : M (option LuaValue)) :
    M (option LuaValue) :=
  if is_func mo then invoke mo args cont extra else
  let! mo2 := resolve_callable mo in
  match mo2 with
  | Some mo2 => invoke mo2 (mo :: args) cont extra
  | None => bad
  end.

(** ** Indexing *)

Definition LJ_MAX_IDXCHAIN : nat := 100.

Definition note_index (mo : LuaValue) : M unit :=
  let! p := lift (as_func mo) in
  let! f := func_at p in
  when is_lua f do modl (set_mmname (Some (lit "__index", mo))).

Fixpoint tget_loop (n : nat) (cur k : LuaValue) (a : Z) : M (option LuaValue) :=
  match n with
  | O => raise (lit "'__index' chain too long; possible loop")
  | S n =>
      let through mo :=
        if is_func mo then do! note_index mo in invoke mo [cur; k] Cont.Ra a
        else tget_loop n mo k a in
      match as_table cur with
      | Some t =>
          let! tv := tab_get t k in
          if negb (is_nil tv) then ret (Some tv) else
          let! tb := table_at t in
          let! mo := meta_fast (metatable tb) MM.Index in
          match mo with None => ret (Some NIL) | Some mo => through mo end
      | None =>
          let! mo := meta_lookup cur MM.Index in
          if is_nil mo then index_error cur else through mo
      end
  end.
Definition meta_tget (o k : LuaValue) (a : Z) : M (option LuaValue) := tget_loop LJ_MAX_IDXCHAIN o k a.

(** The answer [Some tt] is a store done in place. *)
Fixpoint tset_loop (n : nat) (cur k v : LuaValue) : M (option unit) :=
  match n with
  | O => raise (lit "'__newindex' chain too long; possible loop")
  | S n =>
      let through mo :=
        if is_func mo then
          let! r := invoke mo [cur; k; v] Cont.Nop 0 in ret (option_map (fun _ => tt) r)
        else tset_loop n mo k v in
      match as_table cur with
      | Some t =>
          let! tv := tab_get t k in
          if negb (is_nil tv) then do! tab_set t k v in ret (Some tt) else
          let! tb := table_at t in
          let! mo := meta_fast (metatable tb) MM.Newindex in
          match mo with
          | None =>
              if is_nil k then raise (lit "table index is nil")
              else if match as_number k with Some n => f64_is_nan n | None => false end
              then raise (lit "table index is NaN")
              else do! tab_set t k v in ret (Some tt)
          | Some mo => through mo
          end
      | None =>
          let! mo := meta_lookup cur MM.Newindex in
          if is_nil mo then index_error cur else through mo
      end
  end.
Definition meta_tset (o k v : LuaValue) : M (option unit) := tset_loop LJ_MAX_IDXCHAIN o k v.

(** ** Arithmetic, comparison, length *)

Definition meta_arith (mm : MM.t) (rb rc : LuaValue) (a : Z) : M (option LuaValue) :=
  let! b := str2num rb in
  let! c := str2num rc in
  match b, c with
  | Some b, Some c => let! r := lift (foldarith mm b c) in ret (Some (number_raw r))
  | _, _ =>
      let! mo := meta_lookup rb mm in
      let! mo := (if is_nil mo then meta_lookup rc mm else ret mo) in
      if is_nil mo then arith_error rb rc
      else invoke_any mo [rb; rc] Cont.Ra a (arith_error rb rc)
  end.

(** Bytes in their order. *)
Fixpoint bytes_lt (a b : list Z) : bool :=
  match a, b with
  | _, [] => false
  | [], _ :: _ => true
  | x :: a, y :: b => if x <? y then true else if y <? x then false else bytes_lt a b
  end.
Definition bytes_le (a b : list Z) : bool := negb (bytes_lt b a).

Definition incomparable {A} : M A := raise (lit "attempt to compare incompatible values").

(** [__le] falls back once, to [not (o2 < o1)]. *)
Fixpoint comp_loop (n : nat) (o1 o2 : LuaValue) (op : Z) : M (option bool) :=
  match n with
  | O => no_fuel
  | S n =>
      let le := negb (Z.land op 2 =? 0) in
      let neg := negb (Z.land op 1 =? 0) in
      let mm := if le then MM.Le else MM.Lt in
      let! mo := meta_lookup o1 mm in
      let! mo := (if is_nil mo then meta_lookup o2 mm else ret mo) in
      if is_nil mo then
        if le then comp_loop n o2 o1 (Z.lxor op 3) else incomparable
      else
        let! r := invoke_any mo [o1; o2] (if neg then Cont.Condf else Cont.Condt) 0 incomparable in
        ret (option_map (fun v => xorb (is_truthy v) neg) r)
  end.

Definition meta_comp (o1 o2 : LuaValue) (op : Z) : M (option bool) :=
  if (itype o1 =? itype o2) || (is_bool o1 && is_bool o2) then
    let! s1 := as_string_id o1 in
    let! s2 := as_string_id o2 in
    match s1, s2 with
    | Some s1, Some s2 =>
        let! a := str_static s1 in
        let! b := str_static s2 in
        ret (Some (xorb (if negb (Z.land op 2 =? 0) then bytes_le a b else bytes_lt a b) (negb (Z.land op 1 =? 0))))
    | _, _ => comp_loop 2 o1 o2 op
    end
  else incomparable.

Definition same_mt (a b : option Z) : bool := bool_decide (a = b).

Definition meta_equal (o1 o2 : LuaValue) (ne : Z) : M (option bool) :=
  let! mt1 := metatable_of o1 in
  let! mo := meta_fast mt1 MM.Eq in
  match mo with
  | None => ret (Some false)
  | Some mo =>
      let! mt2 := metatable_of o2 in
      let! same := (if same_mt mt1 mt2 then ret true else
                    let! mo2 := meta_fast mt2 MM.Eq in
                    ret (match mo2 with Some mo2 => obj_equal mo mo2 | None => false end)) in
      if negb same then ret (Some false) else
      let cont := if negb (ne =? 0) then Cont.Condf else Cont.Condt in
      let! r := invoke_any mo [o1; o2] cont 0 (ret (Some FALSE)) in
      ret (option_map is_truthy r)
  end.

Definition meta_len (o : LuaValue) (a : Z) : M (option LuaValue) :=
  let bad := raise (lit "attempt to get length of a non-table value") in
  let! mo := meta_lookup o MM.Len in
  if is_nil mo then bad else invoke_any mo [o; o] Cont.Ra a bad.

(** ** Concatenation *)

(** The lowest slot of the run of strings and numbers that ends at [top]. *)
Fixpoint cat_start (n : nat) (bottom o : Z) : M Z :=
  match n with
  | O => ret o
  | S n =>
      if bottom <? o then
        let! v := at_ (o - 1) in if concat_ok v then cat_start n bottom (o - 1) else ret o
      else ret o
  end.

Fixpoint cat_text (n : nat) (i : Z) : M (list Z) :=
  match n with
  | O => ret []
  | S n =>
      let! v := at_ i in
      let! sid := as_string_id v in
      let! s := match sid with Some sid => str_static sid | None => lift (g14 v) end in
      let! rest := cat_text n (i + 1) in
      ret (s ++ rest)
  end.

(** The text's hash, continued from the previous result when it is a prefix. *)
Definition cat_state (o top : Z) (buf : list Z) : M Z :=
  let whole := ret (Intern.fnv1a_state buf) in
  if top =? o + 1 then
    let! v := at_ o in
    let! sid := as_string_id v in
    let! ch := geth cat_hash in
    match sid, ch with
    | Some sid, Some (id, st) =>
        if id =? sid then
          let! s := str_static sid in ret (Intern.fnv1a_cont st (drop (length s) buf))
        else whole
    | _, _ => whole
    end
  else whole.

Context `{StrHash St}.

Definition intern_with_hash (b : list Z) (hash : Z) : M Z :=
  let! st := geth strings in
  let! ' (st, sid) := lift (str_intern_hash st b hash) in
  do! modh (set_strings st) in ret sid.

Definition cat_run (bottom top : Z) : M Z :=
  let! o := cat_start (Z.to_nat (top - 1 - bottom)) bottom (top - 1) in
  let! buf := cat_text (Z.to_nat (top + 1 - o)) o in
  if 0xfffffe00 <? zlen buf then raise (lit "string length overflow") else
  let! state := cat_state o top buf in
  let! sid := intern_with_hash buf (Intern.fnv1a_fold state) in
  let! v := str_value sid in
  do! modh (set_cat_hash (Some (sid, state))) in
  do! set_at o v in
  ret o.

Definition cat_error {A} (o1 o2 : LuaValue) (top : Z) : M A :=
  let! b := geti base in
  let bad_slot := if negb (concat_ok o1) then top - 1 - b else top - b in
  type_error (lit "concatenate") (fun _ => ret (Some bad_slot)) (if negb (concat_ok o1) then o1 else o2)
    (lit "attempt to concatenate a non-string value").

Section Concat.
Context (execute : Z -> Z -> Z -> M Z).

Definition cat_meta (o1 o2 : LuaValue) (top_ : Z) : M Z :=
  let! mo := meta_lookup o1 MM.Concat in
  let! mo := (if is_nil mo then meta_lookup o2 MM.Concat else ret mo) in
  if is_nil mo then cat_error o1 o2 top_ else
  let! ' (mo2, args) :=
    (if is_func mo then ret (mo, [o1; o2]) else
     let! mo2 := resolve_callable mo in
     match mo2 with
     | Some mo2 => ret (mo2, [mo; o1; o2])
     | None => raise (lit "attempt to concatenate a non-string value")
     end) in
  let! b := geti base in
  let! pt := proto in
  let fs := b + VmProto.framesize pt in
  let! st := getl top in
  do! set_at fs mo2 in
  do! put_slots (fs + 2) args in
  let! saved := getl mmname in
  do! modl (set_mmname (Some (lit "__concat", mo2))) in
  let! r := attempt (execute fs (zlen args) 1) in
  do! modl (set_mmname saved) in
  match r with
  | inr e => fail e
  | inl _ =>
      let! v := at_ fs in
      do! modl (set_top st) in
      do! set_at (top_ - 1) v in
      ret (top_ - 1)
  end.

(** Every turn lowers [top_]. *)
Fixpoint cat_loop (n : nat) (bottom top_ : Z) : M LuaValue :=
  match n with
  | O => no_fuel
  | S n =>
      let! o1 := at_ (top_ - 1) in
      let! o2 := at_ top_ in
      let! top_ := (if concat_ok o1 && concat_ok o2 then cat_run bottom top_ else cat_meta o1 o2 top_) in
      if top_ <=? bottom then at_ bottom else cat_loop n bottom top_
  end.

Definition meta_cat (b c : Z) : M LuaValue :=
  let! fb := geti base in cat_loop (S (Z.to_nat (c - b))) (fb + b) (fb + c).
End Concat.

(** ** Calling a value that is no function *)

Fixpoint shift_args (n : nat) (func_slot : Z) : M unit :=
  match n with
  | O => ret tt
  | S n =>
      let! v := at_ (func_slot + 2 + Z.of_nat n) in
      do! set_at (func_slot + 3 + Z.of_nat n) v in
      shift_args n func_slot
  end.

Definition meta_call (func_slot nargs : Z) : M Z :=
  do! modl (set_mmname None) in
  let! f := at_ func_slot in
  let! mo := resolve_callable f in
  match mo with
  | None =>
      let! n := debug_callname func_slot in
      raise (match n with
             | Some n => named_error (lit "call") n f
             | None => lit "attempt to call a " ++ lua_typename f ++ lit " value" end)
  | Some mo =>
      do! shift_args (Z.to_nat nargs) func_slot in
      do! set_at (func_slot + 2) f in
      do! set_at func_slot mo in
      ret (nargs + 1)
  end.
End Meta.
