(* ===== verification/VmStep.v ===== *)
(** * vm/mod.rs: one instruction

    [step] is a turn of [dispatch]'s loop: the frame's register window and the
    instruction pointer are its locals, written to the interpreter ([sync]) and
    read back ([resync]) around the calls that leave the loop. *)

From Stdlib Require Import ZArith Lia Bool Ascii String.
From stdpp Require Import base decidable numbers option gmap list.
From S2P Require Import Prelude Float64 Value Strings FloatText PatClass Fold StrScan Bytecode Dump Table Parse ParseState VmState VmValue VmFrame VmMeta.

(** [Flow]: go on, or return to the host. *)
Record Frame := mkFrame { sp : Z; fbase : Z }.
Inductive Flow := Next (fr : Frame) (ip : Z) | FlowRet (n : Z).

(** [LuaValue::number(k as f64)]. *)
Definition int_value (k : Z) : LuaValue := number (f64_of_Z k).

(** [x - 1] of a count; below zero it panics. *)
Definition pred_count (x : Z) : option Z := if 1 <=? x then Some (x - 1) else None.

(** The names of the opcodes the interpreter does not implement. *)
Definition unimplemented (op : BCOp.t) : option (list Z) :=
  match op with
  | BCOp.ISTYPE => Some (lit "ISTYPE") | BCOp.ISNUM => Some (lit "ISNUM")
  | BCOp.TGETR => Some (lit "TGETR") | BCOp.TSETR => Some (lit "TSETR")
  | BCOp.FUNCF => Some (lit "FUNCF") | BCOp.IFUNCF => Some (lit "IFUNCF") | BCOp.JFUNCF => Some (lit "JFUNCF")
  | BCOp.FUNCV => Some (lit "FUNCV") | BCOp.IFUNCV => Some (lit "IFUNCV") | BCOp.JFUNCV => Some (lit "JFUNCV")
  | BCOp.FUNCC => Some (lit "FUNCC") | BCOp.FUNCCW => Some (lit "FUNCCW")
  | _ => None
  end.

(** The bit operators, on 32-bit numbers and on 64-bit C data. *)
Definition shl32 (x y : Z) : Z := swrap 32 (Z.shiftl x y).
Definition shr32 (x y : Z) : Z := swrap 32 (Z.shiftr (uwrap 32 x) y).
Definition sar32 (x y : Z) : Z := Z.shiftr x y.
Definition shl64 (x y : Z) : Z := uwrap 64 (Z.shiftl x y).
Definition shr64 (x y : Z) : Z := Z.shiftr x y.
Definition sar64 (x y : Z) : Z := uwrap 64 (Z.shiftr (swrap 64 x) y).

(** The [for] loop's test. *)
Definition for_continues (i stop step : f64) : bool := if f64_le 0 step then f64_le i stop else f64_le stop i.

Section Step.
Context {St : Type} `{Strings St} `{StrPtrs St} `{Builtins St} `{Libm} `{StrHash St}.
#[local] Abbreviation M := (@M St).
#[local] Notation "'let!' x := a 'in' b" := (bind a (fun x => b)) (at level 10, x name, a at level 100, b at level 200).
#[local] Notation "'let!' ' p := a 'in' b" := (bind a (fun p => b)) (at level 10, p strict pattern, a at level 100, b at level 200).
#[local] Notation "'do!' a 'in' b" := (bind a (fun _ => b)) (at level 10, a at level 100, b at level 200).
#[local] Notation "'when' b 'do' a" := (if b then a else ret tt) (at level 10, b at level 100, a at level 100).

(** ** The register window

    It points into the stack's memory: once the stack has grown it dangles. *)

Definition frame_new (b : Z) : M Frame := let! n := stack_len in ret (mkFrame n b).
Definition frame_valid (fr : Frame) : M unit := let! n := stack_len in if n =? sp fr then ret tt else stuck.
Definition reg (fr : Frame) (i : Z) : M LuaValue := do! frame_valid fr in at_ (fbase fr + i).
Definition fset (fr : Frame) (i : Z) (v : LuaValue) : M unit := do! frame_valid fr in set_at (fbase fr + i) v.

Definition sync_fr (fr : Frame) (ip : Z) : M unit :=
  do! modi (fun x => set_pc ((ip - bcp x) / 4) (set_base (fbase fr) x)) in
  let! p := geti pc in
  modl (fun x => set_l_base (fbase fr) (set_debug_pc p x)).
Definition resync_fr : M (Frame * Z) :=
  let! x := gets it in
  let! fr := frame_new (base x) in
  ret (fr, bcp x + 4 * pc x).

Definition next (fr : Frame) (ip : Z) : M Flow := ret (Next fr ip).
Definition resync : M Flow := let! ' (fr, ip) := resync_fr in next fr ip.
Definition jump (fr : Frame) (ip ins : Z) : M Flow := next fr (ip + 4 * bc_j ins).
(** A conditional jump with the JMP that follows. *)
Definition branch (fr : Frame) (ip : Z) (cond : bool) : M Flow :=
  let! jmp := read_ins ip in
  next fr (ip + 4 + if cond then 4 * bc_j jmp else 0).

(** An operation that may leave to a metamethod's frame. *)
Definition meta {A} (fr : Frame) (ip : Z) (m : M (option A)) (k : A -> M Flow) : M Flow :=
  do! sync_fr fr ip in
  let! r := m in
  match r with Some v => k v | None => resync end.
Definition set_next (fr : Frame) (ip a : Z) (v : LuaValue) : M Flow := do! fset fr a v in next fr ip.
Definition meta_set (fr : Frame) (ip a : Z) (m : M (option LuaValue)) : M Flow := meta fr ip m (set_next fr ip a).

(** ** Comparisons *)

Definition cmp_arm (fr : Frame) (ip ins op : Z) : M Flow :=
  let! xv := reg fr (bc_a ins) in
  let! yv := reg fr (bc_d ins) in
  let! c := cmp_fast op xv yv in
  match c with
  | Some c => branch fr ip c
  | None => meta fr ip (meta_comp xv yv op) (branch fr ip)
  end.

Definition eqv_arm (fr : Frame) (ip ins : Z) (ne : bool) : M Flow :=
  let! x := reg fr (bc_a ins) in
  let! y := reg fr (bc_d ins) in
  let! c := val_eq x y in
  if c then branch fr ip (negb ne)
  else if (is_table x || is_userdata x) && (itype x =? itype y) then
    meta fr ip (meta_equal x y (Z.b2z ne)) (fun eq => branch fr ip (xorb eq ne))
  else branch fr ip ne.

(** Against a constant of the prototype. *)
Definition eqk_arm (fr : Frame) (ip ins : Z) (k : M LuaValue) (ne : bool) : M Flow :=
  let! v := reg fr (bc_a ins) in
  let! k := k in
  let! c := val_eq v k in
  branch fr ip (xorb c ne).

Definition pri_at (d : Z) : M LuaValue := lift (znth PRI d).

Definition eqp_arm (fr : Frame) (ip ins : Z) (ne : bool) : M Flow :=
  let! v := reg fr (bc_a ins) in
  let! c := (if bc_d ins =? 0 then if is_nil v then ret true else is_cdata_null v
             else let! k := pri_at (bc_d ins) in val_eq v k) in
  branch fr ip (xorb c ne).

(** IST, ISF, and with a copy ISTC, ISFC. *)
Definition truth_arm (fr : Frame) (ip ins : Z) (want copy : bool) : M Flow :=
  let! d := reg fr (bc_d ins) in
  let c := eqb (is_truthy d) want in
  do! when c && copy do fset fr (bc_a ins) d in
  branch fr ip c.

(** ** Arithmetic *)

Definition unm_arm (fr : Frame) (ip ins : Z) : M Flow :=
  let a := bc_a ins in
  let! v := reg fr (bc_d ins) in
  let! cd := cdata_u64 v in
  match cd with
  | Some bits =>
      let! ull := cdata_is_ull v in
      let! r := make_cdata_result (uwrap 64 (unot 64 bits + 1)) ull in
      set_next fr ip a r
  | None =>
      if is_number v then set_next fr ip a (number_raw (f64_neg v))
      else meta_set fr ip a (meta_arith MM.Unm v v a)
  end.

Definition len_arm (fr : Frame) (ip ins : Z) : M Flow :=
  let a := bc_a ins in
  let! v := reg fr (bc_d ins) in
  let! sid := as_string_id v in
  match sid, as_table v with
  | Some sid, _ => let! s := str_static sid in set_next fr ip a (int_value (zlen s))
  | None, Some t =>
      let! tb := table_at t in
      let! mo := meta_fast (metatable tb) MM.Len in
      match mo with
      | None =>
          let! tb := table_at t in
          let! st := geth strings in
          let! n := lift (Table.len (H := str_heap st) tb) in
          set_next fr ip a (int_value n)
      | Some _ => meta_set fr ip a (meta_len v a)
      end
  | None, None => meta_set fr ip a (meta_len v a)
  end.

(** Two registers. *)
Definition arith_vv (fr : Frame) (ip ins : Z) (mm : MM.t) (nop : f64 -> f64 -> option f64) : M Flow :=
  let a := bc_a ins in
  let! xv := reg fr (bc_b ins) in
  let! yv := reg fr (bc_c ins) in
  if is_number xv && is_number yv then
    let! r := lift (nop xv yv) in set_next fr ip a (number_raw r)
  else
    let! r := try_cdata_binop xv yv (cd_arith mm false) in
    match r with
    | Some r => set_next fr ip a r
    | None => meta_set fr ip a (meta_arith mm xv yv a)
    end.

(** A register and a number constant, the constant on the left for the NV forms. *)
Definition arith_k (fr : Frame) (ip ins : Z) (mm : MM.t) (nop : f64 -> f64 -> option f64) (nv : bool) : M Flow :=
  let a := bc_a ins in
  let! v := reg fr (bc_b ins) in
  let! k := knum (bc_c ins) in
  if is_number v then
    let! r := lift (if nv then nop k v else nop v k) in set_next fr ip a (number_raw r)
  else
    let! cd := cdata_u64 v in
    match cd with
    | Some x =>
        let! ull := cdata_is_ull v in
        let! r := lift (if nv then cd_arith mm true (f64_word k) x else cd_arith mm true x (f64_word k)) in
        let! r := make_cdata_result r ull in
        set_next fr ip a r
    | None => meta_set fr ip a (if nv then meta_arith mm k v a else meta_arith mm v k a)
    end.

Definition bit_error (fr : Frame) (ip : Z) : M Flow :=
  do! sync_fr fr ip in raise (lit "attempt to perform arithmetic on a non-number value").

Definition bnot_arm (fr : Frame) (ip ins : Z) : M Flow :=
  let a := bc_a ins in
  let! v := reg fr (bc_d ins) in
  let! cd := cdata_u64 v in
  match cd with
  | Some bits =>
      let! ull := cdata_is_ull v in
      let! r := make_cdata_result (unot 64 bits) ull in
      set_next fr ip a r
  | None =>
      if is_number v then set_next fr ip a (int_value (Z.lnot (num2bit v))) else bit_error fr ip
  end.

(** An operand of a bit operator on C data. *)
Definition bit_word (cd : option Z) (v : LuaValue) : Z :=
  match cd with Some x => x | None => uwrap 64 (num2bit v) end.

(** BAND, BOR and BXOR. *)
Definition logic_arm (fr : Frame) (ip ins : Z) (f : Z -> Z -> Z) : M Flow :=
  let a := bc_a ins in
  let! xv := reg fr (bc_b ins) in
  let! yv := reg fr (bc_c ins) in
  let! x_cd := cdata_u64 xv in
  let! y_cd := cdata_u64 yv in
  if bool_decide (is_Some x_cd) || bool_decide (is_Some y_cd) then
    let! x_ull := cdata_is_ull xv in
    let! y_ull := cdata_is_ull yv in
    let! r := make_cdata_result (f (bit_word x_cd xv) (bit_word y_cd yv)) (x_ull || y_ull) in
    set_next fr ip a r
  else if is_number xv && is_number yv then
    set_next fr ip a (int_value (f (num2bit xv) (num2bit yv)))
  else bit_error fr ip.

(** BSHL, BSHR and BSAR. *)
Definition shift_arm (fr : Frame) (ip ins : Z) (f32 f64' : Z -> Z -> Z) : M Flow :=
  let a := bc_a ins in
  let! xv := reg fr (bc_b ins) in
  let! yv := reg fr (bc_c ins) in
  let! x_cd := cdata_u64 xv in
  let! y_cd := cdata_u64 yv in
  match x_cd with
  | Some x =>
      let! ull := cdata_is_ull xv in
      let! r := make_cdata_result (f64' x (Z.land (bit_word y_cd yv) 63)) ull in
      set_next fr ip a r
  | None =>
      if is_number xv && (is_number yv || bool_decide (is_Some y_cd)) then
        let y := match y_cd with
                 | None => Z.land (uwrap 32 (num2bit yv)) 31
                 | Some v => Z.land (uwrap 32 v) 31 end in
        set_next fr ip a (int_value (f32 (num2bit xv) y))
      else bit_error fr ip
  end.

(** ** Constants, upvalues *)

Definition kcdata_arm (fr : Frame) (ip ins : Z) : M Flow :=
  let idx := bc_d ins in
  let! pt := proto in
  match znth (VmProto.kgc pt) idx with
  | None => raise (lit "invalid KCDATA index " ++ dec_digits idx)
  | Some (VCData c) => let! p := alloc_cdata c in set_next fr ip (bc_a ins) (Value.cdata p)
  | Some _ => raise (lit "KCDATA with non-CData kgc entry")
  end.

Definition upval_of (i : Z) : M Z := let! ' (_, _, uvs) := lua_cl in lift (znth uvs i).
Definition uset_arm (fr : Frame) (ip ins : Z) (v : M LuaValue) : M Flow :=
  let! uv := upval_of (bc_a ins) in
  let! v := v in
  do! upval_set uv v in next fr ip.

(** ** Tables *)

Definition tnew_arm (fr : Frame) (ip ins : Z) : M Flow :=
  let d := bc_d ins in
  let! t := lift (Table.new (Z.land d 0x7ff) (Z.land (Z.shiftr d 11) 0x1f)) in
  let! p := alloc_table t in
  set_next fr ip (bc_a ins) (Value.table p).

Definition no_metatable (t : Z) : M bool :=
  let! tb := table_at t in ret (bool_decide (metatable tb = None)).

(** A raw read, and [__index] when it misses in a table with a metatable. *)
Definition tget_in (fr : Frame) (ip a : Z) (o : LuaValue) (t : Z) (raw : M LuaValue) (k : LuaValue) : M Flow :=
  let! v := raw in
  let! plain := no_metatable t in
  if negb (is_nil v) || plain then set_next fr ip a v else meta_set fr ip a (meta_tget o k a).

Definition tget_arm (fr : Frame) (ip a : Z) (o : LuaValue) (raw : Z -> M LuaValue) (k : LuaValue) : M Flow :=
  match as_table o with
  | Some t => tget_in fr ip a o t (raw t) k
  | None => meta_set fr ip a (meta_tget o k a)
  end.

(** [ki as f64 == n && ki >= 0] for [n as i32]. *)
Definition array_key_of (n : f64) : option Z :=
  let ki := f64_to_i32 n in if f64_eq (f64_of_int ki) n && (0 <=? ki) then Some ki else None.

Definition raw_getv (k : LuaValue) (t : Z) : M LuaValue :=
  if is_string k then tab_get_str t k
  else if is_number k then
    match array_key_of k with Some ki => tab_get_int t ki | None => tab_get t k end
  else tab_get t k.

Definition tgetv_arm (fr : Frame) (ip ins : Z) : M Flow :=
  let! o := reg fr (bc_b ins) in
  let! k := reg fr (bc_c ins) in
  tget_arm fr ip (bc_a ins) o (raw_getv k) k.

Definition tgets_arm (fr : Frame) (ip ins : Z) : M Flow :=
  let! o := reg fr (bc_b ins) in
  let! k := kstr_at (bc_c ins) in
  tget_arm fr ip (bc_a ins) o (fun t => tab_get_str t k) k.

Definition tgetb_arm (fr : Frame) (ip ins : Z) : M Flow :=
  let! o := reg fr (bc_b ins) in
  tget_arm fr ip (bc_a ins) o (fun t => tab_get_int t (bc_c ins)) (int_value (bc_c ins)).

Definition gget_arm (fr : Frame) (ip ins : Z) : M Flow :=
  let! ' (_, env, _) := lua_cl in
  let! key := kstr_at (bc_d ins) in
  tget_in fr ip (bc_a ins) (Value.table env) env (tab_get_str env key) key.

Definition gset_arm (fr : Frame) (ip ins : Z) : M Flow :=
  let! ' (_, env, _) := lua_cl in
  let! key := kstr_at (bc_d ins) in
  let! plain := no_metatable env in
  let! there := (if plain then ret true else let! v := tab_get_str env key in ret (negb (is_nil v))) in
  let! v := reg fr (bc_a ins) in
  if there then do! tab_set_str env key v in next fr ip
  else meta fr ip (meta_tset (Value.table env) key v) (fun _ => next fr ip).

(** A raw write when the table has no metatable. *)
Definition tset_arm (fr : Frame) (ip : Z) (o k v : LuaValue) (raw : Z -> M unit) : M Flow :=
  let slow := meta fr ip (meta_tset o k v) (fun _ => next fr ip) in
  match as_table o with
  | Some t =>
      let! plain := no_metatable t in
      if plain then do! raw t in next fr ip else slow
  | None => slow
  end.

Definition raw_setv (fr : Frame) (ip : Z) (k v : LuaValue) (t : Z) : M unit :=
  if is_string k then tab_set_str t k v
  else if is_number k then
    if f64_is_nan k then do! sync_fr fr ip in raise (lit "table index is NaN")
    else match array_key_of k with Some ki => tab_set_int t ki v | None => tab_set t k v end
  else if is_nil k then do! sync_fr fr ip in raise (lit "table index is nil")
  else tab_set t k v.

Definition tsetv_arm (fr : Frame) (ip ins : Z) : M Flow :=
  let! o := reg fr (bc_b ins) in
  let! k := reg fr (bc_c ins) in
  let! v := reg fr (bc_a ins) in
  tset_arm fr ip o k v (raw_setv fr ip k v).

Definition tsets_arm (fr : Frame) (ip ins : Z) : M Flow :=
  let! o := reg fr (bc_b ins) in
  let! v := reg fr (bc_a ins) in
  let! k := kstr_at (bc_c ins) in
  tset_arm fr ip o k v (fun t => tab_set_str t k v).

Definition tsetb_arm (fr : Frame) (ip ins : Z) : M Flow :=
  let! o := reg fr (bc_b ins) in
  let! v := reg fr (bc_a ins) in
  tset_arm fr ip o (int_value (bc_c ins)) v (fun t => tab_set_int t (bc_c ins) v).

(** The values of a multiple-result call, appended to a constructor's table. *)
Fixpoint tsetm_items (n : nat) (fr : Frame) (tab key i : Z) : M unit :=
  match n with
  | O => ret tt
  | S n =>
      let! v := reg fr i in
      do! (if (0 <=? key) && (key <=? 2 ^ 31 - 1) then tab_set_int tab key v
           else tab_set tab (int_value key) v) in
      tsetm_items n fr tab (key + 1) (i + 1)
  end.

Definition tsetm_arm (fr : Frame) (ip ins : Z) : M Flow :=
  let a := bc_a ins in
  let! o := reg fr (a - 1) in
  match as_table o with
  | Some tab =>
      let! k := knum (bc_d ins) in
      let base_key := f64_to_i64 k - 2 ^ 52 in
      let! mr := geti multres in
      do! when (0 <? mr) && (base_key =? 1) do tab_reasize tab (uwrap 32 (uwrap 32 base_key + uwrap 32 mr)) in
      do! tsetm_items (Z.to_nat mr) fr tab base_key a in
      next fr ip
  | None => do! sync_fr fr ip in raise (lit "attempt to index a non-table value")
  end.

(** ** Loops *)

Definition fori_arm (fr : Frame) (ip ins : Z) : M Flow :=
  let a := bc_a ins in
  let! idx := reg fr (a + FORL_IDX) in
  let! stop := reg fr (a + FORL_STOP) in
  let! step := reg fr (a + FORL_STEP) in
  let! i := for_number idx in
  let! s := for_number stop in
  let! st := for_number step in
  match i, s, st with
  | Some i, Some s, Some st =>
      do! fset fr (a + FORL_IDX) (number i) in
      do! fset fr (a + FORL_STOP) (number s) in
      do! fset fr (a + FORL_STEP) (number st) in
      do! fset fr (a + FORL_EXT) (number_raw i) in
      if for_continues i s st then next fr ip else jump fr ip ins
  | _, _, _ => do! sync_fr fr ip in raise (lit "'for' initial value must be a number")
  end.

Definition forl_arm (fr : Frame) (ip ins : Z) : M Flow :=
  let a := bc_a ins in
  let! i := reg fr (a + FORL_IDX) in
  let! s := reg fr (a + FORL_STOP) in
  let! st := reg fr (a + FORL_STEP) in
  let ni := f64_add i st in
  if for_continues ni s st then
    do! fset fr (a + FORL_IDX) (number_raw ni) in
    do! fset fr (a + FORL_EXT) (number_raw ni) in
    jump fr ip ins
  else next fr ip.

Definition iterl_arm (fr : Frame) (ip ins : Z) : M Flow :=
  let a := bc_a ins in
  let! first := reg fr a in
  if is_nil first then next fr ip else do! fset fr (a - 1) first in jump fr ip ins.

(** ** Calls *)

(** A frame for a Lua callee: [None] for any other. *)
Definition call_lua_fast (a nargs : Z) (fr : Frame) (ip : Z) : M (option (Frame * Z)) :=
  let! f := reg fr a in
  match as_func f with
  | None => ret None
  | Some gf =>
      let! g := func_at gf in
      match g with
      | FC _ _ _ => ret None
      | FLua p _ _ =>
          let! pt := proto_at p in
          let fs := VmProto.framesize pt in
          let callbase := fbase fr + a + 2 in
          let need := if is_vararg pt then callbase + nargs + 2 + VmProto.numparams pt + fs + 16
                      else callbase + fs + 8 in
          let! max := getl max_stack in
          if max <? need then do! sync_fr fr ip in raise (lit "stack overflow") else
          let! len := stack_len in
          do! when len <? need do (do! sync_fr fr ip in stack_ensure need) in
          do! set_at (callbase - 1) ip in
          do! enter_header gf pt callbase nargs in
          let! b := geti base in
          let! fr := frame_new b in
          ret (Some (fr, VmProto.bc_ptr pt + 4))
      end
  end.

(** The callee, after [__call] if it is no function, and its arguments. *)
Definition callee (func_slot nargs : Z) : M (Z * Z) :=
  let! f := at_ func_slot in
  match as_func f with
  | Some p => ret (p, nargs)
  | None =>
      let! nargs := meta_call func_slot nargs in
      let! f := at_ func_slot in
      let! p := lift (as_func f) in
      ret (p, nargs)
  end.

Definition do_call (a nargs want : Z) : M unit :=
  let! b := geti base in
  let func_slot := b + a in
  let! ' (gf, nargs) := callee func_slot nargs in
  let! g := func_at gf in
  match g with
  | FLua _ _ _ =>
      let! link := geti (fun x => bcp x + 4 * pc x) in
      enter_lua gf func_slot nargs link
  | FC f _ _ =>
      let! r := attempt (call_c_inline f func_slot nargs) in
      match r with
      | inr Yield => let! e := suspend_call func_slot want in fail e
      | inr e => fail e
      | inl n =>
          if 0 <=? want then nil_range n want func_slot else modi (set_multres n)
      end
  end.

Definition call_arm (fr : Frame) (ip ins nargs want : Z) : M Flow :=
  let! r := call_lua_fast (bc_a ins) nargs fr ip in
  match r with
  | Some (fr, ip) => next fr ip
  | None => do! sync_fr fr ip in do! do_call (bc_a ins) nargs want in resync
  end.

Definition iterc_arm (fr : Frame) (ip ins : Z) : M Flow :=
  let fs := fbase fr + bc_a ins in
  let! genf := at_ (fs - 3) in
  let! state := at_ (fs - 2) in
  let! ctl := at_ (fs - 1) in
  do! set_at fs genf in
  do! set_at (fs + 2) state in
  do! set_at (fs + 3) ctl in
  call_arm fr ip ins 2 (bc_b ins - 1).

(** ** Returns *)

(** Down the vararg frames: the base and the link of the real frame. *)
Fixpoint vararg_chain (n : nat) (b link : Z) : M (Z * Z) :=
  match n with
  | O => no_fuel
  | S n =>
      if (frame_type link =? FRAME_VARG) && negb (frame_delta link =? 0) then
        let b := b - frame_delta link in
        let! link := at_ (b - 1) in vararg_chain n b link
      else ret (b, link)
  end.

Definition ret_fast_n (fr : Frame) : M (option (Z * Z * Z * Z)) :=
  let! link := reg fr (-1) in
  let! ' (b, link) := vararg_chain (S (Z.to_nat (fbase fr))) (fbase fr) link in
  let! len := stack_len in
  let! uvs := getl openuv in
  if (frame_type link =? FRAME_LUA) && (len <=? frame_delta link) && bool_decide (uvs = []) then
    let! call_ins := read_ins (link - 4) in
    ret (Some (b, bc_b call_ins - 1, link, bc_a call_ins))
  else ret None.

Definition reload_at (fr : Frame) : M unit :=
  let! v := reg fr (-2) in let! c := lift (as_func v) in reload c.

(** [n] results from register [a]. *)
Definition ret_arm (fr : Frame) (ip a n : Z) : M Flow :=
  let! fast := ret_fast_n fr in
  match fast with
  | Some (wbase, want, ret_ip, ca) =>
      let dst := wbase - 2 in
      do! copy_slots (Z.to_nat n) dst (fbase fr + a) in
      do! nil_range n (Z.max want 0) dst in
      do! modi (set_multres n) in
      let! fr := frame_new (dst - ca) in
      do! reload_at fr in
      let! pt := proto in
      do! modl (fun x => set_top (dst + if 0 <=? want then want else n)
                          (set_frame_top (fbase fr + VmProto.framesize pt) x)) in
      next fr ret_ip
  | None =>
      do! sync_fr fr ip in
      let! r := do_return (fbase fr + a) n in
      match r with Some n => ret (FlowRet n) | None => resync end
  end.

(** ** Instructions *)

(** The instruction [ins], if it nests no interpreter; [ip] is the address after it. *)
Definition exec_plain (fr : Frame) (ip ins : Z) (op : BCOp.t) : M Flow :=
  let a := bc_a ins in
  let d := bc_d ins in
  let set v := set_next fr ip a v in
  let arith mm f := arith_vv fr ip ins mm (fun x y => Some (f x y)) in
  let arithk mm f nv := arith_k fr ip ins mm (fun x y => Some (f x y)) nv in
  match op with
  | BCOp.ISLT => cmp_arm fr ip ins 0
  | BCOp.ISGE => cmp_arm fr ip ins 1
  | BCOp.ISLE => cmp_arm fr ip ins 2
  | BCOp.ISGT => cmp_arm fr ip ins 3
  | BCOp.ISEQV => eqv_arm fr ip ins false
  | BCOp.ISNEV => eqv_arm fr ip ins true
  | BCOp.ISEQS => eqk_arm fr ip ins (kstr_at d) false
  | BCOp.ISNES => eqk_arm fr ip ins (kstr_at d) true
  | BCOp.ISEQN => eqk_arm fr ip ins (knum d) false
  | BCOp.ISNEN => eqk_arm fr ip ins (knum d) true
  | BCOp.ISEQP => eqp_arm fr ip ins false
  | BCOp.ISNEP => eqp_arm fr ip ins true
  | BCOp.ISTC => truth_arm fr ip ins true true
  | BCOp.ISFC => truth_arm fr ip ins false true
  | BCOp.IST => truth_arm fr ip ins true false
  | BCOp.ISF => truth_arm fr ip ins false false
  | BCOp.MOV => let! v := reg fr d in set v
  | BCOp.NOT => let! v := reg fr d in set (boolean (negb (is_truthy v)))
  | BCOp.UNM => unm_arm fr ip ins
  | BCOp.LEN => len_arm fr ip ins
  | BCOp.ADDVV => arith MM.Add f64_add
  | BCOp.SUBVV => arith MM.Sub f64_sub
  | BCOp.MULVV => arith MM.Mul f64_mul
  | BCOp.DIVVV => arith MM.Div f64_div
  | BCOp.MODVV => arith MM.Mod f64_mod
  | BCOp.ADDVN => arithk MM.Add f64_add false
  | BCOp.SUBVN => arithk MM.Sub f64_sub false
  | BCOp.MULVN => arithk MM.Mul f64_mul false
  | BCOp.DIVVN => arithk MM.Div f64_div false
  | BCOp.MODVN => arithk MM.Mod f64_mod false
  | BCOp.ADDNV => arithk MM.Add f64_add true
  | BCOp.SUBNV => arithk MM.Sub f64_sub true
  | BCOp.MULNV => arithk MM.Mul f64_mul true
  | BCOp.DIVNV => arithk MM.Div f64_div true
  | BCOp.MODNV => arithk MM.Mod f64_mod true
  | BCOp.POW => arith_vv fr ip ins MM.Pow vm_pow
  | BCOp.KSTR => let! v := kstr_at d in set v
  | BCOp.KSHORT => set (int_value (swrap 16 d))
  | BCOp.KNUM => let! v := knum d in set v
  | BCOp.KPRI => let! v := pri_at d in set v
  | BCOp.KCDATA => kcdata_arm fr ip ins
  | BCOp.KNIL => do! frame_valid fr in do! nil_range a (d + 1) (fbase fr) in next fr ip
  | BCOp.UGET => let! uv := upval_of d in let! v := upval_get uv in set v
  | BCOp.USETV => uset_arm fr ip ins (reg fr d)
  | BCOp.USETS => uset_arm fr ip ins (kstr_at d)
  | BCOp.USETN => uset_arm fr ip ins (knum d)
  | BCOp.USETP => uset_arm fr ip ins (pri_at d)
  | BCOp.UCLO => do! sync_fr fr ip in do! op_uclo a in jump fr ip ins
  | BCOp.FNEW => do! sync_fr fr ip in let! v := new_closure d in set v
  | BCOp.TNEW => tnew_arm fr ip ins
  | BCOp.TDUP => do! sync_fr fr ip in let! v := op_tdup d in set v
  | BCOp.GGET => gget_arm fr ip ins
  | BCOp.GSET => gset_arm fr ip ins
  | BCOp.TGETV => tgetv_arm fr ip ins
  | BCOp.TGETS => tgets_arm fr ip ins
  | BCOp.TGETB => tgetb_arm fr ip ins
  | BCOp.TSETV => tsetv_arm fr ip ins
  | BCOp.TSETS => tsets_arm fr ip ins
  | BCOp.TSETB => tsetb_arm fr ip ins
  | BCOp.TSETM => tsetm_arm fr ip ins
  | BCOp.CALL => let! nargs := lift (pred_count (bc_c ins)) in call_arm fr ip ins nargs (bc_b ins - 1)
  | BCOp.CALLM => let! mr := geti multres in call_arm fr ip ins (bc_c ins + mr) (bc_b ins - 1)
  | BCOp.RET0 => ret_arm fr ip 0 0
  | BCOp.RET1 => ret_arm fr ip a 1
  | BCOp.RET => let! n := lift (pred_count d) in ret_arm fr ip a n
  | BCOp.RETM => let! mr := geti multres in ret_arm fr ip a (mr + d)
  | BCOp.FORI => fori_arm fr ip ins
  | BCOp.FORL | BCOp.IFORL => forl_arm fr ip ins
  | BCOp.LOOP | BCOp.ILOOP => next fr ip
  | BCOp.JMP | BCOp.ISNEXT => jump fr ip ins
  | BCOp.ITERC | BCOp.ITERN => iterc_arm fr ip ins
  | BCOp.ITERL | BCOp.IITERL => iterl_arm fr ip ins
  | BCOp.VARG => do! sync_fr fr ip in do! op_varg a (bc_b ins) in resync
  | BCOp.BNOT => bnot_arm fr ip ins
  | BCOp.BAND => logic_arm fr ip ins Z.land
  | BCOp.BOR => logic_arm fr ip ins Z.lor
  | BCOp.BXOR => logic_arm fr ip ins Z.lxor
  | BCOp.BSHL => shift_arm fr ip ins shl32 shl64
  | BCOp.BSHR => shift_arm fr ip ins shr32 shr64
  | BCOp.BSAR => shift_arm fr ip ins sar32 sar64
  (* only the trace compiler writes these *)
  | BCOp.JFORI | BCOp.JFORL | BCOp.JITERL | BCOp.JLOOP => stuck
  | _ =>
      match unimplemented op with
      | Some name => do! sync_fr fr ip in raise (lit "opcode " ++ name ++ lit " not implemented")
      | None => stuck
      end
  end.

Section Execute.
(** The interpreter, for calls that nest it. *)
Context (execute : Z -> Z -> Z -> M Z).

Definition do_tailcall (a nargs : Z) : M (option Z) :=
  let! b := geti base in
  let func_slot := b + a in
  let! ' (gf, nargs) := callee func_slot nargs in
  let! f := at_ func_slot in
  let! g := func_at gf in
  match g with
  | FC c _ _ =>
      let! r := attempt (call_c c func_slot nargs (-1)) in
      match r with
      | inl n => do_return func_slot n
      | inr Yield => let! e := suspend_return func_slot in fail e
      | inr e => fail e
      end
  | FLua p _ _ =>
      let! link := at_ (b - 1) in
      let delta := frame_delta link in
      if (frame_type link =? FRAME_VARG) && (b <? delta + 2) then
        let! n := execute func_slot nargs (-1) in do_return func_slot n
      else
        let b := if frame_type link =? FRAME_VARG then b - delta else b in
        do! copy_slots (Z.to_nat nargs) b (func_slot + 2) in
        do! set_at (b - 2) f in
        let! pt := proto_at p in
        if is_vararg pt then
          let! link := at_ (b - 1) in
          do! enter_lua gf (b - 2) nargs link in ret None
        else
          do! nil_range nargs (VmProto.numparams pt) b in
          do! modi (set_base b) in
          do! load_closure gf pt in
          do! modi (set_pc 1) in
          do! modl (set_top (b + VmProto.framesize pt)) in
          ret None
  end.

(** No vararg frame on either side: the frame is reused in place. *)
Definition tailcall_fast (fr : Frame) (ip a nargs gf : Z) (f : LuaValue) (pt : VmProto) : M Flow :=
  let need := fbase fr + Z.max a nargs + VmProto.framesize pt + 8 in
  let! len := stack_len in
  do! when len <? need do (do! sync_fr fr ip in stack_ensure need) in
  let! fr := frame_new (fbase fr) in
  do! fset fr (-2) f in
  do! copy_slots (Z.to_nat nargs) (fbase fr) (fbase fr + a + 2) in
  do! nil_range nargs (VmProto.numparams pt) (fbase fr) in
  do! load_closure gf pt in
  do! set_tops (fbase fr + VmProto.framesize pt) in
  next fr (VmProto.bc_ptr pt + 4).

Definition tailcall_slow (fr : Frame) (ip a nargs : Z) : M Flow :=
  do! sync_fr fr ip in
  let! r := do_tailcall a nargs in
  match r with Some n => ret (FlowRet n) | None => resync end.

Definition callt_arm (fr : Frame) (ip ins : Z) : M Flow :=
  let a := bc_a ins in
  let! nargs := lift (pred_count (bc_d ins)) in
  let! f := reg fr a in
  match as_func f with
  | Some gf =>
      let! g := func_at gf in
      match g with
      | FLua p _ _ =>
          let! pt := proto_at p in
          let! link := reg fr (-1) in
          if negb (is_vararg pt) && negb (frame_type link =? FRAME_VARG) then tailcall_fast fr ip a nargs gf f pt
          else tailcall_slow fr ip a nargs
      | FC _ _ _ => tailcall_slow fr ip a nargs
      end
  | None => tailcall_slow fr ip a nargs
  end.

Definition cat_arm (fr : Frame) (ip ins : Z) : M Flow :=
  do! sync_fr fr ip in
  let! r := meta_cat execute (bc_b ins) (bc_c ins) in
  let! ' (fr, ip) := resync_fr in
  set_next fr ip (bc_a ins) r.

(** Any instruction. *)
Definition exec_ins (fr : Frame) (ip ins : Z) (op : BCOp.t) : M Flow :=
  match op with
  | BCOp.CAT => cat_arm fr ip ins
  | BCOp.CALLT => callt_arm fr ip ins
  | BCOp.CALLMT => let! mr := geti multres in tailcall_slow fr ip (bc_a ins) (bc_d ins + mr)
  | _ => exec_plain fr ip ins op
  end.

Definition step (fr : Frame) (ip : Z) : M Flow :=
  let! ins := read_ins ip in
  let! op := lift (bc_op ins) in
  exec_ins fr (ip + 4) ins op.
End Execute.
End Step.
