(* ===== verification/Vm.v ===== *)
(** * vm/mod.rs, runtime/state.rs: running a function

    The loop of [dispatch], the host's ways into it, the resumption of a
    suspended frame, and the loading of a chunk. *)

From Stdlib Require Import ZArith Lia Bool Ascii String.
From stdpp Require Import base decidable numbers option gmap list.
From S2P Require Import Prelude Float64 Value Strings FloatText PatClass Fold StrScan Bytecode Table Parse ParseState VmState VmValue VmFrame VmMeta VmStep.
From S2P Require Dump.

Section Run.
Context {St : Type} `{Strings St} `{StrPtrs St} `{Builtins St} `{Libm} `{StrHash St}.
#[local] Abbreviation M := (@M St).
#[local] Notation "'let!' x := a 'in' b" := (bind a (fun x => b)) (at level 10, x name, a at level 100, b at level 200).
#[local] Notation "'let!' ' p := a 'in' b" := (bind a (fun p => b)) (at level 10, p strict pattern, a at level 100, b at level 200).
#[local] Notation "'do!' a 'in' b" := (bind a (fun _ => b)) (at level 10, a at level 100, b at level 200).
#[local] Notation "'when' b 'do' a" := (if b then a else ret tt) (at level 10, b at level 100, a at level 100).

(** ** Running *)

(** A frame discarded by an error closes its upvalues; a yield keeps them. *)
Definition run (dispatch : Frame -> Z -> M Z) : M Z :=
  let! ' (fr, ip) := resync_fr in
  let! r := attempt (dispatch fr ip) in
  match r with
  | inl n => ret n
  | inr Yield => fail Yield
  | inr Runtime => let! b := geti base in do! close_upvals b in fail Runtime
  end.

Definition interp_new : Interp := mkInterp 0 0 0x100 0 [] [] 0.

(** An interpreter of its own for [m]; the outer one is back afterwards. *)
Definition with_interp {A} (m : M A) : M A :=
  let! saved := gets it in
  do! modi (fun _ => interp_new) in
  let! r := attempt m in
  do! modi (fun _ => saved) in
  match r with inl a => ret a | inr e => fail e end.

Definition execute_inner_link (dispatch : Frame -> Z -> M Z) (func_slot nargs want : Z) (link : option Z) : M Z :=
  let! ' (gf, nargs) := callee func_slot nargs in
  let! g := func_at gf in
  match g with
  | FC f _ _ => call_c f func_slot nargs want
  | FLua _ _ _ =>
      let! saved_base := getl l_base in
      let! saved_top := getl top in
      let! saved_frame_top := getl frame_top in
      let link := match link with Some x => x | None => Z.lor (uwrap 64 (Z.shiftl (want + 1) 3)) FRAME_C end in
      let restore := modl (fun x => set_frame_top saved_frame_top (set_top saved_top (set_l_base saved_base x))) in
      let! r := attempt (with_interp (do! enter_lua gf func_slot nargs link in run dispatch)) in
      match r with
      | inl n => do! restore in ret n
      | inr Yield => fail Yield
      | inr e => do! restore in fail e
      end
  end.

(** [m] as a nested host call. *)
Definition nested {A} (m : M A) : M A :=
  do! modl (fun x => set_c_depth (c_depth x + 1) x) in
  let! r := attempt m in
  do! modl (fun x => set_c_depth (c_depth x - 1) x) in
  match r with inl a => ret a | inr e => fail e end.

Definition execute_with (dispatch : Frame -> Z -> M Z) (func_slot nargs want : Z) : M Z :=
  nested (do! stack_ensure (func_slot + nargs + STACK_SAFETY) in
          execute_inner_link dispatch func_slot nargs want None).

(** One unit of fuel per instruction, nested interpreters included. *)
Fixpoint dispatch (n : nat) (fr : Frame) (ip : Z) : M Z :=
  match n with
  | O => no_fuel
  | S n =>
      let! f := step (execute_with (dispatch n)) fr ip in
      match f with
      | Next fr ip => dispatch n fr ip
      | FlowRet k => ret k
      end
  end.

Definition execute (n : nat) (func_slot nargs want : Z) : M Z := execute_with (dispatch n) func_slot nargs want.
Definition execute_yieldable (n : nat) (func_slot nargs want : Z) : M Z :=
  do! stack_ensure (func_slot + nargs + STACK_SAFETY) in
  execute_inner_link (dispatch n) func_slot nargs want None.
Definition execute_link (n : nat) (func_slot nargs want link : Z) : M Z :=
  nested (do! stack_ensure (func_slot + nargs + STACK_SAFETY) in
          execute_inner_link (dispatch n) func_slot nargs want (Some link)).

Fixpoint read_slots (k : nat) (i : Z) : M (list LuaValue) :=
  match k with
  | O => ret []
  | S k => let! v := at_ i in let! vs := read_slots k (i + 1) in ret (v :: vs)
  end.

(** The host's call of a value. *)
Definition call (n : nat) (f : LuaValue) (args : list LuaValue) : M (list LuaValue) :=
  do! stack_ensure (zlen args + STACK_SAFETY) in
  do! modl (set_top 0) in
  do! set_at 0 f in
  do! set_at 1 NIL in
  do! put_slots 2 args in
  let! k := execute n 0 (zlen args) (-1) in
  read_slots (Z.to_nat k) 0.

(** ** Resuming a coroutine *)

Definition resume_args (slot want nargs : Z) (protected : bool) : M unit :=
  let args_at := slot + 2 in
  if protected then
    do! set_at slot TRUE in copy_slots (Z.to_nat nargs) (slot + 1) args_at
  else if 0 <=? want then
    let limit := Z.min nargs want in
    do! copy_slots (Z.to_nat limit) slot args_at in
    nil_range limit want slot
  else copy_slots (Z.to_nat nargs) slot args_at.

Definition resume_continue (n : nat) (slot want nargs pc' c sbase : Z) (protected : bool) : M Z :=
  nested (
    do! resume_args slot want nargs protected in
    with_interp (
      do! when want <? 0 do modi (set_multres (if protected then nargs + 1 else nargs)) in
      do! modi (set_base sbase) in
      do! reload c in
      do! modi (set_pc pc') in
      let! pt := proto in
      do! set_tops (sbase + VmProto.framesize pt) in
      do! modl (set_l_base sbase) in
      run (dispatch n))).

Definition resume_finish (n : nat) (slot nargs sbase : Z) : M Z :=
  nested (
    let! link := at_ (slot + 1) in
    do! when negb (frame_type link =? FRAME_C) && negb (frame_type link =? FRAME_LUA) do set_at (slot + 1) FRAME_C in
    do! copy_slots (Z.to_nat nargs) slot (slot + 2) in
    with_interp (
      do! modi (set_base sbase) in
      let! f := at_ (Z.max 0 (sbase - 2)) in
      do! match as_func f with Some c => reload c | None => ret tt end in
      let! r := do_return slot nargs in
      match r with Some k => ret k | None => run (dispatch n) end)).

(** ** Loading a chunk *)

(** The source name of a prototype just registered. *)
Definition inherit_source (p : Z) (src : option Z) : M unit :=
  let! pt := proto_at p in
  when bool_decide (VmProto.source pt = None) do
    modh (fun x => set_protos (<[p := VmProto.set_source src pt]> (protos x)) x).

(** The string constants as values. *)
Definition kstr_value (k : VmKGc) : M LuaValue :=
  match k with
  | VStr sid => let! st := geth strings in ret (match lookup_ptr st sid with Some p => Value.string p | None => NIL end)
  | _ => ret NIL
  end.
Fixpoint kstr_values (ks : list VmKGc) : M (list LuaValue) :=
  match ks with
  | [] => ret []
  | k :: ks => let! v := kstr_value k in let! vs := kstr_values ks in ret (v :: vs)
  end.

(** The bytecode's place in memory. *)
Fixpoint store_code (addr : Z) (bc : list Z) (m : gmap Z Z) : gmap Z Z :=
  match bc with [] => m | i :: bc => store_code (addr + 4) bc (<[addr := i]> m) end.
Definition alloc_code (bc : list Z) : M Z :=
  let! p := geth next_block in
  do! modh (set_next_block (p + 64 * (zlen bc / 16 + 1))) in
  do! modh (fun x => set_code (store_code p bc (code x)) x) in
  ret p.
Definition alloc_proto (pt : VmProto) : M Z :=
  let! p := new_block in do! modh (fun x => set_protos (<[p := pt]> (protos x)) x) in ret p.

(** The collectable constants, each child prototype registered. *)
Definition register_kgc (register_proto : Dump.Proto -> M Z) (src : option Z) (k : Dump.KGc) : M VmKGc :=
  match k with
  | Dump.KStr sid => ret (VStr sid)
  | Dump.KProto child =>
      let! p := register_proto child in
      do! inherit_source p src in
      ret (VProto p)
  | Dump.KProtoRef _ => stuck (* only in registered prototypes *)
  | Dump.KTable t => ret (VTable t)
  | Dump.KTableRef t => let! t := table_at t in ret (VTable t)
  | Dump.KCData c => ret (VCData c)
  end.

Fixpoint register_all (f : Dump.KGc -> M VmKGc) (ks : list Dump.KGc) : M (list VmKGc) :=
  match ks with
  | [] => ret []
  | k :: ks => let! k := f k in let! ks := register_all f ks in ret (k :: ks)
  end.

Fixpoint register_proto (pt : Dump.Proto) : M Z :=
  let '(Dump.mkProto bc lines kgc kn _ uv flags numparams framesize firstline _ uvnames varnames src) := pt in
  let! kgc := register_all (register_kgc register_proto src) kgc in
  let! kstrv := kstr_values kgc in
  let! bc_ptr := alloc_code bc in
  alloc_proto (VmProto.mk bc lines kgc kn kstrv uv flags numparams framesize firstline uvnames varnames src bc_ptr).

(** The main function of a prototype, in the thread's environment. *)
Definition with_source (src : option Z) (pt : Dump.Proto) : Dump.Proto :=
  let '(Dump.mkProto a b c d e f g h i j k l m n) := pt in
  Dump.mkProto a b c d e f g h i j k l m (match src with Some s => Some s | None => n end).
Definition load_proto (pt : Dump.Proto) (chunkname : list Z) : M LuaValue :=
  let! src := match chunkname with [] => ret None | _ => let! sid := intern chunkname in ret (Some sid) end in
  let! p := register_proto (with_source src pt) in
  let! env := getl thread_env in
  let! f := alloc_func (FLua p env []) in
  ret (Value.func f).

(** A source text: the function or the message, [None] when a panic's. *)
Definition load_text (debug : bool) (src chunkname : list Z) : M (LuaValue + option (list Z)) :=
  let! st := geth strings in
  match compile_source src chunkname st debug with
  | Ran (pt, st) => do! modh (set_strings st) in let! f := load_proto pt chunkname in ret (inl f)
  | Error e => ret (inr (Some e))
  | Panicked => ret (inr None)
  | Diverged => stuck
  | OutOfFuel => no_fuel
  end.

(** A serialized chunk; the cache of [string.dump], a digit in byte 3, lives in
    the registry, which the model leaves out. *)
Definition undump_message (e : Dump.UndumpError) : list Z :=
  match e with
  | Dump.NotAChunk => lit "not a valid bytecode chunk"
  | Dump.VersionMismatch got => lit "bytecode version mismatch: got " ++ dec_digits got ++ lit ", expected 1"
  end.
Definition load_chunk (data chunkname : list Z) : M (LuaValue + option (list Z)) :=
  let! st := geth strings in
  let! r := lift (Dump.undump data st) in
  match r with
  | inl (pt, st) => do! modh (set_strings st) in let! f := load_proto pt chunkname in ret (inl f)
  | inr e => ret (inr (Some (undump_message e)))
  end.

Definition load (debug : bool) (src chunkname : list Z) : M (LuaValue + option (list Z)) :=
  if bool_decide (take 3 src = Dump.MAGIC) then
    if match src !! 3%nat with Some c => (48 <=? c) && (c <=? 57) | None => false end then stuck
    else load_chunk src chunkname
  else load_text debug src chunkname.
End Run.
