(* ===== verification/VmSpec.v ===== *)
(** * Reasoning about the interpreter: slots, copies and frames

    [slot s i] is the stack slot [i].  The stack operations are described by
    the slots they write; nothing else of the state changes ([stack_only]). *)

From Stdlib Require Import ZArith Lia Bool Ascii String.
From stdpp Require Import base decidable numbers option gmap list.
From S2P Require Import Prelude Float64 Value Strings FloatText PatClass Fold Bytecode Table ParseState VmState VmValue VmFrame VmMeta VmStep Vm.

Lemma zlen_cons1 {A} (x : A) xs : zlen (x :: xs) = zlen xs + 1.
Proof. unfold zlen. cbn [length]. lia. Qed.
Lemma znth_cons_S {A} (x : A) xs i : 0 < i -> znth (x :: xs) i = znth xs (i - 1).
Proof.
  intros Hi. unfold znth. destruct (Z.ltb_spec i 0), (Z.ltb_spec (i - 1) 0); try lia.
  replace (Z.to_nat i) with (S (Z.to_nat (i - 1))) by lia. done.
Qed.

Section Spec.
Context {St : Type} `{Strings St} `{StrPtrs St}.
#[local] Abbreviation M := (@M St).
#[local] Abbreviation Vm := (@Vm St).
#[local] Notation "'let!' x := a 'in' b" := (bind a (fun x => b)) (at level 10, x name, a at level 100, b at level 200).
#[local] Notation "'do!' a 'in' b" := (bind a (fun _ => b)) (at level 10, a at level 100, b at level 200).

Definition slot (s : Vm) (i : Z) : option LuaValue := znth (stack (l s)) i.
Definition slots (s : Vm) : Z := zlen (stack (l s)).
Definition with_stack (k : list LuaValue) (s : Vm) : Vm := mkVm (set_stack k (l s)) (it s).

(** Only slots changed, and not their number. *)
Definition stack_only (s s' : Vm) : Prop := s' = with_stack (stack (l s')) s /\ slots s' = slots s.

(** ** Running a computation *)

Lemma bind_Ok {A B} (m : M A) (f : A -> M B) a s s' : m s = Ok a s' -> bind m f s = f a s'.
Proof. unfold bind. by intros ->. Qed.

Lemma bind_then {A B C} (m : M A) (f : A -> M B) (g : B -> M C) s :
  bind (bind m f) g s = bind m (fun x => bind (f x) g) s.
Proof. unfold bind. by destruct (m s). Qed.

Lemma lift_Ok {A} (o : option A) a (s : Vm) : o = Some a -> lift o s = Ok a s.
Proof. by intros ->. Qed.

Lemma getl_Ok {A} (f : LuaState -> A) (s : Vm) : getl f s = Ok (f (l s)) s. Proof. reflexivity. Qed.
Lemma geth_Ok {A} (f : GcHeap -> A) (s : Vm) : geth f s = Ok (f (heap (l s))) s. Proof. reflexivity. Qed.
Lemma geti_Ok {A} (f : Interp -> A) (s : Vm) : geti f s = Ok (f (it s)) s. Proof. reflexivity. Qed.
Lemma stack_len_Ok (s : Vm) : stack_len s = Ok (slots s) s. Proof. reflexivity. Qed.

Lemma at_Ok s i v : slot s i = Some v -> at_ i s = Ok v s.
Proof. unfold slot, at_, bind, getl, gets, lift. by intros ->. Qed.

Lemma set_at_Ok s i v : 0 <= i < slots s ->
  exists s', set_at i v s = Ok tt s' /\ stack_only s s' /\ forall j, slot s' j = if decide (j = i) then Some v else slot s j.
Proof.
  intros Hi. destruct (zset_lt (stack (l s)) i v Hi) as [k E]. exists (with_stack k s).
  assert (Hs : stack (l (with_stack k s)) = k) by (by destruct s as [[] ?]).
  split; [|split].
  - unfold set_at, bind, getl, gets, lift, modl. by rewrite E.
  - split; [by rewrite Hs|]. unfold slots. rewrite Hs. by apply zlen_zset in E.
  - intros j. unfold slot. rewrite Hs. exact (znth_zset _ _ _ _ j E).
Qed.

(** ** States that differ in their slots *)

Lemma with_stack_twice k k' (s : Vm) : with_stack k (with_stack k' s) = with_stack k s.
Proof. by destruct s as [[] ?]. Qed.
Lemma with_stack_id (s : Vm) : with_stack (stack (l s)) s = s.
Proof. by destruct s as [[] ?]. Qed.

Lemma stack_only_refl s : stack_only s s.
Proof. split; [by rewrite with_stack_id|done]. Qed.
Lemma stack_only_trans s1 s2 s3 : stack_only s1 s2 -> stack_only s2 s3 -> stack_only s1 s3.
Proof.
  intros [E1 L1] [E2 L2]. split; [|congruence]. rewrite E2 at 1. rewrite E1 at 1.
  by rewrite with_stack_twice.
Qed.

Lemma stack_only_it s s' : stack_only s s' -> it s' = it s.
Proof. intros [-> _]. done. Qed.
Lemma stack_only_l {A} (f : LuaState -> A) s s' : (forall k x, f (set_stack k x) = f x) -> stack_only s s' -> f (l s') = f (l s).
Proof. intros Hf [-> _]. apply Hf. Qed.
Lemma stack_only_heap s s' : stack_only s s' -> heap (l s') = heap (l s).
Proof. apply (stack_only_l heap). by intros ? []. Qed.
Lemma stack_only_slots s s' : stack_only s s' -> slots s' = slots s.
Proof. by intros []. Qed.

Lemma slot_lt s i v : slot s i = Some v -> 0 <= i < slots s.
Proof. apply znth_Some_lt. Qed.
Lemma lt_slot s i : 0 <= i < slots s -> exists v, slot s i = Some v.
Proof. apply znth_lt_Some. Qed.

(** ** Runs of slots *)

(** Upwards, so the destination may overlap the source from below. *)
Lemma copy_slots_Ok n : forall dst src s, 0 <= dst <= src -> src + Z.of_nat n <= slots s ->
  exists s', copy_slots n dst src s = Ok tt s' /\ stack_only s s' /\
    forall j, slot s' j = if decide (dst <= j < dst + Z.of_nat n) then slot s (src + (j - dst)) else slot s j.
Proof.
  induction n as [|n IH]; intros dst src s Hd Hs.
  - exists s. split; [done|]. split; [apply stack_only_refl|]. intros j. rewrite decide_False by lia. done.
  - cbn [copy_slots]. destruct (lt_slot s src ltac:(lia)) as [v Ev].
    rewrite (bind_Ok _ _ _ _ _ (at_Ok _ _ _ Ev)).
    destruct (set_at_Ok s dst v) as (s1 & E1 & O1 & S1); [lia|].
    rewrite (bind_Ok _ _ _ _ _ E1). pose proof (stack_only_slots _ _ O1) as L1.
    destruct (IH (dst + 1) (src + 1) s1) as (s2 & E2 & O2 & S2); [lia|lia|].
    exists s2. split; [done|]. split; [by eapply stack_only_trans|].
    intros j. rewrite S2, !S1. repeat case_decide; try lia; try done.
    + f_equal. lia.
    + subst. rewrite <- Ev. f_equal. lia.
Qed.

Lemma nil_slots_Ok n : forall dst s, 0 <= dst -> dst + Z.of_nat n <= slots s ->
  exists s', nil_slots n dst s = Ok tt s' /\ stack_only s s' /\
    forall j, slot s' j = if decide (dst <= j < dst + Z.of_nat n) then Some NIL else slot s j.
Proof.
  induction n as [|n IH]; intros dst s Hd Hs.
  - exists s. split; [done|]. split; [apply stack_only_refl|]. intros j. by rewrite decide_False by lia.
  - cbn [nil_slots]. destruct (set_at_Ok s dst NIL) as (s1 & E1 & O1 & S1); [lia|].
    rewrite (bind_Ok _ _ _ _ _ E1). pose proof (stack_only_slots _ _ O1) as L1.
    destruct (IH (dst + 1) s1) as (s2 & E2 & O2 & S2); [lia|lia|].
    exists s2. split; [done|]. split; [by eapply stack_only_trans|].
    intros j. rewrite S2, !S1. repeat case_decide; try lia; done.
Qed.

Lemma nil_range_Ok lo hi dst s : 0 <= dst + lo -> dst + Z.max lo hi <= slots s ->
  exists s', nil_range lo hi dst s = Ok tt s' /\ stack_only s s' /\
    forall j, slot s' j = if decide (dst + lo <= j < dst + hi) then Some NIL else slot s j.
Proof.
  intros Hlo Hhi. destruct (nil_slots_Ok (Z.to_nat (hi - lo)) (dst + lo) s) as (s' & E & O & S); [lia|lia|].
  exists s'. split; [done|]. split; [done|]. intros j. rewrite S. repeat case_decide; try lia; done.
Qed.

Lemma put_slots_Ok vs : forall dst s, 0 <= dst -> dst + zlen vs <= slots s ->
  exists s', put_slots dst vs s = Ok tt s' /\ stack_only s s' /\
    forall j, slot s' j = if decide (dst <= j < dst + zlen vs) then znth vs (j - dst) else slot s j.
Proof.
  induction vs as [|v vs IH]; intros dst s Hd Hs.
  - exists s. split; [done|]. split; [apply stack_only_refl|]. intros j. rewrite decide_False; [done|]. change (zlen []) with 0. lia.
  - cbn [put_slots]. rewrite zlen_cons1 in Hs |- *. pose proof (zlen_nonneg vs).
    destruct (set_at_Ok s dst v) as (s1 & E1 & O1 & S1); [lia|].
    rewrite (bind_Ok _ _ _ _ _ E1). pose proof (stack_only_slots _ _ O1) as L1.
    destruct (IH (dst + 1) s1) as (s2 & E2 & O2 & S2); [lia|lia|].
    exists s2. split; [done|]. split; [by eapply stack_only_trans|].
    intros j. rewrite S2, !S1. repeat case_decide; try lia; try done.
    + rewrite (znth_cons_S v vs (j - dst)) by lia. f_equal. lia.
    + subst. by rewrite Z.sub_diag.
Qed.
End Spec.

(** ** Fuel

    More fuel changes no outcome of a run: a result, an error or a panic found
    with some fuel is the outcome with any more. *)

Section Fuel.
Context {St : Type} `{Strings St} `{StrPtrs St} `{Builtins St} `{Libm} `{StrHash St}.
#[local] Abbreviation M := (@M St).

(** [m'] does what [m] does unless [m] runs out of fuel. *)
Definition refines {A} (m m' : M A) : Prop := forall s, m s = NoFuel \/ m' s = m s.

Lemma refines_refl {A} (m : M A) : refines m m.
Proof. intros s. by right. Qed.
Lemma refines_trans {A} (m1 m2 m3 : M A) : refines m1 m2 -> refines m2 m3 -> refines m1 m3.
Proof. intros A1 A2 s. destruct (A1 s) as [?|E1]; [by left|]. destruct (A2 s) as [?|E2]; [left|right]; congruence. Qed.

Lemma refines_bind {A B} (m m' : M A) (f f' : A -> M B) : refines m m' -> (forall a, refines (f a) (f' a)) ->
  refines (bind m f) (bind m' f').
Proof.
  intros Hm Hf s. unfold bind. destruct (Hm s) as [-> | ->]; [by left|]. destruct (m s); [apply Hf|by right..].
Qed.
Lemma refines_attempt {A} (m m' : M A) : refines m m' -> refines (attempt m) (attempt m').
Proof. intros Hm s. unfold attempt. destruct (Hm s) as [-> | ->]; [by left|by right]. Qed.

Ltac refine_step :=
  match goal with
  | |- refines ?m ?m' => constr_eq m m'; apply refines_refl
  | |- refines (bind _ _) (bind _ _) => apply refines_bind; [|intros ?]
  | |- refines (attempt _) (attempt _) => apply refines_attempt
  | |- refines (match ?x with _ => _ end) _ => destruct x
  | R : forall _, _ |- refines (?d _ _ _) (?d' _ _ _) => is_var d; is_var d'; apply R
  | R : forall _, _ |- refines (?d _ _) (?d' _ _) => is_var d; is_var d'; apply R
  end.
Ltac refine_all := repeat (refine_step; cbv beta zeta).

Section Step.
Context (e e' : Z -> Z -> Z -> M Z) (He : forall f n w, refines (e f n w) (e' f n w)).

Lemma cat_meta_refines o1 o2 t : refines (cat_meta e o1 o2 t) (cat_meta e' o1 o2 t).
Proof using He. unfold cat_meta. refine_all. Qed.

Lemma cat_loop_refines n : forall b t, refines (cat_loop e n b t) (cat_loop e' n b t).
Proof using He.
  induction n as [|n IH]; intros b t; cbn [cat_loop]; [apply refines_refl|].
  refine_all; first [apply IH | apply cat_meta_refines].
Qed.

Lemma do_tailcall_refines a n : refines (do_tailcall e a n) (do_tailcall e' a n).
Proof using He. unfold do_tailcall. refine_all. Qed.

Lemma exec_ins_refines fr ip ins op : refines (exec_ins e fr ip ins op) (exec_ins e' fr ip ins op).
Proof using He.
  assert (Hslow : forall a n, refines (tailcall_slow e fr ip a n) (tailcall_slow e' fr ip a n)).
  { intros a n. unfold tailcall_slow. refine_all; apply do_tailcall_refines. }
  destruct op; try exact (refines_refl (exec_plain fr ip ins _)).
  - cbn [exec_ins]. unfold cat_arm, meta_cat. refine_all; apply cat_loop_refines.
  - cbn [exec_ins]. refine_all; apply Hslow.
  - cbn [exec_ins]. unfold callt_arm. refine_all; apply Hslow.
Qed.

Lemma step_refines fr ip : refines (step e fr ip) (step e' fr ip).
Proof using He. unfold step. refine_all. apply exec_ins_refines. Qed.
End Step.

Lemma execute_with_refines d d' : (forall fr ip, refines (d fr ip) (d' fr ip)) ->
  forall f n w, refines (execute_with d f n w) (execute_with d' f n w).
Proof.
  intros Hd f n w. unfold execute_with, nested, execute_inner_link, with_interp, run. refine_all.
Qed.

Lemma dispatch_S n : forall fr ip, refines (dispatch n fr ip) (dispatch (S n) fr ip).
Proof.
  induction n as [|n IH]; intros fr ip; [intros s; by left|]. cbn [dispatch].
  apply refines_bind; [apply step_refines, execute_with_refines, IH|]. intros []; [apply IH|apply refines_refl].
Qed.

Lemma dispatch_mono n m fr ip : (n <= m)%nat -> refines (dispatch n fr ip) (dispatch m fr ip).
Proof. intros Hnm. induction Hnm; [apply refines_refl|]. eapply refines_trans; [done|]. apply dispatch_S. Qed.

(** The outcome of a call from the host does not depend on the fuel: once
    a run ends, with results, an error or a panic, every larger amount of fuel
    gives the same outcome in the same state. *)
Theorem call_fuel n m f args s (Hn : (n <= m)%nat) (Hrun : call n f args s <> NoFuel) : call m f args s = call n f args s.
Proof.
  assert (refines (call n f args) (call m f args)) as Hr.
  { unfold call, execute. refine_all. apply execute_with_refines. intros fr ip. by apply dispatch_mono. }
  by destruct (Hr s).
Qed.
End Fuel.
