(* ===== verification/VmCall.v ===== *)
(** * Calls and returns of Lua functions

    A call stores the return address under the callee's frame and passes the
    arguments; whatever the callee does above its frame, its return delivers
    the results to the call's registers, padded with nil, and resumes the
    caller at that address. *)

From Stdlib Require Import ZArith Lia Bool Ascii String.
From stdpp Require Import base decidable numbers option gmap list.
From S2P Require Import Prelude Float64 Value Strings FloatText PatClass Fold Bytecode Table ParseState VmState VmValue VmFrame VmMeta VmStep Vm VmSpec.

(** ** Frame links *)

Lemma link_split n ty : 0 <= n < 2 ^ 61 -> 0 <= ty < 8 -> frame_link_of n ty = 8 * n + ty.
Proof.
  intros Hn Ht. unfold frame_link_of. rewrite Z.shiftl_mul_pow2 by lia. unfold uwrap. rewrite Z.mod_small by lia.
  replace (8 * n + ty) with (n * 2 ^ 3 + ty) by lia.
  assert (Hd : Z.land (n * 2 ^ 3) ty = 0).
  { apply Z.bits_inj'. intros k Hk. rewrite Z.land_spec, Z.bits_0. destruct (Z.ltb_spec k 3).
    - by rewrite Z.mul_pow2_bits_low by lia.
    - apply andb_false_intro2. rewrite <- (Z.mod_small ty (2 ^ 3)) by lia. by apply Z.mod_pow2_bits_high. }
  rewrite <- Z.lxor_lor by done. symmetry. by apply Z.add_nocarry_lxor.
Qed.

Lemma link_type n ty : 0 <= n < 2 ^ 61 -> 0 <= ty < 4 -> frame_type (frame_link_of n ty) = ty.
Proof.
  intros. rewrite link_split by lia. unfold frame_type, FRAME_TYPE_MASK. change 3 with (Z.ones 2). rewrite Z.land_ones by lia.
  replace (8 * n + ty) with (ty + (2 * n) * 2 ^ 2) by lia. rewrite Z.mod_add by lia. apply Z.mod_small. lia.
Qed.
Lemma link_delta n ty : 0 <= n < 2 ^ 61 -> 0 <= ty < 8 -> frame_delta (frame_link_of n ty) = n.
Proof.
  intros. rewrite link_split by done. unfold frame_delta. rewrite Z.shiftr_div_pow2 by lia.
  replace (8 * n + ty) with (ty + n * 2 ^ 3) by lia. rewrite Z.div_add by lia. rewrite Z.div_small by lia. lia.
Qed.

(** A word-aligned address has the type of a Lua link. *)
Lemma link_aligned ip : ip mod 4 = 0 -> frame_type ip = FRAME_LUA.
Proof. intros Hip. unfold frame_type, FRAME_TYPE_MASK. change 3 with (Z.ones 2). by rewrite Z.land_ones by lia. Qed.

Section Call.
Context {St : Type} `{Strings St} `{StrPtrs St} `{Builtins St} `{Libm} `{StrHash St}.
#[local] Abbreviation M := (@M St).
#[local] Abbreviation Vm := (@Vm St).
Implicit Types s : Vm.

(** ** Growing the stack *)

Definition grown (s s' : Vm) : Prop :=
  s' = with_stack (stack (l s')) s /\ slots s <= slots s' /\ forall j, j < slots s -> slot s' j = slot s j.

Lemma grown_refl s : grown s s.
Proof. split; [by rewrite with_stack_id|]. split; [lia|done]. Qed.

Lemma stack_ensure_Ok need s : slots s <= max_stack (l s) -> need <= max_stack (l s) ->
  exists s', stack_ensure need s = Ok tt s' /\ grown s s' /\ need <= slots s' <= max_stack (l s).
Proof.
  intros Hs Hn. unfold stack_ensure. rewrite (bind_Ok _ _ _ _ _ (getl_Ok stack s)).
  rewrite (bind_Ok _ _ _ _ _ (getl_Ok max_stack s)). change (zlen (stack (l s))) with (slots s).
  destruct (Z.leb_spec (slots s) need) as [Hle|Hlt].
  2: { exists s. split; [done|]. split; [apply grown_refl|lia]. }
  set (n := Z.min _ _). pose proof (zlen_nonneg (stack (l s))) as Hz. change (zlen (stack (l s))) with (slots s) in Hz.
  assert (Hl : slots s <= n /\ need <= n <= max_stack (l s)) by (subst n; lia).
  set (k := take (Z.to_nat n) (stack (l s)) ++ _).
  assert (Ht : take (Z.to_nat n) (stack (l s)) = stack (l s)).
  { apply take_ge. unfold slots, zlen in *. lia. }
  exists (with_stack k s).
  assert (Hst : stack (l (with_stack k s)) = k) by (by destruct s as [[] ?]).
  assert (Hk : slots (with_stack k s) = n).
  { unfold slots. rewrite Hst. subst k. rewrite Ht. unfold zlen. rewrite length_app, length_replicate. unfold slots, zlen in *. lia. }
  split; [done|]. split; [|lia]. split; [by rewrite Hst|]. split; [lia|].
  intros j Hj. unfold slot. rewrite Hst. subst k. rewrite Ht, znth_app. unfold slots in Hj.
  by rewrite (proj2 (Z.ltb_lt _ _) Hj).
Qed.

(** ** What a call does not touch *)

(** The heap, the open upvalues and the stack's bound stay. *)
Definition quiet (s s' : Vm) : Prop :=
  heap (l s') = heap (l s) /\ openuv (l s') = openuv (l s) /\ max_stack (l s') = max_stack (l s).

Lemma quiet_refl s : quiet s s. Proof. done. Qed.
Lemma quiet_trans s1 s2 s3 : quiet s1 s2 -> quiet s2 s3 -> quiet s1 s3.
Proof. unfold quiet. intros (? & ? & ?) (? & ? & ?). repeat split; congruence. Qed.
Lemma quiet_with_stack k s : quiet s (with_stack k s).
Proof. by destruct s as [[] ?]. Qed.
Lemma quiet_stack_only s s' : stack_only s s' -> quiet s s'.
Proof. intros [-> _]. apply quiet_with_stack. Qed.
Lemma quiet_grown s s' : grown s s' -> quiet s s'.
Proof. intros [-> _]. apply quiet_with_stack. Qed.

Lemma lift_lookup {A} (f : @GcHeap St -> gmap Z A) (s : Vm) p v : f (heap (l s)) !! p = Some v ->
  bind (geth f) (fun m => lift (m !! p)) s = Ok v s.
Proof. intros E. rewrite (bind_Ok _ _ _ _ _ (geth_Ok f s)). by apply lift_Ok. Qed.

Lemma func_at_Ok (s : Vm) p f : funcs (heap (l s)) !! p = Some f -> func_at p s = Ok f s. Proof. apply lift_lookup. Qed.
Lemma proto_at_Ok (s : Vm) p pt : protos (heap (l s)) !! p = Some pt -> proto_at p s = Ok pt s. Proof. apply lift_lookup. Qed.
Lemma read_ins_Ok (s : Vm) ip i : code (heap (l s)) !! ip = Some i -> read_ins ip s = Ok i s. Proof. apply lift_lookup. Qed.

(** ** The Lua function of a slot *)

(** [f] is the closure [gf] of the prototype [pt]. *)
Definition lua_func (h : @GcHeap St) (f : LuaValue) (gf : Z) (pt : VmProto) : Prop :=
  as_func f = Some gf /\ exists p env uvs, funcs h !! gf = Some (FLua p env uvs) /\ protos h !! p = Some pt.

Lemma proto_of_Ok (s : Vm) f gf pt : lua_func (heap (l s)) f gf pt -> proto_of gf s = Ok pt s.
Proof.
  intros (_ & p & env & uvs & Ef & Ep). unfold proto_of, lua_closure.
  rewrite bind_then, (bind_Ok _ _ _ _ _ (func_at_Ok _ _ _ Ef)). exact (proto_at_Ok _ _ _ Ep).
Qed.

Lemma proto_Ok (s : Vm) f pt : lua_func (heap (l s)) f (cl (it s)) pt -> proto s = Ok pt s.
Proof. intros Hf. unfold proto. rewrite (bind_Ok _ _ _ _ _ (geti_Ok cl s)). by apply (proto_of_Ok s f). Qed.

(** The closure's fields in the interpreter. *)
Definition running (i : Interp) (gf : Z) (pt : VmProto) : Prop :=
  cl i = gf /\ bcp i = VmProto.bc_ptr pt /\ knp i = VmProto.kn pt /\ ksp i = VmProto.kstrv pt.

Definition loaded (gf : Z) (pt : VmProto) (s : Vm) : Vm :=
  mkVm (l s) (set_ksp (VmProto.kstrv pt) (set_knp (VmProto.kn pt) (set_bcp (VmProto.bc_ptr pt) (set_cl gf (it s))))).
Lemma load_closure_Ok gf pt s : load_closure gf pt s = Ok tt (loaded gf pt s).
Proof. reflexivity. Qed.
Lemma running_loaded gf pt s : running (it (loaded gf pt s)) gf pt.
Proof. by destruct s as [? []]. Qed.

Lemma reload_Ok (s : Vm) f gf pt : lua_func (heap (l s)) f gf pt -> reload gf s = Ok tt (loaded gf pt s).
Proof. intros Hf. unfold reload. by rewrite (bind_Ok _ _ _ _ _ (proto_of_Ok _ _ _ _ Hf)). Qed.

Definition topped (t : Z) (s : Vm) : Vm := mkVm (set_frame_top t (set_top t (l s))) (it s).
Lemma set_tops_Ok t s : set_tops t s = Ok tt (topped t s).
Proof. reflexivity. Qed.

Lemma slot_loaded gf pt s i : slot (loaded gf pt s) i = slot s i. Proof. reflexivity. Qed.
Lemma slot_topped t s i : slot (topped t s) i = slot s i. Proof. by destruct s as [[] ?]. Qed.
Lemma slots_topped t s : slots (topped t s) = slots s. Proof. by destruct s as [[] ?]. Qed.
Lemma quiet_topped t s : quiet s (topped t s). Proof. by destruct s as [[] ?]. Qed.
Lemma quiet_loaded gf pt s : quiet s (loaded gf pt s). Proof. done. Qed.

(** ** Entering *)

Lemma copy_params_Ok n : forall i nargs src dst s, 0 <= i -> 0 <= src -> 0 <= nargs -> src + nargs <= dst -> dst + i + Z.of_nat n <= slots s ->
  exists s', copy_params n i nargs src dst s = Ok tt s' /\ stack_only s s' /\
    forall j, slot s' j = if decide (dst + i <= j < dst + i + Z.of_nat n)
                         then if j - dst <? nargs then slot s (src + (j - dst)) else Some NIL else slot s j.
Proof.
  induction n as [|n IH]; intros i nargs src dst s Hi Hs Ha Hd Hn.
  - exists s. split; [done|]. split; [apply stack_only_refl|]. intros j. by rewrite decide_False by lia.
  - cbn [copy_params].
    assert (exists v, (if i <? nargs then at_ (src + i) else ret NIL) s = Ok v s /\
              Some v = if i <? nargs then slot s (src + i) else Some NIL) as (v & Ev & Sv).
    { destruct (Z.ltb_spec i nargs); [|by exists NIL].
      destruct (lt_slot s (src + i) ltac:(lia)) as [v E]. exists v. by rewrite (at_Ok _ _ _ E). }
    rewrite (bind_Ok _ _ _ _ _ Ev).
    destruct (set_at_Ok s (dst + i) v) as (s1 & E1 & O1 & S1); [lia|].
    rewrite (bind_Ok _ _ _ _ _ E1). pose proof (stack_only_slots _ _ O1) as L1.
    destruct (IH (i + 1) nargs src dst s1) as (s2 & E2 & O2 & S2); [lia..|].
    exists s2. split; [done|]. split; [by eapply stack_only_trans|].
    intros j. rewrite S2, !S1. repeat case_decide; try lia; try done.
    + destruct (Z.ltb_spec (j - dst) nargs); [lia|done].
    + subst j. replace (dst + i - dst) with i by lia. exact Sv.
Qed.

(** The base of the callee's frame. *)
Definition callee_base (pt : VmProto) (callbase nargs : Z) : Z :=
  if is_vararg pt then callbase + nargs + 2 else callbase.

(** [s'] runs [gf] with [nargs] arguments from [callbase] on. *)
Record entered (gf : Z) (pt : VmProto) (callbase nargs : Z) (s s' : Vm) : Prop := {
  ent_quiet : quiet s s';
  ent_slots : slots s' = slots s;
  ent_base : base (it s') = callee_base pt callbase nargs;
  ent_run : running (it s') gf pt;
  ent_below : forall j, j < callbase -> slot s' j = slot s j;
  ent_params : forall k, 0 <= k < VmProto.numparams pt ->
    slot s' (callee_base pt callbase nargs + k) = if k <? nargs then slot s (callbase + k) else Some NIL;
  ent_varargs : is_vararg pt = true -> forall k, 0 <= k < nargs -> slot s' (callbase + k) = slot s (callbase + k);
  ent_link : is_vararg pt = true ->
    slot s' (callee_base pt callbase nargs - 1) = Some (frame_link_of (nargs + 2) FRAME_VARG);
}.

Definition header_fits (pt : VmProto) (callbase nargs : Z) (s : Vm) : Prop :=
  2 <= callbase /\ 0 <= nargs /\ 0 <= VmProto.numparams pt /\
  if is_vararg pt then callbase + nargs + 2 + VmProto.numparams pt < slots s
  else callbase + Z.max nargs (VmProto.numparams pt) <= slots s.

Lemma enter_vararg_Ok gf pt callbase nargs s : is_vararg pt = true -> has (VmProto.flags pt) PROTO_VARARG_NEEDSARG = false ->
  header_fits pt callbase nargs s ->
  exists s', enter_vararg gf pt callbase nargs s = Ok (callbase + nargs + 2) s' /\
    quiet s s' /\ slots s' = slots s /\ it s' = set_base (callbase + nargs + 2) (it s) /\
    (forall j, j < callbase + nargs -> slot s' j = slot s j) /\
    (forall k, 0 <= k < VmProto.numparams pt ->
       slot s' (callbase + nargs + 2 + k) = if k <? nargs then slot s (callbase + k) else Some NIL) /\
    slot s' (callbase + nargs + 1) = Some (frame_link_of (nargs + 2) FRAME_VARG).
Proof.
  intros Hv Hn (Hb & Ha & Hp & Hf). rewrite Hv in Hf. unfold enter_vararg.
  destruct (set_at_Ok s (callbase + nargs + 2 - 2) (Value.func gf)) as (s1 & E1 & O1 & S1); [lia|].
  rewrite (bind_Ok _ _ _ _ _ E1). pose proof (stack_only_slots _ _ O1) as L1.
  destruct (copy_params_Ok (Z.to_nat (VmProto.numparams pt)) 0 nargs callbase (callbase + nargs + 2) s1) as (s2 & E2 & O2 & S2); [lia..|].
  rewrite (bind_Ok _ _ _ _ _ E2). pose proof (stack_only_slots _ _ O2) as L2.
  destruct (set_at_Ok s2 (callbase + nargs + 2 - 1) (frame_link_of (callbase + nargs + 2 - callbase) FRAME_VARG)) as (s3 & E3 & O3 & S3); [lia|].
  rewrite (bind_Ok _ _ _ _ _ E3). pose proof (stack_only_slots _ _ O3) as L3.
  set (s4 := topped (callbase + nargs + 2 + VmProto.framesize pt) (mkVm (l s3) (set_base (callbase + nargs + 2) (it s3)))).
  assert (L4 : slots s4 = slots s3) by (subst s4; by rewrite slots_topped).
  destruct (set_at_Ok s4 (callbase + nargs + 2 + VmProto.numparams pt) NIL) as (s5 & E5 & O5 & S5); [lia|].
  pose proof (stack_only_slots _ _ O5) as L5.
  exists s5. split.
  { unfold bind at 1. cbn [modi]. unfold bind at 1. rewrite set_tops_Ok. fold s4. unfold implicit_arg. rewrite Hn.
    by rewrite (bind_Ok _ _ _ _ _ E5). }
  assert (Hsl : forall j, slot s4 j = slot s3 j) by (intros; subst s4; by rewrite slot_topped).
  split; [|split; [lia|split; [|split; [|split]]]].
  - eapply quiet_trans; [|apply quiet_stack_only, O5]. subst s4. eapply quiet_trans; [|apply quiet_topped].
    change (quiet s s3). eapply quiet_trans; [apply quiet_stack_only, O1|].
    eapply quiet_trans; [apply quiet_stack_only, O2|]. apply quiet_stack_only, O3.
  - rewrite (stack_only_it _ _ O5). subst s4. cbn. by rewrite (stack_only_it _ _ O3), (stack_only_it _ _ O2), (stack_only_it _ _ O1).
  - intros j Hj. rewrite S5, Hsl, S3, S2, !S1. repeat case_decide; try lia; done.
  - intros k Hk. rewrite S5, Hsl, S3, S2, !S1.
    replace (callbase + nargs + 2 + k - (callbase + nargs + 2)) with k by lia.
    destruct (Z.ltb_spec k nargs); repeat case_decide; try lia; done.
  - rewrite S5, Hsl, S3. repeat case_decide; try lia. do 2 f_equal. lia.
Qed.

Lemma enter_header_Ok gf pt callbase nargs s : has (VmProto.flags pt) PROTO_VARARG_NEEDSARG = false ->
  header_fits pt callbase nargs s ->
  exists s', enter_header gf pt callbase nargs s = Ok tt s' /\ entered gf pt callbase nargs s s'.
Proof.
  intros Hn Hfit. unfold enter_header. destruct (is_vararg pt) eqn:Hv.
  - destruct (enter_vararg_Ok gf pt callbase nargs s Hv Hn Hfit) as (s1 & E1 & Q1 & L1 & I1 & B1 & P1 & K1).
    rewrite (bind_Ok _ _ _ _ _ E1), (bind_Ok _ _ _ _ _ (load_closure_Ok gf pt s1)), set_tops_Ok.
    eexists. split; [done|]. unfold callee_base. split; unfold callee_base; rewrite ?Hv.
    + eapply quiet_trans; [exact Q1|]. eapply quiet_trans; [apply quiet_loaded|apply quiet_topped].
    + by rewrite slots_topped.
    + cbn. rewrite I1. by destruct (it s) eqn:?.
    + apply running_loaded.
    + intros j Hj. rewrite slot_topped, slot_loaded. apply B1. destruct Hfit as (? & ? & _). lia.
    + intros k Hk. rewrite slot_topped, slot_loaded. by apply P1.
    + intros _ k Hk. rewrite slot_topped, slot_loaded. apply B1. lia.
    + intros _. rewrite slot_topped, slot_loaded. replace (callbase + nargs + 2 - 1) with (callbase + nargs + 1) by lia. exact K1.
  - destruct Hfit as (Hb & Ha & Hp & Hf). rewrite Hv in Hf.
    destruct (nil_range_Ok nargs (VmProto.numparams pt) callbase s) as (s1 & E1 & O1 & S1); [lia..|].
    rewrite bind_then, (bind_Ok _ _ _ _ _ E1). unfold bind at 1. cbn [modi bind ret].
    unfold bind at 1. rewrite load_closure_Ok, set_tops_Ok.
    eexists. split; [done|]. split; unfold callee_base; rewrite ?Hv; try done.
    + eapply quiet_trans; [apply quiet_stack_only, O1|].
      change (quiet (loaded gf pt (mkVm (l s1) (set_base callbase (it s1)))) (topped (callbase + VmProto.framesize pt) (loaded gf pt (mkVm (l s1) (set_base callbase (it s1)))))).
      apply quiet_topped.
    + rewrite slots_topped. change (slots s1 = slots s). by apply stack_only_slots.
    + cbn. by destruct (it s1).
    + cbn. by destruct (it s1).
    + intros j Hj. rewrite slot_topped. change (slot s1 j = slot s j). rewrite S1. by rewrite decide_False by lia.
    + intros k Hk. rewrite slot_topped. change (slot s1 (callbase + k) = if k <? nargs then slot s (callbase + k) else Some NIL).
      rewrite S1. repeat case_decide; destruct (Z.ltb_spec k nargs); try lia; done.
Qed.

(** ** The fast call *)

Definition valid (fr : Frame) (s : Vm) : Prop := sp fr = slots s.

Lemma reg_Ok fr s i v : valid fr s -> slot s (fbase fr + i) = Some v -> reg fr i s = Ok v s.
Proof.
  intros Hv E. unfold reg, frame_valid, bind, stack_len, getl, gets. change (zlen (stack (l s))) with (slots s).
  rewrite Hv, Z.eqb_refl. exact (at_Ok _ _ _ E).
Qed.

Lemma sync_fr_Ok fr ip s : exists s', sync_fr fr ip s = Ok tt s' /\ quiet s s' /\ stack (l s') = stack (l s) /\
  multres (it s') = multres (it s) /\ base (it s') = fbase fr.
Proof. eexists. split; [reflexivity|]. by destruct s as [[] []]. Qed.

Lemma stack_slots s s' : stack (l s') = stack (l s) -> slots s' = slots s.
Proof. unfold slots. by intros ->. Qed.
Lemma stack_slot s s' j : stack (l s') = stack (l s) -> slot s' j = slot s j.
Proof. unfold slot. by intros ->. Qed.

(** The stack the callee may need, within the bound. *)
Definition call_need (pt : VmProto) (callbase nargs : Z) : Z :=
  if is_vararg pt then callbase + nargs + 2 + VmProto.numparams pt + VmProto.framesize pt + 16
  else callbase + VmProto.framesize pt + 8.

(** A Lua function and its arguments in registers from [a] on. *)
Record call_ready (fr : Frame) (a nargs gf : Z) (f : LuaValue) (pt : VmProto) (s : Vm) : Prop := {
  cr_valid : valid fr s;
  cr_base : 0 <= fbase fr /\ 0 <= a /\ 0 <= nargs;
  cr_func : slot s (fbase fr + a) = Some f;
  cr_lua : lua_func (heap (l s)) f gf pt;
  cr_noarg : has (VmProto.flags pt) PROTO_VARARG_NEEDSARG = false;
  cr_params : 0 <= VmProto.numparams pt <= VmProto.framesize pt;
  cr_args : fbase fr + a + 2 + nargs <= slots s;
  cr_max : slots s <= max_stack (l s) <= STACK_MAX;
  cr_need : call_need pt (fbase fr + a + 2) nargs <= max_stack (l s);
}.

(** The callee's frame, with the return address below it. *)
Record called (fr : Frame) (a nargs gf ip : Z) (pt : VmProto) (s s' : Vm) : Prop := {
  cd_quiet : quiet s s';
  cd_slots : slots s <= slots s' <= max_stack (l s);
  cd_run : running (it s') gf pt;
  cd_ret : slot s' (fbase fr + a + 1) = Some ip;
  cd_below : forall j, j < fbase fr + a + 1 -> slot s' j = slot s j;
  cd_params : forall k, 0 <= k < VmProto.numparams pt ->
    slot s' (callee_base pt (fbase fr + a + 2) nargs + k) = if k <? nargs then slot s (fbase fr + a + 2 + k) else Some NIL;
  cd_varargs : is_vararg pt = true -> forall k, 0 <= k < nargs -> slot s' (fbase fr + a + 2 + k) = slot s (fbase fr + a + 2 + k);
  cd_link : is_vararg pt = true ->
    slot s' (callee_base pt (fbase fr + a + 2) nargs - 1) = Some (frame_link_of (nargs + 2) FRAME_VARG);
  cd_base : base (it s') = callee_base pt (fbase fr + a + 2) nargs;
}.

(** Room for the callee: nothing but the stack's length changes. *)
Lemma ensure_for_call fr ip need s : slots s <= max_stack (l s) -> need <= max_stack (l s) ->
  exists s', (if slots s <? need then bind (sync_fr fr ip) (fun _ => stack_ensure need) else ret tt) s = Ok tt s' /\
    quiet s s' /\ slots s <= slots s' <= max_stack (l s) /\ need <= slots s' /\ forall j, j < slots s -> slot s' j = slot s j.
Proof.
  intros Hs Hn. destruct (Z.ltb_spec (slots s) need) as [Hlt|Hge].
  2: { exists s. repeat split; by try lia. }
  destruct (sync_fr_Ok fr ip s) as (s1 & E1 & Q1 & K1 & _).
  destruct (stack_ensure_Ok need s1) as (s2 & E2 & G2 & L2).
  { rewrite (stack_slots _ _ K1). destruct Q1 as (_ & _ & ->). done. }
  { destruct Q1 as (_ & _ & ->). done. }
  exists s2. rewrite (bind_Ok _ _ _ _ _ E1). split; [exact E2|]. split; [eapply quiet_trans; [exact Q1|apply quiet_grown, G2]|].
  destruct G2 as (_ & L & S). rewrite (stack_slots _ _ K1) in L, S. destruct Q1 as (_ & _ & Q1). split; [lia|]. split; [lia|].
  intros j Hj. rewrite S by lia. by apply stack_slot.
Qed.

Lemma call_lua_fast_Ok fr a nargs gf f pt ip s : call_ready fr a nargs gf f pt s ->
  exists s', call_lua_fast a nargs fr ip s =
      Ok (Some (mkFrame (slots s') (callee_base pt (fbase fr + a + 2) nargs), VmProto.bc_ptr pt + 4)) s' /\
    called fr a nargs gf ip pt s s'.
Proof.
  intros [Hv (Hb & Ha & Hn) Hf (Eg & p & env & uvs & Ef & Ep) Hna Hp Hargs Hmax Hneed].
  unfold call_lua_fast. rewrite (bind_Ok _ _ _ _ _ (reg_Ok _ _ _ _ Hv Hf)), Eg.
  rewrite (bind_Ok _ _ _ _ _ (func_at_Ok _ _ _ Ef)), (bind_Ok _ _ _ _ _ (proto_at_Ok _ _ _ Ep)).
  rewrite (bind_Ok _ _ _ _ _ (getl_Ok max_stack s)). cbv zeta.
  replace (if is_vararg pt then _ else _) with (call_need pt (fbase fr + a + 2) nargs) by (unfold call_need; destruct (is_vararg pt); lia).
  destruct (Z.ltb_spec (max_stack (l s)) (call_need pt (fbase fr + a + 2) nargs)) as [Hc|_]; [lia|].
  rewrite (bind_Ok _ _ _ _ _ (stack_len_Ok s)).
  destruct (ensure_for_call fr ip _ s (proj1 Hmax) Hneed) as (s1 & E1 & Q1 & L1 & N1 & S1).
  rewrite (bind_Ok _ _ _ _ _ E1).
  assert (0 <= fbase fr + a + 2 - 1 < slots s1) as Hi by lia.
  destruct (set_at_Ok s1 (fbase fr + a + 2 - 1) ip Hi) as (s2 & E2 & O2 & S2).
  rewrite (bind_Ok _ _ _ _ _ E2). pose proof (stack_only_slots _ _ O2) as L2.
  destruct (enter_header_Ok gf pt (fbase fr + a + 2) nargs s2 Hna) as (s3 & E3 & X).
  { unfold header_fits. unfold call_need in N1. destruct (is_vararg pt); repeat split; lia. }
  rewrite (bind_Ok _ _ _ _ _ E3), (bind_Ok _ _ _ _ _ (geti_Ok base s3)).
  unfold frame_new. rewrite bind_then, (bind_Ok _ _ _ _ _ (stack_len_Ok s3)), (ent_base _ _ _ _ _ _ X).
  eexists. split; [reflexivity|].
  pose proof (ent_slots _ _ _ _ _ _ X) as L3.
  assert (Hlow : forall j, j <> fbase fr + a + 1 -> j < slots s -> slot s2 j = slot s j).
  { intros j Hj Hl. rewrite S2, decide_False by lia. by apply S1. }
  split.
  - eapply quiet_trans; [exact Q1|]. eapply quiet_trans; [apply quiet_stack_only, O2|apply X].
  - lia.
  - apply X.
  - rewrite (ent_below _ _ _ _ _ _ X) by lia. rewrite S2. by rewrite decide_True by lia.
  - intros j Hj. rewrite (ent_below _ _ _ _ _ _ X) by lia. apply Hlow; lia.
  - intros k Hk. rewrite (ent_params _ _ _ _ _ _ X) by done. destruct (Z.ltb_spec k nargs); [|done]. apply Hlow; lia.
  - intros Hvv k Hk. rewrite (ent_varargs _ _ _ _ _ _ X Hvv) by done. apply Hlow; lia.
  - apply X.
  - apply X.
Qed.

(** ** The return *)

(** The frame at [fb], of a call whose arguments start at [callbase], returns
    to the address [ip]. *)
Definition returns_to (s : Vm) (fb callbase ip : Z) : Prop :=
  slot s (callbase - 1) = Some ip /\
  (fb = callbase \/ (2 <= fb - callbase < 2 ^ 61 /\ slot s (fb - 1) = Some (frame_link_of (fb - callbase) FRAME_VARG))).

(** A return address: aligned, and no index of the stack. *)
Definition return_address (s : Vm) (ip : Z) : Prop := ip mod 4 = 0 /\ slots s <= frame_delta ip.

Lemma vararg_chain_Ok n s fb callbase ip link : (2 <= n)%nat -> returns_to s fb callbase ip -> frame_type ip <> FRAME_VARG ->
  slot s (fb - 1) = Some link -> vararg_chain n fb link s = Ok (callbase, ip) s.
Proof.
  intros Hn [Hr Hf] Ht Hl.
  assert (Hstop : forall m, (1 <= m)%nat -> vararg_chain m callbase ip s = Ok (callbase, ip) s).
  { intros [|m] ?; [lia|]. cbn [vararg_chain]. by rewrite (proj2 (Z.eqb_neq _ _) Ht). }
  destruct Hf as [->|[Hd Hv]].
  - rewrite Hr in Hl. injection Hl as <-. apply Hstop. lia.
  - rewrite Hv in Hl. injection Hl as <-. destruct n as [|n]; [lia|]. cbn [vararg_chain].
    rewrite link_type, link_delta by (unfold FRAME_VARG; lia).
    rewrite Z.eqb_refl, (proj2 (Z.eqb_neq (fb - callbase) 0)) by lia. cbn [negb andb]. cbv zeta.
    replace (fb - (fb - callbase)) with callbase by lia. rewrite (bind_Ok _ _ _ _ _ (at_Ok _ _ _ Hr)).
    apply Hstop. lia.
Qed.

Lemma ret_fast_n_Ok fr s callbase ip ins : valid fr s -> 1 <= fbase fr -> returns_to s (fbase fr) callbase ip ->
  return_address s ip -> openuv (l s) = [] -> code (heap (l s)) !! (ip - 4) = Some ins ->
  ret_fast_n fr s = Ok (Some (callbase, bc_b ins - 1, ip, bc_a ins)) s.
Proof.
  intros Hv Hb Hr Ha Ho Hc.
  assert (exists link, slot s (fbase fr - 1) = Some link) as [link Hl].
  { destruct Hr as [Hr [E|[_ E]]]; [rewrite E; by exists ip|by eexists]. }
  unfold ret_fast_n. replace (-1) with (0 - 1) by lia.
  rewrite (bind_Ok _ _ _ _ _ (reg_Ok fr s (0 - 1) link Hv ltac:(replace (fbase fr + (0 - 1)) with (fbase fr - 1) by lia; done))).
  rewrite (bind_Ok _ _ _ _ _ (vararg_chain_Ok (S (Z.to_nat (fbase fr))) s _ callbase ip link ltac:(lia) Hr ltac:(by rewrite (link_aligned _ (proj1 Ha))) Hl)).
  rewrite (bind_Ok _ _ _ _ _ (stack_len_Ok s)), (bind_Ok _ _ _ _ _ (getl_Ok openuv s)), Ho.
  destruct Ha as [Hip Hd]. rewrite (link_aligned ip Hip), Z.eqb_refl. rewrite (proj2 (Z.leb_le _ _) Hd), bool_decide_eq_true_2 by done.
  cbn [andb]. by rewrite (bind_Ok _ _ _ _ _ (read_ins_Ok _ _ _ Hc)).
Qed.

(** The callee's frame and its results, and the caller's below it. *)
Record return_ready (fr : Frame) (callbase src n ip ins : Z) (f : LuaValue) (gf : Z) (pt : VmProto) (s : Vm) : Prop := {
  rr_valid : valid fr s;
  rr_base : 2 <= callbase <= fbase fr;
  rr_to : returns_to s (fbase fr) callbase ip;
  rr_addr : return_address s ip;
  rr_closed : openuv (l s) = [];
  rr_code : code (heap (l s)) !! (ip - 4) = Some ins;
  rr_ops : 0 <= bc_a ins;
  rr_caller : slot s (callbase - 4 - bc_a ins) = Some f /\ lua_func (heap (l s)) f gf pt;
  rr_results : 0 <= src /\ 0 <= n /\ fbase fr + src + n <= slots s;
  rr_want : callbase - 2 + Z.max n (bc_b ins - 1) <= slots s;
}.

(** The results in place, and the caller running again. *)
Record returned (fr : Frame) (callbase src n want gf : Z) (pt : VmProto) (s s' : Vm) : Prop := {
  rd_quiet : quiet s s';
  rd_slots : slots s' = slots s;
  rd_run : running (it s') gf pt;
  rd_multres : multres (it s') = n;
  rd_results : forall k, 0 <= k < n -> slot s' (callbase - 2 + k) = slot s (fbase fr + src + k);
  rd_pad : forall k, n <= k < want -> slot s' (callbase - 2 + k) = Some NIL;
  rd_others : forall j, j < callbase - 2 \/ callbase - 2 + Z.max n want <= j -> slot s' j = slot s j;
}.

Lemma ret_arm_Ok fr callbase ip0 src n ip ins f gf pt s : return_ready fr callbase src n ip ins f gf pt s ->
  exists s', ret_arm fr ip0 src n s = Ok (Next (mkFrame (slots s) (callbase - 2 - bc_a ins)) ip) s' /\
    returned fr callbase src n (bc_b ins - 1) gf pt s s'.
Proof.
  intros [Hv Hb Hr Ha Ho Hc Hops [Hfs Hf] (Hsrc & Hn & Hres) Hw]. unfold ret_arm.
  rewrite (bind_Ok _ _ _ _ _ (ret_fast_n_Ok fr s callbase ip ins Hv ltac:(lia) Hr Ha Ho Hc)). cbv zeta.
  destruct (copy_slots_Ok (Z.to_nat n) (callbase - 2) (fbase fr + src) s) as (s1 & E1 & O1 & S1); [lia..|].
  rewrite (bind_Ok _ _ _ _ _ E1). pose proof (stack_only_slots _ _ O1) as L1.
  destruct (nil_range_Ok n (Z.max (bc_b ins - 1) 0) (callbase - 2) s1) as (s2 & E2 & O2 & S2); [lia..|].
  rewrite (bind_Ok _ _ _ _ _ E2). pose proof (stack_only_slots _ _ O2) as L2.
  set (s3 := mkVm (l s2) (set_multres n (it s2))).
  rewrite (bind_Ok (modi (set_multres n)) _ tt s2 s3 eq_refl).
  assert (L3 : slots s3 = slots s) by (change (slots s2 = slots s); lia).
  unfold frame_new at 1. rewrite bind_then, (bind_Ok _ _ _ _ _ (stack_len_Ok s3)), L3.
  set (fr' := mkFrame (slots s) _). rewrite (bind_Ok (ret fr') _ fr' s3 s3 eq_refl).
  assert (Q3 : quiet s s3).
  { eapply quiet_trans; [apply quiet_stack_only, O1|]. change (quiet s1 s2). apply quiet_stack_only, O2. }
  assert (Hlow : forall j, j < callbase - 2 \/ callbase - 2 + Z.max n (bc_b ins - 1) <= j -> slot s3 j = slot s j).
  { intros j Hj. change (slot s2 j = slot s j). rewrite S2, S1. repeat case_decide; try lia; done. }
  assert (Hf3 : lua_func (heap (l s3)) f gf pt) by (destruct Q3 as (-> & _); done).
  unfold reload_at. replace (-2) with (0 - 2) by lia.
  rewrite bind_then, (bind_Ok _ _ _ _ _ (reg_Ok fr' s3 (0 - 2) f (eq_sym L3) ltac:(cbn [fbase fr']; rewrite Hlow by lia; by replace (callbase - 2 - bc_a ins + (0 - 2)) with (callbase - 4 - bc_a ins) by lia))).
  rewrite bind_then, (bind_Ok _ _ _ _ _ (lift_Ok _ gf _ (proj1 Hf))).
  rewrite (bind_Ok _ _ _ _ _ (reload_Ok _ _ _ _ Hf3)).
  rewrite (bind_Ok _ _ _ _ _ (proto_Ok (loaded gf pt s3) f pt ltac:(rewrite (proj1 (running_loaded gf pt s3)); exact Hf3))).
  eexists. split; [reflexivity|]. set (s4 := mkVm _ _).
  assert (Hs4 : forall j, slot s4 j = slot s2 j) by (intros; subst s4; cbn; unfold slot; cbn; by destruct (l s2)).
  split.
  - eapply quiet_trans; [exact Q3|]. subst s4. cbn. unfold quiet. cbn. by destruct (l s2).
  - transitivity (slots s2); [|lia]. subst s4. unfold slots. cbn. by destruct (l s2).
  - subst s4. apply running_loaded.
  - subst s4. cbn. by destruct (it s2).
  - intros k Hk. rewrite Hs4, S2, S1. repeat case_decide; try lia. f_equal. lia.
  - intros k Hk. rewrite Hs4, S2. by rewrite decide_True by lia.
  - intros j Hj. rewrite Hs4. by apply Hlow.
Qed.

(** ** Call and return *)

(** The callee's run left the links of its frame in place. *)
Definition links_kept (pt : VmProto) (callbase nargs : Z) (s s' : Vm) : Prop :=
  slot s' (callbase - 1) = slot s (callbase - 1) /\
  (is_vararg pt = true -> slot s' (callee_base pt callbase nargs - 1) = slot s (callee_base pt callbase nargs - 1)).

(** The caller, and room for [n] results from register [src] of the callee. *)
Record may_return (fr : Frame) (a nargs ip ins src n gf : Z) (f : LuaValue) (pt pt' : VmProto) (s : Vm) : Prop := {
  mr_addr : return_address s ip;
  mr_closed : openuv (l s) = [];
  mr_code : code (heap (l s)) !! (ip - 4) = Some ins /\ bc_a ins = a;
  mr_caller : slot s (fbase fr - 2) = Some f /\ lua_func (heap (l s)) f gf pt;
  mr_results : 0 <= src /\ 0 <= n /\ callee_base pt' (fbase fr + a + 2) nargs + src + n <= slots s;
  mr_want : fbase fr + a + Z.max n (bc_b ins - 1) <= slots s;
}.

Lemma may_return_ready fr a nargs ip ins src n gf gf' f f' pt pt' s s1 s2 :
  call_ready fr a nargs gf' f' pt' s -> called fr a nargs gf' ip pt' s s1 ->
  links_kept pt' (fbase fr + a + 2) nargs s1 s2 -> may_return fr a nargs ip ins src n gf f pt pt' s2 ->
  return_ready (mkFrame (slots s2) (callee_base pt' (fbase fr + a + 2) nargs)) (fbase fr + a + 2) src n ip ins f gf pt s2.
Proof.
  intros R C [K1 K2] [Ha Ho [Hc Ea] [Hf Hl] Hres Hw]. destruct (cr_base _ _ _ _ _ _ _ R) as (Hb & Ha0 & Hn).
  pose proof (cr_args _ _ _ _ _ _ _ R). pose proof (cr_max _ _ _ _ _ _ _ R) as Hmax.
  assert (Hret : slot s2 (fbase fr + a + 2 - 1) = Some ip).
  { rewrite K1. replace (fbase fr + a + 2 - 1) with (fbase fr + a + 1) by lia. apply C. }
  split; cbn [fbase]; try done.
  - unfold callee_base. destruct (is_vararg pt'); lia.
  - split; [done|]. unfold callee_base. destruct (is_vararg pt') eqn:Hv; [right|by left].
    change STACK_MAX with 65536 in Hmax. split; [lia|].
    pose proof (cd_link _ _ _ _ _ _ _ _ C Hv) as Hk. unfold callee_base in Hk, K2. rewrite Hv in Hk, K2.
    rewrite (K2 eq_refl), Hk. do 2 f_equal. lia.
  - lia.
  - split; [|done]. replace (fbase fr + a + 2 - 4 - bc_a ins) with (fbase fr - 2) by lia. done.
  - lia.
Qed.

End Call.

(** ** The varargs of a call

    [...] in a vararg function gives the arguments past the parameters, which
    the call left below the function's frame. *)

Section Varg.
Context {St : Type} `{Strings St} `{StrPtrs St} `{Builtins St} `{Libm} `{StrHash St}.
#[local] Abbreviation Vm := (@Vm St).
Implicit Types s : Vm.

Lemma copy_varg_params n : forall i nvarg dst src s, copy_varg n i nvarg dst src s = copy_params n i nvarg src dst s.
Proof.
  induction n as [|n IH]; intros; [done|]. cbn [copy_varg copy_params]. unfold bind.
  destruct ((if i <? nvarg then at_ (src + i) else ret NIL) s); [|done..]. destruct (set_at (dst + i) a s0); [|done..]. apply IH.
Qed.

(** Without arguments nothing is read. *)
Lemma copy_params_none n : forall i src src' dst s, 0 <= i -> copy_params n i 0 src dst s = copy_params n i 0 src' dst s.
Proof.
  induction n as [|n IH]; intros i src src' dst s Hi; [done|]. cbn [copy_params]. rewrite (proj2 (Z.ltb_ge i 0)) by lia. unfold bind, ret.
  destruct (set_at (dst + i) NIL s); [|done..]. apply IH. lia.
Qed.

(** Copying to above the source. *)
Lemma copy_slots_above n : forall dst src s, 0 <= src -> src + Z.of_nat n <= dst -> dst + Z.of_nat n <= slots s ->
  exists s', copy_slots n dst src s = Ok tt s' /\ stack_only s s' /\
    forall j, slot s' j = if decide (dst <= j < dst + Z.of_nat n) then slot s (src + (j - dst)) else slot s j.
Proof.
  induction n as [|n IH]; intros dst src s Hs Hd Hn.
  - exists s. split; [done|]. split; [apply stack_only_refl|]. intros j. by rewrite decide_False by lia.
  - cbn [copy_slots]. destruct (lt_slot s src ltac:(lia)) as [v Ev]. rewrite (bind_Ok _ _ _ _ _ (at_Ok _ _ _ Ev)).
    destruct (set_at_Ok s dst v) as (s1 & E1 & O1 & S1); [lia|].
    rewrite (bind_Ok _ _ _ _ _ E1). pose proof (stack_only_slots _ _ O1) as L1.
    destruct (IH (dst + 1) (src + 1) s1) as (s2 & E2 & O2 & S2); [lia..|].
    exists s2. split; [done|]. split; [by eapply stack_only_trans|].
    intros j. rewrite S2, !S1. repeat case_decide; try lia; try done.
    + f_equal. lia.
    + subst. rewrite <- Ev. f_equal. lia.
Qed.

(** How many arguments are past the parameters. *)
Definition extra_args (pt : VmProto) (nargs : Z) : Z := Z.max 0 (nargs - VmProto.numparams pt).

(** What [...] leaves in the [want] registers from [dst] on. *)
Record varg_done (dst want n b src : Z) (s s' : Vm) : Prop := {
  vd_quiet : quiet s s';
  vd_slots : slots s <= slots s';
  vd_values : forall k, 0 <= k < want -> slot s' (dst + k) = if k <? n then slot s (src + k) else Some NIL;
  vd_below : forall j, j < dst -> slot s' j = slot s j;
  vd_multres : b = 0 -> multres (it s') = n;
}.

Lemma op_varg_Ok f pt cb nargs a b s : lua_func (heap (l s)) f (cl (it s)) pt -> base (it s) = cb ->
  slot s (cb - 1) = Some (frame_link_of (nargs + 2) FRAME_VARG) -> 0 <= nargs < 2 ^ 60 -> nargs + 2 <= cb -> 0 <= a ->
  0 <= b -> 0 <= VmProto.numparams pt -> slots s <= max_stack (l s) -> cb + a + extra_args pt nargs + 8 <= max_stack (l s) ->
  cb + a + Z.max 0 (b - 1) <= slots s ->
  exists s', op_varg a b s = Ok tt s' /\
    varg_done (cb + a) (if b =? 0 then extra_args pt nargs else b - 1) (extra_args pt nargs) b
      (cb - (nargs + 2) + VmProto.numparams pt) s s'.
Proof.
  intros Hf Hb Hl Hn Hc Ha Hb0 Hp Hmax Hroom Hwant. unfold op_varg.
  rewrite (bind_Ok _ _ _ _ _ (geti_Ok base s)), Hb, (bind_Ok _ _ _ _ _ (at_Ok _ _ _ Hl)).
  rewrite link_type, link_delta by (unfold FRAME_VARG; lia). rewrite Z.eqb_refl. cbn [negb]. cbv zeta.
  rewrite (proj2 (Z.ltb_ge (nargs + 2) 2)) by lia. rewrite (bind_Ok _ _ _ _ _ (proto_Ok _ _ _ Hf)).
  replace (nargs + 2 - 2 - VmProto.numparams pt) with (nargs - VmProto.numparams pt) by lia. fold (extra_args pt nargs).
  set (n := extra_args pt nargs) in *. set (src := cb - (nargs + 2) + VmProto.numparams pt).
  assert (Hnn : 0 <= n /\ (n = 0 \/ src + n = cb - 2)) by (subst n src; unfold extra_args; lia).
  rewrite (bind_Ok _ _ _ _ _ (stack_len_Ok s)).
  assert (exists s1, (if slots s <? cb + a + n + 8 then stack_ensure (cb + a + n + 8) else ret tt) s = Ok tt s1 /\
    grown s s1 /\ (cb + a + n <= slots s1)) as (s1 & E1 & G1 & L1).
  { destruct (Z.ltb_spec (slots s) (cb + a + n + 8)).
    - destruct (stack_ensure_Ok (cb + a + n + 8) s) as (s1 & E1 & G1 & L1); [done..|]. exists s1. do 2 (split; [done|]). lia.
    - exists s. split; [done|]. split; [apply grown_refl|lia]. }
  rewrite (bind_Ok _ _ _ _ _ E1). pose proof G1 as (_ & G & Gs).
  destruct (Z.eqb_spec b 0) as [->|Hb1].
  - destruct (copy_slots_above (Z.to_nat n) (cb + a) (if n =? 0 then 0 else src) s1) as (s2 & E2 & O2 & S2); [destruct (Z.eqb_spec n 0); lia..|].
    assert (E2' : copy_slots (Z.to_nat n) (cb + a) src s1 = Ok tt s2).
    { destruct (Z.eqb_spec n 0) as [E0|]; [|done]. rewrite E0 in *. exact E2. }
    rewrite (bind_Ok _ _ _ _ _ E2'). eexists. split; [reflexivity|]. set (s3 := mkVm _ _).
    assert (S3 : forall j, slot s3 j = slot s2 j) by (intros; subst s3; cbn; unfold slot; cbn; by destruct (l s2)).
    split.
    + eapply quiet_trans; [apply quiet_grown, G1|]. eapply quiet_trans; [apply quiet_stack_only, O2|]. subst s3. unfold quiet. cbn. by destruct (l s2).
    + assert (slots s3 = slots s2) as -> by (subst s3; unfold slots; cbn; by destruct (l s2)). rewrite (stack_only_slots _ _ O2). lia.
    + intros k Hk. rewrite S3, S2, decide_True by lia. rewrite (proj2 (Z.ltb_lt k n)) by lia. rewrite (proj2 (Z.eqb_neq n 0)) by lia.
      rewrite Gs by (subst src; lia). f_equal. lia.
    + intros j Hj. rewrite S3, S2, decide_False by lia. apply Gs. lia.
    + intros _. subst s3. cbn. by destruct (it s2).
  - rewrite copy_varg_params.
    destruct (copy_params_Ok (Z.to_nat (b - 1)) 0 n (if n =? 0 then 0 else src) (cb + a) s1) as (s2 & E2 & O2 & S2); [destruct (Z.eqb_spec n 0); lia..|].
    assert (E2' : copy_params (Z.to_nat (b - 1)) 0 n src (cb + a) s1 = Ok tt s2).
    { destruct (Z.eqb_spec n 0) as [E0|]; [|done]. rewrite E0 in *. rewrite <- E2. apply copy_params_none. lia. }
    rewrite E2'. exists s2. split; [done|]. split.
    + eapply quiet_trans; [apply quiet_grown, G1|apply quiet_stack_only, O2].
    + rewrite (stack_only_slots _ _ O2). lia.
    + intros k Hk. rewrite S2, decide_True by lia. replace (cb + a + k - (cb + a)) with k by lia.
      destruct (Z.ltb_spec k n); [|done]. rewrite (proj2 (Z.eqb_neq n 0)) by lia. apply Gs. lia.
    + intros j Hj. rewrite S2, decide_False by lia. apply Gs. lia.
    + done.
Qed.
(** The callee still runs, and left what is under its frame alone. *)
Record varargs_kept (f : LuaValue) (gf : Z) (pt : VmProto) (callbase nargs : Z) (s1 s2 : Vm) : Prop := {
  vk_run : cl (it s2) = gf /\ base (it s2) = base (it s1);
  vk_func : lua_func (heap (l s2)) f gf pt;
  vk_args : forall j, callbase <= j < callbase + nargs -> slot s2 j = slot s1 j;
  vk_link : slot s2 (callee_base pt callbase nargs - 1) = slot s1 (callee_base pt callbase nargs - 1);
  vk_max : slots s2 <= max_stack (l s2);
}.

(** C26. The varargs of a call are its arguments past the parameters: as long
    as the function runs in its frame, VARG puts them, in their order, in the
    registers it is asked for, padded with nil up to a fixed number or all of
    them with their count in MULTRES, growing the stack where they need it. *)
Theorem varargs_of_call fr a nargs gf f pt ip s (Hcall : call_ready fr a nargs gf f pt s) (Hv : is_vararg pt = true) :
  exists s1 callee, call_lua_fast a nargs fr ip s = Ok (Some (callee, VmProto.bc_ptr pt + 4)) s1 /\
    forall s2 x b, varargs_kept f gf pt (fbase fr + a + 2) nargs s1 s2 -> 0 <= x -> 0 <= b ->
      fbase callee + x + Z.max 0 (b - 1) <= slots s2 -> fbase callee + x + extra_args pt nargs + 8 <= max_stack (l s2) ->
      exists s3, op_varg x b s2 = Ok tt s3 /\ quiet s2 s3 /\
        (b = 0 -> multres (it s3) = extra_args pt nargs) /\
        (forall k, 0 <= k < (if b =? 0 then extra_args pt nargs else b - 1) ->
           slot s3 (fbase callee + x + k) =
             if k <? extra_args pt nargs then slot s (fbase fr + a + 2 + VmProto.numparams pt + k) else Some NIL) /\
        forall j, j < fbase callee + x -> slot s3 j = slot s2 j.
Proof.
  destruct (call_lua_fast_Ok fr a nargs gf f pt ip s Hcall) as (s1 & E1 & C). exists s1. eexists. split; [exact E1|].
  cbn [fbase]. intros s2 x b [[Hc Hb] Hf Hargs Hl Hmax] Hx Hb0 Hw Hr.
  destruct (cr_base _ _ _ _ _ _ _ Hcall) as (B1 & B2 & B3). pose proof (cr_max _ _ _ _ _ _ _ Hcall) as M1. change STACK_MAX with 65536 in M1.
  pose proof (cr_args _ _ _ _ _ _ _ Hcall) as M2. pose proof (cr_params _ _ _ _ _ _ _ Hcall) as M3.
  rewrite (cd_link _ _ _ _ _ _ _ _ C Hv) in Hl.
  assert (Ecb : callee_base pt (fbase fr + a + 2) nargs = fbase fr + a + 2 + nargs + 2) by (unfold callee_base; by rewrite Hv).
  rewrite Ecb in *. rewrite <- Hc in Hf.
  destruct (op_varg_Ok f pt _ nargs x b s2 Hf (eq_trans Hb (cd_base _ _ _ _ _ _ _ _ C)) ltac:(by rewrite Ecb))
    as (s3 & E3 & [V1 V2 V3 V4 V5]); rewrite ?Ecb; try lia.
  rewrite Ecb in V3, V4. exists s3. do 3 (split; [done|]). split; [|done].
  intros k Hk. rewrite V3 by done. destruct (Z.ltb_spec k (extra_args pt nargs)) as [Hlt|]; [|done].
  unfold extra_args in Hlt.
  replace (fbase fr + a + 2 + nargs + 2 - (nargs + 2) + VmProto.numparams pt + k) with (fbase fr + a + 2 + (VmProto.numparams pt + k)) by lia.
  rewrite Hargs, (cd_varargs _ _ _ _ _ _ _ _ C Hv (VmProto.numparams pt + k)); [f_equal; lia|lia..].
Qed.
End Varg.
