(* ===== verification/VmMetaCall.v ===== *)
(** * Metamethods written in Lua

    A metamethod runs in a frame of its own above the running one, with a
    continuation below its link: [mmcall_cont] builds it, and the return from
    it performs the continuation and resumes the interrupted instruction. *)

From Stdlib Require Import ZArith Lia Bool Ascii String.
From stdpp Require Import base decidable numbers option gmap list.
From S2P Require Import Prelude Float64 Value Strings FloatText PatClass Fold Bytecode Table ParseState VmState VmValue VmFrame VmMeta VmStep Vm VmSpec VmCall.

(** ** The continuation word *)

Lemma lor_high a b n : 0 <= n -> 0 <= b < 2 ^ n -> Z.lor (Z.shiftl a n) b = a * 2 ^ n + b.
Proof.
  intros Hn Hb. rewrite Z.shiftl_mul_pow2 by lia.
  assert (Hd : Z.land (a * 2 ^ n) b = 0).
  { apply Z.bits_inj'. intros k Hk. rewrite Z.land_spec, Z.bits_0. destruct (Z.ltb_spec k n).
    - by rewrite Z.mul_pow2_bits_low by lia.
    - apply andb_false_intro2. rewrite <- (Z.mod_small b (2 ^ n)) by lia. by apply Z.mod_pow2_bits_high. }
  rewrite <- Z.lxor_lor by done. symmetry. by apply Z.add_nocarry_lxor.
Qed.

Lemma cont_decode_encode c x : urange 32 x -> cont_decode (cont_encode c x) = Some (c, x).
Proof.
  unfold urange. intros Hx. unfold cont_encode, cont_decode. rewrite lor_high by lia.
  change 0xFFFFFFFF with (Z.ones 32). rewrite Z.shiftr_div_pow2, Z.land_ones by lia.
  rewrite Z.div_add_l, (Z.div_small x) by lia. rewrite (Z.add_comm _ x), Z.mod_add, Z.mod_small by lia.
  by destruct c.
Qed.

Section MetaCall.
Context {St : Type} `{Strings St} `{StrPtrs St} `{Builtins St} `{Libm} `{StrHash St}.
#[local] Abbreviation M := (@M St).
#[local] Abbreviation Vm := (@Vm St).
Implicit Types s : Vm.

(** ** Into the metamethod *)

(** The base of the arguments of a metamethod called from a frame of [pt0]. *)
Definition mm_base (s : Vm) (pt0 : VmProto) : Z := base (it s) + VmProto.framesize pt0 + 4.

Definition mm_need (pt : VmProto) (mmbase nargs : Z) : Z :=
  Z.max (mmbase + nargs + 16)
    (if is_vararg pt then mmbase + nargs + 2 + VmProto.numparams pt + VmProto.framesize pt + 16
     else mmbase + VmProto.framesize pt + 16).

(** A frame of [pt0] runs, and the metamethod is the Lua closure [gf]. *)
Record mm_ready (mo : LuaValue) (args : list LuaValue) (gf : Z) (pt0 pt : VmProto) (f0 : LuaValue) (s : Vm) : Prop := {
  mq_base : 2 <= base (it s) /\ 0 <= VmProto.framesize pt0;
  mq_run : running (it s) (cl (it s)) pt0;
  mq_caller : lua_func (heap (l s)) f0 (cl (it s)) pt0;
  mq_lua : lua_func (heap (l s)) mo gf pt;
  mq_noarg : has (VmProto.flags pt) PROTO_VARARG_NEEDSARG = false;
  mq_params : 0 <= VmProto.numparams pt <= VmProto.framesize pt;
  mq_max : slots s <= max_stack (l s) <= STACK_MAX;
  mq_need : mm_need pt (mm_base s pt0) (zlen args) <= max_stack (l s);
  mq_top : base (it s) + VmProto.framesize pt0 <= slots s;
}.

(** The metamethod's frame, the continuation and the program counter under it. *)
Record mm_called (cont : Cont.t) (extra : Z) (args : list LuaValue) (gf : Z) (pt0 pt : VmProto) (s s' : Vm) : Prop := {
  mc_quiet : quiet s s';
  mc_slots : slots s <= slots s' <= max_stack (l s);
  mc_run : running (it s') gf pt /\ pc (it s') = 1;
  mc_base : base (it s') = callee_base pt (mm_base s pt0) (zlen args);
  mc_cont : slot s' (mm_base s pt0 - 4) = Some (cont_encode cont extra);
  mc_pc : slot s' (mm_base s pt0 - 3) = Some (pc (it s));
  mc_link : slot s' (mm_base s pt0 - 1) = Some (frame_link_of (mm_base s pt0 - base (it s)) FRAME_CONT);
  mc_vlink : is_vararg pt = true ->
    slot s' (callee_base pt (mm_base s pt0) (zlen args) - 1) = Some (frame_link_of (zlen args + 2) FRAME_VARG);
  mc_params : forall k, 0 <= k < VmProto.numparams pt ->
    slot s' (callee_base pt (mm_base s pt0) (zlen args) + k) = if k <? zlen args then znth args k else Some NIL;
  mc_below : forall j, j < base (it s) + VmProto.framesize pt0 -> slot s' j = slot s j;
}.

Lemma enter_lua_need_Ok s f gf pt fs nargs : lua_func (heap (l s)) f gf pt ->
  enter_lua_need gf fs nargs s =
    Ok (if is_vararg pt then fs + 2 + nargs + 2 + VmProto.numparams pt + VmProto.framesize pt + 16
        else fs + 2 + VmProto.framesize pt + 16) s.
Proof. intros Hf. unfold enter_lua_need. by rewrite (bind_Ok _ _ _ _ _ (proto_of_Ok _ _ _ _ Hf)). Qed.

Lemma enter_sans_Ok gf pt f mmbase nargs link s : lua_func (heap (l s)) f gf pt ->
  has (VmProto.flags pt) PROTO_VARARG_NEEDSARG = false -> header_fits pt mmbase nargs s ->
  exists s1 s2 s3, set_at (mmbase - 1) link s = Ok tt s1 /\ stack_only s s1 /\
    (forall j, slot s1 j = if decide (j = mmbase - 1) then Some link else slot s j) /\
    entered gf pt mmbase nargs s1 s2 /\ s3 = mkVm (l s2) (set_pc 1 (it s2)) /\
    enter_lua_sans_ensure gf (mmbase - 2) nargs link s = Ok tt s3.
Proof.
  intros Hf Hn Hh. unfold enter_lua_sans_ensure. rewrite (bind_Ok _ _ _ _ _ (proto_of_Ok _ _ _ _ Hf)). cbv zeta.
  replace (mmbase - 2 + 2) with mmbase by lia.
  destruct (set_at_Ok s (mmbase - 1) link) as (s1 & E1 & O1 & S1).
  { destruct Hh as (? & ? & ? & Hh). destruct (is_vararg pt); lia. }
  rewrite (bind_Ok _ _ _ _ _ E1). pose proof (stack_only_slots _ _ O1) as L1.
  destruct (enter_header_Ok gf pt mmbase nargs s1 Hn) as (s2 & E2 & X).
  { unfold header_fits in *. by rewrite L1. }
  exists s1, s2, (mkVm (l s2) (set_pc 1 (it s2))). do 5 (split; [done|]). by rewrite (bind_Ok _ _ _ _ _ E2).
Qed.

Lemma mmcall_cont_Ok cont extra mo args gf pt0 pt f0 s : mm_ready mo args gf pt0 pt f0 s ->
  exists s', mmcall_cont cont extra mo args s = Ok tt s' /\ mm_called cont extra args gf pt0 pt s s'.
Proof.
  intros [[Hb Hfs] _ Hc Hl Hna Hp Hmax Hneed Htop]. unfold mmcall_cont.
  rewrite (bind_Ok _ _ _ _ _ (geti_Ok base s)), (bind_Ok _ _ _ _ _ (proto_Ok _ _ _ Hc)).
  rewrite (bind_Ok _ _ _ _ _ (lift_Ok _ gf s (proj1 Hl))), (bind_Ok _ _ _ _ _ (enter_lua_need_Ok s _ _ _ _ _ Hl)).
  pose proof (zlen_nonneg args) as Hz.
  replace (base (it s) + VmProto.framesize pt0 + 2 + 2) with (mm_base s pt0) by (unfold mm_base; lia).
  replace (base (it s) + VmProto.framesize pt0 + 2) with (mm_base s pt0 - 2) by (unfold mm_base; lia).
  set (b := mm_base s pt0) in *. change (Z.max _ _) with (mm_need pt b (zlen args)).
  destruct (stack_ensure_Ok (mm_need pt b (zlen args)) s (proj1 Hmax) Hneed) as (s1 & E1 & G1 & L1). rewrite (bind_Ok _ _ _ _ _ E1).
  assert (Hroom : b + zlen args + 16 <= slots s1) by (unfold mm_need in L1; lia).
  assert (Hb4 : base (it s) + VmProto.framesize pt0 = b - 4) by (subst b; unfold mm_base; lia).
  destruct (set_at_Ok s1 (b - 4) (cont_encode cont extra)) as (s2 & E2 & O2 & S2); [lia|]. rewrite (bind_Ok _ _ _ _ _ E2).
  pose proof (stack_only_slots _ _ O2) as L2. rewrite (bind_Ok _ _ _ _ _ (geti_Ok pc s2)).
  destruct (set_at_Ok s2 (b - 3) (pc (it s2))) as (s3 & E3 & O3 & S3); [lia|]. rewrite (bind_Ok _ _ _ _ _ E3).
  pose proof (stack_only_slots _ _ O3) as L3.
  destruct (set_at_Ok s3 (b - 2) mo) as (s4 & E4 & O4 & S4); [lia|]. rewrite (bind_Ok _ _ _ _ _ E4).
  pose proof (stack_only_slots _ _ O4) as L4.
  destruct (put_slots_Ok args b s4) as (s5 & E5 & O5 & S5); [lia|lia|]. rewrite (bind_Ok _ _ _ _ _ E5).
  pose proof (stack_only_slots _ _ O5) as L5.
  assert (Q5 : quiet s s5).
  { eapply quiet_trans; [apply quiet_grown, G1|]. do 3 (eapply quiet_trans; [eapply quiet_stack_only; eassumption|]). by apply quiet_stack_only. }
  assert (I2 : it s2 = it s) by (rewrite (stack_only_it _ _ O2); destruct G1 as [-> _]; done).
  destruct (enter_sans_Ok gf pt mo b (zlen args) (frame_link_of (b - base (it s)) FRAME_CONT) s5)
    as (s6 & s7 & s8 & E6 & O6 & S6 & X & -> & E8); [by rewrite (proj1 Q5)|done| |].
  { unfold header_fits. unfold mm_need in L1. destruct (is_vararg pt); repeat split; lia. }
  rewrite E8. eexists. split; [reflexivity|]. set (s8 := mkVm _ _).
  assert (S8 : forall j, slot s8 j = slot s7 j) by done.
  assert (Hslot : forall j, j < b -> slot s8 j = if decide (j = b - 1) then Some (frame_link_of (b - base (it s)) FRAME_CONT)
      else if decide (j = b - 2) then Some mo else if decide (j = b - 3) then Some (pc (it s2))
      else if decide (j = b - 4) then Some (cont_encode cont extra) else slot s1 j).
  { intros j Hj. rewrite S8, (ent_below _ _ _ _ _ _ X), S6, S5, S4, S3, S2 by lia. repeat case_decide; try lia; done. }
  pose proof (ent_slots _ _ _ _ _ _ X) as L7. pose proof (stack_only_slots _ _ O6) as L6.
  split; fold b.
  - eapply quiet_trans; [exact Q5|]. eapply quiet_trans; [apply quiet_stack_only, O6|]. exact (ent_quiet _ _ _ _ _ _ X).
  - change (slots s8) with (slots s7). destruct G1 as (_ & ? & _). lia.
  - split; [|subst s8; by destruct s7 as [? []]]. pose proof (ent_run _ _ _ _ _ _ X) as Hr. subst s8. by destruct s7 as [? []].
  - rewrite <- (ent_base _ _ _ _ _ _ X). subst s8. by destruct s7 as [? []].
  - rewrite Hslot by lia. repeat case_decide; try lia; done.
  - rewrite Hslot by lia. rewrite I2. repeat case_decide; try lia; done.
  - rewrite Hslot by lia. by rewrite decide_True by done.
  - rewrite S8. apply X.
  - intros k Hk. rewrite S8, (ent_params _ _ _ _ _ _ X) by done. destruct (Z.ltb_spec k (zlen args)); [|done].
    rewrite S6, S5. repeat case_decide; try lia. f_equal. lia.
  - intros j Hj. rewrite Hslot by lia. repeat case_decide; try lia. destruct G1 as (_ & _ & G). apply G. lia.
Qed.
(** ** Back from the metamethod *)

Lemma real_frame_Ok n s fb mb lk link : (2 <= n)%nat -> returns_to s fb mb lk -> 2 <= mb -> frame_type lk <> FRAME_VARG ->
  lk <> NO_LINK -> slot s (fb - 1) = Some link -> real_frame n fb link s = Ok (Some (mb, lk)) s.
Proof.
  intros Hn [Hr Hf] Hm Ht Hno Hl.
  assert (Hstop : forall m, (1 <= m)%nat -> real_frame m mb lk s = Ok (Some (mb, lk)) s).
  { intros [|m] ?; [lia|]. cbn [real_frame]. by rewrite (proj2 (Z.eqb_neq _ _) Ht). }
  destruct Hf as [->|[Hd Hv]].
  - rewrite Hr in Hl. injection Hl as <-. apply Hstop. lia.
  - rewrite Hv in Hl. injection Hl as <-. destruct n as [|n]; [lia|]. cbn [real_frame].
    rewrite link_type, link_delta by (unfold FRAME_VARG; lia). rewrite Z.eqb_refl. cbv zeta.
    rewrite (proj2 (Z.eqb_neq (fb - mb) 0)), (proj2 (Z.ltb_ge fb (fb - mb))) by lia. cbn [orb].
    replace (fb - (fb - mb)) with mb by lia. rewrite (proj2 (Z.ltb_ge mb 2)) by lia.
    rewrite (bind_Ok _ _ _ _ _ (at_Ok _ _ _ Hr)), (proj2 (Z.eqb_neq lk NO_LINK)) by done. apply Hstop. lia.
Qed.

(** Where the interrupted instruction goes on; a comparison reads the jump [j]
    after it. *)
Definition resumed_pc (cont : Cont.t) (result : LuaValue) (saved j : Z) : Z :=
  match cont with
  | Cont.Ra | Cont.Nop => saved
  | Cont.Condt => saved + 1 + (if is_truthy result then j else 0)
  | Cont.Condf => saved + 1 + (if is_truthy result then 0 else j)
  end.

(** What the metamethod must leave as it was, from the state [s] before. *)
Record mm_returns (cont : Cont.t) (extra src n nargs jmp : Z) (pt0 pt : VmProto) (f0 : LuaValue) (s s2 : Vm) : Prop := {
  mt_link : slot s2 (mm_base s pt0 - 1) = Some (frame_link_of (mm_base s pt0 - base (it s)) FRAME_CONT);
  mt_vlink : is_vararg pt = true ->
    slot s2 (callee_base pt (mm_base s pt0) nargs - 1) = Some (frame_link_of (nargs + 2) FRAME_VARG);
  mt_cont : slot s2 (mm_base s pt0 - 4) = Some (cont_encode cont extra);
  mt_pc : slot s2 (mm_base s pt0 - 3) = Some (pc (it s));
  mt_closed : openuv (l s2) = [];
  mt_caller : slot s2 (base (it s) - 2) = Some f0 /\ lua_func (heap (l s2)) f0 (cl (it s)) pt0;
  mt_extra : urange 32 extra /\ extra < VmProto.framesize pt0;
  mt_jump : code (heap (l s2)) !! (VmProto.bc_ptr pt0 + 4 * pc (it s)) = Some jmp;
  mt_results : 0 <= src /\ 0 <= n /\ callee_base pt (mm_base s pt0) nargs + src + n <= slots s2;
  mt_max : slots s2 <= STACK_MAX;
}.

(** The frame of [pt0] goes on, with the result in its register. *)
Record mm_resumed (cont : Cont.t) (extra : Z) (result : LuaValue) (pt0 : VmProto) (s s2 s3 : Vm) : Prop := {
  mz_quiet : quiet s2 s3;
  mz_slots : slots s3 = slots s2;
  mz_run : running (it s3) (cl (it s)) pt0 /\ base (it s3) = base (it s);
  mz_regs : forall j, j < base (it s) + VmProto.framesize pt0 ->
    slot s3 j = if decide (cont = Cont.Ra /\ j = base (it s) + extra) then Some result else slot s2 j;
}.

Lemma running_topped t gf pt s : running (it s) gf pt -> running (it (topped t s)) gf pt.
Proof. done. Qed.

(** The continuation itself, in the caller's frame. *)
Lemma cont_step_Ok cont extra result saved jmp s : 0 <= base (it s) + extra < slots s ->
  code (heap (l s)) !! (bcp (it s) + 4 * saved) = Some jmp ->
  exists s', match cont with
      | Cont.Ra => bind (set_at (base (it s) + extra) result) (fun _ => modi (set_pc saved))
      | Cont.Nop => modi (set_pc saved)
      | Cont.Condt => cont_jump (is_truthy result) saved
      | Cont.Condf => cont_jump (negb (is_truthy result)) saved
      end s = Ok tt s' /\ quiet s s' /\ slots s' = slots s /\
    it s' = set_pc (resumed_pc cont result saved (bc_j jmp)) (it s) /\
    forall j, slot s' j = if decide (cont = Cont.Ra /\ j = base (it s) + extra) then Some result else slot s j.
Proof.
  intros He Hj. pose proof (read_ins_Ok s _ _ Hj) as Hr.
  assert (Hpc : forall s1 p, exists s2, modi (set_pc p) s1 = Ok tt s2 /\ quiet s1 s2 /\ slots s2 = slots s1 /\
    it s2 = set_pc p (it s1) /\ forall j, slot s2 j = slot s1 j) by (intros; by eexists).
  destruct cont; unfold cont_jump.
  - destruct (set_at_Ok s (base (it s) + extra) result He) as (s1 & E1 & O1 & S1). rewrite (bind_Ok _ _ _ _ _ E1).
    destruct (Hpc s1 saved) as (s2 & E2 & Q2 & L2 & I2 & S2). exists s2. split; [done|].
    split; [eapply quiet_trans; [apply quiet_stack_only, O1|done]|]. split; [rewrite L2; by apply stack_only_slots|].
    split; [by rewrite I2, (stack_only_it _ _ O1)|]. intros j. rewrite S2, S1. repeat case_decide; intuition congruence.
  - destruct (Hpc s saved) as (s2 & ? & ? & ? & ? & S2). exists s2. do 4 (split; [done|]). intros j. by rewrite decide_False by intuition congruence.
  - rewrite (bind_Ok _ _ _ _ _ (geti_Ok bcp s)), (bind_Ok _ _ _ _ _ Hr).
    destruct (Hpc s (saved + 1 + (if is_truthy result then bc_j jmp else 0))) as (s2 & ? & ? & ? & ? & S2).
    exists s2. do 4 (split; [done|]). intros j. by rewrite decide_False by intuition congruence.
  - rewrite (bind_Ok _ _ _ _ _ (geti_Ok bcp s)), (bind_Ok _ _ _ _ _ Hr).
    destruct (Hpc s (saved + 1 + (if negb (is_truthy result) then bc_j jmp else 0))) as (s2 & ? & ? & ? & I2 & S2).
    exists s2. do 3 (split; [done|]). split; [rewrite I2; cbn [resumed_pc]; by destruct (is_truthy result)|].
    intros j. by rewrite decide_False by intuition congruence.
Qed.
Lemma cont_dispatch_Ok cont extra result n mb b0 saved jmp f0 gf0 pt0 s : 2 <= b0 -> 4 <= mb - b0 < 2 ^ 61 ->
  urange 32 extra -> b0 + extra < slots s ->
  slot s (mb - 4) = Some (cont_encode cont extra) -> slot s (mb - 3) = Some saved ->
  (if 0 <? n then at_ (mb - 2) else ret NIL) s = Ok result s ->
  slot s (b0 - 2) = Some f0 -> lua_func (heap (l s)) f0 gf0 pt0 ->
  code (heap (l s)) !! (VmProto.bc_ptr pt0 + 4 * saved) = Some jmp ->
  exists s', cont_dispatch mb (frame_link_of (mb - b0) FRAME_CONT) n s = Ok None s' /\ quiet s s' /\ slots s' = slots s /\
    running (it s') gf0 pt0 /\ base (it s') = b0 /\ pc (it s') = resumed_pc cont result saved (bc_j jmp) /\
    forall j, slot s' j = if decide (cont = Cont.Ra /\ j = b0 + extra) then Some result else slot s j.
Proof.
  intros Hb Hd Hx Hreg Hw Hs Hres Hf Hl Hj. unfold cont_dispatch. rewrite link_delta by (unfold FRAME_CONT; lia).
  rewrite (proj2 (Z.eqb_neq (mb - b0) 0)), (proj2 (Z.ltb_ge mb (mb - b0))) by lia. cbn [orb].
  rewrite (bind_Ok _ _ _ _ _ (at_Ok _ _ _ Hw)), (bind_Ok _ _ _ _ _ (lift_Ok _ _ s (cont_decode_encode cont extra Hx))).
  rewrite (bind_Ok _ _ _ _ _ (at_Ok _ _ _ Hs)), (bind_Ok _ _ _ _ _ Hres).
  replace (mb - (mb - b0)) with b0 by lia.
  set (s1 := mkVm (l s) (set_base b0 (it s))). rewrite (bind_Ok (modi (set_base b0)) _ tt s s1 eq_refl).
  rewrite (bind_Ok _ _ f0 s1 s1 (at_Ok s1 _ _ Hf)), (bind_Ok _ _ _ s1 s1 (lift_Ok _ _ s1 (proj1 Hl))), (bind_Ok _ _ _ s1 _ (reload_Ok s1 _ _ _ Hl)).
  set (s2 := loaded gf0 pt0 s1). rewrite (bind_Ok _ _ _ _ _ (proto_Ok s2 f0 pt0 ltac:(pose proof (proj1 (running_loaded gf0 pt0 s1)) as Ec; fold s2 in Ec; rewrite Ec; exact Hl))).
  rewrite (bind_Ok _ _ _ _ _ (set_tops_Ok _ s2)). set (s3 := topped _ s2).
  assert (B3 : base (it s3) = b0) by (subst s3 s2 s1; by destruct s as [? []]).
  assert (R3 : running (it s3) gf0 pt0) by apply running_loaded.
  assert (Q3 : quiet s s3) by (eapply quiet_trans; [|apply quiet_topped]; done).
  assert (L3 : slots s3 = slots s) by (subst s3; by rewrite slots_topped).
  destruct (cont_step_Ok cont extra result saved jmp s3) as (s4 & E4 & Q4 & L4 & I4 & S4).
  { rewrite B3, L3. unfold urange in Hx. lia. }
  { rewrite (proj1 (proj2 R3)). by rewrite (proj1 Q3). }
  rewrite B3 in E4, S4. rewrite (bind_Ok _ _ _ _ _ E4). exists s4. split; [done|].
  split; [by eapply quiet_trans|]. split; [lia|]. rewrite I4.
  split; [|split; [|split]].
  - destruct R3 as (? & ? & ? & ?). by destruct (it s3).
  - rewrite <- B3. by destruct (it s3).
  - by destruct (it s3).
  - intros j. rewrite S4. subst s3. by rewrite slot_topped.
Qed.

(** ** The whole of it *)

Lemma mm_bounds cont extra mo src n args jmp gf pt0 pt f0 s s2 : mm_ready mo args gf pt0 pt f0 s ->
  mm_returns cont extra src n (zlen args) jmp pt0 pt f0 s s2 ->
  let mb := mm_base s pt0 in let cb := callee_base pt mb (zlen args) in
  4 <= mb - base (it s) < 2 ^ 60 /\ mb <= cb <= slots s2 /\ (cb = mb \/ is_vararg pt = true /\ cb = mb + zlen args + 2).
Proof.
  intros R T. cbv zeta. destruct (mq_base _ _ _ _ _ _ _ R) as [Hb Hfs]. pose proof (zlen_nonneg args).
  destruct (mt_results _ _ _ _ _ _ _ _ _ _ _ T) as (? & ? & Hres).
  pose proof (mt_max _ _ _ _ _ _ _ _ _ _ _ T) as Hmax. change STACK_MAX with 65536 in Hmax.
  assert (mm_base s pt0 - base (it s) = VmProto.framesize pt0 + 4) by (unfold mm_base; lia).
  unfold callee_base in *. destruct (is_vararg pt); [split; [lia|split; [lia|by right]]|split; [lia|split; [lia|by left]]].
Qed.

Lemma mm_returns_to cont extra mo src n args jmp gf pt0 pt f0 s s2 : mm_ready mo args gf pt0 pt f0 s ->
  mm_returns cont extra src n (zlen args) jmp pt0 pt f0 s s2 ->
  returns_to s2 (callee_base pt (mm_base s pt0) (zlen args)) (mm_base s pt0) (frame_link_of (mm_base s pt0 - base (it s)) FRAME_CONT).
Proof.
  intros R T. destruct (mm_bounds _ _ _ _ _ _ _ _ _ _ _ _ _ R T) as (Hd & Hc & E). pose proof (zlen_nonneg args).
  destruct (mq_base _ _ _ _ _ _ _ R) as [Hb Hfs].
  pose proof (mt_max _ _ _ _ _ _ _ _ _ _ _ T) as Hmax. change STACK_MAX with 65536 in Hmax.
  split; [exact (mt_link _ _ _ _ _ _ _ _ _ _ _ T)|]. destruct E as [E|[Hv E]]; [by left|right]. rewrite E. split; [lia|].
  rewrite <- E, (mt_vlink _ _ _ _ _ _ _ _ _ _ _ T Hv). do 2 f_equal. lia.
Qed.

Lemma do_return_cont cont extra src n nargs jmp args gf mo pt0 pt f0 s s2 : nargs = zlen args ->
  mm_ready mo args gf pt0 pt f0 s -> mm_returns cont extra src n nargs jmp pt0 pt f0 s s2 ->
  base (it s2) = callee_base pt (mm_base s pt0) nargs ->
  exists result s3, do_return (callee_base pt (mm_base s pt0) nargs + src) n s2 = Ok None s3 /\
    (0 < n -> slot s2 (callee_base pt (mm_base s pt0) nargs + src) = Some result) /\ (n <= 0 -> result = NIL) /\
    mm_resumed cont extra result pt0 s s2 s3 /\ pc (it s3) = resumed_pc cont result (pc (it s)) (bc_j jmp).
Proof.
  intros Ena R T Hbase. destruct (mq_base _ _ _ _ _ _ _ R) as [Hb Hfs].
  pose proof (zlen_nonneg args) as Hz. set (mb := mm_base s pt0) in *. set (cb := callee_base pt mb nargs) in *.
  assert (Hmb : mb = base (it s) + VmProto.framesize pt0 + 4) by done.
  destruct (mt_results _ _ _ _ _ _ _ _ _ _ _ T) as (Hsrc & Hn & Hres). fold mb cb in Hres.
  pose proof (mt_max _ _ _ _ _ _ _ _ _ _ _ T) as Hmax. change STACK_MAX with 65536 in Hmax.
  assert (Hcb : cb = mb \/ is_vararg pt = true /\ cb = mb + nargs + 2).
  { subst cb. unfold callee_base. destruct (is_vararg pt); [by right|by left]. }
  assert (Hto : returns_to s2 cb mb (frame_link_of (mb - base (it s)) FRAME_CONT)).
  { subst cb nargs. exact (mm_returns_to _ _ _ _ _ _ _ _ _ _ _ _ _ R T). }
  unfold do_return. rewrite (bind_Ok _ _ _ _ _ (getl_Ok openuv s2)), (mt_closed _ _ _ _ _ _ _ _ _ _ _ T).
  rewrite (bind_Ok _ _ _ _ _ (geti_Ok base s2)), Hbase. rewrite bool_decide_eq_true_2 by done. cbn [negb].
  rewrite (bind_Ok (ret tt) _ tt s2 s2 eq_refl), (proj2 (Z.ltb_ge cb 2)) by lia.
  destruct (lt_slot s2 (cb - 1)) as [link Hl]; [lia|]. rewrite (bind_Ok _ _ _ _ _ (at_Ok _ _ _ Hl)).
  assert (Hlk : frame_link_of (mb - base (it s)) FRAME_CONT <> NO_LINK).
  { rewrite link_split by (unfold FRAME_CONT; lia). unfold FRAME_CONT, NO_LINK. lia. }
  assert (Hno : link <> NO_LINK).
  { destruct Hto as [Ht1 [E|[Hd Ht2]]].
    - rewrite E in Hl. congruence.
    - rewrite Ht2 in Hl. injection Hl as <-. rewrite link_split by (unfold FRAME_VARG; lia). unfold FRAME_VARG, NO_LINK. lia. }
  rewrite (proj2 (Z.eqb_neq _ _) Hno).
  assert (Hty : frame_type (frame_link_of (mb - base (it s)) FRAME_CONT) = FRAME_CONT) by (apply link_type; unfold FRAME_CONT; lia).
  rewrite (bind_Ok _ _ _ _ _ (real_frame_Ok (S (Z.to_nat cb)) s2 cb mb _ link ltac:(lia) Hto ltac:(lia) ltac:(by rewrite Hty) Hlk Hl)).
  rewrite (proj2 (Z.ltb_ge mb 2)) by lia. rewrite (bind_Ok _ _ _ _ _ (lift_Ok _ (mb - 2) s2 eq_refl)).
  destruct (copy_slots_Ok (Z.to_nat n) (mb - 2) (cb + src) s2) as (s4 & E4 & O4 & S4); [lia|lia|]. rewrite (bind_Ok _ _ _ _ _ E4).
  set (s5 := mkVm (l s4) (set_multres n (it s4))). rewrite (bind_Ok (modi (set_multres n)) _ tt s4 s5 eq_refl).
  assert (S5 : forall j, j < mb - 2 -> slot s5 j = slot s2 j).
  { intros j Hj. change (slot s4 j = slot s2 j). by rewrite S4, decide_False by lia. }
  assert (Q5 : quiet s2 s5) by (apply (quiet_stack_only _ s4), O4).
  assert (L5 : slots s5 = slots s2) by (apply stack_only_slots in O4; done).
  rewrite Hty. cbn [Z.eqb FRAME_CONT Pos.eqb].
  assert (exists result, (if 0 <? n then at_ (mb - 2) else ret NIL) s5 = Ok result s5 /\
    (0 < n -> slot s2 (cb + src) = Some result) /\ (n <= 0 -> result = NIL)) as (result & Er & Hr1 & Hr2).
  { destruct (Z.ltb_spec 0 n) as [Hp|Hp].
    - destruct (lt_slot s2 (cb + src)) as [v Hv]; [lia|]. exists v. split; [|by split; [|lia]]. apply at_Ok.
      change (slot s4 (mb - 2) = Some v). rewrite S4, decide_True by lia. rewrite <- Hv. f_equal. lia.
    - exists NIL. split; [done|]. split; [lia|done]. }
  destruct (mt_caller _ _ _ _ _ _ _ _ _ _ _ T) as [Hf Hlf]. destruct (mt_extra _ _ _ _ _ _ _ _ _ _ _ T) as [Hx1 Hx2].
  destruct (cont_dispatch_Ok cont extra result n mb (base (it s)) (pc (it s)) jmp f0 (cl (it s)) pt0 s5)
    as (s6 & E6 & Q6 & L6 & R6 & B6 & P6 & S6); try done; try lia.
  - rewrite S5 by lia. exact (mt_cont _ _ _ _ _ _ _ _ _ _ _ T).
  - rewrite S5 by lia. exact (mt_pc _ _ _ _ _ _ _ _ _ _ _ T).
  - by rewrite S5 by lia.
  - by rewrite (proj1 Q5).
  - rewrite (proj1 Q5). exact (mt_jump _ _ _ _ _ _ _ _ _ _ _ T).
  - exists result, s6. do 3 (split; [done|]). split; [|done]. split; [by eapply quiet_trans|lia|done|].
    intros j Hj. rewrite S6, S5 by lia. done.
Qed.

(** A frame with a continuation is not left by the fast return. *)
Lemma ret_fast_cont fr s mb lk : valid fr s -> 1 <= fbase fr -> returns_to s (fbase fr) mb lk -> frame_type lk = FRAME_CONT ->
  ret_fast_n fr s = Ok None s.
Proof.
  intros Hv Hb Hr Ht.
  assert (exists link, slot s (fbase fr - 1) = Some link) as [link Hl].
  { destruct Hr as [Hr [E|[_ E]]]; [rewrite E; by exists lk|by eexists]. }
  unfold ret_fast_n. replace (-1) with (0 - 1) by lia.
  rewrite (bind_Ok _ _ _ _ _ (reg_Ok fr s (0 - 1) link Hv ltac:(replace (fbase fr + (0 - 1)) with (fbase fr - 1) by lia; done))).
  rewrite (bind_Ok _ _ _ _ _ (vararg_chain_Ok (S (Z.to_nat (fbase fr))) s _ mb lk link ltac:(lia) Hr ltac:(by rewrite Ht) Hl)).
  by rewrite (bind_Ok _ _ _ _ _ (stack_len_Ok s)), (bind_Ok _ _ _ _ _ (getl_Ok openuv s)), Ht.
Qed.

(** Writing the registers back keeps all of it. *)
Lemma mm_returns_stack cont extra src n nargs jmp pt0 pt f0 s s2 s3 : mm_returns cont extra src n nargs jmp pt0 pt f0 s s2 ->
  quiet s2 s3 -> stack (l s3) = stack (l s2) -> mm_returns cont extra src n nargs jmp pt0 pt f0 s s3.
Proof.
  intros [] (Q1 & Q2 & Q3) K. pose proof (fun j => stack_slot s2 s3 j K) as HS. pose proof (stack_slots s2 s3 K) as HL.
  split; rewrite ?HS, ?HL, ?Q1, ?Q2; try done.
Qed.

End MetaCall.
