(* ===== verification/VmUpval.v ===== *)
(** * Upvalues

    A closure's captured variables: one cell per stack slot while the slot is
    live, and the value itself once the slot dies. *)

From Stdlib Require Import ZArith Lia Bool Ascii String.
From stdpp Require Import base decidable numbers option gmap list.
From S2P Require Import Prelude Float64 Value Strings FloatText PatClass Fold Bytecode Table ParseState VmState VmValue VmFrame VmSpec.
From S2P Require Heap HeapSpec.

Section Upval.
Context {St : Type} `{Strings St} `{StrPtrs St} `{Builtins St}.
#[local] Abbreviation M := (@M St).
#[local] Abbreviation Vm := (@Vm St).
Implicit Types s : Vm.

Definition cells (s : Vm) : gmap Z Upval := upvals (heap (l s)).

(** The slot a cell is open on, and the value it reads. *)
Definition open_at (s : Vm) (p i : Z) : Prop := exists u, cells s !! p = Some u /\ uv_slot u = Some i.
Definition uv_value (s : Vm) (p : Z) : option LuaValue :=
  let? u := cells s !! p in match uv_slot u with Some i => slot s i | None => Some (uv_tv u) end.

(** [openuv] lists the open cells, each once, no two on one slot, all of them
    on the stack; and new objects get fresh addresses. *)
Record uv_ok (s : Vm) : Prop := {
  uv_nodup : NoDup (openuv (l s));
  uv_listed : forall p, p ∈ openuv (l s) <-> exists i, open_at s p i;
  uv_range : forall p i, open_at s p i -> 0 <= i < slots s;
  uv_inj : forall p q i, open_at s p i -> open_at s q i -> p = q;
  uv_fresh : forall p, next_block (heap (l s)) <= p -> cells s !! p = None;
}.

(** ** Updates *)

Definition with_cells (m : gmap Z Upval) (s : Vm) : Vm := mkVm (set_heap (set_upvals m (heap (l s))) (l s)) (it s).
Definition with_openuv (o : list Z) (s : Vm) : Vm := mkVm (set_openuv o (l s)) (it s).

Lemma cells_with_cells m s : cells (with_cells m s) = m. Proof. by destruct s as [[[]] ?]. Qed.
Lemma slot_with_cells m s i : slot (with_cells m s) i = slot s i. Proof. by destruct s as [[[]] ?]. Qed.
Lemma slots_with_cells m s : slots (with_cells m s) = slots s. Proof. by destruct s as [[[]] ?]. Qed.
Lemma openuv_with_cells m s : openuv (l (with_cells m s)) = openuv (l s). Proof. by destruct s as [[[]] ?]. Qed.
Lemma fresh_with_cells m s : next_block (heap (l (with_cells m s))) = next_block (heap (l s)). Proof. by destruct s as [[[]] ?]. Qed.
Lemma cells_with_openuv o s : cells (with_openuv o s) = cells s. Proof. by destruct s as [[[]] ?]. Qed.
Lemma slot_with_openuv o s i : slot (with_openuv o s) i = slot s i. Proof. by destruct s as [[[]] ?]. Qed.
Lemma slots_with_openuv o s : slots (with_openuv o s) = slots s. Proof. by destruct s as [[[]] ?]. Qed.
Lemma openuv_with_openuv o s : openuv (l (with_openuv o s)) = o. Proof. by destruct s as [[[]] ?]. Qed.
Lemma fresh_with_openuv o s : next_block (heap (l (with_openuv o s))) = next_block (heap (l s)). Proof. by destruct s as [[[]] ?]. Qed.
Create Rewrite HintDb uvs.
#[local] Hint Rewrite cells_with_cells slot_with_cells slots_with_cells openuv_with_cells fresh_with_cells
  cells_with_openuv slot_with_openuv slots_with_openuv openuv_with_openuv fresh_with_openuv : uvs.

Lemma upval_at_Ok s p u : cells s !! p = Some u -> upval_at p s = Ok u s.
Proof. intros E. unfold upval_at, bind, geth, getl, gets, lift. unfold cells in E. by rewrite E. Qed.
Lemma upval_set_at_Ok p u s : upval_set_at p u s = Ok tt (with_cells (<[p := u]> (cells s)) s).
Proof. reflexivity. Qed.

(** A cell reads its value. *)
Lemma upval_get_Ok s p v : uv_value s p = Some v -> upval_get p s = Ok v s.
Proof.
  unfold uv_value, upval_get. destruct (cells s !! p) as [u|] eqn:E; [|done]. cbn.
  rewrite (bind_Ok _ _ _ _ _ (upval_at_Ok _ _ _ E)). destruct (uv_slot u) as [i|].
  - apply at_Ok.
  - by intros [= ->].
Qed.

(** ** Sharing *)

Lemma find_open_Ok s uvs i : (forall p, p ∈ uvs -> exists j, open_at s p j) ->
  exists r, find_open uvs i s = Ok r s /\ match r with Some p => p ∈ uvs /\ open_at s p i | None => forall p, p ∈ uvs -> ~ open_at s p i end.
Proof.
  induction uvs as [|p uvs IH]; intros Hall.
  - exists None. split; [done|]. intros p Hp. by apply elem_of_nil in Hp.
  - destruct (Hall p) as (j & u & Eu & Ej); [by left|]. cbn [find_open].
    rewrite (bind_Ok _ _ _ _ _ (upval_at_Ok _ _ _ Eu)). case_bool_decide as Hd.
    + exists (Some p). split; [done|]. split; [by left|]. by exists u.
    + destruct IH as (r & E & Hr); [intros q Hq; apply Hall; by right|]. exists r. split; [done|].
      destruct r as [q|]; [destruct Hr; split; [by right|done]|].
      intros q [->|Hq]%elem_of_cons; [|by apply Hr]. intros (u' & Eu' & Es'). rewrite Eu in Eu'. injection Eu' as ->. done.
Qed.

(** A new open cell. *)
Lemma alloc_open_ok s i : uv_ok s -> 0 <= i < slots s -> (forall p, ~ open_at s p i) ->
  exists p s', bind (alloc_upval (mkUpval (Some i) NIL false))
      (fun p => bind (modl (fun x => set_openuv (openuv x ++ [p]) x)) (fun _ => ret p)) s = Ok p s' /\
    cells s !! p = None /\ cells s' = <[p := mkUpval (Some i) NIL false]> (cells s) /\ stack (l s') = stack (l s) /\
    openuv (l s') = openuv (l s) ++ [p] /\ next_block (heap (l s')) = next_block (heap (l s)) + 64 /\ p = next_block (heap (l s)).
Proof.
  intros Hok Hi Hn. exists (next_block (heap (l s))). eexists. split; [reflexivity|].
  split; [apply (uv_fresh _ Hok); lia|]. by destruct s as [[[]] ?].
Qed.

Lemma find_upval_Ok s i : uv_ok s -> 0 <= i < slots s ->
  exists p s', find_upval i s = Ok p s' /\ uv_ok s' /\ open_at s' p i /\ stack (l s') = stack (l s) /\
    (forall q, is_Some (cells s !! q) -> cells s' !! q = cells s !! q) /\ (forall q, open_at s q i -> p = q /\ s' = s).
Proof.
  intros Hok Hi. unfold find_upval. rewrite (bind_Ok _ _ _ _ _ (getl_Ok openuv s)).
  destruct (find_open_Ok s (openuv (l s)) i) as (r & E & Hr); [intros p Hp; by apply (uv_listed _ Hok)|].
  rewrite (bind_Ok _ _ _ _ _ E). destruct r as [p|].
  - exists p, s. destruct Hr as [_ Hp]. do 5 (split; [done|]). intros q Hq. split; [|done]. by apply (uv_inj _ Hok _ _ i).
  - assert (Hno : forall p, ~ open_at s p i) by (intros p Hp; apply (Hr p); [by apply (uv_listed _ Hok); exists i|done]).
    destruct (alloc_open_ok s i Hok Hi Hno) as (p & s' & E' & Hp & Hc & Hs & Ho & Hb & Ep).
    exists p, s'. split; [exact E'|].
    assert (Hop : forall q j, open_at s' q j <-> q = p /\ j = i \/ open_at s q j).
    { intros q j. unfold open_at. rewrite Hc. destruct (decide (q = p)) as [->|Hq].
      - rewrite lookup_insert_eq. rewrite Hp. split.
        + intros (u & [= <-] & [= <-]). by left.
        + intros [[_ ->]|(u & ? & _)]; [by eexists|done].
      - rewrite lookup_insert_ne by done. split; [by right|]. intros [[? _]|?]; done. }
    assert (Hnp : forall j, ~ open_at s p j) by (intros j (u & Eu & _); by rewrite Hp in Eu).
    assert (Hsl : slots s' = slots s) by (unfold slots; by rewrite Hs).
    split; [split|].
    + rewrite Ho. apply NoDup_app. split; [apply Hok|]. split; [|apply NoDup_singleton].
      intros q Hq ->%list_elem_of_singleton. apply (uv_listed _ Hok) in Hq as (j & Hj). by apply (Hnp j).
    + intros q. rewrite Ho, elem_of_app, list_elem_of_singleton, (uv_listed _ Hok). split.
      * intros [[j Hj]| ->]; [exists j|exists i]; apply Hop; [by right|by left].
      * intros (j & [[-> _]|Hj]%Hop); [by right|left; by exists j].
    + intros q j [[_ ->]|Hj]%Hop; rewrite Hsl; [done|by apply (uv_range _ Hok q)].
    + intros q1 q2 j [[-> ->]|H1']%Hop [[-> E2]|H2']%Hop; try done.
      * by apply Hno in H2'.
      * subst j. by apply Hno in H1'.
      * by apply (uv_inj _ Hok _ _ j).
    + intros q Hq. rewrite Hc. rewrite Hb in Hq. rewrite lookup_insert_ne by lia. apply (uv_fresh _ Hok). lia.
    + split; [apply Hop; by left|]. split; [done|]. split; [|intros q Hq; by apply Hno in Hq].
      intros q [u Hu]. rewrite Hc, lookup_insert_ne; [done|]. intros ->. by rewrite Hp in Hu.
Qed.

(** ** Closing *)

(** What closing from [level] on does to the cells. *)
Definition closes (level : Z) (s s' : Vm) : Prop :=
  stack (l s') = stack (l s) /\
  forall p u, cells s !! p = Some u -> exists u', cells s' !! p = Some u' /\ uv_immutable u' = uv_immutable u /\
    uv_value s' p = uv_value s p /\
    (uv_slot u' = uv_slot u \/ uv_slot u' = None /\ exists i, uv_slot u = Some i /\ level <= i).

Lemma closes_refl level s : closes level s s.
Proof. split; [done|]. intros p u E. exists u. repeat split; try done. by left. Qed.
Lemma closes_trans level s1 s2 s3 : closes level s1 s2 -> closes level s2 s3 -> closes level s1 s3.
Proof.
  intros [K1 C1] [K2 C2]. split; [congruence|]. intros p u E. destruct (C1 p u E) as (u1 & E1 & I1 & V1 & S1).
  destruct (C2 p u1 E1) as (u2 & E2 & I2 & V2 & S2). exists u2. split; [done|]. split; [congruence|]. split; [congruence|].
  destruct S2 as [->|(-> & i & E' & Hi)]; [done|]. right. split; [done|].
  destruct S1 as [<-|(E'' & _)]; [by exists i|congruence].
Qed.

(** One cell closed. *)
Lemma close_one s p i d r : uv_ok s -> open_at s p i -> openuv (l s) = d ++ p :: r ->
  exists s1 r', upval_close p s = Ok tt s1 /\ Heap.swap_remove (d ++ p :: r) (length d) = Some (d ++ r') /\ r' ≡ₚ r /\
    let s2 := with_openuv (d ++ r') s1 in uv_ok s2 /\ forall level, level <= i -> closes level s s2.
Proof.
  intros Hok (u & Eu & Es) Ho. destruct (lt_slot s i (uv_range _ Hok p i ltac:(by exists u))) as [v Ev].
  set (u' := mkUpval None v (uv_immutable u)). exists (with_cells (<[p := u']> (cells s)) s).
  destruct (HeapSpec.swap_remove_spec d p r) as (r' & Er & Hr). exists r'.
  split. { unfold upval_close. rewrite (bind_Ok _ _ _ _ _ (upval_at_Ok _ _ _ Eu)), Es. by rewrite (bind_Ok _ _ _ _ _ (at_Ok _ _ _ Ev)). }
  split; [done|]. split; [done|]. cbv zeta. set (s2 := with_openuv _ _).
  assert (Hcells : cells s2 = <[p := u']> (cells s)) by (subst s2; by autorewrite with uvs).
  assert (Hslot : forall j, slot s2 j = slot s j) by (intros; subst s2; by autorewrite with uvs).
  assert (Hop : forall q j, open_at s2 q j <-> q <> p /\ open_at s q j).
  { intros q j. unfold open_at. rewrite Hcells. destruct (decide (q = p)) as [->|Hq].
    - rewrite lookup_insert_eq. split; [intros (? & [= <-] & ?); done|intros [? _]; done].
    - rewrite lookup_insert_ne by done. split; [by split|by intros []]. }
  pose proof (uv_nodup _ Hok) as Hnd. rewrite Ho in Hnd.
  assert (Hperm : d ++ p :: r ≡ₚ p :: d ++ r') by (rewrite Hr; by rewrite Permutation_middle).
  rewrite Hperm in Hnd. apply NoDup_cons in Hnd as [Hnp Hnd].
  split; [split|].
  - subst s2. by autorewrite with uvs.
  - intros q. subst s2. rewrite openuv_with_openuv. setoid_rewrite Hop.
    assert (q ∈ openuv (l s) <-> q = p \/ q ∈ d ++ r') as Hq by (rewrite Ho, Hperm; apply elem_of_cons).
    rewrite (uv_listed _ Hok) in Hq. split.
    + intros Hin. destruct (proj2 Hq (or_intror Hin)) as [j Hj]. exists j. split; [|done]. intros ->. done.
    + intros (j & Hne & Hj). destruct (proj1 Hq (ex_intro _ j Hj)); done.
  - intros q j [_ Hj]%Hop. subst s2. autorewrite with uvs. by apply (uv_range _ Hok q).
  - intros q1 q2 j [_ H1']%Hop [_ H2']%Hop. by apply (uv_inj _ Hok _ _ j).
  - intros q Hq. rewrite Hcells. subst s2. autorewrite with uvs in Hq. pose proof (uv_fresh _ Hok q Hq) as Hf.
    rewrite lookup_insert_ne; [done|]. intros ->. by rewrite Eu in Hf.
  - intros level Hl. split; [subst s2; by destruct s as [[[]] ?]|]. intros q w Eq. unfold uv_value. rewrite Hcells.
    destruct (decide (q = p)) as [->|Hq].
    + rewrite lookup_insert_eq. exists u'. rewrite Eu in Eq. injection Eq as <-. rewrite Eu. cbn. rewrite Es.
      repeat split; try done. right. split; [done|]. by exists i.
    + rewrite lookup_insert_ne by done. exists w. rewrite Eq. cbn. destruct (uv_slot w); rewrite ?Hslot; repeat split; try done; by left.
Qed.

Lemma close_loop_Ok n : forall d r level s, (length r <= n)%nat -> uv_ok s -> openuv (l s) = d ++ r ->
  (forall p, p ∈ d -> exists i, open_at s p i /\ i < level) ->
  exists s', close_loop n (length d) level s = Ok tt s' /\ uv_ok s' /\ closes level s s' /\
    forall p i, open_at s' p i -> i < level.
Proof.
  induction n as [|n IH]; intros d r level s Hn Hok Ho Hd.
  { destruct r as [|p r]; [|cbn in Hn; lia]. exists s. split; [done|]. split; [done|]. split; [apply closes_refl|].
    intros p i Hp. assert (p ∈ openuv (l s)) as Hin by (apply (uv_listed _ Hok); by exists i).
    rewrite Ho, app_nil_r in Hin. destruct (Hd p Hin) as (j & (u & Eu & Ej) & Hj). destruct Hp as (u' & Eu' & Ei). congruence. }
  cbn [close_loop]. rewrite (bind_Ok _ _ _ _ _ (getl_Ok openuv s)), Ho.
  destruct r as [|p r].
  { rewrite app_nil_r, lookup_ge_None_2 by lia. exists s. split; [done|]. split; [done|]. split; [apply closes_refl|].
    intros p i Hp. assert (p ∈ openuv (l s)) as Hin by (apply (uv_listed _ Hok); by exists i).
    rewrite Ho, app_nil_r in Hin. destruct (Hd p Hin) as (j & (u & Eu & Ej) & Hj). destruct Hp as (u' & Eu' & Ei). congruence. }
  rewrite list_lookup_middle by done.
  assert (exists i, open_at s p i) as (i & Hi) by (apply (uv_listed _ Hok); rewrite Ho; apply elem_of_app; right; by left).
  pose proof Hi as (u & Eu & Es). rewrite (bind_Ok _ _ _ _ _ (upval_at_Ok _ _ _ Eu)), Es. cbn [length] in Hn.
  destruct (Z.leb_spec level i) as [Hle|Hlt].
  - destruct (close_one s p i d r Hok Hi Ho) as (s1 & r' & E1 & E2 & Hr & Hok2 & Hcl).
    rewrite (bind_Ok _ _ _ _ _ E1), (bind_Ok _ _ _ _ _ (lift_Ok _ _ s1 E2)).
    specialize (Hcl level Hle). set (s2 := with_openuv (d ++ r') s1) in *.
    change (bind (modl (set_openuv (d ++ r'))) _ s1) with (close_loop n (length d) level s2).
    destruct (IH d r' level s2) as (s3 & E3 & Hok3 & Hcl3 & Hop3).
    + apply Permutation_length in Hr. lia.
    + done.
    + subst s2. apply openuv_with_openuv.
    + intros q Hq. destruct (Hd q Hq) as (j & Hj & Hjl). exists j. split; [|done]. destruct Hj as (w & Ew & Ewj).
      destruct (proj2 Hcl q w Ew) as (w' & Ew' & _ & _ & [Hs'|(_ & k & Ek & Hk)]); [|rewrite Ewj in Ek; injection Ek as <-; lia].
      exists w'. split; [done|]. congruence.
    + exists s3. split; [done|]. split; [done|]. split; [by eapply closes_trans|done].
  - replace (S (length d)) with (length (d ++ [p])) by (rewrite length_app; cbn; lia).
    apply (IH (d ++ [p]) r); [lia|done|by rewrite <- app_assoc|].
    intros q [Hq| ->%list_elem_of_singleton]%elem_of_app; [by apply Hd|by exists i].
Qed.

Lemma close_upvals_Ok level s : uv_ok s -> exists s', close_upvals level s = Ok tt s' /\ uv_ok s' /\ closes level s s' /\
  forall p i, open_at s' p i -> i < level.
Proof.
  intros Hok. unfold close_upvals. rewrite (bind_Ok _ _ _ _ _ (getl_Ok openuv s)).
  apply (close_loop_Ok _ [] (openuv (l s))); [lia|done|done|]. intros p Hp. by apply elem_of_nil in Hp.
Qed.

(** C23. Closing the upvalues from a stack level on detaches exactly the cells
    of the slots at or above it; every cell, detached or not, reads the value
    it read before, the stack is untouched, and the list of open upvalues stays
    well formed. *)
Theorem close_upvals_keeps_values level s (Hok : uv_ok s) :
  exists s', close_upvals level s = Ok tt s' /\ uv_ok s' /\ stack (l s') = stack (l s) /\
    forall p u, cells s !! p = Some u -> exists u', cells s' !! p = Some u' /\ uv_value s' p = uv_value s p /\
      uv_slot u' = match uv_slot u with Some i => if level <=? i then None else Some i | None => None end.
Proof.
  destruct (close_upvals_Ok level s Hok) as (s' & E & Hok' & [K C] & Hop). exists s'. do 3 (split; [done|]).
  intros p u Eu. destruct (C p u Eu) as (u' & Eu' & _ & V & S). exists u'. do 2 (split; [done|]).
  destruct S as [S|(S & i & Ei & Hi)].
  - rewrite S. destruct (uv_slot u) as [i|]; [|done]. destruct (Z.leb_spec level i); [|done].
    assert (i < level) by (apply (Hop p i); by exists u'). lia.
  - rewrite S, Ei. by rewrite (proj2 (Z.leb_le _ _) Hi).
Qed.

(** C24. Capturing a stack slot gives the one cell open on it: the cell already
    there if any, in a state left as it was, and otherwise a new cell that
    disturbs no other; capturing the slot again gives the same cell, so
    closures over one variable share it. *)
Theorem find_upval_shares s i (Hok : uv_ok s) (Hi : 0 <= i < slots s) :
  exists p s', find_upval i s = Ok p s' /\ uv_ok s' /\ open_at s' p i /\ uv_value s' p = slot s i /\
    (forall q, open_at s q i -> p = q /\ s' = s) /\
    (forall q, is_Some (cells s !! q) -> cells s' !! q = cells s !! q) /\
    find_upval i s' = Ok p s'.
Proof.
  destruct (find_upval_Ok s i Hok Hi) as (p & s' & E & Hok' & Hp & K & C & Hq). exists p, s'. do 3 (split; [done|]).
  split. { destruct Hp as (u & Eu & Es). unfold uv_value. rewrite Eu. cbn. rewrite Es. unfold slot. by rewrite K. }
  do 2 (split; [done|]).
  destruct (find_upval_Ok s' i Hok') as (p' & s'' & E' & _ & _ & _ & _ & Hq'); [unfold slots in *; by rewrite K|].
  destruct (Hq' p Hp) as [-> ->]. done.
Qed.
End Upval.
