(* ===== verification/VmIndex.v ===== *)
(** * Indexing, and the negative metamethod cache

    [nomm] of a table used as a metatable remembers, a bit per metamethod, the
    lookups that found nothing.  The cache never hides a metamethod: a set bit
    means the name is absent, writes to the table keep that true, and the
    cached lookup answers like the plain one. *)

From Stdlib Require Import ZArith Lia Bool Ascii String.
From stdpp Require Import base decidable numbers option gmap list.
From S2P Require Import Prelude Float64 Value Strings FloatText PatClass Fold Bytecode Table TableHash TableRehash TableInv TableSpec ParseState VmState VmValue VmFrame VmMeta VmSpec.

(** ** The cache of a table *)

Section Nomm.
Context `{StrHeap}.

Lemma node_slot_nomm t m i : node_slot (with_nomm t m) i = node_slot t i. Proof. done. Qed.
Lemma chain_find_nomm t m k : forall n i, chain_find n (with_nomm t m) i k = chain_find n t i k.
Proof. induction n as [|n IH]; intros i; [done|]. cbn [chain_find]. rewrite node_slot_nomm. destruct (node_slot t i); [|done]. cbn. by rewrite IH. Qed.
Lemma get_str_nomm t m k : Table.get_str (with_nomm t m) k = Table.get_str t k.
Proof. unfold Table.get_str. change (hash_slot (with_nomm t m) k) with (hash_slot t k). change (chain_fuel (with_nomm t m)) with (chain_fuel t).
  destruct (hash_slot t k); [|done]. cbn [mbind option_bind]. by rewrite chain_find_nomm. Qed.
Lemma get_nomm t m k : Table.get (with_nomm t m) k = Table.get t k.
Proof.
  unfold Table.get. change (array_index (with_nomm t m) k) with (array_index t k).
  change (hash_slot (with_nomm t m) k) with (hash_slot t k). change (chain_fuel (with_nomm t m)) with (chain_fuel t).
  destruct (array_index t k); [done|]. change (has_hpart (with_nomm t m)) with (has_hpart t).
  destruct (is_nil k || negb (has_hpart t)); [done|]. change (chain_fuel (with_nomm t m)) with (chain_fuel t).
  destruct (hash_slot t k); [|done]. cbn [mbind option_bind]. by rewrite chain_find_nomm.
Qed.

(** Writes leave the cache as it was, or empty it. *)
Definition keeps (m : Z) (t : LuaTable) : Prop := nomm t = m \/ nomm t = 0.

Ltac opt_inv := repeat match goal with E : (let? _ := ?o in _) = Some _ |- _ => destruct o eqn:?; cbv beta iota in E; [|discriminate E] end.

Lemma node_slot_mut_keeps m t i f t' : keeps m t -> node_slot_mut t i f = Some t' -> keeps m t'.
Proof. unfold node_slot_mut. intros K E. opt_inv. injection E as <-. done. Qed.
Lemma new_hpart_keeps m t hb t' : keeps m t -> new_hpart t hb = Some t' -> keeps m t'.
Proof. unfold new_hpart. intros K E. destruct (hb <=? LJ_MAX_HBITS); [|done]. injection E as <-. done. Qed.

Lemma set_all_keeps m set : (forall t k v t', keeps m t -> set t k v = Some t' -> keeps m t') ->
  forall kvs t t', keeps m t -> set_all set t kvs = Some t' -> keeps m t'.
Proof.
  intros Hs kvs. induction kvs as [|[k v] kvs IH]; intros t t' K E; cbn [set_all] in E; [by injection E as <-|].
  opt_inv. eapply IH; [|done]. by eapply Hs.
Qed.

Lemma resize_keeps m set t a hb t' : (forall t k v t', keeps m t -> set t k v = Some t' -> keeps m t') ->
  keeps m t -> resize set t a hb = Some t' -> keeps m t'.
Proof.
  intros Hs K E. unfold resize in E. destruct (a <=? LJ_MAX_ASIZE); [|done]. cbv zeta in E.
  set (t1 := if asize t <? a then _ else _) in E.
  assert (K1 : keeps m t1) by (subst t1; by destruct (asize t <? a)).
  match type of E with (let? _ := ?o in _) = _ => destruct o as [t2|] eqn:E2; cbn in E; [|done] end.
  assert (K2 : keeps m t2).
  { destruct (negb (hb =? 0)); [by eapply new_hpart_keeps|]. destruct (negb (hmask t =? 0)); by injection E2 as <-. }
  match type of E with (let? _ := ?o in _) = _ => destruct o as [t3|] eqn:E3; cbn in E; [|done] end.
  assert (K3 : keeps m t3).
  { destruct (a <? asize t); [|by injection E3 as <-]. opt_inv. by eapply set_all_keeps; [exact Hs| |exact E3]. }
  destruct (0 <? hmask t); [by eapply set_all_keeps; [exact Hs| |exact E]|by injection E as <-].
Qed.

Lemma try_new_key_keeps m rehash t k t' r : (forall t k t', keeps m t -> rehash t k = Some t' -> keeps m t') ->
  keeps m t -> try_new_key rehash t k = Some (t', r) -> keeps m t'.
Proof.
  intros Hr _ E. unfold try_new_key in E. assert (K : keeps m (with_nomm t 0)) by by right.
  set (t0 := with_nomm t 0) in *. destruct (negb (has_hpart t0)).
  { opt_inv. injection E as <- <-. by eapply Hr. }
  opt_inv. destruct (is_nil _).
  { opt_inv. injection E as <- <-. by eapply node_slot_mut_keeps. }
  opt_inv. match type of E with match ?o with Some _ => _ | None => _ end = _ => destruct o end.
  - opt_inv. destruct (negb _).
    + unfold move_colliding in E. opt_inv. injection E as <- <-. repeat (eapply node_slot_mut_keeps; [|eassumption]). done.
    + unfold insert_after_main in E. opt_inv. injection E as <- <-. repeat (eapply node_slot_mut_keeps; [|eassumption]). done.
  - opt_inv. injection E as <- <-. by eapply Hr.
Qed.

Lemma set_loop_keeps m : forall fuel t k v t', keeps m t -> set_loop fuel t k v = Some t' -> keeps m t'.
Proof.
  induction fuel as [|fuel IH]; intros t k v t' K E; [done|]. cbn [set_loop] in E.
  assert (K0 : keeps m (if is_string k then with_nomm t 0 else t)) by (destruct (is_string k); [by right|done]).
  set (t0 := if is_string k then _ else t) in *. destruct (array_index t0 k).
  { opt_inv. by injection E as <-. }
  opt_inv. match type of E with match ?o with Some _ => _ | None => _ end = _ => destruct o end; [by eapply node_slot_mut_keeps|].
  match type of E with context [try_new_key ?f ?x ?y] => destruct (try_new_key f x y) as [[t1 r]|] eqn:E1; cbn in E; [|done] end.
  assert (K1 : keeps m t1).
  { eapply try_new_key_keeps; [|exact K0|exact E1]. intros t2 k2 t3 K2 E2. unfold rehash in E2.
    destruct (rehash_sizes t2 k2) as [[a hb]|]; [|done]. cbn in E2. by eapply resize_keeps; [exact IH| |exact E2]. }
  destruct r; [by eapply node_slot_mut_keeps|by eapply IH].
Qed.

(** A write with a string key empties it. *)
Lemma set_string_nomm t k v t' : is_string k = true -> Table.set t k v = Some t' -> nomm t' = 0.
Proof.
  intros Hk E. assert (E' : Table.set (with_nomm t 0) k v = Some t').
  { rewrite <- E. unfold Table.set. change 2%nat with (S 1). generalize 1%nat as n. intros n. cbn [set_loop]. by rewrite Hk. }
  assert (keeps 0 t') as [?|?] by (eapply set_loop_keeps; [|exact E']; by left); done.
Qed.
Lemma set_str_nomm t k v t' : is_string k = true -> Table.set_str t k v = Some t' -> nomm t' = 0.
Proof.
  intros Hk E. unfold Table.set_str in E. set (t0 := with_nomm t 0) in *.
  destruct (negb (has_hpart t0)); [by eapply set_string_nomm|]. opt_inv.
  match type of E with match ?o with Some _ => _ | None => _ end = _ => destruct o end; [|by eapply set_string_nomm].
  assert (keeps 0 t') as [?|?] by (eapply node_slot_mut_keeps; [|exact E]; by left); done.
Qed.
End Nomm.

(** ** The cache of every table *)

Definition mm_mask (mm : MM.t) : Z := uwrap 8 (Z.shiftl 1 (MM.code mm)).

Lemma mm_mask_inj mm mm' : Z.land (mm_mask mm) (mm_mask mm') <> 0 -> mm = mm'.
Proof. destruct mm, mm'; vm_compute; done. Qed.

Section Cache.
Context {St : Type} `{Strings St} `{StrPtrs St} `{Builtins St} `{Libm}.
#[local] Abbreviation Vm := (@Vm St).
Implicit Types s : Vm.

Definition tab s (p : Z) : option LuaTable := tables (heap (l s)) !! p.
Definition strs_of s : StrHeap := str_heap (strings (heap (l s))).
Definition name s (mm : MM.t) : option LuaValue := znth (mmnames (heap (l s))) (MM.code mm).
Definition raw_str s (t : LuaTable) (k : LuaValue) : option LuaValue := Table.get_str (H := strs_of s) t k.
Definition raw_get s (t : LuaTable) (k : LuaValue) : option LuaValue := Table.get (H := strs_of s) t k.

(** A set bit means the name is absent. *)
Definition cache_ok s : Prop := forall p t mm k, tab s p = Some t -> name s mm = Some k ->
  Z.land (nomm t) (mm_mask mm) <> 0 -> exists v, raw_str s t k = Some v /\ is_nil v = true.

(** The state with another table at [p]. *)
Definition with_table (p : Z) (t : LuaTable) (s : Vm) : Vm :=
  mkVm (set_heap (set_tables (<[p := t]> (tables (heap (l s)))) (heap (l s))) (l s)) (it s).

Lemma tab_with_table p t s q : tab (with_table p t s) q = if decide (q = p) then Some t else tab s q.
Proof.
  unfold tab. replace (tables (heap (l (with_table p t s)))) with (<[p := t]> (tables (heap (l s)))) by (by destruct s as [[[]] ?]).
  case_decide as Hq; [by rewrite Hq, lookup_insert_eq|by rewrite lookup_insert_ne].
Qed.
Lemma name_with_table p t s mm : name (with_table p t s) mm = name s mm. Proof. by destruct s as [[[]] ?]. Qed.
Lemma strs_with_table p t s : strs_of (with_table p t s) = strs_of s. Proof. by destruct s as [[[]] ?]. Qed.

Lemma table_at_Ok s p t : tab s p = Some t -> table_at p s = Ok t s.
Proof. intros E. unfold table_at, bind, geth, getl, gets, lift. unfold tab in E. by rewrite E. Qed.
Lemma table_set_at_Ok p t s : table_set_at p t s = Ok tt (with_table p t s).
Proof. reflexivity. Qed.
Lemma mm_name_Ok s mm k : name s mm = Some k -> mm_name mm s = Ok k s.
Proof. intros E. unfold mm_name, bind, geth, getl, gets, lift. unfold name in E. by rewrite E. Qed.

Lemma tab_get_str_Ok s p t k v : tab s p = Some t -> raw_str s t k = Some v -> tab_get_str p k s = Ok v s.
Proof. intros Et E. unfold tab_get_str. rewrite (bind_Ok _ _ _ _ _ (table_at_Ok _ _ _ Et)). unfold bind, geth, getl, gets, lift. unfold raw_str, strs_of in E. by rewrite E. Qed.
Lemma tab_get_Ok s p t k v : tab s p = Some t -> raw_get s t k = Some v -> tab_get p k s = Ok v s.
Proof. intros Et E. unfold tab_get. rewrite (bind_Ok _ _ _ _ _ (table_at_Ok _ _ _ Et)). unfold bind, geth, getl, gets, lift. unfold raw_get, strs_of in E. by rewrite E. Qed.

(** Only the caches differ. *)
Definition same_but_cache s s' : Prop :=
  strs_of s' = strs_of s /\ (forall mm, name s' mm = name s mm) /\
  forall p, tab s' p = tab s p \/ exists t m, tab s p = Some t /\ tab s' p = Some (with_nomm t m).

Lemma same_refl s : same_but_cache s s.
Proof. split; [done|]. split; [done|]. intros p. by left. Qed.
Lemma same_trans s1 s2 s3 : same_but_cache s1 s2 -> same_but_cache s2 s3 -> same_but_cache s1 s3.
Proof.
  intros (A1 & N1 & T1) (A2 & N2 & T2). split; [congruence|]. split; [intros; by rewrite N2|]. intros p.
  destruct (T2 p) as [E2|(t & m & E2 & E3)]; [rewrite E2; apply T1|].
  destruct (T1 p) as [E1|(t1 & m1 & E1 & E1')]; right; [exists t, m; by rewrite <- E1|].
  exists t1, m. split; [done|]. rewrite E3. rewrite E1' in E2. by injection E2 as <-.
Qed.
Lemma same_raw_get s s' t m k : same_but_cache s s' -> raw_get s' (with_nomm t m) k = raw_get s t k.
Proof. intros (A & _). unfold raw_get. rewrite A. apply get_nomm. Qed.
Lemma same_raw_str s s' t m k : same_but_cache s s' -> raw_str s' (with_nomm t m) k = raw_str s t k.
Proof. intros (A & _). unfold raw_str. rewrite A. apply get_str_nomm. Qed.
Lemma with_nomm_id t : with_nomm t (nomm t) = t. Proof. by destruct t. Qed.
Lemma same_tab s s' p t : same_but_cache s s' -> tab s p = Some t -> exists m, tab s' p = Some (with_nomm t m).
Proof.
  intros (_ & _ & T) E. destruct (T p) as [E'|(t' & m & E1 & E2)].
  - exists (nomm t). by rewrite E', with_nomm_id.
  - exists m. rewrite E in E1. by injection E1 as <-.
Qed.

(** ** The cached lookup *)

(** The metamethod of a metatable, looked up without the cache. *)
Definition plain_lookup s (mt : option Z) (mm : MM.t) : option (option LuaValue) :=
  match mt with
  | None => Some None
  | Some p => let? t := tab s p in let? k := name s mm in let? v := raw_str s t k in Some (if is_nil v then None else Some v)
  end.

(** The cached lookup of a metamethod answers like the plain lookup in the
    metatable; it changes nothing but the cache, and what it adds to the cache
    is true. *)
Lemma meta_fast_lookup s mt mm r (Hok : cache_ok s) (Hplain : plain_lookup s mt mm = Some r) :
  exists s', meta_fast mt mm s = Ok r s' /\ cache_ok s' /\ same_but_cache s s'.
Proof.
  unfold plain_lookup in Hplain. destruct mt as [p|]; [|injection Hplain as <-; exists s; split; [done|]; split; [done|apply same_refl]].
  destruct (tab s p) as [t|] eqn:Et; [|done]. destruct (name s mm) as [k|] eqn:Ek; [|done].
  destruct (raw_str s t k) as [v|] eqn:Ev; [|done]. apply Some_inj in Hplain as <-.
  unfold meta_fast. rewrite (bind_Ok _ _ _ _ _ (table_at_Ok _ _ _ Et)). fold (mm_mask mm).
  destruct (Z.eqb_spec (Z.land (nomm t) (mm_mask mm)) 0) as [Ez|Ez]; cbn [negb].
  2: { destruct (Hok p t mm k Et Ek Ez) as (w & Ew & Hw). rewrite Ev in Ew. injection Ew as <-. rewrite Hw.
       exists s. split; [done|]. split; [done|apply same_refl]. }
  rewrite (bind_Ok _ _ _ _ _ (mm_name_Ok _ _ _ Ek)), (bind_Ok _ _ _ _ _ (tab_get_str_Ok _ _ _ _ _ Et Ev)).
  destruct (is_nil v) eqn:Hv; [|exists s; split; [done|]; split; [done|apply same_refl]].
  rewrite (bind_Ok _ _ _ _ _ (table_set_at_Ok p _ s)). set (t' := with_nomm t _). exists (with_table p t' s).
  assert (Hsame : same_but_cache s (with_table p t' s)).
  { split; [apply strs_with_table|]. split; [intros; apply name_with_table|]. intros q. rewrite tab_with_table.
    case_decide as Hq; [right|by left]. subst q. by exists t, (Z.lor (nomm t) (mm_mask mm)). }
  split; [done|]. split; [|done].
  intros q u mm' k' Eu Ek' Hb. rewrite tab_with_table in Eu. rewrite name_with_table in Ek'. case_decide as Hq.
  - injection Eu as <-. subst t'. rewrite (same_raw_str _ _ _ _ _ Hsame).
    change (nomm (with_nomm t (Z.lor (nomm t) (mm_mask mm)))) with (Z.lor (nomm t) (mm_mask mm)) in Hb.
    rewrite Z.land_lor_distr_l in Hb. destruct (decide (Z.land (nomm t) (mm_mask mm') = 0)) as [E0|E0]; [|by apply (Hok p t mm')].
    rewrite E0, Z.lor_0_l in Hb. apply mm_mask_inj in Hb as <-. rewrite Ek in Ek'. injection Ek' as <-. by exists v.
  - destruct (Hok q u mm' k' Eu Ek' Hb) as (w & Ew & Hw). exists w. split; [|done]. unfold raw_str. by rewrite strs_with_table.
Qed.

(** ** Writes *)

(** The names are keys. *)
Definition names_ok s : Prop := forall mm k, name s mm = Some k -> is_string k = true /\ key_ok k.

Lemma cache_written s p t t' : cache_ok s -> names_ok s -> tab s p = Some t ->
  (nomm t' = 0 \/ keeps (nomm t) t' /\ forall mm k, name s mm = Some k -> raw_str s t' k = raw_str s t k) ->
  cache_ok (with_table p t' s).
Proof.
  intros Hok Hn Et Ht q u mm k Eu Ek Hb. rewrite tab_with_table in Eu. rewrite name_with_table in Ek.
  assert (Hraw : forall w, raw_str (with_table p t' s) w k = raw_str s w k) by (intros; unfold raw_str; by rewrite strs_with_table).
  rewrite Hraw. case_decide as Hq; [|by apply (Hok q u mm)].
  injection Eu as <-. destruct Ht as [E0|[[E0|E0] Hs]]; try (by rewrite E0 in Hb).
  rewrite (Hs mm k Ek). apply (Hok p t mm); [done|done|]. by rewrite E0 in Hb.
Qed.


(** ** The __index chain *)

(** What [o[k]] is through tables only: a raw hit, or the search continues in
    the table [__index] of the metatable; [None] when a function takes over. *)
Fixpoint index_spec (n : nat) s (o k : LuaValue) : option LuaValue :=
  match n with
  | O => None
  | S n =>
      let? p := as_table o in
      let? t := tab s p in
      let? v := raw_get s t k in
      if negb (is_nil v) then Some v else
      let? r := plain_lookup s (metatable t) MM.Index in
      match r with
      | None => Some NIL
      | Some mo => if is_func mo then None else index_spec n s mo k
      end
  end.

Lemma plain_lookup_same s s' mt mm : same_but_cache s s' -> forall r, plain_lookup s mt mm = Some r -> plain_lookup s' mt mm = Some r.
Proof.
  intros Hs r E. unfold plain_lookup in *. destruct mt as [p|]; [|done]. destruct (tab s p) as [t|] eqn:Et; [|done].
  destruct (same_tab _ _ _ _ Hs Et) as [m ->]. pose proof Hs as (_ & -> & _). destruct (name s mm); [|done].
  by rewrite (same_raw_str _ _ _ _ _ Hs).
Qed.

Lemma index_spec_same n s s' : same_but_cache s s' -> forall o k v, index_spec n s o k = Some v -> index_spec n s' o k = Some v.
Proof.
  intros Hs. induction n as [|n IH]; intros o k v E; [done|]. cbn [index_spec] in *.
  destruct (as_table o) as [p|]; [|done]. destruct (tab s p) as [t|] eqn:Et; [|done].
  destruct (same_tab _ _ _ _ Hs Et) as [m ->]. rewrite (same_raw_get _ _ _ _ _ Hs).
  destruct (raw_get s t k) as [w|]; [|done]. destruct (negb (is_nil w)); [done|].
  change (metatable (with_nomm t m)) with (metatable t).
  destruct (plain_lookup s (metatable t) MM.Index) as [r|] eqn:Er; [|done].
  rewrite (plain_lookup_same _ _ _ _ Hs _ Er). destruct r as [mo|]; [|done]. destruct (is_func mo); [done|]. by apply IH.
Qed.

(** C15. Indexing through a chain of up to a hundred [__index] tables finds the
    value of the first table that has the key, and nil at a table without
    [__index]; on the way only caches change, and they stay true. *)
Theorem meta_tget_chain s o k a v (Hok : cache_ok s) (Hspec : index_spec LJ_MAX_IDXCHAIN s o k = Some v) :
  exists s', meta_tget o k a s = Ok (Some v) s' /\ cache_ok s' /\ same_but_cache s s'.
Proof.
  unfold meta_tget. revert s o Hok Hspec. generalize LJ_MAX_IDXCHAIN as n. induction n as [|n IH]; intros s o Hok E; [done|].
  cbn [index_spec] in E. cbn [tget_loop]. destruct (as_table o) as [p|]; [|done].
  destruct (tab s p) as [t|] eqn:Et; [|done]. destruct (raw_get s t k) as [w|] eqn:Ew; [|done].
  rewrite (bind_Ok _ _ _ _ _ (tab_get_Ok _ _ _ _ _ Et Ew)). destruct (negb (is_nil w)).
  { injection E as <-. exists s. split; [done|]. split; [done|apply same_refl]. }
  rewrite (bind_Ok _ _ _ _ _ (table_at_Ok _ _ _ Et)).
  destruct (plain_lookup s (metatable t) MM.Index) as [r|] eqn:Er; [|done].
  destruct (meta_fast_lookup s _ _ _ Hok Er) as (s1 & E1 & Hok1 & Hs1). rewrite (bind_Ok _ _ _ _ _ E1).
  destruct r as [mo|].
  - destruct (is_func mo); [done|]. destruct (IH s1 mo Hok1) as (s2 & E2 & Hok2 & Hs2); [by eapply index_spec_same|].
    exists s2. split; [done|]. split; [done|]. by eapply same_trans.
  - injection E as <-. by exists s1.
Qed.
End Cache.
