(* ===== verification/VmNum.v ===== *)
(** * Numbers in the interpreter

    Its arithmetic is the parser's and the recorder's, and its numeric for
    loop visits an arithmetic progression. *)

From Stdlib Require Import ZArith Lia Bool Ascii String SpecFloat.
From stdpp Require Import base decidable numbers option gmap list.
From S2P Require Import Prelude Float64 Value Strings FloatText PatClass Ir Fold Bytecode Table Parse ParseState ParseExpr VmState VmValue VmFrame VmMeta VmStep Vm VmSpec VmCall.

(** ** One arithmetic for the compiler, the interpreter and the recorder

    A constant expression the parser folds has the value its instruction
    computes at run time, in whichever operand form, the value the coercing
    slow path computes, and the one the recorder's FOLD computes. *)

(** The operators that fold to a double exactly as they run; [^] is not one,
    the parser calls [powf] where the interpreter multiplies. *)
Definition arith_op (opr : BinOp.t) : option (MM.t * IROp.t) :=
  match opr with
  | BinOp.Add => Some (MM.Add, IROp.ADD)
  | BinOp.Sub => Some (MM.Sub, IROp.SUB)
  | BinOp.Mul => Some (MM.Mul, IROp.MUL)
  | BinOp.Div => Some (MM.Div, IROp.DIV)
  | BinOp.Mod => Some (MM.Mod, IROp.MOD)
  | _ => None
  end.

(** The operand forms of an instruction. *)
Inductive Form := VV | VN | NV.
Definition form_base (f : Form) : Z :=
  match f with VV => BCOp.code BCOp.ADDVV | VN => BCOp.code BCOp.ADDVN | NV => BCOp.code BCOp.ADDNV end.
Definition form_op (f : Form) (opr : BinOp.t) : option BCOp.t := from_u32 (form_base f + BinOp.code opr).

Section Arith.
Context {St : Type} `{Strings St} `{StrPtrs St} `{Builtins St} `{Libm} `{StrHash St}.
#[local] Abbreviation Vm := (@Vm St).
Implicit Types s : Vm.

Definition literal (n : f64) : Prop := urange 64 n /\ f64_is_nan n = false.

(** The operands [x] and [y] where the form has them. *)
Definition operands (f : Form) (fr : Frame) (ins : Z) (x y : f64) s : Prop :=
  valid fr s /\
  match f with
  | VV => slot s (fbase fr + bc_b ins) = Some x /\ slot s (fbase fr + bc_c ins) = Some y
  | VN => slot s (fbase fr + bc_b ins) = Some x /\ znth (knp (it s)) (bc_c ins) = Some y
  | NV => slot s (fbase fr + bc_b ins) = Some y /\ znth (knp (it s)) (bc_c ins) = Some x
  end.

Lemma literal_number n : literal n -> is_number n = true.
Proof. intros [Hr Hn]. rewrite is_number_range by done. apply Z.ltb_lt. by apply f64_nan_bound. Qed.

Lemma knum_Ok s d n : znth (knp (it s)) d = Some n -> knum d s = Ok n s.
Proof. intros E. unfold knum. rewrite (bind_Ok _ _ _ _ _ (geti_Ok knp s)), (bind_Ok _ _ _ _ _ (lift_Ok _ _ s E)). done. Qed.

Lemma arith_vv_Ok fr ip ins mm nop x y r s : operands VV fr ins x y s -> is_number x = true -> is_number y = true ->
  nop x y = Some r -> arith_vv fr ip ins mm nop s = set_next fr ip (bc_a ins) (number_raw r) s.
Proof.
  intros (Hv & Hx & Hy) Nx Ny E. unfold arith_vv.
  rewrite (bind_Ok _ _ _ _ _ (reg_Ok _ _ _ _ Hv Hx)), (bind_Ok _ _ _ _ _ (reg_Ok _ _ _ _ Hv Hy)), Nx, Ny. cbn [andb].
  by rewrite (bind_Ok _ _ _ _ _ (lift_Ok _ _ s E)).
Qed.

Lemma arith_k_Ok (nv : bool) fr ip ins mm nop x y r s : operands (if nv then NV else VN) fr ins x y s ->
  is_number x = true -> is_number y = true -> nop x y = Some r ->
  arith_k fr ip ins mm nop nv s = set_next fr ip (bc_a ins) (number_raw r) s.
Proof.
  intros Ho Nx Ny E. unfold arith_k. destruct nv; destruct Ho as (Hv & Hx & Hk);
    rewrite (bind_Ok _ _ _ _ _ (reg_Ok _ _ _ _ Hv Hx)), (bind_Ok _ _ _ _ _ (knum_Ok _ _ _ Hk)), ?Nx, ?Ny;
    by rewrite (bind_Ok _ _ _ _ _ (lift_Ok _ _ s E)).
Qed.

(** What the parser folds to. *)
Lemma foldarith_Ran opr e1 e2 e (ps ps' : Parser St) : ParseExpr.foldarith opr e1 e2 ps = Ran (Some e, ps') ->
  vm_foldarith (ExpDesc.nval e1) (ExpDesc.nval e2) (BinOp.code opr) = Some (ExpDesc.nval e) /\ f64_is_nan (ExpDesc.nval e) = false.
Proof.
  unfold ParseExpr.foldarith. destruct (_ || _); [by intros [=]|]. unfold ParseState.bind, ParseState.lift.
  change (BinOp.code BinOp.Add) with 0. rewrite Z.sub_0_r.
  destruct (vm_foldarith _ _ _) as [n|]; [|done]. unfold ParseState.ret. destruct (f64_is_nan n) eqn:En; [by intros [=]|]. cbn [orb].
  destruct (n =? 2 ^ 63); [by intros [=]|]. intros [= <- _]. by destruct e1.
Qed.

(** The two tables of operators. *)
Lemma arith_tables opr mm o x y r : arith_op opr = Some (mm, o) -> vm_foldarith x y (BinOp.code opr) = Some r ->
  fold_numarith x y o = Some r /\ VmValue.foldarith mm x y = Some r.
Proof. by destruct opr; intros [= <- <-]. Qed.

Lemma arith_ins_Ok f opr op mm o fr ip ins x y r s : arith_op opr = Some (mm, o) -> form_op f opr = Some op ->
  vm_foldarith x y (BinOp.code opr) = Some r -> operands f fr ins x y s -> is_number x = true -> is_number y = true ->
  exec_plain fr ip ins op s = set_next fr ip (bc_a ins) (number_raw r) s.
Proof.
  intros Ha Hf Hr Ho Nx Ny. destruct opr; try discriminate Ha; clear Ha; destruct f; vm_compute in Hf;
    injection Hf as <-; unfold exec_plain; cbv zeta beta iota;
    first [ by eapply arith_vv_Ok | by eapply (arith_k_Ok false) | by eapply (arith_k_Ok true) ].
Qed.

End Arith.

(** ** The numeric for loop

    Over integers the loop visits exactly the arithmetic progression from the
    start to the limit, in finitely many turns, whatever its body does to the
    registers above the three of the loop. *)

(** *** The progression *)

Definition in_range (i stop step : Z) : bool := if 0 <=? step then i <=? stop else stop <=? i.
(** How many numbers there are from [i] to [stop]. *)
Definition for_count (i stop step : Z) : Z :=
  if 0 <=? step then Z.max 0 ((stop - i) / step + 1) else Z.max 0 ((i - stop) / - step + 1).
Fixpoint progression (n : nat) (i step : Z) : list Z :=
  match n with O => [] | S n => i :: progression n (i + step) step end.

Lemma for_count_zero i stop step : step <> 0 -> in_range i stop step = false -> for_count i stop step = 0.
Proof.
  intros Hs. unfold in_range, for_count. destruct (Z.leb_spec 0 step); intros Hr%Z.leb_gt.
  - assert ((stop - i) / step < 0) by (apply Z.div_lt_upper_bound; lia). lia.
  - assert ((i - stop) / - step < 0) by (apply Z.div_lt_upper_bound; lia). lia.
Qed.
Lemma for_count_next i stop step : step <> 0 -> in_range i stop step = true ->
  for_count i stop step = for_count (i + step) stop step + 1.
Proof.
  intros Hs. unfold in_range, for_count. destruct (Z.leb_spec 0 step); intros Hr%Z.leb_le.
  - assert (0 <= (stop - i) / step) by (apply Z.div_pos; lia).
    replace (stop - (i + step)) with (stop - i + (-1) * step) by lia. rewrite Z.div_add by lia. lia.
  - assert (0 <= (i - stop) / - step) by (apply Z.div_pos; lia).
    replace (i + step - stop) with (i - stop + (-1) * - step) by lia. rewrite Z.div_add by lia. lia.
Qed.
Lemma for_count_nonneg i stop step : 0 <= for_count i stop step.
Proof. unfold for_count. destruct (0 <=? step); lia. Qed.

(** *** Integers as values *)

Lemma of_int_plain k : Z.abs k < 2 ^ 53 -> f64_is_nan (f64_of_int k) = false /\ is_number (f64_of_int k) = true /\ number (f64_of_int k) = f64_of_int k.
Proof.
  intros Hk. pose proof (f64_of_int_range k Hk) as Hr.
  assert (Hn : f64_is_nan (f64_of_int k) = false).
  { destruct (decide (k = 0)) as [->|]; [done|]. unfold f64_is_nan. rewrite SF_of_int by lia. done. }
  split; [done|]. split; [rewrite is_number_range by done; apply Z.ltb_lt; by apply f64_nan_bound|].
  unfold number. rewrite Hn. destruct (f64_eq (f64_of_int k) 0) eqn:E; [|done].
  destruct (decide (k = 0)) as [->|]; [done|]. unfold f64_eq in E. rewrite SF_of_int in E by lia. by destruct (k <? 0).
Qed.

Lemma for_continues_int i stop step : Z.abs i < 2 ^ 53 -> Z.abs stop < 2 ^ 53 -> Z.abs step < 2 ^ 53 ->
  for_continues (f64_of_int i) (f64_of_int stop) (f64_of_int step) = in_range i stop step.
Proof. intros Hi Hs Ht. unfold for_continues, in_range. change 0 with (f64_of_int 0) at 1. rewrite !f64_le_int by (done || lia). done. Qed.

Section For.
Context {St : Type} `{Strings St} `{StrPtrs St} `{Builtins St} `{Libm} `{StrHash St}.
#[local] Abbreviation M := (@M St).
#[local] Abbreviation Vm := (@Vm St).
Implicit Types s : Vm.

(** The window of the frame at [b], as the stack now is. *)
Definition frame_of (b : Z) s : Frame := mkFrame (slots s) b.

(** The three registers of the loop and the fourth, the variable. *)
Record for_regs (b a i stop step : Z) s : Prop := {
  fg_room : 0 <= b + a /\ b + a + FORL_EXT < slots s;
  fg_idx : slot s (b + (a + FORL_IDX)) = Some (f64_of_int i);
  fg_stop : slot s (b + (a + FORL_STOP)) = Some (f64_of_int stop);
  fg_step : slot s (b + (a + FORL_STEP)) = Some (f64_of_int step);
}.

Lemma fset_Ok fr s i v : valid fr s -> 0 <= fbase fr + i < slots s ->
  exists s', fset fr i v s = Ok tt s' /\ stack_only s s' /\ forall j, slot s' j = if decide (j = fbase fr + i) then Some v else slot s j.
Proof.
  intros Hv Hi. unfold fset, frame_valid. rewrite bind_then, (bind_Ok _ _ _ _ _ (stack_len_Ok s)), Hv, Z.eqb_refl.
  by apply set_at_Ok.
Qed.
Lemma fset_frame b s i v : 0 <= b + i < slots s ->
  exists s', fset (frame_of b s) i v s = Ok tt s' /\ frame_of b s' = frame_of b s /\ slots s' = slots s /\ quiet s s' /\
    forall j, slot s' j = if decide (j = b + i) then Some v else slot s j.
Proof.
  intros Hi. destruct (fset_Ok (frame_of b s) s i v eq_refl Hi) as (s' & E & O & S). exists s'.
  pose proof (stack_only_slots _ _ O) as L. split; [done|]. split; [by unfold frame_of; rewrite L|]. split; [done|].
  split; [by apply quiet_stack_only|exact S].
Qed.

(** The registers of the loop, in states that differ above or at them. *)
Lemma for_regs_write b a i stop step i' s s' : for_regs b a i stop step s -> slots s <= slots s' ->
  slot s' (b + (a + FORL_IDX)) = Some (f64_of_int i') ->
  (forall j, j = b + (a + FORL_STOP) \/ j = b + (a + FORL_STEP) -> slot s' j = slot s j) -> for_regs b a i' stop step s'.
Proof. intros [] Hl Hi Hj. split; [lia|done|by rewrite Hj by (by left)|by rewrite Hj by (by right)]. Qed.

(** One turn of the loop instruction. *)
Lemma forl_int b a i stop step ip ins s : bc_a ins = a -> for_regs b a i stop step s ->
  Z.abs i < 2 ^ 53 -> Z.abs stop < 2 ^ 53 -> Z.abs step < 2 ^ 53 -> Z.abs (i + step) < 2 ^ 53 ->
  if in_range (i + step) stop step
  then exists s', forl_arm (frame_of b s) ip ins s = Ok (Next (frame_of b s') (ip + 4 * bc_j ins)) s' /\
    for_regs b a (i + step) stop step s' /\ slot s' (b + (a + FORL_EXT)) = Some (f64_of_int (i + step))
  else forl_arm (frame_of b s) ip ins s = Ok (Next (frame_of b s) ip) s.
Proof.
  intros <- R Hi Hs Ht Hit. pose proof R as [[Hb He] Ri Rs Rt]. unfold forl_arm. cbv zeta.
  rewrite (bind_Ok _ _ _ _ _ (reg_Ok (frame_of b s) s _ _ eq_refl Ri)), (bind_Ok _ _ _ _ _ (reg_Ok (frame_of b s) s _ _ eq_refl Rs)),
    (bind_Ok _ _ _ _ _ (reg_Ok (frame_of b s) s _ _ eq_refl Rt)).
  rewrite f64_add_int, for_continues_int by done. destruct (in_range (i + step) stop step); [|done].
  unfold FORL_EXT, FORL_IDX, FORL_STOP, FORL_STEP, number_raw in *.
  destruct (fset_frame b s (bc_a ins + 0) (f64_of_int (i + step))) as (s1 & E1 & F1 & L1 & _ & S1); [lia|]. rewrite (bind_Ok _ _ _ _ _ E1).
  rewrite <- F1. destruct (fset_frame b s1 (bc_a ins + 3) (f64_of_int (i + step))) as (s2 & E2 & F2 & L2 & _ & S2); [lia|]. rewrite (bind_Ok _ _ _ _ _ E2).
  exists s2. split; [by rewrite F2|]. split; [|by rewrite S2, decide_True by lia].
  apply (for_regs_write b _ i stop step _ s); [done|lia|..]; unfold FORL_IDX, FORL_STOP, FORL_STEP.
  - by rewrite S2, decide_False, S1, decide_True by lia.
  - intros j Hj. by rewrite S2, decide_False, S1, decide_False by lia.
Qed.

(** Before the first turn; the operands are numbers already. *)
Lemma for_number_int k s : Z.abs k < 2 ^ 53 -> for_number (f64_of_int k) s = Ok (Some (f64_of_int k)) s.
Proof.
  intros Hk. destruct (of_int_plain k Hk) as (_ & Hn & _). unfold for_number, str2num.
  assert (as_number (f64_of_int k) = Some (f64_of_int k)) as ->; [|done]. unfold as_number. by rewrite Hn.
Qed.

Lemma fori_int b a i stop step ip ins s : bc_a ins = a -> for_regs b a i stop step s ->
  Z.abs i < 2 ^ 53 -> Z.abs stop < 2 ^ 53 -> Z.abs step < 2 ^ 53 ->
  exists s', fori_arm (frame_of b s) ip ins s =
      Ok (Next (frame_of b s') (if in_range i stop step then ip else ip + 4 * bc_j ins)) s' /\
    for_regs b a i stop step s' /\ slot s' (b + (a + FORL_EXT)) = Some (f64_of_int i).
Proof.
  intros <- R Hi Hs Ht. pose proof R as [[Hb He] Ri Rs Rt]. unfold fori_arm. cbv zeta.
  rewrite (bind_Ok _ _ _ _ _ (reg_Ok (frame_of b s) s _ _ eq_refl Ri)), (bind_Ok _ _ _ _ _ (reg_Ok (frame_of b s) s _ _ eq_refl Rs)),
    (bind_Ok _ _ _ _ _ (reg_Ok (frame_of b s) s _ _ eq_refl Rt)).
  rewrite (bind_Ok _ _ _ _ _ (for_number_int i s Hi)), (bind_Ok _ _ _ _ _ (for_number_int stop s Hs)), (bind_Ok _ _ _ _ _ (for_number_int step s Ht)).
  destruct (of_int_plain i Hi) as (_ & _ & ->). destruct (of_int_plain stop Hs) as (_ & _ & ->). destruct (of_int_plain step Ht) as (_ & _ & ->).
  rewrite for_continues_int by done. unfold FORL_EXT, FORL_IDX, FORL_STOP, FORL_STEP, number_raw in *.
  destruct (fset_frame b s (bc_a ins + 0) (f64_of_int i)) as (s1 & E1 & F1 & L1 & _ & S1); [lia|]. rewrite (bind_Ok _ _ _ _ _ E1), <- F1.
  destruct (fset_frame b s1 (bc_a ins + 1) (f64_of_int stop)) as (s2 & E2 & F2 & L2 & _ & S2); [lia|]. rewrite (bind_Ok _ _ _ _ _ E2), <- F2.
  destruct (fset_frame b s2 (bc_a ins + 2) (f64_of_int step)) as (s3 & E3 & F3 & L3 & _ & S3); [lia|]. rewrite (bind_Ok _ _ _ _ _ E3), <- F3.
  destruct (fset_frame b s3 (bc_a ins + 3) (f64_of_int i)) as (s4 & E4 & F4 & L4 & _ & S4); [lia|]. rewrite (bind_Ok _ _ _ _ _ E4), <- F4.
  exists s4. split; [by destruct (in_range i stop step)|].
  assert (Hold : forall j, slot s4 j = if decide (j = b + (bc_a ins + 3)) then Some (f64_of_int i) else slot s j).
  { intros j. rewrite S4. case_decide; [done|]. rewrite S3. case_decide as D3; [by rewrite D3|].
    rewrite S2. case_decide as D2; [by rewrite D2|]. rewrite S1. case_decide as D1; [by rewrite D1|done]. }
  split; [|by rewrite Hold, decide_True by done].
  apply (for_regs_write b _ i stop step _ s); [done|lia|..]; unfold FORL_IDX, FORL_STOP, FORL_STEP.
  - by rewrite Hold, decide_False by lia.
  - intros j Hj. by rewrite Hold, decide_False by lia.
Qed.

(** *** The loop *)

(** FORI, then the body and FORL until it falls through: the values of the
    variable, and the last state.  The body is any function of the state. *)
Fixpoint turns (n : nat) (b ip ins : Z) (body : Vm -> Vm) s : option (list LuaValue * Vm) :=
  match n with
  | O => None
  | S n =>
      let? v := slot s (b + (bc_a ins + FORL_EXT)) in
      let s := body s in
      match forl_arm (frame_of b s) ip ins s with
      | Ok (Next _ ip') s =>
          if ip' =? ip then Some ([v], s) else let? ' (vs, s) := turns n b ip ins body s in Some (v :: vs, s)
      | _ => None
      end
  end.
Definition for_loop (n : nat) (b ip0 ins0 ip ins : Z) (body : Vm -> Vm) s : option (list LuaValue * Vm) :=
  match fori_arm (frame_of b s) ip0 ins0 s with
  | Ok (Next _ ip') s => if ip' =? ip0 then turns n b ip ins body s else Some ([], s)
  | _ => None
  end.

(** The body leaves the three registers of the loop; it may write the
    variable, and grow the stack. *)
Definition body_keeps (b a : Z) (body : Vm -> Vm) : Prop := forall s,
  slots s <= slots (body s) /\
  forall c, c = FORL_IDX \/ c = FORL_STOP \/ c = FORL_STEP -> slot (body s) (b + (a + c)) = slot s (b + (a + c)).

Lemma turns_int b a ip ins body stop step : bc_a ins = a -> bc_j ins <> 0 -> body_keeps b a body ->
  Z.abs stop < 2 ^ 52 -> Z.abs step < 2 ^ 52 -> step <> 0 ->
  forall n i s, for_regs b a i stop step s -> slot s (b + (a + FORL_EXT)) = Some (f64_of_int i) ->
    Z.abs i < 2 ^ 52 -> in_range i stop step = true -> (Z.to_nat (for_count i stop step) <= n)%nat ->
    exists s', turns n b ip ins body s = Some (map f64_of_int (progression (Z.to_nat (for_count i stop step)) i step), s').
Proof.
  intros Ha Hj Hbody Hs Ht Hz. induction n as [|n IH]; intros i s R Hv Hi Hr Hn.
  { pose proof (for_count_next i stop step Hz Hr). pose proof (for_count_nonneg (i + step) stop step). lia. }
  cbn [turns]. rewrite Ha, Hv. pose proof (for_count_next i stop step Hz Hr) as Hc. pose proof (for_count_nonneg (i + step) stop step) as H0'.
  destruct (Hbody s) as [Hl Hk].
  assert (R1 : for_regs b a i stop step (body s)).
  { pose proof R as [? Ri ? ?]. apply (for_regs_write b a i stop step i s); [done|done|rewrite Hk by auto; done|].
    intros j [-> | ->]; apply Hk; auto. }
  pose proof (forl_int b a i stop step ip ins (body s) Ha R1 ltac:(lia) ltac:(lia) ltac:(lia) ltac:(lia)) as Hf.
  rewrite Hc. rewrite Z2Nat.inj_add, Nat.add_comm by lia. cbn [progression Nat.add Z.to_nat Pos.to_nat]. change (Pos.to_nat 1) with 1%nat.
  destruct (in_range (i + step) stop step) eqn:Hr2.
  - destruct Hf as (s2 & E2 & R2 & V2). rewrite E2. rewrite (proj2 (Z.eqb_neq _ _)) by lia.
    destruct (IH (i + step) s2 R2 V2) as (s3 & E3); [|done|lia|].
    { revert Hr Hr2. unfold in_range. destruct (Z.leb_spec 0 step); intros ?%Z.leb_le ?%Z.leb_le; lia. }
    rewrite E3. cbn. by exists s3.
  - rewrite Hf, Z.eqb_refl, (for_count_zero (i + step)) by done. cbn. by eexists.
Qed.

(** C11. A numeric for over integers, of magnitude below 2^52 and with a step
    that is not zero, ends, and its variable takes exactly the values of the
    progression: [start], [start + step], ... as long as the limit is not
    passed, none when it is passed at once; doubles and all, and whatever the
    body does outside the three registers of the loop, writes to the variable
    and a growth of the stack included. *)
Theorem numeric_for b a ip0 ins0 ip ins body start stop step s (Ha0 : bc_a ins0 = a) (Ha : bc_a ins = a)
    (Hj0 : bc_j ins0 <> 0) (Hj : bc_j ins <> 0) (Hbody : body_keeps b a body) (Hregs : for_regs b a start stop step s)
    (Hstart : Z.abs start < 2 ^ 52) (Hstop : Z.abs stop < 2 ^ 52) (Hstep : Z.abs step < 2 ^ 52) (Hz : step <> 0) :
  forall n, (Z.to_nat (for_count start stop step) <= n)%nat ->
  exists s', for_loop n b ip0 ins0 ip ins body s =
    Some (map f64_of_int (progression (Z.to_nat (for_count start stop step)) start step), s').
Proof.
  intros n Hn. unfold for_loop.
  destruct (fori_int b a start stop step ip0 ins0 s Ha0 Hregs ltac:(lia) ltac:(lia) ltac:(lia)) as (s1 & E1 & R1 & V1). rewrite E1.
  destruct (in_range start stop step) eqn:Hr.
  - rewrite Z.eqb_refl. by apply turns_int with a.
  - rewrite (proj2 (Z.eqb_neq _ _)) by lia. rewrite for_count_zero by done. by eexists.
Qed.
End For.
