(* ===== verification/VmRun.v ===== *)
(** * The interpreter over the interner

    Sources compiled and run here show what the model computes; then states on
    which the hypotheses of the interpreter's theorems hold. *)

From Stdlib Require Import ZArith Lia Bool Ascii String.
From stdpp Require Import base decidable numbers option gmap list.
From S2P Require Import Prelude Float64 Value Strings StringsIntern Intern FloatText PatClass Ir Fold StrFmt Bytecode Table TableHash TableRehash TableInv TableSpec Parse ParseState ParseIntern VmState VmValue VmFrame VmMeta VmStep Vm VmSpec VmCall VmMetaCall VmUpval VmIndex VmNum.
From S2P Require Dump.

#[global] Instance interner_hash `{Layout} : StrHash StringsIntern.Table := {|
  str_intern_hash := fun t b hash =>
    let '(m, it, p) := t in
    let? ' (m, it, id) := Intern.intern_with_hash m it b hash p in Some ((m, it, p + 64), id);
|}.

#[local] Instance demo_libm : Libm := {| powf := fun x _ => x |}.

#[local] Abbreviation M := (@M StringsIntern.Table).
#[local] Notation "'let!' x := a 'in' b" := (bind a (fun x => b)) (at level 10, x name, a at level 100, b at level 200).
#[local] Notation "'do!' a 'in' b" := (bind a (fun _ => b)) (at level 10, a at level 100, b at level 200).

(** Some builtins: [setmetatable], [error], [select('#', ...)], one that grows
    the stack, and [coroutine.yield]. *)
Definition arg (i : Z) : M LuaValue := let! b := getl l_base in at_ (b + i).
Definition nargs : M Z := getl (fun x => top x - l_base x).

#[local] Instance demo_builtins : Builtins StringsIntern.Table := {|
  c_function f :=
    match f with
    | 1 =>
        let! t := arg 0 in
        let! mt := arg 1 in
        let! p := lift (as_table t) in
        let! tb := table_at p in
        do! table_set_at p (mkTable (array tb) (node tb) (asize tb) (hmask tb) (freetop tb) (nomm tb) (as_table mt)) in
        ret 1
    | 2 => let! v := arg 0 in do! modl (set_errval v) in fail Runtime
    | 3 => let! n := nargs in do! (let! b := getl l_base in set_at b (int_value n)) in ret 1
    | 4 => do! (let! n := stack_len in stack_ensure n) in ret 1
    | 5 => let! n := nargs in do! modl (set_nyield n) in fail Yield
    | _ => stuck
    end
|}.

Fixpoint intern_names (names : list (list Z)) : M (list LuaValue) :=
  match names with
  | [] => ret []
  | n :: names =>
      let! sid := intern n in let! v := str_value sid in let! vs := intern_names names in ret (v :: vs)
  end.

Definition define (name : list Z) (f : Z) : M unit :=
  let! g := geth globals in
  let! p := alloc_func (FC f g []) in
  let! sid := intern name in
  let! k := str_value sid in
  tab_set_str g k (Value.func p).

Definition demo_heap : GcHeap :=
  mkGcHeap (StringsIntern.demo_table 0x3000) ∅ ∅ ∅ ∅ ∅ ∅ ∅ 0x10000000 0 (replicate 16 None) [] None.
Definition demo_state (main : bool) : Vm := mkVm (state_new demo_heap main) interp_new.

Definition demo_setup : M unit :=
  let! t := lift (Table.new 0 0) in
  let! g := alloc_table t in
  do! modh (set_globals g) in
  do! modl (set_thread_env g) in
  let! names := intern_names MM_NAMES in
  do! modh (set_mmnames names) in
  do! define (lit "setmetatable") 1 in
  do! define (lit "error") 2 in
  do! define (lit "count") 3 in
  do! define (lit "grow") 4 in
  define (lit "yield") 5.

(** What a source returns, as text; its error message; a panic; or no result. *)
Inductive Outcome := Returns (vs : list (list Z)) | Raises (e : list Z) | Yields | Panics | Undecided.

Definition show_value (v : LuaValue) : M (list Z) :=
  let! sid := as_string_id v in
  match sid with
  | Some sid => str_static sid
  | None => match as_number v with
            | Some n => lift (g14 n)
            | None => ret (if is_true v then lit "true" else if is_false v then lit "false" else lua_typename v)
            end
  end.
Fixpoint show_values (vs : list LuaValue) : M (list (list Z)) :=
  match vs with
  | [] => ret []
  | v :: vs => let! x := show_value v in let! xs := show_values vs in ret (x :: xs)
  end.

Definition run_source (main : bool) (fuel : nat) (text : String.string) : Outcome :=
  let r :=
    (do! demo_setup in
     let! f := load_text true (lit text) (lit "=t") in
     match f with
     | inl f => let! vs := call fuel f [] in let! xs := show_values vs in ret (Returns xs)
     | inr e => ret (match e with Some e => Raises e | None => Panics end)
     end) (demo_state main) in
  match r with
  | Ok o _ => o
  | Fail Runtime s =>
      match (let! e := getl errval in show_value e) s with Ok e _ => Raises e | _ => Panics end
  | Fail Yield _ => Yields
  | Stuck => Panics
  | NoFuel => Undecided
  end.

Definition outs (xs : list String.string) : Outcome := Returns (map lit xs).

Example run1 : run_source true 1000 "local a, b = 1, 2 return a + b, a < b" = outs ["3"; "true"]%string.
Proof. vm_compute. reflexivity. Qed.

(** Calls, closures, varargs, metamethods and tail calls. *)

Example run_fib : run_source true 3000 "local function fib(n) if n < 2 then return n end return fib(n - 1) + fib(n - 2) end return fib(7)" = outs ["13"]%string.
Proof. vm_compute. reflexivity. Qed.

Example run_closures : run_source true 3000 "local function counter() local c = 0 return function() c = c + 1 return c end end local a, b = counter(), counter() a() return a(), b()" = outs ["2"; "1"]%string.
Proof. vm_compute. reflexivity. Qed.

Example run_varargs : run_source true 3000 "local function f(a, ...) return count(...), ... end return f(1, 2, 3)" = outs ["2"; "2"; "3"]%string.
Proof. vm_compute. reflexivity. Qed.

Example run_meta : run_source true 3000 "local v = setmetatable({x = 1}, {__index = function(t, k) return k .. '!' end, __add = function(a, b) return b end}) return v.x, v.y, v + 5" = outs ["1"; "y!"; "5"]%string.
Proof. vm_compute. reflexivity. Qed.

Example run_meta2 : run_source true 3000 "local t = setmetatable({}, {__lt = function() return true end, __call = function(self, x) return x end, __concat = function(a, b) return 'c' end}) return t < t, t(3), t .. 'x'" = outs ["true"; "3"; "c"]%string.
Proof. vm_compute. reflexivity. Qed.

Example run_tailcall : run_source true 3000 "local function f(n) if n == 0 then return 'done' end return f(n - 1) end return f(50)" = outs ["done"]%string.
Proof. vm_compute. reflexivity. Qed.

(** Errors name the variable of the failing instruction. *)

Example run_error_local : run_source true 1000 "local t t.x = 1" = Raises (lit "t:1: attempt to index local 't' (a nil value)").
Proof. vm_compute. reflexivity. Qed.
Example run_error_global : run_source true 1000 "undefinedf(1)" = Raises (lit "t:1: attempt to call global 'undefinedf' (a nil value)").
Proof. vm_compute. reflexivity. Qed.

(** The search for the name reads operand A of IST and ISF, whose operand is D. *)
Example run_error_noname : run_source true 1000 "undefinedf(x and y or z)" = Raises (lit "t:1: attempt to call a nil value").
Proof. vm_compute. reflexivity. Qed.
(** It does not end on a cycle of moves. *)
Example run_error_cycle : run_source true 1000 "do local a, b = 1, 2; a, b = b, a end undefined()" = Undecided.
Proof. vm_compute. reflexivity. Qed.

(** The stack of a coroutine has a bound, which frames of metamethods do not
    check. *)
Example run_overflow : run_source false 20000 "local function f(n) return 1 + f(n + 1) end return f(1)" = Raises (lit "t:1: stack overflow").
Proof. vm_compute. reflexivity. Qed.
Example run_overflow_meta :
  run_source false 20000 "local mt = {} mt.__index = function(t, k) return t[k] end local t = setmetatable({}, mt) return t.x" = Panics.
Proof. vm_compute. reflexivity. Qed.

(** A builtin metamethod that grows the stack leaves the register window dangling. *)
Example run_dangling : run_source true 1000 "return setmetatable({}, {__add = grow}) + 1" = Panics.
Proof. vm_compute. reflexivity. Qed.

(** Folding a bit operation rounds its operand where the instruction truncates. *)
Example run_bit_fold : run_source true 1000 "local x = 2.7 return 2.7 | 0, x | 0" = outs ["3"; "2"]%string.
Proof. vm_compute. reflexivity. Qed.

(** ** Instances of the interpreter's theorems

    Small states of the machine where the hypotheses of the theorems on calls,
    metamethods, varargs, upvalues, the metamethod cache, folding and fuel hold. *)



(** A caller with a frame of four registers at slot 2, a function of one
    parameter and a vararg one, and a CALL of one argument and one result. *)
Definition w_pt0 : VmProto := VmProto.mk [] [] [] [] [] [] 0 0 4 0 [] [] None 0x40000000.
Definition w_pt (va : bool) : VmProto :=
  VmProto.mk [] [] [] [] [] [] (if va then PROTO_VARARG else 0) 1 2 0 [] [] None 0x50000000.
Definition w_fn (p : Z) : LuaValue := Value.func p.
Definition w_heap : @GcHeap StringsIntern.Table :=
  set_code {[0x40000000 := bcins_abc BCOp.CALL 1 2 2; 0x40000004 := bcins_ad BCOp.JMP 0 (BCBIAS_J + 3)]}
    (set_funcs {[0x200 := FLua 0x100 0 []; 0x210 := FLua 0x110 0 []; 0x220 := FLua 0x120 0 []]}
      (set_protos {[0x100 := w_pt0; 0x110 := w_pt false; 0x120 := w_pt true]} demo_heap)).
Definition w_stack : list LuaValue :=
  [w_fn 0x200; FRAME_C; NIL; w_fn 0x210; NIL; int_value 7; int_value 8; NIL; NIL; NIL; NIL; NIL].
Definition w_state : @Vm StringsIntern.Table :=
  mkVm (set_stack w_stack (state_new w_heap false)) (mkInterp 2 1 0x200 0x40000000 [] [] 0).
Definition w_frame : Frame := mkFrame 12 2.

Lemma w_lua p b : (p, b) = (0x110, false) \/ (p, b) = (0x120, true) -> lua_func w_heap (w_fn (p + 0x100)) (p + 0x100) (w_pt b).
Proof. intros [[= -> ->]|[= -> ->]]; (split; [done|]); [exists 0x110, 0, []|exists 0x120, 0, []]; done. Qed.
Lemma w_lua0 : lua_func w_heap (w_fn 0x200) 0x200 w_pt0.
Proof. split; [done|]. by exists 0x100, 0, []. Qed.

Lemma w_ready : call_ready w_frame 1 1 0x210 (w_fn 0x210) (w_pt false) w_state.
Proof. split; try (vm_compute; intuition congruence). exact (w_lua 0x110 false (or_introl eq_refl)). Qed.


(** A metamethod of one parameter called with two arguments; it returns its
    parameter, to register 2 of the caller. *)
Lemma w_mm_ready cont : mm_ready (w_fn 0x210) [int_value 7; int_value 8] 0x210 w_pt0 (w_pt false) (w_fn 0x200) w_state /\
  cont_decode (cont_encode cont 2) = Some (cont, 2).
Proof.
  split; [|by apply cont_decode_encode; vm_compute].
  split; try (vm_compute; intuition congruence); [exact w_lua0|exact (w_lua 0x110 false (or_introl eq_refl))].
Qed.


(** Two varargs wanted of one. *)
Lemma w_vready : call_ready w_frame 1 2 0x220 (w_fn 0x220) (w_pt true)
  (mkVm (set_stack (<[3%nat := w_fn 0x220]> w_stack) (l w_state)) (it w_state)).
Proof. split; try (vm_compute; intuition congruence). exact (w_lua 0x120 true (or_intror eq_refl)). Qed.
Lemma varargs_of_call_witness : exists s1 callee s3,
  call_lua_fast 1 2 w_frame 0x40000004 (mkVm (set_stack (<[3%nat := w_fn 0x220]> w_stack) (l w_state)) (it w_state)) =
    Ok (Some (callee, 0x50000004)) s1 /\
  op_varg 1 3 s1 = Ok tt s3 /\ slot s3 (fbase callee + 1) = Some (int_value 8) /\ slot s3 (fbase callee + 2) = Some NIL.
Proof.
  destruct (varargs_of_call w_frame 1 2 0x220 (w_fn 0x220) (w_pt true) 0x40000004 _ w_vready eq_refl) as (s1 & callee & E & V).
  match type of E with ?x = _ => set (r := x) in * end.
  assert (s1 = match r with Ok _ s => s | _ => w_state end) as E1 by (by rewrite E).
  assert (callee = match r with Ok (Some (f, _)) _ => f | _ => w_frame end) as E2 by (by rewrite E).
  destruct (V s1 1 3) as (s3 & E3 & _ & _ & S3 & _).
  - subst s1. split; try (vm_compute; intuition congruence). exact (w_lua 0x120 true (or_intror eq_refl)).
  - lia.
  - lia.
  - subst s1 callee. vm_compute. intuition congruence.
  - subst s1 callee. vm_compute. intuition congruence.
  - exists s1, callee, s3. split; [exact E|]. split; [exact E3|]. split.
    + refine (eq_trans _ (eq_trans (S3 0 ltac:(vm_compute; intuition congruence)) _)); [f_equal; lia|vm_compute; reflexivity].
    + refine (eq_trans _ (eq_trans (S3 1 ltac:(vm_compute; intuition congruence)) _)); [f_equal; lia|vm_compute; reflexivity].
Defined.

(** *** Upvalues: one open on slot 5, a closed one *)

Definition w_uvs : @Vm StringsIntern.Table :=
  mkVm (set_openuv [0x300] (set_heap (set_upvals {[0x300 := mkUpval (Some 5) NIL false; 0x310 := mkUpval None TRUE false]} w_heap)
    (l w_state))) (it w_state).

Lemma w_uvs_cell p u : cells w_uvs !! p = Some u -> p = 0x300 /\ u = mkUpval (Some 5) NIL false \/ p = 0x310 /\ u = mkUpval None TRUE false.
Proof.
  change (cells w_uvs) with ({[0x300 := mkUpval (Some 5) NIL false; 0x310 := mkUpval None TRUE false]} : gmap Z Upval).
  intros [[<- <-]|[_ [<- <-]%lookup_singleton_Some]]%lookup_insert_Some; [by left|by right].
Qed.
Lemma w_uvs_open p i : open_at w_uvs p i <-> p = 0x300 /\ i = 5.
Proof.
  split; [|intros [-> ->]; by eexists]. intros (u & [[-> ->]|[-> ->]]%w_uvs_cell & E); [by injection E as <-|done].
Qed.
Lemma w_uvs_ok : uv_ok w_uvs.
Proof.
  split.
  - apply NoDup_singleton.
  - intros p. change (openuv (l w_uvs)) with [0x300]. rewrite list_elem_of_singleton. split; [intros ->; exists 5; by apply w_uvs_open|].
    by intros (i & [-> _]%w_uvs_open).
  - intros p i [_ ->]%w_uvs_open. vm_compute. intuition congruence.
  - intros p q i [-> _]%w_uvs_open [-> _]%w_uvs_open. done.
  - intros p Hp. destruct (cells w_uvs !! p) eqn:E; [|done]. apply w_uvs_cell in E.
    change (next_block (heap (l w_uvs))) with 0x10000000 in Hp. lia.
Qed.

Lemma close_upvals_keeps_values_witness : exists s', close_upvals 4 w_uvs = Ok tt s' /\ uv_value s' 0x300 = Some (int_value 7).
Proof.
  destruct (close_upvals_keeps_values 4 w_uvs w_uvs_ok) as (s' & E & _ & _ & V). exists s'. split; [exact E|].
  destruct (V 0x300 (mkUpval (Some 5) NIL false) ltac:(reflexivity)) as (u & _ & -> & _). reflexivity.
Defined.

Lemma find_upval_shares_witness : exists p s', find_upval 6 w_uvs = Ok p s' /\ uv_value s' p = Some (int_value 8) /\ find_upval 6 s' = Ok p s'.
Proof.
  destruct (find_upval_shares w_uvs 6 w_uvs_ok ltac:(vm_compute; intuition congruence)) as (p & s' & E & _ & _ & V & _ & _ & F).
  exists p, s'. split; [exact E|]. split; [exact V|exact F].
Defined.

(** *** The metamethod cache

    A table, its metatable with an [__index] to a third table and bits for two
    names it lacks, and a table without a hash part. *)

Definition w_tables : @Vm StringsIntern.Table :=
  match (do! demo_setup in
         let! t := lift (Table.new 0 1) in
         let! mt := lift (Table.new 0 1) in
         let! t2 := lift (Table.new 4 0) in
         let! p2 := alloc_table t2 in
         do! tab_set_int p2 1 TRUE in
         let! p1 := alloc_table mt in
         let! names := geth mmnames in
         let! k := lift (znth names (MM.code MM.Index)) in
         do! tab_set_str p1 k (Value.table p2) in
         let! _ := meta_fast (Some p1) MM.Newindex in
         let! p0 := alloc_table (mkTable (array t) (node t) (asize t) (hmask t) (freetop t) (nomm t) (Some p1)) in
         do! modl (set_errval (Value.table p0)) in
         let! _ := meta_fast (Some p1) MM.Len in
         ret tt) (demo_state true) with Ok _ s => s | _ => demo_state true end.
Definition w_cache : @Vm StringsIntern.Table := with_table 0x400 TableSpec.demo_table w_tables.

Definition MMS : list MM.t :=
  [MM.Index; MM.Newindex; MM.Gc; MM.Mode; MM.Eq; MM.Len; MM.Lt; MM.Le; MM.Concat; MM.Call; MM.Add; MM.Sub; MM.Mul; MM.Div;
   MM.Mod; MM.Pow; MM.Unm; MM.Metatable; MM.Tostring; MM.Pairs; MM.Ipairs].
Lemma MMS_all mm : In mm MMS.
Proof. destruct mm; vm_compute; tauto. Qed.

Definition cache_okb (s : @Vm StringsIntern.Table) (t : LuaTable) : bool :=
  forallb (fun mm =>
    match name s mm with
    | Some k => (Z.land (nomm t) (mm_mask mm) =? 0) || match raw_str s t k with Some v => is_nil v | None => false end
    | None => true
    end) MMS.
Lemma cache_ok_check s : map_Forall (fun _ t => cache_okb s t = true) (tables (heap (l s))) -> cache_ok s.
Proof.
  intros Hall p t mm k Et Ek Hb. pose proof (Hall p t Et) as Ht. unfold cache_okb in Ht. rewrite forallb_forall in Ht.
  specialize (Ht mm (MMS_all mm)). rewrite Ek in Ht. rewrite (proj2 (Z.eqb_neq _ _) Hb) in Ht. cbn [orb] in Ht.
  destruct (raw_str s t k) as [v|]; [by exists v|done].
Qed.
Lemma w_cache_ok : cache_ok w_cache.
Proof. apply cache_ok_check. apply (bool_decide_unpack _). vm_compute. exact I. Qed.

(** A key that is a string of a known address. *)
Ltac str_key := match goal with |- key_ok ?v =>
  let p := eval vm_compute in (gc_addr v) in
  split_and!; [split; [split; done|right; right; right; right; exists TagStr, p; split; [split; done|done]]|done|done] end.

Lemma w_names_ok : names_ok w_cache.
Proof. intros mm k E. destruct mm; vm_compute in E; injection E as <-; (split; [reflexivity|str_key]). Qed.

Definition w_index : LuaValue := match name w_cache MM.Index with Some k => k | None => NIL end.

(** The first table's 1 is the third's. *)
Lemma meta_tget_chain_witness : exists s', meta_tget (errval (l w_tables)) (int_value 1) 0 w_tables = Ok (Some TRUE) s' /\ cache_ok s'.
Proof.
  destruct (meta_tget_chain w_tables (errval (l w_tables)) (int_value 1) 0 TRUE) as (s' & E & C & _).
  - apply cache_ok_check, (bool_decide_unpack _). vm_compute. exact I.
  - vm_compute. reflexivity.
  - exists s'. split; [exact E|exact C].
Defined.

(** *** Folding [2 + 3] *)

Definition w_num (n : Z) : ExpDesc := ExpDesc.set_nval (f64_of_int n) (ExpDesc.init ExpKind.VKNum 0).
(** [2 + 3] with the 2 in a register and the 3 a constant. *)
Definition w_parser : option (Parser StringsIntern.Table) :=
  match parser_new (lit "return 2 + 3") (lit "=t") (StringsIntern.demo_table 0x3000) true with Ran p => Some p | _ => None end.

(** *** [for i = 10, 3, -2 do end] *)

Definition w_for : @Vm StringsIntern.Table :=
  mkVm (set_stack [w_fn 0x200; FRAME_C; f64_of_int 10; f64_of_int 3; f64_of_int (-2); NIL; NIL] (l w_state)) (it w_state).
Lemma numeric_for_witness : exists s',
  for_loop 10 2 0x40000004 (bcins_ad BCOp.FORI 0 (BCBIAS_J + 5)) 0x40000010 (bcins_ad BCOp.FORL 0 (BCBIAS_J - 3)) (fun s => s) w_for =
    Some (map f64_of_int [10; 8; 6; 4], s').
Proof.
  apply (numeric_for 2 0 0x40000004 (bcins_ad BCOp.FORI 0 (BCBIAS_J + 5)) 0x40000010 (bcins_ad BCOp.FORL 0 (BCBIAS_J - 3))
    (fun s => s) 10 3 (-2) w_for eq_refl eq_refl ltac:(vm_compute; discriminate) ltac:(vm_compute; discriminate)).
  - intros s. split; [lia|done].
  - split; [vm_compute; intuition congruence|reflexivity..].
  - lia.
  - lia.
  - lia.
  - lia.
  - vm_compute. lia.
Defined.

(** *** Fuel *)

Definition w_source : (LuaValue + option (list Z)) * @Vm StringsIntern.Table :=
  match (do! demo_setup in
         load_text true (lit "local s = 0 for i = 1, ... do s = s + i end return s") (lit "=t")) (demo_state true) with
  | Ok f s => (f, s) | _ => (inr None, demo_state true) end.
Definition w_main : LuaValue := match fst w_source with inl f => f | inr _ => NIL end.

(** With fuel for 40 instructions the sum to 5 is done, and with more. *)
Lemma call_fuel_witness : exists s, call 1000 w_main [int_value 5] (snd w_source) = Ok [int_value 15] s.
Proof.
  rewrite (call_fuel 40 1000 w_main [int_value 5] (snd w_source) ltac:(lia) ltac:(vm_compute; discriminate)).
  eexists. vm_compute. reflexivity.
Defined.
